(* ===== verification/_CoqProject ===== *)
-Q . S2P
Prelude.v
BitQueue.v
Countries.v
CountryBlockStream.v
CountryBlockSerde.v
CountryFinder.v
IpCountry.v
CountryData.v
IpCountryCsv.v
DbipCountry.v
IpCountryMmdb.v
Utils.v
Collections.v
SequenceBuffer.v
StreamWriters.v
Framer.v
TlsFramer.v
JsonFramer.v
HttpFramer.v
TlsHost.v
PortMapping.v
Dns.v
NeighborhoodDatabase.v
Gossip.v
ConnectionStatus.v
Routing.v
ExitPreferences.v
GossipAcceptor.v
Cryptde.v
Route.v
VersionedData.v
Hopper.v
RouteQuery.v
NeighborhoodActor.v
BigInt.v
Thresholds.v
AccountingTables.v
Scanners.v
Accountant.v
Books.v
PaymentCycle.v
ProtocolPacks.v
ProxyServer.v
ProxyRequests.v
ProxyLife.v
ConfigParams.v
ConfigLayers.v
PersistentConfig.v
Settings.v
ProxyClient.v
ExitStreams.v
ExitLife.v
Masquerade.v
StreamPool.v
BlockchainBridge.v
Transactors.v
AutomapControl.v
Housekeeping.v
