(* ===== verification/Prelude.v ===== *)
(** * A verification development for the MASQ Node

    The repository is the MASQ Node, a peer-to-peer mesh node written in Rust.
    Traffic of a client enters a Node through its proxy server, is cut into
    packets, travels through other Nodes as encrypted packages and leaves to the
    internet at an exit Node; a country finder tells where an exit Node is, and a
    port-mapping crate opens the router.  This development models the parts of
    it that compute: the country data crate, the machinery that turns byte
    streams into packets and packets into byte streams, the port-mapping
    protocols, the database of known Nodes with the search for routes through
    them, the encrypted packages that follow these routes, the proxy server that
    sends them, the streams that carry them between nodes and the proxy client that
    answers them at the exit, the accountant
    that books what services cost, the bridge that pays for them, and the configuration that all
    of them read.  Rust functions become
    functions here, with the names of the source wherever that is possible.

    ** Conventions

    - A computation that can panic has a type [run A] ([Ret] or [Panic], this
      file); [Result] is [result E A] and [?] is the notation [x <-? m ; k].
    - Integers are [Z] kept in range by [wrap], or [nat] for sizes and indexes.
      Subtractions of unsigned numbers, shifts, indexing and slicing are checked
      ([usub], [shl], [get], [slice], [split_off]), so a proof that a run returns
      shows that none of these panics.  Additions of sizes that stay below the
      length of the data are not checked.
    - Bytes are [Z]; addresses are the integers they denote.
    - Logging is left out, except where errors are collected.
    - Code outside the repository is a parameter: the sinks that are written to,
      the reader of MaxMind databases, the network prefixes, the two regular
      expressions of the HTTP framer, the answers of channels and sockets, the
      encryption of secrets in the database, hexadecimal text, JSON and Base64, the
      server of the blockchain, routers.
    - A loop whose recursion is not structural takes fuel.  Running out of it is
      either a panic or [None], so that a theorem which says that the loop
      returns also says that the fuel is enough: 2 for the gap-filling recursion
      of the serializer, the number of stored bits for the deserializer, the
      length of the input for every search in bytes, the number of known Nodes
      for the search for routes, one more than the number of versions for the
      search for migrations, the number of hops for a package under way.
    - The order in which a hash map or hash set is iterated, or in which the
      database returns rows, is a parameter, and the theorems hold for every
      order.
    - A table of the database is a finite map from its key to rows; an SQL
      statement is a function on it that fails where SQLite does, on an integer
      that does not fit its column or on a repeated unique value.

    ** The country data crate ([ip_country/src])

    - [BitQueue.v], Module [BitQueue] ([bit_queue.rs]): the byte-level queue.
      The relation [rep q l] says that the bytes of [q] store the bits [l]; every
      operation is the one on lists.
    - [Countries.v], Module [Countries] ([countries.rs]): the table of countries.
    - [CountryBlockStream.v], Module [Stream] ([country_block_stream.rs]):
      addresses, ranges, comparison.
    - [CountryBlockSerde.v], Module [Serde] ([country_block_serde.rs]): the
      compressed format, generic in the address version through the class
      [IPType] with instances [Ipv4] and [Ipv6]; [fill] and [enc] are what the
      format stands for.
    - [CountryFinder.v], Module [Finder] ([country_finder.rs]): construction and
      search of the finder.
    - [IpCountry.v], Module [IpCountry] ([ip_country.rs]): the generated source,
      write by write, and the program's exit code.
    - [CountryData.v], Module [Tables]: the two tables of countries and the
      shipped data ([ip_country_csv.rs], [dbip_country.rs]).
    - [IpCountryCsv.v], Modules [NetParser] and [Csv] ([ip_country_csv.rs]):
      address syntax and the CSV parser.
    - [DbipCountry.v], Module [Dbip] ([dbip_country.rs]): the static finder.
    - [IpCountryMmdb.v], Module [Mmdb] ([ip_country_mmdb.rs]): classification,
      coalescing and resolution of database items.

    The theorems show that the queue refines a list of bits, that blocks which
    are serialized, printed as source, read back and searched give for every
    address the country of the block around it, that both parsers hand exactly
    the right blocks to the serializer, and that the shipped tables are what the
    generator would write for the blocks they hold.

    ** Streams and packets ([node/src], [masq_lib/src])

    - [Utils.v], Module [Utils] ([masq_lib/src/utils.rs]): slice search.
    - [SequenceBuffer.v], Module [SequenceBuffer]
      ([sub_lib/sequence_buffer.rs], [sub_lib/sequencer.rs]): packets, their byte
      format and the reordering buffer; the class [PacketBufferOk] is what it
      promises to its clients.
    - [StreamWriters.v], Module [Writers] ([stream_writer_sorted.rs],
      [stream_writer_unsorted.rs]): the two writer tasks, for any answers of
      channel and socket; the sorted one is proved against the interface.
    - [Framer.v], Module [Framer] ([sub_lib/framer.rs], [discriminator.rs],
      [masquerader.rs], [null_masquerader.rs]): the class of framers and the
      discriminator.
    - [TlsFramer.v] ([Tls], [sub_lib/tls_framer.rs]), [JsonFramer.v] ([Json],
      [json_framer.rs]), [HttpFramer.v] ([Http], [sub_lib/framer_utils.rs],
      [sub_lib/http_packet_framer.rs] and the two start finders): the framers.
    - [TlsHost.v], Modules [Traverser] and [TlsPack]
      ([sub_lib/binary_traverser.rs], [proxy_server/tls_protocol_pack.rs]): the
      host name of a ClientHello.
    - [Collections.v], Modules [Bidi], [Ttl], [Limiter]
      ([sub_lib/bidi_hashmap.rs], [sub_lib/ttl_hashmap.rs],
      [sub_lib/limiter.rs]).

    The theorems show that packets come out of the buffer in order, once, first
    arrival first; that a writer neither loses, repeats nor reorders bytes
    whatever the socket answers; that framing does not depend on how the stream
    is cut (and, for TLS, which cuts lose data); that records, objects and
    chunks are framed whole, and an HTTP packet as far as the headers written
    into it announce; and that the host name of a ClientHello is found.

    ** Port mapping ([automap/src])

    - [PortMapping.v], Modules [Pcp] and [Pmp] ([protocols]): both packet formats,
      with round trips, short buffers and totality of parsing.
    - [Transactors.v], Module [Transactors] ([comm_layer]): the protocols PCP, PMP and
      IGDP over a network that is a class of answers ([Network]), with the turns of
      their housekeeping threads.
    - [AutomapControl.v], Module [AutomapControl] ([control_layer]): the control, and
      what it asks of transactors (the class [Housekept]).
    - [Housekeeping.v], Module [Housekeeping]: the instance of that class for the real
      transactors, the life of the control, and a mapping under the PCP thread.

    The theorems show that packets of both formats come out of a buffer as they
    went in; that the control keeps exactly one housekeeper up to the first
    deletion, as long as no attempt with IGDP has failed and no stray packet
    comes back for a PMP request for the public address; and that a port mapped
    with PCP is mapped again before its lease runs out, at a router that grants it.

    ** The DNS responder ([node/src/entry_dns])

    - [Dns.v], Module [Dns] ([packet_facade.rs], [processing.rs]): DNS packets in
      a buffer and the answer to a request; [packet] and [facade_of] say what
      packet a buffer holds.  Every question for an address is answered with
      the local host.

    ** The neighborhood ([node/src/neighborhood])

    - [NeighborhoodDatabase.v], Module [Neighborhood] ([node_record.rs],
      [neighborhood_database.rs]): node records and the database of nodes.
    - [Gossip.v], Module [Gossip] ([gossip.rs], [gossip_producer.rs]): what a
      node tells its neighbors.
    - [ConnectionStatus.v], Module [ConnectionStatus]
      ([overall_connection_status.rs] and its handlers in [mod.rs]): the life of
      the first connections, as a step relation and as a table.
    - [GossipAcceptor.v], Module [GossipAcceptor] ([gossip_acceptor.rs]): what a
      node does with gossip that comes in.
    - [Routing.v], Module [Routing] ([mod.rs]): the search for the best route and
      for exits; [valid_route] and [route_cost] say what is searched for.
    - [ExitPreferences.v], Module [ExitPreferences] ([mod.rs]): the choice of
      exit countries and its effect on the search.
    - [RouteQuery.v], Module [RouteQuery] ([mod.rs]): the answer to a route
      query, over [Routing.v] and [Route.v].
    - [NeighborhoodActor.v], Module [NeighborhoodActor] ([mod.rs]): the actor's
      state and every message it handles, over the files above; [lifetime] runs
      it from its start through any [admissible] messages, which leave out
      those that take this node's own record or address away.

    The theorems show that the two indexes of the database agree and that this
    node's record stays, whatever operations run, and which nodes are culled;
    that gossip covers every listed node and reveals no address its reader does
    not know; that no gossip that comes in can stop the node, make it lose or
    falsify what it knows or list more than its sender, that passes do not loop
    and that only the nearby network is taken in; that connections stay
    distinct, follow their life cycle and that the user interfaces are told
    every change; that the route found is a cheapest valid one although the
    search prunes; what a request for exit countries changes; that a query
    is answered with the best round trip; and that through admissible messages
    the actor's state stays such that its acceptor and its producer cannot panic.
    The clock that stamps passes is assumed not to run backwards.

    ** Packages ([node/src/hopper], [node/src/sub_lib])

    - [Cryptde.v], Module [Cryptde] ([sub_lib/cryptde.rs]) with Module [Null]
      ([sub_lib/cryptde_null.rs]): the interface of encryption ([CryptDE], and
      the class [KeyPairs] that says what a set of key pairs promises), the
      interface of serialization ([Codec], [CodecOk]) and the null
      implementation, which meets the promise.
    - [Route.v], Module [Route] ([sub_lib/route.rs], [sub_lib/hop.rs]): routes,
      encrypted hop by hop.
    - [VersionedData.v], Modules [DataVersion], [PackedVersion] and [Versioned]
      ([masq_lib/src/data_version.rs], [sub_lib/data_version.rs],
      [sub_lib/versioned_data.rs]): versions and migrations.
    - [Hopper.v], Module [Hopper] ([hopper/live_cores_package.rs],
      [hopper/consuming_service.rs], [hopper/routing_service.rs],
      [sub_lib/hopper.rs]): packages, and a network of nodes that pass them on.

    The theorems are proved against the interfaces.  They show that each node of
    a round trip reads its own hop and no other, that a request reaches the exit
    and the response comes back with the payments booked, that no service is
    given without a valid payment, and that data of an older version is migrated
    over a shortest chain of steps.

    ** The accountant ([node/src/accountant])

    - [BigInt.v], Modules [Signed] and [BigInt] ([db_big_integer], conversions of
      [mod.rs]): amounts of 128 bits in two columns of 64, and statements that add
      to them, with a carry repaired by a second statement; [value] is the amount
      that two columns stand for.
    - [Thresholds.v], Modules [Time] and [Thresholds]
      ([db_access_objects/utils.rs], [scanners_utils.rs], [sub_lib/accountant.rs]):
      points in time and the limit that a debt may reach at its age.
    - [AccountingTables.v], Module [Daos] ([db_access_objects]): the tables of
      payables, of pending payments, of receivables and of bans.
    - [Scanners.v], Module [Scanners] ([scanners], [payment_adjuster.rs]): the three
      scanners.
    - [Accountant.v], Module [Accountant] ([mod.rs], [financials.rs]): the actor's
      state and every message it handles.
    - [Books.v], Module [Books]: the ledger that the actor is measured against,
      what the other actors promise about their messages ([admissible]), and the
      life of the actor ([lifetime]).
    - [PaymentCycle.v], Module [PaymentCycle]: the handlers composed into the way of
      a payment from debt to receipt.

    The theorems show that through admissible messages the tables hold for every
    wallet what it was charged less what was paid, that a payment under way belongs
    to one debt that covers it, that bans in the table and in memory agree and that
    none of these messages stops the accountant; that an alarming debt is paid by
    one round of the two scanners when the bridge does its part; and that, while a
    permanent debt of less than 2^63 wei is allowed, a creditor bans nobody whose own
    accountant was not due to pay through the whole grace period.  The amounts are
    bounded by 2^92 wei, far above the supply of the token.

    ** The blockchain bridge ([node/src/blockchain])

    - [BlockchainBridge.v], Module [BlockchainBridge] ([blockchain_bridge.rs],
      [blockchain_interface_web3], the agent of [agent_web3.rs], the chains of
      [masq_lib/src/blockchains]): the actor that finds payments to the node, sends
      the batches of payments and asks for receipts.  The server of the blockchain
      is a record of answers ([Server]); signing is a parameter.

    The theorems show that over any number of scans the payments reported are those
    of the blocks gone through, each once, as long as the server is not behind
    itself; and that the bridge pays each account its balance with transactions that
    cost at most what was estimated, and reports them under their own hashes, which
    is the part that [PaymentCycle.v] asks of it.  What leaves the bridge is one
    ordered list, in which the hashes are announced before the batch is submitted.

    ** The proxy server ([node/src/proxy_server])

    - [ProtocolPacks.v], Module [ProtocolPacks] ([http_protocol_pack.rs],
      [protocol_pack.rs], [server_impersonator_http.rs],
      [server_impersonator_tls.rs], [client_request_payload_factory.rs]): the host
      of a request, payloads, and answers in the name of a server.
    - [ProxyServer.v], Module [ProxyServer] ([mod.rs]): the actor's state, every
      message it handles and the futures of its route queries.
    - [ProxyRequests.v], Module [ProxyRequests]: a request, from the answer of
      [RouteQuery.v] to the package and its price.
    - [ProxyLife.v], Module [ProxyLife]: histories of the actor as a step relation,
      in which its messages to itself arrive in any order.

    The theorems show that a request leaves over the best round trip, readable
    with the key of its exit and charged once with the right rates, or is
    answered with an error page; and that in every history a response reaches the
    one client whose stream it is for, is charged, and ends the stream when it is
    the last; exactly which messages, and which answers to route queries, make the
    actor panic; and that failures to resolve a host are retried at most three times
    before the client is told, whatever else happens between them.

    ** The proxy client ([node/src/proxy_client])

    - [ProxyClient.v], Module [ProxyClient] ([mod.rs], [stream_handler_pool.rs],
      [stream_establisher.rs], [stream_reader.rs], [stream_writer.rs],
      [sub_lib/stream_connector.rs]): the actor, the pool of streams to servers with
      the futures it spawns, and the two tasks of a stream; [step] interleaves them.
    - [ExitStreams.v], Module [ExitStreams]: the bytes of one stream.
    - [ExitLife.v], Module [ExitLife]: histories of the exit, judged by the list of
      what was done for clients ([Act]).

    The theorems show that in every history whose requests carry usable keys nothing
    panics, that everything done is due to a request, from a paying wallet when
    payment is demanded, that the charges are exactly those for what was done, that
    answers leave over the route of their stream and come from a server of that
    stream; that the writer to a server is the writer to a client; and that the
    bytes of a server come out of the writer to the client whatever happens to the
    packets in between.

    ** The streams of a node ([node/src])

    - [Masquerade.v], Module [Masquerade] ([json_masquerader.rs],
      [json_discriminator_factory.rs], [stream_reader.rs]): masking as JSON and the
      task that reads a stream; [SerdeOk] is what is asked of the JSON and Base64
      libraries.
    - [StreamPool.v], Module [StreamPool] ([stream_handler_pool.rs],
      [stream_messages.rs], [dispatcher.rs]): the pool of streams to neighbors and
      browsers, its life over any events ([Life], [step]), and the dispatcher.

    The theorems show that in every history in which the neighborhood answers with
    addresses that have ports each message given to the pool waits,
    is queued on a stream to the right peer or is dropped with a line in the log,
    exactly once, and no stream stays half open; and that what is queued for a
    neighbor comes out at the neighbor's hopper, in order and unchanged, however the
    bytes are written and read.

    ** The configuration ([node/src/db_config])

    - [ConfigParams.v], Module [ConfigParams] ([sub_lib/combined_parameters.rs], and
      the texts of hop counts, modes and protocols): settings as text.
    - [ConfigLayers.v], Module [ConfigLayers] ([config_dao.rs],
      [db_encryption_layer.rs], [secure_config_layer.rs], [typed_config_layer.rs],
      encryption of [blockchain/bip39.rs]): the table of settings and its layers.
    - [PersistentConfig.v], Module [PersistentConfig] ([persistent_configuration.rs],
      the initial table of [database/db_initializer.rs]): every getter and setter.
    - [Settings.v], Module [Settings]: a record of settings with a password, and
      when a table stores it ([holds]).

    The theorem shows that any operations on the table answer and store what the
    operations on the record do: every getter reads what was set last, a change of
    the password keeps every secret, and a secret is read with the password only.

    ** Behaviours that look unintended

    Some lemmas and examples state what the code does where that is hardly meant:
    stray high bits leak into the queue, a version without blocks cannot be read
    back, mixed versions stop the database parser, short packets crash the packet
    reader and the host finder, short reads are dropped by the TLS framer, bytes
    before the final chunk crash the HTTP framer, a migration step that leads
    nowhere and a large version number are panics, a second neighbor hides a route
    that was found, exit countries of earlier requests stay selected, a DNS packet
    that announces an answer it does not hold crashes the responder, gossip with
    one unknown node twice crashes the acceptor, the patch of the nearby
    network can miss near nodes, a hop count read from the database does not change
    the size of that patch, a stream that shuts down at the node's own address
    takes that address away, a permanent debt of more than 2^63 wei confuses the
    query for delinquents, a balance of minus one gwei is hidden, pending
    transactions are never given up, a receipt that overtakes the report of its
    payment stops the accountant, one tunnel shifts the numbers of everybody's
    responses, a stream can inherit the request of an earlier one from the same
    port, the result of a route query that comes after a response stops the
    proxy server, wallets are stored under a wrong password, a change of the
    password that fails midway leaves secrets under two passwords, a combined
    parameter with a piece that is not a number is a panic, a request with an unusable
    key stops an exit, packets that arrive at an exit too close together open a
    connection each, the end of a bad stream is numbered zero, the end of a stream
    takes the writer of a newer one to the same neighbor, a request is taken for a
    CONNECT by the middle of it, a bad frame holds up good ones, a blockchain server
    that is behind has payments counted twice, one that does not tell its latest
    block has payments missed, a limit on blocks is exceeded by one, a second failure
    to open a port with IGDP is a panic, a port deleted with PMP is opened again, only
    the last of several mapped ports is kept open, IGDP leases run out, and the
    shipped blocks do not hold the addresses that the tests look up in them.

    ** Not modelled

    Sockets, threads, timers, the engine of the SQL database, the server of the
    blockchain, terminals, websockets and operating-system configuration are input
    and output around the parts above.  Real encryption and signatures are done by
    libraries.  The daemon, the user interface, the reading of the command line and
    the bootstrapping of the actors are mostly such input and output and are left
    out; so are migrations of the database and the keys of wallets. *)
From Stdlib Require Export ZArith Lia.
From stdpp Require Export base list numbers strings gmap sorting.

(** ** The panic monad *)

(** A Rust computation either returns or panics.  Integer arithmetic follows
    the checked profile: an unsigned subtraction that would go below zero is a
    panic, so a proof that a run returns holds for both build profiles. *)
Inductive run (A : Type) : Type :=
| Ret (a : A)
| Panic.
Arguments Ret {A} a.
Arguments Panic {A}.

Global Instance run_eq_dec `{!EqDecision A} : EqDecision (run A).
Proof. solve_decision. Defined.

Global Instance run_ret : MRet run := @Ret.
Global Instance run_bind : MBind run :=
  λ A B f m, match m with Ret a => f a | Panic => Panic end.

(** Rust's [Result]. *)
Inductive result (E A : Type) : Type :=
| Ok (a : A)
| Err (e : E).
Arguments Ok {E A} a.
Arguments Err {E A} e.

Global Instance result_ret (E : Type) : MRet (result E) := λ A a, Ok a.
Global Instance result_bind (E : Type) : MBind (result E) :=
  λ A B f m, match m with Ok a => f a | Err e => Err e end.

(** Rust's [?] in a function that may also panic: an [Err] returns early. *)
Definition try_bind {E A B} (m : run (result E A)) (f : A → run (result E B))
    : run (result E B) :=
  match m with
  | Panic => Panic
  | Ret (Err e) => Ret (Err e)
  | Ret (Ok a) => f a
  end.

Declare Scope rust_scope.
Delimit Scope rust_scope with rust.
Notation "x <-? m ; k" := (try_bind m (λ x, k))
  (at level 20, m at level 100, k at level 200, only parsing) : rust_scope.
Notation "' pat <-? m ; k" := (try_bind m (λ x, match x with pat => k end))
  (at level 20, pat pattern, m at level 100, k at level 200, only parsing) : rust_scope.

(** [Option::expect] and [Result::expect]. *)
Definition expect {A} (o : option A) : run A :=
  match o with Some a => Ret a | None => Panic end.

Definition expect_ok {E A} (r : result E A) : run A :=
  match r with Ok a => Ret a | Err _ => Panic end.

(** Checked unsigned subtraction on [usize]. *)
Definition usub (a b : nat) : run nat :=
  if (b <=? a)%nat then Ret (a - b)%nat else Panic.

(** [panic_if c k]: [if c { panic!(..) }; k]. *)
Definition panic_if {A} (c : bool) (k : run A) : run A :=
  if c then Panic else k.

(** ** Machine integers *)

(** The value kept by a [w]-bit unsigned integer. *)
Definition wrap (w : Z) (z : Z) : Z := (z mod 2 ^ w)%Z.

Definition u8 (z : Z) : Z := wrap 8 z.
Definition u16 (z : Z) : Z := wrap 16 z.
Definition u32 (z : Z) : Z := wrap 32 z.
Definition u64 (z : Z) : Z := wrap 64 z.
Definition u128 (z : Z) : Z := wrap 128 z.

(** Shifts of a [w]-bit integer: the checked profile panics when the amount
    reaches the width; bits shifted out on the left are lost. *)
Definition shl (w : Z) (z : Z) (n : nat) : run Z :=
  if (Z.of_nat n <? w)%Z then Ret (wrap w (Z.shiftl z (Z.of_nat n))) else Panic.

Definition shr (w : Z) (z : Z) (n : nat) : run Z :=
  if (Z.of_nat n <? w)%Z then Ret (Z.shiftr z (Z.of_nat n)) else Panic.

(** Bitwise complement of a [w]-bit integer. *)
Definition wnot (w : Z) (z : Z) : Z := (2 ^ w - 1 - z)%Z.

(** ** Double-ended queues *)

Definition pop_back {A} (l : list A) : list A := removelast l.

(** Update in place of the last element, [back_mut().expect(..)]. *)
Definition map_back {A} (f : A → run A) (l : list A) : run (list A) :=
  b ← expect (last l); b' ← f b; Ret (removelast l ++ [b']).

(** Update in place of the first element, [front_mut().expect(..)]. *)
Definition map_front {A} (f : A → run A) (l : list A) : run (list A) :=
  match l with
  | [] => Panic
  | a :: l' => a' ← f a; Ret (a' :: l')
  end.

(** ** Slices and vectors *)

(** [l[i]]. *)
Definition get {A} (l : list A) (i : nat) : run A := expect (l !! i).

(** [&l[a..]]. *)
Definition slice_from {A} (l : list A) (a : nat) : run (list A) :=
  if (a <=? length l)%nat then Ret (drop a l) else Panic.

(** [&l[a..b]]. *)
Definition slice {A} (l : list A) (a b : nat) : run (list A) :=
  if (a <=? b)%nat && (b <=? length l)%nat then Ret (take (b - a) (drop a l)) else Panic.

(** [Vec::split_off]: what stays and what is returned. *)
Definition split_off {A} (l : list A) (at_ : nat) : run (list A * list A) :=
  if (at_ <=? length l)%nat then Ret (take at_ l, drop at_ l) else Panic.

(** ** Bits, least significant first *)

Fixpoint bits_of (n : nat) (z : Z) : list bool :=
  match n with
  | O => []
  | S n' => Z.odd z :: bits_of n' (Z.div2 z)
  end.

Fixpoint val_of (l : list bool) : Z :=
  match l with
  | [] => 0
  | b :: l' => (Z.b2z b + 2 * val_of l')%Z
  end.

(** ** Digits of [b] bits, most significant first *)

Definition be_digits (b n : nat) (z : Z) : list Z :=
  (λ i, (z / 2 ^ Z.of_nat (b * (n - 1 - i))) mod 2 ^ Z.of_nat b)%Z <$> seq 0 n.

Definition from_be_digits (b : nat) (ds : list Z) : Z :=
  foldl (λ acc d, acc * 2 ^ Z.of_nat b + d)%Z 0%Z ds.

(** ** Strings *)

(** [String::from_utf8]: well-formed UTF-8, by the ranges of the standard. *)
Definition continuation (lo hi : Z) (b : Z) : bool := ((lo <=? b) && (b <=? hi))%Z.

Fixpoint valid_utf8 (l : list Z) : bool :=
  match l with
  | [] => true
  | a :: l1 =>
      if (a <=? 0x7F)%Z then valid_utf8 l1
      else if continuation 0xC2 0xDF a then
        match l1 with
        | b :: l2 => continuation 0x80 0xBF b && valid_utf8 l2
        | _ => false
        end
      else if continuation 0xE0 0xEF a then
        match l1 with
        | b :: c :: l3 =>
            continuation (if (a =? 0xE0)%Z then 0xA0 else 0x80) (if (a =? 0xED)%Z then 0x9F else 0xBF) b
            && continuation 0x80 0xBF c && valid_utf8 l3
        | _ => false
        end
      else if continuation 0xF0 0xF4 a then
        match l1 with
        | b :: c :: d :: l4 =>
            continuation (if (a =? 0xF0)%Z then 0x90 else 0x80) (if (a =? 0xF4)%Z then 0x8F else 0xBF) b
            && continuation 0x80 0xBF c && continuation 0x80 0xBF d && valid_utf8 l4
        | _ => false
        end
      else false
  end.

(** ** Automation *)

Create Rewrite HintDb bits.

(** Rewrite the length of compound lists, then close linear goals. *)
Create Rewrite HintDb lens.
#[export] Hint Rewrite @length_app @length_take @length_drop @length_map
  @length_seq @length_reverse @length_insert @length_fmap @length_replicate
  @length_zip_with @length_imap : lens.
Ltac lens := cbn [length] in *; autorewrite with lens in *; cbn [length] in *; try lia.

(** Case analysis on the first [match] or [if] of the goal, keeping the
    equation, and arithmetic reading of boolean tests. *)
Ltac b2p :=
  repeat match goal with
  | H : (_ <=? _)%nat = true |- _ => apply Nat.leb_le in H
  | H : (_ <=? _)%nat = false |- _ => apply Nat.leb_gt in H
  | H : (_ <? _)%nat = true |- _ => apply Nat.ltb_lt in H
  | H : (_ <? _)%nat = false |- _ => apply Nat.ltb_ge in H
  | H : (_ =? _)%nat = true |- _ => apply Nat.eqb_eq in H
  | H : (_ =? _)%nat = false |- _ => apply Nat.eqb_neq in H
  | H : (_ <=? _)%Z = true |- _ => apply Z.leb_le in H
  | H : (_ <=? _)%Z = false |- _ => apply Z.leb_gt in H
  | H : (_ <? _)%Z = true |- _ => apply Z.ltb_lt in H
  | H : (_ <? _)%Z = false |- _ => apply Z.ltb_ge in H
  | H : (_ =? _)%Z = true |- _ => apply Z.eqb_eq in H
  | H : (_ =? _)%Z = false |- _ => apply Z.eqb_neq in H
  | H : andb _ _ = true |- _ => apply andb_true_iff in H as [? ?]
  | H : orb _ _ = false |- _ => apply orb_false_iff in H as [? ?]
  | H : negb _ = true |- _ => apply negb_true_iff in H
  | H : negb _ = false |- _ => apply negb_false_iff in H
  end.

Ltac split_if :=
  match goal with
  | |- context [if ?b then _ else _] =>
      let E := fresh "E" in destruct b eqn:E; b2p
  end.

(** ** The panic monad, lemmas *)

Lemma usub_ok a b : (b ≤ a)%nat → usub a b = Ret (a - b)%nat.
Proof. intros. unfold usub. destruct (Nat.leb_spec b a); [done|lia]. Qed.

Lemma run_bind_ret {A B} (m : run A) (f : A → run B) (b : B) :
  m ≫= f = Ret b ↔ ∃ a, m = Ret a ∧ f a = Ret b.
Proof.
  destruct m as [a|]; simpl; (split; [intros Hf | intros (a' & Ha & Hf)]).
  - by exists a.
  - by injection Ha as ->.
  - done.
  - done.
Qed.

(** ** Double-ended queues, lemmas *)

Lemma removelast_snoc {A} (l : list A) (b : A) : removelast (l ++ [b]) = l.
Proof. apply List.removelast_last. Qed.

Lemma pop_back_snoc {A} (a b : A) (l : list A) : pop_back (a :: l ++ [b]) = a :: l.
Proof. exact (removelast_snoc (a :: l) b). Qed.

Lemma map_back_snoc {A} (f : A → run A) (l : list A) (b b' : A) :
  f b = Ret b' → map_back f (l ++ [b]) = Ret (l ++ [b']).
Proof.
  intros Hf. unfold map_back. rewrite last_snoc. cbn. rewrite Hf. cbn.
  by rewrite removelast_snoc.
Qed.

(** ** Slices, lemmas *)

Lemma get_app_r {A} (l k : list A) n : get (l ++ k) (length l + n)%nat = get k n.
Proof. unfold get. by rewrite lookup_app_r, Nat.add_comm, Nat.add_sub by lia. Qed.

Lemma get_lookup {A} (l : list A) i x : l !! i = Some x → get l i = Ret x.
Proof. unfold get. by intros ->. Qed.

Lemma slice_from_ok {A} (l : list A) n : (n ≤ length l)%nat → slice_from l n = Ret (drop n l).
Proof. intros. unfold slice_from. destruct (Nat.leb_spec n (length l)); [done|lia]. Qed.

Lemma split_off_ok {A} (l : list A) n :
  (n ≤ length l)%nat → split_off l n = Ret (take n l, drop n l).
Proof. intros. unfold split_off. destruct (Nat.leb_spec n (length l)); [done|lia]. Qed.

Lemma split_off_app {A} (l k : list A) n : n = length l → split_off (l ++ k) n = Ret (l, k).
Proof.
  intros ->. rewrite split_off_ok by lens. by rewrite take_app_length, drop_app_length.
Qed.

Lemma slice_app {A} (a b c : list A) n m :
  length a = n → length b = (m - n)%nat → (n ≤ m)%nat → slice (a ++ b ++ c) n m = Ret b.
Proof.
  intros Ha Hb Hnm. unfold slice. rewrite !length_app.
  destruct (Nat.leb_spec n m), (Nat.leb_spec m (length a + (length b + length c))); try lia. simpl.
  rewrite drop_app_length' by done. by rewrite take_app_length'.
Qed.

(** ** Machine integers, lemmas *)
Section integers.
Local Open Scope Z_scope.

Lemma pow2_pos (n : nat) : 0 < 2 ^ Z.of_nat n.
Proof. apply Z.pow_pos_nonneg; lia. Qed.

Lemma pow2_S (n : nat) : 2 ^ Z.of_nat (S n) = 2 * 2 ^ Z.of_nat n.
Proof. rewrite Nat2Z.inj_succ, Z.pow_succ_r; lia. Qed.

Lemma pow2_add (n m : nat) : 2 ^ Z.of_nat (n + m) = 2 ^ Z.of_nat n * 2 ^ Z.of_nat m.
Proof. rewrite Nat2Z.inj_add, Z.pow_add_r; lia. Qed.

Lemma pow2_le (n m : nat) : (n ≤ m)%nat → 2 ^ Z.of_nat n ≤ 2 ^ Z.of_nat m.
Proof. intros. apply Z.pow_le_mono_r; lia. Qed.

Lemma div_pow2_range z n m :
  (m ≤ n)%nat → 0 ≤ z < 2 ^ Z.of_nat n → 0 ≤ z / 2 ^ Z.of_nat m < 2 ^ Z.of_nat (n - m).
Proof.
  intros ? [? Hz]. pose proof (pow2_pos m). split; [apply Z.div_pos; lia|].
  apply Z.div_lt_upper_bound; [done|]. rewrite <- pow2_add.
  by replace (m + (n - m))%nat with n by lia.
Qed.

Lemma wrap_range w z : 0 ≤ w → 0 ≤ wrap w z < 2 ^ w.
Proof. intros. apply Z.mod_pos_bound. apply Z.pow_pos_nonneg; lia. Qed.

Lemma wrap_small w z : 0 ≤ z < 2 ^ w → wrap w z = z.
Proof. intros. by apply Z.mod_small. Qed.

Lemma wrap_wrap_le v w z : 0 ≤ v ≤ w → wrap v (wrap w z) = wrap v z.
Proof.
  intros. unfold wrap. apply Z.mod_mod_divide.
  exists (2 ^ (w - v)). rewrite <- Z.pow_add_r by lia. f_equal; lia.
Qed.

Lemma shl_ok w z n : Z.of_nat n < w → shl w z n = Ret (wrap w (z * 2 ^ Z.of_nat n)).
Proof.
  intros. unfold shl. destruct (Z.ltb_spec (Z.of_nat n) w); [|lia].
  by rewrite Z.shiftl_mul_pow2 by lia.
Qed.

Lemma shr_ok w z n : Z.of_nat n < w → shr w z n = Ret (z / 2 ^ Z.of_nat n).
Proof.
  intros. unfold shr. destruct (Z.ltb_spec (Z.of_nat n) w); [|lia].
  by rewrite Z.shiftr_div_pow2 by lia.
Qed.

Lemma lor_mul_pow2 (a b : Z) (k : nat) :
  0 ≤ a < 2 ^ Z.of_nat k →
  Z.lor a (b * 2 ^ Z.of_nat k) = a + b * 2 ^ Z.of_nat k.
Proof.
  intros Ha.
  assert (Z.land a (Z.shiftl b (Z.of_nat k)) = 0) as Hd.
  { apply Z.bits_inj'; intros i Hi; rewrite Z.land_spec, Z.bits_0.
    destruct (Z.ltb_spec i (Z.of_nat k)).
    - rewrite (Z.shiftl_spec_low b) by lia; apply andb_false_r.
    - rewrite <- (Z.mod_small a (2 ^ Z.of_nat k)), Z.mod_pow2_bits_high by lia; done. }
  rewrite <- Z.shiftl_mul_pow2, Z.add_nocarry_lxor by (done || lia).
  by rewrite Z.lxor_lor.
Qed.

Lemma land_ones_mod (a : Z) (k : nat) : Z.land a (2 ^ Z.of_nat k - 1) = a mod 2 ^ Z.of_nat k.
Proof.
  replace (2 ^ Z.of_nat k - 1) with (Z.ones (Z.of_nat k)) by (rewrite Z.ones_equiv; lia).
  apply Z.land_ones. lia.
Qed.

(** *** Bits *)

Lemma length_bits_of n z : length (bits_of n z) = n.
Proof. revert z; induction n; simpl; auto. Qed.

Lemma val_of_range l : 0 ≤ val_of l < 2 ^ Z.of_nat (length l).
Proof.
  induction l as [|b l IH]; [simpl; lia|].
  cbn [val_of length]. rewrite pow2_S. destruct b; simpl Z.b2z; lia.
Qed.

Lemma val_of_app l k : val_of (l ++ k) = val_of l + 2 ^ Z.of_nat (length l) * val_of k.
Proof.
  induction l as [|b l IH]; [simpl; lia|].
  cbn [val_of length app]. rewrite pow2_S, IH. ring.
Qed.

Lemma val_of_bits_of n z : val_of (bits_of n z) = z mod 2 ^ Z.of_nat n.
Proof.
  revert z; induction n as [|n IH]; intros z; cbn [bits_of val_of].
  - by rewrite Z.mod_1_r.
  - rewrite IH, pow2_S, Z.div2_div, Z.rem_mul_r by (pose proof (pow2_pos n); lia).
    by rewrite Zmod_odd; destruct (Z.odd z).
Qed.

Lemma bits_of_val_of l : bits_of (length l) (val_of l) = l.
Proof.
  induction l as [|b l IH]; [done|]. cbn [val_of length bits_of].
  rewrite Z.odd_add_mul_2, Z.div2_div, (Z.mul_comm 2), Z.div_add by lia.
  destruct b; simpl Z.b2z; rewrite Z.div_small, Z.add_0_l, IH by lia; done.
Qed.

Lemma bits_of_app n m z :
  bits_of (n + m) z = bits_of n z ++ bits_of m (z / 2 ^ Z.of_nat n).
Proof.
  revert z; induction n as [|n IH]; intros z.
  - simpl. by rewrite Z.div_1_r.
  - cbn [bits_of app plus]. rewrite IH, pow2_S, Z.div2_div, Z.div_div
      by (pose proof (pow2_pos n); lia). done.
Qed.

Lemma bits_of_mod n m z : (n ≤ m)%nat → bits_of n (z mod 2 ^ Z.of_nat m) = bits_of n z.
Proof.
  intros Hnm. rewrite <- (bits_of_val_of (bits_of n z)) at 1.
  rewrite length_bits_of, val_of_bits_of.
  rewrite <- (bits_of_val_of (bits_of n (z mod 2 ^ Z.of_nat m))).
  rewrite length_bits_of, val_of_bits_of. f_equal.
  replace m with (n + (m - n))%nat by lia. rewrite pow2_add.
  rewrite Z.rem_mul_r by (pose proof (pow2_pos n); pose proof (pow2_pos (m - n)); lia).
  rewrite Z.mul_comm, Z_mod_plus_full, Z.mod_mod; [done|].
  pose proof (pow2_pos n); lia.
Qed.

Lemma bits_of_add_shift n m a b :
  0 ≤ a < 2 ^ Z.of_nat n →
  bits_of (n + m) (a + b * 2 ^ Z.of_nat n) = bits_of n a ++ bits_of m b.
Proof.
  intros Ha. pose proof (pow2_pos n). rewrite bits_of_app. f_equal.
  - rewrite <- (bits_of_mod n n), Z_mod_plus_full by lia.
    by rewrite Z.mod_small.
  - by rewrite Z.div_add, Z.div_small by lia.
Qed.

Lemma take_bits_of n m z : (n ≤ m)%nat → take n (bits_of m z) = bits_of n z.
Proof.
  intros. replace m with (n + (m - n))%nat by lia.
  rewrite bits_of_app, take_app_length'; [done|]. by rewrite length_bits_of.
Qed.

Lemma drop_bits_of n m z :
  (n ≤ m)%nat → drop n (bits_of m z) = bits_of (m - n) (z / 2 ^ Z.of_nat n).
Proof.
  intros. replace m with (n + (m - n))%nat at 1 by lia.
  rewrite bits_of_app, drop_app_length'; [done|]. by rewrite length_bits_of.
Qed.

Lemma val_take_drop n l :
  val_of l = val_of (take n l) + 2 ^ Z.of_nat (length (take n l)) * val_of (drop n l).
Proof. by rewrite <- val_of_app, take_drop. Qed.

Lemma div_val_drop n l : (n ≤ length l)%nat → val_of l / 2 ^ Z.of_nat n = val_of (drop n l).
Proof.
  intros Hn. rewrite (val_take_drop n l), length_take, Nat.min_l by done.
  pose proof (val_of_range (take n l)) as Hr. rewrite length_take, Nat.min_l in Hr by done.
  pose proof (pow2_pos n). rewrite Z.mul_comm, Z.div_add, Z.div_small by lia. lia.
Qed.

Lemma mod_val_take n l : (n ≤ length l)%nat → val_of l mod 2 ^ Z.of_nat n = val_of (take n l).
Proof.
  intros Hn. rewrite (val_take_drop n l), length_take, Nat.min_l by done.
  pose proof (val_of_range (take n l)) as Hr. rewrite length_take, Nat.min_l in Hr by done.
  rewrite Z.mul_comm, Z_mod_plus_full, Z.mod_small by done. done.
Qed.
(** *** Digits *)

Lemma be_digits_S b n z :
  be_digits b (S n) z =
    ((z / 2 ^ Z.of_nat (b * n)) mod 2 ^ Z.of_nat b) :: be_digits b n z.
Proof.
  unfold be_digits. cbn [seq fmap list_fmap]. f_equal; [do 4 f_equal; lia|].
  rewrite <- fmap_S_seq, <- list_fmap_compose. apply list_fmap_ext. intros i x _. simpl.
  do 4 f_equal. lia.
Qed.

Lemma length_be_digits b n z : length (be_digits b n z) = n.
Proof. unfold be_digits. lens. Qed.

Lemma be_digits_range b n z : Forall (λ d, 0 ≤ d < 2 ^ Z.of_nat b) (be_digits b n z).
Proof.
  induction n as [|n IH]; [constructor|]. rewrite be_digits_S. constructor; [|done].
  apply Z.mod_pos_bound, pow2_pos.
Qed.

Lemma split_mod b n z :
  z mod 2 ^ Z.of_nat (b * S n) =
    (z / 2 ^ Z.of_nat (b * n)) mod 2 ^ Z.of_nat b * 2 ^ Z.of_nat (b * n)
      + z mod 2 ^ Z.of_nat (b * n).
Proof.
  replace (b * S n)%nat with (b * n + b)%nat by lia. rewrite pow2_add.
  rewrite Z.rem_mul_r by (pose proof (pow2_pos (b * n)); pose proof (pow2_pos b); lia). ring.
Qed.

Lemma from_be_digits_acc b n z acc :
  foldl (λ acc d, acc * 2 ^ Z.of_nat b + d) acc (be_digits b n z) =
    acc * 2 ^ Z.of_nat (b * n) + z mod 2 ^ Z.of_nat (b * n).
Proof.
  revert acc; induction n as [|n IH]; intros acc.
  - rewrite Nat.mul_0_r. change (be_digits b 0 z) with (@nil Z).
    change (2 ^ Z.of_nat 0) with 1. rewrite Z.mod_1_r. simpl. lia.
  - rewrite be_digits_S. cbn [foldl]. rewrite IH, split_mod.
    replace (b * S n)%nat with (b + b * n)%nat by lia. rewrite pow2_add. ring.
Qed.

Lemma from_be_digits_be_digits b n z :
  0 ≤ z < 2 ^ Z.of_nat (b * n) → from_be_digits b (be_digits b n z) = z.
Proof.
  intros. unfold from_be_digits. rewrite from_be_digits_acc, Z.mod_small by done. lia.
Qed.

Lemma from_be_digits_range b ds :
  Forall (λ d, 0 ≤ d < 2 ^ Z.of_nat b) ds →
  0 ≤ from_be_digits b ds < 2 ^ Z.of_nat (b * length ds).
Proof.
  intros Hds. unfold from_be_digits.
  assert (∀ acc, 0 ≤ acc →
    0 ≤ foldl (λ acc d, acc * 2 ^ Z.of_nat b + d) acc ds < (acc + 1) * 2 ^ Z.of_nat (b * length ds)) as H.
  { induction Hds as [|d ds Hd Hds IH]; intros acc Hacc; cbn [foldl length].
    - rewrite Nat.mul_0_r. change (2 ^ Z.of_nat 0) with 1. lia.
    - pose proof (pow2_pos b). destruct (IH (acc * 2 ^ Z.of_nat b + d)) as [? Hlt]; [nia|].
      split; [done|]. replace (b * S (length ds))%nat with (b + b * length ds)%nat by lia.
      rewrite pow2_add. pose proof (pow2_pos (b * length ds)). nia. }
  specialize (H 0). lia.
Qed.

Lemma be_digits_snoc b n z :
  be_digits b (S n) z = be_digits b n (z / 2 ^ Z.of_nat b) ++ [z mod 2 ^ Z.of_nat b].
Proof.
  induction n as [|n IH].
  - rewrite be_digits_S, Nat.mul_0_r. by rewrite Z.div_1_r.
  - rewrite be_digits_S, IH, (be_digits_S b n). simpl. f_equal.
    rewrite Z.div_div by (pose proof (pow2_pos b); pose proof (pow2_pos (b * n)); lia).
    rewrite <- pow2_add. by replace (b * S n)%nat with (b + b * n)%nat by lia.
Qed.

Lemma be_digits_from_be_digits b ds :
  Forall (λ d, 0 ≤ d < 2 ^ Z.of_nat b) ds → be_digits b (length ds) (from_be_digits b ds) = ds.
Proof.
  induction ds as [|d ds IH] using rev_ind; intros Hds; [done|].
  apply Forall_app in Hds as [Hds [Hd _]%Forall_cons].
  rewrite length_app, Nat.add_1_r, be_digits_snoc.
  assert (from_be_digits b (ds ++ [d]) = from_be_digits b ds * 2 ^ Z.of_nat b + d) as ->
    by (unfold from_be_digits; by rewrite foldl_app).
  pose proof (pow2_pos b).
  rewrite Z.add_comm, Z.div_add, Z.div_small, Z.add_0_l, IH, Z_mod_plus_full, Z.mod_small by (done || lia).
  done.
Qed.
End integers.

#[global] Arguments bits_of : simpl never.
#[global] Arguments shl : simpl never.
#[global] Arguments shr : simpl never.
#[global] Arguments usub : simpl never.
#[global] Arguments wrap : simpl never.
#[global] Arguments pop_back : simpl never.
#[global] Arguments map_back : simpl never.
#[global] Arguments Nat.div : simpl never.
#[global] Arguments Nat.modulo : simpl never.
#[global] Arguments be_digits : simpl never.
#[global] Arguments slice : simpl never.
#[global] Arguments slice_from : simpl never.
#[global] Arguments split_off : simpl never.
#[global] Arguments get : simpl never.

(** ** Checks over a range *)

Definition upto (n : nat) : list Z := Z.of_nat <$> seq 0 n.

Lemma forallb_upto n f z : forallb f (upto n) = true → (0 ≤ z < Z.of_nat n)%Z → f z = true.
Proof.
  intros Hf Hz. rewrite forallb_forall in Hf. apply Hf, list_elem_of_In, list_elem_of_fmap.
  exists (Z.to_nat z). split; [lia|]. apply elem_of_seq. lia.
Qed.

(** ** Text *)

Lemma ascii_utf8 l : Forall (λ b, b < 128)%Z l → valid_utf8 l = true.
Proof. induction 1 as [|b l Hb _ IH]; [done|]. cbn [valid_utf8]. by rewrite (proj2 (Z.leb_le b 0x7F)) by lia. Qed.
