(* ===== verification/BitQueue.v ===== *)
(** * The bit queue of the country database

    Models [ip_country/src/bit_queue.rs].  A [BitQueue] stores a FIFO sequence
    of bits in a double-ended queue of bytes whose first and last bytes are
    partly blank; up to 64 bits are added or taken per call.  The operations
    below follow the methods line by line, with [usize] counters as [nat],
    [u8]/[u64] values as [Z] and every panic (explicit, subtraction below zero,
    shift by the width or more) as the [Panic] outcome.

    The theorems relate the byte-level structure to the list of bits it stores:
    [rep q l] says that [q] is well formed and stores [l], and each operation
    is shown to return, to keep the representation, and to act on [l] as the
    corresponding list operation. *)
From S2P Require Import Prelude.

Module BitQueue.

(** ** Data and operations *)

Record BitQueue := MkBitQueue {
  back_blank_bit_count : nat;
  byte_queue : list Z;
  front_blank_bit_count : nat
}.

Definition new : BitQueue := MkBitQueue 8 [0%Z; 0%Z] 8.

Definition len (q : BitQueue) : run nat :=
  n ← usub (length (byte_queue q) * 8) (back_blank_bit_count q);
  usub n (front_blank_bit_count q).

Definition is_empty (q : BitQueue) : run bool :=
  n ← len q; Ret (n =? 0)%nat.

Definition back_full_bit_count (q : BitQueue) : run nat :=
  usub 8 (back_blank_bit_count q).

Definition front_full_bit_count (q : BitQueue) : run nat :=
  usub 8 (front_blank_bit_count q).

Definition low_order_ones (count : nat) : run Z :=
  m ← shl 64 (2 ^ 64 - 1) count; Ret (wnot 64 m).

(** [if self.back_blank_bit_count == 0 { push_back(0); blank = 8 }] *)
Definition open_back (q : BitQueue) : BitQueue :=
  if (back_blank_bit_count q =? 0)%nat
  then MkBitQueue 8 (byte_queue q ++ [0%Z]) (front_blank_bit_count q)
  else q.

Definition add_some_back_bits (q : BitQueue) (bit_data : Z) (bit_count : nat)
    : run (BitQueue * nat) :=
  let q := open_back q in
  let bits_to_add := Nat.min bit_count (back_blank_bit_count q) in
  back_full ← back_full_bit_count q;
  bytes ← map_back (λ back,
    s ← shl 64 bit_data back_full; Ret (Z.lor back (u8 s))) (byte_queue q);
  blank ← usub (back_blank_bit_count q) bits_to_add;
  let q := open_back (MkBitQueue blank bytes (front_blank_bit_count q)) in
  Ret (q, bits_to_add).

(** [while bit_count >= 8 { push_back(bit_data & 0xFF); bit_data >>= 8; .. }];
    the result is the queue and the final [bit_count]. *)
Fixpoint add_back_bytes_loop (bytes : list Z) (bit_data : Z) (bit_count : nat)
    : run (list Z * nat) :=
  match bit_count with
  | S (S (S (S (S (S (S (S bit_count'))))))) =>
      ones ← low_order_ones 8;
      let next_byte := u8 (Z.land bit_data ones) in
      bit_data' ← shr 64 bit_data 8;
      add_back_bytes_loop (bytes ++ [next_byte]) bit_data' bit_count'
  | _ => Ret (bytes, bit_count)
  end.

Definition add_back_bytes (q : BitQueue) (bit_data : Z) (bit_count : nat)
    : run (BitQueue * nat) :=
  let original_bit_count := bit_count in
  if (64 <? bit_count)%nat then Panic
  else if (bit_count <? 8)%nat then Ret (q, 0%nat)
  else
    let q := if (back_blank_bit_count q =? 8)%nat
             then MkBitQueue 0 (pop_back (byte_queue q)) (front_blank_bit_count q)
             else q in
    if (0 <? back_blank_bit_count q)%nat then Panic
    else
      '(bytes, rest) ← add_back_bytes_loop (byte_queue q) bit_data bit_count;
      added ← usub original_bit_count rest;
      Ret (MkBitQueue (back_blank_bit_count q) bytes (front_blank_bit_count q), added).

Definition add_bits (q : BitQueue) (bit_data : Z) (bit_count : nat) : run BitQueue :=
  if (64 <? bit_count)%nat then Panic
  else
    '(q, initial_bits_added) ← add_some_back_bits q bit_data bit_count;
    bit_data ← shr 64 bit_data initial_bits_added;
    bit_count ← usub bit_count initial_bits_added;
    '(q, byte_bits_added) ← add_back_bytes q bit_data bit_count;
    bit_data ← shr 64 bit_data byte_bits_added;
    bit_count ← usub bit_count byte_bits_added;
    '(q, final_bits_added) ← add_some_back_bits q bit_data bit_count;
    bit_data ← shr 64 bit_data final_bits_added;
    bit_count ← usub bit_count final_bits_added;
    if negb (bit_count =? 0)%nat then Panic else Ret q.

(** [let _ = self.byte_queue.pop_front(); self.front_blank_bit_count = 0;] *)
Definition drop_front (q : BitQueue) : BitQueue :=
  MkBitQueue (back_blank_bit_count q) (tail (byte_queue q)) 0.

Definition take_some_front_bits (q : BitQueue) (bit_count : nat)
    : run (BitQueue * (Z * nat)) :=
  front_full ← front_full_bit_count q;
  let q := if (front_full =? 0)%nat && (2 <? length (byte_queue q))%nat
           then drop_front q else q in
  front_full ← front_full_bit_count q;
  let bits_to_take := Nat.min bit_count front_full in
  if (bits_to_take =? 0)%nat then Ret (q, (0%Z, 0%nat))
  else
    front ← expect (head (byte_queue q));
    ones ← low_order_ones bits_to_take;
    let bit_data := Z.land front (u8 ones) in
    bytes ← map_front (λ front,
      if (bits_to_take <? 8)%nat then shr 8 front bits_to_take else Ret 0%Z)
      (byte_queue q);
    let q := MkBitQueue (back_blank_bit_count q) bytes
               (front_blank_bit_count q + bits_to_take) in
    let q := if (front_blank_bit_count q =? 8)%nat && (2 <? length (byte_queue q))%nat
             then drop_front q else q in
    Ret (q, (bit_data, bits_to_take)).

(** [while bit_count >= 8 { bit_data |= pop_front() << (original - bit_count); .. }] *)
Fixpoint take_front_bytes_loop (bytes : list Z) (bit_data : Z)
    (original_bit_count bit_count : nat) {struct bit_count} : run (list Z * Z * nat) :=
  match bit_count with
  | S (S (S (S (S (S (S (S bit_count'))))))) =>
      match bytes with
      | [] => Panic
      | byte :: bytes' =>
          n ← usub original_bit_count bit_count;
          s ← shl 64 byte n;
          take_front_bytes_loop bytes' (Z.lor bit_data s) original_bit_count bit_count'
      end
  | _ => Ret (bytes, bit_data, bit_count)
  end.

Definition take_front_bytes (q : BitQueue) (bit_count : nat)
    : run (BitQueue * (Z * nat)) :=
  let original_bit_count := bit_count in
  if (64 <? bit_count)%nat then Panic
  else if (bit_count <? 8)%nat then Ret (q, (0%Z, 0%nat))
  else
    let q := if (front_blank_bit_count q =? 8)%nat then drop_front q else q in
    if (0 <? front_blank_bit_count q)%nat then Panic
    else
      '(bytes, bit_data, rest) ←
        take_front_bytes_loop (byte_queue q) 0 original_bit_count bit_count;
      let q := if (length bytes <? 2)%nat
               then MkBitQueue (back_blank_bit_count q) (0%Z :: bytes) 8
               else MkBitQueue (back_blank_bit_count q) bytes (front_blank_bit_count q) in
      taken ← usub original_bit_count rest;
      Ret (q, (bit_data, taken)).

Definition take_some_back_bits (q : BitQueue) (bit_count : nat)
    : run (BitQueue * (Z * nat)) :=
  back_full ← back_full_bit_count q;
  let bits_to_take := Nat.min bit_count back_full in
  remaining_bits ← usub back_full bits_to_take;
  mask ← low_order_ones bits_to_take;
  back ← expect (last (byte_queue q));
  let bit_data := if (remaining_bits <? 8)%nat then Z.land back (u8 mask) else 0%Z in
  bytes ← map_back (λ back, shr 8 back bits_to_take) (byte_queue q);
  let q := MkBitQueue (back_blank_bit_count q + bits_to_take) bytes
             (front_blank_bit_count q) in
  let q := if (back_blank_bit_count q =? 8)%nat && (2 <? length (byte_queue q))%nat
           then MkBitQueue 0 (pop_back (byte_queue q)) (front_blank_bit_count q)
           else q in
  Ret (q, (bit_data, bits_to_take)).

(** [if count > 0 { bit_data |= data << bit_position; bit_position += count }] *)
Definition splice (bit_data : Z) (bit_position : nat) (data : Z) (count : nat)
    : run (Z * nat) :=
  if (0 <? count)%nat
  then s ← shl 64 data bit_position;
       Ret (Z.lor bit_data s, (bit_position + count)%nat)
  else Ret (bit_data, bit_position).

Definition take_bits (q : BitQueue) (bit_count : nat) : run (BitQueue * option Z) :=
  let original_bit_count := bit_count in
  if (64 <? bit_count)%nat then Panic
  else
    l ← len q;
    if (l <? bit_count)%nat then Ret (q, None)
    else
      '(q, (initial_data, initial_count)) ← take_some_front_bits q bit_count;
      s ← shl 64 initial_data 0;
      let bit_data := Z.lor 0 s in
      let bit_position := initial_count in
      bit_count ← usub bit_count initial_count;
      '(q, (byte_data, byte_count)) ← take_front_bytes q bit_count;
      s ← shl 64 byte_data bit_position;
      let bit_data := Z.lor bit_data s in
      let bit_position := (bit_position + byte_count)%nat in
      bit_count ← usub bit_count byte_count;
      '(q, (front_data, front_count)) ← take_some_front_bits q bit_count;
      '(bit_data, bit_position) ← splice bit_data bit_position front_data front_count;
      bit_count ← usub bit_count front_count;
      '(q, (back_data, back_count)) ← take_some_back_bits q bit_count;
      '(bit_data, bit_position) ← splice bit_data bit_position back_data back_count;
      _ ← usub bit_count back_count;
      if negb (bit_position =? original_bit_count)%nat then Panic
      else Ret (q, Some bit_data).

(** ** The abstract queue *)

(** A client program is a sequence of calls.  [run_ops] runs it on the byte
    structure; [fifo_ops] runs it on a plain list of bits, where a call for
    more than 64 bits panics. *)
Inductive bq_op :=
| OpAdd (bit_data : Z) (bit_count : nat)
| OpTake (bit_count : nat).

Fixpoint run_ops (q : BitQueue) (ops : list bq_op) : run (BitQueue * list (option Z)) :=
  match ops with
  | [] => Ret (q, [])
  | OpAdd d n :: ops' => q ← add_bits q d n; run_ops q ops'
  | OpTake n :: ops' =>
      '(q, r) ← take_bits q n; '(q, rs) ← run_ops q ops'; Ret (q, r :: rs)
  end.

Fixpoint fifo_ops (l : list bool) (ops : list bq_op) : run (list bool * list (option Z)) :=
  match ops with
  | [] => Ret (l, [])
  | OpAdd d n :: ops' => if (64 <? n)%nat then Panic else fifo_ops (l ++ bits_of n d) ops'
  | OpTake n :: ops' =>
      if (64 <? n)%nat then Panic
      else if (n <=? length l)%nat
      then '(l', rs) ← fifo_ops (drop n l) ops'; Ret (l', Some (val_of (take n l)) :: rs)
      else '(l', rs) ← fifo_ops l ops'; Ret (l', None :: rs)
  end.

(** The data of a call has no bits above the number of bits to add. *)
Definition op_fits (o : bq_op) : bool :=
  match o with
  | OpAdd d n => (0 <=? d)%Z && (d <? 2 ^ Z.of_nat n)%Z
  | OpTake _ => true
  end.

(** ** Concrete runs *)

Example add_take_run :
  (q ← add_bits new 0x1234 13; q ← add_bits q 0x15 5;
   '(_, r) ← take_bits q 18; Ret r) = Ret (Some (0x1234 + 0x15 * 2 ^ 13)%Z).
Proof. vm_compute. reflexivity. Qed.


(** ** Representation *)

Definition mid_bits (bs : list Z) : list bool := bs ≫= bits_of 8.

Definition byte_ok (b : Z) : Prop := (0 ≤ b < 2 ^ 8)%Z.

(** [rep q l]: the queue [q] is well formed and stores the bits [l], the next
    bit to take first.  Usually there is a front byte, keeping its unread bits
    at the low-order end, full middle bytes, and a back byte filled from the
    low-order end whose blank bits are zero.  The second shape is left behind
    when [take_front_bytes] pops the last byte. *)
Inductive rep : BitQueue → list bool → Prop :=
| rep_two fb f mid bb b :
    (fb ≤ 8)%nat → (bb ≤ 8)%nat →
    (0 ≤ f < 2 ^ Z.of_nat (8 - fb))%Z →
    (0 ≤ b < 2 ^ Z.of_nat (8 - bb))%Z →
    Forall byte_ok mid →
    rep (MkBitQueue bb (f :: mid ++ [b]) fb)
        (bits_of (8 - fb) f ++ mid_bits mid ++ bits_of (8 - bb) b)
| rep_one : rep (MkBitQueue 0 [0%Z] 8) [].

Definition low_bytes (n : nat) (z : Z) : list Z :=
  (λ i, (z / 2 ^ Z.of_nat (8 * i)) mod 2 ^ 8)%Z <$> seq 0 n.

(** ** Lemmas *)

Lemma rep_new : rep new [].
Proof. apply (rep_two 8 0%Z [] 8 0%Z); simpl; try lia; constructor. Qed.

Lemma rep_intro fb f mid bb b q l :
  q = MkBitQueue bb (f :: mid ++ [b]) fb →
  l = bits_of (8 - fb) f ++ mid_bits mid ++ bits_of (8 - bb) b →
  (fb ≤ 8)%nat → (bb ≤ 8)%nat →
  (0 ≤ f < 2 ^ Z.of_nat (8 - fb))%Z →
  (0 ≤ b < 2 ^ Z.of_nat (8 - bb))%Z →
  Forall byte_ok mid → rep q l.
Proof. intros -> ->. by constructor. Qed.

Lemma length_mid_bits bs : length (mid_bits bs) = (8 * length bs)%nat.
Proof.
  induction bs as [|b bs IH]; [done|]. unfold mid_bits in *. cbn [mbind list_bind].
  rewrite length_app, length_bits_of, IH. simpl. lia.
Qed.

Lemma mid_bits_app bs cs : mid_bits (bs ++ cs) = mid_bits bs ++ mid_bits cs.
Proof. unfold mid_bits. by rewrite bind_app. Qed.

Lemma mid_bits_one b : mid_bits [b] = bits_of 8 b.
Proof. unfold mid_bits. cbn [mbind list_bind]. by rewrite app_nil_r. Qed.

Lemma low_order_ones_ok n : (n < 64)%nat → low_order_ones n = Ret (2 ^ Z.of_nat n - 1)%Z.
Proof.
  intros Hn. unfold low_order_ones. rewrite shl_ok by lia. cbn [mbind run_bind].
  unfold wnot, wrap. f_equal.
  pose proof (pow2_pos n).
  assert (2 ^ Z.of_nat n ≤ 2 ^ 64)%Z by (apply Z.pow_le_mono_r; lia).
  replace ((2 ^ 64 - 1) * 2 ^ Z.of_nat n)%Z
    with ((2 ^ 64 - 2 ^ Z.of_nat n) + (2 ^ Z.of_nat n - 1) * 2 ^ 64)%Z by ring.
  rewrite Z_mod_plus_full, Z.mod_small by lia. lia.
Qed.

Lemma rep_len q l : rep q l → len q = Ret (length l).
Proof.
  intros [fb f mid bb b ?? _ _ _|]; [|done].
  unfold len. cbn [byte_queue back_blank_bit_count front_blank_bit_count].
  rewrite usub_ok by lens. cbn [mbind run_bind]. rewrite usub_ok by lens.
  f_equal. rewrite !length_app, !length_bits_of, length_mid_bits. simpl. lens.
Qed.

Lemma open_back_rep q l : rep q l →
  rep (open_back q) l ∧ (0 < back_blank_bit_count (open_back q) ≤ 8)%nat.
Proof.
  intros [fb f mid bb b ?? Hf Hb Hmid|]; unfold open_back; simpl.
  - destruct (Nat.eqb_spec bb 0) as [->|]; [|split; [by constructor|simpl; lia]].
    split; [|simpl; lia].
    apply (rep_intro fb f (mid ++ [b]) 8 0%Z); simpl; try lia; try done.
    + rewrite mid_bits_app, mid_bits_one. change (bits_of 0 0) with (@nil bool).
      by rewrite !app_nil_r.
    + apply Forall_app; split; [done|]. constructor; [|done]. by unfold byte_ok.
  - split; [|lia]. apply (rep_two 8 0%Z [] 8 0%Z); simpl; try lia; constructor.
Qed.

(** The byte written by [add_some_back_bits]. *)
Lemma back_byte_or full k b d :
  (full ≤ 8)%nat → (0 ≤ b < 2 ^ Z.of_nat full)%Z → (0 ≤ d)%Z →
  (k ≤ 8 - full)%nat → ((k < 8 - full)%nat → (d < 2 ^ Z.of_nat k)%Z) →
  ∃ b', Z.lor b (u8 (wrap 64 (d * 2 ^ Z.of_nat full))) = b' ∧
        (0 ≤ b' < 2 ^ Z.of_nat (full + k))%Z ∧
        bits_of (full + k) b' = bits_of full b ++ bits_of k d.
Proof.
  intros Hfull Hb Hd Hk Hdk. eexists; split; [done|].
  unfold u8. rewrite wrap_wrap_le by lia. unfold wrap.
  assert ((d * 2 ^ Z.of_nat full) mod 2 ^ 8
          = (d mod 2 ^ Z.of_nat (8 - full)) * 2 ^ Z.of_nat full)%Z as ->.
  { rewrite <- Zmult_mod_distr_r. f_equal. rewrite <- pow2_add. f_equal. lia. }
  rewrite lor_mul_pow2 by done.
  assert (0 ≤ d mod 2 ^ Z.of_nat (8 - full) < 2 ^ Z.of_nat k)%Z as Hm.
  { pose proof (Z.mod_pos_bound d _ (pow2_pos (8 - full))) as [? ?].
    pose proof (pow2_le k (8 - full) Hk).
    destruct (decide (k = 8 - full)%nat) as [->|]; [done|].
    rewrite Z.mod_small; lia. }
  split.
  - rewrite pow2_add. pose proof (pow2_pos full). nia.
  - rewrite bits_of_add_shift by done. f_equal. by rewrite bits_of_mod.
Qed.

Lemma add_some_back_bits_spec q l d n :
  rep q l → (0 ≤ d < 2 ^ Z.of_nat n)%Z →
  ∃ q' k, add_some_back_bits q d n = Ret (q', k) ∧ rep q' (l ++ bits_of k d) ∧
    k = Nat.min n (back_blank_bit_count (open_back q)) ∧
    (k ≤ 8)%nat ∧ ((0 < n)%nat → (0 < k)%nat) ∧
    ((k < n)%nat → back_blank_bit_count q' = 8%nat).
Proof.
  intros Hrep Hd. apply open_back_rep in Hrep as [Hrep Hblank].
  unfold add_some_back_bits. destruct Hrep as [fb f mid bb b ?? Hf Hb Hmid|];
    [|simpl in Hblank; lia].
  unfold back_full_bit_count. simpl in *. set (k := Nat.min n bb).
  rewrite (usub_ok 8 bb), (usub_ok bb k) by lia. simpl.
  destruct (back_byte_or (8 - bb) k b d) as (b' & Hor & Hb' & Hbits); try lia; try done.
  { intros. replace k with n by lia. lia. }
  rewrite app_comm_cons, (map_back_snoc _ (f :: mid) b b') by (rewrite shl_ok by lia; simpl; by rewrite Hor).
  simpl.
  assert (rep (MkBitQueue (bb - k) (f :: mid ++ [b']) fb)
              ((bits_of (8 - fb) f ++ mid_bits mid ++ bits_of (8 - bb) b) ++ bits_of k d)) as Hr.
  { apply (rep_intro fb f mid (bb - k) b'); try done; try lia.
    - replace (8 - (bb - k))%nat with (8 - bb + k)%nat by lia.
      by rewrite Hbits, !app_assoc.
    - by replace (8 - (bb - k))%nat with (8 - bb + k)%nat by lia. }
  apply open_back_rep in Hr as [Hr ?].
  eexists _, k. split; [done|]. split; [exact Hr|]. repeat split; try lia.
  intros. unfold open_back. simpl. by replace (bb - k)%nat with 0%nat by lia.
Qed.

Lemma low_bytes_S n z :
  low_bytes (S n) z = (z mod 2 ^ 8)%Z :: low_bytes n (z / 2 ^ 8)%Z.
Proof.
  unfold low_bytes. cbn [seq fmap list_fmap]. f_equal; [by rewrite Z.div_1_r|].
  rewrite <- fmap_S_seq, <- list_fmap_compose. apply list_fmap_ext. intros i x _. simpl.
  f_equal. rewrite Z.div_div by (try apply Z.pow_pos_nonneg; lia). f_equal.
  rewrite <- Z.pow_add_r by lia. f_equal. lia.
Qed.

Lemma mid_bits_low_bytes n z : mid_bits (low_bytes n z) = bits_of (8 * n) z.
Proof.
  revert z; induction n as [|n IH]; intros z; [done|].
  rewrite low_bytes_S. unfold mid_bits in *. cbn [mbind list_bind]. rewrite IH.
  replace (8 * S n)%nat with (8 + 8 * n)%nat by lia. rewrite bits_of_app.
  by rewrite (bits_of_mod 8 8).
Qed.

Lemma low_bytes_ok n z : Forall byte_ok (low_bytes n z).
Proof.
  revert z; induction n as [|n IH]; intros z; [constructor|].
  rewrite low_bytes_S. constructor; [|done]. unfold byte_ok.
  apply Z.mod_pos_bound. lia.
Qed.

Lemma length_low_bytes n z : length (low_bytes n z) = n.
Proof. unfold low_bytes. lens. Qed.

Lemma add_back_bytes_loop_spec m r bytes d :
  (r < 8)%nat →
  add_back_bytes_loop bytes d (8 * m + r) = Ret (bytes ++ low_bytes m d, r).
Proof.
  intros Hr. revert bytes d; induction m as [|m IH]; intros bytes d.
  - rewrite app_nil_r. destruct r as [|[|[|[|[|[|[|[|]]]]]]]]; try lia; done.
  - replace (8 * S m + r)%nat with (S (S (S (S (S (S (S (S (8 * m + r))))))))) by lia.
    cbn [add_back_bytes_loop]. rewrite low_order_ones_ok, shr_ok by lia. cbn [mbind run_bind].
    rewrite IH, low_bytes_S, <- app_assoc. do 3 f_equal. simpl.
    rewrite (land_ones_mod d 8). unfold u8. f_equal.
    apply wrap_small. apply Z.mod_pos_bound. lia.
Qed.

Lemma add_back_bytes_spec q l d n :
  rep q l → (n ≤ 64)%nat → (0 ≤ d < 2 ^ Z.of_nat n)%Z →
  ((8 ≤ n)%nat → back_blank_bit_count q = 8%nat) →
  ∃ q' k, add_back_bytes q d n = Ret (q', k) ∧ rep q' (l ++ bits_of k d) ∧
    (k ≤ n)%nat ∧ (n - k < 8)%nat ∧
    (((n < 8)%nat ∧ q' = q) ∨ back_blank_bit_count q' = 0%nat).
Proof.
  intros Hrep Hn Hd Hblank. unfold add_back_bytes.
  destruct (Nat.ltb_spec 64 n); [lia|]. destruct (Nat.ltb_spec n 8).
  { exists q, 0%nat. rewrite app_nil_r. repeat split; try done; try lia. by left. }
  specialize (Hblank ltac:(lia)).
  destruct Hrep as [fb f mid bb b ?? Hf Hb Hmid|]; simpl in Hblank; [subst bb|lia].
  simpl. rewrite pop_back_snoc.
  pose proof (Nat.mod_upper_bound n 8 ltac:(lia)). pose proof (Nat.div_mod_eq n 8) as Hdm.
  pose proof (add_back_bytes_loop_spec (n / 8) (n mod 8) (f :: mid) d ltac:(lia)) as Hloop.
  rewrite <- Hdm in Hloop. rewrite Hloop. simpl. rewrite usub_ok by lia. simpl.
  pose proof (low_bytes_ok (n / 8) d) as Hok. pose proof (mid_bits_low_bytes (n / 8) d) as Hbits.
  replace (8 * (n / 8))%nat with (n - n mod 8)%nat in Hbits by lia.
  destruct (low_bytes (n / 8) d) as [|y xs _] eqn:E using rev_ind.
  { apply (f_equal length) in E. rewrite length_low_bytes in E. simpl in E. lia. }
  eexists _, (n - n mod 8)%nat. split; [done|]. split; [|simpl; repeat split; try lia; by right].
  rewrite mid_bits_app, mid_bits_one in Hbits.
  apply Forall_app in Hok as [? Hy]. rewrite Forall_singleton in Hy.
  apply (rep_intro fb f (mid ++ xs) 0 y); try done; try lia.
  - simpl. by rewrite <- app_assoc.
  - change (8 - 8)%nat with 0%nat. change (bits_of 0 b) with (@nil bool).
    rewrite app_nil_r, mid_bits_app, <- !app_assoc. by rewrite <- Hbits.
  - by apply Forall_app.
Qed.

Lemma add_bits_spec q l d n :
  rep q l → (n ≤ 64)%nat → (0 ≤ d < 2 ^ Z.of_nat n)%Z →
  ∃ q', add_bits q d n = Ret q' ∧ rep q' (l ++ bits_of n d).
Proof.
  intros Hrep Hn Hd. unfold add_bits. destruct (Nat.ltb_spec 64 n); [lia|].
  destruct (open_back_rep _ _ Hrep) as [_ ?].
  destruct (add_some_back_bits_spec q l d n Hrep Hd)
    as (q1 & k1 & -> & Hrep1 & Hk1 & ? & ? & Hb1).
  simpl. rewrite shr_ok, usub_ok by lia. simpl.
  pose proof (div_pow2_range d n k1 ltac:(lia) Hd) as Hd1.
  destruct (add_back_bytes_spec q1 _ _ (n - k1) Hrep1 ltac:(lia) Hd1 ltac:(intros; apply Hb1; lia))
    as (q2 & k2 & -> & Hrep2 & ? & ? & Hb2).
  simpl. rewrite shr_ok, usub_ok by lia. simpl.
  pose proof (div_pow2_range _ (n - k1) k2 ltac:(lia) Hd1) as Hd2.
  destruct (open_back_rep _ _ Hrep2) as [_ ?].
  destruct (add_some_back_bits_spec q2 _ _ (n - k1 - k2) Hrep2 Hd2)
    as (q3 & k3 & -> & Hrep3 & Hk3 & ? & ? & _).
  assert (k3 = n - k1 - k2)%nat as ->.
  { destruct (decide (n - k1 - k2 = 0)%nat); [lia|]. rewrite Hk3. apply Nat.min_l.
    destruct Hb2 as [[? ->]|Hb2]; unfold open_back; [rewrite Hb1 by lia|rewrite Hb2]; simpl; lia. }
  simpl. rewrite shr_ok, usub_ok by lia. simpl. rewrite Nat.sub_diag. simpl.
  exists q3. split; [done|].
  replace (bits_of n d) with (bits_of (k1 + (k2 + (n - k1 - k2))) d) by (f_equal; lia).
  by rewrite !bits_of_app, !app_assoc.
Qed.

(** The state in which the unread bits of the front byte are used up, or the
    front byte is a whole byte distinct from the back byte. *)
Definition front_done (q : BitQueue) : Prop :=
  (front_blank_bit_count q = 0%nat ∧ (2 ≤ length (byte_queue q))%nat) ∨
  (front_blank_bit_count q = 8%nat ∧ (length (byte_queue q) ≤ 2)%nat).

Lemma drop_front_rep q l :
  rep q l → front_blank_bit_count q = 8%nat → (2 < length (byte_queue q))%nat →
  rep (drop_front q) l ∧ front_done (drop_front q).
Proof.
  intros [fb f mid bb b ?? Hf Hb Hmid|]; simpl; [|lia]. intros -> Hlen.
  destruct mid as [|m mid]; [simpl in Hlen; lia|].
  apply Forall_cons in Hmid as [Hm ?]. split.
  - apply (rep_intro 0 m mid bb b); try done; lia.
  - left. simpl. lens.
Qed.

Lemma take_bits_app_l k n z (l : list bool) : (k ≤ n)%nat →
  take k (bits_of n z ++ l) = bits_of k z ∧
  drop k (bits_of n z ++ l) = bits_of (n - k) (z / 2 ^ Z.of_nat k) ++ l.
Proof.
  intros Hk. rewrite take_app_le, drop_app_le by (rewrite length_bits_of; lia).
  by rewrite take_bits_of, drop_bits_of.
Qed.

Lemma byte_mask f k : (k ≤ 8)%nat →
  Z.land f (u8 (2 ^ Z.of_nat k - 1)) = (f mod 2 ^ Z.of_nat k)%Z.
Proof.
  intros. unfold u8. rewrite wrap_small, land_ones_mod; [done|].
  pose proof (pow2_pos k). pose proof (pow2_le k 8). simpl in *. lia.
Qed.

Lemma byte_shift f k : (k ≤ 8)%nat → byte_ok f →
  (if (k <? 8)%nat then shr 8 f k else Ret 0%Z) = Ret (f / 2 ^ Z.of_nat k)%Z.
Proof.
  intros Hk Hf. destruct (Nat.ltb_spec k 8); [by rewrite shr_ok by lia|].
  replace k with 8%nat by lia. unfold byte_ok in Hf. by rewrite Z.div_small.
Qed.

Lemma front_byte_ok fb f : (0 ≤ f < 2 ^ Z.of_nat (8 - fb))%Z → byte_ok f.
Proof. intros. pose proof (pow2_le (8 - fb) 8). unfold byte_ok. simpl in *. lia. Qed.

(** The body of [take_some_front_bits] once the front byte is not exhausted. *)
Lemma take_some_front_bits_rep q l n :
  rep q l →
  ((front_blank_bit_count q = 8%nat) → (length (byte_queue q) ≤ 2)%nat) →
  ∃ q' v k, take_some_front_bits q n = Ret (q', (v, k)) ∧
    k = Nat.min n (8 - front_blank_bit_count q) ∧
    (k ≤ length l)%nat ∧ v = val_of (take k l) ∧ rep q' (drop k l) ∧
    ((k < n)%nat → front_done q') ∧ (k = 0%nat → q' = q).
Proof.
  intros Hrep Hex. unfold take_some_front_bits, front_full_bit_count.
  destruct Hrep as [fb f mid bb b ?? Hf Hb Hmid|]; simpl in *.
  2: { rewrite Nat.min_0_r. simpl.
       eexists _, _, 0%nat. repeat split; try done; try lia; [constructor|].
       intros. right. simpl. lia. }
  rewrite usub_ok by lia. simpl.
  replace ((8 - fb =? 0)%nat && _) with false
    by (symmetry; apply andb_false_iff; destruct (Nat.eqb_spec (8 - fb) 0); [right|by left];
        apply Nat.ltb_ge, Hex; lia).
  simpl. rewrite usub_ok by lia. simpl. set (k := Nat.min n (8 - fb)).
  destruct (take_bits_app_l k (8 - fb) f (mid_bits mid ++ bits_of (8 - bb) b) ltac:(lia))
    as [Htake Hdrop].
  destruct (Nat.eqb_spec k 0) as [Hk|Hk].
  { eexists _, _, 0%nat. rewrite Hk. repeat split; try done; try lia; [by constructor|].
    intros. right. simpl. split; [lia|]. apply Hex. lia. }
  rewrite low_order_ones_ok by lia. simpl.
  rewrite byte_shift by (try lia; by eapply front_byte_ok). simpl.
  assert (rep (MkBitQueue bb (f / 2 ^ Z.of_nat k :: mid ++ [b])%Z (fb + k))
    (bits_of (8 - fb - k) (f / 2 ^ Z.of_nat k) ++ mid_bits mid ++ bits_of (8 - bb) b)) as Hr.
  { apply (rep_intro (fb + k) (f / 2 ^ Z.of_nat k)%Z mid bb b); try done; try lia.
    - by replace (8 - (fb + k))%nat with (8 - fb - k)%nat by lia.
    - replace (8 - (fb + k))%nat with (8 - fb - k)%nat by lia.
      apply div_pow2_range; [lia|done]. }
  rewrite byte_mask by lia. eexists _, _, k. split; [done|]. split; [done|]. split.
  { rewrite length_app, length_bits_of. lia. }
  rewrite Htake, Hdrop, val_of_bits_of. split; [done|].
  destruct (Nat.eqb_spec (fb + k) 8) as [E8|]; [|split; [done|]; split; lia]. simpl.
  destruct (Nat.ltb_spec 2 (S (length (mid ++ [b])))) as [Hlen|Hlen].
  - apply drop_front_rep in Hr as [Hr ?]; [|done|simpl; lia]. split; [done|]. split; [done|lia].
  - split; [done|]. split; [|lia]. intros. right. simpl. lia.
Qed.

Lemma take_some_front_bits_drop q n :
  front_blank_bit_count q = 8%nat → (2 < length (byte_queue q))%nat →
  take_some_front_bits q n = take_some_front_bits (drop_front q) n.
Proof.
  destruct q as [bb bytes fb]; simpl. intros -> Hlen.
  unfold take_some_front_bits, front_full_bit_count. simpl.
  destruct (Nat.ltb_spec 2 (length bytes)); [done|lia].
Qed.

Lemma take_some_front_bits_spec q l n :
  rep q l →
  ∃ q' v k, take_some_front_bits q n = Ret (q', (v, k)) ∧
    (k ≤ n)%nat ∧ (k ≤ 8)%nat ∧ (k ≤ length l)%nat ∧ v = val_of (take k l) ∧
    rep q' (drop k l) ∧ ((k < n)%nat → front_done q').
Proof.
  intros Hrep.
  destruct (decide (front_blank_bit_count q = 8%nat ∧ (2 < length (byte_queue q))%nat))
    as [[Hfb Hlen]|Hno].
  - rewrite take_some_front_bits_drop by done.
    destruct (drop_front_rep _ _ Hrep Hfb Hlen) as [Hr Hd].
    destruct (take_some_front_bits_rep (drop_front q) l n Hr) as (q' & v & k & ? & Hk & ? & ? & ? & ? & ?).
    { intros [=]. }
    exists q', v, k. simpl in Hk. repeat split; try done; lia.
  - destruct (take_some_front_bits_rep q l n Hrep) as (q' & v & k & ? & Hk & ? & ? & ? & ? & ?).
    { intros. destruct (le_lt_dec (length (byte_queue q)) 2); [done|]. by destruct Hno. }
    exists q', v, k. repeat split; try done; lia.
Qed.

Lemma take_front_bytes_loop_spec m r bytes rest d orig :
  (r < 8)%nat → length bytes = m → Forall byte_ok bytes →
  (8 * m + r ≤ orig)%nat → (orig ≤ 64)%nat →
  (0 ≤ d < 2 ^ Z.of_nat (orig - (8 * m + r)))%Z →
  take_front_bytes_loop (bytes ++ rest) d orig (8 * m + r) =
    Ret (rest, (d + 2 ^ Z.of_nat (orig - (8 * m + r)) * val_of (mid_bits bytes))%Z, r).
Proof.
  intros Hr. revert m d; induction bytes as [|y bytes IH]; intros m d Hm Hok Ho Ho' Hd;
    simpl in Hm; subst m.
  - simpl. rewrite Z.mul_0_r, Z.add_0_r.
    destruct r as [|[|[|[|[|[|[|[|]]]]]]]]; try lia; reflexivity.
  - apply Forall_cons in Hok as [Hy Hok]. unfold byte_ok in Hy.
    replace (8 * S (length bytes) + r)%nat
      with (S (S (S (S (S (S (S (S (8 * length bytes + r))))))))) in * by lia.
    cbn [take_front_bytes_loop app]. set (j := (orig - _)%nat) in *.
    rewrite usub_ok by lia. cbn [mbind run_bind]. fold j. rewrite shl_ok by lia.
    cbn [mbind run_bind].
    assert (y * 2 ^ Z.of_nat j < 2 ^ Z.of_nat (j + 8))%Z.
    { rewrite pow2_add. pose proof (pow2_pos j). simpl (2 ^ Z.of_nat 8)%Z. nia. }
    pose proof (pow2_le (j + 8) 64 ltac:(lia)). pose proof (pow2_pos j).
    rewrite wrap_small by (change (2 ^ 64)%Z with (2 ^ Z.of_nat 64)%Z; nia).
    rewrite lor_mul_pow2 by done.
    assert (orig - (8 * length bytes + r) = j + 8)%nat as Hj by lia.
    rewrite IH; [|done|done|lia|done|].
    + do 2 f_equal. f_equal. rewrite Hj, pow2_add. unfold mid_bits.
      cbn [mbind list_bind]. rewrite val_of_app, length_bits_of, val_of_bits_of.
      change (2 ^ Z.of_nat 8)%Z with 256%Z. rewrite Z.mod_small by (simpl in Hy; lia). ring.
    + rewrite Hj. rewrite pow2_add in *. change (2 ^ Z.of_nat 8)%Z with 256%Z in *.
      change (2 ^ 8)%Z with 256%Z in Hy. nia.
Qed.

Lemma split_mid_bits m bs :
  (m ≤ length bs)%nat →
  take (8 * m) (mid_bits bs) = mid_bits (take m bs) ∧
  drop (8 * m) (mid_bits bs) = mid_bits (drop m bs).
Proof.
  intros Hm. assert (length (mid_bits (take m bs)) = 8 * m)%nat as Hl
    by (rewrite length_mid_bits; lens).
  rewrite <- (take_drop m bs) at 1 3. rewrite mid_bits_app.
  by rewrite take_app_length', drop_app_length'.
Qed.

(** The queue rebuilt after [m] whole bytes were popped. *)
Lemma refill_rep bb bs b m :
  Forall byte_ok bs → (bb ≤ 8)%nat → (0 ≤ b < 2 ^ Z.of_nat (8 - bb))%Z →
  (m ≤ length bs)%nat →
  let rest := drop m bs ++ [b] in
  let q' := if (length rest <? 2)%nat then MkBitQueue bb (0%Z :: rest) 8
            else MkBitQueue bb rest 0 in
  rep q' (drop (8 * m) (mid_bits bs ++ bits_of (8 - bb) b)) ∧ front_done q'.
Proof.
  intros Hok Hbb Hb Hm rest q'. subst rest q'.
  rewrite drop_app_le by (rewrite length_mid_bits; lia).
  rewrite (proj2 (split_mid_bits m bs Hm)).
  apply (Forall_drop _ m) in Hok. destruct (drop m bs) as [|x mid]; simpl.
  - split; [|right; simpl; lia].
    apply (rep_intro 8 0%Z [] bb b); simpl; try done; lia.
  - rewrite length_app, Nat.add_comm. simpl. apply Forall_cons in Hok as [? ?].
    split; [|left; simpl; lens]. apply (rep_intro 0 x mid bb b); try done; lia.
Qed.

Lemma take_whole_bytes bb bs b n :
  Forall byte_ok bs → (bb ≤ 8)%nat → (0 ≤ b < 2 ^ Z.of_nat (8 - bb))%Z →
  (8 ≤ n ≤ 64)%nat → (n ≤ 8 * length bs + (8 - bb))%nat →
  ∃ bytes v, take_front_bytes_loop (bs ++ [b]) 0 n n = Ret (bytes, v, n mod 8)%nat ∧
    v = val_of (take (n - n mod 8) (mid_bits bs ++ bits_of (8 - bb) b)) ∧
    let q' := if (length bytes <? 2)%nat then MkBitQueue bb (0%Z :: bytes) 8
              else MkBitQueue bb bytes 0 in
    rep q' (drop (n - n mod 8) (mid_bits bs ++ bits_of (8 - bb) b)) ∧ front_done q'.
Proof.
  intros Hok Hbb Hb Hn Hlen.
  pose proof (Nat.mod_upper_bound n 8 ltac:(lia)). pose proof (Nat.div_mod_eq n 8) as Hdm.
  assert (8 * (n / 8) = n - n mod 8)%nat as Hk by lia.
  assert (∀ xs ys, bs ++ [b] = xs ++ ys → length xs = (n / 8)%nat → Forall byte_ok xs →
    take_front_bytes_loop (bs ++ [b]) 0 n n = Ret (ys, val_of (mid_bits xs), n mod 8)%nat) as Hloop.
  { intros xs ys -> Hx Hxok.
    pose proof (take_front_bytes_loop_spec (n / 8) (n mod 8) xs ys 0 n) as Hl.
    rewrite <- Hdm, Nat.sub_diag in Hl. rewrite Hl by (done || lia). do 2 f_equal. f_equal. lia. }
  destruct (le_lt_dec (n / 8) (length bs)) as [Hm|Hm].
  - eexists _, _. split.
    { apply (Hloop (take (n / 8) bs) (drop (n / 8) bs ++ [b])); [|lens|by apply Forall_take].
      by rewrite app_assoc, take_drop. }
    rewrite <- Hk. split; [|by apply refill_rep].
    rewrite take_app_le by (rewrite length_mid_bits; lia).
    by rewrite (proj1 (split_mid_bits _ _ Hm)).
  - assert (bb = 0%nat) as -> by lia. eexists _, _. split.
    { apply (Hloop (bs ++ [b]) []); [by rewrite app_nil_r|lens|].
      apply Forall_app. split; [done|]. by constructor. }
    rewrite take_ge, drop_ge by (rewrite length_app, length_mid_bits, length_bits_of; lia).
    split; [by rewrite mid_bits_app, mid_bits_one|]. split; [constructor|right; simpl; lia].
Qed.

Lemma take_front_bytes_spec q l n :
  rep q l → (n ≤ 64)%nat → (n ≤ length l)%nat → ((8 ≤ n)%nat → front_done q) →
  ∃ q' v k, take_front_bytes q n = Ret (q', (v, k)) ∧
    (k ≤ n)%nat ∧ (n - k < 8)%nat ∧ v = val_of (take k l) ∧ rep q' (drop k l) ∧
    ((k = 0%nat ∧ q' = q) ∨ front_done q').
Proof.
  intros Hrep Hn Hl Hdone. unfold take_front_bytes.
  destruct (Nat.ltb_spec 64 n); [lia|]. destruct (Nat.ltb_spec n 8).
  { exists q, 0%Z, 0%nat. rewrite take_0, drop_0. repeat split; try done; try lia. by left. }
  specialize (Hdone ltac:(lia)). pose proof (Nat.mod_upper_bound n 8 ltac:(lia)).
  pose proof (Nat.Div0.mod_le n 8).
  destruct Hrep as [fb f mid bb b ?? Hf Hb Hmid|]; [|simpl in Hl; lia].
  rewrite !length_app, !length_bits_of, length_mid_bits in Hl.
  destruct Hdone as [[Hfb _]|[Hfb _]]; simpl in Hfb; subst fb; simpl.
  - destruct (take_whole_bytes bb (f :: mid) b n) as (bytes & v & Hloop & Hv & Hr & Hd);
      try done; simpl; try lia; [by constructor; [by eapply front_byte_ok|]|].
    unfold mid_bits in Hv, Hr. cbn [mbind list_bind] in Hv, Hr.
    rewrite <- app_assoc in Hv, Hr. simpl in Hloop. rewrite Hloop. simpl. rewrite usub_ok by lia.
    simpl. eexists _, _, _. split; [done|]. repeat split; try done; try lia. by right.
  - destruct (take_whole_bytes bb mid b n) as (bytes & v & Hloop & Hv & Hr & Hd);
      try done; simpl; try lia.
    rewrite Hloop. simpl. rewrite usub_ok by lia.
    simpl. eexists _, _, _. split; [done|]. repeat split; try done; try lia. by right.
Qed.

Lemma drop_back_rep q l :
  rep q l → back_blank_bit_count q = 8%nat → (2 < length (byte_queue q))%nat →
  rep (MkBitQueue 0 (pop_back (byte_queue q)) (front_blank_bit_count q)) l.
Proof.
  intros [fb f mid bb b ?? Hf Hb Hmid|]; simpl; [|lia]. intros -> Hlen.
  rewrite pop_back_snoc. destruct mid as [|m mid _] using rev_ind; [simpl in Hlen; lia|].
  apply Forall_app in Hmid as [? Hm]. rewrite Forall_singleton in Hm.
  apply (rep_intro fb f mid 0 m); try done; try lia.
  rewrite mid_bits_app, mid_bits_one, <- app_assoc. change (8 - 8)%nat with 0%nat.
  change (bits_of 0 b) with (@nil bool). by rewrite app_nil_r.
Qed.

Lemma take_some_back_bits_spec q l n :
  rep q l → (n < 8)%nat → (n ≤ length l)%nat →
  (n = 0%nat ∨ (front_blank_bit_count q = 8%nat ∧ (length (byte_queue q) ≤ 2)%nat)) →
  ∃ q', take_some_back_bits q n = Ret (q', (val_of (take n l), n)) ∧ rep q' (drop n l).
Proof.
  intros Hrep Hn Hl Hex. unfold take_some_back_bits, back_full_bit_count.
  destruct Hrep as [fb f mid bb b ?? Hf Hb Hmid|]; simpl in *.
  2: { assert (n = 0%nat) as -> by lia. eexists. split; [reflexivity|constructor]. }
  set (l := bits_of (8 - fb) f ++ mid_bits mid ++ bits_of (8 - bb) b) in *.
  assert ((n ≤ 8 - bb)%nat ∧ val_of (take n l) = (b mod 2 ^ Z.of_nat n)%Z ∧
          drop n l = bits_of (8 - fb) f ++ mid_bits mid ++
                     bits_of (8 - bb - n) (b / 2 ^ Z.of_nat n)%Z) as (Hnb & Htake & Hdrop).
  { destruct Hex as [->|[-> Hlen]].
    - rewrite take_0, drop_0, Z.div_1_r, Z.mod_1_r, Nat.sub_0_r. repeat split; lia.
    - destruct mid as [|]; [|lens]. unfold l in *. simpl in *. rewrite length_bits_of in Hl.
      rewrite take_bits_of, drop_bits_of, val_of_bits_of by done. repeat split; lia. }
  rewrite (usub_ok 8 bb) by lia. simpl. rewrite Nat.min_l, usub_ok by lia. simpl.
  rewrite low_order_ones_ok by lia. simpl. rewrite app_comm_cons, last_snoc. simpl.
  rewrite app_comm_cons, (map_back_snoc _ (f :: mid) b (b / 2 ^ Z.of_nat n)%Z) by (by rewrite shr_ok by lia).
  simpl. rewrite byte_mask by lia.
  replace (if (8 - bb - n <? 8)%nat then (b mod 2 ^ Z.of_nat n)%Z else 0%Z)
    with (b mod 2 ^ Z.of_nat n)%Z
    by (destruct (Nat.ltb_spec (8 - bb - n) 8); [done|];
        replace n with 0%nat by lia; by rewrite Z.mod_1_r).
  rewrite Htake. eexists. split; [done|].
  assert (rep (MkBitQueue (bb + n) (f :: mid ++ [(b / 2 ^ Z.of_nat n)%Z]) fb) (drop n l)) as Hr.
  { rewrite Hdrop. apply (rep_intro fb f mid (bb + n) (b / 2 ^ Z.of_nat n)%Z); try done; try lia.
    - by replace (8 - (bb + n))%nat with (8 - bb - n)%nat by lia.
    - replace (8 - (bb + n))%nat with (8 - bb - n)%nat by lia.
      by apply div_pow2_range. }
  destruct (Nat.eqb_spec (bb + n) 8); [|done].
  destruct (Nat.ltb_spec 2 (S (length (mid ++ [(b / 2 ^ Z.of_nat n)%Z])))); [|done]. simpl.
  by apply (drop_back_rep _ _ Hr).
Qed.

(** One assembly step of [take_bits]: the bits just taken go above the ones
    already collected. *)
Lemma splice_or d i l k :
  d = val_of (take i l) → (i + k ≤ length l)%nat → (i + k ≤ 64)%nat → (i < 64)%nat →
  Z.lor d (wrap 64 (val_of (take k (drop i l)) * 2 ^ Z.of_nat i)) = val_of (take (i + k) l).
Proof.
  intros -> Hlen Hle Hi. set (t := take k (drop i l)).
  assert (length t = k) as Ht by (unfold t; lens).
  pose proof (val_of_range t) as Hr. rewrite Ht in Hr.
  pose proof (pow2_pos i). pose proof (pow2_le (i + k) 64 Hle) as Hw.
  change (2 ^ Z.of_nat 64)%Z with (2 ^ 64)%Z in Hw. rewrite pow2_add in Hw.
  rewrite wrap_small by nia.
  pose proof (val_of_range (take i l)) as Hri. rewrite length_take, Nat.min_l in Hri by lia.
  rewrite lor_mul_pow2 by done.
  assert (take (i + k) l = take i l ++ t) as -> by (unfold t; by rewrite take_take_drop).
  rewrite val_of_app, length_take, Nat.min_l by lia. ring.
Qed.

Lemma splice_spec d i l k :
  d = val_of (take i l) → (i + k ≤ length l)%nat → (i + k ≤ 64)%nat →
  splice d i (val_of (take k (drop i l))) k = Ret (val_of (take (i + k) l), (i + k)%nat).
Proof.
  intros Hd Hlen Hle. unfold splice. destruct (Nat.ltb_spec 0 k).
  - rewrite shl_ok by lia. simpl. by rewrite (splice_or d i l k) by (done || lia).
  - replace k with 0%nat by lia. by rewrite Nat.add_0_r, Hd.
Qed.

(** After the whole bytes, at most seven bits remain to be taken, either from
    a whole front byte or from the back byte. *)
Lemma take_tail_spec q l n :
  rep q l → (n < 8)%nat → (n ≤ length l)%nat → (n = 0%nat ∨ front_done q) →
  ∃ q1 k q2, take_some_front_bits q n = Ret (q1, (val_of (take k l), k)) ∧ (k ≤ n)%nat ∧
    take_some_back_bits q1 (n - k) = Ret (q2, (val_of (take (n - k) (drop k l)), (n - k)%nat)) ∧
    rep q2 (drop n l).
Proof.
  intros Hrep Hn Hl Hdone.
  assert (∀ q1 k, take_some_front_bits q n = Ret (q1, (val_of (take k l), k)) → (k ≤ n)%nat →
    rep q1 (drop k l) →
    (n - k = 0%nat ∨ (front_blank_bit_count q1 = 8%nat ∧ (length (byte_queue q1) ≤ 2)%nat))%nat →
    ∃ q1 k q2, take_some_front_bits q n = Ret (q1, (val_of (take k l), k)) ∧ (k ≤ n)%nat ∧
      take_some_back_bits q1 (n - k) = Ret (q2, (val_of (take (n - k) (drop k l)), (n - k)%nat)) ∧
      rep q2 (drop n l)) as Hfin.
  { intros q1 k Hf Hk Hr Hex.
    destruct (take_some_back_bits_spec q1 (drop k l) (n - k) Hr) as (q2 & ? & Hr2);
      [lia|lens|done|].
    exists q1, k, q2. repeat split; try done.
    rewrite drop_drop in Hr2. by replace (k + (n - k))%nat with n in Hr2 by lia. }
  destruct Hdone as [->|[[Hfb Hlen]|[Hfb Hlen]]].
  - destruct (take_some_front_bits_spec q l 0 Hrep) as (q1 & v & k & Hf & ? & ? & ? & -> & Hr & _).
    apply (Hfin q1 k); try done; lia.
  - destruct (take_some_front_bits_rep q l n Hrep) as (q1 & v & k & Hf & Hk & ? & -> & Hr & _ & _);
      [lia|]. rewrite Hfb in Hk. apply (Hfin q1 k); try done; lia.
  - destruct (take_some_front_bits_rep q l n Hrep) as (q1 & v & k & Hf & Hk & ? & -> & Hr & _ & He);
      [lia|]. rewrite Hfb in Hk. apply (Hfin q1 k); try done; try lia.
    rewrite He by lia. by right.
Qed.

Lemma take_bits_spec q l n :
  rep q l → (n ≤ 64)%nat → (n ≤ length l)%nat →
  ∃ q', take_bits q n = Ret (q', Some (val_of (take n l))) ∧ rep q' (drop n l).
Proof.
  intros Hrep Hn Hl. unfold take_bits. destruct (Nat.ltb_spec 64 n); [lia|].
  rewrite (rep_len _ _ Hrep). simpl. destruct (Nat.ltb_spec (length l) n); [lia|].
  destruct (take_some_front_bits_spec q l n Hrep)
    as (q1 & v1 & k1 & -> & ? & ? & ? & -> & Hrep1 & Hdone1). simpl.
  rewrite Z.shiftl_0_r, usub_ok by lia. simpl.
  destruct (take_front_bytes_spec q1 (drop k1 l) (n - k1) Hrep1)
    as (q2 & v2 & k2 & -> & ? & ? & -> & Hrep2 & Hdone2); [lia|lens|intros; apply Hdone1; lia|].
  simpl. rewrite shl_ok, usub_ok by lia. simpl.
  rewrite (wrap_small 64 (val_of (take k1 l))).
  2: { pose proof (val_of_range (take k1 l)) as Hr. rewrite length_take, Nat.min_l in Hr by lia.
       pose proof (pow2_le k1 64). change (2 ^ Z.of_nat 64)%Z with (2 ^ 64)%Z in *. lia. }
  rewrite (splice_or _ k1 l k2) by (done || lia).
  rewrite drop_drop in Hrep2.
  destruct (take_tail_spec q2 _ (n - k1 - k2) Hrep2)
    as (q3 & k3 & q4 & -> & ? & Hback & Hrep4); [lia|lens| |].
  { destruct (decide (n - k1 - k2 = 0)%nat); [by left|right].
    destruct Hdone2 as [[-> ->]|]; [apply Hdone1; lia|done]. }
  simpl. rewrite splice_spec by (done || lia). simpl. rewrite usub_ok by lia. simpl.
  rewrite Hback. simpl. rewrite drop_drop, splice_spec by (done || lia). simpl.
  rewrite usub_ok by lia. simpl.
  replace (k1 + k2 + k3 + (n - k1 - k2 - k3))%nat with n by lia. rewrite Nat.eqb_refl. simpl.
  exists q4. split; [done|]. rewrite drop_drop in Hrep4.
  by replace (k1 + k2 + (n - k1 - k2))%nat with n in Hrep4 by lia.
Qed.

Lemma take_bits_short q l n :
  rep q l → (length l < n ≤ 64)%nat → take_bits q n = Ret (q, None).
Proof.
  intros Hrep [Hl Hn]. unfold take_bits. destruct (Nat.ltb_spec 64 n); [lia|].
  rewrite (rep_len _ _ Hrep). simpl. by destruct (Nat.ltb_spec (length l) n); [|lia].
Qed.

Lemma take_bits_any q l n :
  rep q l → (n ≤ 64)%nat →
  ∃ q' r l', take_bits q n = Ret (q', r) ∧ rep q' l' ∧
    ((r = None ∧ l' = l) ∨
     (∃ v, r = Some v ∧ (0 ≤ v < 2 ^ Z.of_nat n)%Z ∧ length l = (n + length l')%nat)).
Proof.
  intros Hrep Hn. destruct (le_lt_dec n (length l)) as [Hl|Hl].
  - destruct (take_bits_spec q l n Hrep Hn Hl) as (q' & ? & ?).
    eexists q', _, _. repeat split; try done. right. eexists. split; [done|]. split; [|lens].
    pose proof (val_of_range (take n l)) as Hr. by rewrite length_take, Nat.min_l in Hr.
  - exists q, None, l. rewrite (take_bits_short q l n) by (done || lia). repeat split; try done. by left.
Qed.

(** Reading back a field that is at the front of the queue. *)
Lemma take_bits_field q d n l :
  rep q (bits_of n d ++ l) → (n ≤ 64)%nat → (0 ≤ d < 2 ^ Z.of_nat n)%Z →
  ∃ q', take_bits q n = Ret (q', Some d) ∧ rep q' l.
Proof.
  intros Hrep Hn Hd.
  destruct (take_bits_spec q _ n Hrep Hn) as (q' & Ht & Hr).
  { rewrite length_app, length_bits_of. lia. }
  rewrite take_app_length', drop_app_length' in * by (by rewrite length_bits_of).
  rewrite val_of_bits_of, Z.mod_small in Ht by done. by exists q'.
Qed.

(** What a program does on the bytes, where [r] is what it does on the list. *)
Definition refines_run (c : run (BitQueue * list (option Z)))
    (r : run (list bool * list (option Z))) : Prop :=
  match r with
  | Panic => c = Panic
  | Ret (l, rs) => ∃ q, c = Ret (q, rs) ∧ rep q l
  end.

Lemma refines_cons c r v : refines_run c r →
  refines_run ('(q, rs) ← c; Ret (q, v :: rs)) ('(l, rs) ← r; Ret (l, v :: rs)).
Proof. destruct r as [[l rs]|]; simpl; [intros (q & -> & ?); by exists q|by intros ->]. Qed.

Lemma run_ops_spec ops q l :
  rep q l → forallb op_fits ops = true → refines_run (run_ops q ops) (fifo_ops l ops).
Proof.
  revert q l; induction ops as [|[d n|n] ops IH]; intros q l Hrep Hok; simpl in Hok |- *.
  - by exists q.
  - apply andb_true_iff in Hok as [Ho Hok]. b2p.
    destruct (Nat.ltb_spec 64 n) as [Hn|Hn].
    { unfold add_bits. by destruct (Nat.ltb_spec 64 n); [|lia]. }
    destruct (add_bits_spec q l d n) as (q1 & -> & Hr1); try done. simpl. by apply IH.
  - destruct (Nat.ltb_spec 64 n) as [Hn|Hn].
    { unfold take_bits. by destruct (Nat.ltb_spec 64 n); [|lia]. }
    destruct (Nat.leb_spec n (length l)).
    + destruct (take_bits_spec q l n) as (q1 & -> & Hr1); try done. by apply refines_cons, IH.
    + rewrite (take_bits_short q l n) by (done || lia). by apply refines_cons, IH.
Qed.

Lemma cons_panics (r : run (list bool * list (option Z))) v :
  ('(l, rs) ← r; Ret (l, v :: rs)) = Panic ↔ r = Panic.
Proof. by destruct r as [[]|]. Qed.

Lemma fifo_ops_panics l ops :
  fifo_ops l ops = Panic ↔ ∃ o, o ∈ ops ∧ match o with OpAdd _ n | OpTake n => (64 < n)%nat end.
Proof.
  revert l. induction ops as [|o ops IH]; intros l; simpl.
  { split; [done|]. intros (o & Ho & _). by apply not_elem_of_nil in Ho. }
  setoid_rewrite elem_of_cons. destruct o as [d n|n]; destruct (Nat.ltb_spec 64 n) as [Hn|Hn].
  1,3: split; [|done]; intros _; eexists; split; [by left|done].
  - rewrite IH. split; [naive_solver|]. intros (o & [->|Ho] & Hbad); [lia|naive_solver].
  - destruct (n <=? length l)%nat.
    all: rewrite cons_panics, IH.
    all: split; [naive_solver|]; intros (o & [->|Ho] & Hbad); [lia|naive_solver].
Qed.

(** ** Properties *)

(** C24: a [BitQueue] is a FIFO of bits.  Take any sequence of [add_bits] and
    [take_bits] calls on a new queue in which the data of each [add_bits] has
    no bits above its count.  It panics exactly when the same calls on a plain
    list of bits do, which is at the first call for more than 64 bits; when it
    does not, each [take_bits] gives exactly what it gives on the list, whatever
    the alignment of the bytes inside, and the queue reached stores that list.
    (Data with bits above its count spills them into the bits added next, as
    [add_bits_leaks_high_bits] shows, so that the condition on the data is
    needed.) *)
Theorem bit_queue_refines_fifo (ops : list bq_op) :
  forallb op_fits ops = true →
  refines_run (run_ops new ops) (fifo_ops [] ops) ∧
  (run_ops new ops = Panic ↔
     ∃ o, o ∈ ops ∧ match o with OpAdd _ n | OpTake n => (64 < n)%nat end).
Proof.
  intros Hfit. pose proof (run_ops_spec ops new [] rep_new Hfit) as H. split; [done|].
  rewrite <- (fifo_ops_panics [] ops). destruct (fifo_ops [] ops) as [[l rs]|]; [|done].
  destruct H as (q & -> & _). done.
Qed.

Lemma bit_queue_refines_fifo_witness :
  let ops := [OpAdd 5 3; OpAdd 0x1FF 9; OpTake 2; OpAdd 1 64; OpTake 64; OpTake 64] in
  (∃ q, run_ops new ops = Ret (q, [Some 1; Some (0x3FF + 2 ^ 10); None]%Z) ∧ rep q (bits_of 10 0)) ∧
  run_ops new (ops ++ [OpTake 65]) = Panic.
Proof.
  split.
  - destruct (bit_queue_refines_fifo
      [OpAdd 5 3; OpAdd 0x1FF 9; OpTake 2; OpAdd 1 64; OpTake 64; OpTake 64] eq_refl) as [H _].
    vm_compute fifo_ops in H. exact H.
  - apply (bit_queue_refines_fifo
      [OpAdd 5 3; OpAdd 0x1FF 9; OpTake 2; OpAdd 1 64; OpTake 64; OpTake 64; OpTake 65] eq_refl).
    exists (OpTake 65). split; [|lia]. do 6 right. by left.
Defined.

(** Bits come out in the order they went in: taking from a queue that
    stores [l], after adding [n] bits of [d], [n] bits at a time: once the
    earlier bits are gone the value read is [d] itself. *)
Lemma bit_queue_roundtrip (q : BitQueue) (l : list bool) (d : Z) (n : nat) :
  rep q l → (length l ≤ 64)%nat → (n ≤ 64)%nat → (0 ≤ d < 2 ^ Z.of_nat n)%Z →
  ∃ q1 q2 q3, add_bits q d n = Ret q1 ∧
    take_bits q1 (length l) = Ret (q2, Some (val_of l)) ∧
    take_bits q2 n = Ret (q3, Some d) ∧ len q3 = Ret 0%nat.
Proof.
  intros Hrep Hl Hn Hd.
  destruct (add_bits_spec q l d n) as (q1 & ? & Hr1); try done.
  destruct (take_bits_spec q1 _ (length l) Hr1) as (q2 & ? & Hr2); [done|lens|].
  rewrite take_app_length in *. rewrite drop_app_length in Hr2.
  destruct (take_bits_spec q2 _ n Hr2) as (q3 & Ht & Hr3); [done|by rewrite length_bits_of|].
  exists q1, q2, q3. repeat split; try done.
  - rewrite Ht, take_ge by (by rewrite length_bits_of).
    rewrite val_of_bits_of, Z.mod_small; done.
  - rewrite (rep_len _ _ Hr3), length_drop, length_bits_of. f_equal. lia.
Qed.

(** Add a byte with a bit count, fill up with zero bits, read the byte back. *)
Definition leaks (d : Z) (n : nat) : run (option Z) :=
  q ← add_bits new d n; q ← add_bits q 0 (8 - n); '(_, r) ← take_bits q 8; Ret r.

Lemma leaks_all_bytes :
  forallb (λ d, forallb (λ n, bool_decide (leaks (Z.of_nat d) n = Ret (Some (Z.of_nat d)))) (seq 0 9))
    (seq 0 256) = true.
Proof. vm_compute. reflexivity. Qed.

(** [add_bits] does not mask its argument.  Adding any byte with any
    declared bit count up to 8, and then zero bits to fill the byte, reads back
    as the whole byte instead of its declared low bits: what stands above the
    count leaks into the bits added later, so the condition [op_fits] is needed by
    every caller. *)
Lemma add_bits_leaks_high_bits (d : Z) (n : nat) :
  (0 ≤ d < 256)%Z → (n ≤ 8)%nat →
  (q ← add_bits new d n; q ← add_bits q 0 (8 - n); '(_, r) ← take_bits q 8; Ret r) = Ret (Some d).
Proof.
  intros Hd Hn. pose proof leaks_all_bytes as H. rewrite forallb_forall in H.
  specialize (H (Z.to_nat d)). rewrite in_seq, forallb_forall in H. specialize (H ltac:(lia) n).
  rewrite in_seq, bool_decide_eq_true, Z2Nat.id in H by lia. apply H. lia.
Qed.

End BitQueue.
