(* ===== verification/Countries.v ===== *)
(** * The table of countries

    Models [ip_country/src/countries.rs] and the [Country] struct of
    [ip_country/src/country_block_stream.rs].  A [Countries] value keeps the
    countries in a vector, each carrying its own index, and a hash map from
    ISO 3166 code to index.  [HashMap<String, usize>] is [gmap string nat];
    [Vec::sort_by] is a stable sort, written as an insertion sort (all stable
    sorts agree).  Error texts are kept as constructors with the values the
    messages print. *)
From S2P Require Import Prelude.
From Stdlib Require Import Ascii String.
From stdpp Require Import base list strings gmap.

Module Countries.

(** ** Data *)

Record Country := MkCountry {
  index : nat;
  iso3166 : string;
  name : string
}.

Record Countries := MkCountries {
  countries : list Country;
  index_by_iso3166 : gmap string nat
}.

Inductive country_error :=
| InvalidCode (iso3166 : string)
| NoCountryAt (len index : nat).

(** ** Strings *)

Definition ascii_uppercase (c : ascii) : ascii :=
  let n := N_of_ascii c in
  if (97 <=? n)%N && (n <=? 122)%N then ascii_of_N (n - 32) else c.

Fixpoint to_ascii_uppercase (s : string) : string :=
  match s with
  | EmptyString => EmptyString
  | String c s' => String (ascii_uppercase c) (to_ascii_uppercase s')
  end.

(** ** Stable sort by code *)

Definition pair_le (a b : string * string) : bool := String.leb a.1 b.1.

Fixpoint insert_pair (p : string * string) (l : list (string * string))
    : list (string * string) :=
  match l with
  | [] => [p]
  | p' :: l' => if pair_le p p' then p :: l else p' :: insert_pair p l'
  end.

Fixpoint sort_pairs (l : list (string * string)) : list (string * string) :=
  match l with
  | [] => []
  | p :: l' => insert_pair p (sort_pairs l')
  end.

(** ** Operations *)

Definition old_new (cs : list Country) : Countries :=
  MkCountries cs
    (foldl (λ m c, <[iso3166 c := index c]> m) ∅ cs).

Definition sentinel : Country := MkCountry 0 "ZZ" "Sentinel".

Definition new (country_pairs : list (string * string)) : Countries :=
  let sentinel_info_opt := list_find (λ p, p.1 = "ZZ"%string) country_pairs in
  let country_pairs :=
    match sentinel_info_opt with
    | Some (i, _) => delete i country_pairs
    | None => country_pairs
    end in
  let country_pairs := sort_pairs country_pairs in
  let cs := imap (λ i p, MkCountry (i + 1) p.1 p.2) country_pairs in
  old_new (sentinel :: cs).

Definition country_from_index (cs : Countries) (i : nat) : result country_error Country :=
  match countries cs !! i with
  | None => Err (NoCountryAt (length (countries cs)) i)
  | Some c => Ok c
  end.

Definition country_from_code (cs : Countries) (code : string)
    : run (result country_error Country) :=
  match index_by_iso3166 cs !! to_ascii_uppercase code with
  | None => Ret (Err (InvalidCode code))
  | Some i =>
      c ← expect_ok (country_from_index cs i);
      Ret (Ok c)
  end.

Definition len (cs : Countries) : nat := length (countries cs).

(** The pairs [(iso3166, name)] of [countries.iter()]. *)
Definition pairs (cs : Countries) : list (string * string) :=
  (λ c, (iso3166 c, name c)) <$> countries cs.

(** ** Lemmas *)

Lemma string_compare_trans_le a b c :
  String.leb a b = true → String.leb b c = true → String.leb a c = true.
Proof.
  unfold String.leb. revert b c; induction a as [|x a IH]; intros [|y b] [|z c]; simpl; try done.
  unfold Ascii.compare. intros H1 H2.
  destruct (N.compare_spec (N_of_ascii x) (N_of_ascii y)) as [Exy|Exy|Exy];
    destruct (N.compare_spec (N_of_ascii y) (N_of_ascii z)) as [Eyz|Eyz|Eyz];
    destruct (N.compare_spec (N_of_ascii x) (N_of_ascii z)); try done; try lia.
  by apply (IH b c).
Qed.

Definition sorted_pairs (l : list (string * string)) : Prop :=
  Sorted (λ a b, pair_le a b = true) l.

Lemma insert_pair_hd p l q :
  pair_le q p = true → HdRel (λ a b, pair_le a b = true) q l →
  HdRel (λ a b, pair_le a b = true) q (insert_pair p l).
Proof. intros Hp [|y l' Hy]; simpl; [by constructor|]. destruct (pair_le p y); by constructor. Qed.

Lemma insert_pair_sorted p l : sorted_pairs l → sorted_pairs (insert_pair p l).
Proof.
  unfold sorted_pairs. induction 1 as [|y l Hs IH Hhd]; simpl; [by repeat constructor|].
  destruct (pair_le p y) eqn:E; [repeat (constructor; try done)|].
  constructor; [done|]. apply insert_pair_hd; [|done].
  unfold pair_le in *. destruct (String.leb_total y.1 p.1); congruence.
Qed.

Lemma sort_pairs_sorted l : sorted_pairs (sort_pairs l).
Proof. induction l; simpl; [constructor|by apply insert_pair_sorted]. Qed.

Lemma sort_pairs_perm l : sort_pairs l ≡ₚ l.
Proof.
  induction l as [|p l IH]; [done|]. simpl. rewrite <- IH at 2. generalize (sort_pairs l).
  intros k. induction k as [|q k IHk]; simpl; [done|].
  destruct (pair_le p q); [done|]. rewrite IHk. apply perm_swap.
Qed.

Lemma sort_pairs_id l : sorted_pairs l → sort_pairs l = l.
Proof.
  unfold sorted_pairs. induction 1 as [|p l Hs IH Hhd]; [done|]. simpl. rewrite IH.
  destruct Hhd as [|q l Hq]; [done|]. simpl. by rewrite Hq.
Qed.

Section index_map.
Implicit Types cs : list Country.

Definition index_map (m : gmap string nat) cs : gmap string nat :=
  foldl (λ m c, <[iso3166 c := index c]> m) m cs.

Lemma index_map_sound m cs code i :
  index_map m cs !! code = Some i →
  (∃ c, c ∈ cs ∧ iso3166 c = code ∧ index c = i) ∨ m !! code = Some i.
Proof.
  revert m; induction cs as [|c cs IH]; intros m H; [by right|].
  apply IH in H as [(c' & ? & ? & ?)|H]; [left; exists c'; split; [by right|done]|].
  destruct (decide (iso3166 c = code)) as [<-|].
  - rewrite lookup_insert_eq in H. simplify_eq. left. exists c. split; [left|done].
  - rewrite lookup_insert_ne in H by done. by right.
Qed.

Lemma index_map_some m cs code :
  is_Some (m !! code) ∨ code ∈ iso3166 <$> cs → is_Some (index_map m cs !! code).
Proof.
  revert m; induction cs as [|c cs IH]; intros m [H|H]; try done.
  - by apply elem_of_nil in H.
  - apply IH. left. destruct (decide (iso3166 c = code)) as [<-|];
      [by rewrite lookup_insert_eq|by rewrite lookup_insert_ne].
  - apply IH. apply elem_of_cons in H as [->|]; [left; by rewrite lookup_insert_eq|by right].
Qed.
End index_map.

(** The pairs kept by [new], in their final order, without the sentinel. *)
Definition kept_pairs (ps : list (string * string)) : list (string * string) :=
  sort_pairs (match list_find (λ p, p.1 = "ZZ"%string) ps with
              | Some (i, _) => delete i ps
              | None => ps
              end).

Lemma new_countries ps :
  countries (new ps) = sentinel :: imap (λ i p, MkCountry (i + 1) p.1 p.2) (kept_pairs ps).
Proof. done. Qed.

Lemma new_index ps i c : countries (new ps) !! i = Some c → index c = i.
Proof.
  rewrite new_countries. destruct i as [|i]; simpl; [by intros [= <-]|].
  rewrite list_lookup_imap. destruct (kept_pairs ps !! i); simpl; [|done].
  intros [= <-]. simpl. lia.
Qed.

Lemma new_map_sound ps code i :
  index_by_iso3166 (new ps) !! code = Some i →
  ∃ c, countries (new ps) !! i = Some c ∧ iso3166 c = code ∧ index c = i.
Proof.
  intros H. apply index_map_sound in H as [(c & Hin & Hc & Hi)|H]; [|by rewrite lookup_empty in H].
  apply list_elem_of_lookup in Hin as [j Hj]. pose proof (new_index ps j c Hj) as Hij.
  exists c. rewrite <- Hi, Hij. done.
Qed.

Lemma pairs_new ps : pairs (new ps) = ("ZZ"%string, "Sentinel"%string) :: kept_pairs ps.
Proof.
  unfold pairs. rewrite new_countries. simpl. f_equal. rewrite fmap_imap.
  apply list_eq. intros i. rewrite list_lookup_imap. simpl.
  destruct (kept_pairs ps !! i) as [[]|]; done.
Qed.

Lemma kept_pairs_perm ps p :
  p ∈ ps → p.1 ≠ "ZZ"%string → p ∈ kept_pairs ps.
Proof.
  intros Hp Hz. unfold kept_pairs. rewrite sort_pairs_perm.
  destruct (list_find _ ps) as [[i q]|] eqn:E; [|done].
  apply list_find_Some in E as (Hi & Hq & _).
  apply list_elem_of_lookup in Hp as [j Hj]. destruct (decide (i = j)) as [->|]; [naive_solver|].
  apply list_elem_of_lookup. destruct (decide (j < i)%nat).
  - exists j. by rewrite list_lookup_delete_lt.
  - exists (pred j). rewrite list_lookup_delete_ge by lia. by replace (S (pred j)) with j by lia.
Qed.

Lemma kept_pairs_sub ps p : p ∈ kept_pairs ps → p ∈ ps.
Proof.
  unfold kept_pairs. rewrite sort_pairs_perm.
  destruct (list_find _ ps) as [[i q]|]; [|done].
  intros [j Hj]%list_elem_of_lookup. apply list_elem_of_lookup.
  destruct (decide (j < i)%nat).
  - exists j. by rewrite list_lookup_delete_lt in Hj.
  - exists (S j). by rewrite list_lookup_delete_ge in Hj by lia.
Qed.

Lemma new_pairs ps : new (pairs (new ps)) = new ps.
Proof.
  rewrite pairs_new. unfold new at 1. cbn [list_find]. rewrite decide_True by done.
  cbn [delete list_delete]. rewrite sort_pairs_id by apply sort_pairs_sorted. done.
Qed.

Lemma country_from_code_cases (ps : list (string * string)) (code : string) :
  (∃ c, country_from_code (new ps) code = Ret (Ok c) ∧
     iso3166 c = to_ascii_uppercase code ∧
     country_from_index (new ps) (index c) = Ok c) ∨
  (country_from_code (new ps) code = Ret (Err (InvalidCode code)) ∧
     to_ascii_uppercase code ≠ "ZZ"%string ∧
     to_ascii_uppercase code ∉ ps.*1).
Proof.
  unfold country_from_code, country_from_index.
  destruct (index_by_iso3166 (new ps) !! to_ascii_uppercase code) as [i|] eqn:E.
  - left. apply new_map_sound in E as (c & Hc & ? & <-). rewrite Hc. simpl.
    exists c. simpl in Hc. by rewrite Hc.
  - right. split; [done|].
    assert (to_ascii_uppercase code ∉ iso3166 <$> countries (new ps)) as Hn.
    { intros Hin. destruct (index_map_some ∅ (countries (new ps)) (to_ascii_uppercase code)) as [i Hi];
        [by right|]. unfold new, old_new, index_map in *. simpl in *. congruence. }
    assert ((iso3166 <$> countries (new ps)) = "ZZ"%string :: (kept_pairs ps).*1) as Hiso.
    { pose proof (pairs_new ps) as Hp. apply (f_equal (fmap fst)) in Hp.
      unfold pairs in Hp. by rewrite <- list_fmap_compose in Hp. }
    rewrite Hiso, not_elem_of_cons in Hn. destruct Hn as [Hz Hn]. split; [done|].
    intros (p & Heq & Hp)%list_elem_of_fmap. apply Hn. apply list_elem_of_fmap.
    exists p. split; [done|]. apply kept_pairs_perm; congruence.
Qed.

(** ** Properties *)

(** Looking a country up by code is total and consistent with looking it up
    by index.  On a table built by [new] from any pairs, [country_from_code]
    never hits its data-error panic; it fails exactly when the upper-cased
    code is neither "ZZ" nor the code of some pair; and a country it returns
    has the upper-cased code and is the one stored at its own index. *)
Lemma country_from_code_total (ps : list (string * string)) (code : string) :
  (∃ c, country_from_code (new ps) code = Ret (Ok c) ∧
     iso3166 c = to_ascii_uppercase code ∧
     country_from_index (new ps) (index c) = Ok c) ∨
  (country_from_code (new ps) code = Ret (Err (InvalidCode code)) ∧
     to_ascii_uppercase code ≠ "ZZ"%string ∧
     to_ascii_uppercase code ∉ ps.*1).
Proof. apply country_from_code_cases. Qed.

(** Regenerating the table is the identity.  The generated source lists
    the countries of the table, sentinel included, and rebuilds the table with
    [new]; the rebuilt table equals the original, so the country indexes
    written into the compressed data keep their meaning. *)
Lemma countries_regenerate (ps : list (string * string)) :
  new (pairs (new ps)) = new ps.
Proof. apply new_pairs. Qed.

End Countries.
