(* ===== verification/CountryBlockStream.v ===== *)
(** * IP ranges and country blocks

    Models [ip_country/src/country_block_stream.rs].  An [Ipv4Addr] is kept as
    its [u32] value and an [Ipv6Addr] as its [u128] value (the numbers that
    [u32::from] and [u128::from] give); octets and 16-bit segments are computed
    from them where the code asks for them.  Rust's [Ordering] is
    [comparison]. *)
From S2P Require Import Prelude.
From S2P Require Import Countries.
Import Countries.

Module Stream.
Local Open Scope Z_scope.

(** ** Data *)

Inductive IpAddr :=
| IpV4 (a : Z)
| IpV6 (a : Z).

Inductive IpRange :=
| V4 (start_ end_ : Z)
| V6 (start_ end_ : Z).

Record CountryBlock := MkBlock {
  ip_range : IpRange;
  country : Country
}.

Global Instance IpAddr_eq_dec : EqDecision IpAddr.
Proof. solve_decision. Defined.
Global Instance IpRange_eq_dec : EqDecision IpRange.
Proof. solve_decision. Defined.
Global Instance Country_eq_dec : EqDecision Country.
Proof. solve_decision. Defined.
Global Instance CountryBlock_eq_dec : EqDecision CountryBlock.
Proof. solve_decision. Defined.

(** Addresses that the Rust types can hold. *)
Definition addr_ok (ip : IpAddr) : Prop :=
  match ip with
  | IpV4 a => 0 ≤ a < 2 ^ 32
  | IpV6 a => 0 ≤ a < 2 ^ 128
  end.

(** ** Operations *)

Definition range_new (start_ end_ : IpAddr) : run IpRange :=
  match start_, end_ with
  | IpV4 s, IpV4 e => Ret (V4 s e)
  | IpV6 s, IpV6 e => Ret (V6 s e)
  | _, _ => Panic
  end.

Definition contains_inner (begin_ end_ candidate : Z) : bool :=
  (begin_ <=? candidate) && (candidate <=? end_).

Definition contains (r : IpRange) (ip_addr : IpAddr) : bool :=
  match r with
  | V4 begin_ end_ =>
      match ip_addr with
      | IpV4 candidate => contains_inner begin_ end_ candidate
      | IpV6 _ => false
      end
  | V6 begin_ end_ =>
      match ip_addr with
      | IpV4 _ => false
      | IpV6 candidate => contains_inner begin_ end_ candidate
      end
  end.

Definition start (r : IpRange) : IpAddr :=
  match r with V4 s _ => IpV4 s | V6 s _ => IpV6 s end.

Definition end_of (r : IpRange) : IpAddr :=
  match r with V4 _ e => IpV4 e | V6 _ e => IpV6 e end.

(** The result orders the range relative to the address examined, as
    [binary_search_by] expects: [Gt] when the address lies below the range. *)
Definition compare_with_range (examined low high : Z) : comparison :=
  if examined <? low then Gt
  else if high <? examined then Lt
  else Eq.

Definition ordering_by_range (r : IpRange) (ip_addr : IpAddr) : run comparison :=
  match ip_addr, r with
  | IpV4 ip, V4 low high => Ret (compare_with_range ip low high)
  | IpV6 ip, V6 low high => Ret (compare_with_range ip low high)
  | _, _ => Panic
  end.

(** [first + 1] on the machine type: the checked profile panics at the top. *)
Definition succ_checked (w : Z) (a : Z) : run Z :=
  if a + 1 <? 2 ^ w then Ret (a + 1) else Panic.

Definition are_consecutive (first second : IpAddr) : run bool :=
  match first, second with
  | IpV4 f, IpV4 s => f1 ← succ_checked 32 f; Ret (s =? f1)
  | IpV6 f, IpV6 s => f1 ← succ_checked 128 f; Ret (s =? f1)
  | _, _ => Panic
  end.

(** ** Lemmas *)

Lemma compare_with_range_eq ip low high :
  compare_with_range ip low high = Eq ↔ low ≤ ip ≤ high.
Proof. unfold compare_with_range. repeat split_if; split; try done; lia. Qed.

Lemma compare_with_range_lt ip low high :
  low ≤ high → compare_with_range ip low high = Lt ↔ high < ip.
Proof. intros. unfold compare_with_range. repeat split_if; split; try done; lia. Qed.

Lemma compare_with_range_gt ip low high :
  compare_with_range ip low high = Gt ↔ ip < low.
Proof. unfold compare_with_range. repeat split_if; split; try done; lia. Qed.

Lemma contains_inner_spec b e c : contains_inner b e c = true ↔ b ≤ c ≤ e.
Proof. unfold contains_inner. rewrite andb_true_iff, !Z.leb_le. done. Qed.

(** ** Properties *)

(** The three-way comparison used by the search agrees with membership:
    for a range and an address of the same version, [ordering_by_range]
    returns, and it answers "equal" exactly when [contains] holds, "greater"
    exactly when the address is below the range; for different versions it
    panics while [contains] is false. *)
Lemma ordering_agrees_with_contains (r : IpRange) (ip : IpAddr) :
  match ordering_by_range r ip with
  | Ret o => (o = Eq ↔ contains r ip = true) ∧
             (o = Gt ↔ match ip, start r with
                       | IpV4 a, IpV4 s | IpV6 a, IpV6 s => a < s
                       | _, _ => False
                       end)
  | Panic => contains r ip = false
  end.
Proof.
  destruct r, ip; simpl; try done;
    by rewrite contains_inner_spec, compare_with_range_eq, compare_with_range_gt.
Qed.

End Stream.
