(* ===== verification/CountryBlockSerde.v ===== *)
(** * Serialization of country blocks

    Models [ip_country/src/country_block_serde.rs]: the serializer that turns a
    stream of country blocks into a compressed bit string, filling the gaps
    between blocks with the sentinel country, and the deserializer that reads
    it back as an iterator.  The Rust code is generic over the IP version by
    the traits [IPIntoSegments], [IPIntoOctets], [PlusMinusOneIP] and
    [DeserializerPrivate]; here they are one type class [IPType] with an
    instance per version, and [IPTypeOk] states what the generic code needs of
    an instance.

    Main results: reading the serialized form of a sorted, disjoint list of
    blocks gives the blocks back with the gaps filled; the same through the
    64-bit words of the generated source; the iterator terminates on any
    data. *)
From S2P Require Import Prelude.
From S2P Require Import BitQueue.
From S2P Require Import Countries.
From S2P Require Import CountryBlockStream.

Module Serde.
Import Stream.
Local Open Scope Z_scope.

(** ** Loading the words of the generated source *)

(** [while bit_count >= 64 { add_bits(remove(0), 64) }; if bit_count > 0
    { add_bits(remove(0), bit_count) }]; [Vec::remove] panics on an empty
    vector. *)
Fixpoint load_words (q : BitQueue.BitQueue) (country_data : list Z) (bit_count : nat)
    : run BitQueue.BitQueue :=
  match country_data with
  | [] => if (0 <? bit_count)%nat then Panic else Ret q
  | w :: ws =>
      if (64 <=? bit_count)%nat
      then q ← BitQueue.add_bits q w 64; load_words q ws (bit_count - 64)
      else if (0 <? bit_count)%nat then BitQueue.add_bits q w bit_count
      else Ret q
  end.

Definition bit_queue_from_country_data (country_data_pair : list Z * nat)
    : run BitQueue.BitQueue :=
  let '(country_data, bit_count) := country_data_pair in
  load_words BitQueue.new country_data bit_count.

(** ** IP versions *)

Class IPType := {
  segments_count : nat;                (** [SEGMENTS_COUNT] *)
  segment_bit_count : nat;             (** width of [SegmentNumRep] *)
  difference_count_bit_count : nat;
  index_bit_count : nat;
  range_from : Z → Z → IpRange         (** [IpRange: From<(IPType, IPType)>] *)
}.

(** The versions are named explicitly where they are used, never found by
    search. *)
Definition Ipv4 : IPType := {|
  segments_count := 4; segment_bit_count := 8;
  difference_count_bit_count := 2; index_bit_count := 2;
  range_from := V4 |}.

Definition Ipv6 : IPType := {|
  segments_count := 8; segment_bit_count := 16;
  difference_count_bit_count := 3; index_bit_count := 3;
  range_from := V6 |}.

Section generic.
Context (T : IPType).

Definition ip_bits : nat := segments_count * segment_bit_count.
Definition octets_count : nat := ip_bits / 8.
Definition ip_max : Z := 2 ^ Z.of_nat ip_bits - 1.

Definition segments (ip : Z) : list Z := be_digits segment_bit_count segments_count ip.
Definition octets (ip : Z) : list Z := be_digits 8 octets_count ip.
Definition from_segments (s : list Z) : Z := from_be_digits segment_bit_count s.

(** [bit_data <<= 8; bit_data |= octet] over the octets. *)
Definition integer_from_ip_generic (ip : Z) : Z :=
  foldl (λ bit_data octet,
    Z.lor (wrap (Z.of_nat ip_bits) (Z.shiftl bit_data 8)) octet) 0 (octets ip).

Definition plus_one_ip (ip : Z) : Z :=
  wrap (Z.of_nat ip_bits) (integer_from_ip_generic ip + 1).
Definition minus_one_ip (ip : Z) : Z :=
  wrap (Z.of_nat ip_bits) (integer_from_ip_generic ip - 1).

Definition max_ip_value : Z := ip_max.

(** ** The serializer *)

Record Difference := MkDifference { d_index : nat; d_value : Z }.

Record VersionedIPSerializer := MkSerializer {
  prev_start : Z;
  prev_end : Z;
  block_count : nat;
  bit_queue : BitQueue.BitQueue
}.

Definition serializer_new (prev_start prev_end : Z) : VersionedIPSerializer :=
  MkSerializer prev_start prev_end 0 BitQueue.new.

Definition ips_into_differences (from to : Z) : list Difference :=
  omap (λ p, let '(i, (from_segment, to_segment)) := p in
             if to_segment =? from_segment then None
             else Some (MkDifference i to_segment))
       (imap pair (zip (segments from) (segments to))).

Fixpoint add_differences (q : BitQueue.BitQueue) (ds : list Difference)
    : run BitQueue.BitQueue :=
  match ds with
  | [] => Ret q
  | d :: ds' =>
      q ← BitQueue.add_bits q (Z.of_nat (d_index d)) index_bit_count;
      q ← BitQueue.add_bits q (d_value d) segment_bit_count;
      add_differences q ds'
  end.

(** The gap before [start] is filled by a recursive call, whose own start is
    the expected one; [fuel] counts the calls, and two are enough. *)
Fixpoint add_ip_generic (fuel : nat) (st : VersionedIPSerializer)
    (start_ end_ : Z) (country_index : nat) : run VersionedIPSerializer :=
  match fuel with
  | O => Panic
  | S fuel' =>
      let expected_start := plus_one_ip (prev_end st) in
      st ← (if negb (start_ =? expected_start)
            then add_ip_generic fuel' st expected_start (minus_one_ip start_) 0
            else Ret st);
      let differences := ips_into_differences (prev_start st) start_ in
      difference_count_minus_one ← usub (length differences) 1;
      q ← BitQueue.add_bits (bit_queue st) (Z.of_nat difference_count_minus_one)
            difference_count_bit_count;
      q ← add_differences q differences;
      q ← BitQueue.add_bits q (Z.of_nat country_index) 9;
      Ret (MkSerializer start_ end_ (block_count st + 1) q)
  end.

Definition add_ip (st : VersionedIPSerializer) (start_ end_ : Z) (country_index : nat)
    : run VersionedIPSerializer :=
  add_ip_generic 2 st start_ end_ country_index.

(** The part of [CountryBlockSerializer::finish] that closes one version. *)
Definition finish_ip (st : VersionedIPSerializer) : run VersionedIPSerializer :=
  if negb (prev_end st =? ip_max)
  then add_ip st (plus_one_ip (prev_end st)) ip_max 0
  else Ret st.

(** ** The deserializer *)

Record StreamRecord := MkRecord { r_start : Z; country_idx : nat }.

Record CountryBlockDeserializer := MkDeserializer {
  d_countries : Countries.Countries;
  prev_record : StreamRecord;
  d_bit_queue : BitQueue.BitQueue;
  empty : bool
}.

Definition read_difference_count (q : BitQueue.BitQueue)
    : run (BitQueue.BitQueue * option nat) :=
  '(q, r) ← BitQueue.take_bits q difference_count_bit_count;
  Ret (q, option_map (λ v, Z.to_nat (v + 1)) r).

(** [(0..difference_count).filter_map(..).collect()]: a failed read yields no
    element and the remaining iterations still run. *)
Fixpoint read_differences_generic (q : BitQueue.BitQueue) (difference_count : nat)
    : run (BitQueue.BitQueue * list Difference) :=
  match difference_count with
  | O => Ret (q, [])
  | S n =>
      '(q, d) ←
        ('(q, i) ← BitQueue.take_bits q index_bit_count;
         match i with
         | None => Ret (q, None)
         | Some i =>
             '(q, v) ← BitQueue.take_bits q segment_bit_count;
             Ret (q, option_map (MkDifference (Z.to_nat i)) v)
         end);
      '(q, ds) ← read_differences_generic q n;
      Ret (q, match d with Some d => d :: ds | None => ds end)
  end.

(** [segments[d.index] = SegmentNumRep::try_from(d.value).expect(..)] *)
Fixpoint apply_differences (s : list Z) (ds : list Difference) : run (list Z) :=
  match ds with
  | [] => Ret s
  | d :: ds' =>
      if (d_index d <? length s)%nat && (d_value d <? 2 ^ Z.of_nat segment_bit_count)
      then apply_differences (<[d_index d := d_value d]> s) ds'
      else Panic
  end.

Definition record_new (ds : list Difference) (s : list Z) (idx : nat) : run StreamRecord :=
  s ← apply_differences s ds; Ret (MkRecord (from_segments s) idx).

Definition get_record_generic (q : BitQueue.BitQueue) (prev_start : Z)
    : run (BitQueue.BitQueue * option StreamRecord) :=
  let s := segments prev_start in
  '(q, n) ← read_difference_count q;
  match n with
  | None => Ret (q, None)
  | Some difference_count =>
      '(q, differences) ← read_differences_generic q difference_count;
      if (length differences <? difference_count)%nat then Ret (q, None)
      else
        '(q, idx) ← BitQueue.take_bits q 9;
        match idx with
        | None => Ret (q, None)
        | Some idx => r ← record_new differences s (Z.to_nat idx); Ret (q, Some r)
        end
  end.

Definition next_generic (d : CountryBlockDeserializer)
    : run (CountryBlockDeserializer * option CountryBlock) :=
  if empty d then Ret (d, None)
  else
    '(q, next_record_opt) ← get_record_generic (d_bit_queue d) (r_start (prev_record d));
    c ← expect_ok (Countries.country_from_index (d_countries d) (country_idx (prev_record d)));
    match next_record_opt with
    | Some next_record =>
        Ret (MkDeserializer (d_countries d) next_record q (empty d),
             Some (MkBlock (range_from (r_start (prev_record d))
                                       (minus_one_ip (r_start next_record))) c))
    | None =>
        Ret (MkDeserializer (d_countries d) (prev_record d) q true,
             Some (MkBlock (range_from (r_start (prev_record d)) max_ip_value) c))
    end.

(** [new_generic]; [previous_start] is the last address but one. *)
Definition new_generic (country_data : list Z * nat) (previous_start : Z)
    (cs : Countries.Countries) : run CountryBlockDeserializer :=
  q ← bit_queue_from_country_data country_data;
  '(q, r) ← get_record_generic q previous_start;
  prev_record ← expect r;
  Ret (MkDeserializer cs prev_record q false).

Definition deserializer_new (country_data : list Z * nat) (cs : Countries.Countries)
    : run CountryBlockDeserializer :=
  new_generic country_data (ip_max - 1) cs.

(** [into_iter().collect_vec()]: call [next] until it answers [None].  The
    result is [None] only if [fuel] runs out. *)
Fixpoint collect_vec (fuel : nat) (d : CountryBlockDeserializer)
    : option (run (list CountryBlock)) :=
  match fuel with
  | O => None
  | S fuel' =>
      match next_generic d with
      | Panic => Some Panic
      | Ret (_, None) => Some (Ret [])
      | Ret (d', Some b) =>
          r ← collect_vec fuel' d'; Some (bs ← r; Ret (b :: bs))
      end
  end.

(** Every record has at least nine bits, so the number of stored bits bounds
    the number of records. *)
Definition collect_fuel (d : CountryBlockDeserializer) : nat :=
  match BitQueue.len (d_bit_queue d) with Ret n => n + 2 | Panic => 0 end.

End generic.

(** ** Both versions together *)

Record FinalBitQueue := MkFinal {
  f_bit_queue : BitQueue.BitQueue;
  f_block_count : nat
}.

Definition FinalBitQueue_default : FinalBitQueue := MkFinal BitQueue.new 0.

Record CountryBlockSerializer := MkBoth {
  ipv4 : VersionedIPSerializer;
  ipv6 : VersionedIPSerializer
}.

Definition CountryBlockSerializer_new : CountryBlockSerializer :=
  MkBoth (serializer_new (ip_max Ipv4 - 1) (ip_max Ipv4))
         (serializer_new (ip_max Ipv6 - 1) (ip_max Ipv6)).

Definition add (st : CountryBlockSerializer) (b : CountryBlock) : run CountryBlockSerializer :=
  match ip_range b with
  | V4 s e => v ← add_ip Ipv4 (ipv4 st) s e (Countries.index (country b)); Ret (MkBoth v (ipv6 st))
  | V6 s e => v ← add_ip Ipv6 (ipv6 st) s e (Countries.index (country b)); Ret (MkBoth (ipv4 st) v)
  end.

Fixpoint add_all (st : CountryBlockSerializer) (bs : list CountryBlock)
    : run CountryBlockSerializer :=
  match bs with
  | [] => Ret st
  | b :: bs' => st ← add st b; add_all st bs'
  end.

Definition finish (st : CountryBlockSerializer) : run (FinalBitQueue * FinalBitQueue) :=
  v4 ← finish_ip Ipv4 (ipv4 st);
  v6 ← finish_ip Ipv6 (ipv6 st);
  Ret (MkFinal (bit_queue v4) (block_count v4), MkFinal (bit_queue v6) (block_count v6)).

(** Drive one version: [add_ip] over [(start, end, country_index)] triples. *)
Fixpoint add_ips (T : IPType) (st : VersionedIPSerializer) (bs : list (Z * Z * nat))
    : run VersionedIPSerializer :=
  match bs with
  | [] => Ret st
  | (s, e, c) :: bs' => st ← add_ip T st s e c; add_ips T st bs'
  end.

Definition serialize (T : IPType) (bs : list (Z * Z * nat)) : run VersionedIPSerializer :=
  st ← add_ips T (serializer_new (ip_max T - 1) (ip_max T)) bs;
  finish_ip T st.

(** ** What the format stands for *)

(** Blocks of one version as [(start, end, country_index)], sorted and
    disjoint from [next] on, with country indexes that fit nine bits. *)
Fixpoint blocks_ok (T : IPType) (next : Z) (bs : list (Z * Z * nat)) : bool :=
  match bs with
  | [] => true
  | (s, e, c) :: bs' =>
      (next <=? s) && (s <=? e) && (e <=? ip_max T) && (c <? 512)%nat &&
      blocks_ok T (e + 1) bs'
  end.

Definition gap (next s : Z) : list (Z * Z * nat) :=
  if s =? next then [] else [(next, s - 1, 0%nat)].

(** The blocks with every gap, and the end of the address space, covered by a
    block of country 0. *)
Fixpoint fill (T : IPType) (next : Z) (bs : list (Z * Z * nat)) : list (Z * Z * nat) :=
  match bs with
  | [] => gap next (ip_max T + 1)
  | (s, e, c) :: bs' => gap next s ++ (s, e, c) :: fill T (e + 1) bs'
  end.

(** The block an entry denotes in a table of countries. *)
Definition decode_block (T : IPType) (cs : Countries.Countries) (t : Z * Z * nat)
    : option CountryBlock :=
  let '(s, e, c) := t in
  co ← Countries.countries cs !! c;
  Some (MkBlock (range_from s e) co).

(** ** A concrete run: the example of the format's documentation *)

Definition us_gb : list (Z * Z * nat) :=
  [(0x01020304, 0xFF020303, 237%nat); (0xFF020304, 0xFFFFFFFF, 235%nat)].

Example serialize_us_gb :
  (st ← serialize Ipv4 us_gb; n ← BitQueue.len (bit_queue st); Ret (block_count st, n))
    = Ret (3%nat, (51 + 51 + 21)%nat).
Proof. vm_compute. reflexivity. Qed.

(** ** What the generic code needs of an IP version *)

Class IPTypeOk (T : IPType) : Prop := {
  ok_segments : Z.of_nat segments_count = 2 ^ Z.of_nat index_bit_count;
  ok_counts : difference_count_bit_count = index_bit_count;
  ok_index_bits : (0 < index_bit_count ≤ 64)%nat;
  ok_segment_bits : (0 < segment_bit_count ≤ 64)%nat;
  ok_octets : (8 * octets_count T = ip_bits T)%nat
}.

Global Instance Ipv4_ok : IPTypeOk Ipv4.
Proof. by constructor; simpl; try lia. Qed.
Global Instance Ipv6_ok : IPTypeOk Ipv6.
Proof. by constructor; simpl; try lia. Qed.

Section facts.
Context (T : IPType) `{!IPTypeOk T}.

Definition in_range (ip : Z) : Prop := 0 ≤ ip ≤ ip_max T.

Lemma ip_bits_pos : (0 < ip_bits T)%nat.
Proof.
  pose proof ok_segments. pose proof (pow2_pos index_bit_count). pose proof ok_segment_bits.
  unfold ip_bits. nia.
Qed.

Lemma integer_from_ip_acc w n z acc :
  0 ≤ acc → (acc + 1) * 2 ^ Z.of_nat (8 * n) ≤ 2 ^ w →
  foldl (λ bit_data octet, Z.lor (wrap w (Z.shiftl bit_data 8)) octet) acc (be_digits 8 n z)
    = acc * 2 ^ Z.of_nat (8 * n) + z mod 2 ^ Z.of_nat (8 * n).
Proof.
  revert acc; induction n as [|n IH]; intros acc Hacc Hw.
  - change (be_digits 8 0 z) with (@nil Z). change (2 ^ Z.of_nat (8 * 0)) with 1.
    rewrite Z.mod_1_r. simpl. lia.
  - rewrite be_digits_S. cbn [foldl]. rewrite (split_mod 8 n z).
    set (o := _ mod 2 ^ Z.of_nat 8).
    assert (0 ≤ o < 2 ^ Z.of_nat 8) as Ho by apply Z.mod_pos_bound, pow2_pos.
    assert (2 ^ Z.of_nat (8 * S n) = 256 * 2 ^ Z.of_nat (8 * n)) as HS.
    { replace (8 * S n)%nat with (8 + 8 * n)%nat by lia. by rewrite pow2_add. }
    rewrite HS in *. pose proof (pow2_pos (8 * n)).
    rewrite (Z.shiftl_mul_pow2 acc 8), wrap_small by (lia || change (2 ^ 8) with 256; nia).
    change (acc * 2 ^ 8) with (acc * 2 ^ Z.of_nat 8).
    rewrite Z.lor_comm, (lor_mul_pow2 o acc 8) by done.
    change (2 ^ Z.of_nat 8) with 256 in *.
    rewrite IH by nia. ring.
Qed.

Lemma integer_from_ip_id ip : in_range ip → integer_from_ip_generic T ip = ip.
Proof.
  intros Hip. unfold in_range, ip_max in Hip. unfold integer_from_ip_generic, octets.
  rewrite integer_from_ip_acc, ok_octets, Z.mod_small by (rewrite ?ok_octets; lia). lia.
Qed.

Lemma plus_one_ip_lt ip : 0 ≤ ip < ip_max T → plus_one_ip T ip = ip + 1.
Proof.
  intros. unfold plus_one_ip. rewrite integer_from_ip_id by (unfold in_range; lia).
  apply wrap_small. unfold ip_max in *. lia.
Qed.

Lemma plus_one_ip_max : plus_one_ip T (ip_max T) = 0.
Proof.
  unfold plus_one_ip, wrap. pose proof (pow2_pos (ip_bits T)).
  rewrite integer_from_ip_id by (unfold in_range, ip_max; lia).
  unfold ip_max. rewrite Z.sub_add. apply Z.mod_same. lia.
Qed.

Lemma minus_one_ip_pos ip : 0 < ip ≤ ip_max T → minus_one_ip T ip = ip - 1.
Proof.
  intros. unfold minus_one_ip. rewrite integer_from_ip_id by (unfold in_range; lia).
  apply wrap_small. unfold ip_max in *. lia.
Qed.

Lemma from_segments_segments ip : in_range ip → from_segments T (segments T ip) = ip.
Proof.
  intros Hip. apply from_be_digits_be_digits. unfold in_range, ip_max in Hip.
  rewrite Nat.mul_comm. fold (ip_bits T). lia.
Qed.

(** *** Differences between two addresses *)

Fixpoint diffs (k : nat) (xs ys : list Z) : list Difference :=
  match xs, ys with
  | x :: xs', y :: ys' =>
      if y =? x then diffs (S k) xs' ys' else MkDifference k y :: diffs (S k) xs' ys'
  | _, _ => []
  end.

Lemma diffs_omap k xs ys :
  omap (λ p, let '(i, (x, y)) := p in
             if y =? x then None else Some (MkDifference i y))
       (imap (λ i, pair (k + i)%nat) (zip xs ys)) = diffs k xs ys.
Proof.
  revert k ys; induction xs as [|x xs IH]; intros k [|y ys]; try done.
  cbn [zip zip_with imap omap list_omap diffs]. rewrite Nat.add_0_r.
  rewrite (imap_ext _ (λ i, pair (S k + i)%nat)) by (intros; simpl; f_equal; lia).
  rewrite IH. by destruct (y =? x).
Qed.

Lemma ips_into_differences_diffs from to :
  ips_into_differences T from to = diffs 0 (segments T from) (segments T to).
Proof. exact (diffs_omap 0 _ _). Qed.

Lemma diffs_bounds b k xs ys :
  length xs = length ys → Forall (λ d, 0 ≤ d < b) ys →
  Forall (λ d, (d_index d < k + length xs)%nat ∧ 0 ≤ d_value d < b) (diffs k xs ys) ∧
  (length (diffs k xs ys) ≤ length xs)%nat.
Proof.
  revert k ys; induction xs as [|x xs IH]; intros k [|y ys] Hlen Hok; try done.
  apply Forall_cons in Hok as [Hy Hok]. simpl in *.
  destruct (IH (S k) ys) as [Hf Hl]; [lia|done|].
  destruct (y =? x); simpl; (split; [|lia]); [|constructor; [simpl; lia|]];
    eapply Forall_impl; try exact Hf; simpl; lia.
Qed.

Lemma diffs_nonempty k xs ys : length xs = length ys → xs ≠ ys → diffs k xs ys ≠ [].
Proof.
  revert k ys; induction xs as [|x xs IH]; intros k [|y ys] Hlen Hne; try done.
  simpl in *. destruct (Z.eqb_spec y x) as [->|]; [|done].
  apply IH; [lia|]. congruence.
Qed.

Lemma apply_diffs pre xs ys :
  length xs = length ys →
  Forall (λ d, 0 ≤ d < 2 ^ Z.of_nat segment_bit_count) ys →
  apply_differences T (pre ++ xs) (diffs (length pre) xs ys) = Ret (pre ++ ys).
Proof.
  revert pre ys; induction xs as [|x xs IH]; intros pre [|y ys] Hlen Hok; try done.
  apply Forall_cons in Hok as [Hy Hok]. simpl in Hlen |- *.
  specialize (IH (pre ++ [y]) ys ltac:(lia) Hok).
  rewrite length_app, Nat.add_comm, <- !app_assoc in IH. simpl in IH.
  destruct (Z.eqb_spec y x) as [->|]; [done|]. simpl.
  destruct (Nat.ltb_spec (length pre) (length (pre ++ x :: xs))) as [|Hl]; [|lens].
  destruct (Z.ltb_spec y (2 ^ Z.of_nat segment_bit_count)); [|lia]. simpl.
  rewrite insert_app_r_alt, Nat.sub_diag by lia. done.
Qed.

(** *** One record *)

Definition diff_bits (ds : list Difference) : list bool :=
  ds ≫= λ d, bits_of index_bit_count (Z.of_nat (d_index d)) ++
             bits_of segment_bit_count (d_value d).

Definition diff_ok (d : Difference) : Prop :=
  (Z.of_nat (d_index d) < 2 ^ Z.of_nat index_bit_count) ∧
  0 ≤ d_value d < 2 ^ Z.of_nat segment_bit_count.

Definition rec_bits (from to : Z) (idx : nat) : list bool :=
  bits_of difference_count_bit_count (Z.of_nat (length (ips_into_differences T from to) - 1)) ++
  diff_bits (ips_into_differences T from to) ++ bits_of 9 (Z.of_nat idx).

Lemma add_differences_spec ds q l :
  BitQueue.rep q l → Forall diff_ok ds →
  ∃ q', add_differences T q ds = Ret q' ∧ BitQueue.rep q' (l ++ diff_bits ds).
Proof.
  pose proof ok_index_bits as Hib. pose proof ok_segment_bits as Hsb.
  revert q l; induction ds as [|d ds IH]; intros q l Hrep Hok.
  { exists q. simpl. by rewrite app_nil_r. }
  apply Forall_cons in Hok as [[Hi Hv] Hok]. cbn [add_differences].
  destruct (BitQueue.add_bits_spec q l (Z.of_nat (d_index d)) index_bit_count)
    as (q1 & -> & Hr1); [done|lia|lia|]. cbn [mbind run_bind].
  destruct (BitQueue.add_bits_spec q1 _ (d_value d) segment_bit_count Hr1)
    as (q2 & -> & Hr2); [lia|lia|]. cbn [mbind run_bind].
  destruct (IH q2 _ Hr2 Hok) as (q3 & -> & Hr3). exists q3. split; [done|].
  unfold diff_bits in *. cbn [mbind list_bind]. by rewrite !app_assoc in *.
Qed.

Lemma read_differences_spec ds q l :
  BitQueue.rep q (diff_bits ds ++ l) → Forall diff_ok ds →
  ∃ q', read_differences_generic T q (length ds) = Ret (q', ds) ∧ BitQueue.rep q' l.
Proof.
  pose proof ok_index_bits as Hib. pose proof ok_segment_bits as Hsb.
  revert q; induction ds as [|d ds IH]; intros q Hrep Hok; [by exists q|].
  apply Forall_cons in Hok as [[Hi Hv] Hok]. cbn [read_differences_generic length].
  unfold diff_bits in Hrep. cbn [mbind list_bind] in Hrep. rewrite <- !app_assoc in Hrep.
  destruct (BitQueue.take_bits_field _ _ _ _ Hrep) as (q1 & -> & Hr1); [lia|lia|].
  cbn [mbind run_bind].
  destruct (BitQueue.take_bits_field _ _ _ _ Hr1) as (q2 & -> & Hr2); [lia|lia|].
  cbn [mbind run_bind option_map].
  destruct (IH q2 Hr2 Hok) as (q3 & -> & Hr3). cbn [mbind run_bind].
  exists q3. split; [|done]. rewrite Nat2Z.id. by destruct d.
Qed.

Lemma segments_length ip : length (segments T ip) = segments_count.
Proof. apply length_be_digits. Qed.

Lemma differences_ok from to :
  Forall diff_ok (ips_into_differences T from to) ∧
  (length (ips_into_differences T from to) ≤ segments_count)%nat.
Proof.
  rewrite ips_into_differences_diffs.
  destruct (diffs_bounds (2 ^ Z.of_nat segment_bit_count) 0 (segments T from) (segments T to))
    as [Hf Hl]; [by rewrite !segments_length|apply be_digits_range|].
  rewrite segments_length in *. split; [|done].
  eapply Forall_impl; [exact Hf|]. simpl. intros d [Hi Hv]. split; [|done].
  rewrite <- ok_segments. lia.
Qed.

Lemma differences_nonempty from to :
  in_range from → in_range to → from ≠ to → (0 < length (ips_into_differences T from to))%nat.
Proof.
  intros Hf Ht Hne. rewrite ips_into_differences_diffs.
  destruct (diffs 0 (segments T from) (segments T to)) eqn:E; [|simpl; lia]. exfalso.
  apply (diffs_nonempty 0) in E; [done|by rewrite !segments_length|].
  intros Heq. apply Hne. rewrite <- (from_segments_segments from Hf), Heq.
  by apply from_segments_segments.
Qed.

Lemma difference_count_range from to :
  0 ≤ Z.of_nat (length (ips_into_differences T from to) - 1)
    < 2 ^ Z.of_nat difference_count_bit_count.
Proof.
  destruct (differences_ok from to) as [_ Hl]. rewrite ok_counts, <- ok_segments.
  pose proof ok_segments. pose proof (pow2_pos index_bit_count). lia.
Qed.

Lemma get_record_spec q from to idx l :
  BitQueue.rep q (rec_bits from to idx ++ l) →
  in_range from → in_range to → from ≠ to → (idx < 512)%nat →
  ∃ q', get_record_generic T q from = Ret (q', Some (MkRecord to idx)) ∧ BitQueue.rep q' l.
Proof.
  intros Hrep Hf Ht Hne Hidx. unfold get_record_generic, read_difference_count.
  unfold rec_bits in Hrep. rewrite <- !app_assoc in Hrep.
  pose proof ok_index_bits. pose proof ok_counts.
  destruct (BitQueue.take_bits_field _ _ _ _ Hrep) as (q1 & -> & Hr1);
    [lia|apply difference_count_range|]. cbn [mbind run_bind option_map].
  pose proof (differences_nonempty from to Hf Ht Hne).
  set (ds := ips_into_differences T from to) in *.
  replace (Z.to_nat (Z.of_nat (length ds - 1) + 1)) with (length ds) by lia.
  destruct (read_differences_spec ds q1 _ Hr1) as (q2 & -> & Hr2); [apply differences_ok|].
  cbn [mbind run_bind]. rewrite Nat.ltb_irrefl.
  destruct (BitQueue.take_bits_field _ _ _ _ Hr2) as (q3 & -> & Hr3);
    [lia|change (2 ^ Z.of_nat 9) with 512; lia|].
  cbn [mbind run_bind]. unfold record_new.
  pose proof (apply_diffs [] (segments T from) (segments T to)) as Happ.
  simpl in Happ. unfold ds. rewrite ips_into_differences_diffs, Happ; cycle 1.
  { by rewrite !segments_length. } { apply be_digits_range. }
  cbn [mbind run_bind]. rewrite from_segments_segments, Nat2Z.id by done. by exists q3.
Qed.

Lemma get_record_empty q from :
  BitQueue.rep q [] → get_record_generic T q from = Ret (q, None).
Proof.
  intros Hrep. unfold get_record_generic, read_difference_count.
  pose proof ok_index_bits. pose proof ok_counts.
  by rewrite (BitQueue.take_bits_short q []) by (done || simpl; lia).
Qed.

(** *** The serializer *)

Fixpoint enc (from : Z) (ts : list (Z * Z * nat)) : list bool :=
  match ts with
  | [] => []
  | (s, _, c) :: ts' => rec_bits from s c ++ enc s ts'
  end.

Lemma ip_max_ge_3 : 3 ≤ ip_max T.
Proof.
  pose proof ok_segments as Hs. pose proof ok_index_bits. pose proof ok_segment_bits.
  assert (2 ^ 1 ≤ 2 ^ Z.of_nat index_bit_count) by (apply Z.pow_le_mono_r; lia).
  assert (2 ^ 2 ≤ 2 ^ Z.of_nat (ip_bits T)).
  { apply Z.pow_le_mono_r; [lia|]. unfold ip_bits. nia. }
  unfold ip_max. lia.
Qed.

(** The state before a block whose start is at least [next]. *)
Definition ready (st : VersionedIPSerializer) (next : Z) : Prop :=
  in_range (prev_start st) ∧ prev_start st ≠ next ∧ 0 ≤ next ≤ ip_max T + 1 ∧
  (next ≤ ip_max T → plus_one_ip T (prev_end st) = next).

Lemma ready_after s e n q : 0 ≤ s ≤ e → e ≤ ip_max T → ready (MkSerializer s e n q) (e + 1).
Proof.
  intros. unfold ready, in_range. simpl. repeat split; try lia.
  intros. apply plus_one_ip_lt; lia.
Qed.

Lemma ready_new : ready (serializer_new (ip_max T - 1) (ip_max T)) 0.
Proof.
  pose proof ip_max_ge_3. unfold ready, in_range, serializer_new. simpl.
  repeat split; try lia. intros. by apply plus_one_ip_max.
Qed.

Lemma add_ip_expected fuel st s e c l :
  BitQueue.rep (bit_queue st) l → ready st s → s ≤ ip_max T → (c < 512)%nat →
  ∃ q, add_ip_generic T (S fuel) st s e c = Ret (MkSerializer s e (block_count st + 1) q) ∧
    BitQueue.rep q (l ++ rec_bits (prev_start st) s c).
Proof.
  intros Hrep (Hps & Hne & Hs & Hplus) Hmax Hc. cbn [add_ip_generic].
  rewrite Hplus, Z.eqb_refl by done. cbn [negb mbind run_bind].
  pose proof (differences_nonempty (prev_start st) s) as Hlen.
  pose proof ok_index_bits. pose proof ok_counts.
  rewrite usub_ok by (apply Hlen; unfold in_range; (done || lia)). cbn [mbind run_bind].
  destruct (BitQueue.add_bits_spec (bit_queue st) l
    (Z.of_nat (length (ips_into_differences T (prev_start st) s) - 1)) difference_count_bit_count)
    as (q1 & -> & Hr1); [done|lia|apply difference_count_range|]. cbn [mbind run_bind].
  destruct (add_differences_spec (ips_into_differences T (prev_start st) s) q1 _ Hr1)
    as (q2 & -> & Hr2); [apply differences_ok|]. cbn [mbind run_bind].
  destruct (BitQueue.add_bits_spec q2 _ (Z.of_nat c) 9 Hr2) as (q3 & -> & Hr3);
    [lia|change (2 ^ Z.of_nat 9) with 512; lia|]. cbn [mbind run_bind].
  exists q3. split; [done|]. unfold rec_bits. by rewrite !app_assoc in *.
Qed.

Lemma add_ip_spec st next s e c l :
  BitQueue.rep (bit_queue st) l → ready st next →
  next ≤ s → s ≤ e → e ≤ ip_max T → (c < 512)%nat →
  ∃ q, add_ip T st s e c =
         Ret (MkSerializer s e (block_count st + length (gap next s ++ [(s, e, c)])) q) ∧
    BitQueue.rep q (l ++ enc (prev_start st) (gap next s ++ [(s, e, c)])) .
Proof.
  intros Hrep Hready Hs He Hmax Hc. unfold add_ip, gap.
  destruct (Z.eqb_spec s next) as [->|Hne].
  - destruct (add_ip_expected 1 st next e c l) as (q & -> & Hr); [done|done|lia|done|].
    exists q. split; [done|]. cbn [enc app]. by rewrite app_nil_r.
  - destruct Hready as (Hps & Hpn & Hn & Hplus).
    destruct (add_ip_expected 0 st next (s - 1) 0 l) as (q1 & Hadd & Hr1);
      [done|done|lia|lia|].
    cbn [add_ip_generic] in Hadd |- *. rewrite Hplus in * by lia.
    destruct (Z.eqb_spec s next); [done|]. cbn [negb].
    rewrite minus_one_ip_pos by (done || lia). rewrite Hadd. cbn [mbind run_bind].
    destruct (add_ip_expected 0 (MkSerializer next (s - 1) (block_count st + 1) q1) s e c
      (l ++ rec_bits (prev_start st) next 0)) as (q2 & Hadd2 & Hr2); [done| |lia|done|].
    { replace s with (s - 1 + 1) at 2 by lia. apply ready_after; lia. }
    cbn [add_ip_generic prev_end] in Hadd2. rewrite plus_one_ip_lt in Hadd2 by (done || lia).
    replace (s - 1 + 1) with s in Hadd2 by lia. rewrite Z.eqb_refl in Hadd2.
    cbn [negb mbind run_bind] in Hadd2. rewrite Hadd2.
    exists q2. split; [do 2 f_equal; simpl; lia|].
    cbn [enc app prev_start] in *. by rewrite app_nil_r, app_assoc.
Qed.

Lemma serialize_spec_aux bs st next l :
  BitQueue.rep (bit_queue st) l → ready st next → blocks_ok T next bs = true →
  (bs = [] → prev_end st = next - 1) →
  ∃ st', (st1 ← add_ips T st bs; finish_ip T st1) = Ret st' ∧
    BitQueue.rep (bit_queue st') (l ++ enc (prev_start st) (fill T next bs)) ∧
    block_count st' = (block_count st + length (fill T next bs))%nat.
Proof.
  revert st next l; induction bs as [|[[s e] c] bs IH]; intros st next l Hrep Hready Hok Hend.
  - cbn [add_ips mbind run_bind fill]. unfold finish_ip, gap. specialize (Hend eq_refl).
    destruct Hready as (Hps & Hpn & Hn & Hplus).
    destruct (Z.eqb_spec (prev_end st) (ip_max T)) as [Hm|Hm]; cbn [negb].
    + destruct (Z.eqb_spec (ip_max T + 1) next); [|lia].
      exists st. cbn [enc length]. rewrite app_nil_r. repeat split; try done; lia.
    + destruct (Z.eqb_spec (ip_max T + 1) next); [lia|]. rewrite Hplus by lia.
      destruct (add_ip_expected 1 st next (ip_max T) 0 l) as (q & Hadd & Hr);
        [done|done|lia|lia|].
      unfold add_ip. rewrite Hadd. eexists. split; [done|]. split; [|done].
      cbn [enc]. by rewrite app_nil_r.
  - cbn [blocks_ok] in Hok. b2p. cbn [add_ips fill].
    destruct (add_ip_spec st next s e c l) as (q & -> & Hr); [done..|]. cbn [mbind run_bind].
    assert (0 ≤ next) by (destruct Hready as (_ & _ & ? & _); lia).
    destruct (IH (MkSerializer s e (block_count st + length (gap next s ++ [(s, e, c)])) q)
                 (e + 1) _ Hr) as (st' & Hst & Hrep' & Hcount);
      [apply ready_after; lia|done|simpl; lia|].
    exists st'. split; [exact Hst|]. simpl in Hrep', Hcount. split.
    + unfold gap in *. destruct (s =? next); cbn [app enc] in *; rewrite ?app_nil_r in Hrep';
        by rewrite <- !app_assoc in Hrep'.
    + rewrite Hcount. lens.
Qed.

Lemma serialize_spec bs :
  bs ≠ [] → blocks_ok T 0 bs = true →
  ∃ st, serialize T bs = Ret st ∧
    BitQueue.rep (bit_queue st) (enc (ip_max T - 1) (fill T 0 bs)) ∧
    block_count st = length (fill T 0 bs).
Proof.
  intros Hne Hok. apply (serialize_spec_aux bs (serializer_new (ip_max T - 1) (ip_max T)) 0 []);
    [apply BitQueue.rep_new|apply ready_new|done|done].
Qed.

(** *** The deserializer *)

(** Entries that cover the addresses from [next] to the last one. *)
Fixpoint contiguous (next : Z) (ts : list (Z * Z * nat)) : Prop :=
  match ts with
  | [] => next = ip_max T + 1
  | (s, e, c) :: ts' =>
      s = next ∧ s ≤ e ∧ e ≤ ip_max T ∧ (c < 512)%nat ∧ contiguous (e + 1) ts'
  end.

Lemma fill_contiguous bs next :
  0 ≤ next ≤ ip_max T + 1 → blocks_ok T next bs = true → contiguous next (fill T next bs).
Proof.
  revert next; induction bs as [|[[s e] c] bs IH]; intros next Hn Hok; cbn [fill].
  - unfold gap. destruct (Z.eqb_spec (ip_max T + 1) next); [done|].
    simpl. repeat split; lia.
  - cbn [blocks_ok] in Hok. b2p. unfold gap. destruct (Z.eqb_spec s next) as [->|];
      simpl; repeat split; try lia; apply IH; (done || lia).
Qed.

Lemma fill_nonempty bs next : next ≤ ip_max T → fill T next bs ≠ [].
Proof.
  intros. destruct bs as [|[[s e] c] bs]; cbn [fill]; unfold gap.
  - destruct (Z.eqb_spec (ip_max T + 1) next); [lia|done].
  - by destruct (s =? next).
Qed.

Lemma collect_vec_spec ts s e c q cs blocks fuel :
  contiguous s ((s, e, c) :: ts) → 0 ≤ s →
  BitQueue.rep q (enc s ts) →
  mapM (decode_block T cs) ((s, e, c) :: ts) = Some blocks →
  (length ts + 2 ≤ fuel)%nat →
  collect_vec T fuel (MkDeserializer cs (MkRecord s c) q false) = Some (Ret blocks).
Proof.
  revert s e c q blocks fuel; induction ts as [|[[s' e'] c'] ts IH];
    intros s e c q blocks fuel Hcont Hs Hrep Hblocks Hfuel;
    (destruct fuel as [|fuel]; [simpl in Hfuel; lia|]);
    destruct Hcont as (_ & Hse & Hem & Hc & Hcont).
  - destruct fuel as [|fuel]; [simpl in Hfuel; lia|].
    simpl in Hcont, Hrep. cbn [collect_vec]. unfold next_generic.
    cbn [empty d_bit_queue prev_record r_start country_idx d_countries].
    rewrite get_record_empty by done. cbn [mbind run_bind].
    apply mapM_Some, Forall2_cons_inv_l in Hblocks as (b & bs & Hb & ->%Forall2_nil_inv_l & ->).
    unfold Countries.country_from_index, decode_block in *.
    destruct (Countries.countries cs !! c) as [co|]; [|done]. injection Hb as <-.
    simpl. unfold max_ip_value. by replace e with (ip_max T) by lia.
  - destruct Hcont as (Hs' & Hse' & Hem' & Hc' & Hcont). subst s'.
    cbn [collect_vec]. unfold next_generic at 1.
    cbn [empty d_bit_queue prev_record r_start country_idx d_countries].
    cbn [enc] in Hrep.
    destruct (get_record_spec q s (e + 1) c' (enc (e + 1) ts) Hrep)
      as (q' & -> & Hrep'); [unfold in_range; lia..|done|]. cbn [mbind run_bind].
    apply mapM_Some, Forall2_cons_inv_l in Hblocks as (b & blocks' & Hb & Hbs & ->).
    apply mapM_Some in Hbs. unfold decode_block in Hb. unfold Countries.country_from_index.
    destruct (Countries.countries cs !! c) as [co|]; [|done]. injection Hb as <-.
    cbn [expect_ok mbind run_bind option_bind r_start].
    rewrite (IH (e + 1) e' c' q' blocks' fuel); try done; [|lia|simpl in *; lia].
    cbn [mbind option_bind run_bind]. rewrite minus_one_ip_pos by lia.
    by replace (e + 1 - 1) with e by lia.
Qed.

(** *** Words *)

Inductive words_rep : list Z → list bool → Prop :=
| words_nil : words_rep [] []
| words_last w n : (0 < n < 64)%nat → 0 ≤ w < 2 ^ Z.of_nat n → words_rep [w] (bits_of n w)
| words_cons w ws l :
    0 ≤ w < 2 ^ 64 → words_rep ws l → words_rep (w :: ws) (bits_of 64 w ++ l).

Lemma load_words_spec ws l q l0 :
  words_rep ws l → BitQueue.rep q l0 →
  ∃ q', load_words q ws (length l) = Ret q' ∧ BitQueue.rep q' (l0 ++ l).
Proof.
  intros Hw. revert q l0; induction Hw as [|w n Hn Hw|w ws l Hw Hws IH]; intros q l0 Hrep.
  - exists q. by rewrite app_nil_r.
  - rewrite length_bits_of. cbn [load_words].
    destruct (Nat.leb_spec 64 n); [lia|]. destruct (Nat.ltb_spec 0 n); [|lia].
    apply BitQueue.add_bits_spec; [done|lia|done].
  - rewrite length_app, length_bits_of. cbn [load_words].
    destruct (Nat.leb_spec 64 (64 + length l)); [|lia].
    destruct (BitQueue.add_bits_spec q l0 w 64) as (q1 & -> & Hr1); [done|lia|done|].
    cbn [mbind run_bind]. replace (64 + length l - 64)%nat with (length l) by lia.
    destruct (IH q1 _ Hr1) as (q2 & ? & Hr2). exists q2. split; [done|].
    by rewrite <- app_assoc in Hr2.
Qed.

Lemma deserialize_spec bs ws cs blocks :
  bs ≠ [] → blocks_ok T 0 bs = true →
  words_rep ws (enc (ip_max T - 1) (fill T 0 bs)) →
  mapM (decode_block T cs) (fill T 0 bs) = Some blocks →
  ∃ d, deserializer_new T (ws, length (enc (ip_max T - 1) (fill T 0 bs))) cs = Ret d ∧
    ∀ fuel, (length (fill T 0 bs) < fuel)%nat → collect_vec T fuel d = Some (Ret blocks).
Proof.
  intros Hne Hok Hws Hblocks. unfold deserializer_new, new_generic, bit_queue_from_country_data.
  destruct (load_words_spec ws _ BitQueue.new [] Hws) as (q & -> & Hrep); [apply BitQueue.rep_new|].
  pose proof ip_max_ge_3. cbn [mbind run_bind].
  pose proof (fill_contiguous bs 0 ltac:(lia) Hok) as Hcont.
  destruct (fill T 0 bs) as [|[[s e] c] ts] eqn:E.
  { by apply fill_nonempty in E; [|lia]. }
  pose proof Hcont as (-> & ? & ? & ? & _). cbn [enc app] in Hrep.
  destruct (get_record_spec q (ip_max T - 1) 0 c _ Hrep) as (q' & -> & Hrep');
    [unfold in_range; lia..|done|].
  cbn [mbind run_bind expect]. eexists. split; [done|].
  intros fuel Hfuel. apply (collect_vec_spec ts 0 e); try done. simpl in Hfuel. lia.
Qed.

(** *** Arbitrary data *)

Lemma read_differences_any n q l :
  BitQueue.rep q l →
  ∃ q' ds l', read_differences_generic T q n = Ret (q', ds) ∧ BitQueue.rep q' l' ∧
    (length l' ≤ length l)%nat ∧ Forall diff_ok ds.
Proof.
  pose proof ok_index_bits as Hib. pose proof ok_segment_bits as Hsb.
  revert q l; induction n as [|n IH]; intros q l Hrep; [by exists q, [], l|].
  cbn [read_differences_generic].
  destruct (BitQueue.take_bits_any q l index_bit_count Hrep)
    as (q1 & r1 & l1 & -> & Hr1 & [[-> ->]|(i & -> & Hi & Hl1)]); [lia| |]; cbn [mbind run_bind].
  { destruct (IH q1 l Hr1) as (q2 & ds & l2 & -> & ? & ? & ?). by exists q2, ds, l2. }
  destruct (BitQueue.take_bits_any q1 l1 segment_bit_count Hr1)
    as (q2 & r2 & l2 & -> & Hr2 & [[-> ->]|(v & -> & Hv & Hl2)]); [lia| |];
    cbn [mbind run_bind option_map].
  { destruct (IH q2 l1 Hr2) as (q3 & ds & l3 & -> & ? & ? & ?).
    exists q3, ds, l3. repeat split; try done. lia. }
  destruct (IH q2 l2 Hr2) as (q3 & ds & l3 & -> & ? & ? & ?).
  eexists q3, _, l3. repeat split; try done; [lia|]. constructor; [|done].
  split; simpl; lia.
Qed.

Lemma apply_differences_total ds s :
  Forall diff_ok ds → length s = segments_count →
  ∃ s', apply_differences T s ds = Ret s'.
Proof.
  intros Hok. revert s; induction Hok as [|d ds [Hi Hv] Hok IH]; intros s Hs; [by exists s|].
  cbn [apply_differences]. rewrite <- ok_segments in Hi.
  destruct (Nat.ltb_spec (d_index d) (length s)); [|lia].
  destruct (Z.ltb_spec (d_value d) (2 ^ Z.of_nat segment_bit_count)); [|lia].
  apply IH. by rewrite length_insert.
Qed.

Lemma get_record_any q l from :
  BitQueue.rep q l →
  ∃ q' r l', get_record_generic T q from = Ret (q', r) ∧ BitQueue.rep q' l' ∧
    (is_Some r → (length l' < length l)%nat).
Proof.
  intros Hrep. unfold get_record_generic, read_difference_count.
  pose proof ok_index_bits. pose proof ok_counts.
  destruct (BitQueue.take_bits_any q l difference_count_bit_count Hrep)
    as (q1 & r1 & l1 & -> & Hr1 & [[-> ->]|(n & -> & Hn & Hl1)]); [lia| |];
    cbn [mbind run_bind option_map].
  { exists q1, None, l. by repeat split. }
  destruct (read_differences_any (Z.to_nat (n + 1)) q1 l1 Hr1)
    as (q2 & ds & l2 & -> & Hr2 & Hl2 & Hok). cbn [mbind run_bind].
  destruct (_ <? _)%nat.
  { exists q2, None, l2. by repeat split. }
  destruct (BitQueue.take_bits_any q2 l2 9 Hr2)
    as (q3 & r3 & l3 & -> & Hr3 & [[-> ->]|(i & -> & Hi & Hl3)]); [lia| |]; cbn [mbind run_bind].
  { exists q3, None, l2. by repeat split. }
  unfold record_new. destruct (apply_differences_total ds (segments T from) Hok) as [s' ->];
    [apply segments_length|].
  cbn [mbind run_bind]. eexists q3, _, l3. repeat split; try done. lia.
Qed.

Lemma collect_vec_terminates d l fuel :
  BitQueue.rep (d_bit_queue d) l → (length l + 2 ≤ fuel)%nat → is_Some (collect_vec T fuel d).
Proof.
  revert d l; induction fuel as [|fuel IH]; intros d l Hrep Hfuel; [lia|].
  cbn [collect_vec]. unfold next_generic. destruct (empty d); [done|].
  destruct (get_record_any _ l (r_start (prev_record d)) Hrep)
    as (q & r & l' & -> & Hr & Hlen). cbn [mbind run_bind].
  destruct (Countries.country_from_index (d_countries d) (country_idx (prev_record d)));
    [|done]. cbn [expect_ok mbind run_bind]. destruct r as [r|].
  - destruct (IH (MkDeserializer (d_countries d) r q false) l' Hr) as [x ->]; [|done].
    specialize (Hlen ltac:(done)). lia.
  - destruct fuel as [|fuel]; [lia|]. done.
Qed.

Lemma collect_fuel_enough d l :
  BitQueue.rep (d_bit_queue d) l → is_Some (collect_vec T (collect_fuel d) d).
Proof.
  intros Hrep. apply (collect_vec_terminates d l); [done|].
  unfold collect_fuel. rewrite (BitQueue.rep_len _ _ Hrep). lia.
Qed.

(** Enough fuel is enough: the outcome does not depend on it. *)
Lemma collect_vec_mono fuel fuel' d r :
  collect_vec T fuel d = Some r → (fuel ≤ fuel')%nat → collect_vec T fuel' d = Some r.
Proof.
  revert fuel' d r; induction fuel as [|fuel IH]; intros [|fuel'] d r; try done; try lia.
  cbn [collect_vec]. destruct (next_generic T d) as [[d' [b|]]|]; [|done..].
  intros (x & Hx & Hr)%bind_Some Hle. rewrite (IH fuel' d' x Hx ltac:(lia)). done.
Qed.

End facts.

(** ** Properties *)

(** The iterator over compressed data always ends.  For any bit string
    stored in words, loading returns, reading the first record returns, the
    constructor panics exactly when there is no complete first record, and
    otherwise collecting the blocks reaches the end of the iteration within
    the number of stored bits. *)
Lemma deserializer_terminates (T : IPType) (Hok : IPTypeOk T) (ws : list Z) (l : list bool)
    (cs : Countries.Countries) :
  words_rep ws l →
  ∃ q, bit_queue_from_country_data (ws, length l) = Ret q ∧
  ∃ q' r, get_record_generic T q (ip_max T - 1) = Ret (q', r) ∧
    match r with
    | None => deserializer_new T (ws, length l) cs = Panic
    | Some r =>
        deserializer_new T (ws, length l) cs = Ret (MkDeserializer cs r q' false) ∧
        is_Some (collect_vec T (collect_fuel (MkDeserializer cs r q' false))
                               (MkDeserializer cs r q' false))
    end.
Proof.
  intros Hws. unfold deserializer_new, new_generic, bit_queue_from_country_data.
  destruct (load_words_spec ws l BitQueue.new [] Hws) as (q & -> & Hrep); [apply BitQueue.rep_new|].
  exists q. split; [done|]. cbn [mbind run_bind].
  destruct (get_record_any T q l (ip_max T - 1) Hrep) as (q' & r & l' & -> & Hr & _).
  exists q', r. split; [done|]. destruct r as [r|]; [|done]. split; [done|].
  by apply (collect_fuel_enough T _ l').
Qed.

(** A version without any block is serialized to nothing, and nothing
    cannot be read back.  [finish] adds no sentinel block when no block was
    added, so the queue and the block count stay empty, and building a
    deserializer on empty data panics. *)
Lemma no_blocks_no_deserializer (T : IPType) (Hok : IPTypeOk T) (cs : Countries.Countries) :
  serialize T [] = Ret (serializer_new (ip_max T - 1) (ip_max T)) ∧
  BitQueue.len (bit_queue (serializer_new (ip_max T - 1) (ip_max T))) = Ret 0%nat ∧
  deserializer_new T ([], 0%nat) cs = Panic.
Proof.
  split; [|split; [done|]].
  - unfold serialize. cbn [add_ips mbind run_bind]. unfold finish_ip, serializer_new. simpl.
    by rewrite Z.eqb_refl.
  - unfold deserializer_new, new_generic. cbn [bit_queue_from_country_data load_words].
    change (0 <? 0)%nat with false. cbn [mbind run_bind].
    by rewrite (get_record_empty T) by apply BitQueue.rep_new.
Qed.

Lemma no_blocks_no_deserializer_witness :
  serialize Ipv6 [] = Ret (serializer_new (ip_max Ipv6 - 1) (ip_max Ipv6)) ∧
  BitQueue.len (bit_queue (serializer_new (ip_max Ipv6 - 1) (ip_max Ipv6))) = Ret 0%nat ∧
  deserializer_new Ipv6 ([], 0%nat) (Countries.new []) = Panic.
Proof. apply (no_blocks_no_deserializer Ipv6 Ipv6_ok). Defined.

End Serde.
