(* ===== verification/CountryFinder.v ===== *)
(** * Finding the country of an address

    Models [ip_country/src/country_finder.rs]: the finder deserializes both
    data sets into sorted vectors of blocks and answers queries by binary
    search.  [slice::binary_search_by] is the standard library's loop over
    [left] and [right]; at most one block contains an address, so which of
    several matches it would report does not matter. *)
From S2P Require Import Prelude.
From S2P Require Import BitQueue.
From S2P Require Import Countries.
From S2P Require Import CountryBlockStream.
From S2P Require Import CountryBlockSerde.

Module Finder.
Import Stream Serde.
Local Open Scope Z_scope.

(** ** [slice::binary_search_by] *)
Section binary_search.
Context {A : Type} (f : A → run comparison) (l : list A).

(** [size] is [right - left]; the loop ends because it shrinks. *)
Fixpoint search_loop (fuel left right : nat) : run (result nat nat) :=
  match fuel with
  | O => Panic
  | S fuel' =>
      if (left <? right)%nat then
        let size := (right - left)%nat in
        let mid := (left + size / 2)%nat in
        x ← expect (l !! mid);
        cmp ← f x;
        match cmp with
        | Lt => search_loop fuel' (mid + 1) right
        | Gt => search_loop fuel' left mid
        | Eq => Ret (Ok mid)
        end
      else Ret (Err left)
  end.

Definition binary_search_by : run (result nat nat) :=
  search_loop (S (length l)) 0 (length l).

End binary_search.

(** ** The finder *)

Record CountryCodeFinder := MkFinder {
  f_countries : Countries.Countries;
  f_ipv4 : list CountryBlock;
  f_ipv6 : list CountryBlock
}.

(** [CountryBlockDeserializer::new(data, countries).into_iter().collect_vec()] *)
Definition collect_blocks (T : IPType) (data : list Z * nat) (cs : Countries.Countries)
    : run (list CountryBlock) :=
  d ← deserializer_new T data cs;
  match collect_vec T (collect_fuel d) d with
  | Some r => r
  | None => Panic
  end.

Definition finder_new (cs : Countries.Countries) (ipv4_data ipv6_data : list Z * nat)
    : run CountryCodeFinder :=
  v4 ← collect_blocks Ipv4 ipv4_data cs;
  v6 ← collect_blocks Ipv6 ipv6_data cs;
  Ret (MkFinder cs v4 v6).

Definition find_country (fd : CountryCodeFinder) (ip_addr : IpAddr)
    : run (option Countries.Country) :=
  let country_blocks :=
    match ip_addr with
    | IpV4 _ => f_ipv4 fd
    | IpV6 _ => f_ipv6 fd
    end in
  block_index ← binary_search_by (λ b, ordering_by_range (ip_range b) ip_addr) country_blocks;
  co ← match block_index with
       | Ok i => b ← expect (country_blocks !! i); Ret (country b)
       | Err _ =>
           r ← Countries.country_from_code (f_countries fd) "ZZ";
           expect_ok r
       end;
  Ret (if String.eqb (Countries.iso3166 co) "ZZ" then None else Some co).

(** ** What a query means *)

(** The country index of the first block that contains the address. *)
Fixpoint block_lookup (bs : list (Z * Z * nat)) (a : Z) : option nat :=
  match bs with
  | [] => None
  | (s, e, c) :: bs' => if contains_inner s e a then Some c else block_lookup bs' a
  end.

Definition country_lookup (cs : Countries.Countries) (bs : list (Z * Z * nat)) (a : Z)
    : option Countries.Country :=
  c ← block_lookup bs a;
  co ← Countries.countries cs !! c;
  if String.eqb (Countries.iso3166 co) "ZZ" then None else Some co.

(** ** Binary search is correct *)
Section search_facts.
Context {A : Type} (f : A → run comparison) (g : A → comparison) (l : list A).
Hypothesis f_total : ∀ x, x ∈ l → f x = Ret (g x).
Hypothesis g_lt : ∀ i j x y, l !! i = Some x → l !! j = Some y → (i ≤ j)%nat → g y = Lt → g x = Lt.
Hypothesis g_gt : ∀ i j x y, l !! i = Some x → l !! j = Some y → (i ≤ j)%nat → g x = Gt → g y = Gt.

Definition search_result (r : result nat nat) : Prop :=
  match r with
  | Ok i => ∃ x, l !! i = Some x ∧ g x = Eq
  | Err _ => ∀ x, x ∈ l → g x ≠ Eq
  end.

Lemma search_loop_spec fuel left right :
  (right - left < fuel)%nat → (right ≤ length l)%nat →
  (∀ i x, l !! i = Some x → (i < left)%nat → g x = Lt) →
  (∀ i x, l !! i = Some x → (right ≤ i)%nat → g x = Gt) →
  ∃ r, search_loop f l fuel left right = Ret r ∧ search_result r.
Proof.
  revert left right; induction fuel as [|fuel IH]; intros left right Hfuel Hr Hlo Hhi; [lia|].
  cbn [search_loop]. destruct (Nat.ltb_spec left right) as [Hlt|Hge].
  2: { exists (Err left). split; [done|]. intros x [i Hi]%list_elem_of_lookup.
       destruct (le_lt_dec right i); [rewrite (Hhi i x); done|rewrite (Hlo i x); [done|done|lia]]. }
  set (mid := (left + (right - left) / 2)%nat).
  assert ((right - left) / 2 < right - left)%nat by (apply Nat.div_lt; lia).
  destruct (lookup_lt_is_Some_2 l mid) as [x Hx]; [lia|].
  rewrite Hx. cbn [expect mbind run_bind]. rewrite f_total by (by eapply list_elem_of_lookup_2).
  cbn [mbind run_bind]. destruct (g x) eqn:Eg.
  - exists (Ok mid). split; [done|]. by exists x.
  - apply IH; [lia|done| |done]. intros i y Hy Hi. apply (g_lt i mid y x); try done; lia.
  - apply IH; [lia|lia|done|]. intros i y Hy Hi. by apply (g_gt mid i x y).
Qed.

Lemma binary_search_spec : ∃ r, binary_search_by f l = Ret r ∧ search_result r.
Proof.
  apply search_loop_spec; [lia|lia|intros; lia|].
  intros i x Hi Hle. apply lookup_lt_Some in Hi. lia.
Qed.
End search_facts.

(** ** Blocks that cover the address space *)
Section cover.
Context (T : IPType).

Lemma contiguous_bounds ts next i s e c :
  contiguous T next ts → ts !! i = Some (s, e, c) → next ≤ s ≤ e ∧ e ≤ ip_max T.
Proof.
  revert next i; induction ts as [|[[s' e'] c'] ts IH]; intros next [|i]; try done; simpl;
    intros (-> & ? & ? & _ & Hc); [intros; by simplify_eq|].
  intros Hi. destruct (IH _ _ Hc Hi). lia.
Qed.

Lemma contiguous_ordered ts next i j s e c s' e' c' :
  contiguous T next ts → ts !! i = Some (s, e, c) → ts !! j = Some (s', e', c') →
  (i < j)%nat → e < s'.
Proof.
  revert next i j; induction ts as [|[[s0 e0] c0] ts IH]; intros next i j; try done.
  intros (-> & ? & ? & _ & Hc) Hi Hj Hij. destruct j as [|j]; [lia|]. destruct i as [|i]; simpl in *.
  - simplify_eq. destruct (contiguous_bounds _ _ _ _ _ _ Hc Hj). lia.
  - apply (IH (e0 + 1) i j); (done || lia).
Qed.

Lemma contiguous_lookup ts next a :
  contiguous T next ts → next ≤ a ≤ ip_max T →
  ∃ i s e c, ts !! i = Some (s, e, c) ∧ s ≤ a ≤ e.
Proof.
  revert next; induction ts as [|[[s e] c] ts IH]; intros next; simpl; [lia|].
  intros (-> & ? & ? & _ & Hc) Ha. destruct (Z_le_gt_dec a e).
  - exists 0%nat, next, e, c. split; [done|lia].
  - destruct (IH (e + 1) Hc) as (i & s' & e' & c' & ? & ?); [lia|]. by exists (S i), s', e', c'.
Qed.

Lemma block_lookup_unique ts next a i s e c :
  contiguous T next ts → ts !! i = Some (s, e, c) → s ≤ a ≤ e → block_lookup ts a = Some c.
Proof.
  revert next i; induction ts as [|[[s0 e0] c0] ts IH]; intros next [|i] Hc Hi Ha; try done;
    pose proof Hc as (-> & ? & ? & _ & Hc'); simpl in Hi |- *.
  - simplify_eq. by rewrite (proj2 (contains_inner_spec _ _ _)).
  - destruct (contains_inner next e0 a) eqn:E; [|by apply (IH _ _ Hc' Hi)].
    apply contains_inner_spec in E.
    pose proof (contiguous_ordered _ _ 0 (S i) _ _ _ _ _ _ Hc eq_refl Hi). lia.
Qed.

Lemma fill_lookup bs next a :
  blocks_ok T next bs = true → next ≤ a ≤ ip_max T →
  block_lookup (fill T next bs) a = Some (default 0%nat (block_lookup bs a)).
Proof.
  revert next; induction bs as [|[[s e] c] bs IH]; intros next Hok Ha; cbn [fill].
  - unfold gap. destruct (Z.eqb_spec (ip_max T + 1) next); [lia|]. simpl.
    by rewrite (proj2 (contains_inner_spec _ _ _)) by lia.
  - cbn [blocks_ok] in Hok. b2p. unfold gap.
    assert (s ≤ a → block_lookup ((s, e, c) :: fill T (e + 1) bs) a =
                    Some (default 0%nat (block_lookup ((s, e, c) :: bs) a))) as Hmain.
    { intros Hs. simpl. destruct (contains_inner s e a) eqn:E; [done|].
      apply IH; [done|]. apply not_true_iff_false in E. rewrite contains_inner_spec in E. lia. }
    destruct (Z.eqb_spec s next) as [->|]; cbn [app].
    + apply Hmain. lia.
    + cbn [block_lookup]. destruct (contains_inner next (s - 1) a) eqn:E.
      * apply contains_inner_spec in E.
        destruct (contains_inner s e a) eqn:E'; [apply contains_inner_spec in E'; lia|].
        clear Hmain IH. f_equal. symmetry.
        assert (∀ n, blocks_ok T n bs = true → a < n → block_lookup bs a = None) as Hnone.
        { clear. induction bs as [|[[s0 e0] c0] bs IH]; intros n Hok Hn; [done|].
          cbn [blocks_ok] in Hok. b2p. simpl.
          destruct (contains_inner s0 e0 a) eqn:E; [apply contains_inner_spec in E; lia|].
          apply (IH (e0 + 1)); (done || lia). }
        by rewrite (Hnone (e + 1)) by (done || lia).
      * apply not_true_iff_false in E. rewrite contains_inner_spec in E.
        apply Hmain. lia.
Qed.

Lemma mapM_lookup cs ts blocks i s e c :
  mapM (decode_block T cs) ts = Some blocks → ts !! i = Some (s, e, c) →
  ∃ co, blocks !! i = Some (MkBlock (range_from s e) co) ∧ Countries.countries cs !! c = Some co.
Proof.
  intros Hm%mapM_Some Hi. destruct (Forall2_lookup_l _ _ _ _ _ Hm Hi) as (b & Hb & Hd).
  unfold decode_block in Hd. destruct (Countries.countries cs !! c) as [co|]; [|done].
  injection Hd as <-. by exists co.
Qed.

Lemma mapM_lookup_inv cs ts blocks i b :
  mapM (decode_block T cs) ts = Some blocks → blocks !! i = Some b →
  ∃ s e c, ts !! i = Some (s, e, c) ∧ ip_range b = range_from s e ∧
    Countries.countries cs !! c = Some (country b).
Proof.
  intros Hm%mapM_Some Hi. destruct (Forall2_lookup_r _ _ _ _ _ Hm Hi) as ([[s e] c] & Ht & Hd).
  unfold decode_block in Hd. exists s, e, c.
  destruct (Countries.countries cs !! c) as [co|]; [|done]. by injection Hd as <-.
Qed.

(** The binary search over the decoded blocks finds the one block that
    contains the address. *)
Lemma search_blocks cs ts blocks a ip :
  contiguous T 0 ts → mapM (decode_block T cs) ts = Some blocks → 0 ≤ a ≤ ip_max T →
  (∀ s e, ordering_by_range (range_from s e) ip = Ret (compare_with_range a s e)) →
  ∃ i b c, binary_search_by (λ b, ordering_by_range (ip_range b) ip) blocks = Ret (Ok i) ∧
    blocks !! i = Some b ∧ block_lookup ts a = Some c ∧
    Countries.countries cs !! c = Some (country b).
Proof.
  intros Hc Hm Ha Hord.
  set (g := λ b, match ordering_by_range (ip_range b) ip with Ret o => o | Panic => Eq end).
  assert (∀ i b, blocks !! i = Some b → ∃ s e c, ts !! i = Some (s, e, c) ∧
    Countries.countries cs !! c = Some (country b) ∧
    ordering_by_range (ip_range b) ip = Ret (compare_with_range a s e) ∧
    g b = compare_with_range a s e ∧ s ≤ e) as Hb.
  { intros i b Hi. destruct (mapM_lookup_inv _ _ _ _ _ Hm Hi) as (s & e & c & Ht & Hr & Hco).
    exists s, e, c. unfold g. rewrite Hr, Hord.
    destruct (contiguous_bounds _ _ _ _ _ _ Hc Ht). repeat split; (done || lia). }
  destruct (binary_search_spec (λ b, ordering_by_range (ip_range b) ip) g blocks) as (r & Hr & Hres).
  { intros b [i Hi]%list_elem_of_lookup. destruct (Hb i b Hi) as (s & e & c & _ & _ & -> & -> & _). done. }
  { intros i j x y Hx Hy Hij. destruct (decide (i = j)) as [->|]; [congruence|].
    destruct (Hb i x Hx) as (s & e & c & Ht & _ & _ & -> & ?).
    destruct (Hb j y Hy) as (s' & e' & c' & Ht' & _ & _ & -> & ?).
    rewrite !compare_with_range_lt by done.
    pose proof (contiguous_ordered _ _ i j _ _ _ _ _ _ Hc Ht Ht'). lia. }
  { intros i j x y Hx Hy Hij. destruct (decide (i = j)) as [->|]; [congruence|].
    destruct (Hb i x Hx) as (s & e & c & Ht & _ & _ & -> & ?).
    destruct (Hb j y Hy) as (s' & e' & c' & Ht' & _ & _ & -> & ?).
    rewrite !compare_with_range_gt.
    pose proof (contiguous_ordered _ _ i j _ _ _ _ _ _ Hc Ht Ht'). lia. }
  destruct (contiguous_lookup ts 0 a Hc Ha) as (k & s & e & c & Hk & Hin).
  destruct r as [i|]; simpl in Hres.
  - destruct Hres as (b & Hi & Hg). destruct (Hb i b Hi) as (s' & e' & c' & Ht & Hco & _ & Hgb & _).
    rewrite Hgb, compare_with_range_eq in Hg.
    exists i, b, c'. repeat split; try done. by apply (block_lookup_unique ts 0 a i s' e' c').
  - destruct (mapM_lookup _ _ _ _ _ _ _ Hm Hk) as (co & Hbk & _).
    exfalso. apply (Hres _ (list_elem_of_lookup_2 _ _ _ Hbk)).
    unfold g. simpl. rewrite Hord. by apply compare_with_range_eq.
Qed.
End cover.

(** ** The finder on serialized blocks *)

(** All country indexes are in the table. *)
Definition indexes_ok (cs : Countries.Countries) (bs : list (Z * Z * nat)) : bool :=
  forallb (λ t, (t.2 <? length (Countries.countries cs))%nat) bs.

Lemma decode_all T cs ts :
  indexes_ok cs ts = true → ∃ blocks, mapM (decode_block T cs) ts = Some blocks.
Proof.
  intros Hok. induction ts as [|[[s e] c] ts IH]; [by exists []|]. simpl in Hok. b2p.
  destruct IH as [blocks Hbs]; [done|]. simpl. rewrite Hbs.
  destruct (lookup_lt_is_Some_2 (Countries.countries cs) c) as [co ->]; [done|]. by eexists.
Qed.

Lemma indexes_ok_fill T cs bs next :
  (0 < length (Countries.countries cs))%nat → indexes_ok cs bs = true →
  indexes_ok cs (fill T next bs) = true.
Proof.
  intros Hpos. revert next; induction bs as [|[[s e] c] bs IH]; intros next Hok; cbn [fill];
    unfold gap.
  - destruct (_ =? _); [done|]. simpl. by rewrite (proj2 (Nat.ltb_lt _ _) Hpos).
  - simpl in Hok. apply andb_true_iff in Hok as [Hc Hok].
    destruct (s =? next); simpl; rewrite Hc, IH, ?(proj2 (Nat.ltb_lt _ _) Hpos); done.
Qed.

Lemma collect_blocks_spec T `{!IPTypeOk T} cs bs ws blocks :
  bs ≠ [] → blocks_ok T 0 bs = true →
  words_rep ws (enc T (ip_max T - 1) (fill T 0 bs)) →
  mapM (decode_block T cs) (fill T 0 bs) = Some blocks →
  collect_blocks T (ws, length (enc T (ip_max T - 1) (fill T 0 bs))) cs = Ret blocks.
Proof.
  intros Hne Hok Hws Hm. unfold collect_blocks.
  destruct (deserialize_spec T bs ws cs blocks Hne Hok Hws Hm) as (d & Hd & Hcollect).
  pose proof Hd as Hd'. rewrite Hd. cbn [mbind run_bind].
  (* the fuel is enough, and the outcome does not depend on it *)
  unfold deserializer_new, new_generic, bit_queue_from_country_data in Hd'.
  destruct (load_words_spec ws _ BitQueue.new [] Hws) as (q & Hq & Hrep); [apply BitQueue.rep_new|].
  rewrite Hq in Hd'. cbn [mbind run_bind] in Hd'.
  destruct (get_record_any T q _ (ip_max T - 1) Hrep) as (q' & r & l' & Hg & Hr & _).
  rewrite Hg in Hd'. cbn [mbind run_bind] in Hd'. destruct r as [r|]; [|done].
  injection Hd' as <-. destruct (collect_fuel_enough T (MkDeserializer cs r q' false) l' Hr) as [x Hx].
  rewrite Hx. set (n := Nat.max (collect_fuel (MkDeserializer cs r q' false)) (S (length (fill T 0 bs)))).
  pose proof (collect_vec_mono T _ n _ _ Hx ltac:(lia)) as H1.
  rewrite (Hcollect n) in H1 by lia. congruence.
Qed.

Lemma query_spec T cs bs blocks a ip :
  blocks_ok T 0 bs = true → 0 ≤ a ≤ ip_max T →
  mapM (decode_block T cs) (fill T 0 bs) = Some blocks →
  (∃ co, Countries.countries cs !! 0%nat = Some co ∧ Countries.iso3166 co = "ZZ"%string) →
  (∀ s e, ordering_by_range (range_from s e) ip = Ret (compare_with_range a s e)) →
  ∃ i b, binary_search_by (λ b, ordering_by_range (ip_range b) ip) blocks = Ret (Ok i) ∧
    blocks !! i = Some b ∧
    (if String.eqb (Countries.iso3166 (country b)) "ZZ" then None else Some (country b))
      = country_lookup cs bs a.
Proof.
  intros Hok Ha Hm (z & Hz & HZZ) Hord.
  destruct (search_blocks T cs _ blocks a ip (fill_contiguous T bs 0 ltac:(lia) Hok) Hm Ha Hord)
    as (i & b & c & Hs & Hb & Hl & Hco).
  exists i, b. repeat split; try done. rewrite fill_lookup in Hl by done. injection Hl as <-.
  unfold country_lookup. destruct (block_lookup bs a) as [c|]; simpl in *.
  - by rewrite Hco.
  - rewrite Hz in Hco. injection Hco as <-. by rewrite HZZ.
Qed.

Lemma finder_spec ps bs4 bs6 ws4 ws6 :
  let cs := Countries.new ps in
  bs4 ≠ [] → blocks_ok Ipv4 0 bs4 = true → indexes_ok cs bs4 = true →
  bs6 ≠ [] → blocks_ok Ipv6 0 bs6 = true → indexes_ok cs bs6 = true →
  words_rep ws4 (enc Ipv4 (ip_max Ipv4 - 1) (fill Ipv4 0 bs4)) →
  words_rep ws6 (enc Ipv6 (ip_max Ipv6 - 1) (fill Ipv6 0 bs6)) →
  ∃ fd, finder_new cs (ws4, length (enc Ipv4 (ip_max Ipv4 - 1) (fill Ipv4 0 bs4)))
                      (ws6, length (enc Ipv6 (ip_max Ipv6 - 1) (fill Ipv6 0 bs6))) = Ret fd ∧
    ∀ ip, addr_ok ip → find_country fd ip =
      Ret (match ip with
           | IpV4 a => country_lookup cs bs4 a
           | IpV6 a => country_lookup cs bs6 a
           end).
Proof.
  intros cs Hne4 Hok4 Hi4 Hne6 Hok6 Hi6 Hw4 Hw6.
  assert (0 < length (Countries.countries cs))%nat as Hpos by (simpl; lia).
  destruct (decode_all Ipv4 cs _ (indexes_ok_fill Ipv4 cs bs4 0 Hpos Hi4)) as [b4 Hb4].
  destruct (decode_all Ipv6 cs _ (indexes_ok_fill Ipv6 cs bs6 0 Hpos Hi6)) as [b6 Hb6].
  unfold finder_new. rewrite (collect_blocks_spec Ipv4 cs bs4 ws4 b4) by done.
  rewrite (collect_blocks_spec Ipv6 cs bs6 ws6 b6) by done. cbn [mbind run_bind].
  eexists. split; [done|]. intros [a|a] Ha; simpl in Ha; unfold find_country; cbn [f_ipv4 f_ipv6].
  - destruct (query_spec Ipv4 cs bs4 b4 a (IpV4 a)) as (i & b & -> & Hb & <-);
      [done|change (ip_max Ipv4) with (2 ^ 32 - 1); lia|done|by eexists|done|].
    cbn [mbind run_bind]. by rewrite Hb.
  - destruct (query_spec Ipv6 cs bs6 b6 a (IpV6 a)) as (i & b & -> & Hb & <-);
      [done|change (ip_max Ipv6) with (2 ^ 128 - 1); lia|done|by eexists|done|].
    cbn [mbind run_bind]. by rewrite Hb.
Qed.

End Finder.
