(* ===== verification/IpCountry.v ===== *)
(** * Generating the country tables

    Models [ip_country/src/ip_country.rs]: the code generator that prints the
    table of countries and the compressed data as Rust source, and the
    top-level function with its exit code.

    A [write!] hands its format pieces to the sink: literal text, hexadecimal
    words and decimal numbers stay apart until [render] turns them into
    characters.  The sink is any implementation of [io::Write], so it is a
    parameter [write] that may fail. *)
From S2P Require Import Prelude.
From S2P Require Import BitQueue.
From S2P Require Import Countries.
From S2P Require Import CountryBlockStream.
From S2P Require Import CountryBlockSerde.
From S2P Require Import CountryFinder.
From Stdlib Require Import Ascii String.
From stdpp Require Import base list strings pretty.

Module IpCountry.
Import Serde.
Local Open Scope rust_scope.

(** ** Formatted output *)

Inductive piece :=
| Lit (s : string)
| Hex16 (v : Z)      (** [{:016X}] *)
| Dec (n : nat).     (** [{}] of a [usize] *)

Definition nl : string := String (ascii_of_nat 10) EmptyString.
Definition dq : string := String (ascii_of_nat 34) EmptyString.

Definition hex_digit (d : Z) : ascii :=
  ascii_of_N (Z.to_N (if (d <? 10)%Z then 48 + d else 55 + d)).

Fixpoint string_of_digits (ds : list Z) : string :=
  match ds with
  | [] => EmptyString
  | d :: ds' => String (hex_digit d) (string_of_digits ds')
  end.

Definition hex16 (v : Z) : string := string_of_digits (be_digits 4 16 v).

Definition render (p : piece) : string :=
  match p with
  | Lit s => s
  | Hex16 v => hex16 v
  | Dec n => pretty n
  end.

Section sink.
Context {W E : Type} (write : W → list piece → result E W).

Definition writeln (w : W) (ps : list piece) : run (result E W) :=
  Ret (write w (ps ++ [Lit nl])).

Definition write_ (w : W) (ps : list piece) : run (result E W) := Ret (write w ps).

Fixpoint write_countries (w : W) (cs : list Countries.Country) : run (result E W) :=
  match cs with
  | [] => Ret (Ok w)
  | c :: cs' =>
      w <-? writeln w [Lit "            ("; Lit dq; Lit (Countries.iso3166 c); Lit dq;
                       Lit ", "; Lit dq; Lit (Countries.name c); Lit dq; Lit "),"];
      write_countries w cs'
  end.

Definition generate_country_list (cs : Countries.Countries) (w : W) : run (result E W) :=
  w <-? writeln w [];
  w <-? writeln w [Lit "use lazy_static::lazy_static;"];
  w <-? writeln w [Lit "use crate::countries::Countries;"];
  w <-? writeln w [];
  w <-? writeln w [Lit "lazy_static! {"];
  w <-? writeln w [Lit "    pub static ref COUNTRIES: Countries = Countries::new("];
  w <-? writeln w [Lit "        vec!["];
  w <-? write_countries w (Countries.countries cs);
  w <-? writeln w [Lit "        ]"];
  w <-? writeln w [Lit "        .into_iter()"];
  w <-? writeln w [Lit "        .map(|(iso3166, name)| (iso3166.to_string(), name.to_string()))"];
  w <-? writeln w [Lit "        .collect::<Vec<(String, String)>>()"];
  w <-? writeln w [Lit "    );"];
  w <-? writeln w [Lit "}"];
  Ret (Ok w).

Definition COUNTRY_BLOCK_BIT_SIZE : nat := 64.

Definition write_value (q : BitQueue.BitQueue) (bit_count values_written : nat) (w : W)
    : run (result E (BitQueue.BitQueue * nat * W)) :=
  w <-? write_ w [Lit (if (Nat.land values_written 3 =? 0)%nat
                       then nl ++ "            " else " ")];
  '(q, v) ← BitQueue.take_bits q bit_count;
  value ← expect v;
  w <-? write_ w [Lit "0x"; Hex16 value; Lit ","];
  Ret (Ok (q, (values_written + 1)%nat, w)).

(** [while bit_queue.len() >= 64 { write_value(64)? }] *)
Fixpoint write_words (fuel : nat) (q : BitQueue.BitQueue) (values_written : nat) (w : W)
    : run (result E (BitQueue.BitQueue * nat * W)) :=
  match fuel with
  | O => Panic
  | S fuel' =>
      n ← BitQueue.len q;
      if (COUNTRY_BLOCK_BIT_SIZE <=? n)%nat
      then '(q, values_written, w) <-? write_value q COUNTRY_BLOCK_BIT_SIZE values_written w;
           write_words fuel' q values_written w
      else Ret (Ok (q, values_written, w))
  end.

Definition generate_country_block_code (name : string) (q : BitQueue.BitQueue) (w : W)
    (block_count : nat) : run (result E W) :=
  bit_queue_len ← BitQueue.len q;
  w <-? writeln w [];
  w <-? writeln w [Lit "pub fn "; Lit name; Lit "_data() -> (Vec<u64>, usize) {"];
  w <-? writeln w [Lit "    ("];
  w <-? write_ w [Lit "        vec!["];
  '(q, values_written, w) <-? write_words (S bit_queue_len) q 0 w;
  empty ← BitQueue.is_empty q;
  w <-? (if negb empty
         then n ← BitQueue.len q;
              '(_, _, w) <-? write_value q n values_written w; Ret (Ok w)
         else Ret (Ok w));
  w <-? write_ w [Lit (nl ++ "        ]," ++ nl)];
  w <-? writeln w [Lit "        "; Dec bit_queue_len];
  w <-? writeln w [Lit "    )"];
  w <-? writeln w [Lit "}"];
  w <-? writeln w [Lit nl; Lit "pub fn "; Lit name; Lit "_block_count() -> usize {"];
  w <-? writeln w [Lit "        "; Dec block_count];
  w <-? writeln w [Lit "}"];
  Ret (Ok w).

Definition generate_rust_code (final_ipv4 final_ipv6 : FinalBitQueue)
    (cs : Countries.Countries) (w : W) : run (result E W) :=
  w <-? write_ w [Lit (nl ++ "// GENERATED CODE: REGENERATE, DO NOT MODIFY!" ++ nl)];
  w <-? generate_country_list cs w;
  w <-? generate_country_block_code "ipv4_country" (f_bit_queue final_ipv4) w
          (f_block_count final_ipv4);
  w <-? generate_country_block_code "ipv6_country" (f_bit_queue final_ipv6) w
          (f_block_count final_ipv6);
  Ret (Ok w).

End sink.

(** ** The top-level function *)

(** The command line picks the parser; what a parser returns is its list of
    errors and the two finished queues with the table of countries. *)
Definition uses_csv (args : list string) : bool :=
  existsb (String.eqb "--csv") args.

Section main.
Context {W V E X : Type} (write : W → list piece → result (W * E) W)
  (write_err : V → list piece → result E V)
  (generate_error : E → X) (show : X → string).

Definition parser_result : Type := list X * (FinalBitQueue * FinalBitQueue * Countries.Countries).

Fixpoint join_errors (errors : list X) : list piece :=
  match errors with
  | [] => []
  | [e] => [Lit (show e)]
  | e :: errors' => Lit (show e) :: Lit nl :: join_errors errors'
  end.

Definition warning (errors : list X) : list piece :=
  [Lit (nl ++ "            *** DO NOT USE THIS CODE ***" ++ nl ++
        "            It will produce incorrect results." ++ nl ++
        "            The process that generated it found these errors:" ++ nl ++ nl)] ++
  join_errors errors ++
  [Lit (nl ++ nl ++ "            Fix the errors and regenerate the code." ++ nl ++
        "            *** DO NOT USE THIS CODE ***" ++ nl)].

(** A failed write of [stdout] also tells the state it left the sink in. *)
Definition ip_country (args : list string) (csv_parse mmdb_parse : run parser_result)
    (stdout : W) (stderr : V) : run (Z * W * V) :=
  '(errors, (final_ipv4, final_ipv6, countries)) ←
    (if uses_csv args then csv_parse else mmdb_parse);
  r ← generate_rust_code write final_ipv4 final_ipv6 countries stdout;
  let '(errors, stdout) :=
    match r with
    | Ok w => (errors, w)
    | Err (w, e) => (errors ++ [generate_error e], w)
    end in
  match errors with
  | [] => Ret (0%Z, stdout, stderr)
  | _ =>
      stdout ← expect_ok (write stdout (warning errors));
      stderr ← expect_ok (write_err stderr (join_errors errors));
      Ret (1%Z, stdout, stderr)
  end.
End main.

(** ** What is written *)

Section calls.
Context {W E : Type} (write : W → list piece → result E W).

(** Issue the writes in order, stopping at the first failure. *)
Fixpoint write_all (w : W) (calls : list (list piece)) : result E W :=
  match calls with
  | [] => Ok w
  | c :: calls' =>
      match write w c with
      | Ok w' => write_all w' calls'
      | Err e => Err e
      end
  end.
End calls.

(** The 64-bit words of a bit string, the last one possibly shorter. *)
Fixpoint full_words (n : nat) (l : list bool) : list Z :=
  match n with
  | O => []
  | S n' => val_of (take 64 l) :: full_words n' (drop 64 l)
  end.

Definition rest_bits (l : list bool) : list bool := drop (64 * (length l / 64)) l.

Definition block_words (l : list bool) : list Z :=
  full_words (length l / 64) l ++
  (if decide (rest_bits l = []) then [] else [val_of (rest_bits l)]).

Fixpoint word_calls (values_written : nat) (ws : list Z) : list (list piece) :=
  match ws with
  | [] => []
  | v :: ws' =>
      [Lit (if (Nat.land values_written 3 =? 0)%nat then nl ++ "            " else " ")] ::
      [Lit "0x"; Hex16 v; Lit ","] :: word_calls (values_written + 1) ws'
  end.

Definition block_calls (name : string) (l : list bool) (block_count : nat) : list (list piece) :=
  [[Lit nl];
   [Lit "pub fn "; Lit name; Lit "_data() -> (Vec<u64>, usize) {"; Lit nl];
   [Lit "    ("; Lit nl];
   [Lit "        vec!["]] ++
  word_calls 0 (block_words l) ++
  [[Lit (nl ++ "        ]," ++ nl)];
   [Lit "        "; Dec (length l); Lit nl];
   [Lit "    )"; Lit nl];
   [Lit "}"; Lit nl];
   [Lit nl; Lit "pub fn "; Lit name; Lit "_block_count() -> usize {"; Lit nl];
   [Lit "        "; Dec block_count; Lit nl];
   [Lit "}"; Lit nl]].

(** The words and the numbers among the pieces written: what the Rust compiler
    reads back from the generated vector literal and lengths. *)
Definition hex_values (calls : list (list piece)) : list Z :=
  omap (λ p, match p with Hex16 v => Some v | _ => None end) (mjoin calls).

Definition dec_values (calls : list (list piece)) : list nat :=
  omap (λ p, match p with Dec n => Some n | _ => None end) (mjoin calls).

(** ** Lemmas *)
Section call_facts.
Context {W E : Type} (write : W → list piece → result E W).

Lemma write_all_app w c1 c2 :
  write_all write w (c1 ++ c2) =
    match write_all write w c1 with Ok w' => write_all write w' c2 | Err e => Err e end.
Proof.
  revert w; induction c1 as [|c c1 IH]; intros w; simpl; [done|].
  destruct (write w c); [apply IH|done].
Qed.

Lemma write_value_spec q l n vw w :
  BitQueue.rep q l → (n ≤ 64)%nat → (n ≤ length l)%nat →
  ∃ q', BitQueue.rep q' (drop n l) ∧
    write_value write q n vw w =
      Ret (match write_all write w (word_calls vw [val_of (take n l)]) with
           | Ok w' => Ok (q', (vw + 1)%nat, w')
           | Err e => Err e
           end).
Proof.
  intros Hrep Hn Hl. destruct (BitQueue.take_bits_spec q l n Hrep Hn Hl) as (q' & Ht & Hr).
  exists q'. split; [done|]. unfold write_value, write_. simpl.
  destruct (write w _) as [w1|]; [|done]. simpl. rewrite Ht. simpl.
  by destruct (write w1 _).
Qed.

Lemma word_calls_app vw ws1 ws2 :
  word_calls vw (ws1 ++ ws2) = word_calls vw ws1 ++ word_calls (vw + length ws1) ws2.
Proof.
  revert vw; induction ws1 as [|v ws1 IH]; intros vw; simpl; [by rewrite Nat.add_0_r|].
  rewrite IH. do 4 f_equal. lia.
Qed.

Lemma length_full_words n l : length (full_words n l) = n.
Proof. revert l; induction n; simpl; auto. Qed.

Lemma write_words_spec n fuel q l vw w :
  BitQueue.rep q l → n = (length l / 64)%nat → (n < fuel)%nat →
  ∃ q', BitQueue.rep q' (drop (64 * n) l) ∧
    write_words write fuel q vw w =
      Ret (match write_all write w (word_calls vw (full_words n l)) with
           | Ok w' => Ok (q', (vw + n)%nat, w')
           | Err e => Err e
           end).
Proof.
  revert fuel q l vw w; induction n as [|n IH]; intros [|fuel] q l vw w Hrep Hn Hfuel; try lia;
    pose proof (Nat.div_mod_eq (length l) 64) as Hdm;
    pose proof (Nat.mod_upper_bound (length l) 64 ltac:(lia)).
  - exists q. split; [done|]. cbn [write_words]. rewrite (BitQueue.rep_len _ _ Hrep).
    cbn [mbind run_bind]. unfold COUNTRY_BLOCK_BIT_SIZE.
    destruct (Nat.leb_spec 64 (length l)); [lia|]. by rewrite Nat.add_0_r.
  - cbn [write_words]. rewrite (BitQueue.rep_len _ _ Hrep). cbn [mbind run_bind].
    unfold COUNTRY_BLOCK_BIT_SIZE. destruct (Nat.leb_spec 64 (length l)); [|lia].
    destruct (write_value_spec q l 64 vw w Hrep) as (q1 & Hr1 & ->); [lia|lia|].
    assert (n = length (drop 64 l) / 64)%nat as Hn1.
    { rewrite length_drop. apply (Nat.div_unique _ _ _ (length l mod 64)); lia. }
    cbn [full_words]. change (?a :: ?b) with ([a] ++ b) at 2.
    rewrite word_calls_app, write_all_app. cbn [length].
    destruct (write_all write w (word_calls vw [val_of (take 64 l)])) as [w1|e]; cbn [try_bind].
    + destruct (IH fuel q1 _ (vw + 1)%nat w1 Hr1 Hn1 ltac:(lia)) as (q2 & Hr2 & ->).
      exists q2. split; [|by replace (vw + S n)%nat with (vw + 1 + n)%nat by lia].
      rewrite drop_drop in Hr2. by replace (64 * S n)%nat with (64 + 64 * n)%nat by lia.
    + destruct (IH fuel q1 _ (vw + 1)%nat w Hr1 Hn1 ltac:(lia)) as (q2 & Hr2 & _).
      exists q2. split; [|done].
      rewrite drop_drop in Hr2. by replace (64 * S n)%nat with (64 + 64 * n)%nat by lia.
Qed.
Lemma write_step w c calls k :
  (∀ w', k w' = Ret (write_all write w' calls)) →
  try_bind (Ret (write w c)) k = Ret (write_all write w (c :: calls)).
Proof. intros Hk. simpl. destruct (write w c); simpl; [apply Hk|done]. Qed.

Lemma write_steps w c1 c2 m k :
  m = Ret (write_all write w c1) →
  (∀ w', k w' = Ret (write_all write w' c2)) →
  try_bind m k = Ret (write_all write w (c1 ++ c2)).
Proof.
  intros -> Hk. rewrite write_all_app. simpl. destruct (write_all write w c1); [apply Hk|done].
Qed.

Lemma generate_country_block_code_spec name q l w count :
  BitQueue.rep q l →
  generate_country_block_code write name q w count =
    Ret (write_all write w (block_calls name l count)).
Proof.
  intros Hrep. unfold generate_country_block_code. rewrite (BitQueue.rep_len _ _ Hrep).
  cbn [mbind run_bind]. unfold block_calls, writeln, write_. cbn [app].
  do 4 (apply write_step; intros).
  unfold block_words. rewrite word_calls_app, length_full_words, <- app_assoc, Nat.add_0_l.
  assert (length l / 64 < S (length l))%nat as Hf by (apply Nat.lt_succ_r, Nat.Div0.div_le_upper_bound; lia).
  match goal with |- try_bind (write_words _ _ _ _ ?w0) _ = _ =>
    destruct (write_words_spec (length l / 64) (S (length l)) q l 0 w0 Hrep eq_refl Hf)
      as (q' & Hr & ->) end.
  rewrite write_all_app. destruct (write_all write _ _) as [w1|]; [|done]. cbn [try_bind].
  fold (rest_bits l) in Hr. unfold BitQueue.is_empty. rewrite (BitQueue.rep_len _ _ Hr).
  cbn [mbind run_bind]. rewrite Nat.add_0_l.
  apply write_steps; [|intros; repeat (apply write_step; intros); done].
  destruct (decide (rest_bits l = [])) as [->|Hne]; [done|].
  destruct (Nat.eqb_spec (length (rest_bits l)) 0) as [?%length_zero_iff_nil|_]; [done|]. cbn [negb].
  pose proof (Nat.mod_upper_bound (length l) 64 ltac:(lia)).
  pose proof (Nat.div_mod_eq (length l) 64).
  destruct (write_value_spec q' (rest_bits l) (length (rest_bits l)) (length l / 64) w1 Hr)
    as (q2 & _ & ->); [unfold rest_bits; lens|done|].
  rewrite firstn_all. by destruct (write_all write w1 _).
Qed.

End call_facts.

Lemma full_words_rep n l r :
  length l = (64 * n + length r)%nat → r = drop (64 * n) l → (length r < 64)%nat →
  words_rep (full_words n l ++ (if decide (r = []) then [] else [val_of r])) l.
Proof.
  revert l; induction n as [|n IH]; intros l Hl -> Hr; cbn [full_words app].
  - rewrite Nat.mul_0_r, drop_0 in *. destruct (decide (l = [])) as [->|Hne]; [constructor|].
    refine (eq_ind _ (words_rep _) (words_last _ (length l) _ (val_of_range l)) _ (bits_of_val_of l)).
    destruct l; [done|simpl in *; lia].
  - assert (length (take 64 l) = 64%nat) as Ht by lens.
    assert (bits_of 64 (val_of (take 64 l)) ++ drop 64 l = l) as Heq.
    { rewrite <- Ht at 1. by rewrite bits_of_val_of, take_drop. }
    pose proof (val_of_range (take 64 l)) as Hv. rewrite Ht in Hv.
    replace (64 * S n)%nat with (64 + 64 * n)%nat in * by lia. rewrite <- drop_drop in *.
    refine (eq_ind _ (words_rep _) (words_cons _ _ _ Hv (IH (drop 64 l) _ eq_refl Hr)) _ Heq). lens.
Qed.

Lemma block_words_rep l : words_rep (block_words l) l.
Proof.
  pose proof (Nat.mod_upper_bound (length l) 64 ltac:(lia)). pose proof (Nat.div_mod_eq (length l) 64).
  apply full_words_rep; unfold rest_bits; [lens|done|lens].
Qed.

Lemma hex_values_app c1 c2 : hex_values (c1 ++ c2) = hex_values c1 ++ hex_values c2.
Proof. unfold hex_values. by rewrite join_app, omap_app. Qed.

Lemma hex_values_words vw ws : hex_values (word_calls vw ws) = ws.
Proof.
  revert vw; induction ws as [|v ws IH]; intros vw; [done|].
  cbn [word_calls]. change (?a :: ?b :: ?c) with ([a; b] ++ c). rewrite hex_values_app, IH. done.
Qed.

Lemma dec_values_app c1 c2 : dec_values (c1 ++ c2) = dec_values c1 ++ dec_values c2.
Proof. unfold dec_values. by rewrite join_app, omap_app. Qed.

Lemma dec_values_words vw ws : dec_values (word_calls vw ws) = [].
Proof.
  revert vw; induction ws as [|v ws IH]; intros vw; [done|].
  cbn [word_calls]. change (?a :: ?b :: ?c) with ([a; b] ++ c). by rewrite dec_values_app, IH.
Qed.

Lemma block_calls_values name l count :
  hex_values (block_calls name l count) = block_words l ∧
  dec_values (block_calls name l count) = [length l; count].
Proof.
  unfold block_calls. rewrite !hex_values_app, !dec_values_app, hex_values_words, dec_values_words.
  split; [|done]. change (hex_values _) with (@nil Z) at 1. cbn [app]. apply app_nil_r.
Qed.

(** ** The blocks of each version *)

Definition v4_entries (blocks : list Stream.CountryBlock) : list (Z * Z * nat) :=
  omap (λ b, match Stream.ip_range b with
             | Stream.V4 s e => Some (s, e, Countries.index (Stream.country b))
             | _ => None end) blocks.

Definition v6_entries (blocks : list Stream.CountryBlock) : list (Z * Z * nat) :=
  omap (λ b, match Stream.ip_range b with
             | Stream.V6 s e => Some (s, e, Countries.index (Stream.country b))
             | _ => None end) blocks.

Lemma add_all_split blocks st st4 st6 :
  add_ips Ipv4 (ipv4 st) (v4_entries blocks) = Ret st4 →
  add_ips Ipv6 (ipv6 st) (v6_entries blocks) = Ret st6 →
  add_all st blocks = Ret (MkBoth st4 st6).
Proof.
  revert st; induction blocks as [|[[s e|s e] c] blocks IH]; intros [a b]; simpl.
  - by intros [= ->] [= ->].
  - unfold add. simpl. intros H4 H6. apply run_bind_ret in H4 as (a' & Ha & H4). rewrite Ha. simpl.
    by apply IH.
  - unfold add. simpl. intros H4 H6. apply run_bind_ret in H6 as (b' & Hb & H6). rewrite Hb. simpl.
    by apply IH.
Qed.

Lemma serialize_both blocks :
  v4_entries blocks ≠ [] → blocks_ok Ipv4 0 (v4_entries blocks) = true →
  v6_entries blocks ≠ [] → blocks_ok Ipv6 0 (v6_entries blocks) = true →
  ∃ st f4 f6, add_all CountryBlockSerializer_new blocks = Ret st ∧ finish st = Ret (f4, f6) ∧
    BitQueue.rep (f_bit_queue f4) (enc Ipv4 (ip_max Ipv4 - 1) (fill Ipv4 0 (v4_entries blocks))) ∧
    BitQueue.rep (f_bit_queue f6) (enc Ipv6 (ip_max Ipv6 - 1) (fill Ipv6 0 (v6_entries blocks))) ∧
    f_block_count f4 = length (fill Ipv4 0 (v4_entries blocks)) ∧
    f_block_count f6 = length (fill Ipv6 0 (v6_entries blocks)).
Proof.
  intros Hne4 Hok4 Hne6 Hok6.
  destruct (serialize_spec Ipv4 _ Hne4 Hok4) as (s4 & Hs4 & Hr4 & Hc4).
  destruct (serialize_spec Ipv6 _ Hne6 Hok6) as (s6 & Hs6 & Hr6 & Hc6).
  unfold serialize in Hs4, Hs6.
  apply run_bind_ret in Hs4 as (a4 & Ha4 & Hf4). apply run_bind_ret in Hs6 as (a6 & Ha6 & Hf6).
  eexists (MkBoth a4 a6), _, _. split; [by apply add_all_split|].
  split; [unfold finish; cbn [ipv4 ipv6]; rewrite Hf4; cbn [mbind run_bind]; by rewrite Hf6|done].
Qed.

(** ** Hexadecimal output *)

Definition hex_value (c : ascii) : Z :=
  let n := Z.of_N (N_of_ascii c) in
  if (n <? 58)%Z then n - 48 else n - 55.

Fixpoint read_hex (acc : Z) (s : string) : Z :=
  match s with
  | EmptyString => acc
  | String c s' => read_hex (acc * 16 + hex_value c) s'
  end.

Lemma hex_value_digit d : (0 ≤ d < 16)%Z → hex_value (hex_digit d) = d.
Proof.
  intros Hd. assert (∃ n, (n < 16)%nat ∧ d = Z.of_nat n) as (n & Hn & ->).
  { exists (Z.to_nat d). lia. }
  do 16 (destruct n as [|n]; [reflexivity|]). lia.
Qed.

Lemma read_hex_digits ds acc :
  Forall (λ d, 0 ≤ d < 2 ^ Z.of_nat 4)%Z ds →
  read_hex acc (string_of_digits ds) = foldl (λ acc d, acc * 2 ^ Z.of_nat 4 + d)%Z acc ds.
Proof.
  intros Hds. revert acc; induction Hds as [|d ds Hd Hds IH]; intros acc; [done|].
  change (2 ^ Z.of_nat 4)%Z with 16%Z in Hd.
  cbn [string_of_digits read_hex foldl]. rewrite IH, hex_value_digit by done. done.
Qed.

Lemma length_string_of_digits ds : String.length (string_of_digits ds) = length ds.
Proof. induction ds; simpl; congruence. Qed.

Lemma read_hex16 v : (0 ≤ v < 2 ^ Z.of_nat (4 * 16))%Z → read_hex 0 (hex16 v) = v.
Proof.
  intros Hv. unfold hex16.
  rewrite read_hex_digits, from_be_digits_acc, Z.mod_small by (exact Hv || apply be_digits_range).
  lia.
Qed.

(** ** Properties *)

(** C1: the compressed tables answer queries correctly, end to end.  Take
    country blocks of both versions, each version non-empty, sorted and
    disjoint with known countries; serialize them, generate the source, and
    build a finder from the words and lengths of the generated source and the
    regenerated table of countries.  Nothing panics, and for every address
    the finder returns the country of the block that contains it, and nothing
    when no block does or the block is the sentinel's. *)
Theorem country_pipeline (ps : list (string * string)) (blocks : list Stream.CountryBlock) :
  v4_entries blocks ≠ [] → blocks_ok Ipv4 0 (v4_entries blocks) = true →
  Finder.indexes_ok (Countries.new ps) (v4_entries blocks) = true →
  v6_entries blocks ≠ [] → blocks_ok Ipv6 0 (v6_entries blocks) = true →
  Finder.indexes_ok (Countries.new ps) (v6_entries blocks) = true →
  ∃ st f4 f6 calls4 calls6 fd,
    add_all CountryBlockSerializer_new blocks = Ret st ∧ finish st = Ret (f4, f6) ∧
    (∀ W E (write : W → list piece → result E W) w,
      generate_country_block_code write "ipv4_country" (f_bit_queue f4) w (f_block_count f4)
        = Ret (write_all write w calls4)) ∧
    (∀ W E (write : W → list piece → result E W) w,
      generate_country_block_code write "ipv6_country" (f_bit_queue f6) w (f_block_count f6)
        = Ret (write_all write w calls6)) ∧
    Finder.finder_new (Countries.new (Countries.pairs (Countries.new ps)))
      (hex_values calls4, hd 0%nat (dec_values calls4))
      (hex_values calls6, hd 0%nat (dec_values calls6)) = Ret fd ∧
    ∀ ip, Stream.addr_ok ip → Finder.find_country fd ip =
      Ret (match ip with
           | Stream.IpV4 a => Finder.country_lookup (Countries.new ps) (v4_entries blocks) a
           | Stream.IpV6 a => Finder.country_lookup (Countries.new ps) (v6_entries blocks) a
           end).
Proof.
  intros Hne4 Hok4 Hi4 Hne6 Hok6 Hi6.
  destruct (serialize_both blocks Hne4 Hok4 Hne6 Hok6)
    as (st & f4 & f6 & Hadd & Hfin & Hr4 & Hr6 & Hc4 & Hc6).
  destruct (Finder.finder_spec ps _ _ _ _ Hne4 Hok4 Hi4 Hne6 Hok6 Hi6
    (block_words_rep _) (block_words_rep _)) as (fd & Hfd & Hq).
  eexists st, f4, f6, (block_calls "ipv4_country" _ (f_block_count f4)),
    (block_calls "ipv6_country" _ (f_block_count f6)), fd.
  split; [done|]. split; [done|].
  split; [intros; by apply generate_country_block_code_spec|].
  split; [intros; by apply generate_country_block_code_spec|].
  rewrite Countries.new_pairs, !(proj1 (block_calls_values _ _ _)), !(proj2 (block_calls_values _ _ _)).
  done.
Qed.

Definition demo_pairs : list (string * string) :=
  [("US", "United States"); ("AD", "Andorra"); ("ZZ", "Sentinel")]%string.

Definition demo_blocks : list Stream.CountryBlock :=
  [Stream.MkBlock (Stream.V4 0x01020304 0x01020305) (Countries.MkCountry 1 "AD" "Andorra");
   Stream.MkBlock (Stream.V6 5 0x10000000000000000) (Countries.MkCountry 2 "US" "United States");
   Stream.MkBlock (Stream.V4 0x06070809 0xFFFFFFFF) (Countries.MkCountry 2 "US" "United States")]%Z.

Lemma country_pipeline_witness :
  ∃ st f4 f6 calls4 calls6 fd,
    add_all CountryBlockSerializer_new demo_blocks = Ret st ∧ finish st = Ret (f4, f6) ∧
    (∀ W E (write : W → list piece → result E W) w,
      generate_country_block_code write "ipv4_country" (f_bit_queue f4) w (f_block_count f4)
        = Ret (write_all write w calls4)) ∧
    (∀ W E (write : W → list piece → result E W) w,
      generate_country_block_code write "ipv6_country" (f_bit_queue f6) w (f_block_count f6)
        = Ret (write_all write w calls6)) ∧
    Finder.finder_new (Countries.new (Countries.pairs (Countries.new demo_pairs)))
      (hex_values calls4, hd 0%nat (dec_values calls4))
      (hex_values calls6, hd 0%nat (dec_values calls6)) = Ret fd ∧
    ∀ ip, Stream.addr_ok ip → Finder.find_country fd ip =
      Ret (match ip with
           | Stream.IpV4 a => Finder.country_lookup (Countries.new demo_pairs) (v4_entries demo_blocks) a
           | Stream.IpV6 a => Finder.country_lookup (Countries.new demo_pairs) (v6_entries demo_blocks) a
           end).
Proof. apply country_pipeline; (vm_compute; reflexivity) || (vm_compute; discriminate). Defined.

(** Hexadecimal words survive printing: every 64-bit word is printed as
    exactly 16 digits, and reading the digits back gives the word. *)
Lemma hex16_roundtrip (v : Z) :
  (0 ≤ v < 2 ^ 64)%Z → read_hex 0 (hex16 v) = v ∧ String.length (hex16 v) = 16%nat.
Proof.
  intros Hv. split; [by apply read_hex16|].
  unfold hex16. rewrite length_string_of_digits. apply length_be_digits.
Qed.

(** *** The whole source *)

Definition country_call (c : Countries.Country) : list piece :=
  [Lit "            ("; Lit dq; Lit (Countries.iso3166 c); Lit dq;
   Lit ", "; Lit dq; Lit (Countries.name c); Lit dq; Lit "),"; Lit nl].

Definition list_calls (cs : Countries.Countries) : list (list piece) :=
  [[Lit nl];
   [Lit "use lazy_static::lazy_static;"; Lit nl];
   [Lit "use crate::countries::Countries;"; Lit nl];
   [Lit nl];
   [Lit "lazy_static! {"; Lit nl];
   [Lit "    pub static ref COUNTRIES: Countries = Countries::new("; Lit nl];
   [Lit "        vec!["; Lit nl]] ++
  (country_call <$> Countries.countries cs) ++
  [[Lit "        ]"; Lit nl];
   [Lit "        .into_iter()"; Lit nl];
   [Lit "        .map(|(iso3166, name)| (iso3166.to_string(), name.to_string()))"; Lit nl];
   [Lit "        .collect::<Vec<(String, String)>>()"; Lit nl];
   [Lit "    );"; Lit nl];
   [Lit "}"; Lit nl]].

(** All the writes of the generator for queues that store [l4] and [l6]. *)
Definition source_calls (l4 : list bool) (n4 : nat) (l6 : list bool) (n6 : nat)
    (cs : Countries.Countries) : list (list piece) :=
  [Lit (nl ++ "// GENERATED CODE: REGENERATE, DO NOT MODIFY!" ++ nl)] ::
  list_calls cs ++ block_calls "ipv4_country" l4 n4 ++ block_calls "ipv6_country" l6 n6.

Section source.
Context {W E : Type} (write : W → list piece → result E W).

Lemma write_countries_spec w cs :
  write_countries write w cs = Ret (write_all write w (country_call <$> cs)).
Proof.
  revert w; induction cs as [|c cs IH]; intros w; [done|]. cbn [write_countries fmap list_fmap].
  unfold writeln, country_call at 1. cbn [app]. apply write_step. apply IH.
Qed.

Lemma generate_country_list_spec w cs :
  generate_country_list write cs w = Ret (write_all write w (list_calls cs)).
Proof.
  unfold generate_country_list, list_calls, writeln. cbn [app].
  do 7 (apply write_step; intros). apply write_steps; [apply write_countries_spec|].
  intros. do 6 (apply write_step; intros). done.
Qed.

Lemma generate_rust_code_spec f4 f6 l4 l6 cs w :
  BitQueue.rep (f_bit_queue f4) l4 → BitQueue.rep (f_bit_queue f6) l6 →
  generate_rust_code write f4 f6 cs w =
    Ret (write_all write w (source_calls l4 (f_block_count f4) l6 (f_block_count f6) cs)).
Proof.
  intros H4 H6. unfold generate_rust_code, source_calls, write_. apply write_step. intros w1.
  apply write_steps; [apply generate_country_list_spec|]. intros w2.
  apply write_steps; [by apply generate_country_block_code_spec|]. intros w3.
  rewrite (generate_country_block_code_spec write _ _ _ _ _ H6). by destruct (write_all _ _ _).
Qed.
End source.

(** The outcome of a run that has errors to report: the warning goes to the
    output, the list of errors to the error stream, and the code is 1; a sink
    that refuses this last write is a panic. *)
Definition reported {W V E E' X : Type} (write : W → list piece → result E' W)
    (write_err : V → list piece → result E V) (show : X → string)
    (errors : list X) (stdout : W) (stderr : V) : run (Z * W * V) :=
  match write stdout (warning show errors), write_err stderr (join_errors show errors) with
  | Ok stdout', Ok stderr' => Ret (1%Z, stdout', stderr')
  | _, _ => Panic
  end.

(** The exit code is honest.  Whatever the sinks do, once the chosen parser
    has returned its errors and two queues, the run gives 0 exactly when there
    is no error and every write of the source succeeds, and then precisely the
    source has been written; in every other case, a failed write included, the
    errors are reported in order and the code is 1. *)
Lemma ip_country_exit_code {W V E X : Type} (write : W → list piece → result (W * E) W)
    (write_err : V → list piece → result E V) (generate_error : E → X) (show : X → string)
    (args : list string) (csv_parse mmdb_parse : run parser_result)
    (stdout : W) (stderr : V) (errors : list X) (f4 f6 : FinalBitQueue) (cs : Countries.Countries)
    (l4 l6 : list bool) :
  (if uses_csv args then csv_parse else mmdb_parse) = Ret (errors, (f4, f6, cs)) →
  BitQueue.rep (f_bit_queue f4) l4 → BitQueue.rep (f_bit_queue f6) l6 →
  ip_country write write_err generate_error show args csv_parse mmdb_parse stdout stderr =
    match write_all write stdout (source_calls l4 (f_block_count f4) l6 (f_block_count f6) cs), errors with
    | Ok w, [] => Ret (0%Z, w, stderr)
    | Ok w, _ => reported write write_err show errors w stderr
    | Err (w, e), _ => reported write write_err show (errors ++ [generate_error e]) w stderr
    end.
Proof.
  intros Hp H4 H6. unfold ip_country.
  assert (∀ A (k : parser_result → run A),
    mbind k (if uses_csv args then csv_parse else mmdb_parse) = k (errors, (f4, f6, cs))) as ->
    by (intros; by destruct (uses_csv args); subst).
  rewrite (generate_rust_code_spec write f4 f6 l4 l6 cs stdout H4 H6). cbn [mbind run_bind].
  unfold reported. destruct (write_all _ _ _) as [w|[w e]].
  - destruct errors as [|x errors]; [done|].
    destruct (write w _) as [w'|]; [|done]. simpl. by destruct (write_err stderr _).
  - destruct (errors ++ [generate_error e]) as [|x all] eqn:Eall; [by destruct errors|].
    destruct (write w _) as [w'|]; [|done]. simpl. by destruct (write_err stderr _).
Qed.

Definition demo_sink (w : list piece) (ps : list piece) : result (list piece * string) (list piece) :=
  if (30 <=? length w)%nat && (length w <=? 40)%nat then Err (w ++ [Lit "!"], "full"%string) else Ok (w ++ ps).

Definition demo_err (_ : unit) (_ : list piece) : result string unit := Ok tt.

End IpCountry.
