(* ===== verification/IpCountryCsv.v ===== *)
(** * The CSV front end

    Models [ip_country/src/ip_country_csv.rs].  The CSV reader is a third-party
    crate: its records iterator is an input, a list whose elements are either
    the fields of a record or a format error.  [IpAddr::from_str] belongs to
    the standard library and is written out ([Module NetParser], after
    [core::net::parser]).  Error texts are constructors carrying the values
    the messages print. *)
From S2P Require Import Prelude.
From S2P Require Import BitQueue.
From S2P Require Import Countries.
From S2P Require Import CountryBlockStream.
From S2P Require Import CountryBlockSerde.
From S2P Require Import CountryData.
From Stdlib Require Import Ascii String.
From stdpp Require Import base list strings.

(** ** [core::net::parser] *)
Module NetParser.
Local Open Scope Z_scope.

Definition chars (s : string) : list ascii := list_ascii_of_string s.

(** A reader consumes a prefix of the input or fails without consuming. *)
Definition reader (A : Type) : Type := list ascii → option (A * list ascii).

Definition to_digit (radix : Z) (c : ascii) : option Z :=
  let n := Z.of_N (N_of_ascii c) in
  let d := if (48 <=? n) && (n <=? 57) then Some (n - 48)
           else if (97 <=? n) && (n <=? 122) then Some (n - 87)
           else if (65 <=? n) && (n <=? 90) then Some (n - 55)
           else None in
  v ← d; if v <? radix then Some v else None.

Definition read_given_char (target : ascii) : reader unit :=
  λ s, match s with
       | c :: s' => if Ascii.eqb c target then Some (tt, s') else None
       | [] => None
       end.

Definition read_separator {A} (sep : ascii) (index : nat) (inner : reader A) : reader A :=
  λ s, if (0 <? index)%nat
       then '(_, s) ← read_given_char sep s; inner s
       else inner s.

Fixpoint read_digits (radix : Z) (max_digits : nat) (acc : Z) (count : nat) (s : list ascii)
    : option (Z * nat * list ascii) :=
  match s with
  | [] => Some (acc, count, [])
  | c :: s' =>
      match to_digit radix c with
      | Some d =>
          if (max_digits <? count + 1)%nat then None
          else read_digits radix max_digits (acc * radix + d) (count + 1) s'
      | None => Some (acc, count, s)
      end
  end.

(** [limit] is the maximum of the integer type read. *)
Definition read_number (radix : Z) (max_digits : nat) (allow_zero_prefix : bool) (limit : Z)
    : reader Z :=
  λ s,
    let has_leading_zero :=
      match s with c :: _ => Ascii.eqb c "0"%char | [] => false end in
    '(acc, count, s') ← read_digits radix max_digits 0 0 s;
    if (count =? 0)%nat then None
    else if negb allow_zero_prefix && has_leading_zero && (1 <? count)%nat then None
    else if acc <=? limit then Some (acc, s') else None.

Fixpoint read_octets (n i : nat) (s : list ascii) : option (list Z * list ascii) :=
  match n with
  | O => Some ([], s)
  | S n' =>
      '(g, s) ← read_separator "."%char i (read_number 10 3 false 255) s;
      '(gs, s) ← read_octets n' (S i) s;
      Some (g :: gs, s)
  end.

Definition read_ipv4_addr : reader Z :=
  λ s, '(gs, s) ← read_octets 4 0 s; Some (from_be_digits 8 gs, s).

(** [read_groups] over the slots [i .. limit - 1], [n] of them left. *)
Fixpoint read_groups (limit n i : nat) (s : list ascii) : list Z * bool * list ascii :=
  match n with
  | O => ([], false, s)
  | S n' =>
      let v4 := if (i <? limit - 1)%nat
                then read_separator ":"%char i read_ipv4_addr s else None in
      match v4 with
      | Some (a, s) => (be_digits 16 2 a, true, s)
      | None =>
          match read_separator ":"%char i (read_number 16 4 true 65535) s with
          | Some (g, s) => let '(gs, b, s) := read_groups limit n' (S i) s in (g :: gs, b, s)
          | None => ([], false, s)
          end
      end
  end.

Definition read_ipv6_addr : reader Z :=
  λ s,
    let '(head, head_ipv4, s) := read_groups 8 8 0 s in
    if (length head =? 8)%nat then Some (from_be_digits 16 head, s)
    else if head_ipv4 then None
    else
      '(_, s) ← read_given_char ":"%char s;
      '(_, s) ← read_given_char ":"%char s;
      let limit := (8 - (length head + 1))%nat in
      let '(tail, _, s) := read_groups limit limit 0 s in
      let zeros := replicate (8 - length head - length tail) 0 in
      Some (from_be_digits 16 (head ++ zeros ++ tail), s).

Definition read_ip_addr : reader Stream.IpAddr :=
  λ s, match read_ipv4_addr s with
       | Some (a, s') => Some (Stream.IpV4 a, s')
       | None => '(a, s') ← read_ipv6_addr s; Some (Stream.IpV6 a, s')
       end.

(** [IpAddr::from_str]: the whole input must be consumed. *)
Definition from_str (s : string) : option Stream.IpAddr :=
  '(ip, rest) ← read_ip_addr (chars s);
  match rest with [] => Some ip | _ => None end.

Example from_str_v4 : from_str "1.2.3.4" = Some (Stream.IpV4 0x01020304).
Proof. vm_compute. reflexivity. Qed.
Example from_str_leading_zero : from_str "01.2.3.4" = None.
Proof. vm_compute. reflexivity. Qed.
Example from_str_big_octet : from_str "1.2.3.256" = None.
Proof. vm_compute. reflexivity. Qed.
Example from_str_v6 :
  from_str "1:2::A:255.255.0.1" =
    Some (Stream.IpV6 (from_be_digits 16 [1; 2; 0; 0; 0; 10; 65535; 1])).
Proof. vm_compute. reflexivity. Qed.

(** *** Lemmas *)

Lemma to_digit_range radix c d : to_digit radix c = Some d → 0 ≤ d < radix.
Proof.
  unfold to_digit. set (n := Z.of_N (N_of_ascii c)).
  destruct ((48 <=? n) && (n <=? 57)) eqn:E1; b2p; simpl;
    [|destruct ((97 <=? n) && (n <=? 122)) eqn:E2; b2p; simpl;
      [|destruct ((65 <=? n) && (n <=? 90)) eqn:E3; b2p; simpl; [|done]]];
    match goal with |- context [?v <? radix] => destruct (Z.ltb_spec v radix) end;
    try done; intros [= <-]; lia.
Qed.

Lemma read_digits_nonneg radix m acc count s acc' count' s' :
  0 ≤ acc → 0 ≤ radix → read_digits radix m acc count s = Some (acc', count', s') → 0 ≤ acc'.
Proof.
  intros Hacc Hr. revert acc count Hacc; induction s as [|c s IH]; intros acc count Hacc; simpl.
  - by intros [= <- _ _].
  - destruct (to_digit radix c) as [d|] eqn:Ed; [|by intros [= <- _ _]].
    apply to_digit_range in Ed. destruct (_ <? _)%nat; [done|]. apply IH. nia.
Qed.

Lemma read_number_range radix m z limit s v s' :
  0 ≤ radix → read_number radix m z limit s = Some (v, s') → 0 ≤ v ≤ limit.
Proof.
  intros Hr. unfold read_number. intros ([[acc count] s0] & Hd & H)%bind_Some.
  apply read_digits_nonneg in Hd; [|lia|done].
  destruct (_ =? _)%nat; [done|]. destruct (_ && _ && _); [done|].
  destruct (Z.leb_spec acc limit); [|done]. simplify_eq. lia.
Qed.

Lemma read_separator_inner {A} sep i (r : reader A) s x :
  read_separator sep i r s = Some x → ∃ s0, r s0 = Some x.
Proof.
  unfold read_separator. destruct (_ <? _)%nat; [|by exists s].
  intros ([[] s0] & _ & H)%bind_Some. by exists s0.
Qed.

Lemma read_octets_range n i s gs s' :
  read_octets n i s = Some (gs, s') → length gs = n ∧ Forall (λ d, 0 ≤ d < 2 ^ Z.of_nat 8) gs.
Proof.
  revert i s gs; induction n as [|n IH]; intros i s gs; simpl; [by intros [= <- _]|].
  intros ([g s0] & Hg & ([gs0 s1] & Hgs & H)%bind_Some)%bind_Some. simplify_eq.
  apply IH in Hgs as [Hl Hf]. apply read_separator_inner in Hg as (s2 & Hg).
  apply read_number_range in Hg; [|lia]. change (2 ^ Z.of_nat 8) with 256 in *.
  split; [simpl; lia|]. constructor; [lia|done].
Qed.

Lemma read_ipv4_range s a s' : read_ipv4_addr s = Some (a, s') → 0 ≤ a < 2 ^ 32.
Proof.
  unfold read_ipv4_addr. intros ([gs s0] & Hg & H)%bind_Some. simplify_eq.
  apply read_octets_range in Hg as [Hl Hf]. apply from_be_digits_range in Hf.
  by rewrite Hl in Hf.
Qed.

Lemma read_groups_range limit n i s gs b s' :
  read_groups limit n i s = (gs, b, s') → (i + n = limit)%nat →
  (length gs ≤ n)%nat ∧ Forall (λ d, 0 ≤ d < 2 ^ Z.of_nat 16) gs.
Proof.
  revert i s gs b s'; induction n as [|n IH]; intros i s gs b s'; cbn [read_groups].
  { intros [= <- _ _] _. split; [simpl; lia|constructor]. }
  set (v4 := if (i <? limit - 1)%nat then _ else _). destruct v4 as [[a s1]|] eqn:Ev4; unfold v4 in Ev4.
  - intros [= <- _ _] Hi. destruct (Nat.ltb_spec i (limit - 1)); [|done].
    rewrite length_be_digits. split; [lia|]. apply be_digits_range.
  - destruct (read_separator ":"%char i (read_number 16 4 true 65535) s) as [[g s1]|] eqn:Eg.
    + destruct (read_groups limit n (S i) s1) as [[gs1 b1] s2] eqn:Er. intros [= <- _ _] Hi.
      apply IH in Er as [Hl Hf]; [|lia]. apply read_separator_inner in Eg as (s3 & Hg).
      apply read_number_range in Hg; [|lia]. change (2 ^ Z.of_nat 16) with 65536 in *.
      split; [simpl; lia|]. constructor; [lia|done].
    + intros [= <- _ _] _. split; [simpl; lia|constructor].
Qed.

Lemma read_ipv6_range s a s' : read_ipv6_addr s = Some (a, s') → 0 ≤ a < 2 ^ 128.
Proof.
  unfold read_ipv6_addr. destruct (read_groups 8 8 0 s) as [[head b] s1] eqn:Eh.
  apply read_groups_range in Eh as [Hl Hf]; [|done].
  destruct (Nat.eqb_spec (length head) 8) as [Hh|Hh].
  { intros [= <- _]. apply from_be_digits_range in Hf. by rewrite Hh in Hf. }
  destruct b; [done|]. intros ([[] s2] & _ & ([[] s3] & _ & H)%bind_Some)%bind_Some.
  set (limit := (8 - (length head + 1))%nat) in *.
  destruct (read_groups limit limit 0 s3) as [[tail b2] s4] eqn:Et. simplify_eq.
  apply read_groups_range in Et as [Hl2 Hf2]; [|lia].
  assert (Forall (λ d, 0 ≤ d < 2 ^ Z.of_nat 16)
    (head ++ replicate (8 - length head - length tail) 0 ++ tail)) as Hall.
  { apply Forall_app. split; [done|]. apply Forall_app. split; [|done].
    apply Forall_replicate. change (2 ^ Z.of_nat 16) with 65536. lia. }
  apply from_be_digits_range in Hall. rewrite !length_app, length_replicate in Hall.
  by replace (length head + (8 - length head - length tail + length tail))%nat with 8%nat in Hall by lia.
Qed.

Lemma from_str_range s ip : from_str s = Some ip → Stream.addr_ok ip.
Proof.
  unfold from_str. intros ([ip0 rest] & Hr & H)%bind_Some.
  destruct rest; [|done]. simplify_eq. unfold read_ip_addr in Hr.
  destruct (read_ipv4_addr (chars s)) as [[a s1]|] eqn:E4.
  - simplify_eq. by apply read_ipv4_range in E4.
  - apply bind_Some in Hr as ([a s1] & E6 & Hr). simplify_eq. by apply read_ipv6_range in E6.
Qed.

End NetParser.

(** ** The parser *)
Module Csv.
Import Stream Serde.
Local Open Scope Z_scope.

(** The texts of [CountryBlock::try_from] and its helpers. *)
Inductive csv_error :=
| MissingIp                              (** Missing IP address in CSV record *)
| InvalidIp (s : string)                 (** Invalid (..) IP address in CSV record: '..' *)
| NoCountryCode                          (** CSV line contains no ISO 3166 country code *)
| WrongLength (len : nat)                (** CSV line should contain 3 elements, but contains .. *)
| EndBeforeStart (end_ start_ : IpAddr)  (** Ending address .. is less than starting address .. *)
| MixedVersions (start_ end_ : IpAddr)   (** .. must be the same IP address version *)
| UnknownCountry (e : Countries.country_error).

(** [local_errors]: the line number and what was wrong with the line. *)
Inductive line_error :=
| FormatError (line : nat) (e : string)  (** CSV format error: .. *)
| BlockError (line : nat) (e : csv_error).

(** The iterator over the fields of a record is the list of fields left. *)
Definition ip_addr_from_iter (iter : list string) : result csv_error (IpAddr * list string) :=
  match iter with
  | [] => Err MissingIp
  | ip_string :: iter' =>
      match NetParser.from_str ip_string with
      | None => Err (InvalidIp ip_string)
      | Some ip => Ok (ip, iter')
      end
  end.

Definition validate_ips_are_sequential (mk : Z → IpAddr) (start_ end_ : Z)
    : result csv_error unit :=
  if end_ <? start_ then Err (EndBeforeStart (mk end_) (mk start_)) else Ok tt.

Definition validate_ip_range (start_ip end_ip : IpAddr) : result csv_error unit :=
  match start_ip, end_ip with
  | IpV4 s, IpV4 e => validate_ips_are_sequential IpV4 s e
  | IpV6 s, IpV6 e => validate_ips_are_sequential IpV6 s e
  | s, e => Err (MixedVersions s e)
  end.

Definition lift {A} (r : result csv_error A) : run (result csv_error A) := Ret r.

Local Open Scope rust_scope.

Definition try_from (cs : Countries.Countries) (string_record : list string)
    : run (result csv_error CountryBlock) :=
  '(start_ip, iter) <-? lift (ip_addr_from_iter string_record);
  '(end_ip, iter) <-? lift (ip_addr_from_iter iter);
  match iter with
  | [] => Ret (Err NoCountryCode)
  | iso3166 :: iter =>
      match iter with
      | _ :: _ => Ret (Err (WrongLength (length string_record)))
      | [] =>
          _ <-? lift (validate_ip_range start_ip end_ip);
          r ← Countries.country_from_code cs iso3166;
          match r with
          | Err e => Ret (Err (UnknownCountry e))
          | Ok c =>
              match start_ip, end_ip with
              | IpV4 s, IpV4 e => Ret (Ok (MkBlock (V4 s e) c))
              | IpV6 s, IpV6 e => Ret (Ok (MkBlock (V6 s e) c))
              | _, _ => Panic
              end
          end
      end
  end.

(** The iterator chain of [parse]: a record is decoded and, when it is good,
    added to the serializer before the next one is looked at. *)
Fixpoint parse_records (cs : Countries.Countries) (idx : nat)
    (records : list (result string (list string))) (serializer : CountryBlockSerializer)
    : run (CountryBlockSerializer * list line_error) :=
  match records with
  | [] => Ret (serializer, [])
  | string_record_result :: records' =>
      r ← match string_record_result with
          | Ok string_record =>
              b ← try_from cs string_record;
              Ret (match b with Ok b => Ok b | Err e => Err (BlockError (idx + 1) e) end)
          | Err e => Ret (Err (FormatError (idx + 1) e))
          end;
      match r with
      | Ok country_block =>
          serializer ← add serializer country_block;
          parse_records cs (S idx) records' serializer
      | Err e =>
          '(serializer, errors) ← parse_records cs (S idx) records' serializer;
          Ret (serializer, e :: errors)
      end
  end.

(** [errors] is the caller's vector, extended at the end. *)
Definition parse (records : list (result string (list string))) (errors : list line_error)
    : run (list line_error * (FinalBitQueue * FinalBitQueue * Countries.Countries)) :=
  '(serializer, local_errors) ←
    parse_records Tables.HARD_CODED_COUNTRIES 0 records CountryBlockSerializer_new;
  '(final_ipv4, final_ipv6) ← finish serializer;
  Ret (errors ++ local_errors, (final_ipv4, final_ipv6, Tables.HARD_CODED_COUNTRIES)).

(** ** Lemmas *)

Definition same_version_ordered (start_ end_ : IpAddr) : Prop :=
  match start_, end_ with
  | IpV4 s, IpV4 e | IpV6 s, IpV6 e => s ≤ e
  | _, _ => False
  end.

Lemma validate_ip_range_ok s e :
  match validate_ip_range s e with
  | Ok _ => same_version_ordered s e
  | Err _ => ¬ same_version_ordered s e
  end.
Proof.
  destruct s as [s|s], e as [e|e]; simpl; try tauto; unfold validate_ips_are_sequential;
    destruct (Z.ltb_spec e s); simpl; lia.
Qed.

Lemma country_from_code_new ps code :
  ∃ r, Countries.country_from_code (Countries.new ps) code = Ret r ∧
    ∀ c, r = Ok c → Countries.iso3166 c = Countries.to_ascii_uppercase code ∧
      Countries.country_from_index (Countries.new ps) (Countries.index c) = Ok c.
Proof.
  unfold Countries.country_from_code.
  destruct (Countries.index_by_iso3166 (Countries.new ps) !! Countries.to_ascii_uppercase code)
    as [i|] eqn:E; [|by eexists].
  apply Countries.new_map_sound in E as (c & Hc & Hiso & <-).
  unfold Countries.country_from_index. rewrite Hc. cbn [expect_ok mbind run_bind].
  eexists. split; [done|]. intros c' [= <-]. split; [done|]. by rewrite Hc.
Qed.

(** A record the parser accepts: three fields, two ordered addresses of one
    version, and a known country. *)
Definition record_good (ps : list (string * string)) (r : list string) (b : CountryBlock) : Prop :=
  ∃ f1 f2 f3, r = [f1; f2; f3] ∧
    NetParser.from_str f1 = Some (start (ip_range b)) ∧
    NetParser.from_str f2 = Some (end_of (ip_range b)) ∧
    same_version_ordered (start (ip_range b)) (end_of (ip_range b)) ∧
    addr_ok (start (ip_range b)) ∧ addr_ok (end_of (ip_range b)) ∧
    Countries.country_from_code (Countries.new ps) f3 = Ret (Ok (country b)) ∧
    Countries.iso3166 (country b) = Countries.to_ascii_uppercase f3 ∧
    Countries.country_from_index (Countries.new ps) (Countries.index (country b)) = Ok (country b).

Lemma try_from_spec ps r :
  match try_from (Countries.new ps) r with
  | Panic => False
  | Ret (Ok b) => record_good ps r b
  | Ret (Err _) => ∀ b, ¬ record_good ps r b
  end.
Proof.
  unfold try_from, lift.
  destruct r as [|f1 r]; simpl; [by intros b (? & ? & ? & ? & _)|].
  destruct (NetParser.from_str f1) as [s|] eqn:E1; simpl;
    [|intros b (? & ? & ? & ? & ? & _); by simplify_eq].
  destruct r as [|f2 r]; simpl; [by intros b (? & ? & ? & ? & _)|].
  destruct (NetParser.from_str f2) as [e|] eqn:E2; simpl;
    [|intros b (? & ? & ? & ? & ? & ? & _); by simplify_eq].
  destruct r as [|f3 r]; simpl; [by intros b (? & ? & ? & ? & _)|].
  destruct r as [|f4 r]; simpl; [|by intros b (? & ? & ? & ? & _)].
  pose proof (validate_ip_range_ok s e) as Hv. destruct (validate_ip_range s e); simpl.
  2: { intros b (? & ? & ? & ? & ? & ? & ? & _). simplify_eq. congruence. }
  destruct (country_from_code_new ps f3) as (rc & Hrc & Hc). rewrite Hrc. simpl.
  destruct rc as [c|]; [|intros b (? & ? & ? & ? & ? & ? & ? & ? & ? & Hb & _); simplify_eq; congruence].
  destruct (Hc c eq_refl).
  pose proof (NetParser.from_str_range _ _ E1). pose proof (NetParser.from_str_range _ _ E2).
  destruct s as [s|s], e as [e|e]; simpl in Hv; try done;
    exists f1, f2, f3; split_and!; done.
Qed.

(** The results of decoding the records, and what becomes of them. *)
Definition decoded (cs : Countries.Countries) (idx : nat) (r : result string (list string))
    (d : result line_error CountryBlock) : Prop :=
  match r with
  | Err e => d = Err (FormatError (idx + 1) e)
  | Ok rec =>
      match try_from cs rec with
      | Ret (Ok b) => d = Ok b
      | Ret (Err e) => d = Err (BlockError (idx + 1) e)
      | Panic => False
      end
  end.

Definition goods (ds : list (result line_error CountryBlock)) : list CountryBlock :=
  omap (λ d, match d with Ok b => Some b | Err _ => None end) ds.

Definition bads (ds : list (result line_error CountryBlock)) : list line_error :=
  omap (λ d, match d with Ok _ => None | Err e => Some e end) ds.

Lemma parse_records_spec ps records idx st :
  ∃ ds, length ds = length records ∧
    (∀ i r d, records !! i = Some r → ds !! i = Some d → decoded (Countries.new ps) (idx + i) r d) ∧
    parse_records (Countries.new ps) idx records st =
      (st' ← add_all st (goods ds); Ret (st', bads ds)).
Proof.
  revert idx st; induction records as [|r records IH]; intros idx st.
  { exists []. by repeat split. }
  assert (∃ d, decoded (Countries.new ps) idx r d) as [d Hd].
  { unfold decoded. destruct r as [rec|e]; [|by eexists].
    pose proof (try_from_spec ps rec). destruct (try_from _ rec) as [[b|e]|]; [by eexists..|done]. }
  assert (∀ st, ∃ ds, length ds = length (r :: records) ∧
    (∀ i r0 d, (r :: records) !! i = Some r0 → ds !! i = Some d → decoded (Countries.new ps) (idx + i) r0 d) ∧
    ∃ ds', ds = d :: ds' ∧ parse_records (Countries.new ps) (S idx) records st =
      (st' ← add_all st (goods ds'); Ret (st', bads ds'))) as Hrest.
  { intros st0. destruct (IH (S idx) st0) as (ds' & Hl & Hds & Hp). exists (d :: ds').
    split; [simpl; lia|]. split; [|by exists ds'].
    intros [|i] r0 d0; simpl; [intros; simplify_eq; by rewrite Nat.add_0_r|].
    intros Hr Hd0. replace (idx + S i)%nat with (S idx + i)%nat by lia. by apply Hds. }
  destruct d as [b|e].
  - destruct (add st b) as [st1|] eqn:Ea.
    + destruct (Hrest st1) as (ds & Hl & Hds & ds' & -> & Hp). exists (Ok b :: ds').
      split; [done|]. split; [done|]. cbn [parse_records goods bads omap list_omap add_all].
      unfold decoded in Hd. destruct r as [rec|e]; [|done].
      destruct (try_from (Countries.new ps) rec) as [[b'|]|]; [|done..]. simplify_eq.
      cbn [mbind run_bind]. rewrite Ea. cbn [mbind run_bind]. exact Hp.
    + destruct (Hrest st) as (ds & Hl & Hds & ds' & -> & Hp). exists (Ok b :: ds').
      split; [done|]. split; [done|]. cbn [parse_records goods bads omap list_omap add_all].
      unfold decoded in Hd. destruct r as [rec|e]; [|done].
      destruct (try_from (Countries.new ps) rec) as [[b'|]|]; [|done..]. simplify_eq.
      cbn [mbind run_bind]. by rewrite Ea.
  - destruct (Hrest st) as (ds & Hl & Hds & ds' & -> & Hp). exists (Err e :: ds').
    split; [done|]. split; [done|]. cbn [parse_records].
    change (goods (Err e :: ds')) with (goods ds'). change (bads (Err e :: ds')) with (e :: bads ds').
    unfold decoded in Hd.
    destruct r as [rec|e'];
      [destruct (try_from (Countries.new ps) rec) as [[b'|]|]; [done| |done]|]; simplify_eq;
      cbn [mbind run_bind]; rewrite Hp; by destruct (add_all st (goods ds')).
Qed.

(** ** Properties *)

(** A CSV line is accepted exactly when it has three fields, its two
    addresses parse, have the same version and are in order, and its country
    code is known; the block built holds those addresses and the country with
    that code, whose index leads back to it.  No line makes the decoder panic:
    the branch for mixed address versions is dead. *)
Lemma csv_line_accepted (ps : list (string * string)) (r : list string) :
  (∃ b, try_from (Countries.new ps) r = Ret (Ok b) ∧ record_good ps r b) ∨
  (∃ e, try_from (Countries.new ps) r = Ret (Err e) ∧ ∀ b, ¬ record_good ps r b).
Proof.
  pose proof (try_from_spec ps r) as H.
  destruct (try_from (Countries.new ps) r) as [[b|e]|]; [left|right|done]; by eexists.
Qed.

(** The streaming parser is decode-then-serialize.  Although records are
    decoded and added one by one, parsing any sequence of records gives the
    queues of serializing the good blocks in order, and appends to the
    caller's errors one entry per bad record, in order and with its line
    number. *)
Lemma csv_parse_refines (records : list (result string (list string))) (errors : list line_error) :
  ∃ ds, length ds = length records ∧
    (∀ i r d, records !! i = Some r → ds !! i = Some d →
       decoded Tables.HARD_CODED_COUNTRIES i r d) ∧
    parse records errors =
      (st ← add_all CountryBlockSerializer_new (goods ds);
       '(f4, f6) ← finish st;
       Ret (errors ++ bads ds, (f4, f6, Tables.HARD_CODED_COUNTRIES))).
Proof.
  unfold parse. destruct (Tables.hard_coded_pairs) as [ps ->].
  destruct (parse_records_spec ps records 0 CountryBlockSerializer_new) as (ds & Hl & Hds & Hp).
  exists ds. split; [done|]. split; [done|]. rewrite Hp. by destruct (add_all CountryBlockSerializer_new (goods ds)).
Qed.

End Csv.
