(* ===== verification/DbipCountry.v ===== *)
(** * The shipped country tables

    Theorems about the constants of [CountryData.v]: the table of countries of
    [ip_country/src/ip_country_csv.rs] and the generated file
    [ip_country/src/dbip_country.rs] that the Node links in. *)
From S2P Require Import Prelude.
From S2P Require Import BitQueue.
From S2P Require Import Countries.
From S2P Require Import CountryBlockStream.
From S2P Require Import CountryBlockSerde.
From S2P Require Import CountryFinder.
From S2P Require Import IpCountry.
From S2P Require Import CountryData.
From Stdlib Require Import String.
From stdpp Require Import base list strings.

Module Dbip.
Import Stream Serde.
Local Open Scope Z_scope.

(** [lazy_static! COUNTRY_CODE_FINDER] of [country_finder.rs]. *)
Definition COUNTRY_CODE_FINDER : run Finder.CountryCodeFinder :=
  Finder.finder_new Tables.COUNTRIES Tables.ipv4_country_data Tables.ipv6_country_data.

(** The blocks behind the shipped data. *)
Definition shipped_v4 : list (Z * Z * nat) :=
  [(0x01020304, 0x01020305, 1%nat); (0x01020306, 0x06070809, 2%nat);
   (0x0A0B0C0D, 0x0B0B0C0D, 3%nat)].

Definition shipped_v6 : list (Z * Z * nat) :=
  [(0x00010002000300040005000600070008, 0x00010002000300040005000600070009, 1%nat);
   (0x0001000200030004000500060007000A, 0x000B000C000D000E000F001000110012, 2%nat);
   (0x0013001400150016001700180019001A, 0x0014001400150016001700180019001A, 3%nat)].

(** Every code of a table is two upper-case letters and leads back to its own
    entry, and the table is small enough for nine-bit indexes. *)
Definition upper_letter (c : Ascii.ascii) : bool :=
  (65 <=? Ascii.N_of_ascii c)%N && (Ascii.N_of_ascii c <=? 90)%N.

Definition code_ok (s : string) : bool :=
  match s with
  | String a (String b EmptyString) => upper_letter a && upper_letter b
  | _ => false
  end.

Definition table_ok (cs : Countries.Countries) : bool :=
  (Countries.len cs <? 512)%nat &&
  forallb (λ c, code_ok (Countries.iso3166 c) &&
    match Countries.country_from_code cs (Countries.iso3166 c) with
    | Ret (Ok c') => bool_decide (c' = c)
    | _ => false
    end) (Countries.countries cs).

(** ** The parts of the shipped data, each evaluated once *)

Lemma COUNTRIES_new : ∃ ps, Tables.COUNTRIES = Countries.new ps.
Proof. eexists. unfold Tables.COUNTRIES. exact eq_refl. Qed.

Lemma shipped_v4_words :
  Tables.ipv4_country_data =
    (IpCountry.block_words (enc Ipv4 (ip_max Ipv4 - 1) (fill Ipv4 0 shipped_v4)),
     length (enc Ipv4 (ip_max Ipv4 - 1) (fill Ipv4 0 shipped_v4))).
Proof. vm_compute; reflexivity. Qed.

Lemma shipped_v6_words :
  Tables.ipv6_country_data =
    (IpCountry.block_words (enc Ipv6 (ip_max Ipv6 - 1) (fill Ipv6 0 shipped_v6)),
     length (enc Ipv6 (ip_max Ipv6 - 1) (fill Ipv6 0 shipped_v6))).
Proof. vm_compute; reflexivity. Qed.

Lemma shipped_blocks_ok :
  blocks_ok Ipv4 0 shipped_v4 = true ∧ blocks_ok Ipv6 0 shipped_v6 = true ∧
  Finder.indexes_ok Tables.COUNTRIES shipped_v4 = true ∧
  Finder.indexes_ok Tables.COUNTRIES shipped_v6 = true.
Proof. repeat split; vm_compute; reflexivity. Qed.

(** ** Properties *)

(** The shipped tables are what the generator writes.  The words, bit
    counts and block counts of the generated file are exactly those printed for
    the serialization of three blocks per version, so the static finder is
    built without panic and answers every address with the country of the
    block that contains it. *)
Lemma shipped_tables_correct :
  Tables.ipv4_country_data =
    (IpCountry.block_words (enc Ipv4 (ip_max Ipv4 - 1) (fill Ipv4 0 shipped_v4)),
     length (enc Ipv4 (ip_max Ipv4 - 1) (fill Ipv4 0 shipped_v4))) ∧
  Tables.ipv6_country_data =
    (IpCountry.block_words (enc Ipv6 (ip_max Ipv6 - 1) (fill Ipv6 0 shipped_v6)),
     length (enc Ipv6 (ip_max Ipv6 - 1) (fill Ipv6 0 shipped_v6))) ∧
  Tables.ipv4_country_block_count = length (fill Ipv4 0 shipped_v4) ∧
  Tables.ipv6_country_block_count = length (fill Ipv6 0 shipped_v6) ∧
  ∃ fd, COUNTRY_CODE_FINDER = Ret fd ∧
    ∀ ip, addr_ok ip → Finder.find_country fd ip =
      Ret (match ip with
           | IpV4 a => Finder.country_lookup Tables.COUNTRIES shipped_v4 a
           | IpV6 a => Finder.country_lookup Tables.COUNTRIES shipped_v6 a
           end).
Proof.
  split; [exact shipped_v4_words|]. split; [exact shipped_v6_words|].
  split; [vm_compute; reflexivity|]. split; [vm_compute; reflexivity|].
  unfold COUNTRY_CODE_FINDER. rewrite shipped_v4_words, shipped_v6_words.
  destruct shipped_blocks_ok as (H4 & H6 & Hi4 & Hi6), COUNTRIES_new as [ps Hps].
  rewrite Hps in *. clear Hps.
  refine (Finder.finder_spec ps shipped_v4 shipped_v6 _ _ _ H4 Hi4 _ H6 Hi6 _ _);
    [discriminate|discriminate|apply IpCountry.block_words_rep|apply IpCountry.block_words_rep].
Qed.

(** The tests [real_test_ipv4_with_google] and [real_test_ipv4_with_cz_ip] look two addresses up and expect the United
    States and Czechia; both codes are in the table of countries, so that the tests do run, and there is no block for the
    addresses. *)
Example shipped_tables_lack_tested_addresses :
  (∀ code, code ∈ ["US"; "CZ"]%string → ∃ c, Countries.country_from_code Tables.COUNTRIES code = Ret (Ok c)) ∧
  ∃ fd, COUNTRY_CODE_FINDER = Ret fd ∧
    Finder.find_country fd (IpV4 0x8EFABF84) = Ret None ∧ Finder.find_country fd (IpV4 0x4D4B4DDE) = Ret None.
Proof.
  split.
  - intros code Hin. repeat (apply elem_of_cons in Hin as [->|Hin]; [eexists; vm_compute; reflexivity|]). by apply elem_of_nil in Hin.
  - destruct shipped_tables_correct as (_ & _ & _ & _ & fd & Hfd & Hfind). exists fd. split; [done|].
    rewrite !Hfind by (cbn; lia). split; vm_compute; reflexivity.
Qed.

(** The country tables are well formed.  In the hard-coded table of the
    CSV parser and in the shipped one, every code is two upper-case letters,
    looking a code up returns its own entry, and all indexes fit the nine bits
    of the format. *)
Lemma country_tables_ok :
  table_ok Tables.HARD_CODED_COUNTRIES = true ∧ table_ok Tables.COUNTRIES = true ∧
  Countries.countries Tables.HARD_CODED_COUNTRIES = Countries.countries Tables.COUNTRIES.
Proof. split; [|split]; vm_compute; reflexivity. Qed.

End Dbip.
