(* ===== verification/IpCountryMmdb.v ===== *)
(** * The MaxMind database parser

    Models [ip_country/src/ip_country_mmdb.rs]: the second implementation of
    [DBIPParser].  The crates [maxminddb] and [ipnetwork] are parameters: how
    bytes are opened as a database, the sequence of items that its [within]
    iterator yields, and the first and last address of a network.
    [HashSet<(String, String)>] is a [gset]; the order in which it is drained is
    a parameter too. *)
From S2P Require Import Prelude.
From S2P Require Import Countries.
From S2P Require Import CountryBlockStream.
From S2P Require Import CountryBlockSerde.
From Stdlib Require Import String.
From stdpp Require Import base list strings gmap.

Module Mmdb.
Import Stream Serde.
Local Open Scope Z_scope.

(** ** Data *)

(** [maxminddb::geoip2]: the part of a [City] the parser reads. *)
Record geo_country := MkGeo {
  iso_code : option string;
  names : option (gmap string string)
}.

Inductive IpNetwork (N4 N6 : Type) :=
| NetV4 (ipn : N4)
| NetV6 (ipn : N6).
Arguments NetV4 {N4 N6} ipn.
Arguments NetV6 {N4 N6} ipn.

Record item (N4 N6 : Type) := MkItem {
  ip_net : IpNetwork N4 N6;
  info_country : option geo_country
}.
Arguments MkItem {N4 N6} ip_net info_country.
Arguments ip_net {N4 N6} i.
Arguments info_country {N4 N6} i.

Inductive mmdb_error (E N4 N6 : Type) :=
| ReadingStdin (e : E)
| OpeningDb (e : E)
| CreatingWithin (e : E)
| ProcessingItem (e : E)
| CodeWithoutName (code : string)
| NameWithoutCode (name : string)
| NoCodeNoName (net : IpNetwork N4 N6)
| NoCountryInfo (net : IpNetwork N4 N6)
| FindingCountry (code : string) (range : IpRange) (e : Countries.country_error).
Arguments ReadingStdin {E N4 N6}.
Arguments OpeningDb {E N4 N6}.
Arguments CreatingWithin {E N4 N6}.
Arguments ProcessingItem {E N4 N6}.
Arguments CodeWithoutName {E N4 N6}.
Arguments NameWithoutCode {E N4 N6}.
Arguments NoCodeNoName {E N4 N6}.
Arguments NoCountryInfo {E N4 N6}.
Arguments FindingCountry {E N4 N6}.

(** ** Operations *)

(** The closure [add_or_coalesce] of [extract_data]. *)
Definition add_or_coalesce (coded_ranges : list (string * IpRange))
    (cur_code : string) (cur_range : IpRange) : run (list (string * IpRange)) :=
  new_range_opt ←
    match last coded_ranges with
    | None => Ret None
    | Some (last_code, last_range) =>
        if String.eqb last_code cur_code then
          consecutive ← are_consecutive (end_of last_range) (start cur_range);
          if (consecutive : bool) then
            r ← range_new (start last_range) (end_of cur_range); Ret (Some r)
          else Ret None
        else Ret None
    end;
  match new_range_opt with
  | Some new_range => Ret (removelast coded_ranges ++ [(cur_code, new_range)])
  | None => Ret (coded_ranges ++ [(cur_code, cur_range)])
  end.

Section parser.
Context {E N4 N6 : Type}.
Context (network4 broadcast4 : N4 → Z) (network6 broadcast6 : N6 → Z).

Definition ipn_to_range (ipn : IpNetwork N4 N6) : IpRange :=
  match ipn with
  | NetV4 ipn => V4 (network4 ipn) (broadcast4 ipn)
  | NetV6 ipn => V6 (network6 ipn) (broadcast6 ipn)
  end.

(** What one item contributes: its code, the pair recorded and the complaint. *)
Definition classify (it : item N4 N6)
    : string * (string * string) * list (mmdb_error E N4 N6) :=
  match info_country it with
  | Some country =>
      match iso_code country, option_map (λ ns : gmap string string, ns !! "en"%string) (names country) with
      | Some code, Some (Some name) => (code, (code, name), [])
      | Some code, _ => (code, (code, "Unknown"%string), [CodeWithoutName code])
      | None, Some (Some name) =>
          ("ZZ"%string, ("ZZ"%string, "Sentinel"%string), [NameWithoutCode name])
      | None, _ =>
          ("ZZ"%string, ("ZZ"%string, "Sentinel"%string), [NoCodeNoName (ip_net it)])
      end
  | None => ("ZZ"%string, ("ZZ"%string, "Sentinel"%string), [NoCountryInfo (ip_net it)])
  end.

Fixpoint extract_data (within : list (result E (item N4 N6)))
    (coded_ranges : list (string * IpRange)) (country_pairs : gset (string * string))
    (errors : list (mmdb_error E N4 N6))
    : run (list (string * IpRange) * gset (string * string) * list (mmdb_error E N4 N6)) :=
  match within with
  | [] => Ret (coded_ranges, country_pairs, errors)
  | Ok it :: within' =>
      let ip_range := ipn_to_range (ip_net it) in
      let '(code, code_and_name, complaints) := classify it in
      coded_ranges ← add_or_coalesce coded_ranges code ip_range;
      extract_data within' coded_ranges ({[ code_and_name ]} ∪ country_pairs) (errors ++ complaints)
  | Err e :: within' =>
      extract_data within' coded_ranges country_pairs (errors ++ [ProcessingItem e])
  end.

(** The closure [make_country_blocks] of [parse]. *)
Fixpoint make_country_blocks (countries : Countries.Countries)
    (ranges : list (string * IpRange)) (errors : list (mmdb_error E N4 N6))
    : run (list CountryBlock * list (mmdb_error E N4 N6)) :=
  match ranges with
  | [] => Ret ([], errors)
  | (code, ip_range) :: ranges' =>
      r ← Countries.country_from_code countries code;
      let '(block, errors) :=
        match r with
        | Ok country => (MkBlock ip_range country, errors)
        | Err e => (MkBlock ip_range (Countries.MkCountry 0 "ZZ" "Unknown"),
                    errors ++ [FindingCountry code ip_range e])
        end in
      '(blocks, errors) ← make_country_blocks countries ranges' errors;
      Ret (block :: blocks, errors)
  end.

Section toplevel.
(** [Reader::from_source], [reader.within(::/0)] and [country_pairs.into_iter()]. *)
Context {R : Type} (from_source : list Z → result E R)
  (within : R → result E (list (result E (item N4 N6))))
  (into_iter : gset (string * string) → list (string * string)).

(** [stdin] is what [read_to_end] leaves in the buffer and the error it ends
    with, if any. *)
Definition parse (stdin : list Z * option E) (errors : list (mmdb_error E N4 N6))
    : run (list (mmdb_error E N4 N6) * (FinalBitQueue * FinalBitQueue * Countries.Countries)) :=
  let '(bytes, outcome) := stdin in
  let errors := match outcome with None => errors | Some e => errors ++ [ReadingStdin e] end in
  match from_source bytes with
  | Err e =>
      Ret (errors ++ [OpeningDb e],
           (FinalBitQueue_default, FinalBitQueue_default, Countries.new []))
  | Ok reader =>
      '(ip_ranges, country_pairs, errors) ←
        match within reader with
        | Ok w => extract_data w [] ∅ errors
        | Err e => Ret ([], ∅, errors ++ [CreatingWithin e])
        end;
      let countries := Countries.new (into_iter country_pairs) in
      '(country_blocks, errors) ← make_country_blocks countries ip_ranges errors;
      serializer ← add_all CountryBlockSerializer_new country_blocks;
      '(ipv4_bit_queue, ipv6_bit_queue) ← finish serializer;
      Ret (errors, (ipv4_bit_queue, ipv6_bit_queue, countries))
  end.
End toplevel.
End parser.

(** ** Specifications *)

(** An entry pair on which [are_consecutive] panics, and one it merges. *)
Definition clash (a b : string * IpRange) : bool :=
  String.eqb a.1 b.1 &&
  match end_of a.2, start b.2 with
  | IpV4 f, IpV4 _ => 2 ^ 32 - 1 <=? f
  | IpV6 f, IpV6 _ => 2 ^ 128 - 1 <=? f
  | _, _ => true
  end.

Definition mergeable (a b : string * IpRange) : bool :=
  String.eqb a.1 b.1 &&
  match end_of a.2, start b.2 with
  | IpV4 f, IpV4 s | IpV6 f, IpV6 s => s =? f + 1
  | _, _ => false
  end.

(** Some two neighbours of the list are related. *)
Fixpoint neighbours (p : string * IpRange → string * IpRange → bool)
    (l : list (string * IpRange)) : bool :=
  match l with
  | a :: l' => match l' with b :: _ => p a b | [] => false end || neighbours p l'
  | [] => false
  end.

Definition covers (l : list (string * IpRange)) (code : string) (ip : IpAddr) : bool :=
  existsb (λ x, String.eqb x.1 code && contains x.2 ip) l.

Definition range_wf (r : IpRange) : bool :=
  match r with V4 s e | V6 s e => s <=? e end.

Definition entries_wf (l : list (string * IpRange)) : bool := forallb (λ x, range_wf x.2) l.

Fixpoint coalesce_all (crs l : list (string * IpRange)) : run (list (string * IpRange)) :=
  match l with
  | [] => Ret crs
  | (code, r) :: l' => crs ← add_or_coalesce crs code r; coalesce_all crs l'
  end.

(** ** Lemmas *)

Lemma covers_app l k code ip : covers (l ++ k) code ip = covers l code ip || covers k code ip.
Proof. apply existsb_app. Qed.

Lemma neighbours_snoc p l a b :
  neighbours p (l ++ [a; b]) = neighbours p (l ++ [a]) || p a b.
Proof.
  induction l as [|x l IH]; simpl; [by rewrite !orb_false_r|]. rewrite IH.
  destruct l; simpl; by rewrite ?orb_assoc, ?orb_false_r.
Qed.

Lemma neighbours_hd p a a' l :
  (∀ b, p a b = p a' b) → neighbours p (a :: l) = neighbours p (a' :: l).
Proof. intros Hp. simpl. destruct l; [done|]. by rewrite Hp. Qed.

Lemma neighbours_snoc_ext p l a a' :
  (∀ b, p b a = p b a') → neighbours p (l ++ [a]) = neighbours p (l ++ [a']).
Proof.
  intros Hp. destruct l as [|x l _] using rev_ind; [done|].
  rewrite <- !app_assoc. simpl. by rewrite !neighbours_snoc, Hp.
Qed.

Lemma succ_checked_spec w e :
  succ_checked w e = if 2 ^ w - 1 <=? e then Panic else Ret (e + 1).
Proof.
  unfold succ_checked.
  destruct (Z.ltb_spec (e + 1) (2 ^ w)), (Z.leb_spec (2 ^ w - 1) e); done || lia.
Qed.

(** One step, on a list that ends with [a]: the panic, the merge, the append. *)
Lemma add_or_coalesce_snoc l a code r :
  add_or_coalesce (l ++ [a]) code r =
    if clash a (code, r) then Panic
    else if mergeable a (code, r) then
      r' ← range_new (start a.2) (end_of r); Ret (l ++ [(code, r')])
    else Ret (l ++ [a; (code, r)]).
Proof.
  destruct a as [c ra]. unfold add_or_coalesce, clash, mergeable. rewrite last_snoc. simpl.
  destruct (String.eqb c code); simpl; [|by rewrite <- app_assoc].
  destruct ra as [s e|s e], r as [s' e'|s' e']; cbn [end_of start are_consecutive]; try done;
    rewrite succ_checked_spec; destruct (_ <=? e); cbn [mbind run_bind]; try done;
    destruct (s' =? e + 1); cbn [mbind run_bind range_new];
    rewrite ?removelast_snoc, <- ?app_assoc; done.
Qed.

(** Merging replaces an entry and its successor by one with the same first
    address, last address and members. *)
Lemma merge_spec a code r :
  mergeable a (code, r) = true → range_wf a.2 = true → range_wf r = true →
  ∃ r', range_new (start a.2) (end_of r) = Ret r' ∧ range_wf r' = true ∧
    start r' = start a.2 ∧ end_of r' = end_of r ∧ a.1 = code ∧
    ∀ ip, contains r' ip = contains a.2 ip || contains r ip.
Proof.
  destruct a as [c ra]. unfold mergeable. simpl. intros H Ha Hr. b2p.
  apply String.eqb_eq in H as ->.
  destruct ra as [s e|s e], r as [s' e'|s' e']; simpl in *; try done; b2p; subst;
    (eexists; split; [done|]; repeat split; [simpl; apply Z.leb_le; lia|]);
    intros [x|x]; simpl; try done; apply eq_bool_prop_intro;
    rewrite !orb_True, !Is_true_true, !contains_inner_spec; lia.
Qed.

Lemma coalesce_all_spec l crs a :
  entries_wf l = true → entries_wf (crs ++ [a]) = true →
  match coalesce_all (crs ++ [a]) l with
  | Panic => neighbours clash (a :: l) = true
  | Ret crs' =>
      neighbours clash (a :: l) = false ∧
      (∀ code ip, covers crs' code ip = covers (crs ++ a :: l) code ip) ∧
      (neighbours mergeable (crs ++ [a]) = false → neighbours mergeable crs' = false)
  end.
Proof.
  revert crs a; induction l as [|[code r] l IH]; intros crs a Hl Hc; [done|].
  cbn [coalesce_all]. rewrite add_or_coalesce_snoc. unfold entries_wf in Hl. simpl in Hl. b2p.
  pose proof Hc as Hc'. unfold entries_wf in Hc'. rewrite forallb_app in Hc'. simpl in Hc'. b2p.
  cbn [neighbours]. destruct (clash a (code, r)) eqn:Eclash; [done|]. cbn [orb].
  destruct (mergeable a (code, r)) eqn:Em.
  - destruct (merge_spec a code r) as (r' & -> & Hwf & Hs & He & Hcode & Hin); [done..|].
    cbn [mbind run_bind]. specialize (IH crs (code, r')).
    rewrite (neighbours_hd clash (code, r') (code, r)) in IH
      by (intros b; unfold clash; simpl; by rewrite He).
    rewrite (neighbours_snoc_ext mergeable crs (code, r') a) in IH
      by (intros b; unfold mergeable; simpl; by rewrite Hs, Hcode).
    assert (entries_wf (crs ++ [(code, r')]) = true) as Hc1.
    { unfold entries_wf. rewrite forallb_app. simpl. by rewrite H1, Hwf. }
    specialize (IH H0 Hc1). destruct (coalesce_all _ l) as [crs'|]; [|done].
    destruct IH as (IH1 & IH2 & IH3). repeat split; [done| |done].
    intros code' ip. rewrite IH2, !covers_app. f_equal. cbn [covers existsb fst snd].
    rewrite Hin, Hcode. destruct (String.eqb code code'); simpl; [by rewrite orb_assoc|done].
  - cbn [mbind run_bind]. replace (crs ++ [a; (code, r)]) with ((crs ++ [a]) ++ [(code, r)])
      by by rewrite <- app_assoc.
    specialize (IH (crs ++ [a]) (code, r)).
    assert (entries_wf ((crs ++ [a]) ++ [(code, r)]) = true) as Hc1.
    { unfold entries_wf. rewrite forallb_app. fold (entries_wf (crs ++ [a])). rewrite Hc. simpl. by rewrite H. }
    specialize (IH H0 Hc1). destruct (coalesce_all _ l) as [crs'|]; [|done].
    destruct IH as (IH1 & IH2 & IH3). repeat split; [done| |].
    + intros code' ip. by rewrite IH2, <- app_assoc.
    + intros Hn. apply IH3. rewrite <- app_assoc. simpl. by rewrite neighbours_snoc, Hn, Em.
Qed.

Lemma coalesce_spec l :
  entries_wf l = true →
  match coalesce_all [] l with
  | Panic => neighbours clash l = true
  | Ret crs => neighbours clash l = false ∧
      (∀ code ip, covers crs code ip = covers l code ip) ∧ neighbours mergeable crs = false
  end.
Proof.
  intros Hl. destruct l as [|[code r] l]; [done|]. pose proof Hl as Hl'. simpl in Hl. b2p.
  pose proof (coalesce_all_spec l [] (code, r)) as Hs. cbn [coalesce_all].
  unfold add_or_coalesce. cbn [last mbind run_bind app]. simpl in Hs.
  rewrite H in Hs. specialize (Hs H0 eq_refl).
  destruct (coalesce_all [(code, r)] l) as [crs|]; [|done].
  destruct Hs as (H1 & H2 & H3). split; [done|]. split; [done|]. by apply H3.
Qed.

Section extract.
Context {E N4 N6 : Type}.
Context (network4 broadcast4 : N4 → Z) (network6 broadcast6 : N6 → Z).
Local Abbreviation to_range := (ipn_to_range network4 broadcast4 network6 broadcast6).
Local Abbreviation extract := (extract_data network4 broadcast4 network6 broadcast6).
Implicit Types ws : list (result E (item N4 N6)).

(** The coded ranges before coalescing, the pairs and the complaints. *)
Definition raw_ranges ws : list (string * IpRange) :=
  omap (λ w, match w with
             | Ok it => Some (((classify (E:=E) it).1).1, to_range (ip_net it))
             | Err _ => None
             end) ws.

Definition raw_pairs ws : list (string * string) :=
  omap (λ w, match w with Ok it => Some (((classify (E:=E) it).1).2) | Err _ => None end) ws.

Definition raw_errors ws : list (mmdb_error E N4 N6) :=
  ws ≫= λ w, match w with Ok it => (classify it).2 | Err e => [ProcessingItem e] end.

Lemma extract_data_fold ws crs ps errs :
  extract ws crs ps errs =
    (crs' ← coalesce_all crs (raw_ranges ws);
     Ret (crs', list_to_set (raw_pairs ws) ∪ ps, errs ++ raw_errors ws)).
Proof.
  revert crs ps errs; induction ws as [|[it|e] ws IH]; intros crs ps errs.
  - cbn. by rewrite app_nil_r, (left_id_L ∅ (∪)).
  - cbn [extract_data].
    change (raw_ranges (Ok it :: ws))
      with (((classify (E:=E) it).1.1, to_range (ip_net it)) :: raw_ranges ws).
    change (raw_pairs (Ok it :: ws)) with ((classify (E:=E) it).1.2 :: raw_pairs ws).
    change (raw_errors (Ok it :: ws)) with ((classify it).2 ++ raw_errors ws).
    destruct (classify it) as [[code p] complaints]. cbn [fst snd coalesce_all list_to_set].
    destruct (add_or_coalesce crs code (to_range (ip_net it))) as [crs1|]; [|done].
    cbn [mbind run_bind]. rewrite IH. destruct (coalesce_all crs1 (raw_ranges ws)) as [crs2|]; [|done].
    cbn [mbind run_bind]. rewrite <- app_assoc. do 3 f_equal. set_solver.
  - cbn [extract_data]. rewrite IH.
    change (raw_ranges (Err e :: ws)) with (raw_ranges ws).
    change (raw_pairs (Err e :: ws)) with (raw_pairs ws).
    change (raw_errors (Err e :: ws)) with (ProcessingItem e :: raw_errors ws).
    by rewrite <- app_assoc.
Qed.

End extract.


(** ** Resolving the codes *)

(** A block built for a coded range of the extraction. *)
Definition resolved (cs : Countries.Countries) (x : string * IpRange) (b : CountryBlock) : Prop :=
  ip_range b = x.2 ∧ Countries.iso3166 (country b) = x.1 ∧
  Countries.country_from_index cs (Countries.index (country b)) = Ok (country b).

Lemma make_country_blocks_resolved {E N4 N6} ps (l : list (string * IpRange))
    (errs : list (mmdb_error E N4 N6)) :
  (∀ x, x ∈ l → Countries.to_ascii_uppercase x.1 = x.1 ∧ (x.1 = "ZZ"%string ∨ x.1 ∈ ps.*1)) →
  ∃ blocks, make_country_blocks (Countries.new ps) l errs = Ret (blocks, errs) ∧
    Forall2 (resolved (Countries.new ps)) l blocks.
Proof.
  induction l as [|[code r] l IH]; intros Hl; [by exists []|].
  destruct IH as (blocks & Hb & Hf); [intros x Hx; apply Hl; by right|].
  destruct (Hl (code, r)) as [Hup Hin]; [left|]. simpl in Hup, Hin. cbn [make_country_blocks].
  destruct (Countries.country_from_code_cases ps code) as [(c & -> & Hiso & Hidx)|(_ & Hz & Hn)];
    [|rewrite Hup in *; by destruct Hin].
  cbn [mbind run_bind]. rewrite Hb. cbn [mbind run_bind].
  eexists. split; [done|]. constructor; [|done]. split; [done|]. simpl. by rewrite <- Hup.
Qed.

Lemma add_or_coalesce_codes crs code r crs' x :
  add_or_coalesce crs code r = Ret crs' → x ∈ crs' → x.1 = code ∨ x ∈ crs.
Proof.
  destruct crs as [|a crs _] using rev_ind.
  - intros [= <-] [->|Hx]%elem_of_cons; [by left|by apply elem_of_nil in Hx].
  - rewrite add_or_coalesce_snoc. destruct (clash _ _); [done|].
    destruct (mergeable _ _); [intros (r' & _ & [= <-])%run_bind_ret|intros [= <-]];
      rewrite ?elem_of_app, !elem_of_cons, ?elem_of_nil; naive_solver.
Qed.

Lemma coalesce_all_codes l crs crs' x :
  coalesce_all crs l = Ret crs' → x ∈ crs' → x.1 ∈ l.*1 ∨ x ∈ crs.
Proof.
  revert crs; induction l as [|[code r] l IH]; intros crs H Hx; [injection H as <-; by right|].
  cbn [coalesce_all] in H. apply run_bind_ret in H as (crs1 & H1 & H2).
  destruct (IH _ H2 Hx) as [?|Hin]; [left; by right|].
  destruct (add_or_coalesce_codes _ _ _ _ _ H1 Hin) as [->|]; [left; left|by right].
Qed.

Section properties.
Context {E N4 N6 : Type}.
Context (network4 broadcast4 : N4 → Z) (network6 broadcast6 : N6 → Z).
Local Abbreviation raw := (raw_ranges (E:=E) network4 broadcast4 network6 broadcast6).
Local Abbreviation extract := (extract_data (E:=E) network4 broadcast4 network6 broadcast6).

Lemma raw_codes_recorded ws code :
  code ∈ (raw ws).*1 → code ∈ (raw_pairs ws).*1.
Proof.
  induction ws as [|[it|e] ws IH]; [done| |exact IH].
  change (raw (Ok it :: ws)) with
    (((classify (E:=E) it).1.1, ipn_to_range network4 broadcast4 network6 broadcast6 (ip_net it)) :: raw ws).
  change (raw_pairs (Ok it :: ws)) with ((classify (E:=E) it).1.2 :: raw_pairs ws).
  rewrite !fmap_cons, !elem_of_cons. intros [->|H]; [left|right; by apply IH].
  unfold classify. destruct (info_country it) as [[[c|] [n|]]|]; simpl; try done;
    by destruct (n !! _).
Qed.

Hypothesis net4_ordered : ∀ n, network4 n ≤ broadcast4 n.
Hypothesis net6_ordered : ∀ n, network6 n ≤ broadcast6 n.

Lemma raw_wf ws : entries_wf (raw ws) = true.
Proof using net4_ordered net6_ordered.
  apply forallb_forall. intros x Hx. apply list_elem_of_In in Hx.
  apply list_elem_of_omap in Hx as ([it|] & _ & Hx); [|done]. injection Hx as <-. simpl.
  destruct (ip_net it); simpl; by apply Z.leb_le.
Qed.

(** Coalescing is exact.  For networks whose first address is not above
    their last, extracting a database panics exactly when two successive items
    with the same country code are of different versions or the former ends at
    the top of its address space; otherwise the coded ranges cover, for every
    code, exactly the addresses of the items with that code, no two neighbours
    could still be merged, the pairs recorded are those of the items and every
    item without full information leaves its complaint, in order. *)
Lemma mmdb_coalescing_exact (ws : list (result E (item N4 N6))) errs :
  match extract ws [] ∅ errs with
  | Panic => neighbours clash (raw ws) = true
  | Ret (crs, ps, errs') =>
      neighbours clash (raw ws) = false ∧
      (∀ code ip, covers crs code ip = covers (raw ws) code ip) ∧
      neighbours mergeable crs = false ∧
      ps = list_to_set (raw_pairs ws) ∧ errs' = errs ++ raw_errors ws
  end.
Proof using net4_ordered net6_ordered.
  rewrite extract_data_fold. pose proof (coalesce_spec _ (raw_wf ws)) as H.
  destruct (coalesce_all [] (raw ws)) as [crs|]; [|done]. cbn [mbind run_bind].
  destruct H as (? & ? & ?). split_and!; try done. apply (right_id_L ∅ (∪)).
Qed.

(** A country whose ranges meet the boundary between the address versions
    stops the parser: wherever in a database an IPv4 item is followed by an
    IPv6 item with the same code, extraction panics. *)
Lemma mmdb_mixed_versions_panic (pre post : list (result E (item N4 N6)))
    (i4 i6 : item N4 N6) n4 n6 errs :
  ip_net i4 = NetV4 n4 → ip_net i6 = NetV6 n6 →
  (classify (E:=E) i4).1.1 = (classify (E:=E) i6).1.1 →
  extract (pre ++ Ok i4 :: Ok i6 :: post) [] ∅ errs = Panic.
Proof using net4_ordered net6_ordered.
  intros H4 H6 Hc. rewrite extract_data_fold.
  set (ws := pre ++ Ok i4 :: Ok i6 :: post).
  assert (neighbours clash (raw ws) = true) as Hcl.
  { unfold ws, raw_ranges. rewrite omap_app. cbn [omap list_omap]. rewrite H4, H6, Hc.
    generalize (omap (λ w : result E (item N4 N6),
      match w with Ok it => Some ((classify (E:=E) it).1.1,
        ipn_to_range network4 broadcast4 network6 broadcast6 (ip_net it)) | Err _ => None end) pre).
    intros l. induction l as [|x l IH]; simpl.
    - unfold clash. simpl. by rewrite String.eqb_refl.
    - simpl in IH. rewrite IH. apply orb_true_r. }
  pose proof (coalesce_spec _ (raw_wf ws)) as H.
  destruct (coalesce_all [] (raw ws)) as [crs|]; [|done]. destruct H; congruence.
Qed.

(** The parser is extract-then-serialize.  For a readable database whose
    country codes are upper case, however the set of country pairs is drained,
    every coded range resolves to the country with its code: the result is the
    serialization of the coalesced ranges, one block each in order, and no
    complaint is added to those of the items. *)
Lemma mmdb_parse_resolves {R} (from_source : list Z → result E R)
    (within : R → result E (list (result E (item N4 N6))))
    (into_iter : gset (string * string) → list (string * string)) bytes reader ws errs :
  (∀ s, into_iter s ≡ₚ elements s) →
  from_source bytes = Ok reader → within reader = Ok ws →
  neighbours clash (raw ws) = false →
  forallb (λ x, String.eqb (Countries.to_ascii_uppercase x.1) x.1) (raw ws) = true →
  let cs := Countries.new (into_iter (list_to_set (raw_pairs ws))) in
  ∃ crs blocks, coalesce_all [] (raw ws) = Ret crs ∧ Forall2 (resolved cs) crs blocks ∧
    parse network4 broadcast4 network6 broadcast6 from_source within into_iter (bytes, None) errs =
      (st ← add_all CountryBlockSerializer_new blocks;
       '(f4, f6) ← finish st;
       Ret (errs ++ raw_errors ws, (f4, f6, cs))).
Proof using net4_ordered net6_ordered.
  intros Hperm Hsrc Hws Hcl Hup cs. unfold parse. rewrite Hsrc, Hws, extract_data_fold.
  pose proof (coalesce_spec _ (raw_wf ws)) as H.
  destruct (coalesce_all [] (raw ws)) as [crs|] eqn:Ecrs; [|congruence].
  cbn [mbind run_bind]. rewrite (right_id_L ∅ (∪)). fold cs.
  destruct (make_country_blocks_resolved (into_iter (list_to_set (raw_pairs ws))) crs
    (errs ++ raw_errors ws)) as (blocks & Hb & Hf).
  { intros x Hx. destruct (coalesce_all_codes _ _ _ _ Ecrs Hx) as [Hin|Hin]; [|by apply elem_of_nil in Hin].
    split.
    - apply list_elem_of_fmap in Hin as (y & -> & Hy). rewrite forallb_forall in Hup.
      apply String.eqb_eq, Hup. by apply list_elem_of_In.
    - right. apply raw_codes_recorded in Hin.
      apply list_elem_of_fmap in Hin as (p & -> & Hp). apply list_elem_of_fmap. exists p.
      split; [done|]. rewrite Hperm, elem_of_elements. by apply elem_of_list_to_set. }
  exists crs, blocks. split; [done|]. split; [done|]. unfold cs. rewrite Hb. done.
Qed.
End properties.


(** ** A concrete database *)

(** Networks given by their address and prefix length. *)
Definition net_first (w : Z) (n : Z * Z) : Z := n.1 - n.1 mod 2 ^ Z.max 0 (w - n.2).
Definition net_last (w : Z) (n : Z * Z) : Z := net_first w n + 2 ^ Z.max 0 (w - n.2) - 1.

Lemma net_ordered w n : net_first w n ≤ net_last w n.
Proof. unfold net_last. pose proof (Z.pow_pos_nonneg 2 (Z.max 0 (w - n.2))). lia. Qed.

Definition geo (code name : string) : option geo_country :=
  Some (MkGeo (Some code) (Some {[ "en"%string := name ]})).

Definition demo_items : list (result string (item (Z * Z) (Z * Z))) :=
  [Ok (MkItem (NetV4 (0x01000000, 24)) (geo "AU" "Australia"));
   Ok (MkItem (NetV4 (0x01000100, 24)) (geo "AU" "Australia"));
   Err "torn page"%string;
   Ok (MkItem (NetV4 (0x01000200, 23)) None);
   Ok (MkItem (NetV6 (2 ^ 125, 12)) (geo "FR" "France"))].


End Mmdb.
