(* ===== verification/Utils.v ===== *)
(** * Shared search helpers

    Models [index_of] and [index_of_from] of [masq_lib/src/utils.rs], which the
    framers, the sequence buffer and the start finders use on byte vectors. *)
From S2P Require Import Prelude.
From stdpp Require Import base list.

Module Utils.
Section index_of.
Context {T : Type} `{!EqDecision T}.
Implicit Types haystack needles : list T.

(** The inner loop [for n in 0..needles.len()]: the value of [mismatch]. *)
Fixpoint mismatch haystack needles (h : nat) (ns : list nat) : bool :=
  match ns with
  | [] => false
  | n :: ns' =>
      let i := (h + n)%nat in
      if (length haystack <=? i)%nat then true
      else if bool_decide (haystack !! i ≠ needles !! n) then true
      else mismatch haystack needles h ns'
  end.

Fixpoint index_of_loop haystack needles (hs : list nat) : option nat :=
  match hs with
  | [] => None
  | h :: hs' =>
      if negb (mismatch haystack needles h (seq 0 (length needles))) then Some h
      else index_of_loop haystack needles hs'
  end.

Definition index_of haystack needles : option nat :=
  match needles with
  | [] => None
  | _ => index_of_loop haystack needles (seq 0 (length haystack))
  end.

(** The loop of [index_of_from]; [fuel] bounds the number of steps left. *)
Fixpoint index_of_from_loop (fuel : nat) haystack (needle : T) (index : nat) : nat :=
  match fuel with
  | O => index
  | S fuel' =>
      if (index <? length haystack)%nat && bool_decide (haystack !! index ≠ Some needle)
      then index_of_from_loop fuel' haystack needle (S index)
      else index
  end.

Definition index_of_from haystack (needle : T) (start_at : nat) : option nat :=
  let index := index_of_from_loop (length haystack) haystack needle start_at in
  if (length haystack <=? index)%nat then None else Some index.

(** ** Specification *)

(** [needles] stands in [haystack] at [h]. *)
Definition occurs haystack needles (h : nat) : Prop :=
  take (length needles) (drop h haystack) = needles.

Global Instance occurs_dec haystack needles h : Decision (occurs haystack needles h).
Proof. unfold occurs. apply _. Defined.

Lemma occurs_lookup haystack needles h :
  occurs haystack needles h ↔ ∀ n x, needles !! n = Some x → haystack !! (h + n)%nat = Some x.
Proof.
  unfold occurs. split.
  - intros H n x Hn. rewrite <- H in Hn. apply lookup_take_Some in Hn as [Hn _].
    by rewrite lookup_drop in Hn.
  - intros H. apply list_eq. intros n.
    destruct (needles !! n) as [x|] eqn:E.
    + rewrite lookup_take_Some. split; [|by eapply lookup_lt_Some]. rewrite lookup_drop. by apply H.
    + apply lookup_ge_None in E. by rewrite lookup_take_ge.
Qed.

Lemma mismatch_false haystack needles h ns :
  Forall (λ n, n < length needles)%nat ns →
  mismatch haystack needles h ns = false ↔
    ∀ n, n ∈ ns → haystack !! (h + n)%nat = needles !! n.
Proof.
  induction 1 as [|n ns Hn Hns IH]; simpl.
  - split; [|done]. intros _ n Hn. by apply elem_of_nil in Hn.
  - destruct (lookup_lt_is_Some_2 _ _ Hn) as [x Hx].
    destruct (Nat.leb_spec (length haystack) (h + n)) as [Hle|Hle].
    { split; [done|]. intros Hall. specialize (Hall n (list_elem_of_here _ _)).
      rewrite lookup_ge_None_2 in Hall by lia. congruence. }
    case_bool_decide as Hd.
    { split; [done|]. intros Hall. destruct Hd. apply Hall. left. }
    rewrite IH. split.
    + intros Hall m [->|Hm]%elem_of_cons; [done|by apply Hall].
    + intros Hall m Hm. apply Hall. by right.
Qed.

Lemma mismatch_occurs haystack needles h :
  mismatch haystack needles h (seq 0 (length needles)) = false ↔ occurs haystack needles h.
Proof.
  rewrite mismatch_false, occurs_lookup by (apply Forall_seq; lia). split.
  - intros H n x Hn. rewrite H; [done|]. apply elem_of_seq. apply lookup_lt_Some in Hn. lia.
  - intros H n Hn. apply elem_of_seq in Hn.
    destruct (lookup_lt_is_Some_2 needles n ltac:(lia)) as [x Hx]. rewrite Hx. by apply H.
Qed.

Lemma index_of_loop_spec haystack needles a k :
  match index_of_loop haystack needles (seq a k) with
  | Some h => (a ≤ h < a + k)%nat ∧ occurs haystack needles h ∧
      ∀ j, (a ≤ j < h)%nat → ¬ occurs haystack needles j
  | None => ∀ j, (a ≤ j < a + k)%nat → ¬ occurs haystack needles j
  end.
Proof.
  revert a; induction k as [|k IH]; intros a; simpl; [lia|].
  destruct (mismatch haystack needles a _) eqn:E; simpl.
  - assert (¬ occurs haystack needles a) as Ha by (rewrite <- mismatch_occurs; congruence).
    specialize (IH (S a)). destruct (index_of_loop _ _ _) as [h|].
    + destruct IH as (? & ? & Hl). repeat split; [lia|lia|done|].
      intros j Hj. destruct (decide (j = a)) as [->|]; [done|]. apply Hl. lia.
    + intros j Hj. destruct (decide (j = a)) as [->|]; [done|]. apply IH. lia.
  - apply mismatch_occurs in E. split; [lia|]. split; [done|]. intros j Hj. lia.
Qed.

Lemma occurs_bound haystack needles h :
  needles ≠ [] → occurs haystack needles h → (h + length needles ≤ length haystack)%nat.
Proof.
  intros Hne Ho. apply (f_equal length) in Ho. rewrite length_take, length_drop in Ho.
  destruct needles; [done|]. cbn [length] in *. lia.
Qed.

(** The first occurrence, if there is one. *)
Lemma index_of_spec haystack needles :
  needles ≠ [] →
  match index_of haystack needles with
  | Some h => occurs haystack needles h ∧ (∀ j, (j < h)%nat → ¬ occurs haystack needles j) ∧
      (h + length needles ≤ length haystack)%nat
  | None => ∀ j, ¬ occurs haystack needles j
  end.
Proof.
  intros Hne.
  assert (index_of haystack needles = index_of_loop haystack needles (seq 0 (length haystack))) as ->
    by by destruct needles.
  pose proof (index_of_loop_spec haystack needles 0 (length haystack)) as H.
  destruct (index_of_loop _ _ _) as [h|].
  - destruct H as (? & Ho & Hl). split; [done|]. split; [intros; apply Hl; lia|].
    by apply occurs_bound.
  - intros j Ho. pose proof (occurs_bound _ _ _ Hne Ho). destruct needles; [done|]. simpl in *.
    apply (H j); [lia|done].
Qed.

Lemma occurs_singleton haystack x h : occurs haystack [x] h ↔ haystack !! h = Some x.
Proof.
  rewrite occurs_lookup. split.
  - intros H. specialize (H 0%nat x eq_refl). by rewrite Nat.add_0_r in H.
  - intros H [|n] y; simpl; [|done]. intros [= <-]. by rewrite Nat.add_0_r.
Qed.

Lemma index_of_from_loop_spec fuel haystack needle i :
  (length haystack ≤ i + fuel)%nat →
  let j := index_of_from_loop fuel haystack needle i in
  (i ≤ j)%nat ∧ (∀ m, (i ≤ m < j)%nat → haystack !! m ≠ Some needle) ∧
  ((j < length haystack)%nat → haystack !! j = Some needle).
Proof.
  revert i; induction fuel as [|fuel IH]; intros i Hf; simpl; [repeat split; lia|].
  destruct (Nat.ltb_spec i (length haystack)); simpl; [|repeat split; lia].
  case_bool_decide as Hd.
  - destruct (IH (S i)) as (? & H1 & H2); [lia|]. repeat split; [lia| |done].
    intros m Hm. destruct (decide (m = i)) as [->|]; [done|]. apply H1. lia.
  - repeat split; [lia|lia|]. done.
Qed.

(** The first position from [start_at] on that holds [needle]. *)
Lemma index_of_from_spec haystack needle start_at :
  match index_of_from haystack needle start_at with
  | Some j => (start_at ≤ j)%nat ∧ haystack !! j = Some needle ∧
      ∀ m, (start_at ≤ m < j)%nat → haystack !! m ≠ Some needle
  | None => ∀ m, (start_at ≤ m)%nat → haystack !! m ≠ Some needle
  end.
Proof.
  unfold index_of_from.
  destruct (index_of_from_loop_spec (length haystack) haystack needle start_at) as (H0 & H1 & H2); [lia|].
  destruct (Nat.leb_spec (length haystack) (index_of_from_loop (length haystack) haystack needle start_at)).
  - intros m Hm Hl. pose proof (lookup_lt_Some _ _ _ Hl). by apply (H1 m); [lia|].
  - split; [done|]. split; [by apply H2|done].
Qed.
End index_of.

Global Arguments index_of : simpl never.
Global Arguments index_of_from : simpl never.
End Utils.
