(* ===== verification/Collections.v ===== *)
(** * Small shared data structures

    Models [node/src/sub_lib/bidi_hashmap.rs] (Module [Bidi]),
    [node/src/sub_lib/ttl_hashmap.rs] (Module [Ttl])
    and [node/src/sub_lib/limiter.rs] (Module [Limiter]).

    A [HashMap] is a [gmap].  The clock is an argument: an [Instant] is a number
    of time units, and each call of [Instant::now()] is given the time it
    reads. *)
From S2P Require Import Prelude.
From stdpp Require Import base list gmap.

(** ** A map in both directions *)
Module Bidi.
Section bidi.
Context {A B : Type} `{!EqDecision A} `{!Countable A} `{!EqDecision B} `{!Countable B}.

Record BidiHashMap := MkBidi {
  m_a_to_b : gmap A B;
  m_b_to_a : gmap B A
}.

Definition new : BidiHashMap := MkBidi ∅ ∅.

Definition insert (m : BidiHashMap) (a : A) (b : B) : BidiHashMap :=
  MkBidi (<[a := b]> (m_a_to_b m)) (<[b := a]> (m_b_to_a m)).

Definition len (m : BidiHashMap) : nat := size (m_a_to_b m).
Definition a_to_b (m : BidiHashMap) (a : A) : option B := m_a_to_b m !! a.
Definition b_to_a (m : BidiHashMap) (b : B) : option A := m_b_to_a m !! b.

Definition remove_a (m : BidiHashMap) (a : A) : BidiHashMap * option B :=
  match m_a_to_b m !! a with
  | Some b => (MkBidi (delete a (m_a_to_b m)) (delete b (m_b_to_a m)), Some b)
  | None => (MkBidi (delete a (m_a_to_b m)) (m_b_to_a m), None)
  end.

Definition remove_b (m : BidiHashMap) (b : B) : BidiHashMap * option A :=
  match m_b_to_a m !! b with
  | Some a => (MkBidi (delete a (m_a_to_b m)) (delete b (m_b_to_a m)), Some a)
  | None => (MkBidi (m_a_to_b m) (delete b (m_b_to_a m)), None)
  end.

Definition is_empty (m : BidiHashMap) : bool :=
  bool_decide (m_a_to_b m = ∅) && bool_decide (m_b_to_a m = ∅).

(** The two maps are each other's inverse. *)
Definition inverse (m : BidiHashMap) : Prop :=
  ∀ a b, a_to_b m a = Some b ↔ b_to_a m b = Some a.

(** [a] and [b] are unknown, or already paired with each other. *)
Definition fresh (m : BidiHashMap) (a : A) (b : B) : bool :=
  bool_decide ((a_to_b m a = None ∧ b_to_a m b = None) ∨ a_to_b m a = Some b).

Lemma inverse_new : inverse new.
Proof. intros a b. unfold a_to_b, b_to_a, new. simpl. by rewrite !lookup_empty. Qed.

Lemma inverse_insert m a b : inverse m → fresh m a b = true → inverse (insert m a b).
Proof.
  intros Hi Hf x y. apply bool_decide_eq_true in Hf. unfold a_to_b, b_to_a, insert in *. simpl.
  specialize (Hi x y) as Hxy. specialize (Hi a b) as Hab. specialize (Hi x b) as Hxb. specialize (Hi a y) as Hay.
  unfold a_to_b, b_to_a in *.
  destruct (decide (a = x)) as [<-|Hx], (decide (b = y)) as [<-|Hy];
    rewrite ?lookup_insert_eq, ?lookup_insert_ne by done; try done; try tauto.
  - split; [intros [= ->]; done|]. intros H. apply Hay in H. destruct Hf as [[Hf _]|Hf]; congruence.
  - split; [|intros [= ->]; done]. intros H. apply Hxb in H.
    destruct Hf as [[_ Hf]|Hf]; [congruence|]. apply Hab in Hf. congruence.
Qed.

Lemma inverse_remove_a m a : inverse m → inverse (remove_a m a).1.
Proof.
  intros Hi x y. specialize (Hi x y) as Hxy. unfold remove_a. destruct (m_a_to_b m !! a) as [b|] eqn:E;
    unfold a_to_b, b_to_a in *; simpl.
  - destruct (decide (a = x)) as [<-|Hx], (decide (b = y)) as [<-|Hy];
      rewrite ?lookup_delete_eq, ?lookup_delete_ne by done; try done.
    + split; [done|]. intros H. apply (Hi a y) in H. unfold a_to_b in H. congruence.
    + split; [|done]. intros H. apply (Hi x b) in H. apply (Hi a b) in E. unfold b_to_a in *. congruence.
  - destruct (decide (a = x)) as [<-|Hx]; rewrite ?lookup_delete_eq, ?lookup_delete_ne by done; [|done].
    rewrite <- Hxy, E. done.
Qed.

Lemma inverse_remove_b m b : inverse m → inverse (remove_b m b).1.
Proof.
  intros Hi x y. specialize (Hi x y) as Hxy. unfold remove_b. destruct (m_b_to_a m !! b) as [a|] eqn:E;
    unfold a_to_b, b_to_a in *; simpl.
  - destruct (decide (a = x)) as [<-|Hx], (decide (b = y)) as [<-|Hy];
      rewrite ?lookup_delete_eq, ?lookup_delete_ne by done; try done.
    + split; [done|]. intros H. apply (Hi a y) in H. apply (Hi a b) in E. unfold a_to_b in *. congruence.
    + split; [|done]. intros H. apply (Hi x b) in H. unfold b_to_a in H. congruence.
  - destruct (decide (b = y)) as [<-|Hy]; rewrite ?lookup_delete_eq, ?lookup_delete_ne by done; [|done].
    rewrite Hxy, E. done.
Qed.

(** ** Histories *)

Inductive op := Insert (a : A) (b : B) | RemoveA (a : A) | RemoveB (b : B).

Definition step (m : BidiHashMap) (o : op) : BidiHashMap :=
  match o with
  | Insert a b => insert m a b
  | RemoveA a => (remove_a m a).1
  | RemoveB b => (remove_b m b).1
  end.

(** Every insertion of the history is of a fresh pair. *)
Fixpoint all_fresh (m : BidiHashMap) (ops : list op) : bool :=
  match ops with
  | [] => true
  | o :: ops' =>
      match o with Insert a b => fresh m a b | _ => true end && all_fresh (step m o) ops'
  end.

Lemma inverse_history ops m :
  inverse m → all_fresh m ops = true → inverse (foldl step m ops).
Proof.
  revert m; induction ops as [|o ops IH]; intros m Hi Hf; [done|]. simpl in Hf. b2p.
  apply IH; [|done]. destruct o; [by apply inverse_insert|by apply inverse_remove_a|by apply inverse_remove_b].
Qed.
End bidi.
Arguments BidiHashMap A B {_ _ _ _}.
Arguments op A B : clear implicits.

(** The two directions agree.  From an empty map, through any insertions of
    fresh pairs and any removals by either key, looking up in one direction
    finds exactly what the other direction finds. *)
Lemma bidi_map_stays_inverse {A B : Type} `{!EqDecision A} `{!Countable A} `{!EqDecision B} `{!Countable B}
    (ops : list (op A B)) :
  all_fresh new ops = true → inverse (foldl step new ops).
Proof. apply inverse_history, inverse_new. Qed.

(** Re-inserting a key leaves the old partner behind. *)
Example bidi_reinsert_dangles :
  let m := foldl step new [Insert 1 10; Insert 1 20; RemoveA 1]%nat in
  a_to_b m 1%nat = None ∧ b_to_a m 10%nat = Some 1%nat.
Proof. vm_compute. split; reflexivity. Qed.
End Bidi.

(** ** A map whose entries age *)
Module Ttl.
Section ttl.
Context {K V : Type} `{!EqDecision K} `{!Countable K}.
Local Open Scope Z_scope.

Record TtlHashMap := MkTtl {
  last_check : Z;
  data : gmap K (V * Z);
  ttl : Z
}.

Definition new (now : Z) (ttl : Z) : TtlHashMap := MkTtl now ∅ ttl.

Definition remove_expired_entries (m : TtlHashMap) (now : Z) : TtlHashMap :=
  if now - last_check m <? ttl m then m
  else MkTtl now (filter (λ x, ¬ ttl m < now - x.2.2) (data m)) (ttl m).

Definition insert (m : TtlHashMap) (key : K) (value : V) (now now' : Z) : TtlHashMap :=
  let m := remove_expired_entries m now in
  MkTtl (last_check m) (<[key := (value, now')]> (data m)) (ttl m).

Definition get (m : TtlHashMap) (key : K) (now now' : Z) : TtlHashMap * option V :=
  let m := remove_expired_entries m now in
  match data m !! key with
  | Some (result, _) => (MkTtl (last_check m) (<[key := (result, now')]> (data m)) (ttl m), Some result)
  | None => (m, None)
  end.

(** ** Histories *)

(** Operations with the two clock readings each one makes. *)
Inductive op := Insert (k : K) (v : V) (now now' : Z) | Get (k : K) (now now' : Z).

Definition step (m : TtlHashMap) (o : op) : TtlHashMap :=
  match o with
  | Insert k v now now' => insert m k v now now'
  | Get k now now' => (get m k now now').1
  end.

(** The clock never goes back. *)
Fixpoint clock_ok (t : Z) (ops : list op) : bool :=
  match ops with
  | [] => true
  | (Insert _ _ now now' | Get _ now now') :: ops' =>
      (t <=? now) && (now <=? now') && clock_ok now' ops'
  end.

Definition last_time (t : Z) (ops : list op) : Z :=
  foldl (λ t o, match o with Insert _ _ _ now' | Get _ _ now' => now' end) t ops.

(** What the map may hold at time [t]: no time stamp is in the future and no
    entry was idle for more than [ttl] when the map was last swept. *)
Definition wf (m : TtlHashMap) (t : Z) : Prop :=
  last_check m ≤ t ∧ ∀ k v s, data m !! k = Some (v, s) → s ≤ t ∧ last_check m - s ≤ ttl m.

Lemma remove_expired_wf m t now : wf m t → t ≤ now → 0 ≤ ttl m → wf (remove_expired_entries m now) now.
Proof.
  intros [Hl Hd] Ht Httl. unfold remove_expired_entries. destruct (Z.ltb_spec (now - last_check m) (ttl m)).
  - split; [lia|]. intros k v s Hk. apply Hd in Hk. lia.
  - split; [simpl; lia|]. simpl. intros k v s Hk. apply map_lookup_filter_Some in Hk as [Hk Hf].
    simpl in Hf. apply Hd in Hk. lia.
Qed.

Lemma ttl_remove m now : ttl (remove_expired_entries m now) = ttl m.
Proof. unfold remove_expired_entries. by destruct (_ <? _). Qed.

Lemma touch_wf m t key v now' :
  wf m t → t ≤ now' → 0 ≤ ttl m → wf (MkTtl (last_check m) (<[key := (v, now')]> (data m)) (ttl m)) now'.
Proof.
  intros [Hl Hd] Ht Httl. split; [simpl; lia|]. simpl. intros k w s Hk.
  destruct (decide (key = k)) as [<-|].
  - rewrite lookup_insert_eq in Hk. injection Hk as -> ->. lia.
  - rewrite lookup_insert_ne in Hk by done. apply Hd in Hk. lia.
Qed.

Lemma step_wf m t o now now' :
  wf m t → 0 ≤ ttl m →
  (o = match o with Insert k v _ _ => Insert k v now now' | Get k _ _ => Get k now now' end) →
  t ≤ now ≤ now' → wf (step m o) now' ∧ ttl (step m o) = ttl m.
Proof.
  intros Hw Httl Ho Ht.
  pose proof (remove_expired_wf m t now Hw ltac:(lia) Httl) as Hr.
  destruct o as [k v n n'|k n n']; injection Ho as -> ->; cbn [step].
  - unfold insert. split; [|apply ttl_remove]. apply (touch_wf _ now); [done|lia|by rewrite ttl_remove].
  - unfold get. destruct (data (remove_expired_entries m now) !! k) as [[v s]|]; cbn [fst].
    + split; [|apply ttl_remove]. apply (touch_wf _ now); [done|lia|by rewrite ttl_remove].
    + split; [|apply ttl_remove]. destruct Hr as [Hl Hd]. split; [lia|].
      intros k' v' s' Hk'. apply Hd in Hk'. lia.
Qed.

Lemma history_wf ops m t :
  wf m t → 0 ≤ ttl m → clock_ok t ops = true →
  wf (foldl step m ops) (last_time t ops) ∧ ttl (foldl step m ops) = ttl m.
Proof.
  revert m t; induction ops as [|o ops IH]; intros m t Hw Httl Hc; [done|].
  unfold last_time. cbn [foldl]. fold (last_time (match o with Insert _ _ _ now' | Get _ _ now' => now' end) ops).
  destruct o as [k v now now'|k now now']; simpl in Hc; b2p.
  - destruct (step_wf m t (Insert k v now now') now now') as [Hw' Ht']; [done|done|done|lia|].
    destruct (IH _ _ Hw') as [? ->]; [lia|done|]. done.
  - destruct (step_wf m t (Get k now now') now now') as [Hw' Ht']; [done|done|done|lia|].
    destruct (IH _ _ Hw') as [? ->]; [lia|done|]. done.
Qed.
End ttl.
Arguments TtlHashMap K V {_ _}.
Arguments op K V : clear implicits.

(** How long entries live.  After any history with a clock that never goes
    back, [get] returns every entry last used no more than [ttl] ago, and never
    one that was last used [2 * ttl] ago or earlier (entries in between may or
    may not have been swept); an entry it returns is marked as used. *)
Lemma ttl_map_lifetime {K V : Type} `{!EqDecision K} `{!Countable K}
    (t0 ttl_ : Z) (ops : list (op K V)) (k : K) (now now' : Z) :
  (0 < ttl_)%Z → clock_ok t0 ops = true → (last_time t0 ops ≤ now)%Z →
  let m := foldl step (new t0 ttl_) ops in
  match data m !! k with
  | None => (get m k now now').2 = None
  | Some (v, used) =>
      ((now - used ≤ ttl_)%Z → (get m k now now').2 = Some v ∧
         data (get m k now now').1 !! k = Some (v, now')) ∧
      ((get m k now now').2 = Some v → (now - used < 2 * ttl_)%Z)
  end.
Proof.
  intros Hpos Hc Hnow m.
  destruct (history_wf ops (new t0 ttl_) t0) as [[Hl Hd] Httl]; [|simpl; lia|done|].
  { split; [simpl; lia|]. intros k' v' s' Hk'. simpl in Hk'. by rewrite lookup_empty in Hk'. }
  fold m in Hl, Hd, Httl. simpl in Httl.
  unfold get, remove_expired_entries. rewrite Httl.
  destruct (Z.ltb_spec (now - last_check m) ttl_) as [Hsw|Hsw]; cbn [data last_check ttl].
  - destruct (data m !! k) as [[v s]|] eqn:E; [|done]. simpl. rewrite lookup_insert_eq.
    split; [done|]. intros _. apply Hd in E. lia.
  - rewrite map_lookup_filter. destruct (data m !! k) as [[v s]|] eqn:E; simpl; [|done].
    destruct (decide (ttl_ < now - s)%Z) as [Hold|Hyoung]; simpl.
    + rewrite (option_guard_False _) by lia. simpl. split; [lia|done].
    + rewrite (option_guard_True _) by lia. simpl. rewrite lookup_insert_eq. split; [done|]. intros _. lia.
Qed.

Definition demo_ops : list (op nat nat) :=
  [Insert 1 100 0 0; Insert 2 200 3 3; Get 1 8 8; Insert 3 300 12 12]%nat%Z.

Lemma ttl_map_lifetime_witness :
  let m := foldl step (new 0 10) demo_ops in
  match data m !! 1%nat with
  | None => (get m 1%nat 17 17).2 = None
  | Some (v, used) =>
      ((17 - used ≤ 10)%Z → (get m 1%nat 17 17).2 = Some v ∧
         data (get m 1%nat 17 17).1 !! 1%nat = Some (v, 17%Z)) ∧
      ((get m 1%nat 17 17).2 = Some v → (17 - used < 2 * 10)%Z)
  end.
Proof. apply (ttl_map_lifetime 0 10 demo_ops 1%nat 17 17); [lia|reflexivity|vm_compute; discriminate]. Defined.
End Ttl.

(** ** Bounded loops *)
Module Limiter.
Local Open Scope Z_scope.

(** The field [iterations_remaining]; negative means without limit. *)
Definition new : Z := -1.
Definition with_only (iterations_remaining : Z) : Z := iterations_remaining.

Definition should_continue (iterations_remaining : Z) : Z * bool :=
  match Z.compare iterations_remaining 0 with
  | Lt => (iterations_remaining, true)
  | Eq => (iterations_remaining, false)
  | Gt => (iterations_remaining - 1, true)
  end.

(** The answers of [n] calls. *)
Fixpoint answers (n : nat) (l : Z) : list bool :=
  match n with
  | O => []
  | S n' => let '(l, b) := should_continue l in b :: answers n' l
  end.

(** [with_only k] lets a loop run exactly [k] times, [new] forever. *)
Lemma limiter_counts (k n : nat) :
  answers n (with_only (Z.of_nat k)) = replicate (k `min` n) true ++ replicate (n - k) false ∧
  answers n new = replicate n true.
Proof.
  split; [|induction n as [|n IH]; [done|]; simpl; by rewrite IH].
  unfold with_only. revert k; induction n as [|n IH]; intros k; [by rewrite Nat.min_0_r|].
  cbn [answers]. unfold should_continue.
  destruct k as [|k]; destruct (Z.compare_spec (Z.of_nat 0) 0); try lia.
  - f_equal. rewrite IH. by rewrite Nat.sub_0_r.
  - destruct (Z.compare_spec (Z.of_nat (S k)) 0); try lia.
    replace (Z.of_nat (S k) - 1) with (Z.of_nat k) by lia. by rewrite IH.
Qed.
End Limiter.
