(* ===== verification/SequenceBuffer.v ===== *)
(** * Ordered delivery of packets

    Models [node/src/sub_lib/sequence_buffer.rs]: the [SequencedPacket] with its
    byte format and the [SequenceBuffer], which takes packets in any order and
    hands them out by sequence number; and [node/src/sub_lib/sequencer.rs],
    which numbers them.

    [BinaryHeap] is a list from which the greatest element in the order of
    [Ord for SequencedPacket] is taken; the invariant shows that no two packets
    in the heap have the same number, so the choice among equals never matters.
    Logging is left out.  Bytes and [u64] are [Z]. *)
From S2P Require Import Prelude.
From S2P Require Import Utils.
From stdpp Require Import base list gmap.

Module SequenceBuffer.
Local Open Scope Z_scope.

(** ** Data *)

Record SequencedPacket := MkPacket {
  data : list Z;
  sequence_number : Z;
  last_data : bool
}.

Global Instance SequencedPacket_eq_dec : EqDecision SequencedPacket.
Proof. solve_decision. Defined.

Record SequenceBuffer := MkBuffer {
  buffer : list SequencedPacket;
  next_expected_sequence_number : Z;
  seen_sequence_numbers : list Z
}.

(** [TransmitDataMsg] as far as it becomes a packet. *)
Definition from_transmit_data_msg (data : list Z) (sequence_number : option Z) (last_data : bool)
    : SequencedPacket :=
  MkPacket data (default 0 sequence_number) last_data.

(** ** The heap *)

Definition cmp (self other : SequencedPacket) : comparison :=
  Z.compare (sequence_number other) (sequence_number self).

(** [BinaryHeap::pop]: a greatest element and the others. *)
Fixpoint heap_pop (h : list SequencedPacket) : option (SequencedPacket * list SequencedPacket) :=
  match h with
  | [] => None
  | p :: h' =>
      match heap_pop h' with
      | None => Some (p, [])
      | Some (q, rest) =>
          match cmp p q with
          | Lt => Some (q, p :: rest)
          | _ => Some (p, h')
          end
      end
  end.

Definition heap_peek (h : list SequencedPacket) : option SequencedPacket :=
  option_map fst (heap_pop h).

(** ** Operations *)

Definition new : SequenceBuffer := MkBuffer [] 0 [].

Definition push (self : SequenceBuffer) (packet : SequencedPacket) : SequenceBuffer :=
  if (next_expected_sequence_number self <=? sequence_number packet)
     && negb (bool_decide (sequence_number packet ∈ seen_sequence_numbers self))
  then MkBuffer (packet :: buffer self) (next_expected_sequence_number self)
         (seen_sequence_numbers self ++ [sequence_number packet])
  else self.

Definition poll (self : SequenceBuffer) : run (SequenceBuffer * option SequencedPacket) :=
  match buffer self with
  | [] => Ret (self, None)
  | _ =>
      top ← expect (heap_peek (buffer self));
      let sequence_number_to_pop := sequence_number top in
      if sequence_number_to_pop =? next_expected_sequence_number self then
        panic_if (2 ^ 64 <=? next_expected_sequence_number self + 1)
          (let '(packet, rest) :=
             match heap_pop (buffer self) with
             | Some (p, rest) => (Some p, rest)
             | None => (None, [])
             end in
           let seen :=
             match Utils.index_of (seen_sequence_numbers self) [sequence_number_to_pop] with
             | Some index => delete index (seen_sequence_numbers self)
             | None => seen_sequence_numbers self
             end in
           Ret (MkBuffer rest (next_expected_sequence_number self + 1) seen, packet))
      else Ret (self, None)
  end.

Definition repush (self : SequenceBuffer) (packet : SequencedPacket) : run SequenceBuffer :=
  panic_if (next_expected_sequence_number self <? 1)
    (if negb (sequence_number packet =? next_expected_sequence_number self - 1) then Panic
     else Ret (MkBuffer (packet :: buffer self) (sequence_number packet)
                 (seen_sequence_numbers self ++ [sequence_number packet]))).

Definition next_expected (self : SequenceBuffer) : Z := next_expected_sequence_number self.
Definition len (self : SequenceBuffer) : nat := length (buffer self).
Definition is_empty (self : SequenceBuffer) : bool := (len self =? 0)%nat.

(** ** The byte format *)

Inductive serde_error :=
| BoolFrom (b : Z)
| U64From (len : nat)
| U64Into (len : nat).

Definition u64_to (value : Z) (buf : list Z) : result serde_error (list Z) :=
  if negb (length buf =? 8)%nat then Err (U64Into (length buf))
  else Ok (foldl (λ '(remaining, buf) idx,
                   (Z.shiftr remaining 8, <[(7 - idx)%nat := Z.land remaining 0xFF]> buf))
                 (value, buf) (seq 0 8)).2.

Definition u64_from (bytes : list Z) : result serde_error Z :=
  if negb (length bytes =? 8)%nat then Err (U64From (length bytes))
  else Ok (foldl (λ result byte, u64 (Z.shiftl result 8) + byte) 0 bytes).

(** The bytes handed to [serialize_bytes]. *)
Definition serialize (p : SequencedPacket) : result serde_error (list Z) :=
  match u64_to (sequence_number p) (replicate 8 0) with
  | Err e => Err e
  | Ok num => Ok ((if last_data p then 1 else 0) :: num ++ data p)
  end.

Definition visit_bytes (v : list Z) : run (result serde_error SequencedPacket) :=
  b ← expect (v !! 0%nat);
  let last_data := if b =? 0 then Ok false else if b =? 1 then Ok true else Err (BoolFrom b) in
  match last_data with
  | Err e => Ret (Err e)
  | Ok last_data =>
      num ← slice v 1 9;
      match u64_from num with
      | Err e => Ret (Err e)
      | Ok sequence_number =>
          rest ← slice v 9 (length v);
          Ret (Ok (MkPacket rest sequence_number last_data))
      end
  end.

(** [Sequencer]: the numbers 0, 1, 2, ... *)
Definition next_sequence_number (current_sequence_number : Z) : run (Z * Z) :=
  panic_if (2 ^ 64 <=? current_sequence_number + 1)
    (Ret (current_sequence_number, current_sequence_number + 1)).

(** ** What the buffer promises *)

(** The packets waiting, by number, and the number due next. *)
Record pending := MkPending {
  waiting : gmap Z SequencedPacket;
  due : Z
}.

Definition spec_new : pending := MkPending ∅ 0.

(** A packet is taken unless it is late or another with its number waits. *)
Definition spec_push (a : pending) (p : SequencedPacket) : pending :=
  if (due a <=? sequence_number p) && bool_decide (waiting a !! sequence_number p = None)
  then MkPending (<[sequence_number p := p]> (waiting a)) (due a)
  else a.

Definition spec_poll (a : pending) : run (pending * option SequencedPacket) :=
  match waiting a !! due a with
  | None => Ret (a, None)
  | Some p =>
      panic_if (2 ^ 64 <=? due a + 1)
        (Ret (MkPending (delete (due a) (waiting a)) (due a + 1), Some p))
  end.

(** The packet polled last may be given back, whole or in part. *)
Definition spec_repush (a : pending) (p : SequencedPacket) : run pending :=
  if (1 <=? due a) && (sequence_number p =? due a - 1)
  then Ret (MkPending (<[sequence_number p := p]> (waiting a)) (sequence_number p))
  else Panic.

(** The operations a stream writer uses, and the contract it relies on. *)
Class PacketBuffer (B : Type) := {
  pb_new : B;
  pb_push : B → SequencedPacket → B;
  pb_poll : B → run (B * option SequencedPacket);
  pb_repush : B → SequencedPacket → run B
}.

(** A run of the implementation matches a run of the specification. *)
Definition matches {A C : Type} (R : A → C → Prop) (m : run A) (s : run C) : Prop :=
  match s with
  | Panic => m = Panic
  | Ret c => ∃ a, m = Ret a ∧ R a c
  end.

Class PacketBufferOk (B : Type) `{!PacketBuffer B} := {
  pb_rep : B → pending → Prop;
  pb_new_ok : pb_rep pb_new spec_new;
  pb_push_ok b a p : pb_rep b a → pb_rep (pb_push b p) (spec_push a p);
  pb_poll_ok b a : pb_rep b a →
    matches (λ x y, pb_rep x.1 y.1 ∧ x.2 = y.2) (pb_poll b) (spec_poll a);
  pb_repush_ok b a p : pb_rep b a → matches pb_rep (pb_repush b p) (spec_repush a p)
}.

Global Instance SequenceBuffer_ops : PacketBuffer SequenceBuffer := {|
  pb_new := new; pb_push := push; pb_poll := poll; pb_repush := repush
|}.

(** ** The invariant *)

Definition by_number (l : list SequencedPacket) : gmap Z SequencedPacket :=
  list_to_map ((λ p, (sequence_number p, p)) <$> l).

(** The heap holds the waiting packets, no two with one number and none late,
    and [seen_sequence_numbers] lists exactly their numbers. *)
Definition rep (b : SequenceBuffer) (a : pending) : Prop :=
  waiting a = by_number (buffer b) ∧ due a = next_expected_sequence_number b ∧
  NoDup (sequence_number <$> buffer b) ∧
  seen_sequence_numbers b ≡ₚ sequence_number <$> buffer b ∧
  Forall (λ p, next_expected_sequence_number b ≤ sequence_number p) (buffer b).

Lemma by_number_keys l : ((λ p, (sequence_number p, p)) <$> l).*1 = sequence_number <$> l.
Proof. by rewrite <- list_fmap_compose. Qed.

Lemma by_number_None l k : by_number l !! k = None ↔ k ∉ sequence_number <$> l.
Proof.
  unfold by_number. rewrite <- by_number_keys. split.
  - apply not_elem_of_list_to_map_2.
  - apply not_elem_of_list_to_map_1.
Qed.

Lemma by_number_perm l k :
  NoDup (sequence_number <$> l) → l ≡ₚ k → by_number l = by_number k.
Proof.
  intros Hnd Hp. apply list_to_map_proper; [by rewrite by_number_keys|].
  by apply fmap_Permutation.
Qed.

Lemma heap_pop_spec h :
  match heap_pop h with
  | None => h = []
  | Some (q, rest) => h ≡ₚ q :: rest ∧ Forall (λ p, sequence_number q ≤ sequence_number p) h
  end.
Proof.
  induction h as [|p h IH]; simpl; [done|]. destruct (heap_pop h) as [[q rest]|].
  - destruct IH as [Hp Hmin]. unfold cmp.
    destruct (Z.compare_spec (sequence_number q) (sequence_number p)).
    + split; [done|]. constructor; [lia|]. eapply Forall_impl; [exact Hmin|]. simpl; lia.
    + split; [rewrite Hp; apply perm_swap|]. constructor; [lia|done].
    + split; [done|]. constructor; [lia|]. eapply Forall_impl; [exact Hmin|]. simpl; lia.
  - subst. split; [done|]. by constructor; [lia|].
Qed.

Lemma buffer_rep_new : rep new spec_new.
Proof. unfold rep. simpl. split_and!; try done. constructor. Qed.

Lemma push_ok b a p : rep b a → rep (push b p) (spec_push a p).
Proof.
  intros (Hw & Hd & Hnd & Hseen & Hle). unfold push, spec_push. rewrite Hd.
  destruct (Z.leb_spec (next_expected_sequence_number b) (sequence_number p)); simpl; [|done].
  assert (waiting a !! sequence_number p = None ↔ sequence_number p ∉ seen_sequence_numbers b) as Hiff
    by by rewrite Hw, by_number_None, Hseen.
  case_bool_decide as H1; case_bool_decide as H2; simpl; try tauto; try done.
  unfold rep. simpl. rewrite Hw. split_and!; try done.
  - apply NoDup_cons. rewrite <- Hseen. split; [tauto|]. by rewrite Hseen.
  - rewrite Hseen. by rewrite Permutation_app_comm.
  - by constructor.
Qed.

Lemma poll_ok b a :
  rep b a → matches (λ x y, rep x.1 y.1 ∧ x.2 = y.2) (poll b) (spec_poll a).
Proof.
  intros Hrep. pose proof Hrep as (Hw & Hd & Hnd & Hseen & Hle). unfold matches, poll, spec_poll, heap_peek.
  pose proof (heap_pop_spec (buffer b)) as Hpop. rewrite Hd.
  destruct (buffer b) as [|p0 l0] eqn:Eb.
  { assert (waiting a !! next_expected_sequence_number b = None) as -> by (by rewrite Hw). by exists (b, None). }
  destruct (heap_pop (p0 :: l0)) as [[q rest]|] eqn:Ep; [|done]. destruct Hpop as [Hp Hmin].
  cbn [option_map expect mbind run_bind fst].
  assert (waiting a = <[sequence_number q := q]> (by_number rest)) as Hw'
    by by rewrite Hw, (by_number_perm _ _ Hnd Hp).
  assert (NoDup (sequence_number <$> q :: rest)) as Hnd' by by rewrite <- Hp.
  apply NoDup_cons in Hnd' as [Hq Hnd'].
  destruct (Z.eqb_spec (sequence_number q) (next_expected_sequence_number b)) as [E|E].
  - rewrite Hw', E, lookup_insert_eq. unfold panic_if.
    destruct (2 ^ 64 <=? _); [done|]. eexists. split; [done|]. simpl. split; [|done].
    assert (sequence_number q ∈ seen_sequence_numbers b) as Hin.
    { rewrite Hseen, Hp. left. }
    apply list_elem_of_lookup in Hin as [i Hi].
    pose proof (Utils.index_of_spec (seen_sequence_numbers b) [sequence_number q]) as Hidx.
    rewrite E in Hidx. specialize (Hidx ltac:(done)).
    destruct (Utils.index_of (seen_sequence_numbers b) [_]) as [j|].
    2: { destruct (Hidx i). apply Utils.occurs_singleton. by rewrite <- E. }
    destruct Hidx as (Hj & _). apply Utils.occurs_singleton in Hj.
    unfold rep. cbn [waiting due buffer next_expected_sequence_number seen_sequence_numbers].
    split_and!; try done.
    + apply delete_insert_id. rewrite <- E. by apply by_number_None.
    + apply (Permutation_cons_inv (a := sequence_number q)). rewrite E at 1.
      rewrite <- delete_Permutation by done. by rewrite Hseen, Hp.
    + apply Forall_forall. intros p Hpin. rewrite Forall_forall in Hle.
      specialize (Hle p). rewrite Hp in Hle. specialize (Hle ltac:(by right)).
      assert (sequence_number p ≠ sequence_number q); [|lia].
      intros He. apply Hq. rewrite <- He. by apply list_elem_of_fmap_2.
  - assert (waiting a !! next_expected_sequence_number b = None) as ->; [|by exists (b, None)].
    rewrite Hw. apply by_number_None. intros (p & Hp1 & Hp2)%list_elem_of_fmap.
    rewrite Forall_forall in Hmin, Hle. pose proof (Hmin p Hp2).
    specialize (Hle q). rewrite Hp in Hle. specialize (Hle ltac:(left)). lia.
Qed.

Lemma repush_ok b a p : rep b a → matches rep (repush b p) (spec_repush a p).
Proof.
  intros (Hw & Hd & Hnd & Hseen & Hle). unfold matches, repush, spec_repush, panic_if. rewrite Hd.
  destruct (Z.leb_spec 1 (next_expected_sequence_number b)),
    (Z.ltb_spec (next_expected_sequence_number b) 1); try lia; simpl; [|done].
  destruct (Z.eqb_spec (sequence_number p) (next_expected_sequence_number b - 1)); simpl; [|done].
  eexists. split; [done|]. unfold rep. simpl. rewrite Hw. split_and!; try done.
  - apply NoDup_cons. split; [|done]. intros (q & Hq & Hin)%list_elem_of_fmap.
    rewrite Forall_forall in Hle. specialize (Hle q Hin). lia.
  - rewrite Hseen. by rewrite Permutation_app_comm.
  - constructor; [lia|]. eapply Forall_impl; [exact Hle|]. simpl; lia.
Qed.

Global Instance SequenceBuffer_ok : PacketBufferOk SequenceBuffer := {|
  pb_rep := rep; pb_new_ok := buffer_rep_new; pb_push_ok := push_ok;
  pb_poll_ok := poll_ok; pb_repush_ok := repush_ok
|}.


(** ** Histories of operations *)

Inductive op :=
| Push (p : SequencedPacket)
| Poll
| Repush (p : SequencedPacket).

Section histories.
Context {S : Type} (do_push : S → SequencedPacket → S)
  (do_poll : S → run (S * option SequencedPacket)) (do_repush : S → SequencedPacket → run S).

(** The state after a history, with the answers of its polls. *)
Fixpoint history (s : S) (ops : list op) : run (S * list (option SequencedPacket)) :=
  match ops with
  | [] => Ret (s, [])
  | Push p :: ops' => history (do_push s p) ops'
  | Poll :: ops' =>
      '(s, o) ← do_poll s; '(s, outs) ← history s ops'; Ret (s, o :: outs)
  | Repush p :: ops' => s ← do_repush s p; history s ops'
  end.
End histories.

Definition run_buffer {B} `{!PacketBuffer B} : B → list op → run (B * list (option SequencedPacket)) :=
  history pb_push pb_poll pb_repush.
Definition run_spec : pending → list op → run (pending * list (option SequencedPacket)) :=
  history spec_push spec_poll spec_repush.

Lemma run_buffer_ok {B} `{!PacketBuffer B} `{!PacketBufferOk B} ops b a :
  pb_rep b a → matches (λ x y, pb_rep x.1 y.1 ∧ x.2 = y.2) (run_buffer b ops) (run_spec a ops).
Proof.
  revert b a; induction ops as [|[p| |p] ops IH]; intros b a Hr.
  - simpl. by exists (b, []).
  - apply IH. by apply pb_push_ok.
  - pose proof (pb_poll_ok b a Hr) as Hp. unfold matches, run_spec, run_buffer in *. cbn [history].
    destruct (spec_poll a) as [[a' o]|]; [|by rewrite Hp].
    destruct Hp as ([b' o'] & -> & Hr' & Ho). simpl in Hr', Ho. subst o'. cbn [mbind run_bind].
    specialize (IH b' a' Hr'). destruct (history spec_push _ _ a' ops) as [[a2 outs]|]; [|by rewrite IH].
    destruct IH as ([b2 outs'] & -> & ? & Ho). simpl in *. subst. by exists (b2, o :: outs).
  - pose proof (pb_repush_ok b a p Hr) as Hp. unfold matches, run_spec, run_buffer in *. cbn [history].
    destruct (spec_repush a p) as [a'|]; [|by rewrite Hp].
    destruct Hp as (b' & -> & Hr'). cbn [mbind run_bind]. by apply IH.
Qed.

(** The packets pushed in a history, and the first one with a number. *)
Definition pushes (ops : list op) : list SequencedPacket :=
  omap (λ o, match o with Push p => Some p | _ => None end) ops.

Definition first_with (k : Z) (ps : list SequencedPacket) : option SequencedPacket :=
  option_map snd (list_find (λ p, sequence_number p = k) ps).

Definition no_repush (ops : list op) : bool :=
  forallb (λ o, match o with Repush _ => false | _ => true end) ops.

Lemma first_with_snoc k ps p :
  first_with k (ps ++ [p]) =
    match first_with k ps with
    | Some q => Some q
    | None => if decide (sequence_number p = k) then Some p else None
    end.
Proof.
  unfold first_with. induction ps as [|q ps IH]; simpl.
  - by destruct (decide (sequence_number p = k)).
  - destruct (decide (sequence_number q = k)); [done|].
    destruct (list_find _ (ps ++ [p])) as [[]|], (list_find _ ps) as [[]|];
      simpl in *; congruence.
Qed.

(** After the pushes [ps] and [n] packets delivered. *)
Definition delivered_state (ps : list SequencedPacket) (n : nat) (a : pending) : Prop :=
  due a = Z.of_nat n ∧
  ∀ k, waiting a !! k = if Z.of_nat n <=? k then first_with k ps else None.

Lemma delivered_push ps n a p :
  delivered_state ps n a → delivered_state (ps ++ [p]) n (spec_push a p).
Proof.
  intros [Hd Hw]. unfold spec_push. rewrite Hd, Hw.
  destruct (Z.leb_spec (Z.of_nat n) (sequence_number p)); simpl.
  - case_bool_decide as Hf; (split; [done|]); intros k; simpl; rewrite first_with_snoc.
    + destruct (decide (sequence_number p = k)) as [<-|].
      * rewrite lookup_insert_eq, Hf. by destruct (Z.leb_spec (Z.of_nat n) (sequence_number p)); [|lia].
      * rewrite lookup_insert_ne by done. rewrite Hw. destruct (_ <=? k); [|done].
        by destruct (first_with k ps).
    + rewrite Hw. destruct (_ <=? k); [|done]. destruct (first_with k ps) eqn:Ek; [done|].
      destruct (decide _); [congruence|done].
  - split; [done|]. intros k. rewrite Hw, first_with_snoc.
    destruct (Z.leb_spec (Z.of_nat n) k); [|done]. destruct (first_with k ps); [done|].
    destruct (decide _); [lia|done].
Qed.

Lemma delivered_poll ps n a :
  delivered_state ps n a → Z.of_nat n + 1 < 2 ^ 64 →
  ∃ a', spec_poll a = Ret (a', first_with (Z.of_nat n) ps) ∧
    delivered_state ps (match first_with (Z.of_nat n) ps with Some _ => S n | None => n end) a'.
Proof.
  intros [Hd Hw] Hn. unfold spec_poll. rewrite Hd, Hw, Z.leb_refl.
  destruct (first_with (Z.of_nat n) ps) as [p|] eqn:Ef; [|by exists a].
  unfold panic_if. destruct (Z.leb_spec (2 ^ 64) (Z.of_nat n + 1)); [lia|].
  eexists. split; [done|]. split; [simpl; lia|]. intros k. simpl.
  destruct (decide (Z.of_nat n = k)) as [<-|].
  - rewrite lookup_delete_eq. destruct (Z.leb_spec (Z.of_nat (S n)) (Z.of_nat n)); [lia|done].
  - rewrite lookup_delete_ne by done. rewrite Hw.
    destruct (Z.leb_spec (Z.of_nat n) k), (Z.leb_spec (Z.of_nat (S n)) k); done || lia.
Qed.

(** The packets handed out, in order. *)
Definition delivered (outs : list (option SequencedPacket)) : list SequencedPacket := omap id outs.

Lemma run_spec_delivers ops ps n a :
  no_repush ops = true → delivered_state ps n a → Z.of_nat n + Z.of_nat (length ops) < 2 ^ 64 →
  ∃ a' outs, run_spec a ops = Ret (a', outs) ∧
    delivered_state (ps ++ pushes ops) (n + length (delivered outs)) a' ∧
    ∀ i p, delivered outs !! i = Some p → first_with (Z.of_nat (n + i)) (ps ++ pushes ops) = Some p.
Proof.
  revert ps n a; induction ops as [|[p| |p] ops IH]; intros ps n a Hno Hst Hlen; simpl in Hno; try done.
  - exists a, []. change (pushes []) with (@nil SequencedPacket). rewrite app_nil_r.
    simpl. rewrite Nat.add_0_r. by split_and!.
  - destruct (IH (ps ++ [p]) n (spec_push a p)) as (a' & outs & Hr & Hs & Hd);
      [done|by apply delivered_push|simpl in Hlen; lia|].
    exists a', outs. change (pushes (Push p :: ops)) with ([p] ++ pushes ops).
    rewrite app_assoc. by split_and!.
  - destruct (delivered_poll ps n a Hst) as (a1 & Hp & Hs1); [simpl in Hlen; lia|].
    change (pushes (Poll :: ops)) with (pushes ops). unfold run_spec. cbn [history]. rewrite Hp.
    cbn [mbind run_bind].
    destruct (IH ps _ a1 Hno Hs1) as (a' & outs & Hr & Hs & Hd).
    { simpl in Hlen. destruct (first_with _ ps); lia. }
    unfold run_spec in Hr. rewrite Hr. cbn [mbind run_bind].
    eexists _, _. split; [done|].
    destruct (first_with (Z.of_nat n) ps) as [q|] eqn:Ef;
      [change (delivered (Some q :: outs)) with (q :: delivered outs)
      |change (delivered (None :: outs)) with (delivered outs); done].
    split; [by replace (n + length (q :: delivered outs))%nat
              with (S n + length (delivered outs))%nat by (simpl; lia)|].
    intros [|i] r; simpl.
    + intros [= <-]. rewrite Nat.add_0_r. revert Ef. generalize (pushes ops) as more.
      clear. intros more. induction more as [|x more IHm] using rev_ind; [by rewrite app_nil_r|].
      intros Hf. by rewrite app_assoc, first_with_snoc, IHm.
    + intros Hr'. apply Hd in Hr'. by replace (n + S i)%nat with (S n + i)%nat by lia.
Qed.


Lemma delivered_length ops s a outs :
  run_spec s ops = Ret (a, outs) → (length (delivered outs) ≤ length ops)%nat.
Proof.
  unfold run_spec, delivered. revert s a outs.
  induction ops as [|[p| |p] ops IH]; intros s a outs Hr; cbn [history] in Hr.
  - by injection Hr as _ <-.
  - apply IH in Hr. simpl. lia.
  - apply run_bind_ret in Hr as ([s1 o] & _ & Hr).
    apply run_bind_ret in Hr as ([s2 outs'] & Hr & [= _ <-]).
    apply IH in Hr. destruct o; cbn [omap list_omap id length]; lia.
  - apply run_bind_ret in Hr as (s1 & _ & Hr). apply IH in Hr. simpl. lia.
Qed.

(** ** The byte format, lemmas *)

Definition is_byte (b : Z) : Prop := 0 ≤ b < 2 ^ Z.of_nat 8.

Lemma u64_to_digits value : u64_to value (replicate 8 0) = Ok (be_digits 8 8 value).
Proof.
  unfold u64_to. rewrite length_replicate. cbn [negb Nat.eqb foldl seq replicate snd].
  f_equal. cbn [Nat.sub insert list_insert snd]. rewrite !be_digits_S.
  change (be_digits 8 0 value) with (@nil Z). change 0xFF with (2 ^ Z.of_nat 8 - 1).
  rewrite !land_ones_mod, !Z.shiftr_shiftr by lia.
  rewrite !Z.shiftr_div_pow2 by lia. cbn [Nat.mul Nat.add]. by rewrite Z.div_1_r.
Qed.

Lemma u64_from_fold ds acc k :
  Forall is_byte ds → 0 ≤ acc < 2 ^ Z.of_nat (8 * k) → (k + length ds ≤ 8)%nat →
  foldl (λ result byte, u64 (Z.shiftl result 8) + byte) acc ds =
  foldl (λ acc d, acc * 2 ^ Z.of_nat 8 + d) acc ds.
Proof.
  intros Hds; revert acc k; induction Hds as [|d ds Hd Hds IH]; intros acc k Hacc Hk; [done|].
  cbn [foldl]. cbn [length] in Hk. unfold is_byte in Hd.
  rewrite Z.shiftl_mul_pow2 by lia. unfold u64.
  pose proof (pow2_add 8 (8 * k)) as Hp. pose proof (pow2_le (8 + 8 * k) 64 ltac:(lia)).
  change (2 ^ 8) with (2 ^ Z.of_nat 8). rewrite wrap_small by (change (2 ^ 64) with (2 ^ Z.of_nat 64); nia).
  apply (IH _ (S k)); [|lia]. replace (8 * S k)%nat with (8 + 8 * k)%nat by lia. nia.
Qed.

Lemma u64_from_digits ds :
  length ds = 8%nat → Forall is_byte ds → u64_from ds = Ok (from_be_digits 8 ds).
Proof.
  intros Hl Hds. unfold u64_from. rewrite Hl. cbn [negb Nat.eqb]. f_equal.
  apply (u64_from_fold ds 0 0); [done|simpl; lia|lia].
Qed.

Lemma visit_bytes_long (flag : Z) (num rest : list Z) :
  length num = 8%nat → Forall is_byte num →
  visit_bytes (flag :: num ++ rest) =
    Ret (if flag =? 0 then Ok (MkPacket rest (from_be_digits 8 num) false)
         else if flag =? 1 then Ok (MkPacket rest (from_be_digits 8 num) true)
         else Err (BoolFrom flag)).
Proof.
  intros Hl Hb. unfold visit_bytes. cbn [lookup list_lookup expect mbind run_bind].
  assert (slice (flag :: num ++ rest) 1 9 = Ret num) as Hs1.
  { apply (slice_app [flag] num rest); [done|by rewrite Hl|lia]. }
  assert (slice (flag :: num ++ rest) 9 (length (flag :: num ++ rest)) = Ret rest) as Hs2.
  { replace (flag :: num ++ rest) with ((flag :: num) ++ rest ++ []) by by rewrite app_nil_r.
    apply slice_app; simpl; lens. }
  rewrite Hs1, Hs2. cbn [mbind run_bind]. rewrite u64_from_digits by done.
  by destruct (flag =? 0), (flag =? 1).
Qed.

(** ** Properties *)

(** C25: the buffer refines its specification.  Whatever the history of pushes,
    polls and repushes, the heap-based buffer answers every poll as the map of
    waiting packets does, panics exactly when it does, and keeps its
    invariant: one packet per number, none late, and the list of seen numbers
    is exactly the list of numbers in the heap. *)
Theorem sequence_buffer_refines_map (ops : list op) :
  matches (λ x y, rep x.1 y.1 ∧ x.2 = y.2) (run_buffer new ops) (run_spec spec_new ops).
Proof. exact (run_buffer_ok (B := SequenceBuffer) ops new spec_new buffer_rep_new). Qed.

(** Packets come out in order, once, first arrival first.  For every
    interleaving of pushes (in any order, with duplicates and stragglers) and
    polls, no operation panics, the i-th packet handed out is the first one
    pushed with number i, and a poll hands out the next number exactly when a
    packet with it has arrived. *)
Lemma sequence_buffer_delivers_in_order (ops : list op) :
  no_repush ops = true → Z.of_nat (length ops) + 1 < 2 ^ 64 →
  ∃ b outs, run_buffer new ops = Ret (b, outs) ∧
    (∀ i p, delivered outs !! i = Some p → first_with (Z.of_nat i) (pushes ops) = Some p) ∧
    ∃ b', poll b = Ret (b', first_with (Z.of_nat (length (delivered outs))) (pushes ops)).
Proof.
  intros Hno Hlen.
  destruct (run_spec_delivers ops [] 0 spec_new Hno) as (a & outs & Hr & Hs & Hd); [|lia|].
  { split; [done|]. intros k. unfold spec_new. cbn [waiting]. rewrite lookup_empty. by destruct (_ <=? k). }
  pose proof (run_buffer_ok (B := SequenceBuffer) ops new spec_new buffer_rep_new) as Hm.
  unfold matches in Hm. rewrite Hr in Hm. destruct Hm as ([b outs'] & Hb & Hrep & Ho).
  simpl in Hrep, Ho. subst outs'. exists b, outs. split; [exact Hb|]. split; [exact Hd|].
  simpl in Hs. pose proof (delivered_length ops _ _ _ Hr).
  destruct (delivered_poll _ _ _ Hs) as (a' & Hp & _); [lia|].
  pose proof (poll_ok b a Hrep) as Hm. unfold matches in Hm. rewrite Hp in Hm.
  destruct Hm as ([b' o] & Hpb & _ & Ho). simpl in Ho. subst o. by exists b'.
Qed.

Definition demo_packet (n : Z) (d : list Z) : SequencedPacket := MkPacket d n false.

Definition demo_ops : list op :=
  [Push (demo_packet 2 [7]); Poll; Push (demo_packet 0 [1]); Push (demo_packet 0 [9]);
   Poll; Poll; Push (demo_packet 1 [3; 4]); Poll; Push (demo_packet 1 [5]); Poll; Poll].

Lemma sequence_buffer_delivers_in_order_witness :
  ∃ b outs, run_buffer new demo_ops = Ret (b, outs) ∧
    (∀ i p, delivered outs !! i = Some p → first_with (Z.of_nat i) (pushes demo_ops) = Some p) ∧
    ∃ b', poll b = Ret (b', first_with (Z.of_nat (length (delivered outs))) (pushes demo_ops)).
Proof. apply sequence_buffer_delivers_in_order; [reflexivity|simpl; lia]. Defined.

Example demo_ops_outcome :
  (λ x, delivered x.2) <$> (match run_buffer new demo_ops with Ret x => Some x | Panic => None end)
    = Some [demo_packet 0 [1]; demo_packet 1 [3; 4]; demo_packet 2 [7]].
Proof. vm_compute. reflexivity. Qed.

(** A packet survives its byte format: the bytes written for any packet
    with a 64-bit number are nine bytes of header followed by the data, and
    reading them gives the packet back. *)
Lemma sequenced_packet_roundtrip (p : SequencedPacket) :
  0 ≤ sequence_number p < 2 ^ 64 →
  ∃ bytes, serialize p = Ok bytes ∧ length bytes = (9 + length (data p))%nat ∧
    visit_bytes bytes = Ret (Ok p).
Proof.
  intros Hn. unfold serialize. rewrite u64_to_digits. eexists. split; [done|]. split.
  - cbn [length]. rewrite length_app, length_be_digits. lia.
  - rewrite visit_bytes_long by (apply length_be_digits || apply be_digits_range).
    rewrite from_be_digits_be_digits by exact Hn. by destruct p as [d n []].
Qed.

(** Reading against the length of its input.  On nine or more bytes
    reading returns a packet or an error, and it answers with a packet exactly
    when the first byte is 0 or 1; on fewer bytes with a valid or missing first
    byte it panics instead of reporting an error. *)
Lemma visit_bytes_panics_on_short_input (v : list Z) :
  Forall is_byte v →
  match visit_bytes v with
  | Panic => (length v < 9)%nat
  | Ret (Ok p) => (9 ≤ length v)%nat ∧ (v !! 0%nat = Some 0 ∨ v !! 0%nat = Some 1) ∧
      serialize p = Ok v
  | Ret (Err e) => ∃ b, v !! 0%nat = Some b ∧ e = BoolFrom b ∧ b ≠ 0 ∧ b ≠ 1
  end.
Proof.
  intros Hv. destruct v as [|flag v]; [simpl; lia|]. apply Forall_cons in Hv as [_ Hv].
  destruct (decide (8 ≤ length v)%nat) as [Hl|Hl].
  - assert (∃ num rest, v = num ++ rest ∧ length num = 8%nat) as (num & rest & -> & Hnum).
    { exists (take 8 v), (drop 8 v). split; [by rewrite take_drop|]. lens. }
    apply Forall_app in Hv as [Hb _]. rewrite visit_bytes_long by done.
    assert (∀ f, serialize (MkPacket rest (from_be_digits 8 num) f) = Ok ((if f then 1 else 0) :: num ++ rest)) as Hs.
    { intros f. unfold serialize. simpl sequence_number. rewrite u64_to_digits.
      pose proof (be_digits_from_be_digits 8 num Hb) as Hd. rewrite Hnum in Hd. by rewrite Hd. }
    destruct (Z.eqb_spec flag 0) as [->|]; [rewrite Hs; simpl; split; [lens|]; split; [by left|done]|].
    destruct (Z.eqb_spec flag 1) as [->|]; [rewrite Hs; simpl; split; [lens|]; split; [by right|done]|].
    by exists flag.
  - unfold visit_bytes. cbn [lookup list_lookup expect mbind run_bind].
    assert (slice (flag :: v) 1 9 = Panic) as ->.
    { unfold slice. cbn [length]. destruct (Nat.leb_spec 9 (S (length v))); [lia|done]. }
    destruct (Z.eqb_spec flag 0); [simpl; lia|]. destruct (Z.eqb_spec flag 1); [simpl; lia|].
    by exists flag.
Qed.

Definition demo_short : list Z := [1; 2; 3].


End SequenceBuffer.
