(* ===== verification/StreamWriters.v ===== *)
(** * Stream writers

    Models the two tasks that move packets from a channel to a TCP stream:
    [node/src/stream_writer_sorted.rs] (client-facing streams, packets sorted by
    a [SequenceBuffer]) and [node/src/stream_writer_unsorted.rs] (clandestine
    streams, packets in order of arrival), with [indicates_dead_stream] of
    [node/src/sub_lib/utils.rs].

    Channel and stream are outside the program.  One call of a task's [poll]
    sees a script of their answers: what the channel yields, what each
    [poll_write] and [shutdown] answers; an exhausted script answers
    [NotReady].  A write that is [Ready len] puts the first [len] bytes on the
    wire, never more than it was given.  The [world] records the packets taken
    from the channel and the bytes on the wire.

    The sorted writer is written against the interface [PacketBuffer], and its
    theorems use only the contract [PacketBufferOk]. *)
From S2P Require Import Prelude.
From S2P Require Import SequenceBuffer.
From stdpp Require Import base list gmap.

Module Writers.
Import SequenceBuffer.
Local Open Scope Z_scope.

(** ** The environment *)

(** [std::io::ErrorKind], with the kinds the code names. *)
Inductive ErrorKind :=
| BrokenPipe | ConnectionAborted | ConnectionReset | ConnectionRefused | TimedOut
| OtherKind (n : nat).

Global Instance ErrorKind_eq_dec : EqDecision ErrorKind.
Proof. solve_decision. Defined.

Definition DEAD_STREAM_ERRORS : list ErrorKind :=
  [BrokenPipe; ConnectionAborted; ConnectionReset; ConnectionRefused; TimedOut].

Definition indicates_dead_stream (kind : ErrorKind) : bool :=
  bool_decide (kind ∈ DEAD_STREAM_ERRORS).

(** Answers of [rx_to_write.poll()], [stream.poll_write(..)], [stream.shutdown()]. *)
Inductive rx_answer := RxPacket (p : SequencedPacket) | RxClosed | RxNotReady | RxErr.
Inductive write_answer := WrErr (kind : ErrorKind) | WrNotReady | WrReady (len : nat).
Inductive shutdown_answer := ShNotReady | ShReady | ShErr.

Record script := MkScript {
  rx : list rx_answer;
  writes : list write_answer;
  shutdowns : list shutdown_answer
}.

Record world := MkWorld {
  received : list SequencedPacket;
  wire : list Z
}.

(** Result of a task's [poll]. *)
Inductive task_poll := TaskErr | TaskNotReady | TaskReady.

Inductive ReadChannelStatus := StillOpen | Closed.
Inductive WriteBufferStatus := StreamInError | BufferNotEmpty | BufferEmpty.

(** ** The sorted writer *)

Section sorted.
Context {B : Type} `{!PacketBuffer B}.

Record StreamWriterSorted := MkSorted {
  sequence_buffer : B;
  shutting_down : bool
}.

Definition sorted_new : StreamWriterSorted := MkSorted pb_new false.

Definition shutdown (answers : list shutdown_answer) : shutdown_answer :=
  default ShNotReady (head answers).

Fixpoint read_data_from_channel (b : B) (w : world) (answers : list rx_answer)
    : run (B * world * ReadChannelStatus) :=
  match answers with
  | RxPacket sequenced_packet :: answers' =>
      read_data_from_channel (pb_push b sequenced_packet)
        (MkWorld (received w ++ [sequenced_packet]) (wire w)) answers'
  | RxClosed :: _ => Ret (b, w, Closed)
  | RxNotReady :: _ | [] => Ret (b, w, StillOpen)
  | RxErr :: _ => Panic
  end.

Fixpoint write_from_buffer_to_stream (b : B) (w : world) (answers : list write_answer)
    (sh : list shutdown_answer) : run (StreamWriterSorted * world * WriteBufferStatus) :=
  '(b, packet_opt) ← pb_poll b;
  match packet_opt with
  | None => Ret (MkSorted b false, w, BufferEmpty)
  | Some packet =>
      match answers with
      | WrErr kind :: answers' =>
          if indicates_dead_stream kind then Ret (MkSorted b false, w, StreamInError)
          else
            b ← pb_repush b packet;
            write_from_buffer_to_stream b w answers' sh
      | WrNotReady :: _ | [] =>
          b ← pb_repush b packet;
          Ret (MkSorted b false, w, BufferNotEmpty)
      | WrReady n :: answers' =>
          let len := Nat.min n (length (data packet)) in
          let w := MkWorld (received w) (wire w ++ take len (data packet)) in
          if negb (len =? length (data packet))%nat then
            b ← pb_repush b (MkPacket (drop len (data packet)) (sequence_number packet)
                                      (last_data packet));
            write_from_buffer_to_stream b w answers' sh
          else if last_data packet then
            Ret (MkSorted b true, w,
                 match shutdown sh with
                 | ShNotReady => BufferNotEmpty
                 | ShReady => BufferEmpty
                 | ShErr => StreamInError
                 end)
          else write_from_buffer_to_stream b w answers' sh
      end
  end.

(** [Future::poll]. *)
Definition poll_sorted (st : StreamWriterSorted) (w : world) (s : script)
    : run (StreamWriterSorted * world * task_poll) :=
  if shutting_down st then
    Ret (st, w, match shutdown (shutdowns s) with
                | ShNotReady => TaskNotReady
                | ShReady => TaskReady
                | ShErr => TaskErr
                end)
  else
    '(b, w, read_result) ← read_data_from_channel (sequence_buffer st) w (rx s);
    '(st, w, write_result) ← write_from_buffer_to_stream b w (writes s) (shutdowns s);
    Ret (st, w, match read_result, write_result with
                | _, StreamInError => TaskErr
                | StillOpen, _ => TaskNotReady
                | Closed, BufferNotEmpty => TaskNotReady
                | Closed, BufferEmpty => TaskReady
                end).

(** The executor polls the task until it is done. *)
Fixpoint run_sorted (st : StreamWriterSorted) (w : world) (ss : list script)
    : run (StreamWriterSorted * world * task_poll) :=
  match ss with
  | [] => Ret (st, w, TaskNotReady)
  | s :: ss' =>
      '(st, w, r) ← poll_sorted st w s;
      match r with
      | TaskNotReady => run_sorted st w ss'
      | _ => Ret (st, w, r)
      end
  end.
End sorted.
Arguments StreamWriterSorted B : clear implicits.

(** ** The unsorted writer *)

(** The loop of [StreamWriterUnsorted::poll]; each round uses up an answer of
    the channel or of the stream, or returns.  [None] means out of fuel. *)
Fixpoint unsorted_loop (fuel : nat) (buf : option SequencedPacket) (w : world)
    (rx : list rx_answer) (writes : list write_answer)
    : option (run (option SequencedPacket * world * task_poll)) :=
  match fuel with
  | O => None
  | S fuel' =>
      match buf with
      | None =>
          match rx with
          | RxPacket data :: rx' =>
              unsorted_loop fuel' (Some data) (MkWorld (received w ++ [data]) (wire w)) rx' writes
          | RxClosed :: _ => Some (Ret (None, w, TaskReady))
          | RxNotReady :: _ | [] => Some (Ret (None, w, TaskNotReady))
          | RxErr :: _ => Some Panic
          end
      | Some packet =>
          match writes with
          | WrErr kind :: writes' =>
              if indicates_dead_stream kind then Some (Ret (None, w, TaskErr))
              else unsorted_loop fuel' (Some packet) w rx writes'
          | WrReady n :: writes' =>
              let len := Nat.min n (length (data packet)) in
              let w := MkWorld (received w) (wire w ++ take len (data packet)) in
              if negb (len =? length (data packet))%nat then
                unsorted_loop fuel'
                  (Some (MkPacket (drop len (data packet)) (sequence_number packet) false)) w rx writes'
              else unsorted_loop fuel' None w rx writes'
          | WrNotReady :: _ | [] => Some (Ret (Some packet, w, TaskNotReady))
          end
      end
  end.

Definition poll_unsorted (buf : option SequencedPacket) (w : world) (s : script)
    : option (run (option SequencedPacket * world * task_poll)) :=
  unsorted_loop (S (length (rx s) + length (writes s))) buf w (rx s) (writes s).

(** ** What should reach the wire *)

(** The data of the packets numbered 0 to [k - 1], first arrivals only. *)
Definition in_order (ps : list SequencedPacket) (k : nat) : list Z :=
  seq 0 k ≫= λ i, match first_with (Z.of_nat i) ps with Some p => data p | None => [] end.

Definition all_arrived (ps : list SequencedPacket) (k : nat) : Prop :=
  ∀ i, (i < k)%nat → is_Some (first_with (Z.of_nat i) ps).

Definition numbers_ok (ps : list SequencedPacket) : bool :=
  forallb (λ p, sequence_number p + 1 <? 2 ^ 64) ps.

Definition channel_ok (ss : list script) : bool :=
  forallb (λ s, forallb (λ a, match a with
                              | RxErr => false
                              | RxPacket p => sequence_number p + 1 <? 2 ^ 64
                              | _ => true
                              end) (rx s)) ss.

Lemma in_order_S ps k p :
  first_with (Z.of_nat k) ps = Some p → in_order ps (S k) = in_order ps k ++ data p.
Proof.
  intros Hp. unfold in_order. rewrite seq_S, bind_app. simpl. by rewrite Hp, app_nil_r.
Qed.

Lemma in_order_snoc ps k p : all_arrived ps k → in_order (ps ++ [p]) k = in_order ps k.
Proof.
  induction k as [|k IH]; intros Ha; [done|].
  assert (all_arrived ps k) as Ha' by (intros i ?; apply Ha; lia).
  destruct (Ha k ltac:(lia)) as [q Hq].
  rewrite (in_order_S ps k q), (in_order_S (ps ++ [p]) k q), IH by (done || by rewrite first_with_snoc, Hq).
  done.
Qed.

Lemma all_arrived_snoc ps k p : all_arrived ps k → all_arrived (ps ++ [p]) k.
Proof. intros Ha i Hi. rewrite first_with_snoc. destruct (Ha i Hi) as [q ->]. by eexists. Qed.

Lemma first_with_number k ps p :
  first_with k ps = Some p → sequence_number p = k ∧ p ∈ ps.
Proof.
  unfold first_with. destruct (list_find _ ps) as [[i q]|] eqn:E; simpl; [|done].
  intros [= <-]. apply list_find_Some in E as (Hi & Hk & _). split; [done|].
  by eapply list_elem_of_lookup_2.
Qed.

(** ** The invariant of the sorted writer *)

(** [n] packets are on the wire in full and [sent] of the next one. *)
Definition progress (w : world) (a : pending) (n : nat) (sent : list Z) : Prop :=
  due a = Z.of_nat n ∧ wire w = in_order (received w) n ++ sent ∧
  all_arrived (received w) n ∧
  (∀ k, k ≠ Z.of_nat n →
     waiting a !! k = if Z.of_nat n <? k then first_with k (received w) else None) ∧
  match waiting a !! Z.of_nat n with
  | Some p => ∃ q, first_with (Z.of_nat n) (received w) = Some q ∧
      sequence_number p = Z.of_nat n ∧ last_data p = last_data q ∧ data q = sent ++ data p
  | None => sent = [] ∧ first_with (Z.of_nat n) (received w) = None
  end.

Lemma progress_new : progress (MkWorld [] []) spec_new 0 [].
Proof.
  split_and!; simpl; try done; [intros i ?; lia|]. intros k _. rewrite lookup_empty. by destruct (_ <? _).
Qed.

Lemma progress_push w a n sent p :
  progress w a n sent →
  progress (MkWorld (received w ++ [p]) (wire w)) (spec_push a p) n sent.
Proof.
  intros (Hd & Hw & Harr & Hrest & Hn). unfold spec_push, progress. cbn [received wire].
  rewrite in_order_snoc by done. split; [by destruct (_ && _)|]. split; [done|].
  split; [by apply all_arrived_snoc|].
  destruct (decide (sequence_number p = Z.of_nat n)) as [En|En].
  - (* a packet with the number due *)
    rewrite En, Hd, Z.leb_refl. cbn [andb]. split.
    + intros k Hk. rewrite first_with_snoc, decide_False by congruence.
      destruct (bool_decide _); cbn [waiting]; rewrite ?lookup_insert_ne, Hrest by done;
        (destruct (_ <? k); [|done]; by destruct (first_with k (received w))).
    + rewrite first_with_snoc. destruct (waiting a !! Z.of_nat n) as [q|] eqn:Eq.
      * rewrite bool_decide_eq_false_2 by done. rewrite Eq.
        destruct Hn as (q' & -> & Hq). by exists q'.
      * rewrite bool_decide_eq_true_2 by done. cbn [waiting]. rewrite lookup_insert_eq.
        destruct Hn as [-> ->]. rewrite decide_True by done. by exists p.
  - (* any other number *)
    assert (∀ m, waiting (if (due a <=? sequence_number p) && bool_decide (waiting a !! sequence_number p = None)
                   then MkPending (<[sequence_number p:=p]> (waiting a)) (due a) else a) !! m =
      if decide (sequence_number p = m)
      then (if Z.of_nat n <? m then first_with m (received w ++ [p]) else None)
      else waiting a !! m) as Hl.
    { intros m. rewrite Hd, (Hrest (sequence_number p)) by done.
      destruct (decide (sequence_number p = m)) as [<-|Hm].
      - rewrite first_with_snoc, decide_True by done.
        destruct (Z.leb_spec (Z.of_nat n) (sequence_number p)), (Z.ltb_spec (Z.of_nat n) (sequence_number p));
          try lia; cbn [andb].
        + case_bool_decide as Hf; cbn [waiting]; [by rewrite lookup_insert_eq, Hf|].
          rewrite Hrest by done. destruct (Z.ltb_spec (Z.of_nat n) (sequence_number p)); [|lia].
          by destruct (first_with (sequence_number p) (received w)).
        + rewrite Hrest by done. by destruct (Z.ltb_spec (Z.of_nat n) (sequence_number p)); [lia|].
      - destruct (_ && _); [|done]. cbn [waiting]. by rewrite lookup_insert_ne. }
    split.
    + intros k Hk. rewrite Hl. destruct (decide (sequence_number p = k)); [done|].
      rewrite Hrest, first_with_snoc, decide_False by done. destruct (_ <? k); [|done].
      by destruct (first_with k (received w)).
    + rewrite Hl, decide_False, first_with_snoc, decide_False by done.
      destruct (waiting a !! Z.of_nat n); [destruct Hn as (q & -> & Hq); by exists q|].
      by destruct Hn as [-> ->].
Qed.


(** The state between a poll and what follows it. *)
Definition polled (a : pending) (n : nat) : pending :=
  MkPending (delete (Z.of_nat n) (waiting a)) (Z.of_nat n + 1).

Lemma progress_poll w a n sent :
  progress w a n sent → numbers_ok (received w) = true →
  spec_poll a =
    match waiting a !! Z.of_nat n with
    | None => Ret (a, None)
    | Some p => Ret (polled a n, Some p)
    end.
Proof.
  intros (Hd & _ & _ & _ & Hn) Hok. unfold spec_poll, polled. rewrite Hd.
  destruct (waiting a !! Z.of_nat n) as [p|]; [|done]. destruct Hn as (q & Hq & _).
  apply first_with_number in Hq as [Hq Hin]. unfold numbers_ok in Hok. rewrite forallb_forall in Hok.
  apply list_elem_of_In in Hin. apply Hok in Hin. b2p. unfold panic_if.
  destruct (Z.leb_spec (2 ^ 64) (Z.of_nat n + 1)); [lia|done].
Qed.

(** Giving back what is left after [out] went to the wire. *)
Lemma progress_repush w a n sent p out rest :
  progress w a n sent → waiting a !! Z.of_nat n = Some p → data p = out ++ rest →
  ∃ a', spec_repush (polled a n) (MkPacket rest (sequence_number p) (last_data p)) = Ret a' ∧
    progress (MkWorld (received w) (wire w ++ out)) a' n (sent ++ out).
Proof.
  intros (Hd & Hw & Harr & Hrest & Hn) Hp Hdata. rewrite Hp in Hn.
  destruct Hn as (q & Hq & Hseq & Hlast & Hsplit).
  unfold spec_repush, polled. cbn [due sequence_number waiting].
  destruct (Z.leb_spec 1 (Z.of_nat n + 1)); [|lia].
  destruct (Z.eqb_spec (sequence_number p) (Z.of_nat n + 1 - 1)); [|lia]. cbn [andb].
  eexists. split; [done|]. unfold progress. cbn [due received wire waiting].
  rewrite Hseq, insert_delete_eq. split; [done|]. split; [by rewrite Hw, app_assoc|]. split; [done|].
  split; [intros k Hk; by rewrite lookup_insert_ne, Hrest|].
  rewrite lookup_insert_eq. exists q. cbn [sequence_number last_data data].
  split; [done|]. split; [done|]. split; [done|]. by rewrite <- app_assoc, <- Hdata.
Qed.

Lemma progress_done w a n sent p :
  progress w a n sent → waiting a !! Z.of_nat n = Some p →
  progress (MkWorld (received w) (wire w ++ data p)) (polled a n) (S n) [] ∧
  ∃ q, first_with (Z.of_nat n) (received w) = Some q ∧ last_data q = last_data p.
Proof.
  intros (Hd & Hw & Harr & Hrest & Hn) Hp. rewrite Hp in Hn.
  destruct Hn as (q & Hq & Hseq & Hlast & Hsplit). split; [|by exists q].
  unfold progress, polled. cbn [due received wire waiting].
  split; [lia|]. split; [rewrite (in_order_S _ _ q), Hw, Hsplit, app_nil_r, app_assoc by done; done|].
  split; [intros i Hi; destruct (decide (i = n)) as [->|]; [by eexists|apply Harr; lia]|].
  assert (∀ k, k ≠ Z.of_nat n → delete (Z.of_nat n) (waiting a) !! k =
    if Z.of_nat n <? k then first_with k (received w) else None) as Hdel.
  { intros k Hk. by rewrite lookup_delete_ne, Hrest. }
  split.
  - intros k Hk. destruct (decide (k = Z.of_nat n)) as [->|].
    + rewrite lookup_delete_eq. destruct (Z.ltb_spec (Z.of_nat (S n)) (Z.of_nat n)); [lia|done].
    + rewrite Hdel by done. destruct (Z.ltb_spec (Z.of_nat n) k), (Z.ltb_spec (Z.of_nat (S n)) k); done || lia.
  - rewrite Hdel by lia. destruct (Z.ltb_spec (Z.of_nat n) (Z.of_nat (S n))); [|lia].
    destruct (first_with (Z.of_nat (S n)) (received w)) as [r|] eqn:Er; [|done].
    exists r. by destruct (first_with_number _ _ _ Er).
Qed.

Section sorted_proofs.
Context {B : Type} `{!PacketBuffer B} `{!PacketBufferOk B}.

(** A packet marked last is the last one on the wire. *)
Definition closed_after (w : world) : Prop :=
  ∃ n q, wire w = in_order (received w) (S n) ∧ all_arrived (received w) (S n) ∧
    first_with (Z.of_nat n) (received w) = Some q ∧ last_data q = true.

Definition live (st : StreamWriterSorted B) (w : world) : Prop :=
  if shutting_down st then closed_after w
  else ∃ a n sent, pb_rep (sequence_buffer st) a ∧ progress w a n sent.

(** All that is due has been written, or the stream failed midway. *)
Definition drained (w : world) : Prop :=
  ∃ n, wire w = in_order (received w) n ∧ all_arrived (received w) n ∧
    first_with (Z.of_nat n) (received w) = None.

Definition wire_prefix (w : world) : Prop :=
  ∃ k, all_arrived (received w) k ∧ wire w `prefix_of` in_order (received w) k.

Definition written (st : StreamWriterSorted B) (w : world) (status : WriteBufferStatus) : Prop :=
  wire_prefix w ∧
  if shutting_down st then closed_after w
  else match status with
       | StreamInError => True
       | BufferNotEmpty => live st w
       | BufferEmpty => live st w ∧ drained w
       end.

Lemma progress_prefix w a n sent : progress w a n sent → wire_prefix w.
Proof.
  intros (Hd & Hw & Harr & Hrest & Hn). destruct (waiting a !! Z.of_nat n) as [p|].
  - destruct Hn as (q & Hq & _ & _ & Hsplit). exists (S n). split.
    + intros i Hi. destruct (decide (i = n)) as [->|]; [by eexists|apply Harr; lia].
    + rewrite (in_order_S _ _ q), Hw, Hsplit by done. exists (data p). by rewrite <- app_assoc.
  - destruct Hn as [-> _]. exists n. split; [done|]. by rewrite Hw, app_nil_r.
Qed.

Lemma closed_prefix w : closed_after w → wire_prefix w.
Proof. intros (n & q & Hw & Harr & _). exists (S n). by rewrite Hw. Qed.

(** A repush after a poll returns, at any prefix of the packet. *)
Lemma repush_step b a w n sent p len :
  pb_rep b (polled a n) → progress w a n sent → waiting a !! Z.of_nat n = Some p →
  ∃ b' a', pb_repush b (MkPacket (drop len (data p)) (sequence_number p) (last_data p)) = Ret b' ∧
    pb_rep b' a' ∧
    progress (MkWorld (received w) (wire w ++ take len (data p))) a' n (sent ++ take len (data p)).
Proof.
  intros Hb Hp Hn.
  destruct (progress_repush w a n sent p (take len (data p)) (drop len (data p))) as (a' & Ha & Hp');
    [done|done|by rewrite take_drop|].
  pose proof (pb_repush_ok _ _ (MkPacket (drop len (data p)) (sequence_number p) (last_data p)) Hb) as Hm.
  unfold matches in Hm. rewrite Ha in Hm. destruct Hm as (b' & Hb' & Hr). by exists b', a'.
Qed.

Lemma repush_whole b a w n sent p :
  pb_rep b (polled a n) → progress w a n sent → waiting a !! Z.of_nat n = Some p →
  ∃ b' a', pb_repush b p = Ret b' ∧ pb_rep b' a' ∧ progress w a' n sent.
Proof.
  intros Hb Hp Hn. destruct (repush_step b a w n sent p 0 Hb Hp Hn) as (b' & a' & Hr & Hb' & Hp').
  rewrite drop_0 in Hr. exists b', a'. destruct p, w. rewrite !take_0, !app_nil_r in Hp'. done.
Qed.

Lemma write_loop_ok answers b a w n sent sh :
  pb_rep b a → progress w a n sent → numbers_ok (received w) = true →
  ∃ st w' status, write_from_buffer_to_stream b w answers sh = Ret (st, w', status) ∧
    received w' = received w ∧ written st w' status.
Proof.
  revert b a w n sent; induction answers as [|ans answers IH]; intros b a w n sent Hb Hp Hok;
    cbn [write_from_buffer_to_stream];
    pose proof (pb_poll_ok b a Hb) as Hm; unfold matches in Hm;
    rewrite (progress_poll _ _ _ _ Hp Hok) in Hm;
    (destruct (waiting a !! Z.of_nat n) as [p|] eqn:En;
      [|destruct Hm as ([b' o] & -> & Hb' & Ho); simpl in Hb', Ho; subst o; cbn [mbind run_bind];
        eexists _, _, _; split; [done|]; split; [done|]; split; [by eapply progress_prefix|];
        cbn [shutting_down];
        split; [by exists a, n, sent|];
        destruct Hp as (_ & Hw & Harr & _ & Hn); rewrite En in Hn; destruct Hn as [-> Hf];
        exists n; by rewrite Hw, app_nil_r]);
    destruct Hm as ([b' o] & -> & Hb' & Ho); simpl in Hb', Ho; subst o; cbn [mbind run_bind].
  - destruct (repush_whole b' a w n sent p Hb' Hp En) as (b2 & a2 & -> & Hb2 & Hp2).
    cbn [mbind run_bind]. eexists _, _, _. split; [done|]. split; [done|].
    split; [by eapply progress_prefix|]. by exists a2, n, sent.
  - destruct ans as [kind| |len].
    + destruct (indicates_dead_stream kind).
      { eexists _, _, _. split; [done|]. split; [done|]. split; [by eapply progress_prefix|done]. }
      destruct (repush_whole b' a w n sent p Hb' Hp En) as (b2 & a2 & -> & Hb2 & Hp2).
      cbn [mbind run_bind]. by apply (IH b2 a2 w n sent).
    + destruct (repush_whole b' a w n sent p Hb' Hp En) as (b2 & a2 & -> & Hb2 & Hp2).
      cbn [mbind run_bind]. eexists _, _, _. split; [done|]. split; [done|].
      split; [by eapply progress_prefix|]. by exists a2, n, sent.
    + destruct (Nat.eqb_spec (Nat.min len (length (data p))) (length (data p))) as [El|El]; cbn [negb].
      * rewrite take_ge by lia.
        destruct (progress_done w a n sent p Hp En) as [Hp2 (q & Hq & Hlast)].
        destruct (last_data p) eqn:Elast.
        -- assert (closed_after (MkWorld (received w) (wire w ++ data p))) as Hcl.
           { exists n, q. destruct Hp2 as (_ & Hw & Harr & _ & _). rewrite app_nil_r in Hw. done. }
           eexists _, _, _. split; [done|]. split; [done|]. split; [by apply closed_prefix|done].
        -- by apply (IH b' (polled a n) (MkWorld (received w) (wire w ++ data p)) (S n) []).
      * destruct (repush_step b' a w n sent p (Nat.min len (length (data p))) Hb' Hp En)
          as (b2 & a2 & -> & Hb2 & Hp2). cbn [mbind run_bind].
        by apply (IH b2 a2 (MkWorld (received w) _) n (sent ++ take (Nat.min len (length (data p))) (data p))).
Qed.

Lemma read_loop_ok answers b a w n sent :
  pb_rep b a → progress w a n sent → numbers_ok (received w) = true →
  channel_ok [MkScript answers [] []] = true →
  ∃ b' w' status a', read_data_from_channel b w answers = Ret (b', w', status) ∧
    pb_rep b' a' ∧ progress w' a' n sent ∧ numbers_ok (received w') = true.
Proof.
  unfold channel_ok. cbn [forallb rx]. rewrite andb_true_r.
  revert b a w; induction answers as [|[p| | |] answers IH]; intros b a w Hb Hp Hok Hch; simpl in Hch;
    try done; cbn [read_data_from_channel]; try (by eexists b, w, _, a).
  apply andb_true_iff in Hch as [Hn Hch].
  apply (IH _ (spec_push a p)); [by apply pb_push_ok|by apply progress_push| |done].
  cbn [received]. unfold numbers_ok. rewrite forallb_app. fold (numbers_ok (received w)). rewrite Hok. simpl. by rewrite Hn.
Qed.

Lemma run_sorted_ok ss st w :
  live st w → (shutting_down st = false → numbers_ok (received w) = true) → channel_ok ss = true →
  ∃ st' w' r, run_sorted st w ss = Ret (st', w', r) ∧ wire_prefix w' ∧
    (shutting_down st' = true → closed_after w') ∧
    (r = TaskReady → shutting_down st' = false → drained w').
Proof.
  revert st w; induction ss as [|s ss IH]; intros st w Hl Hok Hch; cbn [run_sorted].
  - eexists st, w, _. split; [done|]. unfold live in Hl. destruct (shutting_down st).
    + split; [by apply closed_prefix|done].
    + split; [|done]. destruct Hl as (a & n & sent & _ & Hp). by eapply progress_prefix.
  - unfold poll_sorted. destruct (shutting_down st) eqn:Esh.
    + unfold live in Hl. rewrite Esh in Hl. cbn [mbind run_bind].
      destruct (shutdown (shutdowns s)); [|eexists st, w, _; split; [done|]..].
      * apply IH; [unfold live; by rewrite Esh|by rewrite Esh|]. simpl in Hch. by b2p.
      * split; [by apply closed_prefix|]. by rewrite Esh.
      * split; [by apply closed_prefix|]. by rewrite Esh.
    + unfold live in Hl. rewrite Esh in Hl. destruct Hl as (a & n & sent & Hb & Hp).
      simpl in Hch. apply andb_true_iff in Hch as [Hs Hch].
      destruct (read_loop_ok (rx s) (sequence_buffer st) a w n sent Hb Hp (Hok eq_refl))
        as (b1 & w1 & status & a1 & -> & Hb1 & Hp1 & Hok1); [by simpl; rewrite Hs|]. cbn [mbind run_bind].
      destruct (write_loop_ok (writes s) b1 a1 w1 n sent (shutdowns s) Hb1 Hp1 Hok1)
        as (st2 & w2 & wstatus & -> & Hrec & Hpre & Hwr). cbn [mbind run_bind].
      assert (numbers_ok (received w2) = true) as Hok2 by by rewrite Hrec.
      destruct (shutting_down st2) eqn:Esh2.
      * assert (live st2 w2) by (unfold live; by rewrite Esh2).
        destruct status, wstatus; (apply IH; done) || (eexists _, _, _; split; [done|]; by rewrite Esh2).
      * destruct status, wstatus;
          (apply IH; [by destruct Hwr| |]; done) || (apply IH; done) ||
          (eexists _, _, _; split; [done|]; rewrite Esh2; split; [done|]; split; [done|]; intros; by try destruct Hwr).
Qed.
End sorted_proofs.


(** ** The unsorted writer, lemmas *)

Definition run_unsorted : option SequencedPacket → world → list script →
    option (run (option SequencedPacket * world * task_poll)) :=
  fix go buf w ss :=
    match ss with
    | [] => Some (Ret (buf, w, TaskNotReady))
    | s :: ss' =>
        match poll_unsorted buf w s with
        | Some (Ret (buf, w, TaskNotReady)) => go buf w ss'
        | r => r
        end
    end.

Definition arrival_order (ps : list SequencedPacket) : list Z := ps ≫= data.

Definition buffered (buf : option SequencedPacket) : list Z :=
  match buf with Some p => data p | None => [] end.

(** What is on the wire and in the buffer is what has arrived. *)
Definition conserved (buf : option SequencedPacket) (w : world) : Prop :=
  wire w ++ buffered buf = arrival_order (received w).

Definition no_rx_error (s : script) : bool :=
  forallb (λ a, match a with RxErr => false | _ => true end) (rx s).

Definition unsorted_outcome (o : option (run (option SequencedPacket * world * task_poll))) : Prop :=
  ∃ buf w r, o = Some (Ret (buf, w, r)) ∧
    match r with
    | TaskErr => wire w `prefix_of` arrival_order (received w)
    | TaskNotReady => conserved buf w
    | TaskReady => wire w = arrival_order (received w)
    end.

Lemma unsorted_loop_ok fuel buf w rxs wrs :
  (length rxs + length wrs < fuel)%nat → conserved buf w →
  forallb (λ a, match a with RxErr => false | _ => true end) rxs = true →
  unsorted_outcome (unsorted_loop fuel buf w rxs wrs).
Proof.
  revert buf w rxs wrs; induction fuel as [|fuel IH]; intros buf w rxs wrs Hf Hc Hrx; [lia|].
  cbn [unsorted_loop]. destruct buf as [p|].
  - destruct wrs as [|[kind| |n] wrs]; [by eexists _, _, _| |by eexists _, _, _|].
    + destruct (indicates_dead_stream kind); [|apply IH; [simpl in Hf; lia|done|done]].
      eexists _, _, _. split; [done|]. simpl. exists (data p). by rewrite <- Hc.
    + unfold conserved in Hc. simpl in Hc.
      destruct (Nat.eqb_spec (Nat.min n (length (data p))) (length (data p))) as [El|El]; cbn [negb];
        (apply IH; [simpl in Hf; lia| |done]); unfold conserved; cbn [wire received buffered data].
      * by rewrite take_ge, app_nil_r by lia.
      * by rewrite <- app_assoc, take_drop.
  - unfold conserved in Hc. simpl in Hc. rewrite app_nil_r in Hc.
    destruct rxs as [|[p| | |] rxs]; simpl in Hrx; try done.
    + eexists _, _, _. split; [done|]. unfold conserved. simpl. by rewrite app_nil_r.
    + apply IH; [simpl in Hf; lia| |done]. unfold conserved, arrival_order. cbn [wire received buffered].
      rewrite bind_app. simpl. by rewrite app_nil_r, Hc.
    + by eexists _, _, _.
    + eexists _, _, _. split; [done|]. unfold conserved. simpl. by rewrite app_nil_r.
Qed.

Lemma run_unsorted_ok ss buf w :
  conserved buf w → forallb no_rx_error ss = true → unsorted_outcome (run_unsorted buf w ss).
Proof.
  revert buf w; induction ss as [|s ss IH]; intros buf w Hc Hrx; [by eexists _, _, _|].
  simpl in Hrx. b2p. cbn [run_unsorted]. unfold poll_unsorted.
  destruct (unsorted_loop_ok (S (length (rx s) + length (writes s))) buf w (rx s) (writes s))
    as (buf' & w' & r & -> & Hr); [lia|done|done|].
  destruct r; [|by apply IH|]; by eexists _, _, _.
Qed.

(** ** Properties *)

(** C26: the sorted writer neither loses, repeats nor reorders data. For any
    packets with numbers below 2^64 - 1 in any order and any answers of the stream
    (partial writes, would-block, transient and fatal errors) over any number of
    polls, the task never panics (in particular [repush] is never misused), the
    bytes on the wire are a prefix of the data of the packets 0, 1, 2, ... (first
    arrivals), after a packet marked last nothing more is written and the wire
    holds exactly the data up to that packet, and a task that finishes otherwise
    has written every packet whose turn came. *)
Theorem sorted_writer_preserves_stream {B : Type} `{!PacketBuffer B} `{!PacketBufferOk B}
    (ss : list script) :
  channel_ok ss = true →
  ∃ st w r, run_sorted (B:=B) sorted_new (MkWorld [] []) ss = Ret (st, w, r) ∧ wire_prefix w ∧
    (shutting_down st = true → closed_after w) ∧
    (r = TaskReady → shutting_down st = false → drained w).
Proof.
  intros Hch. apply run_sorted_ok; [|done|done].
  exists spec_new, 0%nat, []. split; [apply pb_new_ok|apply progress_new].
Qed.

Definition demo_scripts : list script :=
  [MkScript [RxPacket (MkPacket [3; 4; 5] 1 true); RxPacket (MkPacket [1; 2] 0 false)]
            [WrReady 1; WrErr (OtherKind 0); WrReady 1; WrReady 2; WrNotReady] [];
   MkScript [RxPacket (MkPacket [9] 2 false); RxClosed] [WrReady 1] [ShNotReady];
   MkScript [] [] [ShReady]].

Lemma sorted_writer_preserves_stream_witness :
  ∃ st w r, run_sorted (B:=SequenceBuffer) sorted_new (MkWorld [] []) demo_scripts = Ret (st, w, r) ∧
    wire_prefix w ∧ (shutting_down st = true → closed_after w) ∧
    (r = TaskReady → shutting_down st = false → drained w).
Proof. apply (sorted_writer_preserves_stream (B:=SequenceBuffer)). reflexivity. Defined.

Example demo_scripts_wire :
  match run_sorted (B:=SequenceBuffer) sorted_new (MkWorld [] []) demo_scripts with
  | Ret (st, w, r) => (wire w, shutting_down st, r) = ([1; 2; 3; 4; 5], true, TaskReady)
  | Panic => False
  end.
Proof. vm_compute. reflexivity. Qed.

(** The unsorted writer is first in, first out.  For any answers of
    channel and stream every poll terminates, what is on the wire followed by
    the packet held back is exactly the data received in order of arrival; a
    finished task has written all of it and a failed one a prefix. *)
Lemma unsorted_writer_fifo (ss : list script) :
  forallb no_rx_error ss = true → unsorted_outcome (run_unsorted None (MkWorld [] []) ss).
Proof. intros. by apply run_unsorted_ok. Qed.


End Writers.
