(* ===== verification/Framer.v ===== *)
(** * Framers and discriminators

    Models [node/src/sub_lib/framer.rs] (the trait that turns a byte stream into
    frames), [node/src/discriminator.rs] and [node/src/null_masquerader.rs].
    Masqueraders are an interface too; the framers themselves are in
    [TlsFramer.v], [JsonFramer.v] and [HttpFramer.v]. *)
From S2P Require Import Prelude.
From Stdlib Require Import String.
From stdpp Require Import base list.

Module Framer.

Record FramedChunk := MkChunk {
  chunk : list Z;
  last_chunk : bool
}.

(** [trait Framer]. *)
Class Framer (F : Type) := {
  add_data : F → list Z → F;
  take_frame : F → run (F * option FramedChunk)
}.

(** What [stream_reader] does with a framer: add what was read, then take
    frames until there is none. *)
Fixpoint take_all {F} `{!Framer F} (fuel : nat) (f : F) : run (F * list FramedChunk) :=
  match fuel with
  | O => Ret (f, [])
  | S fuel' =>
      '(f, frame) ← take_frame f;
      match frame with
      | None => Ret (f, [])
      | Some c => '(f, cs) ← take_all fuel' f; Ret (f, c :: cs)
      end
  end.

Fixpoint feed {F} `{!Framer F} (fuel : nat) (f : F) (pieces : list (list Z))
    : run (F * list FramedChunk) :=
  match pieces with
  | [] => Ret (f, [])
  | p :: pieces' =>
      '(f, cs) ← take_all fuel (add_data f p);
      '(f, cs') ← feed fuel f pieces';
      Ret (f, cs ++ cs')
  end.

(** ** Discriminator *)

Record UnmaskedChunk := MkUnmasked {
  u_chunk : list Z;
  u_last_chunk : bool;
  sequenced : bool
}.

Inductive MasqueradeError :=
| NotThisMasquerader
| LowLevelDataError (msg : string)
| MidLevelDataError (msg : string)
| HighLevelDataError (msg : string).

Definition Masquerader : Type := list Z → result MasqueradeError UnmaskedChunk.

(** [NullMasquerader::try_unmask]. *)
Definition null_try_unmask : Masquerader := λ item, Ok (MkUnmasked item true true).

(** The first masquerader that accepts the chunk. *)
Fixpoint try_masqueraders (ms : list Masquerader) (c : list Z) : option UnmaskedChunk :=
  match ms with
  | [] => None
  | m :: ms' =>
      match m c with
      | Ok u => Some u
      | Err _ => try_masqueraders ms' c
      end
  end.

Record Discriminator (F : Type) := MkDiscriminator {
  framer : F;
  masqueraders : list Masquerader
}.
Arguments MkDiscriminator {F} framer masqueraders.
Arguments framer {F} d.
Arguments masqueraders {F} d.

Section discriminator.
Context {F : Type} `{!Framer F}.

Definition discriminator_new (f : F) (ms : list Masquerader) : run (Discriminator F) :=
  match ms with [] => Panic | _ => Ret (MkDiscriminator f ms) end.

Definition discriminator_add_data (d : Discriminator F) (data : list Z) : Discriminator F :=
  MkDiscriminator (add_data (framer d) data) (masqueraders d).

Definition take_chunk (d : Discriminator F) : run (Discriminator F * option UnmaskedChunk) :=
  '(f, frame) ← take_frame (framer d);
  let d := MkDiscriminator f (masqueraders d) in
  match frame with
  | None => Ret (d, None)
  | Some frame => Ret (d, try_masqueraders (masqueraders d) (chunk frame))
  end.
End discriminator.

End Framer.
