(* ===== verification/TlsFramer.v ===== *)
(** * The TLS framer

    Models [node/src/sub_lib/tls_framer.rs]: it cuts a byte stream into TLS
    records by looking for a record header.  The state is the buffer
    [data_so_far].  The search loop is bounded by fuel, one more than the number
    of bytes; running out would be a [Panic], which the theorems exclude. *)
From S2P Require Import Prelude.
From S2P Require Import Utils.
From S2P Require Import Framer.
From stdpp Require Import base list.

Module Tls.
Import Framer.
Local Open Scope Z_scope.

Definition PRESERVE_HEADER_LEN : nat := 4.

(** ** Operations *)

Definition is_valid_content_type (candidate : Z) : bool :=
  (0x14 <=? candidate) && (candidate <=? 0x17).

Definition is_valid_protocol_version (byte1 byte2 : Z) : bool :=
  (byte1 =? 0x03) && ((byte2 =? 0x01) || (byte2 =? 0x03)).

Definition convert_to_usize (hi_byte lo_byte : Z) : nat :=
  Z.to_nat (Z.lor (Z.shiftl hi_byte 8) lo_byte).

Definition search_for_frame_offset (data : list Z) : run (result nat nat) :=
  match Utils.index_of data [0x03] with
  | None => Ret (Err 0%nat)
  | Some O => Ret (Err 1%nat)
  | Some possible =>
      let offset := (possible - 1)%nat in
      if (length data <=? offset + 4)%nat then Ret (Err 0%nat)
      else
        c ← get data offset;
        v1 ← get data (offset + 1);
        v2 ← get data (offset + 2);
        if is_valid_content_type c && is_valid_protocol_version v1 v2 then Ret (Ok offset)
        else Ret (Err (offset + 1)%nat)
  end.

Fixpoint find_frame_offset_loop (fuel : nat) (data : list Z) (accumulated_offset : nat)
    : run (option nat) :=
  match fuel with
  | O => Panic
  | S fuel' =>
      rest ← slice_from data accumulated_offset;
      r ← search_for_frame_offset rest;
      match r with
      | Ok offset => Ret (Some (accumulated_offset + offset)%nat)
      | Err O => Ret None
      | Err next_offset => find_frame_offset_loop fuel' data (accumulated_offset + next_offset)
      end
  end.

Definition find_frame_offset (data : list Z) : run (option nat) :=
  find_frame_offset_loop (S (length data)) data 0.

Definition tls_add_data (data_so_far data : list Z) : list Z := data_so_far ++ data.

Definition tls_take_frame (data_so_far : list Z) : run (list Z * option FramedChunk) :=
  let data_so_far_len := length data_so_far in
  o ← find_frame_offset data_so_far;
  match o with
  | None =>
      let split_point :=
        if (data_so_far_len <? PRESERVE_HEADER_LEN)%nat then data_so_far_len
        else (data_so_far_len - PRESERVE_HEADER_LEN)%nat in
      '(_, data_so_far) ← split_off data_so_far split_point;
      Ret (data_so_far, None)
  | Some offset =>
      '(_, from_offset) ← split_off data_so_far offset;
      hi ← get from_offset 3;
      lo ← get from_offset 4;
      let len := convert_to_usize hi lo in
      if (5 + len <=? length from_offset)%nat then
        '(chunk, leftovers) ← split_off from_offset (5 + len);
        Ret (leftovers, Some (MkChunk chunk false))
      else Ret (from_offset, None)
  end.

Global Instance tls_framer : Framer (list Z) := {|
  add_data := tls_add_data; take_frame := tls_take_frame
|}.

(** ** Specification *)

(** A complete record header stands at [o]. *)
Definition header_at (data : list Z) (o : nat) : bool :=
  match data !! o, data !! (o + 1)%nat, data !! (o + 2)%nat with
  | Some c, Some v1, Some v2 =>
      is_valid_content_type c && is_valid_protocol_version v1 v2 && (o + 4 <? length data)%nat
  | _, _, _ => false
  end.

Lemma header_at_03 data o :
  header_at data o = true → data !! (o + 1)%nat = Some 0x03 ∧ (o + 4 < length data)%nat ∧
    data !! o ≠ Some 0x03.
Proof.
  unfold header_at. destruct (data !! o) as [c|], (data !! (o + 1)%nat) as [v1|],
    (data !! (o + 2)%nat) as [v2|]; try done. intros H.
  unfold is_valid_content_type, is_valid_protocol_version in H. b2p.
  split; [congruence|]. split; [done|]. intros [= ->]. lia.
Qed.

Lemma header_at_drop data n o : header_at (drop n data) o = header_at data (n + o)%nat.
Proof.
  unfold header_at. rewrite !lookup_drop, !Nat.add_assoc.
  destruct (data !! (n + o)%nat), (data !! (n + o + 1)%nat), (data !! (n + o + 2)%nat) eqn:E2; try done.
  f_equal. apply lookup_lt_Some in E2. rewrite length_drop.
  destruct (Nat.ltb_spec (o + 4) (length data - n)), (Nat.ltb_spec (n + o + 4) (length data)); done || lia.
Qed.

Lemma search_spec data :
  ∃ r, search_for_frame_offset data = Ret r ∧
    match r with
    | Ok o => header_at data o = true ∧ ∀ j, (j < o)%nat → header_at data j = false
    | Err O => ∀ j, header_at data j = false
    | Err n => (n ≤ length data)%nat ∧ ∀ j, (j < n)%nat → header_at data j = false
    end.
Proof.
  unfold search_for_frame_offset.
  pose proof (Utils.index_of_spec data [0x03] ltac:(done)) as Hidx.
  assert (∀ j, data !! (j + 1)%nat ≠ Some 0x03 → header_at data j = false) as Hno.
  { intros j Hj. destruct (header_at data j) eqn:E; [|done]. by apply header_at_03 in E as [? _]. }
  destruct (Utils.index_of data [0x03]) as [[|p]|].
  - destruct Hidx as (Ho & _ & Hl). apply Utils.occurs_singleton in Ho.
    eexists. split; [done|]. simpl. split; [simpl in Hl; lia|]. intros j Hj.
    replace j with 0%nat by lia. destruct (header_at data 0) eqn:E; [|done].
    by apply header_at_03 in E as (_ & _ & ?).
  - destruct Hidx as (Ho & Hfirst & Hl). apply Utils.occurs_singleton in Ho. simpl in Hl.
    rewrite Nat.sub_succ, Nat.sub_0_r.
    assert (∀ j, (j < p)%nat → header_at data j = false) as Hlt.
    { intros j Hj. apply Hno. intros H. apply (Hfirst (j + 1)%nat); [lia|]. by apply Utils.occurs_singleton. }
    destruct (Nat.leb_spec (length data) (p + 4)).
    + eexists. split; [done|]. simpl. intros j. destruct (header_at data j) eqn:E; [|done].
      pose proof (header_at_03 _ _ E) as (_ & ? & _).
      rewrite Hlt in E; [done|lia].
    + destruct (lookup_lt_is_Some_2 data p ltac:(lia)) as [c Hc].
      destruct (lookup_lt_is_Some_2 data (p + 1) ltac:(lia)) as [v1 Hv1].
      destruct (lookup_lt_is_Some_2 data (p + 2) ltac:(lia)) as [v2 Hv2].
      rewrite (get_lookup _ _ _ Hc), (get_lookup _ _ _ Hv1), (get_lookup _ _ _ Hv2).
      cbn [mbind run_bind].
      assert (header_at data p = is_valid_content_type c && is_valid_protocol_version v1 v2) as Hh.
      { unfold header_at. rewrite Hc, Hv1, Hv2.
        destruct (Nat.ltb_spec (p + 4) (length data)); [apply andb_true_r|lia]. }
      rewrite <- Hh. destruct (header_at data p) eqn:E; eexists; (split; [done|]); simpl; [done|].
      rewrite Nat.add_1_r. split; [lia|]. intros j Hj.
      destruct (decide (j = p)) as [->|]; [done|]. apply Hlt. lia.
  - eexists. split; [done|]. simpl. intros j. apply Hno. intros H. apply (Hidx (j + 1)%nat).
    by apply Utils.occurs_singleton.
Qed.

Lemma find_loop_spec fuel data acc :
  (acc ≤ length data)%nat → (length data - acc < fuel)%nat →
  (∀ j, (j < acc)%nat → header_at data j = false) →
  ∃ r, find_frame_offset_loop fuel data acc = Ret r ∧
    match r with
    | Some o => header_at data o = true ∧ ∀ j, (j < o)%nat → header_at data j = false
    | None => ∀ j, header_at data j = false
    end.
Proof.
  revert acc; induction fuel as [|fuel IH]; intros acc Hacc Hfuel Hno; [lia|].
  cbn [find_frame_offset_loop]. rewrite slice_from_ok by done. cbn [mbind run_bind].
  destruct (search_spec (drop acc data)) as (r & -> & Hr). cbn [mbind run_bind].
  assert (∀ n, (∀ j, (j < n)%nat → header_at (drop acc data) j = false) →
    ∀ j, (j < acc + n)%nat → header_at data j = false) as Hext.
  { intros n Hn j Hj. destruct (decide (j < acc)%nat); [by apply Hno|].
    specialize (Hn (j - acc)%nat ltac:(lia)). rewrite header_at_drop in Hn.
    by replace (acc + (j - acc))%nat with j in Hn by lia. }
  destruct r as [o|[|n]].
  - eexists. split; [done|]. simpl. destruct Hr as [Ho Hlt]. rewrite header_at_drop in Ho.
    split; [done|]. by apply Hext.
  - eexists. split; [done|]. simpl. intros j. destruct (decide (j < acc)%nat); [by apply Hno|].
    specialize (Hr (j - acc)%nat). rewrite header_at_drop in Hr.
    by replace (acc + (j - acc))%nat with j in Hr by lia.
  - destruct Hr as [Hn Hlt]. rewrite length_drop in Hn. apply IH; [lia|lia|]. by apply Hext.
Qed.

Lemma find_spec data :
  ∃ r, find_frame_offset data = Ret r ∧
    match r with
    | Some o => header_at data o = true ∧ ∀ j, (j < o)%nat → header_at data j = false
    | None => ∀ j, header_at data j = false
    end.
Proof. apply find_loop_spec; lia. Qed.

(** ** Streams of records *)

Record record := MkRec {
  rec_type : Z;
  rec_version : Z;   (** the low byte of the protocol version *)
  payload : list Z
}.

Definition record_ok (r : record) : bool :=
  is_valid_content_type (rec_type r) && is_valid_protocol_version 0x03 (rec_version r)
  && (Z.of_nat (length (payload r)) <? 2 ^ 16).

Definition header (r : record) : list Z :=
  [rec_type r; 0x03; rec_version r;
   Z.of_nat (length (payload r)) / 2 ^ 8; Z.of_nat (length (payload r)) mod 2 ^ 8].

Definition encode (r : record) : list Z := header r ++ payload r.

Definition encode_all (rs : list record) : list Z := rs ≫= encode.

(** How many bytes of an unfinished record the first [n] bytes leave. *)
Fixpoint leftover (n : nat) (rs : list record) : nat :=
  match rs with
  | [] => n
  | r :: rs' => if (length (encode r) <=? n)%nat then leftover (n - length (encode r)) rs' else n
  end.

(** No piece ends one to three bytes into a record. *)
Fixpoint cuts_ok (n : nat) (pieces : list (list Z)) (rs : list record) : bool :=
  match pieces with
  | [] => true
  | p :: pieces' =>
      let n' := (n + length p)%nat in
      negb ((1 <=? leftover n' rs)%nat && (leftover n' rs <=? 3)%nat) && cuts_ok n' pieces' rs
  end.

Lemma convert_length (n : nat) :
  convert_to_usize (Z.of_nat n / 2 ^ 8) (Z.of_nat n mod 2 ^ 8) = n.
Proof.
  unfold convert_to_usize. rewrite Z.shiftl_mul_pow2, Z.lor_comm by lia.
  change (2 ^ 8) with (2 ^ Z.of_nat 8).
  rewrite lor_mul_pow2 by (apply Z.mod_pos_bound; pose proof (pow2_pos 8); lia).
  rewrite Z.add_comm, Z.mul_comm, <- Z.div_mod by (pose proof (pow2_pos 8); lia). lia.
Qed.

Lemma header_at_0 r rest : record_ok r = true → header_at (header r ++ rest) 0 = true.
Proof.
  intros H. unfold record_ok in H. apply andb_true_iff in H as [H _]. unfold header_at, header. simpl.
  unfold is_valid_protocol_version in *. simpl in *. rewrite H. done.
Qed.

Lemma find_header r rest : record_ok r = true → find_frame_offset (header r ++ rest) = Ret (Some 0%nat).
Proof.
  intros H. pose proof (header_at_0 r rest H) as H0.
  destruct (find_spec (header r ++ rest)) as (o & -> & Ho). destruct o as [o|].
  - destruct Ho as [_ Hlt]. destruct o as [|o]; [done|]. rewrite Hlt in H0; [done|lia].
  - by rewrite Ho in H0.
Qed.

Lemma length_encode r : length (encode r) = (5 + length (payload r))%nat.
Proof. unfold encode. by rewrite length_app. Qed.

(** A header followed by anything: the record is taken as soon as it is there. *)
Lemma take_frame_header r rest :
  record_ok r = true →
  tls_take_frame (header r ++ rest) =
    if (length (payload r) <=? length rest)%nat
    then Ret (drop (length (payload r)) rest,
              Some (MkChunk (header r ++ take (length (payload r)) rest) false))
    else Ret (header r ++ rest, None).
Proof.
  intros H. unfold tls_take_frame. rewrite find_header by done. cbn [mbind run_bind].
  rewrite split_off_ok by lia. cbn [mbind run_bind]. rewrite drop_0.
  change (get (header r ++ rest) 3) with (Ret (Z.of_nat (length (payload r)) / 2 ^ 8)).
  change (get (header r ++ rest) 4) with (Ret (Z.of_nat (length (payload r)) mod 2 ^ 8)).
  cbn [mbind run_bind]. rewrite convert_length. rewrite length_app.
  change (length (header r)) with 5%nat.
  destruct (Nat.leb_spec (5 + length (payload r)) (5 + length rest)),
    (Nat.leb_spec (length (payload r)) (length rest)); try lia; [|done].
  rewrite split_off_ok by (rewrite length_app; done). cbn [mbind run_bind].
  rewrite take_app_ge, drop_app_ge by (simpl; lia). change (length (header r)) with 5%nat.
  by replace (5 + length (payload r) - 5)%nat with (length (payload r)) by lia.
Qed.

Lemma take_frame_short buf :
  (length buf < 5)%nat →
  tls_take_frame buf = Ret (if (length buf =? 4)%nat then buf else [], None).
Proof.
  intros Hl. unfold tls_take_frame. destruct (find_spec buf) as (o & -> & Ho). cbn [mbind run_bind].
  destruct o as [o|].
  { destruct Ho as [Ho _]. apply header_at_03 in Ho as (_ & ? & _). lia. }
  unfold PRESERVE_HEADER_LEN.
  destruct (Nat.ltb_spec (length buf) 4), (Nat.eqb_spec (length buf) 4); try lia;
    rewrite split_off_ok by lia; cbn [mbind run_bind]; do 2 f_equal.
  - by rewrite drop_ge.
  - replace (length buf - 4)%nat with 0%nat by lia. done.
Qed.

(** A proper prefix of a record of zero, four or more bytes is kept. *)
Lemma take_frame_incomplete r buf rest :
  record_ok r = true → buf ++ rest = encode r → rest ≠ [] →
  ¬ (1 ≤ length buf ≤ 3)%nat → tls_take_frame buf = Ret (buf, None).
Proof.
  intros Hok Hbuf Hrest Htiny. destruct (decide (length buf < 5)%nat) as [Hs|Hs].
  - rewrite take_frame_short by done. destruct (Nat.eqb_spec (length buf) 4); [done|].
    destruct buf; [done|]. simpl in *. lia.
  - assert (buf = header r ++ drop 5 buf) as Hb.
    { rewrite <- (take_drop 5 buf) at 1. f_equal.
      assert (take 5 (buf ++ rest) = take 5 (encode r)) as Ht by by rewrite Hbuf.
      rewrite take_app_le in Ht by lia. by rewrite Ht. }
    assert (length (drop 5 buf) < length (payload r))%nat as Hlt.
    { apply (f_equal length) in Hbuf. rewrite length_app, length_encode in Hbuf.
      destruct rest; [done|]. simpl in Hbuf. rewrite length_drop. lia. }
    rewrite Hb at 1. rewrite take_frame_header by done.
    destruct (Nat.leb_spec (length (payload r)) (length (drop 5 buf))); [lia|]. by rewrite <- Hb.
Qed.

Lemma take_frame_record r rest :
  record_ok r = true →
  tls_take_frame (encode r ++ rest) = Ret (rest, Some (MkChunk (encode r) false)).
Proof.
  intros Hok. unfold encode. rewrite <- app_assoc, take_frame_header by done.
  destruct (Nat.leb_spec (length (payload r)) (length (payload r ++ rest))) as [|Hl];
    [|rewrite length_app in Hl; lia].
  by rewrite drop_app_length, take_app_length.
Qed.

Lemma take_all_spec rs buf rest fuel :
  forallb record_ok rs = true → buf ++ rest = encode_all rs → (length rs < fuel)%nat →
  ¬ (1 ≤ leftover (length buf) rs ≤ 3)%nat →
  ∃ rs1 rs2 buf', rs = rs1 ++ rs2 ∧ buf = encode_all rs1 ++ buf' ∧
    leftover (length buf) rs = length buf' ∧ leftover (length buf') rs2 = length buf' ∧
    take_all fuel buf = Ret (buf', (λ r, MkChunk (encode r) false) <$> rs1).
Proof.
  revert buf rest fuel; induction rs as [|r rs IH]; intros buf rest fuel Hok Hbuf Hf Ht;
    (destruct fuel as [|fuel]; [simpl in Hf; lia|]); cbn [take_all]; cbn [take_frame tls_framer].
  - destruct buf; [|done]. exists [], [], []. repeat split.
  - simpl in Hok. b2p. change (encode_all (r :: rs)) with (encode r ++ encode_all rs) in Hbuf.
    cbn [leftover] in Ht |- *.
    destruct (Nat.leb_spec (length (encode r)) (length buf)) as [Hle|Hgt].
    + assert (∃ buf2, buf = encode r ++ buf2 ∧ buf2 ++ rest = encode_all rs) as (buf2 & -> & Hb2).
      { exists (drop (length (encode r)) buf). assert (buf = encode r ++ drop (length (encode r)) buf) as Hb.
        { rewrite <- (take_drop (length (encode r)) buf) at 1. f_equal.
          apply (f_equal (take (length (encode r)))) in Hbuf.
          by rewrite take_app_le, take_app_length in Hbuf. }
        split; [done|]. rewrite Hb, <- app_assoc in Hbuf. by apply app_inv_head in Hbuf. }
      rewrite length_app in Ht |- *. replace (length (encode r) + length buf2 - length (encode r))%nat
        with (length buf2) in Ht |- * by lia.
      rewrite take_frame_record by done. cbn [mbind run_bind].
      destruct (IH buf2 rest fuel) as (rs1 & rs2 & buf' & -> & -> & Hl1 & Hl2 & Hta);
        [done|done|simpl in Hf; lia|done|].
      rewrite Hta. cbn [mbind run_bind]. exists (r :: rs1), rs2, buf'.
      split; [done|]. split; [|by split_and!].
      change (encode_all (r :: rs1)) with (encode r ++ encode_all rs1). by rewrite app_assoc.
    + assert (∃ rest2, buf ++ rest2 = encode r ∧ rest2 ≠ []) as (rest2 & Hr2 & Hne).
      { exists (drop (length buf) (encode r)). apply (f_equal (take (length buf))) in Hbuf.
        rewrite take_app_length, take_app_le in Hbuf by lia. split.
        - rewrite Hbuf at 1. apply take_drop.
        - intros Hd. apply (f_equal length) in Hd. rewrite length_drop in Hd. cbn [length] in Hd. lia. }
      rewrite (take_frame_incomplete r buf rest2) by done. cbn [mbind run_bind].
      exists [], (r :: rs), buf. split_and!; try done. cbn [leftover].
      by destruct (Nat.leb_spec (length (encode r)) (length buf)); [lia|].
Qed.

Lemma leftover_app rs1 rs2 n :
  leftover (length (encode_all rs1) + n) (rs1 ++ rs2) = leftover n rs2.
Proof.
  induction rs1 as [|r rs1 IH]; [done|].
  change (encode_all (r :: rs1)) with (encode r ++ encode_all rs1). rewrite length_app. cbn [app leftover].
  destruct (Nat.leb_spec (length (encode r)) (length (encode r) + length (encode_all rs1) + n)); [|lia].
  rewrite <- IH. f_equal. lia.
Qed.

Lemma encode_all_app rs1 rs2 : encode_all (rs1 ++ rs2) = encode_all rs1 ++ encode_all rs2.
Proof. apply bind_app. Qed.

(** The general step: some records are behind, [buf] holds the start of the rest. *)
Lemma feed_spec pieces done_ rs buf fuel :
  forallb record_ok rs = true → buf ++ concat pieces = encode_all rs → (length rs < fuel)%nat →
  leftover (length buf) rs = length buf →
  cuts_ok (length (encode_all done_) + length buf) pieces (done_ ++ rs) = true →
  feed fuel buf pieces =
    Ret ([], (λ r, MkChunk (encode r) false) <$> rs) ∨ (pieces = [] ∧ buf ≠ []) ∨ (pieces = [] ∧ buf = [] ∧ rs = []).
Proof.
  revert done_ rs buf; induction pieces as [|p pieces IH]; intros done_ rs buf Hok Hbuf Hf Hlo Hcut.
  - right. destruct buf; [right|by left]. split_and!; [done|done|].
    simpl in Hbuf. destruct rs as [|r rs]; [done|].
    apply (f_equal length) in Hbuf. change (encode_all (r :: rs)) with (encode r ++ encode_all rs) in Hbuf.
    rewrite length_app, length_encode in Hbuf. simpl in Hbuf. lia.
  - left. cbn [feed]. cbn [add_data tls_framer]. unfold tls_add_data.
    cbn [cuts_ok] in Hcut. apply andb_true_iff in Hcut as [Hc Hcut].
    rewrite <- Nat.add_assoc, <- length_app in Hc, Hcut. rewrite leftover_app in Hc.
    cbn [concat] in Hbuf. rewrite app_assoc in Hbuf.
    destruct (take_all_spec rs (buf ++ p) (concat pieces) fuel)
      as (rs1 & rs2 & buf' & -> & Hb & Hl1 & Hl2 & ->); [done|done|done| |].
    { b2p. apply andb_false_iff in Hc as [Hc|Hc]; b2p; lia. }
    cbn [mbind run_bind]. rewrite forallb_app in Hok. b2p.
    rewrite Hb, encode_all_app, <- app_assoc in Hbuf. apply app_inv_head in Hbuf.
    destruct (IH (done_ ++ rs1) rs2 buf') as [Hfeed|[[-> Hne]|(-> & -> & ->)]]; try done.
    + rewrite length_app in Hf. lia.
    + by rewrite encode_all_app, length_app, <- Nat.add_assoc, <- length_app, <- Hb, <- app_assoc.
    + rewrite Hfeed. cbn [mbind run_bind]. by rewrite fmap_app.
    + exfalso. simpl in Hbuf. rewrite app_nil_r in Hbuf. subst buf'.
      pose proof (leftover_app rs2 [] 0) as Hz. rewrite app_nil_r, Nat.add_0_r in Hz.
      rewrite Hz in Hl2. simpl in Hl2. apply Hne. by apply nil_length_inv.
    + cbn [feed mbind run_bind]. by rewrite !app_nil_r.
Qed.


(** ** Properties *)

(** The header search is exact.  On any bytes the search loop terminates
    without indexing out of bounds and finds the first position at which a
    complete record header stands, or reports none exactly when there is none. *)
Lemma tls_finds_first_header (data : list Z) :
  ∃ r, find_frame_offset data = Ret r ∧
    match r with
    | Some o => header_at data o = true ∧ ∀ j, (j < o)%nat → header_at data j = false
    | None => ∀ j, header_at data j = false
    end.
Proof. apply find_spec. Qed.

(** C31: the framer recovers the records of a stream. A sequence of records, of
    the content types and of the versions 3.1 and 3.3 that it accepts, is
    concatenated and arrives in any pieces, none of which ends one to three bytes
    into a record; taking all frames after each piece yields exactly the records,
    in order, each with its header, and leaves nothing behind. *)
Theorem tls_framer_recovers_records (rs : list record) (pieces : list (list Z)) (fuel : nat) :
  forallb record_ok rs = true → concat pieces = encode_all rs →
  cuts_ok 0 pieces rs = true → (length rs < fuel)%nat →
  feed fuel [] pieces = Ret ([], (λ r, MkChunk (encode r) false) <$> rs).
Proof.
  intros Hok Hp Hcut Hf.
  destruct (feed_spec pieces [] rs [] fuel) as [H|[[_ H]|(-> & _ & ->)]]; try done.
  destruct rs as [|r rs]; [done|]. cbn [leftover].
  by destruct (Nat.leb_spec (length (encode r)) (length (@nil Z))) as [Hl|]; [rewrite length_encode in Hl; simpl in Hl; lia|].
Qed.

Definition demo_records : list record :=
  [MkRec 0x16 0x01 [1; 2; 3]; MkRec 0x17 0x03 []; MkRec 0x15 0x03 [9; 9]].

Definition demo_pieces : list (list Z) :=
  [[0x16; 3; 1; 0]; [3; 1; 2; 3; 0x17; 3; 3; 0; 0; 0x15; 3; 3; 0]; [2; 9]; [9]].

Lemma tls_framer_recovers_records_witness :
  feed 4 [] demo_pieces = Ret ([], (λ r, MkChunk (encode r) false) <$> demo_records).
Proof. apply tls_framer_recovers_records; [reflexivity|reflexivity|reflexivity|simpl; lia]. Defined.

(** A short read loses data.  Whatever the first one to three bytes of a
    record are, once a frame is asked for they are discarded, so the rest of
    the record arrives without its header. *)
Lemma tls_framer_drops_short_reads (buf : list Z) :
  (length buf ≤ 3)%nat → tls_take_frame buf = Ret ([], None).
Proof.
  intros Hl. rewrite take_frame_short by lia. by destruct (Nat.eqb_spec (length buf) 4); [lia|].
Qed.

Lemma tls_framer_drops_short_reads_witness :
  tls_take_frame [0x16; 0x03; 0x01] = Ret ([], None).
Proof. apply tls_framer_drops_short_reads. simpl. lia. Defined.

(** The same stream, cut after three bytes: the first record never comes out. *)
Example tls_short_read_loses_record :
  feed 4 [] [[0x16; 3; 1]; [0; 3; 1; 2; 3; 0x17; 3; 3; 0; 0]]
    = Ret ([], [MkChunk [0x17; 3; 3; 0; 0] false]).
Proof. vm_compute. reflexivity. Qed.


End Tls.
