(* ===== verification/JsonFramer.v ===== *)
(** * The JSON framer

    Models [node/src/json_framer.rs]: it cuts a byte stream into brace-balanced
    objects, minding quoted strings and backslashes.  [brace_nest_count] is an
    [i32]; leaving its range is a panic in the checked profile. *)
From S2P Require Import Prelude.
From S2P Require Import Framer.
From stdpp Require Import base list.

Module Json.
Import Framer.
Local Open Scope Z_scope.

(** ** Data *)

(** The fields of [JsonFramer] other than the buffer. *)
Record scan := MkScan {
  possible_start : option nat;
  possible_end : option nat;
  brace_nest_count : Z;
  in_single_quote_string : bool;
  in_double_quote_string : bool;
  after_backslash : bool
}.

Record JsonFramer := MkJson {
  state : scan;
  data_so_far : list Z
}.

Definition reset : scan := MkScan None None 0 false false false.

Definition json_new : JsonFramer := MkJson reset [].

Definition BS : Z := 92.
Definition SQ : Z := 39.
Definition DQ : Z := 34.
Definition OB : Z := 123.
Definition CB : Z := 125.

(** ** Operations *)

Definition handle_quotes (s : scan) (byte : Z) : scan :=
  match possible_start s with
  | None => s
  | Some _ =>
      let set sq dq := MkScan (possible_start s) (possible_end s) (brace_nest_count s) sq dq
                              (after_backslash s) in
      match in_single_quote_string s, byte =? SQ, in_double_quote_string s, byte =? DQ with
      | false, false, false, true => set (in_single_quote_string s) true
      | false, false, true, true => set (in_single_quote_string s) false
      | false, true, false, false => set true (in_double_quote_string s)
      | true, true, false, false => set false (in_double_quote_string s)
      | _, _, _, _ => s
      end
  end.

Definition set_nest (s : scan) (n : Z) : scan :=
  MkScan (possible_start s) (possible_end s) n (in_single_quote_string s)
         (in_double_quote_string s) (after_backslash s).

Definition handle_braces (s : scan) (byte : Z) (offset : nat) : run scan :=
  if byte =? OB then
    panic_if (2 ^ 31 <=? brace_nest_count s + 1)
      (let n := brace_nest_count s + 1 in
       if n =? 1 then Ret (MkScan (Some offset) None 1 false false false)
       else Ret (set_nest s n))
  else if byte =? CB then
    panic_if (brace_nest_count s - 1 <? - 2 ^ 31)
      (let n := brace_nest_count s - 1 in
       if n <? 0 then
         Ret (MkScan None (possible_end s) 0 (in_single_quote_string s) (in_double_quote_string s)
                     (after_backslash s))
       else if (n =? 0) && bool_decide (is_Some (possible_start s)) then
         Ret (MkScan (possible_start s) (Some (offset + 1)%nat) n (in_single_quote_string s)
                     (in_double_quote_string s) (after_backslash s))
       else Ret (set_nest s n))
  else Ret s.

Definition set_backslash (s : scan) (b : bool) : scan :=
  MkScan (possible_start s) (possible_end s) (brace_nest_count s) (in_single_quote_string s)
         (in_double_quote_string s) b.

Definition update_state (s : scan) (byte : Z) (offset : nat) : run scan :=
  if after_backslash s then Ret (set_backslash s false)
  else
    let s := handle_quotes s byte in
    if negb (in_single_quote_string s) && negb (in_double_quote_string s) then
      handle_braces s byte offset
    else if bool_decide (is_Some (possible_start s)) && (byte =? BS) then Ret (set_backslash s true)
    else Ret s.

Definition check_data_chunk (s : scan) (data : list Z) : run (scan * option (list Z)) :=
  match possible_start s, possible_end s with
  | Some start, Some end_ => c ← slice data start end_; Ret (reset, Some c)
  | _, _ => Ret (s, None)
  end.

(** The loop of [take_frame] over the bytes still to look at; the first one has
    index [i].  It ends with a chunk and the index after it, or with the last
    state. *)
Fixpoint take_frame_loop (data : list Z) (s : scan) (i : nat) (todo : list Z)
    : run (scan * option (list Z * nat)) :=
  match todo with
  | [] => Ret (s, None)
  | byte :: todo' =>
      s ← update_state s byte i;
      '(s, c) ← check_data_chunk s data;
      match c with
      | Some chunk => Ret (s, Some (chunk, S i))
      | None => take_frame_loop data s (S i) todo'
      end
  end.

Definition json_add_data (f : JsonFramer) (data : list Z) : JsonFramer :=
  MkJson (state f) (data_so_far f ++ data).

Definition json_take_frame (f : JsonFramer) : run (JsonFramer * option FramedChunk) :=
  let data := data_so_far f in
  '(s, r) ← take_frame_loop data reset 0 data;
  match r with
  | Some (chunk, next) =>
      rest ← slice_from data next;
      Ret (MkJson s rest, Some (MkChunk chunk true))
  | None =>
      match possible_start s, possible_end s with
      | None, None => Ret (MkJson s [], None)
      | Some start, None =>
          rest ← slice_from data start;
          Ret (MkJson (MkScan (Some 0%nat) (possible_end s) (brace_nest_count s)
                              (in_single_quote_string s) (in_double_quote_string s)
                              (after_backslash s)) rest, None)
      | _, _ => Panic
      end
  end.

Global Instance json_framer : Framer JsonFramer := {|
  add_data := json_add_data; take_frame := json_take_frame
|}.

Definition bytes_of (s : string) : list Z :=
  (λ c, Z.of_N (Ascii.N_of_ascii c)) <$> String.list_ascii_of_string s.

Example json_frames_out_of_trash :
  take_all 5 (MkJson reset (bytes_of "} trash {a:'}{'} {b"))
    = Ret (MkJson (MkScan (Some 0%nat) None 1 false false false) (bytes_of "{b"),
           [MkChunk (bytes_of "{a:'}{'}") true]).
Proof. vm_compute. reflexivity. Qed.

(** ** The scan *)

(** The loop without the buffer: where the first frame lies, or the last state. *)
Fixpoint find_frame (s : scan) (i : nat) (todo : list Z) : run (scan + nat * nat) :=
  match todo with
  | [] => Ret (inl s)
  | byte :: todo' =>
      s ← update_state s byte i;
      match possible_start s, possible_end s with
      | Some a, Some e => Ret (inr (a, e))
      | _, _ => find_frame s (S i) todo'
      end
  end.

(** What holds of the state after [n] bytes without a frame. *)
Definition good (s : scan) (n : nat) : Prop :=
  possible_end s = None ∧
  match possible_start s with
  | None => s = reset
  | Some k => (k < n)%nat ∧ 1 ≤ brace_nest_count s ≤ Z.of_nat n
  end.

Lemma handle_quotes_keeps s b :
  possible_start (handle_quotes s b) = possible_start s ∧
  possible_end (handle_quotes s b) = possible_end s ∧
  brace_nest_count (handle_quotes s b) = brace_nest_count s ∧
  (possible_start s = None → handle_quotes s b = s).
Proof.
  unfold handle_quotes. destruct (possible_start s) eqn:E; [|done].
  destruct (in_single_quote_string s), (b =? SQ), (in_double_quote_string s), (b =? DQ); done.
Qed.

Lemma handle_braces_step s b n :
  good s n → Z.of_nat n + 1 < 2 ^ 31 →
  ∃ s', handle_braces s b n = Ret s' ∧
    (good s' (S n) ∨
     ∃ k, possible_start s' = Some k ∧ possible_end s' = Some (n + 1)%nat ∧ (k ≤ n)%nat).
Proof.
  intros [He Hs] Hn. unfold handle_braces, panic_if.
  assert (0 ≤ brace_nest_count s ≤ Z.of_nat n) as Hnest.
  { destruct (possible_start s); [lia|]. rewrite Hs. simpl. lia. }
  destruct (b =? OB).
  { destruct (Z.leb_spec (2 ^ 31) (brace_nest_count s + 1)); [lia|].
    destruct (Z.eqb_spec (brace_nest_count s + 1) 1); (eexists; split; [done|]; left; split; [done|]).
    - simpl. lia.
    - simpl. destruct (possible_start s); [lia|]. rewrite Hs in *. simpl in *. lia. }
  assert (good s (S n)) as Hgood.
  { split; [done|]. destruct (possible_start s); [lia|done]. }
  destruct (b =? CB); [|eexists; split; [done|]; by left].
  destruct (Z.ltb_spec (brace_nest_count s - 1) (- 2 ^ 31)); [lia|].
  destruct (Z.ltb_spec (brace_nest_count s - 1) 0).
  - eexists; split; [done|]. left. split; [done|]. simpl. destruct (possible_start s); [lia|].
    by rewrite Hs.
  - destruct (possible_start s) as [k|] eqn:Ek; [|rewrite Hs in *; simpl in *; lia].
    rewrite bool_decide_eq_true_2 by by eexists. rewrite andb_true_r.
    destruct (Z.eqb_spec (brace_nest_count s - 1) 0); (eexists; split; [done|]).
    + right. exists k. simpl. split_and!; [done|done|lia].
    + left. split; [done|]. unfold set_nest. simpl. rewrite Ek. lia.
Qed.

Lemma update_step s b n :
  good s n → Z.of_nat n + 1 < 2 ^ 31 →
  ∃ s', update_state s b n = Ret s' ∧
    (good s' (S n) ∨
     ∃ k, possible_start s' = Some k ∧ possible_end s' = Some (n + 1)%nat ∧ (k ≤ n)%nat).
Proof.
  intros Hg Hn. pose proof Hg as [He Hs]. unfold update_state.
  assert (∀ f, (possible_start s = None → False) → good (set_backslash s f) (S n)) as Hbs.
  { intros f Hne. split; [done|]. simpl. destruct (possible_start s); [lia|done]. }
  destruct (after_backslash s) eqn:Eb.
  { eexists. split; [done|]. left. apply Hbs. intros E. rewrite E in Hs. by rewrite Hs in Eb. }
  destruct (handle_quotes_keeps s b) as (Hst & Hen & Hne & Hid).
  assert (good (handle_quotes s b) n) as Hq.
  { split; [congruence|]. rewrite Hst, Hne. destruct (possible_start s); [done|]. by rewrite Hid. }
  destruct (negb _ && negb _); [by apply handle_braces_step|].
  destruct Hq as [Hq1 Hq2].
  assert (good (handle_quotes s b) (S n)) as Hq'.
  { split; [done|]. destruct (possible_start (handle_quotes s b)); [lia|done]. }
  destruct (bool_decide (is_Some (possible_start (handle_quotes s b))) && (b =? BS)) eqn:E;
    (eexists; split; [done|]; left); [|done].
  apply andb_true_iff in E as [E _]. apply bool_decide_eq_true in E as [k Hk].
  split; [done|]. simpl. rewrite Hk. destruct Hq' as [_ Hq']. by rewrite Hk in Hq'.
Qed.

Lemma find_frame_ok s i todo :
  good s i → Z.of_nat (i + length todo) < 2 ^ 31 →
  ∃ r, find_frame s i todo = Ret r ∧
    match r with
    | inl s' => good s' (i + length todo)
    | inr (a, e) => (a < e ≤ i + length todo)%nat ∧ (i < e)%nat
    end.
Proof.
  revert s i; induction todo as [|b todo IH]; intros s i Hg Hl; cbn [find_frame].
  - eexists. split; [done|]. simpl. by rewrite Nat.add_0_r.
  - cbn [length] in *. destruct (update_step s b i Hg) as (s' & -> & [Hs'|(k & Hk & He & Hle)]);
      [lia| |]; cbn [mbind run_bind].
    + pose proof Hs' as [He _]. rewrite He.
      assert (∃ r, find_frame s' (S i) todo = Ret r ∧
        match r with
        | inl s'' => good s'' (S i + length todo)
        | inr (a, e) => (a < e ≤ S i + length todo)%nat ∧ (S i < e)%nat
        end) as (r & Hr & Hpost) by (apply IH; [done|lia]).
      exists r. split; [by destruct (possible_start s')|].
      destruct r as [s''|[a e]]; [by replace (i + S (length todo))%nat with (S i + length todo)%nat by lia|lia].
    + rewrite Hk, He. eexists. split; [done|]. simpl. lia.
Qed.

Lemma good_reset n : good reset n.
Proof. done. Qed.

Lemma find_frame_app s i l1 l2 :
  find_frame s i (l1 ++ l2) =
    match find_frame s i l1 with
    | Ret (inl s') => find_frame s' (i + length l1) l2
    | r => r
    end.
Proof.
  revert s i; induction l1 as [|b l1 IH]; intros s i; cbn [app find_frame].
  - by rewrite Nat.add_0_r.
  - destruct (update_state s b i) as [s'|]; [|done]. cbn [mbind run_bind length].
    replace (i + S (length l1))%nat with (S i + length l1)%nat by lia.
    destruct (possible_start s'), (possible_end s'); try done; apply IH.
Qed.

(** ** Moving the origin *)

Definition shift (d : nat) (s : scan) : scan :=
  MkScan (Nat.add d <$> possible_start s) (Nat.add d <$> possible_end s) (brace_nest_count s)
         (in_single_quote_string s) (in_double_quote_string s) (after_backslash s).

Definition shift_run (d : nat) (r : run (scan + nat * nat)) : run (scan + nat * nat) :=
  match r with
  | Ret (inl s) => Ret (inl (shift d s))
  | Ret (inr (a, e)) => Ret (inr (d + a, d + e)%nat)
  | Panic => Panic
  end.

Lemma is_Some_shift d (o : option nat) :
  bool_decide (is_Some (Nat.add d <$> o)) = bool_decide (is_Some o).
Proof. apply bool_decide_ext. by rewrite fmap_is_Some. Qed.

Lemma handle_quotes_shift d s b : handle_quotes (shift d s) b = shift d (handle_quotes s b).
Proof.
  destruct s as [[k|] pe nest sq dq bs]; [|done]. unfold handle_quotes, shift. simpl.
  destruct sq, (b =? SQ), dq, (b =? DQ); done.
Qed.

Lemma handle_braces_shift d s b n :
  handle_braces (shift d s) b (d + n) = (s' ← handle_braces s b n; Ret (shift d s')).
Proof.
  unfold handle_braces, panic_if, shift. simpl. rewrite is_Some_shift. repeat split_if; try done.
  simpl. by rewrite Nat.add_assoc.
Qed.

Lemma update_shift d s b n :
  update_state (shift d s) b (d + n) = (s' ← update_state s b n; Ret (shift d s')).
Proof.
  unfold update_state. rewrite handle_quotes_shift. simpl. rewrite is_Some_shift.
  destruct (after_backslash s); [done|]. destruct (negb _ && negb _); [apply handle_braces_shift|].
  destruct (bool_decide _ && (b =? BS)); done.
Qed.

Lemma find_frame_shift d s i l :
  find_frame (shift d s) (d + i) l = shift_run d (find_frame s i l).
Proof.
  revert s i; induction l as [|b l IH]; intros s i; cbn [find_frame]; [done|].
  rewrite update_shift. destruct (update_state s b i) as [s'|]; [|done]. cbn [mbind run_bind].
  change (possible_start (shift d s')) with (Nat.add d <$> possible_start s').
  change (possible_end (shift d s')) with (Nat.add d <$> possible_end s').
  rewrite <- Nat.add_succ_r, IH. by destruct (possible_start s'), (possible_end s').
Qed.

(** A scan that has found the start of an object at [k] and no end can forget
    the bytes before [k]. *)
Lemma update_start s b n s' :
  update_state s b n = Ret s' →
  possible_start s' = possible_start s ∨ possible_start s' = None ∨
  (s' = MkScan (Some n) None 1 false false false ∧ b = OB).
Proof.
  unfold update_state. destruct (after_backslash s); [intros [= <-]; by left|].
  destruct (handle_quotes_keeps s b) as (Hst & _). rewrite <- Hst.
  destruct (negb _ && negb _).
  - unfold handle_braces, panic_if. destruct (Z.eqb_spec b OB) as [->|].
    + destruct (_ <=? _); [done|]. destruct (_ =? _); intros [= <-]; [right; right; done|by left].
    + destruct (b =? CB); [|intros [= <-]; by left]. destruct (_ <? - _); [done|].
      destruct (_ <? 0); [intros [= <-]; right; by left|].
      destruct (_ && _); intros [= <-]; by left.
  - destruct (_ && _); intros [= <-]; by left.
Qed.

Lemma find_frame_restart buf s k :
  find_frame reset 0 buf = Ret (inl s) → possible_start s = Some k →
  (k ≤ length buf)%nat ∧ ∃ s0, find_frame reset 0 (drop k buf) = Ret (inl s0) ∧ s = shift k s0.
Proof.
  revert s k; induction buf as [|b buf IH] using rev_ind; intros s k Hf Hk; [by injection Hf as <-|].
  rewrite find_frame_app in Hf. rewrite length_app. cbn [length].
  destruct (find_frame reset 0 buf) as [[s1|]|] eqn:E1; try done. simpl in Hf.
  destruct (update_state s1 b (length buf)) as [s2|] eqn:E2; [|done]. simpl in Hf.
  assert (s2 = s) as -> by (by destruct (possible_start s2), (possible_end s2); simplify_eq).
  destruct (update_start _ _ _ _ E2) as [Hst|[Hst|[-> ->]]]; [|congruence|].
  - rewrite Hst in Hk. destruct (IH s1 k) as (Hle & s0 & Hs0 & ->); [done..|]. split; [lia|].
    rewrite drop_app_le by done. rewrite find_frame_app, Hs0. cbn [find_frame].
    rewrite length_drop, Nat.add_0_l.
    replace (length buf) with (k + (length buf - k))%nat in E2 by lia.
    rewrite update_shift in E2. destruct (update_state s0 b (length buf - k)) as [s0'|]; [|done].
    simpl in E2. injection E2 as E2. cbn [mbind run_bind]. exists s0'. split; [|done].
    destruct s0' as [ps pe nest sq dq bs]. rewrite <- E2 in Hf. unfold shift in Hf. simpl in *.
    destruct ps, pe; done.
  - injection Hk as <-. split; [lia|]. rewrite drop_app_length.
    eexists. split; [vm_compute; reflexivity|]. unfold shift. simpl. by rewrite Nat.add_0_r.
Qed.


(** ** [take_frame] in terms of the scan *)

Definition frame_of (data : list Z) (r : scan + nat * nat) : run (JsonFramer * option FramedChunk) :=
  match r with
  | inr (a, e) => Ret (MkJson reset (drop e data), Some (MkChunk (take (e - a) (drop a data)) true))
  | inl s =>
      match possible_start s with
      | None => Ret (MkJson s [], None)
      | Some k => Ret (MkJson (MkScan (Some 0%nat) None (brace_nest_count s)
                                       (in_single_quote_string s) (in_double_quote_string s)
                                       (after_backslash s)) (drop k data), None)
      end
  end.

Lemma take_frame_loop_find data s i todo :
  good s i → length data = (i + length todo)%nat → Z.of_nat (length data) < 2 ^ 31 →
  take_frame_loop data s i todo =
    match find_frame s i todo with
    | Ret (inl s') => Ret (s', None)
    | Ret (inr (a, e)) => Ret (reset, Some (take (e - a) (drop a data), e))
    | Panic => Panic
    end.
Proof.
  revert s i; induction todo as [|b todo IH]; intros s i Hg Hl Hmax; [done|].
  cbn [take_frame_loop find_frame]. cbn [length] in Hl.
  destruct (update_step s b i Hg) as (s' & -> & [Hs'|(k & Hk & He & Hle)]); [lia| |];
    cbn [mbind run_bind]; unfold check_data_chunk.
  - pose proof Hs' as [He _]. rewrite He.
    destruct (possible_start s'); cbn [mbind run_bind]; apply IH; done || lia.
  - rewrite Hk, He. unfold slice. destruct (Nat.leb_spec k (i + 1)), (Nat.leb_spec (i + 1) (length data)); try lia.
    cbn [andb mbind run_bind]. by rewrite Nat.add_1_r.
Qed.

Definition small (data : list Z) : Prop := Z.of_nat (length data) < 2 ^ 31.

Lemma take_frame_find f :
  small (data_so_far f) →
  ∃ r, find_frame reset 0 (data_so_far f) = Ret r ∧
    json_take_frame f = frame_of (data_so_far f) r.
Proof.
  intros Hs. unfold json_take_frame.
  destruct (find_frame_ok reset 0 (data_so_far f) (good_reset 0) Hs) as (r & Hr & Hpost).
  exists r. split; [done|]. rewrite take_frame_loop_find, Hr by done.
  destruct r as [s|[a e]]; cbn [mbind run_bind frame_of].
  - destruct Hpost as [He Hs']. rewrite He. destruct (possible_start s) as [k|]; [|done].
    rewrite slice_from_ok by lia. done.
  - rewrite slice_from_ok by lia. done.
Qed.

Lemma scan_good data s :
  small data → find_frame reset 0 data = Ret (inl s) → good s (length data).
Proof.
  intros Hs Hf. destruct (find_frame_ok reset 0 data (good_reset 0) Hs) as (r & Hr & Hpost).
  rewrite Hf in Hr. by injection Hr as <-.
Qed.

(** ** Fragmentation *)

Lemma app_data f l : data_so_far (json_add_data f l) = data_so_far f ++ l.
Proof. done. Qed.

(** Asking too early changes nothing about what comes later. *)
Lemma take_frame_early f f' more :
  small (data_so_far f ++ more) → json_take_frame f = Ret (f', None) →
  small (data_so_far f' ++ more) ∧
  json_take_frame (json_add_data f' more) = json_take_frame (json_add_data f more).
Proof.
  intros Hsm Hf.
  assert (small (data_so_far f)) as Hsm1 by (unfold small in *; rewrite length_app in Hsm; lia).
  destruct (take_frame_find f Hsm1) as (r & Hr & Htf). rewrite Hf in Htf.
  destruct r as [s|[a e]]; [|done]. simpl in Htf.
  assert (∃ k s0, (k ≤ length (data_so_far f))%nat ∧ data_so_far f' = drop k (data_so_far f) ∧
    find_frame reset 0 (data_so_far f') = Ret (inl s0) ∧ s = shift k s0) as (k & s0 & Hk & Hd & Hs0 & Hs).
  { destruct (possible_start s) as [k|] eqn:Ek; injection Htf as ->.
    - destruct (find_frame_restart _ _ _ Hr Ek) as (Hle & s0 & Hs0 & Hs). by exists k, s0.
    - destruct (scan_good _ _ Hsm1 Hr) as [_ Hpost]. rewrite Ek in Hpost. subst s.
      exists (length (data_so_far f)), reset. split; [done|]. by rewrite drop_ge. }
  assert (small (data_so_far f' ++ more)) as Hsm2.
  { unfold small in *. rewrite Hd, length_app, length_drop. rewrite length_app in Hsm. lia. }
  split; [done|].
  destruct (take_frame_find (json_add_data f' more)) as (r1 & Hr1 & ->); [done|].
  destruct (take_frame_find (json_add_data f more)) as (r2 & Hr2 & ->); [done|].
  pose proof Hr1 as Hr1'. rewrite app_data in Hr1'.
  rewrite app_data, find_frame_app, Hs0 in Hr1. rewrite app_data, find_frame_app, Hr in Hr2.
  rewrite !app_data. rewrite Hs, Hd, length_drop, !Nat.add_0_l in *.
  replace (length (data_so_far f)) with (k + (length (data_so_far f) - k))%nat in Hr2 by lia.
  rewrite find_frame_shift, Hr1 in Hr2.
  assert (drop k (data_so_far f) ++ more = drop k (data_so_far f ++ more)) as -> by by rewrite drop_app_le.
  destruct r1 as [s1|[a e]]; simpl in Hr2; injection Hr2 as <-; simpl.
  - destruct (possible_start s1) as [k1|] eqn:Ek1; simpl.
    + by rewrite drop_drop.
    + destruct (scan_good _ _ Hsm2 Hr1') as [_ Hpost]. rewrite Ek1 in Hpost. by rewrite Hpost.
  - rewrite !drop_drop. do 3 f_equal. f_equal. f_equal. lia.
Qed.

(** Later data does not disturb a frame that is complete. *)
Lemma take_frame_late f f' c more :
  small (data_so_far f ++ more) → json_take_frame f = Ret (f', Some c) →
  json_take_frame (json_add_data f more) = Ret (json_add_data f' more, Some c) ∧
  (length (data_so_far f') < length (data_so_far f))%nat.
Proof.
  intros Hsm Hf.
  assert (small (data_so_far f)) as Hsm1 by (unfold small in *; rewrite length_app in Hsm; lia).
  destruct (take_frame_find f Hsm1) as (r & Hr & Htf). rewrite Hf in Htf.
  destruct r as [s|[a e]]; simpl in Htf; [by destruct (possible_start s)|].
  injection Htf as -> ->.
  destruct (find_frame_ok reset 0 (data_so_far f) (good_reset 0) Hsm1) as (r' & Hr' & Hpost).
  rewrite Hr in Hr'. injection Hr' as <-.
  destruct (take_frame_find (json_add_data f more)) as (r2 & Hr2 & ->); [done|].
  rewrite app_data, find_frame_app, Hr in Hr2. injection Hr2 as <-. simpl.
  split; [|rewrite length_drop; lia].
  unfold json_add_data. simpl. rewrite !drop_app_le by lia.
  rewrite take_app_le by (rewrite length_drop; lia). done.
Qed.


(** ** Taking all frames *)

Lemma small_le l k : (length l ≤ length k)%nat → small k → small l.
Proof. unfold small. lia. Qed.

Lemma take_frame_total f :
  small (data_so_far f) → ∃ f' o, json_take_frame f = Ret (f', o) ∧
    (length (data_so_far f') ≤ length (data_so_far f))%nat ∧
    (o ≠ None → (length (data_so_far f') < length (data_so_far f))%nat).
Proof.
  intros Hs. destruct (take_frame_find f Hs) as (r & Hr & Htf).
  destruct (json_take_frame f) as [[f' [c|]]|] eqn:E.
  - eexists _, _. split; [done|].
    destruct (take_frame_late f f' c []) as [_ Hl]; [by rewrite app_nil_r|done|]. lia.
  - eexists _, _. split; [done|]. split; [|done].
    destruct r as [s|[a e]]; simpl in Htf; [|done].
    destruct (possible_start s); injection Htf as ->; simpl; [rewrite length_drop|]; lia.
  - destruct r as [s|[a e]]; simpl in Htf; [|done]. by destruct (possible_start s).
Qed.

Lemma take_all_step n f :
  take_all (S n) f =
    ('(f', o) ← json_take_frame f;
     match o with
     | None => Ret (f', [])
     | Some c => '(f2, cs) ← take_all n f'; Ret (f2, c :: cs)
     end).
Proof. done. Qed.

Lemma take_all_fuel n m f :
  small (data_so_far f) → (length (data_so_far f) < n)%nat → (length (data_so_far f) < m)%nat →
  take_all n f = take_all m f.
Proof.
  revert m f; induction n as [|n IH]; intros m f Hs Hn Hm; [lia|]. destruct m as [|m]; [lia|].
  rewrite !take_all_step. destruct (take_frame_total f Hs) as (f' & o & -> & Hle & Hlt). cbn [mbind run_bind].
  destruct o as [c|]; [|done]. specialize (Hlt ltac:(done)).
  rewrite (IH m f') by (lia || by apply (small_le _ (data_so_far f))). done.
Qed.

Lemma add_data_nil f : json_add_data f [] = f.
Proof. destruct f. unfold json_add_data. simpl. by rewrite app_nil_r. Qed.

Lemma take_all_more n f more N :
  small (data_so_far f ++ more) → (length (data_so_far f) < n)%nat →
  (length (data_so_far f ++ more) < N)%nat →
  ∃ f1 cs, take_all n f = Ret (f1, cs) ∧ json_take_frame f1 = Ret (f1, None) ∧
    (length (data_so_far f1 ++ more) ≤ length (data_so_far f ++ more))%nat ∧
    take_all N (json_add_data f more) =
      ('(f2, cs2) ← take_all N (json_add_data f1 more); Ret (f2, cs ++ cs2)).
Proof.
  revert f; induction n as [|n IH]; intros f Hs Hn HN; [lia|].
  assert (small (data_so_far f)) as Hsf by (apply (small_le _ (data_so_far f ++ more)); [rewrite length_app; lia|done]).
  rewrite take_all_step. destruct (take_frame_total f Hsf) as (f' & o & Htf & Hle & Hlt).
  rewrite Htf. cbn [mbind run_bind]. destruct o as [c|].
  - destruct (take_frame_late f f' c more Hs Htf) as [Hlate Hl].
    destruct (IH f') as (f1 & cs & -> & Hset & Hlen & Heq).
    { apply (small_le _ (data_so_far f ++ more)); [rewrite !length_app; lia|done]. }
    { lia. } { rewrite length_app in *. lia. }
    cbn [mbind run_bind]. exists f1, (c :: cs). split; [done|]. split; [done|].
    split; [rewrite !length_app in *; lia|].
    destruct N as [|N]; [lia|]. rewrite take_all_step at 1. rewrite Hlate. cbn [mbind run_bind].
    rewrite (take_all_fuel N (S N)), Heq.
    + by destruct (take_all (S N) (json_add_data f1 more)) as [[]|].
    + apply (small_le _ (data_so_far f ++ more)); [|done]. simpl. rewrite !length_app. lia.
    + simpl. rewrite !length_app in *. lia.
    + simpl. rewrite !length_app in *. lia.
  - exists f', []. split; [done|]. destruct (take_frame_early f f' more Hs Htf) as [_ Hearly].
    destruct (take_frame_early f f' []) as [_ Hself]; [by rewrite app_nil_r|done|].
    rewrite !add_data_nil, Htf in Hself. split; [done|]. split; [rewrite !length_app; lia|].
    destruct N as [|N]; [lia|]. rewrite !take_all_step, Hearly.
    destruct (json_take_frame (json_add_data f more)) as [[f2 [c|]]|]; try done. cbn [mbind run_bind].
    by destruct (take_all N f2) as [[]|].
Qed.

Lemma feed_whole pieces f fuel :
  json_take_frame f = Ret (f, None) → small (data_so_far f ++ concat pieces) →
  (length (data_so_far f ++ concat pieces) < fuel)%nat →
  feed fuel f pieces = take_all fuel (json_add_data f (concat pieces)).
Proof.
  revert f; induction pieces as [|p pieces IH]; intros f Hset Hs Hf; cbn [feed concat].
  - rewrite add_data_nil. destruct fuel as [|fuel]; [lia|]. rewrite take_all_step, Hset. done.
  - change (add_data f p) with (json_add_data f p). cbn [concat] in Hs, Hf. rewrite app_assoc in Hs, Hf.
    destruct (take_all_more fuel (json_add_data f p) (concat pieces) fuel)
      as (f1 & cs & -> & Hset1 & Hlen & Heq); [done|rewrite length_app in Hf; simpl; lia|done|].
    cbn [mbind run_bind]. simpl in Hlen.
    rewrite IH; [|done|by apply (small_le _ ((data_so_far f ++ p) ++ concat pieces))|lia].
    unfold json_add_data at 2. unfold json_add_data in Heq at 1. simpl in Heq. by rewrite app_assoc, Heq.
Qed.

(** ** Balanced objects *)

(** The inside of a string quoted with [q]: no bare [q], no trailing backslash. *)
Inductive quoted (q : Z) : list Z → Prop :=
| quoted_nil : quoted q []
| quoted_char c l : c ≠ q → c ≠ BS → quoted q l → quoted q (c :: l)
| quoted_escape c l : quoted q l → quoted q (BS :: c :: l).

(** Text with matched braces; braces and quotes inside strings do not count. *)
Inductive balanced : list Z → Prop :=
| bal_nil : balanced []
| bal_plain c l : c ∉ [OB; CB; SQ; DQ] → balanced l → balanced (c :: l)
| bal_string q body l :
    q = SQ ∨ q = DQ → quoted q body → balanced l → balanced (q :: body ++ q :: l)
| bal_object l1 l2 : balanced l1 → balanced l2 → balanced (OB :: l1 ++ CB :: l2).

(** Inside an object at depth [n], not in a string. *)
Definition inside (k : nat) (n : Z) : scan := MkScan (Some k) None n false false false.

Definition in_string (k : nat) (n : Z) (q : Z) : scan :=
  MkScan (Some k) None n (q =? SQ) (q =? DQ) false.

Lemma quoted_scan q l k n i rest :
  q = SQ ∨ q = DQ → quoted q l →
  find_frame (in_string k n q) i (l ++ q :: rest) = find_frame (inside k n) (S (i + length l)) rest.
Proof.
  intros Hq Hl. revert i; induction Hl as [|c l Hc Hbs Hl IH|c l Hl IH]; intros i; cbn [app find_frame].
  - rewrite Nat.add_0_r. by destruct Hq as [-> | ->].
  - assert (update_state (in_string k n q) c i = Ret (in_string k n q)) as ->.
    { unfold update_state, in_string. cbn [after_backslash]. unfold handle_quotes.
      cbn [possible_start in_single_quote_string in_double_quote_string].
      apply Z.eqb_neq in Hbs. rewrite Hbs, andb_false_r.
      destruct Hq as [-> | ->]; simpl; apply Z.eqb_neq in Hc; rewrite Hc; simpl; [done|].
      by destruct (c =? SQ). }
    cbn [mbind run_bind]. simpl possible_start. simpl possible_end. cbn [length].
    rewrite IH. by replace (S i + length l)%nat with (i + S (length l))%nat by lia.
  - assert (update_state (in_string k n q) BS i = Ret (MkScan (Some k) None n (q =? SQ) (q =? DQ) true)) as ->.
    { by destruct Hq as [-> | ->]. }
    cbn [mbind run_bind possible_start possible_end find_frame].
    assert (update_state (MkScan (Some k) None n (q =? SQ) (q =? DQ) true) c (S i) = Ret (in_string k n q)) as ->
      by done.
    cbn [mbind run_bind]. simpl possible_start. simpl possible_end. rewrite IH. cbn [length].
    by replace (S (S i) + length l)%nat with (i + S (S (length l)))%nat by lia.
Qed.

Lemma balanced_scan l k n i rest :
  balanced l → 1 ≤ n → n + Z.of_nat (length l) + 1 < 2 ^ 31 →
  find_frame (inside k n) i (l ++ rest) = find_frame (inside k n) (i + length l) rest.
Proof.
  intros Hl; revert n i rest; induction Hl as [|c l Hc Hl IH|q body l Hq Hb Hl IH|l1 l2 H1 IH1 H2 IH2];
    intros n i rest Hn Hmax; cbn [app find_frame length] in *.
  - by rewrite Nat.add_0_r.
  - assert (update_state (inside k n) c i = Ret (inside k n)) as ->.
    { rewrite !not_elem_of_cons in Hc. destruct Hc as (H1 & H2 & H3 & H4 & _).
      apply Z.eqb_neq in H1, H2, H3, H4.
      unfold update_state, inside, handle_quotes, handle_braces. simpl.
      rewrite H3, H4. simpl. by rewrite H1, H2. }
    cbn [mbind run_bind]. simpl possible_start. simpl possible_end. rewrite IH by lia.
    by replace (S i + length l)%nat with (i + S (length l))%nat by lia.
  - assert (update_state (inside k n) q i = Ret (in_string k n q)) as -> by by destruct Hq as [-> | ->].
    cbn [mbind run_bind]. simpl possible_start. simpl possible_end.
    rewrite <- app_assoc. cbn [app]. rewrite quoted_scan by done.
    rewrite length_app in *. cbn [length] in *. rewrite IH by lia. f_equal. lia.
  - rewrite length_app in *. cbn [length] in *.
    assert (update_state (inside k n) OB i = Ret (inside k (n + 1))) as ->.
    { unfold update_state, handle_braces, panic_if. simpl.
      destruct (Z.leb_spec (2 ^ 31) (n + 1)); [lia|]. destruct (Z.eqb_spec (n + 1) 1); [lia|done]. }
    cbn [mbind run_bind]. simpl possible_start. simpl possible_end.
    rewrite <- app_assoc. cbn [app]. rewrite IH1 by lia. cbn [find_frame].
    assert (update_state (inside k (n + 1)) CB (S i + length l1) = Ret (inside k n)) as ->.
    { unfold update_state, handle_braces, panic_if. simpl. rewrite Z.add_simpl_r.
      destruct (Z.ltb_spec n (- 2 ^ 31)); [lia|]. destruct (Z.ltb_spec n 0); [lia|].
      by destruct (Z.eqb_spec n 0); [lia|]. }
    cbn [mbind run_bind]. simpl possible_start. simpl possible_end. rewrite IH2 by lia. f_equal. lia.
Qed.

(** Before an object starts only an opening brace matters. *)
Lemma trash_scan g i rest :
  OB ∉ g → find_frame reset i (g ++ rest) = find_frame reset (i + length g) rest.
Proof.
  revert i; induction g as [|c g IH]; intros i Hg; cbn [app find_frame length]; [by rewrite Nat.add_0_r|].
  apply not_elem_of_cons in Hg as [Hc Hg].
  assert (update_state reset c i = Ret reset) as ->.
  { unfold update_state, handle_braces. simpl. destruct (Z.eqb_spec c OB); [congruence|]. by destruct (c =? CB). }
  cbn [mbind run_bind]. simpl possible_start. simpl possible_end. rewrite IH by done. f_equal. lia.
Qed.

Lemma object_found g body rest :
  OB ∉ g → balanced body → small (g ++ OB :: body ++ CB :: rest) →
  find_frame reset 0 (g ++ OB :: body ++ CB :: rest) =
    Ret (inr (length g, length g + S (S (length body)))%nat).
Proof.
  intros Hg Hb Hs. unfold small in Hs. rewrite length_app in Hs. simpl in Hs. rewrite length_app in Hs. simpl in Hs.
  rewrite trash_scan by done. cbn [find_frame].
  change (update_state reset OB (0 + length g)) with (Ret (inside (length g) 1)).
  cbn [mbind run_bind]. simpl possible_start. simpl possible_end.
  rewrite balanced_scan by (done || lia). cbn [find_frame].
  change (update_state (inside (length g) 1) CB (S (0 + length g) + length body))
    with (Ret (MkScan (Some (length g)) (Some (S (0 + length g) + length body + 1)%nat) 0 false false false)).
  cbn [mbind run_bind possible_start possible_end]. do 3 f_equal. lia.
Qed.


(** ** Properties *)

(** C30: how the stream is cut does not matter. For any bytes (under 2 GiB in
    all), however they are split into pieces, when after each piece frames are
    taken until there is none: the framer never panics (its "internal error"
    branch and its slices are safe, its nesting counter stays in range), and ends
    with the same frames and the same buffer as when all bytes arrive at once. *)
Theorem json_framer_fragmentation (pieces : list (list Z)) (fuel : nat) :
  Z.of_nat (length (concat pieces)) < 2 ^ 31 → (length (concat pieces) < fuel)%nat →
  feed fuel json_new pieces = take_all fuel (MkJson reset (concat pieces)) ∧
  ∃ f cs, feed fuel json_new pieces = Ret (f, cs) ∧ json_take_frame f = Ret (f, None).
Proof.
  intros Hs Hf. assert (feed fuel json_new pieces = take_all fuel (MkJson reset (concat pieces))) as Heq
    by (apply (feed_whole pieces json_new fuel); done).
  split; [done|]. rewrite Heq.
  destruct (take_all_more fuel (MkJson reset (concat pieces)) [] fuel) as (f & cs & -> & Hset & _);
    simpl; rewrite ?app_nil_r; [done|done|done|]. by exists f, cs.
Qed.

Definition demo_json : list (list Z) :=
  [bytes_of "tr}ash {'a':{x"; bytes_of ":'\'}'}"; bytes_of "} {"; bytes_of "} more"].

Lemma json_framer_fragmentation_witness :
  feed 60 json_new demo_json = take_all 60 (MkJson reset (concat demo_json)) ∧
  ∃ f cs, feed 60 json_new demo_json = Ret (f, cs) ∧ json_take_frame f = Ret (f, None).
Proof. apply json_framer_fragmentation; vm_compute; (reflexivity || lia). Defined.

(** An object in the stream is framed whole.  After any bytes without an
    opening brace, an object whose braces match, counting none inside quoted
    strings and minding backslashes, comes out as one frame with exactly its
    bytes, the bytes before it are discarded and the bytes after it are kept. *)
Lemma json_framer_frames_object (s : scan) (trash body rest : list Z) :
  OB ∉ trash → balanced body →
  Z.of_nat (length (trash ++ OB :: body ++ CB :: rest)) < 2 ^ 31 →
  json_take_frame (MkJson s (trash ++ OB :: body ++ CB :: rest)) =
    Ret (MkJson reset rest, Some (MkChunk (OB :: body ++ [CB]) true)).
Proof.
  intros Hg Hb Hs. destruct (take_frame_find (MkJson s (trash ++ OB :: body ++ CB :: rest)) Hs)
    as (r & Hr & ->). cbn [data_so_far] in *.
  rewrite (object_found trash body rest Hg Hb Hs) in Hr. injection Hr as <-. unfold frame_of.
  replace (OB :: body ++ CB :: rest) with ((OB :: body ++ [CB]) ++ rest)
    by (simpl; by rewrite <- app_assoc).
  rewrite drop_app_length, (app_assoc trash), drop_app_length'
    by (rewrite length_app; simpl; rewrite length_app; simpl; lia).
  rewrite take_app_length' by (simpl; rewrite length_app; simpl; lia). done.
Qed.


End Json.
