(* ===== verification/HttpFramer.v ===== *)
(** * The HTTP framer

    Models [node/src/sub_lib/framer_utils.rs] (chunk headers),
    [node/src/sub_lib/http_packet_framer.rs] (the framer for HTTP requests and
    responses, with Content-Length bodies and chunked transfer encoding),
    [node/src/http_request_start_finder.rs] and
    [node/src/sub_lib/http_response_start_finder.rs].

    The crate [regex] is a parameter: for each of the three patterns in the
    source, what it captures in a line.  [String::from_utf8], [str::parse] and
    [contains] are written out.  The trait [HttpPacketStartFinder] is a class
    with an instance for requests and one for responses.  Loops have fuel; a
    loop that ran out of it would be a [Panic], which the theorems exclude.
    Logging is left out.

    Packets are written by an encoder of their own ([header], [write_header]), so
    that the length a packet announces is what its headers say and not what the
    framer makes of them. *)
From Stdlib Require Import Ascii String.
From S2P Require Import Prelude.
From S2P Require Import Utils.
From S2P Require Import Framer.
From stdpp Require Import base list strings.

Module Http.
Import Framer.
Local Open Scope Z_scope.

Definition bytes_of (s : string) : list Z :=
  (λ c, Z.of_N (N_of_ascii c)) <$> list_ascii_of_string s.

Definition CRLF : list Z := [13; 10].
Definition DOUBLE_CRLF : list Z := [13; 10; 13; 10].
Definition BYTES_TO_PRESERVE : nat := 9.

(** ** [framer_utils.rs] *)

Record ChunkOffsetLength := MkCol {
  offset : nat;
  length_ : Z
}.

Definition position_in_range (digit first last : Z) : option Z :=
  if digit <? first then None
  else if last <? digit then None
  else Some (digit - first).

Definition evaluate_hex_digit (digit : Z) : option Z :=
  match position_in_range digit 48 57 with
  | Some pos => Some pos
  | None =>
      match position_in_range digit 65 70 with
      | Some pos => Some (10 + pos)
      | None => option_map (λ pos, 10 + pos) (position_in_range digit 97 102)
      end
  end.

(** The loop runs while [idx > 0], so [idx] itself bounds it. *)
Fixpoint find_reversed_digits_loop (data : list Z) (idx : nat) (result : list Z) : run (list Z) :=
  match idx with
  | O => Ret result
  | S idx' =>
      if (length result <? 8)%nat then
        b ← get data idx';
        match evaluate_hex_digit b with
        | None => Ret result
        | Some value => find_reversed_digits_loop data idx' (result ++ [value])
        end
      else Ret result
  end.

Definition find_reversed_digits (data : list Z) (backward_from : nat) : run (list Z) :=
  find_reversed_digits_loop data backward_from [].

(** [usize] arithmetic; [multiplier <<= 4] drops bits, the sum is checked. *)
Definition value_of_reversed_digits (reversed_digits : list Z) : run Z :=
  '(_, result) ← foldl (λ acc digit,
      '(multiplier, result) ← acc;
      panic_if (2 ^ 64 <=? digit * multiplier) (
      panic_if (2 ^ 64 <=? result + digit * multiplier) (
      Ret (u64 (Z.shiftl multiplier 4), result + digit * multiplier))))
    (Ret (1, 0)) reversed_digits;
  Ret result.

Definition find_next_chunk_offset_length (data : list Z) : run (result nat ChunkOffsetLength) :=
  match Utils.index_of data CRLF with
  | None => Ret (Err 0%nat)
  | Some O => Ret (Err (length CRLF))
  | Some crlf_offset =>
      b ← get data (crlf_offset - 1);
      match evaluate_hex_digit b with
      | None => Ret (Err (crlf_offset + length CRLF)%nat)
      | Some _ =>
          reversed_digits ← find_reversed_digits data crlf_offset;
          value ← value_of_reversed_digits reversed_digits;
          start ← usub crlf_offset (length reversed_digits);
          Ret (Ok (MkCol start
                 (value + Z.of_nat (length CRLF) + Z.of_nat (length reversed_digits))))
      end
  end.

Fixpoint find_chunk_loop (fuel : nat) (data : list Z) (accumulated_offset : nat)
    : run (option ChunkOffsetLength) :=
  match fuel with
  | O => Panic
  | S fuel' =>
      rest ← slice_from data accumulated_offset;
      r ← find_next_chunk_offset_length rest;
      match r with
      | Err O => Ret None
      | Err next_offset => find_chunk_loop fuel' data (accumulated_offset + next_offset)
      | Ok res => Ret (Some (MkCol (offset res + accumulated_offset) (length_ res)))
      end
  end.

Definition find_chunk_offset_length (data : list Z) : run (option ChunkOffsetLength) :=
  find_chunk_loop (S (length data)) data 0.

(** ** Data of the packet framer *)

Inductive PacketProgressState := SeekingPacketStart | SeekingBodyStart | SeekingBodyEnd.
Inductive ChunkExistenceState := Standard | ChunkedResponse | Chunk.
Inductive ChunkProgressState :=
| CNone | SeekingLengthHeader | SeekingEndOfChunk | SeekingEndOfFinalChunk.

Record HttpFramerState := MkHttp {
  data_so_far : list Z;
  packet_progress_state : PacketProgressState;
  content_length : Z;
  transfer_encoding_chunked : ChunkExistenceState;
  chunk_progress_state : ChunkProgressState;
  chunk_size : option Z;
  lines : list (list Z)
}.

Global Instance PacketProgressState_eq_dec : EqDecision PacketProgressState.
Proof. solve_decision. Defined.
Global Instance ChunkExistenceState_eq_dec : EqDecision ChunkExistenceState.
Proof. solve_decision. Defined.

Definition http_new : HttpFramerState :=
  MkHttp [] SeekingPacketStart 0 Standard CNone None [].

Definition set_data (s : HttpFramerState) (d : list Z) : HttpFramerState :=
  MkHttp d (packet_progress_state s) (content_length s) (transfer_encoding_chunked s)
         (chunk_progress_state s) (chunk_size s) (lines s).

Definition set_packet (s : HttpFramerState) (p : PacketProgressState) : HttpFramerState :=
  MkHttp (data_so_far s) p (content_length s) (transfer_encoding_chunked s)
         (chunk_progress_state s) (chunk_size s) (lines s).

Definition set_content_length (s : HttpFramerState) (n : Z) : HttpFramerState :=
  MkHttp (data_so_far s) (packet_progress_state s) n (transfer_encoding_chunked s)
         (chunk_progress_state s) (chunk_size s) (lines s).

Definition set_chunking (s : HttpFramerState) (e : ChunkExistenceState) (p : ChunkProgressState)
    (n : option Z) : HttpFramerState :=
  MkHttp (data_so_far s) (packet_progress_state s) (content_length s) e p n (lines s).

Definition set_lines (s : HttpFramerState) (ls : list (list Z)) : HttpFramerState :=
  MkHttp (data_so_far s) (packet_progress_state s) (content_length s)
         (transfer_encoding_chunked s) (chunk_progress_state s) (chunk_size s) ls.

(** [trait HttpPacketStartFinder]. *)
Class StartFinder := { seek_packet_start : HttpFramerState → run (HttpFramerState * bool) }.

(** ** Strings *)

Definition starts_with (l prefix : list Z) : bool :=
  bool_decide (take (length prefix) l = prefix).

(** [length_str.parse::<usize>()]. *)
Fixpoint parse_digits (acc : Z) (l : list Z) : option Z :=
  match l with
  | [] => Some acc
  | b :: l' =>
      if (48 <=? b) && (b <=? 57) && (acc * 10 + (b - 48) <? 2 ^ 64)
      then parse_digits (acc * 10 + (b - 48)) l' else None
  end.

Definition parse_usize (l : list Z) : option Z :=
  match l with
  | [] => None
  | 43 :: ((_ :: _) as l') => parse_digits 0 l'
  | _ => parse_digits 0 l
  end.

(** ** Operations of the packet framer *)

Section framer.
(** What capture group 1 of ["^Content-Length: *(\d+)"] and of
    ["^Transfer-Encoding: *(.+)"] holds; the outer option is the match. *)
Context (content_length_captures transfer_encoding_captures : list Z → option (option (list Z))).

Definition discard_current_request (s : HttpFramerState) : HttpFramerState :=
  set_lines (set_content_length (set_packet s SeekingPacketStart) 0) [].

Definition check_for_content_length (s : HttpFramerState) (line : list Z) : HttpFramerState :=
  if negb (starts_with line (bytes_of "Content-Length:")) then s
  else if negb (valid_utf8 line) then discard_current_request s
  else match content_length_captures line with
       | None => discard_current_request s
       | Some None => s
       | Some (Some length_str) =>
           match parse_usize length_str with
           | Some n => set_content_length s n
           | None => set_content_length (discard_current_request s) 0
           end
       end.

Definition check_for_transfer_encoding (s : HttpFramerState) (line : list Z) : HttpFramerState :=
  if negb (starts_with line (bytes_of "Transfer-Encoding:")) then s
  else if negb (valid_utf8 line) then discard_current_request s
  else match transfer_encoding_captures line with
       | None => discard_current_request s
       | Some None => s
       | Some (Some encodings) =>
           match Utils.index_of encodings (bytes_of "chunked") with
           | Some _ => set_chunking s ChunkedResponse SeekingLengthHeader None
           | None => s
           end
       end.

Definition check_for_zero_length (s : HttpFramerState) (line : list Z) : HttpFramerState * bool :=
  if negb (length line =? 2)%nat then (s, false)
  else (set_packet s SeekingBodyEnd, true).

(** One header line, already cut off. *)
Definition handle_line (s : HttpFramerState) (line : list Z) : HttpFramerState * bool :=
  let s := if content_length s =? 0 then check_for_content_length s line else s in
  let s := if bool_decide (transfer_encoding_chunked s = Standard)
           then check_for_transfer_encoding s line else s in
  let '(s, result) := check_for_zero_length s line in
  (set_lines s (lines s ++ [line]), result).

Fixpoint seek_body_start (fuel : nat) (s : HttpFramerState) : run (HttpFramerState * bool) :=
  match fuel with
  | O => Panic
  | S fuel' =>
      if bool_decide (packet_progress_state s = SeekingBodyStart) then
        match Utils.index_of (data_so_far s) CRLF with
        | Some line_end =>
            '(line, remainder) ← split_off (data_so_far s) (line_end + 2);
            let '(s, result) := handle_line (set_data s remainder) line in
            if (result : bool) then Ret (s, true) else seek_body_start fuel' s
        | None => Ret (s, false)
        end
      else Ret (s, false)
  end.

Definition seek_body_end (s : HttpFramerState) : run (HttpFramerState * option (list Z)) :=
  if bool_decide (packet_progress_state s = SeekingBodyEnd)
     && (content_length s <=? Z.of_nat (length (data_so_far s)))
  then
    '(line, remainder) ← split_off (data_so_far s) (Z.to_nat (content_length s));
    let s := set_packet (set_lines (set_data s remainder) (lines s ++ [line])) SeekingPacketStart in
    let s :=
      if bool_decide (transfer_encoding_chunked s = ChunkedResponse)
      then set_chunking s Chunk SeekingLengthHeader None
      else set_chunking s Standard (chunk_progress_state s) (chunk_size s) in
    let s := set_content_length s 0 in
    Ret (set_lines s [], Some (mjoin (lines s)))
  else Ret (s, None).

Definition take_packet_frame `{!StartFinder} (s : HttpFramerState)
    : run (HttpFramerState * option FramedChunk) :=
  '(s, found) ←
    (if bool_decide (packet_progress_state s = SeekingPacketStart)
     then seek_packet_start s else Ret (s, true));
  if negb (found : bool) then Ret (s, None)
  else
    '(s, found) ←
      (if bool_decide (packet_progress_state s = SeekingBodyStart)
       then seek_body_start (S (length (data_so_far s))) s else Ret (s, true));
    if negb (found : bool) then Ret (s, None)
    else if bool_decide (packet_progress_state s = SeekingBodyEnd) then
      '(s, request) ← seek_body_end s;
      Ret (s, option_map (λ r, MkChunk r false) request)
    else Ret (s, None).

Definition take_frame_while_seeking_end_of_chunk (s : HttpFramerState)
    : run (HttpFramerState * option FramedChunk) :=
  chunk_size ← expect (chunk_size s);
  if Z.of_nat (length (data_so_far s)) <? chunk_size + Z.of_nat (length CRLF)
  then Ret (s, None)
  else
    '(chunk, remaining_data) ← split_off (data_so_far s) (Z.to_nat (chunk_size + Z.of_nat (length CRLF)));
    '(chunk, remaining_data) ←
      (if negb (bool_decide (drop (length chunk - 2) chunk = CRLF)) then
         i1 ← usub (length chunk) 1;
         i2 ← usub (length chunk) 2;
         b1 ← get chunk i1;
         b2 ← get chunk i2;
         Ret (take (length chunk - 2) chunk, b2 :: b1 :: remaining_data)
       else Ret (chunk, remaining_data));
    let s := set_data s remaining_data in
    Ret (set_chunking s (transfer_encoding_chunked s) SeekingLengthHeader None,
         Some (MkChunk chunk false)).

Definition take_frame_while_seeking_end_of_final_chunk (s : HttpFramerState)
    : run (HttpFramerState * option FramedChunk) :=
  match Utils.index_of (data_so_far s) DOUBLE_CRLF with
  | Some offset =>
      '(result_data, temp) ← split_off (data_so_far s) (offset + length DOUBLE_CRLF);
      Ret (set_chunking (set_data s temp) Standard CNone None, Some (MkChunk result_data false))
  | None => Ret (s, None)
  end.

(** Looking for a chunk header; when one is found the state moves on and
    [take_chunk_frame] is called again, which is given here as [continue_]. *)
Definition take_frame_while_seeking_length_header
    (continue_ : HttpFramerState → run (HttpFramerState * option FramedChunk)) (s : HttpFramerState)
    : run (HttpFramerState * option FramedChunk) :=
  r ← find_chunk_offset_length (data_so_far s);
  match r with
  | None =>
      if (BYTES_TO_PRESERVE <? length (data_so_far s))%nat then
        '(_, kept) ← split_off (data_so_far s) (length (data_so_far s) - BYTES_TO_PRESERVE);
        Ret (set_data s kept, None)
      else Ret (s, None)
  | Some col =>
      '(_, kept) ← split_off (data_so_far s) (offset col);
      let s := set_data s kept in
      is_final ← (if length_ col =? 3 then
                    b ← get (data_so_far s) (offset col);
                    Ret (b =? 48)
                  else Ret false);
      if (is_final : bool)
      then continue_ (set_chunking s (transfer_encoding_chunked s) SeekingEndOfFinalChunk None)
      else continue_ (set_chunking s (transfer_encoding_chunked s) SeekingEndOfChunk (Some (length_ col)))
  end.

(** The recursion is at most one deep: a found header leaves [SeekingLengthHeader]. *)
Fixpoint take_chunk_frame_n (fuel : nat) (s : HttpFramerState)
    : run (HttpFramerState * option FramedChunk) :=
  match fuel with
  | O => Panic
  | S fuel' =>
      match chunk_progress_state s with
      | CNone => Panic
      | SeekingLengthHeader => take_frame_while_seeking_length_header (take_chunk_frame_n fuel') s
      | SeekingEndOfChunk => take_frame_while_seeking_end_of_chunk s
      | SeekingEndOfFinalChunk => take_frame_while_seeking_end_of_final_chunk s
      end
  end.

Definition take_chunk_frame (s : HttpFramerState) : run (HttpFramerState * option FramedChunk) :=
  take_chunk_frame_n 2 s.

Definition http_add_data (s : HttpFramerState) (data : list Z) : HttpFramerState :=
  set_data s (data_so_far s ++ data).

Definition http_take_frame `{!StartFinder} (s : HttpFramerState)
    : run (HttpFramerState * option FramedChunk) :=
  if bool_decide (transfer_encoding_chunked s = Chunk) then take_chunk_frame s
  else take_packet_frame s.
End framer.

(** ** Start finders *)

Definition METHODS : list (list Z) :=
  bytes_of <$> ["GET"; "HEAD"; "POST"; "PUT"; "DELETE"; "CONNECT"; "OPTIONS"; "TRACE"; "PATCH"]%string.
Definition LONGEST_METHOD_LEN : nat := 7.

(** [iter().min()]. *)
Definition min_list (l : list nat) : option nat :=
  match l with [] => None | a :: l' => Some (foldl Nat.min a l') end.

(** The part of the data kept while no packet start is in sight. *)
Definition keep_tail (n : nat) (s : HttpFramerState) : run (HttpFramerState * bool) :=
  let index := if (n <? length (data_so_far s))%nat
               then (length (data_so_far s) - n)%nat else 0%nat in
  '(_, remainder) ← split_off (data_so_far s) index;
  Ret (set_data s remainder, false).

Definition request_seek_packet_start (s : HttpFramerState) : run (HttpFramerState * bool) :=
  if bool_decide (packet_progress_state s = SeekingPacketStart) then
    match min_list (omap (λ method, Utils.index_of (data_so_far s) method) METHODS) with
    | Some first_method_offset =>
        '(_, clean_start_data) ← split_off (data_so_far s) first_method_offset;
        let s := set_packet (set_data s clean_start_data) SeekingBodyStart in
        Ret (set_lines (set_content_length s 0) [], true)
    | None => keep_tail LONGEST_METHOD_LEN s
    end
  else Ret (s, false).

Definition request_finder : StartFinder := {| seek_packet_start := request_seek_packet_start |}.

Section response.
(** Where ["HTTP/1\.[01] \d\d\d "] matches in the (lossily decoded) bytes. *)
Context (response_match : list Z → option nat).

Definition LONGEST_PREFIX_LEN : nat := 13.

Definition find_next_response_offset (data : list Z) : run (result nat nat) :=
  match Utils.index_of data (bytes_of "HTTP/") with
  | None => Ret (Err 0%nat)
  | Some http_offset =>
      if (length data <? http_offset + LONGEST_PREFIX_LEN)%nat
      then Ret (Err (http_offset + 5)%nat)
      else
        possibility ← slice data http_offset (http_offset + LONGEST_PREFIX_LEN);
        match response_match possibility with
        | Some start => Ret (Ok (start + http_offset)%nat)
        | None => Ret (Err (http_offset + 1)%nat)
        end
  end.

Fixpoint find_response_loop (fuel : nat) (data : list Z) (accumulated_offset : nat)
    : run (option nat) :=
  match fuel with
  | O => Panic
  | S fuel' =>
      rest ← slice_from data accumulated_offset;
      r ← find_next_response_offset rest;
      match r with
      | Err O => Ret None
      | Err next_offset => find_response_loop fuel' data (accumulated_offset + next_offset)
      | Ok o => Ret (Some (o + accumulated_offset)%nat)
      end
  end.

Definition find_response_offset (data : list Z) : run (option nat) :=
  find_response_loop (S (length data)) data 0.

Definition response_seek_packet_start (s : HttpFramerState) : run (HttpFramerState * bool) :=
  if bool_decide (packet_progress_state s = SeekingPacketStart) then
    r ← find_response_offset (data_so_far s);
    match r with
    | Some response_offset =>
        '(_, clean_start_data) ← split_off (data_so_far s) response_offset;
        let s := set_content_length (set_packet (set_data s clean_start_data) SeekingBodyStart) 0 in
        Ret (set_lines (set_chunking s Standard CNone None) [], true)
    | None => keep_tail LONGEST_PREFIX_LEN s
    end
  else Ret (s, false).

Definition response_finder : StartFinder := {| seek_packet_start := response_seek_packet_start |}.
End response.

(** ** Summaries *)

Inductive summary := NoSpaces | OneSpace | BadUtf8 | Summary (s : list Z).

Definition summarize_http_packet (request : list Z) : summary :=
  match Utils.index_of_from request 32 0 with
  | None => NoSpaces
  | Some first_space_index =>
      match Utils.index_of_from request 32 (first_space_index + 1) with
      | None => OneSpace
      | Some second_space_index =>
          let s := take second_space_index request in
          if valid_utf8 s then Summary s else BadUtf8
      end
  end.

(** ** Chunk headers, specification *)

Definition is_hex (b : Z) : bool :=
  match evaluate_hex_digit b with Some _ => true | None => false end.

Definition digit_value (b : Z) : Z := default 0 (evaluate_hex_digit b).

(** The number written by hexadecimal digits. *)
Definition hex_value (ds : list Z) : Z := foldl (λ acc b, acc * 16 + digit_value b) 0 ds.

(** A line break at [h] that ends a chunk header. *)
Definition header_end (data : list Z) (h : nat) : Prop :=
  Utils.occurs data CRLF h ∧ (0 < h)%nat ∧ ∃ b, data !! (h - 1)%nat = Some b ∧ is_hex b = true.

Lemma digit_value_range b : 0 ≤ digit_value b < 16.
Proof.
  unfold digit_value, evaluate_hex_digit, position_in_range.
  repeat (split_if; simpl; try lia).
Qed.

Lemma is_hex_eval b : is_hex b = true → evaluate_hex_digit b = Some (digit_value b).
Proof. unfold is_hex, digit_value. by destruct (evaluate_hex_digit b). Qed.

Lemma not_hex_eval b : is_hex b = false → evaluate_hex_digit b = None.
Proof. unfold is_hex. by destruct (evaluate_hex_digit b). Qed.

(** The loop collects the digits that stand before [idx], last one first. *)
Lemma reversed_digits_spec data idx acc :
  (idx ≤ length data)%nat → (length acc ≤ 8)%nat →
  ∃ pre ds, take idx data = pre ++ ds ∧ Forall (λ b, is_hex b = true) ds ∧
    (length acc + length ds ≤ 8)%nat ∧
    find_reversed_digits_loop data idx acc = Ret (acc ++ reverse (digit_value <$> ds)) ∧
    (pre = [] ∨ (length acc + length ds = 8)%nat ∨ ∃ b, last pre = Some b ∧ is_hex b = false).
Proof.
  revert acc; induction idx as [|idx IH]; intros acc Hi Ha; cbn [find_reversed_digits_loop].
  - exists [], []. simpl. rewrite app_nil_r. split_and!; try done; [lia|by left].
  - destruct (lookup_lt_is_Some_2 data idx ltac:(lia)) as [b Hb].
    rewrite (take_S_r data idx b Hb).
    destruct (Nat.ltb_spec (length acc) 8) as [Hlt|Hge].
    + rewrite (get_lookup _ _ _ Hb). cbn [mbind run_bind]. destruct (is_hex b) eqn:Eh.
      * rewrite (is_hex_eval b Eh).
        destruct (IH (acc ++ [digit_value b])) as (pre & ds & Ht & Hds & Hlen & Hloop & Hmax);
          [lia|rewrite length_app; simpl; lia|].
        rewrite length_app in Hlen, Hmax. simpl in Hlen, Hmax.
        exists pre, (ds ++ [b]). rewrite Ht, app_assoc. split; [done|].
        split; [by apply Forall_app; split; [|repeat constructor]|].
        rewrite length_app. simpl. split; [lia|]. split.
        -- rewrite Hloop, fmap_app, reverse_app. simpl. by rewrite <- app_assoc.
        -- destruct Hmax as [->|[Hm|Hm]]; [by left|right; left; lia|right; by right].
      * rewrite (not_hex_eval b Eh). exists (take idx data ++ [b]), []. simpl. rewrite !app_nil_r.
        split_and!; try done; [lia|]. right. right. exists b. by rewrite last_snoc.
    + exists (take idx data ++ [b]), []. simpl. rewrite !app_nil_r. split_and!; try done; [lia|].
      right. left. lia.
Qed.

Definition reversed_value (vs : list Z) : Z := foldr (λ v acc, v + 16 * acc) 0 vs.

Lemma reversed_value_range vs :
  Forall (λ v, 0 ≤ v < 16) vs → 0 ≤ reversed_value vs < 16 ^ Z.of_nat (length vs).
Proof.
  induction 1 as [|v vs Hv Hvs IH]; cbn [reversed_value foldr length]; [simpl; lia|].
  fold (reversed_value vs). rewrite Nat2Z.inj_succ, Z.pow_succ_r by lia. lia.
Qed.

Lemma value_loop vs i r :
  Forall (λ v, 0 ≤ v < 16) vs → (i + length vs ≤ 8)%nat → 0 ≤ r < 16 ^ Z.of_nat i →
  foldl (λ acc digit,
      '(multiplier, result) ← acc;
      panic_if (2 ^ 64 <=? digit * multiplier) (
      panic_if (2 ^ 64 <=? result + digit * multiplier) (
      Ret (u64 (Z.shiftl multiplier 4), result + digit * multiplier))))
    (Ret (16 ^ Z.of_nat i, r)) vs =
  Ret (16 ^ Z.of_nat (i + length vs), r + 16 ^ Z.of_nat i * reversed_value vs).
Proof.
  intros Hvs; revert i r; induction Hvs as [|v vs Hv Hvs IH]; intros i r Hi Hr; cbn [foldl length] in *.
  - rewrite Nat.add_0_r. simpl. do 2 f_equal. lia.
  - cbn [mbind run_bind]. unfold panic_if.
    assert (16 ^ Z.of_nat (S i) = 16 * 16 ^ Z.of_nat i) as Hpow by (rewrite Nat2Z.inj_succ, Z.pow_succ_r; lia).
    assert (16 ^ Z.of_nat (S i) ≤ 16 ^ 8) as Hmax by (apply Z.pow_le_mono_r; lia).
    assert (0 < 16 ^ Z.of_nat i) by (apply Z.pow_pos_nonneg; lia).
    destruct (Z.leb_spec (2 ^ 64) (v * 16 ^ Z.of_nat i)); [nia|].
    destruct (Z.leb_spec (2 ^ 64) (r + v * 16 ^ Z.of_nat i)); [nia|].
    rewrite Z.shiftl_mul_pow2 by lia. change (2 ^ 4) with 16. unfold u64. rewrite wrap_small by nia.
    replace (16 ^ Z.of_nat i * 16) with (16 ^ Z.of_nat (S i)) by lia.
    rewrite IH by (lia || nia). cbn [reversed_value foldr]. fold (reversed_value vs).
    replace (i + S (length vs))%nat with (S i + length vs)%nat by lia. do 2 f_equal. rewrite Hpow. ring.
Qed.

Lemma value_of_reversed_digits_spec vs :
  Forall (λ v, 0 ≤ v < 16) vs → (length vs ≤ 8)%nat →
  value_of_reversed_digits vs = Ret (reversed_value vs).
Proof.
  intros Hvs Hl. unfold value_of_reversed_digits.
  pose proof (value_loop vs 0 0 Hvs ltac:(lia) ltac:(simpl; lia)) as H. change (16 ^ Z.of_nat 0) with 1 in H.
  rewrite H. cbn [mbind run_bind]. f_equal. lia.
Qed.

Lemma reversed_value_hex ds : reversed_value (reverse (digit_value <$> ds)) = hex_value ds.
Proof.
  induction ds as [|b ds IH] using rev_ind; [done|].
  rewrite fmap_app, reverse_app. unfold hex_value. rewrite foldl_app. cbn. 
  fold (reversed_value (reverse (digit_value <$> ds))). rewrite IH. fold (hex_value ds). lia.
Qed.

Lemma digit_values_range ds : Forall (λ v, 0 ≤ v < 16) (reverse (digit_value <$> ds)).
Proof.
  apply Forall_reverse, Forall_fmap, Forall_forall. intros b _. apply digit_value_range.
Qed.

Lemma hex_value_nonneg ds : 0 ≤ hex_value ds.
Proof. rewrite <- reversed_value_hex. apply reversed_value_range, digit_values_range. Qed.

Lemma hex_value_max ds : (length ds ≤ 8)%nat → hex_value ds < 2 ^ 32.
Proof.
  intros Hl. rewrite <- reversed_value_hex.
  pose proof (reversed_value_range _ (digit_values_range ds)) as [_ H]. rewrite length_reverse, length_fmap in H.
  eapply Z.lt_le_trans; [exact H|]. change (2 ^ 32) with (16 ^ 8). apply Z.pow_le_mono_r; lia.
Qed.

(** Digits before a line break read as a header. *)
Definition chunk_header_at (data : list Z) (col : ChunkOffsetLength) : Prop :=
  ∃ pre ds post, data = pre ++ ds ++ CRLF ++ post ∧ length pre = offset col ∧
    (1 ≤ length ds ≤ 8)%nat ∧ Forall (λ b, is_hex b = true) ds ∧
    length_ col = hex_value ds + 2 + Z.of_nat (length ds) ∧
    (pre = [] ∨ length ds = 8%nat ∨ ∃ b, last pre = Some b ∧ is_hex b = false) ∧
    ∀ h, (h < length pre + length ds)%nat → ¬ header_end data h.

Lemma find_next_spec data :
  ∃ r, find_next_chunk_offset_length data = Ret r ∧
    match r with
    | Ok col => chunk_header_at data col
    | Err O => ∀ h, ¬ Utils.occurs data CRLF h
    | Err n => (2 ≤ n ≤ length data)%nat ∧ Utils.occurs data CRLF (n - 2) ∧
        ∀ h, (h < n - 1)%nat → ¬ header_end data h
    end.
Proof.
  unfold find_next_chunk_offset_length.
  pose proof (Utils.index_of_spec data CRLF ltac:(done)) as Hidx.
  destruct (Utils.index_of data CRLF) as [[|p]|].
  - destruct Hidx as (Ho & _ & Hl). simpl in Hl. eexists. split; [done|]. simpl. split; [lia|].
    split; [done|]. intros h Hh (_ & Hpos & _). lia.
  - destruct Hidx as (Ho & Hfirst & Hl). simpl in Hl. rewrite Nat.sub_succ, Nat.sub_0_r.
    destruct (lookup_lt_is_Some_2 data p ltac:(lia)) as [b Hb].
    rewrite (get_lookup _ _ _ Hb). cbn [mbind run_bind]. destruct (is_hex b) eqn:Eh.
    + rewrite (is_hex_eval b Eh). unfold find_reversed_digits.
      destruct (reversed_digits_spec data (S p) []) as (pre & ds & Ht & Hds & Hlen & -> & Hmax); [lia|simpl; lia|].
      cbn [mbind run_bind app]. simpl in Hlen.
      rewrite value_of_reversed_digits_spec, reversed_value_hex
        by (apply digit_values_range || (rewrite length_reverse, length_fmap; lia)).
      cbn [mbind run_bind]. rewrite length_reverse, length_fmap.
      assert (length pre + length ds = S p)%nat as Hsum.
      { apply (f_equal length) in Ht. rewrite length_take, length_app in Ht. lia. }
      rewrite usub_ok by lia. cbn [mbind run_bind]. eexists. split; [done|].
      exists pre, ds, (drop (S p + 2) data). cbn [offset length_].
      split; [|split_and!; try done; simpl in *; try lia].
      * rewrite <- (take_drop (S p) data) at 1. rewrite Ht, <- app_assoc. do 2 f_equal.
        unfold Utils.occurs in Ho. rewrite <- (take_drop 2 (drop (S p) data)). rewrite drop_drop.
        simpl in Ho |- *. by rewrite Ho.
      * destruct ds; [|simpl; lia]. exfalso. rewrite app_nil_r in Ht.
        rewrite (take_S_r data p b Hb) in Ht. destruct Hmax as [->|[Hm|(b' & Hlast & Hn)]].
        -- by destruct (take p data).
        -- simpl in Hm. lia.
        -- rewrite <- Ht, last_snoc in Hlast. congruence.
      * intros h Hh (Hoc & _). apply (Hfirst h); [lia|done].
    + rewrite (not_hex_eval b Eh). eexists. split; [done|]. rewrite Nat.add_comm. simpl.
      split; [lia|]. split; [done|]. intros h Hh (Hoc & Hpos & b' & Hb' & Hhex).
      destruct (decide (h = S p)) as [->|]; [|apply (Hfirst h); [lia|done]].
      rewrite Nat.sub_succ, Nat.sub_0_r in Hb'. congruence.
  - eexists. split; [done|]. done.
Qed.


Lemma occurs_drop (data needles : list Z) n h :
  Utils.occurs (drop n data) needles h ↔ Utils.occurs data needles (n + h).
Proof. unfold Utils.occurs. by rewrite drop_drop. Qed.

Lemma header_end_drop data n h :
  (0 < h)%nat → header_end (drop n data) h ↔ header_end data (n + h).
Proof.
  intros Hh. unfold header_end. rewrite occurs_drop, lookup_drop.
  replace (n + (h - 1))%nat with (n + h - 1)%nat by lia.
  split; intros (? & ? & ?); split_and!; done || lia.
Qed.

(** Nothing ends at or before a position that follows a line feed. *)
Lemma header_end_after_lf data n h :
  data !! (n - 1)%nat = Some 10 → (∀ h, (h < n)%nat → ¬ header_end data h) → (h ≤ n)%nat →
  ¬ header_end data h.
Proof.
  intros Hlf Hno Hh Hend. destruct (decide (h = n)) as [->|]; [|apply (Hno h); [lia|done]].
  destruct Hend as (_ & _ & b & Hb & Hhex). rewrite Hlf in Hb. by injection Hb as <-.
Qed.

Lemma find_chunk_loop_spec fuel data acc :
  (acc ≤ length data)%nat → (length data - acc < fuel)%nat →
  (acc = 0%nat ∨ data !! (acc - 1)%nat = Some 10) →
  (∀ h, (h ≤ acc)%nat → ¬ header_end data h) →
  ∃ r, find_chunk_loop fuel data acc = Ret r ∧
    match r with
    | Some col => chunk_header_at data col
    | None => ∀ h, ¬ header_end data h
    end.
Proof.
  revert acc; induction fuel as [|fuel IH]; intros acc Hacc Hfuel Hlf Hno; [lia|].
  cbn [find_chunk_loop]. rewrite slice_from_ok by done. cbn [mbind run_bind].
  destruct (find_next_spec (drop acc data)) as (r & -> & Hr). cbn [mbind run_bind].
  assert (∀ n, (∀ h, (h < n)%nat → ¬ header_end (drop acc data) h) →
    ∀ h, (h < acc + n)%nat → ¬ header_end data h) as Hext.
  { intros n Hn h Hh Hend. destruct (decide (h ≤ acc)%nat) as [Hle|Hgt]; [by apply (Hno h)|].
    apply (Hn (h - acc)%nat); [lia|]. apply header_end_drop; [lia|].
    by replace (acc + (h - acc))%nat with h by lia. }
  destruct r as [col|[|n]].
  - eexists. split; [done|].
    destruct Hr as (pre & ds & post & Hd & Hpre & Hlen & Hhex & Hlc & Hmax & Hfst).
    exists (take acc data ++ pre), ds, post. cbn [offset length_].
    rewrite length_app, length_take, Nat.min_l by done. split; [by rewrite <- app_assoc, <- Hd, take_drop|].
    split; [lia|]. split; [done|]. split; [done|]. split; [done|]. split.
    + destruct Hmax as [->|[?|(b & Hb & Hn)]]; [|right; by left|].
      * rewrite app_nil_r. destruct acc as [|acc]; [by left|right; right].
        destruct Hlf as [|Hlf]; [done|]. rewrite Nat.sub_succ, Nat.sub_0_r in Hlf.
        exists 10. split; [|done]. by rewrite (take_S_r data acc 10 Hlf), last_snoc.
      * right. right. exists b. split; [|done]. by rewrite last_app, Hb.
    + rewrite <- Nat.add_assoc. by apply Hext.
  - eexists. split; [done|]. intros h Hend. destruct (decide (h ≤ acc)%nat); [by apply (Hno h)|].
    apply (Hr (h - acc)%nat). apply occurs_drop. replace (acc + (h - acc))%nat with h by lia. by destruct Hend.
  - destruct Hr as (Hn & Hoc & Hfst). rewrite length_drop in Hn.
    apply occurs_drop in Hoc. rewrite Utils.occurs_lookup in Hoc.
    assert (data !! (acc + S n - 1)%nat = Some 10) as Hlf'.
    { specialize (Hoc 1%nat 10 eq_refl). rewrite <- Hoc. f_equal. lia. }
    assert (∀ h, (h < acc + S n)%nat → ¬ header_end data h) as Hlt.
    { intros h Hh Hend. destruct (decide (h < acc + n)%nat); [apply (Hext n) in Hend; [done| |done]|].
      { intros h' Hh'. apply Hfst. lia. }
      replace h with (acc + n)%nat in Hend by lia. destruct Hend as (Ho' & _).
      rewrite Utils.occurs_lookup in Ho'. specialize (Ho' 0%nat 13 eq_refl).
      rewrite Nat.add_0_r in Ho'. replace (acc + S n - 1)%nat with (acc + n)%nat in Hlf' by lia. congruence. }
    apply IH; [lia|lia|by right|]. intros h Hh. by apply (header_end_after_lf data (acc + S n)).
Qed.

Lemma find_chunk_spec data :
  ∃ r, find_chunk_offset_length data = Ret r ∧
    match r with
    | Some col => chunk_header_at data col
    | None => ∀ h, ¬ header_end data h
    end.
Proof.
  apply find_chunk_loop_spec; [lia|lia|by left|]. intros h Hh (_ & Hpos & _). lia.
Qed.


(** ** Chunked bodies *)

(** A chunk: its length in hexadecimal digits and its bytes. *)
Definition chunk_ok (c : list Z * list Z) : bool :=
  (1 <=? length c.1)%nat && (length c.1 <=? 8)%nat && forallb is_hex c.1
  && (hex_value c.1 =? Z.of_nat (length c.2)) && (1 <=? length c.2)%nat.

Definition encode_chunk (c : list Z * list Z) : list Z := c.1 ++ CRLF ++ c.2 ++ CRLF.

Definition final_chunk : list Z := 48 :: DOUBLE_CRLF.

Lemma cr_not_hex l h : Forall (λ b, is_hex b = true) l → l !! h ≠ Some 13.
Proof. intros Hl Hh. by apply (Forall_lookup_1 _ _ _ _ Hl) in Hh. Qed.

Lemma header_end_split pre ds post :
  (1 ≤ length ds)%nat → Forall (λ b, is_hex b = true) ds →
  header_end (pre ++ ds ++ CRLF ++ post) (length pre + length ds).
Proof.
  intros Hlen Hds. split; [|split; [lia|]].
  - unfold Utils.occurs. rewrite app_assoc, drop_app_length' by (by rewrite length_app). done.
  - destruct (lookup_lt_is_Some_2 ds (length ds - 1) ltac:(lia)) as [b Hb]. exists b.
    split; [|by apply (Forall_lookup_1 _ _ _ _ Hds Hb)].
    rewrite lookup_app_r by lia. replace (length pre + length ds - 1 - length pre)%nat with (length ds - 1)%nat by lia.
    by apply lookup_app_l_Some.
Qed.

Lemma last_in_digits (pre ds : list Z) b :
  Forall (λ b, is_hex b = true) ds → last pre = Some b → is_hex b = false →
  ∀ pre0 ds0, pre0 ++ ds0 = pre ++ ds → Forall (λ b, is_hex b = true) ds0 →
  (length ds0 ≤ length ds)%nat.
Proof.
  intros Hds Hlast Hb pre0 ds0 Heq Hds0. destruct (decide (length ds0 ≤ length ds)%nat) as [|Hgt]; [done|].
  exfalso. assert (length pre0 + length ds0 = length pre + length ds)%nat as Hsum
    by (apply (f_equal length) in Heq; by rewrite !length_app in Heq).
  rewrite last_lookup in Hlast. assert ((pre ++ ds) !! pred (length pre) = Some b) as Hl
    by by apply lookup_app_l_Some.
  rewrite <- Heq in Hl. destruct pre as [|x pre]; [done|]. simpl in Hl, Hsum.
  rewrite lookup_app_r in Hl by lia. apply (Forall_lookup_1 _ _ _ _ Hds0) in Hl. congruence.
Qed.

(** The first header of the data, wherever it is. *)
Lemma find_chunk_first pre ds post :
  (1 ≤ length ds ≤ 8)%nat → Forall (λ b, is_hex b = true) ds →
  (pre = [] ∨ ∃ b, last pre = Some b ∧ is_hex b = false) →
  (∀ h, (h < length pre + length ds)%nat → ¬ header_end (pre ++ ds ++ CRLF ++ post) h) →
  find_chunk_offset_length (pre ++ ds ++ CRLF ++ post) =
    Ret (Some (MkCol (length pre) (hex_value ds + 2 + Z.of_nat (length ds)))).
Proof.
  intros Hlen Hds Hpre Hno. destruct (find_chunk_spec (pre ++ ds ++ CRLF ++ post)) as (r & -> & Hr).
  pose proof (header_end_split pre ds post ltac:(lia) Hds) as Hend.
  destruct r as [[o len]|]; [|by apply Hr in Hend].
  destruct Hr as (pre' & ds' & post' & Hd & Ho & Hlen' & Hds' & Hlc & Hmax & Hfst). simpl in Ho, Hlc.
  pose proof (header_end_split pre' ds' post' ltac:(lia) Hds') as Hend'. rewrite <- Hd in Hend'.
  assert (length pre' + length ds' = length pre + length ds)%nat as Hsum.
  { destruct (decide (length pre + length ds < length pre' + length ds')%nat) as [Hlt|];
      [by destruct (Hfst _ Hlt)|].
    destruct (decide (length pre' + length ds' < length pre + length ds)%nat) as [Hlt|]; [|lia].
    by destruct (Hno _ Hlt). }
  assert (pre ++ ds = pre' ++ ds') as Heq.
  { apply (f_equal (take (length pre + length ds))) in Hd. rewrite (app_assoc pre), (app_assoc pre') in Hd.
    by rewrite !take_app_length' in Hd by (rewrite length_app; lia). }
  assert (length ds' ≤ length ds)%nat.
  { destruct Hpre as [->|(b & Hb & Hn)]; [simpl in Hsum; lia|].
    by apply (last_in_digits pre ds b Hds Hb Hn pre' ds'). }
  assert (length ds ≤ length ds')%nat.
  { destruct Hmax as [->|[Hm|(b & Hb & Hn)]]; [simpl in Hsum; lia|lia|].
    by apply (last_in_digits pre' ds' b Hds' Hb Hn pre ds). }
  apply app_inj_2 in Heq as [<- <-]; [|lia]. by rewrite Hlc, Ho.
Qed.

Lemma find_chunk_here ds post :
  (1 ≤ length ds ≤ 8)%nat → Forall (λ b, is_hex b = true) ds →
  find_chunk_offset_length (ds ++ CRLF ++ post) =
    Ret (Some (MkCol 0 (hex_value ds + 2 + Z.of_nat (length ds)))).
Proof.
  intros Hlen Hds. apply (find_chunk_first [] ds post Hlen Hds); [by left|].
  intros h Hh (Ho & Hpos & _). simpl in *. rewrite Utils.occurs_lookup in Ho.
  specialize (Ho 0%nat 13 eq_refl). rewrite Nat.add_0_r, lookup_app_l in Ho by done.
  by apply (cr_not_hex ds h).
Qed.

Section chunked.
Definition in_chunks (s : HttpFramerState) (d : list Z) (p : ChunkProgressState) (n : option Z)
    : HttpFramerState :=
  set_chunking (set_data s d) (transfer_encoding_chunked s) p n.

Lemma take_chunk s c rest :
  chunk_ok c = true →
  take_chunk_frame (in_chunks s (encode_chunk c ++ rest) SeekingLengthHeader None) =
    Ret (in_chunks s rest SeekingLengthHeader None, Some (MkChunk (encode_chunk c) false)).
Proof.
  destruct c as [ds payload]. unfold chunk_ok. cbn [fst snd]. intros Hok. b2p.
  assert (Forall (λ b, is_hex b = true) ds) as Hhex
    by (apply Forall_forall; intros b Hb; by apply (proj1 (forallb_forall _ _) H2), list_elem_of_In).
  unfold take_chunk_frame. cbn [take_chunk_frame_n]. cbn [chunk_progress_state in_chunks set_chunking].
  unfold take_frame_while_seeking_length_header. cbn [data_so_far in_chunks set_chunking set_data].
  assert (encode_chunk (ds, payload) ++ rest = ds ++ CRLF ++ payload ++ CRLF ++ rest) as Henc
    by (unfold encode_chunk; cbn [fst snd]; by rewrite <- !app_assoc).
  rewrite Henc, find_chunk_here by (done || lia). cbn [mbind run_bind offset length_].
  rewrite split_off_ok by lia. cbn [mbind run_bind]. rewrite drop_0.
  destruct (Z.eqb_spec (hex_value ds + 2 + Z.of_nat (length ds)) 3); [lia|]. cbn [mbind run_bind].
  cbn [chunk_progress_state set_chunking]. unfold take_frame_while_seeking_end_of_chunk.
  cbn [chunk_size set_chunking expect mbind run_bind data_so_far set_data].
  rewrite !length_app. change (length CRLF) with 2%nat.
  destruct (Z.ltb_spec (Z.of_nat (length ds + (2 + (length payload + (2 + length rest)))))
    (hex_value ds + 2 + Z.of_nat (length ds) + Z.of_nat 2)); [lia|].
  rewrite <- Henc.
  assert (length (encode_chunk (ds, payload)) = (length ds + (2 + (length payload + 2)))%nat) as Hlen
    by (unfold encode_chunk; simpl fst; simpl snd; by rewrite !length_app).
  rewrite split_off_app by (rewrite Hlen; lia). cbn [mbind run_bind].
  assert (drop (length (encode_chunk (ds, payload)) - 2) (encode_chunk (ds, payload)) = CRLF) as ->.
  { unfold encode_chunk in *. simpl fst in *. simpl snd in *. rewrite Hlen, !app_assoc.
    apply drop_app_length'. rewrite !length_app. simpl. lia. }
  rewrite bool_decide_eq_true_2 by done. done.
Qed.

Lemma take_final_chunk s rest :
  take_chunk_frame (in_chunks s (final_chunk ++ rest) SeekingLengthHeader None) =
    Ret (set_chunking (set_data s rest) Standard CNone None, Some (MkChunk final_chunk false)).
Proof.
  unfold take_chunk_frame. cbn [take_chunk_frame_n]. cbn [chunk_progress_state in_chunks set_chunking].
  unfold take_frame_while_seeking_length_header. cbn [data_so_far in_chunks set_chunking set_data].
  change (final_chunk ++ rest) with ([48] ++ CRLF ++ CRLF ++ rest).
  rewrite find_chunk_here by (simpl; try lia; by repeat constructor).
  cbn [mbind run_bind offset length_].
  rewrite split_off_ok by lia. cbn [mbind run_bind].
  change (hex_value [48] + 2 + Z.of_nat (length [48]) =? 3) with true.
  cbn [mbind run_bind data_so_far set_data]. rewrite drop_0.
  change (get ([48] ++ CRLF ++ CRLF ++ rest) 0) with (Ret 48).
  cbn [mbind run_bind]. change (48 =? 48) with true. cbn [chunk_progress_state set_chunking].
  unfold take_frame_while_seeking_end_of_final_chunk. cbn [data_so_far set_chunking set_data].
  pose proof (Utils.index_of_spec ([48] ++ CRLF ++ CRLF ++ rest) DOUBLE_CRLF ltac:(done)) as Hidx.
  destruct (Utils.index_of ([48] ++ CRLF ++ CRLF ++ rest) DOUBLE_CRLF) as [o|].
  - destruct Hidx as (Ho & Hfirst & _). assert (o = 1%nat) as ->.
    { destruct o as [|[|o]]; [done|done|]. destruct (Hfirst 1%nat); [lia|]. by unfold Utils.occurs. }
    change ([48] ++ CRLF ++ CRLF ++ rest) with (final_chunk ++ rest).
    rewrite split_off_app by done. done.
  - destruct (Hidx 1%nat). by unfold Utils.occurs.
Qed.

(** Take [n] frames; stop early when there is none. *)
Fixpoint take_frames (n : nat) (s : HttpFramerState) : run (HttpFramerState * list FramedChunk) :=
  match n with
  | O => Ret (s, [])
  | S n' =>
      '(s, o) ← take_chunk_frame s;
      match o with
      | None => Ret (s, [])
      | Some c => '(s, cs) ← take_frames n' s; Ret (s, c :: cs)
      end
  end.

Lemma take_frames_spec cs s rest :
  forallb chunk_ok cs = true →
  take_frames (S (length cs)) (in_chunks s ((cs ≫= encode_chunk) ++ final_chunk ++ rest) SeekingLengthHeader None) =
    Ret (set_chunking (set_data s rest) Standard CNone None,
         ((λ c, MkChunk (encode_chunk c) false) <$> cs) ++ [MkChunk final_chunk false]).
Proof.
  induction cs as [|c cs IH]; intros Hok.
  - cbn [length take_frames]. change (([] ≫= encode_chunk) ++ final_chunk ++ rest) with (final_chunk ++ rest).
    by rewrite take_final_chunk.
  - simpl in Hok. apply andb_true_iff in Hok as [Hc Hok].
    change (length (c :: cs)) with (S (length cs)). cbn [take_frames].
    change ((c :: cs) ≫= encode_chunk) with (encode_chunk c ++ (cs ≫= encode_chunk)).
    rewrite <- app_assoc, take_chunk by done. cbn [mbind run_bind]. specialize (IH Hok).
    cbn [take_frames] in IH. rewrite IH. done.
Qed.
End chunked.


(** ** Packets with a header and a body *)

Definition line_ok (l : list Z) : bool :=
  bool_decide (Utils.index_of l CRLF = Some (length l - 2)%nat) && (2 <=? length l)%nat.

Section packets.
Context (content_length_captures transfer_encoding_captures : list Z → option (option (list Z))).
Local Abbreviation handle := (handle_line content_length_captures transfer_encoding_captures).
Local Abbreviation seek := (seek_body_start content_length_captures transfer_encoding_captures).

(** The state after the header lines. *)
Definition read_headers (s : HttpFramerState) (ls : list (list Z)) : HttpFramerState :=
  foldl (λ s l, (handle s l).1) s ls.

(** The lines are complete, none is blank and none makes the framer give up. *)
Fixpoint headers_ok (s : HttpFramerState) (ls : list (list Z)) : bool :=
  match ls with
  | [] => true
  | l :: ls' =>
      line_ok l && negb (length l =? 2)%nat
      && bool_decide (packet_progress_state (handle s l).1 = SeekingBodyStart)
      && headers_ok (handle s l).1 ls'
  end.

Lemma line_found l rest : line_ok l = true → Utils.index_of (l ++ rest) CRLF = Some (length l - 2)%nat.
Proof.
  unfold line_ok. intros Hl. b2p. apply bool_decide_eq_true in H.
  pose proof (Utils.index_of_spec l CRLF ltac:(done)) as H1. rewrite H in H1. destruct H1 as (Ho & Hf & _).
  pose proof (Utils.index_of_spec (l ++ rest) CRLF ltac:(done)) as H2.
  assert (∀ h, (h + 2 ≤ length l)%nat → Utils.occurs (l ++ rest) CRLF h ↔ Utils.occurs l CRLF h) as Hiff.
  { intros h Hh. unfold Utils.occurs. rewrite drop_app_le by lia.
    rewrite take_app_le by (rewrite length_drop; simpl; lia). done. }
  destruct (Utils.index_of (l ++ rest) CRLF) as [h|].
  - destruct H2 as (Ho2 & Hf2 & _). f_equal.
    destruct (decide (h < length l - 2)%nat) as [Hlt|].
    { apply Hiff in Ho2; [|lia]. by destruct (Hf h Hlt). }
    destruct (decide (length l - 2 < h)%nat) as [Hlt|]; [|lia].
    destruct (Hf2 (length l - 2)%nat Hlt). apply Hiff; [lia|done].
  - destruct (H2 (length l - 2)%nat). apply Hiff; [lia|done].
Qed.

Lemma content_length_data s l d :
  check_for_content_length content_length_captures (set_data s d) l =
    set_data (check_for_content_length content_length_captures s l) d.
Proof.
  unfold check_for_content_length. destruct (negb (starts_with _ _)); [done|].
  destruct (negb (valid_utf8 l)); [done|].
  destruct (content_length_captures l) as [[n|]|]; [|done|done]. by destruct (parse_usize n).
Qed.

Lemma transfer_encoding_data s l d :
  check_for_transfer_encoding transfer_encoding_captures (set_data s d) l =
    set_data (check_for_transfer_encoding transfer_encoding_captures s l) d.
Proof.
  unfold check_for_transfer_encoding. destruct (negb (starts_with _ _)); [done|].
  destruct (negb (valid_utf8 l)); [done|].
  destruct (transfer_encoding_captures l) as [[n|]|]; [|done|done]. by destruct (Utils.index_of n _).
Qed.

Lemma handle_line_data s l d : handle (set_data s d) l = (set_data (handle s l).1 d, (handle s l).2).
Proof.
  unfold handle_line. rewrite content_length_data.
  change (content_length (set_data s d)) with (content_length s).
  set (s1 := if content_length s =? 0 then check_for_content_length content_length_captures s l else s).
  assert ((if content_length s =? 0 then set_data (check_for_content_length content_length_captures s l) d
           else set_data s d) = set_data s1 d) as -> by (unfold s1; by destruct (content_length s =? 0)).
  rewrite transfer_encoding_data.
  change (transfer_encoding_chunked (set_data s1 d)) with (transfer_encoding_chunked s1).
  destruct (bool_decide _); unfold check_for_zero_length; by destruct (negb _).
Qed.

(** A line that does not end the header is kept, unless the request is given up. *)
Lemma handle_line_keeps s l :
  packet_progress_state s = SeekingBodyStart →
  packet_progress_state (handle s l).1 = SeekingBodyStart → length l ≠ 2%nat →
  lines (handle s l).1 = lines s ++ [l] ∧ (handle s l).2 = false.
Proof.
  intros Hs Hp Hl. revert Hp. unfold handle_line, check_for_zero_length.
  destruct (Nat.eqb_spec (length l) 2); [done|]. cbn [negb fst snd].
  set (s1 := if content_length s =? 0 then _ else s).
  set (s2 := if bool_decide (transfer_encoding_chunked s1 = Standard) then _ else s1).
  assert (packet_progress_state s1 = SeekingPacketStart ∨
    (packet_progress_state s1 = SeekingBodyStart ∧ lines s1 = lines s)) as H1.
  { unfold s1, check_for_content_length. repeat (case_match; try (by right)); by left. }
  assert (packet_progress_state s2 = SeekingPacketStart ∨
    (packet_progress_state s2 = SeekingBodyStart ∧ lines s2 = lines s)) as H2.
  { unfold s2, check_for_transfer_encoding. repeat (case_match; try done); by left. }
  cbn [packet_progress_state set_lines lines]. intros Hp. destruct H2 as [H2|[_ ->]]; [congruence|done].
Qed.

Lemma handle_blank s :
  handle s CRLF = (set_lines (set_packet s SeekingBodyEnd) (lines s ++ [CRLF]), true).
Proof.
  unfold handle_line, check_for_content_length, check_for_transfer_encoding.
  change (starts_with CRLF (bytes_of "Content-Length:")) with false.
  change (starts_with CRLF (bytes_of "Transfer-Encoding:")) with false. cbn [negb].
  by destruct (content_length s =? 0), (bool_decide _).
Qed.

Lemma crlf_line_ok : line_ok CRLF = true.
Proof. reflexivity. Qed.

Lemma seek_step fuel s l rest :
  packet_progress_state s = SeekingBodyStart → line_ok l = true →
  seek (S fuel) (set_data s (l ++ rest)) =
    if (handle s l).2 then Ret (set_data (handle s l).1 rest, true)
    else seek fuel (set_data (handle s l).1 rest).
Proof.
  intros Hp Hl. cbn [seek_body_start]. cbn [packet_progress_state set_data data_so_far].
  rewrite bool_decide_eq_true_2 by done. rewrite line_found by done.
  assert (2 ≤ length l)%nat by (unfold line_ok in Hl; by b2p).
  rewrite split_off_app by lia. cbn [mbind run_bind].
  change (set_data (set_data s (l ++ rest)) rest) with (set_data s rest).
  rewrite handle_line_data. by destruct (handle s l) as [s' []].
Qed.

Lemma headers_length ls s : headers_ok s ls = true → (length ls ≤ length (mjoin ls))%nat.
Proof.
  revert s; induction ls as [|l ls IH]; intros s Hok; [done|].
  cbn [headers_ok] in Hok. apply andb_true_iff in Hok as [Hok Hok']. specialize (IH _ Hok').
  change (mjoin (l :: ls)) with (l ++ mjoin ls). rewrite length_app. unfold line_ok in Hok. b2p.
  cbn [length]. lia.
Qed.

Lemma seek_headers ls s rest fuel :
  packet_progress_state s = SeekingBodyStart → headers_ok s ls = true → (length ls < fuel)%nat →
  seek fuel (set_data s (mjoin ls ++ CRLF ++ rest)) =
    Ret (set_data (set_lines (set_packet (read_headers s ls) SeekingBodyEnd)
                             (lines s ++ ls ++ [CRLF])) rest, true) ∧
  packet_progress_state (read_headers s ls) = SeekingBodyStart.
Proof.
  revert s fuel; induction ls as [|l ls IH]; intros s fuel Hp Hok Hf;
    (destruct fuel as [|fuel]; [simpl in Hf; lia|]).
  - split; [|done]. change (mjoin [] ++ CRLF ++ rest) with (CRLF ++ rest).
    by rewrite seek_step, handle_blank.
  - cbn [headers_ok] in Hok. b2p. apply bool_decide_eq_true in H1.
    destruct (handle_line_keeps s l Hp H1 H2) as [Hlines Hres].
    change (mjoin (l :: ls)) with (l ++ mjoin ls). rewrite <- app_assoc, seek_step, Hres by done.
    destruct (IH (handle s l).1 fuel) as [-> Hst]; [done|done|simpl in Hf; lia|].
    split; [|done]. by rewrite Hlines, <- app_assoc.
Qed.
End packets.


(** ** Properties *)

(** The search for a chunk header is exact.  On any bytes the search
    terminates without indexing out of bounds or overflowing; it reports none
    exactly when no line break is preceded by a hexadecimal digit; otherwise it
    reports the first such line: where its run of at most eight digits starts
    and the number they write, increased by the size of the header. *)
Lemma chunk_header_search_exact (data : list Z) :
  ∃ r, find_chunk_offset_length data = Ret r ∧
    match r with
    | Some col => chunk_header_at data col
    | None => ∀ h, ¬ header_end data h
    end.
Proof. apply find_chunk_spec. Qed.

(** A chunked body comes out chunk by chunk.  For any chunks (up to eight
    hexadecimal digits giving the length of a non-empty payload) followed by
    the final chunk, the framer yields exactly one frame per chunk and one for
    the final chunk, then leaves chunk mode with the bytes after it. *)
Lemma chunked_body_framed (s : HttpFramerState) (cs : list (list Z * list Z)) (rest : list Z) :
  forallb chunk_ok cs = true →
  take_frames (S (length cs))
    (in_chunks s ((cs ≫= encode_chunk) ++ final_chunk ++ rest) SeekingLengthHeader None) =
    Ret (set_chunking (set_data s rest) Standard CNone None,
         ((λ c, MkChunk (encode_chunk c) false) <$> cs) ++ [MkChunk final_chunk false]).
Proof. apply take_frames_spec. Qed.

(** One call takes a whole packet, when the state after its header lines holds
    the length of its body. *)
Lemma packet_framed (clc tec : list Z → option (option (list Z))) (F : StartFinder)
    (s s1 : HttpFramerState) (ls : list (list Z)) (body rest : list Z) :
  packet_progress_state s = SeekingPacketStart → transfer_encoding_chunked s ≠ Chunk →
  seek_packet_start s = Ret (s1, true) →
  packet_progress_state s1 = SeekingBodyStart → lines s1 = [] →
  data_so_far s1 = mjoin ls ++ CRLF ++ body ++ rest →
  headers_ok clc tec s1 ls = true →
  content_length (read_headers clc tec s1 ls) = Z.of_nat (length body) →
  ∃ s', http_take_frame clc tec s =
      Ret (s', Some (MkChunk (mjoin ls ++ CRLF ++ body) false)) ∧
    data_so_far s' = rest ∧ packet_progress_state s' = SeekingPacketStart ∧
    content_length s' = 0 ∧ lines s' = [] ∧
    if bool_decide (transfer_encoding_chunked (read_headers clc tec s1 ls) = ChunkedResponse)
    then transfer_encoding_chunked s' = Chunk ∧ chunk_progress_state s' = SeekingLengthHeader
    else transfer_encoding_chunked s' = Standard.
Proof.
  intros Hp Hte Hseek Hp1 Hl1 Hd Hok Hcl. unfold http_take_frame, take_packet_frame.
  rewrite bool_decide_eq_false_2 by done. rewrite Hp, bool_decide_eq_true_2 by done.
  rewrite Hseek. cbn [mbind run_bind negb]. rewrite Hp1, bool_decide_eq_true_2 by done.
  assert (s1 = set_data s1 (mjoin ls ++ CRLF ++ body ++ rest)) as Hs1 by (destruct s1; simpl in *; by subst).
  destruct (seek_headers clc tec ls s1 (body ++ rest) (S (length (data_so_far s1))) Hp1 Hok) as [Hsk Hst].
  { rewrite Hd, length_app. pose proof (headers_length clc tec ls s1 Hok). lia. }
  rewrite <- Hs1 in Hsk. rewrite Hsk. cbn [mbind run_bind negb]. rewrite Hl1. simpl app.
  cbn [packet_progress_state set_data set_lines set_packet]. rewrite bool_decide_eq_true_2 by done.
  unfold seek_body_end. cbn [packet_progress_state set_data set_lines set_packet content_length data_so_far].
  rewrite bool_decide_eq_true_2 by done. rewrite Hcl, length_app.
  destruct (Z.leb_spec (Z.of_nat (length body)) (Z.of_nat (length body + length rest))); [|lia].
  cbn [andb]. rewrite Nat2Z.id, split_off_app by done.
  cbn [mbind run_bind option_map lines set_lines set_packet set_content_length set_data set_chunking
    transfer_encoding_chunked].
  eexists. split.
  - do 4 f_equal. destruct (bool_decide _); cbn [lines set_chunking set_content_length set_packet set_lines];
      rewrite !join_app; simpl; rewrite app_nil_r; by rewrite <- app_assoc.
  - by destruct (bool_decide _).
Qed.

(** ** Headers as they are written *)

(** The lines of a header: those that say how long the body is and how it is
    encoded, with the spaces after the colon, and the others (the first line
    of the packet among them). *)
Inductive header :=
| ContentLength (spaces : nat) (digits : list Z)
| TransferEncoding (spaces : nat) (encodings : list Z)
| OtherLine (text : list Z).

Definition write_header (h : header) : list Z :=
  match h with
  | ContentLength k ds => bytes_of "Content-Length:" ++ replicate k 32 ++ ds ++ CRLF
  | TransferEncoding k e => bytes_of "Transfer-Encoding:" ++ replicate k 32 ++ e ++ CRLF
  | OtherLine t => t ++ CRLF
  end.

Definition is_digit (b : Z) : bool := (48 <=? b) && (b <=? 57).
Definition is_printable (b : Z) : bool := (32 <=? b) && (b <? 127).

(** The number that decimal digits write. *)
Definition decimal_value (ds : list Z) : Z := foldl (λ acc b, acc * 10 + (b - 48)) 0 ds.

Definition header_ok (h : header) : bool :=
  match h with
  | ContentLength _ ds => negb (bool_decide (ds = [])) && forallb is_digit ds && (decimal_value ds <? 2 ^ 64)
  | TransferEncoding _ e => negb (bool_decide (head e = Some 32)) && forallb is_printable e
  | OtherLine t =>
      negb (bool_decide (t = [])) && line_ok (t ++ CRLF)
      && negb (starts_with (t ++ CRLF) (bytes_of "Content-Length:"))
      && negb (starts_with (t ++ CRLF) (bytes_of "Transfer-Encoding:"))
  end.

(** The length that a header announces: the first one that is not zero. *)
Fixpoint announced_length (hs : list header) : Z :=
  match hs with
  | [] => 0
  | ContentLength _ ds :: hs' =>
      if decimal_value ds =? 0 then announced_length hs' else decimal_value ds
  | _ :: hs' => announced_length hs'
  end.

Definition says_chunked (h : header) : Prop :=
  match h with
  | TransferEncoding _ e => ∃ pre post, e = pre ++ bytes_of "chunked" ++ post
  | _ => False
  end.

Lemma line_ok_without_cr w : 13 ∉ w → line_ok (w ++ CRLF) = true.
Proof.
  intros Hw. unfold line_ok. rewrite length_app. cbn [length CRLF].
  pose proof (Utils.index_of_spec (w ++ CRLF) CRLF ltac:(done)) as H.
  assert (Utils.occurs (w ++ CRLF) CRLF (length w)) as Ho.
  { unfold Utils.occurs. by rewrite drop_app_length. }
  destruct (Utils.index_of (w ++ CRLF) CRLF) as [h|]; [|by destruct (H (length w))].
  destruct H as (Hh & Hmin & _). apply andb_true_iff. split; [|apply Nat.leb_le; lia].
  apply bool_decide_eq_true_2. f_equal. rewrite Utils.occurs_lookup in Hh.
  specialize (Hh 0%nat 13 eq_refl). rewrite Nat.add_0_r in Hh.
  destruct (decide (length w < h)%nat) as [Hl|]; [by destruct (Hmin (length w) Hl)|].
  destruct (decide (h < length w)%nat); [|lia].
  rewrite lookup_app_l in Hh by done. by apply list_elem_of_lookup_2 in Hh.
Qed.

Lemma parse_digits_decimal acc ds :
  0 ≤ acc → forallb is_digit ds = true → foldl (λ acc b, acc * 10 + (b - 48)) acc ds < 2 ^ 64 →
  parse_digits acc ds = Some (foldl (λ acc b, acc * 10 + (b - 48)) acc ds).
Proof.
  assert (∀ ds acc, 0 ≤ acc → forallb is_digit ds = true →
    acc ≤ foldl (λ acc b, acc * 10 + (b - 48)) acc ds) as Hgrow.
  { intros ds'. induction ds' as [|b ds' IH]; intros acc' Ha Hd; [cbn; lia|]. cbn [foldl]. cbn [forallb] in Hd.
    unfold is_digit in Hd at 1. b2p. specialize (IH (acc' * 10 + (b - 48)) ltac:(lia)). etrans; [|apply IH]; [lia|done]. }
  revert acc. induction ds as [|b ds IH]; intros acc Ha Hd Hlt; [done|].
  cbn [foldl parse_digits] in *. cbn [forallb] in Hd. apply andb_true_iff in Hd as [Hb Hd].
  unfold is_digit in Hb. rewrite Hb. b2p.
  pose proof (Hgrow ds (acc * 10 + (b - 48)) ltac:(lia) Hd).
  rewrite (proj2 (Z.ltb_lt _ _)) by lia. apply IH; (done || lia).
Qed.

Lemma parse_usize_decimal ds :
  ds ≠ [] → forallb is_digit ds = true → decimal_value ds < 2 ^ 64 →
  parse_usize ds = Some (decimal_value ds).
Proof.
  intros Hne Hd Hlt. destruct ds as [|b ds]; [done|].
  assert (parse_usize (b :: ds) = parse_digits 0 (b :: ds)) as ->; [|by apply parse_digits_decimal].
  cbn [forallb] in Hd. apply andb_true_iff in Hd as [Hb _]. unfold is_digit in Hb. b2p.
  unfold parse_usize. destruct (decide (b = 43)) as [->|Hne']; [lia|].
  destruct b as [|p|p]; try done. do 6 (destruct p as [p|p|]; try done).
Qed.

Lemma index_of_infix (l w : list Z) : w ≠ [] → is_Some (Utils.index_of l w) ↔ ∃ pre post, l = pre ++ w ++ post.
Proof.
  intros Hw. pose proof (Utils.index_of_spec l w Hw) as H. split.
  - intros [h E]. rewrite E in H. destruct H as (Ho & _). unfold Utils.occurs in Ho.
    exists (take h l), (drop (length w) (drop h l)). rewrite <- Ho at 1. by rewrite !take_drop.
  - intros (pre & post & ->). destruct (Utils.index_of _ w) as [h|]; [by eexists|].
    destruct (H (length pre)). unfold Utils.occurs. by rewrite drop_app_length, take_app_length.
Qed.

Section written.
Context (clc tec : list Z → option (option (list Z))).

(** What the documentation of the crate says the two patterns capture in such
    lines: the digits, up to the first byte that is none; and everything after
    the spaces up to the line feed. *)
Definition captures_digits : Prop := ∀ k ds, ds ≠ [] → forallb is_digit ds = true →
  clc (bytes_of "Content-Length:" ++ replicate k 32 ++ ds ++ CRLF) = Some (Some ds).
Definition captures_rest : Prop := ∀ k e, head e ≠ Some 32 → forallb is_printable e = true →
  tec (bytes_of "Transfer-Encoding:" ++ replicate k 32 ++ e ++ CRLF) = Some (Some (e ++ [13])).

Context (Hclc : captures_digits) (Htec : captures_rest).

(** What a line changes in the state. *)
Definition apply_header (s : HttpFramerState) (h : header) : HttpFramerState :=
  match h with
  | ContentLength _ ds => if content_length s =? 0 then set_content_length s (decimal_value ds) else s
  | TransferEncoding _ e =>
      if bool_decide (transfer_encoding_chunked s = Standard)
         && bool_decide (is_Some (Utils.index_of e (bytes_of "chunked")))
      then set_chunking s ChunkedResponse SeekingLengthHeader None else s
  | OtherLine _ => s
  end.

Lemma chunked_before_cr e :
  is_Some (Utils.index_of (e ++ [13]) (bytes_of "chunked")) ↔
  is_Some (Utils.index_of e (bytes_of "chunked")).
Proof.
  rewrite !index_of_infix by done. split.
  - intros (pre & post & E). destruct post as [|x post' _] using rev_ind.
    + change (bytes_of "chunked") with (bytes_of "chunke" ++ [100]) in E. rewrite app_nil_r, app_assoc in E.
      by apply app_inj_tail in E as [_ ?].
    + rewrite !app_assoc in E. apply app_inj_tail in E as [-> _]. exists pre, post'. by rewrite app_assoc.
  - intros (pre & post & ->). exists pre, (post ++ [13]). by rewrite <- !app_assoc.
Qed.


Lemma printable_no_cr e : forallb is_printable e = true → 13 ∉ e.
Proof. rewrite forallb_forall. intros H Hin%list_elem_of_In. apply H in Hin. by vm_compute in Hin. Qed.

Lemma digits_printable ds : forallb is_digit ds = true → forallb is_printable ds = true.
Proof.
  rewrite !forallb_forall. intros H x Hx. apply H in Hx. unfold is_digit in Hx. unfold is_printable.
  apply andb_true_iff. b2p. split; [apply Z.leb_le|apply Z.ltb_lt]; lia.
Qed.

(** A name, spaces and a printable value make one line of ASCII text. *)
Lemma text_line name k v : forallb is_printable name = true → forallb is_printable v = true →
  line_ok (name ++ replicate k 32 ++ v ++ CRLF) = true ∧
  valid_utf8 (name ++ replicate k 32 ++ v ++ CRLF) = true.
Proof.
  intros Hn Hv. assert (forallb is_printable (name ++ replicate k 32 ++ v) = true) as Hp.
  { rewrite !forallb_app, Hn, Hv, andb_true_r, andb_true_l. by induction k. }
  replace (name ++ replicate k 32 ++ v ++ CRLF) with ((name ++ replicate k 32 ++ v) ++ CRLF)
    by (by rewrite <- !app_assoc).
  split; [by apply line_ok_without_cr, printable_no_cr|].
  apply ascii_utf8. apply Forall_app. split; [|by repeat constructor].
  apply Forall_forall. intros x Hx%list_elem_of_In. rewrite forallb_forall in Hp. apply Hp in Hx.
  unfold is_printable in Hx. b2p. lia.
Qed.

Lemma header_line h : header_ok h = true →
  line_ok (write_header h) = true ∧ length (write_header h) ≠ 2%nat.
Proof.
  destruct h as [k ds|k e|t]; cbn [header_ok write_header]; intros Hok; b2p.
  - split; [|rewrite length_app; cbn; lia]. apply (text_line (bytes_of "Content-Length:")); [done|by apply digits_printable].
  - split; [|rewrite length_app; cbn; lia]. by apply (text_line (bytes_of "Transfer-Encoding:")).
  - split; [done|]. rewrite length_app. destruct t; [done|]. simpl. lia.
Qed.

Lemma handle_header s h : header_ok h = true →
  handle_line clc tec s (write_header h) =
    (set_lines (apply_header s h) (lines s ++ [write_header h]), false).
Proof.
  intros Hok. destruct (header_line h Hok) as [_ Hlen]. unfold handle_line, check_for_zero_length.
  rewrite (proj2 (Nat.eqb_neq _ _)) by done. cbn [negb].
  unfold check_for_content_length, check_for_transfer_encoding.
  destruct h as [k ds|k e|t]; cbn [header_ok write_header apply_header] in *; b2p.
  - assert (∀ x, starts_with (bytes_of "Content-Length:" ++ x) (bytes_of "Content-Length:") = true) as -> by done.
    assert (∀ x, starts_with (bytes_of "Content-Length:" ++ x) (bytes_of "Transfer-Encoding:") = false) as ->.
    { intros x. apply bool_decide_eq_false_2. by intros [=]. }
    rewrite (proj2 (text_line (bytes_of "Content-Length:") k ds eq_refl ltac:(by apply digits_printable))).
    cbn [negb]. apply bool_decide_eq_false in H. rewrite Hclc, parse_usize_decimal by done.
    destruct (content_length s =? 0); cbn [transfer_encoding_chunked set_content_length];
      by destruct (bool_decide (transfer_encoding_chunked s = Standard)).
  - assert (∀ x, starts_with (bytes_of "Transfer-Encoding:" ++ x) (bytes_of "Content-Length:") = false) as -> by done.
    assert (∀ x, starts_with (bytes_of "Transfer-Encoding:" ++ x) (bytes_of "Transfer-Encoding:") = true) as -> by done.
    rewrite (proj2 (text_line (bytes_of "Transfer-Encoding:") k e eq_refl ltac:(done))).
    cbn [negb]. apply bool_decide_eq_false in H. rewrite Htec by done.
    replace (if content_length s =? 0 then s else s) with s by (by destruct (_ =? 0)).
    destruct (bool_decide (transfer_encoding_chunked s = Standard)); [|done]. cbn [andb].
    pose proof (chunked_before_cr e) as Hc. destruct (Utils.index_of (e ++ [13]) _) as [n|].
    + rewrite bool_decide_eq_true_2 by (apply Hc; by eexists). done.
    + rewrite bool_decide_eq_false_2 by (intros Hs%Hc; by destruct Hs). done.
  - rewrite H0, H1. cbn [negb]. destruct (content_length s =? 0); by destruct (bool_decide (transfer_encoding_chunked s = Standard)).
Qed.

(** The state after a whole header. *)
Lemma read_written hs s :
  packet_progress_state s = SeekingBodyStart → forallb header_ok hs = true →
  let s' := read_headers clc tec s (write_header <$> hs) in
  headers_ok clc tec s (write_header <$> hs) = true ∧
  content_length s' = (if content_length s =? 0 then announced_length hs else content_length s) ∧
  (transfer_encoding_chunked s' = ChunkedResponse ↔
     transfer_encoding_chunked s = ChunkedResponse ∨
     transfer_encoding_chunked s = Standard ∧ Exists says_chunked hs).
Proof.
  revert s. induction hs as [|h hs IH]; intros s Hp Hok.
  { split; [done|]. split; [cbn; destruct (Z.eqb_spec (content_length s) 0); congruence|].
    rewrite Exists_nil. cbn. intuition congruence. }
  cbn [forallb] in Hok. apply andb_true_iff in Hok as [Hh Hok].
  rewrite fmap_cons. cbn [headers_ok]. unfold read_headers. cbn [foldl].
  rewrite (handle_header s h Hh). cbn [fst].
  set (s1 := set_lines (apply_header s h) (lines s ++ [write_header h])).
  assert (packet_progress_state s1 = SeekingBodyStart) as Hp1.
  { unfold s1. rewrite <- Hp. destruct h; cbn [apply_header]; [by case_match|by case_match|done]. }
  destruct (IH s1 Hp1 Hok) as (Hhs & Hcl & Hte). fold (read_headers clc tec s1 (write_header <$> hs)) in *.
  destruct (header_line h Hh) as [-> Hlen]. rewrite (proj2 (Nat.eqb_neq _ _)) by done.
  rewrite (bool_decide_eq_true_2 _ Hp1), Hhs. split; [done|]. rewrite Hcl, Hte, Exists_cons. clear Hcl Hte IH Hhs.
  destruct h as [k ds|k e|t]; cbn [apply_header says_chunked announced_length] in *; subst s1.
  - destruct (Z.eqb_spec (content_length s) 0) as [E|E]; cbn; [|by rewrite (proj2 (Z.eqb_neq _ _)) by done; naive_solver].
    split; [done|naive_solver].
  - pose proof (index_of_infix e (bytes_of "chunked") ltac:(done)) as Hi.
    destruct (bool_decide_reflect (transfer_encoding_chunked s = Standard)) as [Es|Es]; cbn [andb].
    + rewrite <- Hi. destruct (bool_decide_reflect (is_Some (Utils.index_of e (bytes_of "chunked")))); cbn; naive_solver.
    + cbn. split; [done|]. naive_solver.
  - cbn. split; [done|naive_solver].
Qed.
End written.

Lemma bind_mjoin {A B} (f : A → list B) (l : list A) : (l ≫= f) = mjoin (f <$> l).
Proof. induction l as [|a l IH]; [done|]. rewrite bind_cons, IH. done. Qed.

(** C32: a packet with a body is framed whole.  Take any header, written line
    by line: lines that give the length of the body in decimal digits, lines
    that name transfer encodings, and others.  When a start finder has found
    its start and the body that follows has the length the header announces
    (the first one that is not zero, else zero), one call yields the packet's
    exact bytes, keeps the bytes after it, and leaves the framer ready for the
    next packet; or for chunks, exactly when an encoding in the header says
    chunked.  The crate for regular expressions captures, of the two kinds of
    lines that are looked into, the digits and what stands after the spaces. *)
Theorem http_packet_framed (clc tec : list Z → option (option (list Z))) (F : StartFinder)
    (s s1 : HttpFramerState) (hs : list header) (body rest : list Z) :
  captures_digits clc → captures_rest tec →
  packet_progress_state s = SeekingPacketStart → transfer_encoding_chunked s ≠ Chunk →
  seek_packet_start s = Ret (s1, true) →
  packet_progress_state s1 = SeekingBodyStart → lines s1 = [] →
  content_length s1 = 0 → transfer_encoding_chunked s1 = Standard →
  data_so_far s1 = (hs ≫= write_header) ++ CRLF ++ body ++ rest →
  forallb header_ok hs = true →
  announced_length hs = Z.of_nat (length body) →
  ∃ s', http_take_frame clc tec s =
      Ret (s', Some (MkChunk ((hs ≫= write_header) ++ CRLF ++ body) false)) ∧
    data_so_far s' = rest ∧ packet_progress_state s' = SeekingPacketStart ∧
    content_length s' = 0 ∧ lines s' = [] ∧
    (Exists says_chunked hs →
       transfer_encoding_chunked s' = Chunk ∧ chunk_progress_state s' = SeekingLengthHeader) ∧
    (¬ Exists says_chunked hs → transfer_encoding_chunked s' = Standard).
Proof.
  intros Hclc Htec Hp Hte Hseek Hp1 Hl1 Hc1 Ht1 Hd Hok Hlen.
  destruct (read_written clc tec Hclc Htec hs s1 Hp1 Hok) as (Hhs & Hcl & Hch).
  rewrite Hc1 in Hcl. cbn [Z.eqb] in Hcl. rewrite Hlen in Hcl. rewrite bind_mjoin in *.
  destruct (packet_framed clc tec F s s1 (write_header <$> hs) body rest)
    as (s' & ? & ? & ? & ? & ? & Hfin); try done.
  exists s'. do 5 (split; [done|]). rewrite Ht1 in Hch.
  destruct (bool_decide_reflect (transfer_encoding_chunked (read_headers clc tec s1 (write_header <$> hs))
    = ChunkedResponse)) as [E|E]; naive_solver.
Qed.

(** Functions that capture as the crate does in such lines. *)
Fixpoint skip_spaces (l : list Z) : list Z :=
  match l with 32 :: l' => skip_spaces l' | _ => l end.

Fixpoint leading_digits (l : list Z) : list Z :=
  match l with b :: l' => if is_digit b then b :: leading_digits l' else [] | [] => [] end.

Definition demo_clc (l : list Z) : option (option (list Z)) :=
  match leading_digits (skip_spaces (drop 15 l)) with [] => None | ds => Some (Some ds) end.

Fixpoint until_line_feed (l : list Z) : list Z :=
  match l with b :: l' => if b =? 10 then [] else b :: until_line_feed l' | [] => [] end.

Definition demo_tec (l : list Z) : option (option (list Z)) :=
  match until_line_feed (skip_spaces (drop 18 l)) with [] => None | e => Some (Some e) end.

Lemma skip_spaces_spec k v : head v ≠ Some 32 → skip_spaces (replicate k 32 ++ v) = v.
Proof.
  intros Hv. induction k as [|k IH]; [|exact IH]. destruct v as [|b v]; [done|]. cbn [replicate app].
  simpl in Hv. destruct (decide (b = 32)) as [->|Hb]; [done|]. destruct b as [|p|p]; try done.
  do 6 (destruct p as [p|p|]; try done).
Qed.

Lemma demo_clc_captures : captures_digits demo_clc.
Proof.
  intros k ds Hne Hd. unfold demo_clc.
  change (drop 15 (bytes_of "Content-Length:" ++ replicate k 32 ++ ds ++ CRLF))
    with (replicate k 32 ++ ds ++ CRLF).
  rewrite skip_spaces_spec.
  2: { destruct ds as [|b ds]; [done|]. cbn [forallb] in Hd. apply andb_true_iff in Hd as [Hb _].
    intros [= ->]. by vm_compute in Hb. }
  assert (leading_digits (ds ++ CRLF) = ds) as ->; [|by destruct ds].
  clear Hne. induction ds as [|b ds IH]; [done|]. cbn [forallb] in Hd. apply andb_true_iff in Hd as [Hb Hd].
  cbn [leading_digits app]. by rewrite Hb, IH.
Qed.

Lemma demo_tec_captures : captures_rest demo_tec.
Proof.
  intros k e Hs He. unfold demo_tec.
  change (drop 18 (bytes_of "Transfer-Encoding:" ++ replicate k 32 ++ e ++ CRLF))
    with (replicate k 32 ++ e ++ CRLF).
  rewrite skip_spaces_spec by (by destruct e).
  assert (until_line_feed (e ++ CRLF) = e ++ [13]) as ->; [|by destruct e].
  clear Hs. induction e as [|b e IH]; [done|]. cbn [forallb] in He. apply andb_true_iff in He as [Hb He].
  cbn [until_line_feed app]. rewrite IH by done. destruct (Z.eqb_spec b 10) as [->|]; [|done]. by vm_compute in Hb.
Qed.

Definition demo_headers : list header :=
  [OtherLine (bytes_of "POST /x HTTP/1.1"); ContentLength 1 (bytes_of "0");
   TransferEncoding 2 (bytes_of "gzip, chunked"); ContentLength 0 (bytes_of "0013")].
Definition demo_body : list Z := bytes_of "thirteen byte".
Definition demo_state : HttpFramerState :=
  http_add_data http_new
    (bytes_of "junk " ++ (demo_headers ≫= write_header) ++ CRLF ++ demo_body ++ bytes_of "GE").

Definition demo_started : HttpFramerState :=
  match request_seek_packet_start demo_state with Ret (s, _) => s | Panic => http_new end.

Lemma http_packet_framed_witness :
  ∃ s', @http_take_frame demo_clc demo_tec request_finder demo_state =
      Ret (s', Some (MkChunk ((demo_headers ≫= write_header) ++ CRLF ++ demo_body) false)) ∧
    data_so_far s' = bytes_of "GE" ∧ transfer_encoding_chunked s' = Chunk.
Proof.
  pose proof (http_packet_framed demo_clc demo_tec request_finder
    demo_state demo_started demo_headers demo_body (bytes_of "GE")
    demo_clc_captures demo_tec_captures eq_refl ltac:(discriminate)
    ltac:(vm_compute; reflexivity) ltac:(vm_compute; reflexivity) ltac:(vm_compute; reflexivity)
    ltac:(vm_compute; reflexivity) ltac:(vm_compute; reflexivity) ltac:(vm_compute; reflexivity)
    ltac:(vm_compute; reflexivity) ltac:(vm_compute; reflexivity))
    as (s' & ? & ? & _ & _ & _ & Hch & _).
  exists s'. do 2 (split; [assumption|]). apply Hch. do 2 right. left.
  exists (bytes_of "gzip, "), []. reflexivity.
Defined.

(** Bytes before the final chunk crash the framer.  When a line of other
    bytes stands before the final chunk and little follows it, the framer looks
    for the digit at an offset into data it has already cut, and panics. *)
Lemma final_chunk_after_trash_panics (s : HttpFramerState) (trash rest : list Z) (b : Z) :
  13 ∉ trash → last trash = Some b → is_hex b = false →
  (length rest + 1 ≤ length trash)%nat →
  take_chunk_frame (in_chunks s (trash ++ CRLF ++ [48] ++ CRLF ++ rest) SeekingLengthHeader None) = Panic.
Proof.
  intros Hcr Hlast Hb Hlen. unfold take_chunk_frame. cbn [take_chunk_frame_n].
  cbn [chunk_progress_state in_chunks set_chunking].
  unfold take_frame_while_seeking_length_header. cbn [data_so_far in_chunks set_chunking set_data].
  assert (trash ++ CRLF ++ [48] ++ CRLF ++ rest = (trash ++ CRLF) ++ [48] ++ CRLF ++ rest) as -> by by rewrite <- app_assoc.
  rewrite find_chunk_first.
  - cbn [mbind run_bind offset length_]. rewrite split_off_app by done. cbn [mbind run_bind data_so_far set_data].
    change (hex_value [48] + 2 + Z.of_nat (length [48]) =? 3) with true. cbn [mbind run_bind].
    unfold get. rewrite lookup_ge_None_2; [done|]. rewrite !length_app. simpl. lia.
  - simpl. lia.
  - by repeat constructor.
  - right. exists 10. split; [|done]. unfold CRLF. by rewrite last_app.
  - intros h Hh (Ho & Hpos & c & Hc & Hhex). rewrite length_app in Hh. simpl in Hh.
    rewrite Utils.occurs_lookup in Ho. specialize (Ho 0%nat 13 eq_refl). rewrite Nat.add_0_r in Ho.
    rewrite <- app_assoc in Ho, Hc.
    destruct (decide (h < length trash)%nat) as [Hlt|Hge].
    { rewrite lookup_app_l in Ho by done. by apply Hcr, (list_elem_of_lookup_2 _ h). }
    rewrite lookup_app_r in Ho by lia.
    destruct (decide (h = length trash)) as [->|].
    + rewrite last_lookup in Hlast. rewrite lookup_app_l in Hc by lia.
      replace (length trash - 1)%nat with (pred (length trash)) in Hc by lia. congruence.
    + assert (h - length trash = 1 ∨ h - length trash = 2)%nat as [E|E] by lia; by rewrite E in Ho.
Qed.


End Http.
