(* ===== verification/TlsHost.v ===== *)
(** * Reading the host name of a TLS ClientHello

    Models [node/src/sub_lib/binary_traverser.rs] with the readers of [PlainData]
    in [node/src/sub_lib/cryptde.rs] (Module [Traverser]) and
    [node/src/proxy_server/tls_protocol_pack.rs] (Module [TlsPack]), which walks
    an intercepted ClientHello to its server-name extension.

    A [&mut BinaryTraverser] method that returns a [Result] is a function from the
    traverser to the traverser and the result: the position moves even when the
    method fails.  The two [while] loops run on fuel; running out of it is a panic
    here, so the theorem on when [find_host] panics also bounds the loops. *)
From S2P Require Import Prelude.
From stdpp Require Import base list.

Module Traverser.
Local Open Scope Z_scope.

(** ** [PlainData] *)
Section plain_data.
Local Open Scope nat_scope.

Definition plain_get_u8 (data : list Z) (idx : nat) : run (option Z) :=
  if (length data <=? idx) then Ret None else b ← get data idx; Ret (Some b).

Definition plain_get_u16 (data : list Z) (idx : nat) : run (option Z) :=
  if (length data <=? idx + 1) then Ret None
  else
    b0 ← get data idx; b1 ← get data (idx + 1);
    h ← shl 16 b0 8;
    Ret (Some (Z.lor h b1)).

Definition plain_get_u24 (data : list Z) (idx : nat) : run (option Z) :=
  if (length data <=? idx + 2) then Ret None
  else
    b0 ← get data idx; b1 ← get data (idx + 1); b2 ← get data (idx + 2);
    h ← shl 32 b0 16; m ← shl 32 b1 8;
    Ret (Some (Z.lor (Z.lor h m) b2)).

Definition plain_get_u32 (data : list Z) (idx : nat) : run (option Z) :=
  if (length data <=? idx + 3) then Ret None
  else
    b0 ← get data idx; b1 ← get data (idx + 1); b2 ← get data (idx + 2); b3 ← get data (idx + 3);
    h ← shl 32 b0 24; m ← shl 32 b1 16; l ← shl 32 b2 8;
    Ret (Some (Z.lor (Z.lor (Z.lor h m) l) b3)).
End plain_data.

(** ** [BinaryTraverser] *)

Record BinaryTraverser := MkXvsr {
  plain_data : list Z;
  position : nat
}.

(** A [&mut self] method that may panic and returns [Result<A, ()>]. *)
Definition trav (A : Type) : Type :=
  BinaryTraverser → run (BinaryTraverser * result unit A).

Global Instance trav_ret : MRet trav := λ A a x, Ret (x, Ok a).
Global Instance trav_bind : MBind trav := λ A B f m x,
  match m x with
  | Panic => Panic
  | Ret (x', Err e) => Ret (x', Err e)
  | Ret (x', Ok a) => f a x'
  end.

Definition fail {A} : trav A := λ x, Ret (x, Err tt).
Definition lift {A} (r : run A) : trav A := λ x, a ← r; Ret (x, Ok a).

Definition new (data : list Z) : BinaryTraverser := MkXvsr data 0.
Definition offset (x : BinaryTraverser) : nat := position x.
Definition is_valid (x : BinaryTraverser) : bool := (position x <? length (plain_data x))%nat.
(** Reading the fields inside a method. *)
Definition get_offset : trav nat := λ x, Ret (x, Ok (offset x)).
Definition get_data : trav (list Z) := λ x, Ret (x, Ok (plain_data x)).

Definition advance (bytes : nat) : trav unit := λ x,
  let x' := MkXvsr (plain_data x) (position x + bytes) in
  if (length (plain_data x') <? position x')%nat then Ret (x', Err tt) else Ret (x', Ok tt).

Definition next_bytes (count : nat) : trav (list Z) :=
  position ← get_offset;
  _ ← advance count;
  data ← get_data;
  lift (slice data position (position + count)).

Definition convert_result {A} (o : option A) : trav A :=
  match o with Some value => mret value | None => fail end.

(** The common shape of the four readers: [advance], then read behind. *)
Definition read_behind (n : nat) (rd : list Z → nat → run (option Z)) : trav Z :=
  _ ← advance n;
  position ← get_offset;
  idx ← lift (usub position n);
  data ← get_data;
  option ← lift (rd data idx);
  convert_result option.

Definition get_u8 : trav Z := read_behind 1 plain_get_u8.
Definition get_u16 : trav Z := read_behind 2 plain_get_u16.
Definition get_u24 : trav Z := read_behind 3 plain_get_u24.
Definition get_u32 : trav Z := read_behind 4 plain_get_u32.

(** ** What the readers do *)

Definition byte (b : Z) : Prop := 0 ≤ b < 2 ^ 8.

(** The traverser stands before the suffix [s] of the data. *)
Definition stands_before (d : list Z) (p : nat) (s : list Z) : Prop :=
  drop p d = s ∧ (p ≤ length d)%nat.

Lemma stands_before_app d p a s :
  stands_before d p (a ++ s) → stands_before d (p + length a) s.
Proof.
  intros [E Hp]. assert (length d = p + length (a ++ s))%nat as Hl by (rewrite <- E; lens).
  split; [|lens]. by rewrite <- drop_drop, E, drop_app_length.
Qed.

Lemma stands_before_fits d p a s : stands_before d p (a ++ s) → (p + length a ≤ length d)%nat.
Proof. intros [E Hp]. assert (length (drop p d) = length (a ++ s)) by (by rewrite E). lens. Qed.

Lemma stands_before_get d p s i : stands_before d p s → get d (p + i) = get s i.
Proof. intros [<- _]. unfold get. by rewrite lookup_drop. Qed.

Lemma stands_before_get_0 d p s : stands_before d p s → get d p = get s 0.
Proof. intros H. rewrite <- (stands_before_get d p s 0 H). by rewrite Nat.add_0_r. Qed.

Lemma lor_byte a b (j k : nat) :
  k = (j + 8)%nat → byte b → Z.lor (a * 2 ^ Z.of_nat k) (b * 2 ^ Z.of_nat j) = (a * 2 ^ 8 + b) * 2 ^ Z.of_nat j.
Proof.
  intros -> Hb. rewrite pow2_add.
  replace (a * (2 ^ Z.of_nat j * 2 ^ Z.of_nat 8)) with ((a * 2 ^ Z.of_nat 8) * 2 ^ Z.of_nat j) by ring.
  rewrite <- !Z.shiftl_mul_pow2 by lia. rewrite <- Z.shiftl_lor. f_equal.
  rewrite !Z.shiftl_mul_pow2 by lia. rewrite Z.lor_comm, lor_mul_pow2 by exact Hb.
  change (Z.of_nat 8) with 8. ring.
Qed.

Lemma lor_last_byte a b : byte b → Z.lor (a * 2 ^ Z.of_nat 8) b = a * 2 ^ Z.of_nat 8 + b.
Proof. intros Hb. pose proof (lor_byte a b 0 8 eq_refl Hb) as H. by rewrite !Z.mul_1_r in H. Qed.

(** A reader of [n] bytes gives their big-endian value when they are there and
    never panics. *)
Definition reader_ok (n : nat) (rd : list Z → nat → run (option Z)) : Prop :=
  (∀ d p ds s, stands_before d p (ds ++ s) → length ds = n → Forall byte ds →
     rd d p = Ret (Some (from_be_digits 8 ds))) ∧
  (∀ d p, rd d p ≠ Panic).

Lemma get_in_range (d : list Z) p : (p < length d)%nat → ∃ b, get d p = Ret b.
Proof. intros [b Hb]%lookup_lt_is_Some_2. exists b. unfold get. by rewrite Hb. Qed.

Ltac never_panics :=
  intros d p; cbv beta delta [plain_get_u8 plain_get_u16 plain_get_u24 plain_get_u32];
  case_match; b2p; [done|];
  repeat (match goal with
  | |- context [get d ?i] => destruct (get_in_range d i) as [? ->]; [lia|]; cbn [mbind run_bind]
  end);
  rewrite ?shl_ok by lia; done.

Ltac reads_value :=
  intros d p ds s Hs Hl Hb; pose proof (stands_before_fits _ _ _ _ Hs);
  cbv beta delta [plain_get_u8 plain_get_u16 plain_get_u24 plain_get_u32];
  case_match; b2p; [lia|];
  repeat (destruct ds as [|? ds]; cbn [length] in Hl; try lia); rewrite ?Forall_cons in Hb; destruct_and?;
  rewrite (stands_before_get_0 _ _ _ Hs), ?(stands_before_get _ _ _ _ Hs);
  unfold get; cbn [app expect lookup list_lookup mbind run_bind];
  rewrite ?shl_ok by lia; cbn [mbind run_bind];
  do 2 f_equal; unfold byte in *; rewrite ?wrap_small by lia; unfold from_be_digits; cbn [foldl].

Lemma reader_u8 : reader_ok 1 plain_get_u8.
Proof. split; [|never_panics]. reads_value. Qed.

Lemma reader_u16 : reader_ok 2 plain_get_u16.
Proof.
  split; [|never_panics]. reads_value.
  rewrite lor_last_byte by done. lia.
Qed.

Lemma reader_u24 : reader_ok 3 plain_get_u24.
Proof.
  split; [|never_panics]. reads_value.
  rewrite (lor_byte z z0 8 16) by done.
  rewrite lor_last_byte by done. lia.
Qed.

Lemma reader_u32 : reader_ok 4 plain_get_u32.
Proof.
  split; [|never_panics]. reads_value.
  rewrite (lor_byte z z0 16 24), (lor_byte _ z1 8 16) by done.
  rewrite lor_last_byte by done. lia.
Qed.

(** ** What the traverser does *)

Lemma advance_spec d p n :
  advance n (MkXvsr d p) =
    Ret (MkXvsr d (p + n), if (length d <? p + n)%nat then Err tt else Ok tt).
Proof. unfold advance. simpl. by case_match. Qed.

Lemma advance_ok d p a s :
  stands_before d p (a ++ s) → advance (length a) (MkXvsr d p) = Ret (MkXvsr d (p + length a), Ok tt).
Proof.
  intros H%stands_before_fits. rewrite advance_spec. case_match; b2p; [lia|done].
Qed.

Lemma next_bytes_ok d p a s :
  stands_before d p (a ++ s) → next_bytes (length a) (MkXvsr d p) = Ret (MkXvsr d (p + length a), Ok a).
Proof.
  intros H. unfold next_bytes, mbind, trav_bind, get_offset, get_data, lift. simpl.
  rewrite (advance_ok _ _ _ _ H). simpl. unfold slice.
  rewrite (proj2 (Nat.leb_le p _)), (proj2 (Nat.leb_le _ (length d))) by (apply stands_before_fits in H; lia).
  simpl. destruct H as [-> _]. by rewrite Nat.add_comm, Nat.add_sub, take_app_length.
Qed.

Section reading.
Context {n : nat} {rd : list Z → nat → run (option Z)} (Hrd : reader_ok n rd).

Lemma read_behind_ok d p ds s :
  stands_before d p (ds ++ s) → length ds = n → Forall byte ds →
  read_behind n rd (MkXvsr d p) = Ret (MkXvsr d (p + n), Ok (from_be_digits 8 ds)).
Proof.
  intros H <- Hb. unfold read_behind, mbind, trav_bind, get_offset, get_data, lift.
  rewrite (advance_ok _ _ _ _ H). simpl. rewrite usub_ok by lia. simpl.
  rewrite Nat.add_sub, (proj1 Hrd _ _ _ _ H) by done. done.
Qed.

(** On any data: no panic, and a value only when the bytes were there. *)
Lemma read_behind_cases d p :
  (∃ v, read_behind n rd (MkXvsr d p) = Ret (MkXvsr d (p + n), Ok v) ∧ (p + n ≤ length d)%nat) ∨
  read_behind n rd (MkXvsr d p) = Ret (MkXvsr d (p + n), Err tt).
Proof.
  unfold read_behind, mbind, trav_bind, get_offset, get_data, lift. rewrite advance_spec.
  destruct (Nat.ltb_spec (length d) (p + n)); [by right|]. simpl. rewrite usub_ok by lia. simpl. rewrite Nat.add_sub.
  pose proof (proj2 Hrd d p) as Hp. destruct (rd d p) as [[v|]|]; [left; eauto|by right|done].
Qed.
End reading.
End Traverser.

Module TlsPack.
Import Traverser.
Local Open Scope Z_scope.

Record Host := MkHost { name : list Z; port : Z }.
Definition TLS_PORT : Z := 443.
Definition standard_port : Z := TLS_PORT.

(** [xvsr.get_u8() == Ok(v)]. *)
Definition next_is (v : Z) (x : BinaryTraverser) : run (BinaryTraverser * bool) :=
  '(x, r) ← get_u8 x;
  Ret (x, match r with Ok b => b =? v | Err _ => false end).

Definition is_handshake (x : BinaryTraverser) : run (BinaryTraverser * bool) := next_is 22 x.

Definition is_client_hello (x : BinaryTraverser) : run (BinaryTraverser * bool) :=
  n ← usub 5 (offset x);
  '(x, r) ← advance n x;
  _ ← expect_ok r;
  next_is 1 x.

Definition host_name_from_list_entry : trav (list Z) :=
  server_name_length ← get_u16;
  server_name_bytes ← next_bytes (Z.to_nat server_name_length);
  if valid_utf8 server_name_bytes then mret server_name_bytes else fail.

Fixpoint server_name_loop (fuel : nat) (server_name_list_end : nat) : trav (list Z) :=
  match fuel with
  | O => λ _, Panic
  | S fuel' =>
      o ← get_offset;
      if (o <? server_name_list_end)%nat then
        server_name_type ← get_u8;
        if server_name_type =? 0 then host_name_from_list_entry
        else
          server_name_length ← get_u16;
          _ ← advance (Z.to_nat server_name_length);
          server_name_loop fuel' server_name_list_end
      else fail
  end.

Definition host_name_from_extension (fuel : nat) : trav (list Z) :=
  _ ← advance 2;
  server_name_list_length ← get_u16;
  o ← get_offset;
  server_name_loop fuel (o + Z.to_nat server_name_list_length).

Fixpoint extension_loop (fuel : nat) (extensions_end : nat) : trav (list Z) :=
  match fuel with
  | O => λ _, Panic
  | S fuel' =>
      o ← get_offset;
      if (o <? extensions_end)%nat then
        extension_type ← get_u16;
        if extension_type =? 0 then host_name_from_extension fuel'
        else
          extension_length ← get_u16;
          _ ← advance (Z.to_nat extension_length);
          extension_loop fuel' extensions_end
      else fail
  end.

Definition host_name_from_client_hello (fuel : nat) : trav (list Z) :=
  o ← get_offset;
  n ← lift (usub 43 o);
  _ ← advance n;
  session_id_length ← get_u8;
  _ ← advance (Z.to_nat session_id_length);
  cipher_suites_length ← get_u16;
  _ ← advance (Z.to_nat cipher_suites_length);
  compression_methods_length ← get_u8;
  _ ← advance (Z.to_nat compression_methods_length);
  extensions_length ← get_u16;
  extensions_offset ← get_offset;
  extension_loop fuel (extensions_offset + Z.to_nat extensions_length).

(** Each round of a loop that goes on has moved the position by at least 3
    and has found it within the packet. *)
Definition find_host (data : list Z) : run (option Host) :=
  let xvsr := new data in
  '(xvsr, b) ← is_handshake xvsr;
  if negb b then Ret None
  else
    '(xvsr, b) ← is_client_hello xvsr;
    if negb b then Ret None
    else
      '(_, r) ← host_name_from_client_hello (S (length data)) xvsr;
      Ret (match r with Ok n => Some (MkHost n TLS_PORT) | Err _ => None end).

(** ** No panics, and loops that end *)

Definition safe {A} (m : trav A) (d : list Z) (p : nat) : Prop := m (MkXvsr d p) ≠ Panic.

Lemma safe_read {A} n rd (f : Z → trav A) d p :
  reader_ok n rd → (∀ v, (p + n ≤ length d)%nat → safe (f v) d (p + n)) →
  safe (read_behind n rd ≫= f) d p.
Proof.
  intros Hrd Hf. unfold safe, mbind, trav_bind.
  destruct (read_behind_cases Hrd d p) as [(v & -> & ?)| ->]; [by apply Hf|done].
Qed.

Lemma safe_advance {A} n (f : unit → trav A) d p :
  ((p + n ≤ length d)%nat → safe (f tt) d (p + n)) → safe (advance n ≫= f) d p.
Proof.
  intros Hf. unfold safe, mbind, trav_bind. rewrite advance_spec.
  destruct (Nat.ltb_spec (length d) (p + n)); [done|by apply Hf].
Qed.

Lemma safe_offset {A} (f : nat → trav A) d p : safe (f p) d p → safe (get_offset ≫= f) d p.
Proof. done. Qed.

Lemma safe_lift {A B} (a : B) r (f : B → trav A) d p :
  r = Ret a → safe (f a) d p → safe (lift r ≫= f) d p.
Proof. by intros ->. Qed.

Lemma safe_fail {A} d p : safe (@fail A) d p.
Proof. done. Qed.

Create HintDb tls.
#[local] Hint Resolve reader_u8 reader_u16 safe_fail : tls.

Ltac safe_step :=
  first
    [ apply safe_read; [solve [auto with tls]|intros ? ?]
    | apply safe_advance; intros ?
    | apply safe_offset
    | apply safe_fail
    | match goal with |- context [if ?c then _ else _] => destruct c eqn:? end ].
Ltac safe_steps := unfold get_u8, get_u16; repeat safe_step.

Lemma next_bytes_ret d p n :
  (∃ s, next_bytes n (MkXvsr d p) = Ret (MkXvsr d (p + n), Ok s)) ∨
  next_bytes n (MkXvsr d p) = Ret (MkXvsr d (p + n), Err tt).
Proof.
  unfold next_bytes, mbind, trav_bind, get_offset, get_data, lift, offset. cbn [position].
  rewrite advance_spec. destruct (Nat.ltb_spec (length d) (p + n)); [by right|]. left. unfold slice.
  cbn [plain_data]. rewrite (proj2 (Nat.leb_le p (p + n))), (proj2 (Nat.leb_le _ (length d))) by lia.
  eexists. done.
Qed.

Lemma safe_list_entry d p : safe host_name_from_list_entry d p.
Proof.
  unfold host_name_from_list_entry. safe_steps.
  unfold safe, mbind at 1, trav_bind.
  match goal with |- context [next_bytes ?n _] => destruct (next_bytes_ret d (p + 2) n) as [[s ->]| ->] end;
    [by destruct (valid_utf8 s)|done].
Qed.

#[local] Opaque host_name_from_list_entry.

Lemma safe_server_name_loop fuel e d p :
  (length d < fuel + p)%nat → (p ≤ length d)%nat → safe (server_name_loop fuel e) d p.
Proof.
  revert p; induction fuel as [|fuel IH]; intros p Hf Hp; [lia|].
  cbn [server_name_loop]. safe_steps; [apply safe_list_entry|]. apply IH; lia.
Qed.

Lemma safe_extension_loop fuel e d p :
  (length d < fuel + p)%nat → (p ≤ length d)%nat → safe (extension_loop fuel e) d p.
Proof.
  revert p; induction fuel as [|fuel IH]; intros p Hf Hp; [lia|].
  cbn [extension_loop]. unfold host_name_from_extension.
  safe_steps; [apply safe_server_name_loop; lia|apply IH; lia].
Qed.

Lemma safe_client_hello fuel d p :
  (length d < fuel)%nat → (p ≤ 43)%nat → safe (host_name_from_client_hello fuel) d p.
Proof.
  intros Hf Hp. unfold host_name_from_client_hello. apply safe_offset.
  apply (safe_lift (43 - p)%nat); [by apply usub_ok|].
  safe_steps. apply safe_extension_loop; lia.
Qed.

#[local] Transparent host_name_from_list_entry.

Lemma next_is_spec v d p :
  next_is v (MkXvsr d p) = Ret (MkXvsr d (p + 1), bool_decide (d !! p = Some v)).
Proof.
  unfold next_is, get_u8, read_behind, plain_get_u8, get_offset, get_data, lift, offset, mbind, trav_bind.
  rewrite advance_spec. destruct (Nat.ltb_spec (length d) (p + 1)).
  - simpl. rewrite lookup_ge_None_2 by lia. done.
  - cbn [position plain_data]. rewrite usub_ok by lia. cbn. rewrite Nat.add_sub.
    destruct (Nat.leb_spec (length d) p); [lia|].
    destruct (lookup_lt_is_Some_2 d p) as [b Hb]; [lia|]. unfold get. rewrite Hb. cbn. do 2 f_equal.
    destruct (Z.eqb_spec b v); case_bool_decide; congruence.
Qed.

(** Finding the host of an intercepted TLS packet ends and returns for
    every packet, except that it panics ("Internal Error") exactly on the packets
    of one to four bytes that begin with the handshake content type 22: these
    pass [is_handshake], and [is_client_hello] then expects to be able to move to
    position 5. *)
Lemma find_host_panics (data : list Z) :
  find_host data = Panic ↔ data !! 0%nat = Some 22 ∧ (length data ≤ 4)%nat.
Proof.
  unfold find_host, is_handshake, new. rewrite next_is_spec. cbn [mbind run_bind Nat.add].
  case_bool_decide as H22; cbn [negb]; [|by split; [|intros [? _]]].
  unfold is_client_hello, offset. cbn [position]. rewrite usub_ok by lia. cbn [mbind run_bind].
  rewrite advance_spec. change (1 + (5 - 1))%nat with 5%nat.
  destruct (Nat.ltb_spec (length data) 5); cbn [mbind run_bind expect_ok]; [split; [split; [done|lia]|done]|].
  rewrite next_is_spec. cbn [mbind run_bind].
  split; [|intros [_ ?]; lia]. case_bool_decide; cbn [negb]; [|done].
  pose proof (safe_client_hello (S (length data)) data (5 + 1)) as Hs. unfold safe in Hs.
  destruct (host_name_from_client_hello _ _) as [[? ?]|]; [done|]. intros _. exfalso. apply Hs; [lia|lia|done].
Qed.

(** ** A ClientHello and its host *)

(** The wire form of the parts the walk reads, after RFC 8446 and RFC 6066. *)
Inductive extension :=
| ServerName (names : list (Z * list Z))
| Other (ty : Z) (body : list Z).

Record client_hello := MkHello {
  record_header : list Z;       (** version and length of the record *)
  hello_header : list Z;        (** handshake length, version and random *)
  session_id : list Z;
  cipher_suites : list Z;
  compression_methods : list Z;
  extensions : list extension
}.

(** A vector preceded by its length in [w] bytes. *)
Definition vec (w : nat) (body : list Z) : list Z :=
  be_digits 8 w (Z.of_nat (length body)) ++ body.

Definition enc_name (e : Z * list Z) : list Z := e.1 :: vec 2 e.2.

Definition enc_extension (e : extension) : list Z :=
  match e with
  | ServerName names => be_digits 8 2 0 ++ vec 2 (vec 2 (names ≫= enc_name))
  | Other ty body => be_digits 8 2 ty ++ vec 2 body
  end.

Definition enc_extensions (es : list extension) : list Z := es ≫= enc_extension.

Definition enc_hello (h : client_hello) : list Z :=
  [22] ++ record_header h ++ [1] ++ hello_header h ++ vec 1 (session_id h)
  ++ vec 2 (cipher_suites h) ++ vec 1 (compression_methods h) ++ vec 2 (enc_extensions (extensions h)).

(** Every length fits in its field and every number in its bytes. *)
Definition fits (w : nat) (n : Z) : bool := (0 <=? n) && (n <? 2 ^ Z.of_nat (8 * w)).
Definition vec_fits (w : nat) (body : list Z) : bool := fits w (Z.of_nat (length body)).

Definition name_fits (e : Z * list Z) : bool := fits 1 e.1 && vec_fits 2 e.2.

Definition extension_fits (e : extension) : bool :=
  match e with
  | ServerName names =>
      forallb name_fits names && vec_fits 2 (names ≫= enc_name) && vec_fits 2 (vec 2 (names ≫= enc_name))
  | Other ty body => fits 2 ty && negb (ty =? 0) && vec_fits 2 body
  end.

Definition well_formed (h : client_hello) : bool :=
  (length (record_header h) =? 4)%nat && (length (hello_header h) =? 37)%nat
  && vec_fits 1 (session_id h) && vec_fits 2 (cipher_suites h) && vec_fits 1 (compression_methods h)
  && forallb extension_fits (extensions h) && vec_fits 2 (enc_extensions (extensions h)).

(** The first name of type 0, if it is UTF-8. *)
Fixpoint host_of_names (names : list (Z * list Z)) : option (list Z) :=
  match names with
  | [] => None
  | (t, n) :: names' =>
      if t =? 0 then (if valid_utf8 n then Some n else None) else host_of_names names'
  end.

(** Only the first server-name extension counts. *)
Fixpoint host_of (es : list extension) : option (list Z) :=
  match es with
  | [] => None
  | ServerName names :: _ => host_of_names names
  | Other _ _ :: es' => host_of es'
  end.


(** ** The walk over a ClientHello *)

Definition yields {A} (m : trav A) (d : list Z) (p : nat) (o : option A) : Prop :=
  ∃ x, m (MkXvsr d p) = Ret (x, match o with Some a => Ok a | None => Err tt end).

Section walk.
Context {A : Type} (d : list Z).
Implicit Types (o : option A) (s : list Z) (p : nat).

Lemma fits_range w v : fits w v = true → 0 ≤ v < 2 ^ Z.of_nat (8 * w).
Proof. unfold fits. intros [?%Z.leb_le ?%Z.ltb_lt]%andb_true_iff. done. Qed.

Lemma yields_num w rd (f : Z → trav A) p v s o :
  reader_ok w rd → fits w v = true → stands_before d p (be_digits 8 w v ++ s) →
  (stands_before d (p + w) s → yields (f v) d (p + w) o) → yields (read_behind w rd ≫= f) d p o.
Proof.
  intros Hrd Hv%fits_range Hs Hf.
  pose proof (stands_before_app _ _ _ _ Hs) as Hs'. rewrite length_be_digits in Hs'.
  destruct (Hf Hs') as [x Hx]. exists x. unfold mbind, trav_bind.
  rewrite (read_behind_ok Hrd _ _ _ _ Hs) by (apply length_be_digits || apply (be_digits_range 8)).
  by rewrite from_be_digits_be_digits.
Qed.

Lemma yields_skip (f : unit → trav A) p a s o n :
  n = length a → stands_before d p (a ++ s) →
  (stands_before d (p + length a) s → yields (f tt) d (p + length a) o) → yields (advance n ≫= f) d p o.
Proof.
  intros -> Hs Hf. destruct (Hf (stands_before_app _ _ _ _ Hs)) as [x Hx]. exists x.
  unfold mbind, trav_bind. by rewrite (advance_ok _ _ _ _ Hs).
Qed.

Lemma yields_vec w rd (k : trav A) p body s o :
  reader_ok w rd → vec_fits w body = true → stands_before d p (vec w body ++ s) →
  (stands_before d (p + length (vec w body)) s → yields k d (p + length (vec w body)) o) →
  yields (n ← read_behind w rd; _ ← advance (Z.to_nat n); k) d p o.
Proof.
  intros Hrd Hb Hs Hk. unfold vec in *. rewrite <- (assoc_L (++)) in Hs.
  rewrite length_app, length_be_digits, Nat.add_assoc in Hk.
  eapply yields_num; [done|exact Hb|exact Hs|]. intros Hs1.
  eapply yields_skip; [by rewrite Nat2Z.id|exact Hs1|done].
Qed.

Lemma yields_offset (f : nat → trav A) p o : yields (f p) d p o → yields (get_offset ≫= f) d p o.
Proof. done. Qed.
End walk.

Lemma yields_list_entry d p n s :
  vec_fits 2 n = true → stands_before d p (vec 2 n ++ s) →
  yields host_name_from_list_entry d p (if valid_utf8 n then Some n else None).
Proof.
  intros Hn Hs. unfold vec in Hs. rewrite <- (assoc_L (++)) in Hs.
  eapply yields_num; [apply reader_u16|exact Hn|exact Hs|]. intros Hs1.
  unfold yields, mbind, trav_bind. rewrite Nat2Z.id, (next_bytes_ok _ _ _ _ Hs1).
  destruct (valid_utf8 n); by eexists.
Qed.

Lemma length_enc_name e : length (enc_name e) = (3 + length e.2)%nat.
Proof. unfold enc_name, vec. lens. by rewrite length_be_digits. Qed.

Lemma length_vec w b : length (vec w b) = (w + length b)%nat.
Proof. unfold vec. lens. by rewrite length_be_digits. Qed.

Lemma yields_server_names fuel names d p s e :
  forallb name_fits names = true → stands_before d p ((names ≫= enc_name) ++ s) →
  e = (p + length (names ≫= enc_name))%nat → (length d < fuel + p)%nat →
  yields (server_name_loop fuel e) d p (host_of_names names).
Proof.
  revert p fuel; induction names as [|[t n] names IH]; intros p fuel Hfit Hs He Hf.
  - assert (p ≤ length d)%nat by apply Hs. simpl in He. destruct fuel as [|fuel]; [lia|].
    cbn [server_name_loop]. apply yields_offset. destruct (Nat.ltb_spec p e); [lia|]. by eexists.
  - cbn [forallb] in Hfit. apply andb_true_iff in Hfit as [[Ht Hn]%andb_true_iff Hfit]. simpl in Ht, Hn.
    assert (p ≤ length d)%nat by apply Hs. destruct fuel as [|fuel]; [lia|].
    rewrite bind_cons in Hs, He. rewrite length_app, length_enc_name in He. simpl in He.
    cbn [server_name_loop host_of_names]. apply yields_offset. destruct (Nat.ltb_spec p e); [|lia].
    rewrite <- (assoc_L (++)) in Hs. unfold enc_name at 1 in Hs. cbn [fst snd] in Hs.
    assert (be_digits 8 1 t = [t]) as Et
      by (apply fits_range in Ht; rewrite be_digits_S, Nat.mul_0_r, Z.div_1_r, Z.mod_small by done; done).
    apply (yields_num _ _ _ _ _ t (vec 2 n ++ (names ≫= enc_name) ++ s));
      [apply reader_u8|exact Ht|rewrite Et; exact Hs|]. intros Hs1.
    destruct (t =? 0); [by eapply yields_list_entry|].
    eapply yields_vec; [apply reader_u16|exact Hn|exact Hs1|]. intros Hs2. rewrite length_vec in *.
    apply IH; [done|done|lia|lia].
Qed.


Lemma length_enc_other ty body : length (enc_extension (Other ty body)) = (2 + length (vec 2 body))%nat.
Proof. cbn [enc_extension]. rewrite length_app, length_be_digits. done. Qed.

Lemma yields_server_name_extension fuel names d p s :
  extension_fits (ServerName names) = true →
  stands_before d p (vec 2 (vec 2 (names ≫= enc_name)) ++ s) → (length d < fuel + p)%nat →
  yields (host_name_from_extension fuel) d p (host_of_names names).
Proof.
  intros [[Hn Hv]%andb_true_iff Hvv]%andb_true_iff Hs Hf. unfold host_name_from_extension.
  unfold vec at 1 in Hs. rewrite <- (assoc_L (++)) in Hs.
  eapply yields_skip; [|exact Hs|]; rewrite length_be_digits; [done|]. intros Hs1.
  unfold vec in Hs1. rewrite <- (assoc_L (++)) in Hs1.
  eapply yields_num; [apply reader_u16|exact Hv|exact Hs1|]. intros Hs2.
  apply yields_offset. eapply yields_server_names; [exact Hn|exact Hs2|by rewrite Nat2Z.id|lia].
Qed.

Lemma yields_extensions fuel es d p s e :
  forallb extension_fits es = true → stands_before d p (enc_extensions es ++ s) →
  e = (p + length (enc_extensions es))%nat → (length d < fuel + p)%nat →
  yields (extension_loop fuel e) d p (host_of es).
Proof.
  revert p fuel; induction es as [|x es IH]; intros p fuel Hfit Hs He Hf;
    assert (p ≤ length d)%nat by apply Hs; (destruct fuel as [|fuel]; [lia|]);
    cbn [extension_loop host_of]; apply yields_offset.
  - simpl in He. destruct (Nat.ltb_spec p e); [lia|]. by eexists.
  - cbn [forallb] in Hfit. apply andb_true_iff in Hfit as [Hx Hfit].
    unfold enc_extensions in Hs, He. rewrite bind_cons in Hs, He. rewrite <- (assoc_L (++)) in Hs.
    destruct (Nat.ltb_spec p e); [|destruct x; cbn [enc_extension] in He; rewrite !length_app, length_be_digits in He; lia].
    destruct x as [names|ty body].
    + cbn [enc_extension] in Hs. rewrite <- (assoc_L (++)) in Hs.
      eapply (yields_num _ _ _ _ _ 0); [apply reader_u16|done|exact Hs|]. intros Hs1.
      eapply yields_server_name_extension; [exact Hx|exact Hs1|lia].
    + rewrite length_app, length_enc_other in He. cbn [enc_extension] in Hs. rewrite <- (assoc_L (++)) in Hs.
      cbn [extension_fits] in Hx. apply andb_true_iff in Hx as [[Hty Hne]%andb_true_iff Hb].
      eapply yields_num; [apply reader_u16|exact Hty|exact Hs|]. intros Hs1.
      destruct (ty =? 0); [done|].
      eapply yields_vec; [apply reader_u16|exact Hb|exact Hs1|]. intros Hs2. rewrite length_vec in *.
      apply IH; [done|done|unfold enc_extensions; lia|lia].
Qed.

(** What follows the message type. *)
Definition hello_rest (h : client_hello) (trailing : list Z) : list Z :=
  hello_header h ++ vec 1 (session_id h) ++ vec 2 (cipher_suites h)
  ++ vec 1 (compression_methods h) ++ vec 2 (enc_extensions (extensions h)) ++ trailing.

Lemma well_formed_parts h :
  well_formed h = true →
  (length (record_header h) = 4%nat ∧ length (hello_header h) = 37%nat) ∧
  (vec_fits 1 (session_id h) = true ∧ vec_fits 2 (cipher_suites h) = true
     ∧ vec_fits 1 (compression_methods h) = true) ∧
  (forallb extension_fits (extensions h) = true ∧ vec_fits 2 (enc_extensions (extensions h)) = true).
Proof.
  unfold well_formed. rewrite !andb_true_iff, !Nat.eqb_eq. tauto.
Qed.

Lemma enc_hello_layout h trailing :
  length (record_header h) = 4%nat →
  let d := enc_hello h ++ trailing in
  d !! 0%nat = Some 22 ∧ d !! 5%nat = Some 1 ∧ stands_before d 6 (hello_rest h trailing).
Proof.
  intros Hrh d. unfold d, enc_hello. rewrite <- !(assoc_L (++)). split_and!; [done| |split; [|lens]].
  - rewrite (app_assoc [22]), lookup_app_r by lens. by rewrite length_app, Hrh.
  - by rewrite (app_assoc [22]), (app_assoc _ [1]), drop_app_length' by lens.
Qed.

Lemma yields_client_hello h trailing d :
  well_formed h = true → stands_before d 6 (hello_rest h trailing) →
  yields (host_name_from_client_hello (S (length d))) d 6 (host_of (extensions h)).
Proof.
  intros ((_ & Hhh) & (Hsid & Hcs & Hcm) & Hes & Hel)%well_formed_parts Hs6.
  unfold host_name_from_client_hello. apply yields_offset. unfold lift. rewrite usub_ok by lia.
  eapply (yields_skip d _ 6); [|exact Hs6|]; rewrite Hhh; [done|]. intros Hs1.
  eapply yields_vec; [apply reader_u8|exact Hsid|exact Hs1|]. intros Hs2.
  eapply yields_vec; [apply reader_u16|exact Hcs|exact Hs2|]. intros Hs3.
  eapply yields_vec; [apply reader_u8|exact Hcm|exact Hs3|]. intros Hs4.
  unfold vec in Hs4 at 4. rewrite <- (assoc_L (++)) in Hs4.
  eapply yields_num; [apply reader_u16|exact Hel|exact Hs4|]. intros Hs5.
  apply yields_offset. eapply yields_extensions; [exact Hes|exact Hs5|by rewrite Nat2Z.id|lia].
Qed.

(** The two checks at the start, on a packet that has the 5 bytes they skip. *)
Lemma find_host_handshake d :
  d !! 0%nat = Some 22 → d !! 5%nat = Some 1 →
  find_host d = '(_, r) ← host_name_from_client_hello (S (length d)) (MkXvsr d 6);
                Ret (match r with Ok n => Some (MkHost n TLS_PORT) | Err _ => None end).
Proof.
  intros H0 H5. pose proof (lookup_lt_Some _ _ _ H5) as Hlen.
  unfold find_host, is_handshake, new. rewrite next_is_spec, bool_decide_true by done.
  cbn [mbind run_bind negb Nat.add]. unfold is_client_hello, offset. cbn [position].
  rewrite usub_ok by lia. cbn [mbind run_bind]. rewrite advance_spec. change (1 + (5 - 1))%nat with 5%nat.
  destruct (Nat.ltb_spec (length d) 5); [lia|]. cbn [mbind run_bind expect_ok].
  by rewrite next_is_spec, bool_decide_true by done.
Qed.

(** C33: for every ClientHello whose lengths fit their fields, followed by any
    bytes, the walk returns the first host name of its first server-name
    extension, with port 443, if that name is UTF-8; otherwise it returns
    nothing. *)
Theorem find_host_of_client_hello (h : client_hello) (trailing : list Z) :
  well_formed h = true →
  find_host (enc_hello h ++ trailing) =
    Ret (option_map (λ n, MkHost n TLS_PORT) (host_of (extensions h))).
Proof.
  intros Hwf. destruct (well_formed_parts h Hwf) as ((Hrh & _) & _).
  destruct (enc_hello_layout h trailing Hrh) as (H0 & H5 & Hs6).
  rewrite find_host_handshake by done. destruct (yields_client_hello _ _ _ Hwf Hs6) as [x ->].
  cbn [mbind run_bind]. by destruct (host_of (extensions h)).
Qed.

Definition demo_hello : client_hello :=
  MkHello [3; 1; 0; 90] (replicate 37 7) [5; 6] [0x13; 0x01] [0]
    [Other 10 [0; 2; 0; 29]; ServerName [(3, [9]); (0, [109; 97; 115; 113; 46; 97; 105])]; Other 43 [2; 3; 4]].

Lemma find_host_of_client_hello_witness :
  find_host (enc_hello demo_hello ++ [1; 2; 3]) =
    Ret (Some (MkHost [109; 97; 115; 113; 46; 97; 105] 443)).
Proof. apply (find_host_of_client_hello demo_hello [1; 2; 3]). vm_compute. reflexivity. Defined.
End TlsPack.
