(* ===== verification/PortMapping.v ===== *)
(** * Port-mapping protocol packets

    Models the packet formats of the automap crate:
    [automap/src/protocols/utils.rs] (Module [Wire]),
    [automap/src/protocols/pcp/pcp_packet.rs] and [pcp/map_packet.rs] (Module
    [Pcp]), [automap/src/protocols/pmp/pmp_packet.rs], [pmp/get_packet.rs] and
    [pmp/map_packet.rs] (Module [Pmp]).

    Buffers are lists of bytes; reading or writing outside a buffer is a panic.
    A [marshal] returns the buffer as it leaves it.  Trait objects of opcode
    data are inductive types with one constructor per implementation.  An
    [Ipv6Addr] is kept as its [u128] value and an [Ipv4Addr] as its [u32]. *)
From Stdlib Require Import String.
From S2P Require Import Prelude.
From S2P Require Import CountryBlockStream.
From stdpp Require Import base list strings.

Module Wire.
Import Stream.
Local Open Scope Z_scope.

(** ** Data *)

Inductive Direction := Request | Response.

Global Instance Direction_eq_dec : EqDecision Direction.
Proof. solve_decision. Defined.

Inductive ParseError :=
| WrongVersion (v : Z)
| ShortBuffer (required actual : nat)
| UnexpectedOpcode (name : string).

Inductive MarshalError := MarshalShortBuffer (required actual : nat).

Definition direction_from (input : Z) : Direction :=
  if 0 <? Z.land input 0x80 then Response else Request.

Definition direction_code (d : Direction) : Z :=
  match d with Request => 0x00 | Response => 0x80 end.

(** ** Bytes of a buffer *)

(** [buf[i] = b]. *)
Definition put (buf : list Z) (i : nat) (b : Z) : run (list Z) :=
  if (i <? length buf)%nat then Ret (<[i := b]> buf) else Panic.

(** [buf[offset..offset + n].clone_from_slice(bs)]. *)
Definition put_slice (buf : list Z) (offset : nat) (bs : list Z) : run (list Z) :=
  if (offset + length bs <=? length buf)%nat
  then Ret (take offset buf ++ bs ++ drop (offset + length bs) buf) else Panic.

Definition u32_at (buf : list Z) (offset : nat) : run Z :=
  a ← get buf offset;
  b ← get buf (offset + 1);
  c ← get buf (offset + 2);
  d ← get buf (offset + 3);
  Ret (Z.shiftl a 24 + Z.shiftl b 16 + Z.shiftl c 8 + d).

Definition u32_into (buf : list Z) (offset : nat) (value : Z) : run (list Z) :=
  buf ← put buf offset (u8 (Z.shiftr value 24));
  buf ← put buf (offset + 1) (Z.land (Z.shiftr value 16) 0xFF);
  buf ← put buf (offset + 2) (Z.land (Z.shiftr value 8) 0xFF);
  put buf (offset + 3) (Z.land value 0xFF).

Definition u16_at (buf : list Z) (offset : nat) : run Z :=
  a ← get buf offset;
  b ← get buf (offset + 1);
  Ret (Z.shiftl a 8 + b).

Definition u16_into (buf : list Z) (offset : nat) (value : Z) : run (list Z) :=
  buf ← put buf offset (u8 (Z.shiftr value 8));
  put buf (offset + 1) (Z.land value 0xFF).

(** [Ipv6Addr::to_ipv4]: mapped and compatible addresses. *)
Definition to_ipv4 (a : Z) : option Z :=
  if a <? 2 ^ 32 then Some a
  else if a / 2 ^ 32 =? 0xFFFF then Some (a mod 2 ^ 32)
  else None.

Definition to_ipv6_mapped (a : Z) : Z := 0xFFFF * 2 ^ 32 + a.

Definition ipv6_addr_at (buf : list Z) (offset : nat) : run IpAddr :=
  s0 ← u16_at buf offset;
  s1 ← u16_at buf (offset + 2);
  s2 ← u16_at buf (offset + 4);
  s3 ← u16_at buf (offset + 6);
  s4 ← u16_at buf (offset + 8);
  s5 ← u16_at buf (offset + 10);
  s6 ← u16_at buf (offset + 12);
  s7 ← u16_at buf (offset + 14);
  let ipv6_addr := from_be_digits 16 [s0; s1; s2; s3; s4; s5; s6; s7] in
  Ret (match to_ipv4 ipv6_addr with
       | Some ipv4_addr => IpV4 ipv4_addr
       | None => IpV6 ipv6_addr
       end).

Definition ipv6_addr_into (buf : list Z) (offset : nat) (value : IpAddr) : run (list Z) :=
  let ipv6_addr := match value with IpV4 a => to_ipv6_mapped a | IpV6 a => a end in
  put_slice buf offset (be_digits 8 16 ipv6_addr).

Definition ipv4_addr_into (buf : list Z) (offset : nat) (value : Z) : run (list Z) :=
  put_slice buf offset (be_digits 8 4 value).

(** ** Lemmas *)

Lemma put_at pre mid post n k b :
  n = (length pre + k)%nat → (k < length mid)%nat →
  put (pre ++ mid ++ post) n b = Ret (pre ++ <[k := b]> mid ++ post).
Proof.
  intros -> Hk. unfold put. rewrite !length_app.
  destruct (Nat.ltb_spec (length pre + k) (length pre + (length mid + length post))); [|lia].
  rewrite insert_app_r_alt by lia. replace (length pre + k - length pre)%nat with k by lia.
  by rewrite insert_app_l.
Qed.

(** A buffer cut into parts of given sizes. *)
Lemma cut_off {A} (l : list A) n :
  (n ≤ length l)%nat → ∃ a b, l = a ++ b ∧ length a = n ∧ length b = (length l - n)%nat.
Proof. intros. exists (take n l), (drop n l). rewrite take_drop. split; [done|]. lens. Qed.

Lemma u8_digit value n :
  u8 (Z.shiftr value (Z.of_nat (8 * n))) = (value / 2 ^ Z.of_nat (8 * n)) mod 2 ^ Z.of_nat 8.
Proof. unfold u8, wrap. by rewrite Z.shiftr_div_pow2 by lia. Qed.

Lemma land_digit value n :
  Z.land (Z.shiftr value (Z.of_nat (8 * n))) 0xFF = (value / 2 ^ Z.of_nat (8 * n)) mod 2 ^ Z.of_nat 8.
Proof. change 0xFF with (2 ^ Z.of_nat 8 - 1). by rewrite land_ones_mod, Z.shiftr_div_pow2 by lia. Qed.

Lemma u16_into_at pre mid post n value :
  n = length pre → length mid = 2%nat →
  u16_into (pre ++ mid ++ post) n value = Ret (pre ++ be_digits 8 2 value ++ post).
Proof.
  intros -> Hm. unfold u16_into. rewrite <- (Nat.add_0_r (length pre)) at 1.
  rewrite (put_at _ _ _ _ 0) by lia. cbn [mbind run_bind].
  rewrite (put_at _ _ _ _ 1) by (rewrite ?length_insert; lia).
  destruct mid as [|a [|b [|]]]; try done. rewrite !be_digits_S. cbn [insert list_insert app]. do 3 f_equal.
  - apply (u8_digit value 1).
  - f_equal. rewrite <- (Z.shiftr_0_r value) at 1. apply (land_digit value 0).
Qed.

Lemma u32_into_at pre mid post n value :
  n = length pre → length mid = 4%nat →
  u32_into (pre ++ mid ++ post) n value = Ret (pre ++ be_digits 8 4 value ++ post).
Proof.
  intros -> Hm. unfold u32_into. rewrite <- (Nat.add_0_r (length pre)) at 1.
  rewrite (put_at _ _ _ _ 0) by lia. cbn [mbind run_bind].
  rewrite (put_at _ _ _ _ 1) by (rewrite ?length_insert; lia). cbn [mbind run_bind].
  rewrite (put_at _ _ _ _ 2) by (rewrite ?length_insert; lia). cbn [mbind run_bind].
  rewrite (put_at _ _ _ _ 3) by (rewrite ?length_insert; lia).
  destruct mid as [|a [|b [|c [|d [|]]]]]; try done. rewrite !be_digits_S. cbn [insert list_insert app].
  do 3 f_equal; [apply (u8_digit value 3)|].
  f_equal; [apply (land_digit value 2)|]. f_equal; [apply (land_digit value 1)|].
  f_equal. rewrite <- (Z.shiftr_0_r value) at 1. apply (land_digit value 0).
Qed.

Lemma put_slice_at pre mid post n bs :
  n = length pre → length mid = length bs → put_slice (pre ++ mid ++ post) n bs = Ret (pre ++ bs ++ post).
Proof.
  intros -> Hm. unfold put_slice. rewrite !length_app.
  destruct (Nat.leb_spec (length pre + length bs) (length pre + (length mid + length post))); [|lia].
  rewrite take_app_length. do 3 f_equal. rewrite app_assoc. apply drop_app_length'.
  rewrite length_app. lia.
Qed.

Lemma u16_into_first mid post value :
  length mid = 2%nat → u16_into (mid ++ post) 0 value = Ret (be_digits 8 2 value ++ post).
Proof. by apply (u16_into_at [] mid post 0). Qed.

Lemma u32_into_first mid post value :
  length mid = 4%nat → u32_into (mid ++ post) 0 value = Ret (be_digits 8 4 value ++ post).
Proof. by apply (u32_into_at [] mid post 0). Qed.

Lemma put_slice_first mid post bs :
  length mid = length bs → put_slice (mid ++ post) 0 bs = Ret (bs ++ post).
Proof. by apply (put_slice_at [] mid post 0). Qed.

Lemma put_first mid post k b :
  (k < length mid)%nat → put (mid ++ post) k b = Ret (<[k := b]> mid ++ post).
Proof. by apply (put_at [] mid post k k). Qed.

Lemma get_at {A} (pre : list A) x post n : n = length pre → get (pre ++ x :: post) n = Ret x.
Proof. intros ->. by rewrite <- (Nat.add_0_r (length pre)), get_app_r. Qed.

Lemma u16_at_bytes pre a b post n :
  n = length pre → u16_at (pre ++ [a; b] ++ post) n = Ret (from_be_digits 8 [a; b]).
Proof.
  intros ->. unfold u16_at. rewrite <- (Nat.add_0_r (length pre)) at 1. rewrite !get_app_r.
  change (get ([a; b] ++ post) 0) with (Ret a). change (get ([a; b] ++ post) 1) with (Ret b).
  cbn [mbind run_bind]. f_equal. rewrite Z.shiftl_mul_pow2 by lia. unfold from_be_digits. cbn [foldl].
  change (2 ^ Z.of_nat 8) with (2 ^ 8). lia.
Qed.

Lemma u16_at_digits pre post n value :
  n = length pre → 0 ≤ value < 2 ^ 16 →
  u16_at (pre ++ be_digits 8 2 value ++ post) n = Ret value.
Proof.
  intros Hn Hv. pose proof (length_be_digits 8 2 value) as Hl.
  destruct (be_digits 8 2 value) as [|a [|b [|]]] eqn:E; try done.
  rewrite u16_at_bytes by done. rewrite <- E. by rewrite from_be_digits_be_digits.
Qed.

Lemma u32_at_digits pre post n value :
  n = length pre → 0 ≤ value < 2 ^ 32 →
  u32_at (pre ++ be_digits 8 4 value ++ post) n = Ret value.
Proof.
  intros -> Hv. pose proof (length_be_digits 8 4 value) as Hl.
  pose proof (from_be_digits_be_digits 8 4 value Hv) as Hd.
  destruct (be_digits 8 4 value) as [|a [|b [|c [|d [|]]]]] eqn:E; try done.
  unfold u32_at. rewrite <- (Nat.add_0_r (length pre)) at 1. rewrite !get_app_r.
  change (get ([a; b; c; d] ++ post) 0) with (Ret a). change (get ([a; b; c; d] ++ post) 1) with (Ret b).
  change (get ([a; b; c; d] ++ post) 2) with (Ret c). change (get ([a; b; c; d] ++ post) 3) with (Ret d).
  cbn [mbind run_bind]. f_equal. rewrite !Z.shiftl_mul_pow2 by lia.
  rewrite <- Hd. unfold from_be_digits. cbn [foldl]. change (2 ^ Z.of_nat 8) with 256.
  change (2 ^ 24) with (256 * 256 * 256). change (2 ^ 16) with (256 * 256). change (2 ^ 8) with 256. ring.
Qed.

Lemma u32_at_first post value :
  0 ≤ value < 2 ^ 32 → u32_at (be_digits 8 4 value ++ post) 0 = Ret value.
Proof. by apply (u32_at_digits [] post 0). Qed.

(** An address that the wire format can tell apart from an IPv4 one. *)
Definition ip_canonical (ip : IpAddr) : bool :=
  match ip with
  | IpV4 a => (0 <=? a) && (a <? 2 ^ 32)
  | IpV6 a => (0 <=? a) && (a <? 2 ^ 128) && match to_ipv4 a with None => true | Some _ => false end
  end.

Definition ip_bytes (ip : IpAddr) : list Z :=
  be_digits 8 16 (match ip with IpV4 a => to_ipv6_mapped a | IpV6 a => a end).

Lemma segments_of_bytes (b0 b1 b2 b3 b4 b5 b6 b7 b8 b9 b10 b11 b12 b13 b14 b15 : Z) :
  from_be_digits 16 [from_be_digits 8 [b0; b1]; from_be_digits 8 [b2; b3]; from_be_digits 8 [b4; b5];
    from_be_digits 8 [b6; b7]; from_be_digits 8 [b8; b9]; from_be_digits 8 [b10; b11];
    from_be_digits 8 [b12; b13]; from_be_digits 8 [b14; b15]] =
  from_be_digits 8 [b0; b1; b2; b3; b4; b5; b6; b7; b8; b9; b10; b11; b12; b13; b14; b15].
Proof.
  unfold from_be_digits. cbn [foldl]. change (2 ^ Z.of_nat 16) with (256 * 256).
  change (2 ^ Z.of_nat 8) with 256. ring.
Qed.

Lemma ipv6_addr_at_bytes pre bs post n :
  n = length pre → length bs = 16%nat →
  ipv6_addr_at (pre ++ bs ++ post) n =
    Ret (match to_ipv4 (from_be_digits 8 bs) with
         | Some a => IpV4 a
         | None => IpV6 (from_be_digits 8 bs)
         end).
Proof.
  intros -> Hl. do 16 (destruct bs as [|? bs]; [done|]). destruct bs; [|done].
  unfold ipv6_addr_at.
  assert (∀ k a b l1 l2, length l1 = k →
    u16_at (pre ++ (l1 ++ [a; b] ++ l2) ++ post) (length pre + k) = Ret (from_be_digits 8 [a; b])) as Hu.
  { intros k a b l1 l2 Hk. rewrite <- !app_assoc. rewrite app_assoc.
    apply u16_at_bytes. rewrite length_app. lia. }
  pose proof (Hu 0%nat z z0 [] [z1; z2; z3; z4; z5; z6; z7; z8; z9; z10; z11; z12; z13; z14] eq_refl) as H0.
  pose proof (Hu 2%nat z1 z2 [z; z0] [z3; z4; z5; z6; z7; z8; z9; z10; z11; z12; z13; z14] eq_refl) as H1.
  pose proof (Hu 4%nat z3 z4 [z; z0; z1; z2] [z5; z6; z7; z8; z9; z10; z11; z12; z13; z14] eq_refl) as H2.
  pose proof (Hu 6%nat z5 z6 [z; z0; z1; z2; z3; z4] [z7; z8; z9; z10; z11; z12; z13; z14] eq_refl) as H3.
  pose proof (Hu 8%nat z7 z8 [z; z0; z1; z2; z3; z4; z5; z6] [z9; z10; z11; z12; z13; z14] eq_refl) as H4.
  pose proof (Hu 10%nat z9 z10 [z; z0; z1; z2; z3; z4; z5; z6; z7; z8] [z11; z12; z13; z14] eq_refl) as H5.
  pose proof (Hu 12%nat z11 z12 [z; z0; z1; z2; z3; z4; z5; z6; z7; z8; z9; z10] [z13; z14] eq_refl) as H6.
  pose proof (Hu 14%nat z13 z14 [z; z0; z1; z2; z3; z4; z5; z6; z7; z8; z9; z10; z11; z12] [] eq_refl) as H7.
  rewrite Nat.add_0_r in H0. cbn [app] in H0, H1, H2, H3, H4, H5, H6, H7 |- *.
  rewrite H0, H1, H2, H3, H4, H5, H6, H7.
  cbn [mbind run_bind]. by rewrite segments_of_bytes.
Qed.

Lemma ipv6_addr_at_ip pre ip post n :
  n = length pre → ip_canonical ip = true → ipv6_addr_at (pre ++ ip_bytes ip ++ post) n = Ret ip.
Proof.
  intros Hn Hc. rewrite ipv6_addr_at_bytes by (done || apply length_be_digits). unfold ip_bytes, ip_canonical in *.
  destruct ip as [a|a]; b2p.
  - assert (0 ≤ to_ipv6_mapped a < 2 ^ Z.of_nat (8 * 16)) as Hr
      by (unfold to_ipv6_mapped; change (2 ^ Z.of_nat (8 * 16)) with (2 ^ 128); lia).
    rewrite from_be_digits_be_digits by done. unfold to_ipv4, to_ipv6_mapped.
    destruct (Z.ltb_spec (0xFFFF * 2 ^ 32 + a) (2 ^ 32)); [lia|].
    rewrite Z.add_comm, Z.div_add, Z.div_small, Z_mod_plus_full, Z.mod_small by lia. done.
  - rewrite from_be_digits_be_digits by done. by destruct (to_ipv4 a).
Qed.

Lemma ipv6_addr_into_at pre mid post n ip :
  n = length pre → length mid = 16%nat →
  ipv6_addr_into (pre ++ mid ++ post) n ip = Ret (pre ++ ip_bytes ip ++ post).
Proof.
  intros Hn Hm. unfold ipv6_addr_into. apply put_slice_at; [done|]. unfold ip_bytes. by rewrite length_be_digits.
Qed.

(** *** Reads inside the buffer return *)

Lemma get_total {A} (buf : list A) n : (n < length buf)%nat → ∃ x, buf !! n = Some x ∧ get buf n = Ret x.
Proof.
  intros Hn. destruct (lookup_lt_is_Some_2 buf n Hn) as [x Hx]. exists x. unfold get. by rewrite Hx.
Qed.

Lemma u16_at_total buf n : (n + 2 ≤ length buf)%nat → ∃ v, u16_at buf n = Ret v.
Proof.
  intros Hn. unfold u16_at. destruct (get_total buf n) as (a & _ & ->); [lia|].
  destruct (get_total buf (n + 1)) as (b & _ & ->); [lia|]. by eexists.
Qed.

Lemma u32_at_total buf n : (n + 4 ≤ length buf)%nat → ∃ v, u32_at buf n = Ret v.
Proof.
  intros Hn. unfold u32_at. destruct (get_total buf n) as (a & _ & ->); [lia|].
  destruct (get_total buf (n + 1)) as (b & _ & ->); [lia|].
  destruct (get_total buf (n + 2)) as (c & _ & ->); [lia|].
  destruct (get_total buf (n + 3)) as (d & _ & ->); [lia|]. by eexists.
Qed.

Lemma ipv6_addr_at_total buf n : (n + 16 ≤ length buf)%nat → ∃ ip, ipv6_addr_at buf n = Ret ip.
Proof.
  intros Hn. destruct (cut_off buf n) as (pre & r & -> & Hp & Hr); [lia|].
  destruct (cut_off r 16) as (bs & post & -> & Hb & _); [lens|].
  rewrite ipv6_addr_at_bytes by done. by eexists.
Qed.

(** *** The byte that holds direction and opcode *)

Lemma op_byte d x :
  0 ≤ x < 128 →
  direction_from (Z.lor (direction_code d) x) = d ∧ Z.land (Z.lor (direction_code d) x) 0x7F = x.
Proof.
  intros Hx. assert (x ∈ seqZ 0 128) as Hin by (apply elem_of_seqZ; lia).
  assert (forallb (λ x, forallb (λ d, bool_decide (direction_from (Z.lor (direction_code d) x) = d)
    && (Z.land (Z.lor (direction_code d) x) 0x7F =? x)) [Request; Response]) (seqZ 0 128) = true) as Hall
    by (vm_compute; reflexivity).
  rewrite forallb_forall in Hall. apply list_elem_of_In in Hin. specialize (Hall x Hin).
  rewrite forallb_forall in Hall. specialize (Hall d).
  assert (List.In d [Request; Response]) as Hd by (destruct d; simpl; auto).
  apply Hall in Hd. b2p. by apply bool_decide_eq_true in H.
Qed.

Lemma land_7F x : 0 ≤ x < 128 → Z.land x 0x7F = x.
Proof.
  intros. change 0x7F with (2 ^ Z.of_nat 7 - 1). rewrite land_ones_mod. by apply Z.mod_small.
Qed.

End Wire.

Module Pcp.
Import Stream Wire.
Local Open Scope Z_scope.
Local Open Scope rust_scope.

(** ** [map_packet.rs] *)

Inductive Protocol := Udp | Tcp | OtherProtocol (x : Z).

Definition protocol_from (input : Z) : Protocol :=
  if input =? 6 then Tcp else if input =? 17 then Udp else OtherProtocol input.

Definition protocol_code (p : Protocol) : Z :=
  match p with Tcp => 6 | Udp => 17 | OtherProtocol x => x end.

Record MapOpcodeData := MkMap {
  mapping_nonce : list Z;
  protocol : Protocol;
  internal_port : Z;
  external_port : Z;
  external_ip_address : IpAddr
}.

Definition map_len : nat := 36.

Definition map_marshal (d : MapOpcodeData) (buf : list Z) : run (result MarshalError (list Z)) :=
  if (length buf <? map_len)%nat then Ret (Err (MarshalShortBuffer map_len (length buf)))
  else
    buf ← put_slice buf 0 (mapping_nonce d);
    buf ← put buf 12 (protocol_code (protocol d));
    buf ← put buf 13 0x00;
    buf ← put buf 14 0x00;
    buf ← put buf 15 0x00;
    buf ← u16_into buf 16 (internal_port d);
    buf ← u16_into buf 18 (external_port d);
    buf ← ipv6_addr_into buf 20 (external_ip_address d);
    Ret (Ok buf).

Definition map_try_from (buffer : list Z) : run (result ParseError MapOpcodeData) :=
  if (length buffer <? map_len)%nat then Ret (Err (ShortBuffer map_len (length buffer)))
  else
    nonce ← slice buffer 0 12;
    p ← get buffer 12;
    ip ← u16_at buffer 16;
    ep ← u16_at buffer 18;
    addr ← ipv6_addr_at buffer 20;
    Ret (Ok (MkMap nonce (protocol_from p) ip ep addr)).

(** ** [pcp_packet.rs] *)

Inductive Opcode := Announce | Map | Peer | OtherOpcode (x : Z).

Definition opcode_from (input : Z) : Opcode :=
  let x := Z.land input 0x7F in
  if x =? 0 then Announce else if x =? 1 then Map else if x =? 2 then Peer else OtherOpcode x.

Definition opcode_code (o : Opcode) : Z :=
  match o with Announce => 0 | Map => 1 | Peer => 2 | OtherOpcode code => Z.land code 0x7F end.

Inductive ResultCode :=
| Success | UnsuppVersion | NotAuthorized | MalformedRequest | UnsuppOpcode | UnsuppOption
| MalformedOption | NetworkFailure | NoResources | UnsuppProtocol | UserExQuota
| CannotProvideExternal | AddressMismatch | ExcessiveRemotePeers | OtherResult (code : Z).

Definition result_code_from (input : Z) : ResultCode :=
  match input with
  | 0 => Success | 1 => UnsuppVersion | 2 => NotAuthorized | 3 => MalformedRequest
  | 4 => UnsuppOpcode | 5 => UnsuppOption | 6 => MalformedOption | 7 => NetworkFailure
  | 8 => NoResources | 9 => UnsuppProtocol | 10 => UserExQuota | 11 => CannotProvideExternal
  | 12 => AddressMismatch | 13 => ExcessiveRemotePeers | code => OtherResult code
  end.

Definition result_code_code (r : ResultCode) : Z :=
  match r with
  | Success => 0 | UnsuppVersion => 1 | NotAuthorized => 2 | MalformedRequest => 3
  | UnsuppOpcode => 4 | UnsuppOption => 5 | MalformedOption => 6 | NetworkFailure => 7
  | NoResources => 8 | UnsuppProtocol => 9 | UserExQuota => 10 | CannotProvideExternal => 11
  | AddressMismatch => 12 | ExcessiveRemotePeers => 13 | OtherResult code => code
  end.

Definition is_permanent (r : ResultCode) : bool :=
  match r with
  | Success | NetworkFailure | NoResources | UserExQuota | CannotProvideExternal => false
  | _ => true
  end.

(** [Box<dyn PcpOpcodeData>]. *)
Inductive PcpOpcodeData := UnrecognizedData | MapData (d : MapOpcodeData).

Definition data_len (d : PcpOpcodeData) : nat :=
  match d with UnrecognizedData => 0 | MapData _ => map_len end.

Definition data_marshal (d : PcpOpcodeData) (buf : list Z) : run (result MarshalError (list Z)) :=
  match d with UnrecognizedData => Ret (Ok buf) | MapData d => map_marshal d buf end.

Record PcpPacket := MkPcp {
  direction : Direction;
  opcode : Opcode;
  result_code_opt : option ResultCode;
  lifetime : Z;
  client_ip_opt : option IpAddr;
  epoch_time_opt : option Z;
  opcode_data : PcpOpcodeData
}.

Definition parse_data (o : Opcode) (buf : list Z) : run (result ParseError PcpOpcodeData) :=
  match o with
  | Announce => Ret (Ok UnrecognizedData)
  | Map => d <-? map_try_from buf; Ret (Ok (MapData d))
  | Peer => Ret (Err (UnexpectedOpcode "Peer"))
  | OtherOpcode _ => Ret (Ok UnrecognizedData)
  end.

Definition marshal (p : PcpPacket) (buffer : list Z) : run (result MarshalError (list Z * nat)) :=
  let required_len := (24 + data_len (opcode_data p))%nat in
  if (length buffer <? required_len)%nat
  then Ret (Err (MarshalShortBuffer required_len (length buffer)))
  else
    buffer ← put buffer 0 0x02;
    buffer ← put buffer 1 (Z.lor (direction_code (direction p)) (opcode_code (opcode p)));
    buffer ← put buffer 2 0x00;
    buffer ← match direction p with
             | Request => put buffer 3 0x00
             | Response => put buffer 3 (result_code_code (default (OtherResult 0xFF) (result_code_opt p)))
             end;
    buffer ← u32_into buffer 4 (lifetime p);
    buffer ← match direction p with
             | Request =>
                 match client_ip_opt p with
                 | Some ip_addr => ipv6_addr_into buffer 8 ip_addr
                 | None =>
                     buffer ← u32_into buffer 8 0;
                     buffer ← u32_into buffer 12 0;
                     buffer ← u32_into buffer 16 0;
                     u32_into buffer 20 0
                 end
             | Response =>
                 buffer ← u32_into buffer 8 (default 0 (epoch_time_opt p));
                 buffer ← u32_into buffer 12 0;
                 buffer ← u32_into buffer 16 0;
                 u32_into buffer 20 0
             end;
    '(head, tail) ← split_off buffer 24;
    tail <-? data_marshal (opcode_data p) tail;
    Ret (Ok (head ++ tail, required_len)).

Definition try_from (buffer : list Z) : run (result ParseError PcpPacket) :=
  if (length buffer <? 24)%nat then Ret (Err (ShortBuffer 24 (length buffer)))
  else
    v ← get buffer 0;
    if negb (v =? 0x02) then Ret (Err (WrongVersion v))
    else
      b1 ← get buffer 1;
      let direction := direction_from b1 in
      let opcode := opcode_from b1 in
      lifetime ← u32_at buffer 4;
      '(client_ip_opt, result_code_opt, epoch_time_opt) ←
        match direction with
        | Request => ip ← ipv6_addr_at buffer 8; Ret (Some ip, None, None)
        | Response =>
            rc ← get buffer 3;
            epoch ← u32_at buffer 8;
            Ret (None, Some (result_code_from rc), Some epoch)
        end;
      rest ← slice_from buffer 24;
      d <-? parse_data opcode rest;
      Ret (Ok (MkPcp direction opcode result_code_opt lifetime client_ip_opt epoch_time_opt d)).

(** ** Specification *)

Definition map_bytes (d : MapOpcodeData) : list Z :=
  mapping_nonce d ++ [protocol_code (protocol d); 0; 0; 0]
  ++ be_digits 8 2 (internal_port d) ++ be_digits 8 2 (external_port d)
  ++ ip_bytes (external_ip_address d).

Definition data_bytes (d : PcpOpcodeData) : list Z :=
  match d with UnrecognizedData => [] | MapData d => map_bytes d end.

Definition address_bytes (p : PcpPacket) : list Z :=
  match direction p with
  | Request => match client_ip_opt p with Some ip => ip_bytes ip | None => replicate 16 0 end
  | Response => be_digits 8 4 (default 0 (epoch_time_opt p)) ++ replicate 12 0
  end.

Definition packet_bytes (p : PcpPacket) : list Z :=
  [2; Z.lor (direction_code (direction p)) (opcode_code (opcode p)); 0;
   match direction p with
   | Request => 0
   | Response => result_code_code (default (OtherResult 0xFF) (result_code_opt p))
   end]
  ++ be_digits 8 4 (lifetime p) ++ address_bytes p ++ data_bytes (opcode_data p).

(** A packet whose fields fit the format and that a parser can tell apart. *)
Definition protocol_canonical (p : Protocol) : bool :=
  match p with OtherProtocol x => (0 <=? x) && (x <? 256) && negb (x =? 6) && negb (x =? 17) | _ => true end.

Definition port_ok (n : Z) : bool := (0 <=? n) && (n <? 2 ^ 16).
Definition u32_ok (n : Z) : bool := (0 <=? n) && (n <? 2 ^ 32).

Definition map_canonical (d : MapOpcodeData) : bool :=
  (length (mapping_nonce d) =? 12)%nat && protocol_canonical (protocol d)
  && port_ok (internal_port d) && port_ok (external_port d) && ip_canonical (external_ip_address d).

Definition nonce_ok (d : PcpOpcodeData) : bool :=
  match d with UnrecognizedData => true | MapData d => (length (mapping_nonce d) =? 12)%nat end.

Definition canonical (p : PcpPacket) : bool :=
  u32_ok (lifetime p)
  && match opcode p, opcode_data p with
     | Map, MapData d => map_canonical d
     | Announce, UnrecognizedData => true
     | OtherOpcode x, UnrecognizedData => (3 <=? x) && (x <? 128)
     | _, _ => false
     end
  && match direction p, result_code_opt p, client_ip_opt p, epoch_time_opt p with
     | Request, None, Some ip, None => ip_canonical ip
     | Response, Some rc, None, Some e =>
         u32_ok e && match rc with OtherResult x => (14 <=? x) && (x <? 256) | _ => true end
     | _, _, _, _ => false
     end.

(** ** Lemmas *)

Lemma pcp_map_marshal_spec d buf :
  length (mapping_nonce d) = 12%nat → (36 ≤ length buf)%nat →
  map_marshal d buf = Ret (Ok (map_bytes d ++ drop 36 buf)).
Proof.
  intros Hn Hl. unfold map_marshal, map_len.
  destruct (Nat.ltb_spec (length buf) 36); [lia|].
  assert (drop 36 buf = drop 36 buf) as Htail by done.
  destruct (cut_off buf 12) as (m0 & r0 & -> & H0 & Hr0); [lia|].
  destruct (cut_off r0 4) as (m1 & r1 & -> & H1 & Hr1); [lens|].
  destruct (cut_off r1 2) as (m2 & r2 & -> & H2 & Hr2); [lens|].
  destruct (cut_off r2 2) as (m3 & r3 & -> & H3 & Hr3); [lens|].
  destruct (cut_off r3 16) as (m4 & tail & -> & H4 & Hr4); [lens|].
  assert (drop 36 (m0 ++ m1 ++ m2 ++ m3 ++ m4 ++ tail) = tail) as ->.
  { rewrite !app_assoc. apply drop_app_length'. lens. }
  rewrite (put_slice_first m0) by lia. cbn [mbind run_bind].
  rewrite (put_at (mapping_nonce d) m1 _ 12 0) by lia. cbn [mbind run_bind].
  rewrite (put_at (mapping_nonce d) _ _ 13 1) by (rewrite ?length_insert; lia). cbn [mbind run_bind].
  rewrite (put_at (mapping_nonce d) _ _ 14 2) by (rewrite ?length_insert; lia). cbn [mbind run_bind].
  rewrite (put_at (mapping_nonce d) _ _ 15 3) by (rewrite ?length_insert; lia). cbn [mbind run_bind].
  destruct m1 as [|a [|b [|c [|e [|]]]]]; try done. cbn [insert list_insert].
  set (hd := mapping_nonce d ++ [protocol_code (protocol d); 0; 0; 0]).
  assert (length hd = 16%nat) as Hhd by (unfold hd; rewrite length_app; simpl; lia).
  assert (∀ l, mapping_nonce d ++ [protocol_code (protocol d); 0; 0; 0] ++ l = hd ++ l) as ->
    by (intros; unfold hd; by rewrite <- app_assoc).
  rewrite (u16_into_at hd m2) by lia. cbn [mbind run_bind].
  rewrite (app_assoc hd), (u16_into_at (hd ++ be_digits 8 2 (internal_port d)) m3)
    by (rewrite ?length_app, ?length_be_digits; lia). cbn [mbind run_bind].
  rewrite (app_assoc (hd ++ _)), (ipv6_addr_into_at ((hd ++ _) ++ _) m4)
    by (rewrite ?length_app, ?length_be_digits; lia). cbn [mbind run_bind].
  do 2 f_equal. unfold map_bytes, hd. by rewrite <- !app_assoc.
Qed.

Lemma zero_words : be_digits 8 4 0 ++ be_digits 8 4 0 ++ be_digits 8 4 0 = replicate 12 0.
Proof. reflexivity. Qed.

(** Four words written one after the other. *)
Lemma four_words pre mid post n a b c d :
  n = length pre → length mid = 16%nat →
  (buf ← u32_into (pre ++ mid ++ post) n a;
   buf ← u32_into buf (n + 4) b; buf ← u32_into buf (n + 8) c; u32_into buf (n + 12) d) =
  Ret (pre ++ (be_digits 8 4 a ++ be_digits 8 4 b ++ be_digits 8 4 c ++ be_digits 8 4 d) ++ post).
Proof.
  intros Hn Hm.
  destruct (cut_off mid 4) as (m0 & r0 & -> & H0 & Hr0); [lia|].
  destruct (cut_off r0 4) as (m1 & r1 & -> & H1 & Hr1); [lens|].
  destruct (cut_off r1 4) as (m2 & m3 & -> & H2 & Hr2); [lens|].
  rewrite length_app in Hm. rewrite <- !app_assoc.
  rewrite (u32_into_at pre m0) by done. cbn [mbind run_bind].
  rewrite (app_assoc pre), (u32_into_at (pre ++ _) m1) by (rewrite ?length_app, ?length_be_digits; lia).
  cbn [mbind run_bind].
  rewrite (app_assoc (pre ++ _)), (u32_into_at ((pre ++ _) ++ _) m2)
    by (rewrite ?length_app, ?length_be_digits; lia). cbn [mbind run_bind].
  rewrite (app_assoc ((pre ++ _) ++ _)), (u32_into_at (((pre ++ _) ++ _) ++ _) m3)
    by (rewrite ?length_app, ?length_be_digits in *; lia).
  by rewrite <- !app_assoc.
Qed.

Lemma length_address_bytes p : length (address_bytes p) = 16%nat.
Proof.
  unfold address_bytes. destruct (direction p); [destruct (client_ip_opt p)|].
  - apply length_be_digits.
  - done.
  - by rewrite length_app, length_be_digits.
Qed.

Lemma length_map_bytes d : length (mapping_nonce d) = 12%nat → length (map_bytes d) = 36%nat.
Proof.
  intros Hn. unfold map_bytes. rewrite !length_app, !length_be_digits. unfold ip_bytes.
  rewrite length_be_digits. simpl. lia.
Qed.

Lemma pcp_marshal_spec p buf :
  nonce_ok (opcode_data p) = true →
  marshal p buf =
    Ret (if (length buf <? 24 + data_len (opcode_data p))%nat
         then Err (MarshalShortBuffer (24 + data_len (opcode_data p)) (length buf))
         else Ok (packet_bytes p ++ drop (24 + data_len (opcode_data p)) buf,
                  (24 + data_len (opcode_data p))%nat)).
Proof.
  intros Hn. unfold marshal.
  destruct (Nat.ltb_spec (length buf) (24 + data_len (opcode_data p))) as [|Hl]; [done|].
  destruct (cut_off buf 4) as (m0 & r0 & -> & H0 & Hr0); [lia|].
  destruct m0 as [|x0 [|x1 [|x2 [|x3 [|]]]]]; try done.
  destruct (cut_off r0 4) as (m1 & r1 & -> & H1 & Hr1); [lens|].
  destruct (cut_off r1 16) as (m2 & r2 & -> & H2 & Hr2); [lens|].
  assert (drop (24 + data_len (opcode_data p)) ([x0; x1; x2; x3] ++ m1 ++ m2 ++ r2)
    = drop (data_len (opcode_data p)) r2) as ->.
  { rewrite <- drop_drop. f_equal. rewrite !app_assoc. apply drop_app_length'. lens. }
  rewrite (put_first [_; _; _; _]) by (simpl; lia). cbn [mbind run_bind insert list_insert].
  rewrite (put_first [_; _; _; _]) by (simpl; lia). cbn [mbind run_bind insert list_insert].
  rewrite (put_first [_; _; _; _]) by (simpl; lia). cbn [mbind run_bind insert list_insert].
  set (rc := match direction p with Request => 0
             | Response => result_code_code (default (OtherResult 0xFF) (result_code_opt p)) end).
  set (op := Z.lor (direction_code (direction p)) (opcode_code (opcode p))).
  assert (∀ l, match direction p with
    | Request => put ([2; op; 0; x3] ++ l) 3 0
    | Response => put ([2; op; 0; x3] ++ l) 3 (result_code_code (default (OtherResult 0xFF) (result_code_opt p)))
    end = Ret ([2; op; 0; rc] ++ l)) as -> by (intros; unfold rc; by destruct (direction p)).
  cbn [mbind run_bind]. rewrite (u32_into_at [2; op; 0; rc] m1) by done. cbn [mbind run_bind].
  rewrite app_assoc. set (hd := [2; op; 0; rc] ++ be_digits 8 4 (lifetime p)).
  assert (length hd = 8%nat) as Hhd by (unfold hd; by rewrite length_app, length_be_digits).
  pose proof (four_words hd m2 r2 8) as Hw. change (8 + 4)%nat with 12%nat in Hw.
  change (8 + 8)%nat with 16%nat in Hw. change (8 + 12)%nat with 20%nat in Hw.
  assert ((match direction p with
    | Request => match client_ip_opt p with
        | Some ip_addr => ipv6_addr_into (hd ++ m2 ++ r2) 8 ip_addr
        | None => buffer ← u32_into (hd ++ m2 ++ r2) 8 0; buffer ← u32_into buffer 12 0;
                  buffer ← u32_into buffer 16 0; u32_into buffer 20 0 end
    | Response => buffer ← u32_into (hd ++ m2 ++ r2) 8 (default 0 (epoch_time_opt p));
        buffer ← u32_into buffer 12 0; buffer ← u32_into buffer 16 0; u32_into buffer 20 0
    end) = Ret (hd ++ address_bytes p ++ r2)) as ->.
  { unfold address_bytes. destruct (direction p); [destruct (client_ip_opt p)|].
    - by apply ipv6_addr_into_at.
    - rewrite Hw by done. done.
    - rewrite Hw by done. by rewrite zero_words. }
  cbn [mbind run_bind]. rewrite app_assoc.
  rewrite split_off_app by (rewrite length_app, length_address_bytes; lia). cbn [mbind run_bind].
  assert (data_marshal (opcode_data p) r2 =
    Ret (Ok (data_bytes (opcode_data p) ++ drop (data_len (opcode_data p)) r2))) as ->.
  { destruct (opcode_data p) as [|d]; cbn [data_marshal data_bytes data_len nonce_ok] in *.
    - by rewrite drop_0.
    - apply pcp_map_marshal_spec; [by b2p|]. unfold map_len in Hl. lens. }
  cbn [try_bind]. unfold packet_bytes. fold op rc. do 3 f_equal.
  unfold hd. by rewrite <- !app_assoc.
Qed.

Lemma pcp_map_roundtrip d tail :
  map_canonical d = true → map_try_from (map_bytes d ++ tail) = Ret (Ok d).
Proof.
  intros Hc. unfold map_canonical in Hc. b2p. unfold port_ok in *. b2p.
  unfold map_try_from, map_len. rewrite length_app, length_map_bytes by done.
  destruct (Nat.ltb_spec (36 + length tail) 36); [lia|]. unfold map_bytes. rewrite <- !app_assoc.
  assert (∀ l, slice (mapping_nonce d ++ l) 0 12 = Ret (mapping_nonce d)) as ->
    by (intros; apply (slice_app []); simpl; lia). cbn [mbind run_bind].
  assert (∀ l, get (mapping_nonce d ++ [protocol_code (protocol d); 0; 0; 0] ++ l) 12
    = Ret (protocol_code (protocol d))) as -> by (intros; by apply get_at). cbn [mbind run_bind].
  set (hd := mapping_nonce d ++ [protocol_code (protocol d); 0; 0; 0]).
  assert (length hd = 16%nat) as Hhd by (unfold hd; rewrite length_app; simpl; lia).
  assert (∀ l, mapping_nonce d ++ [protocol_code (protocol d); 0; 0; 0] ++ l = hd ++ l) as ->
    by (intros; unfold hd; by rewrite <- app_assoc).
  clearbody hd. rewrite (u16_at_digits hd _ 16) by (done || lia). cbn [mbind run_bind].
  rewrite (app_assoc hd), u16_at_digits by (rewrite ?length_app, ?length_be_digits; lia). cbn [mbind run_bind].
  rewrite (app_assoc (hd ++ _)), ipv6_addr_at_ip
    by (done || (rewrite ?length_app, ?length_be_digits; lia)). cbn [mbind run_bind].
  destruct d as [n pr ip ep a]. cbn in *. do 2 f_equal. f_equal.
  destruct pr as [| |x]; try done. unfold protocol_canonical in *. b2p. unfold protocol_from.
  simpl. destruct (Z.eqb_spec x 6), (Z.eqb_spec x 17); done || lia.
Qed.

Lemma pcp_opcode_byte d o :
  (∃ x, o = OtherOpcode x ∧ 3 ≤ x < 128) ∨ o = Announce ∨ o = Map →
  direction_from (Z.lor (direction_code d) (opcode_code o)) = d ∧
  opcode_from (Z.lor (direction_code d) (opcode_code o)) = o.
Proof.
  intros [(x & -> & Hx)|[-> | ->]]; [|by destruct d..]. cbn [opcode_code]. rewrite land_7F by lia.
  destruct (op_byte d x) as [-> Hop]; [lia|]. split; [done|]. unfold opcode_from. rewrite Hop.
  destruct (Z.eqb_spec x 0), (Z.eqb_spec x 1), (Z.eqb_spec x 2); done || lia.
Qed.

Lemma pcp_result_code_roundtrip r :
  match r with OtherResult x => 14 ≤ x < 256 | _ => True end → result_code_from (result_code_code r) = r.
Proof.
  destruct r; try done. simpl. intros Hx. unfold result_code_from.
  destruct code as [|c|c]; try lia. by do 4 (destruct c as [c|c|]; try done; try lia).
Qed.

Lemma pcp_try_from_roundtrip p tail :
  canonical p = true → try_from (packet_bytes p ++ tail) = Ret (Ok p).
Proof.
  intros Hc. unfold canonical in Hc. apply andb_true_iff in Hc as [Hc Hdir].
  apply andb_true_iff in Hc as [Hlife Hop]. unfold u32_ok in Hlife. b2p.
  unfold try_from, packet_bytes.
  set (op := Z.lor (direction_code (direction p)) (opcode_code (opcode p))).
  set (rc := match direction p with Request => 0 | Response => _ end).
  assert (direction_from op = direction p ∧ opcode_from op = opcode p) as [Hd1 Ho1].
  { apply pcp_opcode_byte. destruct (opcode p) eqn:E; [by right; left|by right; right|done|].
    left. destruct (opcode_data p); [|done]. b2p. by eexists. }
  rewrite <- !app_assoc. rewrite !length_app, length_be_digits, length_address_bytes. cbn [length].
  destruct (Nat.ltb_spec (4 + (4 + (16 + (length (data_bytes (opcode_data p)) + length tail)))) 24); [lia|].
  change (get ([2; op; 0; rc] ++ ?[l]) 0) with (Ret 2).
  cbn [mbind run_bind negb]. change (2 =? 2) with true. cbn [negb].
  assert (∀ l, get ([2; op; 0; rc] ++ l) 1 = Ret op) as -> by done. cbn [mbind run_bind].
  rewrite Hd1, Ho1. rewrite (u32_at_digits [2; op; 0; rc] _ 4) by (done || lia). cbn [mbind run_bind].
  set (hd := [2; op; 0; rc] ++ be_digits 8 4 (lifetime p)).
  assert (∀ l, [2; op; 0; rc] ++ be_digits 8 4 (lifetime p) ++ l = hd ++ l) as Hhd
    by (intros; unfold hd; by rewrite <- app_assoc).
  assert (length hd = 8%nat) as Hl8 by (unfold hd; by rewrite length_app, length_be_digits).
  assert (∀ l, get (hd ++ l) 3 = Ret rc) as Hget3 by (intros; unfold hd; by rewrite <- app_assoc).
  rewrite Hhd.
  assert (slice_from (hd ++ address_bytes p ++ data_bytes (opcode_data p) ++ tail) 24
    = Ret (data_bytes (opcode_data p) ++ tail)) as Hslice.
  { rewrite slice_from_ok by (rewrite !length_app, length_address_bytes; lia). f_equal.
    rewrite app_assoc. apply drop_app_length'. rewrite length_app, length_address_bytes. lia. }
  assert (parse_data (opcode p) (data_bytes (opcode_data p) ++ tail) = Ret (Ok (opcode_data p))) as Hdata.
  { destruct (opcode p), (opcode_data p); try done. cbn [parse_data data_bytes].
    by rewrite pcp_map_roundtrip. }
  rewrite Hget3, Hslice. unfold rc, address_bytes. clearbody hd.
  destruct p as [dir o rco life ipo epo od].
  cbn [direction opcode result_code_opt lifetime client_ip_opt epoch_time_opt opcode_data] in *.
  destruct dir, rco as [r|], ipo as [ip|], epo as [e|]; try done.
  - rewrite (ipv6_addr_at_ip hd) by done. cbn [mbind run_bind]. by rewrite Hdata.
  - unfold u32_ok in Hdir. b2p. rewrite <- app_assoc, (u32_at_digits hd _ 8) by (done || lia).
    cbn [mbind run_bind default from_option id]. rewrite Hdata. cbn [try_bind].
    rewrite pcp_result_code_roundtrip; [done|].
    destruct r; try done. by b2p.
Qed.

(** ** Any input *)

(** What the parser accepts. *)
Definition accepts (buffer : list Z) : bool :=
  (24 <=? length buffer)%nat &&
  match buffer !! 0%nat, buffer !! 1%nat with
  | Some v, Some b1 =>
      (v =? 2) && match opcode_from b1 with
                  | Peer => false
                  | Map => (60 <=? length buffer)%nat
                  | _ => true
                  end
  | _, _ => false
  end.

Lemma map_try_from_total buf :
  ∃ r, map_try_from buf = Ret r ∧
    match r with
    | Ok _ => (36 ≤ length buf)%nat
    | Err e => e = ShortBuffer 36 (length buf) ∧ (length buf < 36)%nat
    end.
Proof.
  unfold map_try_from, map_len. destruct (Nat.ltb_spec (length buf) 36); [by eexists|].
  unfold slice. destruct (Nat.leb_spec 12 (length buf)); [|lia]. cbn [andb mbind run_bind Nat.leb].
  destruct (get_total buf 12) as (x & _ & ->); [lia|]. cbn [mbind run_bind].
  destruct (u16_at_total buf 16) as (a & ->); [lia|]. cbn [mbind run_bind].
  destruct (u16_at_total buf 18) as (b & ->); [lia|]. cbn [mbind run_bind].
  destruct (ipv6_addr_at_total buf 20) as (c & ->); [lia|]. cbn [mbind run_bind].
  by eexists.
Qed.

Lemma pcp_try_from_total buf :
  ∃ r, try_from buf = Ret r ∧
    match r with
    | Ok _ => accepts buf = true
    | Err (ShortBuffer n k) => accepts buf = false ∧
        ((n = 24 ∧ k = length buf ∧ k < 24) ∨ (n = 36 ∧ k + 24 = length buf ∧ k < 36))%nat
    | Err _ => accepts buf = false
    end.
Proof.
  unfold try_from, accepts. destruct (Nat.ltb_spec (length buf) 24) as [Hs|Hs].
  { eexists. split; [done|]. cbn beta iota. destruct (Nat.leb_spec 24 (length buf)); [lia|]. split; [done|left; lia]. }
  destruct (Nat.leb_spec 24 (length buf)); [|lia]. cbn [andb].
  destruct (get_total buf 0) as (v & -> & ->); [lia|]. cbn [mbind run_bind].
  destruct (get_total buf 1) as (b1 & -> & ->); [lia|].
  destruct (Z.eqb_spec v 2) as [Ev|Ev]; cbn [negb andb]; [|by eexists]. cbn [mbind run_bind].
  destruct (u32_at_total buf 4) as (l & ->); [lia|]. cbn [mbind run_bind].
  destruct (ipv6_addr_at_total buf 8) as (ip & ->); [lia|].
  destruct (get_total buf 3) as (rc & _ & ->); [lia|].
  destruct (u32_at_total buf 8) as (e & ->); [lia|].
  rewrite slice_from_ok by lia.
  assert (∃ r, parse_data (opcode_from b1) (drop 24 buf) = Ret r ∧
    match r with
    | Ok _ => match opcode_from b1 with Peer => false | Map => (60 <=? length buf)%nat | _ => true end = true
    | Err (ShortBuffer n k) =>
        match opcode_from b1 with Peer => false | Map => (60 <=? length buf)%nat | _ => true end = false ∧
        (n = 36 ∧ k + 24 = length buf ∧ k < 36)%nat
    | Err _ => match opcode_from b1 with Peer => false | Map => (60 <=? length buf)%nat | _ => true end = false
    end) as (r & Hr & Hpost).
  { destruct (opcode_from b1); cbn [parse_data]; try by eexists.
    destruct (map_try_from_total (drop 24 buf)) as (r & -> & Hr). rewrite length_drop in Hr.
    destruct r as [d|e']; eexists; (split; [done|]); cbn beta iota.
    - apply Nat.leb_le. lia.
    - destruct Hr as [-> Hr]. split; [apply Nat.leb_gt; lia|]. lia. }
  destruct (direction_from b1); cbn [mbind run_bind]; rewrite Hr;
    (destruct r as [d|[]]; eexists; (split; [done|]);
      [exact Hpost|exact Hpost|split; [apply Hpost|right; apply Hpost]|exact Hpost]).
Qed.

(** ** Properties *)

(** A PCP packet survives the wire.  Marshalling into a buffer that is long
    enough writes exactly the bytes of the format and leaves the rest of the
    buffer alone, a short buffer is reported and never overrun, and parsing the
    result gives the packet back, for every packet whose fields fit: in
    particular every IPv4 address and every IPv6 address that is neither
    IPv4-mapped nor IPv4-compatible. *)
Lemma pcp_packet_roundtrip (p : PcpPacket) (buf : list Z) :
  canonical p = true →
  let n := (24 + data_len (opcode_data p))%nat in
  if (length buf <? n)%nat then marshal p buf = Ret (Err (MarshalShortBuffer n (length buf)))
  else marshal p buf = Ret (Ok (packet_bytes p ++ drop n buf, n)) ∧
       try_from (packet_bytes p ++ drop n buf) = Ret (Ok p).
Proof.
  intros Hc n. assert (nonce_ok (opcode_data p) = true) as Hn.
  { unfold canonical in Hc. apply andb_true_iff in Hc as [[_ Hc]%andb_true_iff _].
    destruct (opcode p), (opcode_data p); try done. unfold map_canonical in Hc. cbn [nonce_ok]. b2p.
    by apply Nat.eqb_eq. }
  rewrite pcp_marshal_spec by done. fold n. destruct (length buf <? n)%nat; [done|].
  split; [done|]. by apply pcp_try_from_roundtrip.
Qed.

Definition demo_map : PcpPacket :=
  MkPcp Response Map (Some UserExQuota) 3600 None (Some 77)
    (MapData (MkMap [1; 2; 3; 4; 5; 6; 7; 8; 9; 10; 11; 12] Tcp 1234 4321 (IpV4 0x01020304))).

(** No datagram crashes the PCP parser.  On any bytes it returns; it
    accepts exactly the datagrams of at least 24 bytes with version 2, an opcode
    other than Peer, and 36 more bytes when the opcode is Map, and a short
    datagram is reported with the length that was missing. *)
Lemma pcp_parse_total (buf : list Z) :
  ∃ r, try_from buf = Ret r ∧
    match r with
    | Ok _ => accepts buf = true
    | Err (ShortBuffer n k) => accepts buf = false ∧
        ((n = 24 ∧ k = length buf ∧ k < 24) ∨ (n = 36 ∧ k + 24 = length buf ∧ k < 36))%nat
    | Err _ => accepts buf = false
    end.
Proof. apply pcp_try_from_total. Qed.

End Pcp.

Module Pmp.
Import Stream Wire.
Local Open Scope Z_scope.
Local Open Scope rust_scope.

(** ** [get_packet.rs] *)

Record GetOpcodeData := MkGet {
  get_epoch_opt : option Z;
  external_ip_address_opt : option Z
}.

Definition get_len (d : Direction) : nat := match d with Request => 0 | Response => 8 end.

Definition get_marshal (g : GetOpcodeData) (d : Direction) (buf : list Z)
    : run (result MarshalError (list Z)) :=
  match d with
  | Request => Ret (Ok buf)
  | Response =>
      if (length buf <? 8)%nat then Ret (Err (MarshalShortBuffer 8 (length buf)))
      else
        buf ← u32_into buf 0 (default 0 (get_epoch_opt g));
        buf ← ipv4_addr_into buf 4 (default 0 (external_ip_address_opt g));
        Ret (Ok buf)
  end.

Definition get_try_from (d : Direction) (buffer : list Z) : run (result ParseError GetOpcodeData) :=
  match d with
  | Request => Ret (Ok (MkGet None None))
  | Response =>
      if (length buffer <? 8)%nat then Ret (Err (ShortBuffer 8 (length buffer)))
      else
        epoch ← u32_at buffer 0;
        a ← get buffer 4;
        b ← get buffer 5;
        c ← get buffer 6;
        e ← get buffer 7;
        Ret (Ok (MkGet (Some epoch) (Some (from_be_digits 8 [a; b; c; e]))))
  end.

(** ** [map_packet.rs] *)

Record MapOpcodeData := MkMap {
  epoch_opt : option Z;
  internal_port : Z;
  external_port : Z;
  lifetime : Z
}.

Definition map_len (d : Direction) : nat := match d with Request => 10 | Response => 12 end.

Definition map_marshal (m : MapOpcodeData) (d : Direction) (buf : list Z)
    : run (result MarshalError (list Z)) :=
  if (length buf <? map_len d)%nat then Ret (Err (MarshalShortBuffer (map_len d) (length buf)))
  else
    '(buf, position) ←
      match d with
      | Request => buf ← u16_into buf 0 0x0000; Ret (buf, 2%nat)
      | Response => buf ← u32_into buf 0 (default 0 (epoch_opt m)); Ret (buf, 4%nat)
      end;
    buf ← u16_into buf position (internal_port m);
    buf ← u16_into buf (position + 2) (external_port m);
    buf ← u32_into buf (position + 4) (lifetime m);
    Ret (Ok buf).

Definition map_try_from (d : Direction) (buffer : list Z) : run (result ParseError MapOpcodeData) :=
  if (length buffer <? map_len d)%nat then Ret (Err (ShortBuffer (map_len d) (length buffer)))
  else
    '(epoch, position) ←
      match d with
      | Request => Ret (None, 2%nat)
      | Response => e ← u32_at buffer 0; Ret (Some e, 4%nat)
      end;
    ip ← u16_at buffer position;
    ep ← u16_at buffer (position + 2);
    l ← u32_at buffer (position + 4);
    Ret (Ok (MkMap epoch ip ep l)).

(** ** [pmp_packet.rs] *)

Inductive Opcode := Get | MapUdp | MapTcp | OtherOpcode (x : Z).

Definition opcode_from (input : Z) : Opcode :=
  let x := Z.land input 0x7F in
  if x =? 0 then Get else if x =? 1 then MapUdp else if x =? 2 then MapTcp else OtherOpcode x.

Definition opcode_code (o : Opcode) : Z :=
  match o with Get => 0 | MapUdp => 1 | MapTcp => 2 | OtherOpcode code => Z.land code 0x7F end.

Inductive ResultCode :=
| Success | UnsupportedVersion | NotAuthorized | NetworkFailure | OutOfResources
| UnsupportedOpcode | OtherResult (code : Z).

Definition result_code_from (input : Z) : ResultCode :=
  match input with
  | 0 => Success | 1 => UnsupportedVersion | 2 => NotAuthorized | 3 => NetworkFailure
  | 4 => OutOfResources | 5 => UnsupportedOpcode | code => OtherResult code
  end.

Definition result_code_code (r : ResultCode) : Z :=
  match r with
  | Success => 0 | UnsupportedVersion => 1 | NotAuthorized => 2 | NetworkFailure => 3
  | OutOfResources => 4 | UnsupportedOpcode => 5 | OtherResult code => code
  end.

Definition is_permanent (r : ResultCode) : bool :=
  match r with Success | NetworkFailure | OutOfResources => false | _ => true end.

(** [Box<dyn PmpOpcodeData>]. *)
Inductive PmpOpcodeData :=
| UnrecognizedData
| GetData (g : GetOpcodeData)
| MapData (m : MapOpcodeData).

Definition data_len (x : PmpOpcodeData) (d : Direction) : nat :=
  match x with UnrecognizedData => 0 | GetData _ => get_len d | MapData _ => map_len d end.

Definition data_marshal (x : PmpOpcodeData) (d : Direction) (buf : list Z)
    : run (result MarshalError (list Z)) :=
  match x with
  | UnrecognizedData => Ret (Ok buf)
  | GetData g => get_marshal g d buf
  | MapData m => map_marshal m d buf
  end.

Record PmpPacket := MkPmp {
  direction : Direction;
  opcode : Opcode;
  result_code_opt : option ResultCode;
  opcode_data : PmpOpcodeData
}.

Definition parse_data (o : Opcode) (d : Direction) (buf : list Z)
    : run (result ParseError PmpOpcodeData) :=
  match o with
  | Get => g <-? get_try_from d buf; Ret (Ok (GetData g))
  | MapUdp | MapTcp => m <-? map_try_from d buf; Ret (Ok (MapData m))
  | OtherOpcode _ => Ret (Ok UnrecognizedData)
  end.

Definition try_from (buffer : list Z) : run (result ParseError PmpPacket) :=
  if (length buffer <? 2)%nat then Ret (Err (ShortBuffer 2 (length buffer)))
  else
    v ← get buffer 0;
    if negb (v =? 0x00) then Ret (Err (WrongVersion v))
    else
      b1 ← get buffer 1;
      let direction := direction_from b1 in
      let opcode := opcode_from b1 in
      '(result_code_opt, position) <-?
        match direction with
        | Request => Ret (Ok (None, 2%nat))
        | Response =>
            if (length buffer <? 4)%nat then Ret (Err (ShortBuffer 4 (length buffer)))
            else rc ← u16_at buffer 2; Ret (Ok (Some (result_code_from rc), 4%nat))
        end;
      rest ← slice_from buffer position;
      d <-? parse_data opcode direction rest;
      Ret (Ok (MkPmp direction opcode result_code_opt d)).

Definition header_len (d : Direction) : nat := match d with Request => 2 | Response => 4 end.

Definition marshal (p : PmpPacket) (buffer : list Z) : run (result MarshalError (list Z * nat)) :=
  let required_len := (header_len (direction p) + data_len (opcode_data p) (direction p))%nat in
  if (length buffer <? required_len)%nat
  then Ret (Err (MarshalShortBuffer required_len (length buffer)))
  else
    buffer ← put buffer 0 0x00;
    buffer ← put buffer 1 (Z.lor (direction_code (direction p)) (opcode_code (opcode p)));
    let result_code := default Success (result_code_opt p) in
    '(buffer, position) ←
      match direction p with
      | Request => Ret (buffer, 2%nat)
      | Response => buffer ← u16_into buffer 2 (result_code_code result_code); Ret (buffer, 4%nat)
      end;
    '(head, tail) ← split_off buffer position;
    tail <-? data_marshal (opcode_data p) (direction p) tail;
    Ret (Ok (head ++ tail, required_len)).

(** ** Specification *)

Definition data_bytes (x : PmpOpcodeData) (d : Direction) : list Z :=
  match x, d with
  | UnrecognizedData, _ | GetData _, Request => []
  | GetData g, Response =>
      be_digits 8 4 (default 0 (get_epoch_opt g)) ++ be_digits 8 4 (default 0 (external_ip_address_opt g))
  | MapData m, _ =>
      match d with Request => be_digits 8 2 0 | Response => be_digits 8 4 (default 0 (epoch_opt m)) end
      ++ be_digits 8 2 (internal_port m) ++ be_digits 8 2 (external_port m) ++ be_digits 8 4 (lifetime m)
  end.

Definition header_bytes (p : PmpPacket) : list Z :=
  [0; Z.lor (direction_code (direction p)) (opcode_code (opcode p))]
  ++ match direction p with
     | Request => []
     | Response => be_digits 8 2 (result_code_code (default Success (result_code_opt p)))
     end.

Definition packet_bytes (p : PmpPacket) : list Z :=
  header_bytes p ++ data_bytes (opcode_data p) (direction p).

Definition port_ok (n : Z) : bool := (0 <=? n) && (n <? 2 ^ 16).
Definition u32_ok (n : Z) : bool := (0 <=? n) && (n <? 2 ^ 32).

Definition opt_ok (d : Direction) (o : option Z) : bool :=
  match d, o with
  | Request, None => true
  | Response, Some n => u32_ok n
  | _, _ => false
  end.

Definition canonical (p : PmpPacket) : bool :=
  match opcode p, opcode_data p with
  | Get, GetData g =>
      opt_ok (direction p) (get_epoch_opt g) && opt_ok (direction p) (external_ip_address_opt g)
  | MapUdp, MapData m | MapTcp, MapData m =>
      opt_ok (direction p) (epoch_opt m) && port_ok (internal_port m) && port_ok (external_port m)
      && u32_ok (lifetime m)
  | OtherOpcode x, UnrecognizedData => (3 <=? x) && (x <? 128)
  | _, _ => false
  end
  && match direction p, result_code_opt p with
     | Request, None => true
     | Response, Some (OtherResult x) => (6 <=? x) && (x <? 2 ^ 16)
     | Response, Some _ => true
     | _, _ => false
     end.

(** ** Lemmas *)

Lemma get_marshal_spec g d buf :
  (get_len d ≤ length buf)%nat →
  get_marshal g d buf = Ret (Ok (data_bytes (GetData g) d ++ drop (get_len d) buf)).
Proof.
  intros Hl. destruct d; cbn [get_marshal get_len data_bytes] in *; [by rewrite drop_0|].
  destruct (Nat.ltb_spec (length buf) 8); [lia|].
  destruct (cut_off buf 4) as (m0 & r0 & -> & H0 & Hr0); [lia|].
  destruct (cut_off r0 4) as (m1 & tail & -> & H1 & Hr1); [lens|].
  rewrite (u32_into_first m0) by done. cbn [mbind run_bind].
  unfold ipv4_addr_into. rewrite put_slice_at by (rewrite ?length_be_digits; done). cbn [mbind run_bind].
  do 2 f_equal. rewrite <- app_assoc. do 2 f_equal. rewrite app_assoc. symmetry.
  apply drop_app_length'. lens.
Qed.

Lemma pmp_map_marshal_spec m d buf :
  (map_len d ≤ length buf)%nat →
  map_marshal m d buf = Ret (Ok (data_bytes (MapData m) d ++ drop (map_len d) buf)).
Proof.
  intros Hl. unfold map_marshal. destruct (Nat.ltb_spec (length buf) (map_len d)); [lia|].
  set (k := match d with Request => 2%nat | Response => 4%nat end).
  set (first := match d with Request => be_digits 8 2 0 | Response => be_digits 8 4 (default 0 (epoch_opt m)) end).
  assert (map_len d = (k + 8)%nat ∧ length first = k) as [Hk Hf]
    by (unfold k, first; destruct d; by rewrite length_be_digits).
  destruct (cut_off buf k) as (m0 & r0 & -> & H0 & Hr0); [lia|].
  destruct (cut_off r0 2) as (m1 & r1 & -> & H1 & Hr1); [lens|].
  destruct (cut_off r1 2) as (m2 & r2 & -> & H2 & Hr2); [lens|].
  destruct (cut_off r2 4) as (m3 & tail & -> & H3 & Hr3); [lens|].
  assert (match d with
    | Request => b ← u16_into (m0 ++ m1 ++ m2 ++ m3 ++ tail) 0 0; Ret (b, 2%nat)
    | Response => b ← u32_into (m0 ++ m1 ++ m2 ++ m3 ++ tail) 0 (default 0 (epoch_opt m)); Ret (b, 4%nat)
    end = Ret (first ++ m1 ++ m2 ++ m3 ++ tail, k)) as ->.
  { unfold k, first in *. destruct d;
      [by rewrite (u16_into_first m0)|by rewrite (u32_into_first m0)]. }
  cbn [mbind run_bind].
  rewrite (u16_into_at first m1) by done. cbn [mbind run_bind].
  rewrite (app_assoc first), (u16_into_at (first ++ _) m2) by (rewrite ?length_app, ?length_be_digits; lia).
  cbn [mbind run_bind].
  rewrite (app_assoc (first ++ _)), (u32_into_at ((first ++ _) ++ _) m3)
    by (rewrite ?length_app, ?length_be_digits; lia). cbn [mbind run_bind].
  assert (drop (map_len d) (m0 ++ m1 ++ m2 ++ m3 ++ tail) = tail) as ->.
  { rewrite !app_assoc. apply drop_app_length'. lens. }
  do 2 f_equal. unfold data_bytes. fold first. by rewrite <- !app_assoc.
Qed.

Lemma length_header_bytes p : length (header_bytes p) = header_len (direction p).
Proof. unfold header_bytes. by destruct (direction p). Qed.

Lemma pmp_marshal_spec p buf :
  marshal p buf =
    let n := (header_len (direction p) + data_len (opcode_data p) (direction p))%nat in
    Ret (if (length buf <? n)%nat then Err (MarshalShortBuffer n (length buf))
         else Ok (packet_bytes p ++ drop n buf, n)).
Proof.
  unfold marshal. simpl.
  set (n := (header_len (direction p) + data_len (opcode_data p) (direction p))%nat).
  destruct (Nat.ltb_spec (length buf) n) as [|Hl]; [done|].
  destruct (cut_off buf (header_len (direction p))) as (m0 & r0 & -> & H0 & Hr0); [lia|].
  assert (drop n (m0 ++ r0) = drop (data_len (opcode_data p) (direction p)) r0) as ->.
  { unfold n. rewrite <- drop_drop. f_equal. by apply drop_app_length'. }
  assert (data_marshal (opcode_data p) (direction p) r0 =
    Ret (Ok (data_bytes (opcode_data p) (direction p) ++ drop (data_len (opcode_data p) (direction p)) r0))) as Hdata.
  { destruct (opcode_data p) eqn:E; cbn [data_marshal data_bytes data_len] in *.
    - by destruct (direction p); rewrite drop_0.
    - apply get_marshal_spec. lia.
    - apply pmp_map_marshal_spec. lia. }
  unfold packet_bytes, header_bytes.
  destruct (direction p) eqn:Ed; cbn [header_len] in *.
  - destruct m0 as [|x0 [|x1 [|]]]; try done.
    rewrite (put_first [x0; x1]) by (simpl; lia). cbn [mbind run_bind insert list_insert].
    rewrite (put_first [0; x1]) by (simpl; lia). cbn [mbind run_bind insert list_insert].
    rewrite split_off_app by done. cbn [mbind run_bind]. rewrite Hdata. done.
  - destruct m0 as [|x0 [|x1 [|x2 [|x3 [|]]]]]; try done.
    rewrite (put_first [x0; x1; x2; x3]) by (simpl; lia). cbn [mbind run_bind insert list_insert].
    rewrite (put_first [0; x1; x2; x3]) by (simpl; lia). cbn [mbind run_bind insert list_insert].
    set (op := Z.lor (direction_code Response) (opcode_code (opcode p))).
    change ([0; op; x2; x3] ++ r0) with ([0; op] ++ [x2; x3] ++ r0).
    rewrite (u16_into_at [0; op] [x2; x3]) by done. cbn [mbind run_bind].
    rewrite app_assoc, split_off_app by (rewrite length_app, length_be_digits; done).
    cbn [mbind run_bind]. rewrite Hdata. cbn [try_bind]. by rewrite <- !app_assoc.
Qed.

Lemma pmp_opcode_byte d o :
  match o with OtherOpcode x => 3 ≤ x < 128 | _ => True end →
  direction_from (Z.lor (direction_code d) (opcode_code o)) = d ∧
  opcode_from (Z.lor (direction_code d) (opcode_code o)) = o.
Proof.
  destruct o as [| | |x]; [by destruct d..|]. intros Hx. cbn [opcode_code]. rewrite land_7F by lia.
  destruct (op_byte d x) as [-> Hop]; [lia|]. split; [done|]. unfold opcode_from. rewrite Hop.
  destruct (Z.eqb_spec x 0), (Z.eqb_spec x 1), (Z.eqb_spec x 2); done || lia.
Qed.

Lemma pmp_result_code_roundtrip r :
  match r with OtherResult x => 6 ≤ x | _ => True end → result_code_from (result_code_code r) = r.
Proof.
  destruct r; try done. simpl. intros Hx. unfold result_code_from.
  destruct code as [|c|c]; try lia. by do 3 (destruct c as [c|c|]; try done; try lia).
Qed.

Lemma four_bytes value :
  0 ≤ value < 2 ^ 32 →
  ∃ a b c e, be_digits 8 4 value = [a; b; c; e] ∧ from_be_digits 8 [a; b; c; e] = value.
Proof.
  intros Hv. pose proof (length_be_digits 8 4 value) as Hl.
  pose proof (from_be_digits_be_digits 8 4 value Hv) as Hd.
  destruct (be_digits 8 4 value) as [|a [|b [|c [|e [|]]]]]; try done. by exists a, b, c, e.
Qed.

Lemma get_roundtrip g d tail :
  opt_ok d (get_epoch_opt g) = true → opt_ok d (external_ip_address_opt g) = true →
  get_try_from d (data_bytes (GetData g) d ++ tail) = Ret (Ok g).
Proof.
  destruct g as [e a]. destruct d, e as [e|], a as [a|]; try done. cbn [opt_ok get_epoch_opt external_ip_address_opt].
  intros He Ha. unfold u32_ok in *. b2p. cbn [get_try_from data_bytes default from_option id get_epoch_opt external_ip_address_opt].
  rewrite !length_app, !length_be_digits. destruct (Nat.ltb_spec (4 + 4 + length tail) 8); [lia|].
  rewrite <- app_assoc, u32_at_first by (done || lia). cbn [mbind run_bind].
  destruct (four_bytes a) as (b0 & b1 & b2 & b3 & -> & Hb); [lia|].
  pose proof (length_be_digits 8 4 e) as Hle.
  assert (∀ k, get (be_digits 8 4 e ++ [b0; b1; b2; b3] ++ tail) (4 + k) = get ([b0; b1; b2; b3] ++ tail) k) as Hget
    by (intros k; rewrite <- Hle at 2; apply get_app_r).
  pose proof (Hget 0%nat) as G0. pose proof (Hget 1%nat) as G1.
  pose proof (Hget 2%nat) as G2. pose proof (Hget 3%nat) as G3.
  cbn [Nat.add] in G0, G1, G2, G3. rewrite G0, G1, G2, G3.
  change (get ([b0; b1; b2; b3] ++ tail) 0) with (Ret b0). change (get ([b0; b1; b2; b3] ++ tail) 1) with (Ret b1).
  change (get ([b0; b1; b2; b3] ++ tail) 2) with (Ret b2). change (get ([b0; b1; b2; b3] ++ tail) 3) with (Ret b3).
  cbn [mbind run_bind]. by rewrite Hb.
Qed.

Lemma pmp_map_roundtrip m d tail :
  opt_ok d (epoch_opt m) = true → port_ok (internal_port m) = true → port_ok (external_port m) = true →
  u32_ok (lifetime m) = true →
  map_try_from d (data_bytes (MapData m) d ++ tail) = Ret (Ok m).
Proof.
  intros He Hi Hx Hl. unfold port_ok, u32_ok in *. b2p. unfold map_try_from, data_bytes.
  set (k := match d with Request => 2%nat | Response => 4%nat end).
  set (first := match d with Request => be_digits 8 2 0 | Response => be_digits 8 4 (default 0 (epoch_opt m)) end).
  assert (map_len d = (k + 8)%nat ∧ length first = k) as [Hk Hf]
    by (unfold k, first; destruct d; by rewrite length_be_digits).
  rewrite !length_app, !length_be_digits, Hk, Hf.
  destruct (Nat.ltb_spec (k + (2 + (2 + 4)) + length tail) (k + 8)); [lia|]. rewrite <- !app_assoc.
  assert (∀ l, match d with
    | Request => Ret (None, 2%nat)
    | Response => e ← u32_at (first ++ l) 0; Ret (Some e, 4%nat)
    end = Ret (epoch_opt m, k)) as ->.
  { intros l. unfold first, k. destruct d, (epoch_opt m) as [e|]; try done. cbn [opt_ok default from_option id] in *.
    unfold u32_ok in He. b2p. by rewrite u32_at_first by (done || lia). }
  cbn [mbind run_bind].
  rewrite (u16_at_digits first _ k) by (done || lia). cbn [mbind run_bind].
  rewrite (app_assoc first), (u16_at_digits (first ++ _) _ (k + 2)) by (rewrite ?length_app, ?length_be_digits; lia).
  cbn [mbind run_bind].
  rewrite (app_assoc (first ++ _)), (u32_at_digits ((first ++ _) ++ _) _ (k + 4))
    by (rewrite ?length_app, ?length_be_digits; lia). cbn [mbind run_bind]. by destruct m.
Qed.

Lemma pmp_try_from_roundtrip p tail :
  canonical p = true → try_from (packet_bytes p ++ tail) = Ret (Ok p).
Proof.
  intros Hc. unfold canonical in Hc. apply andb_true_iff in Hc as [Hop Hdir].
  assert (parse_data (opcode p) (direction p) (data_bytes (opcode_data p) (direction p) ++ tail)
    = Ret (Ok (opcode_data p))) as Hdata.
  { destruct (opcode p), (opcode_data p); try done; b2p; cbn [parse_data];
      rewrite ?get_roundtrip, ?pmp_map_roundtrip by done; done. }
  destruct (pmp_opcode_byte (direction p) (opcode p)) as [Hd1 Ho1].
  { destruct (opcode p); try done. destruct (opcode_data p); try done. by b2p. }
  unfold try_from, packet_bytes, header_bytes.
  set (op := Z.lor (direction_code (direction p)) (opcode_code (opcode p))) in *.
  rewrite <- !app_assoc. rewrite !length_app. cbn [length].
  match goal with |- context [(?n <? 2)%nat] => destruct (Nat.ltb_spec n 2); [lia|] end.
  assert (∀ l, get ([0; op] ++ l) 0 = Ret 0) as -> by done. cbn [mbind run_bind].
  change (0 =? 0) with true. cbn [negb].
  assert (∀ l, get ([0; op] ++ l) 1 = Ret op) as -> by done. cbn [mbind run_bind].
  rewrite Hd1, Ho1. destruct p as [dir o rco od]. cbn [direction opcode result_code_opt opcode_data] in *.
  destruct dir, rco as [r|]; try done; cbn [try_bind].
  - assert (∀ l, slice_from ([0; op] ++ [] ++ l) 2 = Ret l) as -> by done. cbn [mbind run_bind].
    by rewrite Hdata.
  - cbn [default from_option id].
    assert (0 ≤ result_code_code r < 2 ^ 16) as Hr by (destruct r; simpl; b2p; lia).
    match goal with |- context [(?n <? 4)%nat] => destruct (Nat.ltb_spec n 4) as [Hlt|];
      [rewrite length_be_digits in Hlt; lia|] end.
    rewrite (u16_at_digits [0; op] _ 2) by done. cbn [mbind run_bind try_bind].
    assert (∀ l, slice_from ([0; op] ++ be_digits 8 2 (result_code_code r) ++ l) 4 = Ret l) as Hsl.
    { intros l. rewrite app_assoc, slice_from_ok by (rewrite !length_app, length_be_digits; simpl; lia).
      f_equal. }
    rewrite Hsl. cbn [mbind run_bind]. rewrite Hdata. cbn [try_bind].
    rewrite pmp_result_code_roundtrip; [done|]. destruct r; try done. by b2p.
Qed.

(** ** Properties *)

(** A PMP packet survives the wire.  Marshalling any packet into a buffer
    that is long enough writes exactly the bytes of the format and leaves the
    rest alone, a short buffer is reported and never overrun; a packet whose
    fields fit is parsed back from the result. *)
Lemma pmp_packet_roundtrip (p : PmpPacket) (buf : list Z) :
  let n := (header_len (direction p) + data_len (opcode_data p) (direction p))%nat in
  marshal p buf =
    Ret (if (length buf <? n)%nat then Err (MarshalShortBuffer n (length buf))
         else Ok (packet_bytes p ++ drop n buf, n)) ∧
  (canonical p = true → try_from (packet_bytes p ++ drop n buf) = Ret (Ok p)).
Proof. split; [apply pmp_marshal_spec|]. intros. by apply pmp_try_from_roundtrip. Qed.

Definition demo_pmp : PmpPacket :=
  MkPmp Response MapTcp (Some (OtherResult 700)) (MapData (MkMap (Some 5) 80 8080 7200)).

End Pmp.

(** ** Both protocols *)


