(* ===== verification/Dns.v ===== *)
(** * The DNS responder

    Models [node/src/entry_dns/packet_facade.rs] and
    [node/src/entry_dns/processing.rs]: the accessors of a DNS packet in a fixed
    buffer and the answer that sends every name to the local host.

    A string is its bytes ([from_utf8] is the check of the standard library).
    The facade borrows the buffer, so its operations return the changed facade.
    Indexing is checked: a read or write outside the buffer is a panic.  The codes
    of the DNS protocol come from a library and are parameters; the log line is
    left out, but not the reads that prepare it. *)
From S2P Require Import Prelude.
From stdpp Require Import base list.

Module Dns.
Local Open Scope Z_scope.
Local Open Scope rust_scope.

(** ** Strings *)

(** [std::str::from_utf8]: which byte strings are valid. *)
Definition is_cont (b : Z) : bool := (0x80 <=? b) && (b <=? 0xBF).
Fixpoint utf8_valid (fuel : nat) (l : list Z) : bool :=
  match fuel, l with
  | _, [] => true
  | O, _ => false
  | S fuel, a :: l =>
      if a <? 0x80 then utf8_valid fuel l
      else if (0xC2 <=? a) && (a <=? 0xDF) then
        match l with b :: l => is_cont b && utf8_valid fuel l | _ => false end
      else if (0xE0 <=? a) && (a <=? 0xEF) then
        match l with
        | b :: c :: l =>
            (if a =? 0xE0 then (0xA0 <=? b) && (b <=? 0xBF)
             else if a =? 0xED then (0x80 <=? b) && (b <=? 0x9F) else is_cont b)
            && is_cont c && utf8_valid fuel l
        | _ => false
        end
      else if (0xF0 <=? a) && (a <=? 0xF4) then
        match l with
        | b :: c :: d :: l =>
            (if a =? 0xF0 then (0x90 <=? b) && (b <=? 0xBF)
             else if a =? 0xF4 then (0x80 <=? b) && (b <=? 0x8F) else is_cont b)
            && is_cont c && is_cont d && utf8_valid fuel l
        | _ => false
        end
      else false
  end.
Definition from_utf8 (l : list Z) : option (list Z) := if utf8_valid (length l) l then Some l else None.

(** [str::split('.')] *)
Definition DOT : Z := 46.
Fixpoint split_dot (s : list Z) : list (list Z) :=
  match s with
  | [] => [[]]
  | c :: s =>
      if c =? DOT then [] :: split_dot s
      else match split_dot s with part :: parts => (c :: part) :: parts | [] => [[c]] end
  end.

(** ** Bytes of the buffer *)

Definition set_byte (buf : list Z) (i : nat) (b : Z) : run (list Z) :=
  if (i <? length buf)%nat then Ret (<[i := b]> buf) else Panic.

(** An [Option] in a computation that may panic; [None] returns early. *)
Definition opt_bind {A B} (m : run (option A)) (f : A → run (option B)) : run (option B) :=
  match m with
  | Panic => Panic
  | Ret None => Ret None
  | Ret (Some a) => f a
  end.
Notation "x <-! m ; k" := (opt_bind m (λ x, k))
  (at level 20, m at level 100, k at level 200, only parsing) : rust_scope.

Definition u16_from (buf : list Z) (start buflen : nat) : run (option Z) :=
  if (buflen <? start + 2)%nat then Ret None
  else a ← get buf start; b ← get buf (start + 1); Ret (Some (a * 2 ^ 8 + b)).

Definition u16_to (value : Z) (buf : list Z) (start : nat) : run (list Z * bool) :=
  if (length buf <? start + 2)%nat then Ret (buf, false)
  else
    buf ← set_byte buf start (u8 (Z.shiftr value 8));
    buf ← set_byte buf (start + 1) (u8 (Z.land value 0xFF));
    Ret (buf, true).

Definition u32_from (buf : list Z) (start buflen : nat) : run (option Z) :=
  high_word <-! u16_from buf start buflen;
  low_word <-! u16_from buf (start + 2) buflen;
  Ret (Some (Z.lor (u32 (Z.shiftl high_word 16)) low_word)).

(** The results of the two writes are ignored. *)
Definition u32_to (value : Z) (buf : list Z) (start : nat) : run (list Z * bool) :=
  '(buf, _) ← u16_to (u16 (Z.shiftr value 16)) buf start;
  '(buf, _) ← u16_to (u16 (Z.land value 0xFFFF)) buf (start + 2);
  Ret (buf, true).

(** Both loops over a name move on by at least one byte, and a read outside the
    buffer is a panic, so the length of the buffer is enough fuel. *)
Fixpoint find_string_seq_end_loop (fuel : nat) (buf : list Z) (local_offset buflen : nat) : run (option nat) :=
  match fuel with
  | O => Panic
  | S fuel =>
      if (buflen <? local_offset)%nat then Ret None
      else
        len ← get buf local_offset;
        if len =? 0 then Ret (Some (local_offset + 1)%nat)
        else find_string_seq_end_loop fuel buf (local_offset + (Z.to_nat len + 1)) buflen
  end.
Definition find_string_seq_end (buf : list Z) (offset buflen : nat) : run (option nat) :=
  find_string_seq_end_loop (S (S (length buf))) buf offset buflen.

Fixpoint extract_string_seq_loop (fuel : nat) (buf : list Z) (local_offset buflen : nat) (result : list Z)
    : run (option (list Z * nat)) :=
  match fuel with
  | O => Panic
  | S fuel =>
      if (buflen <=? local_offset)%nat then Ret None
      else
        len ← get buf local_offset;
        if len =? 0 then Ret (Some (result, (local_offset + 1)%nat))
        else
          let result := match result with [] => [] | _ => result ++ [DOT] end in
          let end_ := (local_offset + 1 + Z.to_nat len)%nat in
          if (buflen <? end_)%nat then Ret None
          else
            part ← slice buf (local_offset + 1) end_;
            match from_utf8 part with
            | Some s => extract_string_seq_loop fuel buf end_ buflen (result ++ s)
            | None => Ret None
            end
  end.
Definition extract_string_seq (buf : list Z) (offset buflen : nat) : run (option (list Z * nat)) :=
  extract_string_seq_loop (S (S (length buf))) buf offset buflen [].

(** [for i in 0..bytes.len()] *)
Fixpoint write_bytes (buf : list Z) (at_ : nat) (bytes : list Z) : run (list Z) :=
  match bytes with
  | [] => Ret buf
  | b :: bytes => buf ← set_byte buf at_ b; write_bytes buf (S at_) bytes
  end.

Fixpoint add_parts (buf : list Z) (local_offset : nat) (parts : list (list Z)) : run (list Z * option nat) :=
  match parts with
  | [] => Ret (buf, Some local_offset)
  | bytes :: parts =>
      if (length buf <? local_offset + length bytes + 1)%nat then Ret (buf, None)
      else
        buf ← set_byte buf local_offset (u8 (Z.of_nat (length bytes)));
        buf ← write_bytes buf (local_offset + 1) bytes;
        add_parts buf (local_offset + (1 + length bytes)) parts
  end.

Definition add_string_seq (buf : list Z) (offset : nat) (string : list Z) : run (list Z * option nat) :=
  '(buf, o) ← add_parts buf offset (match string with [] => [] | _ => split_dot string end);
  match o with
  | None => Ret (buf, None)
  | Some local_offset =>
      if (length buf <=? local_offset)%nat then Ret (buf, None)
      else buf ← set_byte buf local_offset 0; Ret (buf, Some (local_offset + 1)%nat)
  end.

(** ** Queries and records *)

Record Query := MkQuery { q_name : list Z; qtype : Z; qclass : Z; q_length : nat }.

Definition query_new (buf : list Z) (offset length_ : nat) : run (option Query) :=
  ne <-! extract_string_seq buf offset length_;
  let '(name, name_end) := (ne : list Z * nat) in
  qtype <-! u16_from buf name_end length_;
  qclass <-! u16_from buf (name_end + 2) length_;
  len ← usub (name_end + 4) offset;
  Ret (Some (MkQuery name qtype qclass len)).

Definition query_find_end (buf : list Z) (offset length_ : nat) : run (option nat) :=
  e <-! find_string_seq_end buf offset length_;
  let query_end := (e + 4)%nat in
  Ret (if (length_ <? query_end)%nat then None else Some query_end).

Record ResourceRecord := MkRr {
  r_name : list Z; rtype : Z; rclass : Z; time_to_live : Z; rdata : list Z; r_length : nat
}.

Definition record_new (buf : list Z) (offset buflen : nat) : run (option ResourceRecord) :=
  ne <-! extract_string_seq buf offset buflen;
  let '(name, name_end) := (ne : list Z * nat) in
  rtype <-! u16_from buf name_end buflen;
  rclass <-! u16_from buf (name_end + 2) buflen;
  ttl <-! u32_from buf (name_end + 4) buflen;
  rdata_length <-! u16_from buf (name_end + 8) buflen;
  let rdata_begin := (name_end + 10)%nat in
  let rdata_end := (rdata_begin + Z.to_nat rdata_length)%nat in
  len ← usub rdata_end offset;
  if (buflen <? offset + len)%nat then Ret None
  else rdata ← slice buf rdata_begin rdata_end; Ret (Some (MkRr name rtype rclass ttl rdata len)).

Definition record_find_end (buf : list Z) (offset length_ : nat) : run (option nat) :=
  name_end <-! find_string_seq_end buf offset length_;
  rdata_length <-! u16_from buf (name_end + 8) length_;
  let record_end := (name_end + 10 + Z.to_nat rdata_length)%nat in
  Ret (if (length_ <? record_end)%nat then None else Some record_end).

(** ** The facade *)

Record PacketFacade := MkFacade { buf : list Z; length_ : nat }.

Definition with_buf (self : PacketFacade) (b : list Z) : PacketFacade := MkFacade b (length_ self).

Definition facade_new (b : list Z) (len : nat) : PacketFacade := MkFacade b len.

Definition get_transaction_id (self : PacketFacade) : run (option Z) := u16_from (buf self) 0 (length_ self).
Definition set_transaction_id (self : PacketFacade) (v : Z) : run (PacketFacade * bool) :=
  '(b, ok) ← u16_to v (buf self) 0; Ret (with_buf self b, ok).

(** [req_len_opt]: the byte that is read, if the packet is long enough. *)
Definition flags_byte (self : PacketFacade) (i : nat) : option Z :=
  if (length_ self <? S i)%nat || (length (buf self) <? S i)%nat then None else buf self !! i.

(** The setters: keep [keep] of the byte, or in [bits]. *)
Definition set_flags (self : PacketFacade) (i : nat) (keep bits : Z) : PacketFacade * bool :=
  match buf self !! i with
  | Some b => (with_buf self (<[i := Z.lor (Z.land b keep) bits]> (buf self)), true)
  | None => (self, false)
  end.

Definition is_query (self : PacketFacade) : option bool := (λ b, Z.land b 0x80 =? 0) <$> flags_byte self 2.
Definition set_query (self : PacketFacade) (v : bool) := set_flags self 2 0x7F (if v then 0x00 else 0x80).
Definition get_opcode (self : PacketFacade) : option Z := (λ b, Z.shiftr (Z.land b 0x78) 3) <$> flags_byte self 2.
Definition set_opcode (self : PacketFacade) (v : Z) := set_flags self 2 0x87 (u8 (Z.shiftl v 3)).
Definition is_authoritative_answer (self : PacketFacade) : option bool := (λ b, 0 <? Z.land b 0x04) <$> flags_byte self 2.
Definition set_authoritative_answer (self : PacketFacade) (v : bool) := set_flags self 2 0xFB (if v then 0x04 else 0x00).
Definition is_truncated (self : PacketFacade) : option bool := (λ b, 0 <? Z.land b 0x02) <$> flags_byte self 2.
Definition set_truncated (self : PacketFacade) (v : bool) := set_flags self 2 0xFD (if v then 0x02 else 0x00).
Definition is_recursion_desired (self : PacketFacade) : option bool := (λ b, 0 <? Z.land b 0x01) <$> flags_byte self 2.
Definition set_recursion_desired (self : PacketFacade) (v : bool) := set_flags self 2 0xFE (if v then 0x01 else 0x00).
Definition is_recursion_available (self : PacketFacade) : option bool := (λ b, 0 <? Z.land b 0x80) <$> flags_byte self 3.
Definition set_recursion_available (self : PacketFacade) (v : bool) := set_flags self 3 0x7F (if v then 0x80 else 0x00).
Definition get_z (self : PacketFacade) : option bool := (λ b, 0 <? Z.land b 0x40) <$> flags_byte self 3.
Definition set_z (self : PacketFacade) (v : bool) := set_flags self 3 0xBF (if v then 0x40 else 0x00).
Definition is_authenticated_data (self : PacketFacade) : option bool := (λ b, 0 <? Z.land b 0x20) <$> flags_byte self 3.
Definition set_authenticated_data (self : PacketFacade) (v : bool) := set_flags self 3 0xDF (if v then 0x20 else 0x00).
Definition is_checking_disabled (self : PacketFacade) : option bool := (λ b, 0 <? Z.land b 0x10) <$> flags_byte self 3.
Definition set_checking_disabled (self : PacketFacade) (v : bool) := set_flags self 3 0xEF (if v then 0x10 else 0x00).
Definition get_rcode (self : PacketFacade) : option Z := (λ b, Z.land b 0x0F) <$> flags_byte self 3.
Definition set_rcode (self : PacketFacade) (v : Z) := set_flags self 3 0xF0 (Z.land v 0x0F).

(** [for _i in 0..count] over entries read one after the other. *)
Fixpoint read_all {A} (read : nat → run (option A)) (len : A → nat) (count : nat) (offset : nat) : run (option (list A)) :=
  match count with
  | O => Ret (Some [])
  | S count =>
      a <-! read offset;
      rest <-! read_all read len count (offset + len a);
      Ret (Some (a :: rest))
  end.
Fixpoint skip_all (find_end : nat → run (option nat)) (count : nat) (offset : nat) : run (option nat) :=
  match count with
  | O => Ret (Some offset)
  | S count => offset <-! find_end offset; skip_all find_end count offset
  end.

Definition count_at (self : PacketFacade) (i : nat) : run (option nat) :=
  c <-! u16_from (buf self) i (length_ self); Ret (Some (Z.to_nat c)).

Definition get_queries (self : PacketFacade) : run (option (list Query)) :=
  count <-! count_at self 4;
  read_all (λ o, query_new (buf self) o (length_ self)) q_length count 12.

Definition find_queries_end (self : PacketFacade) : run (option nat) :=
  count <-! count_at self 4;
  skip_all (λ o, query_find_end (buf self) o (length_ self)) count 12.

Definition records_from (self : PacketFacade) (count_index : nat) (start : run (option nat)) : run (option (list ResourceRecord)) :=
  offset <-! start;
  count <-! count_at self count_index;
  read_all (λ o, record_new (buf self) o (length_ self)) r_length count offset.

Definition skip_records (self : PacketFacade) (count_index : nat) (start : run (option nat)) : run (option nat) :=
  count <-! count_at self count_index;
  offset <-! start;
  skip_all (λ o, record_find_end (buf self) o (length_ self)) count offset.

Definition find_answers_end (self : PacketFacade) : run (option nat) := skip_records self 6 (find_queries_end self).
Definition find_authorities_end (self : PacketFacade) : run (option nat) := skip_records self 8 (find_answers_end self).
Definition find_additionals_end (self : PacketFacade) : run (option nat) := skip_records self 10 (find_authorities_end self).
Definition get_answers (self : PacketFacade) : run (option (list ResourceRecord)) := records_from self 6 (find_queries_end self).
Definition get_authorities (self : PacketFacade) : run (option (list ResourceRecord)) := records_from self 8 (find_answers_end self).
Definition get_additionals (self : PacketFacade) : run (option (list ResourceRecord)) := records_from self 10 (find_authorities_end self).

Definition establish_high_water (self : PacketFacade) (candidate : nat) : PacketFacade :=
  MkFacade (buf self) (max (length_ self) candidate).

(** Counting up a section; the sum is checked on [u16]. *)
Definition increment_count (self : PacketFacade) (i : nat) : run (PacketFacade * bool) :=
  c ← u16_from (buf self) i (length_ self);
  match c with
  | None => Ret (self, false)
  | Some c =>
      panic_if (0xFFFF <=? c) ('(b, _) ← u16_to (c + 1) (buf self) i; Ret (with_buf self b, true))
  end.

Definition add_query (self : PacketFacade) (name : list Z) (query_type query_class : Z) : run (PacketFacade * bool) :=
  o ← find_queries_end self;
  match o with
  | None => Ret (self, false)
  | Some offset =>
      '(b, o) ← add_string_seq (buf self) offset name;
      match o with
      | None => Ret (with_buf self b, false)
      | Some offset =>
          '(b, ok) ← u16_to query_type b offset;
          if negb ok then Ret (with_buf self b, false) else
          '(b, ok) ← u16_to query_class b (offset + 2);
          if negb ok then Ret (with_buf self b, false) else
          increment_count (establish_high_water (with_buf self b) (offset + 4)) 4
      end
  end.

Definition write_resource_record (self : PacketFacade) (start : nat) (name : list Z) (resource_type resource_class ttl : Z)
    (rdata : list Z) : run (PacketFacade * option nat) :=
  '(b, o) ← add_string_seq (buf self) start name;
  match o with
  | None => Ret (with_buf self b, None)
  | Some string_end =>
      '(b, ok) ← u16_to resource_type b string_end;
      if negb ok then Ret (with_buf self b, None) else
      '(b, ok) ← u16_to resource_class b (string_end + 2);
      if negb ok then Ret (with_buf self b, None) else
      '(b, ok) ← u32_to ttl b (string_end + 4);
      if negb ok then Ret (with_buf self b, None) else
      '(b, ok) ← u16_to (u16 (Z.of_nat (length rdata))) b (string_end + 8);
      if negb ok then Ret (with_buf self b, None) else
      let rdata_begin := (string_end + 10)%nat in
      let rdata_end := (rdata_begin + length rdata)%nat in
      if (length b <? rdata_end)%nat then Ret (with_buf self b, None)
      else
        b ← write_bytes b rdata_begin rdata;
        len ← usub rdata_end start;
        Ret (establish_high_water (with_buf self b) rdata_end, Some len)
  end.

Definition add_record (self : PacketFacade) (count_index : nat) (section_end : run (option nat)) (name : list Z)
    (resource_type resource_class ttl : Z) (rdata : list Z) : run (PacketFacade * bool) :=
  o ← section_end;
  match o with
  | None => Ret (self, false)
  | Some begin_ =>
      '(self, o) ← write_resource_record self begin_ name resource_type resource_class ttl rdata;
      match o with
      | None => Ret (self, false)
      | Some _ => increment_count self count_index
      end
  end.

Definition add_answer (self : PacketFacade) := add_record self 6 (find_answers_end self).
Definition add_authority (self : PacketFacade) := add_record self 8 (find_authorities_end self).
Definition add_additional (self : PacketFacade) := add_record self 10 (find_additionals_end self).

Definition clear (self : PacketFacade) : run PacketFacade :=
  '(b, _) ← u16_to 0 (buf self) 4;
  '(b, _) ← u16_to 0 b 6;
  '(b, _) ← u16_to 0 b 8;
  '(b, _) ← u16_to 0 b 10;
  Ret (MkFacade b 12).

(** ** [processing.rs] *)

Definition HEADER_BYTES : nat := 12.

Section processing.
(** Codes of the DNS protocol, from the [trust_dns] crate. *)
Context (opcode_query form_err not_imp class_in type_a type_aaaa : Z).

Definition IPV4_LOCALHOST : list Z := [127; 0; 0; 1].
Definition IPV6_LOCALHOST : list Z := replicate 15 0 ++ [1].

Definition make_error (facade : PacketFacade) (response_code : Z) : run (PacketFacade * nat) :=
  let facade := (set_query facade false).1 in
  let facade := (set_authoritative_answer facade false).1 in
  let facade := (set_truncated facade false).1 in
  let facade := (set_recursion_available facade true).1 in
  let facade := (set_authenticated_data facade false).1 in
  let facade := (set_checking_disabled facade false).1 in
  let facade := (set_rcode facade response_code).1 in
  facade ← clear facade;
  Ret (facade, HEADER_BYTES).
Definition make_format_error (facade : PacketFacade) := make_error facade form_err.
Definition make_not_implemented_error (facade : PacketFacade) := make_error facade not_imp.

(** [a && b && ..] of setters: after a failure the rest is not run. *)
Fixpoint set_while (facade : PacketFacade) (setters : list (PacketFacade → PacketFacade * bool)) : PacketFacade * bool :=
  match setters with
  | [] => (facade, true)
  | s :: setters => let '(facade, ok) := s facade in if (ok : bool) then set_while facade setters else (facade, false)
  end.

Fixpoint answer_queries (facade : PacketFacade) (queries : list Query) : run (PacketFacade * nat) :=
  match queries with
  | [] => Ret (facade, length_ facade)
  | query :: queries =>
      if negb (qclass query =? class_in) then make_not_implemented_error facade
      else if qtype query =? type_a then
        '(facade, _) ← add_answer facade (q_name query) (qtype query) class_in 3600 IPV4_LOCALHOST;
        answer_queries facade queries
      else if qtype query =? type_aaaa then
        '(facade, _) ← add_answer facade (q_name query) (qtype query) class_in 3600 IPV6_LOCALHOST;
        answer_queries facade queries
      else make_not_implemented_error facade
  end.

Definition make_response (facade : PacketFacade) : run (PacketFacade * nat) :=
  match get_opcode facade with
  | None => make_format_error facade
  | Some opcode =>
      if negb (opcode =? opcode_query) then make_not_implemented_error facade
      else
        let '(facade, ok) := set_while facade
          [λ f, set_query f false; λ f, set_authoritative_answer f false; λ f, set_truncated f false;
           λ f, set_recursion_available f true; λ f, set_authenticated_data f false; λ f, set_checking_disabled f false] in
        if negb ok then make_format_error facade
        else
          q ← get_queries facade;
          match q with
          | None => make_format_error facade
          | Some queries => answer_queries facade queries
          end
  end.

Definition process (b : list Z) (len : nat) : run (list Z * nat) :=
  let facade := facade_new b len in
  _ ← get_queries facade;
  '(facade, response_size) ← make_response facade;
  _ ← get_answers facade;
  Ret (buf facade, response_size).

End processing.

(** ** Overwriting a part of the buffer *)

Definition splice (l : list Z) (at_ : nat) (bytes : list Z) : list Z :=
  take at_ l ++ bytes ++ drop (at_ + length bytes) l.

Lemma splice_length l a x : (a + length x ≤ length l)%nat → length (splice l a x) = length l.
Proof. intros. unfold splice. rewrite !length_app, length_take, length_drop. lia. Qed.

Lemma splice_nil l a : (a ≤ length l)%nat → splice l a [] = l.
Proof. intros. unfold splice. simpl. rewrite Nat.add_0_r. apply take_drop. Qed.

(** Writes one after the other are one write. *)
Lemma splice_splice l a x y :
  (a + length x ≤ length l)%nat → splice (splice l a x) (a + length x) y = splice l a (x ++ y).
Proof.
  intros Ha. unfold splice at 1 3. rewrite length_app.
  assert (length (take a l) = a) as Hl by (rewrite length_take; lia).
  assert (take (a + length x) (splice l a x) = take a l ++ x) as ->.
  { unfold splice. rewrite app_assoc, take_app_length'; [done|]. rewrite length_app. lia. }
  rewrite <- !(assoc_L (++)). do 3 f_equal.
  unfold splice. rewrite app_assoc, drop_app_ge by (rewrite length_app; lia).
  rewrite length_app, drop_drop. f_equal. lia.
Qed.

Lemma set_byte_splice l i b : (i < length l)%nat → set_byte l i b = Ret (splice l i [b]).
Proof.
  intros Hi. unfold set_byte, splice. rewrite (proj2 (Nat.ltb_lt _ _) Hi). f_equal.
  rewrite insert_take_drop by done. simpl. by rewrite Nat.add_1_r.
Qed.

Lemma write_bytes_splice l i bytes :
  (i + length bytes ≤ length l)%nat → write_bytes l i bytes = Ret (splice l i bytes).
Proof.
  revert l i. induction bytes as [|b bytes IH]; intros l i Hi; simpl in *; [by rewrite splice_nil by lia|].
  rewrite set_byte_splice by lia. cbn [mbind run_bind].
  rewrite IH by (rewrite splice_length; simpl; lia). f_equal.
  rewrite <- (Nat.add_1_r i). exact (splice_splice l i [b] bytes ltac:(simpl; lia)).
Qed.

(** ** Numbers *)

Definition be16 (v : Z) : list Z := [v / 2 ^ 8; v mod 2 ^ 8].

Lemma u16_bytes v : 0 ≤ v < 2 ^ 16 → u8 (Z.shiftr v 8) = v / 2 ^ 8 ∧ u8 (Z.land v 0xFF) = v mod 2 ^ 8.
Proof.
  intros Hv. unfold u8, wrap. rewrite Z.shiftr_div_pow2 by lia. split.
  - apply Z.mod_small. split; [apply Z.div_pos; lia|]. apply Z.div_lt_upper_bound; lia.
  - change 0xFF with (Z.ones 8). rewrite Z.land_ones by lia. apply Z.mod_mod. lia.
Qed.

Lemma u16_to_splice v l s :
  0 ≤ v < 2 ^ 16 → (s + 2 ≤ length l)%nat → u16_to v l s = Ret (splice l s (be16 v), true).
Proof.
  intros Hv Hs. unfold u16_to. rewrite (proj2 (Nat.ltb_ge _ _)) by lia. destruct (u16_bytes v Hv) as [-> ->].
  rewrite set_byte_splice by lia. cbn [mbind run_bind].
  rewrite set_byte_splice by (rewrite splice_length; simpl; lia). cbn [mbind run_bind].
  do 2 f_equal. exact (splice_splice l s [v / 2 ^ 8] [v mod 2 ^ 8] ltac:(simpl; lia)).
Qed.

Definition be32 (v : Z) : list Z := be16 (v / 2 ^ 16) ++ be16 (v mod 2 ^ 16).

Lemma u32_to_splice v l s :
  0 ≤ v < 2 ^ 32 → (s + 4 ≤ length l)%nat → u32_to v l s = Ret (splice l s (be32 v), true).
Proof.
  intros Hv Hs. unfold u32_to.
  assert (0 ≤ v / 2 ^ 16 < 2 ^ 16) as Hh by (split; [apply Z.div_pos; lia|apply Z.div_lt_upper_bound; lia]).
  assert (0 ≤ v mod 2 ^ 16 < 2 ^ 16) as Hl by (apply Z.mod_pos_bound; lia).
  assert (u16 (Z.shiftr v 16) = v / 2 ^ 16) as ->.
  { unfold u16, wrap. rewrite Z.shiftr_div_pow2 by lia. by apply Z.mod_small. }
  assert (u16 (Z.land v 0xFFFF) = v mod 2 ^ 16) as ->.
  { unfold u16, wrap. change 0xFFFF with (Z.ones 16). rewrite Z.land_ones by lia. apply Z.mod_mod. lia. }
  rewrite u16_to_splice by (done || lia). cbn [mbind run_bind].
  rewrite u16_to_splice by (try done; rewrite splice_length; simpl; lia). cbn [mbind run_bind].
  unfold be32. change (s + 2)%nat with (s + length (be16 (v / 2 ^ 16)))%nat.
  by rewrite splice_splice by (simpl; lia).
Qed.

(** Reading what is at an offset. *)
Definition at_offset (l : list Z) (o : nat) (x : list Z) : Prop := ∃ pre post, l = pre ++ x ++ post ∧ length pre = o.

Lemma at_offset_app l o x y : at_offset l o (x ++ y) ↔ at_offset l o x ∧ at_offset l (o + length x) y.
Proof.
  split.
  - intros (pre & post & -> & <-). split.
    + exists pre, (y ++ post). by rewrite <- !(assoc_L (++)).
    + exists (pre ++ x), post. rewrite length_app. by rewrite <- !(assoc_L (++)).
  - intros [(pre & post & -> & <-) (pre' & post' & E & Hl)]. exists pre, post'. split; [|done].
    assert (take (length pre') (pre ++ x ++ post) = pre') as Ht by (by rewrite E, take_app_length).
    rewrite app_assoc, take_app_length' in Ht by (rewrite length_app; lia). subst pre'.
    rewrite E. by rewrite <- !(assoc_L (++)).
Qed.

Lemma at_offset_bound l o x : at_offset l o x → (o + length x ≤ length l)%nat.
Proof. intros (pre & post & -> & <-). rewrite !length_app. lia. Qed.

Lemma at_offset_get l o b x : at_offset l o (b :: x) → get l o = Ret b.
Proof. intros (pre & post & -> & <-). unfold get. by rewrite lookup_app_r, Nat.sub_diag by done. Qed.

Lemma at_offset_tail l o b x : at_offset l o (b :: x) → at_offset l (S o) x.
Proof. intros H. apply (at_offset_app l o [b] x) in H as [_ H]. by rewrite Nat.add_1_r in H. Qed.

Lemma at_offset_slice l o x : at_offset l o x → slice l o (o + length x) = Ret x.
Proof.
  intros (pre & post & -> & <-). unfold slice. rewrite (proj2 (Nat.leb_le _ _)) by lia.
  rewrite (proj2 (Nat.leb_le _ _)) by (rewrite !length_app; lia). simpl.
  rewrite drop_app_length. replace (length pre + length x - length pre)%nat with (length x) by lia.
  by rewrite take_app_length.
Qed.

Lemma u16_from_at l o v n :
  at_offset l o (be16 v) → 0 ≤ v → (o + 2 ≤ n)%nat → u16_from l o n = Ret (Some v).
Proof.
  intros H Hv Hn. unfold u16_from. rewrite (proj2 (Nat.ltb_ge _ _)) by lia.
  rewrite (at_offset_get _ _ _ _ H). cbn [mbind run_bind].
  apply at_offset_tail in H. rewrite Nat.add_1_r, (at_offset_get _ _ _ _ H). cbn [mbind run_bind]. do 2 f_equal.
  rewrite (Z.div_mod v (2 ^ 8)) at 3 by lia. lia.
Qed.

Lemma u32_from_at l o v n :
  at_offset l o (be32 v) → 0 ≤ v < 2 ^ 32 → (o + 4 ≤ n)%nat → u32_from l o n = Ret (Some v).
Proof.
  intros H Hv Hn. apply at_offset_app in H as [H1 H2]. simpl in H2.
  assert (0 ≤ v / 2 ^ 16 < 2 ^ 16) as Hh by (split; [apply Z.div_pos; lia|apply Z.div_lt_upper_bound; lia]).
  assert (0 ≤ v mod 2 ^ 16 < 2 ^ 16) as Hl by (apply Z.mod_pos_bound; lia).
  unfold u32_from. rewrite (u16_from_at _ _ _ _ H1) by lia. cbn [opt_bind].
  rewrite (u16_from_at _ _ _ _ H2) by lia. cbn [opt_bind]. do 2 f_equal.
  unfold u32, wrap. rewrite Z.shiftl_mul_pow2 by lia. rewrite Z.mod_small by lia.
  rewrite Z.lor_comm. change 16 with (Z.of_nat 16). rewrite lor_mul_pow2 by (change (Z.of_nat 16) with 16; lia).
  change (Z.of_nat 16) with 16. rewrite (Z.div_mod v (2 ^ 16)) at 3 by lia. lia.
Qed.


(** ** Names *)

Definition enc_label (l : list Z) : list Z := Z.of_nat (length l) :: l.
Definition enc_name (ls : list (list Z)) : list Z := (ls ≫= enc_label) ++ [0].

Definition label_ok (l : list Z) : Prop :=
  (1 ≤ length l ≤ 255)%nat ∧ (DOT ∉ l) ∧ utf8_valid (length l) l = true.

(** The labels with a dot before each. *)
Definition dotted (ls : list (list Z)) : list Z := ls ≫= (λ l, DOT :: l).
Definition name_of (ls : list (list Z)) : list Z := tail (dotted ls).

Lemma name_of_cons l ls : name_of (l :: ls) = l ++ dotted ls.
Proof. done. Qed.

Lemma find_string_seq_end_at fuel l o ls n :
  at_offset l o (enc_name ls) → (o + length (enc_name ls) ≤ n)%nat → (length (enc_name ls) ≤ fuel)%nat →
  Forall label_ok ls →
  find_string_seq_end_loop fuel l o n = Ret (Some (o + length (enc_name ls))%nat).
Proof.
  intros H Hn Hf Hls. revert fuel o H Hn Hf. induction Hls as [|x ls Hx Hls IH]; intros fuel o H Hn Hf;
    (destruct fuel as [|fuel]; [unfold enc_name in Hf; rewrite ?length_app in Hf; simpl in Hf; lia|]); cbn [find_string_seq_end_loop].
  - rewrite (proj2 (Nat.ltb_ge _ _)) by lia. by rewrite (at_offset_get _ _ _ _ H).
  - rewrite (proj2 (Nat.ltb_ge _ _)) by lia. destruct Hx as ((Hx1 & Hx2) & _).
    assert (enc_name (x :: ls) = enc_label x ++ enc_name ls) as He by (unfold enc_name; by rewrite bind_cons, <- (assoc_L (++))).
    rewrite He in *. rewrite length_app in *. apply at_offset_app in H as [H1 H2].
    rewrite (at_offset_get _ _ _ _ H1). cbn [mbind run_bind].
    rewrite (proj2 (Z.eqb_neq _ _)) by lia. unfold enc_label in *. simpl in H2, Hn, Hf |- *. rewrite Nat2Z.id.
    replace (o + (length x + 1))%nat with (o + S (length x))%nat by lia.
    rewrite IH by (done || lia). do 2 f_equal. lia.
Qed.

Lemma extract_string_seq_at fuel l o ls n result :
  at_offset l o (enc_name ls) → (o + length (enc_name ls) ≤ n)%nat → (length (enc_name ls) ≤ fuel)%nat →
  Forall label_ok ls →
  extract_string_seq_loop fuel l o n result =
    Ret (Some (match result with [] => name_of ls | _ => result ++ dotted ls end, (o + length (enc_name ls))%nat)).
Proof.
  intros H Hn Hf Hls. revert fuel o result H Hn Hf. induction Hls as [|x ls Hx Hls IH]; intros fuel o result H Hn Hf;
    (destruct fuel as [|fuel]; [unfold enc_name in Hf; rewrite ?length_app in Hf; simpl in Hf; lia|]); cbn [extract_string_seq_loop].
  - rewrite (proj2 (Nat.leb_gt _ _)) by (unfold enc_name in Hn; simpl in Hn; lia).
    rewrite (at_offset_get _ _ _ _ H). simpl. do 3 f_equal. destruct result; [done|]. by rewrite app_nil_r.
  - destruct Hx as ((Hx1 & Hx2) & _ & Hu).
    assert (enc_name (x :: ls) = enc_label x ++ enc_name ls) as He by (unfold enc_name; by rewrite bind_cons, <- (assoc_L (++))).
    rewrite He in *. rewrite length_app in *. apply at_offset_app in H as [H1 H2]. unfold enc_label in *.
    simpl in H2, Hn, Hf |- *. rewrite (proj2 (Nat.leb_gt _ _)) by lia.
    rewrite (at_offset_get _ _ _ _ H1). cbn [mbind run_bind]. rewrite (proj2 (Z.eqb_neq _ _)) by lia. rewrite Nat2Z.id.
    rewrite (proj2 (Nat.ltb_ge _ _)) by lia. apply at_offset_tail in H1. rewrite <- Nat.add_1_r in H1.
    rewrite (at_offset_slice _ _ _ H1). cbn [mbind run_bind]. unfold from_utf8. rewrite Hu.
    replace (o + 1 + length x)%nat with (o + S (length x))%nat by lia.
    rewrite IH by (done || lia). do 3 f_equal; [|lia].
    destruct x as [|x0 x]; [simpl in Hx1; lia|]. destruct result as [|r0 r]; [done|].
    simpl. by rewrite <- !(assoc_L (++)).
Qed.

Lemma split_dot_app l s :
  DOT ∉ l → split_dot (l ++ s) = match split_dot s with p :: ps => (l ++ p) :: ps | [] => [l] end.
Proof.
  induction l as [|c l IH]; intros Hl; simpl.
  { destruct s as [|c s]; simpl; [done|]. destruct (c =? DOT); [done|]. by destruct (split_dot s). }
  apply not_elem_of_cons in Hl as [Hc Hl]. rewrite (proj2 (Z.eqb_neq _ _)) by congruence. rewrite IH by done.
  by destruct (split_dot s).
Qed.

Lemma split_dot_dotted ls : Forall label_ok ls → split_dot (dotted ls) = [] :: ls.
Proof.
  induction 1 as [|x ls (_ & Hx & _) Hls IH]; [done|]. unfold dotted. rewrite bind_cons. simpl. fold (dotted ls).
  rewrite split_dot_app by done. rewrite IH. by rewrite app_nil_r.
Qed.

Lemma split_name ls : Forall label_ok ls → match name_of ls with [] => [] | _ => split_dot (name_of ls) end = ls.
Proof.
  intros Hls. destruct Hls as [|x ls Hx Hls]; [done|]. rewrite name_of_cons.
  assert (split_dot (x ++ dotted ls) = x :: ls) as <-.
  { rewrite split_dot_app by apply Hx. rewrite split_dot_dotted by done. by rewrite app_nil_r. }
  destruct Hx as ((Hx1 & _) & _). destruct x; [simpl in Hx1; lia|done].
Qed.

Lemma add_parts_splice l o ls :
  Forall label_ok ls → (o + length (ls ≫= enc_label) ≤ length l)%nat →
  add_parts l o ls = Ret (splice l o (ls ≫= enc_label), Some (o + length (ls ≫= enc_label))%nat).
Proof.
  intros Hls. revert l o. induction Hls as [|x ls ((Hx1 & Hx2) & _) Hls IH]; intros l o Ho; simpl.
  { rewrite splice_nil, Nat.add_0_r by (simpl in Ho; lia). done. }
  rewrite bind_cons, length_app in Ho. simpl in Ho.
  rewrite (proj2 (Nat.ltb_ge _ _)) by lia.
  assert (u8 (Z.of_nat (length x)) = Z.of_nat (length x)) as -> by (unfold u8, wrap; rewrite Z.mod_small; lia).
  rewrite set_byte_splice by lia. cbn [mbind run_bind].
  rewrite write_bytes_splice by (rewrite splice_length; simpl; lia). cbn [mbind run_bind].
  assert (splice (splice l o [Z.of_nat (length x)]) (o + 1) x = splice l o (enc_label x)) as ->
    by (exact (splice_splice l o [Z.of_nat (length x)] x ltac:(simpl; lia))).
  rewrite IH by (rewrite splice_length; simpl; lia). do 2 f_equal.
  - exact (splice_splice l o (enc_label x) (ls ≫= enc_label) ltac:(simpl; lia)).
  - f_equal. change (o + S (length x) + length (ls ≫= enc_label) = o + length (enc_label x ++ (ls ≫= enc_label)))%nat.
    rewrite length_app. simpl. lia.
Qed.

Lemma add_string_seq_splice l o ls :
  Forall label_ok ls → (o + length (enc_name ls) ≤ length l)%nat →
  add_string_seq l o (name_of ls) = Ret (splice l o (enc_name ls), Some (o + length (enc_name ls))%nat).
Proof.
  intros Hls Ho. unfold enc_name in *. rewrite length_app in *. simpl in *. unfold add_string_seq.
  rewrite split_name by done. rewrite add_parts_splice by (done || lia). cbn [mbind run_bind].
  rewrite splice_length by lia. rewrite (proj2 (Nat.leb_gt _ _)) by lia.
  rewrite set_byte_splice by (rewrite splice_length; lia). cbn [mbind run_bind].
  rewrite splice_splice by lia. do 3 f_equal. lia.
Qed.


(** ** Questions and records on the wire *)

Definition u16_ok (v : Z) : Prop := 0 ≤ v < 2 ^ 16.

Record question := MkQuestion { labels : list (list Z); q_ty : Z; q_cl : Z }.
Definition question_ok (q : question) : Prop := Forall label_ok (labels q) ∧ u16_ok (q_ty q) ∧ u16_ok (q_cl q).
Definition enc_question (q : question) : list Z := enc_name (labels q) ++ be16 (q_ty q) ++ be16 (q_cl q).
Definition read_question (q : question) : Query :=
  MkQuery (name_of (labels q)) (q_ty q) (q_cl q) (length (enc_question q)).

Record answer := MkAnswer { question_of : question; ttl_of : Z; data_of : list Z }.
Definition answer_ok (a : answer) : Prop :=
  question_ok (question_of a) ∧ 0 ≤ ttl_of a < 2 ^ 32 ∧ Z.of_nat (length (data_of a)) < 2 ^ 16.
Definition enc_answer (a : answer) : list Z :=
  enc_question (question_of a) ++ be32 (ttl_of a) ++ be16 (Z.of_nat (length (data_of a))) ++ data_of a.
Definition read_answer (a : answer) : ResourceRecord :=
  MkRr (name_of (labels (question_of a))) (q_ty (question_of a)) (q_cl (question_of a)) (ttl_of a) (data_of a)
    (length (enc_answer a)).

Lemma enc_question_length q : length (enc_question q) = (length (enc_name (labels q)) + 4)%nat.
Proof. unfold enc_question. rewrite !length_app. simpl. lia. Qed.

Lemma enc_answer_length a :
  length (enc_answer a) = (length (enc_name (labels (question_of a))) + 14 - 4 + length (data_of a))%nat.
Proof. unfold enc_answer, be32. rewrite !length_app, enc_question_length. simpl. lia. Qed.

Lemma name_fuel l o ls : at_offset l o (enc_name ls) → (length (enc_name ls) ≤ S (S (length l)))%nat.
Proof. intros H%at_offset_bound. lia. Qed.

Lemma query_new_at l o q n :
  question_ok q → at_offset l o (enc_question q) → (o + length (enc_question q) ≤ n)%nat →
  query_new l o n = Ret (Some (read_question q)).
Proof.
  intros (Hl & Ht & Hc) H Hn. rewrite enc_question_length in Hn.
  apply at_offset_app in H as [H1 H]. apply at_offset_app in H as [H2 H3]. simpl in H3.
  unfold query_new, extract_string_seq. rewrite (extract_string_seq_at _ _ _ _ _ _ H1) by (done || lia || by eapply name_fuel).
  cbn [opt_bind]. rewrite (u16_from_at _ _ _ _ H2) by (apply Ht || lia). cbn [opt_bind].
  rewrite (u16_from_at _ _ _ _ H3) by (apply Hc || lia). cbn [opt_bind].
  unfold usub. rewrite (proj2 (Nat.leb_le _ _)) by lia. cbn [mbind run_bind]. unfold read_question.
  rewrite enc_question_length. do 3 f_equal. lia.
Qed.

Lemma query_find_end_at l o q n :
  question_ok q → at_offset l o (enc_question q) → (o + length (enc_question q) ≤ n)%nat →
  query_find_end l o n = Ret (Some (o + length (enc_question q))%nat).
Proof.
  intros (Hl & _) H Hn. rewrite enc_question_length in *. apply at_offset_app in H as [H1 _].
  unfold query_find_end, find_string_seq_end.
  rewrite (find_string_seq_end_at _ _ _ _ _ H1) by (done || lia || by eapply name_fuel).
  cbn [opt_bind]. rewrite (proj2 (Nat.ltb_ge _ _)) by lia. do 2 f_equal. lia.
Qed.

(** The fields of a record after its name. *)
Lemma answer_fields l o a :
  at_offset l o (enc_answer a) →
  let e := (o + length (enc_name (labels (question_of a))))%nat in
  at_offset l o (enc_name (labels (question_of a))) ∧ at_offset l e (be16 (q_ty (question_of a))) ∧
  at_offset l (e + 2) (be16 (q_cl (question_of a))) ∧ at_offset l (e + 4) (be32 (ttl_of a)) ∧
  at_offset l (e + 8) (be16 (Z.of_nat (length (data_of a)))) ∧ at_offset l (e + 10) (data_of a).
Proof.
  intros H e. unfold enc_answer, enc_question in H. rewrite <- !(assoc_L (++)) in H. unfold e. clear e.
  apply at_offset_app in H as [H1 H]. apply at_offset_app in H as [H2 H]. apply at_offset_app in H as [H3 H].
  apply at_offset_app in H as [H4 H]. apply at_offset_app in H as [H5 H]. simpl in *. rewrite <- !Nat.add_assoc in *. done.
Qed.

Lemma record_new_at l o a n :
  answer_ok a → at_offset l o (enc_answer a) → (o + length (enc_answer a) ≤ n)%nat →
  record_new l o n = Ret (Some (read_answer a)).
Proof.
  intros ((Hl & Ht & Hc) & Httl & Hd) H Hn. rewrite enc_answer_length in Hn.
  destruct (answer_fields l o a H) as (H1 & H2 & H3 & H4 & H5 & H6).
  unfold record_new, extract_string_seq. rewrite (extract_string_seq_at _ _ _ _ _ _ H1) by (done || lia || by eapply name_fuel).
  cbn [opt_bind]. rewrite (u16_from_at _ _ _ _ H2) by (apply Ht || lia). cbn [opt_bind].
  rewrite (u16_from_at _ _ _ _ H3) by (apply Hc || lia). cbn [opt_bind].
  rewrite (u32_from_at _ _ _ _ H4) by lia. cbn [opt_bind].
  rewrite (u16_from_at _ _ _ _ H5) by lia. cbn [opt_bind]. rewrite Nat2Z.id.
  unfold usub. rewrite (proj2 (Nat.leb_le _ _)) by lia. cbn [mbind run_bind].
  rewrite (proj2 (Nat.ltb_ge _ _)) by lia. rewrite (at_offset_slice _ _ _ H6). cbn [mbind run_bind].
  unfold read_answer. rewrite enc_answer_length. do 3 f_equal. lia.
Qed.

Lemma record_find_end_at l o a n :
  answer_ok a → at_offset l o (enc_answer a) → (o + length (enc_answer a) ≤ n)%nat →
  record_find_end l o n = Ret (Some (o + length (enc_answer a))%nat).
Proof.
  intros ((Hl & _) & _) H Hn. rewrite enc_answer_length in *.
  destruct (answer_fields l o a H) as (H1 & _ & _ & _ & H5 & _).
  unfold record_find_end, find_string_seq_end.
  rewrite (find_string_seq_end_at _ _ _ _ _ H1) by (done || lia || by eapply name_fuel).
  cbn [opt_bind]. rewrite (u16_from_at _ _ _ _ H5) by lia. cbn [opt_bind]. rewrite Nat2Z.id.
  rewrite (proj2 (Nat.ltb_ge _ _)) by lia. do 2 f_equal. lia.
Qed.

(** Entries one after the other. *)
Section entries.
Context {A B : Type} (enc : A → list Z) (ok : A → Prop) (value : A → B) (len : B → nat).
Context (l : list Z) (n : nat) (read : nat → run (option B)) (find_end : nat → run (option nat)).
Hypothesis Hlen : ∀ a, len (value a) = length (enc a).
Hypothesis Hread : ∀ o a, ok a → at_offset l o (enc a) → (o + length (enc a) ≤ n)%nat → read o = Ret (Some (value a)).
Hypothesis Hfind : ∀ o a, ok a → at_offset l o (enc a) → (o + length (enc a) ≤ n)%nat →
  find_end o = Ret (Some (o + length (enc a))%nat).

Lemma read_all_at xs o :
  Forall ok xs → at_offset l o (xs ≫= enc) → (o + length (xs ≫= enc) ≤ n)%nat →
  read_all read len (length xs) o = Ret (Some (value <$> xs)).
Proof.
  intros Hxs. revert o. induction Hxs as [|x xs Hx Hxs IH]; intros o H Hn; [done|].
  rewrite bind_cons in H, Hn. rewrite length_app in Hn. apply at_offset_app in H as [H1 H2]. simpl.
  rewrite (Hread o x) by (done || lia). cbn [opt_bind]. rewrite Hlen, IH by (done || lia). done.
Qed.

Lemma skip_all_at xs o :
  Forall ok xs → at_offset l o (xs ≫= enc) → (o + length (xs ≫= enc) ≤ n)%nat →
  skip_all find_end (length xs) o = Ret (Some (o + length (xs ≫= enc))%nat).
Proof.
  intros Hxs. revert o. induction Hxs as [|x xs Hx Hxs IH]; intros o H Hn; [by rewrite Nat.add_0_r|].
  rewrite bind_cons in *. rewrite length_app in *. apply at_offset_app in H as [H1 H2]. simpl.
  rewrite (Hfind o x) by (done || lia). cbn [opt_bind]. rewrite IH by (done || lia). do 2 f_equal. lia.
Qed.
End entries.


(** ** Packets *)

Record packet := MkPacket {
  id0 : Z; id1 : Z; flags2 : Z; flags3 : Z;
  questions : list question;
  answers : list answer;
  spare : list Z
}.

Definition header (p : packet) : list Z :=
  [id0 p; id1 p; flags2 p; flags3 p] ++ be16 (Z.of_nat (length (questions p))) ++ be16 (Z.of_nat (length (answers p)))
  ++ be16 0 ++ be16 0.
Definition body (p : packet) : list Z := (questions p ≫= enc_question) ++ (answers p ≫= enc_answer).
Definition facade_of (p : packet) : PacketFacade := MkFacade (header p ++ body p ++ spare p) (12 + length (body p)).

Definition packet_ok (p : packet) : Prop :=
  Forall question_ok (questions p) ∧ Forall answer_ok (answers p) ∧
  Z.of_nat (length (questions p)) < 2 ^ 16 ∧ Z.of_nat (length (answers p)) < 2 ^ 16.

Lemma packet_counts p :
  packet_ok p →
  count_at (facade_of p) 4 = Ret (Some (length (questions p))) ∧ count_at (facade_of p) 6 = Ret (Some (length (answers p))).
Proof.
  intros (_ & _ & Hq & Ha). unfold count_at. split.
  - rewrite (u16_from_at _ _ (Z.of_nat (length (questions p)))); [by cbn [opt_bind]; rewrite Nat2Z.id| |lia|simpl; lia].
    by eexists [id0 p; id1 p; flags2 p; flags3 p], _.
  - rewrite (u16_from_at _ _ (Z.of_nat (length (answers p)))); [by cbn [opt_bind]; rewrite Nat2Z.id| |lia|simpl; lia].
    by eexists ([id0 p; id1 p; flags2 p; flags3 p] ++ be16 _), _.
Qed.

Lemma packet_sections p :
  at_offset (buf (facade_of p)) 12 (questions p ≫= enc_question) ∧
  at_offset (buf (facade_of p)) (12 + length (questions p ≫= enc_question)) (answers p ≫= enc_answer).
Proof. apply at_offset_app. by exists (header p), (spare p). Qed.

Lemma get_queries_packet p : packet_ok p → get_queries (facade_of p) = Ret (Some (read_question <$> questions p)).
Proof.
  intros Hp. destruct (packet_counts p Hp) as [Hc _]. destruct (packet_sections p) as [Hs _].
  unfold get_queries. rewrite Hc. cbn [opt_bind].
  apply (read_all_at enc_question question_ok read_question q_length (buf (facade_of p)) (length_ (facade_of p)));
    [done|by intros; apply query_new_at|apply Hp|done|]. simpl. unfold body. rewrite length_app. lia.
Qed.

Lemma find_queries_end_packet p :
  packet_ok p → find_queries_end (facade_of p) = Ret (Some (12 + length (questions p ≫= enc_question))%nat).
Proof.
  intros Hp. destruct (packet_counts p Hp) as [Hc _]. destruct (packet_sections p) as [Hs _].
  unfold find_queries_end. rewrite Hc. cbn [opt_bind].
  apply (skip_all_at enc_question question_ok (buf (facade_of p)) (length_ (facade_of p)));
    [by intros; apply query_find_end_at|apply Hp|done|]. simpl. unfold body. rewrite length_app. lia.
Qed.

Lemma get_answers_packet p : packet_ok p → get_answers (facade_of p) = Ret (Some (read_answer <$> answers p)).
Proof.
  intros Hp. destruct (packet_counts p Hp) as [_ Hc]. destruct (packet_sections p) as [_ Hs].
  unfold get_answers, records_from. rewrite find_queries_end_packet by done. cbn [opt_bind]. rewrite Hc. cbn [opt_bind].
  apply (read_all_at enc_answer answer_ok read_answer r_length (buf (facade_of p)) (length_ (facade_of p)));
    [done|by intros; apply record_new_at|apply Hp|done|]. simpl. unfold body. rewrite length_app. lia.
Qed.

Lemma find_answers_end_packet p : packet_ok p → find_answers_end (facade_of p) = Ret (Some (12 + length (body p))%nat).
Proof.
  intros Hp. destruct (packet_counts p Hp) as [_ Hc]. destruct (packet_sections p) as [_ Hs].
  unfold find_answers_end, skip_records. rewrite Hc. cbn [opt_bind]. rewrite find_queries_end_packet by done. cbn [opt_bind].
  rewrite (skip_all_at enc_answer answer_ok (buf (facade_of p)) (length_ (facade_of p)));
    [|by intros; apply record_find_end_at|apply Hp|done|simpl; unfold body; rewrite length_app; lia].
  do 2 f_equal. unfold body. rewrite length_app. lia.
Qed.

Lemma splice_at l a b x y :
  (a + length x)%nat = b → (b ≤ length l)%nat → splice (splice l a x) b y = splice l a (x ++ y).
Proof. intros <- Hb. by apply splice_splice. Qed.

(** The written prefix is as long as the offsets say. *)
Local Ltac fits := rewrite splice_length by (rewrite ?length_app; simpl; lia); lia.

Lemma write_resource_record_splice f o a :
  answer_ok a → (o + length (enc_answer a) ≤ length (buf f))%nat →
  write_resource_record f o (name_of (labels (question_of a))) (q_ty (question_of a)) (q_cl (question_of a)) (ttl_of a) (data_of a)
  = Ret (MkFacade (splice (buf f) o (enc_answer a)) (max (length_ f) (o + length (enc_answer a))), Some (length (enc_answer a))).
Proof.
  intros ((Hl & Ht & Hc) & Httl & Hd) Ho. rewrite enc_answer_length in Ho.
  unfold write_resource_record. rewrite add_string_seq_splice by (done || lia). cbn [mbind run_bind].
  set (n := length (enc_name (labels (question_of a)))) in *.
  rewrite u16_to_splice by (apply Ht || fits). cbn [mbind run_bind negb].
  rewrite splice_at by (rewrite ?length_app; simpl; lia).
  rewrite u16_to_splice by (apply Hc || fits). cbn [mbind run_bind negb].
  rewrite splice_at by (rewrite ?length_app; simpl; lia).
  rewrite u32_to_splice by (lia || fits). cbn [mbind run_bind negb].
  rewrite splice_at by (rewrite ?length_app; simpl; lia).
  assert (u16 (Z.of_nat (length (data_of a))) = Z.of_nat (length (data_of a))) as -> by (unfold u16, wrap; apply Z.mod_small; lia).
  rewrite u16_to_splice by (lia || fits). cbn [mbind run_bind negb].
  rewrite splice_at by (rewrite ?length_app; simpl; lia). cbv zeta.
  rewrite (proj2 (Nat.ltb_ge _ _)) by fits.
  rewrite write_bytes_splice by fits. cbn [mbind run_bind].
  rewrite splice_at by (rewrite ?length_app; simpl; lia).
  unfold usub. rewrite (proj2 (Nat.leb_le _ _)) by lia. cbn [mbind run_bind].
  unfold establish_high_water, with_buf. simpl. rewrite enc_answer_length. fold n. do 3 f_equal; [|lia|lia].
  unfold enc_answer, enc_question. by rewrite <- !(assoc_L (++)).
Qed.


Lemma splice_app (pre x y post : list Z) (o : nat) :
  length pre = o → length x = length y → splice (pre ++ x ++ post) o y = pre ++ y ++ post.
Proof.
  intros <- Hxy. unfold splice. rewrite take_app_length. do 2 f_equal.
  rewrite app_assoc, drop_app_length'; [done|]. rewrite length_app. lia.
Qed.

Lemma header_length p : length (header p) = 12%nat.
Proof. done. Qed.

Definition with_answer (p : packet) (a : answer) : packet :=
  MkPacket (id0 p) (id1 p) (flags2 p) (flags3 p) (questions p) (answers p ++ [a]) (drop (length (enc_answer a)) (spare p)).

Lemma add_answer_packet p a :
  packet_ok p → answer_ok a → (length (enc_answer a) ≤ length (spare p))%nat → Z.of_nat (length (answers p)) < 2 ^ 16 - 1 →
  add_answer (facade_of p) (name_of (labels (question_of a))) (q_ty (question_of a)) (q_cl (question_of a)) (ttl_of a) (data_of a)
  = Ret (facade_of (with_answer p a), true) ∧ packet_ok (with_answer p a).
Proof.
  intros Hp Ha Hfit Hcount.
  assert (body (with_answer p a) = body p ++ enc_answer a) as Hbody.
  { unfold body. simpl. rewrite bind_app. simpl. rewrite app_nil_r. by rewrite (assoc_L (++)). }
  split.
  2: { destruct Hp as (Hq & Has & Hnq & Hna). split_and!; [done| |done|]; simpl.
       - apply Forall_app. split; [done|]. by apply Forall_singleton.
       - rewrite length_app. simpl. lia. }
  unfold add_answer, add_record. rewrite find_answers_end_packet by done. cbn [mbind run_bind].
  rewrite write_resource_record_splice; [|done|simpl; rewrite !length_app; simpl; lia]. cbn [mbind run_bind].
  assert (splice (buf (facade_of p)) (12 + length (body p)) (enc_answer a)
    = header p ++ body (with_answer p a) ++ spare (with_answer p a)) as ->.
  { change (buf (facade_of p)) with (header p ++ body p ++ spare p). rewrite Hbody.
    change (spare (with_answer p a)) with (drop (length (enc_answer a)) (spare p)).
    rewrite <- (take_drop (length (enc_answer a)) (spare p)) at 1.
    rewrite (assoc_L (++) (header p) (body p)), splice_app.
    - by rewrite <- !(assoc_L (++)).
    - by rewrite length_app, header_length.
    - rewrite length_take. lia. }
  assert (max (length_ (facade_of p)) (12 + length (body p) + length (enc_answer a)) = 12 + length (body (with_answer p a)))%nat as ->.
  { simpl. rewrite Hbody, length_app. lia. }
  unfold increment_count. cbn [buf length_].
  rewrite (u16_from_at _ _ (Z.of_nat (length (answers p)))); [| |lia|lia].
  2: { by eexists ([id0 p; id1 p; flags2 p; flags3 p] ++ be16 _), _. }
  cbn [mbind run_bind]. rewrite (proj2 (Z.leb_gt _ _)) by lia. unfold panic_if.
  rewrite u16_to_splice; [|lia|rewrite length_app, header_length; lia]. cbn [mbind run_bind].
  assert (∀ rest, splice (header p ++ rest) 6 (be16 (Z.of_nat (length (answers p)) + 1)) = header (with_answer p a) ++ rest) as Hh.
  { intros rest. unfold header at 2. simpl answers. simpl questions.
    replace (Z.of_nat (length (answers p ++ [a]))) with (Z.of_nat (length (answers p)) + 1) by (rewrite length_app; simpl; lia).
    exact (splice_app ([id0 p; id1 p; flags2 p; flags3 p] ++ be16 (Z.of_nat (length (questions p))))
             (be16 (Z.of_nat (length (answers p)))) (be16 (Z.of_nat (length (answers p)) + 1)) (be16 0 ++ be16 0 ++ rest) 6
             eq_refl eq_refl). }
  by rewrite Hh.
Qed.


(** ** Responses *)

Definition is_byte (b : Z) : Prop := 0 ≤ b < 256.

(** A response, not authoritative, not truncated; recursion is available, nothing
    is authenticated, checking is not disabled. *)
Definition response2 (b : Z) : Z := Z.lor (Z.land b 0x79) 0x80.
Definition response3 (b : Z) : Z := Z.lor (Z.land b 0x4F) 0x80.
Definition error3 (b code : Z) : Z := Z.lor (Z.land (response3 b) 0xF0) (Z.land code 0x0F).

Lemma response_flags_all :
  forallb (λ b,
    (Z.lor (Z.land (Z.lor (Z.land (Z.lor (Z.land b 0x7F) 0x80) 0xFB) 0) 0xFD) 0 =? response2 b)
    && (Z.lor (Z.land (Z.lor (Z.land (Z.lor (Z.land b 0x7F) 0x80) 0xDF) 0) 0xEF) 0 =? response3 b)
    && (response2 (response2 b) =? response2 b) && (response3 (response3 b) =? response3 b)
    && (0 <=? response2 b) && (response2 b <? 256) && (0 <=? response3 b) && (response3 b <? 256)) (upto 256) = true.
Proof. vm_compute. reflexivity. Qed.

Lemma response_flags b :
  is_byte b →
  Z.lor (Z.land (Z.lor (Z.land (Z.lor (Z.land b 0x7F) 0x80) 0xFB) 0) 0xFD) 0 = response2 b ∧
  Z.lor (Z.land (Z.lor (Z.land (Z.lor (Z.land b 0x7F) 0x80) 0xDF) 0) 0xEF) 0 = response3 b ∧
  response2 (response2 b) = response2 b ∧ response3 (response3 b) = response3 b ∧
  is_byte (response2 b) ∧ is_byte (response3 b).
Proof.
  intros Hb. pose proof (forallb_upto _ _ b response_flags_all Hb) as H. rewrite !andb_true_iff in H.
  rewrite !Z.eqb_eq, !Z.leb_le, !Z.ltb_lt in H. unfold is_byte. intuition.
Qed.

Definition with_flags (p : packet) (f2 f3 : Z) : packet :=
  MkPacket (id0 p) (id1 p) f2 f3 (questions p) (answers p) (spare p).

Lemma set_flags2_packet p keep bits :
  set_flags (facade_of p) 2 keep bits = (facade_of (with_flags p (Z.lor (Z.land (flags2 p) keep) bits) (flags3 p)), true).
Proof. reflexivity. Qed.

Lemma set_flags3_packet p keep bits :
  set_flags (facade_of p) 3 keep bits = (facade_of (with_flags p (flags2 p) (Z.lor (Z.land (flags3 p) keep) bits)), true).
Proof. reflexivity. Qed.

Lemma with_flags_twice p a b c d : with_flags (with_flags p a b) c d = with_flags p c d.
Proof. reflexivity. Qed.

(** An emptied packet: only the header is left. *)
Definition emptied (p : packet) (f2 f3 : Z) : packet :=
  MkPacket (id0 p) (id1 p) f2 f3 [] [] (body p ++ spare p).

Lemma clear_packet p : clear (facade_of p) = Ret (facade_of (emptied p (flags2 p) (flags3 p))).
Proof.
  unfold clear. cbn [buf facade_of].
  do 4 (rewrite u16_to_splice; [|lia|rewrite ?splice_length; simpl; rewrite ?length_app; simpl; lia]; cbn [mbind run_bind]).
  reflexivity.
Qed.

Lemma emptied_ok p f2 f3 : packet_ok (emptied p f2 f3).
Proof. split_and!; by try constructor. Qed.

Lemma make_error_packet p code :
  is_byte (flags2 p) → is_byte (flags3 p) →
  make_error (facade_of p) code =
    Ret (facade_of (emptied p (response2 (flags2 p)) (error3 (flags3 p) code)), HEADER_BYTES).
Proof.
  intros H2 H3. unfold make_error, set_query, set_authoritative_answer, set_truncated, set_recursion_available,
    set_authenticated_data, set_checking_disabled, set_rcode.
  repeat (rewrite ?set_flags2_packet, ?set_flags3_packet; cbn [fst with_flags flags2 flags3]).
  rewrite clear_packet. cbn [mbind run_bind].
  destruct (response_flags _ H2) as (<- & _). unfold error3. destruct (response_flags _ H3) as (_ & <- & _). reflexivity.
Qed.


Section responses.
Context (opcode_query form_err not_imp class_in type_a type_aaaa : Z).

Definition supported (q : question) : bool :=
  (q_cl q =? class_in) && ((q_ty q =? type_a) || (q_ty q =? type_aaaa)).

(** Every name is at the local host, for an hour. *)
Definition local_answer (q : question) : answer :=
  MkAnswer q 3600 (if q_ty q =? type_a then IPV4_LOCALHOST else IPV6_LOCALHOST).

Definition answered (p : packet) (qs : list question) : packet := foldl with_answer p (local_answer <$> qs).

Lemma local_answer_ok q : question_ok q → answer_ok (local_answer q).
Proof. intros Hq. split; [done|]. unfold local_answer. simpl. by destruct (_ =? _). Qed.

Lemma add_local_answer p q :
  packet_ok p → question_ok q → q_cl q = class_in → supported q = true →
  (length (enc_answer (local_answer q)) ≤ length (spare p))%nat → Z.of_nat (length (answers p)) < 2 ^ 16 - 1 →
  ∀ qs, answer_queries not_imp class_in type_a type_aaaa (facade_of p) (read_question q :: qs) =
    answer_queries not_imp class_in type_a type_aaaa (facade_of (with_answer p (local_answer q))) qs ∧
  packet_ok (with_answer p (local_answer q)).
Proof.
  intros Hp Hq Hcl Hs Hfit Hn qs.
  destruct (add_answer_packet p (local_answer q) Hp (local_answer_ok q Hq) Hfit Hn) as [Hadd Hok]. split; [|done].
  cbn [answer_queries]. unfold read_question at 1. cbn [qclass]. rewrite Hcl, Z.eqb_refl. cbn [negb].
  unfold read_question. cbn [qtype q_name]. unfold local_answer in *. cbn [question_of ttl_of data_of] in Hadd. rewrite Hcl in Hadd.
  unfold supported in Hs. rewrite Hcl, Z.eqb_refl in Hs. simpl in Hs.
  destruct (q_ty q =? type_a); [by rewrite Hadd|]. simpl in Hs. rewrite Hs, Hadd. done.
Qed.

Lemma answer_queries_spec qs p :
  packet_ok p → Forall question_ok qs → Z.of_nat (length (answers p)) + Z.of_nat (length qs) < 2 ^ 16 →
  (length ((local_answer <$> qs) ≫= enc_answer) ≤ length (spare p))%nat →
  if forallb supported qs
  then answer_queries not_imp class_in type_a type_aaaa (facade_of p) (read_question <$> qs) =
         Ret (facade_of (answered p qs), length_ (facade_of (answered p qs))) ∧ packet_ok (answered p qs)
  else ∃ qs', answer_queries not_imp class_in type_a type_aaaa (facade_of p) (read_question <$> qs) =
         make_error (facade_of (answered p qs')) not_imp.
Proof.
  intros Hp Hqs. revert p Hp. induction Hqs as [|q qs Hq Hqs IH]; intros p Hp Hn Hfit; [done|].
  rewrite fmap_cons, bind_cons, length_app in Hfit. simpl in Hn. simpl forallb. rewrite fmap_cons.
  destruct (supported q) eqn:Es; simpl andb.
  - assert (q_cl q = class_in) as Hcl by (unfold supported in Es; apply andb_prop in Es as [E _]; by apply Z.eqb_eq).
    destruct (add_local_answer p q Hp Hq Hcl Es ltac:(lia) ltac:(lia) (read_question <$> qs)) as [-> Hok].
    specialize (IH (with_answer p (local_answer q)) Hok). destruct (forallb supported qs).
    + apply IH; simpl; [rewrite length_app; simpl; lia|rewrite length_drop; lia].
    + destruct IH as [qs' Hd]; simpl; [rewrite length_app; simpl; lia|rewrite length_drop; lia|].
      by exists (q :: qs').
  - exists []. simpl. unfold supported in Es. destruct (q_cl q =? class_in); [|done]. simpl in *.
    apply orb_false_iff in Es as [-> ->]. done.
Qed.

Lemma answered_spec p qs :
  id0 (answered p qs) = id0 p ∧ id1 (answered p qs) = id1 p ∧ flags2 (answered p qs) = flags2 p ∧
  flags3 (answered p qs) = flags3 p ∧ questions (answered p qs) = questions p ∧
  answers (answered p qs) = answers p ++ (local_answer <$> qs).
Proof.
  revert p. unfold answered. induction qs as [|q qs IH]; intros p; [by rewrite app_nil_r|].
  destruct (IH (with_answer p (local_answer q))) as (H1 & H2 & H3 & H4 & H5 & H6). rewrite fmap_cons. simpl.
  rewrite H1, H2, H3, H4, H5, H6. simpl. by rewrite <- (assoc_L (++)).
Qed.

Lemma make_response_packet p :
  packet_ok p → is_byte (flags2 p) → is_byte (flags3 p) → Z.shiftr (Z.land (flags2 p) 0x78) 3 = opcode_query →
  make_response opcode_query form_err not_imp class_in type_a type_aaaa (facade_of p) =
    answer_queries not_imp class_in type_a type_aaaa
      (facade_of (with_flags p (response2 (flags2 p)) (response3 (flags3 p)))) (read_question <$> questions p).
Proof.
  intros Hp H2 H3 Hop. unfold make_response.
  assert (get_opcode (facade_of p) = Some (Z.shiftr (Z.land (flags2 p) 0x78) 3)) as -> by done.
  rewrite Hop, Z.eqb_refl. cbn [negb set_while]. unfold set_query, set_authoritative_answer, set_truncated,
    set_recursion_available, set_authenticated_data, set_checking_disabled.
  repeat (rewrite ?set_flags2_packet, ?set_flags3_packet; cbn [fst with_flags flags2 flags3]).
  rewrite !with_flags_twice.
  destruct (response_flags _ H2) as (-> & _). destruct (response_flags _ H3) as (_ & -> & _). cbn [negb].
  rewrite (get_queries_packet (with_flags p (response2 (flags2 p)) (response3 (flags3 p)))) by exact Hp. done.
Qed.

(** C38: the DNS responder answers every question with the local host. A query
    packet that consists of questions only, in a buffer with room for the answers,
    is turned, in place, into the response with the same id: if every question is
    of the class and one of the types supported, with the same questions and one
    answer each, in order, that gives the local host; otherwise with nothing but
    the error. The response reads back, with the same accessors, as exactly these
    questions and answers. *)
Theorem dns_response (p : packet) :
  packet_ok p → answers p = [] → is_byte (flags2 p) → is_byte (flags3 p) →
  Z.shiftr (Z.land (flags2 p) 0x78) 3 = opcode_query →
  (length ((local_answer <$> questions p) ≫= enc_answer) ≤ length (spare p))%nat →
  ∃ p', process opcode_query form_err not_imp class_in type_a type_aaaa (buf (facade_of p)) (length_ (facade_of p))
      = Ret (buf (facade_of p'), length_ (facade_of p')) ∧
    id0 p' = id0 p ∧ id1 p' = id1 p ∧ flags2 p' = response2 (flags2 p) ∧
    (if forallb supported (questions p)
     then questions p' = questions p ∧ answers p' = local_answer <$> questions p ∧ flags3 p' = response3 (flags3 p)
     else questions p' = [] ∧ answers p' = [] ∧ flags3 p' = error3 (flags3 p) not_imp) ∧
    get_queries (facade_of p') = Ret (Some (read_question <$> questions p')) ∧
    get_answers (facade_of p') = Ret (Some (read_answer <$> answers p')).
Proof.
  intros Hp Ha H2 H3 Hop Hfit. unfold process, facade_new.
  change (MkFacade (buf (facade_of p)) (length_ (facade_of p))) with (facade_of p).
  rewrite get_queries_packet by done. cbn [mbind run_bind]. rewrite make_response_packet by done.
  set (p1 := with_flags p (response2 (flags2 p)) (response3 (flags3 p))).
  destruct (response_flags _ H2) as (_ & _ & R2 & _ & B2 & _). destruct (response_flags _ H3) as (_ & _ & _ & R3 & _ & B3).
  pose proof (answer_queries_spec (questions p) p1 Hp (proj1 Hp)) as Hq.
  destruct (forallb supported (questions p)).
  - destruct Hq as [Hq Hok]; [simpl; rewrite Ha; simpl; destruct Hp as (_ & _ & ? & _); lia|done|].
    rewrite Hq. cbn [mbind run_bind]. rewrite get_answers_packet by done. cbn [mbind run_bind].
    exists (answered p1 (questions p)). destruct (answered_spec p1 (questions p)) as (E1 & E2 & E3 & E4 & E5 & E6).
    rewrite E1, E2, E3, E4, E5, E6. simpl. rewrite Ha. simpl.
    split_and!; try done; [rewrite get_queries_packet, E5 by done; done|rewrite get_answers_packet, E6 by done; simpl; by rewrite Ha].
  - destruct Hq as [qs' Hq]; [simpl; rewrite Ha; simpl; destruct Hp as (_ & _ & ? & _); lia|done|].
    destruct (answered_spec p1 qs') as (E1 & E2 & E3 & E4 & E5 & E6).
    rewrite Hq, make_error_packet by (by rewrite ?E3, ?E4). cbn [mbind run_bind].
    set (p' := emptied _ _ _). rewrite (get_answers_packet p' (emptied_ok _ _ _)). cbn [mbind run_bind]. exists p'.
    split; [done|]. unfold p'. simpl. rewrite E1, E2, E3, E4. simpl. unfold error3. rewrite R2, R3.
    split_and!; [done..| |].
    + by rewrite get_queries_packet by apply emptied_ok.
    + by rewrite get_answers_packet by apply emptied_ok.
Qed.
End responses.


(** ** A concrete query *)

Definition demo_process := process 0 1 4 1 1 28.

(** [a.bc], both address types, in a buffer with room. *)
Definition demo_packet : packet :=
  MkPacket 0x12 0x34 0x01 0x20 [MkQuestion [[97]; [98; 99]] 1 1; MkQuestion [[97]; [98; 99]] 28 1] [] (replicate 100 7).

Lemma demo_question_ok t : u16_ok t → question_ok (MkQuestion [[97]; [98; 99]] t 1).
Proof.
  intros Ht. split_and!; [|done|unfold u16_ok; simpl; lia].
  apply Forall_cons; split; [|apply Forall_singleton]; (split; [simpl; lia|]); (split; [|reflexivity]);
    apply (bool_decide_unpack _); vm_compute; exact I.
Qed.

Lemma dns_response_witness :
  ∃ p', demo_process (buf (facade_of demo_packet)) (length_ (facade_of demo_packet))
      = Ret (buf (facade_of p'), length_ (facade_of p')) ∧
    data_of <$> answers p' = [[127; 0; 0; 1]; [0; 0; 0; 0; 0; 0; 0; 0; 0; 0; 0; 0; 0; 0; 0; 1]].
Proof.
  destruct (dns_response 0 1 4 1 1 28 demo_packet) as (p' & Hrun & _ & _ & _ & Hres & _).
  - split_and!; [|apply Forall_nil; exact I|vm_compute; reflexivity|vm_compute; reflexivity].
    apply Forall_cons; split; [|apply Forall_singleton]; apply demo_question_ok; unfold u16_ok; lia.
  - reflexivity.
  - unfold is_byte. simpl. lia.
  - unfold is_byte. simpl. lia.
  - reflexivity.
  - vm_compute. lia.
  - exists p'. split; [exact Hrun|]. destruct Hres as (_ & Ha & _). rewrite Ha. reflexivity.
Defined.

(** A request that announces an answer but ends with the buffer stops the
    responder: the search for the end of the answers reads behind the buffer. *)
Example announced_answer_panics :
  demo_process [0x12; 0x34; 0x01; 0x20; 0; 1; 0; 1; 0; 0; 0; 0; 1; 97; 0; 0; 1; 0; 1] 19 = Panic.
Proof. reflexivity. Qed.

(** The most answers a packet can announce cannot be counted up. *)
Example full_count_panics :
  increment_count (MkFacade ([0; 0; 0; 0; 0; 1; 0xFF; 0xFF] ++ replicate 24 0) 32) 6 = Panic.
Proof. reflexivity. Qed.

(** An opcode of five bits turns a query into a response. *)
Example opcode_leaks :
  is_query (set_opcode (MkFacade (replicate 12 0) 12) 16).1 = Some false.
Proof. reflexivity. Qed.

(** A dot inside a label splits it: the answer is for another name. *)
Example dotted_label_split :
  add_string_seq (replicate 8 9) 0 (name_of [[97; DOT; 98]]) = Ret ([1; 97; 1; 98; 0; 9; 9; 9], Some 5%nat).
Proof. reflexivity. Qed.

End Dns.
