(* ===== verification/NeighborhoodDatabase.v ===== *)
(** * Node records and the neighborhood database

    Models [node/src/neighborhood/node_record.rs] and
    [node/src/neighborhood/neighborhood_database.rs], with the parts of
    [sub_lib/neighborhood.rs] (rate packs, modes), [sub_lib/node_addr.rs],
    [neighborhood/node_location.rs] and [neighborhood/gossip.rs] they use.

    A [HashMap] is a [gmap], a [HashSet] or [BTreeSet] a [gset]; public keys are
    byte vectors.  The current time is an argument.  A [&mut NodeRecord] taken
    from the database is an update of the entry.  Wallets are opaque;
    serialization and signing are parameters. *)
From Stdlib Require Import String.
From S2P Require Import Prelude.
From S2P Require Import Countries CountryBlockStream CountryFinder.
From stdpp Require Import base list gmap strings.

Module Neighborhood.
Import Stream.
Local Open Scope Z_scope.

Global Instance IpAddr_countable : Countable IpAddr.
Proof.
  apply (inj_countable' (λ ip, match ip with IpV4 a => inl a | IpV6 a => inr a end)
                        (λ x, match x with inl a => IpV4 a | inr a => IpV6 a end)).
  by intros [].
Defined.

Definition PublicKey : Type := list Z.

(** ** [sub_lib/neighborhood.rs], [sub_lib/node_addr.rs], [node_location.rs] *)

Record RatePack := MkRates {
  routing_byte_rate : Z;
  routing_service_rate : Z;
  exit_byte_rate : Z;
  exit_service_rate : Z
}.

Global Instance RatePack_eq_dec : EqDecision RatePack.
Proof. solve_decision. Defined.

Definition ZERO_RATE_PACK : RatePack := MkRates 0 0 0 0.

(** Arithmetic on [u64] that panics on overflow. *)
Definition in_u64 (z : Z) : run Z := if z <? 2 ^ 64 then Ret z else Panic.

Definition routing_charge (r : RatePack) (payload_size : Z) : run Z :=
  m ← in_u64 (routing_byte_rate r * payload_size);
  in_u64 (routing_service_rate r + m).

Definition exit_charge (r : RatePack) (payload_size : Z) : run Z :=
  m ← in_u64 (exit_byte_rate r * payload_size);
  in_u64 (exit_service_rate r + m).

Record NodeAddr := MkNodeAddr {
  ip_addr : IpAddr;
  ports : list Z
}.

Global Instance NodeAddr_eq_dec : EqDecision NodeAddr.
Proof. solve_decision. Defined.

(** [sort_unstable] and [dedup]. *)
Fixpoint insert_port (p : Z) (ps : list Z) : list Z :=
  match ps with
  | [] => [p]
  | q :: ps' => if p <? q then p :: ps else if p =? q then ps else q :: insert_port p ps'
  end.

Definition node_addr_new (ip : IpAddr) (ps : list Z) : NodeAddr :=
  MkNodeAddr ip (foldr insert_port [] ps).

Record NodeLocation := MkLocation { country_code : string }.

Inductive NeighborhoodMode (D : Type) :=
| Standard (addr : NodeAddr) (neighbors : list D) (rates : RatePack)
| ZeroHop
| OriginateOnly (neighbors : list D) (rates : RatePack)
| ConsumeOnly (neighbors : list D).
Arguments Standard {D}.
Arguments ZeroHop {D}.
Arguments OriginateOnly {D}.
Arguments ConsumeOnly {D}.

Definition mode_node_addr_opt {D} (m : NeighborhoodMode D) : option NodeAddr :=
  match m with Standard a _ _ => Some a | _ => None end.
Definition mode_rate_pack {D} (m : NeighborhoodMode D) : RatePack :=
  match m with Standard _ _ r | OriginateOnly _ r => r | _ => ZERO_RATE_PACK end.
Definition mode_accepts_connections {D} (m : NeighborhoodMode D) : bool :=
  match m with Standard _ _ _ => true | _ => false end.
Definition mode_routes_data {D} (m : NeighborhoodMode D) : bool :=
  match m with Standard _ _ _ | OriginateOnly _ _ => true | _ => false end.

(** The finder is the static one of the country crate. *)
Definition get_node_location (finder : Finder.CountryCodeFinder) (ip_opt : option IpAddr)
    : run (option NodeLocation) :=
  match ip_opt with
  | Some ip =>
      country_opt ← Finder.find_country finder ip;
      Ret (option_map (λ c, MkLocation (Countries.iso3166 c)) country_opt)
  | None => Ret None
  end.

Section neighborhood.
Context {Wallet : Type} `{!EqDecision Wallet}.

(** ** Records *)

Record NodeRecordInner := MkInner {
  i_public_key : PublicKey;
  i_earning_wallet : Wallet;
  i_rate_pack : RatePack;
  i_neighbors : gset PublicKey;
  i_accepts_connections : bool;
  i_routes_data : bool;
  i_version : Z;
  i_country_code_opt : option string
}.

Record NodeRecordMetadata := MkMetadata {
  last_update : Z;
  m_node_addr_opt : option NodeAddr;
  unreachable_hosts : gset string;
  node_location_opt : option NodeLocation;
  country_undesirability : Z
}.

Record NodeRecord := MkRecord {
  inner : NodeRecordInner;
  metadata : NodeRecordMetadata;
  signed_gossip : list Z;
  signature : list Z
}.

Inductive NeighborhoodDatabaseError :=
| NodeKeyNotFound (k : PublicKey)
| NodeKeyCollision (k : PublicKey)
| SelfNeighborAttempt (k : PublicKey)
| NodeAddrAlreadySet (a : NodeAddr)
| EmptyPortList.

Definition public_key (r : NodeRecord) : PublicKey := i_public_key (inner r).
Definition node_addr_opt (r : NodeRecord) : option NodeAddr := m_node_addr_opt (metadata r).
Definition accepts_connections (r : NodeRecord) : bool := i_accepts_connections (inner r).
Definition routes_data (r : NodeRecord) : bool := i_routes_data (inner r).
Definition version (r : NodeRecord) : Z := i_version (inner r).
Definition last_updated (r : NodeRecord) : Z := last_update (metadata r).
Definition earning_wallet (r : NodeRecord) : Wallet := i_earning_wallet (inner r).
Definition rate_pack (r : NodeRecord) : RatePack := i_rate_pack (inner r).
Definition half_neighbor_keys (r : NodeRecord) : gset PublicKey := i_neighbors (inner r).
Definition has_half_neighbor (r : NodeRecord) (k : PublicKey) : bool :=
  bool_decide (k ∈ half_neighbor_keys r).

(** Field updates. *)
Definition with_inner (f : NodeRecordInner → NodeRecordInner) (r : NodeRecord) : NodeRecord :=
  MkRecord (f (inner r)) (metadata r) (signed_gossip r) (signature r).
Definition with_metadata (f : NodeRecordMetadata → NodeRecordMetadata) (r : NodeRecord) : NodeRecord :=
  MkRecord (inner r) (f (metadata r)) (signed_gossip r) (signature r).
Definition inner_neighbors (f : gset PublicKey → gset PublicKey) (i : NodeRecordInner) : NodeRecordInner :=
  MkInner (i_public_key i) (i_earning_wallet i) (i_rate_pack i) (f (i_neighbors i))
    (i_accepts_connections i) (i_routes_data i) (i_version i) (i_country_code_opt i).
Definition inner_version (v : Z) (i : NodeRecordInner) : NodeRecordInner :=
  MkInner (i_public_key i) (i_earning_wallet i) (i_rate_pack i) (i_neighbors i)
    (i_accepts_connections i) (i_routes_data i) v (i_country_code_opt i).
Definition metadata_addr (a : option NodeAddr) (m : NodeRecordMetadata) : NodeRecordMetadata :=
  MkMetadata (last_update m) a (unreachable_hosts m) (node_location_opt m) (country_undesirability m).
Definition metadata_time (t : Z) (m : NodeRecordMetadata) : NodeRecordMetadata :=
  MkMetadata t (m_node_addr_opt m) (unreachable_hosts m) (node_location_opt m) (country_undesirability m).

Definition metadata_new (now : Z) : NodeRecordMetadata := MkMetadata now None ∅ None 0.

Definition set_node_addr (r : NodeRecord) (node_addr : NodeAddr)
    : NodeRecord * result NeighborhoodDatabaseError bool :=
  match node_addr_opt r with
  | Some inner_node_addr =>
      if decide (node_addr = inner_node_addr) then (r, Ok false)
      else (r, Err (NodeAddrAlreadySet inner_node_addr))
  | None => (with_metadata (metadata_addr (Some node_addr)) r, Ok true)
  end.

Definition unset_node_addr (r : NodeRecord) : NodeRecord := with_metadata (metadata_addr None) r.

(** [None] is [NodeRecordError::SelfNeighborAttempt] of the record's own key. *)
Definition add_half_neighbor_key (r : NodeRecord) (k : PublicKey) : option NodeRecord :=
  if decide (k = public_key r) then None
  else Some (with_inner (inner_neighbors (λ s, {[ k ]} ∪ s)) r).

Definition remove_half_neighbor_key (r : NodeRecord) (k : PublicKey) : NodeRecord * bool :=
  (with_inner (inner_neighbors (λ s, s ∖ {[ k ]})) r, bool_decide (k ∈ half_neighbor_keys r)).

Definition clear_half_neighbors (r : NodeRecord) : NodeRecord :=
  with_inner (inner_neighbors (λ _, ∅)) r.

Definition increment_version (r : NodeRecord) : run NodeRecord :=
  if version r + 1 <? 2 ^ 32 then Ret (with_inner (inner_version (version r + 1)) r) else Panic.

Definition set_version (r : NodeRecord) (v : Z) : NodeRecord := with_inner (inner_version v) r.

Definition set_earning_wallet (r : NodeRecord) (w : Wallet) : NodeRecord * bool :=
  if decide (earning_wallet r = w) then (r, false)
  else (with_inner (λ i, MkInner (i_public_key i) w (i_rate_pack i) (i_neighbors i)
          (i_accepts_connections i) (i_routes_data i) (i_version i) (i_country_code_opt i)) r, true).

(** Gossip about one node, as it came in. *)
Record AccessibleGossipRecord := MkAgr {
  a_signed_gossip : list Z;
  a_signature : list Z;
  a_node_addr_opt : option NodeAddr;
  a_inner : NodeRecordInner
}.

Inductive update_error := KeyChanged | RatesChanged | AddrChanged.

Definition update (r : NodeRecord) (agr : AccessibleGossipRecord) (now : Z)
    : NodeRecord * result update_error unit :=
  if negb (bool_decide (i_public_key (a_inner agr) = public_key r)) then (r, Err KeyChanged)
  else if negb (bool_decide (i_rate_pack (a_inner agr) = rate_pack r)) then (r, Err RatesChanged)
  else
    match node_addr_opt r, a_node_addr_opt agr with
    | Some existing, Some incoming =>
        if decide (existing = incoming)
        then (MkRecord (a_inner agr) (metadata_time now (metadata r)) (a_signed_gossip agr) (a_signature agr), Ok tt)
        else (r, Err AddrChanged)
    | None, Some na =>
        (MkRecord (a_inner agr) (metadata_time now (metadata_addr (Some na) (metadata r)))
           (a_signed_gossip agr) (a_signature agr), Ok tt)
    | _, None =>
        (MkRecord (a_inner agr) (metadata_time now (metadata r)) (a_signed_gossip agr) (a_signature agr), Ok tt)
    end.

(** ** Signing *)
Section signing.
(** [serde_cbor::ser::to_vec] and [CryptDE::sign]; [None] is an error. *)
Context (to_vec : NodeRecordInner → option (list Z)) (sign : list Z → option (list Z)).

(** [gossip::regenerate_signed_gossip]; a signing error is [unimplemented!]. *)
Definition sign_gossip (i : NodeRecordInner) : run (list Z * list Z) :=
  signed ← expect (to_vec i); sig ← expect (sign signed); Ret (signed, sig).

Definition regenerate_signed_gossip (r : NodeRecord) : run NodeRecord :=
  '(signed, sig) ← sign_gossip (inner r);
  Ret (MkRecord (inner r) (metadata r) signed sig).

Definition node_record_new (now : Z) (key : PublicKey) (wallet : Wallet) (rates : RatePack)
    (accepts routes : bool) (version_ : Z) (location_opt : option NodeLocation) : run NodeRecord :=
  let m := metadata_new now in
  regenerate_signed_gossip
    (MkRecord (MkInner key wallet rates ∅ accepts routes version_ (option_map country_code location_opt))
       (MkMetadata (last_update m) (m_node_addr_opt m) (unreachable_hosts m) location_opt (country_undesirability m))
       [] []).

(** [NodeRecord::from(AccessibleGossipRecord)]. *)
Definition record_from_agr (finder : Finder.CountryCodeFinder) (agr : AccessibleGossipRecord) (now : Z)
    : run NodeRecord :=
  loc ← get_node_location finder (option_map ip_addr (a_node_addr_opt agr));
  Ret (MkRecord (a_inner agr) (MkMetadata now (a_node_addr_opt agr) ∅ loc 0)
         (a_signed_gossip agr) (a_signature agr)).
End signing.

(** ** The database *)

Record NeighborhoodDatabase := MkDb {
  this_node : PublicKey;
  by_public_key : gmap PublicKey NodeRecord;
  by_ip_addr : gmap IpAddr PublicKey
}.

Definition ISOLATED_NODE_GRACE_PERIOD_SECS : Z := 30.

Definition keys (db : NeighborhoodDatabase) : gset PublicKey := dom (by_public_key db).
Definition node_by_key (db : NeighborhoodDatabase) (k : PublicKey) : option NodeRecord :=
  by_public_key db !! k.
Definition node_by_ip (db : NeighborhoodDatabase) (ip : IpAddr) : option NodeRecord :=
  match by_ip_addr db !! ip with Some k => node_by_key db k | None => None end.
Definition root (db : NeighborhoodDatabase) : run NodeRecord := expect (node_by_key db (this_node db)).
Definition root_key (db : NeighborhoodDatabase) : PublicKey := this_node db.

(** Writing through a [&mut NodeRecord] of the entry [k]. *)
Definition store (db : NeighborhoodDatabase) (k : PublicKey) (r : NodeRecord) : NeighborhoodDatabase :=
  MkDb (this_node db) (<[k := r]> (by_public_key db)) (by_ip_addr db).

Definition add_arbitrary_node (db : NeighborhoodDatabase) (node_record : NodeRecord) : NeighborhoodDatabase :=
  MkDb (this_node db)
    (<[public_key node_record := node_record]> (by_public_key db))
    (match node_addr_opt node_record with
     | Some na => <[ip_addr na := public_key node_record]> (by_ip_addr db)
     | None => by_ip_addr db
     end).

Definition check_for_ports (node_addr_opt : option NodeAddr) : result NeighborhoodDatabaseError unit :=
  match node_addr_opt with
  | None => Ok tt
  | Some na => match ports na with [] => Err EmptyPortList | _ => Ok tt end
  end.

Definition check_for_collision (db : NeighborhoodDatabase) (k : PublicKey)
    : result NeighborhoodDatabaseError unit :=
  if decide (k ∈ keys db) then Err (NodeKeyCollision k) else Ok tt.

Definition add_node (db : NeighborhoodDatabase) (node_record : NodeRecord)
    : NeighborhoodDatabase * result NeighborhoodDatabaseError PublicKey :=
  match check_for_ports (node_addr_opt node_record) with
  | Err e => (db, Err e)
  | Ok _ =>
      match check_for_collision db (public_key node_record) with
      | Err e => (db, Err e)
      | Ok _ => (add_arbitrary_node db node_record, Ok (public_key node_record))
      end
  end.

Definition db_has_half_neighbor (db : NeighborhoodDatabase) (from to : PublicKey) : bool :=
  match node_by_key db from with Some f => has_half_neighbor f to | None => false end.

Definition db_has_full_neighbor (db : NeighborhoodDatabase) (from to : PublicKey) : bool :=
  db_has_half_neighbor db from to && db_has_half_neighbor db to from.

Definition full_neighbor_keys (r : NodeRecord) (db : NeighborhoodDatabase) : gset PublicKey :=
  filter (λ k, match node_by_key db k with
               | Some n => has_half_neighbor n (public_key r)
               | None => false
               end = true) (half_neighbor_keys r).

Definition has_full_neighbor (r : NodeRecord) (db : NeighborhoodDatabase) (k : PublicKey) : bool :=
  if negb (bool_decide (k ∈ half_neighbor_keys r)) then false
  else match node_by_key db k with
       | Some n => bool_decide (public_key r ∈ half_neighbor_keys n)
       | None => false
       end.

Definition add_half_neighbor (db : NeighborhoodDatabase) (new_neighbor : PublicKey) (now : Z)
    : NeighborhoodDatabase * result NeighborhoodDatabaseError bool :=
  if negb (bool_decide (new_neighbor ∈ keys db)) then (db, Err (NodeKeyNotFound new_neighbor))
  else if db_has_half_neighbor db (this_node db) new_neighbor then (db, Ok false)
  else match node_by_key db (this_node db) with
       | Some node =>
           match add_half_neighbor_key node new_neighbor with
           | None => (db, Err (SelfNeighborAttempt (public_key node)))
           | Some node => (store db (this_node db) (with_metadata (metadata_time now) node), Ok true)
           end
       | None => (db, Err (NodeKeyNotFound (this_node db)))
       end.

(** [None] is the error text about a nonexistent neighbor. *)
Definition remove_neighbor (db : NeighborhoodDatabase) (node_key : PublicKey)
    : run (NeighborhoodDatabase * option bool) :=
  match node_by_key db node_key with
  | None => Ret (db, None)
  | Some node_record =>
      let ip := option_map ip_addr (node_addr_opt node_record) in
      let db := store db node_key (unset_node_addr node_record) in
      let db := match ip with
                | Some ip => MkDb (this_node db) (by_public_key db) (delete ip (by_ip_addr db))
                | None => db
                end in
      r ← root db;
      let '(r, removed) := remove_half_neighbor_key r node_key in
      let db := store db (this_node db) r in
      if (removed : bool) then
        r ← root db;
        r ← increment_version r;
        Ret (store db (this_node db) r, Some true)
      else Ret (db, Some false)
  end.

Definition remove_node (db : NeighborhoodDatabase) (node_key : PublicKey) : NeighborhoodDatabase :=
  let ip_addr_opt := match node_by_key db node_key with
                     | None => None
                     | Some node => option_map ip_addr (node_addr_opt node)
                     end in
  MkDb (this_node db) (delete node_key (by_public_key db))
    (match ip_addr_opt with
     | Some ip => delete ip (by_ip_addr db)
     | None => by_ip_addr db
     end).

Definition referenced_node_keys (db : NeighborhoodDatabase) : run (gset PublicKey) :=
  r ← root db;
  Ret ({[ public_key r ]} ∪ (⋃ ((λ kn, half_neighbor_keys kn.2) <$> map_to_list (by_public_key db)))).

Definition cull_dead_nodes (db : NeighborhoodDatabase) (now : Z) : run NeighborhoodDatabase :=
  referenced ← referenced_node_keys db;
  panic_if (now <? ISOLATED_NODE_GRACE_PERIOD_SECS)
    (let deadline := now - ISOLATED_NODE_GRACE_PERIOD_SECS in
     let to_cull := filter (λ k, (k ∉ referenced) ∧
       (match node_by_key db k with Some n => last_updated n <=? deadline | None => false end) = true) (keys db) in
     Ret (foldl remove_node db (elements to_cull))).

Definition new_public_ip (db : NeighborhoodDatabase) (public_ip : IpAddr) : run NeighborhoodDatabase :=
  record ← root db;
  old ← expect (node_addr_opt record);
  let record' := with_metadata (metadata_addr (Some (node_addr_new public_ip (ports old)))) record in
  let db := store db (this_node db) record' in
  Ret (MkDb (this_node db) (by_public_key db)
         (<[public_ip := public_key record]> (delete (ip_addr old) (by_ip_addr db)))).

Definition database_new {D} (to_vec : NodeRecordInner → option (list Z)) (sign : list Z → option (list Z))
    (finder : Finder.CountryCodeFinder) (now : Z)
    (key : PublicKey) (mode : NeighborhoodMode D) (wallet : Wallet) : run NeighborhoodDatabase :=
  location_opt ← match mode_node_addr_opt mode with
                 | Some na => get_node_location finder (Some (ip_addr na))
                 | None => Ret None
                 end;
  r ← node_record_new to_vec sign now key wallet (mode_rate_pack mode) (mode_accepts_connections mode)
        (mode_routes_data mode) 0 location_opt;
  r ← match mode_node_addr_opt mode with
      | Some na => let '(r, res) := set_node_addr r na in _ ← expect_ok res; Ret r
      | None => Ret r
      end;
  r ← regenerate_signed_gossip to_vec sign r;
  Ret (add_arbitrary_node (MkDb key ∅ ∅) r).


(** A node not in the database counts as a full neighbor. *)
Definition gossip_target_degree (db : NeighborhoodDatabase) (target : PublicKey) : nat :=
  match node_by_key db target with
  | None => 0
  | Some target_node =>
      size (filter (λ k, match node_by_key db k with
                         | Some n => accepts_connections n
                         | None => false
                         end = true) (full_neighbor_keys target_node db))
      + size (half_neighbor_keys target_node ∖ keys db)
  end%nat.

(** ** The invariant *)

(** Records are filed under their own key, the index by address only leads to
    records with that address, and the record of this node is there and does
    not list itself. *)
Definition consistent (db : NeighborhoodDatabase) : Prop :=
  (∀ k r, by_public_key db !! k = Some r → public_key r = k) ∧
  (∀ ip k, by_ip_addr db !! ip = Some k →
     ∃ r na, by_public_key db !! k = Some r ∧ node_addr_opt r = Some na ∧ ip_addr na = ip) ∧
  (∃ r, by_public_key db !! this_node db = Some r ∧ this_node db ∉ half_neighbor_keys r).

Lemma consistent_root db : consistent db → ∃ r, root db = Ret r ∧ public_key r = this_node db ∧
  by_public_key db !! this_node db = Some r ∧ this_node db ∉ half_neighbor_keys r.
Proof.
  intros (Hk & _ & r & Hr & Hn). exists r. unfold root, node_by_key. rewrite Hr. split; [done|].
  split; [by apply Hk|done].
Qed.

(** Storing a record with the same key and address keeps the invariant. *)
Lemma consistent_store db k r r' :
  consistent db → by_public_key db !! k = Some r →
  public_key r' = public_key r → node_addr_opt r' = node_addr_opt r →
  (k = this_node db → this_node db ∉ half_neighbor_keys r') → consistent (store db k r').
Proof.
  intros (Hk & Hip & r0 & Hr0 & Hn) Hr Hkey Haddr Hself. unfold consistent, store. simpl. split_and!.
  - intros k1 r1. destruct (decide (k1 = k)) as [->|]; [rewrite lookup_insert_eq|rewrite lookup_insert_ne by done; apply Hk].
    intros [= <-]. rewrite Hkey. by apply Hk.
  - intros ip k1 Hi. destruct (Hip _ _ Hi) as (r1 & na & Hr1 & Ha & Hb).
    destruct (decide (k1 = k)) as [->|].
    + exists r', na. rewrite lookup_insert_eq, Haddr. simplify_eq. done.
    + exists r1, na. by rewrite lookup_insert_ne.
  - destruct (decide (k = this_node db)) as [Heq|].
    + exists r'. rewrite Heq, lookup_insert_eq. split; [done|by apply Hself].
    + exists r0. by rewrite lookup_insert_ne.
Qed.

Lemma consistent_new key r :
  public_key r = key → half_neighbor_keys r = ∅ →
  consistent (add_arbitrary_node (MkDb key ∅ ∅) r).
Proof.
  intros <- Hn. unfold consistent, add_arbitrary_node. simpl. split_and!.
  - intros k r1 Hl. apply lookup_insert_Some in Hl as [[<- <-]|[_ Hl]]; [done|by apply lookup_empty_Some in Hl].
  - intros ip k Hl. destruct (node_addr_opt r) as [na|] eqn:Ea; [|by apply lookup_empty_Some in Hl].
    apply lookup_insert_Some in Hl as [[<- <-]|[_ Hl]]; [|by apply lookup_empty_Some in Hl].
    exists r, na. by rewrite lookup_insert_eq.
  - exists r. rewrite lookup_insert_eq, Hn. split; [done|set_solver].
Qed.

Lemma consistent_add_node db r : consistent db → consistent (add_node db r).1.
Proof.
  intros (Hk & Hip & r0 & Hr0 & Hn). unfold add_node.
  destruct (check_for_ports _); [|by split_and!; eauto]. unfold check_for_collision.
  destruct (decide (public_key r ∈ keys db)) as [|Hnew]; [by split_and!; eauto|].
  unfold keys in Hnew. apply not_elem_of_dom in Hnew.
  unfold consistent, add_arbitrary_node. simpl. split_and!.
  - intros k r1 Hl. apply lookup_insert_Some in Hl as [[<- <-]|[_ Hl]]; [done|by apply Hk].
  - intros ip k Hl.
    assert (∀ k', by_ip_addr db !! ip = Some k' → ∃ r1 na, <[public_key r:=r]> (by_public_key db) !! k' = Some r1 ∧
      node_addr_opt r1 = Some na ∧ ip_addr na = ip) as Hold.
    { intros k' Hi. destruct (Hip _ _ Hi) as (r1 & na & Hr1 & ? & ?). exists r1, na.
      rewrite lookup_insert_ne; [done|congruence]. }
    destruct (node_addr_opt r) as [na|] eqn:Ea; [|by apply Hold].
    apply lookup_insert_Some in Hl as [[<- <-]|[_ Hl]]; [|by apply Hold].
    exists r, na. by rewrite lookup_insert_eq.
  - exists r0. rewrite lookup_insert_ne; [done|congruence].
Qed.

Lemma consistent_remove_node db k : k ≠ this_node db → consistent db → consistent (remove_node db k).
Proof.
  intros Hne (Hk & Hip & r0 & Hr0 & Hn). unfold consistent, remove_node. simpl. split_and!.
  - intros k1 r1 Hl. apply lookup_delete_Some in Hl as [_ Hl]. by apply Hk.
  - intros ip k1 Hl.
    assert (by_ip_addr db !! ip = Some k1) as Hi.
    { destruct (match node_by_key db k with Some node => _ | None => _ end); [|done].
      by apply lookup_delete_Some in Hl as [_ Hl]. }
    destruct (Hip _ _ Hi) as (r1 & na & Hr1 & Ha & Hb). exists r1, na.
    rewrite lookup_delete_ne; [done|]. intros ->. unfold node_by_key in Hl. rewrite Hr1, Ha in Hl. simpl in Hl.
    rewrite Hb, lookup_delete_eq in Hl. done.
  - exists r0. by rewrite lookup_delete_ne.
Qed.


(** A record that had no address may get one without being indexed. *)
Lemma consistent_update db k r agr now :
  consistent db → k ≠ this_node db → by_public_key db !! k = Some r →
  consistent (store db k (update r agr now).1).
Proof.
  intros Hc Hne Hr.
  assert (∀ r', public_key r' = public_key r → node_addr_opt r' = node_addr_opt r → consistent (store db k r')) as Hsame.
  { intros r' H1 H2. by apply (consistent_store db k r). }
  unfold update.
  destruct (bool_decide _) eqn:Ek; cbn [negb]; [|by apply Hsame]. apply bool_decide_eq_true in Ek.
  destruct (bool_decide (i_rate_pack _ = _)); cbn [negb]; [|by apply Hsame].
  destruct (node_addr_opt r) as [existing|] eqn:Ea, (a_node_addr_opt agr) as [na|]; try (by apply Hsame).
  { destruct (decide (existing = na)); by apply Hsame. }
  destruct Hc as (Hk & Hip & r0 & Hr0 & Hn). unfold consistent, store. simpl. split_and!.
  - intros k1 r1 Hl. apply lookup_insert_Some in Hl as [[<- <-]|[_ Hl]]; [|by apply Hk].
    unfold public_key. simpl. rewrite Ek. by apply Hk.
  - intros ip k1 Hi. destruct (Hip _ _ Hi) as (r1 & na1 & Hr1 & ? & ?). exists r1, na1.
    rewrite lookup_insert_ne; [done|congruence].
  - exists r0. by rewrite lookup_insert_ne.
Qed.

Lemma consistent_add_half_neighbor db k now : consistent db → consistent (add_half_neighbor db k now).1.
Proof.
  intros Hc. unfold add_half_neighbor. destruct (negb _); [done|].
  destruct (db_has_half_neighbor _ _ _); [done|].
  destruct (consistent_root db Hc) as (r & _ & Hk & Hr & Hn). unfold node_by_key. rewrite Hr.
  unfold add_half_neighbor_key. destruct (decide (k = public_key r)); [done|].
  apply (consistent_store db _ r); try done. intros _.
  unfold half_neighbor_keys, with_metadata, with_inner. simpl. unfold half_neighbor_keys in Hn. set_solver.
Qed.

(** Forgetting the address of [k] in both maps. *)
Lemma consistent_unset db k r :
  consistent db → by_public_key db !! k = Some r →
  consistent (let db := store db k (unset_node_addr r) in
              match option_map ip_addr (node_addr_opt r) with
              | Some ip => MkDb (this_node db) (by_public_key db) (delete ip (by_ip_addr db))
              | None => db
              end).
Proof.
  intros (Hk & Hip & r0 & Hr0 & Hn) Hr.
  set (db1 := store db k (unset_node_addr r)).
  set (db2 := match _ with Some ip => _ | None => _ end).
  assert (by_public_key db2 = <[k := unset_node_addr r]> (by_public_key db)) as Ek
    by (unfold db2; by destruct (node_addr_opt r)).
  assert (this_node db2 = this_node db) as Et by (unfold db2; by destruct (node_addr_opt r)).
  assert (∀ ip k1, by_ip_addr db2 !! ip = Some k1 → k1 ≠ k ∧ by_ip_addr db !! ip = Some k1) as Ei.
  { intros ip k1 Hl. assert (by_ip_addr db !! ip = Some k1) as Hi.
    { unfold db2 in Hl. destruct (node_addr_opt r); simpl in Hl; [by apply lookup_delete_Some in Hl as [_ ?]|done]. }
    split; [|done]. intros ->. destruct (Hip _ _ Hi) as (r1 & na & Hr1 & Ha & Hb). simplify_eq.
    unfold db2 in Hl. rewrite Ha in Hl. simpl in Hl. by rewrite lookup_delete_eq in Hl. }
  clearbody db2. unfold consistent. rewrite Ek, Et. split_and!.
  - intros k1 r1 Hl. apply lookup_insert_Some in Hl as [[<- <-]|[_ Hl]]; [|by apply Hk]. by apply (Hk k r).
  - intros ip k1 Hl. apply Ei in Hl as [Hne Hi]. destruct (Hip _ _ Hi) as (r1 & na & ? & ? & ?).
    exists r1, na. by rewrite lookup_insert_ne.
  - destruct (decide (k = this_node db)) as [->|]; [|exists r0; by rewrite lookup_insert_ne].
    exists (unset_node_addr r). rewrite lookup_insert_eq. split; [done|]. by simplify_eq.
Qed.

(** The last version number a record of this node can have. *)
Definition last_version : Z := 2 ^ 32 - 1.

Lemma consistent_remove_neighbor db k :
  consistent db →
  match remove_neighbor db k with
  | Ret (db', _) => consistent db' ∧ this_node db' = this_node db
  | Panic => ∃ r, by_public_key db !! this_node db = Some r ∧ k ∈ half_neighbor_keys r ∧ last_version ≤ version r
  end.
Proof.
  intros Hc. unfold remove_neighbor, node_by_key.
  destruct (by_public_key db !! k) as [r|] eqn:Hr; [|done].
  pose proof (consistent_unset db k r Hc Hr) as Hc2. cbv zeta in Hc2 |- *.
  set (db2 := match option_map ip_addr (node_addr_opt r) with Some ip => _ | None => _ end) in *.
  assert (this_node db2 = this_node db) as Et by (unfold db2; by destruct (node_addr_opt r)).
  assert (∃ r0 r2, by_public_key db !! this_node db = Some r0 ∧ by_public_key db2 !! this_node db = Some r2 ∧
    half_neighbor_keys r2 = half_neighbor_keys r0 ∧ version r2 = version r0) as (r0 & r2 & Hr0 & Hr2 & Hh & Hv).
  { destruct (consistent_root db Hc) as (r0 & _ & _ & Hr0 & _).
    assert (by_public_key db2 = <[k := unset_node_addr r]> (by_public_key db)) as Ek
      by (unfold db2; by destruct (node_addr_opt r)).
    rewrite Ek. destruct (decide (k = this_node db)) as [->|].
    - exists r0, (unset_node_addr r). rewrite lookup_insert_eq. by simplify_eq.
    - exists r0, r0. by rewrite lookup_insert_ne. }
  clearbody db2. destruct (consistent_root db2 Hc2) as (r2' & Hroot & Hk2 & Hr2' & Hn2).
  rewrite Et in Hr2'. rewrite Hr2 in Hr2'. injection Hr2' as <-.
  rewrite Hroot. cbn [mbind run_bind remove_half_neighbor_key].
  assert (∀ r', public_key r' = public_key r2 → node_addr_opt r' = node_addr_opt r2 →
    half_neighbor_keys r' ⊆ half_neighbor_keys r2 → consistent (store db2 (this_node db2) r')) as Hst.
  { intros r' H1 H2 H3. apply (consistent_store db2 _ r2); [done|by rewrite Et|done|done|]. intros _. set_solver. }
  case_bool_decide as Hin.
  2: { split; [apply Hst|done]; try done. unfold half_neighbor_keys. simpl. set_solver. }
  unfold root, node_by_key, store at 1. simpl. rewrite lookup_insert_eq. cbn [expect mbind run_bind].
  unfold increment_version. change (version (with_inner _ r2)) with (version r2).
  destruct (Z.ltb_spec (version r2 + 1) (2 ^ 32)); cbn [mbind run_bind].
  - split; [|done]. unfold store. simpl. rewrite insert_insert_eq. apply Hst; try done.
    unfold half_neighbor_keys. simpl. set_solver.
  - exists r0. split; [done|]. split; [by rewrite <- Hh|]. rewrite <- Hv. unfold last_version. lia.
Qed.

Lemma consistent_new_public_ip db ip :
  consistent db →
  match new_public_ip db ip with
  | Ret db' => consistent db' ∧ this_node db' = this_node db
  | Panic => ∃ r, by_public_key db !! this_node db = Some r ∧ node_addr_opt r = None
  end.
Proof.
  intros Hc. destruct (consistent_root db Hc) as (r & Hroot & Hk & Hr & Hn).
  unfold new_public_ip. rewrite Hroot. cbn [mbind run_bind].
  destruct (node_addr_opt r) as [old|] eqn:Ea; cbn [expect mbind run_bind]; [|by exists r].
  split; [|done]. destruct Hc as (Hkeys & Hip & _). unfold consistent. simpl. split_and!.
  - intros k1 r1 Hl. apply lookup_insert_Some in Hl as [[<- <-]|[_ Hl]]; [done|by apply Hkeys].
  - intros ip1 k1 Hl. apply lookup_insert_Some in Hl as [[<- <-]|[Hne Hl]].
    + rewrite Hk. eexists _, _. rewrite lookup_insert_eq. done.
    + apply lookup_delete_Some in Hl as [Hold Hl]. destruct (Hip _ _ Hl) as (r1 & na & Hr1 & Ha & Hb).
      exists r1, na. rewrite lookup_insert_ne; [done|]. intros <-. congruence.
  - eexists. rewrite lookup_insert_eq. done.
Qed.


(** *** Culling *)

Lemma remove_nodes_lookup ks db k :
  by_public_key (foldl remove_node db ks) !! k = if decide (k ∈ ks) then None else by_public_key db !! k.
Proof.
  revert db; induction ks as [|k0 ks IH]; intros db; simpl.
  - destruct (decide (k ∈ [])) as [H|]; [by apply elem_of_nil in H|done].
  - rewrite IH. unfold remove_node. simpl. destruct (decide (k ∈ ks)), (decide (k ∈ k0 :: ks)) as [H|H]; try done.
    + exfalso. apply H. by right.
    + apply elem_of_cons in H as [->|]; [by rewrite lookup_delete_eq|done].
    + apply not_elem_of_cons in H as [? _]. by rewrite lookup_delete_ne.
Qed.

Lemma remove_nodes_consistent ks db :
  this_node db ∉ ks → consistent db →
  consistent (foldl remove_node db ks) ∧ this_node (foldl remove_node db ks) = this_node db.
Proof.
  revert db; induction ks as [|k0 ks IH]; intros db Hn Hc; simpl; [done|].
  apply not_elem_of_cons in Hn as [? ?]. apply (IH (remove_node db k0)); [done|by apply consistent_remove_node].
Qed.

(** Some record of the database lists [k], or [k] is this node. *)
Definition referenced (db : NeighborhoodDatabase) (k : PublicKey) : Prop :=
  k = this_node db ∨ ∃ k' r, by_public_key db !! k' = Some r ∧ k ∈ half_neighbor_keys r.

Lemma referenced_node_keys_spec db :
  consistent db → ∃ s, referenced_node_keys db = Ret s ∧ ∀ k, k ∈ s ↔ referenced db k.
Proof.
  intros Hc. destruct (consistent_root db Hc) as (r & Hroot & Hk & _). unfold referenced_node_keys.
  rewrite Hroot. cbn [mbind run_bind]. eexists. split; [done|]. intros k. unfold referenced.
  rewrite elem_of_union, elem_of_singleton, Hk, elem_of_union_list. f_equiv. split.
  - intros (X & HX & Hin). apply list_elem_of_fmap in HX as ([k' r'] & -> & Hm).
    apply elem_of_map_to_list in Hm. eauto.
  - intros (k' & r' & Hl & Hin). exists (half_neighbor_keys r'). split; [|done].
    apply list_elem_of_fmap. exists (k', r'). split; [done|by apply elem_of_map_to_list].
Qed.

Lemma cull_spec db now :
  consistent db → ISOLATED_NODE_GRACE_PERIOD_SECS ≤ now →
  ∃ db', cull_dead_nodes db now = Ret db' ∧ consistent db' ∧ this_node db' = this_node db ∧
    ∀ k r, by_public_key db' !! k = Some r ↔
      by_public_key db !! k = Some r ∧
      (referenced db k ∨ now - ISOLATED_NODE_GRACE_PERIOD_SECS < last_updated r).
Proof.
  intros Hc Hnow. destruct (referenced_node_keys_spec db Hc) as (s & Hs & Href).
  unfold cull_dead_nodes. rewrite Hs. cbn [mbind run_bind]. unfold panic_if.
  destruct (Z.ltb_spec now ISOLATED_NODE_GRACE_PERIOD_SECS); [lia|].
  set (to_cull := filter _ (keys db)). eexists. split; [done|].
  assert (∀ k, k ∈ elements to_cull ↔ ∃ r, by_public_key db !! k = Some r ∧ ¬ referenced db k ∧
    last_updated r ≤ now - ISOLATED_NODE_GRACE_PERIOD_SECS) as Hcull.
  { intros k. rewrite elem_of_elements. unfold to_cull. rewrite elem_of_filter, Href. unfold keys, node_by_key.
    rewrite elem_of_dom. split.
    - intros ((? & H2) & [r Hr]). exists r. rewrite Hr in H2. apply Z.leb_le in H2. done.
    - intros (r & Hr & ? & ?). rewrite Hr. split; [split; [done|by apply Z.leb_le]|by eexists]. }
  assert (this_node db ∉ elements to_cull) as Hroot.
  { rewrite Hcull. intros (r & _ & Hn & _). apply Hn. by left. }
  destruct (remove_nodes_consistent _ db Hroot Hc) as [? ?]. split; [done|]. split; [done|].
  intros k r. rewrite remove_nodes_lookup. destruct (decide (k ∈ elements to_cull)) as [Hin|Hin].
  - apply Hcull in Hin as (r' & Hr' & Hn & Hold). split; [done|]. intros [Hr [?|?]]; [done|].
    simplify_eq. lia.
  - split; [|by intros [? _]]. intros Hr. split; [done|].
    destruct (decide (k ∈ s)) as [Hks|Hks]; [left; by apply Href|right].
    destruct (Z.ltb_spec (now - ISOLATED_NODE_GRACE_PERIOD_SECS) (last_updated r)); [done|].
    exfalso. apply Hin, Hcull. exists r. rewrite <- Href. done.
Qed.

(** ** Histories *)

Inductive db_op :=
| AddNode (r : NodeRecord)
| AddHalfNeighbor (k : PublicKey) (now : Z)
| RemoveNeighbor (k : PublicKey)
| RemoveNode (k : PublicKey)
| CullDeadNodes (now : Z)
| NewPublicIp (ip : IpAddr)
| UpdateNode (k : PublicKey) (agr : AccessibleGossipRecord) (now : Z).

Definition db_step (db : NeighborhoodDatabase) (o : db_op) : run NeighborhoodDatabase :=
  match o with
  | AddNode r => Ret (add_node db r).1
  | AddHalfNeighbor k now => Ret (add_half_neighbor db k now).1
  | RemoveNeighbor k => '(db, _) ← remove_neighbor db k; Ret db
  | RemoveNode k => Ret (remove_node db k)
  | CullDeadNodes now => cull_dead_nodes db now
  | NewPublicIp ip => new_public_ip db ip
  | UpdateNode k agr now =>
      match node_by_key db k with
      | Some r => Ret (store db k (update r agr now).1)
      | None => Ret db
      end
  end.

(** Callers neither remove nor overwrite the record of this node. *)
Definition db_op_ok (key : PublicKey) (o : db_op) : bool :=
  match o with
  | RemoveNode k | UpdateNode k _ _ => bool_decide (k ≠ key)
  | _ => true
  end.

(** When an operation panics: the version of this node's record is used up,
    the clock is in the first seconds of 1970, or this node has no address. *)
Definition db_panics (db : NeighborhoodDatabase) (o : db_op) : Prop :=
  match o with
  | RemoveNeighbor k =>
      ∃ r, by_public_key db !! this_node db = Some r ∧ k ∈ half_neighbor_keys r ∧ last_version ≤ version r
  | CullDeadNodes now => now < ISOLATED_NODE_GRACE_PERIOD_SECS
  | NewPublicIp _ => ∃ r, by_public_key db !! this_node db = Some r ∧ node_addr_opt r = None
  | _ => False
  end.

Lemma db_step_consistent db o :
  consistent db → db_op_ok (this_node db) o = true →
  match db_step db o with
  | Ret db' => consistent db' ∧ this_node db' = this_node db
  | Panic => db_panics db o
  end.
Proof.
  intros Hc Hok. destruct o as [r|k now|k|k|now|ip|k agr now]; cbn [db_step db_panics db_op_ok] in *.
  - split; [by apply consistent_add_node|]. unfold add_node. by repeat case_match.
  - split; [by apply consistent_add_half_neighbor|]. unfold add_half_neighbor. by repeat case_match.
  - pose proof (consistent_remove_neighbor db k Hc). by destruct (remove_neighbor db k) as [[]|].
  - apply bool_decide_eq_true in Hok. split; [by apply consistent_remove_node|done].
  - destruct (Z.ltb_spec now ISOLATED_NODE_GRACE_PERIOD_SECS) as [Hlt|Hge].
    + destruct (referenced_node_keys_spec db Hc) as (s & Hs & _). unfold cull_dead_nodes. rewrite Hs.
      cbn [mbind run_bind]. unfold panic_if. by rewrite (proj2 (Z.ltb_lt _ _) Hlt).
    + destruct (cull_spec db now Hc Hge) as (db' & -> & ? & ? & _). done.
  - by apply consistent_new_public_ip.
  - apply bool_decide_eq_true in Hok. unfold node_by_key. destruct (by_public_key db !! k) eqn:Hk; [|done].
    split; [by eapply consistent_update|done].
Qed.

(** The states a database can get into. *)
Inductive reachable (key : PublicKey) : NeighborhoodDatabase → Prop :=
| reach_new D to_vec sign finder now (mode : NeighborhoodMode D) wallet db :
    database_new to_vec sign finder now key mode wallet = Ret db → reachable key db
| reach_step db o db' : reachable key db → db_op_ok key o = true → db_step db o = Ret db' →
    reachable key db'.


Lemma database_new_consistent {D} to_vec sign finder now key (mode : NeighborhoodMode D) wallet db :
  database_new to_vec sign finder now key mode wallet = Ret db → consistent db ∧ this_node db = key.
Proof.
  unfold database_new. intros H. apply run_bind_ret in H as (loc & _ & H).
  apply run_bind_ret in H as (r1 & H1 & H). apply run_bind_ret in H as (r2 & H2 & H).
  apply run_bind_ret in H as (r3 & H3 & [= <-]). split; [|done].
  unfold node_record_new, regenerate_signed_gossip in H1. apply run_bind_ret in H1 as ([] & _ & [= <-]).
  unfold regenerate_signed_gossip in H3. apply run_bind_ret in H3 as ([] & _ & [= <-]).
  apply consistent_new; destruct (mode_node_addr_opt mode) as [na|];
    [cbn in H2; by injection H2 as <-|by injection H2 as <-|cbn in H2; by injection H2 as <-|by injection H2 as <-].
Qed.

Lemma reachable_consistent key db : reachable key db → consistent db ∧ this_node db = key.
Proof.
  induction 1 as [D to_vec sign finder now mode wallet db Hn|db o db' _ [Hc Ht] Hok Hs];
    [by apply (database_new_consistent _ _ _ _ _ _ _ _ Hn)|].
  pose proof (db_step_consistent db o Hc) as H. rewrite Ht, Hs in H. destruct (H Hok). done.
Qed.

(** C34: the database stays consistent. In every state reached from a new database
    by any of its operations, as long as none removes or overwrites this node's
    own record (its callers do not), records are filed under their own keys, the
    index by address leads only to records with that address, and the record of
    this node is present and does not list itself as a neighbor. Every further
    such operation returns, except in three cases: an update of this node's record
    when its version is used up, culling in the first seconds of the epoch, and a
    new public address for a node that has none. *)
Theorem database_stays_consistent (key : PublicKey) (db : NeighborhoodDatabase) :
  reachable key db →
  consistent db ∧ this_node db = key ∧
  ∀ o, db_op_ok key o = true → (∃ db', db_step db o = Ret db') ∨ db_panics db o.
Proof.
  intros [Hc Ht]%reachable_consistent. split_and!; [done..|]. intros o Hok.
  pose proof (db_step_consistent db o Hc) as H. rewrite Ht in H. specialize (H Hok).
  destruct (db_step db o) as [db'|]; [left; by exists db'|by right].
Qed.

(** Culling removes exactly the isolated nodes.  In every reachable state,
    a record survives culling, unchanged, exactly when some record lists its
    node (this node counts as listed) or it was updated within the last thirty
    seconds. *)
Lemma culling_exact (key : PublicKey) (db : NeighborhoodDatabase) (now : Z) :
  reachable key db → ISOLATED_NODE_GRACE_PERIOD_SECS ≤ now →
  ∃ db', cull_dead_nodes db now = Ret db' ∧
    ∀ k r, by_public_key db' !! k = Some r ↔
      by_public_key db !! k = Some r ∧
      (referenced db k ∨ now - ISOLATED_NODE_GRACE_PERIOD_SECS < last_updated r).
Proof.
  intros [Hc _]%reachable_consistent Hnow.
  destruct (cull_spec db now Hc Hnow) as (db' & ? & _ & _ & ?). by exists db'.
Qed.

(** Full neighborship, three ways, and its symmetry. *)
Lemma full_neighbor_agrees db k r k2 :
  consistent db → by_public_key db !! k = Some r →
  has_full_neighbor r db k2 = db_has_full_neighbor db k k2 ∧
  (k2 ∈ full_neighbor_keys r db ↔ db_has_full_neighbor db k k2 = true) ∧
  db_has_full_neighbor db k k2 = db_has_full_neighbor db k2 k.
Proof.
  intros (Hk & _) Hr. pose proof (Hk _ _ Hr) as Hkey.
  assert (db_has_full_neighbor db k k2 =
    bool_decide (k2 ∈ half_neighbor_keys r) &&
    match node_by_key db k2 with Some n => bool_decide (k ∈ half_neighbor_keys n) | None => false end) as Hdb.
  { unfold db_has_full_neighbor, db_has_half_neighbor, node_by_key. by rewrite Hr. }
  split_and!.
  - rewrite Hdb. unfold has_full_neighbor. rewrite Hkey. by case_bool_decide.
  - rewrite Hdb. unfold full_neighbor_keys. rewrite elem_of_filter, andb_true_iff, bool_decide_eq_true.
    unfold has_half_neighbor. rewrite Hkey. tauto.
  - unfold db_has_full_neighbor. apply andb_comm.
Qed.
End neighborhood.

(** ** A concrete database *)

Definition demo_key (n : Z) : PublicKey := [n].

Definition demo_inner (n : Z) (ns : list Z) : NodeRecordInner (Wallet := nat) :=
  MkInner (demo_key n) 7%nat (MkRates 1 2 3 4) (list_to_set (demo_key <$> ns)) true true 0 None.

Definition demo_record (n : Z) (ns : list Z) : NodeRecord (Wallet := nat) :=
  MkRecord (demo_inner n ns) (MkMetadata 100 (Some (MkNodeAddr (IpV4 n) [5000])) ∅ None 0) [] [].

Definition demo_finder : Finder.CountryCodeFinder := Finder.MkFinder (Countries.new []) [] [].

Definition demo_new : run (NeighborhoodDatabase (Wallet := nat)) :=
  database_new (λ _, Some []) Some demo_finder 50 (demo_key 1)
    (OriginateOnly (D := unit) [] ZERO_RATE_PACK) 7%nat.

Definition demo_db_ops : list db_op :=
  [AddNode (demo_record 2 [1; 3]); AddNode (demo_record 3 [2]); AddNode (demo_record 4 []);
   AddHalfNeighbor (demo_key 2) 120; RemoveNeighbor (demo_key 3)].

Definition demo_db : run (NeighborhoodDatabase (Wallet := nat)) :=
  db ← demo_new; foldl (λ m o, db ← m; db_step db o) (Ret db) demo_db_ops.

Lemma reachable_history {Wallet : Type} `{!EqDecision Wallet} (key : PublicKey) (ops : list (db_op (Wallet := Wallet))) (m : run NeighborhoodDatabase) db' :
  (∀ db, m = Ret db → reachable key db) → forallb (db_op_ok key) ops = true →
  foldl (λ m o, db ← m; db_step db o) m ops = Ret db' → reachable key db'.
Proof.
  revert m. induction ops as [|o ops IH]; intros m Hm Hok H; [by apply Hm|].
  apply andb_prop in Hok as [Ho Hok]. apply (IH (db ← m; db_step db o)); [|done|done].
  intros db1 H1. apply run_bind_ret in H1 as (db0 & H0 & H1). by apply (reach_step key db0 o db1 (Hm _ H0)).
Qed.

Lemma demo_reachable db : demo_db = Ret db → reachable (demo_key 1) db.
Proof.
  unfold demo_db. intros H. apply run_bind_ret in H as (db0 & H0 & H).
  apply (reachable_history _ demo_db_ops (Ret db0)); [|vm_compute; done|done].
  intros db1 [= <-]. unfold demo_new in H0. by eapply reach_new.
Qed.

(** The record of node 4, which no record lists, is culled once it is old. *)
Definition demo_state : NeighborhoodDatabase (Wallet := nat) :=
  match demo_db with Ret db => db | Panic => MkDb [] ∅ ∅ end.

Lemma demo_state_eq : demo_db = Ret demo_state.
Proof. unfold demo_state. by destruct demo_db eqn:E; [|vm_compute in E]. Qed.

Lemma database_stays_consistent_witness :
  consistent demo_state ∧ size (by_public_key demo_state) = 4%nat ∧
  ∃ db', db_step demo_state (RemoveNeighbor (demo_key 2)) = Ret db'.
Proof.
  destruct (database_stays_consistent (demo_key 1) demo_state (demo_reachable _ demo_state_eq)) as (Hc & _ & Hs).
  split; [exact Hc|]. split; [vm_compute; reflexivity|].
  destruct (Hs (RemoveNeighbor (demo_key 2)) eq_refl) as [H|(r & Hr & _ & Hv)]; [exact H|].
  exfalso. vm_compute in Hr. injection Hr as <-. vm_compute in Hv. by apply Hv.
Defined.

End Neighborhood.
