(* ===== verification/Gossip.v ===== *)
(** * Gossip

    Models [node/src/neighborhood/gossip.rs] (records, builder, conversions) and
    [node/src/neighborhood/gossip_producer.rs].

    Serialization and signing are parameters, as in [NeighborhoodDatabase.v].
    The producer keeps the time of its last look for dead nodes; the readings of
    the clock are arguments.  The order in which a [HashSet] of keys is iterated
    is a parameter.  The rendering of gossip for the log is left out. *)
From S2P Require Import Prelude.
From S2P Require Import CountryBlockStream NeighborhoodDatabase.
From stdpp Require Import base list gmap.

Module Gossip.
Import Stream Neighborhood.
Local Open Scope Z_scope.

Definition DEAD_NODE_CHECK_INTERVAL_SECS : Z := 60.

Section gossip.
Context {Wallet : Type} `{!EqDecision Wallet}.
Abbreviation NodeRecord := (NodeRecord (Wallet := Wallet)).
Abbreviation NodeRecordInner := (NodeRecordInner (Wallet := Wallet)).
Abbreviation NeighborhoodDatabase := (NeighborhoodDatabase (Wallet := Wallet)).
Abbreviation AccessibleGossipRecord := (AccessibleGossipRecord (Wallet := Wallet)).

(** ** Records *)

Record GossipNodeRecord := MkGnr {
  signed_data : list Z;
  g_signature : list Z;
  g_node_addr_opt : option NodeAddr
}.

(** The conversions into a [GossipNodeRecord]. *)
Definition gnr_from_record (node_record : NodeRecord) : GossipNodeRecord :=
  MkGnr (signed_gossip node_record) (signature node_record) (node_addr_opt node_record).

Definition gnr_from_agr (agr : AccessibleGossipRecord) : GossipNodeRecord :=
  MkGnr (a_signed_gossip agr) (a_signature agr) (a_node_addr_opt agr).

Definition mask (gnr : GossipNodeRecord) : GossipNodeRecord := MkGnr (signed_data gnr) (g_signature gnr) None.

Definition gnr_from_database (database : NeighborhoodDatabase) (public_key_ref : PublicKey) (reveal_node_addr : bool)
    : run GossipNodeRecord :=
  node_record ← expect (node_by_key database public_key_ref);
  let gnr := gnr_from_record node_record in
  Ret (if reveal_node_addr then gnr else mask gnr).

Definition gnr_from_inner (to_vec : NodeRecordInner → option (list Z)) (sign : list Z → option (list Z))
    (i : NodeRecordInner) (addr_opt : option NodeAddr) : run GossipNodeRecord :=
  signed ← expect (to_vec i); sig ← expect (sign signed); Ret (MkGnr signed sig addr_opt).

(** [serde_cbor::de::from_slice] of an inner record. *)
Context (from_slice : list Z → option NodeRecordInner).

Definition agr_try_from (value : GossipNodeRecord) : option AccessibleGossipRecord :=
  match from_slice (signed_data value) with
  | Some i => Some (MkAgr (signed_data value) (g_signature value) (g_node_addr_opt value) i)
  | None => None
  end.

(** [Gossip_0v1] is its vector of records. *)
Definition gossip_try_into (node_records : list GossipNodeRecord) : option (list AccessibleGossipRecord) :=
  let results := agr_try_from <$> node_records in
  if existsb (λ r, match r with None => true | Some _ => false end) results then None
  else Some (omap id results).

Definition agr_regenerate_signed_gossip (to_vec : NodeRecordInner → option (list Z)) (sign : list Z → option (list Z))
    (agr : AccessibleGossipRecord) : run AccessibleGossipRecord :=
  '(signed, sig) ← sign_gossip to_vec sign (a_inner agr);
  Ret (MkAgr signed sig (a_node_addr_opt agr) (a_inner agr)).

(** ** The builder *)

Record GossipBuilder := MkBuilder {
  gossip : list GossipNodeRecord;
  keys_so_far : gset PublicKey
}.

Definition builder_new : GossipBuilder := MkBuilder [] ∅.

Definition builder_node (db : NeighborhoodDatabase) (self : GossipBuilder) (public_key_ref : PublicKey)
    (reveal_node_addr : bool) : run GossipBuilder :=
  panic_if (bool_decide (public_key_ref ∈ keys_so_far self))
    (match node_by_key db public_key_ref with
     | None => Panic
     | Some node_record =>
         let gnr := gnr_from_record node_record in
         let gnr := if negb reveal_node_addr || negb (accepts_connections node_record) then mask gnr else gnr in
         Ret (MkBuilder (gossip self ++ [gnr]) ({[ public_key node_record ]} ∪ keys_so_far self))
     end).

Definition build (self : GossipBuilder) : list GossipNodeRecord := gossip self.

(** ** The producer *)

Context (order : gset PublicKey → list PublicKey).

(** The fold over the nodes to be told about. *)
Fixpoint produce_loop (db : NeighborhoodDatabase) (target_node : NodeRecord) (rs : list NodeRecord) (b : GossipBuilder)
    : run GossipBuilder :=
  match rs with
  | [] => Ret b
  | r :: rs =>
      root_node ← root db;
      let reveal_node_addr := accepts_connections r
        && (bool_decide (public_key r = public_key root_node) || has_half_neighbor target_node (public_key r)) in
      b ← builder_node db b (public_key r) reveal_node_addr;
      produce_loop db target_node rs b
  end.

(** [now], [now_cull] and [now_set]: the clock when the interval is tested, when
    nodes are culled and when the time is kept. *)
Definition produce (last_dead_node_check : Z) (database : NeighborhoodDatabase) (target : PublicKey)
    (now now_cull now_set : Z) : run (Z * NeighborhoodDatabase * option (list GossipNodeRecord)) :=
  panic_if (now <? last_dead_node_check)
   ('(last_dead_node_check, database) ←
      (if DEAD_NODE_CHECK_INTERVAL_SECS <=? now - last_dead_node_check
       then db ← cull_dead_nodes database now_cull; Ret (now_set, db)
       else Ret (last_dead_node_check, database));
    match node_by_key database target with
    | None => Ret (last_dead_node_check, database, None)
    | Some target_node =>
        referenced_keys ← referenced_node_keys database;
        let ks := List.filter (λ k, negb (bool_decide (k = target)) && bool_decide (k ∈ referenced_keys))
                    (order (keys database)) in
        b ← produce_loop database target_node (omap (node_by_key database) ks) builder_new;
        Ret (last_dead_node_check, database, Some (build b))
    end).

Definition produce_debut (database : NeighborhoodDatabase) : run (list GossipNodeRecord) :=
  root_node ← root database;
  b ← builder_node database builder_new (public_key root_node) true;
  Ret (build b).

(** ** What is told, and what is kept back *)

Definition reveals (db : NeighborhoodDatabase) (target_node r : NodeRecord) : bool :=
  accepts_connections r
  && (bool_decide (public_key r = this_node db) || has_half_neighbor target_node (public_key r)).

Definition gossip_about (db : NeighborhoodDatabase) (target_node r : NodeRecord) : GossipNodeRecord :=
  MkGnr (signed_gossip r) (signature r) (if reveals db target_node r then node_addr_opt r else None).

Lemma builder_node_spec db b r :
  node_by_key db (public_key r) = Some r → public_key r ∉ keys_so_far b → ∀ reveal,
  builder_node db b (public_key r) reveal =
    Ret (MkBuilder (gossip b ++ [MkGnr (signed_gossip r) (signature r)
           (if reveal && accepts_connections r then node_addr_opt r else None)])
         ({[ public_key r ]} ∪ keys_so_far b)).
Proof.
  intros Hr Hk reveal. unfold builder_node. rewrite bool_decide_eq_false_2 by done. simpl. rewrite Hr.
  by destruct reveal, (accepts_connections r).
Qed.

Lemma produce_loop_spec db target_node rs b :
  consistent db → (∀ r, r ∈ rs → node_by_key db (public_key r) = Some r) →
  NoDup (public_key <$> rs) → (∀ r, r ∈ rs → public_key r ∉ keys_so_far b) →
  ∃ ks, produce_loop db target_node rs b = Ret (MkBuilder (gossip b ++ (gossip_about db target_node <$> rs)) ks).
Proof.
  intros Hc. revert b. induction rs as [|r rs IH]; intros b Hrs Hnd Hb.
  { exists (keys_so_far b). simpl. rewrite app_nil_r. by destruct b. }
  cbn [produce_loop]. destruct (consistent_root db Hc) as (root_node & -> & Hroot & _). cbn [mbind run_bind].
  rewrite fmap_cons in Hnd. apply NoDup_cons in Hnd as [Hnot Hnd].
  rewrite builder_node_spec by (try apply Hrs; try apply Hb; by left). cbn [mbind run_bind].
  destruct (IH (MkBuilder (gossip b ++ [gossip_about db target_node r]) ({[ public_key r ]} ∪ keys_so_far b)))
    as (ks & Hks); [by intros; apply Hrs; right|done| |].
  { intros r' Hr'. simpl. apply not_elem_of_union. split; [|apply Hb; by right].
    rewrite elem_of_singleton. intros He. apply Hnot. rewrite <- He. by apply list_elem_of_fmap_2. }
  exists ks. rewrite fmap_cons. simpl in Hks. rewrite <- (assoc_L (++)) in Hks. simpl in Hks. rewrite <- Hks.
  unfold gossip_about, reveals. rewrite Hroot. do 3 f_equal. by destruct (accepts_connections r), (_ || _).
Qed.


(** The nodes the target is told about. *)
Definition told_about (db : NeighborhoodDatabase) (target : PublicKey) (r : NodeRecord) : Prop :=
  node_by_key db (public_key r) = Some r ∧ public_key r ≠ target ∧ referenced db (public_key r).

Hypothesis Horder : ∀ s, order s ≡ₚ elements s.

Lemma to_tell_spec (db : NeighborhoodDatabase) (target : PublicKey) (s : gset PublicKey) :
  consistent db → (∀ k, k ∈ s ↔ referenced db k) →
  let rs := omap (node_by_key db) (List.filter (λ k, negb (bool_decide (k = target)) && bool_decide (k ∈ s)) (order (keys db))) in
  NoDup (public_key <$> rs) ∧ ∀ r, r ∈ rs ↔ told_about db target r.
Proof.
  intros Hc Hs rs. pose proof (proj1 Hc) as Hkey.
  assert (∀ ks, public_key <$> omap (node_by_key db) ks `sublist_of` ks) as Hsub.
  { induction ks as [|k ks IH]; [done|]. simpl. destruct (node_by_key db k) as [r|] eqn:Er; [|by apply sublist_cons].
    rewrite fmap_cons, (Hkey k r Er). by apply sublist_skip. }
  split.
  - eapply sublist_NoDup; [|apply Hsub]. apply NoDup_ListNoDup, List.NoDup_filter, NoDup_ListNoDup.
    rewrite Horder. apply NoDup_elements.
  - intros r. unfold rs. rewrite list_elem_of_omap. setoid_rewrite list_elem_of_In. setoid_rewrite filter_In.
    setoid_rewrite <- list_elem_of_In. unfold told_about. split.
    + intros (k & [Hk Hb] & Hr). apply andb_prop in Hb as [H1 H2%bool_decide_eq_true].
      apply negb_true_iff, bool_decide_eq_false in H1. rewrite (Hkey k r Hr). split_and!; [done|done|by apply Hs].
    + intros (Hr & Hne & Href). exists (public_key r). split; [|done]. split.
      * rewrite Horder, elem_of_elements. unfold keys. apply elem_of_dom. by eexists.
      * rewrite bool_decide_eq_false_2, bool_decide_eq_true_2 by (done || by apply Hs). done.
Qed.

Lemma produce_spec (last_check : Z) (db : NeighborhoodDatabase) (target : PublicKey)
    (now now_cull now_set : Z) :
  consistent db → last_check ≤ now → ISOLATED_NODE_GRACE_PERIOD_SECS ≤ now_cull →
  ∃ last_check' db' res, produce last_check db target now now_cull now_set = Ret (last_check', db', res) ∧
    consistent db' ∧
    (if DEAD_NODE_CHECK_INTERVAL_SECS <=? now - last_check
     then cull_dead_nodes db now_cull = Ret db' ∧ last_check' = now_set else db' = db ∧ last_check' = last_check) ∧
    match node_by_key db' target with
    | None => res = None
    | Some target_node =>
        ∃ rs, res = Some (gossip_about db' target_node <$> rs) ∧ NoDup (public_key <$> rs) ∧
          (∀ r, r ∈ rs ↔ told_about db' target r) ∧
          (∀ r a, r ∈ rs → g_node_addr_opt (gossip_about db' target_node r) = Some a →
             node_addr_opt r = Some a ∧ accepts_connections r = true ∧
             (public_key r = this_node db' ∨ public_key r ∈ half_neighbor_keys target_node))
    end.
Proof.
  intros Hc Hnow Hcull. unfold produce. destruct (Z.ltb_spec now last_check); [lia|]. simpl panic_if.
  assert (∃ last_check' db', (if DEAD_NODE_CHECK_INTERVAL_SECS <=? now - last_check
    then db' ← cull_dead_nodes db now_cull; Ret (now_set, db') else Ret (last_check, db)) = Ret (last_check', db') ∧
    consistent db' ∧ (if DEAD_NODE_CHECK_INTERVAL_SECS <=? now - last_check
     then cull_dead_nodes db now_cull = Ret db' ∧ last_check' = now_set else db' = db ∧ last_check' = last_check))
    as (last_check' & db' & -> & Hc' & Hcase).
  { destruct (_ <=? _); [|by exists last_check, db].
    destruct (cull_spec db now_cull Hc Hcull) as (db' & Hdb' & ? & _). exists now_set, db'. by rewrite Hdb'. }
  cbn [mbind run_bind]. exists last_check', db'. destruct (node_by_key db' target) as [target_node|].
  2: { exists None. split_and!; done. }
  destruct (referenced_node_keys_spec db' Hc') as (s & -> & Hs). cbn [mbind run_bind].
  destruct (to_tell_spec db' target s Hc' Hs) as [Hnd Hrs].
  set (rs := omap _ _) in *.
  destruct (produce_loop_spec db' target_node rs builder_new Hc') as (ks & ->); [by intros r [? _]%Hrs|done|intros; set_solver|].
  cbn [mbind run_bind]. eexists. split; [done|]. split; [done|]. split; [done|]. exists rs.
  split; [done|]. split; [done|]. split; [done|].
  intros r a Hr. simpl. unfold reveals. destruct (accepts_connections r); [|done]. simpl.
  destruct (bool_decide (public_key r = this_node db')) eqn:E1; [apply bool_decide_eq_true in E1; by auto|]. simpl.
  destruct (has_half_neighbor target_node (public_key r)) eqn:E2; [|done].
  apply bool_decide_eq_true in E2. by auto.
Qed.

(** C35: gossip tells a node about the whole neighborhood and reveals no address
    it should not.  From a consistent database with a clock that does not run
    backwards, the producer returns.  If it is time to look for dead nodes they
    are culled first.  A target that is not in the database gets nothing; another
    one gets one record, signed as it is stored, about every node that somebody
    lists, except itself; and the address of a node is in its record only if the
    node accepts connections and is this node or listed by the target itself. *)
Theorem gossip_reveals_only_known (last_check : Z) (db : NeighborhoodDatabase) (target : PublicKey)
    (now now_cull now_set : Z) :
  consistent db → last_check ≤ now → ISOLATED_NODE_GRACE_PERIOD_SECS ≤ now_cull →
  ∃ last_check' db' res, produce last_check db target now now_cull now_set = Ret (last_check', db', res) ∧
    consistent db' ∧
    (if DEAD_NODE_CHECK_INTERVAL_SECS <=? now - last_check
     then cull_dead_nodes db now_cull = Ret db' ∧ last_check' = now_set else db' = db ∧ last_check' = last_check) ∧
    match node_by_key db' target with
    | None => res = None
    | Some target_node =>
        ∃ rs, res = Some (gossip_about db' target_node <$> rs) ∧ NoDup (public_key <$> rs) ∧
          (∀ r, r ∈ rs ↔ told_about db' target r) ∧
          (∀ r a, r ∈ rs → g_node_addr_opt (gossip_about db' target_node r) = Some a →
             node_addr_opt r = Some a ∧ accepts_connections r = true ∧
             (public_key r = this_node db' ∨ public_key r ∈ half_neighbor_keys target_node))
    end.
Proof. apply produce_spec. Qed.

(** Records that were signed properly are read back as they are. *)
Lemma gossip_read_back db target_node rs :
  (∀ r, r ∈ rs → from_slice (signed_gossip r) = Some (inner r)) →
  gossip_try_into (gossip_about db target_node <$> rs) =
    Some ((λ r, MkAgr (signed_gossip r) (signature r) (if reveals db target_node r then node_addr_opt r else None) (inner r)) <$> rs).
Proof.
  intros Hrs. unfold gossip_try_into.
  set (read := λ r, MkAgr (signed_gossip r) (signature r) (if reveals db target_node r then node_addr_opt r else None) (inner r)).
  assert (agr_try_from <$> (gossip_about db target_node <$> rs) = Some <$> (read <$> rs)) as ->.
  { rewrite <- !list_fmap_compose. apply list_fmap_ext. intros i r Hr%list_elem_of_lookup_2.
    unfold compose, agr_try_from. simpl. by rewrite Hrs. }
  clear Hrs. generalize (read <$> rs). intros l. cbv zeta.
  assert (existsb (λ r, match r with None => true | Some _ => false end) (Some <$> l) = false) as ->
    by (by induction l as [|x l IH]).
  f_equal. induction l as [|x l IH]; [done|]. rewrite fmap_cons. simpl. f_equal. exact IH.
Qed.

End gossip.

(** ** A concrete gossip *)

Definition key_order (s : gset PublicKey) : list PublicKey := elements s.

Lemma demo_state_consistent : consistent demo_state.
Proof. by destruct (reachable_consistent (demo_key 1) demo_state (demo_reachable _ demo_state_eq)). Qed.

(** Node 3 lists node 2 and is told its address; it is not told about itself,
    nor about node 4, which nobody lists. *)
Lemma gossip_reveals_only_known_witness :
  ∃ db' res, produce key_order 0 demo_state (demo_key 3) 50 50 50 = Ret (0, db', res) ∧
    g_node_addr_opt <$> default [] res = [None; Some (MkNodeAddr (IpV4 2) [5000])] ∧
    ∃ target_node rs, res = Some (gossip_about db' target_node <$> rs) ∧ ∀ r, r ∈ rs ↔ told_about db' (demo_key 3) r.
Proof.
  destruct (gossip_reveals_only_known key_order ltac:(reflexivity) 0 demo_state (demo_key 3) 50 50 50 demo_state_consistent
    ltac:(discriminate) ltac:(discriminate)) as (last' & db' & res & Hrun & _ & [-> ->] & Hres).
  exists demo_state, res. split; [exact Hrun|]. split.
  - vm_compute in Hrun. injection Hrun as <-. reflexivity.
  - destruct (node_by_key demo_state (demo_key 3)) as [t|] eqn:Et.
    + destruct Hres as (rs & Hres & _ & Hrs & _). exists t, rs. split; [exact Hres|exact Hrs].
    + exfalso. vm_compute in Et. discriminate Et.
Defined.

End Gossip.
