(* ===== verification/ConnectionStatus.v ===== *)
(** * Connection progress

    Models [node/src/neighborhood/overall_connection_status.rs] and the handlers
    of the neighborhood actor that use it ([node/src/neighborhood/mod.rs]:
    [ConnectionProgressMessage], [AskAboutDebutGossipMessage],
    [handle_gossip_failure], [handle_connection_status_message]).

    A [&mut ConnectionProgress] found in the vector is its index; a handler
    returns the new status and what it sends: a broadcast to the user interfaces,
    a reminder to itself, a stop of the actor system.  Log output is left out. *)
From S2P Require Import Prelude.
From S2P Require Import CountryBlockStream NeighborhoodDatabase.
From stdpp Require Import base list gmap.

Module ConnectionStatus.
Import Stream Neighborhood.

Inductive ConnectionStageErrors := TcpConnectionFailed | NoGossipResponseReceived | PassLoopFound.

Inductive ConnectionStage :=
| StageZero
| TcpConnectionEstablished
| NeighborshipEstablished
| Failed (e : ConnectionStageErrors).

Inductive OverallConnectionStage := NotConnected | ConnectedToNeighbor | RouteFound.

Inductive ConnectionProgressEvent :=
| EvTcpConnectionSuccessful
| EvTcpConnectionFailed
| EvNoGossipResponseReceived
| EvPassLoopFound
| EvStandardGossipReceived
| EvIntroductionGossipReceived (new_node : IpAddr)
| EvPassGossipReceived (new_pass_target : IpAddr).

Record ConnectionProgressMessage := MkProgressMessage {
  peer_addr : IpAddr;
  event : ConnectionProgressEvent
}.

Global Instance ConnectionStageErrors_eq_dec : EqDecision ConnectionStageErrors.
Proof. solve_decision. Defined.
Global Instance ConnectionStage_eq_dec : EqDecision ConnectionStage.
Proof. solve_decision. Defined.
Global Instance OverallConnectionStage_eq_dec : EqDecision OverallConnectionStage.
Proof. solve_decision. Defined.

(** [usize::try_from(&ConnectionStage)] *)
Definition stage_number (connection_stage : ConnectionStage) : option nat :=
  match connection_stage with
  | StageZero => Some 0
  | TcpConnectionEstablished => Some 1
  | NeighborshipEstablished => Some 2
  | Failed _ => None
  end.

Section status.
Context {Chain : Type} `{!EqDecision Chain}.

Record NodeDescriptor := MkDescriptor {
  blockchain : Chain;
  encryption_public_key : PublicKey;
  descriptor_addr_opt : option NodeAddr
}.
Global Instance NodeDescriptor_eq_dec : EqDecision NodeDescriptor.
Proof. solve_decision. Defined.

Record ConnectionProgress := MkProgress {
  initial_node_descriptor : NodeDescriptor;
  current_peer_addr : IpAddr;
  connection_stage : ConnectionStage
}.
Global Instance ConnectionProgress_eq_dec : EqDecision ConnectionProgress.
Proof. solve_decision. Defined.

Record OverallConnectionStatus := MkStatus {
  stage : OverallConnectionStage;
  progress : list ConnectionProgress
}.

(** What the handlers send. *)
Inductive Sent :=
| UiConnectionChangeBroadcast (s : OverallConnectionStage)
| UiConnectionStatusResponse (client_id context_id : Z) (s : OverallConnectionStage)
| AskAboutDebutGossip (prev_connection_progress : ConnectionProgress)
| StopWithCode (code : Z).

(** ** One connection *)

Definition progress_new (node_descriptor : NodeDescriptor) : run ConnectionProgress :=
  addr ← expect (descriptor_addr_opt node_descriptor);
  Ret (MkProgress node_descriptor (ip_addr addr) StageZero).

Definition update_stage (self : ConnectionProgress) (new_stage : ConnectionStage) : run ConnectionProgress :=
  let updated := MkProgress (initial_node_descriptor self) (current_peer_addr self) new_stage in
  match stage_number (connection_stage self), stage_number new_stage with
  | Some current_stage_num, Some new_stage_num =>
      panic_if (negb (new_stage_num =? current_stage_num + 1)) (Ret updated)
  | _, _ => Ret updated
  end.

Definition handle_pass_gossip (self : ConnectionProgress) (new_pass_target : IpAddr) : run ConnectionProgress :=
  match connection_stage self with
  | StageZero | TcpConnectionEstablished => Ret (MkProgress (initial_node_descriptor self) new_pass_target StageZero)
  | _ => Panic
  end.

Definition update_connection_stage (connection_progress : ConnectionProgress) (ev : ConnectionProgressEvent)
    : run ConnectionProgress :=
  match ev with
  | EvTcpConnectionSuccessful => update_stage connection_progress TcpConnectionEstablished
  | EvTcpConnectionFailed => update_stage connection_progress (Failed TcpConnectionFailed)
  | EvIntroductionGossipReceived _ => update_stage connection_progress NeighborshipEstablished
  | EvStandardGossipReceived => update_stage connection_progress NeighborshipEstablished
  | EvPassGossipReceived new_pass_target => handle_pass_gossip connection_progress new_pass_target
  | EvPassLoopFound => update_stage connection_progress (Failed PassLoopFound)
  | EvNoGossipResponseReceived => update_stage connection_progress (Failed NoGossipResponseReceived)
  end.

(** ** The overall status *)

Fixpoint progress_all (ds : list NodeDescriptor) : run (list ConnectionProgress) :=
  match ds with
  | [] => Ret []
  | d :: ds => p ← progress_new d; ps ← progress_all ds; Ret (p :: ps)
  end.

Definition status_new (initial_node_descriptors : list NodeDescriptor) : run OverallConnectionStatus :=
  ps ← progress_all initial_node_descriptors; Ret (MkStatus NotConnected ps).

Definition iter_initial_node_descriptors (self : OverallConnectionStatus) : list NodeDescriptor :=
  initial_node_descriptor <$> progress self.

Definition get_connection_progress_by_ip (self : OverallConnectionStatus) (addr : IpAddr)
    : option (nat * ConnectionProgress) :=
  list_find (λ p, current_peer_addr p = addr) (progress self).

Definition get_connection_progress_by_desc (self : OverallConnectionStatus) (d : NodeDescriptor)
    : option (nat * ConnectionProgress) :=
  list_find (λ p, initial_node_descriptor p = d) (progress self).

Definition get_peer_addrs (self : OverallConnectionStatus) : list IpAddr := current_peer_addr <$> progress self.

Definition get_connection_progress_to_modify (self : OverallConnectionStatus) (msg : ConnectionProgressMessage)
    : option (nat * ConnectionProgress) :=
  let is_duplicate :=
    match event msg with
    | EvPassGossipReceived pass_target => bool_decide (pass_target ∈ get_peer_addrs self)
    | _ => false
    end in
  if is_duplicate then None else get_connection_progress_by_ip self (peer_addr msg).

Definition update_ocs_stage_and_send_message_to_ui (self : OverallConnectionStatus) (new_stage : OverallConnectionStage)
    : OverallConnectionStatus * list Sent :=
  if decide (new_stage ≠ stage self)
  then (MkStatus new_stage (progress self), [UiConnectionChangeBroadcast new_stage])
  else (self, []).

Definition is_empty (self : OverallConnectionStatus) : bool := bool_decide (progress self = []).

(** [Vec::remove] panics out of range. *)
Definition remove (self : OverallConnectionStatus) (index : nat) : run (OverallConnectionStatus * NodeDescriptor) :=
  removed ← get (progress self) index;
  Ret (MkStatus (stage self) (delete index (progress self)), initial_node_descriptor removed).

Definition can_make_routes (self : OverallConnectionStatus) : bool := bool_decide (stage self = RouteFound).

(** Writing through the reference. *)
Definition set_progress (self : OverallConnectionStatus) (i : nat) (p : ConnectionProgress) : OverallConnectionStatus :=
  MkStatus (stage self) (<[i := p]> (progress self)).

(** ** Handlers *)

(** Whether the user interface has been bound. *)
Context (ui_bound : bool).

Definition send_ask_about_debut_gossip_message (self : OverallConnectionStatus) (addr : IpAddr) : run (list Sent) :=
  '(_, p) ← expect (get_connection_progress_by_ip self addr);
  Ret [AskAboutDebutGossip p].

Definition handle_connection_progress (self : OverallConnectionStatus) (msg : ConnectionProgressMessage)
    : run (OverallConnectionStatus * list Sent) :=
  match get_connection_progress_to_modify self msg with
  | Some (i, connection_progress) =>
      p ← update_connection_stage connection_progress (event msg);
      let self := set_progress self i p in
      match event msg with
      | EvTcpConnectionSuccessful => out ← send_ask_about_debut_gossip_message self (peer_addr msg); Ret (self, out)
      | EvIntroductionGossipReceived _ | EvStandardGossipReceived =>
          panic_if (negb ui_bound) (Ret (update_ocs_stage_and_send_message_to_ui self ConnectedToNeighbor))
      | _ => Ret (self, [])
      end
  | None => Ret (self, [])
  end.

Definition handle_ask_about_debut_gossip (self : OverallConnectionStatus) (prev_connection_progress : ConnectionProgress)
    : run OverallConnectionStatus :=
  match get_connection_progress_by_desc self (initial_node_descriptor prev_connection_progress) with
  | Some (i, current_connection_progress) =>
      if decide (prev_connection_progress = current_connection_progress) then
        p ← update_connection_stage current_connection_progress EvNoGossipResponseReceived;
        Ret (set_progress self i p)
      else Ret self
  | None => Ret self
  end.

(** An unknown source is [unimplemented!]. *)
Definition handle_gossip_failure (self : OverallConnectionStatus) (failure_source : IpAddr)
    : run (OverallConnectionStatus * list Sent) :=
  match list_find (λ n, ip_addr <$> descriptor_addr_opt n = Some failure_source) (iter_initial_node_descriptors self) with
  | None => Panic
  | Some (position, _) =>
      '(self, _) ← remove self position;
      Ret (self, if is_empty self then [StopWithCode 1] else [])
  end.

Definition handle_connection_status_message (self : OverallConnectionStatus) (client_id context_id : Z) : run (list Sent) :=
  panic_if (negb ui_bound) (Ret [UiConnectionStatusResponse client_id context_id (stage self)]).


(** ** What the events mean *)

(** The life of a connection: it goes up one stage at a time, starts over when
    it is passed on, may fail at any time, and a failed one may come back at any
    stage. *)
Inductive advances : ConnectionStage → ConnectionProgressEvent → ConnectionStage → Prop :=
| adv_tcp : advances StageZero EvTcpConnectionSuccessful TcpConnectionEstablished
| adv_tcp_again e : advances (Failed e) EvTcpConnectionSuccessful TcpConnectionEstablished
| adv_introduction n : advances TcpConnectionEstablished (EvIntroductionGossipReceived n) NeighborshipEstablished
| adv_introduction_again e n : advances (Failed e) (EvIntroductionGossipReceived n) NeighborshipEstablished
| adv_standard : advances TcpConnectionEstablished EvStandardGossipReceived NeighborshipEstablished
| adv_standard_again e : advances (Failed e) EvStandardGossipReceived NeighborshipEstablished
| adv_pass n : advances TcpConnectionEstablished (EvPassGossipReceived n) StageZero
| adv_pass_early n : advances StageZero (EvPassGossipReceived n) StageZero
| adv_tcp_failed s : advances s EvTcpConnectionFailed (Failed TcpConnectionFailed)
| adv_loop s : advances s EvPassLoopFound (Failed PassLoopFound)
| adv_no_response s : advances s EvNoGossipResponseReceived (Failed NoGossipResponseReceived).

(** Where the connection is to be found afterwards. *)
Definition next_addr (peer : IpAddr) (ev : ConnectionProgressEvent) : IpAddr :=
  match ev with EvPassGossipReceived t => t | _ => peer end.

Lemma update_connection_stage_spec p ev :
  match update_connection_stage p ev with
  | Ret p' => advances (connection_stage p) ev (connection_stage p') ∧
      initial_node_descriptor p' = initial_node_descriptor p ∧ current_peer_addr p' = next_addr (current_peer_addr p) ev
  | Panic => ∀ s, ¬ advances (connection_stage p) ev s
  end.
Proof.
  destruct p as [d a s]. destruct ev, s; simpl; try (split_and!; [constructor|done..]); intros s' Hs; inversion Hs.
Qed.

(** The status as a table of connections by their current address. *)
Definition entry (p : ConnectionProgress) : IpAddr * (NodeDescriptor * ConnectionStage) :=
  (current_peer_addr p, (initial_node_descriptor p, connection_stage p)).
Definition view (self : OverallConnectionStatus) : gmap IpAddr (NodeDescriptor * ConnectionStage) :=
  list_to_map (entry <$> progress self).

Definition distinct (self : OverallConnectionStatus) : Prop := NoDup (get_peer_addrs self).

(** A message nobody waits for: its peer is unknown, or it would pass a
    connection on to a node that is already connected to. *)
Definition unnecessary (m : gmap IpAddr (NodeDescriptor * ConnectionStage)) (msg : ConnectionProgressMessage) : Prop :=
  m !! peer_addr msg = None ∨ ∃ t, event msg = EvPassGossipReceived t ∧ is_Some (m !! t).

Inductive connect_step (m : gmap IpAddr (NodeDescriptor * ConnectionStage)) (msg : ConnectionProgressMessage)
    : gmap IpAddr (NodeDescriptor * ConnectionStage) → Prop :=
| step_ignored : unnecessary m msg → connect_step m msg m
| step_advanced d s s' :
    ¬ unnecessary m msg → m !! peer_addr msg = Some (d, s) → advances s (event msg) s' →
    connect_step m msg (<[next_addr (peer_addr msg) (event msg) := (d, s')]> (delete (peer_addr msg) m)).

(** *** The table of an updated vector *)

Lemma entries_fst l : (entry <$> l).*1 = current_peer_addr <$> l.
Proof. by rewrite <- list_fmap_compose. Qed.

Lemma view_lookup self a x : distinct self → view self !! a = Some x ↔
  ∃ i p, progress self !! i = Some p ∧ current_peer_addr p = a ∧ x = (initial_node_descriptor p, connection_stage p).
Proof.
  intros Hd. unfold view. rewrite <- elem_of_list_to_map by (unfold distinct in Hd; by rewrite entries_fst).
  rewrite list_elem_of_fmap. setoid_rewrite list_elem_of_lookup. unfold entry. naive_solver.
Qed.

Lemma view_lookup_None self a : view self !! a = None ↔ a ∉ get_peer_addrs self.
Proof. unfold view, get_peer_addrs. rewrite <- entries_fst. split; apply not_elem_of_list_to_map. Qed.

Lemma view_is_Some self a : is_Some (view self !! a) ↔ a ∈ get_peer_addrs self.
Proof.
  rewrite <- not_eq_None_Some, view_lookup_None. destruct (decide (a ∈ get_peer_addrs self)); tauto.
Qed.

Lemma set_progress_addrs self i p :
  get_peer_addrs (set_progress self i p) = <[i := current_peer_addr p]> (get_peer_addrs self).
Proof. unfold get_peer_addrs. simpl. by rewrite list_fmap_insert. Qed.

(** Changing one connection to an address no other one has. *)
Lemma set_progress_distinct self i p q :
  distinct self → progress self !! i = Some q →
  (current_peer_addr p = current_peer_addr q ∨ current_peer_addr p ∉ get_peer_addrs self) →
  distinct (set_progress self i p).
Proof.
  intros Hd Hi Ha. unfold distinct. rewrite set_progress_addrs.
  assert (get_peer_addrs self !! i = Some (current_peer_addr q)) as Hq
    by (unfold get_peer_addrs; by rewrite list_lookup_fmap, Hi).
  destruct Ha as [->|Ha]; [by rewrite list_insert_id|].
  apply NoDup_alt. intros j k a. rewrite !list_lookup_insert_Some.
  assert (∀ n, get_peer_addrs self !! n ≠ Some (current_peer_addr p)) as Hn
    by (intros n Hn; apply Ha, list_elem_of_lookup; eauto).
  intros [(-> & <- & _)|(Hj & Hja)] [(-> & Hk & _)|(Hk & Hka)]; [done|by apply Hn in Hka|subst; by apply Hn in Hja|].
  by apply (proj1 (NoDup_alt _) Hd j k a).
Qed.

Lemma set_progress_view self i p q :
  distinct self → progress self !! i = Some q → distinct (set_progress self i p) →
  view (set_progress self i p) =
    <[current_peer_addr p := (initial_node_descriptor p, connection_stage p)]> (delete (current_peer_addr q) (view self)).
Proof.
  intros Hd Hi Hd'. apply map_eq. intros a. apply option_eq. intros x.
  rewrite (view_lookup _ _ _ Hd'), lookup_insert_Some, lookup_delete_Some, (view_lookup _ _ _ Hd). simpl.
  split.
  - intros (j & r & Hj & Ha & ->). apply list_lookup_insert_Some in Hj as [(-> & <- & _)|[Hij Hj]]; [by left|right].
    assert (current_peer_addr p ≠ a) as Hne.
    { intros E. apply Hij. apply (proj1 (NoDup_alt _) Hd' i j a); rewrite set_progress_addrs.
      - rewrite E. apply list_lookup_insert_eq. unfold get_peer_addrs. rewrite length_fmap. by eapply lookup_lt_Some.
      - rewrite list_lookup_insert_ne by done. unfold get_peer_addrs. by rewrite list_lookup_fmap, Hj; simpl; rewrite Ha. }
    split; [done|]. split; [|by eauto 6].
    intros <-. apply Hij. apply (proj1 (NoDup_alt _) Hd i j (current_peer_addr q));
      unfold get_peer_addrs; rewrite list_lookup_fmap, ?Hi, ?Hj; simpl; congruence.
  - intros [[<- <-]|(Hne & Hq & j & r & Hj & <- & ->)].
    + exists i, p. split; [|done]. apply list_lookup_insert_eq. by eapply lookup_lt_Some.
    + exists j, r. split; [|done]. rewrite list_lookup_insert_ne; [done|]. intros <-. rewrite Hi in Hj. by simplify_eq.
Qed.


Lemma find_by_ip self a :
  distinct self →
  match get_connection_progress_by_ip self a with
  | Some (i, p) => progress self !! i = Some p ∧ current_peer_addr p = a ∧
      view self !! a = Some (initial_node_descriptor p, connection_stage p)
  | None => view self !! a = None
  end.
Proof.
  intros Hd. unfold get_connection_progress_by_ip. destruct (list_find _ _) as [[i p]|] eqn:E.
  - apply list_find_Some in E as (Hi & <- & _). split; [done|]. split; [done|].
    apply view_lookup; [done|]. by exists i, p.
  - apply list_find_None in E. apply view_lookup_None. intros (p & -> & Hp)%list_elem_of_fmap.
    by apply (proj1 (Forall_forall _ _) E p).
Qed.

(** Finding a connection that is not in use elsewhere. *)
Lemma to_modify_spec self msg :
  distinct self →
  match get_connection_progress_to_modify self msg with
  | Some (i, p) => progress self !! i = Some p ∧ current_peer_addr p = peer_addr msg ∧ ¬ unnecessary (view self) msg ∧
      view self !! peer_addr msg = Some (initial_node_descriptor p, connection_stage p)
  | None => unnecessary (view self) msg
  end.
Proof.
  intros Hd. pose proof (find_by_ip self (peer_addr msg) Hd) as Hf.
  unfold get_connection_progress_to_modify, unnecessary. destruct (event msg) as [| | | | | |t] eqn:Ee; cbv zeta.
  7: case_bool_decide as Hdup; [right; exists t; split; [done|by apply view_is_Some]|].
  all: destruct (get_connection_progress_by_ip self (peer_addr msg)) as [[i p]|]; [|by left].
  all: destruct Hf as (Hi & Ha & Hv); split_and!; [done|done| |done]; intros [?|(t' & ? & Ht)]; [congruence|].
  all: try congruence. simplify_eq. by apply view_is_Some in Ht.
Qed.

(** What a handled message sends, and the overall stage after it. *)
Definition reaction (st st' : OverallConnectionStatus) (msg : ConnectionProgressMessage) (out : list Sent) : Prop :=
  match event msg with
  | EvTcpConnectionSuccessful =>
      stage st' = stage st ∧ ∃ d, view st' !! peer_addr msg = Some (d, TcpConnectionEstablished) ∧
        out = [AskAboutDebutGossip (MkProgress d (peer_addr msg) TcpConnectionEstablished)]
  | EvIntroductionGossipReceived _ | EvStandardGossipReceived =>
      stage st' = ConnectedToNeighbor ∧
      out = if decide (stage st = ConnectedToNeighbor) then [] else [UiConnectionChangeBroadcast ConnectedToNeighbor]
  | _ => stage st' = stage st ∧ out = []
  end.

Lemma update_ocs_spec self s :
  update_ocs_stage_and_send_message_to_ui self s =
    (MkStatus s (progress self), if decide (stage self = s) then [] else [UiConnectionChangeBroadcast s]).
Proof.
  unfold update_ocs_stage_and_send_message_to_ui. destruct self as [s0 ps]. simpl.
  destruct (decide (s0 = s)) as [->|]; [by rewrite decide_False by tauto|by rewrite decide_True].
Qed.

Lemma set_progress_descriptors self i p q :
  progress self !! i = Some q → initial_node_descriptor p = initial_node_descriptor q →
  iter_initial_node_descriptors (set_progress self i p) = iter_initial_node_descriptors self.
Proof.
  intros Hi Hd. unfold iter_initial_node_descriptors. simpl. rewrite list_fmap_insert, list_insert_id; [done|].
  by rewrite list_lookup_fmap, Hi, Hd.
Qed.

(** The vector after an update of the connection found. *)
Lemma advanced_status self msg i p p' :
  distinct self → get_connection_progress_to_modify self msg = Some (i, p) →
  update_connection_stage p (event msg) = Ret p' →
  distinct (set_progress self i p') ∧ connect_step (view self) msg (view (set_progress self i p')) ∧
  view (set_progress self i p') !! next_addr (peer_addr msg) (event msg)
    = Some (initial_node_descriptor p', connection_stage p') ∧
  iter_initial_node_descriptors (set_progress self i p') = iter_initial_node_descriptors self.
Proof.
  intros Hd Hm Hu. pose proof (to_modify_spec self msg Hd) as Hs. rewrite Hm in Hs.
  destruct Hs as (Hi & Ha & Hn & Hv). pose proof (update_connection_stage_spec p (event msg)) as Hp. rewrite Hu in Hp.
  destruct Hp as (Hadv & Hdesc & Haddr). rewrite Ha in Haddr.
  assert (distinct (set_progress self i p')) as Hd'.
  { eapply set_progress_distinct; [done..|]. rewrite Haddr, Ha. unfold next_addr. unfold unnecessary in Hn.
    destruct (event msg) as [| | | | | |t]; try by left. right. intros Ht. apply Hn. right. exists t.
    split; [done|]. by apply view_is_Some. }
  split; [done|]. rewrite (set_progress_view self i p' p) by done. rewrite Haddr, Ha, Hdesc.
  split; [by eapply step_advanced|]. split; [apply lookup_insert_eq|]. by eapply set_progress_descriptors.
Qed.

(** The handling of connection progress messages implements a table of
    connections by address.  When no two connections have the same address,
    either the message is about nobody in the table, or would pass a connection
    on to an address in use, and is ignored; or the connection of its peer takes
    the step the event stands for (under the new address, if it is passed on),
    a reminder is sent when it comes up and a change of the overall stage is
    broadcast when it becomes a neighbor.  Addresses stay distinct and the
    descriptors the user entered stay.  The actor panics exactly on an event that
    does not fit the stage of the connection. *)
Lemma connection_progress_refines_table (self : OverallConnectionStatus) (msg : ConnectionProgressMessage) :
  distinct self → ui_bound = true →
  match handle_connection_progress self msg with
  | Ret (self', out) =>
      distinct self' ∧ connect_step (view self) msg (view self') ∧
      iter_initial_node_descriptors self' = iter_initial_node_descriptors self ∧
      ((unnecessary (view self) msg ∧ self' = self ∧ out = []) ∨
       (¬ unnecessary (view self) msg ∧ reaction self self' msg out))
  | Panic =>
      ¬ unnecessary (view self) msg ∧
      ∃ d s, view self !! peer_addr msg = Some (d, s) ∧ ∀ s', ¬ advances s (event msg) s'
  end.
Proof.
  intros Hd Hui. unfold handle_connection_progress. pose proof (to_modify_spec self msg Hd) as Hm.
  destruct (get_connection_progress_to_modify self msg) as [[i p]|] eqn:Em.
  2: { split_and!; [done|by constructor|done|by left]. }
  destruct Hm as (Hi & Ha & Hn & Hv). pose proof (update_connection_stage_spec p (event msg)) as Hp.
  destruct (update_connection_stage p (event msg)) as [p'|] eqn:Eu; [|split; [done|]; by eexists _, _]. cbn [mbind run_bind].
  destruct (advanced_status self msg i p p' Hd Em Eu) as (Hd' & Hstep & Hv' & Hdesc).
  destruct Hp as (Hadv & Hdesc' & Haddr).
  assert (∀ st out, distinct st → view st = view (set_progress self i p') →
    iter_initial_node_descriptors st = iter_initial_node_descriptors (set_progress self i p') →
    reaction self st msg out →
    distinct st ∧ connect_step (view self) msg (view st) ∧
      iter_initial_node_descriptors st = iter_initial_node_descriptors self ∧
      ((unnecessary (view self) msg ∧ st = self ∧ out = []) ∨ (¬ unnecessary (view self) msg ∧ reaction self st msg out)))
    as Hdone by (intros st out Hst -> -> Hr; split_and!; [done..|by right]).
  unfold reaction in Hdone |- *. destruct (event msg) eqn:Ee; try (apply Hdone; done).
  - unfold send_ask_about_debut_gossip_message. pose proof (find_by_ip _ (peer_addr msg) Hd') as Hf.
    simpl in Hv'. destruct (get_connection_progress_by_ip _ _) as [[j q]|]; [|congruence].
    destruct Hf as (_ & Hq & Hvq). cbn [expect mbind run_bind]. apply Hdone; [done..|]. split; [done|].
    inversion Hadv; exists (initial_node_descriptor p'); (split; [rewrite Hv'; congruence|]);
      destruct q; simpl in *; congruence.
  - rewrite Hui, update_ocs_spec. by apply Hdone.
  - rewrite Hui, update_ocs_spec. by apply Hdone.
Qed.


(** ** Histories *)

(** The stages broadcast to the user interfaces, and the one they show. *)
Fixpoint broadcasts (out : list Sent) : list OverallConnectionStage :=
  match out with
  | [] => []
  | UiConnectionChangeBroadcast s :: out => s :: broadcasts out
  | _ :: out => broadcasts out
  end.
Definition shown (before : OverallConnectionStage) (out : list Sent) : OverallConnectionStage :=
  default before (last (broadcasts out)).

(** Every stage broadcast differs from the one shown before it. *)
Fixpoint all_changes (before : OverallConnectionStage) (ss : list OverallConnectionStage) : Prop :=
  match ss with
  | [] => True
  | s :: ss => s ≠ before ∧ all_changes s ss
  end.

Lemma broadcasts_app out out' : broadcasts (out ++ out') = broadcasts out ++ broadcasts out'.
Proof. induction out as [|[] out IH]; simpl; by rewrite ?IH. Qed.

Lemma all_changes_app before ss ss' :
  all_changes before ss → all_changes (default before (last ss)) ss' → all_changes before (ss ++ ss').
Proof.
  revert before. induction ss as [|s ss IH]; intros before; [done|]. intros [Hs Hss] Hr. split; [done|].
  apply IH; [done|]. rewrite last_cons in Hr. by destruct (last ss).
Qed.

(** The user interfaces follow the overall stage. *)
Definition in_step (st st' : OverallConnectionStatus) (out : list Sent) : Prop :=
  all_changes (stage st) (broadcasts out) ∧ shown (stage st) out = stage st'.

Lemma in_step_quiet st st' out : stage st' = stage st → broadcasts out = [] → in_step st st' out.
Proof. intros Hs Ho. unfold in_step, shown. by rewrite Ho, Hs. Qed.

Lemma update_ocs_keeps st s :
  let r := update_ocs_stage_and_send_message_to_ui st s in
  progress r.1 = progress st ∧ in_step st r.1 r.2 ∧ ∀ p, AskAboutDebutGossip p ∉ r.2.
Proof.
  rewrite update_ocs_spec. simpl. split; [done|].
  destruct (decide _) as [<-|]; (split; [done || by split|]).
  - intros p. apply not_elem_of_nil.
  - intros p. by rewrite list_elem_of_singleton.
Qed.

Lemma handle_progress_keeps st msg st' out :
  distinct st → handle_connection_progress st msg = Ret (st', out) →
  distinct st' ∧ iter_initial_node_descriptors st' = iter_initial_node_descriptors st ∧ in_step st st' out ∧
  ∀ p, AskAboutDebutGossip p ∈ out → p ∈ progress st' ∧ connection_stage p = TcpConnectionEstablished.
Proof.
  intros Hd. unfold handle_connection_progress.
  destruct (get_connection_progress_to_modify st msg) as [[i p]|] eqn:Em.
  2: { intros [= <- <-]. split_and!; [done|done|by split|by intros ? ?%elem_of_nil]. }
  destruct (update_connection_stage p (event msg)) as [p'|] eqn:Eu; [|done]. cbn [mbind run_bind].
  destruct (advanced_status st msg i p p' Hd Em Eu) as (Hd' & Hstep & Hv' & Hdesc).
  pose proof (update_connection_stage_spec p (event msg)) as Hp. rewrite Eu in Hp. destruct Hp as (Hadv & _).
  destruct (event msg) eqn:Ee; try (intros [= <- <-]; split_and!; [done|done|by apply in_step_quiet|by intros ? ?%elem_of_nil]).
  1: { unfold send_ask_about_debut_gossip_message. pose proof (find_by_ip _ (peer_addr msg) Hd') as Hf. simpl in Hv'.
    destruct (get_connection_progress_by_ip _ _) as [[j q]|]; [|congruence]. destruct Hf as (Hq & _ & Hvq).
    intros [= <- <-]. split_and!; [done|done|by apply in_step_quiet|]. intros r [= ->]%list_elem_of_singleton.
    split; [by eapply list_elem_of_lookup_2|]. inversion Hadv; congruence. }
  all: destruct ui_bound; [|done].
  all: destruct (update_ocs_keeps (set_progress st i p') ConnectedToNeighbor) as (Hps & Hs & Ha).
  all: intros [= Hr]; rewrite Hr in Hps, Hs, Ha; unfold distinct, get_peer_addrs, iter_initial_node_descriptors.
  all: simpl in *; rewrite Hps; split_and!; [done..|]; intros r Hin; by destruct (Ha r).
Qed.


(** A reminder is never a problem: it fails the connection it was sent for if
    nothing has happened to it since, and does nothing otherwise. *)
Lemma handle_ask_spec st prev :
  ∃ st', handle_ask_about_debut_gossip st prev = Ret st' ∧
  (st' = st ∨ ∃ i, progress st !! i = Some prev ∧
     st' = set_progress st i (MkProgress (initial_node_descriptor prev) (current_peer_addr prev)
                                (Failed NoGossipResponseReceived))).
Proof.
  unfold handle_ask_about_debut_gossip, get_connection_progress_by_desc.
  destruct (list_find _ _) as [[i p]|] eqn:E; [|by eauto]. apply list_find_Some in E as (Hi & _).
  destruct (decide (prev = p)) as [->|]; [|by eauto].
  assert (update_connection_stage p EvNoGossipResponseReceived = Ret (MkProgress (initial_node_descriptor p)
    (current_peer_addr p) (Failed NoGossipResponseReceived))) as -> by (by destruct p as [? ? []]).
  eexists. split; [done|]. right. by exists i.
Qed.

Lemma handle_failure_spec st a st' out :
  handle_gossip_failure st a = Ret (st', out) →
  stage st' = stage st ∧ (∃ i, progress st' = delete i (progress st)) ∧
  out = if bool_decide (progress st' = []) then [StopWithCode 1] else [].
Proof.
  unfold handle_gossip_failure, remove, get. destruct (list_find _ _) as [[i d]|]; [|done].
  destruct (progress st !! i); [|done]. intros [= <- <-]. by eauto.
Qed.

(** What happens to the status of a node that was given the descriptors [ds]:
    messages arrive in any order, reminders that were sent come back, refusals
    remove connections, and the rest of the neighborhood sets the stage. *)
Inductive history (ds : list NodeDescriptor) : OverallConnectionStatus → list Sent → Prop :=
| hist_new st : status_new ds = Ret st → history ds st []
| hist_progress st sent msg st' out :
    history ds st sent → handle_connection_progress st msg = Ret (st', out) → history ds st' (sent ++ out)
| hist_reminder st sent prev st' :
    history ds st sent → AskAboutDebutGossip prev ∈ sent → handle_ask_about_debut_gossip st prev = Ret st' →
    history ds st' sent
| hist_failure st sent a st' out :
    history ds st sent → handle_gossip_failure st a = Ret (st', out) → history ds st' (sent ++ out)
| hist_stage st sent s st' out :
    history ds st sent → update_ocs_stage_and_send_message_to_ui st s = (st', out) → history ds st' (sent ++ out).

Definition descriptor_ips (ds : list NodeDescriptor) : list (option IpAddr) :=
  (λ d, ip_addr <$> descriptor_addr_opt d) <$> ds.

Record tracked (ds : list NodeDescriptor) (st : OverallConnectionStatus) (sent : list Sent) : Prop := {
  tr_distinct : distinct st;
  tr_descriptors : iter_initial_node_descriptors st `sublist_of` ds;
  tr_changes : all_changes NotConnected (broadcasts sent);
  tr_shown : shown NotConnected sent = stage st;
  tr_reminders : ∀ p, AskAboutDebutGossip p ∈ sent →
    connection_stage p = TcpConnectionEstablished ∧ initial_node_descriptor p ∈ ds
}.

Lemma status_new_spec ds ps :
  progress_all ds = Ret ps →
  initial_node_descriptor <$> ps = ds ∧ (Some ∘ current_peer_addr) <$> ps = descriptor_ips ds.
Proof.
  revert ps. induction ds as [|d ds IH]; intros ps; simpl; [by intros [= <-]|].
  unfold progress_new. destruct (descriptor_addr_opt d) as [a|]; [|done].
  destruct (progress_all ds) as [qs|]; [|done]. intros [= <-]. destruct (IH qs) as [H1 H2]; [done|].
  split; [by rewrite fmap_cons, H1|]. unfold descriptor_ips in *. by rewrite !fmap_cons, H2.
Qed.

(** One more step. *)
Lemma tracked_step ds st sent st' out :
  tracked ds st sent → distinct st' → iter_initial_node_descriptors st' `sublist_of` iter_initial_node_descriptors st →
  in_step st st' out →
  (∀ p, AskAboutDebutGossip p ∈ out → connection_stage p = TcpConnectionEstablished ∧
     initial_node_descriptor p ∈ iter_initial_node_descriptors st') →
  tracked ds st' (sent ++ out).
Proof.
  intros [Hd Hs Hc Hsh Hr] Hd' Hs' [Hc' Hsh'] Hout.
  assert (iter_initial_node_descriptors st' `sublist_of` ds) as Hsub by by etrans.
  unfold shown in Hsh, Hsh'. split; unfold shown; rewrite ?broadcasts_app; [done|done| | |].
  - apply all_changes_app; [done|]. by rewrite Hsh.
  - rewrite last_app. rewrite <- Hsh'. destruct (last (broadcasts out)); simpl; [done|]. exact Hsh.
  - intros p [Hp|Hp]%elem_of_app; [by apply Hr|]. destruct (Hout p Hp) as [? ?]. split; [done|].
    by eapply elem_of_sublist.
Qed.


(** C29: whatever happens, the connection status stays in order.  For a node
    started with descriptors of distinct addresses, after any history of progress
    messages, reminders, refusals and stage changes: no two connections have the
    same address; the connections are for descriptors the user entered, in their
    order; the user interfaces have been told every change of the overall stage
    and nothing else, so they show the current one; and every reminder under way
    is for a connection that had just come up. *)
Theorem connection_history (ds : list NodeDescriptor) (st : OverallConnectionStatus) (sent : list Sent) :
  NoDup (descriptor_ips ds) → history ds st sent → tracked ds st sent.
Proof.
  intros Hds. induction 1 as [st Hnew|st sent msg st' out H IH Hstep|st sent prev st' H IH Hin Hstep
    |st sent a st' out H IH Hstep|st sent s st' out H IH Hstep].
  - unfold status_new in Hnew. apply run_bind_ret in Hnew as (ps & Hps & [= <-]).
    destruct (status_new_spec ds ps Hps) as [Hd Hips].
    split; try done; [|by rewrite <- Hd|by intros p ?%elem_of_nil].
    unfold distinct, get_peer_addrs. simpl. rewrite <- Hips, list_fmap_compose in Hds.
    by apply NoDup_fmap_1 in Hds.
  - destruct (handle_progress_keeps st msg st' out (tr_distinct _ _ _ IH) Hstep) as (Hd' & Hdesc & Hin & Hask).
    apply (tracked_step ds st); [done|done|by rewrite Hdesc|done|]. intros p Hp. destruct (Hask p Hp) as [Hpr ?].
    split; [done|]. by apply list_elem_of_fmap_2.
  - destruct (handle_ask_spec st prev) as (st'' & Hst & [->|(i & Hi & ->)]); rewrite Hstep in Hst; injection Hst as ->; [done|].
    rewrite <- (app_nil_r sent). apply (tracked_step ds st); [done| | |by apply in_step_quiet|by intros p ?%elem_of_nil].
    + by eapply set_progress_distinct; [apply IH|done|left].
    + by erewrite set_progress_descriptors.
  - destruct (handle_failure_spec st a st' out Hstep) as (Hs & (i & Hps) & Hout).
    apply (tracked_step ds st); [done| | | |].
    + unfold distinct, get_peer_addrs. rewrite Hps, list_fmap_delete. eapply sublist_NoDup; [apply IH|]. apply sublist_delete.
    + unfold iter_initial_node_descriptors. rewrite Hps, list_fmap_delete. apply sublist_delete.
    + apply in_step_quiet; [done|]. rewrite Hout. by case_bool_decide.
    + intros p Hp. rewrite Hout in Hp. case_bool_decide; [by apply list_elem_of_singleton in Hp|by apply elem_of_nil in Hp].
  - destruct (update_ocs_keeps st s) as (Hps & Hs & Ha). rewrite Hstep in Hps, Hs, Ha. simpl in *.
    apply (tracked_step ds st); [done| | |done|by intros p Hp; destruct (Ha p)].
    + unfold distinct, get_peer_addrs. rewrite Hps. apply IH.
    + unfold iter_initial_node_descriptors. by rewrite Hps.
Qed.

End status.

(** ** A concrete start *)

Definition demo_descriptor (n : Z) : NodeDescriptor (Chain := nat) :=
  MkDescriptor 0%nat [n] (Some (node_addr_new (IpV4 n) [n])).
Definition demo_status (s1 s2 : ConnectionStage) (a2 : Z) : OverallConnectionStatus :=
  MkStatus NotConnected [MkProgress (demo_descriptor 1) (IpV4 1) s1; MkProgress (demo_descriptor 2) (IpV4 a2) s2].

(** An event that does not fit is a panic, even a second sign of life from a
    neighbor. *)
Example second_standard_gossip_panics :
  handle_connection_progress true (demo_status NeighborshipEstablished StageZero 2)
    (MkProgressMessage (IpV4 1) EvStandardGossipReceived) = Panic.
Proof. reflexivity. Qed.

(** A new neighbor takes a status that had found a route back a stage. *)
Example new_neighbor_hides_route :
  handle_connection_progress true (MkStatus RouteFound (progress (demo_status NeighborshipEstablished TcpConnectionEstablished 2)))
    (MkProgressMessage (IpV4 2) EvStandardGossipReceived)
  = Ret (MkStatus ConnectedToNeighbor (progress (demo_status NeighborshipEstablished NeighborshipEstablished 2)),
         [UiConnectionChangeBroadcast ConnectedToNeighbor]).
Proof. reflexivity. Qed.

Definition demo_sent : list (Sent (Chain := nat)) :=
  [AskAboutDebutGossip (MkProgress (demo_descriptor 1) (IpV4 1) TcpConnectionEstablished);
   UiConnectionChangeBroadcast ConnectedToNeighbor].

Lemma connection_history_witness :
  tracked [demo_descriptor 1; demo_descriptor 2]
    (MkStatus ConnectedToNeighbor (progress (demo_status NeighborshipEstablished StageZero 2))) demo_sent.
Proof.
  apply (connection_history true [demo_descriptor 1; demo_descriptor 2]).
  - apply (bool_decide_unpack _). vm_compute. exact I.
  - apply (hist_progress true _ (demo_status TcpConnectionEstablished StageZero 2) (take 1 demo_sent)
      (MkProgressMessage (IpV4 1) EvStandardGossipReceived)); [|reflexivity].
    apply (hist_progress true _ (demo_status StageZero StageZero 2) []
      (MkProgressMessage (IpV4 1) EvTcpConnectionSuccessful)); [|reflexivity].
    apply hist_new. reflexivity.
Defined.

End ConnectionStatus.
