(* ===== verification/Routing.v ===== *)
(** * Route search

    Models the routing part of [node/src/neighborhood/mod.rs]: the undesirability
    of nodes, the depth-first search of [routing_engine] and [routing_guts] with
    its pruning, [find_best_route_segment] and [find_exit_locations].

    [&mut minimum_undesirability] and [&mut research_exits] are a state passed
    through the search.  The order in which a hash set is iterated is a
    parameter, which may differ from one call to the next (a search visits a
    prefix at most once, so the prefix identifies the call).  Rust's recursion is
    bounded by the size of the database; running out of fuel is a panic. *)
From Stdlib Require Import String.
From S2P Require Import Prelude.
From S2P Require Import NeighborhoodDatabase.
From stdpp Require Import base list gmap strings.

Module Routing.
Import Neighborhood.
Local Open Scope Z_scope.

Definition UNREACHABLE_HOST_PENALTY : Z := 100000000.
Definition PAYLOAD_ZERO_SIZE : Z := 0.
Definition I64_MAX : Z := 2 ^ 63 - 1.

Inductive RouteDirection := Over | Back.
Global Instance RouteDirection_eq_dec : EqDecision RouteDirection.
Proof. solve_decision. Defined.

Inductive FallbackPreference := NoPreference | ExitCountryWithFallback | ExitCountryNoFallback.
Global Instance FallbackPreference_eq_dec : EqDecision FallbackPreference.
Proof. solve_decision. Defined.

Record ExitLocation := MkExitLocation {
  country_codes : list string;
  priority : Z
}.

Record UserExitPreferences := MkPreferences {
  exit_countries : list string;
  fallback_preference : FallbackPreference;
  locations_opt : option (list ExitLocation);
  db_countries : list string
}.

Inductive UndesirabilityType :=
| Relay
| ExitRequest (hostname_opt : option string)
| ExitAndRouteResponse.

Record ComputedRouteSegment := MkSegment {
  nodes : list PublicKey;
  undesirability : Z
}.

(** [as i64] of a [u64], and addition on [i64]. *)
Definition as_i64 (z : Z) : Z := (z + 2 ^ 63) mod 2 ^ 64 - 2 ^ 63.
Definition i64_add (a b : Z) : run Z :=
  if (- 2 ^ 63 <=? a + b) && (a + b <? 2 ^ 63) then Ret (a + b) else Panic.

Section routing.
Context {Wallet : Type} `{EqDecision Wallet}.
Implicit Types (db : NeighborhoodDatabase (Wallet := Wallet)) (r : NodeRecord (Wallet := Wallet)).

(** ** Undesirability *)

Definition compute_undesirability (node_record : NodeRecord (Wallet := Wallet)) (payload_size : Z)
    (undesirability_type : UndesirabilityType) : run Z :=
  let rates := rate_pack node_record in
  match undesirability_type with
  | Relay => c ← routing_charge rates payload_size; Ret (as_i64 c)
  | ExitRequest None =>
      c ← exit_charge rates payload_size;
      i64_add (as_i64 c) (country_undesirability (metadata node_record))
  | ExitRequest (Some hostname) =>
      c ← exit_charge rates payload_size;
      let unreachable_host_undesirability :=
        if bool_decide (hostname ∈ unreachable_hosts (metadata node_record))
        then UNREACHABLE_HOST_PENALTY else 0 in
      s ← i64_add (as_i64 c) unreachable_host_undesirability;
      i64_add s (country_undesirability (metadata node_record))
  | ExitAndRouteResponse =>
      e ← exit_charge rates payload_size;
      c ← routing_charge rates payload_size;
      i64_add (as_i64 e) (as_i64 c)
  end.

Definition is_orig_node_on_back_leg (node : NodeRecord (Wallet := Wallet)) (target_key_opt : option PublicKey)
    (direction : RouteDirection) : bool :=
  match direction with
  | Over => false
  | Back => match target_key_opt with
            | None => false
            | Some target_key => bool_decide (public_key node = target_key)
            end
  end.

(** ** One search: its fixed arguments *)

Section search.
Context (neighborhood_database : NeighborhoodDatabase (Wallet := Wallet)).
Context (user_exit_preferences : UserExitPreferences).
Context (order : list PublicKey → gset PublicKey → list PublicKey).

Definition compute_initial_undesirability (key : PublicKey) (payload_size : Z)
    (direction : RouteDirection) : run Z :=
  match direction with
  | Over => Ret 0
  | Back =>
      node_record ← expect (node_by_key neighborhood_database key);
      compute_undesirability node_record payload_size ExitAndRouteResponse
  end.

Context (target_opt : option PublicKey) (payload_size : Z) (direction : RouteDirection)
  (hostname_opt : option string) (research_neighborhood : bool).

Definition compute_new_undesirability (node_record : NodeRecord (Wallet := Wallet)) (undesirability : Z)
    (hops_remaining : nat) : run Z :=
  let undesirability_type :=
    match direction, target_opt with
    | Over, None => if (hops_remaining =? 0)%nat then ExitRequest hostname_opt else Relay
    | Over, _ => Relay
    | Back, _ => Relay
    end in
  node_undesirability ← compute_undesirability node_record payload_size undesirability_type;
  i64_add undesirability node_undesirability.

Definition route_length_qualifies (hops_remaining : nat) : bool := (hops_remaining =? 0)%nat.

Definition last_key_qualifies (last_node : NodeRecord (Wallet := Wallet)) : bool :=
  match target_opt with
  | Some target_key => bool_decide (public_key last_node = target_key)
  | None => true
  end.

Definition validate_last_node_not_too_close_to_first_node (prefix_len : nat)
    (first_node_key candidate_node_key : PublicKey) : bool :=
  if (prefix_len <=? 2)%nat then true
  else negb (db_has_half_neighbor neighborhood_database candidate_node_key first_node_key).

Definition validate_country_code_when_fallback_routing (last_node : PublicKey) : bool :=
  let last_cc := match node_by_key neighborhood_database last_node with
                 | Some nr => default "ZZ"%string (i_country_code_opt (inner nr))
                 | None => "ZZ"%string
                 end in
  if bool_decide (last_cc ∈ exit_countries user_exit_preferences) then true
  else if bool_decide (exit_countries user_exit_preferences = []) then true
  else forallb (λ country, negb (bool_decide (country ∈ db_countries user_exit_preferences)
                                 && bool_decide (country ≠ last_cc)))
         (exit_countries user_exit_preferences).

Definition is_fallback_and_last_node_qualifies (last_node_key : PublicKey) : bool :=
  bool_decide (fallback_preference user_exit_preferences = ExitCountryWithFallback)
  && validate_country_code_when_fallback_routing last_node_key.

Definition last_node_is_always_true (last_node_key : PublicKey) : bool :=
  bool_decide (fallback_preference user_exit_preferences = NoPreference)
  || is_fallback_and_last_node_qualifies last_node_key
  || research_neighborhood
  || bool_decide (direction = Back).

Definition validate_last_node_country_code (last_node_key : PublicKey) : bool :=
  if last_node_is_always_true last_node_key then true
  else match node_by_key neighborhood_database last_node_key with
       | Some node_record =>
           match i_country_code_opt (inner node_record) with
           | Some country_code => bool_decide (country_code ∈ exit_countries user_exit_preferences)
           | None => false
           end
       | None => false
       end.

(** [NodeRecord::full_neighbors], in the order of this call. *)
Definition full_neighbors (call : list PublicKey) (node : NodeRecord (Wallet := Wallet))
    : run (list (NodeRecord (Wallet := Wallet))) :=
  foldr (λ k acc, n ← expect (node_by_key neighborhood_database k); ns ← acc; Ret (n :: ns)) (Ret [])
    (order call (full_neighbor_keys node neighborhood_database)).

(** The state of a search: [minimum_undesirability] and [research_exits]. *)
Definition search_state : Type := Z * list PublicKey.

(** [Iterator::flat_map] of a closure that may panic and changes the state. *)
Fixpoint flat_map_st {A B} (f : A → search_state → run (list B * search_state)) (l : list A)
    (st : search_state) : run (list B * search_state) :=
  match l with
  | [] => Ret ([], st)
  | a :: l => '(bs, st) ← f a st; '(cs, st) ← flat_map_st f l st; Ret (bs ++ cs, st)
  end.

Definition routing_guts
    (routing_engine : list PublicKey → Z → nat → search_state → run (list ComputedRouteSegment * search_state))
    (prefix : list PublicKey) (undesirability : Z) (hops_remaining : nat) (st : search_state)
    (previous_node : NodeRecord (Wallet := Wallet)) : run (list ComputedRouteSegment * search_state) :=
  neighbors ← full_neighbors prefix previous_node;
  flat_map_st (λ node_record st,
      let new_hops_remaining := if (hops_remaining =? 0)%nat then 0%nat else (hops_remaining - 1)%nat in
      new_undesirability ← compute_new_undesirability node_record undesirability new_hops_remaining;
      routing_engine (prefix ++ [public_key node_record]) new_undesirability new_hops_remaining st)
    (List.filter (λ node_record, negb (bool_decide (public_key node_record ∈ prefix))
                            && (routes_data node_record
                                || is_orig_node_on_back_leg node_record target_opt direction)) neighbors)
    st.

Fixpoint routing_engine (fuel : nat) (prefix : list PublicKey) (undesirability : Z) (hops_remaining : nat)
    (st : search_state) : run (list ComputedRouteSegment * search_state) :=
  match fuel with
  | O => Panic
  | S fuel =>
      let '(minimum_undesirability, research_exits) := st in
      if (minimum_undesirability <? undesirability) && negb research_neighborhood then Ret ([], st) else
      first_node_key ← expect (head prefix);
      last_key ← expect (last prefix);
      previous_node ← expect (node_by_key neighborhood_database last_key);
      if route_length_qualifies hops_remaining
         && last_key_qualifies previous_node
         && validate_last_node_not_too_close_to_first_node (length prefix) first_node_key (public_key previous_node)
      then
        if negb research_neighborhood && validate_last_node_country_code (public_key previous_node) then
          Ret ([MkSegment prefix undesirability],
               (if undesirability <? minimum_undesirability then undesirability else minimum_undesirability,
                research_exits))
        else if research_neighborhood && bool_decide (last_key ∈ research_exits) then Ret ([], st)
        else
          let research_exits := if research_neighborhood then research_exits ++ [last_key] else research_exits in
          routing_guts (routing_engine fuel) prefix undesirability hops_remaining
            (minimum_undesirability, research_exits) previous_node
      else if (hops_remaining =? 0)%nat && bool_decide (target_opt = None) && negb research_neighborhood
              && (bool_decide (fallback_preference user_exit_preferences = NoPreference)
                  || bool_decide (exit_countries user_exit_preferences = []))
      then Ret ([], st)
      else routing_guts (routing_engine fuel) prefix undesirability hops_remaining st previous_node
  end.

End search.

(** A prefix holds distinct keys of the database, so no call is nested deeper
    than the number of nodes. *)
Definition search_fuel (db : NeighborhoodDatabase (Wallet := Wallet)) : nat := size (by_public_key db).

Definition find_best_route_segment (db : NeighborhoodDatabase (Wallet := Wallet)) (prefs : UserExitPreferences)
    (order : list PublicKey → gset PublicKey → list PublicKey)
    (source : PublicKey) (target_opt : option PublicKey) (minimum_hops : nat) (payload_size : Z)
    (direction : RouteDirection) (hostname_opt : option string) : run (option (list PublicKey)) :=
  initial_undesirability ← compute_initial_undesirability db source payload_size direction;
  '(segments, (minimum_undesirability, _)) ←
    routing_engine db prefs order target_opt payload_size direction hostname_opt false (search_fuel db)
      [source] initial_undesirability minimum_hops (I64_MAX, []);
  Ret (nodes <$> head (List.filter (λ cr, undesirability cr <=? minimum_undesirability) segments)).

Definition find_exit_locations (db : NeighborhoodDatabase (Wallet := Wallet)) (prefs : UserExitPreferences)
    (order : list PublicKey → gset PublicKey → list PublicKey)
    (source : PublicKey) (minimum_hops : nat) : run (list PublicKey) :=
  '(_, (_, research_exits)) ←
    routing_engine db prefs order None PAYLOAD_ZERO_SIZE Over None true (search_fuel db)
      [source] 0 minimum_hops (I64_MAX, []);
  Ret research_exits.

(** ** What a search promises *)

Section best_route.
Context (db : NeighborhoodDatabase (Wallet := Wallet)) (prefs : UserExitPreferences)
  (order : list PublicKey → gset PublicKey → list PublicKey)
  (target_opt : option PublicKey) (payload_size : Z) (direction : RouteDirection)
  (hostname_opt : option string).

(** *** Costs, without machine arithmetic *)

Definition relay_cost (r : NodeRecord (Wallet := Wallet)) : Z :=
  routing_service_rate (rate_pack r) + routing_byte_rate (rate_pack r) * payload_size.
Definition exit_cost (r : NodeRecord (Wallet := Wallet)) : Z :=
  exit_service_rate (rate_pack r) + exit_byte_rate (rate_pack r) * payload_size.
Definition host_penalty (r : NodeRecord (Wallet := Wallet)) : Z :=
  match hostname_opt with
  | Some h => if bool_decide (h ∈ unreachable_hosts (metadata r)) then UNREACHABLE_HOST_PENALTY else 0
  | None => 0
  end.

(** A node at which a targetless request may leave the network is paid as an
    exit, any other node as a relay. *)
Definition record_cost (r : NodeRecord (Wallet := Wallet)) (hops : nat) : Z :=
  match direction, target_opt, hops with
  | Over, None, O => exit_cost r + host_penalty r + country_undesirability (metadata r)
  | _, _, _ => relay_cost r
  end.
Definition node_cost (k : PublicKey) (hops : nat) : Z :=
  match node_by_key db k with Some r => record_cost r hops | None => 0 end.

Definition start_cost (source : PublicKey) : Z :=
  match direction, node_by_key db source with
  | Back, Some r => exit_cost r + relay_cost r
  | _, _ => 0
  end.

Fixpoint cost_along (u : Z) (hops : nat) (rest : list PublicKey) : Z :=
  match rest with
  | [] => u
  | k :: rest => cost_along (u + node_cost k (pred hops)) (pred hops) rest
  end.

(** What [find_best_route_segment] minimises, of a route with its first node. *)
Definition route_cost (minimum_hops : nat) (route : list PublicKey) : Z :=
  match route with
  | [] => 0
  | source :: rest => cost_along (start_cost source) minimum_hops rest
  end.

(** *** Routes *)

(** [k] continues a route: it is new, a full neighbor of the last node, and
    relays data (or is the node the response goes back to). *)
Definition may_follow (prefix : list PublicKey) (k : PublicKey) : Prop :=
  (k ∉ prefix) ∧
  (∃ l, last prefix = Some l ∧ db_has_full_neighbor db l k = true) ∧
  ∃ r, node_by_key db k = Some r ∧
    (routes_data r = true ∨ is_orig_node_on_back_leg r target_opt direction = true).

Fixpoint walk (prefix rest : list PublicKey) : Prop :=
  match rest with
  | [] => True
  | k :: rest => may_follow prefix k ∧ walk (prefix ++ [k]) rest
  end.

Definition end_ok (p : list PublicKey) : bool :=
  match head p, last p with
  | Some first_key, Some last_key =>
      (match target_opt with Some t => bool_decide (last_key = t) | None => true end)
      && ((length p <=? 2)%nat || negb (db_has_half_neighbor db last_key first_key))
  | _, _ => false
  end.

Definition country_ok (p : list PublicKey) : bool :=
  match last p with
  | Some k => validate_last_node_country_code db prefs direction false k
  | None => false
  end.

(** Without a target and without a wish for an exit country, a route has
    exactly the minimum number of hops. *)
Definition exact_length : bool :=
  bool_decide (target_opt = None)
  && (bool_decide (fallback_preference prefs = NoPreference) || bool_decide (exit_countries prefs = [])).

Definition valid_route (source : PublicKey) (minimum_hops : nat) (p : list PublicKey) : Prop :=
  ∃ rest, p = source :: rest ∧ walk [source] rest ∧
    (minimum_hops ≤ length rest)%nat ∧ (exact_length = true → length rest = minimum_hops) ∧
    end_ok p = true ∧ country_ok p = true.

(** *** What the search explores *)

Definition qualifies (p : list PublicKey) (hops : nat) : bool :=
  (hops =? 0)%nat && end_ok p && country_ok p.
Definition dead_end (p : list PublicKey) (hops : nat) : bool :=
  (hops =? 0)%nat && negb (end_ok p) && exact_length.

Fixpoint explored (prefix : list PublicKey) (hops : nat) (rest : list PublicKey) : Prop :=
  match rest with
  | [] => qualifies prefix hops = true
  | k :: rest =>
      qualifies prefix hops = false ∧ dead_end prefix hops = false ∧
      may_follow prefix k ∧ explored (prefix ++ [k]) (pred hops) rest
  end.

(** A search over the continuations [R] of a prefix that cost [u] so far: the
    minimum [m] has become [m'], and the segments found are [segs]. *)
Record outcome (R : list PublicKey → Prop) (prefix : list PublicKey) (u : Z) (hops : nat)
    (m : Z) (segs : list ComputedRouteSegment) (m' : Z) : Prop := MkOutcome {
  oc_decreases : m' ≤ m;
  oc_sound : ∀ s, s ∈ segs → ∃ rest, R rest ∧ nodes s = prefix ++ rest ∧ undesirability s = cost_along u hops rest;
  oc_attained : m' = m ∨ ∃ s, s ∈ segs ∧ undesirability s = m';
  oc_bound : ∀ rest, R rest → m' ≤ cost_along u hops rest;
  oc_complete : ∀ rest, R rest → cost_along u hops rest ≤ m' → ∃ s, s ∈ segs ∧ undesirability s ≤ m'
}.

Lemma outcome_nil prefix u hops m (R : list PublicKey → Prop) :
  (∀ rest, R rest → m < cost_along u hops rest) → outcome R prefix u hops m [] m.
Proof.
  intros H. split; [lia|by intros s Hs%elem_of_nil|by left|intros rest Hr; specialize (H _ Hr); lia|].
  intros rest Hr Hle. specialize (H _ Hr). lia.
Qed.

Lemma outcome_app R1 R2 prefix u hops m segs1 m1 segs2 m2 :
  outcome R1 prefix u hops m segs1 m1 → outcome R2 prefix u hops m1 segs2 m2 →
  outcome (λ rest, R1 rest ∨ R2 rest) prefix u hops m (segs1 ++ segs2) m2.
Proof.
  intros [D1 S1 A1 B1 C1] [D2 S2 A2 B2 C2]. split.
  - lia.
  - intros s [Hs|Hs]%elem_of_app; [destruct (S1 _ Hs) as (rest & ? & ?)|destruct (S2 _ Hs) as (rest & ? & ?)];
      exists rest; auto.
  - destruct A2 as [->|(s & ? & ?)]; [|right; exists s; split; [apply elem_of_app; auto|done]].
    destruct A1 as [->|(s & ? & ?)]; [by left|right; exists s; split; [apply elem_of_app; auto|done]].
  - intros rest [Hr|Hr]; [specialize (B1 _ Hr); lia|by apply B2].
  - intros rest [Hr|Hr] Hle.
    + pose proof (B1 _ Hr). destruct (C1 _ Hr) as (s & ? & ?); [lia|].
      exists s. split; [apply elem_of_app; auto|lia].
    + destruct (C2 _ Hr Hle) as (s & ? & ?). exists s. split; [apply elem_of_app; auto|done].
Qed.

Lemma outcome_iff R1 R2 prefix u hops m segs m' :
  (∀ rest, R1 rest ↔ R2 rest) → outcome R1 prefix u hops m segs m' → outcome R2 prefix u hops m segs m'.
Proof.
  intros HR [D S A B C]. split; try done.
  - intros s Hs. destruct (S _ Hs) as (rest & ? & ?). exists rest. by rewrite <- HR.
  - intros rest Hr. apply B, HR, Hr.
  - intros rest Hr. apply C, HR, Hr.
Qed.

Lemma outcome_step k R prefix u hops m segs m' :
  outcome R (prefix ++ [k]) (u + node_cost k (pred hops)) (pred hops) m segs m' →
  outcome (λ rest, ∃ rest', rest = k :: rest' ∧ R rest') prefix u hops m segs m'.
Proof.
  intros [D S A B C]. split; try done.
  - intros s Hs. destruct (S _ Hs) as (rest & ? & Hn & ?). exists (k :: rest). split; [eauto|].
    by rewrite <- app_assoc in Hn.
  - intros rest (rest' & -> & Hr). by apply B.
  - intros rest (rest' & -> & Hr). by apply C.
Qed.

(** *** The database, the iteration order and the costs of a search *)

Context (M : Z).
Hypothesis Hdb : consistent db.
Hypothesis Horder : ∀ call s, order call s ≡ₚ elements s.

(** Sums of costs along a route stay in the range of [i64]. *)
Definition record_cost_ok (r : NodeRecord (Wallet := Wallet)) : bool :=
  (0 <=? routing_service_rate (rate_pack r)) && (0 <=? routing_byte_rate (rate_pack r))
  && (0 <=? exit_service_rate (rate_pack r)) && (0 <=? exit_byte_rate (rate_pack r))
  && (0 <=? country_undesirability (metadata r))
  && (exit_cost r + relay_cost r + country_undesirability (metadata r) + UNREACHABLE_HOST_PENALTY <=? M).

Definition costs_ok : bool :=
  (0 <=? payload_size) && (Z.of_nat (size (by_public_key db)) * M <=? I64_MAX)
  && forallb (λ kr, record_cost_ok kr.2) (map_to_list (by_public_key db)).

Hypothesis Hcosts : costs_ok = true.

Lemma costs_ok_record k r : node_by_key db k = Some r → 0 ≤ payload_size ∧ record_cost_ok r = true.
Proof.
  unfold costs_ok in Hcosts. intros Hk. b2p. split; [done|].
  match goal with H : forallb _ _ = true |- _ => rewrite forallb_forall in H; apply (H (k, r)) end.
  apply list_elem_of_In, elem_of_map_to_list, Hk.
Qed.

Lemma record_cost_bounds k r :
  node_by_key db k = Some r →
  0 ≤ relay_cost r ∧ 0 ≤ exit_cost r ∧ 0 ≤ country_undesirability (metadata r) ∧ 0 ≤ host_penalty r ∧
  exit_cost r + relay_cost r + country_undesirability (metadata r) + host_penalty r ≤ M ∧
  0 ≤ routing_byte_rate (rate_pack r) * payload_size ∧ 0 ≤ exit_byte_rate (rate_pack r) * payload_size ∧
  0 ≤ routing_service_rate (rate_pack r) ∧ 0 ≤ exit_service_rate (rate_pack r).
Proof.
  intros Hk. destruct (costs_ok_record k r Hk) as [Hp Hr]. unfold record_cost_ok in Hr. b2p.
  assert (0 ≤ host_penalty r ≤ UNREACHABLE_HOST_PENALTY).
  { unfold host_penalty, UNREACHABLE_HOST_PENALTY. destruct hostname_opt; [case_bool_decide|]; lia. }
  pose proof (Z.mul_nonneg_nonneg (routing_byte_rate (rate_pack r)) payload_size).
  pose proof (Z.mul_nonneg_nonneg (exit_byte_rate (rate_pack r)) payload_size).
  unfold relay_cost, exit_cost in *. lia.
Qed.

Lemma db_size k r : node_by_key db k = Some r → M ≤ I64_MAX.
Proof.
  intros Hk. pose proof (record_cost_bounds k r Hk). unfold costs_ok in Hcosts. b2p.
  assert (size (by_public_key db) ≠ 0%nat).
  { rewrite map_size_ne_0_lookup. exists k. by eexists. }
  nia.
Qed.

Lemma as_i64_small z : 0 ≤ z ≤ I64_MAX → as_i64 z = z.
Proof. unfold as_i64, I64_MAX. intros. rewrite Z.mod_small; lia. Qed.

Lemma i64_add_small a b : 0 ≤ a → 0 ≤ b → a + b ≤ I64_MAX → i64_add a b = Ret (a + b).
Proof.
  unfold i64_add, I64_MAX. intros.
  by rewrite (proj2 (Z.leb_le _ _)), (proj2 (Z.ltb_lt _ _)) by lia.
Qed.

Lemma in_u64_small z : z ≤ I64_MAX → in_u64 z = Ret z.
Proof. unfold in_u64, I64_MAX. intros. by rewrite (proj2 (Z.ltb_lt _ _)) by lia. Qed.

Lemma charges_small k r :
  node_by_key db k = Some r →
  routing_charge (rate_pack r) payload_size = Ret (relay_cost r) ∧
  exit_charge (rate_pack r) payload_size = Ret (exit_cost r) ∧
  relay_cost r ≤ I64_MAX ∧ exit_cost r ≤ I64_MAX.
Proof.
  intros Hk. pose proof (db_size k r Hk). pose proof (record_cost_bounds k r Hk) as Hb.
  unfold routing_charge, exit_charge. unfold relay_cost, exit_cost in *.
  split_and!; [..|lia|lia]; rewrite in_u64_small by lia; cbn [mbind run_bind]; by rewrite in_u64_small by lia.
Qed.

Lemma compute_initial_undesirability_spec k r :
  node_by_key db k = Some r →
  compute_initial_undesirability db k payload_size direction = Ret (start_cost k) ∧ 0 ≤ start_cost k ≤ M.
Proof.
  intros Hk. unfold compute_initial_undesirability, start_cost. rewrite Hk.
  destruct (charges_small k r Hk) as (Hr & He & ? & ?). pose proof (record_cost_bounds k r Hk).
  pose proof (db_size k r Hk). destruct direction; [split; [done|lia]|].
  cbn [expect mbind run_bind compute_undesirability]. rewrite Hr, He. cbn [mbind run_bind].
  rewrite !as_i64_small, i64_add_small by lia. split; [done|lia].
Qed.

Lemma node_cost_nonneg k hops : 0 ≤ node_cost k hops.
Proof.
  unfold node_cost. destruct (node_by_key db k) as [r|] eqn:Hk; [|done].
  pose proof (record_cost_bounds k r Hk). unfold record_cost.
  destruct direction, target_opt, hops; lia.
Qed.

Lemma compute_new_undesirability_spec k r u hops :
  node_by_key db k = Some r → 0 ≤ u → u + M ≤ I64_MAX →
  compute_new_undesirability target_opt payload_size direction hostname_opt r u hops =
    Ret (u + node_cost k hops) ∧ u + node_cost k hops ≤ u + M.
Proof.
  intros Hk Hu Hm. destruct (charges_small k r Hk) as (Hr & He & ? & ?).
  pose proof (record_cost_bounds k r Hk) as Hb.
  assert (∀ t c, compute_undesirability r payload_size t = Ret c → 0 ≤ c ≤ M →
    (n ← compute_undesirability r payload_size t; i64_add u n) = Ret (u + c)) as Hadd.
  { intros t c -> ?. cbn [mbind run_bind]. apply i64_add_small; lia. }
  assert (compute_undesirability r payload_size Relay = Ret (relay_cost r)) as Hrelay.
  { simpl. rewrite Hr. cbn [mbind run_bind]. by rewrite as_i64_small by lia. }
  assert (compute_undesirability r payload_size (ExitRequest hostname_opt) =
    Ret (exit_cost r + host_penalty r + country_undesirability (metadata r))) as Hexit.
  { unfold host_penalty in *. destruct hostname_opt as [h|]; simpl; rewrite He; cbn [mbind run_bind];
      rewrite as_i64_small by lia; [|rewrite i64_add_small by lia; f_equal; lia].
    rewrite i64_add_small by (case_bool_decide; unfold UNREACHABLE_HOST_PENALTY in *; lia). cbn [mbind run_bind].
    apply i64_add_small; lia. }
  unfold compute_new_undesirability, node_cost, record_cost. rewrite Hk.
  destruct direction, target_opt, hops as [|hops]; cbn [Nat.eqb];
    (split; [apply Hadd; [done|lia]|lia]).
Qed.

Lemma cost_along_ge rest u hops : u ≤ cost_along u hops rest.
Proof.
  revert u hops; induction rest as [|k rest IH]; intros u hops; simpl; [lia|].
  pose proof (node_cost_nonneg k (pred hops)). specialize (IH (u + node_cost k (pred hops)) (pred hops)). lia.
Qed.

(** *** The search is right *)

Lemma record_key k r : node_by_key db k = Some r → public_key r = k.
Proof. intros Hk. by apply Hdb. Qed.

Lemma expect_all_spec (ks : list PublicKey) :
  (∀ k, k ∈ ks → is_Some (node_by_key db k)) →
  ∃ ns, foldr (λ k acc, n ← expect (node_by_key db k); ns ← acc; Ret (n :: ns)) (Ret []) ks = Ret ns ∧
    ∀ n, n ∈ ns ↔ ∃ k, k ∈ ks ∧ node_by_key db k = Some n.
Proof.
  induction ks as [|k ks IH]; intros Hks; simpl.
  - exists []. split; [done|]. intros n. split; [by intros ?%elem_of_nil|by intros (k & ?%elem_of_nil & _)].
  - destruct (Hks k) as [r Hr]; [by left|]. destruct IH as (ns & -> & Hns); [intros; apply Hks; by right|].
    rewrite Hr. simpl. exists (r :: ns). split; [done|]. intros n. rewrite elem_of_cons, Hns. split.
    + intros [->|(k' & ? & ?)]; [exists k; split; [by left|done]|exists k'; split; [by right|done]].
    + intros (k' & [->|?]%elem_of_cons & Hn); [left; congruence|right; eauto].
Qed.

Lemma full_neighbors_spec prefix l r :
  node_by_key db l = Some r →
  ∃ ns, full_neighbors db order prefix r = Ret ns ∧
    ∀ n, n ∈ ns ↔ ∃ k, db_has_full_neighbor db l k = true ∧ node_by_key db k = Some n.
Proof.
  intros Hl. unfold full_neighbors.
  set (ks := order prefix (full_neighbor_keys r db)).
  assert (∀ k, k ∈ ks ↔ db_has_full_neighbor db l k = true) as Hks.
  { intros k. unfold ks. rewrite Horder, elem_of_elements. by apply (full_neighbor_agrees db l r k). }
  destruct (expect_all_spec ks) as (ns & -> & Hns).
  { intros k Hk%Hks. unfold db_has_full_neighbor, db_has_half_neighbor in Hk. b2p.
    destruct (node_by_key db k); [by eexists|done]. }
  exists ns. split; [done|]. intros n. rewrite Hns. f_equiv. intros k. by rewrite Hks.
Qed.

Lemma may_follow_filter prefix l ns k n :
  last prefix = Some l →
  (∀ n, n ∈ ns ↔ ∃ k, db_has_full_neighbor db l k = true ∧ node_by_key db k = Some n) →
  let ns' := List.filter (λ n, negb (bool_decide (public_key n ∈ prefix))
               && (routes_data n || is_orig_node_on_back_leg n target_opt direction)) ns in
  (n ∈ ns' → node_by_key db (public_key n) = Some n ∧ may_follow prefix (public_key n)) ∧
  (may_follow prefix k → ∃ n, n ∈ ns' ∧ public_key n = k).
Proof.
  intros Hl Hns ns'. split.
  - unfold ns'. rewrite list_elem_of_In, filter_In, <- list_elem_of_In, Hns.
    intros ((k' & Hf & Hk') & Hb). pose proof (record_key _ _ Hk') as Hk. rewrite Hk in *.
    apply andb_prop in Hb as [Hnew Hor]. b2p. apply bool_decide_eq_false in Hnew. apply orb_true_iff in Hor.
    split; [done|]. split_and!; eauto.
  - intros (Hnew & (l' & Hl' & Hf) & r & Hr & Hor). simplify_eq. pose proof (record_key _ _ Hr) as Hk.
    exists r. split; [|done]. unfold ns'. rewrite list_elem_of_In, filter_In, <- list_elem_of_In, Hns, Hk.
    split; [eauto|]. rewrite bool_decide_eq_false_2 by done. by apply orb_true_iff.
Qed.

Definition engine := routing_engine db prefs order target_opt payload_size direction hostname_opt false.

Lemma engine_unfold fuel prefix u hops m e f l r :
  head prefix = Some f → last prefix = Some l → node_by_key db l = Some r →
  engine (S fuel) prefix u hops (m, e) =
    if m <? u then Ret ([], (m, e))
    else if qualifies prefix hops then Ret ([MkSegment prefix u], (if u <? m then u else m, e))
    else if dead_end prefix hops then Ret ([], (m, e))
    else routing_guts db order target_opt payload_size direction hostname_opt (engine fuel) prefix u hops (m, e) r.
Proof.
  intros Hf Hl Hr. unfold engine. cbn [routing_engine]. rewrite Hf, Hl. cbn [negb expect mbind run_bind].
  rewrite Hr, andb_true_r. cbn [expect mbind run_bind]. destruct (m <? u); [done|].
  rewrite (record_key l r Hr). unfold qualifies, dead_end, end_ok, country_ok, last_key_qualifies,
    validate_last_node_not_too_close_to_first_node, route_length_qualifies, exact_length.
  rewrite Hf, Hl, (record_key l r Hr).
  replace (if (length prefix <=? 2)%nat then true else negb (db_has_half_neighbor db l f))
    with ((length prefix <=? 2)%nat || negb (db_has_half_neighbor db l f)) by by destruct (length prefix <=? 2)%nat.
  rewrite <- andb_assoc.
  set (b := _ && (_ || _)). set (c := validate_last_node_country_code _ _ _ _ _).
  destruct (hops =? 0)%nat, b, c; cbn [andb negb]; try done; by rewrite !andb_true_r.
Qed.

(** Keys of the database, each once. *)
Definition simple (prefix : list PublicKey) : Prop :=
  NoDup prefix ∧ prefix ≠ [] ∧ ∀ k, k ∈ prefix → is_Some (node_by_key db k).

Lemma simple_length prefix : simple prefix → (length prefix ≤ size (by_public_key db))%nat.
Proof.
  intros (Hnd & _ & Hin). rewrite <- (size_list_to_set (C := gset PublicKey) prefix) by done.
  rewrite <- size_dom. apply subseteq_size. intros k Hk%elem_of_list_to_set. by apply elem_of_dom, Hin.
Qed.

Lemma simple_snoc prefix k : simple prefix → may_follow prefix k → simple (prefix ++ [k]).
Proof.
  intros (Hnd & Hne & Hin) (Hnew & _ & r & Hr & _). split_and!.
  - apply NoDup_app. split_and!; [done| |apply NoDup_singleton]. intros x Hx ->%list_elem_of_singleton. done.
  - by destruct prefix.
  - intros x [Hx| ->%list_elem_of_singleton]%elem_of_app; [by apply Hin|by eexists].
Qed.

Lemma pred_hops (hops : nat) : (if (hops =? 0)%nat then 0%nat else (hops - 1)%nat) = pred hops.
Proof. destruct hops; simpl; lia. Qed.

(** Costs of a step stay in range: there is room for one more node. *)
Lemma room prefix u k :
  simple prefix → 0 ≤ u ≤ Z.of_nat (length prefix) * M → may_follow prefix k → u + M ≤ I64_MAX.
Proof.
  intros Hs Hu Hk. pose proof (simple_length _ (simple_snoc _ _ Hs Hk)) as Hlen.
  destruct Hk as (_ & _ & r & Hr & _). pose proof (record_cost_bounds k r Hr).
  rewrite length_app in Hlen. simpl in Hlen. unfold costs_ok in Hcosts. b2p. nia.
Qed.

Lemma simple_ends prefix :
  simple prefix → ∃ f l r, head prefix = Some f ∧ last prefix = Some l ∧ node_by_key db l = Some r.
Proof.
  intros (_ & Hne & Hin). destruct prefix as [|f prefix] using rev_ind; [done|].
  rewrite last_snoc. destruct (Hin f) as [r Hr]; [apply elem_of_app; right; by left|].
  destruct prefix; [exists f|eexists]; by exists f, r.
Qed.

(** One level of the search visits the nodes that may follow, with their
    exact costs. *)
Lemma guts_unfold rec prefix u hops st l r :
  simple prefix → 0 ≤ u ≤ Z.of_nat (length prefix) * M → last prefix = Some l → node_by_key db l = Some r →
  ∃ ns, routing_guts db order target_opt payload_size direction hostname_opt rec prefix u hops st r =
      flat_map_st (λ k, rec (prefix ++ [k]) (u + node_cost k (pred hops)) (pred hops)) ns st ∧
    ∀ k, k ∈ ns ↔ may_follow prefix k.
Proof.
  intros Hs Hu Hl Hr. unfold routing_guts.
  destruct (full_neighbors_spec prefix l r Hr) as (ns & -> & Hns). cbn [mbind run_bind].
  pose proof (may_follow_filter prefix l ns) as Hmf. cbv zeta in Hmf. set (ns' := List.filter _ ns) in *.
  exists (public_key <$> ns'). split.
  - assert (∀ n, n ∈ ns' → node_by_key db (public_key n) = Some n ∧ may_follow prefix (public_key n)) as Hin
      by (intros n; by apply (Hmf l n)).
    clear Hmf Hns. revert st. induction ns' as [|n ns' IH]; intros st; cbn [flat_map_st fmap list_fmap]; [done|].
    destruct (Hin n) as [Hn Hk]; [by left|]. rewrite pred_hops. pose proof (room _ _ _ Hs Hu Hk).
    destruct (compute_new_undesirability_spec _ _ u (pred hops) Hn) as [-> _]; [lia|done|]. cbn [mbind run_bind].
    destruct (rec _ _ _ st) as [[bs st']|]; [|done]. cbn [mbind run_bind].
    rewrite <- IH by (intros; apply Hin; by right). by rewrite pred_hops.
  - intros k. rewrite list_elem_of_fmap. split.
    + intros (n & -> & Hn). by apply (Hmf l n).
    + intros Hk. destruct (Hmf k r) as [_ Hmf']; [done..|]. destruct (Hmf' Hk) as (n & ? & ?). eauto.
Qed.

Lemma step_cost_bound prefix u k hops :
  simple prefix → 0 ≤ u ≤ Z.of_nat (length prefix) * M → may_follow prefix k →
  0 ≤ u + node_cost k hops ≤ Z.of_nat (length (prefix ++ [k])) * M.
Proof.
  intros Hs Hu Hk. pose proof (room _ _ _ Hs Hu Hk). pose proof (node_cost_nonneg k hops).
  destruct Hk as (_ & _ & r & Hr & _). rewrite length_app. cbn [length].
  destruct (compute_new_undesirability_spec k r u hops Hr) as [_ ?]; lia.
Qed.

Lemma guts_correct (rec : list PublicKey → Z → nat → search_state → run (list ComputedRouteSegment * search_state))
    prefix u hops e ns m :
  (∀ k m', k ∈ ns → ∃ segs m'',
      rec (prefix ++ [k]) (u + node_cost k (pred hops)) (pred hops) (m', e) = Ret (segs, (m'', e)) ∧
      outcome (explored (prefix ++ [k]) (pred hops)) (prefix ++ [k]) (u + node_cost k (pred hops)) (pred hops)
        m' segs m'') →
  ∃ segs m', flat_map_st (λ k, rec (prefix ++ [k]) (u + node_cost k (pred hops)) (pred hops)) ns (m, e)
      = Ret (segs, (m', e)) ∧
    outcome (λ rest, ∃ k rest', k ∈ ns ∧ rest = k :: rest' ∧ explored (prefix ++ [k]) (pred hops) rest')
      prefix u hops m segs m'.
Proof.
  revert m. induction ns as [|k ns IHns]; intros m Hrec; cbn [flat_map_st].
  - exists [], m. split; [done|]. apply outcome_nil. by intros rest (n & rest' & ?%elem_of_nil & _).
  - destruct (Hrec k m) as (segs1 & m1 & -> & H1); [by left|].
    destruct (IHns m1) as (segs2 & m2 & Heq & H2); [intros; apply Hrec; by right|].
    cbn [mbind run_bind]. rewrite Heq. exists (segs1 ++ segs2), m2. split; [done|].
    eapply outcome_iff; [|eapply outcome_app; [by apply outcome_step, H1|exact H2]].
    intros rest. split.
    + intros [(rest' & -> & ?)|(k' & rest' & ? & -> & ?)]; [exists k, rest'|exists k', rest'];
        rewrite elem_of_cons; auto.
    + intros (k' & rest' & [->|?]%elem_of_cons & -> & ?); [left|right]; eauto.
Qed.

Lemma outcome_qualifies prefix u hops m :
  qualifies prefix hops = true →
  outcome (explored prefix hops) prefix u hops m [MkSegment prefix u] (if u <? m then u else m).
Proof.
  intros Eq. assert (∀ rest, explored prefix hops rest ↔ rest = []) as He.
  { intros [|k rest]; simpl; [done|]. rewrite Eq. split; [by intros []|done]. }
  apply (outcome_iff (λ rest, rest = [])); [intros; by rewrite He|].
  split; [split_if; lia| |split_if; [right; eexists; split; [by left|done]|by left]|..].
  - intros s ->%list_elem_of_singleton. exists []. by rewrite app_nil_r.
  - intros rest ->. simpl. split_if; lia.
  - intros rest ->. simpl. intros ?. eexists. split; [by left|]. done.
Qed.

Lemma engine_correct fuel prefix u hops m e :
  simple prefix → (size (by_public_key db) < length prefix + fuel)%nat →
  0 ≤ u ≤ Z.of_nat (length prefix) * M →
  ∃ segs m', engine fuel prefix u hops (m, e) = Ret (segs, (m', e)) ∧
    outcome (explored prefix hops) prefix u hops m segs m'.
Proof.
  revert prefix u hops m. induction fuel as [|fuel IH]; intros prefix u hops m Hs Hfuel Hu;
    [pose proof (simple_length _ Hs); lia|].
  destruct (simple_ends prefix Hs) as (f & l & r & Hf & Hl & Hr).
  rewrite (engine_unfold _ _ _ _ _ _ f l r) by done.
  destruct (Z.ltb_spec m u).
  { exists [], m. split; [done|]. apply outcome_nil. intros rest _. pose proof (cost_along_ge rest u hops). lia. }
  destruct (qualifies prefix hops) eqn:Eq; [eexists _, _; split; [done|by apply outcome_qualifies]|].
  destruct (dead_end prefix hops) eqn:Ed.
  { exists [], m. split; [done|]. apply outcome_nil. intros [|k rest]; simpl; rewrite Eq; [done|].
    rewrite Ed. by intros (_ & ? & _). }
  destruct (guts_unfold (engine fuel) prefix u hops (m, e) l r Hs Hu Hl Hr) as (ns & -> & Hns).
  destruct (guts_correct (engine fuel) prefix u hops e ns m) as (segs & m' & -> & Ho).
  - intros k m' Hk%Hns. apply IH; [by apply simple_snoc|rewrite length_app; simpl; lia|by apply step_cost_bound].
  - exists segs, m'. split; [done|]. eapply outcome_iff; [|exact Ho]. intros [|k rest]; simpl; rewrite Eq.
    + split; [by intros (? & ? & _ & ? & _)|done].
    + rewrite Ed. split.
      * intros (k' & rest' & Hk & [= -> <-] & ?). split_and!; [done..|by apply Hns|done].
      * intros (_ & _ & Hk & ?). apply Hns in Hk. eauto.
Qed.

(** *** What is explored is what is wanted *)

Lemma exact_country p q :
  exact_length = true → country_ok p = true → q ≠ [] → country_ok q = true.
Proof.
  unfold exact_length, country_ok. intros Hx Hp Hq.
  destruct (last p) as [k|]; [|done]. destruct (last q) as [k'|] eqn:E; [|by apply last_None in E].
  apply andb_prop in Hx as [_ [Hx|Hx]%orb_prop]; apply bool_decide_eq_true in Hx; revert Hp;
    unfold validate_last_node_country_code, last_node_is_always_true, is_fallback_and_last_node_qualifies,
      validate_country_code_when_fallback_routing; rewrite Hx; [done|].
  cbn [exit_countries]. rewrite (bool_decide_eq_true_2 ([] = [])) by done.
  destruct (fallback_preference prefs); [done| |].
  - intros _. by repeat case_match.
  - destruct direction; [|done]. cbn. by repeat case_match.
Qed.

Lemma explored_valid prefix hops rest :
  explored prefix hops rest →
  walk prefix rest ∧ (hops ≤ length rest)%nat ∧ (exact_length = true → length rest = hops) ∧
  end_ok (prefix ++ rest) = true ∧ country_ok (prefix ++ rest) = true.
Proof.
  revert prefix hops; induction rest as [|k rest IH]; intros prefix hops; simpl.
  - rewrite app_nil_r. unfold qualifies. intros ?. b2p. split_and!; (done || lia).
  - intros (Hq & Hd & Hk & He). destruct (IH _ _ He) as (? & ? & Hx & Hend & Hcc).
    rewrite <- app_assoc in *. split_and!; [done..|lia| |done|done].
    intros Hexact. rewrite (Hx Hexact). destruct hops as [|hops]; [|done]. exfalso.
    unfold qualifies, dead_end in *. rewrite Hexact, andb_true_r in Hd. simpl in *. b2p. rewrite Hd in Hq.
    rewrite (exact_country _ prefix Hexact Hcc) in Hq; [done|]. intros ->. by destruct Hk as (_ & (? & ? & _) & _).
Qed.

Lemma valid_explored prefix hops rest u :
  walk prefix rest → (hops ≤ length rest)%nat → (exact_length = true → length rest = hops) →
  end_ok (prefix ++ rest) = true → country_ok (prefix ++ rest) = true →
  ∃ rest', explored prefix hops rest' ∧ cost_along u hops rest' ≤ cost_along u hops rest.
Proof.
  revert prefix hops u; induction rest as [|k rest IH]; intros prefix hops u; simpl; intros Hw Hh Hx Hend Hcc.
  - exists []. rewrite app_nil_r in *. simpl. unfold qualifies. rewrite Hend, Hcc.
    split; [|done]. by replace hops with 0%nat by lia.
  - destruct (qualifies prefix hops) eqn:Eq.
    { exists []. split; [done|]. apply (cost_along_ge (k :: rest)). }
    destruct (dead_end prefix hops) eqn:Ed.
    { unfold dead_end in Ed. b2p. specialize (Hx ltac:(done)). lia. }
    destruct (IH (prefix ++ [k]) (pred hops) (u + node_cost k (pred hops))) as (rest' & He & Hc);
      [by destruct Hw|lia|intros; specialize (Hx ltac:(done)); lia|by rewrite <- app_assoc..|].
    exists (k :: rest'). simpl. by destruct Hw.
Qed.

Lemma simple_singleton source : is_Some (node_by_key db source) → simple [source].
Proof.
  intros Hs. split_and!; [apply NoDup_singleton|done|]. by intros k ->%list_elem_of_singleton.
Qed.

Lemma search_result source minimum_hops :
  is_Some (node_by_key db source) →
  ∃ segs m, engine (search_fuel db) [source] (start_cost source) minimum_hops (I64_MAX, []) = Ret (segs, (m, [])) ∧
    outcome (explored [source] minimum_hops) [source] (start_cost source) minimum_hops I64_MAX segs m.
Proof.
  intros [r Hr]. destruct (compute_initial_undesirability_spec source r Hr) as [_ ?].
  apply engine_correct; [apply simple_singleton; by eexists|unfold search_fuel; simpl; lia|simpl; lia].
Qed.

(** *** Research of the exits *)

(** A search for exits below [prefix] has extended the list [e] to [e']. *)
Record discovery (prefix : list PublicKey) (hops : nat) (e e' : list PublicKey) : Prop := MkDiscovery {
  dc_distinct : NoDup e → NoDup e';
  dc_grows : e ⊆ e';
  dc_sound : ∀ k, k ∈ e' → k ∈ e ∨
    ∃ rest, walk prefix rest ∧ (hops ≤ length rest)%nat ∧ end_ok (prefix ++ rest) = true ∧
      last (prefix ++ rest) = Some k;
  dc_complete : ∀ rest k, walk prefix rest → length rest = hops → end_ok (prefix ++ rest) = true →
    last (prefix ++ rest) = Some k → k ∈ e'
}.

Definition research_engine := routing_engine db prefs order target_opt payload_size direction hostname_opt true.

Lemma research_unfold fuel prefix u hops m e f l r :
  head prefix = Some f → last prefix = Some l → node_by_key db l = Some r →
  research_engine (S fuel) prefix u hops (m, e) =
    let guts e := routing_guts db order target_opt payload_size direction hostname_opt (research_engine fuel)
                    prefix u hops (m, e) r in
    if (hops =? 0)%nat && end_ok prefix then
      if bool_decide (l ∈ e) then Ret ([], (m, e)) else guts (e ++ [l])
    else guts e.
Proof.
  intros Hf Hl Hr. unfold research_engine. cbn [routing_engine]. rewrite Hf, Hl, andb_false_r.
  cbn [negb expect mbind run_bind andb]. rewrite Hr. cbn [expect mbind run_bind].
  unfold end_ok, last_key_qualifies, validate_last_node_not_too_close_to_first_node, route_length_qualifies.
  rewrite Hf, Hl, (record_key l r Hr), !andb_false_r. cbn [andb].
  replace (if (length prefix <=? 2)%nat then true else negb (db_has_half_neighbor db l f))
    with ((length prefix <=? 2)%nat || negb (db_has_half_neighbor db l f)) by by destruct (length prefix <=? 2)%nat.
  by rewrite <- andb_assoc.
Qed.

Lemma research_guts (rec : list PublicKey → Z → nat → search_state → run (list ComputedRouteSegment * search_state))
    prefix u hops ns m e :
  (∀ k e', k ∈ ns → ∃ segs e'',
      rec (prefix ++ [k]) (u + node_cost k (pred hops)) (pred hops) (m, e') = Ret (segs, (m, e'')) ∧
      discovery (prefix ++ [k]) (pred hops) e' e'') →
  (∀ k, k ∈ ns ↔ may_follow prefix k) →
  ∃ segs e', flat_map_st (λ k, rec (prefix ++ [k]) (u + node_cost k (pred hops)) (pred hops)) ns (m, e)
      = Ret (segs, (m, e')) ∧ (NoDup e → NoDup e') ∧ e ⊆ e' ∧
    (∀ k, k ∈ e' → k ∈ e ∨ ∃ rest, walk prefix rest ∧ (hops ≤ length rest)%nat ∧
      end_ok (prefix ++ rest) = true ∧ last (prefix ++ rest) = Some k) ∧
    (∀ k' rest k, walk prefix (k' :: rest) → length rest = pred hops →
      end_ok (prefix ++ k' :: rest) = true → last (prefix ++ k' :: rest) = Some k → k ∈ e').
Proof.
  intros Hrec Hns.
  assert (∀ k, k ∈ ns → may_follow prefix k) as Hin by (intros; by apply Hns).
  assert (∃ segs e', flat_map_st (λ k, rec (prefix ++ [k]) (u + node_cost k (pred hops)) (pred hops)) ns (m, e)
      = Ret (segs, (m, e')) ∧ (NoDup e → NoDup e') ∧ e ⊆ e' ∧
    (∀ k, k ∈ e' → k ∈ e ∨ ∃ rest, walk prefix rest ∧ (hops ≤ length rest)%nat ∧
      end_ok (prefix ++ rest) = true ∧ last (prefix ++ rest) = Some k) ∧
    (∀ k' rest k, k' ∈ ns → walk (prefix ++ [k']) rest → length rest = pred hops →
      end_ok (prefix ++ k' :: rest) = true → last (prefix ++ k' :: rest) = Some k → k ∈ e'))
    as (segs & e' & ? & ? & ? & ? & Hc).
  { clear Hns. revert e Hrec Hin. induction ns as [|k ns IHns]; intros e Hrec Hin; cbn [flat_map_st].
    { exists [], e. split_and!; [done..|auto|]. by intros n rest k ?%elem_of_nil. }
    destruct (Hrec k e) as (segs1 & e1 & -> & [Hd1 Hg1 Hs1 Hc1]); [by left|].
    destruct (IHns e1) as (segs2 & e2 & Heq & Hd2 & Hg2 & Hs2 & Hc2); [intros; (apply Hrec || apply Hin); by right..|].
    cbn [mbind run_bind]. rewrite Heq. exists (segs1 ++ segs2), e2. split_and!; [done|auto|by etrans| |].
    - intros k' [Hk|?]%Hs2; [|by right]. destruct (Hs1 _ Hk) as [?|(rest & ? & ? & Hend & Hlast)]; [by left|right].
      exists (k :: rest). rewrite <- app_assoc in Hend, Hlast. simpl.
      split_and!; [apply Hin; by left|done|lia|done|done].
    - intros k' rest k'' [->|Hn']%elem_of_cons Hw Hlen Hend Hlast; [|by eapply Hc2].
      apply Hg2, (Hc1 rest k''); [done|done|by rewrite <- app_assoc..]. }
  exists segs, e'. split_and!; [done..|]. intros k' rest k [Hk Hw]. apply Hc; [by apply Hns|done].
Qed.

Lemma research_correct fuel prefix u hops m e :
  simple prefix → (size (by_public_key db) < length prefix + fuel)%nat →
  0 ≤ u ≤ Z.of_nat (length prefix) * M →
  ∃ segs e', research_engine fuel prefix u hops (m, e) = Ret (segs, (m, e')) ∧ discovery prefix hops e e'.
Proof.
  revert prefix u hops e. induction fuel as [|fuel IH]; intros prefix u hops e Hs Hfuel Hu;
    [pose proof (simple_length _ Hs); lia|].
  destruct (simple_ends prefix Hs) as (f & l & r & Hf & Hl & Hr).
  rewrite (research_unfold _ _ _ _ _ _ f l r) by done. cbv zeta.
  destruct ((hops =? 0)%nat && end_ok prefix) eqn:Eq; [case_bool_decide as Hin|].
  - (* the exit is known already *)
    b2p. subst hops. exists [], e. split; [done|]. split; [done|done|auto|].
    intros [|k' rest] k _ ? _; [|done]. rewrite app_nil_r, Hl. by intros [= <-].
  - (* a new exit *)
    b2p. subst hops. destruct (guts_unfold (research_engine fuel) prefix u 0 (m, e ++ [l]) l r Hs Hu Hl Hr)
      as (ns & -> & Hns).
    destruct (research_guts (research_engine fuel) prefix u 0 ns m (e ++ [l])) as (segs & e' & -> & Hd & Hg & Hso & _);
      [intros k e' Hk%Hns; apply IH; [by apply simple_snoc|rewrite length_app; simpl; lia|by apply step_cost_bound]|done|].
    exists segs, e'. split; [done|]. split.
    + intros Hnd. apply Hd, NoDup_app. split_and!; [done| |apply NoDup_singleton].
      by intros x ? ->%list_elem_of_singleton.
    + intros x Hx. apply Hg, elem_of_app. by left.
    + intros k [[?| ->%list_elem_of_singleton]%elem_of_app|?]%Hso; [by left| |by right].
      right. exists []. rewrite app_nil_r. by split_and!.
    + intros [|k' rest] k _ ? _; [|done]. rewrite app_nil_r, Hl. intros [= <-].
      apply Hg, elem_of_app. right. by left.
  - destruct (guts_unfold (research_engine fuel) prefix u hops (m, e) l r Hs Hu Hl Hr) as (ns & -> & Hns).
    destruct (research_guts (research_engine fuel) prefix u hops ns m e) as (segs & e' & -> & Hd & Hg & Hso & Hc);
      [intros k e' Hk%Hns; apply IH; [by apply simple_snoc|rewrite length_app; simpl; lia|by apply step_cost_bound]|done|].
    exists segs, e'. split; [done|]. split; [done|done|done|].
    intros [|k' rest] k Hw Hlen Hend Hlast.
    + rewrite app_nil_r in Hend. simpl in Hlen. subst hops. by rewrite Hend in Eq.
    + eapply Hc; try done. simpl in Hlen. lia.
Qed.

(** *** Picking the best segment *)

Lemma cost_along_le prefix rest u hops :
  simple prefix → 0 ≤ u ≤ Z.of_nat (length prefix) * M → walk prefix rest → cost_along u hops rest ≤ I64_MAX.
Proof.
  revert prefix u hops; induction rest as [|k rest IH]; intros prefix u hops Hs Hu; simpl.
  - intros _. pose proof (simple_length _ Hs). destruct (simple_ends _ Hs) as (_ & l & r & _ & _ & Hr).
    pose proof (record_cost_bounds l r Hr). unfold costs_ok in Hcosts. b2p. nia.
  - intros [Hk Hw]. apply (IH (prefix ++ [k])); [by apply simple_snoc|by apply step_cost_bound|done].
Qed.

Lemma pick_spec source hops segs m :
  is_Some (node_by_key db source) →
  outcome (explored [source] hops) [source] (start_cost source) hops I64_MAX segs m →
  match nodes <$> head (List.filter (λ cr, undesirability cr <=? m) segs) with
  | Some route => valid_route source hops route ∧
      ∀ other, valid_route source hops other → route_cost hops route ≤ route_cost hops other
  | None => ∀ route, ¬ valid_route source hops route
  end.
Proof.
  intros Hsource Ho.
  assert (∀ route, valid_route source hops route → ∃ rest, explored [source] hops rest ∧
    cost_along (start_cost source) hops rest ≤ route_cost hops route) as Hall.
  { intros route (rest & -> & ? & ? & ? & ? & ?). by apply valid_explored. }
  destruct (List.filter _ segs) as [|s ss] eqn:Ef; simpl.
  - assert (∀ s, s ∈ segs → m < undesirability s) as Hno.
    { intros s Hs. destruct (Z.leb_spec (undesirability s) m) as [Hle|]; [|done].
      assert (In s []) as []. rewrite <- Ef. apply filter_In. rewrite <- list_elem_of_In. by apply Z.leb_le in Hle. }
    intros route (rest & Hexp & _)%Hall.
    destruct (oc_attained _ _ _ _ _ _ _ Ho) as [->|(s & Hs & Heq)]; [|specialize (Hno _ Hs); lia].
    destruct (oc_complete _ _ _ _ _ _ _ Ho rest Hexp) as (s & Hs & ?); [|specialize (Hno _ Hs); lia].
    destruct Hsource as [r Hr]. destruct (compute_initial_undesirability_spec source r Hr) as [_ ?].
    apply (cost_along_le [source]); [by apply simple_singleton|simpl; lia|]. by apply explored_valid in Hexp as [? _].
  - assert (In s segs ∧ (undesirability s <=? m) = true) as [Hs Hm]
      by (apply (filter_In (λ cr, undesirability cr <=? m)); rewrite Ef; by left). rewrite <- list_elem_of_In in Hs. b2p.
    destruct (oc_sound _ _ _ _ _ _ _ Ho s Hs) as (rest & Hexp & -> & Hcost).
    split.
    + destruct (explored_valid _ _ _ Hexp) as (? & ? & ? & ? & ?). exists rest. by split_and!.
    + intros other (rest' & Hexp' & Hle)%Hall. pose proof (oc_bound _ _ _ _ _ _ _ Ho rest' Hexp'). simpl. lia.
Qed.

End best_route.
(** ** The search finds the best route *)

(** The search of a leg, for the clients of this file. *)
Lemma best_route_exists (db : NeighborhoodDatabase (Wallet := Wallet)) (prefs : UserExitPreferences)
    (order : list PublicKey → gset PublicKey → list PublicKey) (source : PublicKey)
    (target_opt : option PublicKey) (minimum_hops : nat) (payload_size : Z) (direction : RouteDirection)
    (hostname_opt : option string) (M : Z) :
  consistent db → (∀ call s, order call s ≡ₚ elements s) → costs_ok db payload_size M = true →
  is_Some (node_by_key db source) →
  let valid := valid_route db prefs target_opt direction source minimum_hops in
  let cost := route_cost db target_opt payload_size direction hostname_opt minimum_hops in
  ∃ result, find_best_route_segment db prefs order source target_opt minimum_hops payload_size direction
              hostname_opt = Ret result ∧
    match result with
    | Some route => valid route ∧ ∀ other, valid other → cost route ≤ cost other
    | None => ∀ route, ¬ valid route
    end.
Proof.
  intros Hdb Horder Hcosts Hsource valid cost.
  destruct (search_result db prefs order target_opt payload_size direction hostname_opt M Hdb Horder Hcosts
              source minimum_hops Hsource) as (segs & m & He & Ho).
  unfold find_best_route_segment. pose proof Hsource as [r Hr].
  destruct (compute_initial_undesirability_spec db payload_size direction hostname_opt M Hcosts source r Hr) as [-> _].
  cbn [mbind run_bind]. unfold engine in He. rewrite He. cbn [mbind run_bind]. eexists. split; [done|].
  by apply (pick_spec db prefs target_opt payload_size direction hostname_opt M Hcosts).
Qed.

(** C8: route search is correct and optimal.  For every consistent database
    whose costs fit in 64 bits, whatever order the neighbors are visited in,
    [find_best_route_segment] returns: either a valid route (from the source,
    over full neighbors that relay data, no node twice, at least the minimum
    number of hops, ending at the target or at an acceptable exit that is not a
    neighbor of the source) that costs no more than any other valid route, or
    nothing, and then there is no valid route. *)
Theorem best_route_is_optimal (db : NeighborhoodDatabase (Wallet := Wallet)) (prefs : UserExitPreferences)
    (order : list PublicKey → gset PublicKey → list PublicKey) (source : PublicKey)
    (target_opt : option PublicKey) (minimum_hops : nat) (payload_size : Z) (direction : RouteDirection)
    (hostname_opt : option string) (M : Z) :
  consistent db → (∀ call s, order call s ≡ₚ elements s) → costs_ok db payload_size M = true →
  is_Some (node_by_key db source) →
  let valid := valid_route db prefs target_opt direction source minimum_hops in
  let cost := route_cost db target_opt payload_size direction hostname_opt minimum_hops in
  ∃ result, find_best_route_segment db prefs order source target_opt minimum_hops payload_size direction
              hostname_opt = Ret result ∧
    match result with
    | Some route => valid route ∧ ∀ other, valid other → cost route ≤ cost other
    | None => ∀ route, ¬ valid route
    end.
Proof. apply best_route_exists. Qed.

(** The search for exits is sound, and complete at the minimum distance.
    [find_exit_locations] returns; the exits it lists are distinct, each is the
    end of a route of at least the minimum number of hops that does not end next
    to the source, and every such route of exactly that length has its end
    listed. *)
Lemma exit_search_spec (db : NeighborhoodDatabase (Wallet := Wallet)) (prefs : UserExitPreferences)
    (order : list PublicKey → gset PublicKey → list PublicKey) (source : PublicKey) (minimum_hops : nat) (M : Z) :
  consistent db → (∀ call s, order call s ≡ₚ elements s) → costs_ok db PAYLOAD_ZERO_SIZE M = true →
  is_Some (node_by_key db source) →
  let route_to (n : nat) (k : PublicKey) := ∃ rest, walk db None Over [source] rest ∧ length rest = n ∧
    end_ok db None (source :: rest) = true ∧ last (source :: rest) = Some k in
  ∃ exits, find_exit_locations db prefs order source minimum_hops = Ret exits ∧ NoDup exits ∧
    (∀ k, k ∈ exits → ∃ n, (minimum_hops ≤ n)%nat ∧ route_to n k) ∧
    (∀ k, route_to minimum_hops k → k ∈ exits).
Proof.
  intros Hdb Horder Hcosts Hsource route_to.
  destruct (research_correct db prefs order None PAYLOAD_ZERO_SIZE Over None M Hdb Horder Hcosts
    (search_fuel db) [source] 0 minimum_hops I64_MAX []) as (segs & exits & He & [Hd _ Hs Hc]);
    [by apply simple_singleton|unfold search_fuel; simpl; lia| |].
  { destruct Hsource as [r Hr]. pose proof (record_cost_bounds db PAYLOAD_ZERO_SIZE None M Hcosts source r Hr). simpl; lia. }
  unfold find_exit_locations. unfold research_engine in He. rewrite He. exists exits. split_and!; [done|apply Hd; constructor| |].
  - intros k [?%elem_of_nil|(rest & ? & ? & ? & ?)]%Hs; [done|]. eexists. split; [done|]. exists rest. by split_and!.
  - intros k (rest & ? & ? & ? & ?). by apply (Hc rest).
Qed.

End routing.

(** ** A small network *)

(** Node 1 has the neighbor 2, which reaches 4 over the cheap node 3 and the
    dear node 5. *)
Definition net_record (n : Z) (ns : list Z) (rate : Z) : NodeRecord (Wallet := nat) :=
  MkRecord (MkInner (demo_key n) 7%nat (MkRates rate rate rate rate) (list_to_set (demo_key <$> ns)) true true 0 None)
    (MkMetadata 100 None ∅ None 0) [] [].

Definition net_ops : list (db_op (Wallet := nat)) :=
  [AddNode (net_record 2 [1; 3; 5] 1); AddNode (net_record 3 [2; 4] 1); AddNode (net_record 4 [3; 5] 1);
   AddNode (net_record 5 [2; 4] 9); AddHalfNeighbor (demo_key 2) 120].

Definition net : NeighborhoodDatabase (Wallet := nat) :=
  match foldl (λ m o, db ← m; db_step db o) demo_new net_ops with Ret db => db | Panic => MkDb [] ∅ ∅ end.

Definition net_order (call : list PublicKey) (s : gset PublicKey) : list PublicKey := elements s.
Definition no_preferences : UserExitPreferences := MkPreferences [] NoPreference None [].

Lemma net_consistent : consistent net.
Proof.
  assert (foldl (λ m o, db ← m; db_step db o) demo_new net_ops = Ret net) as Hnet by (vm_compute; done).
  apply (reachable_consistent (demo_key 1)), (reachable_history _ net_ops demo_new);
    [|vm_compute; done|done].
  intros db Hdb. unfold demo_new in Hdb. by eapply reach_new.
Qed.

Lemma net_order_ok call s : net_order call s ≡ₚ elements s.
Proof. done. Qed.

Lemma best_route_is_optimal_witness :
  find_best_route_segment net no_preferences net_order (demo_key 1) None 3 1000 Over None =
    Ret (Some (demo_key <$> [1; 2; 3; 4])) ∧
  ∀ other, valid_route net no_preferences None Over (demo_key 1) 3 other →
    route_cost net None 1000 Over None 3 (demo_key <$> [1; 2; 3; 4]) ≤ route_cost net None 1000 Over None 3 other.
Proof.
  destruct (best_route_is_optimal net no_preferences net_order (demo_key 1) None 3 1000 Over None (2 ^ 40)
              net_consistent net_order_ok eq_refl ltac:(vm_compute; eauto)) as (res & Hres & Hbest).
  assert (res = Some (demo_key <$> [1; 2; 3; 4])) as ->
    by (vm_compute in Hres; injection Hres as <-; reflexivity).
  split; [exact Hres|]. exact (proj2 Hbest).
Defined.

End Routing.
