(* ===== verification/ExitPreferences.v ===== *)
(** * Exit preferences

    Models the choice of exit countries in [node/src/neighborhood/mod.rs]:
    [UserExitPreferences] and its methods, [handle_exit_location_message] and
    what it calls, with the messages of [masq_lib/src/messages.rs].

    The state is the database (each node record carries the undesirability of
    its country) and the preferences.  [sort] is the merge sort of strings in
    byte order.  Log output is left out. *)
From Stdlib Require Import String.
From S2P Require Import Prelude.
From S2P Require Import NeighborhoodDatabase Routing.
From stdpp Require Import base list gmap strings sorting.

Module ExitPreferences.
Import Neighborhood Routing.
Local Open Scope Z_scope.

Definition UNREACHABLE_COUNTRY_PENALTY : Z := 100000000.
Definition ZERO_UNDESIRABILITY : Z := 0.
Definition COUNTRY_UNDESIRABILITY_FACTOR : Z := 1000.
Definition ZZ_COUNTRY_CODE_STRING : string := "ZZ".
Definition EXIT_COUNTRY_MISSING_COUNTRIES_ERROR : Z := Z.lor 0x8000000000000000 8.

Definition preferences_new : UserExitPreferences := MkPreferences [] NoPreference None [].

(** ** [UserExitPreferences] *)

Definition should_set_country_undesirability (country_code : string) (exit_location : ExitLocation) : bool :=
  bool_decide (country_code ∈ country_codes exit_location) && negb (bool_decide (country_code = ZZ_COUNTRY_CODE_STRING)).

Definition is_unreachable_country_penalty (self : UserExitPreferences) (country_code : string) : bool :=
  (bool_decide (fallback_preference self = ExitCountryWithFallback)
   && negb (bool_decide (country_code ∈ exit_countries self)))
  || bool_decide (country_code = ZZ_COUNTRY_CODE_STRING).

(** On [u32]: a priority of zero underflows, a huge one overflows. *)
Definition calculate_country_undesirability (priority : Z) : run Z :=
  panic_if (priority =? 0)
    (let u := COUNTRY_UNDESIRABILITY_FACTOR * (priority - 1) in panic_if (2 ^ 32 <=? u) (Ret u)).

(** The body of the loop over the locations. *)
Definition assign_for_location (self : UserExitPreferences) (country_code : string) (undesirability : Z)
    (exit_location : ExitLocation) : run Z :=
  u ← (if should_set_country_undesirability country_code exit_location
       then calculate_country_undesirability (u32 (priority exit_location)) else Ret undesirability);
  Ret (if is_unreachable_country_penalty self country_code then UNREACHABLE_COUNTRY_PENALTY else u).

Fixpoint assign_loop (self : UserExitPreferences) (country_code : string) (ls : list ExitLocation) (undesirability : Z)
    : run Z :=
  match ls with
  | [] => Ret undesirability
  | l :: ls => u ← assign_for_location self country_code undesirability l; assign_loop self country_code ls u
  end.

Section preferences.
Context {Wallet : Type} `{!EqDecision Wallet}.

Definition record_country (r : NodeRecord (Wallet := Wallet)) : string :=
  default ZZ_COUNTRY_CODE_STRING (i_country_code_opt (inner r)).

Definition set_country_undesirability (u : Z) (r : NodeRecord (Wallet := Wallet)) : NodeRecord (Wallet := Wallet) :=
  with_metadata (λ m, MkMetadata (last_update m) (m_node_addr_opt m) (unreachable_hosts m) (node_location_opt m) u) r.

Definition assign_nodes_country_undesirability (self : UserExitPreferences) (r : NodeRecord (Wallet := Wallet))
    : run (NodeRecord (Wallet := Wallet)) :=
  match locations_opt self with
  | Some ls =>
      u ← assign_loop self (record_country r) ls (country_undesirability (metadata r));
      Ret (set_country_undesirability u r)
  | None => Ret r
  end.

(** [for node_record in nodes_mut()]: every record is changed by itself, so the
    order does not matter. *)
Definition for_nodes_mut (f : NodeRecord (Wallet := Wallet) → run (NodeRecord (Wallet := Wallet)))
    (db : NeighborhoodDatabase (Wallet := Wallet)) : run (NeighborhoodDatabase (Wallet := Wallet)) :=
  panic_if (existsb (λ kr, match f kr.2 with Panic => true | Ret _ => false end) (map_to_list (by_public_key db)))
    (Ret (MkDb (this_node db) ((λ r, match f r with Ret r' => r' | Panic => r end) <$> by_public_key db) (by_ip_addr db))).

(** What of [Neighborhood] the handler uses. *)
Record ExitState := MkExitState {
  database : NeighborhoodDatabase (Wallet := Wallet);
  preferences : UserExitPreferences
}.

Definition set_exit_countries (cs : list string) (p : UserExitPreferences) : UserExitPreferences :=
  MkPreferences cs (fallback_preference p) (locations_opt p) (db_countries p).
Definition set_fallback (f : FallbackPreference) (p : UserExitPreferences) : UserExitPreferences :=
  MkPreferences (exit_countries p) f (locations_opt p) (db_countries p).
Definition set_locations (l : option (list ExitLocation)) (p : UserExitPreferences) : UserExitPreferences :=
  MkPreferences (exit_countries p) (fallback_preference p) l (db_countries p).
Definition set_db_countries (cs : list string) (p : UserExitPreferences) : UserExitPreferences :=
  MkPreferences (exit_countries p) (fallback_preference p) (locations_opt p) cs.

Definition set_country_undesirability_and_exit_countries (self : ExitState) (exit_locations_by_priority : list ExitLocation)
    : run ExitState :=
  if bool_decide (exit_locations_by_priority ≠ []) then
    db ← for_nodes_mut (assign_nodes_country_undesirability (preferences self)) (database self);
    Ret (MkExitState db (preferences self))
  else
    db ← for_nodes_mut (λ r, Ret (set_country_undesirability ZERO_UNDESIRABILITY r)) (database self);
    Ret (MkExitState db (set_exit_countries [] (preferences self))).

(** ** Countries of the database *)

Definition sort_strings : list string → list string := merge_sort String.le.

(** [Vec::dedup]: of a run of equal elements the first one stays. *)
Fixpoint dedup_from (prev : option string) (l : list string) : list string :=
  match l with
  | [] => []
  | s :: l => if decide (prev = Some s) then dedup_from prev l else s :: dedup_from (Some s) l
  end.
Definition dedup (l : list string) : list string := dedup_from None l.

Definition exit_country (db : NeighborhoodDatabase (Wallet := Wallet)) (k : PublicKey) : option string :=
  match node_by_key db k with
  | Some node_record => i_country_code_opt (inner node_record)
  | None => None
  end.

(** The order of iteration in the search for exits, and [self.min_hops]. *)
Context (order : list PublicKey → gset PublicKey → list PublicKey) (min_hops : nat).

Definition init_db_countries (self : ExitState) : run (list string) :=
  exit_nodes ← find_exit_locations (database self) (preferences self) order (root_key (database self)) min_hops;
  Ret (dedup (sort_strings (omap (exit_country (database self)) exit_nodes))).

(** ** The request *)

Record UiSetExitLocationRequest := MkRequest {
  fallback_routing : bool;
  exit_locations : list ExitLocation;
  show_countries : bool
}.

Inductive ExitLocationResponse :=
| ResponseError (code : Z) (missing : string)
| ResponseOk (fallback_routing : bool) (exit_country_selection : list ExitLocation)
    (exit_countries : option (list string)) (missing_countries : list string).

Definition fallback_active_and_code_missing_in_db_countries (p : UserExitPreferences) (code : string) : bool :=
  bool_decide (fallback_preference p = ExitCountryWithFallback) && negb (bool_decide (code ∈ db_countries p)).

Definition code_in_db_countries_or_fallback_active (p : UserExitPreferences) (code : string) : bool :=
  bool_decide (code ∈ db_countries p) || bool_decide (fallback_preference p = ExitCountryWithFallback).

(** [position] and [remove]: the first occurrence goes. *)
Fixpoint remove_first (code : string) (l : list string) : list string :=
  match l with
  | [] => []
  | c :: l => if decide (c = code) then l else c :: remove_first code l
  end.

Definition synchronize_code (p : UserExitPreferences) (code : string) : UserExitPreferences * list string :=
  if code_in_db_countries_or_fallback_active p code then
    let p := if bool_decide (code ∈ exit_countries p) then p else set_exit_countries (exit_countries p ++ [code]) p in
    (p, if fallback_active_and_code_missing_in_db_countries p code then [code] else [])
  else (set_exit_countries (remove_first code (exit_countries p)) p, [code]).

Fixpoint synchronize_exit_countries_and_return_missing (p : UserExitPreferences) (codes : list string)
    : UserExitPreferences * list string :=
  match codes with
  | [] => (p, [])
  | code :: codes =>
      let '(p, missing) := synchronize_code p code in
      let '(p, rest) := synchronize_exit_countries_and_return_missing p codes in
      (p, missing ++ rest)
  end.

Fixpoint synchronize_locations (p : UserExitPreferences) (ls : list ExitLocation) : UserExitPreferences * list string :=
  match ls with
  | [] => (p, [])
  | l :: ls =>
      let '(p, missing) := synchronize_exit_countries_and_return_missing p (country_codes l) in
      let '(p, rest) := synchronize_locations p ls in
      (p, missing ++ rest)
  end.

Definition extract_exit_locations_from_message (self : ExitState) (message : UiSetExitLocationRequest)
    : run (ExitState * (list ExitLocation * list string)) :=
  cs ← init_db_countries self;
  let '(p, missing) := synchronize_locations (set_db_countries cs (preferences self)) (exit_locations message) in
  Ret (MkExitState (database self) p, (exit_locations message, missing)).

Definition set_exit_locations_opt (p : UserExitPreferences) (ls : list ExitLocation) : UserExitPreferences :=
  set_locations
    (if bool_decide (exit_countries p = []) then
       match fallback_preference p with
       | ExitCountryNoFallback => None
       | _ => Some ls
       end
     else Some ls) p.

(** The response, too, keeps the sorted list. *)
Definition error_message_indicates (p : UserExitPreferences) (missing_countries : list string) : bool * list string :=
  let desired_countries := match locations_opt p with Some ls => ls ≫= country_codes | None => [] end in
  if bool_decide (desired_countries = []) && bool_decide (missing_countries = []) then (false, missing_countries)
  else (bool_decide (sort_strings missing_countries = sort_strings desired_countries), sort_strings missing_countries).

Definition is_fallback_routing_active (p : UserExitPreferences) : bool :=
  match fallback_preference p with
  | NoPreference => true
  | ExitCountryWithFallback => true
  | ExitCountryNoFallback => false
  end.

Definition get_locations_opt (p : UserExitPreferences) : list ExitLocation := default [] (locations_opt p).

Definition get_countries_to_show (p : UserExitPreferences) (show_countries_flag : bool) : option (list string) :=
  if show_countries_flag then Some (db_countries p) else None.

(** [Vec::join] *)
Fixpoint join (sep : string) (l : list string) : string :=
  match l with
  | [] => ""
  | [s] => s
  | s :: l => s +:+ sep +:+ join sep l
  end.

Definition create_exit_location_response (p : UserExitPreferences) (missing_countries : list string)
    (show_countries_flag : bool) : ExitLocationResponse :=
  let missing_countries_message := join ", " missing_countries in
  let '(error, missing_countries) := error_message_indicates p missing_countries in
  if error then ResponseError EXIT_COUNTRY_MISSING_COUNTRIES_ERROR missing_countries_message
  else ResponseOk (is_fallback_routing_active p) (get_locations_opt p) (get_countries_to_show p show_countries_flag)
         missing_countries.

Definition requested_preference (fallback : bool) (no_locations : bool) : FallbackPreference :=
  match fallback, no_locations with
  | true, true | false, true => NoPreference
  | true, false => ExitCountryWithFallback
  | false, false => ExitCountryNoFallback
  end.

Definition handle_exit_location_message (self : ExitState) (message : UiSetExitLocationRequest)
    : run (ExitState * ExitLocationResponse) :=
  '(self, (exit_locations_by_priority, missing_countries)) ← extract_exit_locations_from_message self message;
  let p := set_fallback (requested_preference (fallback_routing message)
                           (bool_decide (exit_locations_by_priority = []))) (preferences self) in
  let p := if show_countries message then p else set_exit_locations_opt p exit_locations_by_priority in
  let self := MkExitState (database self) p in
  self ← (if (1 <? size (keys (database self)))%nat
          then set_country_undesirability_and_exit_countries self exit_locations_by_priority else Ret self);
  Ret (self, create_exit_location_response (preferences self) missing_countries (show_countries message)).


(** ** What the countries of the database are *)

Lemma sort_strings_perm l : sort_strings l ≡ₚ l.
Proof. apply merge_sort_Permutation. Qed.

Lemma sort_strings_sorted l : StronglySorted String.le (sort_strings l).
Proof. apply StronglySorted_merge_sort; apply _. Qed.

Lemma dedup_from_elem prev l c :
  c ∈ dedup_from prev l → c ∈ l.
Proof.
  revert prev. induction l as [|s l IH]; intros prev; [done|]. simpl.
  destruct (decide _); [intros ?; right; by eapply IH|]. intros [->|?]%elem_of_cons; [by left|right; by eapply IH].
Qed.

Lemma dedup_from_complete prev l c : c ∈ l → c ∈ dedup_from prev l ∨ prev = Some c.
Proof.
  revert prev. induction l as [|s l IH]; intros prev; [by intros ?%elem_of_nil|]. simpl. intros Hc.
  destruct (decide (prev = Some s)) as [->|]; apply elem_of_cons in Hc as [->|Hc].
  - by right.
  - by apply IH.
  - left. by left.
  - left. destruct (IH (Some s) Hc) as [?|[= ->]]; [by right|by left].
Qed.

(** Of a sorted list every element stays once. *)
Lemma dedup_from_sorted prev l :
  StronglySorted String.le l → (∀ p c, prev = Some p → c ∈ l → String.le p c) →
  StronglySorted String.le (dedup_from prev l) ∧ NoDup (dedup_from prev l) ∧
  ∀ p, prev = Some p → p ∉ dedup_from prev l.
Proof.
  revert prev. induction l as [|s l IH]; intros prev Hl Hp; simpl.
  { split_and!; [constructor|constructor|intros; apply not_elem_of_nil]. }
  apply StronglySorted_inv in Hl as [Hl Hs]. rewrite Forall_forall in Hs. destruct (decide (prev = Some s)) as [->|Hne].
  { apply IH; [done|]. intros p c [= <-] Hc. by apply Hs. }
  destruct (IH (Some s) Hl) as (H1 & H2 & H3); [intros p c [= <-] Hc; by apply Hs|]. split_and!.
  - constructor; [done|]. apply Forall_forall. intros c Hc. by apply Hs, (dedup_from_elem (Some s)).
  - constructor; [by apply H3|done].
  - intros p -> [->|Hin]%elem_of_cons; [done|].
    apply Hne. f_equal. apply (anti_symm String.le); [by apply (Hp p s); [|left]|].
    by apply Hs, (dedup_from_elem (Some s)).
Qed.

Lemma dedup_sort_spec l :
  StronglySorted String.le (dedup (sort_strings l)) ∧ NoDup (dedup (sort_strings l)) ∧
  ∀ c, c ∈ dedup (sort_strings l) ↔ c ∈ l.
Proof.
  destruct (dedup_from_sorted None (sort_strings l)) as (H1 & H2 & _); [apply sort_strings_sorted|done|].
  split_and!; [done..|]. intros c. rewrite <- (sort_strings_perm l) at 2. split; [apply dedup_from_elem|].
  intros Hc. by destruct (dedup_from_complete None _ c Hc).
Qed.

(** ** Synchronizing the selected countries *)

(** A requested country is selected if the neighborhood has an exit in it, or
    regardless of that once falling back is allowed. *)
Definition selectable (p : UserExitPreferences) (c : string) : Prop :=
  c ∈ db_countries p ∨ fallback_preference p = ExitCountryWithFallback.

Lemma selectable_spec p c : code_in_db_countries_or_fallback_active p c = true ↔ selectable p c.
Proof. unfold code_in_db_countries_or_fallback_active, selectable. rewrite orb_true_iff, !bool_decide_eq_true. done. Qed.

Lemma remove_first_elem c x l : NoDup l → x ∈ remove_first c l ↔ x ∈ l ∧ x ≠ c.
Proof.
  induction 1 as [|y l Hy Hl IH]; simpl; [split; [by intros ?%elem_of_nil|by intros [?%elem_of_nil _]]|].
  destruct (decide (y = c)) as [->|Hne].
  - split; [|by intros [[->|?]%elem_of_cons ?]]. intros Hx. split; [by right|]. by intros ->.
  - rewrite !elem_of_cons, IH. naive_solver.
Qed.

Lemma remove_first_NoDup c l : NoDup l → NoDup (remove_first c l).
Proof.
  induction 1 as [|y l Hy Hl IH]; simpl; [constructor|]. destruct (decide _); [done|]. constructor; [|done].
  intros [? _]%remove_first_elem; done.
Qed.

Definition only_selection_changed (p p' : UserExitPreferences) : Prop :=
  p' = set_exit_countries (exit_countries p') p ∧ NoDup (exit_countries p').

Lemma synchronize_code_spec p code :
  NoDup (exit_countries p) →
  let '(p', missing) := synchronize_code p code in
  only_selection_changed p p' ∧ missing = (if bool_decide (code ∈ db_countries p) then [] else [code]) ∧
  ∀ c, c ∈ exit_countries p' ↔ if decide (c = code) then selectable p c else c ∈ exit_countries p.
Proof.
  intros Hnd. unfold synchronize_code. destruct (code_in_db_countries_or_fallback_active p code) eqn:Es.
  - apply selectable_spec in Es. unfold only_selection_changed. split_and!.
    + case_bool_decide; [by destruct p|done].
    + case_bool_decide; [done|]. simpl. apply NoDup_app. split_and!; [done| |by repeat constructor; apply not_elem_of_nil].
      intros x Hx ->%list_elem_of_singleton. done.
    + unfold fallback_active_and_code_missing_in_db_countries. unfold selectable in Es.
      destruct (bool_decide (code ∈ exit_countries p)); simpl; repeat case_bool_decide; naive_solver.
    + intros c. case_bool_decide as Hin; simpl; destruct (decide (c = code)) as [->|]; [tauto|tauto| |];
        rewrite elem_of_app, list_elem_of_singleton; tauto.
  - assert (¬ selectable p code) as Hns by (rewrite <- selectable_spec; congruence).
    split_and!; [split; [done|by apply remove_first_NoDup]| |].
    + unfold selectable in Hns. by rewrite bool_decide_eq_false_2 by tauto.
    + intros c. simpl. rewrite remove_first_elem by done. destruct (decide (c = code)) as [->|]; tauto.
Qed.


Lemma synchronize_spec p codes :
  NoDup (exit_countries p) →
  let '(p', missing) := synchronize_exit_countries_and_return_missing p codes in
  only_selection_changed p p' ∧ missing = filter (λ c, c ∉ db_countries p) codes ∧
  ∀ c, c ∈ exit_countries p' ↔ if decide (c ∈ codes) then selectable p c else c ∈ exit_countries p.
Proof.
  revert p. induction codes as [|code codes IH]; intros p Hnd; simpl.
  { split_and!; [by split; [destruct p|]|done|]. done. }
  pose proof (synchronize_code_spec p code Hnd) as Hc. destruct (synchronize_code p code) as [p1 m1].
  destruct Hc as ((Hp1 & Hnd1) & -> & Hin1). specialize (IH p1 Hnd1).
  destruct (synchronize_exit_countries_and_return_missing p1 codes) as [p2 m2].
  destruct IH as ((Hp2 & Hnd2) & -> & Hin2).
  assert (db_countries p1 = db_countries p) as Hdb by by rewrite Hp1.
  assert (fallback_preference p1 = fallback_preference p) as Hfb by by rewrite Hp1.
  split_and!.
  - split; [|done]. rewrite Hp2. rewrite Hp1. done.
  - rewrite Hdb, filter_cons. case_bool_decide; [by rewrite decide_False by tauto|by rewrite decide_True].
  - intros c. rewrite Hin2. unfold selectable. rewrite Hdb, Hfb.
    destruct (decide (c ∈ codes)); [by rewrite decide_True by by right|]. rewrite Hin1. unfold selectable.
    destruct (decide (c = code)) as [->|]; [by rewrite decide_True by by left|].
    rewrite decide_False; [done|]. rewrite elem_of_cons. tauto.
Qed.

Lemma synchronize_app p l k :
  synchronize_exit_countries_and_return_missing p (l ++ k) =
    let '(p, m) := synchronize_exit_countries_and_return_missing p l in
    let '(p, m') := synchronize_exit_countries_and_return_missing p k in (p, m ++ m').
Proof.
  revert p. induction l as [|c l IH]; intros p; simpl.
  { by destruct (synchronize_exit_countries_and_return_missing p k). }
  destruct (synchronize_code p c) as [p1 m1]. rewrite IH.
  destruct (synchronize_exit_countries_and_return_missing p1 l) as [p2 m2].
  destruct (synchronize_exit_countries_and_return_missing p2 k) as [p3 m3]. by rewrite (assoc_L (++)).
Qed.

Lemma synchronize_locations_eq p ls :
  synchronize_locations p ls = synchronize_exit_countries_and_return_missing p (ls ≫= country_codes).
Proof.
  revert p. induction ls as [|l ls IH]; intros p; [done|]. rewrite bind_cons, synchronize_app. simpl.
  destruct (synchronize_exit_countries_and_return_missing p (country_codes l)) as [p1 m1]. by rewrite IH.
Qed.

(** ** The undesirability of a country *)

Definition priority_ok (l : ExitLocation) : Prop := 1 ≤ priority l ≤ 4294968.

(** The last location that names the country counts; countries nobody can reach
    or nobody knows count as unreachable. *)
Definition country_cost (p : UserExitPreferences) (c : string) (ls : list ExitLocation) (before : Z) : Z :=
  if decide (ls = []) then before
  else if is_unreachable_country_penalty p c then UNREACHABLE_COUNTRY_PENALTY
  else match last (filter (λ l, should_set_country_undesirability c l = true) ls) with
       | Some l => COUNTRY_UNDESIRABILITY_FACTOR * (priority l - 1)
       | None => before
       end.

Lemma calculate_spec l :
  priority_ok l → calculate_country_undesirability (u32 (priority l)) = Ret (COUNTRY_UNDESIRABILITY_FACTOR * (priority l - 1)).
Proof.
  unfold priority_ok, calculate_country_undesirability, COUNTRY_UNDESIRABILITY_FACTOR, u32, wrap. intros H.
  rewrite Z.mod_small by lia. rewrite (proj2 (Z.eqb_neq _ _)) by lia. cbv zeta. simpl panic_if.
  rewrite (proj2 (Z.leb_gt _ _)) by lia. done.
Qed.

Lemma assign_loop_spec p c ls u :
  Forall priority_ok ls → assign_loop p c ls u = Ret (country_cost p c ls u).
Proof.
  intros Hls. revert u. induction Hls as [|l ls Hl Hls IH]; intros u; [done|]. cbn [assign_loop].
  assert (assign_for_location p c u l = Ret (if is_unreachable_country_penalty p c then UNREACHABLE_COUNTRY_PENALTY
    else if should_set_country_undesirability c l then COUNTRY_UNDESIRABILITY_FACTOR * (priority l - 1) else u)) as ->.
  { unfold assign_for_location. destruct (should_set_country_undesirability c l); [by rewrite calculate_spec|done]. }
  cbn [mbind run_bind]. rewrite IH. f_equal. unfold country_cost.
  rewrite (decide_False (P := l :: ls = [])) by done. rewrite filter_cons.
  destruct (is_unreachable_country_penalty p c); [by destruct (decide _)|].
  destruct (should_set_country_undesirability c l).
  - rewrite (decide_True (P := true = true)), last_cons by done. destruct (decide (ls = [])) as [->|]; [done|]. by destruct (last _).
  - rewrite (decide_False (P := false = true)) by done. by destruct (decide (ls = [])) as [->|].
Qed.

(** The panic when a priority is zero. *)
Lemma assign_zero_priority p c u l :
  should_set_country_undesirability c l = true → priority l = 0 → assign_loop p c [l] u = Panic.
Proof. intros Hs Hp. simpl. unfold assign_for_location. by rewrite Hs, Hp. Qed.

Definition costed (p : UserExitPreferences) (r : NodeRecord (Wallet := Wallet)) : NodeRecord (Wallet := Wallet) :=
  match locations_opt p with
  | Some ls => set_country_undesirability (country_cost p (record_country r) ls (country_undesirability (metadata r))) r
  | None => r
  end.

Lemma for_nodes_mut_pure f (g : NodeRecord (Wallet := Wallet) → NodeRecord (Wallet := Wallet)) db :
  (∀ r, f r = Ret (g r)) → for_nodes_mut f db = Ret (MkDb (this_node db) (g <$> by_public_key db) (by_ip_addr db)).
Proof.
  intros Hf. unfold for_nodes_mut.
  assert (existsb (λ kr, match f kr.2 with Panic => true | Ret _ => false end) (map_to_list (by_public_key db)) = false) as ->.
  { induction (map_to_list (by_public_key db)) as [|kr l IH]; simpl; [done|]. by rewrite Hf. }
  simpl. do 2 f_equal. apply map_fmap_ext. intros k r _. by rewrite Hf.
Qed.

Lemma assign_spec p r :
  Forall priority_ok (get_locations_opt p) → assign_nodes_country_undesirability p r = Ret (costed p r).
Proof.
  intros Hp. unfold assign_nodes_country_undesirability, costed, get_locations_opt in *.
  destruct (locations_opt p) as [ls|]; [|done]. by rewrite assign_loop_spec.
Qed.


(** A change of records that leaves keys, addresses and neighbors alone. *)
Lemma consistent_fmap (f : NodeRecord (Wallet := Wallet) → NodeRecord (Wallet := Wallet)) db :
  (∀ r, public_key (f r) = public_key r ∧ node_addr_opt (f r) = node_addr_opt r ∧ half_neighbor_keys (f r) = half_neighbor_keys r) →
  consistent db → consistent (MkDb (this_node db) (f <$> by_public_key db) (by_ip_addr db)).
Proof.
  intros Hf (Hk & Hip & r & Hr & Hn). split_and!; simpl.
  - intros k r'. rewrite lookup_fmap, fmap_Some. intros (r0 & Hr0 & ->). rewrite (proj1 (Hf r0)). by apply Hk.
  - intros ip k (r0 & na & Hr0 & Hna & Hia)%Hip. exists (f r0), na. rewrite lookup_fmap, Hr0. split_and!; [done| |done].
    by rewrite (proj1 (proj2 (Hf r0))).
  - exists (f r). rewrite lookup_fmap, Hr. split; [done|]. by rewrite (proj2 (proj2 (Hf r))).
Qed.

(** ** Handling a request *)

Definition exit_inv (self : ExitState) : Prop :=
  NoDup (exit_countries (preferences self)) ∧ Forall priority_ok (get_locations_opt (preferences self)).

Definition requested (message : UiSetExitLocationRequest) : list string := exit_locations message ≫= country_codes.

(** What the records become. *)
Definition recosted (self' : ExitState) (no_locations : bool) (r : NodeRecord (Wallet := Wallet))
    : NodeRecord (Wallet := Wallet) :=
  if no_locations then set_country_undesirability ZERO_UNDESIRABILITY r else costed (preferences self') r.

(** An error is reported when every country there is a wish for is missing. *)
Definition response_ok (p : UserExitPreferences) (missing : list string) (show : bool) (r : ExitLocationResponse) : Prop :=
  let desired := get_locations_opt p ≫= country_codes in
  match r with
  | ResponseError code text =>
      code = EXIT_COUNTRY_MISSING_COUNTRIES_ERROR ∧ text = join ", " missing ∧ desired ≠ [] ∧ missing ≡ₚ desired
  | ResponseOk fallback selection countries missing' =>
      (desired = [] ∨ ¬ missing ≡ₚ desired) ∧ fallback = negb (bool_decide (fallback_preference p = ExitCountryNoFallback)) ∧
      selection = get_locations_opt p ∧ countries = (if show then Some (db_countries p) else None) ∧ missing' ≡ₚ missing
  end.

Lemma sort_strings_eq l k : sort_strings l = sort_strings k ↔ l ≡ₚ k.
Proof.
  split.
  - intros H. by rewrite <- (sort_strings_perm l), H, sort_strings_perm.
  - intros H. apply (StronglySorted_unique String.le); [apply sort_strings_sorted..|].
    by rewrite !sort_strings_perm.
Qed.

Lemma create_response_spec p missing show : response_ok p missing show (create_exit_location_response p missing show).
Proof.
  unfold create_exit_location_response, error_message_indicates, response_ok.
  assert (match locations_opt p with Some ls => ls ≫= country_codes | None => [] end = get_locations_opt p ≫= country_codes) as ->
    by (unfold get_locations_opt; by destruct (locations_opt p)).
  assert (is_fallback_routing_active p = negb (bool_decide (fallback_preference p = ExitCountryNoFallback))) as Hf
    by (unfold is_fallback_routing_active; by destruct (fallback_preference p)).
  set (desired := get_locations_opt p ≫= country_codes). cbv zeta.
  destruct (bool_decide (desired = []) && bool_decide (missing = [])) eqn:E.
  { apply andb_prop in E as [H1%bool_decide_eq_true _]. split_and!; [by left|done..]. }
  destruct (bool_decide (sort_strings missing = sort_strings desired)) eqn:Hs.
  - apply bool_decide_eq_true, sort_strings_eq in Hs. split_and!; [done|done| |done]. intros Hd. rewrite Hd in Hs. apply Permutation_nil_r in Hs as ->. by rewrite Hd in E.
  - apply bool_decide_eq_false in Hs. rewrite sort_strings_eq in Hs.
    split_and!; [by right|done|done|done|apply sort_strings_perm].
Qed.

(** The preferences after the request, before the nodes are looked at. *)
Lemma extract_spec self message cs :
  init_db_countries self = Ret cs → NoDup (exit_countries (preferences self)) →
  ∃ p, extract_exit_locations_from_message self message =
    Ret (MkExitState (database self) p, (exit_locations message, filter (λ c, c ∉ cs) (requested message))) ∧
  only_selection_changed (set_db_countries cs (preferences self)) p ∧
  ∀ c, c ∈ exit_countries p ↔
    if decide (c ∈ requested message)
    then c ∈ cs ∨ fallback_preference (preferences self) = ExitCountryWithFallback
    else c ∈ exit_countries (preferences self).
Proof.
  intros Hcs Hnd. unfold extract_exit_locations_from_message. rewrite Hcs. cbn [mbind run_bind].
  rewrite synchronize_locations_eq. fold (requested message).
  pose proof (synchronize_spec (set_db_countries cs (preferences self)) (requested message) Hnd) as Hs.
  destruct (synchronize_exit_countries_and_return_missing _ _) as [p missing]. destruct Hs as (Hp & -> & Hin).
  exists p. split_and!; [done|done|]. exact Hin.
Qed.

Lemma set_all_spec self locs :
  Forall priority_ok (get_locations_opt (preferences self)) →
  set_country_undesirability_and_exit_countries self locs = Ret (MkExitState
    (MkDb (this_node (database self)) (recosted self (bool_decide (locs = [])) <$> by_public_key (database self)) (by_ip_addr (database self)))
    (if bool_decide (locs = []) then set_exit_countries [] (preferences self) else preferences self)).
Proof.
  intros Hp. unfold set_country_undesirability_and_exit_countries, recosted.
  destruct (decide (locs = [])) as [->|Hne].
  - rewrite bool_decide_eq_false_2 by tauto. rewrite bool_decide_eq_true_2 by done.
    by erewrite for_nodes_mut_pure by done.
  - rewrite bool_decide_eq_true_2 by done. rewrite bool_decide_eq_false_2 by done.
    by erewrite for_nodes_mut_pure by (intros r; by apply assign_spec).
Qed.


(** Routes to an exit, as [Routing.v] searches for them. *)
Definition exit_route (db : NeighborhoodDatabase (Wallet := Wallet)) (n : nat) (k : PublicKey) : Prop :=
  ∃ rest, walk db None Over [root_key db] rest ∧ length rest = n ∧
    end_ok db None (root_key db :: rest) = true ∧ last (root_key db :: rest) = Some k.

Definition exit_ready (self : ExitState) (M : Z) : Prop :=
  consistent (database self) ∧ (∀ call s, order call s ≡ₚ elements s) ∧ costs_ok (database self) PAYLOAD_ZERO_SIZE M = true.

Lemma init_db_countries_spec self M :
  exit_ready self M →
  ∃ cs, init_db_countries self = Ret cs ∧ StronglySorted String.le cs ∧ NoDup cs ∧
    (∀ c, c ∈ cs → ∃ n k, (min_hops ≤ n)%nat ∧ exit_route (database self) n k ∧ exit_country (database self) k = Some c) ∧
    (∀ k c, exit_route (database self) min_hops k → exit_country (database self) k = Some c → c ∈ cs).
Proof.
  intros (Hc & Ho & Hcosts). destruct (exit_search_spec (database self) (preferences self) order (root_key (database self))
    min_hops M Hc Ho Hcosts) as (exits & He & _ & Hs & Hcomp).
  { destruct (consistent_root _ Hc) as (r & _ & _ & Hr & _). by eexists. }
  unfold init_db_countries. rewrite He. cbn [mbind run_bind].
  destruct (dedup_sort_spec (omap (exit_country (database self)) exits)) as (H1 & H2 & H3).
  eexists. split_and!; [done|done|done| |].
  - intros c. rewrite H3, list_elem_of_omap. intros (k & Hk & Hck). destruct (Hs k Hk) as (n & ? & ?). by exists n, k.
  - intros k c Hr Hck. apply H3, list_elem_of_omap. exists k. split; [by apply Hcomp|done].
Qed.

Lemma exit_request_spec (self : ExitState) (message : UiSetExitLocationRequest) (M : Z) :
  exit_ready self M → exit_inv self → Forall priority_ok (exit_locations message) →
  (1 < size (keys (database self)))%nat →
  let no_locations := bool_decide (exit_locations message = []) in
  ∃ cs self' response, init_db_countries self = Ret cs ∧
    handle_exit_location_message self message = Ret (self', response) ∧ exit_inv self' ∧
    fallback_preference (preferences self') = requested_preference (fallback_routing message) no_locations ∧
    db_countries (preferences self') = cs ∧ StronglySorted String.le cs ∧ NoDup cs ∧
    (∀ c, c ∈ exit_countries (preferences self') ↔
       no_locations = false ∧
       if decide (c ∈ requested message)
       then c ∈ cs ∨ fallback_preference (preferences self) = ExitCountryWithFallback
       else c ∈ exit_countries (preferences self)) ∧
    consistent (database self') ∧
    by_public_key (database self') = recosted self' no_locations <$> by_public_key (database self) ∧
    response_ok (preferences self') (filter (λ c, c ∉ cs) (requested message)) (show_countries message) response.
Proof.
  intros Hr [Hnd Hpr] Hprio Hsize no_locations.
  destruct (init_db_countries_spec self M Hr) as (cs & Hcs & Hsorted & Hncs & _). exists cs.
  destruct (extract_spec self message cs Hcs Hnd) as (p & He & (Hp & Hndp) & Hin).
  unfold handle_exit_location_message. rewrite He. cbn [mbind run_bind]. cbv beta iota zeta. cbn [database preferences].
  set (f := requested_preference _ _).
  set (p' := if show_countries message then set_fallback f p else set_exit_locations_opt (set_fallback f p) (exit_locations message)).
  assert (exit_countries p' = exit_countries p ∧ fallback_preference p' = f ∧ db_countries p' = cs ∧
    Forall priority_ok (get_locations_opt p')) as (Hpc & Hpf & Hpd & Hpp).
  { subst p'. rewrite Hp. destruct (show_countries message); [done|].
    unfold set_exit_locations_opt. simpl. split_and!; try done. unfold get_locations_opt. simpl.
    case_bool_decide; [|done]. by destruct f; simpl; try constructor. }
  clearbody p'. cbn [database preferences]. rewrite (proj2 (Nat.ltb_lt _ _) Hsize). rewrite set_all_spec by done. cbn [mbind run_bind database preferences].
  fold no_locations. eexists _, _. split; [done|]. split; [done|].
  split; [|split_and!].
  - unfold exit_inv. destruct no_locations; simpl; (split; [|done]); [apply NoDup_nil_2|by rewrite Hpc].
  - by destruct no_locations.
  - by destruct no_locations.
  - done.
  - done.
  - intros c. rewrite <- Hin. destruct no_locations; simpl; [|by rewrite Hpc; tauto].
    split; [by intros ?%elem_of_nil|by intros [? _]].
  - apply consistent_fmap; [|apply Hr]. intros r. unfold recosted, costed.
    destruct no_locations; [done|]. simpl. by destruct (locations_opt p').
  - simpl. unfold recosted. by destruct no_locations.
  - apply create_response_spec.
Qed.

(** A request for exit countries does what it says, and no more.  In a
    consistent database with costs that fit and priorities from one up, the
    request is answered.  Afterwards the preference is the one asked for; the
    known countries are those of the exits found, sorted; a requested country is
    selected if it is among them or falling back had been allowed before, and an
    earlier selection stays unless it is requested again; an empty request clears
    the selection.  The database stays consistent, and every node's undesirability
    is that of its country under the new preferences.  The countries reported missing are the requested ones
    without an exit, and an error is reported when nothing that was asked for is
    there. *)
Lemma exit_request_handled (self : ExitState) (message : UiSetExitLocationRequest) (M : Z) :
  exit_ready self M → exit_inv self → Forall priority_ok (exit_locations message) →
  (1 < size (keys (database self)))%nat →
  let no_locations := bool_decide (exit_locations message = []) in
  ∃ cs self' response, init_db_countries self = Ret cs ∧
    handle_exit_location_message self message = Ret (self', response) ∧ exit_inv self' ∧
    fallback_preference (preferences self') = requested_preference (fallback_routing message) no_locations ∧
    db_countries (preferences self') = cs ∧ StronglySorted String.le cs ∧ NoDup cs ∧
    (∀ c, c ∈ exit_countries (preferences self') ↔
       no_locations = false ∧
       if decide (c ∈ requested message)
       then c ∈ cs ∨ fallback_preference (preferences self) = ExitCountryWithFallback
       else c ∈ exit_countries (preferences self)) ∧
    consistent (database self') ∧
    by_public_key (database self') = recosted self' no_locations <$> by_public_key (database self) ∧
    response_ok (preferences self') (filter (λ c, c ∉ cs) (requested message)) (show_countries message) response.
Proof. apply exit_request_spec. Qed.


(** The country of a node is not changed by a request. *)
Lemma recosted_country self' b r : i_country_code_opt (inner (recosted self' b r)) = i_country_code_opt (inner r).
Proof. unfold recosted, costed. destruct b; [done|]. by destruct (locations_opt _). Qed.

(** C39: without falling back, a first choice of exit countries is kept.  When no
    country was selected before, a request without fallback leaves only routes
    that end in a country that was asked for. *)
Theorem strict_exit_selection (self self' : ExitState) (message : UiSetExitLocationRequest)
    (response : ExitLocationResponse) (M : Z) (target_opt : option PublicKey) (source : PublicKey) (hops : nat)
    (p : list PublicKey) :
  exit_ready self M → exit_inv self → Forall priority_ok (exit_locations message) →
  (1 < size (keys (database self)))%nat →
  exit_countries (preferences self) = [] → fallback_routing message = false → exit_locations message ≠ [] →
  handle_exit_location_message self message = Ret (self', response) →
  valid_route (database self') (preferences self') target_opt Over source hops p →
  ∃ k c, last p = Some k ∧ exit_country (database self) k = Some c ∧ c ∈ requested message.
Proof.
  intros Hr Hi Hp Hs Hnone Hf Hl Hrun (rest & -> & _ & _ & _ & _ & Hc).
  destruct (exit_request_spec self message M Hr Hi Hp Hs) as (cs & self'' & response' & _ & Hrun' & _ & Hpref & _ & _ & _ & Hin & _ & Hdb & _).
  rewrite Hrun in Hrun'. injection Hrun' as <- <-. rewrite bool_decide_eq_false_2 in Hpref by done. rewrite Hf in Hpref.
  unfold country_ok in Hc. destruct (last (source :: rest)) as [k|]; [|done]. exists k.
  unfold validate_last_node_country_code, last_node_is_always_true, is_fallback_and_last_node_qualifies in Hc.
  rewrite Hpref in Hc. simpl in Hc. unfold exit_country, node_by_key in *. rewrite Hdb, lookup_fmap in Hc.
  destruct (by_public_key (database self) !! k) as [r|]; [|done]. simpl in Hc. rewrite recosted_country in Hc.
  destruct (i_country_code_opt (inner r)) as [c|]; [|done]. exists c. split; [done|]. split; [done|].
  apply bool_decide_eq_true in Hc. pose proof (proj2 (proj1 (Hin c) Hc)) as Hsel. destruct (decide (c ∈ requested message)); [done|].
  rewrite Hnone in Hsel. by apply elem_of_nil in Hsel.
Qed.

End preferences.

(** ** A concrete neighborhood *)

(** The network of [Routing.v] with nodes 4 and 5 in two countries. *)
Definition located (r : NodeRecord (Wallet := nat)) : NodeRecord (Wallet := nat) :=
  let cc := match public_key r with [4] => Some "CZ"%string | [5] => Some "FR"%string | _ => None end in
  with_inner (λ i, MkInner (i_public_key i) (i_earning_wallet i) (i_rate_pack i) (i_neighbors i) (i_accepts_connections i)
    (i_routes_data i) (i_version i) cc) r.
Definition exit_net : NeighborhoodDatabase (Wallet := nat) :=
  MkDb (this_node net) (located <$> by_public_key net) (by_ip_addr net).
Definition exit_start : ExitState := MkExitState exit_net preferences_new.
Definition ask (cs : list string) : UiSetExitLocationRequest := MkRequest false [MkExitLocation cs 1] false.

Definition exit_after (requests : list UiSetExitLocationRequest) : run (ExitState (Wallet := nat)) :=
  foldl (λ st m, st ← st; '(st, _) ← handle_exit_location_message net_order 3 st m; Ret st) (Ret exit_start) requests.

(** Asking for another country keeps the first one selected. *)
Example exit_countries_accumulate :
  (exit_countries ∘ preferences <$> match exit_after [ask ["CZ"]; ask ["FR"]] with Ret st => Some st | Panic => None end)
  = Some ["CZ"; "FR"]%string.
Proof. vm_compute. reflexivity. Qed.

(** The same request with fallback has another effect the second time. *)
Definition ask_fallback (cs : list string) : UiSetExitLocationRequest := MkRequest true [MkExitLocation cs 1] false.
Example repeated_request_differs :
  (exit_countries ∘ preferences <$> match exit_after [ask_fallback ["AT"]] with Ret st => Some st | Panic => None end)
    = Some [] ∧
  (exit_countries ∘ preferences <$> match exit_after [ask_fallback ["AT"]; ask_fallback ["AT"]] with Ret st => Some st | Panic => None end)
    = Some ["AT"]%string.
Proof. split; vm_compute; reflexivity. Qed.

(** A priority of zero stops the actor. *)
Example zero_priority_panics :
  handle_exit_location_message net_order 3 exit_start (MkRequest false [MkExitLocation ["CZ"%string] 0] false) = Panic.
Proof. vm_compute. reflexivity. Qed.

Lemma exit_start_ready : exit_ready net_order exit_start (2 ^ 40) ∧ exit_inv exit_start.
Proof.
  split; [split_and!|split].
  - apply (consistent_fmap located net); [done|apply net_consistent].
  - apply net_order_ok.
  - vm_compute. reflexivity.
  - apply NoDup_nil_2.
  - constructor.
Qed.

Lemma ask_priorities cs : Forall priority_ok (exit_locations (ask cs)).
Proof. repeat constructor; simpl; lia. Qed.

Lemma strict_exit_selection_witness :
  ∃ self' response, handle_exit_location_message net_order 3 exit_start (ask ["CZ"%string]) = Ret (self', response) ∧
    ∀ p, valid_route (database self') (preferences self') None Over (demo_key 1) 3 p →
      ∃ k c, last p = Some k ∧ exit_country exit_net k = Some c ∧ c ∈ ["CZ"%string].
Proof.
  destruct (handle_exit_location_message net_order 3 exit_start (ask ["CZ"%string])) as [[self' response]|] eqn:Hrun.
  - exists self', response. split; [reflexivity|]. intros p.
    refine (strict_exit_selection net_order 3 exit_start self' (ask ["CZ"%string]) response (2 ^ 40) None (demo_key 1) 3 p
      (proj1 exit_start_ready) (proj2 exit_start_ready) (ask_priorities _) ltac:(apply Nat.ltb_lt; vm_compute; reflexivity)
      eq_refl eq_refl _ Hrun). discriminate.
  - exfalso. vm_compute in Hrun. discriminate Hrun.
Defined.

End ExitPreferences.
