(* ===== verification/GossipAcceptor.v ===== *)
(** * The gossip acceptor

    Models [node/src/neighborhood/gossip_acceptor.rs]: what a node does with
    gossip that comes in.  Five handlers (debut, pass, introduction, standard
    gossip and the one that rejects the rest) are asked in turn whether the
    gossip is theirs.

    A [Ban] carries its reason as a constructor with the values the text is
    made of.  The pass handler keeps its targets in a [RefCell]; they are passed
    along, like the database.  Messages to the connection progress recipient
    are returned in order.  The order in which hash sets and tree sets of keys
    are iterated is a parameter, and sorting without stability is a stable sort
    of that order.  The clock that stamps records is a parameter indexed by what
    it stamps; the pass handler reads a finer clock, given as two readings in
    nanoseconds.  Logging is left out. *)
From Stdlib Require Import String.
From S2P Require Import Prelude.
From S2P Require Import CountryBlockStream CountryFinder NeighborhoodDatabase Gossip ConnectionStatus Routing ExitPreferences.
From stdpp Require Import base list gmap sorting.

Module GossipAcceptor.
Import Stream Neighborhood Gossip ConnectionStatus.
Local Open Scope Z_scope.
Local Open Scope rust_scope.

Definition MAX_DEGREE : nat := 5.
Definition PASS_GOSSIP_EXPIRED_TIME : Z := 60 * 10 ^ 9.

Definition SocketAddr : Type := IpAddr * Z.
Abbreviation pass_targets := (gmap IpAddr Z).

(** [NodeAddr::from(&SocketAddr)] and [Vec<SocketAddr>::from(NodeAddr)]. *)
Definition node_addr_from (socket_addr : SocketAddr) : NodeAddr := node_addr_new socket_addr.1 [socket_addr.2].
Definition socket_addrs (node_addr : NodeAddr) : list SocketAddr := (λ port, (ip_addr node_addr, port)) <$> ports node_addr.

Inductive GossipFailure_0v1 := NoNeighbors | NoSuitableNeighbors | ManualRejection | Unknown.

(** Why gossip is malformed, or a change is refused. *)
Inductive Malice :=
| DebutWithoutAddr (source : SocketAddr) (k : PublicKey)
| DebutWithoutPorts (source : SocketAddr) (k : PublicKey)
| DebutWithAddr (source : SocketAddr) (k : PublicKey)
| PassWithoutAddr (source : SocketAddr) (k : PublicKey)
| PassWithoutPorts (source : SocketAddr) (k : PublicKey) (ip : IpAddr)
| NeitherFromSource (k1 : PublicKey) (ip1 : IpAddr) (k2 : PublicKey) (ip2 : IpAddr) (source : IpAddr)
| IntroducerHasOurKey (k : PublicKey)
| IntroducerWithoutPorts (k : PublicKey) (ip : IpAddr)
| IntroducerHasOurIp (k : PublicKey)
| IntroduceeWithoutPorts (k1 : PublicKey) (ip1 : option IpAddr) (k2 : PublicKey) (ip2 : IpAddr)
| BothFromSource (k1 k2 : PublicKey) (source : IpAddr)
| IntroducerChanged (k : PublicKey) (e : update_error)
| RecordHasOurIp (source : SocketAddr) (k : PublicKey)
| RecordHasOurKey (source : SocketAddr)
| SameIpTwice (source : SocketAddr) (ip : IpAddr)
| Unclassifiable (count : nat) (source : SocketAddr).

Inductive Qualification := Matched | Unmatched | Malformed (reason : Malice).

Inductive GossipAcceptanceResult :=
| Accepted
| Reply (g : list GossipNodeRecord) (k : PublicKey) (a : NodeAddr)
| Failed (f : GossipFailure_0v1) (k : PublicKey) (a : NodeAddr)
| Ignored
| Ban (reason : Malice).

(** What is being stamped when the clock is read. *)
Inductive stamp := NewRecord (k : PublicKey) | UpdatedRecord (k : PublicKey) | RootRecord.

(** Where keys are iterated. *)
Inductive key_loop := MoreAppropriate | LeastConnected | PatchNeighbors (k : PublicKey).

(** Results that may panic, over a list. *)
Fixpoint filter_run {A} (f : A → run bool) (l : list A) : run (list A) :=
  match l with
  | [] => Ret []
  | x :: l => b ← f x; rest ← filter_run f l; Ret (if (b : bool) then x :: rest else rest)
  end.

Fixpoint skip_while {A} (f : A → bool) (l : list A) : list A :=
  match l with
  | [] => []
  | x :: l' => if f x then skip_while f l' else l
  end.

Section acceptor.
Context {Wallet : Type} `{!EqDecision Wallet}.
Abbreviation NodeRecord := (NodeRecord (Wallet := Wallet)).
Abbreviation NodeRecordInner := (NodeRecordInner (Wallet := Wallet)).
Abbreviation NeighborhoodDatabase := (NeighborhoodDatabase (Wallet := Wallet)).
Abbreviation AccessibleGossipRecord := (AccessibleGossipRecord (Wallet := Wallet)).
Abbreviation UserExitPreferences := Routing.UserExitPreferences.

Context (to_vec : NodeRecordInner → option (list Z)) (sign : list Z → option (list Z)).
Context (finder : Finder.CountryCodeFinder).
Context (order : key_loop → gset PublicKey → list PublicKey).
Context (ip_order : gset IpAddr → list IpAddr).
Context (clock : stamp → Z) (pass_checked pass_stamped : Z).

Record NeighborhoodMetadata := MkNeighborhoodMetadata {
  connection_progress_peers : list IpAddr;
  db_patch_size : nat;
  user_exit_preferences_opt : option UserExitPreferences
}.

(** The targets of the pass handler, the database, the result and what is sent. *)
Definition outcome : Type := pass_targets * NeighborhoodDatabase * GossipAcceptanceResult * list ConnectionProgressMessage.

Record GossipHandler := MkHandler {
  qualifies : NeighborhoodDatabase → list AccessibleGossipRecord → SocketAddr → run Qualification;
  handle : pass_targets → NeighborhoodDatabase → list AccessibleGossipRecord → SocketAddr → NeighborhoodMetadata → run outcome
}.

Abbreviation key_of agr := (i_public_key (a_inner agr)).

(** ** Shared steps *)

(** [NodeRecord::from(agr)], then the preferences. *)
Definition new_record (agr : AccessibleGossipRecord) (prefs_opt : option UserExitPreferences) : run NodeRecord :=
  node_record ← record_from_agr finder agr (clock (NewRecord (key_of agr)));
  match prefs_opt with
  | Some p => ExitPreferences.assign_nodes_country_undesirability p node_record
  | None => Ret node_record
  end.

(** [root_mut.increment_version(); root_mut.regenerate_signed_gossip(cryptde)]. *)
Definition new_root_version (db : NeighborhoodDatabase) : run NeighborhoodDatabase :=
  r ← root db;
  r ← increment_version r;
  r ← regenerate_signed_gossip to_vec sign r;
  Ret (store db (this_node db) r).

(** ** Debut *)

Definition debut_qualifies (database : NeighborhoodDatabase) (agrs : list AccessibleGossipRecord) (gossip_source : SocketAddr)
    : run Qualification :=
  if negb (length agrs =? 1)%nat then Ret Unmatched else
  agr ← get agrs 0;
  match node_by_key database (key_of agr) with
  | Some _ => Ret Unmatched
  | None =>
      Ret match a_node_addr_opt agr with
          | None =>
              if i_accepts_connections (a_inner agr) then Malformed (DebutWithoutAddr gossip_source (key_of agr)) else Matched
          | Some node_addr =>
              if i_accepts_connections (a_inner agr) then
                if bool_decide (ports node_addr = []) then Malformed (DebutWithoutPorts gossip_source (key_of agr))
                else if bool_decide (ip_addr node_addr = gossip_source.1) then Matched else Unmatched
              else Malformed (DebutWithAddr gossip_source (key_of agr))
          end
  end.

Definition node_and_neighbor_keys (agr : AccessibleGossipRecord) : gset PublicKey :=
  {[ key_of agr ]} ∪ i_neighbors (a_inner agr).

Definition degree_le (database : NeighborhoodDatabase) (a b : PublicKey) : Prop :=
  (gossip_target_degree database a ≤ gossip_target_degree database b)%nat.

#[local] Instance degree_le_dec database : RelDecision (degree_le database).
Proof. intros a b. apply Nat.le_dec. Defined.

Definition keys_ordered_by_degree_excluding (loop : key_loop) (database : NeighborhoodDatabase)
    (ks excluding : gset PublicKey) : list PublicKey :=
  merge_sort (degree_le database) (order loop (ks ∖ excluding)).

Definition find_least_connected_neighbor_excluding (ks : gset PublicKey) (database : NeighborhoodDatabase)
    (excluded : AccessibleGossipRecord) : option PublicKey :=
  head (keys_ordered_by_degree_excluding LeastConnected database ks (node_and_neighbor_keys excluded)).

Definition find_least_connected_half_neighbor_excluding (database : NeighborhoodDatabase) (excluded : AccessibleGossipRecord)
    : run (option PublicKey) :=
  root_node ← root database;
  Ret (find_least_connected_neighbor_excluding (half_neighbor_keys root_node) database excluded).

Definition node_accepts_connections (database : NeighborhoodDatabase) (k : PublicKey) : run bool :=
  node ← expect (node_by_key database k); Ret (accepts_connections node).

Definition find_least_connected_full_neighbor_excluding (database : NeighborhoodDatabase) (excluded : AccessibleGossipRecord)
    : run (option PublicKey) :=
  root_node ← root database;
  ks ← filter_run (node_accepts_connections database) (elements (full_neighbor_keys root_node database));
  Ret (find_least_connected_neighbor_excluding (list_to_set ks) database excluded).

Definition root_full_neighbors_ordered_by_degree_excluding (database : NeighborhoodDatabase)
    (excluded : AccessibleGossipRecord) : run (list PublicKey) :=
  root_node ← root database;
  Ret (keys_ordered_by_degree_excluding MoreAppropriate database (full_neighbor_keys root_node database)
         (node_and_neighbor_keys excluded)).

Definition find_more_appropriate_neighbor (database : NeighborhoodDatabase) (excluded : AccessibleGossipRecord)
    : run (option PublicKey) :=
  neighbor_vec ← root_full_neighbors_ordered_by_degree_excluding database excluded;
  accepting ← filter_run (node_accepts_connections database) neighbor_vec;
  match skip_while (λ k, (gossip_target_degree database k <=? 2)%nat) accepting with
  | [] => Ret None
  | key :: _ =>
      root_node ← root database;
      if (gossip_target_degree database (public_key root_node) <=? gossip_target_degree database key)%nat
      then Ret None else Ret (Some key)
  end.

Definition make_pass_gossip (database : NeighborhoodDatabase) (pass_target : PublicKey) : run (list GossipNodeRecord) :=
  b ← builder_node database builder_new pass_target true; Ret (build b).

Definition make_introduction (database : NeighborhoodDatabase) (debuting_agr : AccessibleGossipRecord)
    (gossip_source : SocketAddr) : run (option (list GossipNodeRecord * PublicKey * NodeAddr)) :=
  lcn_key_opt ← find_least_connected_full_neighbor_excluding database debuting_agr;
  match lcn_key_opt with
  | Some lcn_key =>
      _ ← expect (node_by_key database lcn_key);
      let debut_node_addr := match a_node_addr_opt debuting_agr with
                             | Some node_addr => node_addr
                             | None => node_addr_from gossip_source
                             end in
      root_node ← root database;
      b ← builder_node database builder_new (public_key root_node) true;
      b ← builder_node database b lcn_key true;
      Ret (Some (build b, key_of debuting_agr, debut_node_addr))
  | None => Ret None
  end.

Definition should_not_make_another_introduction (debuting_agr : AccessibleGossipRecord) : bool :=
  negb (bool_decide (i_neighbors (a_inner debuting_agr) = ∅)).

Definition create_debut_gossip_response (database : NeighborhoodDatabase) (debut_node_key : PublicKey)
    : run (list GossipNodeRecord) :=
  root_node ← root database;
  root_node ← expect (add_half_neighbor_key (clear_half_neighbors root_node) debut_node_key);
  gnr ← gnr_from_inner to_vec sign (inner root_node) (node_addr_opt root_node);
  Ret [gnr].

(** [None] is [Err(())]. *)
Definition try_accept_debut (database : NeighborhoodDatabase) (debuting_agr : AccessibleGossipRecord)
    (gossip_source : SocketAddr) (prefs_opt : option UserExitPreferences)
    : run (NeighborhoodDatabase * option GossipAcceptanceResult) :=
  root_node ← root database;
  if (MAX_DEGREE <=? gossip_target_degree database (public_key root_node))%nat then Ret (database, None) else
  debuting_node ← new_record debuting_agr prefs_opt;
  let '(database, res) := add_node database debuting_node in
  debut_node_key ← expect_ok res;
  match add_half_neighbor database debut_node_key (clock RootRecord) with
  | (_, Err _) => Panic
  | (database, Ok true) =>
      database ← new_root_version database;
      if should_not_make_another_introduction debuting_agr then Ret (database, Some Accepted)
      else
        introduction_opt ← make_introduction database debuting_agr gossip_source;
        match introduction_opt with
        | Some (introduction, target_key, target_node_addr) =>
            Ret (database, Some (Reply introduction target_key target_node_addr))
        | None =>
            debut_gossip ← create_debut_gossip_response database debut_node_key;
            addr ← expect (a_node_addr_opt debuting_agr);
            Ret (database, Some (Reply debut_gossip (key_of debuting_agr) addr))
        end
  | (_, Ok false) => Panic
  end.

Definition debut_handle (targets : pass_targets) (database : NeighborhoodDatabase) (agrs : list AccessibleGossipRecord)
    (gossip_source : SocketAddr) (neighborhood_metadata : NeighborhoodMetadata) : run outcome :=
  agr ← get agrs 0;
  let source_agr := match a_node_addr_opt agr with
                    | None => MkAgr (a_signed_gossip agr) (a_signature agr) (Some (node_addr_from gossip_source)) (a_inner agr)
                    | Some _ => agr
                    end in
  let source_key := key_of source_agr in
  source_node_addr ← expect (a_node_addr_opt source_agr);
  preferred_key_opt ← find_more_appropriate_neighbor database source_agr;
  match preferred_key_opt with
  | Some preferred_key =>
      preferred ← expect (node_by_key database preferred_key);
      _ ← expect (node_addr_opt preferred);
      g ← make_pass_gossip database preferred_key;
      Ret (targets, database, Reply g source_key source_node_addr, [])
  | None =>
      '(database, result) ← try_accept_debut database source_agr gossip_source (user_exit_preferences_opt neighborhood_metadata);
      match result with
      | Some result => Ret (targets, database, result, [])
      | None =>
          lcn_key_opt ← find_least_connected_half_neighbor_excluding database source_agr;
          match lcn_key_opt with
          | None => Ret (targets, database, Failed NoSuitableNeighbors source_key source_node_addr, [])
          | Some lcn_key =>
              _ ← expect (node_by_key database lcn_key);
              g ← make_pass_gossip database lcn_key;
              Ret (targets, database, Reply g source_key source_node_addr, [])
          end
      end
  end.

Definition DebutHandler : GossipHandler := MkHandler debut_qualifies debut_handle.

(** ** Pass *)

Definition pass_qualifies (_database : NeighborhoodDatabase) (agrs : list AccessibleGossipRecord) (gossip_source : SocketAddr)
    : run Qualification :=
  if negb (length agrs =? 1)%nat then Ret Unmatched else
  agr ← get agrs 0;
  Ret match a_node_addr_opt agr with
      | None => Malformed (PassWithoutAddr gossip_source (key_of agr))
      | Some node_addr =>
          if bool_decide (ports node_addr = []) then Malformed (PassWithoutPorts gossip_source (key_of agr) (ip_addr node_addr))
          else if bool_decide (ip_addr node_addr = gossip_source.1) then Unmatched else Matched
      end.

(** [gossip_acceptance_reply]. *)
Definition pass_reply (database : NeighborhoodDatabase) (k : PublicKey) (addr : NodeAddr) : run GossipAcceptanceResult :=
  root_node ← root database;
  b ← builder_node database builder_new (public_key root_node) true;
  Ret (Reply (build b) k addr).

Definition pass_handle (targets : pass_targets) (database : NeighborhoodDatabase) (agrs : list AccessibleGossipRecord)
    (gossip_source : SocketAddr) (neighborhood_metadata : NeighborhoodMetadata) : run outcome :=
  pass_agr ← get agrs 0;
  pass_target_node_addr ← expect (a_node_addr_opt pass_agr);
  let pass_target_ip_addr := ip_addr pass_target_node_addr in
  let send_cpm ev := MkProgressMessage gossip_source.1 ev in
  match targets !! pass_target_ip_addr with
  | None =>
      if bool_decide (pass_target_ip_addr ∈ connection_progress_peers neighborhood_metadata) then
        Ret (targets, database, Ignored, [send_cpm EvPassLoopFound])
      else
        let targets := <[pass_target_ip_addr := pass_stamped]> targets in
        result ← pass_reply database (key_of pass_agr) pass_target_node_addr;
        Ret (targets, database, result, [send_cpm (EvPassGossipReceived pass_target_ip_addr)])
  | Some timestamp =>
      panic_if (pass_checked <? timestamp)
       (let duration_since := pass_checked - timestamp in
        let targets := <[pass_target_ip_addr := pass_stamped]> targets in
        if duration_since <=? PASS_GOSSIP_EXPIRED_TIME then
          Ret (targets, database, Ignored, [send_cpm EvPassLoopFound])
        else
          result ← pass_reply database (key_of pass_agr) pass_target_node_addr;
          Ret (targets, database, result, [send_cpm (EvPassGossipReceived pass_target_ip_addr)]))
  end.

Definition PassHandler : GossipHandler := MkHandler pass_qualifies pass_handle.

(** ** Introduction *)

Definition verify_size (agrs : list AccessibleGossipRecord) : option Qualification :=
  if negb (length agrs =? 2)%nat then Some Unmatched else None.

Definition order_is_introducee_introducer (agrs_ref : list AccessibleGossipRecord) (gossip_source : SocketAddr)
    : run (result Qualification bool) :=
  first_agr ← get agrs_ref 0;
  match a_node_addr_opt first_agr with
  | None => Ret (Err Unmatched)
  | Some first_addr =>
      second_agr ← get agrs_ref 1;
      match a_node_addr_opt second_agr with
      | None => Ret (Err Unmatched)
      | Some second_addr =>
          Ret (if bool_decide (ip_addr first_addr = gossip_source.1) then Ok true
               else if bool_decide (ip_addr second_addr = gossip_source.1) then Ok false
               else Err (Malformed (NeitherFromSource (key_of first_agr) (ip_addr first_addr)
                           (key_of second_agr) (ip_addr second_addr) gossip_source.1)))
      end
  end.

Definition identify_players (agrs : list AccessibleGossipRecord) (gossip_source : SocketAddr)
    : run (result Qualification (AccessibleGossipRecord * AccessibleGossipRecord)) :=
  b <-? order_is_introducee_introducer agrs gossip_source;
  first ← get agrs 0;
  second ← get agrs 1;
  Ret (Ok (if (b : bool) then (first, second) else (second, first))).

Definition verify_introducer (agr : AccessibleGossipRecord) (root_node : NodeRecord) : run (option Qualification) :=
  if bool_decide (key_of agr = public_key root_node) then Ret (Some (Malformed (IntroducerHasOurKey (key_of agr)))) else
  introducer_node_addr ← expect (a_node_addr_opt agr);
  if bool_decide (ports introducer_node_addr = [])
  then Ret (Some (Malformed (IntroducerWithoutPorts (key_of agr) (ip_addr introducer_node_addr))))
  else Ret match node_addr_opt root_node with
           | Some root_node_addr =>
               if bool_decide (ip_addr introducer_node_addr = ip_addr root_node_addr)
               then Some (Malformed (IntroducerHasOurIp (key_of agr))) else None
           | None => None
           end.

Definition verify_introducee (database : NeighborhoodDatabase) (introducer introducee : AccessibleGossipRecord)
    (gossip_source : SocketAddr) : option Qualification :=
  match node_by_key database (key_of introducee) with
  | Some _ => Some Unmatched
  | None =>
      match a_node_addr_opt introducee with
      | None => Some Unmatched
      | Some introducee_node_addr =>
          if bool_decide (ports introducee_node_addr = []) then
            Some (Malformed (IntroduceeWithoutPorts (key_of introducer) (option_map ip_addr (a_node_addr_opt introducer))
                    (key_of introducee) (ip_addr introducee_node_addr)))
          else if bool_decide (ip_addr introducee_node_addr = gossip_source.1) then
            Some (Malformed (BothFromSource (key_of introducer) (key_of introducee) gossip_source.1))
          else None
      end
  end.

Definition introduction_qualifies (database : NeighborhoodDatabase) (agrs : list AccessibleGossipRecord)
    (gossip_source : SocketAddr) : run Qualification :=
  match verify_size agrs with
  | Some qual => Ret qual
  | None =>
      o ← order_is_introducee_introducer agrs gossip_source;
      match o with
      | Err qual => Ret qual
      | Ok b =>
          first ← get agrs 0;
          second ← get agrs 1;
          let '(introducer, introducee) := if (b : bool) then (first, second) else (second, first) in
          root_node ← root database;
          v ← verify_introducer introducer root_node;
          match v with
          | Some qual => Ret qual
          | None =>
              match verify_introducee database introducer introducee gossip_source with
              | Some qual => Ret qual
              | None => Ret Matched
              end
          end
      end
  end.

(** The steps of [update_database] after the introducer's record is in place. *)
Definition meet_introducer (database : NeighborhoodDatabase) (introducer_key : PublicKey) : run NeighborhoodDatabase :=
  let '(database, res) := add_half_neighbor database introducer_key (clock RootRecord) in
  added ← expect_ok res;
  if (added : bool) then new_root_version database else Ret database.

Definition update_database (database : NeighborhoodDatabase) (introducer : AccessibleGossipRecord)
    (prefs_opt : option UserExitPreferences) : run (NeighborhoodDatabase * result update_error bool) :=
  let introducer_key := key_of introducer in
  match node_by_key database introducer_key with
  | Some existing_introducer =>
      if version existing_introducer <? i_version (a_inner introducer) then
        let '(existing_introducer, res) := update existing_introducer introducer (clock (UpdatedRecord introducer_key)) in
        let database := store database introducer_key existing_introducer in
        match res with
        | Err e => Ret (database, Err e)
        | Ok _ => database ← meet_introducer database introducer_key; Ret (database, Ok true)
        end
      else Ret (database, Ok false)
  | None =>
      new_introducer ← new_record introducer prefs_opt;
      let '(database, res) := add_node database new_introducer in
      _ ← expect_ok res;
      database ← meet_introducer database introducer_key;
      Ret (database, Ok true)
  end.

(** [GossipAcceptorReal::make_debut_triple]; [None] is one of its two error texts. *)
Definition make_debut_triple (database : NeighborhoodDatabase) (debut_target : AccessibleGossipRecord)
    : run (option (list GossipNodeRecord * PublicKey * NodeAddr)) :=
  match a_node_addr_opt debut_target with
  | None => Ret None
  | Some node_addr =>
      if bool_decide (ports node_addr = []) then Ret None else
      root_node ← root database;
      b ← builder_node database builder_new (public_key root_node) true;
      Ret (Some (build b, key_of debut_target, node_addr))
  end.

Definition introduction_handle (targets : pass_targets) (database : NeighborhoodDatabase) (agrs : list AccessibleGossipRecord)
    (gossip_source : SocketAddr) (neighborhood_metadata : NeighborhoodMetadata) : run outcome :=
  root_node ← root database;
  if (MAX_DEGREE <=? size (full_neighbor_keys root_node database))%nat then Ret (targets, database, Ignored, []) else
  players ← identify_players agrs gossip_source;
  '(introducer, introducee) ← expect_ok players;
  introducer_addr ← expect (a_node_addr_opt introducer);
  introducee_addr ← expect (a_node_addr_opt introducee);
  '(database, res) ← update_database database introducer (user_exit_preferences_opt neighborhood_metadata);
  match res with
  | Err e => Ret (targets, database, Ban (IntroducerChanged (key_of introducer) e), [])
  | Ok _ =>
      let cpm := MkProgressMessage (ip_addr introducer_addr) (EvIntroductionGossipReceived (ip_addr introducee_addr)) in
      triple ← make_debut_triple database introducee;
      '(debut, target_key, target_node_addr) ← expect triple;
      Ret (targets, database, Reply debut target_key target_node_addr, [cpm])
  end.

Definition IntroductionHandler : GossipHandler := MkHandler introduction_qualifies introduction_handle.


(** ** Standard gossip *)

Definition ip_of (agr : AccessibleGossipRecord) : run IpAddr := node_addr ← expect (a_node_addr_opt agr); Ret (ip_addr node_addr).

(** [Iterator::find] with a test that may panic. *)
Fixpoint find_run {A} (f : A → run bool) (l : list A) : run (option A) :=
  match l with
  | [] => Ret None
  | x :: l => b ← f x; if (b : bool) then Ret (Some x) else find_run f l
  end.

(** The fold that collects the addresses that occur more than once. *)
Fixpoint duplicates (agrs : list AccessibleGossipRecord) (addr_set dup_set : gset IpAddr) : run (gset IpAddr) :=
  match agrs with
  | [] => Ret dup_set
  | agr :: agrs =>
      ip ← ip_of agr;
      if bool_decide (ip ∈ addr_set) then duplicates agrs addr_set ({[ ip ]} ∪ dup_set)
      else duplicates agrs ({[ ip ]} ∪ addr_set) dup_set
  end.

Definition standard_qualifies (database : NeighborhoodDatabase) (agrs : list AccessibleGossipRecord)
    (gossip_source : SocketAddr) : run Qualification :=
  let agrs_next_door := List.filter (λ agr, match a_node_addr_opt agr with Some _ => true | None => false end) agrs in
  root_node ← root database;
  impostor_opt ←
    (if accepts_connections root_node then
       find_run (λ agr, ip ← ip_of agr; root_addr ← expect (node_addr_opt root_node);
                        Ret (bool_decide (ip = ip_addr root_addr))) agrs_next_door
     else Ret None);
  match impostor_opt with
  | Some impostor => Ret (Malformed (RecordHasOurIp gossip_source (key_of impostor)))
  | None =>
      if existsb (λ agr, bool_decide (key_of agr = public_key root_node)) agrs
      then Ret (Malformed (RecordHasOurKey gossip_source))
      else
        dup_set ← duplicates agrs_next_door ∅ ∅;
        if bool_decide (dup_set = ∅) then Ret Matched
        else first_dup_ip ← expect (head (ip_order dup_set)); Ret (Malformed (SameIpTwice gossip_source first_dup_ip))
  end.

Definition check_full_neighbor (db : NeighborhoodDatabase) (gossip_source_ip : IpAddr) : run bool :=
  match node_by_ip db gossip_source_ip with
  | Some node => root_node ← root db; Ret (db_has_full_neighbor db (public_key root_node) (public_key node))
  | None => Ret false
  end.

Fixpoint compute_patch_recursive (agrs : gmap PublicKey AccessibleGossipRecord) (root_node : NodeRecord)
    (hops_remaining : nat) (patch : gset PublicKey) (current_node_key : PublicKey) : gset PublicKey :=
  let patch := {[ current_node_key ]} ∪ patch in
  match hops_remaining with
  | O => patch
  | S hops_remaining =>
      match (if decide (current_node_key = public_key root_node) then Some (half_neighbor_keys root_node)
             else match agrs !! current_node_key with Some agr => Some (i_neighbors (a_inner agr)) | None => None end) with
      | None => patch ∖ {[ current_node_key ]}
      | Some neighbors =>
          foldl (λ patch neighbor,
                   if decide (neighbor ∈ patch) then patch
                   else compute_patch_recursive agrs root_node hops_remaining patch neighbor)
            patch (order (PatchNeighbors current_node_key) neighbors)
      end
  end.

(** Of two records with one key the later one is kept. *)
Definition agrs_by_key (agrs : list AccessibleGossipRecord) : gmap PublicKey AccessibleGossipRecord :=
  list_to_map (reverse ((λ agr, (key_of agr, agr)) <$> agrs)).

Definition compute_patch (agrs : list AccessibleGossipRecord) (root_node : NodeRecord) (patch_size : nat) : gset PublicKey :=
  compute_patch_recursive (agrs_by_key agrs) root_node patch_size ∅ (public_key root_node).

Definition filter_agrs_by_patch (agrs : list AccessibleGossipRecord) (patch : gset PublicKey) : list AccessibleGossipRecord :=
  List.filter (λ agr, bool_decide (key_of agr ∈ patch)) agrs.

(** The loop over the new nodes. *)
Fixpoint add_new_nodes (database : NeighborhoodDatabase) (agrs : list AccessibleGossipRecord)
    (prefs_opt : option UserExitPreferences) : run NeighborhoodDatabase :=
  match agrs with
  | [] => Ret database
  | agr :: agrs =>
      node_record ← new_record agr prefs_opt;
      let '(database, res) := add_node database node_record in
      _ ← expect_ok res;
      add_new_nodes database agrs prefs_opt
  end.

Definition is_addressed_by (gossip_source : SocketAddr) (agr : AccessibleGossipRecord) : bool :=
  match a_node_addr_opt agr with
  | None => true
  | Some node_addr => bool_decide (gossip_source ∈ socket_addrs node_addr)
  end.

Definition identify_and_add_non_introductory_new_nodes (database : NeighborhoodDatabase) (agrs : list AccessibleGossipRecord)
    (gossip_source : SocketAddr) (prefs_opt : option UserExitPreferences) : run (NeighborhoodDatabase * bool) :=
  let all_keys := keys database in
  database ← add_new_nodes database
    (List.filter (is_addressed_by gossip_source) (List.filter (λ agr, negb (bool_decide (key_of agr ∈ all_keys))) agrs))
    prefs_opt;
  Ret (database, negb (size (keys database) =? size all_keys)%nat).

Definition update_database_record (database : NeighborhoodDatabase) (agr : AccessibleGossipRecord)
    : run (NeighborhoodDatabase * bool) :=
  existing_node_record ← expect (node_by_key database (key_of agr));
  let '(existing_node_record, res) := update existing_node_record agr (clock (UpdatedRecord (key_of agr))) in
  Ret (store database (key_of agr) existing_node_record, match res with Ok _ => true | Err _ => false end).

Fixpoint identify_and_update_obsolete_nodes (database : NeighborhoodDatabase) (agrs : list AccessibleGossipRecord) (b : bool)
    : run (NeighborhoodDatabase * bool) :=
  match agrs with
  | [] => Ret (database, b)
  | agr :: agrs =>
      match node_by_key database (key_of agr) with
      | Some existing_node =>
          if version existing_node <? i_version (a_inner agr) then
            '(database, changed) ← update_database_record database agr;
            identify_and_update_obsolete_nodes database agrs (changed || b)
          else identify_and_update_obsolete_nodes database agrs b
      | None => identify_and_update_obsolete_nodes database agrs b
      end
  end.

Definition add_src_node_as_half_neighbor (database : NeighborhoodDatabase) (gossip_source : SocketAddr)
    : run (NeighborhoodDatabase * bool) :=
  match node_by_ip database gossip_source.1 with
  | None => Ret (database, false)
  | Some gossip_node =>
      let gossip_node_key := public_key gossip_node in
      root_node ← root database;
      if (MAX_DEGREE <=? size (full_neighbor_keys root_node database))%nat then Ret (database, false) else
      match add_half_neighbor database gossip_node_key (clock RootRecord) with
      | (_, Err _) => Ret (database, false)
      | (database, Ok false) => Ret (database, false)
      | (database, Ok true) => database ← new_root_version database; Ret (database, true)
      end
  end.

Definition standard_handle (targets : pass_targets) (database : NeighborhoodDatabase) (agrs : list AccessibleGossipRecord)
    (gossip_source : SocketAddr) (neighborhood_metadata : NeighborhoodMetadata) : run outcome :=
  initial_neighborship_status ← check_full_neighbor database gossip_source.1;
  root_node ← root database;
  let patch := compute_patch agrs root_node (db_patch_size neighborhood_metadata) in
  let filtered_agrs := filter_agrs_by_patch agrs patch in
  '(database, db_changed) ← identify_and_add_non_introductory_new_nodes database filtered_agrs gossip_source
                              (user_exit_preferences_opt neighborhood_metadata);
  '(database, updated) ← identify_and_update_obsolete_nodes database filtered_agrs false;
  let db_changed := updated || db_changed in
  '(database, added) ← add_src_node_as_half_neighbor database gossip_source;
  let db_changed := added || db_changed in
  final_neighborship_status ← check_full_neighbor database gossip_source.1;
  if db_changed then
    Ret (targets, database, Accepted,
         if negb initial_neighborship_status && final_neighborship_status
         then [MkProgressMessage gossip_source.1 EvStandardGossipReceived] else [])
  else Ret (targets, database, Ignored, []).

Definition StandardGossipHandler : GossipHandler := MkHandler standard_qualifies standard_handle.

(** ** Everything else, and the acceptor *)

Definition reject_qualifies (_database : NeighborhoodDatabase) (agrs : list AccessibleGossipRecord) (gossip_source : SocketAddr)
    : run Qualification := Ret (Malformed (Unclassifiable (length agrs) gossip_source)).

Definition reject_handle (_ : pass_targets) (_ : NeighborhoodDatabase) (_ : list AccessibleGossipRecord)
    (_ : SocketAddr) (_ : NeighborhoodMetadata) : run outcome := Panic.

Definition RejectHandler : GossipHandler := MkHandler reject_qualifies reject_handle.

Definition gossip_handlers : list GossipHandler :=
  [DebutHandler; PassHandler; IntroductionHandler; StandardGossipHandler; RejectHandler].

(** The first handler that does not answer [Unmatched]. *)
Fixpoint find_handler (hs : list GossipHandler) (database : NeighborhoodDatabase) (agrs : list AccessibleGossipRecord)
    (gossip_source : SocketAddr) : run (Qualification * GossipHandler) :=
  match hs with
  | [] => Panic
  | h :: hs =>
      q ← qualifies h database agrs gossip_source;
      match q with
      | Unmatched => find_handler hs database agrs gossip_source
      | _ => Ret (q, h)
      end
  end.

Definition acceptor_handle (targets : pass_targets) (database : NeighborhoodDatabase) (agrs : list AccessibleGossipRecord)
    (gossip_source : SocketAddr) (neighborhood_metadata : NeighborhoodMetadata) : run outcome :=
  '(qualification, handler_ref) ← find_handler gossip_handlers database agrs gossip_source;
  match qualification with
  | Matched => handle handler_ref targets database agrs gossip_source neighborhood_metadata
  | Unmatched => Panic
  | Malformed reason => Ret (targets, database, Ban reason, [])
  end.


(** ** What gossip may change *)

Implicit Types (agr : AccessibleGossipRecord) (agrs : list AccessibleGossipRecord) (db : NeighborhoodDatabase)
  (r : NodeRecord) (source : SocketAddr).

(** Besides the consistency of the indexes: the nodes this node lists are known
    with an address, and this node has an address if it accepts connections. *)
Record acceptor_ok (db : NeighborhoodDatabase) : Prop := {
  ok_consistent : consistent db;
  ok_neighbors : ∀ r k, node_by_key db (this_node db) = Some r → k ∈ half_neighbor_keys r →
    ∃ n a, node_by_key db k = Some n ∧ node_addr_opt n = Some a;
  ok_root : ∀ r, node_by_key db (this_node db) = Some r → accepts_connections r = true → is_Some (node_addr_opt r)
}.

(** A record that says what [agr] says. *)
Definition from_agr (agr : AccessibleGossipRecord) (r : NodeRecord) : Prop :=
  inner r = a_inner agr ∧ signed_gossip r = a_signed_gossip agr ∧ signature r = a_signature agr.

(** What may become of the record of a node [k] other than this one, when gossip
    [agrs] comes in from [source].  No record is lost.  A new one comes from the
    gossip, and has an address only if it is the source's.  A known one is
    replaced only by a later version with the same rates, and keeps its address. *)
Definition learnt (source : SocketAddr) (agrs : list AccessibleGossipRecord) (k : PublicKey) (o o' : option NodeRecord) : Prop :=
  match o, o' with
  | None, None => True
  | Some _, None => False
  | None, Some r' =>
      ∃ agr, agr ∈ agrs ∧ key_of agr = k ∧ from_agr agr r' ∧ ∀ a, node_addr_opt r' = Some a → ip_addr a = source.1
  | Some r, Some r' =>
      r' = r ∨
      ∃ agr, agr ∈ agrs ∧ key_of agr = k ∧ from_agr agr r' ∧ version r < version r' ∧ rate_pack r' = rate_pack r ∧
        ∀ a, node_addr_opt r = Some a → node_addr_opt r' = Some a
  end.

Record learns (source : SocketAddr) (agrs : list AccessibleGossipRecord) (db db' : NeighborhoodDatabase) : Prop := {
  learns_this : this_node db' = this_node db;
  learns_root : node_by_key db' (this_node db) = node_by_key db (this_node db);
  learns_other : ∀ k, k ≠ this_node db → learnt source agrs k (node_by_key db k) (node_by_key db' k)
}.

(** This node's record with a new half neighbor [k], its next version, signed. *)
Definition root_meets (r : NodeRecord) (k : PublicKey) (t : Z) (signed sig : list Z) : NodeRecord :=
  MkRecord (inner_version (version r + 1) (inner_neighbors (λ s, {[ k ]} ∪ s) (inner r))) (metadata_time t (metadata r))
    signed sig.

(** This node lists at most one more node: one at the address of the source, and
    only while fewer than [MAX_DEGREE] nodes would be gossiped to. *)
Definition meets (source : SocketAddr) (db db' : NeighborhoodDatabase) : Prop :=
  db' = db ∨
  ∃ r k n a t signed sig,
    node_by_key db (this_node db) = Some r ∧ k ≠ this_node db ∧ (k ∉ half_neighbor_keys r) ∧
    (gossip_target_degree db (this_node db) < MAX_DEGREE)%nat ∧
    node_by_key db k = Some n ∧ node_addr_opt n = Some a ∧ ip_addr a = source.1 ∧
    to_vec (inner (root_meets r k t signed sig)) = Some signed ∧ sign signed = Some sig ∧
    db' = store db (this_node db) (root_meets r k t signed sig).

Hypothesis Hto_vec : ∀ i, is_Some (to_vec i).
Hypothesis Hsign : ∀ d, is_Some (sign d).
Hypothesis Hfinder : ∀ ip, ∃ o, Finder.find_country finder ip = Ret o.
Hypothesis Horder : ∀ l s, order l s ≡ₚ elements s.
Hypothesis Hip_order : ∀ s, ip_order s ≡ₚ elements s.

Definition preferences_ok (p : option UserExitPreferences) : Prop :=
  ∀ p', p = Some p' → Forall ExitPreferences.priority_ok (ExitPreferences.get_locations_opt p').

Lemma learnt_refl source agrs k o : learnt source agrs k o o.
Proof. destruct o; simpl; auto. Qed.

Lemma agr_unique (agrs : list AccessibleGossipRecord) a1 a2 :
  NoDup ((λ agr, key_of agr) <$> agrs) → a1 ∈ agrs → a2 ∈ agrs → key_of a1 = key_of a2 → a1 = a2.
Proof.
  intros Hnd (i & Hi)%list_elem_of_lookup (j & Hj)%list_elem_of_lookup He.
  assert (i = j) as ->; [|congruence]. eapply NoDup_lookup; [exact Hnd|..]; rewrite list_lookup_fmap; [by rewrite Hi|].
  rewrite Hj. simpl. by rewrite He.
Qed.

Lemma learnt_trans source agrs k o1 o2 o3 :
  NoDup ((λ agr, key_of agr) <$> agrs) → learnt source agrs k o1 o2 → learnt source agrs k o2 o3 → learnt source agrs k o1 o3.
Proof.
  intros Hnd. destruct o1 as [r1|], o2 as [r2|], o3 as [r3|]; simpl; try done.
  - intros [->|(a1 & Ha1 & Hk1 & Hf1 & Hv1 & Hr1 & Had1)] [->|(a2 & Ha2 & Hk2 & Hf2 & Hv2 & Hr2 & Had2)]; eauto 10.
    right. exists a2. split_and!; eauto; [lia|congruence].
  - intros (a1 & Ha1 & Hk1 & Hf1 & Had1) [->|(a2 & Ha2 & Hk2 & Hf2 & Hv2 & _)]; [eauto 10|].
    assert (a1 = a2) as -> by (eapply agr_unique; [exact Hnd|done..|congruence]).
    exfalso. unfold version in Hv2. destruct Hf1 as [E1 _], Hf2 as [E2 _]. rewrite E1, E2 in Hv2. lia.
Qed.

Lemma learns_refl source agrs db : learns source agrs db db.
Proof. split; [done..|]. intros k _. apply learnt_refl. Qed.

Lemma learns_trans source agrs db1 db2 db3 :
  NoDup ((λ agr, key_of agr) <$> agrs) → learns source agrs db1 db2 → learns source agrs db2 db3 → learns source agrs db1 db3.
Proof.
  intros Hnd [T1 R1 O1] [T2 R2 O2]. split; [congruence|by rewrite <- T1, R2, T1|].
  intros k Hk. eapply learnt_trans; [done|by apply O1|apply O2; congruence].
Qed.

Lemma learns_mono source agrs agrs' db db' :
  agrs ⊆ agrs' → learns source agrs db db' → learns source agrs' db db'.
Proof.
  intros Hs [T R O]. split; [done..|]. intros k Hk. specialize (O k Hk). unfold learnt in *.
  destruct (node_by_key db k), (node_by_key db' k); try done.
  - destruct O as [->|(agr & Ha & ?)]; [by left|]. right. exists agr. split; [by apply Hs|done].
  - destruct O as (agr & Ha & ?). exists agr. split; [by apply Hs|done].
Qed.


(** *** Adding, updating and meeting *)

Lemma record_from_agr_spec agr now : ∃ loc,
  record_from_agr finder agr now =
    Ret (MkRecord (a_inner agr) (MkMetadata now (a_node_addr_opt agr) ∅ loc 0) (a_signed_gossip agr) (a_signature agr)).
Proof.
  unfold record_from_agr, get_node_location. destruct (a_node_addr_opt agr) as [a|]; simpl; [|by eexists].
  destruct (Hfinder (ip_addr a)) as [o ->]. by eexists.
Qed.

Lemma costed_same p r :
  inner (ExitPreferences.costed p r) = inner r ∧ node_addr_opt (ExitPreferences.costed p r) = node_addr_opt r ∧
  signed_gossip (ExitPreferences.costed p r) = signed_gossip r ∧ signature (ExitPreferences.costed p r) = signature r.
Proof. unfold ExitPreferences.costed. by destruct (Routing.locations_opt p). Qed.

Lemma new_record_spec agr prefs :
  preferences_ok prefs → ∃ r, new_record agr prefs = Ret r ∧ from_agr agr r ∧ node_addr_opt r = a_node_addr_opt agr.
Proof.
  intros Hp. unfold new_record. destruct (record_from_agr_spec agr (clock (NewRecord (key_of agr)))) as (loc & ->).
  cbn [mbind run_bind]. destruct prefs as [p|]; [|by eexists].
  rewrite ExitPreferences.assign_spec by by apply Hp. eexists. split; [done|].
  destruct (costed_same p (MkRecord (a_inner agr) (MkMetadata (clock (NewRecord (key_of agr))) (a_node_addr_opt agr) ∅ loc 0)
    (a_signed_gossip agr) (a_signature agr))) as (E1 & E2 & E3 & E4).
  unfold from_agr. by rewrite E1, E2, E3, E4.
Qed.

(** A record filed under a new key. *)
Lemma node_by_key_add db r k :
  node_by_key (add_arbitrary_node db r) k = if decide (k = public_key r) then Some r else node_by_key db k.
Proof.
  unfold node_by_key, add_arbitrary_node. simpl. destruct (decide (k = public_key r)) as [->|]; [by rewrite lookup_insert_eq|].
  by rewrite lookup_insert_ne.
Qed.

Lemma node_by_key_store db k r k' : node_by_key (store db k r) k' = if decide (k' = k) then Some r else node_by_key db k'.
Proof.
  unfold node_by_key, store. simpl. destruct (decide (k' = k)) as [->|]; [by rewrite lookup_insert_eq|by rewrite lookup_insert_ne].
Qed.

Lemma acceptor_ok_root db : acceptor_ok db → ∃ r, root db = Ret r ∧ node_by_key db (this_node db) = Some r ∧
  public_key r = this_node db ∧ this_node db ∉ half_neighbor_keys r.
Proof. intros [Hc _ _]. destruct (consistent_root db Hc) as (r & ? & ? & ? & ?). by exists r. Qed.

Lemma add_node_ok db r :
  acceptor_ok db → node_by_key db (public_key r) = None → (∀ a, node_addr_opt r = Some a → ports a ≠ []) →
  add_node db r = (add_arbitrary_node db r, Ok (public_key r)) ∧ acceptor_ok (add_arbitrary_node db r).
Proof.
  intros Hok Hnew Hports. pose proof (ok_consistent _ Hok) as Hc.
  assert (add_node db r = (add_arbitrary_node db r, Ok (public_key r))) as Hadd.
  { unfold add_node, check_for_ports, check_for_collision.
    assert (public_key r ∉ keys db) as Hk by (unfold keys; by apply not_elem_of_dom).
    rewrite (decide_False _ _ Hk). destruct (node_addr_opt r) as [a|]; [|done].
    specialize (Hports a eq_refl). by destruct (ports a). }
  split; [done|]. pose proof (consistent_add_node db r Hc) as Hc'. rewrite Hadd in Hc'.
  destruct (acceptor_ok_root db Hok) as (r0 & _ & Hr0 & _).
  assert (this_node db ≠ public_key r) as Hne by congruence.
  split; [exact Hc'|..]; change (this_node (add_arbitrary_node db r)) with (this_node db); setoid_rewrite node_by_key_add;
    rewrite decide_False by done.
  - intros r1 k Hr1 Hk. destruct (ok_neighbors _ Hok _ _ Hr1 Hk) as (n & a & Hn & Ha). exists n, a.
    rewrite decide_False by congruence. done.
  - apply (ok_root _ Hok).
Qed.

Lemma add_node_learns source agrs agr db r :
  node_by_key db (public_key r) = None → acceptor_ok db → agr ∈ agrs → from_agr agr r →
  (∀ a, node_addr_opt r = Some a → ip_addr a = source.1) → learns source agrs db (add_arbitrary_node db r).
Proof.
  intros Hnew Hok Ha Hf Hip. destruct (acceptor_ok_root db Hok) as (r0 & _ & Hr0 & _).
  split; [done| |].
  - rewrite node_by_key_add, decide_False by congruence. done.
  - intros k _. rewrite node_by_key_add. destruct (decide (k = public_key r)) as [->|]; [|apply learnt_refl].
    rewrite Hnew. simpl. exists agr. split_and!; try done. unfold public_key. by rewrite (proj1 Hf).
Qed.

(** An update that is not refused replaces the record by a later version. *)
Lemma update_spec r agr t :
  (update r agr t).2 = Ok tt ∧ from_agr agr (update r agr t).1 ∧ i_rate_pack (a_inner agr) = rate_pack r ∧
    key_of agr = public_key r ∧ (∀ a, node_addr_opt r = Some a → node_addr_opt (update r agr t).1 = Some a) ∧
    (∀ a, a_node_addr_opt agr = Some a → node_addr_opt (update r agr t).1 = Some a) ∨
  ∃ e, update r agr t = (r, Err e).
Proof.
  unfold update. destruct (bool_decide (key_of agr = public_key r)) eqn:Ek; cbn [negb]; [|eauto].
  apply bool_decide_eq_true in Ek.
  destruct (bool_decide (i_rate_pack (a_inner agr) = rate_pack r)) eqn:Er; cbn [negb]; [|eauto].
  apply bool_decide_eq_true in Er.
  destruct (node_addr_opt r) as [a1|] eqn:E1, (a_node_addr_opt agr) as [a2|] eqn:E2.
  - destruct (decide (a1 = a2)) as [->|]; [|eauto]. left. unfold node_addr_opt in *. simpl. split_and!; try done; intros; congruence.
  - left. unfold node_addr_opt in *. simpl. split_and!; try done; intros; congruence.
  - left. unfold node_addr_opt in *. simpl. split_and!; try done; intros; congruence.
  - left. unfold node_addr_opt in *. simpl. split_and!; try done; intros; congruence.
Qed.

Lemma update_ok db k r agr t :
  acceptor_ok db → k ≠ this_node db → node_by_key db k = Some r → acceptor_ok (store db k (update r agr t).1).
Proof.
  intros Hok Hk Hr. split.
  - apply consistent_update; [apply Hok|done..].
  - change (this_node (store db k (update r agr t).1)) with (this_node db). setoid_rewrite node_by_key_store.
    rewrite decide_False by done. intros r1 k1 Hr1 Hk1. destruct (ok_neighbors _ Hok _ _ Hr1 Hk1) as (n & a & Hn & Ha).
    destruct (decide (k1 = k)) as [->|]; [|by exists n, a]. exists (update r agr t).1, a. split; [done|].
    rewrite Hr in Hn. injection Hn as ->.
    destruct (update_spec n agr t) as [(_ & _ & _ & _ & H & _)|[e ->]]; [by apply H|done].
  - change (this_node (store db k (update r agr t).1)) with (this_node db). setoid_rewrite node_by_key_store.
    rewrite decide_False by done. apply (ok_root _ Hok).
Qed.

Lemma update_learns source agrs agr db k r t :
  acceptor_ok db → k ≠ this_node db → node_by_key db k = Some r → agr ∈ agrs → key_of agr = k →
  version r < i_version (a_inner agr) → learns source agrs db (store db k (update r agr t).1).
Proof.
  intros Hok Hk Hr Ha Hkey Hv. split; [done| |].
  - rewrite node_by_key_store, decide_False by done. done.
  - intros k1 _. rewrite node_by_key_store. destruct (decide (k1 = k)) as [->|]; [|apply learnt_refl].
    rewrite Hr. simpl. destruct (update_spec r agr t) as [(_ & Hf & Hrate & _ & Had & _)|[e ->]]; [|by left].
    right. exists agr. unfold version, rate_pack. rewrite (proj1 Hf). split_and!; try done.
Qed.


Lemma store_store db k r r' : store (store db k r) k r' = store db k r'.
Proof. unfold store. simpl. by rewrite insert_insert_eq. Qed.

Lemma full_neighbor_keys_agree r db db' :
  (∀ k, k ∈ half_neighbor_keys r → node_by_key db k = node_by_key db' k) → full_neighbor_keys r db = full_neighbor_keys r db'.
Proof.
  intros H. unfold full_neighbor_keys. apply set_eq. intros k. rewrite !elem_of_filter.
  split; intros [H1 H2]; (split; [|done]); by rewrite (H k H2) in *.
Qed.

Lemma degree_of_root db r :
  acceptor_ok db → node_by_key db (this_node db) = Some r →
  gossip_target_degree db (this_node db) =
    size (filter (λ k, match node_by_key db k with Some n => accepts_connections n | None => false end = true)
            (full_neighbor_keys r db)).
Proof.
  intros Hok Hr. unfold gossip_target_degree. rewrite Hr.
  assert (half_neighbor_keys r ∖ keys db = ∅) as ->; [|rewrite size_empty; lia].
  apply set_eq. intros k. rewrite elem_of_difference. split; [|set_solver]. intros [Hk Hn].
  destruct (ok_neighbors _ Hok _ _ Hr Hk) as (n & a & Hk' & _). exfalso. apply Hn. unfold keys. apply elem_of_dom. by exists n.
Qed.

Lemma degree_le_full db r :
  acceptor_ok db → node_by_key db (this_node db) = Some r →
  (gossip_target_degree db (this_node db) ≤ size (full_neighbor_keys r db))%nat.
Proof.
  intros Hok Hr. rewrite (degree_of_root db r) by done. apply subseteq_size. intros k. rewrite elem_of_filter. by intros [].
Qed.

(** Nodes this node does not list have no part in its degree. *)
Lemma degree_agree db db' r :
  acceptor_ok db → acceptor_ok db' → this_node db' = this_node db →
  node_by_key db (this_node db) = Some r → node_by_key db' (this_node db) = Some r →
  (∀ k, k ∈ half_neighbor_keys r → node_by_key db k = node_by_key db' k) →
  gossip_target_degree db' (this_node db') = gossip_target_degree db (this_node db).
Proof.
  intros Hok Hok' Ht Hr Hr' Ha. rewrite (degree_of_root db r), (degree_of_root db' r) by (done || by rewrite Ht).
  rewrite (full_neighbor_keys_agree r db db' Ha). f_equal. apply set_eq. intros k. rewrite !elem_of_filter.
  split; intros [H1 H2]; (split; [|done]); unfold full_neighbor_keys in H2; apply elem_of_filter in H2 as [_ H2];
    by rewrite (Ha k H2) in *.
Qed.

Lemma meet_spec db r k (n : NodeRecord) :
  acceptor_ok db → node_by_key db (this_node db) = Some r → version r < last_version → k ≠ this_node db →
  node_by_key db k = Some n → ∀ t,
  (k ∈ half_neighbor_keys r ∧ add_half_neighbor db k t = (db, Ok false)) ∨
  ((k ∉ half_neighbor_keys r) ∧ ∃ db1 signed sig, add_half_neighbor db k t = (db1, Ok true) ∧
     new_root_version db1 = Ret (store db (this_node db) (root_meets r k t signed sig)) ∧
     to_vec (inner (root_meets r k t signed sig)) = Some signed ∧ sign signed = Some sig).
Proof.
  intros Hok Hr Hv Hk Hn t. destruct (acceptor_ok_root db Hok) as (r' & _ & Hr' & Hkey & _).
  rewrite Hr in Hr'. injection Hr' as <-.
  unfold add_half_neighbor. rewrite bool_decide_eq_true_2 by (unfold keys; apply elem_of_dom; by exists n).
  unfold db_has_half_neighbor. rewrite Hr. unfold has_half_neighbor.
  destruct (decide (k ∈ half_neighbor_keys r)) as [Hin|Hin]; [left|right]; (split; [done|]).
  - by rewrite bool_decide_eq_true_2.
  - rewrite bool_decide_eq_false_2 by done. simpl. unfold add_half_neighbor_key. rewrite decide_False by congruence.
    set (r1 := with_metadata _ _). eexists. destruct (Hto_vec (inner (root_meets r k t [] []))) as [signed Hs].
    destruct (Hsign signed) as [sig Hsig]. exists signed, sig. split; [done|]. split; [|done].
    unfold new_root_version, root. rewrite node_by_key_store. cbn [this_node store].
    rewrite decide_True by done. simpl. unfold increment_version.
    change (version r1) with (version r). unfold last_version in Hv. destruct (Z.ltb_spec (version r + 1) (2 ^ 32)); [|lia].
    cbn [mbind run_bind]. unfold regenerate_signed_gossip, sign_gossip.
    change (inner (with_inner _ r1)) with (inner (root_meets r k t [] [])). rewrite Hs. simpl. rewrite Hsig. simpl.
    by rewrite store_store.
Qed.

Lemma meets_ok source db db' : acceptor_ok db → meets source db db' → acceptor_ok db'.
Proof.
  intros Hok [->|(r & k & n & a & t & signed & sig & Hr & Hk & Hnk & _ & Hn & Ha & _ & _ & _ & ->)]; [done|].
  destruct (acceptor_ok_root db Hok) as (r' & _ & Hr' & Hkey & Hself). rewrite Hr in Hr'. injection Hr' as <-.
  assert (half_neighbor_keys (root_meets r k t signed sig) = {[k]} ∪ half_neighbor_keys r) as Hh by done.
  split.
  - apply (consistent_store _ _ r); try done; [apply Hok|]. intros _. rewrite Hh. set_solver.
  - change (this_node (store db (this_node db) _)) with (this_node db). setoid_rewrite node_by_key_store.
    rewrite decide_True by done. intros r1 k1 [= <-]. rewrite Hh. intros Hk1.
    rewrite decide_False by set_solver. apply elem_of_union in Hk1 as [->%elem_of_singleton|Hk1]; [by exists n, a|].
    by apply (ok_neighbors _ Hok r).
  - change (this_node (store db (this_node db) _)) with (this_node db). rewrite node_by_key_store, decide_True by done.
    intros r1 [= <-]. apply (ok_root _ Hok r Hr).
Qed.


(** *** Gossip that is built *)

(** What a node says about a node of its database. *)
Definition says r : GossipNodeRecord :=
  MkGnr (signed_gossip r) (signature r) (if accepts_connections r then node_addr_opt r else None).

Lemma builder_says db b k r :
  acceptor_ok db → node_by_key db k = Some r → k ∉ keys_so_far b →
  builder_node db b k true = Ret (MkBuilder (gossip b ++ [says r]) ({[ k ]} ∪ keys_so_far b)).
Proof.
  intros Hok Hr Hk. assert (public_key r = k) as Hkey by by apply (proj1 (ok_consistent _ Hok)).
  rewrite <- Hkey in *. by rewrite builder_node_spec.
Qed.

Lemma make_pass_gossip_spec db k r :
  acceptor_ok db → node_by_key db k = Some r → make_pass_gossip db k = Ret [says r].
Proof. intros Hok Hr. unfold make_pass_gossip. by rewrite (builder_says db _ k r) by (done || set_solver). Qed.

Lemma filter_run_spec {A} (f : A → run bool) (g : A → bool) l :
  (∀ x, x ∈ l → f x = Ret (g x)) → filter_run f l = Ret (List.filter g l).
Proof.
  intros Hf. induction l as [|x l IH]; [done|]. simpl. rewrite Hf by by left. cbn [mbind run_bind].
  rewrite IH by (intros; apply Hf; by right). done.
Qed.

Lemma elem_of_skip_while {A} (f : A → bool) l x : x ∈ skip_while f l → x ∈ l.
Proof. induction l as [|y l IH]; simpl; [done|]. destruct (f y); [|done]. intros H. right. by apply IH. Qed.

Lemma elem_of_ordered loop db ks ex k : k ∈ keys_ordered_by_degree_excluding loop db ks ex ↔ k ∈ ks ∧ k ∉ ex.
Proof.
  unfold keys_ordered_by_degree_excluding. rewrite merge_sort_Permutation, Horder, elem_of_elements. apply elem_of_difference.
Qed.

(** A node is listed by this node, and known with its address. *)
Definition listed db k : Prop :=
  ∃ r n a, node_by_key db (this_node db) = Some r ∧ k ∈ half_neighbor_keys r ∧
    node_by_key db k = Some n ∧ node_addr_opt n = Some a.

Lemma half_neighbor_listed db r k :
  acceptor_ok db → node_by_key db (this_node db) = Some r → k ∈ half_neighbor_keys r → listed db k.
Proof. intros Hok Hr Hk. destruct (ok_neighbors _ Hok _ _ Hr Hk) as (n & a & ? & ?). by exists r, n, a. Qed.

Definition accepting db k : bool := match node_by_key db k with Some n => accepts_connections n | None => false end.

Lemma filter_accepting db l :
  (∀ k, k ∈ l → listed db k) → filter_run (node_accepts_connections db) l = Ret (List.filter (accepting db) l).
Proof.
  intros Hl. apply filter_run_spec. intros k Hk. destruct (Hl k Hk) as (r & n & a & _ & _ & Hn & _).
  unfold node_accepts_connections, accepting. by rewrite Hn.
Qed.

Lemma full_is_half r db k : k ∈ full_neighbor_keys r db → k ∈ half_neighbor_keys r.
Proof. unfold full_neighbor_keys. rewrite elem_of_filter. by intros []. Qed.

Lemma elem_of_list_filter {A} (f : A → bool) l x : x ∈ List.filter f l ↔ x ∈ l ∧ f x = true.
Proof. rewrite !list_elem_of_In. apply filter_In. Qed.

Lemma find_more_spec db agr :
  acceptor_ok db → ∃ o, find_more_appropriate_neighbor db agr = Ret o ∧ ∀ k, o = Some k → listed db k.
Proof.
  intros Hok. destruct (acceptor_ok_root db Hok) as (r & Hroot & Hr & Hkey & _).
  unfold find_more_appropriate_neighbor, root_full_neighbors_ordered_by_degree_excluding. rewrite Hroot. cbn [mbind run_bind].
  set (v := keys_ordered_by_degree_excluding _ _ _ _).
  assert (∀ k, k ∈ v → listed db k) as Hv.
  { intros k [Hk _]%elem_of_ordered. apply (half_neighbor_listed db r); [done..|]. by apply full_is_half in Hk. }
  rewrite filter_accepting by done. cbn [mbind run_bind].
  destruct (skip_while _ _) as [|k l] eqn:Es; [by exists None|].
  assert (k ∈ v) as Hk.
  { assert (k ∈ k :: l) as Hk by by left. rewrite <- Es in Hk. apply elem_of_skip_while, elem_of_list_filter in Hk. apply Hk. }
  destruct (_ <=? _)%nat; [by exists None|]. exists (Some k). split; [done|]. intros k' [= <-]. by apply Hv.
Qed.

Lemma find_least_listed ks db agr :
  (∀ k, k ∈ ks → listed db k) → ∀ k, find_least_connected_neighbor_excluding ks db agr = Some k →
  listed db k ∧ k ∉ node_and_neighbor_keys agr.
Proof.
  intros Hks k. unfold find_least_connected_neighbor_excluding. intros Hk.
  assert (k ∈ keys_ordered_by_degree_excluding LeastConnected db ks (node_and_neighbor_keys agr)) as [H1 H2]%elem_of_ordered.
  { destruct (keys_ordered_by_degree_excluding _ _ _ _); [done|]. injection Hk as ->. by left. }
  split; [by apply Hks|done].
Qed.

Lemma find_least_full_spec db agr :
  acceptor_ok db → ∃ o, find_least_connected_full_neighbor_excluding db agr = Ret o ∧
    ∀ k, o = Some k → listed db k ∧ k ∉ node_and_neighbor_keys agr.
Proof.
  intros Hok. destruct (acceptor_ok_root db Hok) as (r & Hroot & Hr & Hkey & _).
  unfold find_least_connected_full_neighbor_excluding. rewrite Hroot. cbn [mbind run_bind].
  assert (∀ k, k ∈ elements (full_neighbor_keys r db) → listed db k) as Hl.
  { intros k Hk%elem_of_elements. apply (half_neighbor_listed db r); [done..|]. by apply full_is_half in Hk. }
  rewrite filter_accepting by done. cbn [mbind run_bind]. eexists. split; [done|].
  apply find_least_listed. intros k Hk%elem_of_list_to_set%elem_of_list_filter. by apply Hl, Hk.
Qed.

Lemma make_introduction_spec db agr source :
  acceptor_ok db → ∃ o, make_introduction db agr source = Ret o.
Proof.
  intros Hok. destruct (acceptor_ok_root db Hok) as (r & Hroot & Hr & Hkey & Hself).
  destruct (find_least_full_spec db agr Hok) as (o & Ho & Hl). unfold make_introduction. rewrite Ho. cbn [mbind run_bind].
  destruct o as [k|]; [|by eexists]. destruct (Hl k eq_refl) as [(r' & n & a & Hr' & Hk & Hn & _) _].
  rewrite Hr in Hr'. injection Hr' as <-. rewrite Hn, Hroot. cbn [expect mbind run_bind]. rewrite Hkey.
  rewrite (builder_says db _ _ r) by (done || set_solver). cbn [mbind run_bind].
  rewrite (builder_says db _ _ n); [by eexists|done..|]. simpl.
  assert (k ≠ this_node db) by (intros ->; done). set_solver.
Qed.


(** *** The handlers *)

Definition good_outcome source agrs db (o : outcome) : Prop :=
  let '(_, db', res, _) := o in
  acceptor_ok db' ∧ (∃ db1, learns source agrs db db1 ∧ meets source db1 db') ∧
  match res with Accepted => db' ≠ db | Reply _ _ _ => True | _ => db' = db end.

Lemma unchanged source agrs db : acceptor_ok db → acceptor_ok db ∧ ∃ db1, learns source agrs db db1 ∧ meets source db1 db.
Proof. intros Hok. split; [done|]. exists db. split; [apply learns_refl|by left]. Qed.

Definition small_version db : Prop := ∀ r, node_by_key db (this_node db) = Some r → version r < last_version.

Lemma create_debut_spec db k : acceptor_ok db → k ≠ this_node db → ∃ g, create_debut_gossip_response db k = Ret g.
Proof.
  intros Hok Hk. destruct (acceptor_ok_root db Hok) as (r & Hroot & Hr & Hkey & _).
  unfold create_debut_gossip_response. rewrite Hroot. cbn [mbind run_bind]. unfold add_half_neighbor_key.
  rewrite decide_False by (change (public_key (clear_half_neighbors r)) with (public_key r); congruence).
  cbn [expect mbind run_bind]. unfold gnr_from_inner. set (r' := with_inner _ _).
  destruct (Hto_vec (inner r')) as [d ->]. cbn [expect mbind run_bind]. destruct (Hsign d) as [s ->]. by eexists.
Qed.

Lemma accept_spec source agrs agr db r (n : NodeRecord) :
  acceptor_ok db → small_version db → node_by_key db (this_node db) = Some r →
  (gossip_target_degree db (this_node db) < MAX_DEGREE)%nat →
  node_by_key db (public_key n) = None → agr ∈ agrs → from_agr agr n →
  (∃ a, node_addr_opt n = Some a ∧ ports a ≠ [] ∧ ip_addr a = source.1) →
  ∃ db1 db2 db3, add_node db n = (db1, Ok (public_key n)) ∧
    add_half_neighbor db1 (public_key n) (clock RootRecord) = (db2, Ok true) ∧ new_root_version db2 = Ret db3 ∧
    acceptor_ok db3 ∧ learns source agrs db db1 ∧ meets source db1 db3 ∧ this_node db3 = this_node db ∧ db3 ≠ db.
Proof.
  intros Hok Hv Hr Hdeg Hnew Hin Hf (a & Ha & Hports & Hip).
  destruct (add_node_ok db n Hok Hnew) as [Hadd Hok1]; [intros a'; congruence|].
  set (db1 := add_arbitrary_node db n) in *.
  assert (public_key n ≠ this_node db) as Hne by congruence.
  assert (public_key n ∉ half_neighbor_keys r) as Hnl.
  { intros Hk. destruct (ok_neighbors _ Hok _ _ Hr Hk) as (n' & _ & Hn' & _). congruence. }
  assert (learns source agrs db db1) as Hl by (apply (add_node_learns source agrs agr); try done; intros; congruence).
  assert (node_by_key db1 (public_key n) = Some n) as Hn1 by (unfold db1; by rewrite node_by_key_add, decide_True).
  assert (node_by_key db1 (this_node db) = Some r) as Hr1 by by rewrite (learns_root _ _ _ _ Hl).
  destruct (meet_spec db1 r (public_key n) n Hok1 Hr1 (Hv r Hr) Hne Hn1 (clock RootRecord))
    as [[? _]|(_ & db2 & signed & sig & H2 & H3 & Hs & Hsig)]; [done|].
  assert (meets source db1 (store db1 (this_node db) (root_meets r (public_key n) (clock RootRecord) signed sig))) as Hm.
  { right. exists r, (public_key n), n, a, (clock RootRecord), signed, sig. split_and!; try done.
    erewrite (degree_agree db db1 r); try done. intros k Hk. unfold db1. rewrite node_by_key_add, decide_False; [done|].
    by intros ->. }
  exists db1, db2, (store db1 (this_node db) (root_meets r (public_key n) (clock RootRecord) signed sig)).
  split_and!; try done; [by apply (meets_ok source db1)|].
  intros He. assert (node_by_key db (public_key n) = Some n) as Hcontra; [|congruence].
  rewrite <- He, node_by_key_store, decide_False by done. done.
Qed.

Lemma debut_matched db agrs source :
  debut_qualifies db agrs source = Ret Matched →
  ∃ agr, agrs = [agr] ∧ node_by_key db (key_of agr) = None ∧
    ∀ a, a_node_addr_opt agr = Some a → ports a ≠ [] ∧ ip_addr a = source.1.
Proof.
  unfold debut_qualifies. destruct agrs as [|agr [|]]; try done. simpl.
  destruct (node_by_key db (key_of agr)) eqn:Ek; [done|]. intros [= Hq]. exists agr. split_and!; try done. intros a Ha.
  rewrite Ha in Hq. destruct (i_accepts_connections _); [|done]. destruct (bool_decide (ports a = [])) eqn:Ep; [done|].
  destruct (bool_decide (ip_addr a = source.1)) eqn:Ei; [|done]. by apply bool_decide_eq_false in Ep; apply bool_decide_eq_true in Ei.
Qed.

Lemma try_accept_spec source agrs agr db prefs :
  acceptor_ok db → small_version db → preferences_ok prefs → node_by_key db (key_of agr) = None →
  (∃ agr0, agr0 ∈ agrs ∧ a_inner agr0 = a_inner agr ∧ a_signed_gossip agr0 = a_signed_gossip agr ∧ a_signature agr0 = a_signature agr) →
  (∃ a, a_node_addr_opt agr = Some a ∧ ports a ≠ [] ∧ ip_addr a = source.1) →
  try_accept_debut db agr source prefs = Ret (db, None) ∨
  ∃ db' res, try_accept_debut db agr source prefs = Ret (db', Some res) ∧ good_outcome source agrs db (∅, db', res, []).
Proof.
  intros Hok Hv Hp Hnew (agr0 & Hin & E1 & E2 & E3) (a & Ha & Hports & Hip). destruct (acceptor_ok_root db Hok) as (r & Hroot & Hr & Hkey & _).
  unfold try_accept_debut. rewrite Hroot. cbn [mbind run_bind]. rewrite Hkey.
  destruct (Nat.leb_spec MAX_DEGREE (gossip_target_degree db (this_node db))) as [|Hdeg]; [by left|right].
  destruct (new_record_spec agr prefs Hp) as (n & -> & Hf & Hna). cbn [mbind run_bind].
  assert (public_key n = key_of agr) as Hkn by (unfold public_key; by rewrite (proj1 Hf)).
  destruct (accept_spec source agrs agr0 db r n) as (db1 & db2 & db3 & -> & H2 & H3 & Hok3 & Hl & Hm & Ht & Hne); try done.
  { by rewrite Hkn. }
  { unfold from_agr. rewrite E1, E2, E3. exact Hf. }
  { exists a. by rewrite Hna. }
  cbn [expect_ok mbind run_bind]. rewrite H2, H3. cbn [mbind run_bind].
  destruct (should_not_make_another_introduction agr); [exists db3, Accepted; split; [done|]; simpl; eauto|].
  destruct (make_introduction_spec db3 agr source Hok3) as (o & ->). cbn [mbind run_bind].
  destruct o as [[[g k] a']|]; [exists db3, (Reply g k a'); split; [done|]; simpl; eauto|].
  destruct (create_debut_spec db3 (public_key n) Hok3) as (g & ->); [rewrite Ht; congruence|]. cbn [mbind run_bind]. rewrite Ha.
  eexists db3, _. split; [done|]. simpl. eauto.
Qed.

Lemma debut_handled targets db agrs source md :
  acceptor_ok db → small_version db → preferences_ok (user_exit_preferences_opt md) →
  debut_qualifies db agrs source = Ret Matched →
  ∃ db' res, debut_handle targets db agrs source md = Ret (targets, db', res, []) ∧
    good_outcome source agrs db (targets, db', res, []).
Proof.
  intros Hok Hv Hp (agr & -> & Hnew & Haddr)%debut_matched. destruct (acceptor_ok_root db Hok) as (r & Hroot & Hr & Hkey & _).
  unfold debut_handle. change (get [agr] 0) with (Ret agr). cbn [mbind run_bind].
  set (sagr := match a_node_addr_opt agr with Some _ => agr | None => _ end).
  assert (a_inner agr = a_inner sagr ∧ a_signed_gossip agr = a_signed_gossip sagr ∧ a_signature agr = a_signature sagr) as (E1 & E2 & E3)
    by (unfold sagr; by destruct (a_node_addr_opt agr)).
  assert (∃ a, a_node_addr_opt sagr = Some a ∧ ports a ≠ [] ∧ ip_addr a = source.1) as (a & Ha & Hports & Hip).
  { unfold sagr. destruct (a_node_addr_opt agr) as [a|] eqn:Ea; [exists a; by destruct (Haddr a eq_refl)|].
    exists (node_addr_from source). by split_and!. }
  clearbody sagr. rewrite E1 in Hnew. rewrite Ha. cbn [expect mbind run_bind].
  destruct (find_more_spec db sagr Hok) as (o & -> & Ho). cbn [mbind run_bind]. destruct o as [k|].
  { destruct (Ho k eq_refl) as (_ & n & an & _ & _ & Hn & Han). rewrite Hn. cbn [expect mbind run_bind]. rewrite Han.
    cbn [expect mbind run_bind]. rewrite (make_pass_gossip_spec db k n) by done. cbn [mbind run_bind].
    eexists _, _. split; [done|]. destruct (unchanged source [agr] db Hok). by split_and!. }
  destruct (try_accept_spec source [agr] sagr db (user_exit_preferences_opt md)) as [->|(db' & res & -> & Hgood)];
    try done; [by exists agr; split; [left|]|eauto| |]; cbn [mbind run_bind].
  2: { exists db', res. split; [done|]. exact Hgood. }
  unfold find_least_connected_half_neighbor_excluding. rewrite Hroot. cbn [mbind run_bind].
  destruct (find_least_connected_neighbor_excluding _ _ _) as [k|] eqn:Ek.
  - apply find_least_listed in Ek as [(_ & n & an & _ & _ & Hn & _) _]; [|intros k'; by apply half_neighbor_listed].
    rewrite Hn. cbn [expect mbind run_bind]. rewrite (make_pass_gossip_spec db k n) by done.
    eexists _, _. split; [done|]. destruct (unchanged source [agr] db Hok). by split_and!.
  - eexists _, _. split; [done|]. destruct (unchanged source [agr] db Hok). by split_and!.
Qed.


Definition fresh_targets (targets : pass_targets) : Prop := ∀ ip t, targets !! ip = Some t → t ≤ pass_checked.

Lemma pass_reply_spec db k a r :
  acceptor_ok db → node_by_key db (this_node db) = Some r → pass_reply db k a = Ret (Reply [says r] k a).
Proof.
  intros Hok Hr. unfold pass_reply, root. rewrite Hr. cbn [expect mbind run_bind].
  rewrite (proj1 (ok_consistent _ Hok) _ _ Hr). by rewrite (builder_says db _ _ r) by (done || set_solver).
Qed.

Lemma pass_handled targets db agrs source md :
  acceptor_ok db → fresh_targets targets → pass_qualifies db agrs source = Ret Matched →
  ∃ targets' res sent, pass_handle targets db agrs source md = Ret (targets', db, res, sent) ∧
    good_outcome source agrs db (targets', db, res, sent).
Proof.
  intros Hok Ht. unfold pass_qualifies. destruct agrs as [|agr [|]]; try done. simpl.
  intros [= Hq]. destruct (a_node_addr_opt agr) as [a|] eqn:Ea; [|done].
  destruct (acceptor_ok_root db Hok) as (r & _ & Hr & _).
  unfold pass_handle. change (get [agr] 0) with (Ret agr). cbn [mbind run_bind]. rewrite Ea. cbn [expect mbind run_bind].
  rewrite (pass_reply_spec db (key_of agr) a r) by done. cbn [mbind run_bind]. destruct (unchanged source [agr] db Hok).
  destruct (targets !! ip_addr a) as [t|] eqn:Et.
  - specialize (Ht _ _ Et). destruct (Z.ltb_spec pass_checked t); [lia|]. unfold panic_if. cbv zeta.
    destruct (_ <=? _); eexists _, _, _; (split; [done|]); by split_and!.
  - destruct (bool_decide (ip_addr a ∈ connection_progress_peers md)); eexists _, _, _; (split; [done|]); by split_and!.
Qed.

Record introduction agrs source db introducer introducee : Prop := {
  players_found : identify_players agrs source = Ret (Ok (introducer, introducee));
  introducer_in : introducer ∈ agrs;
  introducer_key : key_of introducer ≠ this_node db;
  introducer_at : ∃ a, a_node_addr_opt introducer = Some a ∧ ports a ≠ [] ∧ ip_addr a = source.1;
  introducee_at : ∃ a, a_node_addr_opt introducee = Some a ∧ ports a ≠ [] ∧ ip_addr a ≠ source.1;
  introducee_new : node_by_key db (key_of introducee) = None
}.

Lemma order_spec a1 a2 source :
  ∃ o, order_is_introducee_introducer [a1; a2] source = Ret o ∧
    ∀ b, o = Ok b → ∃ n1 n2, a_node_addr_opt a1 = Some n1 ∧ a_node_addr_opt a2 = Some n2 ∧
      if (b : bool) then ip_addr n1 = source.1 else ip_addr n2 = source.1.
Proof.
  unfold order_is_introducee_introducer. simpl. destruct (a_node_addr_opt a1) as [n1|]; [|by eexists].
  simpl. destruct (a_node_addr_opt a2) as [n2|]; [|by eexists].
  destruct (bool_decide (ip_addr n1 = source.1)) eqn:E1; [apply bool_decide_eq_true in E1|].
  { eexists. split; [done|]. intros b [= <-]. eauto. }
  destruct (bool_decide (ip_addr n2 = source.1)) eqn:E2; [apply bool_decide_eq_true in E2|by eexists].
  eexists. split; [done|]. intros b [= <-]. eauto.
Qed.

Lemma verify_introducer_spec agr r a :
  a_node_addr_opt agr = Some a → ∃ o, verify_introducer agr r = Ret o ∧
    (o = None → key_of agr ≠ public_key r ∧ ports a ≠ []) ∧ o ≠ Some Matched.
Proof.
  intros Ha. unfold verify_introducer. destruct (bool_decide (key_of agr = _)) eqn:Ek; [by eexists|]. rewrite Ha. simpl.
  destruct (bool_decide (ports a = [])) eqn:Ep; [by eexists|]. eexists. split; [done|]. split.
  - intros _. by apply bool_decide_eq_false in Ek; apply bool_decide_eq_false in Ep.
  - by repeat case_match.
Qed.

Lemma verify_introducee_spec db a1 a2 source :
  verify_introducee db a1 a2 source ≠ Some Matched ∧
  (verify_introducee db a1 a2 source = None →
   node_by_key db (key_of a2) = None ∧ ∃ a, a_node_addr_opt a2 = Some a ∧ ports a ≠ [] ∧ ip_addr a ≠ source.1).
Proof.
  split; [unfold verify_introducee; by repeat case_match|].
  unfold verify_introducee. destruct (node_by_key db (key_of a2)); [done|]. destruct (a_node_addr_opt a2) as [a|]; [|done].
  destruct (bool_decide (ports a = [])) eqn:Ep; [done|]. destruct (bool_decide (ip_addr a = _)) eqn:Ei; [done|]. intros _.
  apply bool_decide_eq_false in Ep; apply bool_decide_eq_false in Ei. eauto.
Qed.

Lemma introduction_total db agrs source :
  acceptor_ok db → ∃ q, introduction_qualifies db agrs source = Ret q ∧
    (q = Matched → ∃ introducer introducee, introduction agrs source db introducer introducee).
Proof.
  intros Hok. destruct (acceptor_ok_root db Hok) as (r & Hroot & Hr & Hkey & _).
  unfold introduction_qualifies, verify_size. destruct agrs as [|a1 [|a2 [|]]]; try by eexists. cbn [length Nat.eqb negb].
  destruct (order_spec a1 a2 source) as (o & Ho & Hb). rewrite Ho. cbn [mbind run_bind].
  destruct o as [b|q]; [|exists q; split; [done|]; intros ->;
    unfold order_is_introducee_introducer in Ho; simpl in Ho; by repeat case_match].
  change (get [a1; a2] 0) with (Ret a1). change (get [a1; a2] 1) with (Ret a2). cbn [mbind run_bind].
  destruct (Hb b eq_refl) as (n1 & n2 & E1 & E2 & Hsrc).
  set (p := if b then (a1, a2) else (a2, a1)).
  assert (identify_players [a1; a2] source = Ret (Ok p)) as Hid
    by (unfold identify_players, try_bind; by rewrite Ho).
  assert (p.1 ∈ [a1; a2] ∧ ∃ n, a_node_addr_opt p.1 = Some n ∧ ip_addr n = source.1) as (Hin & n & En & Hn).
  { unfold p. destruct b; simpl; (split; [set_solver|eauto]). }
  destruct p as [introducer introducee]. simpl in Hin, En. rewrite Hroot. cbn [mbind run_bind].
  destruct (verify_introducer_spec introducer r n En) as (v & -> & Hv & Hq). cbn [mbind run_bind].
  destruct v as [q|].
  { exists q. split; [done|]. by intros ->. }
  destruct (verify_introducee_spec db introducer introducee source) as [Hq' Hnone].
  destruct (verify_introducee db introducer introducee source) as [q|] eqn:Ee.
  { exists q. split; [done|]. by intros ->. }
  exists Matched. split; [done|]. intros _. exists introducer, introducee.
  destruct (Hv eq_refl) as [H1 H2]. destruct (Hnone eq_refl) as [H3 H4]. split; try done; [congruence|eauto].
Qed.


Lemma store_same db k r : node_by_key db k = Some r → store db k r = db.
Proof. intros Hr. unfold store. rewrite insert_id by done. by destruct db. Qed.

Lemma meet_introducer_spec source db r k (n : NodeRecord) a :
  acceptor_ok db → node_by_key db (this_node db) = Some r → version r < last_version → k ≠ this_node db →
  node_by_key db k = Some n → node_addr_opt n = Some a → ip_addr a = source.1 →
  (k ∉ half_neighbor_keys r → (gossip_target_degree db (this_node db) < MAX_DEGREE)%nat) →
  ∃ db', meet_introducer db k = Ret db' ∧ meets source db db'.
Proof.
  intros Hok Hr Hv Hk Hn Ha Hip Hdeg. unfold meet_introducer.
  destruct (meet_spec db r k n Hok Hr Hv Hk Hn (clock RootRecord)) as [[_ ->]|(Hnk & db1 & signed & sig & -> & H1 & Hs & Hsig)].
  - exists db. split; [done|by left].
  - cbn [expect_ok mbind run_bind]. rewrite H1. eexists. split; [done|]. right.
    exists r, k, n, a, (clock RootRecord), signed, sig. split_and!; try done. by apply Hdeg.
Qed.

Lemma update_database_spec source agrs db introducer introducee r prefs :
  acceptor_ok db → small_version db → preferences_ok prefs → node_by_key db (this_node db) = Some r →
  (size (full_neighbor_keys r db) < MAX_DEGREE)%nat → introduction agrs source db introducer introducee →
  ∃ db1 db' res, update_database db introducer prefs = Ret (db', res) ∧ acceptor_ok db' ∧
    learns source agrs db db1 ∧ meets source db1 db' ∧ ∀ e, res = Err e → db' = db.
Proof.
  intros Hok Hv Hp Hr Hdeg [_ Hin Hkey (a & Ha & Hports & Hip) _ _].
  assert (gossip_target_degree db (this_node db) < MAX_DEGREE)%nat as Hdeg0 by (pose proof (degree_le_full db r Hok Hr); lia).
  unfold update_database. destruct (node_by_key db (key_of introducer)) as [n|] eqn:En.
  - destruct (Z.ltb_spec (version n) (i_version (a_inner introducer))) as [Hlt|].
    2: { exists db, db, (Ok false). split_and!; try done; [apply learns_refl|by left]. }
    set (t := clock (UpdatedRecord (key_of introducer))).
    pose proof (update_ok db (key_of introducer) n introducer t Hok Hkey En) as Hok1.
    pose proof (update_learns source agrs introducer db (key_of introducer) n t Hok Hkey En Hin eq_refl Hlt) as Hl.
    destruct (update_spec n introducer t) as [(Hres & _ & _ & _ & _ & Hset)|[e He]].
    + destruct (update n introducer t) as [n' res] eqn:Eu. simpl in Hres, Hset, Hok1, Hl. subst res.
      set (db1 := store db (key_of introducer) n') in *.
      assert (node_by_key db1 (this_node db) = Some r) as Hr1 by by rewrite (learns_root _ _ _ _ Hl).
      destruct (meet_introducer_spec source db1 r (key_of introducer) n' a) as (db' & -> & Hm); try done.
      { by apply Hv. }
      { unfold db1. rewrite node_by_key_store, decide_True by done. done. }
      { by apply Hset. }
      { intros Hnk. erewrite (degree_agree db db1 r); try done. intros k Hk.
        unfold db1. rewrite node_by_key_store, decide_False; [done|]. by intros ->. }
      exists db1, db', (Ok true). split_and!; try done. by apply (meets_ok source db1).
    + rewrite He. exists db, db, (Err e). rewrite (store_same db _ n En). split_and!; try done; [apply learns_refl|by left].
  - destruct (new_record_spec introducer prefs Hp) as (n & -> & Hf & Hna). cbn [mbind run_bind].
    assert (public_key n = key_of introducer) as Hkn by (unfold public_key; by rewrite (proj1 Hf)).
    destruct (accept_spec source agrs introducer db r n) as (db1 & db2 & db3 & -> & H2 & H3 & Hok3 & Hl & Hm & Ht & Hne); try done.
    { by rewrite Hkn. }
    { exists a. by rewrite Hna. }
    cbn [expect_ok mbind run_bind]. unfold meet_introducer. rewrite <- Hkn, H2. cbn [expect_ok mbind run_bind]. rewrite H3.
    cbn [mbind run_bind]. exists db1, db3, (Ok true). by split_and!.
Qed.

Lemma introduction_handled targets db agrs source md :
  acceptor_ok db → small_version db → preferences_ok (user_exit_preferences_opt md) →
  introduction_qualifies db agrs source = Ret Matched →
  ∃ db' res sent, introduction_handle targets db agrs source md = Ret (targets, db', res, sent) ∧
    good_outcome source agrs db (targets, db', res, sent).
Proof.
  intros Hok Hv Hp Hq. destruct (introduction_total db agrs source Hok) as (q & Hq' & Hm).
  rewrite Hq in Hq'. injection Hq' as <-. destruct (Hm eq_refl) as (introducer & introducee & Hi).
  destruct (acceptor_ok_root db Hok) as (r & Hroot & Hr & Hkey & _). unfold introduction_handle. rewrite Hroot. cbn [mbind run_bind].
  destruct (Nat.leb_spec MAX_DEGREE (size (full_neighbor_keys r db))) as [|Hdeg].
  { eexists _, _, _. split; [done|]. destruct (unchanged source agrs db Hok). by split_and!. }
  rewrite (players_found _ _ _ _ _ Hi). cbn [expect_ok mbind run_bind].
  destruct (introducer_at _ _ _ _ _ Hi) as (a & -> & _). destruct (introducee_at _ _ _ _ _ Hi) as (a' & Ha' & Hports & _).
  rewrite Ha'. cbn [expect mbind run_bind].
  destruct (update_database_spec source agrs db introducer introducee r (user_exit_preferences_opt md))
    as (db1 & db' & res & -> & Hok' & Hl & Hmt & He); try done. cbn [mbind run_bind].
  destruct res as [b|e].
  - destruct (acceptor_ok_root db' Hok') as (r' & Hroot' & Hr' & Hkey' & _).
    unfold make_debut_triple. rewrite Ha', bool_decide_eq_false_2 by done. rewrite Hroot'. cbn [mbind run_bind].
    rewrite Hkey', (builder_says db' _ _ r') by (done || set_solver). cbn [expect mbind run_bind].
    eexists _, _, _. split; [done|]. simpl. eauto.
  - eexists _, _, _. split; [done|]. simpl. split_and!; eauto.
Qed.


(** *** Standard gossip *)

Lemma duplicates_total agrs s d : (∀ agr, agr ∈ agrs → is_Some (a_node_addr_opt agr)) → ∃ d', duplicates agrs s d = Ret d'.
Proof.
  revert s d. induction agrs as [|agr agrs IH]; intros s d Ha; [by eexists|]. simpl. unfold ip_of.
  destruct (Ha agr ltac:(by left)) as [a ->]. cbn [expect mbind run_bind].
  destruct (bool_decide _); apply IH; intros; apply Ha; by right.
Qed.

Lemma find_run_total {A} (f : A → run bool) l : (∀ x, x ∈ l → ∃ b, f x = Ret b) → ∃ o, find_run f l = Ret o.
Proof.
  induction l as [|x l IH]; intros Hf; [by eexists|]. simpl. destruct (Hf x ltac:(by left)) as [b ->]. cbn [mbind run_bind].
  destruct b; [by eexists|]. apply IH. intros; apply Hf; by right.
Qed.

Lemma standard_total db agrs source :
  acceptor_ok db → ∃ q, standard_qualifies db agrs source = Ret q ∧ q ≠ Unmatched ∧
    (q = Matched → ∀ agr, agr ∈ agrs → key_of agr ≠ this_node db).
Proof.
  intros Hok. destruct (acceptor_ok_root db Hok) as (r & Hroot & Hr & Hkey & _). unfold standard_qualifies. rewrite Hroot.
  cbn [mbind run_bind]. set (next_door := List.filter _ agrs).
  assert (∀ agr, agr ∈ next_door → is_Some (a_node_addr_opt agr)) as Hnd.
  { intros agr [_ Ha]%elem_of_list_filter. by destruct (a_node_addr_opt agr). }
  match goal with |- context [if accepts_connections r then ?f else _] =>
    assert (∃ o, (if accepts_connections r then f else Ret None) = Ret o) as [o Ho] end.
  { destruct (accepts_connections r) eqn:Ea; [|by eexists]. apply find_run_total. intros agr Hagr. unfold ip_of.
    destruct (Hnd agr Hagr) as [a ->], (ok_root _ Hok r Hr Ea) as [ra ->]. by eexists. }
  rewrite Ho. cbn [mbind run_bind]. destruct o; [by eexists|].
  destruct (existsb _ agrs) eqn:Ee; [by eexists|].
  destruct (duplicates_total next_door ∅ ∅ Hnd) as (d & ->). cbn [mbind run_bind].
  destruct (bool_decide (d = ∅)) eqn:Ed.
  - exists Matched. split_and!; try done. intros _ agr Hagr He.
    apply not_true_iff_false in Ee. apply Ee, existsb_exists. exists agr. split; [by apply list_elem_of_In|].
    apply bool_decide_eq_true. congruence.
  - apply bool_decide_eq_false in Ed. destruct (ip_order d) as [|ip ips] eqn:Eo; [|by eexists].
    exfalso. apply Ed. apply set_eq. intros ip. rewrite <- elem_of_elements, <- Hip_order, Eo. set_solver.
Qed.

(** Keys that became known, records that were replaced. *)
Definition gained db db' : Prop :=
  (∃ k r', k ≠ this_node db ∧ node_by_key db k = None ∧ node_by_key db' k = Some r') ∨
  (∃ k r r', k ≠ this_node db ∧ node_by_key db k = Some r ∧ node_by_key db' k = Some r' ∧ version r < version r').

Lemma learns_later source agrs db db' k r :
  learns source agrs db db' → k ≠ this_node db → node_by_key db k = Some r →
  ∃ r', node_by_key db' k = Some r' ∧ version r ≤ version r'.
Proof.
  intros Hl Hk Hr. pose proof (learns_other _ _ _ _ Hl k Hk) as H. rewrite Hr in H. simpl in H.
  destruct (node_by_key db' k) as [r'|]; [|done]. exists r'. split; [done|]. destruct H as [->|(? & _ & _ & _ & ? & _)]; lia.
Qed.

Lemma gained_l source agrs db1 db2 db3 : gained db1 db2 → this_node db2 = this_node db1 → learns source agrs db2 db3 → gained db1 db3.
Proof.
  intros [(k & r' & Hk & Hn & Hr')|(k & r & r' & Hk & Hr & Hr' & Hv)] Ht Hl.
  - destruct (learns_later _ _ _ _ k r' Hl) as (r3 & ? & _); [congruence|done|]. left. eauto.
  - destruct (learns_later _ _ _ _ k r' Hl) as (r3 & ? & ?); [congruence|done|]. right. exists k, r, r3. split_and!; try done. lia.
Qed.

Lemma gained_r source agrs db1 db2 db3 : learns source agrs db1 db2 → gained db2 db3 → gained db1 db3.
Proof.
  intros Hl Hg. pose proof (learns_this _ _ _ _ Hl) as Ht.
  destruct Hg as [(k & r' & Hk & Hn & Hr')|(k & r & r' & Hk & Hr & Hr' & Hv)]; rewrite Ht in Hk;
    pose proof (learns_other _ _ _ _ Hl k Hk) as Ho.
  - left. exists k, r'. split_and!; try done. rewrite Hn in Ho. by destruct (node_by_key db1 k).
  - destruct (node_by_key db1 k) as [r1|] eqn:E1; [right|left; eauto].
    destruct (learns_later _ _ _ _ k r1 Hl Hk E1) as (r2 & H2 & ?). rewrite Hr in H2. injection H2 as <-.
    exists k, r1, r'. split_and!; try done. lia.
Qed.

Lemma add_new_nodes_spec source agrs l db prefs :
  acceptor_ok db → preferences_ok prefs → NoDup ((λ agr, key_of agr) <$> agrs) → l ⊆ agrs →
  NoDup ((λ agr, key_of agr) <$> l) → (∀ agr, agr ∈ l → node_by_key db (key_of agr) = None) →
  (∀ agr a, agr ∈ l → a_node_addr_opt agr = Some a → ports a ≠ [] ∧ ip_addr a = source.1) →
  ∃ db', add_new_nodes db l prefs = Ret db' ∧ acceptor_ok db' ∧ learns source agrs db db' ∧
    size (keys db') = (size (keys db) + length l)%nat ∧ (l = [] → db' = db) ∧ (l ≠ [] → gained db db').
Proof.
  intros Hok Hp Hnd. revert db Hok. induction l as [|agr l IH]; intros db Hok Hsub Hndl Hnew Haddr.
  { exists db. split_and!; try done; try apply learns_refl; simpl; lia. }
  cbn [add_new_nodes]. destruct (new_record_spec agr prefs Hp) as (n & -> & Hf & Hna). cbn [mbind run_bind].
  assert (public_key n = key_of agr) as Hkn by (unfold public_key; by rewrite (proj1 Hf)).
  assert (node_by_key db (public_key n) = None) as Hnn by (rewrite Hkn; apply Hnew; by left).
  destruct (add_node_ok db n Hok Hnn) as [-> Hok1].
  { intros a Ha. rewrite Hna in Ha. eapply Haddr; [by left|done]. }
  cbn [expect_ok mbind run_bind]. rewrite fmap_cons in Hndl. apply NoDup_cons in Hndl as [Hnot Hndl].
  assert (learns source agrs db (add_arbitrary_node db n)) as Hl.
  { apply (add_node_learns source agrs agr); try done; [apply Hsub; by left|]. intros a Ha. rewrite Hna in Ha.
    eapply Haddr; [by left|done]. }
  destruct (IH (add_arbitrary_node db n)) as (db' & -> & Hok' & Hl' & Hsize & _ & _); try done.
  { intros x Hx. apply Hsub. by right. }
  { intros agr' Hin. rewrite node_by_key_add, decide_False; [apply Hnew; by right|]. rewrite Hkn. intros He.
    apply Hnot. rewrite <- He. by apply (list_elem_of_fmap_2 (λ agr, key_of agr)). }
  { intros agr' a Hin. apply Haddr. by right. }
  exists db'. split_and!; try done; [by eapply learns_trans| |].
  - rewrite Hsize. unfold keys, add_arbitrary_node. simpl. rewrite dom_insert_L, size_union, size_singleton; [lia|].
    apply disjoint_singleton_l. by apply not_elem_of_dom.
  - intros _. apply (gained_l source agrs db (add_arbitrary_node db n) db'); [|done..]. left. exists (public_key n), n. rewrite node_by_key_add, decide_True by done.
    split_and!; try done. destruct (acceptor_ok_root db Hok) as (r & _ & Hr & _). congruence.
Qed.


Lemma update_nodes_spec source agrs l db b :
  acceptor_ok db → NoDup ((λ agr, key_of agr) <$> agrs) → l ⊆ agrs → (∀ agr, agr ∈ l → key_of agr ≠ this_node db) →
  ∃ db' b', identify_and_update_obsolete_nodes db l b = Ret (db', b') ∧ acceptor_ok db' ∧ learns source agrs db db' ∧
    (b' = false → b = false ∧ db' = db) ∧ (b' = true → b = true ∨ gained db db').
Proof.
  intros Hok Hnd. revert db b Hok. induction l as [|agr l IH]; intros db b Hok Hsub Hkeys.
  { exists db, b. split_and!; try done; [apply learns_refl|by left]. }
  assert (l ⊆ agrs) as Hsub' by (intros x Hx; apply Hsub; by right).
  assert (∀ agr, agr ∈ l → key_of agr ≠ this_node db) as Hkeys' by (intros x Hx; apply Hkeys; by right).
  cbn [identify_and_update_obsolete_nodes]. destruct (node_by_key db (key_of agr)) as [n|] eqn:En; [|by apply IH].
  destruct (Z.ltb_spec (version n) (i_version (a_inner agr))) as [Hlt|]; [|by apply IH].
  unfold update_database_record. rewrite En. cbn [expect mbind run_bind].
  set (t := clock (UpdatedRecord (key_of agr))).
  assert (key_of agr ≠ this_node db) as Hk by (apply Hkeys; by left).
  pose proof (update_ok db (key_of agr) n agr t Hok Hk En) as Hok1.
  pose proof (update_learns source agrs agr db (key_of agr) n t Hok Hk En (Hsub agr ltac:(by left)) eq_refl Hlt) as Hl.
  destruct (update_spec n agr t) as [(Hres & Hf & _)|[e He]].
  - destruct (update n agr t) as [n' res] eqn:Eu. simpl in Hres, Hok1, Hl, Hf. subst res. cbn [mbind run_bind orb].
    destruct (IH (store db (key_of agr) n') true Hok1 Hsub' Hkeys') as (db' & b' & -> & Hok' & Hl' & Hb & _).
    exists db', b'. split_and!; try done; [by eapply learns_trans|intros Hfalse; by destruct (Hb Hfalse)|].
    intros _. right. apply (gained_l source agrs db (store db (key_of agr) n') db'); [|done..]. right.
    exists (key_of agr), n, n'. rewrite node_by_key_store, decide_True by done. split_and!; try done.
    unfold version at 2. by rewrite (proj1 Hf).
  - rewrite He. cbn [mbind run_bind orb]. rewrite (store_same db _ n En). by apply IH.
Qed.

Lemma node_by_ip_spec db ip (n : NodeRecord) :
  acceptor_ok db → node_by_ip db ip = Some n →
  node_by_key db (public_key n) = Some n ∧ ∃ a, node_addr_opt n = Some a ∧ ip_addr a = ip.
Proof.
  intros Hok. unfold node_by_ip. destruct (by_ip_addr db !! ip) as [k|] eqn:Ek; [|done]. intros Hn.
  destruct (ok_consistent _ Hok) as (Hkey & Hip & _). rewrite (Hkey _ _ Hn). split; [done|].
  destruct (Hip _ _ Ek) as (r & a & Hr & Ha & ?). unfold node_by_key in Hn. rewrite Hr in Hn. injection Hn as ->. eauto.
Qed.

Lemma add_src_spec source db :
  acceptor_ok db → small_version db →
  ∃ db' b, add_src_node_as_half_neighbor db source = Ret (db', b) ∧ meets source db db' ∧
    (b = false → db' = db) ∧ (b = true → ∃ r r', node_by_key db (this_node db) = Some r ∧
       node_by_key db' (this_node db) = Some r' ∧ version r < version r').
Proof.
  intros Hok Hv. destruct (acceptor_ok_root db Hok) as (r & Hroot & Hr & Hkey & Hself).
  assert (meets source db db) as Hstay by by left.
  unfold add_src_node_as_half_neighbor. destruct (node_by_ip db source.1) as [n|] eqn:En; [|by exists db, false].
  apply node_by_ip_spec in En as (Hn & a & Ha & Hip); [|done]. rewrite Hroot. cbn [mbind run_bind].
  destruct (Nat.leb_spec MAX_DEGREE (size (full_neighbor_keys r db))) as [|Hdeg]; [by exists db, false|].
  destruct (decide (public_key n = this_node db)) as [He|Hne].
  { exists db, false. split_and!; try done. unfold add_half_neighbor, db_has_half_neighbor, has_half_neighbor.
    rewrite He, bool_decide_eq_true_2 by (unfold keys; apply elem_of_dom; by exists r). rewrite Hr.
    rewrite bool_decide_eq_false_2 by done. simpl. unfold add_half_neighbor_key. by rewrite decide_True. }
  destruct (meet_spec db r (public_key n) n Hok Hr (Hv r Hr) Hne Hn (clock RootRecord))
    as [[_ ->]|(Hnk & db1 & signed & sig & -> & H1 & Hs & Hsig)]; [by exists db, false|].
  rewrite H1. cbn [mbind run_bind]. eexists _, true. split; [done|]. split; [|split; [done|]].
  - right. exists r, (public_key n), n, a, (clock RootRecord), signed, sig. split_and!; try done.
    pose proof (degree_le_full db r Hok Hr). lia.
  - intros _. eexists r, _. rewrite node_by_key_store, decide_True by done. split_and!; try done. simpl. unfold version at 2. simpl. lia.
Qed.

Lemma check_full_neighbor_total db ip : acceptor_ok db → ∃ b, check_full_neighbor db ip = Ret b.
Proof.
  intros Hok. unfold check_full_neighbor. destruct (node_by_ip db ip); [|by eexists].
  destruct (acceptor_ok_root db Hok) as (r & -> & _). by eexists.
Qed.

Lemma gained_differs source db db1 db' : gained db db1 → this_node db1 = this_node db → meets source db1 db' → db' ≠ db.
Proof.
  intros Hg Ht Hm ->. assert (∀ k, k ≠ this_node db → node_by_key db k = node_by_key db1 k) as Hsame.
  { intros k Hk. destruct Hm as [->|(r & k1 & n & a & t & s & sig & _ & _ & _ & _ & _ & _ & _ & _ & _ & E)]; [done|].
    rewrite E, node_by_key_store, decide_False by congruence. done. }
  destruct Hg as [(k & r' & Hk & Hn & Hr')|(k & r & r' & Hk & Hr & Hr' & Hv)].
  - rewrite (Hsame k Hk) in Hn. congruence.
  - rewrite (Hsame k Hk) in Hr. rewrite Hr in Hr'. injection Hr' as ->. lia.
Qed.


Lemma addressed_spec source agr a :
  is_addressed_by source agr = true → a_node_addr_opt agr = Some a → ports a ≠ [] ∧ ip_addr a = source.1.
Proof.
  unfold is_addressed_by. intros H Ha. rewrite Ha in H. apply bool_decide_eq_true in H. unfold socket_addrs in H.
  apply list_elem_of_fmap in H as (p & E & Hp). rewrite E. split; [|done]. intros He. rewrite He in Hp. set_solver.
Qed.

Lemma NoDup_keys_filter (f : AccessibleGossipRecord → bool) agrs :
  NoDup ((λ agr, key_of agr) <$> agrs) → NoDup ((λ agr, key_of agr) <$> List.filter f agrs).
Proof.
  induction agrs as [|agr agrs IH]; [done|]. rewrite fmap_cons. intros [Hn Hnd]%NoDup_cons. simpl.
  destruct (f agr); [|by apply IH]. rewrite fmap_cons. apply NoDup_cons. split; [|by apply IH].
  intros (x & E & [Hx _]%elem_of_list_filter)%list_elem_of_fmap. apply Hn. rewrite E. by apply (list_elem_of_fmap_2 (λ agr, key_of agr)).
Qed.

Lemma standard_handled targets db agrs source md :
  acceptor_ok db → small_version db → preferences_ok (user_exit_preferences_opt md) →
  NoDup ((λ agr, key_of agr) <$> agrs) → standard_qualifies db agrs source = Ret Matched →
  ∃ db' res sent, standard_handle targets db agrs source md = Ret (targets, db', res, sent) ∧
    good_outcome source agrs db (targets, db', res, sent).
Proof.
  intros Hok Hv Hp Hnd Hq. destruct (standard_total db agrs source Hok) as (q & Hq' & _ & Hkeys).
  rewrite Hq in Hq'. injection Hq' as <-. specialize (Hkeys eq_refl).
  destruct (acceptor_ok_root db Hok) as (r & Hroot & Hr & _). unfold standard_handle.
  destruct (check_full_neighbor_total db source.1 Hok) as (b0 & ->). rewrite Hroot. cbn [mbind run_bind].
  set (fagrs := filter_agrs_by_patch agrs _).
  assert (fagrs ⊆ agrs) as Hsub by (by intros x Hx; apply elem_of_list_filter in Hx as [? _]).
  assert (NoDup ((λ agr, key_of agr) <$> fagrs)) as Hndf by by apply NoDup_keys_filter.
  unfold identify_and_add_non_introductory_new_nodes. set (l := List.filter (is_addressed_by source) _).
  destruct (add_new_nodes_spec source agrs l db (user_exit_preferences_opt md))
    as (db1 & -> & Hok1 & Hl1 & Hsize & Hnil & Hgain); try done.
  { intros x [[Hx _]%elem_of_list_filter _]%elem_of_list_filter. by apply Hsub. }
  { by do 2 apply NoDup_keys_filter. }
  { intros agr [[_ Hn]%elem_of_list_filter _]%elem_of_list_filter. apply negb_true_iff, bool_decide_eq_false in Hn.
    by apply not_elem_of_dom. }
  { intros agr a [_ Ha]%elem_of_list_filter. by apply addressed_spec. }
  cbn [mbind run_bind]. pose proof (learns_this _ _ _ _ Hl1) as Ht1.
  destruct (update_nodes_spec source agrs fagrs db1 false) as (db2 & b2 & -> & Hok2 & Hl2 & Hb2 & Hg2); try done.
  { rewrite Ht1. intros agr Hagr. by apply Hkeys, Hsub. }
  cbn [mbind run_bind]. pose proof (learns_trans _ _ _ _ _ Hnd Hl1 Hl2) as Hl. pose proof (learns_this _ _ _ _ Hl) as Ht2.
  pose proof (learns_root _ _ _ _ Hl) as Hr2. rewrite Hr in Hr2.
  assert (small_version db2) as Hv2 by (intros r2; rewrite Ht2, Hr2; intros [= <-]; by apply Hv).
  destruct (add_src_spec source db2 Hok2 Hv2) as (db3 & b3 & -> & Hm & Hb3 & Hg3). cbn [mbind run_bind].
  pose proof (meets_ok source db2 db3 Hok2 Hm) as Hok3.
  destruct (check_full_neighbor_total db3 source.1 Hok3) as (b4 & ->). cbn [mbind run_bind].
  destruct b3.
  { simpl. eexists _, _, _. split; [done|]. simpl. split_and!; [done|eauto|]. intros ->.
    destruct (Hg3 eq_refl) as (r2 & r3 & H2 & H3 & Hlt). rewrite Ht2 in *. rewrite Hr2 in H2. rewrite Hr in H3.
    injection H2 as <-. injection H3 as <-. lia. }
  specialize (Hb3 eq_refl). subst db3. destruct b2.
  { simpl. eexists _, _, _. split; [done|]. simpl. split_and!; [done|eauto|]. destruct (Hg2 eq_refl) as [|Hg]; [done|].
    apply (gained_differs source db db2); [exact (gained_r source agrs db db1 db2 Hl1 Hg)|done|by left]. }
  destruct (Hb2 eq_refl) as [_ ->]. destruct (decide (l = [])) as [El|El].
  - rewrite (Hnil El) in *. rewrite Nat.eqb_refl. simpl. eexists _, _, _. split; [done|]. simpl. split_and!; eauto.
  - assert ((size (keys db1) =? size (keys db))%nat = false) as ->.
    { apply Nat.eqb_neq. rewrite Hsize. destruct l; [done|]. simpl. lia. }
    simpl. eexists _, _, _. split; [done|]. simpl. split_and!; [done|eauto|].
    apply (gained_differs source db db1); [by apply Hgain|done|by left].
Qed.

(** *** The acceptor *)

Lemma debut_total db agrs source : ∃ q, debut_qualifies db agrs source = Ret q.
Proof.
  unfold debut_qualifies. destruct agrs as [|agr [|]]; [by eexists| |by eexists]. simpl.
  destruct (node_by_key db (key_of agr)); by eexists.
Qed.

Lemma pass_total db agrs source : ∃ q, pass_qualifies db agrs source = Ret q.
Proof. unfold pass_qualifies. destruct agrs as [|agr [|]]; by eexists. Qed.

Lemma acceptor_handled targets db agrs source md :
  acceptor_ok db → small_version db → preferences_ok (user_exit_preferences_opt md) → fresh_targets targets →
  NoDup ((λ agr, key_of agr) <$> agrs) →
  ∃ targets' db' res sent, acceptor_handle targets db agrs source md = Ret (targets', db', res, sent) ∧
    good_outcome source agrs db (targets', db', res, sent).
Proof.
  intros Hok Hv Hp Ht Hnd. unfold acceptor_handle, gossip_handlers. cbn [find_handler].
  assert (∀ reason, ∃ targets' db' res sent, Ret (targets, db, Ban reason, []) = Ret (targets', db', res, sent) ∧
    good_outcome source agrs db (targets', db', res, sent)) as Hban.
  { intros reason. eexists _, _, _, _. split; [done|]. destruct (unchanged source agrs db Hok). by split_and!. }
  cbn [qualifies DebutHandler]. destruct (debut_total db agrs source) as (q & Hq). rewrite Hq. cbn [mbind run_bind].
  destruct q as [| |reason]; [| |by apply Hban]; cbn [mbind run_bind].
  { destruct (debut_handled targets db agrs source md) as (db' & res & Hres & Hgood); try done. by exists targets, db', res, []. }
  clear Hq. cbn [qualifies PassHandler]. destruct (pass_total db agrs source) as (q & Hq). rewrite Hq. cbn [mbind run_bind].
  destruct q as [| |reason]; [| |by apply Hban]; cbn [mbind run_bind].
  { destruct (pass_handled targets db agrs source md) as (t' & res & sent & Hres & Hgood); try done. by exists t', db, res, sent. }
  clear Hq. cbn [qualifies IntroductionHandler]. destruct (introduction_total db agrs source Hok) as (q & Hq & _). rewrite Hq.
  cbn [mbind run_bind]. destruct q as [| |reason]; [| |by apply Hban]; cbn [mbind run_bind].
  { destruct (introduction_handled targets db agrs source md) as (db' & res & sent & Hres & Hgood); try done.
    by exists targets, db', res, sent. }
  clear Hq. cbn [qualifies StandardGossipHandler]. destruct (standard_total db agrs source Hok) as (q & Hq & Hun & _). rewrite Hq.
  cbn [mbind run_bind]. destruct q as [| |reason]; [|done|by apply Hban]; cbn [mbind run_bind].
  destruct (standard_handled targets db agrs source md) as (db' & res & sent & Hres & Hgood); try done.
  by exists targets, db', res, sent.
Qed.

(** C10: gossip is handled and can do no harm. Let the database be consistent,
    this node's version not used up, the signatures and the country finder
    working, the priorities of the exit countries one or more, no pass stamped
    later than the clock shows, and no two records of the gossip of one key. Then
    the acceptor does not panic, whoever sent the gossip and whatever it says, and
    the invariant holds again. No record is lost; a new record is one of the
    gossip, and an address comes with it only if it is the address of the sender;
    a known record is only replaced by a later version with the same rates, and
    never loses or changes its address; this node's own record stays, except that
    it may list one more node, which is the one at the sender's address, and then
    gets its next version and a fresh signature, and this only below the maximal
    degree. Gossip that is ignored, refused or called malicious changes nothing,
    and gossip is accepted only if the database has changed. *)
Theorem gossip_does_no_harm (targets : pass_targets) (db : NeighborhoodDatabase) (agrs : list AccessibleGossipRecord)
    (source : SocketAddr) (md : NeighborhoodMetadata) :
  acceptor_ok db → small_version db → preferences_ok (user_exit_preferences_opt md) → fresh_targets targets →
  NoDup ((λ agr, key_of agr) <$> agrs) →
  ∃ targets' db' res sent, acceptor_handle targets db agrs source md = Ret (targets', db', res, sent) ∧
    acceptor_ok db' ∧ (∃ db1, learns source agrs db db1 ∧ meets source db1 db') ∧
    match res with Accepted => db' ≠ db | Reply _ _ _ => True | _ => db' = db end.
Proof. apply acceptor_handled. Qed.


(** *** The patch *)

Section patch.
Context (by_key : gmap PublicKey AccessibleGossipRecord) (root_node : NodeRecord).

(** The neighbors of a node, as this node or the gossip tells. *)
Definition told_neighbors (k : PublicKey) : option (gset PublicKey) :=
  if decide (k = public_key root_node) then Some (half_neighbor_keys root_node)
  else match by_key !! k with Some agr => Some (i_neighbors (a_inner agr)) | None => None end.

Inductive hops_away : nat → PublicKey → Prop :=
| away_root : hops_away 0 (public_key root_node)
| away_step d k ks k' : hops_away d k → told_neighbors k = Some ks → k' ∈ ks → hops_away (S d) k'.

Definition visit (h : nat) (patch : gset PublicKey) (neighbor : PublicKey) : gset PublicKey :=
  if decide (neighbor ∈ patch) then patch else compute_patch_recursive by_key root_node h patch neighbor.

Lemma patch_recursive_S h patch k :
  compute_patch_recursive by_key root_node (S h) patch k =
    match told_neighbors k with
    | None => ({[ k ]} ∪ patch) ∖ {[ k ]}
    | Some ks => foldl (visit h) ({[ k ]} ∪ patch) (order (PatchNeighbors k) ks)
    end.
Proof. reflexivity. Qed.

Lemma patch_sound h d patch k k' :
  hops_away d k → k' ∈ compute_patch_recursive by_key root_node h patch k →
  k' ∈ patch ∨ ∃ d', (d' ≤ d + h)%nat ∧ hops_away d' k'.
Proof using Horder.
  clear Hto_vec Hsign Hip_order Hfinder to_vec sign ip_order finder clock pass_checked pass_stamped.
  revert d patch k k'. induction h as [|h IH]; intros d patch k k' Hd.
  { simpl. intros [->%elem_of_singleton|?]%elem_of_union; [|by left]. right. exists d. split; [lia|done]. }
  rewrite patch_recursive_S. destruct (told_neighbors k) as [ks|] eqn:Ek; [|set_solver].
  assert (∀ l p, (∀ x, x ∈ l → x ∈ ks) → (∀ x, x ∈ p → x ∈ patch ∨ ∃ d', (d' ≤ d + S h)%nat ∧ hops_away d' x) →
    ∀ x, x ∈ foldl (visit h) p l → x ∈ patch ∨ ∃ d', (d' ≤ d + S h)%nat ∧ hops_away d' x) as Hfold.
  { induction l as [|y l IHl]; intros p Hl Hp; [done|]. simpl. apply IHl; [intros; apply Hl; by right|].
    intros x. unfold visit. destruct (decide (y ∈ p)); [apply Hp|]. intros Hx.
    apply (IH (S d)) in Hx as [Hx|(d' & ? & ?)]; [by apply Hp| |].
    - right. exists d'. split; [lia|done].
    - apply (away_step d k ks); [done..|]. apply Hl. by left. }
  apply Hfold.
  - intros x. by rewrite Horder, elem_of_elements.
  - intros x [->%elem_of_singleton|?]%elem_of_union; [|by left]. right. exists d. split; [lia|done].
Qed.

(** A key whose neighbors are told stays in the patch, and is put there when it
    is visited. *)
Lemma patch_keeps h patch k k' :
  is_Some (told_neighbors k') → k' ∈ patch ∨ k' = k → k' ∈ compute_patch_recursive by_key root_node h patch k.
Proof using Type.
  clear Hto_vec Hsign Hip_order Hfinder Horder to_vec sign ip_order finder clock pass_checked pass_stamped.
  intros Hk'. revert patch k. induction h as [|h IH]; intros patch k Hk; [simpl; set_solver|].
  rewrite patch_recursive_S. destruct (told_neighbors k) as [ks|] eqn:Ek.
  - assert (∀ l p, k' ∈ p → k' ∈ foldl (visit h) p l) as Hfold.
    { induction l as [|y l IHl]; intros p Hp; [done|]. simpl. apply IHl. unfold visit. destruct (decide (y ∈ p)); [done|].
      apply IH. by left. }
    apply Hfold. set_solver.
  - destruct Hk' as [x Hx]. assert (k' ≠ k) by congruence. set_solver.
Qed.

Lemma patch_neighbors h patch k ks k' :
  told_neighbors k = Some ks → k' ∈ ks → is_Some (told_neighbors k') →
  k' ∈ compute_patch_recursive by_key root_node (S h) patch k.
Proof using Horder.
  clear Hto_vec Hsign Hip_order Hfinder to_vec sign ip_order finder clock pass_checked pass_stamped.
  intros Hk Hin Hk'. rewrite patch_recursive_S, Hk.
  assert (k' ∈ order (PatchNeighbors k) ks) as Ho by by rewrite Horder, elem_of_elements.
  revert Ho. generalize (order (PatchNeighbors k) ks), ({[ k ]} ∪ patch). intros l.
  assert (∀ l p, k' ∈ p → k' ∈ foldl (visit h) p l) as Hfold.
  { induction l0 as [|y l0 IHl]; intros p Hp; [done|]. simpl. apply IHl. unfold visit. destruct (decide (y ∈ p)); [done|].
    apply patch_keeps; [done|]. by left. }
  induction l as [|y l IH]; intros p; [set_solver|]. simpl. intros [->|Hl]%elem_of_cons; [|by apply IH].
  apply Hfold. unfold visit. destruct (decide (y ∈ p)); [done|]. apply patch_keeps; [done|]. by right.
Qed.
End patch.

Lemma agrs_by_key_Some agrs k : is_Some (agrs_by_key agrs !! k) ↔ ∃ agr, agr ∈ agrs ∧ key_of agr = k.
Proof.
  unfold agrs_by_key. rewrite <- elem_of_dom, dom_list_to_map, elem_of_list_to_set, fmap_reverse, elem_of_reverse, <- list_fmap_compose.
  rewrite list_elem_of_fmap. simpl. naive_solver.
Qed.

(** C37: standard gossip is taken in from the nearby part of the network only. Of
    the records that come in only such survive the filter whose node can be
    reached from this node over at most [patch_size] hops, going along the
    neighbors this node has and the neighbors the gossip tells; and every record
    of a node that this node lists itself does survive. This holds for each order
    in which neighbors are visited. (Not every record within that distance
    survives: the search goes to a depth and marks what it has seen, and
    [patch_misses_near_node] is one that it misses.) *)
Theorem patch_is_near agrs root_node patch_size :
  let kept := filter_agrs_by_patch agrs (compute_patch agrs root_node (S patch_size)) in
  kept ⊆ agrs ∧
  (∀ agr, agr ∈ kept → ∃ d, (d ≤ S patch_size)%nat ∧ hops_away (agrs_by_key agrs) root_node d (key_of agr)) ∧
  (∀ agr, agr ∈ agrs → key_of agr ∈ half_neighbor_keys root_node → agr ∈ kept).
Proof using Horder.
  clear Hto_vec Hsign Hip_order Hfinder to_vec sign ip_order finder clock pass_checked pass_stamped.
  intros kept. unfold kept, filter_agrs_by_patch, compute_patch. split_and!.
  - intros agr Ha. apply elem_of_list_filter in Ha. apply Ha.
  - intros agr [_ Ha%bool_decide_eq_true]%elem_of_list_filter.
    destruct (patch_sound _ _ _ 0 _ _ _ (away_root _ _) Ha) as [?|(d & ? & ?)]; [set_solver|]. exists d. split; [lia|done].
  - intros agr Ha Hn. apply elem_of_list_filter. split; [done|]. apply bool_decide_eq_true.
    apply (patch_neighbors _ _ _ _ _ (half_neighbor_keys root_node)); [by unfold told_neighbors; rewrite decide_True|done|].
    unfold told_neighbors. destruct (decide _); [by eexists|].
    destruct (proj2 (agrs_by_key_Some agrs (key_of agr))) as [x ->]; [by exists agr|]. by eexists.
Qed.


End acceptor.
(** ** Pass gossip over time *)

(** A run that returned was not stopped by any of its parts. *)
Ltac inv_run H :=
  repeat match type of H with
  | context [mbind _ ?m] => let E := fresh "E" in destruct m eqn:E; cbn [mbind run_bind] in H; [|discriminate H]
  | context [match ?x with _ => _ end] => destruct x; cbn [mbind run_bind] in H; try discriminate H
  end.

Section history.
Context {Wallet : Type} `{!EqDecision Wallet}.
Context (to_vec : NodeRecordInner (Wallet := Wallet) → option (list Z)) (sign : list Z → option (list Z)).
Context (finder : Finder.CountryCodeFinder) (ip_order : gset IpAddr → list IpAddr).

(** Gossip as the acceptor meets it: with the database of that moment, the order
    of iteration and the readings of the clocks, and with what it answers. *)
Record gossip_event := MkEvent {
  ev_db : NeighborhoodDatabase (Wallet := Wallet);
  ev_agrs : list (AccessibleGossipRecord (Wallet := Wallet));
  ev_source : SocketAddr;
  ev_metadata : NeighborhoodMetadata;
  ev_order : key_loop → gset PublicKey → list PublicKey;
  ev_clock : stamp → Z;
  ev_checked : Z;
  ev_stamped : Z;
  ev_db' : NeighborhoodDatabase (Wallet := Wallet);
  ev_result : GossipAcceptanceResult;
  ev_sent : list ConnectionProgressMessage
}.

(** Events follow one another: only the targets of passes are handed on; the
    database may have been changed by others in between.  The clock does not run
    backwards. *)
Inductive gossip_history : pass_targets → Z → list gossip_event → Prop :=
| history_end targets now : gossip_history targets now []
| history_step targets now e targets' es :
    now ≤ ev_checked e ≤ ev_stamped e →
    acceptor_handle to_vec sign finder (ev_order e) ip_order (ev_clock e) (ev_checked e) (ev_stamped e)
      targets (ev_db e) (ev_agrs e) (ev_source e) (ev_metadata e) = Ret (targets', ev_db' e, ev_result e, ev_sent e) →
    gossip_history targets' (ev_stamped e) es →
    gossip_history targets now (e :: es).

(** The node was told to turn to the target [ip], and does. *)
Definition follows_pass (e : gossip_event) (ip : IpAddr) : Prop :=
  ∃ peer, MkProgressMessage peer (EvPassGossipReceived ip) ∈ ev_sent e.

Definition no_pass (sent : list ConnectionProgressMessage) : Prop :=
  ∀ peer ip, MkProgressMessage peer (EvPassGossipReceived ip) ∉ sent.

Ltac no_pass :=
  intros ? ? Hin; repeat apply elem_of_cons in Hin as [Hin|Hin]; try discriminate Hin; by apply elem_of_nil in Hin.

Lemma debut_targets order clock targets db agrs source md t' db' res sent :
  debut_handle (Wallet := Wallet) to_vec sign finder order clock targets db agrs source md = Ret (t', db', res, sent) →
  t' = targets ∧ no_pass sent.
Proof. unfold debut_handle. intros H. inv_run H; injection H as <- _ _ <-; (split; [done|no_pass]). Qed.

Lemma introduction_targets clock targets db agrs source md t' db' res sent :
  introduction_handle (Wallet := Wallet) to_vec sign finder clock targets db agrs source md = Ret (t', db', res, sent) →
  t' = targets ∧ no_pass sent.
Proof. unfold introduction_handle. intros H. inv_run H; injection H as <- _ _ <-; (split; [done|no_pass]). Qed.

Lemma standard_targets order clock targets db agrs source md t' db' res sent :
  standard_handle (Wallet := Wallet) to_vec sign finder order clock targets db agrs source md = Ret (t', db', res, sent) →
  t' = targets ∧ no_pass sent.
Proof. unfold standard_handle. intros H. inv_run H; injection H as <- _ _ <-; (split; [done|no_pass]). Qed.

(** What handling gossip does to the targets of passes. *)
Definition targets_step (targets t' : pass_targets) (checked stamped : Z) (sent : list ConnectionProgressMessage) : Prop :=
  (∀ ip t, t' !! ip = Some t → targets !! ip = Some t ∨ t = stamped) ∧
  (∀ ip t, targets !! ip = Some t → t' !! ip = Some t ∨ t' !! ip = Some stamped) ∧
  (∀ peer ip, MkProgressMessage peer (EvPassGossipReceived ip) ∈ sent →
     t' !! ip = Some stamped ∧ ∀ t, targets !! ip = Some t → t + PASS_GOSSIP_EXPIRED_TIME < checked).

Lemma targets_kept targets checked stamped sent : no_pass sent → targets_step targets targets checked stamped sent.
Proof. intros Hn. split; [by left|]. split; [by left|]. intros peer ip Hin. by destruct (Hn peer ip). Qed.

Lemma targets_stamped (targets : pass_targets) ip stamped :
  (∀ ip' t, <[ip := stamped]> targets !! ip' = Some t → targets !! ip' = Some t ∨ t = stamped) ∧
  (∀ ip' t, targets !! ip' = Some t → <[ip := stamped]> targets !! ip' = Some t ∨ <[ip := stamped]> targets !! ip' = Some stamped).
Proof.
  split; intros ip' t Ht.
  - apply lookup_insert_Some in Ht as [[_ <-]|[_ Ht]]; [by right|by left].
  - destruct (decide (ip' = ip)) as [->|]; [right; by rewrite lookup_insert_eq|left; by rewrite lookup_insert_ne].
Qed.

Lemma pass_targets_step checked stamped targets db agrs source md t' db' res sent :
  pass_handle (Wallet := Wallet) checked stamped targets db agrs source md = Ret (t', db', res, sent) →
  targets_step targets t' checked stamped sent.
Proof.
  unfold pass_handle. intros H. destruct (get agrs 0) as [agr|]; [|done]. cbn [mbind run_bind] in H.
  destruct (expect (a_node_addr_opt agr)) as [a|]; [|done]. cbn [mbind run_bind] in H.
  destruct (targets !! ip_addr a) as [t|] eqn:Et.
  - destruct (checked <? t); [done|]. unfold panic_if in H. cbv zeta in H.
    destruct (Z.leb_spec (checked - t) PASS_GOSSIP_EXPIRED_TIME) as [|Hlate].
    + injection H as <- _ _ <-. split; [apply targets_stamped|]. split; [apply targets_stamped|]. intros peer ip Hin. exfalso. revert peer ip Hin. no_pass.
    + destruct (pass_reply _ _ _); [|done]. injection H as <- _ _ <-. split; [apply targets_stamped|]. split; [apply targets_stamped|].
      intros peer ip [= -> ->]%list_elem_of_singleton. rewrite lookup_insert_eq. split; [done|].
      intros t0 Ht0. rewrite Et in Ht0. injection Ht0 as <-. lia.
  - destruct (bool_decide _).
    + injection H as <- _ _ <-. apply targets_kept. no_pass.
    + destruct (pass_reply _ _ _); [|done]. injection H as <- _ _ <-. split; [apply targets_stamped|]. split; [apply targets_stamped|].
      intros peer ip [= -> ->]%list_elem_of_singleton. rewrite lookup_insert_eq. split; [done|].
      intros t0 Ht0. by rewrite Et in Ht0.
Qed.

Lemma acceptor_targets_step order clock checked stamped targets db agrs source md t' db' res sent :
  acceptor_handle (Wallet := Wallet) to_vec sign finder order ip_order clock checked stamped targets db agrs source md
    = Ret (t', db', res, sent) →
  targets_step targets t' checked stamped sent.
Proof.
  unfold acceptor_handle, gossip_handlers. cbn [find_handler]. intros H.
  assert (∀ reason, Ret (targets, db, Ban reason, []) = Ret (t', db', res, sent) → targets_step targets t' checked stamped sent) as Hban.
  { intros reason [= <- _ _ <-]. apply targets_kept. no_pass. }
  cbn [qualifies DebutHandler] in H. destruct (debut_qualifies db agrs source) as [[| |reason]|]; [| | |done]; cbn [mbind run_bind] in H;
    [| |by eapply Hban].
  { apply debut_targets in H as [-> Hn]. by apply targets_kept. }
  cbn [qualifies PassHandler] in H. destruct (pass_qualifies db agrs source) as [[| |reason]|]; [| | |done]; cbn [mbind run_bind] in H;
    [| |by eapply Hban].
  { exact (pass_targets_step _ _ _ _ _ _ _ _ _ _ _ H). }
  cbn [qualifies IntroductionHandler] in H. destruct (introduction_qualifies db agrs source) as [[| |reason]|]; [| | |done];
    cbn [mbind run_bind] in H; [| |by eapply Hban].
  { apply introduction_targets in H as [-> Hn]. by apply targets_kept. }
  cbn [qualifies StandardGossipHandler] in H. destruct (standard_qualifies ip_order db agrs source) as [[| |reason]|]; [| | |done];
    cbn [mbind run_bind] in H; [| |by eapply Hban].
  { apply standard_targets in H as [-> Hn]. by apply targets_kept. }
  simpl in H. by eapply Hban.
Qed.

Lemma known_target_waits targets now es ip t j e :
  gossip_history targets now es → targets !! ip = Some t → t ≤ now → es !! j = Some e → follows_pass e ip →
  t + PASS_GOSSIP_EXPIRED_TIME < ev_checked e.
Proof.
  intros Hh. revert t j. induction Hh as [|targets now e1 targets' es Hnow Hrun Hh IH]; intros t j Ht Htn Hj [peer Hf]; [done|].
  apply acceptor_targets_step in Hrun as (_ & Hkeep & Hpass). destruct j as [|j]; simpl in Hj.
  { injection Hj as ->. by apply (Hpass peer ip). }
  destruct (Hkeep ip t Ht) as [H|H].
  - apply (IH t j); [done|lia|done|by exists peer].
  - assert (ev_stamped e1 + PASS_GOSSIP_EXPIRED_TIME < ev_checked e); [|lia]. apply (IH _ j); [done|lia|done|by exists peer].
Qed.

(** C36: passes do not go in circles. Whatever gossip comes in, in whatever state
    the rest of the node is at that time, and whatever targets are already known,
    as long as the clock does not run backwards: between two occasions on which
    this node follows a pass to one and the same address there are more than sixty
    seconds. *)
Theorem passes_do_not_loop (targets : pass_targets) (now : Z) (es : list gossip_event) (ip : IpAddr) (i j : nat)
    (e1 e2 : gossip_event) :
  gossip_history targets now es → es !! i = Some e1 → es !! j = Some e2 → (i < j)%nat →
  follows_pass e1 ip → follows_pass e2 ip →
  ev_stamped e1 + PASS_GOSSIP_EXPIRED_TIME < ev_checked e2.
Proof.
  intros Hh. revert i j. induction Hh as [|targets now e targets' es Hnow Hrun Hh IH]; intros i j Hi Hj Hij [peer Hf1] Hf2; [done|].
  destruct j as [|j]; [lia|]. destruct i as [|i]; simpl in Hi, Hj.
  - injection Hi as ->. apply acceptor_targets_step in Hrun as (_ & _ & Hpass). destruct (Hpass peer ip Hf1) as [Hset _].
    by apply (known_target_waits targets' (ev_stamped e1) es ip _ j).
  - apply (IH i j); [done..|lia|by exists peer|done].
Qed.

End history.


(** ** Concrete gossip *)

(** A database of one node that lists nobody. *)
Lemma acceptor_ok_new {Wallet : Type} (r : NodeRecord (Wallet := Wallet)) :
  half_neighbor_keys r = ∅ → (accepts_connections r = true → is_Some (node_addr_opt r)) →
  acceptor_ok (add_arbitrary_node (MkDb (public_key r) ∅ ∅) r).
Proof.
  intros Hh Ha. split; [by apply consistent_new|..]; cbn [this_node add_arbitrary_node];
    setoid_rewrite node_by_key_add; rewrite decide_True by done; intros r0.
  - intros k [= <-]. rewrite Hh. set_solver.
  - by intros [= <-].
Qed.

Definition lone : NeighborhoodDatabase (Wallet := nat) := add_arbitrary_node (MkDb (demo_key 1) ∅ ∅) (demo_record 1 []).

Definition demo_agr (n : Z) (ns : list Z) (addr : option NodeAddr) : AccessibleGossipRecord (Wallet := nat) :=
  MkAgr [n] [n] addr (demo_inner n ns).

Definition demo_addr (n : Z) : NodeAddr := MkNodeAddr (IpV4 n) [5000].
Definition demo_metadata : NeighborhoodMetadata := MkNeighborhoodMetadata [] 3 None.

(** Keys in the order of a [BTreeSet]; one byte is enough here. *)
Definition first_byte_le (a b : PublicKey) : Prop := default 0 (head a) ≤ default 0 (head b).
Global Instance first_byte_le_dec : RelDecision first_byte_le.
Proof. intros a b. apply Z_le_dec. Defined.
Definition byte_order (_ : key_loop) (s : gset PublicKey) : list PublicKey := merge_sort first_byte_le (elements s).

Definition demo_accept (targets : pass_targets) (checked stamped : Z) (db : NeighborhoodDatabase (Wallet := nat))
    (agrs : list (AccessibleGossipRecord (Wallet := nat))) (source : Z) : run (outcome (Wallet := nat)) :=
  acceptor_handle (λ _, Some []) Some demo_finder byte_order elements (λ _, 7) checked stamped targets db agrs
    (IpV4 source, 5000) demo_metadata.

Lemma byte_order_permutes l s : byte_order l s ≡ₚ elements s.
Proof. apply merge_sort_Permutation. Qed.

Lemma lone_ok : acceptor_ok lone.
Proof. apply (acceptor_ok_new (demo_record 1 [])); [reflexivity|]. intros _. by eexists. Qed.

Lemma demo_finder_total ip : ∃ o, Finder.find_country demo_finder ip = Ret o.
Proof. destruct ip; by eexists. Qed.


(** A node that already knows somebody debuts and becomes a neighbor. *)
Lemma gossip_does_no_harm_witness :
  ∃ targets' db' sent, demo_accept ∅ 0 0 lone [demo_agr 2 [5] (Some (demo_addr 2))] 2 = Ret (targets', db', Accepted, sent) ∧
    acceptor_ok db' ∧ db' ≠ lone.
Proof.
  destruct (gossip_does_no_harm (λ _, Some []) Some demo_finder byte_order elements (λ _, 7) 0 0
    ltac:(by eexists) ltac:(by eexists) demo_finder_total byte_order_permutes ltac:(reflexivity)
    ∅ lone [demo_agr 2 [5] (Some (demo_addr 2))] (IpV4 2, 5000) demo_metadata lone_ok)
    as (targets' & db' & res & sent & Hrun & Hok & _ & Hres).
  - intros r Hr. vm_compute in Hr. injection Hr as <-. vm_compute. reflexivity.
  - intros p' Hp. discriminate Hp.
  - intros ip t Ht. exfalso. revert Ht. rewrite lookup_empty. discriminate.
  - apply NoDup_singleton.
  - assert (res = Accepted) as ->; [vm_compute in Hrun; congruence|].
    exists targets', db', sent. split; [exact Hrun|]. split; [exact Hok|exact Hres].
Defined.

(** Node 4 lies three hops away and does not survive a patch of two hops. *)
Definition patch_agrs : list (AccessibleGossipRecord (Wallet := nat)) :=
  [demo_agr 2 [1; 3] None; demo_agr 3 [2; 4] None; demo_agr 4 [3] None].

Lemma patch_is_near_witness :
  filter_agrs_by_patch patch_agrs (compute_patch byte_order patch_agrs (demo_record 1 [2]) 2) =
    [demo_agr 2 [1; 3] None; demo_agr 3 [2; 4] None] ∧
  ∃ d, (d ≤ 2)%nat ∧ hops_away (agrs_by_key patch_agrs) (demo_record 1 [2]) d (demo_key 3).
Proof.
  destruct (patch_is_near byte_order byte_order_permutes patch_agrs (demo_record 1 [2]) 1) as (_ & H & _).
  split; [vm_compute; reflexivity|]. apply (H (demo_agr 3 [2; 4] None)).
  assert (filter_agrs_by_patch patch_agrs (compute_patch byte_order patch_agrs (demo_record 1 [2]) 2) =
    [demo_agr 2 [1; 3] None; demo_agr 3 [2; 4] None]) as -> by (vm_compute; reflexivity). set_solver.
Defined.

(** The search for the patch goes to a depth and marks what it has seen.  Node 3
    is a neighbor of this node, but it is first reached over node 2, with no hop
    left; so node 4, two hops away, is missing from a patch of two hops. *)
Example patch_misses_near_node :
  let agrs := [demo_agr 2 [1; 3] None; demo_agr 3 [1; 2; 4] None; demo_agr 4 [3] None] in
  let me := demo_record 1 [2; 3] in
  hops_away (agrs_by_key agrs) me 2 (demo_key 4) ∧
  bool_decide (demo_key 4 ∈ compute_patch byte_order agrs me 2) = false.
Proof.
  split; [|vm_compute; reflexivity].
  apply (away_step _ _ 1 (demo_key 3) (list_to_set (demo_key <$> [1; 2; 4]))); [|reflexivity|set_solver].
  apply (away_step _ _ 0 (demo_key 1) (list_to_set (demo_key <$> [2; 3]))); [apply away_root|reflexivity|set_solver].
Qed.

(** A neighbor that sends the record of an unknown node twice stops the node. *)
Definition two : NeighborhoodDatabase (Wallet := nat) :=
  add_arbitrary_node (add_arbitrary_node (MkDb (demo_key 1) ∅ ∅) (demo_record 1 [2])) (demo_record 2 [1]).

Example repeated_record_panics :
  demo_accept ∅ 0 0 two [demo_agr 2 [1; 3] (Some (demo_addr 2)); demo_agr 3 [2] None; demo_agr 3 [2] None] 2 = Panic.
Proof. vm_compute. reflexivity. Qed.

(** Node 2 passes this node to node 9 twice, seventy seconds apart. *)
Definition pass_event (t : Z) : gossip_event (Wallet := nat) :=
  MkEvent lone [demo_agr 9 [] (Some (demo_addr 9))] (IpV4 2, 5000) demo_metadata byte_order (λ _, 7) t t lone
    (Reply [says (demo_record 1 [])] (demo_key 9) (demo_addr 9))
    [MkProgressMessage (IpV4 2) (EvPassGossipReceived (IpV4 9))].

Lemma passes_do_not_loop_witness :
  gossip_history (λ _, Some []) Some demo_finder elements ∅ 0 [pass_event 0; pass_event (70 * 10 ^ 9)] ∧
  0 + PASS_GOSSIP_EXPIRED_TIME < 70 * 10 ^ 9.
Proof.
  assert (gossip_history (λ _, Some []) Some demo_finder elements ∅ 0 [pass_event 0; pass_event (70 * 10 ^ 9)]) as Hh.
  { apply (history_step _ _ _ _ _ _ _ {[ IpV4 9 := 0 ]}); [split; reflexivity|vm_compute; reflexivity|].
    apply (history_step _ _ _ _ _ _ _ {[ IpV4 9 := 70 * 10 ^ 9 ]}); [split; discriminate|vm_compute; reflexivity|].
    apply history_end. }
  split; [exact Hh|].
  apply (passes_do_not_loop (λ _, Some []) Some demo_finder elements ∅ 0 [pass_event 0; pass_event (70 * 10 ^ 9)] (IpV4 9) 0 1
    (pass_event 0) (pass_event (70 * 10 ^ 9)) Hh eq_refl eq_refl); [apply Nat.lt_succ_diag_r|..]; exists (IpV4 2); apply list_elem_of_here.
Defined.


End GossipAcceptor.
