(* ===== verification/Cryptde.v ===== *)
(** * Encryption interface, and the null implementation

    Models the parts of [node/src/sub_lib/cryptde.rs] the routing of packages
    relies on ([encodex], [decodex], the [CryptDE] trait) and
    [node/src/sub_lib/cryptde_null.rs] whole.  What a key pair promises is the
    class [KeyPairs]: data encrypted for a public key is read back by the holder
    of the private key.  [CryptDENull] is proved to keep the promise; the real
    implementation calls libsodium.  Serialization (CBOR) is the class [Codec].

    Encryption is a function of the data and the key; nothing below uses more
    than the promise of [KeyPairs], so randomised encryption fits as well. *)
From S2P Require Import Prelude.
From S2P Require Import NeighborhoodDatabase.
From stdpp Require Import base list.

Module Cryptde.
Local Open Scope Z_scope.
Abbreviation PublicKey := Neighborhood.PublicKey.

Definition CryptData : Type := list Z.
Definition PlainData : Type := list Z.

Inductive CryptdecError :=
| EmptyKey
| EmptyData
| InvalidKey
| InvalidSignature
| OpeningFailed
| OtherError.

Inductive RouteError :=
| HopDecodeProblem
| EmptyRoute
| TooFewKeysInRouteSegment
| DisjointRouteSegments.

Inductive CodexError :=
| SerializationError
| DeserializationError
| EncryptionError (e : CryptdecError)
| DecryptionError (e : CryptdecError)
| RoutingError (e : RouteError).

Global Instance CryptdecError_eq_dec : EqDecision CryptdecError.
Proof. solve_decision. Defined.
Global Instance RouteError_eq_dec : EqDecision RouteError.
Proof. solve_decision. Defined.
Global Instance CodexError_eq_dec : EqDecision CodexError.
Proof. solve_decision. Defined.

(** The methods of the trait that packages use.  A [CryptDE] belongs to one key
    pair; decoding may panic. *)
Record CryptDE := MkCryptDE {
  encode : PublicKey → PlainData → result CryptdecError CryptData;
  decode : CryptData → run (result CryptdecError PlainData);
  random : nat → list Z;
  cd_public_key : PublicKey;
  digest : list Z
}.

(** [serde_cbor::ser::to_vec] and [serde_cbor::de::from_slice]. *)
Class Codec (T : Type) := {
  to_vec : T → option (list Z);
  from_slice : list Z → option T
}.

(** What the source relies on of a serialization: every item is written, as at
    least one byte, and what is written is read back. *)
Class CodecOk (T : Type) `{Codec T} : Prop :=
  from_to_vec : ∀ t : T, ∃ bytes, to_vec t = Some bytes ∧ bytes ≠ [] ∧ from_slice bytes = Some t.

Definition encodex {T} `{Codec T} (cryptde : CryptDE) (public_key : PublicKey) (item : T)
    : result CodexError CryptData :=
  match to_vec item with
  | None => Err SerializationError
  | Some serialized =>
      match encode cryptde public_key serialized with
      | Ok c => Ok c
      | Err e => Err (EncryptionError e)
      end
  end.

Definition decodex {T} `{Codec T} (cryptde : CryptDE) (data : CryptData) : run (result CodexError T) :=
  d ← decode cryptde data;
  Ret (match d with
       | Err e => Err (DecryptionError e)
       | Ok decrypted =>
           match from_slice decrypted with
           | Some t => Ok t
           | None => Err DeserializationError
           end
       end).

(** ** The promise *)

(** The [CryptDE]s of a network, each the holder of its public key: whatever any
    of them encrypts for a key, the holder of the key decrypts, and data that is
    not empty can be encrypted for each of them. *)
Class KeyPairs (member : CryptDE → Prop) : Prop := {
  decode_encode : ∀ c c' data e, member c → member c' →
    encode c (cd_public_key c') data = Ok e → decode c' e = Ret (Ok data);
  encode_total : ∀ c c' data, member c → member c' → data ≠ [] →
    ∃ e, encode c (cd_public_key c') data = Ok e
}.

(** An item encrypted for a member is read by that member. *)
Lemma decodex_encodex {T} `{CodecOk T} (member : CryptDE → Prop) `{!KeyPairs member} c c' (item : T) :
  member c → member c' →
  ∃ e, encodex c (cd_public_key c') item = Ok e ∧ decodex c' e = Ret (Ok item).
Proof.
  intros Hc Hc'. destruct (from_to_vec item) as (bytes & Hto & Hne & Hfrom).
  destruct (encode_total c c' bytes Hc Hc' Hne) as [e He]. exists e.
  unfold encodex, decodex. rewrite Hto, He. split; [done|].
  rewrite (decode_encode c c' bytes e Hc Hc' He). cbn [mbind run_bind]. by rewrite Hfrom.
Qed.

(** ** [CryptDENull] *)

Module Null.

Record CryptDENull := MkNull {
  private_key : list Z;
  public_key : list Z;
  null_digest : list Z;
  next_symmetric_key_seed : Z
}.

Definition other_key_data (in_key_data : list Z) : list Z := (λ b, u8 (b + 128)) <$> in_key_data.

Definition encode_with_key_data (key_data : list Z) (data : PlainData) : result CryptdecError CryptData :=
  if bool_decide (key_data = []) then Err EmptyKey
  else if bool_decide (data = []) then Err EmptyData
  else Ok (key_data ++ data).

(** [split_at]: past the end it panics. *)
Definition key_and_data (key_len : nat) (data : CryptData) : run (list Z * list Z) := split_off data key_len.

Definition decode_with_key_data (key_data : list Z) (data : CryptData) : run (result CryptdecError PlainData) :=
  if bool_decide (key_data = []) then Ret (Err EmptyKey)
  else if bool_decide (data = []) then Ret (Err EmptyData)
  else if (length data <? length key_data)%nat then Ret (Err InvalidKey)
  else '(k, d) ← key_and_data (length key_data) data;
       if bool_decide (k = key_data) then Ret (Ok d) else Panic.

Definition null_encode (key : list Z) (data : PlainData) : result CryptdecError CryptData :=
  encode_with_key_data (other_key_data key) data.
Definition null_decode (self : CryptDENull) (data : CryptData) : run (result CryptdecError PlainData) :=
  decode_with_key_data (private_key self) data.
Definition encode_sym (key : list Z) (data : PlainData) : result CryptdecError CryptData :=
  encode_with_key_data key data.
Definition decode_sym (key : list Z) (data : CryptData) : run (result CryptdecError PlainData) :=
  decode_with_key_data key data.

(** The seed, least significant byte first, and the next seed. *)
Fixpoint seed_bytes (n : nat) (seed : Z) : list Z :=
  match n with
  | O => []
  | S n => Z.land seed 0xFF :: seed_bytes n (Z.shiftr seed 8)
  end.
Definition gen_key_sym (self : CryptDENull) : CryptDENull * list Z :=
  (MkNull (private_key self) (public_key self) (null_digest self) (u64 (next_symmetric_key_seed self + 1)),
   seed_bytes 8 (next_symmetric_key_seed self)).

Definition null_random (n : nat) : list Z := replicate n 52.

Definition private_from_public (in_key : list Z) : list Z := other_key_data in_key.
Definition public_from_private (in_key : list Z) : list Z := other_key_data in_key.

(** Digests (Keccak, over key and contract address) and SHA-1 are libraries. *)
Section digests.
Context (create_digest : list Z → list Z) (hash : PlainData → CryptData).

Definition null_new (private : list Z) : CryptDENull :=
  let public_key := public_from_private private in
  MkNull private public_key (create_digest public_key) 0x0123456789ABCDEF.

Definition set_key_pair (self : CryptDENull) (key : list Z) : CryptDENull :=
  MkNull (private_from_public key) key (create_digest key) (next_symmetric_key_seed self).

(** [CryptDENull::from], for a random private key that is replaced at once. *)
Definition null_from (random_private key : list Z) : CryptDENull :=
  set_key_pair (null_new random_private) key.

Definition sign (self : CryptDENull) (data : PlainData) : result CryptdecError CryptData :=
  encode_with_key_data (other_key_data (private_key self)) (hash data).

Definition verify_signature (data : PlainData) (signature : CryptData) (key : list Z) : run bool :=
  '(private_key_bytes, _) ← key_and_data (length key) signature;
  if bool_decide (private_key_bytes ≠ key) then Ret false
  else claimed_hash ← decode_with_key_data key signature;
       match claimed_hash with
       | Err _ => Ret false
       | Ok claimed => Ret (bool_decide (hash data = claimed))
       end.
End digests.

(** As a [CryptDE]. *)
Definition to_cryptde (self : CryptDENull) : CryptDE :=
  MkCryptDE null_encode (null_decode self) null_random (public_key self) (null_digest self).

(** *** Properties *)

Definition bytes (l : list Z) : Prop := Forall (λ b, 0 ≤ b < 256) l.

Lemma other_key_data_involutive l : bytes l → other_key_data (other_key_data l) = l.
Proof.
  intros Hl. unfold other_key_data. rewrite <- list_fmap_compose. rewrite <- (list_fmap_id l) at 2.
  apply list_fmap_ext. intros i b Hb. simpl. apply (Forall_lookup_1 _ _ _ _ Hl) in Hb. unfold u8, wrap.
  rewrite Zplus_mod_idemp_l. replace (b + 128 + 128) with (b + 1 * 2 ^ 8) by lia.
  rewrite Z_mod_plus_full. apply Z.mod_small. lia.
Qed.

Lemma other_key_data_length l : length (other_key_data l) = length l.
Proof. apply length_fmap. Qed.

Lemma decode_with_key_data_own key data e :
  encode_with_key_data key data = Ok e → decode_with_key_data key e = Ret (Ok data).
Proof.
  unfold encode_with_key_data, decode_with_key_data. case_bool_decide; [done|]. case_bool_decide; [done|].
  intros [= <-]. rewrite bool_decide_eq_false_2 by by destruct key.
  rewrite (proj2 (Nat.ltb_ge _ _)) by (rewrite length_app; lia).
  unfold key_and_data, split_off. rewrite (proj2 (Nat.leb_le _ _)) by (rewrite length_app; lia).
  cbn [mbind run_bind]. rewrite take_app_length, drop_app_length. by rewrite bool_decide_eq_true_2.
Qed.

(** Decoding panics exactly on data long enough that starts with another key. *)
Lemma decode_with_key_data_panics key data :
  decode_with_key_data key data = Panic ↔
    key ≠ [] ∧ (length key ≤ length data)%nat ∧ take (length key) data ≠ key.
Proof.
  unfold decode_with_key_data, key_and_data, split_off.
  case_bool_decide as Hk; [by split; [|intros (? & _)]|].
  case_bool_decide as Hd; [subst; split; [done|]; intros (_ & Hl & _); destruct key; simpl in *; [done|lia]|].
  destruct (Nat.ltb_spec (length data) (length key)); [split; [done|lia]|].
  rewrite (proj2 (Nat.leb_le _ _)) by done. cbn [mbind run_bind].
  case_bool_decide; (split; [done|]); [by intros (_ & _ & ?)|by intros (? & ? & ?)].
Qed.

(** Null key pairs keep the promise of the interface. *)
Definition is_null (c : CryptDE) : Prop :=
  ∃ self, c = to_cryptde self ∧ private_key self = other_key_data (public_key self) ∧ public_key self ≠ [].

Global Instance null_key_pairs : KeyPairs is_null.
Proof.
  split.
  - intros c c' data e (s & -> & _) (s' & -> & Hs & _) He. simpl in *. unfold null_encode, null_decode in *.
    rewrite Hs. by apply decode_with_key_data_own.
  - intros c c' data (s & -> & _) (s' & -> & _ & Hne) Hd. simpl. unfold null_encode, encode_with_key_data.
    rewrite !bool_decide_eq_false_2; [by eexists|done|]. by intros ?%fmap_nil_inv.
Qed.

Lemma null_from_is_null create_digest r key :
  key ≠ [] → is_null (to_cryptde (null_from create_digest r key)).
Proof. intros. eexists. by split_and!. Qed.

Lemma null_new_is_null create_digest private :
  bytes private → private ≠ [] → is_null (to_cryptde (null_new create_digest private)).
Proof.
  intros Hp Hne. eexists. split_and!; [done|simpl; by rewrite other_key_data_involutive|].
  by intros ?%fmap_nil_inv.
Qed.

(** A signature verifies under the signer's key, and only for data of the same
    hash. *)
Lemma verify_own_signature hash self data data' sig :
  bytes (public_key self) → private_key self = other_key_data (public_key self) →
  sign hash self data = Ok sig →
  verify_signature hash data' sig (public_key self) = Ret (bool_decide (hash data' = hash data)).
Proof.
  intros Hb Hp Hs. unfold sign in Hs. rewrite Hp, other_key_data_involutive in Hs by done.
  pose proof (decode_with_key_data_own _ _ _ Hs) as Hd. unfold verify_signature, key_and_data, split_off.
  unfold encode_with_key_data in Hs. revert Hs.
  case_bool_decide; [done|]. case_bool_decide; [done|]. intros [= <-].
  rewrite (proj2 (Nat.leb_le _ _)) by (rewrite length_app; lia).
  cbn [mbind run_bind]. rewrite take_app_length.
  rewrite bool_decide_eq_false_2 by (intros Hn; by apply Hn). rewrite Hd. done.
Qed.

End Null.
End Cryptde.
