(* ===== verification/Route.v ===== *)
(** * Routes of encrypted hops

    Models [node/src/sub_lib/hop.rs] and [node/src/sub_lib/route.rs] (without
    [Route::to_string], which is for debugging), with the payer of
    [node/src/blockchain/payer.rs] and the components of
    [node/src/sub_lib/dispatcher.rs].

    A route is a list of hops, each encrypted for the node that will read it.
    Signing with a wallet, which may panic, is a parameter. *)
From S2P Require Import Prelude.
From S2P Require Import NeighborhoodDatabase Cryptde.
From stdpp Require Import base list.

Module Route.
Import Cryptde.
Local Open Scope Z_scope.

Inductive Component := Neighborhood | Hopper | ProxyServer | ProxyClient.
Global Instance Component_eq_dec : EqDecision Component.
Proof. solve_decision. Defined.

(** [Iterator::map] over a closure that may panic. *)
Fixpoint map_run {A B} (f : A → run B) (l : list A) : run (list B) :=
  match l with
  | [] => Ret []
  | a :: l => b ← f a; bs ← map_run f l; Ret (b :: bs)
  end.

(** [itertools::tuple_windows] of pairs. *)
Definition tuple_windows {A} (l : list A) : list (A * A) := zip l (tail l).

Section route.
Context {Wallet Signature : Type}.

(** Wallet and proof; the wallet is an address wallet. *)
Record Payer := MkPayer {
  wallet : Wallet;
  proof : Signature
}.

Record LiveHop := MkHop {
  hop_public_key : PublicKey;
  payer : option Payer;
  component : Component
}.

Record RouteSegment := MkSegment {
  keys : list PublicKey;
  recipient : Component
}.

Record Route := MkRoute { hops : list CryptData }.

(** [Wallet::as_payer] signs the digest of a node's key and a contract address. *)
Context (as_payer : Wallet → PublicKey → list Z → run Payer).
Context `{!Codec LiveHop, !Codec Z}.

Definition hop_encode (self : LiveHop) (key : PublicKey) (cryptde : CryptDE) : result CodexError CryptData :=
  encodex cryptde key self.
Definition hop_decode (cryptde : CryptDE) (crypt_data : CryptData) : run (result CodexError LiveHop) :=
  decodex cryptde crypt_data.

(** [Address::zero]. *)
Definition zero_address : list Z := replicate 20 0.

(** The payer of a hop, [None] without a consuming wallet. *)
Definition payer_for (consuming_wallet_opt : option Wallet) (contract_address_opt : option (list Z))
    (key : PublicKey) : run (option Payer) :=
  match consuming_wallet_opt with
  | Some w => p ← as_payer w key (default zero_address contract_address_opt); Ret (Some p)
  | None => Ret None
  end.

Definition over_segment (one_way : bool) (consuming_wallet_opt : option Wallet) (over_keys : list PublicKey)
    (over_component : Component) (contract_address_opt : option (list Z)) : run (list LiveHop) :=
  hs ← map_run (λ '(current_key, next_key),
         p ← payer_for consuming_wallet_opt contract_address_opt current_key;
         Ret (MkHop next_key p Hopper)) (tuple_windows over_keys);
  if one_way then
    match last (tuple_windows over_keys) with
    | Some (_, last_hop_key) =>
        p ← payer_for consuming_wallet_opt contract_address_opt last_hop_key;
        Ret (hs ++ [MkHop [] p over_component])
    | None => Ret (hs ++ [MkHop [] None over_component])
    end
  else Ret hs.

Definition back_segment (back_option : option RouteSegment) (consuming_wallet : option Wallet)
    (over_component : Component) (hs : list LiveHop) (contract_address : option (list Z)) : run (list LiveHop) :=
  match back_option with
  | None => Ret hs
  | Some back =>
      bs ← map_run (λ '(key_index, (current_key, next_key)),
             p ← payer_for consuming_wallet contract_address current_key;
             Ret (MkHop next_key p (if (key_index =? 0)%nat then over_component else Hopper)))
             (imap pair (tuple_windows (keys back)));
      match last (keys back) with
      | Some current_key =>
          p ← payer_for consuming_wallet contract_address current_key;
          Ret (hs ++ bs ++ [MkHop [] p (recipient back)])
      | None => Ret (hs ++ bs ++ [MkHop [] None (recipient back)])
      end
  end.

(** Indexing is guarded by the checks before it, and checked all the same. *)
Definition validate_route_segments (over : RouteSegment) (back : option RouteSegment) : run (option RouteError) :=
  if bool_decide (keys over = []) then Ret (Some TooFewKeysInRouteSegment)
  else match back with
       | None => Ret None
       | Some b =>
           if bool_decide (keys b = []) then Ret (Some TooFewKeysInRouteSegment)
           else over_segment_last_key ← get (keys over) (length (keys over) - 1);
                back_segment_first_key ← get (keys b) 0;
                if bool_decide (back_segment_first_key ≠ over_segment_last_key)
                then Ret (Some DisjointRouteSegments) else Ret None
       end.

Fixpoint encode_hops (cryptde : CryptDE) (hop_key : PublicKey) (hs : list LiveHop)
    : result CodexError (list CryptData) :=
  match hs with
  | [] => Ok []
  | data_hop :: hs =>
      crypt_data ← hop_encode data_hop hop_key cryptde;
      rest ← encode_hops cryptde (hop_public_key data_hop) hs;
      Ok (crypt_data :: rest)
  end.

Definition encrypt_return_route_id (return_route_id : Z) (cryptde : CryptDE) : run CryptData :=
  expect_ok (encodex cryptde (cd_public_key cryptde) return_route_id).

Definition hops_to_route (hs : list LiveHop) (top_hop_key : PublicKey) (return_route_id_opt : option Z)
    (cryptde : CryptDE) : run (result CodexError Route) :=
  match encode_hops cryptde top_hop_key hs with
  | Err e => Ret (Err e)
  | Ok hops_enc =>
      match return_route_id_opt with
      | Some return_route_id =>
          return_route_id_enc ← encrypt_return_route_id return_route_id cryptde;
          Ret (Ok (MkRoute (hops_enc ++ [return_route_id_enc])))
      | None => Ret (Ok (MkRoute hops_enc))
      end
  end.

Definition construct (over : RouteSegment) (back : option RouteSegment) (cryptde : CryptDE)
    (consuming_wallet : option Wallet) (return_route_id_opt : option Z) (contract_address : option (list Z))
    : run (result CodexError Route) :=
  error ← validate_route_segments over back;
  match error with
  | Some error => Ret (Err (RoutingError error))
  | None =>
      hs ← over_segment (bool_decide (back = None)) consuming_wallet (keys over) (recipient over) contract_address;
      hs ← back_segment back consuming_wallet (recipient over) hs contract_address;
      top_hop_key ← get (keys over) 0;
      hops_to_route hs top_hop_key return_route_id_opt cryptde
  end.

Definition single_hop (destination : PublicKey) (cryptde : CryptDE) : run (result CodexError Route) :=
  construct (MkSegment [cd_public_key cryptde; destination] Neighborhood) None cryptde None None None.

Definition one_way (route_segment : RouteSegment) (cryptde : CryptDE) (consuming_wallet : option Wallet)
    (contract_address : option (list Z)) : run (result CodexError Route) :=
  construct route_segment None cryptde consuming_wallet None contract_address.

Definition round_trip (route_segment_over route_segment_back : RouteSegment) (cryptde : CryptDE)
    (consuming_wallet : option Wallet) (return_route_id : Z) (contract_address : option (list Z))
    : run (result CodexError Route) :=
  construct route_segment_over (Some route_segment_back) cryptde consuming_wallet (Some return_route_id)
    contract_address.

(** [None] is the message that there is no return route id. *)
Definition id (self : Route) (cryptde : CryptDE) : run (result (option CodexError) Z) :=
  match head (hops self) with
  | Some first =>
      r ← decodex cryptde first;
      Ret (match r with Ok n => Ok n | Err e => Err (Some e) end)
  | None => Ret (Err None)
  end.

Definition next_hop (self : Route) (cryptde : CryptDE) : run (result CodexError LiveHop) :=
  match head (hops self) with
  | None => Ret (Err (RoutingError EmptyRoute))
  | Some first => hop_decode cryptde first
  end.

(** The hop is gone from the route even when it cannot be read. *)
Definition shift (self : Route) (cryptde : CryptDE) : run (Route * result CodexError LiveHop) :=
  match hops self with
  | [] => Ret (self, Err (RoutingError EmptyRoute))
  | top_hop :: rest =>
      r ← hop_decode cryptde top_hop;
      match r with
      | Err e => Ret (MkRoute rest, Err e)
      | Ok hop => Ret (MkRoute (rest ++ [random cryptde (length top_hop)]), Ok hop)
      end
  end.

(** ** What the hops of a route are *)

Lemma map_run_pure {A B} (f : A → run B) (g : A → B) l :
  (∀ a, a ∈ l → f a = Ret (g a)) → map_run f l = Ret (g <$> l).
Proof.
  induction l as [|a l IH]; intros H; simpl; [done|].
  rewrite H, IH; [done| |by left]. intros; apply H; by right.
Qed.

Lemma tuple_windows_lookup {A} (l : list A) i a b :
  tuple_windows l !! i = Some (a, b) ↔ l !! i = Some a ∧ l !! S i = Some b.
Proof.
  unfold tuple_windows. rewrite lookup_zip_Some, lookup_tail. done.
Qed.

Lemma tuple_windows_length {A} (l : list A) : length (tuple_windows l) = (length l - 1)%nat.
Proof. unfold tuple_windows. rewrite length_zip, length_tl. lia. Qed.

Section stops.
Context (consuming_wallet : option Wallet) (contract_address : option (list Z)).

Definition payer_of (k : PublicKey) : option Payer :=
  match payer_for consuming_wallet contract_address k with Ret p => p | Panic => None end.

(** Signing for a node works. *)
Definition can_pay (k : PublicKey) : Prop := payer_for consuming_wallet contract_address k = Ret (payer_of k).

(** The nodes that read the hops of a round trip, in order. *)
Definition trip_stops (over back : RouteSegment) : list PublicKey := keys over ++ tail (keys back).

(** The exit hands the data to a component of its own, and so does the last
    node; every other node passes it on. *)
Definition trip_component (over back : RouteSegment) (i : nat) : Component :=
  if bool_decide (S i = length (trip_stops over back)) then recipient back
  else if bool_decide (S i = length (keys over)) then recipient over else Hopper.

Definition trip_hop (over back : RouteSegment) (i : nat) (k : PublicKey) : LiveHop :=
  MkHop (match trip_stops over back !! S i with Some k => k | None => [] end) (payer_of k) (trip_component over back i).

Lemma trip_stops_over over back i : (i < length (keys over))%nat → trip_stops over back !! i = keys over !! i.
Proof. intros. unfold trip_stops. by rewrite lookup_app_l. Qed.

Lemma trip_stops_back over back j :
  keys over ≠ [] → last (keys over) = head (keys back) → (j < length (keys back))%nat →
  trip_stops over back !! (length (keys over) - 1 + j)%nat = keys back !! j.
Proof.
  intros Hne Hlast Hj. unfold trip_stops. assert (length (keys over) ≠ 0%nat) by by destruct (keys over).
  destruct j as [|j].
  - rewrite Nat.add_0_r, lookup_app_l by lia. rewrite last_lookup in Hlast.
    replace (length (keys over) - 1)%nat with (pred (length (keys over))) by lia. rewrite Hlast.
    by destruct (keys back).
  - rewrite lookup_app_r by lia. rewrite lookup_tail. f_equal. lia.
Qed.

Lemma trip_stops_length over back :
  keys back ≠ [] → length (trip_stops over back) = (length (keys over) + length (keys back) - 1)%nat.
Proof.
  intros Hne. unfold trip_stops. rewrite length_app, length_tl. destruct (keys back); [done|simpl; lia].
Qed.

(** The plain hops of a round trip. *)
Definition trip_hops (over back : RouteSegment) : list LiveHop := imap (trip_hop over back) (trip_stops over back).

Section trip.
Context (over back : RouteSegment).
Hypothesis Ho : keys over ≠ [].
Hypothesis Hb : keys back ≠ [].
Hypothesis Hlast : last (keys over) = head (keys back).

Definition over_hops : list LiveHop := (λ '(c, n), MkHop n (payer_of c) Hopper) <$> tuple_windows (keys over).
Definition back_hops : list LiveHop :=
  (λ '(i, (c, n)), MkHop n (payer_of c) (if (i =? 0)%nat then recipient over else Hopper))
    <$> imap pair (tuple_windows (keys back)).

Lemma over_back_length :
  (length (keys over) ≠ 0)%nat ∧ (length (keys back) ≠ 0)%nat ∧
  length over_hops = (length (keys over) - 1)%nat ∧ length back_hops = (length (keys back) - 1)%nat ∧
  length (trip_stops over back) = (length (keys over) + length (keys back) - 1)%nat.
Proof.
  unfold over_hops, back_hops. rewrite !length_fmap, length_imap, !tuple_windows_length, trip_stops_length by done.
  split_and!; [by destruct (keys over)|by destruct (keys back)|done..].
Qed.

Lemma over_hops_lookup i :
  (i < length (keys over) - 1)%nat → over_hops !! i = trip_hops over back !! i.
Proof.
  intros Hi. destruct over_back_length as (? & ? & _ & _ & ?). unfold over_hops, trip_hops.
  rewrite list_lookup_imap, list_lookup_fmap, trip_stops_over by lia.
  destruct (lookup_lt_is_Some_2 (keys over) i) as [c Hc]; [lia|].
  destruct (lookup_lt_is_Some_2 (keys over) (S i)) as [n Hn]; [lia|].
  rewrite (proj2 (tuple_windows_lookup (keys over) i c n)) by done. rewrite Hc. simpl. f_equal.
  unfold trip_hop, trip_component. rewrite trip_stops_over, Hn by lia.
  by rewrite !bool_decide_eq_false_2 by lia.
Qed.

Lemma back_hops_lookup j :
  (j < length (keys back) - 1)%nat →
  back_hops !! j = trip_hops over back !! (length (keys over) - 1 + j)%nat.
Proof.
  intros Hj. destruct over_back_length as (? & ? & _ & _ & ?). unfold back_hops, trip_hops.
  rewrite list_lookup_imap, list_lookup_fmap, list_lookup_imap.
  destruct (lookup_lt_is_Some_2 (keys back) j) as [c Hc]; [lia|].
  destruct (lookup_lt_is_Some_2 (keys back) (S j)) as [n Hn]; [lia|].
  rewrite (proj2 (tuple_windows_lookup (keys back) j c n)) by done.
  rewrite trip_stops_back, Hc by (done || lia). simpl. f_equal.
  unfold trip_hop, trip_component. rewrite <- Nat.add_succ_r, trip_stops_back, Hn by (done || lia). simpl.
  rewrite (bool_decide_eq_false_2 (_ = length (trip_stops _ _))) by lia.
  destruct (Nat.eqb_spec j 0); [rewrite bool_decide_eq_true_2 by lia|rewrite bool_decide_eq_false_2 by lia]; done.
Qed.

Lemma final_hop_lookup lb :
  last (keys back) = Some lb →
  trip_hops over back !! (length (trip_stops over back) - 1)%nat = Some (MkHop [] (payer_of lb) (recipient back)).
Proof.
  intros Elb. destruct over_back_length as (? & ? & _ & _ & Hlen). unfold trip_hops. rewrite list_lookup_imap.
  assert (trip_stops over back !! (length (trip_stops over back) - 1)%nat = Some lb) as ->.
  { rewrite Hlen.
    replace (length (keys over) + length (keys back) - 1 - 1)%nat
      with (length (keys over) - 1 + (length (keys back) - 1))%nat by lia.
    rewrite trip_stops_back by (done || lia). rewrite last_lookup in Elb. by rewrite Nat.sub_1_r. }
  cbn [fmap option_fmap option_map]. unfold trip_hop, trip_component.
  rewrite lookup_ge_None_2 by lia.
  by rewrite bool_decide_eq_true_2 by lia.
Qed.

Lemma trip_hops_split lb :
  last (keys back) = Some lb →
  over_hops ++ back_hops ++ [MkHop [] (payer_of lb) (recipient back)] = trip_hops over back.
Proof.
  intros Elb. pose proof (final_hop_lookup lb Elb) as Hfinal. destruct over_back_length as (? & ? & Ho' & Hb' & Hlen).
  apply list_eq_same_length with (n := length (trip_stops over back)).
  - unfold trip_hops. by rewrite length_imap.
  - rewrite !length_app, Ho', Hb', Hlen. simpl. lia.
  - intros i x y Hi Hx Hy. revert Hx.
    destruct (decide (i < length (keys over) - 1)%nat); [rewrite lookup_app_l, over_hops_lookup by lia; congruence|].
    rewrite lookup_app_r, Ho' by lia.
    destruct (decide (i < length (trip_stops over back) - 1)%nat).
    + rewrite lookup_app_l, back_hops_lookup by lia.
      replace (length (keys over) - 1 + (i - (length (keys over) - 1)))%nat with i by lia. congruence.
    + rewrite lookup_app_r, Hb' by lia. replace i with (length (trip_stops over back) - 1)%nat in * by lia.
      replace (_ - _ - _ - _)%nat with 0%nat by lia. simpl. congruence.
Qed.

Lemma segments_spec :
  (∀ k, k ∈ trip_stops over back → can_pay k) →
  (hs ← over_segment false consuming_wallet (keys over) (recipient over) contract_address;
   back_segment (Some back) consuming_wallet (recipient over) hs contract_address)
  = Ret (trip_hops over back).
Proof.
  intros Hpay.
  assert (∀ k, k ∈ keys over → can_pay k) as Hpo by (intros; apply Hpay, elem_of_app; by left).
  assert (∀ k, k ∈ keys back → can_pay k) as Hpb.
  { intros k [j Hj]%list_elem_of_lookup. apply Hpay, list_elem_of_lookup.
    exists (length (keys over) - 1 + j)%nat. rewrite trip_stops_back; [done..|]. by apply lookup_lt_Some in Hj. }
  unfold over_segment, back_segment.
  rewrite (map_run_pure _ (λ '(c, n), MkHop n (payer_of c) Hopper)).
  2: { intros [c n] [i Hi]%list_elem_of_lookup. apply tuple_windows_lookup in Hi as [Hc _].
       rewrite Hpo; [done|]. by eapply list_elem_of_lookup_2. }
  cbn [mbind run_bind].
  rewrite (map_run_pure _ (λ '(i, (c, n)), MkHop n (payer_of c) (if (i =? 0)%nat then recipient over else Hopper))).
  2: { intros [j [c n]] [i Hi]%list_elem_of_lookup. rewrite list_lookup_imap in Hi.
       destruct (tuple_windows (keys back) !! i) as [[c' n']|] eqn:Hw; [|done]. injection Hi as -> -> ->.
       apply tuple_windows_lookup in Hw as [Hc _]. rewrite Hpb; [done|]. by eapply list_elem_of_lookup_2. }
  cbn [mbind run_bind]. destruct (last (keys back)) as [lb|] eqn:Elb; [|by apply last_None in Elb].
  rewrite Hpb; [|by apply last_Some_elem_of]. cbn [mbind run_bind]. f_equal. by apply trip_hops_split.
Qed.
End trip.
End stops.

(** ** Every node reads its own hop *)

Section reading.
Context (member : CryptDE → Prop) `{!KeyPairs member, !CodecOk LiveHop, !CodecOk Z}.

Definition held (k : PublicKey) : Prop := ∃ c, member c ∧ cd_public_key c = k.

(** Whoever holds the key reads the hop. *)
Definition read_by (kh : PublicKey * LiveHop) (e : CryptData) : Prop :=
  ∀ c, member c → cd_public_key c = kh.1 → hop_decode c e = Ret (Ok kh.2).

(** The reader of each hop is named by the hop before it. *)
Fixpoint holders (top : PublicKey) (hs : list LiveHop) : list (PublicKey * LiveHop) :=
  match hs with
  | [] => []
  | h :: hs => (top, h) :: holders (hop_public_key h) hs
  end.

Lemma holders_zip stops hs top :
  length hs = length stops → head stops = Some top →
  (∀ i h k, hs !! i = Some h → stops !! S i = Some k → k = hop_public_key h) →
  holders top hs = zip stops hs.
Proof.
  revert stops top; induction hs as [|h hs IH]; intros [|k stops] top Hlen Hhead Hnext; try done.
  injection Hhead as ->. simpl. f_equal.
  destruct stops as [|k' stops]; [by destruct hs|].
  rewrite <- (Hnext 0%nat h k' eq_refl eq_refl).
  apply IH; [simpl in *; lia|done|]. intros i h' k'' Hh Hk. by apply (Hnext (S i)).
Qed.

Lemma encode_hops_spec c top hs :
  member c → (∀ kh, kh ∈ holders top hs → held kh.1) →
  ∃ es, encode_hops c top hs = Ok es ∧ Forall2 read_by (holders top hs) es.
Proof.
  intros Hc. revert top; induction hs as [|h hs IH]; intros top Hheld; simpl; [by exists []|].
  destruct (Hheld (top, h)) as (c' & Hc' & Htop); [by left|]. simpl in Htop. subst top.
  destruct (decodex_encodex member c c' h Hc Hc') as (e & He & _).
  unfold hop_encode. rewrite He. cbn [mbind result_bind].
  destruct (IH (hop_public_key h)) as (es & -> & Hes); [intros; apply Hheld; by right|]. cbn [mbind result_bind].
  exists (e :: es). split; [done|]. constructor; [|done].
  intros c'' Hm Hk. simpl in *. destruct (decodex_encodex member c c'' h Hc Hm) as (e' & He' & ?).
  rewrite Hk, He in He'. by injection He' as ->.
Qed.

Lemma trip_holders wallet address over back :
  keys over ≠ [] → ∃ top, keys over !! 0%nat = Some top ∧
    holders top (trip_hops wallet address over back) = zip (trip_stops over back) (trip_hops wallet address over back).
Proof.
  intros Ho. destruct (keys over) as [|top ks] eqn:E; [done|]. exists top. split; [done|].
  apply holders_zip.
  - unfold trip_hops. by rewrite length_imap.
  - unfold trip_stops. by rewrite E.
  - intros i h k Hh Hk. unfold trip_hops in Hh. rewrite list_lookup_imap in Hh.
    destruct (trip_stops over back !! i); [|done]. injection Hh as <-. simpl. by rewrite Hk.
Qed.

Lemma round_trip_spec over back cryptde wallet return_route_id address :
  keys over ≠ [] → keys back ≠ [] → last (keys over) = head (keys back) → member cryptde →
  (∀ k, k ∈ trip_stops over back → can_pay wallet address k ∧ held k) →
  ∃ es e, round_trip over back cryptde wallet return_route_id address = Ret (Ok (MkRoute (es ++ [e]))) ∧
    Forall2 read_by (zip (trip_stops over back) (trip_hops wallet address over back)) es ∧
    decodex cryptde e = Ret (Ok return_route_id).
Proof.
  intros Ho Hb Hlast Hc Hk. unfold round_trip, construct, validate_route_segments.
  rewrite !bool_decide_eq_false_2 by done.
  assert (get (keys over) (length (keys over) - 1) = get (keys back) 0) as ->.
  { unfold get. rewrite Nat.sub_1_r. rewrite <- last_lookup, Hlast. by destruct (keys back). }
  destruct (keys back) as [|b0 bs] eqn:Eb; [done|]. unfold get. cbn [lookup list_lookup expect mbind run_bind].
  rewrite bool_decide_eq_false_2 by (intros Hn; by apply Hn).
  pose proof (segments_spec wallet address over back Ho ltac:(by rewrite Eb) ltac:(by rewrite Eb)) as Hseg.
  apply run_bind_ret in Hseg as (hs & -> & Hback); [|intros; by apply Hk].
  cbn [mbind run_bind]. rewrite Hback. cbn [mbind run_bind].
  destruct (trip_holders wallet address over back Ho) as (top & Htop & Hzip). rewrite Htop.
  cbn [expect mbind run_bind]. unfold hops_to_route.
  destruct (encode_hops_spec cryptde top (trip_hops wallet address over back) Hc) as (es & -> & Hes).
  { intros [k h]. rewrite Hzip. intros Hin%elem_of_zip_l. by apply Hk. }
  destruct (decodex_encodex member cryptde cryptde return_route_id Hc Hc) as (e & He & Hd).
  unfold encrypt_return_route_id. rewrite He. cbn [expect_ok mbind run_bind].
  exists es, e. rewrite <- Hzip. done.
Qed.

(** Travelling: each node in turn takes its hop off the route. *)
Fixpoint traverse (route : Route) (cs : list CryptDE) : run (Route * list (result CodexError LiveHop)) :=
  match cs with
  | [] => Ret (route, [])
  | c :: cs =>
      '(route, h) ← shift route c;
      '(route, hs) ← traverse route cs;
      Ret (route, h :: hs)
  end.

Lemma traverse_spec cs hs es rest :
  Forall2 read_by (zip (cd_public_key <$> cs) hs) es → length hs = length cs → Forall member cs →
  ∃ garbage, traverse (MkRoute (es ++ rest)) cs = Ret (MkRoute (rest ++ garbage), Ok <$> hs).
Proof.
  revert hs es rest; induction cs as [|c cs IH]; intros hs es rest Hes Hlen Hm.
  - destruct hs; [|done]. apply Forall2_nil_inv_l in Hes as ->. exists []. simpl. by rewrite app_nil_r.
  - destruct hs as [|h hs]; [done|]. simpl in Hes.
    apply Forall2_cons_inv_l in Hes as (e & es' & He & Hes & ->). apply Forall_cons in Hm as [Hc Hm].
    unfold read_by in He. simpl. unfold shift at 1. simpl. rewrite (He c Hc eq_refl). cbn [mbind run_bind].
    rewrite <- app_assoc.
    destruct (IH hs es' (rest ++ [random c (length e)])) as (garbage & ->); [done|simpl in Hlen; lia|done|].
    cbn [mbind run_bind]. rewrite <- app_assoc. eexists. done.
Qed.
End reading.

End route.
Arguments Payer : clear implicits.
Arguments LiveHop : clear implicits.

(** ** Round trips *)

Section trips.
Context {Wallet Signature : Type} `{!Codec (LiveHop Wallet Signature), !Codec Z}.
Context (as_payer : Wallet → PublicKey → list Z → run (Payer Wallet Signature)).

(** Routes with an empty segment or with segments that do not meet are refused,
    and only those. *)
Lemma validate_route_segments_spec (over : RouteSegment) (back : option RouteSegment) :
  validate_route_segments over back = Ret (
    if bool_decide (keys over = []) then Some TooFewKeysInRouteSegment
    else match back with
         | None => None
         | Some b =>
             if bool_decide (keys b = []) then Some TooFewKeysInRouteSegment
             else if bool_decide (head (keys b) = last (keys over)) then None else Some DisjointRouteSegments
         end).
Proof.
  unfold validate_route_segments. case_bool_decide as Ho; [done|]. destruct back as [b|]; [|done].
  case_bool_decide as Hb; [done|]. unfold get. rewrite Nat.sub_1_r, <- last_lookup.
  destruct (last (keys over)) as [l|] eqn:El; [|by apply last_None in El].
  destruct (keys b) as [|b0 bs]; [done|]. cbn [expect lookup list_lookup head mbind run_bind].
  repeat case_bool_decide; congruence.
Qed.

(** C28: a round trip is read hop by hop.  When the two segments meet and every
    node on them can be encrypted for and paid, the route is built; each node in
    turn, taking the top hop off the route, reads the next node's key, its own
    payment and where the data goes (on to the next node, at the exit to the
    component the request is for, at the originator to the one that waits for
    the response); and what is then on top is the return route id, for the
    originator to read. *)
Theorem round_trip_travels (member : CryptDE → Prop) (over back : RouteSegment) (cryptde : CryptDE)
    (wallet : option Wallet) (return_route_id : Z) (address : option (list Z)) (cs : list CryptDE) :
  KeyPairs member → CodecOk (LiveHop Wallet Signature) → CodecOk Z →
  keys over ≠ [] → keys back ≠ [] → last (keys over) = head (keys back) →
  member cryptde → Forall member cs → cd_public_key <$> cs = trip_stops over back →
  (∀ k, k ∈ trip_stops over back → can_pay as_payer wallet address k) →
  ∃ route route', round_trip as_payer over back cryptde wallet return_route_id address = Ret (Ok route) ∧
    traverse route cs = Ret (route', Ok <$> trip_hops as_payer wallet address over back) ∧
    id route' cryptde = Ret (Ok return_route_id).
Proof.
  intros Hkp Hcl Hcz Ho Hb Hlast Hc Hcs Hstops Hpay.
  destruct (round_trip_spec as_payer member over back cryptde wallet return_route_id address)
    as (es & e & Hroute & Hes & Hid); try done.
  { intros k Hk. split; [by apply Hpay|]. rewrite <- Hstops in Hk.
    apply list_elem_of_fmap in Hk as (c & -> & Hin). exists c. split; [|done]. by eapply Forall_forall. }
  rewrite <- Hstops in Hes.
  destruct (traverse_spec member cs (trip_hops as_payer wallet address over back) es [e]) as (garbage & Ht); [done| |done|].
  { unfold trip_hops. rewrite length_imap, <- Hstops. apply length_fmap. }
  exists (MkRoute (es ++ [e])), (MkRoute ([e] ++ garbage)). split; [done|]. split; [done|].
  unfold id. simpl. by rewrite Hid.
Qed.
End trips.

(** ** A concrete trip *)

(** A codec from any encoding of a type in the positive numbers. *)
Definition countable_codec {T} `{Countable T} : Codec T := {|
  to_vec t := Some [Zpos (countable.encode t)];
  from_slice bytes := match bytes with [Zpos p] => countable.decode p | _ => None end
|}.

Lemma countable_codec_ok {T} `{Countable T} : @CodecOk T countable_codec.
Proof. intros t. eexists. split_and!; [done|done|]. simpl. apply countable.decode_encode. Qed.

Global Instance Component_countable : Countable Component.
Proof.
  apply (inj_countable' (λ c, match c with Neighborhood => 0 | Hopper => 1 | ProxyServer => 2 | ProxyClient => 3 end)
    (λ n, if n =? 0 then Neighborhood else if n =? 1 then Hopper else if n =? 2 then ProxyServer else ProxyClient)).
  by intros [].
Defined.

Global Instance Payer_eq_dec : EqDecision (Payer nat nat).
Proof. solve_decision. Defined.
Global Instance LiveHop_eq_dec : EqDecision (LiveHop nat nat).
Proof. solve_decision. Defined.
Global Instance LiveHop_countable : Countable (LiveHop nat nat).
Proof.
  apply (inj_countable'
    (λ h, (hop_public_key h, (λ p, (wallet p, proof p)) <$> payer h, component h))
    (λ '(k, p, c), MkHop k ((λ '(w, s), MkPayer w s) <$> p) c)).
  by intros [k [[]|] c].
Defined.

Definition demo_cryptde (n : Z) : CryptDE := Null.to_cryptde (Null.null_from (λ l, l) [] [n]).
Definition demo_as_payer (w : nat) (k : PublicKey) (a : list Z) : run (Payer nat nat) := Ret (MkPayer w (length k)).

Lemma demo_cryptdes_null ns : Forall Null.is_null (demo_cryptde <$> ns).
Proof. apply Forall_fmap, Forall_true. intros n. by apply Null.null_from_is_null. Qed.

Definition demo_over : RouteSegment := MkSegment [[1]; [2]; [3]] ProxyClient.
Definition demo_back : RouteSegment := MkSegment [[3]; [2]; [1]] ProxyServer.

Lemma round_trip_travels_witness :
  ∃ route route',
    @round_trip nat nat demo_as_payer countable_codec countable_codec demo_over demo_back (demo_cryptde 1)
      (Some 7%nat) 4321 None = Ret (Ok route) ∧
    @traverse nat nat countable_codec route (demo_cryptde <$> [1; 2; 3; 2; 1]) =
      Ret (route', Ok <$> [MkHop [2] (Some (MkPayer 7%nat 1%nat)) Hopper; MkHop [3] (Some (MkPayer 7%nat 1%nat)) Hopper;
                           MkHop [2] (Some (MkPayer 7%nat 1%nat)) ProxyClient; MkHop [1] (Some (MkPayer 7%nat 1%nat)) Hopper;
                           MkHop [] (Some (MkPayer 7%nat 1%nat)) ProxyServer]) ∧
    @id countable_codec route' (demo_cryptde 1) = Ret (Ok 4321).
Proof.
  refine (@round_trip_travels nat nat countable_codec countable_codec demo_as_payer Null.is_null demo_over demo_back
    (demo_cryptde 1) (Some 7%nat) 4321 None (demo_cryptde <$> [1; 2; 3; 2; 1]) Null.null_key_pairs
    countable_codec_ok countable_codec_ok _ _ eq_refl _ (demo_cryptdes_null _) eq_refl _); try discriminate.
  - apply Null.null_from_is_null. discriminate.
  - intros k _. reflexivity.
Defined.

End Route.
