(* ===== verification/VersionedData.v ===== *)
(** * Data versions and migrations

    Models [masq_lib/src/data_version.rs] (Module [DataVersion]),
    [node/src/sub_lib/data_version.rs] (Module [PackedVersion]) and
    [node/src/sub_lib/versioned_data.rs] (Module [Versioned]): versions, the
    table of migration steps, the search for the shortest chain of steps, and
    extraction of migrated data.

    A migration step is the function it computes.  The lock of the table is left
    out; the entry that [migration] caches in it is part of the result.  The order
    in which a hash map is iterated is a parameter. *)
From Stdlib Require Import String Ascii.
From S2P Require Import Prelude.
From S2P Require Import Cryptde.
From stdpp Require Import base list gmap strings.

(** ** [masq_lib/src/data_version.rs] *)

Module DataVersion.
Local Open Scope Z_scope.

Record DataVersion := MkVersion {
  major : Z;
  minor : Z
}.

Global Instance DataVersion_eq_dec : EqDecision DataVersion.
Proof. solve_decision. Defined.
Global Instance DataVersion_countable : Countable DataVersion.
Proof.
  apply (inj_countable' (λ v, (major v, minor v)) (λ '(a, b), MkVersion a b)). by intros [].
Defined.

Definition FUTURE_VERSION : DataVersion := MkVersion 0xFFFF 0xFFFF.

Definition partial_cmp (a b : DataVersion) : comparison :=
  match major a ?= major b with
  | Eq => minor a ?= minor b
  | c => c
  end.

(** [a > b]. *)
Definition gt (a b : DataVersion) : bool := match partial_cmp a b with Gt => true | _ => false end.

Definition new (major minor : Z) : run DataVersion :=
  panic_if ((4095 <? major) || (4095 <? minor)) (Ret (MkVersion major minor)).

(** [str::parse::<u16>]: an optional plus sign, then digits, at most 65535. *)
Fixpoint digits_value (acc : Z) (s : string) : option Z :=
  match s with
  | EmptyString => Some acc
  | String a s =>
      let d := Z.of_N (Ascii.N_of_ascii a) - 48 in
      if (0 <=? d) && (d <=? 9) && (acc * 10 + d <=? 0xFFFF) then digits_value (acc * 10 + d) s else None
  end.
Definition parse_u16 (s : string) : option Z :=
  match s with
  | EmptyString => None
  | String "+"%char EmptyString => None
  | String "+"%char s => digits_value 0 s
  | s => digits_value 0 s
  end.

(** [str::split] at a character. *)
Fixpoint split (c : Ascii.ascii) (s : string) : list string :=
  match s with
  | EmptyString => [EmptyString]
  | String a s =>
      if decide (a = c) then EmptyString :: split c s
      else match split c s with
           | part :: parts => String a part :: parts
           | [] => [String a EmptyString]
           end
  end.

(** [None] is the message about the syntax. *)
Definition from_str (s : string) : run (option DataVersion) :=
  match mapM parse_u16 (split "."%char s) with
  | Some [a; b] => v ← new a b; Ret (Some v)
  | _ => Ret None
  end.

(** *** Order *)

Definition version_number (v : DataVersion) : Z := major v * 2 ^ 16 + minor v.
Definition in_range (v : DataVersion) : Prop := 0 ≤ major v < 2 ^ 16 ∧ 0 ≤ minor v < 2 ^ 16.

Lemma partial_cmp_number a b :
  in_range a → in_range b → partial_cmp a b = (version_number a ?= version_number b).
Proof.
  intros [? ?] [? ?]. unfold partial_cmp, version_number. symmetry.
  destruct (Z.compare_spec (major a) (major b)) as [->| |];
    [destruct (Z.compare_spec (minor a) (minor b)) as [->| |]|..];
    (apply Z.compare_eq_iff || apply Z.compare_lt_iff || apply Z.compare_gt_iff); lia.
Qed.

Lemma gt_number a b : in_range a → in_range b → gt a b = true ↔ version_number b < version_number a.
Proof.
  intros. unfold gt. rewrite partial_cmp_number by done.
  destruct (Z.compare_spec (version_number a) (version_number b)); split; (done || lia).
Qed.

(** A version that parses but is out of bounds panics instead of being refused. *)
Example from_str_good : from_str "1.23" = Ret (Some (MkVersion 1 23)).
Proof. vm_compute. reflexivity. Qed.
Example from_str_bad : from_str "1.2.3" = Ret None.
Proof. vm_compute. reflexivity. Qed.
Example from_str_large_panics : from_str "4096.0" = Panic.
Proof. vm_compute. reflexivity. Qed.

End DataVersion.

(** ** [node/src/sub_lib/data_version.rs] *)

Module PackedVersion.
Local Open Scope Z_scope.

Inductive version_error := MajorOutOfBounds | MinorOutOfBounds | UnableToParse.

(** Two numbers of twelve bits in three bytes. *)
Definition new (major minor : Z) : result version_error (list Z) :=
  if 4096 <=? major then Err MajorOutOfBounds
  else if 4096 <=? minor then Err MinorOutOfBounds
  else
    let a := Z.shiftr (Z.land major 0xFF0) 4 in
    let b := Z.lor (u16 (Z.shiftl (Z.land major 0x0F) 4)) (Z.shiftr (Z.land minor 0xF00) 8) in
    let c := Z.land minor 0xFF in
    Ok [u8 a; u8 b; u8 c].

Definition major (v : list Z) : run Z :=
  a ← get v 0; b ← get v 1;
  Ret (Z.lor (u16 (Z.shiftl a 4)) (Z.shiftr (Z.land b 0xF0) 4)).

Definition minor (v : list Z) : run Z :=
  b ← get v 1; c ← get v 2;
  Ret (Z.lor (u16 (Z.shiftl (Z.land b 0x0F) 8)) c).

Definition from_str (value : string) : result version_error (list Z) :=
  match DataVersion.split "."%char value with
  | [a; b] =>
      match DataVersion.parse_u16 a, DataVersion.parse_u16 b with
      | Some major, Some minor => new major minor
      | _, _ => Err UnableToParse
      end
  | _ => Err UnableToParse
  end.

(** *** Round trip *)

(** The middle byte holds the low four bits of the major and the high four bits
    [h] of the minor number. *)
Definition middle (m h : Z) : Z := u8 (Z.lor (u16 (Z.shiftl (Z.land m 0x0F) 4)) h).

Lemma middle_all :
  forallb (λ l, forallb (λ h, (Z.shiftr (Z.land (middle l h) 0xF0) 4 =? l) && (Z.land (middle l h) 0x0F =? h))
    (upto 16)) (upto 16) = true.
Proof. vm_compute. reflexivity. Qed.

Lemma major_minor_all :
  forallb (λ n, (Z.lor (u16 (Z.shiftl (u8 (Z.shiftr (Z.land n 0xFF0) 4)) 4)) (Z.land n 0x0F) =? n)
             && (Z.lor (u16 (Z.shiftl (Z.shiftr (Z.land n 0xF00) 8) 8)) (u8 (Z.land n 0xFF)) =? n))
    (upto 4096) = true.
Proof. vm_compute. reflexivity. Qed.

Lemma nibble_range n : 0 ≤ Z.shiftr (Z.land n 0xF00) 8 < Z.of_nat 16 ∧ 0 ≤ Z.land n 0x0F < Z.of_nat 16.
Proof.
  split.
  - rewrite Z.shiftr_land. change (Z.shiftr 0xF00 8) with (Z.ones 4). rewrite Z.land_ones by lia.
    apply Z.mod_pos_bound. lia.
  - change 0x0F with (Z.ones 4). rewrite Z.land_ones by lia. apply Z.mod_pos_bound. lia.
Qed.

Lemma packed_roundtrip ma mi :
  0 ≤ ma < 4096 → 0 ≤ mi < 4096 →
  ∃ v, new ma mi = Ok v ∧ major v = Ret ma ∧ minor v = Ret mi.
Proof.
  intros Hma Hmi. unfold new. rewrite !(proj2 (Z.leb_gt _ _)) by lia.
  eexists. split; [done|]. unfold major, minor, get. cbn [lookup list_lookup expect mbind run_bind].
  destruct (nibble_range mi) as [Hh _]. destruct (nibble_range ma) as [_ Hl].
  pose proof (forallb_upto _ _ _ (forallb_upto _ _ _ middle_all Hl) Hh) as Hm.
  pose proof (forallb_upto _ _ _ major_minor_all Hma) as H1. pose proof (forallb_upto _ _ _ major_minor_all Hmi) as H2.
  apply andb_prop in Hm as [Hm1 Hm2]. apply andb_prop in H1 as [H1 _]. apply andb_prop in H2 as [_ H2].
  apply Z.eqb_eq in Hm1, Hm2, H1, H2. unfold middle in Hm1, Hm2. rewrite <- Z.land_assoc, Z.land_diag in Hm1, Hm2.
  rewrite Hm1, Hm2, H1, H2. done.
Qed.

End PackedVersion.

(** ** [node/src/sub_lib/versioned_data.rs] *)

Module Versioned.
Import DataVersion Cryptde.
Local Open Scope Z_scope.

Inductive StepError :=
| StepDeserializationError (from to : DataVersion)
| SemanticError.

Inductive MigrationError :=
| MigrationNotFound (from to : DataVersion)
| MigrationFailed (e : StepError).

(** What a step computes on serialized data; it may panic. *)
Definition MigrationStep : Type := list Z → run (result StepError (list Z)).

(** [ComboStep::migrate]. *)
Definition combo_step (substeps : list MigrationStep) : MigrationStep := λ data,
  foldl (λ sofar substep, r ← sofar; match r with Err e => Ret (Err e) | Ok input => substep input end)
    (Ret (Ok data)) substeps.

Record Migrations := MkMigrations {
  current_version : DataVersion;
  table : gmap DataVersion (gmap DataVersion MigrationStep)
}.

Record VersionedData := MkVersioned {
  vd_version : DataVersion;
  vd_bytes : list Z
}.

Definition vd_new {T} `{Codec T} (migrations : Migrations) (data : T) : run VersionedData :=
  bytes ← expect (to_vec data); Ret (MkVersioned (current_version migrations) bytes).

Definition migrations_new (current : DataVersion) : Migrations := MkMigrations current ∅.

Definition validate_step (m : Migrations) (from to : DataVersion) : run unit :=
  panic_if (bool_decide (to = FUTURE_VERSION))
  (panic_if (bool_decide (from = to))
  (panic_if (gt to (current_version m))
  (if bool_decide (from ≠ FUTURE_VERSION) then
     panic_if (gt from to)
     (panic_if (negb (major from =? major to))
     (panic_if (negb (major from =? major (current_version m)) || negb (major to =? major (current_version m)))
        (Ret tt)))
   else Ret tt))).

Definition insert_step (m : Migrations) (from to : DataVersion) (step : MigrationStep) : Migrations :=
  MkMigrations (current_version m) (<[from := <[to := step]> (default ∅ (table m !! from))]> (table m)).

Definition add_step (m : Migrations) (from to : DataVersion) (step : MigrationStep) : run Migrations :=
  _ ← validate_step m from to; Ret (insert_step m from to step).

Section search.
Context (order : DataVersion → gset DataVersion → list DataVersion).

(** The chains through each of the keys: [flat_map] over an iterator of options. *)
Fixpoint chains_through (find : DataVersion → run (list MigrationStep)) (from_map : gmap DataVersion MigrationStep)
    (to : DataVersion) (ks : list DataVersion) : run (list (list MigrationStep)) :=
  match ks with
  | [] => Ret []
  | next_key :: ks =>
      migration ← expect (from_map !! next_key);
      chain ← (if decide (next_key = to) then Ret (Some [migration])
               else tail ← find next_key;
                    Ret (match tail with [] => None | _ => Some (migration :: tail) end));
      rest ← chains_through find from_map to ks;
      Ret (match chain with Some c => c :: rest | None => rest end)
  end.

Definition shorter (sofar elem : list MigrationStep) : list MigrationStep :=
  if bool_decide (length sofar = 0%nat) || (length elem <? length sofar)%nat then elem else sofar.

Fixpoint find_migration_chain (fuel : nat) (m : Migrations) (from to : DataVersion) : run (list MigrationStep) :=
  match fuel with
  | O => Panic
  | S fuel =>
      from_map ← expect (table m !! from);
      elems ← chains_through (λ next_key, find_migration_chain fuel m next_key to) from_map to
                (order from (dom from_map));
      Ret (foldl shorter [] elems)
  end.

(** Versions only grow along a chain, so it is no longer than the table. *)
Definition chain_fuel (m : Migrations) : nat := S (size (table m)).

(** The migrations come back with the chain cached as one step. *)
Definition migration (m : Migrations) (from_version : DataVersion) : run (Migrations * option MigrationStep) :=
  match table m !! from_version with
  | None => Ret (m, None)
  | Some from_map =>
      match from_map !! current_version m with
      | Some step => Ret (m, Some step)
      | None =>
          elements ← find_migration_chain (chain_fuel m) m from_version (current_version m);
          match elements with
          | [] => Ret (m, None)
          | _ => Ret (insert_step m from_version (current_version m) (combo_step elements), Some (combo_step elements))
          end
      end
  end.

Definition extract {T} `{Codec T} (self : VersionedData) (m : Migrations) : run (Migrations * result MigrationError T) :=
  let from_version := if gt (vd_version self) (current_version m) then FUTURE_VERSION else vd_version self in
  '(m, migrated_bytes) ←
    (if decide (from_version = current_version m) then Ret (m, Ok (vd_bytes self))
     else '(m, step) ← migration m from_version;
          match step with
          | None => Ret (m, Err (MigrationNotFound from_version (current_version m)))
          | Some step =>
              r ← step (vd_bytes self);
              Ret (m, match r with Err e => Err (MigrationFailed e) | Ok bytes => Ok bytes end)
          end);
  Ret (m, match migrated_bytes with
          | Err e => Err e
          | Ok bytes =>
              match from_slice bytes with
              | None => Err (MigrationFailed (StepDeserializationError (current_version m) (current_version m)))
              | Some item => Ok item
              end
          end).

End search.

(** ** Chains *)

Section chains.
Context (m : Migrations) (to : DataVersion).

Definition edge (a b : DataVersion) (s : MigrationStep) : Prop :=
  ∃ from_map, table m !! a = Some from_map ∧ from_map !! b = Some s.

(** A chain of steps from a version to [to]. *)
Inductive path : DataVersion → list MigrationStep → Prop :=
| path_last a s : edge a to s → path a [s]
| path_step a b s ss : edge a b s → b ≠ to → path b ss → path a (s :: ss).

(** Some chain of steps leads to a version, not [to], from which none starts. *)
Inductive dead_end : DataVersion → Prop :=
| dead_here a : table m !! a = None → dead_end a
| dead_next a b s : edge a b s → b ≠ to → dead_end b → dead_end a.

Lemma path_nonempty a ss : path a ss → ss ≠ [].
Proof. by destruct 1. Qed.

Lemma shorter_fold (init : list MigrationStep) elems :
  Forall (.≠ []) elems →
  let r := foldl shorter init elems in
  (r = init ∨ r ∈ elems) ∧ (∀ e, e ∈ elems → r ≠ [] ∧ (length r ≤ length e)%nat) ∧
  (init ≠ [] → r ≠ [] ∧ (length r ≤ length init)%nat).
Proof.
  revert init; induction elems as [|e elems IH]; intros init Hne; simpl.
  { split_and!; [by left|by intros e ?%elem_of_nil|done]. }
  apply Forall_cons in Hne as [He Hne]. destruct (IH (shorter init e) Hne) as (H1 & H2 & H3).
  set (r := foldl shorter (shorter init e) elems) in *.
  assert (shorter init e ≠ [] ∧ (length (shorter init e) ≤ length e)%nat ∧
    (init ≠ [] → length (shorter init e) ≤ length init)%nat ∧ (shorter init e = init ∨ shorter init e = e)) as (H4 & H5 & H6 & H7).
  { unfold shorter. case_bool_decide as Hl; simpl.
    - split_and!; [done|done|intros Hi; by destruct init|by right].
    - destruct (Nat.ltb_spec (length e) (length init)); split_and!; (done || lia || (by left) || (by right) || idtac).
      intros ->. done. }
  destruct (H3 H4) as [Hr Hle]. split_and!.
  - destruct H1 as [->|?]; [|right; by right]. destruct H7 as [->| ->]; [by left|right; by left].
  - intros e' [->|He']%elem_of_cons; [split; [done|lia]|by apply H2].
  - intros Hi. split; [done|]. specialize (H6 Hi). lia.
Qed.

(** The answer of a search from [a]. *)
Definition search_ok (a : DataVersion) (r : run (list MigrationStep)) : Prop :=
  match r with
  | Panic => dead_end a
  | Ret chain => ¬ dead_end a ∧
      match chain with
      | [] => ∀ ss, ¬ path a ss
      | _ => path a chain ∧ ∀ ss, path a ss → (length chain ≤ length ss)%nat
      end
  end.

Lemma chains_through_spec find a from_map ks :
  table m !! a = Some from_map → (∀ k, k ∈ ks → is_Some (from_map !! k)) →
  (∀ k, k ∈ ks → k ≠ to → search_ok k (find k)) →
  match chains_through find from_map to ks with
  | Panic => ∃ k s, k ∈ ks ∧ edge a k s ∧ k ≠ to ∧ dead_end k
  | Ret elems =>
      (∀ k, k ∈ ks → k ≠ to → ¬ dead_end k) ∧
      (∀ e, e ∈ elems → path a e) ∧
      (∀ k s ss, k ∈ ks → edge a k s → (k = to ∧ ss = [] ∨ k ≠ to ∧ path k ss) →
        ∃ e, e ∈ elems ∧ (length e ≤ S (length ss))%nat)
  end.
Proof.
  intros Ha. induction ks as [|k ks IH]; intros Hks Hfind; simpl.
  { split_and!; intros ? *; by intros ?%elem_of_nil. }
  destruct (Hks k) as [s Hs]; [by left|]. rewrite Hs. cbn [expect mbind run_bind].
  assert (edge a k s) as Hedge by by eexists.
  assert (∀ s', edge a k s' → s' = s) as Hfun by (intros s' (fm & ? & ?); congruence).
  specialize (IH (λ k H, Hks k (list_elem_of_further _ _ _ H)) (λ k H, Hfind k (list_elem_of_further _ _ _ H))).
  destruct (decide (k = to)) as [->|Hne].
  - cbn [mbind run_bind]. destruct (chains_through _ _ _ ks) as [elems|].
    + destruct IH as (I1 & I2 & I3). cbn [mbind run_bind]. split_and!.
      * intros k' [->|?]%elem_of_cons ?; [done|by apply I1].
      * intros e [->|?]%elem_of_cons; [by apply path_last|by apply I2].
      * intros k' s' ss [->|Hk']%elem_of_cons He Hss; [exists [s]; split; [by left|simpl; lia]|].
        destruct (I3 _ _ _ Hk' He Hss) as (e & ? & ?). exists e. split; [by right|done].
    + destruct IH as (k' & s' & ? & ? & ? & ?). exists k', s'. split_and!; [by right|done..].
  - pose proof (Hfind k ltac:(by left) Hne) as Hk. unfold search_ok in Hk.
    destruct (find k) as [tail|]; cbn [mbind run_bind]; [|exists k, s; by split_and!; [left|..]].
    destruct Hk as [Hnd Htail]. destruct (chains_through _ _ _ ks) as [elems|]; cbn [mbind run_bind].
    2: { destruct IH as (k' & s' & ? & ? & ? & ?). exists k', s'. split_and!; [by right|done..]. }
    destruct IH as (I1 & I2 & I3).
    assert (∀ k', k' ∈ k :: ks → k' ≠ to → ¬ dead_end k') as Hnd' by (intros k' [->|?]%elem_of_cons ?; [done|by apply I1]).
    destruct tail as [|t0 tail].
    + split_and!; [done|done|]. intros k' s' ss [->|Hk']%elem_of_cons He Hss; [|by eapply I3].
      destruct Hss as [[? _]|[_ Hp]]; [done|by apply Htail in Hp].
    + destruct Htail as [Hp Hmin]. split_and!; [done| |].
      * intros e [->|?]%elem_of_cons; [by eapply path_step|by apply I2].
      * intros k' s' ss [->|Hk']%elem_of_cons He Hss.
        -- destruct Hss as [[? _]|[_ Hss]]; [done|]. exists (s :: t0 :: tail). split; [by left|].
           specialize (Hmin _ Hss). cbn [length] in *. lia.
        -- destruct (I3 _ _ _ Hk' He Hss) as (e & ? & ?). exists e. split; [by right|done].
Qed.
End chains.

(** *** The search ends *)

Section termination.
Context (m : Migrations) (to : DataVersion) (order : DataVersion → gset DataVersion → list DataVersion).

(** What [validate_step] makes sure of. *)
Definition forward : Prop :=
  ∀ a b s, edge m a b s → b ≠ FUTURE_VERSION ∧ (a = FUTURE_VERSION ∨ version_number a < version_number b).

Hypothesis Hforward : forward.
Hypothesis Horder : ∀ a s, order a s ≡ₚ elements s.

Definition rank (v : DataVersion) : nat :=
  if decide (v = FUTURE_VERSION) then size (table m)
  else size (filter (λ k, k ≠ FUTURE_VERSION ∧ version_number v < version_number k) (dom (table m))).

Lemma rank_edge a b s : edge m a b s → is_Some (table m !! b) → (rank b < rank a)%nat.
Proof.
  intros He Hb. destruct (Hforward a b s He) as [Hnf Hlt]. apply elem_of_dom in Hb. unfold rank.
  rewrite (decide_False (P := b = FUTURE_VERSION)) by done.
  destruct (decide (a = FUTURE_VERSION)) as [->|Ha].
  - rewrite <- size_dom. apply subset_size. split; [intros k ?%elem_of_filter; tauto|].
    intros Hsub. specialize (Hsub b Hb). apply elem_of_filter in Hsub as [[_ ?] _]. lia.
  - destruct Hlt as [?|Hlt]; [done|]. apply subset_size. split.
    + intros k [[? ?] ?]%elem_of_filter. apply elem_of_filter. split_and!; [done|lia|done].
    + intros Hsub. assert (b ∈ filter (λ k, k ≠ FUTURE_VERSION ∧ version_number a < version_number k) (dom (table m))) as Hin
        by by apply elem_of_filter.
      apply Hsub, elem_of_filter in Hin as [[_ ?] _]. lia.
Qed.

Lemma rank_bound v : (rank v ≤ size (table m))%nat.
Proof.
  unfold rank. destruct (decide _); [done|]. rewrite <- size_dom. apply subseteq_size.
  intros k ?%elem_of_filter. tauto.
Qed.

Lemma find_chain_spec fuel a :
  (rank a < fuel)%nat → search_ok m to a (find_migration_chain order fuel m a to).
Proof.
  revert a; induction fuel as [|fuel IH]; intros a Hfuel; [lia|]. simpl.
  destruct (table m !! a) as [from_map|] eqn:Ha; [|by apply dead_here]. cbn [expect mbind run_bind].
  assert (∀ k, k ∈ order a (dom from_map) ↔ is_Some (from_map !! k)) as Hks
    by (intros k; rewrite Horder, elem_of_elements; apply elem_of_dom).
  assert (∀ k s, edge m a k s → from_map !! k = Some s) as Hedge by (intros k s (fm & ? & ?); congruence).
  pose proof (chains_through_spec m to (λ k, find_migration_chain order fuel m k to) a from_map
                (order a (dom from_map)) Ha (λ k H, proj1 (Hks k) H)) as Hc.
  specialize (Hc ltac:(intros k [s Hs]%Hks Hne; destruct (table m !! k) as [fm|] eqn:Hk;
    [apply IH; pose proof (rank_edge a k s (ex_intro _ from_map (conj Ha Hs)) (mk_is_Some _ _ Hk)); lia
    |destruct fuel; simpl; rewrite ?Hk; by apply dead_here])).
  destruct (chains_through _ _ _ _) as [elems|]; cbn [mbind run_bind].
  2: { destruct Hc as (k & s & _ & He & Hne & Hd). by eapply dead_next. }
  destruct Hc as (Hnd & Hsound & Hcomplete).
  assert (Forall (.≠ []) elems) as Hne by (apply Forall_forall; intros e He; by eapply path_nonempty, Hsound).
  destruct (shorter_fold [] elems Hne) as (H1 & H2 & _). simpl. split.
  - inversion 1 as [? Hn|? k s He Hk Hd]; subst; [congruence|].
    apply (Hnd k); [apply Hks; by eexists; apply Hedge|done|done].
  - assert (∀ ss, path m to a ss → ∃ e, e ∈ elems ∧ (length e ≤ length ss)%nat) as Hall.
    { intros ss Hp. inversion Hp as [? s He|? k s ss' He Hk Hp']; subst.
      - destruct (Hcomplete to s []) as (e & ? & ?); [apply Hks; by eexists; apply Hedge|done|by left|by exists e].
      - destruct (Hcomplete k s ss') as (e & ? & ?); [apply Hks; by eexists; apply Hedge|done|by right|by exists e]. }
    destruct (foldl shorter [] elems) as [|s0 chain] eqn:Ef.
    + intros ss (e & He & _)%Hall. by destruct (H2 e He).
    + split; [apply Hsound; by destruct H1|]. intros ss (e & He & ?)%Hall. destruct (H2 e He). lia.
Qed.
End termination.

(** ** Tables built step by step *)

Definition versions_ok (m : Migrations) : Prop :=
  in_range (current_version m) ∧ current_version m ≠ FUTURE_VERSION ∧ forward m.

Lemma insert_step_edge m from to step a b s :
  edge (insert_step m from to step) a b s → (a = from ∧ b = to ∧ s = step) ∨ edge m a b s.
Proof.
  intros (fm & Hfm & Hs). simpl in Hfm. apply lookup_insert_Some in Hfm as [[<- <-]|[Hne Hfm]].
  - apply lookup_insert_Some in Hs as [[<- <-]|[Hne Hs]]; [by left|right].
    destruct (table m !! from) as [fm|] eqn:E; [by exists fm|]. simpl in Hs. by rewrite lookup_empty in Hs.
  - right. by exists fm.
Qed.

Lemma add_step_ok m from to step m' :
  versions_ok m → in_range from → in_range to → add_step m from to step = Ret m' → versions_ok m'.
Proof.
  intros (Hr & Hnf & Hf) Hfrom Hto. unfold add_step, validate_step, panic_if.
  case_bool_decide as H1; [done|]. case_bool_decide as H2; [done|].
  destruct (gt to (current_version m)) eqn:H3; [done|].
  assert (∀ P : Prop, P → insert_step m from to step = m' →
    (from = FUTURE_VERSION ∨ version_number from < version_number to) → versions_ok m') as Hins.
  { intros _ _ <- Hlt. split_and!; [done|done|]. intros a b s [(-> & -> & ->)|He]%insert_step_edge; [done|by apply (Hf a b s)]. }
  case_bool_decide as H4.
  - destruct (gt from to) eqn:H5; [done|]. repeat case_match; try done. intros [= Hm].
    apply (Hins True I Hm). right. destruct (decide (version_number to < version_number from)) as [Hlt|Hge].
    { apply gt_number in Hlt; [congruence|done|done]. }
    assert (version_number from ≠ version_number to); [|lia].
    intros E. apply H2. unfold version_number in E. destruct from as [fa fi], to as [ta ti], Hfrom, Hto; simpl in *.
    f_equal; lia.
  - intros [= Hm]. apply (Hins True I Hm). left. destruct (decide (from = FUTURE_VERSION)); [done|]. by destruct H4.
Qed.


Lemma path_forward m to a ss : forward m → path m to a ss → a = FUTURE_VERSION ∨ version_number a < version_number to.
Proof.
  intros Hf. induction 1 as [a s He|a b s ss He Hne Hp IH]; [by apply (Hf a to s)|].
  destruct (Hf a b s He) as [Hb [?|?]]; [by left|right]. destruct IH as [?|?]; [done|lia].
Qed.

(** The tables that come about: steps that were validated, and chains cached by
    earlier searches. *)
Inductive built (order : DataVersion → gset DataVersion → list DataVersion) : Migrations → Prop :=
| built_new v : in_range v → v ≠ FUTURE_VERSION → built order (migrations_new v)
| built_add m from to step m' : built order m → in_range from → in_range to →
    add_step m from to step = Ret m' → built order m'
| built_cache m v m' r : built order m → migration order m v = Ret (m', r) → built order m'.

(** What [migration] answers. *)
Definition migration_ok (m : Migrations) (v : DataVersion) (r : run (Migrations * option MigrationStep)) : Prop :=
  match r with
  | Panic => dead_end m (current_version m) v
  | Ret (_, None) => ∀ ss, ¬ path m (current_version m) v ss
  | Ret (_, Some step) =>
      ∃ chain, path m (current_version m) v chain ∧
        (∀ ss, path m (current_version m) v ss → (length chain ≤ length ss)%nat) ∧
        ∀ data, step data = combo_step chain data
  end.

Lemma migration_spec order m v :
  (∀ a s, order a s ≡ₚ elements s) → forward m →
  migration_ok m v (migration order m v) ∧
  ∀ m' r, migration order m v = Ret (m', r) → m' = m ∨ ∃ ss, path m (current_version m) v ss ∧
    m' = insert_step m v (current_version m) (combo_step ss).
Proof.
  intros Ho Hf. unfold migration, migration_ok. destruct (table m !! v) as [fm|] eqn:Hv.
  2: { split; [|by intros m' r [= <- _]; left]. intros ss Hp. inversion Hp as [? s (fm & ? & _)|? b s ? (fm & ? & _)]; congruence. }
  destruct (fm !! current_version m) as [step|] eqn:Hs.
  { split; [|by intros m' r [= <- _]; left]. exists [step]. split_and!; [by apply path_last; exists fm| |done].
    intros ss Hp%path_nonempty. destruct ss; [done|simpl; lia]. }
  pose proof (find_chain_spec m (current_version m) order Hf Ho (chain_fuel m) v) as Hfind.
  specialize (Hfind ltac:(unfold chain_fuel; pose proof (rank_bound m v); lia)).
  destruct (find_migration_chain _ _ _ _ _) as [[|s chain]|]; cbn [mbind run_bind]; destruct Hfind as [? Hfind] || idtac.
  - split; [done|by intros m' r [= <- _]; left].
  - destruct Hfind as [Hp Hmin]. split; [by exists (s :: chain)|]. intros m' r [= <- _]. right. by exists (s :: chain).
  - done.
Qed.

Lemma built_ok order m : (∀ a s, order a s ≡ₚ elements s) → built order m → versions_ok m.
Proof.
  intros Ho. induction 1 as [v Hr Hnf|m from to step m' _ IH Hf Ht Ha|m v m' r _ IH Hm].
  - split_and!; [done|done|]. intros a b s (fm & Hfm & _). unfold migrations_new in Hfm. simpl in Hfm. by rewrite lookup_empty in Hfm.
  - exact (add_step_ok m from to step m' IH Hf Ht Ha).
  - destruct IH as (Hr & Hnf & Hf). destruct (migration_spec order m v Ho Hf) as [_ Hcase].
    destruct (Hcase _ _ Hm) as [->|(ss & Hp & ->)]; [done|]. split_and!; [done|done|].
    intros a b s [(-> & -> & ->)|He]%insert_step_edge; [|by apply (Hf a b s)].
    split; [done|]. by eapply path_forward.
Qed.

(** Migrations follow a shortest chain of steps.  For every table built from
    validated steps and cached chains, the search ends; the step it answers does
    what the steps of a shortest chain to the current version do one after the
    other, nothing is answered only if there is no chain, and it panics only if
    some chain of steps leads to a version from which no step starts. *)
Lemma migration_shortest_chain (order : DataVersion → gset DataVersion → list DataVersion) (m : Migrations)
    (v : DataVersion) :
  (∀ a s, order a s ≡ₚ elements s) → built order m → migration_ok m v (migration order m v).
Proof.
  intros Ho Hb. destruct (built_ok order m Ho Hb) as (_ & _ & Hf). by apply migration_spec.
Qed.

(** Data of the current version is read back as it was written. *)
Lemma extract_new {T} `{CodecOk T} order (m : Migrations) (data : T) :
  in_range (current_version m) →
  ∃ vd, vd_new m data = Ret vd ∧ extract order vd m = Ret (m, Ok data).
Proof.
  intros Hr. destruct (from_to_vec data) as (bytes & Hto & _ & Hfrom).
  unfold vd_new. rewrite Hto. cbn [expect mbind run_bind]. eexists. split; [done|].
  unfold extract. simpl. replace (gt (current_version m) (current_version m)) with false.
  - rewrite decide_True by done. cbn [mbind run_bind]. by rewrite Hfrom.
  - symmetry. apply not_true_iff_false. intros Hg%gt_number; [lia|done|done].
Qed.

(** ** A concrete table *)

Definition demo_order (a : DataVersion) (s : gset DataVersion) : list DataVersion := elements s.
Definition append_byte (n : Z) : MigrationStep := λ data, Ret (Ok (data ++ [n])).

Definition demo_migrations : run Migrations :=
  m ← add_step (migrations_new (MkVersion 1 4)) (MkVersion 1 0) (MkVersion 1 1) (append_byte 1);
  m ← add_step m (MkVersion 1 1) (MkVersion 1 2) (append_byte 2);
  m ← add_step m (MkVersion 1 2) (MkVersion 1 4) (append_byte 3);
  add_step m (MkVersion 1 0) (MkVersion 1 2) (append_byte 4).

Definition demo_table : Migrations :=
  match demo_migrations with Ret m => m | Panic => migrations_new (MkVersion 1 4) end.

Lemma demo_table_built : built demo_order demo_table.
Proof.
  assert (∀ a b, 0 ≤ a < 2 ^ 16 → 0 ≤ b < 2 ^ 16 → in_range (MkVersion a b)) as Hr by done.
  assert (demo_migrations = Ret demo_table) as Hd by (vm_compute; done).
  unfold demo_migrations in Hd.
  do 3 (apply run_bind_ret in Hd as (? & ? & Hd)).
  repeat match goal with H : add_step _ _ _ _ = Ret ?x |- built _ ?x =>
    refine (built_add _ _ _ _ _ _ _ (Hr _ _ _ _) (Hr _ _ _ _) H); try lia; clear H end.
  apply built_new; [by apply Hr; lia|done].
Qed.

(** A table with a step that leads nowhere: instead of an answer, a panic. *)
Example dead_end_panics :
  (m ← add_step (migrations_new (MkVersion 1 4)) (MkVersion 1 0) (MkVersion 1 1) (append_byte 1);
   migration demo_order m (MkVersion 1 0)) = Panic.
Proof. vm_compute. reflexivity. Qed.

End Versioned.
