(* ===== verification/Hopper.v ===== *)
(** * The hopper: packages on their way through the network

    Models [node/src/hopper/live_cores_package.rs],
    [node/src/hopper/consuming_service.rs], [node/src/hopper/routing_service.rs]
    and the messages of [node/src/sub_lib/hopper.rs], with [Payer] of
    [node/src/blockchain/payer.rs].

    A message sent to another actor is a value of [Sent]; a handler returns the
    messages it sends, in order.  The actors are alive.  The current time, the
    cache of banned wallets, signature checks and serialization are parameters.
    Migrations of payloads are those of [VersionedData.v]; what the search for a
    migration caches in the static tables is not carried over. *)
From S2P Require Import Prelude.
From S2P Require Import CountryBlockStream NeighborhoodDatabase Cryptde Route VersionedData.
From stdpp Require Import base list gmap.

Module Hopper.
Import Cryptde Route.
Local Open Scope Z_scope.

Definition SocketAddr : Type := Stream.IpAddr * Z.

Inductive Endpoint :=
| Key (k : PublicKey)
| Socket (a : SocketAddr).

Record TransmitDataMsg := MkTransmit {
  endpoint : Endpoint;
  tx_last_data : bool;
  tx_data : list Z;
  tx_sequence_number : option Z
}.

Record InboundClientData := MkInbound {
  timestamp : Z;
  client_addr : SocketAddr;
  reception_port : option Z;
  last_data : bool;
  is_clandestine : bool;
  sequence_number : option Z;
  data : list Z
}.

Inductive MessageType :=
| ClientRequest (vd : Versioned.VersionedData)
| ClientResponse (vd : Versioned.VersionedData)
| Gossip (vd : Versioned.VersionedData)
| GossipFailure (vd : Versioned.VersionedData)
| DnsResolveFailed (vd : Versioned.VersionedData).

Section hopper.
Context {Wallet Signature : Type}.
Context {ClientRequestPayload ClientResponsePayload GossipT GossipFailureT DnsResolveFailure : Type}.
Context `{!Codec (LiveHop Wallet Signature), !Codec Z, !Codec MessageType}.
Context `{!Codec ClientRequestPayload, !Codec ClientResponsePayload, !Codec GossipT, !Codec GossipFailureT,
          !Codec DnsResolveFailure}.

Record ReportRoutingServiceProvidedMessage := MkReport {
  rp_timestamp : Z;
  paying_wallet : Wallet;
  payload_size : nat;
  service_rate : Z;
  byte_rate : Z
}.

Record LiveCoresPackage := MkLive {
  lcp_version : list Z;
  route : Route.Route;
  payload : CryptData
}.
Context `{!Codec LiveCoresPackage}.

Record IncipientCoresPackage := MkIncipient {
  ic_route : Route.Route;
  ic_payload : CryptData
}.

Record NoLookupIncipientCoresPackage := MkNoLookup {
  nl_public_key : PublicKey;
  nl_node_addr : Neighborhood.NodeAddr;
  nl_payload : CryptData
}.

Record ExpiredCoresPackage (T : Type) := MkExpired {
  immediate_neighbor : SocketAddr;
  ex_paying_wallet : option Wallet;
  remaining_route : Route.Route;
  ex_payload : T;
  payload_len : nat
}.
Arguments MkExpired {T}.
Arguments immediate_neighbor {T}.
Arguments ex_paying_wallet {T}.
Arguments remaining_route {T}.
Arguments ex_payload {T}.
Arguments payload_len {T}.

(** Messages to the other actors. *)
Inductive Sent :=
| ToDispatcher (m : TransmitDataMsg)
| ToHopper (m : InboundClientData)
| ToAccountant (m : ReportRoutingServiceProvidedMessage)
| ToProxyClient (p : ExpiredCoresPackage ClientRequestPayload)
| ToProxyServer (p : ExpiredCoresPackage ClientResponsePayload)
| ToProxyServerDnsFailure (p : ExpiredCoresPackage DnsResolveFailure)
| ToNeighborhood (p : ExpiredCoresPackage GossipT)
| ToNeighborhoodFailure (p : ExpiredCoresPackage GossipFailureT).

(** ** Packages *)

Definition lcp_current_version : run (list Z) := expect_ok (PackedVersion.new 0 0).

Definition live_new (r : Route.Route) (p : CryptData) : run LiveCoresPackage :=
  v ← lcp_current_version; Ret (MkLive v r p).

Definition into_next_live (self : LiveCoresPackage) (cryptde : CryptDE)
    : run (result CodexError (LiveHop Wallet Signature * LiveCoresPackage)) :=
  '(r, next) ← shift (route self) cryptde;
  match next with
  | Err e => Ret (Err e)
  | Ok next_hop => next_live ← live_new r (payload self); Ret (Ok (next_hop, next_live))
  end.

Context (as_payer : Wallet → PublicKey → list Z → run (Payer Wallet Signature)).

Definition from_no_lookup_incipient (incipient : NoLookupIncipientCoresPackage) (cryptde : CryptDE)
    : run (result CodexError (LiveCoresPackage * PublicKey)) :=
  r ← single_hop as_payer (nl_public_key incipient) cryptde;
  match r with
  | Err e => Ret (Err e)
  | Ok r =>
      '(r, shifted) ← shift r cryptde;
      _ ← expect_ok (shifted : result CodexError (LiveHop Wallet Signature));
      live ← live_new r (nl_payload incipient);
      Ret (Ok (live, nl_public_key incipient))
  end.

Definition from_incipient (incipient : IncipientCoresPackage) (cryptde : CryptDE)
    : run (result CodexError (LiveCoresPackage * LiveHop Wallet Signature)) :=
  '(r, shifted) ← shift (ic_route incipient) cryptde;
  match shifted with
  | Err e => Ret (Err e)
  | Ok h => live ← live_new r (ic_payload incipient); Ret (Ok (live, h))
  end.

Definition to_expired (self : LiveCoresPackage) (immediate_neighbor_addr : SocketAddr)
    (main_cryptde payload_cryptde : CryptDE) : run (result CodexError (ExpiredCoresPackage MessageType)) :=
  top ← next_hop (route self) main_cryptde;
  match top with
  | Err e => Ret (Err e)
  | Ok top_hop =>
      decoded ← decodex payload_cryptde (payload self);
      Ret (match decoded with
           | Err e => Err e
           | Ok decoded_payload =>
               Ok (MkExpired immediate_neighbor_addr (wallet <$> Route.payer (top_hop : LiveHop Wallet Signature)) (route self)
                     decoded_payload (length (payload self)))
           end)
  end.

Definition incipient_new (cryptde : CryptDE) (r : Route.Route) (message : MessageType)
    (payload_destination_key : PublicKey) : result CodexError IncipientCoresPackage :=
  p ← encodex cryptde payload_destination_key message; Ok (MkIncipient r p).

Definition no_lookup_new (cryptde : CryptDE) (key : PublicKey) (node_addr : Neighborhood.NodeAddr)
    (message : MessageType) : result CodexError NoLookupIncipientCoresPackage :=
  p ← encodex cryptde key message; Ok (MkNoLookup key node_addr p).

(** ** [ConsumingService] *)

Context (now : Z).

Definition launch_lcp (encrypted_package : CryptData) (next_stop : Endpoint) : list Sent :=
  [ToDispatcher (MkTransmit next_stop false encrypted_package None)].

(** The package goes round to this node's own hopper. *)
Definition zero_hop (encrypted_package : CryptData) : list Sent :=
  [ToHopper (MkInbound now (Stream.IpV4 0x7F000001, 0) None false true None encrypted_package)].

Definition consume_no_lookup (cryptde : CryptDE) (incipient : NoLookupIncipientCoresPackage) : run (list Sent) :=
  let target_key := nl_public_key incipient in
  let target_node_addr := nl_node_addr incipient in
  live ← from_no_lookup_incipient incipient cryptde;
  match live with
  | Err _ => Ret []
  | Ok (live_package, _) =>
      match encodex cryptde target_key live_package with
      | Err _ => Ret []
      | Ok encrypted_package =>
          let socket_addrs := (λ port, (Neighborhood.ip_addr target_node_addr, port)) <$> Neighborhood.ports target_node_addr in
          socket_addr ← get socket_addrs 0;
          Ret (launch_lcp encrypted_package (Socket socket_addr))
      end
  end.

Definition consume (cryptde : CryptDE) (incipient : IncipientCoresPackage) : run (list Sent) :=
  live ← from_incipient incipient cryptde;
  match live with
  | Err _ => Ret []
  | Ok (live_package, hop) =>
      match encodex cryptde (hop_public_key hop) live_package with
      | Err _ => Ret []
      | Ok encrypted_package =>
          if bool_decide (hop_public_key hop = cd_public_key cryptde) then Ret (zero_hop encrypted_package)
          else Ret (launch_lcp encrypted_package (Key (hop_public_key hop)))
      end
  end.

(** ** Payers *)

Context {EthKey EthAddress : Type} `{!EqDecision EthAddress}.
Context (recover : Signature → list Z → option EthKey) (verify : EthKey → Signature → list Z → option bool)
  (key_address : EthKey → EthAddress) (wallet_address : Wallet → EthAddress).
Context (is_banned : Wallet → bool).

Definition owns_secret_key (self : Payer Wallet Signature) (dig : list Z) : bool :=
  match recover (proof self) dig with
  | Some payer_public_key =>
      match verify payer_public_key (proof self) dig with
      | Some res => res && bool_decide (key_address payer_public_key = wallet_address (wallet self))
      | None => false
      end
  | None => false
  end.

Definition is_delinquent (self : Payer Wallet Signature) : bool := is_banned (wallet self).

Definition payer_owns_secret_key (self : LiveHop Wallet Signature) (dig : list Z) : bool :=
  match Route.payer self with
  | Some p => owns_secret_key p dig
  | None => false
  end.

(** ** [RoutingService] *)

Record RoutingService := MkRouting {
  main : CryptDE;
  alias : CryptDE;
  proxy_client_running : bool;
  per_routing_service : Z;
  per_routing_byte : Z;
  is_decentralized : bool
}.

(** The migrations of each kind of payload, and the iteration order of their
    tables. *)
Context (request_migrations response_migrations gossip_migrations gossip_failure_migrations
         dns_failure_migrations : Versioned.Migrations).
Context (order : DataVersion.DataVersion → gset DataVersion.DataVersion → list DataVersion.DataVersion).

Definition try_from {T} `{Codec T} (migrations : Versioned.Migrations) (vd : Versioned.VersionedData)
    : run (result Versioned.MigrationError T) :=
  '(_, r) ← Versioned.extract order vd migrations; Ret r.

(** Pass a migrated payload on; one that cannot be migrated is dropped. *)
Definition forward_expired {T} `{Codec T} (migrations : Versioned.Migrations)
    (expired : ExpiredCoresPackage MessageType) (vd : Versioned.VersionedData)
    (send : ExpiredCoresPackage T → Sent) : run (list Sent) :=
  p ← try_from migrations vd;
  match p with
  | Err _ => Ret []
  | Ok p => Ret [send (MkExpired (immediate_neighbor expired) (ex_paying_wallet expired) (remaining_route expired)
                         p (payload_len expired))]
  end.

Definition route_expired_package (self : RoutingService) (comp : Component)
    (expired : ExpiredCoresPackage MessageType) (owns : bool) : run (list Sent) :=
  match comp, ex_payload expired with
  | ProxyClient, ClientRequest vd =>
      if negb (is_decentralized self) || owns then
        if proxy_client_running self then forward_expired request_migrations expired vd ToProxyClient else Ret []
      else Ret []
  | ProxyServer, ClientResponse vd => forward_expired response_migrations expired vd ToProxyServer
  | ProxyServer, DnsResolveFailed vd => forward_expired dns_failure_migrations expired vd ToProxyServerDnsFailure
  | Neighborhood, Gossip vd => forward_expired gossip_migrations expired vd ToNeighborhood
  | Neighborhood, GossipFailure vd => forward_expired gossip_failure_migrations expired vd ToNeighborhoodFailure
  | _, _ => Ret []
  end.

Definition extract_expired_package (self : RoutingService) (immediate_neighbor_addr : SocketAddr)
    (live_package : LiveCoresPackage) (comp : Component) : run (option (ExpiredCoresPackage MessageType)) :=
  let payload_cryptde := match comp with ProxyServer => alias self | _ => main self end in
  e ← to_expired live_package immediate_neighbor_addr (main self) payload_cryptde;
  Ret (match e with Ok pkg => Some pkg | Err _ => None end).

Definition route_data_to_peripheral_component (self : RoutingService) (comp : Component)
    (immediate_neighbor_addr : SocketAddr) (live_package : LiveCoresPackage) (owns : bool) : run (list Sent) :=
  e ← extract_expired_package self immediate_neighbor_addr live_package comp;
  match e with
  | None => Ret []
  | Some expired_package => route_expired_package self comp expired_package owns
  end.

Definition clone_but_data (self : InboundClientData) : InboundClientData :=
  MkInbound now (client_addr self) (reception_port self) (last_data self) (is_clandestine self) (sequence_number self) [].

Definition route_data_around_again (self : RoutingService) (live_package : LiveCoresPackage)
    (ibcd_but_data : InboundClientData) : run (list Sent) :=
  next ← into_next_live live_package (main self);
  match next with
  | Err _ => Ret []
  | Ok (_, next_lcp) =>
      p ← expect_ok (encodex (main self) (cd_public_key (main self)) next_lcp);
      Ret [ToHopper (MkInbound (timestamp ibcd_but_data) (client_addr ibcd_but_data) (reception_port ibcd_but_data)
                       (last_data ibcd_but_data) (is_clandestine ibcd_but_data) (sequence_number ibcd_but_data) p)]
  end.

Definition route_data_internally (self : RoutingService) (hop : LiveHop Wallet Signature)
    (immediate_neighbor_addr : SocketAddr) (live_package : LiveCoresPackage) (ibcd_but_data : InboundClientData)
    : run (list Sent) :=
  if decide (component hop = Hopper) then route_data_around_again self live_package ibcd_but_data
  else
    let deliver := route_data_to_peripheral_component self (component hop) immediate_neighbor_addr live_package
                     (payer_owns_secret_key hop (digest (main self))) in
    match Route.payer hop with
    | None => deliver
    | Some p => if is_delinquent p then Ret [] else deliver
    end.

(** [None] when the package cannot be decoded or encoded again. *)
Definition to_transmit_data_msg (self : RoutingService) (live_package : LiveCoresPackage) (last : bool)
    : run (option TransmitDataMsg) :=
  next ← into_next_live live_package (main self);
  match next with
  | Err _ => Ret None
  | Ok (hop, next_live_package) =>
      Ret (match encodex (main self) (hop_public_key hop) next_live_package with
           | Err _ => None
           | Ok enc => Some (MkTransmit (Key (hop_public_key hop)) last enc None)
           end)
  end.

Definition route_data_externally (self : RoutingService) (live_package : LiveCoresPackage)
    (payer_opt : option (Payer Wallet Signature)) (last : bool) : run (list Sent) :=
  match payer_opt with
  | None => Ret []
  | Some p =>
      if negb (owns_secret_key p (digest (main self))) then Ret []
      else if is_delinquent p then Ret []
      else
        let report := ToAccountant (MkReport now (wallet p) (length (payload live_package))
                                      (per_routing_service self) (per_routing_byte self)) in
        m ← to_transmit_data_msg self live_package last;
        Ret (report :: match m with Some transmit_msg => [ToDispatcher transmit_msg] | None => [] end)
  end.

Definition route_data (self : RoutingService) (sender_addr : SocketAddr) (hop : LiveHop Wallet Signature)
    (live_package : LiveCoresPackage) (last : bool) (ibcd_but_data : InboundClientData) : run (list Sent) :=
  if bool_decide (component hop = Hopper) && negb (bool_decide (hop_public_key hop = cd_public_key (main self)))
  then route_data_externally self live_package (Route.payer hop) last
  else route_data_internally self hop sender_addr live_package ibcd_but_data.

Definition route_inbound (self : RoutingService) (ibcd : InboundClientData) : run (list Sent) :=
  lp ← decodex (main self) (data ibcd);
  match lp with
  | Err _ => Ret []
  | Ok live_package =>
      h ← next_hop (route live_package) (main self);
      match h with
      | Err _ => Ret []
      | Ok hop => route_data self (client_addr ibcd) hop live_package (last_data ibcd) (clone_but_data ibcd)
      end
  end.


(** ** A package under way *)

Section travel.
Context (member : CryptDE → Prop) `{!KeyPairs member, !CodecOk (LiveHop Wallet Signature), !CodecOk LiveCoresPackage,
  !CodecOk MessageType}.
Context (stops : list PublicKey) (hs : list (LiveHop Wallet Signature)) (tail_hops : list CryptData).

(** A route of which [i] hops have been taken off: the hops from there on can be
    read by their nodes, then [tail_hops] follow, then garbage. *)
Definition at_position (i : nat) (r : Route.Route) : Prop :=
  ∃ es garbage, Forall2 (read_by member) (drop i (zip stops hs)) es ∧ hops r = es ++ tail_hops ++ garbage.

Lemma position_hop i r k h c :
  at_position i r → zip stops hs !! i = Some (k, h) → member c → cd_public_key c = k →
  next_hop r c = Ret (Ok h) ∧ ∃ r', shift r c = Ret (r', Ok h) ∧ at_position (S i) r'.
Proof.
  intros (es & garbage & Hes & Hr) Hi Hc Hk. rewrite (drop_S _ _ _ Hi) in Hes.
  apply Forall2_cons_inv_l in Hes as (e & es' & He & Hes & ->).
  pose proof (He c Hc Hk) as Hd. simpl in Hd.
  unfold next_hop, shift. rewrite Hr. simpl. rewrite Hd. cbn [mbind run_bind]. split; [done|].
  eexists. split; [done|]. exists es', (garbage ++ [random c (length e)]). split; [done|]. simpl.
  by rewrite <- !app_assoc.
Qed.

(** Encrypted data that stop [i] reads as a package with payload [p]. *)
Definition carries (i : nat) (p : CryptData) (dat : CryptData) : Prop :=
  ∃ r v, at_position i r ∧
    ∀ c, member c → stops !! i = Some (cd_public_key c) → decodex c dat = Ret (Ok (MkLive v r p)).

Lemma encodex_carries i r v p k c :
  at_position i r → stops !! i = Some k → member c → (∃ c', member c' ∧ cd_public_key c' = k) →
  ∃ dat, encodex c k (MkLive v r p) = Ok dat ∧ carries i p dat.
Proof.
  intros Hr Hi Hc (c' & Hc' & <-). destruct (decodex_encodex member c c' (MkLive v r p) Hc Hc') as (dat & He & _).
  exists dat. split; [done|]. exists r, v. split; [done|]. intros c'' Hc'' Hk. rewrite Hi in Hk. injection Hk as Hk.
  destruct (decodex_encodex member c c'' (MkLive v r p) Hc Hc'') as (dat' & He' & Hd).
  rewrite <- Hk, He in He'. by injection He' as ->.
Qed.

(** The node at stop [i] launches a package along the rest of the route. *)
Lemma consume_step i r k h c p :
  at_position i r → zip stops hs !! i = Some (k, h) → member c → cd_public_key c = k →
  stops !! S i = Some (hop_public_key h) → (∃ c', member c' ∧ cd_public_key c' = hop_public_key h) →
  hop_public_key h ≠ k →
  ∃ dat, consume c (MkIncipient r p) = Ret [ToDispatcher (MkTransmit (Key (hop_public_key h)) false dat None)] ∧
    carries (S i) p dat.
Proof.
  intros Hr Hi Hc Hk Hnext Hheld Hne. destruct (position_hop i r k h c Hr Hi Hc Hk) as (_ & r' & Hshift & Hr').
  unfold consume, from_incipient. simpl. rewrite Hshift. cbn [mbind run_bind]. unfold live_new, lcp_current_version.
  cbn [PackedVersion.new expect_ok mbind run_bind Z.leb Z.compare].
  set (v := [_; _; _]). destruct (encodex_carries (S i) r' v p _ c Hr' Hnext Hc Hheld) as (dat & -> & Hcar).
  rewrite bool_decide_eq_false_2 by congruence. eexists. split; [done|done].
Qed.

Lemma inbound_step s ibcd i k h p :
  carries i p (data ibcd) → zip stops hs !! i = Some (k, h) → member (main s) → cd_public_key (main s) = k →
  ∃ r v, at_position i r ∧ route_inbound s ibcd =
    route_data s (client_addr ibcd) h (MkLive v r p) (last_data ibcd) (clone_but_data ibcd).
Proof.
  intros (r & v & Hr & Hd) Hi Hm Hk.
  assert (stops !! i = Some k) as Hst by (by apply lookup_zip_Some in Hi as [? _]).
  exists r, v. split; [done|]. unfold route_inbound. rewrite Hd by (done || by rewrite Hk).
  cbn [mbind run_bind]. destruct (position_hop i r k h (main s) Hr Hi Hm Hk) as [Hn _]. simpl. by rewrite Hn.
Qed.

(** A relay passes the package on and has the service booked. *)
Lemma relay_step s ibcd i k h p pay :
  carries i p (data ibcd) → zip stops hs !! i = Some (k, h) → member (main s) → cd_public_key (main s) = k →
  component h = Hopper → Route.payer h = Some pay → owns_secret_key pay (digest (main s)) = true →
  is_delinquent pay = false → stops !! S i = Some (hop_public_key h) →
  (∃ c', member c' ∧ cd_public_key c' = hop_public_key h) → hop_public_key h ≠ k →
  ∃ dat, route_inbound s ibcd = Ret [
      ToAccountant (MkReport now (wallet pay) (length p) (per_routing_service s) (per_routing_byte s));
      ToDispatcher (MkTransmit (Key (hop_public_key h)) (last_data ibcd) dat None)] ∧
    carries (S i) p dat.
Proof.
  intros Hcar Hi Hm Hk Hcomp Hpay Howns Hdel Hnext Hheld Hne.
  destruct (inbound_step s ibcd i k h p Hcar Hi Hm Hk) as (r & v & Hr & ->).
  unfold route_data. rewrite Hcomp, bool_decide_eq_true_2, bool_decide_eq_false_2 by congruence. simpl.
  unfold route_data_externally. rewrite Hpay, Howns, Hdel. simpl.
  destruct (position_hop i r k h (main s) Hr Hi Hm Hk) as (_ & r' & Hshift & Hr').
  unfold to_transmit_data_msg, into_next_live. simpl. rewrite Hshift. cbn [mbind run_bind].
  unfold live_new, lcp_current_version. cbn [PackedVersion.new expect_ok mbind run_bind Z.leb Z.compare].
  set (v' := [_; _; _]). destruct (encodex_carries (S i) r' v' p _ (main s) Hr' Hnext Hm Hheld) as (dat & -> & Hcar').
  eexists. split; [done|done].
Qed.

(** The last node of a leg hands the payload to its component. *)
Lemma deliver_step s ibcd i k h p pay message :
  carries i p (data ibcd) → zip stops hs !! i = Some (k, h) → member (main s) → cd_public_key (main s) = k →
  component h ≠ Hopper → Route.payer h = Some pay → owns_secret_key pay (digest (main s)) = true →
  is_delinquent pay = false →
  decodex (match component h with ProxyServer => alias s | _ => main s end) p = Ret (Ok message) →
  ∃ r, at_position i r ∧
    route_inbound s ibcd = route_expired_package s (component h)
      (MkExpired (client_addr ibcd) (Some (wallet pay)) r message (length p)) true.
Proof.
  intros Hcar Hi Hm Hk Hcomp Hpay Howns Hdel Hmsg.
  destruct (inbound_step s ibcd i k h p Hcar Hi Hm Hk) as (r & v & Hr & ->). exists r. split; [done|].
  unfold route_data. rewrite bool_decide_eq_false_2 by done. simpl. unfold route_data_internally.
  rewrite decide_False, Hpay, Hdel by done. unfold route_data_to_peripheral_component, extract_expired_package, to_expired.
  destruct (position_hop i r k h (main s) Hr Hi Hm Hk) as [Hn _]. simpl. rewrite Hn. cbn [mbind run_bind].
  rewrite Hmsg. cbn [mbind run_bind]. rewrite Hpay. unfold payer_owns_secret_key. rewrite Hpay, Howns. done.
Qed.
End travel.


(** ** The network *)

Section network.
Context (member : CryptDE → Prop) `{!KeyPairs member, !CodecOk (LiveHop Wallet Signature), !CodecOk LiveCoresPackage,
  !CodecOk MessageType, !CodecOk Z}.
Context (services : PublicKey → option RoutingService) (peer : SocketAddr).

(** What a dispatcher makes of data that arrives from another node. *)
Definition inbound_of (m : TransmitDataMsg) : InboundClientData :=
  MkInbound now peer None (tx_last_data m) true None (tx_data m).

Definition follow (transport : TransmitDataMsg → run (list (PublicKey * Sent))) (k : PublicKey)
    : list Sent → run (list (PublicKey * Sent)) :=
  fix follow sents :=
    match sents with
    | [] => Ret []
    | ToDispatcher m :: sents => a ← transport m; b ← follow sents; Ret (a ++ b)
    | s :: sents => b ← follow sents; Ret ((k, s) :: b)
    end.

(** Everything but transmissions that is sent on the way of a transmitted
    message, node after node. *)
Fixpoint transport (fuel : nat) (m : TransmitDataMsg) : run (list (PublicKey * Sent)) :=
  match fuel, endpoint m with
  | S fuel, Key k =>
      match services k with
      | Some s => sents ← route_inbound s (inbound_of m); follow (transport fuel) k sents
      | None => Ret []
      end
  | _, _ => Ret []
  end.

Context (w : Wallet) (address : option (list Z)) (over back : RouteSegment).
Local Abbreviation stops := (trip_stops over back).
Local Abbreviation hs := (trip_hops as_payer (Some w) address over back).

(** A trip the network can make: both legs have a hop, they meet, the way back
    ends where the way over begins, neighboring stops differ, every stop is a
    running node, and can be paid. *)
Record trip_ready : Prop := {
  tr_over : (2 ≤ length (keys over))%nat;
  tr_back : (2 ≤ length (keys back))%nat;
  tr_meet : last (keys over) = head (keys back);
  tr_home : last (keys back) = head (keys over);
  tr_exit : recipient over = ProxyClient;
  tr_end : recipient back = ProxyServer;
  tr_steps : ∀ i k k', stops !! i = Some k → stops !! S i = Some k' → k' ≠ k;
  tr_nodes : ∀ k, k ∈ stops → ∃ s p, services k = Some s ∧ member (main s) ∧ member (alias s) ∧
    cd_public_key (main s) = k ∧ proxy_client_running s = true ∧
    payer_for as_payer (Some w) address k = Ret (Some p) ∧
    owns_secret_key p (digest (main s)) = true ∧ is_delinquent p = false
}.
Hypothesis Hready : trip_ready.

(** The booking of the service of a relay. *)
Definition booking (len : nat) (k : PublicKey) : PublicKey * Sent :=
  match services k, payer_of as_payer (Some w) address k with
  | Some s, Some p => (k, ToAccountant (MkReport now (wallet p) len (per_routing_service s) (per_routing_byte s)))
  | _, _ => (k, ToAccountant (MkReport now w 0 0 0))
  end.

Lemma trip_lookup i k :
  stops !! i = Some k → zip stops hs !! i = Some (k, trip_hop as_payer (Some w) address over back i k).
Proof.
  intros Hi. apply lookup_zip_Some. split; [done|]. unfold trip_hops. by rewrite list_lookup_imap, Hi.
Qed.

Lemma trip_node i k :
  stops !! i = Some k → ∃ s p, services k = Some s ∧ member (main s) ∧ cd_public_key (main s) = k ∧
    payer_of as_payer (Some w) address k = Some p ∧ owns_secret_key p (digest (main s)) = true ∧
    is_delinquent p = false ∧ proxy_client_running s = true ∧ member (alias s).
Proof.
  intros Hi. destruct (tr_nodes Hready k) as (s & p & ? & ? & ? & ? & ? & Hp & ? & ?); [by eapply list_elem_of_lookup_2|].
  exists s, p. split_and!; try done. unfold payer_of. by rewrite Hp.
Qed.

Lemma trip_held i k : stops !! i = Some k → ∃ c, member c ∧ cd_public_key c = k.
Proof. intros Hi. destruct (trip_node i k Hi) as (s & p & _ & ? & ? & _). eauto. Qed.

Lemma trip_hop_key i k k' :
  stops !! S i = Some k' → hop_public_key (trip_hop as_payer (Some w) address over back i k) = k'.
Proof. intros Hk'. unfold trip_hop. simpl. by rewrite Hk'. Qed.

Lemma trip_length : length stops = (length (keys over) + length (keys back) - 1)%nat.
Proof. apply trip_stops_length. pose proof (tr_back Hready). intros E. rewrite E in *. simpl in *. lia. Qed.

Lemma follow_relay tr k a m :
  follow tr k [ToAccountant a; ToDispatcher m] = (rest ← tr m; Ret ((k, ToAccountant a) :: rest)).
Proof. simpl. destruct (tr m) as [rest|]; [|done]. simpl. by rewrite app_nil_r. Qed.

(** From stop [i] to stop [i + n], where the package is delivered. *)
Lemma leg_spec tl i n p kn pay sn message m :
  carries member stops hs tl i p (tx_data m) → (∃ k, stops !! i = Some k ∧ endpoint m = Key k) →
  (∀ j, (i ≤ j < i + n)%nat → trip_component over back j = Hopper) →
  stops !! (i + n)%nat = Some kn → services kn = Some sn → member (main sn) → cd_public_key (main sn) = kn →
  payer_of as_payer (Some w) address kn = Some pay → owns_secret_key pay (digest (main sn)) = true →
  is_delinquent pay = false → trip_component over back (i + n) ≠ Hopper →
  decodex (match trip_component over back (i + n) with ProxyServer => alias sn | _ => main sn end) p = Ret (Ok message) →
  ∃ r, at_position member stops hs tl (i + n) r ∧
    transport (S n) m =
      (sents ← route_expired_package sn (trip_component over back (i + n))
                 (MkExpired peer (Some (wallet pay)) r message (length p)) true;
       rest ← follow (transport 0) kn sents;
       Ret ((booking (length p) <$> take n (drop i stops)) ++ rest)).
Proof.
  revert i m. induction n as [|n IH]; intros i m Hcar (k & Hi & Hm) Hhop Hn Hsn Hmain Hkn Hpay Howns Hdel Hcomp Hmsg.
  - rewrite Nat.add_0_r in *. rewrite Hi in Hn. injection Hn as ->. cbn [transport]. rewrite Hm, Hsn.
    destruct (deliver_step member stops hs tl sn (inbound_of m) i kn _ p pay message Hcar (trip_lookup i kn Hi)
                Hmain Hkn Hcomp Hpay Howns Hdel Hmsg) as (r & Hr & ->).
    exists r. split; [done|]. simpl.
    destruct (route_expired_package _ _ _ _) as [sents|]; [|done]. cbn [mbind run_bind].
    by destruct (follow _ _ _).
  - destruct (lookup_lt_is_Some_2 stops (S i)) as [k' Hk']; [apply lookup_lt_Some in Hn; lia|].
    destruct (trip_node i k Hi) as (s & p' & Hs & Hms & Hks & Hp' & Ho' & Hd' & _).
    destruct (relay_step member stops hs tl s (inbound_of m) i k _ p p' Hcar (trip_lookup i k Hi) Hms Hks)
      as (dat & Hroute & Hcar'); try done.
    { unfold trip_hop. simpl. apply Hhop. lia. }
    { by rewrite (trip_hop_key i k k'). }
    { rewrite (trip_hop_key i k k') by done. by apply (trip_held (S i)). }
    { rewrite (trip_hop_key i k k') by done. by apply (tr_steps Hready i). }
    rewrite (trip_hop_key i k k') in Hroute by done. change (last_data (inbound_of m)) with (tx_last_data m) in Hroute.
    destruct (IH (S i) (MkTransmit (Key k') (tx_last_data m) dat None)) as (r & Hr & Htr);
      try (done || (by eauto) || (by rewrite Nat.add_succ_comm)).
    { intros j Hj. apply Hhop. lia. }
    rewrite Nat.add_succ_comm in *.
    exists r. split; [done|]. change (transport (S (S n)) m) with (match endpoint m with
      | Key k => match services k with
                 | Some s => sents ← route_inbound s (inbound_of m); follow (transport (S n)) k sents
                 | None => Ret [] end
      | _ => Ret [] end).
    rewrite Hm, Hs, Hroute. cbn [mbind run_bind]. rewrite follow_relay, Htr.
    assert (booking (length p) k = (k, ToAccountant (MkReport now (wallet p') (length p) (per_routing_service s) (per_routing_byte s)))) as <-.
    { unfold booking. by rewrite Hs, Hp'. }
    rewrite (drop_S _ _ _ Hi). destruct (route_expired_package _ _ _ _) as [sents|]; [|done]. cbn [mbind run_bind].
    by destruct (follow _ _ _).
Qed.

(** Wrap an item, encrypt it for its destination and launch it. *)
Definition send {T} `{Codec T} (cryptde : CryptDE) (r : Route.Route) (message : Versioned.VersionedData → MessageType)
    (migrations : Versioned.Migrations) (item : T) (destination : PublicKey) : run (list Sent) :=
  vd ← Versioned.vd_new migrations item;
  match incipient_new cryptde r (message vd) destination with
  | Ok package => consume cryptde package
  | Err _ => Ret []
  end.

Lemma forward_expired_new {T} `{CodecOk T} migrations (item : T) vd expired (snd : ExpiredCoresPackage T → Sent) :
  DataVersion.in_range (Versioned.current_version migrations) → Versioned.vd_new migrations item = Ret vd →
  forward_expired migrations expired vd snd =
    Ret [snd (MkExpired (immediate_neighbor expired) (ex_paying_wallet expired) (remaining_route expired)
                item (payload_len expired))].
Proof.
  intros Hr Hvd. destruct (Versioned.extract_new order migrations item Hr) as (vd' & Hvd' & Hx).
  rewrite Hvd in Hvd'. injection Hvd' as <-. unfold forward_expired, try_from. by rewrite Hx.
Qed.

(** One leg: the node at stop [i] sends an item that stop [i + S n] delivers. *)
Lemma send_leg {T} `{CodecOk T} tl i n r ki si kn sn migrations (item : T) message cn :
  at_position member stops hs tl i r → stops !! i = Some ki → services ki = Some si →
  stops !! (i + S n)%nat = Some kn → services kn = Some sn →
  (∀ j, (i < j < i + S n)%nat → trip_component over back j = Hopper) →
  trip_component over back (i + S n) ≠ Hopper →
  (cn = match trip_component over back (i + S n) with ProxyServer => alias sn | _ => main sn end) → member cn →
  DataVersion.in_range (Versioned.current_version migrations) →
  ∃ m vd p rn pay, Versioned.vd_new migrations item = Ret vd ∧
    send (main si) r message migrations item (cd_public_key cn) = Ret [ToDispatcher m] ∧
    at_position member stops hs tl (i + S n) rn ∧
    transport (S n) m =
      (sents ← route_expired_package sn (trip_component over back (i + S n))
                 (MkExpired peer (Some pay) rn (message vd) (length (p : CryptData))) true;
       rest ← follow (transport 0) kn sents;
       Ret ((booking (length p) <$> take n (drop (S i) stops)) ++ rest)).
Proof.
  intros Hr Hi Hsi Hn Hsn Hhop Hcomp Hcn Hmem Hrange.
  destruct (trip_node i ki Hi) as (si' & pi & Hsi' & Hmi & Hki & _). rewrite Hsi in Hsi'. injection Hsi' as <-.
  destruct (trip_node (i + S n) kn Hn) as (sn' & pn & Hsn' & Hmn & Hkn & Hpn & Hon & Hdn & _).
  rewrite Hsn in Hsn'. injection Hsn' as <-.
  destruct (Versioned.extract_new order migrations item Hrange) as (vd & Hvd & _).
  destruct (decodex_encodex member (main si) cn (message vd) Hmi Hmem) as (p & Hp & Hdec).
  destruct (lookup_lt_is_Some_2 stops (S i)) as [k' Hk']; [apply lookup_lt_Some in Hn; lia|].
  destruct (consume_step member stops hs tl i r ki _ (main si) p Hr (trip_lookup i ki Hi) Hmi Hki) as (dat & Hcon & Hcar).
  { by rewrite (trip_hop_key i ki k'). }
  { rewrite (trip_hop_key i ki k') by done. by apply (trip_held (S i)). }
  { rewrite (trip_hop_key i ki k') by done. by apply (tr_steps Hready i). }
  rewrite (trip_hop_key i ki k') in Hcon by done. rewrite <- Nat.add_succ_comm in *.
  destruct (leg_spec tl (S i) n p kn pn sn (message vd) (MkTransmit (Key k') false dat None)) as (rn & Hrn & Htr);
    try (done || by eauto).
  { by rewrite <- Hcn. }
  eexists _, vd, p, rn, (wallet pn). split_and!; [done| |done|exact Htr].
  unfold send. rewrite Hvd. cbn [mbind run_bind]. unfold incipient_new. rewrite Hp. cbn [mbind result_bind]. exact Hcon.
Qed.

(** Where the legs begin and end. *)
Lemma trip_corners origin exit_key :
  head (keys over) = Some origin → last (keys over) = Some exit_key →
  stops !! 0%nat = Some origin ∧ stops !! (length (keys over) - 1)%nat = Some exit_key ∧
  stops !! (length (keys over) - 1 + (length (keys back) - 1))%nat = Some origin ∧
  take (length (keys over) - 2) (drop 1 stops) = take (length (keys over) - 2) (tail (keys over)) ∧
  take (length (keys back) - 2) (drop (length (keys over)) stops) = take (length (keys back) - 2) (tail (keys back)).
Proof.
  intros Hor Hex. destruct Hready. assert (keys over ≠ []) as Hne by (intros E; by rewrite E in Hor).
  split_and!.
  - unfold trip_stops. by destruct (keys over).
  - rewrite trip_stops_over by lia. rewrite Nat.sub_1_r, <- last_lookup. done.
  - rewrite trip_stops_back by (done || lia). rewrite Nat.sub_1_r, <- last_lookup. congruence.
  - unfold trip_stops. destruct (keys over) as [|k ks] eqn:E; [done|].
    change (drop 1 ((k :: ks) ++ tail (keys back))) with (ks ++ tail (keys back)).
    rewrite take_app_le; [done|]. cbn [length]. lia.
  - unfold trip_stops. by rewrite drop_app_length.
Qed.

Lemma trip_components j :
  ((j < length (keys over) - 1)%nat → trip_component over back j = Hopper) ∧
  ((j = length (keys over) - 1)%nat → trip_component over back j = ProxyClient) ∧
  ((length (keys over) ≤ j < length (keys over) - 1 + (length (keys back) - 1))%nat → trip_component over back j = Hopper) ∧
  ((j = length (keys over) - 1 + (length (keys back) - 1))%nat → trip_component over back j = ProxyServer).
Proof.
  pose proof trip_length as Hlen. destruct Hready. unfold trip_component.
  split_and!; intros Hj; repeat case_bool_decide; (done || lia).
Qed.

Lemma request_leg `{!CodecOk ClientRequestPayload} tl r request origin exit_key s0 s1 :
  at_position member stops hs tl 0 r →
  head (keys over) = Some origin → last (keys over) = Some exit_key →
  services origin = Some s0 → services exit_key = Some s1 →
  DataVersion.in_range (Versioned.current_version request_migrations) →
  ∃ m expired,
    send (main s0) r ClientRequest request_migrations request exit_key = Ret [ToDispatcher m] ∧
    transport (length (keys over) - 1) m =
      Ret ((booking (payload_len expired) <$> take (length (keys over) - 2) (tail (keys over)))
           ++ [(exit_key, ToProxyClient expired)]) ∧
    ex_payload expired = request ∧
    at_position member stops hs tl (length (keys over) - 1) (remaining_route expired).
Proof.
  intros Hr Hor Hex Hs0 Hs1 Hrq. destruct (trip_corners origin exit_key Hor Hex) as (Hc0 & Hc1 & _ & Ht1 & _).
  destruct (trip_node _ _ Hc1) as (s1' & ? & Hs1' & Hm1 & Hk1 & _ & _ & _ & Hpc & _). rewrite Hs1 in Hs1'. injection Hs1' as <-.
  pose proof (tr_over Hready) as Hover. replace (length (keys over) - 1)%nat with (0 + S (length (keys over) - 2))%nat in * by lia.
  pose proof (proj1 (proj2 (trip_components (0 + S (length (keys over) - 2)))) ltac:(lia)) as Hcomp.
  destruct (send_leg tl 0 (length (keys over) - 2) r origin s0 exit_key s1 request_migrations request
              ClientRequest (main s1)) as (m & vd & p & rn & pay & Hvd & Hsend & Hrn & Htr); try (done || by rewrite Hcomp).
  { intros j Hj. apply (proj1 (trip_components j)). lia. }
  rewrite Hcomp in Htr. simpl in Htr. rewrite Hpc, orb_true_r in Htr.
  rewrite (forward_expired_new request_migrations request vd) in Htr by done. cbn [mbind run_bind follow] in Htr.
  exists m, (MkExpired peer (Some pay) rn request (length p)).
  split_and!; [by rewrite <- Hk1 at 1| |done|exact Hrn].
  cbn [payload_len]. rewrite <- Ht1. exact Htr.
Qed.

Lemma response_leg `{!CodecOk ClientResponsePayload} tl r response origin exit_key s0 s1 :
  at_position member stops hs tl (length (keys over) - 1) r →
  head (keys over) = Some origin → last (keys over) = Some exit_key →
  services origin = Some s0 → services exit_key = Some s1 →
  DataVersion.in_range (Versioned.current_version response_migrations) →
  ∃ m expired,
    send (main s1) r ClientResponse response_migrations response (cd_public_key (alias s0)) = Ret [ToDispatcher m] ∧
    transport (length (keys back) - 1) m =
      Ret ((booking (payload_len expired) <$> take (length (keys back) - 2) (tail (keys back)))
           ++ [(origin, ToProxyServer expired)]) ∧
    ex_payload expired = response ∧
    at_position member stops hs tl (length (keys over) - 1 + (length (keys back) - 1)) (remaining_route expired).
Proof.
  intros Hr Hor Hex Hs0 Hs1 Hrs. destruct (trip_corners origin exit_key Hor Hex) as (Hc0 & Hc1 & Hc2 & _ & Ht2).
  destruct (trip_node _ _ Hc0) as (s0' & ? & Hs0' & Hm0 & Hk0 & _ & _ & _ & _ & Ha0). rewrite Hs0 in Hs0'. injection Hs0' as <-.
  pose proof (tr_over Hready) as Hover. pose proof (tr_back Hready) as Hback.
  replace (length (keys back) - 1)%nat with (S (length (keys back) - 2)) in * by lia.
  set (i := (length (keys over) - 1)%nat) in *.
  pose proof (proj2 (proj2 (proj2 (trip_components (i + S (length (keys back) - 2))))) ltac:(lia)) as Hcomp.
  destruct (send_leg tl i (length (keys back) - 2) r exit_key s1 origin s0 response_migrations response
              ClientResponse (alias s0)) as (m & vd & p & rn & pay & Hvd & Hsend & Hrn & Htr); try (done || by rewrite Hcomp).
  { intros j Hj. apply (proj1 (proj2 (proj2 (trip_components j)))). lia. }
  rewrite Hcomp in Htr. cbn [route_expired_package ex_payload] in Htr.
  rewrite (forward_expired_new response_migrations response vd) in Htr by done. cbn [mbind run_bind follow] in Htr.
  exists m, (MkExpired peer (Some pay) rn response (length p)).
  split_and!; [exact Hsend| |done|exact Hrn].
  cbn [payload_len]. rewrite <- Ht2. replace (length (keys over)) with (S i) by lia. exact Htr.
Qed.

(** C2: a request reaches the exit and the response comes back.  In a network
    of nodes that hold their keys and can be paid, over any trip whose legs meet:
    the route is built; the request, launched on it, is passed from relay to
    relay, each of which books exactly one service with the size of the payload
    and its own rates, and is handed to the exit's proxy client as it was sent;
    the response, launched at the exit on the route that arrived there, comes
    back the same way to the originator's proxy server; and from the route it
    arrives with, the originator reads the id of the route. *)
Theorem request_response_cycle `{!CodecOk ClientRequestPayload, !CodecOk ClientResponsePayload}
    (return_route_id : Z) (request : ClientRequestPayload) (response : ClientResponsePayload)
    (origin exit_key : PublicKey) (s0 s1 : RoutingService) :
  head (keys over) = Some origin → last (keys over) = Some exit_key →
  services origin = Some s0 → services exit_key = Some s1 →
  DataVersion.in_range (Versioned.current_version request_migrations) →
  DataVersion.in_range (Versioned.current_version response_migrations) →
  ∃ r m expired m' expired' r' h,
    round_trip as_payer over back (main s0) (Some w) return_route_id address = Ret (Ok r) ∧
    send (main s0) r ClientRequest request_migrations request exit_key = Ret [ToDispatcher m] ∧
    transport (length (keys over) - 1) m =
      Ret ((booking (payload_len expired) <$> take (length (keys over) - 2) (tail (keys over)))
           ++ [(exit_key, ToProxyClient expired)]) ∧
    ex_payload expired = request ∧
    send (main s1) (remaining_route expired) ClientResponse response_migrations response (cd_public_key (alias s0))
      = Ret [ToDispatcher m'] ∧
    transport (length (keys back) - 1) m' =
      Ret ((booking (payload_len expired') <$> take (length (keys back) - 2) (tail (keys back)))
           ++ [(origin, ToProxyServer expired')]) ∧
    ex_payload expired' = response ∧
    shift (remaining_route expired') (main s0) = Ret (r', Ok h) ∧
    id r' (main s0) = Ret (Ok return_route_id).
Proof.
  intros Hor Hex Hs0 Hs1 Hrq Hrs. destruct (trip_corners origin exit_key Hor Hex) as (Hc0 & _ & Hc2 & _).
  destruct (trip_node _ _ Hc0) as (s0' & ? & Hs0' & Hm0 & Hk0 & _). rewrite Hs0 in Hs0'. injection Hs0' as <-.
  destruct (round_trip_spec as_payer member over back (main s0) (Some w) return_route_id address)
    as (es & e & Hroute & Hes & Hid).
  { intros E. by rewrite E in Hor. }
  { intros E. pose proof (tr_back Hready) as Hb. rewrite E in Hb. simpl in Hb. lia. }
  { apply (tr_meet Hready). }
  { done. }
  { intros k Hk. destruct (list_elem_of_lookup_1 _ _ Hk) as [j Hj].
    destruct (tr_nodes Hready k Hk) as (? & p & _ & _ & _ & _ & _ & Hp & _).
    split; [unfold can_pay, payer_of; by rewrite Hp|]. by apply (trip_held j). }
  destruct (request_leg [e] (MkRoute (es ++ [e])) request origin exit_key s0 s1)
    as (m & expired & Hsend & Htr & Hreq & Hpos); try done.
  { exists es, []. by rewrite app_nil_r. }
  destruct (response_leg [e] (remaining_route expired) response origin exit_key s0 s1)
    as (m' & expired' & Hsend' & Htr' & Hresp & Hpos'); try done.
  destruct (position_hop member stops hs [e] _ _ _ _ (main s0) Hpos' (trip_lookup _ _ Hc2) Hm0 Hk0)
    as (_ & r' & Hshift & (es' & garbage & Hes' & Hr')).
  exists (MkRoute (es ++ [e])), m, expired, m', expired', r'. eexists. split_and!; try done.
  rewrite drop_ge in Hes' by (rewrite length_zip, trip_length; pose proof (tr_over Hready); pose proof (tr_back Hready); lia).
  apply Forall2_nil_inv_l in Hes' as ->. unfold id. rewrite Hr'. simpl. by rewrite Hid.
Qed.

End network.


(** ** Nothing is done for free *)

(** The conditions under which a payer is served. *)
Definition good_payer (self : RoutingService) (p : Payer Wallet Signature) : Prop :=
  owns_secret_key p (digest (main self)) = true ∧ is_delinquent p = false.

(** What may leave a node for a package: a transmission only together with its
    booking, for a payer who has proved to own the wallet and is not banned; a
    request for the proxy client of a decentralized node only with such a proof,
    and never for a banned payer. *)
Definition paid (self : RoutingService) (outs : list Sent) : Prop :=
  (∀ m, ToDispatcher m ∈ outs → ∃ p n, good_payer self p ∧
     outs = [ToAccountant (MkReport now (wallet p) n (per_routing_service self) (per_routing_byte self)); ToDispatcher m]) ∧
  (∀ e, ToProxyClient e ∈ outs →
     (is_decentralized self = true → ∃ p, good_payer self p ∧ ex_paying_wallet e = Some (wallet p)) ∧
     ∀ wl, ex_paying_wallet e = Some wl → is_banned wl = false).

Lemma paid_nil self : paid self [].
Proof. split; intros ? ?%elem_of_nil; done. Qed.

Lemma paid_other self s :
  match s with ToDispatcher _ | ToProxyClient _ => False | _ => True end → paid self [s].
Proof. intros Hs. split; intros x Hx%list_elem_of_singleton; by subst s. Qed.

Lemma forward_expired_shape {T} `{Codec T} migrations expired vd (f : ExpiredCoresPackage T → Sent) outs :
  forward_expired migrations expired vd f = Ret outs →
  outs = [] ∨ ∃ e, outs = [f e] ∧ ex_paying_wallet e = ex_paying_wallet expired.
Proof.
  unfold forward_expired. intros Hf. apply run_bind_ret in Hf as ([p|e] & _ & [= <-]); [right|by left].
  eexists. by split.
Qed.

Lemma route_expired_paid self hop comp expired outs :
  ex_paying_wallet expired = wallet <$> Route.payer hop →
  (∀ p, Route.payer hop = Some p → is_delinquent p = false) →
  route_expired_package self comp expired (payer_owns_secret_key hop (digest (main self))) = Ret outs → paid self outs.
Proof.
  intros Hw Hd. unfold route_expired_package.
  destruct comp, (ex_payload expired) as [vd|vd|vd|vd|vd]; intros H; try (injection H as <-; apply paid_nil);
    try (apply forward_expired_shape in H as [->|(e & -> & _)]; [apply paid_nil|by apply paid_other]).
  destruct (negb (is_decentralized self) || payer_owns_secret_key hop (digest (main self))) eqn:Eo;
    [|injection H as <-; apply paid_nil].
  destruct (proxy_client_running self); [|injection H as <-; apply paid_nil].
  apply forward_expired_shape in H as [->|(e & -> & He)]; [apply paid_nil|].
  split; [by intros m ?%list_elem_of_singleton|]. intros e' [= ->]%list_elem_of_singleton. rewrite He, Hw. split.
  - intros Hdec. rewrite Hdec in Eo. simpl in Eo. unfold payer_owns_secret_key in Eo.
    destruct (Route.payer hop) as [p|]; [|done]. exists p. split; [split; [done|by apply Hd]|done].
  - intros wl. destruct (Route.payer hop) as [p|]; [|done]. intros [= <-]. by apply (Hd p).
Qed.

Lemma route_data_paid self sender hop lp last ibcd outs :
  next_hop (route lp) (main self) = Ret (Ok hop) →
  route_data self sender hop lp last ibcd = Ret outs → paid self outs.
Proof.
  intros Hhop. unfold route_data. destruct (_ && _).
  - unfold route_data_externally. destruct (Route.payer hop) as [p|]; [|intros [= <-]; apply paid_nil].
    destruct (owns_secret_key p _) eqn:Ho; [|intros [= <-]; apply paid_nil].
    destruct (is_delinquent p) eqn:Hd; [intros [= <-]; apply paid_nil|]. cbn [negb]. intros H.
    apply run_bind_ret in H as ([m|] & _ & [= <-]); [|by apply paid_other]. split.
    + intros m' [?|[= ->]%list_elem_of_singleton]%elem_of_cons; [done|]. by exists p, (length (payload lp)).
    + by intros e [?|?%list_elem_of_singleton]%elem_of_cons.
  - unfold route_data_internally. destruct (decide _).
    + unfold route_data_around_again. intros H. apply run_bind_ret in H as ([[h nx]|er] & _ & H); [|injection H as <-; apply paid_nil].
      apply run_bind_ret in H as (p & _ & [= <-]). by apply paid_other.
    + intros H. assert (route_data_to_peripheral_component self (component hop) sender lp
        (payer_owns_secret_key hop (digest (main self))) = Ret outs ∧
        (∀ p, Route.payer hop = Some p → is_delinquent p = false) ∨ outs = []) as [[H' Hd]| ->]; [|clear H|apply paid_nil].
      { destruct (Route.payer hop) as [p|]; [|by left]. destruct (is_delinquent p) eqn:Hd; [right; by injection H|].
        left. split; [done|]. by intros p' [= <-]. }
      unfold route_data_to_peripheral_component, extract_expired_package, to_expired in H'. rewrite Hhop in H'.
      cbn [mbind run_bind] in H'. apply run_bind_ret in H' as (e & He & H').
      apply run_bind_ret in He as (e' & He' & [= <-]). apply run_bind_ret in He' as (d & _ & [= <-]).
      destruct d as [message|err]; [|injection H' as <-; apply paid_nil].
      by apply (route_expired_paid self hop _ _ outs) in H'.
Qed.

(** C27: no service without payment.  Whatever data arrives from the network, if
    the node relays a package then it sends, first, exactly one booking to the
    accountant, for a wallet whose ownership the payer has proved to this node
    and that is not banned; and a decentralized node passes a request to its
    proxy client only on such a proof. *)
Theorem no_free_service (self : RoutingService) (ibcd : InboundClientData) :
  match route_inbound self ibcd with
  | Ret outs => paid self outs
  | Panic => True
  end.
Proof.
  destruct (route_inbound self ibcd) as [outs|] eqn:E; [|done]. unfold route_inbound in E.
  apply run_bind_ret in E as ([lp|e] & _ & E); [|injection E as <-; apply paid_nil].
  apply run_bind_ret in E as ([hop|e] & Hhop & E); [|injection E as <-; apply paid_nil].
  by eapply route_data_paid.
Qed.

End hopper.

(** ** A concrete network *)

Module Demo.

Global Instance Version_eq_dec : EqDecision Versioned.VersionedData.
Proof. solve_decision. Defined.
Global Instance Version_countable : Countable Versioned.VersionedData.
Proof.
  apply (inj_countable' (λ v, (Versioned.vd_version v, Versioned.vd_bytes v)) (λ '(a, b), Versioned.MkVersioned a b)).
  by intros [].
Defined.
Global Instance MessageType_eq_dec : EqDecision MessageType.
Proof. solve_decision. Defined.
Global Instance MessageType_countable : Countable MessageType.
Proof.
  apply (inj_countable'
    (λ m, match m with ClientRequest v => (0, v) | ClientResponse v => (1, v) | Gossip v => (2, v)
          | GossipFailure v => (3, v) | DnsResolveFailed v => (4, v) end)
    (λ '(n, v), if n =? 0 then ClientRequest v else if n =? 1 then ClientResponse v else if n =? 2 then Gossip v
                else if n =? 3 then GossipFailure v else DnsResolveFailed v)).
  by intros [].
Defined.
Global Instance Route_eq_dec : EqDecision Route.Route.
Proof. solve_decision. Defined.
Global Instance Live_eq_dec : EqDecision LiveCoresPackage.
Proof. solve_decision. Defined.
Global Instance Live_countable : Countable LiveCoresPackage.
Proof.
  apply (inj_countable' (λ l, (lcp_version l, hops (route l), payload l)) (λ '(v, h, p), MkLive v (MkRoute h) p)).
  by intros [v [h] p].
Defined.

Local Instance demo_codec `{Countable T} : Codec T := countable_codec.
Local Instance demo_codec_ok `{Countable T} : @CodecOk T demo_codec := countable_codec_ok.

Definition demo_service (n : Z) : RoutingService :=
  MkRouting (demo_cryptde n) (demo_cryptde (n + 100)) true (10 + n) (20 + n) true.
Definition demo_services (k : PublicKey) : option RoutingService :=
  match k with [n] => Some (demo_service n) | _ => None end.
Definition demo_payer (w : nat) (k : PublicKey) (a : list Z) : run (Payer nat nat) := Ret (MkPayer w w).
Definition demo_recover (s : nat) (dig : list Z) : option nat := Some s.
Definition demo_verify (key s : nat) (dig : list Z) : option bool := Some true.
Definition demo_migrations : Versioned.Migrations := Versioned.migrations_new (DataVersion.MkVersion 0 1).
Definition demo_peer : SocketAddr := (Stream.IpV4 1, 2).

Definition demo_transport (fuel : nat) (m : TransmitDataMsg)
    : run (list (PublicKey * Sent (Wallet := nat) (ClientRequestPayload := Z) (ClientResponsePayload := Z)
             (GossipT := Z) (GossipFailureT := Z) (DnsResolveFailure := Z))) :=
  transport (Signature := nat) 0 demo_recover demo_verify (λ k, k) (λ w, w) (λ _, false) demo_migrations demo_migrations demo_migrations
    demo_migrations demo_migrations Versioned.demo_order demo_services demo_peer fuel m.

Lemma demo_ready :
  trip_ready demo_payer demo_recover demo_verify (λ k, k) (λ w, w) (λ _, false) Null.is_null demo_services 7%nat None
    demo_over demo_back.
Proof.
  split; [simpl; lia|simpl; lia|done..| |].
  - intros i k k' Hi Hi'. do 5 (destruct i as [|i]; [simpl in *; by simplify_eq|]). done.
  - intros k Hk. assert (∃ n, k = [n]) as [n ->].
    { apply list_elem_of_In in Hk. simpl in Hk. destruct Hk as [<-|[<-|[<-|[<-|[<-|[]]]]]]; eauto. }
    exists (demo_service n), (MkPayer 7%nat 7%nat).
    split_and!; [done|by apply Null.null_from_is_null..|done|done|done|done|done].
Qed.

Lemma request_response_cycle_witness :
  ∃ r m expired m' expired' bookings bookings',
    round_trip demo_payer demo_over demo_back (demo_cryptde 1) (Some 7%nat) 4321 None = Ret (Ok r) ∧
    demo_transport 2 m = Ret (bookings ++ [([3], ToProxyClient expired)]) ∧ ex_payload _ expired = 11 ∧
    length bookings = 1%nat ∧
    demo_transport 2 m' = Ret (bookings' ++ [([1], ToProxyServer expired')]) ∧ ex_payload _ expired' = 22.
Proof.
  destruct (request_response_cycle (GossipT := Z) (GossipFailureT := Z) (DnsResolveFailure := Z)
    demo_payer 0 demo_recover demo_verify (λ k, k) (λ w, w) (λ _, false)
    demo_migrations demo_migrations demo_migrations demo_migrations demo_migrations Versioned.demo_order
    Null.is_null demo_services demo_peer 7%nat None
    demo_over demo_back demo_ready 4321 11 22 [1] [3] (demo_service 1) (demo_service 3)
    eq_refl eq_refl eq_refl eq_refl ltac:(vm_compute; split; split; (discriminate || reflexivity))
    ltac:(vm_compute; split; split; (discriminate || reflexivity)))
    as (r & m & expired & m' & expired' & _ & _ & Hr & _ & Ht & Hreq & _ & Ht' & Hresp & _ & _).
  eexists r, m, expired, m', expired', _, _. split; [exact Hr|]. split; [exact Ht|]. split; [exact Hreq|].
  split; [reflexivity|]. split; [exact Ht'|]. exact Hresp.
Defined.
End Demo.

End Hopper.
