(* ===== verification/RouteQuery.v ===== *)
(** * Answering route queries

    Models the handler of [RouteQueryMessage] in
    [node/src/neighborhood/mod.rs]: both legs are searched ([Routing.v]), the
    services that will have to be paid are listed, and the route is built and
    encrypted ([Route.v]).

    The state the handler changes is the id of the next return route. *)
From Stdlib Require Import String.
From S2P Require Import Prelude.
From S2P Require Import NeighborhoodDatabase Routing Cryptde Route.
From stdpp Require Import base list gmap strings.

Module RouteQuery.
Import Neighborhood Routing Cryptde.
Local Open Scope Z_scope.

Definition RESPONSE_UNDESIRABILITY_FACTOR : Z := 1000.

(** Multiplication on [usize] that panics on overflow. *)
Definition in_usize (z : Z) : run Z := if z <? 2 ^ 64 then Ret z else Panic.

Inductive RouteQueryError :=
| NoRouteFound
| NoSegmentKeys
| NoConsumingWallet
| NoKeysInSegment
| UnknownNeighbor.

Record RouteQueryMessage := MkQuery {
  target_key_opt : option PublicKey;
  target_component : Route.Component;
  return_component_opt : option Route.Component;
  q_payload_size : Z;
  q_hostname_opt : option string
}.

Section query.
Context {Wallet Signature : Type} `{!EqDecision Wallet}.
Context `{!Codec (Route.LiveHop Wallet Signature), !Codec Z}.

Inductive ExpectedService :=
| ExpectRouting (k : PublicKey) (w : Wallet) (rates : RatePack)
| ExpectExit (k : PublicKey) (w : Wallet) (rates : RatePack)
| ExpectNothing.

Inductive ExpectedServices :=
| OneWay (services : list ExpectedService)
| RoundTrip (over back : list ExpectedService) (return_route_id : Z).

Record RouteQueryResponse := MkResponse {
  r_route : Route.Route;
  expected_services : ExpectedServices
}.

(** What of [Neighborhood] the handler uses. *)
Record NeighborhoodState := MkState {
  cryptde : CryptDE;
  neighborhood_database : NeighborhoodDatabase (Wallet := Wallet);
  consuming_wallet_opt : option Wallet;
  zero_hop_mode : bool;
  min_hops : nat;
  next_return_route_id : Z;
  user_exit_preferences : UserExitPreferences;
  contract : list Z
}.

Context (as_payer : Wallet → PublicKey → list Z → run (Route.Payer Wallet Signature)).
(** The orders of iteration in the searches for the two legs. *)
Context (order_over order_back : list PublicKey → gset PublicKey → list PublicKey).

Definition advance_return_route_id (self : NeighborhoodState) : NeighborhoodState * Z :=
  (MkState (cryptde self) (neighborhood_database self) (consuming_wallet_opt self) (zero_hop_mode self)
     (min_hops self) (u32 (next_return_route_id self + 1)) (user_exit_preferences self) (contract self),
   next_return_route_id self).

Definition make_route_segment (self : NeighborhoodState)
    (order : list PublicKey → gset PublicKey → list PublicKey) (origin : PublicKey) (target_opt : option PublicKey)
    (minimum_hop_count : nat) (target_component : Route.Component) (payload_size : Z) (direction : RouteDirection)
    (hostname_opt : option string) : run (result RouteQueryError Route.RouteSegment) :=
  route_opt ← find_best_route_segment (neighborhood_database self) (user_exit_preferences self) order origin target_opt
                minimum_hop_count payload_size direction hostname_opt;
  Ret (match route_opt with
       | None => Err NoRouteFound
       | Some route => Ok (Route.MkSegment route target_component)
       end).

Definition calculate_expected_service (self : NeighborhoodState) (route_segment_key : PublicKey)
    (originator_key exit_key : option PublicKey) : run (result RouteQueryError ExpectedService) :=
  match node_by_key (neighborhood_database self) route_segment_key with
  | None => Ret (Err UnknownNeighbor)
  | Some node =>
      root_node ← root (neighborhood_database self);
      if decide (route_segment_key = public_key root_node) then Ret (Ok ExpectNothing)
      else Ret (match originator_key, exit_key with
                | Some originator_key, Some exit_key =>
                    if bool_decide (route_segment_key = originator_key) || bool_decide (route_segment_key = exit_key)
                    then Ok (ExpectExit route_segment_key (earning_wallet node) (rate_pack node))
                    else Ok (ExpectRouting route_segment_key (earning_wallet node) (rate_pack node))
                | _, _ => Err NoKeysInSegment
                end)
  end.

(** [collect] of an iterator of results: the first error ends it. *)
Fixpoint expected_services_loop (self : NeighborhoodState) (first last : option PublicKey) (ks : list PublicKey)
    : run (result RouteQueryError (list ExpectedService)) :=
  match ks with
  | [] => Ret (Ok [])
  | k :: ks =>
      (s <-? calculate_expected_service self k first last;
       rest <-? expected_services_loop self first last ks;
       Ret (Ok (s :: rest)))%rust
  end.

Definition make_expected_services (self : NeighborhoodState) (segment : Route.RouteSegment)
    : run (result RouteQueryError (list ExpectedService)) :=
  expected_services_loop self (head (Route.keys segment)) (last (Route.keys segment)) (Route.keys segment).

Definition compose_route_query_response (self : NeighborhoodState) (over back : Route.RouteSegment)
    : run (NeighborhoodState * result RouteQueryError RouteQueryResponse) :=
  let segments := [over; back] in
  if existsb (λ rs, bool_decide (Route.keys rs = [])) segments then Ret (self, Err NoSegmentKeys)
  else
    let has_long_segment := existsb (λ segment, (2 <? length (Route.keys segment))%nat) segments in
    match consuming_wallet_opt self, has_long_segment with
    | None, true => Ret (self, Err NoConsumingWallet)
    | _, _ =>
        req ← make_expected_services self over;
        match req with
        | Err e => Ret (self, Err e)
        | Ok expected_request_services =>
            resp ← make_expected_services self back;
            match resp with
            | Err e => Ret (self, Err e)
            | Ok expected_response_services =>
                let '(self, return_route_id) := advance_return_route_id self in
                r ← Route.round_trip as_payer over back (cryptde self) (consuming_wallet_opt self) return_route_id
                      (Some (contract self));
                route ← expect_ok r;
                Ret (self, Ok (MkResponse route
                                 (RoundTrip expected_request_services expected_response_services return_route_id)))
            end
        end
    end.

Definition make_round_trip_route (self : NeighborhoodState) (request_msg : RouteQueryMessage)
    : run (NeighborhoodState * result RouteQueryError RouteQueryResponse) :=
  let own_key := cd_public_key (cryptde self) in
  o ← make_route_segment self order_over own_key (target_key_opt request_msg) (min_hops self)
        (target_component request_msg) (q_payload_size request_msg) Over (q_hostname_opt request_msg);
  match o with
  | Err e => Ret (self, Err e)
  | Ok over =>
      anticipated_response_payload_len ← in_usize (q_payload_size request_msg * RESPONSE_UNDESIRABILITY_FACTOR);
      exit_key ← expect (last (Route.keys over));
      return_component ← expect (return_component_opt request_msg);
      b ← make_route_segment self order_back exit_key (Some own_key) (min_hops self) return_component
            anticipated_response_payload_len Back (q_hostname_opt request_msg);
      match b with
      | Err e => Ret (self, Err e)
      | Ok back => compose_route_query_response self over back
      end
  end.

Definition zero_hop_route_response (self : NeighborhoodState) : run (NeighborhoodState * RouteQueryResponse) :=
  let own_key := cd_public_key (cryptde self) in
  let '(self, return_route_id) := advance_return_route_id self in
  r ← Route.round_trip as_payer (Route.MkSegment [own_key; own_key] Route.ProxyClient)
        (Route.MkSegment [own_key; own_key] Route.ProxyServer) (cryptde self) None return_route_id None;
  route ← expect_ok r;
  Ret (self, MkResponse route (RoundTrip [ExpectNothing; ExpectNothing] [ExpectNothing; ExpectNothing] return_route_id)).

Definition handle_route_query_message (self : NeighborhoodState) (msg : RouteQueryMessage)
    : run (NeighborhoodState * option RouteQueryResponse) :=
  '(self, route_result) ←
    (if zero_hop_mode self then '(self, r) ← zero_hop_route_response self; Ret (self, Ok r)
     else make_round_trip_route self msg);
  Ret (self, match route_result with Ok response => Some response | Err _ => None end).


(** ** What the answer is *)

(** What a node of a leg is paid for. *)
Definition service_of (db : NeighborhoodDatabase (Wallet := Wallet)) (leg : list PublicKey) (k : PublicKey)
    : ExpectedService :=
  match node_by_key db k with
  | None => ExpectNothing
  | Some node =>
      if decide (k = this_node db) then ExpectNothing
      else if bool_decide (head leg = Some k) || bool_decide (last leg = Some k)
      then ExpectExit k (earning_wallet node) (rate_pack node)
      else ExpectRouting k (earning_wallet node) (rate_pack node)
  end.

(** A cheapest route among the valid ones. *)
Definition best_route (self : NeighborhoodState) (source : PublicKey) (target_opt : option PublicKey)
    (payload_size : Z) (direction : RouteDirection) (hostname_opt : option string) (p : list PublicKey) : Prop :=
  let valid := valid_route (neighborhood_database self) (user_exit_preferences self) target_opt direction source (min_hops self) in
  let cost := route_cost (neighborhood_database self) target_opt payload_size direction hostname_opt (min_hops self) in
  valid p ∧ ∀ other, valid other → cost p ≤ cost other.

(** The conditions under which queries are answered: the database is that of
    this node, costs fit, and every known node can be encrypted for and paid. *)
Record query_ready (member : CryptDE → Prop) (self : NeighborhoodState) (msg : RouteQueryMessage) (M : Z) : Prop := {
  qr_db : consistent (neighborhood_database self);
  qr_root : this_node (neighborhood_database self) = cd_public_key (cryptde self);
  qr_over_order : ∀ call s, order_over call s ≡ₚ elements s;
  qr_back_order : ∀ call s, order_back call s ≡ₚ elements s;
  qr_over_costs : costs_ok (neighborhood_database self) (q_payload_size msg) M = true;
  qr_back_costs : costs_ok (neighborhood_database self) (q_payload_size msg * RESPONSE_UNDESIRABILITY_FACTOR) M = true;
  qr_size : q_payload_size msg * RESPONSE_UNDESIRABILITY_FACTOR < 2 ^ 64;
  qr_return : is_Some (return_component_opt msg);
  qr_member : member (cryptde self);
  qr_held : ∀ k, is_Some (node_by_key (neighborhood_database self) k) → Route.held member k;
  qr_pay : ∀ k, is_Some (node_by_key (neighborhood_database self) k) →
    Route.can_pay as_payer (consuming_wallet_opt self) (Some (contract self)) k
}.

Lemma walk_keys (db : NeighborhoodDatabase (Wallet := Wallet)) target direction prefix rest k :
  walk db target direction prefix rest → k ∈ rest → is_Some (node_by_key db k).
Proof.
  revert prefix; induction rest as [|k' rest IH]; intros prefix; [by intros _ ?%elem_of_nil|].
  intros [(_ & _ & r & Hr & _) Hw] [->|Hk]%elem_of_cons; [by eexists|by eapply IH].
Qed.

Lemma best_route_keys self source target size direction hostname p k :
  is_Some (node_by_key (neighborhood_database self) source) →
  best_route self source target size direction hostname p → k ∈ p → is_Some (node_by_key (neighborhood_database self) k).
Proof.
  intros Hs [(rest & -> & Hw & _) _] [->|Hk]%elem_of_cons; [done|by eapply walk_keys].
Qed.

Lemma expected_services_spec self leg ks :
  consistent (neighborhood_database self) → leg ≠ [] →
  (∀ k, k ∈ ks → is_Some (node_by_key (neighborhood_database self) k)) →
  expected_services_loop self (head leg) (last leg) ks = Ret (Ok (service_of (neighborhood_database self) leg <$> ks)).
Proof.
  intros Hc Hne. induction ks as [|k ks IH]; intros Hks; [done|]. cbn [expected_services_loop].
  assert (calculate_expected_service self k (head leg) (last leg)
    = Ret (Ok (service_of (neighborhood_database self) leg k))) as ->.
  { unfold calculate_expected_service, service_of. destruct (Hks k) as [node ->]; [by left|].
    destruct (consistent_root _ Hc) as (r & -> & Hr & _). cbn [mbind run_bind]. rewrite Hr.
    destruct (decide _); [done|]. destruct leg as [|k0 leg]; [done|].
    destruct (last (k0 :: leg)) as [kl|] eqn:El; [|by apply last_None in El]. cbn [head].
    rewrite (bool_decide_ext (Some k0 = Some k) (k = k0)), (bool_decide_ext (Some kl = Some k) (k = kl)) by (split; congruence).
    by destruct (_ || _). }
  cbn [try_bind]. rewrite IH by (intros; apply Hks; by right). done.
Qed.

Lemma make_route_segment_spec self order origin target_opt component size direction hostname M :
  consistent (neighborhood_database self) → (∀ call s, order call s ≡ₚ elements s) →
  costs_ok (neighborhood_database self) size M = true → is_Some (node_by_key (neighborhood_database self) origin) →
  ∃ r, make_route_segment self order origin target_opt (min_hops self) component size direction hostname = Ret r ∧
    match r with
    | Ok segment => best_route self origin target_opt size direction hostname (Route.keys segment) ∧
                    Route.recipient segment = component
    | Err e => e = NoRouteFound ∧ ∀ p, ¬ valid_route (neighborhood_database self) (user_exit_preferences self)
                 target_opt direction origin (min_hops self) p
    end.
Proof.
  intros Hc Ho Hcosts Hs. unfold make_route_segment.
  destruct (best_route_exists (neighborhood_database self) (user_exit_preferences self) order origin target_opt (min_hops self)
              size direction hostname M Hc Ho Hcosts Hs) as (r & -> & Hr). cbn [mbind run_bind].
  eexists. split; [done|]. by destruct r.
Qed.


(** *** The composition of the two legs *)

Context (member : CryptDE → Prop) `{Hkp : !KeyPairs member}.
Context `{Hhop : !CodecOk (Route.LiveHop Wallet Signature), Hnum : !CodecOk Z}.

Definition unaffordable (self : NeighborhoodState) (over back : list PublicKey) : Prop :=
  consuming_wallet_opt self = None ∧ ((2 < length over)%nat ∨ (2 < length back)%nat).

Definition after_query (self : NeighborhoodState) : NeighborhoodState := (advance_return_route_id self).1.

(** The response carries the encrypted round trip and what each stop will charge. *)
Definition answers (self : NeighborhoodState) (over back : Route.RouteSegment) (resp : RouteQueryResponse) : Prop :=
  Route.round_trip as_payer over back (cryptde self) (consuming_wallet_opt self) (next_return_route_id self)
    (Some (contract self)) = Ret (Ok (r_route resp)) ∧
  expected_services resp =
    RoundTrip (service_of (neighborhood_database self) (Route.keys over) <$> Route.keys over)
      (service_of (neighborhood_database self) (Route.keys back) <$> Route.keys back) (next_return_route_id self).

Lemma best_route_head self source target size direction hostname p :
  best_route self source target size direction hostname p → head p = Some source.
Proof. by intros [(rest & -> & _) _]. Qed.

Lemma long_spec (a b : list PublicKey) :
  BoolSpec ((2 < length a)%nat ∨ (2 < length b)%nat) (¬ ((2 < length a)%nat ∨ (2 < length b)%nat))
    ((2 <? length a)%nat || (2 <? length b)%nat).
Proof. destruct (Nat.ltb_spec 2 (length a)), (Nat.ltb_spec 2 (length b)); constructor; lia. Qed.

Lemma compose_spec self msg M over back :
  query_ready member self msg M →
  (∀ k, k ∈ Route.keys over ++ Route.keys back → is_Some (node_by_key (neighborhood_database self) k)) →
  is_Some (head (Route.keys over)) → last (Route.keys over) = head (Route.keys back) →
  (unaffordable self (Route.keys over) (Route.keys back) ∧
     compose_route_query_response self over back = Ret (self, Err NoConsumingWallet)) ∨
  (¬ unaffordable self (Route.keys over) (Route.keys back) ∧
     ∃ resp, compose_route_query_response self over back = Ret (after_query self, Ok resp) ∧ answers self over back resp).
Proof.
  intros Hq Hknown [k0 Hhead] Hmeet.
  assert (Route.keys over ≠ []) as Ho by (by intros E; rewrite E in Hhead).
  assert (Route.keys back ≠ []) as Hb by (intros E; rewrite E in Hmeet; by apply last_None in Hmeet).
  assert (∃ r, Route.round_trip as_payer over back (cryptde self) (consuming_wallet_opt self)
    (next_return_route_id self) (Some (contract self)) = Ret (Ok r)) as [r Hr].
  { destruct (Route.round_trip_spec as_payer member over back (cryptde self) (consuming_wallet_opt self)
      (next_return_route_id self) (Some (contract self))) as (es & e & Hr & _); try done; [apply Hq| |by eauto].
    intros k Hk. assert (is_Some (node_by_key (neighborhood_database self) k)) as Hn.
    { apply Hknown, elem_of_app. apply elem_of_app in Hk as [Hk|Hk]; [by left|right].
      destruct (Route.keys back); [done|by right]. }
    split; [by eapply qr_pay|by eapply qr_held]. }
  unfold compose_route_query_response. cbv zeta. cbn [existsb].
  rewrite !bool_decide_eq_false_2 by done. cbn [orb]. rewrite orb_false_r.
  unfold make_expected_services. rewrite !expected_services_spec
    by (try apply Hq; try done; intros; apply Hknown, elem_of_app; auto).
  cbn [mbind run_bind].
  destruct (long_spec (Route.keys over) (Route.keys back)) as [Hl|Hl], (consuming_wallet_opt self) as [w|] eqn:Ew.
  2: left; done.
  all: right; split; [by intros [? ?]; first [congruence|tauto]|].
  all: unfold advance_return_route_id; cbn; rewrite Ew, Hr; eexists; split; [done|].
  all: unfold answers; rewrite Ew; split; [exact Hr|done].
Qed.


Lemma over_keys_known self msg M hostname over k :
  query_ready member self msg M →
  best_route self (cd_public_key (cryptde self)) (target_key_opt msg) (q_payload_size msg) Over hostname over →
  k ∈ over → is_Some (node_by_key (neighborhood_database self) k).
Proof.
  intros Hq Hbest Hk. eapply best_route_keys; [|done..]. rewrite <- (qr_root _ _ _ _ Hq).
  by destruct (consistent_root _ (qr_db _ _ _ _ Hq)) as (r & _ & _ & Hn & _); eexists.
Qed.

(** The two legs asked for: out from this node, and from the exit back to it. *)
Definition over_leg (self : NeighborhoodState) (msg : RouteQueryMessage) (p : list PublicKey) : Prop :=
  best_route self (cd_public_key (cryptde self)) (target_key_opt msg) (q_payload_size msg) Over (q_hostname_opt msg) p.
Definition back_leg (self : NeighborhoodState) (msg : RouteQueryMessage) (exit : PublicKey) (p : list PublicKey) : Prop :=
  best_route self exit (Some (cd_public_key (cryptde self))) (q_payload_size msg * RESPONSE_UNDESIRABILITY_FACTOR) Back
    (q_hostname_opt msg) p.

(** When a query is left unanswered. *)
Definition unanswerable (self : NeighborhoodState) (msg : RouteQueryMessage) : Prop :=
  let valid := valid_route (neighborhood_database self) (user_exit_preferences self) in
  (∀ p, ¬ valid (target_key_opt msg) Over (cd_public_key (cryptde self)) (min_hops self) p) ∨
  (∃ over exit, over_leg self msg over ∧ last over = Some exit ∧
     ∀ p, ¬ valid (Some (cd_public_key (cryptde self))) Back exit (min_hops self) p) ∨
  (∃ over exit back, over_leg self msg over ∧ last over = Some exit ∧ back_leg self msg exit back ∧
     unaffordable self over back).

Lemma route_query_answered (self : NeighborhoodState) (msg : RouteQueryMessage) (M : Z) :
  query_ready member self msg M → zero_hop_mode self = false →
  ∃ self' answer, handle_route_query_message self msg = Ret (self', answer) ∧
    match answer with
    | Some resp =>
        self' = after_query self ∧
        ∃ over back exit component, over_leg self msg over ∧ last over = Some exit ∧ back_leg self msg exit back ∧
          return_component_opt msg = Some component ∧
          answers self (Route.MkSegment over (target_component msg)) (Route.MkSegment back component) resp
    | None => self' = self ∧ unanswerable self msg
    end.
Proof.
  intros Hq Hz. unfold handle_route_query_message, make_round_trip_route. rewrite Hz. cbv zeta.
  pose proof (qr_db _ _ _ _ Hq) as Hdb.
  assert (is_Some (node_by_key (neighborhood_database self) (cd_public_key (cryptde self)))) as Hown.
  { rewrite <- (qr_root _ _ _ _ Hq). by destruct (consistent_root _ Hdb) as (r & _ & _ & Hn & _); eexists. }
  destruct (make_route_segment_spec self order_over (cd_public_key (cryptde self)) (target_key_opt msg)
    (target_component msg) (q_payload_size msg) Over (q_hostname_opt msg) M Hdb) as (ro & -> & Ho); try apply Hq; [done|].
  cbn [mbind run_bind]. destruct ro as [[over c]|e]; cbn [Route.keys Route.recipient] in Ho; [destruct Ho as [Ho ->]|].
  2: { exists self, None. split; [done|]. split; [done|]. left. apply Ho. }
  assert (∀ k, k ∈ over → is_Some (node_by_key (neighborhood_database self) k)) as Hko
    by (intros; by eapply over_keys_known).
  unfold in_usize. rewrite (proj2 (Z.ltb_lt _ _) (qr_size _ _ _ _ Hq)). cbn [mbind run_bind Route.keys].
  pose proof (best_route_head _ _ _ _ _ _ _ Ho) as Hhead.
  destruct (last over) as [exit|] eqn:Elast; [|by apply last_None in Elast as ->]. cbn [expect mbind run_bind].
  destruct (qr_return _ _ _ _ Hq) as [component Hcomp]. rewrite Hcomp. cbn [expect mbind run_bind].
  destruct (make_route_segment_spec self order_back exit (Some (cd_public_key (cryptde self))) component
    (q_payload_size msg * RESPONSE_UNDESIRABILITY_FACTOR) Back (q_hostname_opt msg) M Hdb) as (rb & -> & Hb);
    try apply Hq; [by apply Hko, last_Some_elem_of|].
  cbn [mbind run_bind]. destruct rb as [[back c]|e]; cbn [Route.keys Route.recipient] in Hb; [destruct Hb as [Hb ->]|].
  2: { exists self, None. split; [done|]. split; [done|]. right; left. exists over, exit. split_and!; [done..|]. apply Hb. }
  pose proof (best_route_head _ _ _ _ _ _ _ Hb) as Hhead'.
  destruct (compose_spec self msg M (Route.MkSegment over (target_component msg)) (Route.MkSegment back component))
    as [[Hu ->]|(_ & resp & -> & Hresp)]; cbn [Route.keys mbind run_bind] in *; [done| | |by rewrite Elast, Hhead'| |].
  - intros k [Hk|Hk]%elem_of_app; [by apply Hko|]. eapply best_route_keys; [|done..]. by apply Hko, last_Some_elem_of.
  - rewrite Hhead. by eexists.
  - exists self, None. split; [done|]. split; [done|]. right; right. by exists over, exit, back.
  - eexists _, (Some resp). split; [done|]. split; [done|]. by exists over, back, exit, component.
Qed.


End query.

(** ** A concrete query *)

Definition demo_state (db : NeighborhoodDatabase (Wallet := nat)) : NeighborhoodState (Wallet := nat) :=
  MkState (Route.demo_cryptde 1) db (Some 7%nat) false 3 (2 ^ 32 - 1) no_preferences [9].
Definition demo_query : RouteQueryMessage := MkQuery None Route.ProxyClient (Some Route.ProxyServer) 1000 None.

Definition keys_ok (db : NeighborhoodDatabase (Wallet := nat)) : bool :=
  forallb (λ kr, negb (bool_decide (kr.1 = []))) (map_to_list (by_public_key db)).

Lemma keys_ok_spec db k : keys_ok db = true → is_Some (node_by_key db k) → k ≠ [].
Proof.
  unfold keys_ok. rewrite forallb_forall. intros Hall [r Hr] ->.
  by specialize (Hall ([], r) (proj1 (list_elem_of_In _ _) (proj2 (elem_of_map_to_list _ _ _) Hr))).
Qed.

Lemma demo_query_ready db :
  consistent db → this_node db = [1] → keys_ok db = true →
  costs_ok db 1000 (2 ^ 40) = true → costs_ok db 1000000 (2 ^ 40) = true →
  query_ready (Signature := nat) Route.demo_as_payer net_order net_order Null.is_null (demo_state db) demo_query (2 ^ 40).
Proof.
  intros Hc Ht Hk Ho Hb. split; [done..| | |done].
  - by apply Null.null_from_is_null.
  - intros k Hk'%keys_ok_spec; [|done]. eexists. split; [by apply (Null.null_from_is_null (λ l, l) [] k)|]. by destruct k.
Qed.


End RouteQuery.
