(* ===== verification/NeighborhoodActor.v ===== *)
(** * The neighborhood actor

    Models the rest of [node/src/neighborhood/mod.rs]: how the actor starts, what
    it does with gossip, lost streams, new addresses and changed settings.  The
    parts it is made of are in the other files: the database, the producer and
    the acceptor of gossip, the connection status, the exit preferences and the
    route queries.

    The recipients are bound by one message and together, so one flag says
    whether they are; the persistent configuration is a flag as well.  What is
    sent is a list.  Readings of clocks and orders of iteration that belong to
    one message are an [Env].  Logging is left out. *)
From Stdlib Require Import String.
From S2P Require Import Prelude.
From S2P Require Import CountryBlockStream CountryFinder NeighborhoodDatabase Gossip ConnectionStatus Routing.
From S2P Require Import ExitPreferences GossipAcceptor Cryptde Route VersionedData Hopper RouteQuery.
From stdpp Require Import base list gmap strings.

Module NeighborhoodActor.
Import Stream Neighborhood Cryptde.
Local Open Scope Z_scope.

Definition DEFAULT_MIN_HOPS : nat := 3.

Inductive RemovedStreamType := Clandestine | NonClandestine (reception_port : Z) (sequence_number : Z).

(** What happens by itself while a message is handled. *)
Record Env := MkEnv {
  e_order : GossipAcceptor.key_loop → gset PublicKey → list PublicKey;
  e_ip_order : gset IpAddr → list IpAddr;
  e_clock : GossipAcceptor.stamp → Z;
  e_pass_checked : Z;
  e_pass_stamped : Z;
  e_neighbors : gset PublicKey → list PublicKey;
  e_produce_order : nat → gset PublicKey → list PublicKey;
  e_produce_now : nat → Z * Z * Z;
  e_saved : gset PublicKey → list PublicKey;
  e_exit_search : list PublicKey → gset PublicKey → list PublicKey;
  e_over : list PublicKey → gset PublicKey → list PublicKey;
  e_back : list PublicKey → gset PublicKey → list PublicKey
}.

(** ** What keeps the invariant of the acceptor *)

Section database.
Context {Wallet : Type}.
Implicit Types (db : NeighborhoodDatabase (Wallet := Wallet)) (r n : NodeRecord (Wallet := Wallet)).
Abbreviation acceptor_ok := GossipAcceptor.acceptor_ok.

Lemma acceptor_ok_same_root db db' r r' :
  acceptor_ok db → consistent db' → this_node db' = this_node db →
  node_by_key db (this_node db) = Some r → node_by_key db' (this_node db) = Some r' →
  half_neighbor_keys r' ⊆ half_neighbor_keys r →
  (accepts_connections r' = true → is_Some (node_addr_opt r')) →
  (∀ k n a, k ∈ half_neighbor_keys r' → node_by_key db k = Some n → node_addr_opt n = Some a →
     ∃ n' a', node_by_key db' k = Some n' ∧ node_addr_opt n' = Some a') →
  acceptor_ok db'.
Proof.
  intros [_ Hn _] Hc Ht Hr Hr' Hsub Hacc Hkeep. split; [done|..]; rewrite Ht, Hr'.
  - intros r1 k [= <-] Hk. destruct (Hn r k Hr (Hsub k Hk)) as (n & a & H1 & H2). by eapply Hkeep.
  - by intros r1 [= <-].
Qed.

(** This node's record as the gossip of others finds it. *)
Definition same_version (db db' : NeighborhoodDatabase (Wallet := Wallet)) : Prop :=
  this_node db' = this_node db ∧
  ∀ r', node_by_key db' (this_node db) = Some r' → ∃ r, node_by_key db (this_node db) = Some r ∧ version r' = version r.

Lemma cull_ok db now db' :
  acceptor_ok db → cull_dead_nodes db now = Ret db' → acceptor_ok db' ∧ same_version db db'.
Proof.
  intros Hok Hcull. pose proof (GossipAcceptor.ok_consistent _ Hok) as Hc.
  destruct (Z.ltb_spec now ISOLATED_NODE_GRACE_PERIOD_SECS) as [Hlt|Hge].
  { unfold cull_dead_nodes in Hcull. destruct (referenced_node_keys db); [|done]. cbn [mbind run_bind] in Hcull.
    unfold panic_if in Hcull. by rewrite (proj2 (Z.ltb_lt _ _) Hlt) in Hcull. }
  destruct (cull_spec db now Hc Hge) as (db1 & Hcull1 & Hc' & Ht & Hlook). rewrite Hcull in Hcull1. injection Hcull1 as <-.
  destruct (GossipAcceptor.acceptor_ok_root db Hok) as (r & _ & Hr & _).
  assert (node_by_key db' (this_node db) = Some r) as Hr' by (apply Hlook; split; [done|left; by left]).
  split; [|split; [done|]; rewrite Hr'; intros r' [= <-]; eauto].
  eapply (acceptor_ok_same_root db db' r r); try done; [by apply (GossipAcceptor.ok_root _ Hok)|].
  intros k n a Hk Hn Ha. exists n, a. split; [|done]. apply Hlook. split; [done|]. left. right. by exists (this_node db), r.
Qed.

Lemma produce_ok order last db target now now_cull now_set last' db' g :
  acceptor_ok db → Gossip.produce order last db target now now_cull now_set = Ret (last', db', g) →
  acceptor_ok db' ∧ same_version db db'.
Proof.
  intros Hok H. unfold Gossip.produce in H. destruct (now <? last); [done|]. unfold panic_if in H.
  assert (same_version db db) as Hsame by (split; eauto).
  destruct (_ <=? _); cbn [mbind run_bind] in H.
  - destruct (cull_dead_nodes db now_cull) as [db1|] eqn:Ec; [|done]. cbn [mbind run_bind] in H.
    apply cull_ok in Ec as [? ?]; [|done]. destruct (node_by_key db1 target); [|by injection H as _ <- _].
    destruct (referenced_node_keys db1); [|done]. cbn [mbind run_bind] in H.
    destruct (Gossip.produce_loop _ _ _ _); [|done]. by injection H as _ <- _.
  - destruct (node_by_key db target); [|by injection H as _ <- _].
    destruct (referenced_node_keys db); [|done]. cbn [mbind run_bind] in H.
    destruct (Gossip.produce_loop _ _ _ _); [|done]. by injection H as _ <- _.
Qed.

(** A new record of this node with the key, the neighbors and the flags of the old
    one, and an address if it had one. *)
Lemma store_root_ok db r r' :
  acceptor_ok db → node_by_key db (this_node db) = Some r → public_key r' = public_key r →
  node_addr_opt r' = node_addr_opt r → half_neighbor_keys r' = half_neighbor_keys r →
  accepts_connections r' = accepts_connections r → acceptor_ok (store db (this_node db) r').
Proof.
  intros Hok Hr H1 H2 H3 H4. destruct (GossipAcceptor.acceptor_ok_root db Hok) as (r0 & _ & Hr0 & _ & Hself).
  rewrite Hr in Hr0. injection Hr0 as <-.
  eapply (acceptor_ok_same_root db _ r r'); try done.
  - apply (consistent_store _ _ r); try done; [apply Hok|]. intros _. by rewrite H3.
  - rewrite GossipAcceptor.node_by_key_store, decide_True by done. done.
  - by rewrite H3.
  - rewrite H4, H2. by apply (GossipAcceptor.ok_root _ Hok).
  - rewrite H3. intros k n a Hk Hn Ha. exists n, a. rewrite GossipAcceptor.node_by_key_store, decide_False; [done|]. by intros ->.
Qed.


Lemma remove_neighbor_ok db k db' removed :
  acceptor_ok db → k ≠ this_node db → Neighborhood.remove_neighbor db k = Ret (db', removed) → acceptor_ok db'.
Proof.
  intros Hok Hk H. pose proof (consistent_remove_neighbor db k (GossipAcceptor.ok_consistent _ Hok)) as Hc. rewrite H in Hc.
  destruct Hc as [Hc Ht]. destruct (GossipAcceptor.acceptor_ok_root db Hok) as (r & _ & Hr & _).
  unfold Neighborhood.remove_neighbor in H. destruct (node_by_key db k) as [n|] eqn:En; [|by injection H as <- _].
  cbv zeta in H. set (db1 := store db k (unset_node_addr n)) in H.
  set (db2 := match option_map ip_addr (node_addr_opt n) with Some ip => _ | None => db1 end) in H.
  assert (∀ k1, node_by_key db2 k1 = node_by_key db1 k1) as E2 by (intros; unfold db2; by destruct (node_addr_opt n)).
  assert (this_node db2 = this_node db) as Et by (unfold db2; by destruct (node_addr_opt n)).
  assert (node_by_key db2 (this_node db) = Some r) as Hr2
    by (rewrite E2; unfold db1; rewrite GossipAcceptor.node_by_key_store, decide_False by done; done).
  assert (root db2 = Ret r) as Hroot2 by (unfold root; by rewrite Et, Hr2).
  rewrite Hroot2 in H. cbn [expect mbind run_bind remove_half_neighbor_key] in H. rewrite ?Et in H.
  assert (∀ r', half_neighbor_keys r' = half_neighbor_keys r ∖ {[ k ]} → accepts_connections r' = accepts_connections r →
    node_addr_opt r' = node_addr_opt r → db' = store db2 (this_node db) r' → acceptor_ok db') as Hfin.
  { intros r' H1 H2 H3 ->. eapply (acceptor_ok_same_root db _ r r'); try done.
    - rewrite GossipAcceptor.node_by_key_store, decide_True by done. done.
    - rewrite H1. set_solver.
    - rewrite H2, H3. by apply (GossipAcceptor.ok_root _ Hok).
    - intros k1 n1 a1 Hk1 Hn1 Ha1. rewrite H1 in Hk1. rewrite GossipAcceptor.node_by_key_store.
      destruct (decide (k1 = this_node db)) as [->|]; [|].
      + exists r', a1. split; [done|]. congruence.
      + rewrite E2. unfold db1. rewrite GossipAcceptor.node_by_key_store, decide_False by set_solver. eauto. }
  clearbody db2. destruct (bool_decide (k ∈ half_neighbor_keys r)).
  - unfold root in H. rewrite GossipAcceptor.node_by_key_store in H. cbn [this_node store] in H.
    rewrite Et, decide_True in H by done. cbn [expect mbind run_bind] in H. unfold increment_version in H.
    destruct (_ <? _); [|done]. cbn [mbind run_bind] in H. injection H as H _. rewrite GossipAcceptor.store_store in H.
    by eapply Hfin; [..|symmetry; exact H].
  - injection H as H _. by eapply Hfin; [..|symmetry; exact H].
Qed.

Lemma new_public_ip_ok db ip db' : acceptor_ok db → new_public_ip db ip = Ret db' → acceptor_ok db' ∧ this_node db' = this_node db.
Proof.
  intros Hok H. pose proof (consistent_new_public_ip db ip (GossipAcceptor.ok_consistent _ Hok)) as Hc. rewrite H in Hc.
  destruct Hc as [Hc Ht]. split; [|done]. destruct (GossipAcceptor.acceptor_ok_root db Hok) as (r & Hroot & Hr & Hkey & _).
  unfold new_public_ip in H. rewrite Hroot in H. cbn [mbind run_bind] in H.
  destruct (node_addr_opt r) as [old|] eqn:Ea; [|done]. cbn [expect mbind run_bind] in H. injection H as <-.
  set (r' := with_metadata _ r) in *.
  eapply (acceptor_ok_same_root db _ r r'); try done.
  - change (node_by_key (store db (this_node db) r') (this_node db) = Some r').
    rewrite GossipAcceptor.node_by_key_store, decide_True by done. done.
  - intros k n a Hk Hn Ha. change (∃ n' a', node_by_key (store db (this_node db) r') k = Some n' ∧ node_addr_opt n' = Some a').
    rewrite GossipAcceptor.node_by_key_store. destruct (decide (k = this_node db)); [by eexists r', _|eauto].
Qed.

(** Changes of all records that leave keys, addresses and neighbors alone. *)
Lemma fmap_ok (f : NodeRecord (Wallet := Wallet) → NodeRecord (Wallet := Wallet)) db :
  (∀ r, inner (f r) = inner r ∧ node_addr_opt (f r) = node_addr_opt r) → acceptor_ok db →
  acceptor_ok (MkDb (this_node db) (f <$> by_public_key db) (by_ip_addr db)).
Proof.
  intros Hf Hok. destruct (GossipAcceptor.acceptor_ok_root db Hok) as (r & Hroot & Hr & Hkey & _).
  assert (∀ k, node_by_key (MkDb (this_node db) (f <$> by_public_key db) (by_ip_addr db)) k = f <$> node_by_key db k) as Hl
    by (intros k; apply lookup_fmap).
  eapply (acceptor_ok_same_root db _ r (f r)); try done.
  - apply ExitPreferences.consistent_fmap; [|apply Hok]. intros r1. unfold public_key, half_neighbor_keys.
    by rewrite (proj1 (Hf r1)), (proj2 (Hf r1)).
  - by rewrite Hl, Hr.
  - unfold half_neighbor_keys. by rewrite (proj1 (Hf r)).
  - unfold accepts_connections. rewrite (proj1 (Hf r)), (proj2 (Hf r)). by apply (GossipAcceptor.ok_root _ Hok).
  - intros k n a _ Hn Ha. exists (f n), a. rewrite Hl, Hn. split; [done|]. by rewrite (proj2 (Hf n)).
Qed.

Lemma recosted_same (st : ExitPreferences.ExitState (Wallet := Wallet)) b r :
  inner (ExitPreferences.recosted st b r) = inner r ∧ node_addr_opt (ExitPreferences.recosted st b r) = node_addr_opt r.
Proof. unfold ExitPreferences.recosted. destruct b; [done|]. by destruct (GossipAcceptor.costed_same (ExitPreferences.preferences st) r) as (? & ? & _). Qed.

Lemma set_all_ok (st : ExitPreferences.ExitState (Wallet := Wallet)) ls st' :
  acceptor_ok (ExitPreferences.database st) → Forall ExitPreferences.priority_ok (ExitPreferences.get_locations_opt (ExitPreferences.preferences st)) →
  ExitPreferences.set_country_undesirability_and_exit_countries st ls = Ret st' →
  acceptor_ok (ExitPreferences.database st') ∧
  ExitPreferences.get_locations_opt (ExitPreferences.preferences st') = ExitPreferences.get_locations_opt (ExitPreferences.preferences st).
Proof.
  intros Hok Hp H. rewrite ExitPreferences.set_all_spec in H by done. injection H as <-. simpl. split.
  - apply fmap_ok; [|done]. intros r. apply recosted_same.
  - by destruct (bool_decide _).
Qed.


(** *** Preferences *)

Lemma synchronize_codes_locations p codes :
  Routing.locations_opt (ExitPreferences.synchronize_exit_countries_and_return_missing p codes).1 = Routing.locations_opt p.
Proof.
  revert p. induction codes as [|c codes IH]; intros p; [done|]. simpl.
  assert (Routing.locations_opt (ExitPreferences.synchronize_code p c).1 = Routing.locations_opt p) as H.
  { unfold ExitPreferences.synchronize_code. destruct (ExitPreferences.code_in_db_countries_or_fallback_active p c); simpl; [|done].
    by destruct (bool_decide _). }
  destruct (ExitPreferences.synchronize_code p c) as [p1 m]. simpl in H. specialize (IH p1).
  destruct (ExitPreferences.synchronize_exit_countries_and_return_missing p1 codes). simpl in *. congruence.
Qed.

Lemma synchronize_locations_opt p ls :
  Routing.locations_opt (ExitPreferences.synchronize_locations p ls).1 = Routing.locations_opt p.
Proof.
  revert p. induction ls as [|l ls IH]; intros p; [done|]. simpl. pose proof (synchronize_codes_locations p (Routing.country_codes l)) as H.
  destruct (ExitPreferences.synchronize_exit_countries_and_return_missing p (Routing.country_codes l)) as [p1 m]. simpl in H.
  specialize (IH p1). destruct (ExitPreferences.synchronize_locations p1 ls). simpl in *. congruence.
Qed.

Definition priorities_ok (p : Routing.UserExitPreferences) : Prop :=
  Forall ExitPreferences.priority_ok (ExitPreferences.get_locations_opt p).

Lemma exit_message_ok order hops (st : ExitPreferences.ExitState (Wallet := Wallet)) message st' response :
  acceptor_ok (ExitPreferences.database st) → priorities_ok (ExitPreferences.preferences st) →
  Forall ExitPreferences.priority_ok (ExitPreferences.exit_locations message) →
  ExitPreferences.handle_exit_location_message order hops st message = Ret (st', response) →
  acceptor_ok (ExitPreferences.database st') ∧ priorities_ok (ExitPreferences.preferences st').
Proof.
  intros Hok Hp Hm H. unfold ExitPreferences.handle_exit_location_message, ExitPreferences.extract_exit_locations_from_message in H.
  destruct (ExitPreferences.init_db_countries order hops st) as [cs|]; [|done]. cbn [mbind run_bind] in H.
  set (p0 := ExitPreferences.set_db_countries cs (ExitPreferences.preferences st)) in H.
  pose proof (synchronize_locations_opt p0 (ExitPreferences.exit_locations message)) as Hl.
  destruct (ExitPreferences.synchronize_locations p0 _) as [p1 missing]. simpl in Hl. cbn [mbind run_bind ExitPreferences.preferences ExitPreferences.database] in H.
  set (p2 := ExitPreferences.set_fallback _ p1) in H. cbv zeta in H.
  set (p3 := if ExitPreferences.show_countries message then p2 else _) in H.
  assert (priorities_ok p3) as Hp3.
  { unfold p3. destruct (ExitPreferences.show_countries message).
    - unfold priorities_ok, ExitPreferences.get_locations_opt. change (Routing.locations_opt p2) with (Routing.locations_opt p1).
      rewrite Hl. exact Hp.
    - unfold priorities_ok, ExitPreferences.get_locations_opt, ExitPreferences.set_exit_locations_opt. simpl.
      repeat case_match; done. }
  clearbody p3. simpl in H. destruct (1 <? _)%nat; cbn [mbind run_bind] in H; [|by injection H as <- _].
  destruct (ExitPreferences.set_country_undesirability_and_exit_countries _ _) as [st1|] eqn:E; [|done].
  injection H as <- _. apply set_all_ok in E as [? E]; [|done..]. split; [done|]. unfold priorities_ok. by rewrite E.
Qed.


End database.

Section actor.
Context {Wallet Signature Chain : Type} `{!EqDecision Wallet, !EqDecision Chain}.
Abbreviation NodeRecord := (NodeRecord (Wallet := Wallet)).
Abbreviation NodeRecordInner := (NodeRecordInner (Wallet := Wallet)).
Abbreviation NeighborhoodDatabase := (NeighborhoodDatabase (Wallet := Wallet)).
Abbreviation AccessibleGossipRecord := (AccessibleGossipRecord (Wallet := Wallet)).
Abbreviation NodeDescriptor := (ConnectionStatus.NodeDescriptor (Chain := Chain)).
Abbreviation acceptor_ok := GossipAcceptor.acceptor_ok.

Context `{!Codec (Route.LiveHop Wallet Signature), !Codec Z, !Codec Hopper.MessageType}.
Context `{!Codec (list Gossip.GossipNodeRecord), !Codec GossipAcceptor.GossipFailure_0v1}.

(** Serialization and signing of records, the check of signatures, the static
    country finder, payment, and the conversion of a key to the key of a
    descriptor. *)
Context (inner_to_vec : NodeRecordInner → option (list Z)) (inner_from_slice : list Z → option NodeRecordInner).
Context (sign : list Z → option (list Z)) (verify_signature : list Z → list Z → PublicKey → run bool).
Context (finder : Finder.CountryCodeFinder).
Context (as_payer : Wallet → PublicKey → list Z → run (Route.Payer Wallet Signature)).
Context (first_contact_public_key : PublicKey → option PublicKey).
Context (gossip_migrations gossip_failure_migrations : Versioned.Migrations).

Record Neighborhood := MkNeighborhood {
  cryptde : CryptDE;
  bound : bool;
  gossip_acceptor : gmap IpAddr Z;
  gossip_producer : Z;
  neighborhood_database : NeighborhoodDatabase;
  consuming_wallet_opt : option Wallet;
  zero_hop_mode : bool;
  min_hops : nat;
  db_patch_size : nat;
  next_return_route_id : Z;
  overall_connection_status : ConnectionStatus.OverallConnectionStatus (Chain := Chain);
  chain : Chain;
  contract : list Z;
  persistent_config : bool;
  db_password_opt : option string;
  user_exit_preferences : Routing.UserExitPreferences
}.

(** What the actor sends, and what it stores for the next run. *)
Inductive Sent :=
| ToHopper (p : Hopper.IncipientCoresPackage)
| ToHopperNoLookup (p : Hopper.NoLookupIncipientCoresPackage)
| ToUi (s : ConnectionStatus.Sent (Chain := Chain))
| StartAccountant
| ToSelf (m : ConnectionStatus.ConnectionProgressMessage)
| SetPastNeighbors (ds : option (list NodeDescriptor)) (password : string)
| NodeAnswer (node : option (PublicKey * option NodeAddr * RatePack))
| RouteAnswer (response : option (RouteQuery.RouteQueryResponse (Wallet := Wallet)))
| ExitLocationAnswer (client_id context_id : Z) (response : ExitPreferences.ExitLocationResponse).

(** Field updates. *)
Definition set_database (db : NeighborhoodDatabase) (s : Neighborhood) : Neighborhood :=
  MkNeighborhood (cryptde s) (bound s) (gossip_acceptor s) (gossip_producer s) db (consuming_wallet_opt s) (zero_hop_mode s)
    (min_hops s) (db_patch_size s) (next_return_route_id s) (overall_connection_status s) (chain s) (contract s)
    (persistent_config s) (db_password_opt s) (user_exit_preferences s).
Definition set_acceptor (t : gmap IpAddr Z) (s : Neighborhood) : Neighborhood :=
  MkNeighborhood (cryptde s) (bound s) t (gossip_producer s) (neighborhood_database s) (consuming_wallet_opt s) (zero_hop_mode s)
    (min_hops s) (db_patch_size s) (next_return_route_id s) (overall_connection_status s) (chain s) (contract s)
    (persistent_config s) (db_password_opt s) (user_exit_preferences s).
Definition set_producer (t : Z) (s : Neighborhood) : Neighborhood :=
  MkNeighborhood (cryptde s) (bound s) (gossip_acceptor s) t (neighborhood_database s) (consuming_wallet_opt s) (zero_hop_mode s)
    (min_hops s) (db_patch_size s) (next_return_route_id s) (overall_connection_status s) (chain s) (contract s)
    (persistent_config s) (db_password_opt s) (user_exit_preferences s).
Definition set_consuming_wallet (w : option Wallet) (s : Neighborhood) : Neighborhood :=
  MkNeighborhood (cryptde s) (bound s) (gossip_acceptor s) (gossip_producer s) (neighborhood_database s) w (zero_hop_mode s)
    (min_hops s) (db_patch_size s) (next_return_route_id s) (overall_connection_status s) (chain s) (contract s)
    (persistent_config s) (db_password_opt s) (user_exit_preferences s).
Definition set_hops (hops patch_size : nat) (s : Neighborhood) : Neighborhood :=
  MkNeighborhood (cryptde s) (bound s) (gossip_acceptor s) (gossip_producer s) (neighborhood_database s) (consuming_wallet_opt s)
    (zero_hop_mode s) hops patch_size (next_return_route_id s) (overall_connection_status s) (chain s) (contract s)
    (persistent_config s) (db_password_opt s) (user_exit_preferences s).
Definition set_return_route_id (i : Z) (s : Neighborhood) : Neighborhood :=
  MkNeighborhood (cryptde s) (bound s) (gossip_acceptor s) (gossip_producer s) (neighborhood_database s) (consuming_wallet_opt s)
    (zero_hop_mode s) (min_hops s) (db_patch_size s) i (overall_connection_status s) (chain s) (contract s)
    (persistent_config s) (db_password_opt s) (user_exit_preferences s).
Definition set_status (st : ConnectionStatus.OverallConnectionStatus (Chain := Chain)) (s : Neighborhood) : Neighborhood :=
  MkNeighborhood (cryptde s) (bound s) (gossip_acceptor s) (gossip_producer s) (neighborhood_database s) (consuming_wallet_opt s)
    (zero_hop_mode s) (min_hops s) (db_patch_size s) (next_return_route_id s) st (chain s) (contract s)
    (persistent_config s) (db_password_opt s) (user_exit_preferences s).
Definition set_preferences (p : Routing.UserExitPreferences) (s : Neighborhood) : Neighborhood :=
  MkNeighborhood (cryptde s) (bound s) (gossip_acceptor s) (gossip_producer s) (neighborhood_database s) (consuming_wallet_opt s)
    (zero_hop_mode s) (min_hops s) (db_patch_size s) (next_return_route_id s) (overall_connection_status s) (chain s) (contract s)
    (persistent_config s) (db_password_opt s) p.
Definition set_password (w : option string) (s : Neighborhood) : Neighborhood :=
  MkNeighborhood (cryptde s) (bound s) (gossip_acceptor s) (gossip_producer s) (neighborhood_database s) (consuming_wallet_opt s)
    (zero_hop_mode s) (min_hops s) (db_patch_size s) (next_return_route_id s) (overall_connection_status s) (chain s) (contract s)
    (persistent_config s) w (user_exit_preferences s).
Definition set_flags (is_bound has_config : bool) (s : Neighborhood) : Neighborhood :=
  MkNeighborhood (cryptde s) is_bound (gossip_acceptor s) (gossip_producer s) (neighborhood_database s) (consuming_wallet_opt s)
    (zero_hop_mode s) (min_hops s) (db_patch_size s) (next_return_route_id s) (overall_connection_status s) (chain s) (contract s)
    has_config (db_password_opt s) (user_exit_preferences s).

(** ** Construction *)

Definition calculate_db_patch_size (hops : nat) : nat :=
  if (hops <=? DEFAULT_MIN_HOPS)%nat then DEFAULT_MIN_HOPS else hops.

Definition neighbor_configs (mode : NeighborhoodMode NodeDescriptor) : list NodeDescriptor :=
  match mode with
  | Standard _ ns _ | OriginateOnly ns _ | ConsumeOnly ns => ns
  | ZeroHop => []
  end.

Definition is_zero_hop (mode : NeighborhoodMode NodeDescriptor) : bool := match mode with ZeroHop => true | _ => false end.

(** [now]: the clock when the root's record is made and when the producer is. *)
Definition new (is_mainnet : Chain → bool) (contract_of : Chain → list Z) (now producer_now : Z) (c : CryptDE) (hops : nat)
    (mode : NeighborhoodMode NodeDescriptor) (earning_wallet : Wallet) (consuming : option Wallet) (ch : Chain)
    (password : option string) : run Neighborhood :=
  panic_if (is_zero_hop mode && negb (bool_decide (neighbor_configs mode = [])))
   (db ← database_new inner_to_vec sign finder now (cd_public_key c) mode earning_wallet;
    panic_if (existsb (λ nc, negb (Bool.eqb (is_mainnet (ConnectionStatus.blockchain nc)) (is_mainnet ch))) (neighbor_configs mode))
     (status ← ConnectionStatus.status_new (neighbor_configs mode);
      Ret (MkNeighborhood c false ∅ producer_now db consuming (is_zero_hop mode) hops (calculate_db_patch_size hops) 0 status ch
             (contract_of ch) false password ExitPreferences.preferences_new))).

(** ** Sending gossip *)

Definition create_single_hop_route (self : Neighborhood) (destination : PublicKey) : run Route.Route :=
  r ← Route.one_way as_payer (Route.MkSegment [cd_public_key (cryptde self); destination] Route.Neighborhood) (cryptde self)
        None None;
  expect_ok r.

Definition gossip_to_neighbor (self : Neighborhood) (neighbor : PublicKey) (gossip : list Gossip.GossipNodeRecord)
    : run (list Sent) :=
  route ← create_single_hop_route self neighbor;
  vd ← Versioned.vd_new gossip_migrations gossip;
  package ← expect_ok (Hopper.incipient_new (cryptde self) route (Hopper.Gossip vd) neighbor);
  panic_if (negb (bound self)) (Ret [ToHopper package]).

(** The loop over the neighbors; [i] counts the calls of the producer. *)
Fixpoint gossip_loop (env : Env) (self : Neighborhood) (i : nat) (neighbors : list PublicKey) : run (Neighborhood * list Sent) :=
  match neighbors with
  | [] => Ret (self, [])
  | neighbor :: neighbors =>
      let '(now, now_cull, now_set) := e_produce_now env i in
      '(last_check, db, gossip_opt) ←
        Gossip.produce (e_produce_order env i) (gossip_producer self) (neighborhood_database self) neighbor now now_cull now_set;
      let self := set_producer last_check (set_database db self) in
      out ← (match gossip_opt with Some gossip => gossip_to_neighbor self neighbor gossip | None => Ret [] end);
      '(self, rest) ← gossip_loop env self (S i) neighbors;
      Ret (self, out ++ rest)
  end.

Definition gossip_to_neighbors (env : Env) (self : Neighborhood) : run (Neighborhood * list Sent) :=
  let db := neighborhood_database self in
  r ← root db;
  r ← regenerate_signed_gossip inner_to_vec sign r;
  let self := set_database (store db (this_node db) r) self in
  r ← root (neighborhood_database self);
  gossip_loop env self 0 (e_neighbors env (half_neighbor_keys r)).

Definition send_no_lookup_package (self : Neighborhood) (message_type : Hopper.MessageType) (target_key : PublicKey)
    (target_node_addr : NodeAddr) : run (list Sent) :=
  match Hopper.no_lookup_new (cryptde self) target_key target_node_addr message_type with
  | Ok package => panic_if (negb (bound self)) (Ret [ToHopperNoLookup package])
  | Err _ => Ret []
  end.

Definition handle_gossip_reply (self : Neighborhood) (gossip : list Gossip.GossipNodeRecord) (target_key : PublicKey)
    (target_node_addr : NodeAddr) : run (list Sent) :=
  vd ← Versioned.vd_new gossip_migrations gossip;
  send_no_lookup_package self (Hopper.Gossip vd) target_key target_node_addr.

Definition handle_gossip_failed (self : Neighborhood) (failure : GossipAcceptor.GossipFailure_0v1) (target_key : PublicKey)
    (target_node_addr : NodeAddr) : run (list Sent) :=
  vd ← Versioned.vd_new gossip_failure_migrations failure;
  send_no_lookup_package self (Hopper.GossipFailure vd) target_key target_node_addr.

(** ** Searching for a route *)

(** What the route queries use of the actor, and what they leave in it. *)
Definition query_state (self : Neighborhood) : RouteQuery.NeighborhoodState (Wallet := Wallet) :=
  RouteQuery.MkState (cryptde self) (neighborhood_database self) (consuming_wallet_opt self) (zero_hop_mode self) (min_hops self)
    (next_return_route_id self) (user_exit_preferences self) (contract self).

Definition handle_route_query_message (env : Env) (self : Neighborhood) (msg : RouteQuery.RouteQueryMessage)
    : run (Neighborhood * option (RouteQuery.RouteQueryResponse (Wallet := Wallet))) :=
  '(st, response) ← RouteQuery.handle_route_query_message as_payer (e_over env) (e_back env) (query_state self) msg;
  Ret (set_return_route_id (RouteQuery.next_return_route_id st) self, response).

Definition search_for_a_new_route (env : Env) (self : Neighborhood) : run (Neighborhood * list Sent) :=
  let msg := RouteQuery.MkQuery None Route.ProxyClient (Some Route.ProxyServer) 10000 None in
  '(self, response) ← handle_route_query_message env self msg;
  match response with
  | Some _ =>
      panic_if (negb (bound self))
       (let '(status, out) := ConnectionStatus.update_ocs_stage_and_send_message_to_ui (overall_connection_status self)
                                ConnectionStatus.RouteFound in
        Ret (set_status status self, (ToUi <$> out) ++ [StartAccountant]))
  | None => Ret (self, [])
  end.

Definition check_connectedness (env : Env) (self : Neighborhood) : run (Neighborhood * list Sent) :=
  if negb (ConnectionStatus.can_make_routes (overall_connection_status self)) then search_for_a_new_route env self
  else Ret (self, []).

(** ** Gossip that comes in *)

Definition neighbor_keys (self : Neighborhood) : run (gset PublicKey) :=
  root_node ← root (neighborhood_database self);
  Ret (full_neighbor_keys root_node (neighborhood_database self)).

Fixpoint to_node_descriptors (self : Neighborhood) (ks : list PublicKey) : run (list NodeDescriptor) :=
  match ks with
  | [] => Ret []
  | k :: ks =>
      node_record ← expect (node_by_key (neighborhood_database self) k);
      key ← expect (first_contact_public_key (public_key node_record));
      rest ← to_node_descriptors self ks;
      Ret (ConnectionStatus.MkDescriptor (chain self) key (node_addr_opt node_record) :: rest)
  end.

(** Errors of the store are only logged. *)
Definition curate_past_neighbors (env : Env) (self : Neighborhood) (before after : gset PublicKey) : run (list Sent) :=
  if bool_decide (after ≠ before) then
    match db_password_opt self with
    | Some db_password =>
        nds ← to_node_descriptors self (e_saved env after);
        let node_descriptors_opt := match nds with [] => None | _ => Some nds end in
        panic_if (negb (persistent_config self)) (Ret [SetPastNeighbors node_descriptors_opt db_password])
    | None => Ret []
    end
  else Ret [].

Definition handle_database_changes (env : Env) (self : Neighborhood) (before after : gset PublicKey)
    : run (Neighborhood * list Sent) :=
  saved ← curate_past_neighbors env self before after;
  '(self, out) ← check_connectedness env self;
  Ret (self, saved ++ out).

Definition exit_state (self : Neighborhood) : ExitPreferences.ExitState (Wallet := Wallet) :=
  ExitPreferences.MkExitState (neighborhood_database self) (user_exit_preferences self).

(** [self.user_exit_preferences.db_countries = self.init_db_countries()]. *)
Definition refresh_db_countries (env : Env) (self : Neighborhood) : run Neighborhood :=
  cs ← ExitPreferences.init_db_countries (e_exit_search env) (min_hops self) (exit_state self);
  Ret (set_preferences (ExitPreferences.set_db_countries cs (user_exit_preferences self)) self).

Definition handle_agrs (env : Env) (self : Neighborhood) (agrs : list AccessibleGossipRecord)
    (gossip_source : GossipAcceptor.SocketAddr) : run (Neighborhood * list Sent) :=
  let neighborhood_metadata :=
    GossipAcceptor.MkNeighborhoodMetadata (ConnectionStatus.get_peer_addrs (overall_connection_status self)) (db_patch_size self)
      (Some (user_exit_preferences self)) in
  '(targets, db, acceptance_result, cpms) ←
    GossipAcceptor.acceptor_handle inner_to_vec sign finder (e_order env) (e_ip_order env) (e_clock env) (e_pass_checked env)
      (e_pass_stamped env) (gossip_acceptor self) (neighborhood_database self) agrs gossip_source neighborhood_metadata;
  let self := set_acceptor targets (set_database db self) in
  '(self, out) ←
    match acceptance_result with
    | GossipAcceptor.Accepted => self ← refresh_db_countries env self; gossip_to_neighbors env self
    | GossipAcceptor.Reply next_debut target_key target_node_addr =>
        self ← (if (min_hops self =? 1)%nat then refresh_db_countries env self else Ret self);
        out ← handle_gossip_reply self next_debut target_key target_node_addr; Ret (self, out)
    | GossipAcceptor.Failed failure target_key target_node_addr =>
        out ← handle_gossip_failed self failure target_key target_node_addr; Ret (self, out)
    | GossipAcceptor.Ignored => Ret (self, [])
    | GossipAcceptor.Ban _ => Ret (self, [])
    end;
  Ret (self, (ToSelf <$> cpms) ++ out).

Definition handle_gossip_agrs (env : Env) (self : Neighborhood) (agrs : list AccessibleGossipRecord)
    (gossip_source : GossipAcceptor.SocketAddr) : run (Neighborhood * list Sent) :=
  neighbor_keys_before ← neighbor_keys self;
  '(self, out) ← handle_agrs env self agrs gossip_source;
  neighbor_keys_after ← neighbor_keys self;
  '(self, rest) ← handle_database_changes env self neighbor_keys_before neighbor_keys_after;
  Ret (self, out ++ rest).

(** [agrs.iter().any(signature_invalid)]. *)
Fixpoint any_signature_invalid (agrs : list AccessibleGossipRecord) : run bool :=
  match agrs with
  | [] => Ret false
  | agr :: agrs =>
      valid ← verify_signature (a_signed_gossip agr) (a_signature agr) (i_public_key (a_inner agr));
      if (valid : bool) then any_signature_invalid agrs else Ret true
  end.

Definition handle_gossip (env : Env) (self : Neighborhood) (incoming_gossip : list Gossip.GossipNodeRecord)
    (gossip_source : GossipAcceptor.SocketAddr) : run (Neighborhood * list Sent) :=
  let record_count := length incoming_gossip in
  let agrs := omap (Gossip.agr_try_from inner_from_slice) incoming_gossip in
  if (length agrs <? record_count)%nat then Ret (self, [])
  else
    invalid ← any_signature_invalid agrs;
    if (invalid : bool) then Ret (self, []) else handle_gossip_agrs env self agrs gossip_source.

(** ** Streams, addresses and settings *)

Definition remove_neighbor (env : Env) (self : Neighborhood) (neighbor_key : PublicKey) : run (Neighborhood * list Sent) :=
  '(db, removed) ← Neighborhood.remove_neighbor (neighborhood_database self) neighbor_key;
  let self := set_database db self in
  match removed with
  | None => Panic
  | Some true => gossip_to_neighbors env self
  | Some false => Ret (self, [])
  end.

Definition handle_stream_shutdown_msg (env : Env) (self : Neighborhood) (peer_ip : IpAddr) (stream_type : RemovedStreamType)
    : run (Neighborhood * list Sent) :=
  match stream_type with
  | NonClandestine _ _ => Panic
  | Clandestine =>
      match node_by_ip (neighborhood_database self) peer_ip with
      | None => Ret (self, [])
      | Some n => remove_neighbor env self (public_key n)
      end
  end.

(** [Handler<RemoveNeighborMessage>]. *)
Definition handle_remove_neighbor_message (env : Env) (self : Neighborhood) (k : PublicKey) : run (Neighborhood * list Sent) :=
  '(db, removed) ← Neighborhood.remove_neighbor (neighborhood_database self) k;
  let self := set_database db self in
  match removed with
  | Some true => gossip_to_neighbors env self
  | Some false | None => Ret (self, [])
  end.

Definition handle_new_ip_location (self : Neighborhood) (new_public_ip : IpAddr) : run Neighborhood :=
  node_location_opt ← get_node_location finder (Some new_public_ip);
  let db := neighborhood_database self in
  root_node ← root db;
  let i := inner root_node in
  let m := metadata root_node in
  Ret (set_database (store db (this_node db)
         (MkRecord (MkInner (i_public_key i) (i_earning_wallet i) (i_rate_pack i) (i_neighbors i) (i_accepts_connections i)
                      (i_routes_data i) (i_version i) (option_map country_code node_location_opt))
            (MkMetadata (last_update m) (m_node_addr_opt m) (unreachable_hosts m) node_location_opt (country_undesirability m))
            (signed_gossip root_node) (signature root_node))) self).

Definition handle_new_public_ip (self : Neighborhood) (new_ip : IpAddr) : run Neighborhood :=
  root_node ← root (neighborhood_database self);
  _ ← expect (node_addr_opt root_node);
  db ← new_public_ip (neighborhood_database self) new_ip;
  handle_new_ip_location (set_database db self) new_ip.

Definition set_min_hops_and_patch_size (self : Neighborhood) (new_min_hops : nat) : Neighborhood :=
  set_hops new_min_hops (calculate_db_patch_size new_min_hops) self.

Inductive ConfigChange :=
| UpdateMinHops (hops : nat)
| UpdatePassword (password : string)
| UpdateWallets (consuming_wallet earning_wallet : Wallet).

Definition handle_config_change_msg (env : Env) (self : Neighborhood) (change : ConfigChange) : run (Neighborhood * list Sent) :=
  match change with
  | UpdateWallets consuming_wallet _ =>
      Ret (if decide (consuming_wallet_opt self ≠ Some consuming_wallet)
           then set_consuming_wallet (Some consuming_wallet) self else self, [])
  | UpdateMinHops new_min_hops =>
      let self := set_min_hops_and_patch_size self new_min_hops in
      '(self, told) ←
        (if ConnectionStatus.can_make_routes (overall_connection_status self) then
           panic_if (negb (bound self))
            (let '(status, out) := ConnectionStatus.update_ocs_stage_and_send_message_to_ui (overall_connection_status self)
                                     ConnectionStatus.ConnectedToNeighbor in
             Ret (set_status status self, ToUi <$> out))
         else Ret (self, []));
      self ← refresh_db_countries env self;
      self ←
        (match Routing.locations_opt (user_exit_preferences self) with
         | Some exit_locations_by_priority =>
             let p := (ExitPreferences.synchronize_locations (user_exit_preferences self) exit_locations_by_priority).1 in
             st ← ExitPreferences.set_country_undesirability_and_exit_countries
                    (ExitPreferences.MkExitState (neighborhood_database self) p) exit_locations_by_priority;
             Ret (set_preferences (ExitPreferences.preferences st) (set_database (ExitPreferences.database st) self))
         | None => Ret self
         end);
      '(self, out) ← search_for_a_new_route env self;
      Ret (self, told ++ out)
  | UpdatePassword new_password => Ret (set_password (Some new_password) self, [])
  end.

(** ** Starting *)

Definition handle_bind_message (self : Neighborhood) : Neighborhood := set_flags true (persistent_config self) self.

(** [value_in_db]: what the configuration holds; [None] is an error or nothing. *)
Definition validate_or_replace_min_hops_value (self : Neighborhood) (value_in_db : option nat) : run Neighborhood :=
  if persistent_config self then
    v ← expect value_in_db;
    Ret (if (min_hops self =? v)%nat then self else set_hops v (db_patch_size self) self)
  else Ret self.

Definition send_debut_gossip_to_descriptor (self : Neighborhood) (debut_gossip : list Gossip.GossipNodeRecord)
    (node_descriptor : NodeDescriptor) : run (list Sent) :=
  node_addr ← expect (ConnectionStatus.descriptor_addr_opt node_descriptor);
  vd ← Versioned.vd_new gossip_migrations debut_gossip;
  send_no_lookup_package self (Hopper.Gossip vd) (ConnectionStatus.encryption_public_key node_descriptor) node_addr.

Fixpoint send_debuts (self : Neighborhood) (gossip : list Gossip.GossipNodeRecord) (ds : list NodeDescriptor) : run (list Sent) :=
  match ds with
  | [] => Ret []
  | d :: ds => out ← send_debut_gossip_to_descriptor self gossip d; rest ← send_debuts self gossip ds; Ret (out ++ rest)
  end.

Definition send_debut_gossip_to_all_initial_descriptors (self : Neighborhood) : run (list Sent) :=
  if ConnectionStatus.is_empty (overall_connection_status self) then Ret []
  else
    gossip ← Gossip.produce_debut (neighborhood_database self);
    send_debuts self gossip (ConnectionStatus.iter_initial_node_descriptors (overall_connection_status self)).

(** [db_opens]: whether the configuration database can be opened. *)
Definition connect_database (self : Neighborhood) (db_opens : bool) : run Neighborhood :=
  if persistent_config self then Ret self
  else panic_if (negb db_opens) (Ret (set_flags (bound self) true self)).

Definition handle_start_message (self : Neighborhood) (db_opens : bool) (value_in_db : option nat)
    : run (Neighborhood * list Sent) :=
  self ← connect_database self db_opens;
  self ← validate_or_replace_min_hops_value self value_in_db;
  out ← send_debut_gossip_to_all_initial_descriptors self;
  Ret (self, out).


(** ** The mailbox *)

Inductive NodeQueryMessage := QueryIpAddress (ip : IpAddr) | QueryPublicKey (k : PublicKey).

(** [Handler<DispatcherNodeQueryMessage>]. *)
Definition handle_node_query (self : Neighborhood) (query : NodeQueryMessage) : list Sent :=
  let node_record_ref_opt :=
    match query with
    | QueryIpAddress ip => node_by_ip (neighborhood_database self) ip
    | QueryPublicKey k => node_by_key (neighborhood_database self) k
    end in
  [NodeAnswer (option_map (λ r, (public_key r, node_addr_opt r, rate_pack r)) node_record_ref_opt)].

Definition handle_exit_location_message (env : Env) (self : Neighborhood) (message : ExitPreferences.UiSetExitLocationRequest)
    (client_id context_id : Z) : run (Neighborhood * list Sent) :=
  '(st, response) ← ExitPreferences.handle_exit_location_message (e_exit_search env) (min_hops self) (exit_state self) message;
  let self := set_preferences (ExitPreferences.preferences st) (set_database (ExitPreferences.database st) self) in
  panic_if (negb (bound self)) (Ret (self, [ExitLocationAnswer client_id context_id response])).

(** A shutdown order ends the process and a crash request may panic; neither is
    a message here. *)
Inductive Message :=
| BindMessage
| StartMessage (db_opens : bool) (value_in_db : option nat)
| NewPublicIp (new_ip : IpAddr)
| ConfigChangeMsg (change : ConfigChange)
| DispatcherNodeQueryMessage (query : NodeQueryMessage)
| RouteQueryMessage (msg : RouteQuery.RouteQueryMessage)
| GossipPackage (payload : list Gossip.GossipNodeRecord) (immediate_neighbor : GossipAcceptor.SocketAddr)
| GossipFailurePackage (payload : GossipAcceptor.GossipFailure_0v1) (immediate_neighbor : GossipAcceptor.SocketAddr)
| RemoveNeighborMessage (k : PublicKey)
| ConnectionProgress (msg : ConnectionStatus.ConnectionProgressMessage)
| AskAboutDebutGossip (prev : ConnectionStatus.ConnectionProgress (Chain := Chain))
| StreamShutdownMsg (peer_ip : IpAddr) (stream_type : RemovedStreamType)
| SetExitLocation (message : ExitPreferences.UiSetExitLocationRequest) (client_id context_id : Z)
| ConnectionStatusRequest (client_id context_id : Z).

Definition to_uis (out : list (ConnectionStatus.Sent (Chain := Chain))) : list Sent := ToUi <$> out.

Definition handle (env : Env) (self : Neighborhood) (m : Message) : run (Neighborhood * list Sent) :=
  match m return run (Neighborhood * list Sent) with
  | BindMessage => Ret (handle_bind_message self, [])
  | StartMessage db_opens value_in_db => handle_start_message self db_opens value_in_db
  | NewPublicIp new_ip => self ← handle_new_public_ip self new_ip; Ret (self, [])
  | ConfigChangeMsg change => handle_config_change_msg env self change
  | DispatcherNodeQueryMessage query => Ret (self, handle_node_query self query)
  | RouteQueryMessage msg => '(self, r) ← handle_route_query_message env self msg; Ret (self, [RouteAnswer r])
  | GossipPackage payload immediate_neighbor => handle_gossip env self payload immediate_neighbor
  | GossipFailurePackage _ immediate_neighbor =>
      '(status, out) ← ConnectionStatus.handle_gossip_failure (overall_connection_status self) immediate_neighbor.1;
      Ret (set_status status self, to_uis out)
  | RemoveNeighborMessage k => handle_remove_neighbor_message env self k
  | ConnectionProgress msg =>
      '(status, out) ← ConnectionStatus.handle_connection_progress (bound self) (overall_connection_status self) msg;
      Ret (set_status status self, to_uis out)
  | AskAboutDebutGossip prev =>
      status ← ConnectionStatus.handle_ask_about_debut_gossip (overall_connection_status self) prev;
      Ret (set_status status self, [])
  | StreamShutdownMsg peer_ip stream_type => handle_stream_shutdown_msg env self peer_ip stream_type
  | SetExitLocation message client_id context_id => handle_exit_location_message env self message client_id context_id
  | ConnectionStatusRequest client_id context_id =>
      out ← ConnectionStatus.handle_connection_status_message (bound self) (overall_connection_status self) client_id context_id;
      Ret (self, to_uis out)
  end.


(** ** The invariant *)

Implicit Types (s : Neighborhood) (env : Env).

Hypothesis Hto_vec : ∀ i, is_Some (inner_to_vec i).
Hypothesis Hsign : ∀ d, is_Some (sign d).
Hypothesis Hfinder : ∀ ip, ∃ o, Finder.find_country finder ip = Ret o.

(** At the time [now]. *)
Record neighborhood_ok (now : Z) s : Prop := {
  nk_database : acceptor_ok (neighborhood_database s);
  nk_targets : ∀ ip t, gossip_acceptor s !! ip = Some t → t ≤ now;
  nk_priorities : priorities_ok (user_exit_preferences s);
  nk_route_id : 0 ≤ next_return_route_id s < 2 ^ 32
}.

(** A step that only touches what gossip to others touches. *)
Definition gossiped s s' : Prop :=
  ∃ last db, s' = set_producer last (set_database db s) ∧ acceptor_ok db.

Lemma gossip_loop_ok env s i ks s' out :
  acceptor_ok (neighborhood_database s) → gossip_loop env s i ks = Ret (s', out) → gossiped s s'.
Proof.
  revert s i s' out. induction ks as [|k ks IH]; intros s i s' out Hok H.
  { injection H as <- _. exists (gossip_producer s), (neighborhood_database s). by destruct s. }
  cbn [gossip_loop] in H. destruct (e_produce_now env i) as [[now now_cull] now_set].
  destruct (Gossip.produce _ _ _ _ _ _ _) as [[[last db] g]|] eqn:Ep; [|done]. cbn [mbind run_bind] in H.
  apply produce_ok in Ep as [Hok' _]; [|done].
  destruct (match g with Some gossip => _ | None => _ end) as [o|]; [|done]. cbn [mbind run_bind] in H.
  destruct (gossip_loop env _ (S i) ks) as [[s2 rest]|] eqn:El; [|done]. cbn [mbind run_bind] in H. injection H as <- _.
  apply IH in El as (last2 & db2 & -> & ?); [|done]. by exists last2, db2.
Qed.

Lemma gossip_to_neighbors_ok env s s' out :
  acceptor_ok (neighborhood_database s) → gossip_to_neighbors env s = Ret (s', out) → gossiped s s'.
Proof.
  intros Hok H. unfold gossip_to_neighbors in H. destruct (GossipAcceptor.acceptor_ok_root _ Hok) as (r & Hroot & Hr & _).
  rewrite Hroot in H. cbn [mbind run_bind] in H. unfold regenerate_signed_gossip in H.
  destruct (sign_gossip _ _ _) as [[signed sig]|]; [|done]. cbn [mbind run_bind] in H.
  destruct (root _) as [r1|]; [|done]. cbn [mbind run_bind] in H.
  apply gossip_loop_ok in H as (last & db & -> & Hdb); [by exists last, db|].
  by apply (store_root_ok _ r).
Qed.

Lemma gossiped_ok now s s' : neighborhood_ok now s → gossiped s s' → neighborhood_ok now s'.
Proof. intros [H1 H2 H3 H4] (last & db & -> & Hdb). by split. Qed.

Definition route_id_step (st st' : RouteQuery.NeighborhoodState (Wallet := Wallet)) : Prop :=
  RouteQuery.next_return_route_id st' = RouteQuery.next_return_route_id st ∨
  RouteQuery.next_return_route_id st' = u32 (RouteQuery.next_return_route_id st + 1).

Lemma compose_id over back st st' res :
  RouteQuery.compose_route_query_response as_payer st over back = Ret (st', res) → route_id_step st st'.
Proof.
  unfold RouteQuery.compose_route_query_response. intros H. destruct (existsb _ _); [injection H as <- _; by left|]. cbv zeta in H.
  assert (∀ (m : run (RouteQuery.NeighborhoodState * result RouteQuery.RouteQueryError RouteQuery.RouteQueryResponse)),
    (m = Ret (st', res) → route_id_step st st') →
    match RouteQuery.consuming_wallet_opt st, existsb (λ segment, (2 <? length (Route.keys segment))%nat) [over; back] with
    | None, true => Ret (st, Err RouteQuery.NoConsumingWallet)
    | _, _ => m
    end = Ret (st', res) → route_id_step st st') as Hcase.
  { intros m Hm Hrun. destruct (RouteQuery.consuming_wallet_opt st); [by apply Hm|].
    destruct (existsb _ _); [injection Hrun as <- _; by left|by apply Hm]. }
  apply Hcase in H; [done|]. clear Hcase H. intros H.
  destruct (RouteQuery.make_expected_services st over) as [[req|e]|]; [| |done]; cbn [mbind run_bind] in H;
    [|injection H as <- _; by left].
  destruct (RouteQuery.make_expected_services st back) as [[resp|e]|]; [| |done]; cbn [mbind run_bind] in H;
    [|injection H as <- _; by left].
  cbn [RouteQuery.advance_return_route_id] in H. destruct (Route.round_trip _ _ _ _ _ _ _) as [r|]; [|done].
  cbn [mbind run_bind] in H. destruct (expect_ok r); [|done]. injection H as <- _. by right.
Qed.

Lemma route_query_id over back st msg st' response :
  RouteQuery.handle_route_query_message as_payer over back st msg = Ret (st', response) → route_id_step st st'.
Proof.
  unfold RouteQuery.handle_route_query_message, RouteQuery.zero_hop_route_response, RouteQuery.make_round_trip_route. intros H.
  destruct (RouteQuery.zero_hop_mode st).
  - cbn [RouteQuery.advance_return_route_id] in H. destruct (Route.round_trip _ _ _ _ _ _ _) as [r|]; [|done].
    cbn [mbind run_bind] in H. destruct (expect_ok r); [|done]. injection H as <- _. by right.
  - destruct (RouteQuery.make_route_segment _ _ _ _ _ _ _ _ _) as [[o|e]|]; [| |done]; cbn [mbind run_bind] in H;
      [|injection H as <- _; by left].
    destruct (RouteQuery.in_usize _); [|done]. cbn [mbind run_bind] in H. destruct (expect (last _)); [|done]. cbn [mbind run_bind] in H.
    destruct (expect (RouteQuery.return_component_opt msg)); [|done]. cbn [mbind run_bind] in H.
    destruct (RouteQuery.make_route_segment _ _ _ _ _ _ _ _ _) as [[b|e]|]; [| |done]; cbn [mbind run_bind] in H;
      [|injection H as <- _; by left].
    destruct (RouteQuery.compose_route_query_response _ _ _ _) as [[st1 r1]|] eqn:Ec; [|done]. cbn [mbind run_bind] in H.
    injection H as <- _. by apply compose_id in Ec.
Qed.


Lemma route_query_ok now env s msg s' response :
  neighborhood_ok now s → handle_route_query_message env s msg = Ret (s', response) →
  neighborhood_ok now s' ∧ ∃ i, s' = set_return_route_id i s.
Proof.
  intros [H1 H2 H3 H4] H. unfold handle_route_query_message in H.
  destruct (RouteQuery.handle_route_query_message _ _ _ _ _) as [[st r]|] eqn:E; [|done]. cbn [mbind run_bind] in H. injection H as <- _.
  split; [|by eexists]. split; try done. simpl. destruct (route_query_id _ _ _ _ _ _ E) as [->| ->]; [done|].
  apply wrap_range. done.
Qed.

Lemma search_ok now env s s' out :
  neighborhood_ok now s → search_for_a_new_route env s = Ret (s', out) → neighborhood_ok now s'.
Proof.
  intros Hok H. unfold search_for_a_new_route in H.
  destruct (handle_route_query_message _ _ _) as [[s1 r]|] eqn:E; [|done]. cbn [mbind run_bind] in H.
  apply route_query_ok with (now := now) in E as [Hok1 _]; [|done]. destruct r; [|by injection H as <- _].
  destruct (negb (bound s1)); [done|]. unfold panic_if in H.
  destruct (ConnectionStatus.update_ocs_stage_and_send_message_to_ui _ _) as [status o]. injection H as <- _.
  destruct Hok1. by split.
Qed.

Lemma refresh_ok now env s s' :
  neighborhood_ok now s → refresh_db_countries env s = Ret s' → neighborhood_ok now s' ∧
    neighborhood_database s' = neighborhood_database s.
Proof.
  intros [H1 H2 H3 H4] H. unfold refresh_db_countries in H. destruct (ExitPreferences.init_db_countries _ _ _); [|done].
  injection H as <-. by split.
Qed.

(** The messages for which the step is sound, beside a clock that does not run
    backwards: this node is not removed by its own key or address, no two
    records of one gossip have one key, priorities are sensible, and this node's
    version is not exhausted. *)
Definition admissible (now : Z) env s (m : Message) : Prop :=
  (∀ l ks, e_order env l ks ≡ₚ elements ks) ∧ (∀ ips, e_ip_order env ips ≡ₚ elements ips) ∧
  now ≤ e_pass_checked env ≤ e_pass_stamped env ∧ GossipAcceptor.small_version (neighborhood_database s) ∧
  match m with
  | GossipPackage payload _ =>
      NoDup ((λ agr, i_public_key (a_inner agr)) <$> omap (Gossip.agr_try_from inner_from_slice) payload)
  | RemoveNeighborMessage k => k ≠ this_node (neighborhood_database s)
  | StreamShutdownMsg ip _ =>
      ∀ n, node_by_ip (neighborhood_database s) ip = Some n → public_key n ≠ this_node (neighborhood_database s)
  | SetExitLocation message _ _ => Forall ExitPreferences.priority_ok (ExitPreferences.exit_locations message)
  | _ => True
  end.

Lemma later_ok now now' s : neighborhood_ok now s → now ≤ now' → neighborhood_ok now' s.
Proof. intros [H1 H2 H3 H4] Hle. split; try done. intros ip t Ht. specialize (H2 ip t Ht). lia. Qed.

Lemma handle_agrs_ok now env s agrs source s' out :
  (∀ l ks, e_order env l ks ≡ₚ elements ks) → (∀ ips, e_ip_order env ips ≡ₚ elements ips) →
  now ≤ e_pass_checked env ≤ e_pass_stamped env → GossipAcceptor.small_version (neighborhood_database s) →
  NoDup ((λ agr, i_public_key (a_inner agr)) <$> agrs) → neighborhood_ok now s →
  handle_agrs env s agrs source = Ret (s', out) → neighborhood_ok (e_pass_stamped env) s'.
Proof.
  intros Ho Hipo Hnow Hv Hnd Hok H. unfold handle_agrs in H. cbv zeta in H.
  set (md := GossipAcceptor.MkNeighborhoodMetadata _ _ _) in H.
  assert (GossipAcceptor.preferences_ok (GossipAcceptor.user_exit_preferences_opt md)) as Hp
    by (intros p [= <-]; apply (nk_priorities _ _ Hok)).
  assert (GossipAcceptor.fresh_targets (e_pass_checked env) (gossip_acceptor s)) as Hfresh
    by (intros ip t Ht; pose proof (nk_targets _ _ Hok ip t Ht); lia).
  destruct (GossipAcceptor.acceptor_handled inner_to_vec sign finder (e_order env) (e_ip_order env) (e_clock env)
    (e_pass_checked env) (e_pass_stamped env) Hto_vec Hsign Hfinder Ho Hipo (gossip_acceptor s) (neighborhood_database s)
    agrs source md (nk_database _ _ Hok) Hv Hp Hfresh Hnd) as (targets & db & res & cpms & Hrun & Hdb & _).
  rewrite Hrun in H. cbn [mbind run_bind] in H. apply GossipAcceptor.acceptor_targets_step in Hrun as (Htgt & _).
  assert (neighborhood_ok (e_pass_stamped env) (set_acceptor targets (set_database db s))) as Hok1.
  { destruct Hok as [H1 H2 H3 H4]. split; try done. intros ip t Ht. destruct (Htgt ip t Ht) as [Hold| ->]; [|lia].
    specialize (H2 ip t Hold). lia. }
  clear Htgt. set (s1 := set_acceptor targets (set_database db s)) in *. clearbody s1.
  match type of H with (?m ≫= _) = _ => destruct m as [[s2 o2]|] eqn:E; [|done] end.
  cbn [mbind run_bind] in H. injection H as <- _. destruct res.
  - destruct (refresh_db_countries env s1) as [s3|] eqn:E3; [|done]. cbn [mbind run_bind] in E.
    apply refresh_ok with (now := e_pass_stamped env) in E3 as [Hok3 Hdb3]; [|done].
    apply gossip_to_neighbors_ok in E; [exact (gossiped_ok _ _ _ Hok3 E)|apply Hok3].
  - destruct (min_hops s1 =? 1)%nat.
    + destruct (refresh_db_countries env s1) as [s3|] eqn:E3; [|done]. cbn [mbind run_bind] in E.
      apply refresh_ok with (now := e_pass_stamped env) in E3 as [Hok3 Hdb3]; [|done].
      destruct (handle_gossip_reply _ _ _ _); [|done]. by injection E as <- _.
    + cbn [mbind run_bind] in E. destruct (handle_gossip_reply _ _ _ _); [|done]. by injection E as <- _.
  - destruct (handle_gossip_failed _ _ _ _); [|done]. by injection E as <- _.
  - by injection E as <- _.
  - by injection E as <- _.
Qed.


Lemma handle_gossip_ok now env s payload source s' out :
  admissible now env s (GossipPackage payload source) → neighborhood_ok now s →
  handle_gossip env s payload source = Ret (s', out) → neighborhood_ok (e_pass_stamped env) s'.
Proof.
  intros (Ho & Hipo & Hnow & Hv & Hnd) Hok H. unfold handle_gossip in H. cbv zeta in H.
  assert (neighborhood_ok (e_pass_stamped env) s) as Hlater by (eapply later_ok; [done|lia]).
  destruct (_ <? _)%nat; [by injection H as <- _|]. destruct (any_signature_invalid _) as [[]|]; [by injection H as <- _| |done].
  cbn [mbind run_bind] in H. unfold handle_gossip_agrs in H. destruct (neighbor_keys s) as [before|]; [|done]. cbn [mbind run_bind] in H.
  destruct (handle_agrs env s _ source) as [[s1 o1]|] eqn:E; [|done]. cbn [mbind run_bind] in H.
  apply (handle_agrs_ok now) in E; [|done..].
  destruct (neighbor_keys s1) as [after|]; [|done]. cbn [mbind run_bind] in H. unfold handle_database_changes in H.
  destruct (curate_past_neighbors _ _ _ _); [|done]. cbn [mbind run_bind] in H.
  destruct (check_connectedness env s1) as [[s2 o2]|] eqn:E2; [|done]. cbn [mbind run_bind] in H. injection H as <- _.
  unfold check_connectedness in E2. destruct (negb _); [exact (search_ok _ _ _ _ _ E E2)|by injection E2 as <- _].
Qed.

Lemma remove_message_ok now env s k s' out :
  k ≠ this_node (neighborhood_database s) → neighborhood_ok now s →
  handle_remove_neighbor_message env s k = Ret (s', out) → neighborhood_ok now s'.
Proof.
  intros Hk Hok H. unfold handle_remove_neighbor_message in H.
  destruct (Neighborhood.remove_neighbor _ k) as [[db removed]|] eqn:E; [|done]. cbn [mbind run_bind] in H.
  apply remove_neighbor_ok in E; [|apply Hok|done].
  assert (neighborhood_ok now (set_database db s)) as Hok1 by (destruct Hok; by split).
  destruct removed as [[]|]; [|by injection H as <- _..]. exact (gossiped_ok _ _ _ Hok1 (gossip_to_neighbors_ok _ _ _ _ (nk_database _ _ Hok1) H)).
Qed.

(** A lost stream is a removal of the node at its address. *)
Lemma shutdown_is_removal env s ip t s' out :
  handle_stream_shutdown_msg env s ip t = Ret (s', out) →
  (s' = s ∧ out = []) ∨
  ∃ n, node_by_ip (neighborhood_database s) ip = Some n ∧ handle_remove_neighbor_message env s (public_key n) = Ret (s', out).
Proof.
  unfold handle_stream_shutdown_msg. destruct t; [|done]. destruct (node_by_ip _ ip) as [n|]; [|by intros [= <- <-]; left].
  intros H. right. exists n. split; [done|]. unfold remove_neighbor in H. unfold handle_remove_neighbor_message.
  destruct (Neighborhood.remove_neighbor _ _) as [[db removed]|]; [|done]. cbn [mbind run_bind] in *. by destruct removed as [[]|].
Qed.

Lemma new_ip_ok now s ip s' :
  neighborhood_ok now s → handle_new_public_ip s ip = Ret s' → neighborhood_ok now s'.
Proof.
  intros [H1 H2 H3 H4] H. unfold handle_new_public_ip in H. destruct (root (neighborhood_database s)) as [r|]; [|done].
  cbn [mbind run_bind] in H. destruct (expect (node_addr_opt r)); [|done]. cbn [mbind run_bind] in H.
  destruct (new_public_ip _ ip) as [db|] eqn:E; [|done]. cbn [mbind run_bind] in H. apply new_public_ip_ok in E as [Hdb _]; [|done].
  unfold handle_new_ip_location in H. destruct (get_node_location _ _); [|done]. cbn [mbind run_bind] in H. simpl in H.
  destruct (GossipAcceptor.acceptor_ok_root db Hdb) as (r1 & Hroot & Hr1 & _). rewrite Hroot in H. injection H as <-.
  split; try done. simpl. by apply (store_root_ok db r1).
Qed.

Lemma config_ok now env s change s' out :
  neighborhood_ok now s → handle_config_change_msg env s change = Ret (s', out) → neighborhood_ok now s'.
Proof.
  intros Hok H. unfold handle_config_change_msg in H. destruct change as [hops|password|consuming earning]; cbv zeta in H.
  2: { injection H as <- _. destruct Hok. by split. }
  2: { injection H as <- _. destruct (decide _); [|done]. destruct Hok. by split. }
  assert (neighborhood_ok now (set_min_hops_and_patch_size s hops)) as Hok1 by (destruct Hok; by split).
  set (s1 := set_min_hops_and_patch_size s hops) in *. clearbody s1.
  match type of H with (?m ≫= _) = _ => destruct m as [[s2 o2]|] eqn:E2; [|discriminate H] end. cbn [mbind run_bind] in H.
  assert (neighborhood_ok now s2) as Hok2.
  { destruct (ConnectionStatus.can_make_routes _); [|by injection E2 as <- _].
    destruct (bound s1); [|discriminate E2]. simpl in E2. destruct (ConnectionStatus.update_ocs_stage_and_send_message_to_ui _ _). injection E2 as <- _.
    destruct Hok1. by split. }
  destruct (refresh_db_countries env s2) as [s3|] eqn:E3; [|done]. cbn [mbind run_bind] in H.
  apply (refresh_ok now) in E3 as [Hok3 _]; [|done].
  match type of H with (?m ≫= _) = _ => destruct m as [s4|] eqn:E4; [|done] end. cbn [mbind run_bind] in H.
  assert (neighborhood_ok now s4) as Hok4.
  { destruct (Routing.locations_opt (user_exit_preferences s3)) as [ls|] eqn:El; [|by injection E4 as <-].
    match type of E4 with (?m ≫= _) = _ => destruct m as [st|] eqn:E5; [|done] end. cbn [mbind run_bind] in E4. injection E4 as <-.
    apply set_all_ok in E5 as [Hdb Hl]; [|apply Hok3|].
    - destruct Hok3 as [_ ? Hp ?]. split; try done. simpl. unfold priorities_ok. rewrite Hl. simpl.
      unfold priorities_ok, ExitPreferences.get_locations_opt in *. by rewrite synchronize_locations_opt.
    - simpl. unfold ExitPreferences.get_locations_opt. rewrite synchronize_locations_opt. apply (nk_priorities _ _ Hok3). }
  destruct (search_for_a_new_route env s4) as [[s5 o5]|] eqn:E5; [|done]. injection H as <- _. exact (search_ok _ _ _ _ _ Hok4 E5).
Qed.


Lemma start_ok now s opens v s' out :
  neighborhood_ok now s → handle_start_message s opens v = Ret (s', out) → neighborhood_ok now s'.
Proof.
  intros Hok H. unfold handle_start_message in H. destruct (connect_database s opens) as [s1|] eqn:E1; [|done].
  cbn [mbind run_bind] in H. destruct (validate_or_replace_min_hops_value s1 v) as [s2|] eqn:E2; [|done].
  cbn [mbind run_bind] in H. destruct (send_debut_gossip_to_all_initial_descriptors s2); [|done]. injection H as <- _.
  assert (neighborhood_ok now s1) as Hok1.
  { unfold connect_database in E1. destruct (persistent_config s); [by injection E1 as <-|]. destruct opens; [|done].
    injection E1 as <-. destruct Hok. by split. }
  unfold validate_or_replace_min_hops_value in E2. destruct (persistent_config s1); [|by injection E2 as <-].
  destruct v; [|done]. injection E2 as <-. destruct (_ =? _)%nat; [done|]. destruct Hok1. by split.
Qed.

Lemma step_ok now env s m s' out :
  neighborhood_ok now s → admissible now env s m → handle env s m = Ret (s', out) → neighborhood_ok (e_pass_stamped env) s'.
Proof.
  intros Hok Hadm H. assert (now ≤ e_pass_stamped env) as Hle by (destruct Hadm as (_ & _ & ? & _); lia).
  assert (neighborhood_ok (e_pass_stamped env) s) as Hlater by by eapply later_ok.
  assert (∀ (m : run (ConnectionStatus.OverallConnectionStatus (Chain := Chain) * list ConnectionStatus.Sent)),
    ('(status, out) ← m; Ret (set_status status s, to_uis out)) = Ret (s', out) → neighborhood_ok (e_pass_stamped env) s') as Hstatus.
  { intros mm Hm. destruct mm as [[st o]|]; [|done]. injection Hm as <- _. destruct Hlater. by split. }
  destruct m; cbn [handle] in H.
  - injection H as <- _. destruct Hlater. by split.
  - exact (start_ok _ _ _ _ _ _ Hlater H).
  - destruct (handle_new_public_ip s new_ip) as [s1|] eqn:E; [|done]. injection H as <- _. exact (new_ip_ok _ _ _ _ Hlater E).
  - exact (config_ok _ _ _ _ _ _ Hlater H).
  - by injection H as <- _.
  - destruct (handle_route_query_message env s msg) as [[s1 r]|] eqn:E; [|done]. injection H as <- _.
    exact (proj1 (route_query_ok _ _ _ _ _ _ Hlater E)).
  - exact (handle_gossip_ok now env s payload immediate_neighbor s' out Hadm Hok H).
  - by eapply Hstatus.
  - exact (remove_message_ok _ _ _ _ _ _ (proj2 (proj2 (proj2 (proj2 Hadm)))) Hlater H).
  - by eapply Hstatus.
  - destruct (ConnectionStatus.handle_ask_about_debut_gossip _ _) as [st|]; [|done]. injection H as <- _. destruct Hlater. by split.
  - apply shutdown_is_removal in H as [[-> _]|(n & Hn & H)]; [done|].
    exact (remove_message_ok _ _ _ _ _ _ (proj2 (proj2 (proj2 (proj2 Hadm))) n Hn) Hlater H).
  - unfold handle_exit_location_message in H.
    destruct (ExitPreferences.handle_exit_location_message _ _ _ _) as [[st r]|] eqn:E; [|done]. cbn [mbind run_bind] in H.
    apply exit_message_ok in E as [Hdb Hp]; [|apply Hlater|apply Hlater|apply Hadm]. destruct (negb _); [done|].
    injection H as <- _. destruct Hlater. by split.
  - destruct (ConnectionStatus.handle_connection_status_message _ _ _ _); [|done]. by injection H as <- _.
Qed.

(** *** From the start *)

Lemma database_new_ok {D} now key (mode : NeighborhoodMode D) wallet db :
  database_new inner_to_vec sign finder now key mode wallet = Ret db → acceptor_ok db ∧ this_node db = key.
Proof.
  intros H. unfold database_new in H. destruct (match mode_node_addr_opt mode with Some _ => _ | None => _ end) as [loc|]; [|done].
  cbn [mbind run_bind] in H. unfold node_record_new, regenerate_signed_gossip in H.
  destruct (sign_gossip _ _ _) as [[d1 s1]|]; [|done]. cbn [mbind run_bind] in H.
  match type of H with (?m ≫= _) = _ => destruct m as [r|] eqn:Er; [|done] end. cbn [mbind run_bind] in H.
  destruct (sign_gossip _ _ _) as [[d2 s2]|]; [|done]. cbn [mbind run_bind] in H. injection H as <-.
  assert (public_key r = key ∧ half_neighbor_keys r = ∅ ∧ accepts_connections r = mode_accepts_connections mode ∧
    node_addr_opt r = mode_node_addr_opt mode) as (E1 & E2 & E3 & E4).
  { destruct (mode_node_addr_opt mode); [|by injection Er as <-]. simpl in Er. by injection Er as <-. }
  set (r' := MkRecord _ _ _ _).
  split; [|done]. assert (public_key r' = key) as <- by done. apply GossipAcceptor.acceptor_ok_new; [done|].
  change (accepts_connections r = true → is_Some (node_addr_opt r)). rewrite E3, E4. by destruct mode.
Qed.

(** The life of the actor, as long as it does not panic. *)
Inductive lifetime : Z → Neighborhood → Prop :=
| born is_mainnet contract_of now producer_now c hops mode earning consuming ch password pass_now s :
    new is_mainnet contract_of now producer_now c hops mode earning consuming ch password = Ret s → lifetime pass_now s
| lives now s env m s' out :
    lifetime now s → admissible now env s m → handle env s m = Ret (s', out) → lifetime (e_pass_stamped env) s'.

Lemma lifetime_ok now s : lifetime now s → neighborhood_ok now s.
Proof.
  induction 1 as [is_mainnet contract_of now producer_now c hops mode earning consuming ch password pass_now s H|now s env m s' out _ IH Hadm H].
  - unfold new in H. destruct (_ && _); [done|]. unfold panic_if in H. destruct (database_new _ _ _ _ _ _ _) as [db|] eqn:E; [|done].
    cbn [mbind run_bind] in H. destruct (existsb _ _); [done|]. destruct (ConnectionStatus.status_new _) as [st|]; [|done].
    injection H as <-. apply database_new_ok in E as [Hdb _]. split; try done. apply Forall_nil_2.
  - by eapply step_ok.
Qed.




End actor.
(** ** A concrete life *)

Module Demo.
Definition demo_codec (T : Type) : Codec T := {| Cryptde.to_vec := λ _, Some [1]; Cryptde.from_slice := λ _, None |}.
#[local] Instance hop_codec : Codec (Route.LiveHop nat unit) := demo_codec _.
#[local] Instance id_codec : Codec Z := demo_codec _.
#[local] Instance message_codec : Codec Hopper.MessageType := demo_codec _.
#[local] Instance gossip_codec : Codec (list Gossip.GossipNodeRecord) := demo_codec _.
#[local] Instance failure_codec : Codec GossipAcceptor.GossipFailure_0v1 := demo_codec _.

Definition demo_cryptde : CryptDE := MkCryptDE (λ _ d, Ok d) (λ d, Ret (Ok d)) (λ n, repeat 0 n) (demo_key 1) [].

(** The bytes of a record are its number; it lists node 5. *)
Definition demo_from_slice (bytes : list Z) : option (NodeRecordInner (Wallet := nat)) :=
  match bytes with [n] => Some (demo_inner n [5]) | _ => None end.

Definition demo_env (t : Z) : Env :=
  MkEnv GossipAcceptor.byte_order elements (λ _, 7) t t elements (λ _, elements) (λ _, (100, 100, 100)) elements (λ _, elements)
    (λ _, elements) (λ _, elements).

Definition demo_migrations : Versioned.Migrations := Versioned.migrations_new (DataVersion.MkVersion 0 1).
Definition demo_payer (_ : nat) (_ : PublicKey) (_ : list Z) : run (Route.Payer nat unit) := Panic.
Definition demo_mode : NeighborhoodMode (ConnectionStatus.NodeDescriptor (Chain := nat)) :=
  Standard (MkNodeAddr (IpV4 1) [5000]) [] (MkRates 1 2 3 4).

Definition demo_start : run (Neighborhood (Wallet := nat) (Chain := nat)) :=
  new (λ _, Some [1]) Some demo_finder (λ _, true) (λ _, []) 50 50 demo_cryptde 3 demo_mode 7%nat None 0%nat None.

Abbreviation demo_handle := (handle (Signature := unit) (λ _, Some [1]) demo_from_slice Some (λ _ _ _, Ret true) demo_finder demo_payer
  Some demo_migrations demo_migrations).
Abbreviation demo_lifetime := (lifetime (Signature := unit) (λ _, Some [1]) demo_from_slice Some (λ _ _ _, Ret true) demo_finder demo_payer
  Some demo_migrations demo_migrations).

Definition demo_gossip : list Gossip.GossipNodeRecord := [Gossip.MkGnr [2] [2] (Some (GossipAcceptor.demo_addr 2))].

(** Bound, and told about by node 2. *)
Definition demo_life : run (Neighborhood (Wallet := nat) (Chain := nat)) :=
  s ← demo_start;
  '(s, _) ← demo_handle (demo_env 0) s BindMessage;
  '(s, _) ← demo_handle (demo_env 5) s (GossipPackage demo_gossip (IpV4 2, 5000));
  Ret s.


(** The number of hops is taken over from the configuration when the actor
    starts, but the size of the patch is not: routes of six hops are asked for
    while only what is three hops away is taken in. *)
Example start_keeps_patch_size :
  match (s ← demo_start; handle_start_message demo_migrations s true (Some 6%nat)) with
  | Ret (s, _) => min_hops s = 6%nat ∧ db_patch_size s = 3%nat ∧ calculate_db_patch_size (min_hops s) = 6%nat
  | Panic => False
  end.
Proof. vm_compute. repeat split; reflexivity. Qed.

(** A lost stream at this node's own address takes the address from its record, and
    the next standard gossip stops the node. *)
Example own_address_lost :
  match (s ← demo_life; demo_handle (demo_env 6) s (StreamShutdownMsg (IpV4 1) Clandestine)) with
  | Ret (s, _) => demo_handle (demo_env 7) s (GossipPackage demo_gossip (IpV4 2, 5000)) = Panic
  | Panic => False
  end.
Proof. vm_compute. reflexivity. Qed.

End Demo.


End NeighborhoodActor.
