(* ===== verification/BigInt.v ===== *)
(** * Big integers in database columns

    Models [node/src/accountant/db_big_integer/big_int_divider.rs] and
    [big_int_db_processor.rs]: amounts of 128 bits are kept in two columns of 64
    bits, and a change of an amount is added column by column, with a second
    statement that repairs the carry when the low column overflows.

    The processor is given statements.  A statement is a function of the two
    integers bound to it and of the table; SQLite executes a statement as a
    whole or not at all, adds integers that stay within 64 bits, and answers
    with code 3091 ([ConstraintDatatype]) when a sum that does not would be
    stored in a strict integer column.  The statements of the real tables are in
    [AccountingTables.v].  The theorems show that the two columns together are
    the amount, that their lexicographic order is the order of amounts, and that
    an update adds. *)
From S2P Require Import Prelude.
From stdpp Require Import base list gmap strings.

(** ** Signed machine integers *)
Module Signed.
Local Open Scope Z_scope.

(** [as iN]: the low [w] bits, read as two's complement. *)
Definition sint (w : Z) (z : Z) : Z :=
  let r := z mod 2 ^ w in if r <? 2 ^ (w - 1) then r else r - 2 ^ w.

Definition fits_i (w : Z) (z : Z) : bool := (- 2 ^ (w - 1) <=? z) && (z <? 2 ^ (w - 1)).
Definition fits_u (w : Z) (z : Z) : bool := (0 <=? z) && (z <? 2 ^ w).

(** A result that must fit the type of an arithmetic operation. *)
Definition checked_i (w : Z) (z : Z) : run Z := if fits_i w z then Ret z else Panic.
Definition checked_u (w : Z) (z : Z) : run Z := if fits_u w z then Ret z else Panic.

Lemma sint_small w z : 0 < w → - 2 ^ (w - 1) ≤ z < 2 ^ (w - 1) → sint w z = z.
Proof.
  intros Hw Hz. unfold sint.
  assert (H2 : 2 ^ w = 2 * 2 ^ (w - 1)) by (rewrite <- Z.pow_succ_r by lia; f_equal; lia).
  destruct (decide (0 ≤ z)).
  - rewrite Z.mod_small by lia. case_match eqn:E; b2p; lia.
  - rewrite <- (Z.mod_add z 1 (2 ^ w)), Z.mod_small by lia. case_match eqn:E; b2p; lia.
Qed.

Lemma fits_i_spec w z : fits_i w z = true ↔ - 2 ^ (w - 1) ≤ z < 2 ^ (w - 1).
Proof. unfold fits_i. rewrite andb_true_iff, Z.leb_le, Z.ltb_lt. done. Qed.

Lemma fits_u_spec w z : fits_u w z = true ↔ 0 ≤ z < 2 ^ w.
Proof. unfold fits_u. rewrite andb_true_iff, Z.leb_le, Z.ltb_lt. done. Qed.

Lemma checked_i_ok w z : - 2 ^ (w - 1) ≤ z < 2 ^ (w - 1) → checked_i w z = Ret z.
Proof. intros H. unfold checked_i. by rewrite (proj2 (fits_i_spec w z) H). Qed.

Lemma checked_u_ok w z : 0 ≤ z < 2 ^ w → checked_u w z = Ret z.
Proof. intros H. unfold checked_u. by rewrite (proj2 (fits_u_spec w z) H). Qed.
End Signed.

Module BigInt.
Import Signed.
Local Open Scope Z_scope.

Definition WEIS_IN_GWEI : Z := 1000000000.

(** [TryFrom] between integer types; [fits] tells whether the target holds the number. *)
Definition sign_conversion (fits : Z → bool) (num : Z) : result Z Z :=
  if fits num then Ok num else Err num.

Definition checked_conversion (fits : Z → bool) (num : Z) : run Z :=
  match sign_conversion fits num with Ok n => Ret n | Err _ => Panic end.

(** Into a type of [fits]; all callers use 128 bits, which hold the product. *)
Definition gwei_to_wei (gwei : Z) : Z := gwei * WEIS_IN_GWEI.

Definition wei_to_gwei (fits : Z → bool) (wei : Z) : run Z :=
  checked_conversion fits (Z.quot wei WEIS_IN_GWEI).

(** ** Two columns for one number *)

Definition deconstruct_range_check (num : Z) : run unit :=
  let top_two_bits := Z.land (Z.shiftr num 126) 3 in
  if top_two_bits =? 1 then Panic else if top_two_bits =? 2 then Panic else Ret ().

Definition deconstruct_high_bytes (num : Z) : run Z :=
  _ ← deconstruct_range_check num; Ret (sint 64 (Z.shiftr num 63)).

Definition deconstruct_low_bytes (num : Z) : Z := sint 64 (Z.land num 0x7FFFFFFFFFFFFFFF).

Definition deconstruct (num : Z) : run (Z * Z) :=
  high ← deconstruct_high_bytes num; Ret (high, deconstruct_low_bytes num).

Definition forbidden_low_bytes_negativity_check (low_bytes : Z) : run unit :=
  if low_bytes <? 0 then Panic else Ret ().

Definition reconstitute (high_bytes low_bytes : Z) : run Z :=
  _ ← forbidden_low_bytes_negativity_check low_bytes;
  Ret (Z.lor (sint 128 (Z.shiftl high_bytes 63)) low_bytes).

(** The functions [slope_drop_high_bytes] and [slope_drop_low_bytes] that are
    registered with SQLite; [None] is an argument that is not an integer, [Err]
    an error of the statement that calls them. *)
Definition common_arg_distillation (arg1 arg2 arg3 : option Z) : result unit Z :=
  match arg1 with
  | None => Err ()
  | Some start_point_to_decrease_from_gwei =>
      match arg2 with
      | None => Err ()
      | Some slope =>
          match arg3 with
          | None => Err ()
          | Some time_parameter =>
              match slope <? 0, 0 <? time_parameter with
              | true, true => Ok (gwei_to_wei start_point_to_decrease_from_gwei + slope * time_parameter)
              | false, _ => Err ()
              | _, _ => Err ()
              end
          end
      end
  end.

Definition slope_drop_high_bytes (arg1 arg2 arg3 : option Z) : run (result unit Z) :=
  match common_arg_distillation arg1 arg2 arg3 with
  | Ok n => high ← deconstruct_high_bytes n; Ret (Ok high)
  | Err e => Ret (Err e)
  end.

Definition slope_drop_low_bytes (arg1 arg2 arg3 : option Z) : run (result unit Z) :=
  match common_arg_distillation arg1 arg2 arg3 with
  | Ok n => Ret (Ok (deconstruct_low_bytes n))
  | Err e => Ret (Err e)
  end.

(** ** Changes of an amount *)

Inductive WeiChangeDirection := Addition | Subtraction.

Record WeiChange := MkWeiChange {
  amount_to_change : Z;
  direction : WeiChangeDirection
}.

Record WeiChangeAsHighAndLowBytes := MkWeiChangeBytes {
  high_bytes : Z;
  low_bytes : Z
}.

Definition wei_change_as_bytes (wei_change : WeiChange) : run WeiChangeAsHighAndLowBytes :=
  size_checked_amount ← checked_conversion (fits_i 128) (amount_to_change wei_change);
  let oriented_amount :=
    match direction wei_change with
    | Addition => size_checked_amount
    | Subtraction => - size_checked_amount
    end in
  '(high_bytes, low_bytes) ← deconstruct oriented_amount;
  Ret (MkWeiChangeBytes high_bytes low_bytes).

(** ** The processor *)

(** Sums of SQLite integers; [None] is a floating-point number. *)
Definition sql_add (a b : Z) : option Z := if fits_i 64 (a + b) then Some (a + b) else None.

Inductive SqlError := ConstraintDatatype | ConstraintViolation | OtherFailure.

Inductive BigIntDatabaseError := General | RowChangeMismatch (detected_count_changed : nat).

Section processor.
Context {Table : Type}.

(** What executing a statement comes to: a new table and a number of rows. *)
Abbreviation statement := (Table → result SqlError (Table * nat)).

Record BigIntSqlConfig := MkConfig {
  main_sql : Z → Z → statement;
  overflow_update_clause : Z → Z → statement;
  select_sql : Table → option (Z * Z);
  wei_change_params : WeiChangeAsHighAndLowBytes
}.

Definition correct_bytes (former_high_bytes former_low_bytes : Z)
    (requested_wei_change : WeiChangeAsHighAndLowBytes) : run (Z * Z) :=
  high ← checked_i 64 (former_high_bytes + high_bytes requested_wei_change);
  high_bytes_correction ← checked_i 64 (high + 1);
  let low_bytes_correction :=
    sint 64 (Z.land (former_low_bytes + low_bytes requested_wei_change) 0x7FFFFFFFFFFFFFFF) in
  Ret (high_bytes_correction, low_bytes_correction).

Definition execute_update (config : BigIntSqlConfig) (high low : Z) (t : Table) : run Table :=
  '(t, rows_changed) ← expect_ok (overflow_update_clause config high low t);
  if (rows_changed =? 1)%nat then Ret t else Panic.

(** The table is part of the answer also when it is an error: what a statement
    has changed stays changed. *)
Definition update_with_overflow (config : BigIntSqlConfig) (t : Table)
    : run (Table * result BigIntDatabaseError unit) :=
  match select_sql config t with
  | Some (former_high_bytes, former_low_bytes) =>
      '(high_bytes_corrected, low_bytes_corrected) ←
        correct_bytes former_high_bytes former_low_bytes (wei_change_params config);
      t ← execute_update config high_bytes_corrected low_bytes_corrected t;
      Ret (t, Ok ())
  | None => Ret (t, Err General)
  end.

Definition execute (config : BigIntSqlConfig) (t : Table) : run (Table * result BigIntDatabaseError unit) :=
  match main_sql config (high_bytes (wei_change_params config)) (low_bytes (wei_change_params config)) t with
  | Ok (t, 1%nat) => Ret (t, Ok ())
  | Ok (t, detected_count_changed) => Ret (t, Err (RowChangeMismatch detected_count_changed))
  | Err ConstraintDatatype => update_with_overflow config t
  | Err _ => Ret (t, Err General)
  end.
End processor.
Arguments BigIntSqlConfig : clear implicits.
Arguments MkConfig {Table}.

Lemma checked_conversion_ok fits num : fits num = true → checked_conversion fits num = Ret num.
Proof. intros H. unfold checked_conversion, sign_conversion. by rewrite H. Qed.

(** ** The two columns are the number *)

(** What two columns stand for. *)
Definition value (c : Z * Z) : Z := c.1 * 2 ^ 63 + c.2.

(** Columns as they are written: signed high bytes and 63 low bits. *)
Definition columns_ok (c : Z * Z) : Prop := - 2 ^ 63 ≤ c.1 < 2 ^ 63 ∧ 0 ≤ c.2 < 2 ^ 63.

(** Amounts that two columns can hold. *)
Definition storable (z : Z) : Prop := - 2 ^ 126 ≤ z < 2 ^ 126.

Definition split (z : Z) : Z * Z := (z / 2 ^ 63, z mod 2 ^ 63).

Lemma split_ok z : storable z → columns_ok (split z).
Proof.
  unfold storable, columns_ok, split. cbn [fst snd]. intros Hz. split; [|apply Z.mod_pos_bound; lia].
  split; [apply Z.div_le_lower_bound; lia|apply Z.div_lt_upper_bound; lia].
Qed.

Lemma value_split z : value (split z) = z.
Proof. unfold value, split. cbn [fst snd]. pose proof (Z.div_mod z (2 ^ 63)). lia. Qed.

Lemma split_value c : columns_ok c → split (value c) = c.
Proof.
  intros [_ Hl]. destruct c as [h l]. cbn in *. unfold split, value. cbn [fst snd].
  rewrite Z.div_add_l by lia. rewrite (Z.div_small l), Z.add_0_r by lia.
  rewrite Z.add_comm, Z.mod_add, Z.mod_small by lia. done.
Qed.

Lemma value_storable c : columns_ok c → storable (value c).
Proof. unfold columns_ok, storable, value. lia. Qed.

Lemma value_inj c d : columns_ok c → columns_ok d → value c = value d → c = d.
Proof. intros Hc Hd H. rewrite <- (split_value c Hc), <- (split_value d Hd). by rewrite H. Qed.

Lemma land_low z : Z.land z 0x7FFFFFFFFFFFFFFF = z mod 2 ^ 63.
Proof. change 0x7FFFFFFFFFFFFFFF with (Z.ones 63). apply Z.land_ones. lia. Qed.

Lemma low_bytes_split z : deconstruct_low_bytes z = (split z).2.
Proof.
  unfold deconstruct_low_bytes. rewrite land_low. apply sint_small; [lia|].
  pose proof (Z.mod_pos_bound z (2 ^ 63)). change (64 - 1) with 63. unfold split. cbn [snd]. lia.
Qed.

(** The check on the two topmost bits is the one on the range. *)
Lemma range_check_spec z :
  - 2 ^ 127 ≤ z < 2 ^ 127 →
  deconstruct_range_check z = if bool_decide (storable z) then Ret () else Panic.
Proof.
  intros Hz. unfold deconstruct_range_check, storable. rewrite Z.shiftr_div_pow2 by lia.
  assert (Hq : z / 2 ^ 126 = -2 ∨ z / 2 ^ 126 = -1 ∨ z / 2 ^ 126 = 0 ∨ z / 2 ^ 126 = 1).
  { assert (-2 ≤ z / 2 ^ 126) by (apply Z.div_le_lower_bound; lia).
    assert (z / 2 ^ 126 < 2) by (apply Z.div_lt_upper_bound; lia). lia. }
  pose proof (Z.div_mod z (2 ^ 126)) as Hdm. pose proof (Z.mod_pos_bound z (2 ^ 126)) as Hm.
  destruct Hq as [H|[H|[H|H]]]; rewrite H in *; cbn [Z.land];
    case_bool_decide; try reflexivity; lia.
Qed.

Lemma deconstruct_ok z : storable z → deconstruct z = Ret (split z).
Proof.
  intros Hz. unfold deconstruct, deconstruct_high_bytes.
  rewrite range_check_spec by (unfold storable in Hz; lia). rewrite bool_decide_true by done. cbn [mbind run_bind].
  rewrite low_bytes_split, Z.shiftr_div_pow2, sint_small by (lia || apply (split_ok z Hz)). done.
Qed.

(** Numbers of 128 bits that do not fit are refused. *)
Lemma deconstruct_panics z : - 2 ^ 127 ≤ z < 2 ^ 127 → ¬ storable z → deconstruct z = Panic.
Proof.
  intros Hz Hn. unfold deconstruct, deconstruct_high_bytes.
  rewrite range_check_spec by done. rewrite bool_decide_false by done. done.
Qed.

Lemma reconstitute_ok c : columns_ok c → reconstitute c.1 c.2 = Ret (value c).
Proof.
  intros [Hh Hl]. destruct c as [h l]. cbn [fst snd] in *.
  unfold reconstitute, forbidden_low_bytes_negativity_check.
  destruct (l <? 0) eqn:E; [b2p; lia|]. cbn [mbind run_bind]. f_equal. unfold value. cbn [fst snd].
  rewrite Z.shiftl_mul_pow2 by lia. rewrite sint_small by lia.
  rewrite Z.lor_comm. change 63 with (Z.of_nat 63). rewrite lor_mul_pow2 by lia. lia.
Qed.

(** ** Order *)

(** How statements compare two columns with two numbers. *)
Definition sql_gt (h l h' l' : Z) : bool := (h' <? h) || ((h =? h') && (l' <? l)).
Definition sql_ge (h l h' l' : Z) : bool := (h' <? h) || ((h =? h') && (l' <=? l)).
Definition sql_lt (h l h' l' : Z) : bool := (h <? h') || ((h =? h') && (l <? l')).
Definition sql_le (h l h' l' : Z) : bool := (h <? h') || ((h =? h') && (l <=? l')).

Section order.
Context (c d : Z * Z) (Hc : columns_ok c) (Hd : columns_ok d).

Local Ltac lex :=
  unfold columns_ok, value in *; destruct c as [h l], d as [h' l']; cbn [fst snd] in *;
  rewrite ?orb_true_iff, ?andb_true_iff, ?Z.ltb_lt, ?Z.leb_le, ?Z.eqb_eq; nia.

Lemma sql_gt_spec : sql_gt c.1 c.2 d.1 d.2 = true ↔ value d < value c.
Proof. unfold sql_gt. lex. Qed.

Lemma sql_ge_spec : sql_ge c.1 c.2 d.1 d.2 = true ↔ value d ≤ value c.
Proof. unfold sql_ge. lex. Qed.

Lemma sql_lt_spec : sql_lt c.1 c.2 d.1 d.2 = true ↔ value c < value d.
Proof. unfold sql_lt. lex. Qed.

Lemma sql_le_spec : sql_le c.1 c.2 d.1 d.2 = true ↔ value c ≤ value d.
Proof. unfold sql_le. lex. Qed.
End order.

(** ** An update adds *)

(** Amounts so small that two of them can be added; the supply of the token is
    below 2^85 wei. *)
Definition amount (z : Z) : Prop := - 2 ^ 125 ≤ z < 2 ^ 125.

Lemma wei_change_ok d : 0 ≤ amount_to_change d < 2 ^ 125 →
  wei_change_as_bytes d =
    Ret (let s := split (match direction d with Addition => amount_to_change d | Subtraction => - amount_to_change d end) in
         MkWeiChangeBytes s.1 s.2).
Proof.
  intros Hd. unfold wei_change_as_bytes, checked_conversion, sign_conversion.
  rewrite (proj2 (fits_i_spec 128 _)) by lia. cbn [mbind run_bind].
  rewrite deconstruct_ok; [done|]. unfold storable. destruct (direction d); lia.
Qed.

(** A configuration changes one row: its columns are [c], and [set] writes others. *)
Record updates_row {Table} (config : BigIntSqlConfig Table) (t : Table) (c : Z * Z) (set : Z * Z → Table) : Prop := {
  ur_select : select_sql config t = Some c;
  ur_main dh dl : main_sql config dh dl t =
    match sql_add c.1 dh, sql_add c.2 dl with
    | Some h, Some l => Ok (set (h, l), 1%nat)
    | _, _ => Err ConstraintDatatype
    end;
  ur_overflow h l : overflow_update_clause config h l t = Ok (set (h, l), 1%nat)
}.

Lemma add_no_carry c d : amount (value c) → amount d → columns_ok c → c.2 + d mod 2 ^ 63 < 2 ^ 63 →
  split (value c + d) = (c.1 + d / 2 ^ 63, c.2 + d mod 2 ^ 63) ∧ - 2 ^ 63 ≤ c.1 + d / 2 ^ 63 < 2 ^ 63.
Proof.
  intros Hv Hd Hc Hl. pose proof (Z.div_mod d (2 ^ 63)). pose proof (Z.mod_pos_bound d (2 ^ 63)).
  unfold amount, columns_ok, value in *. split; [|lia].
  change (split (value c + d) = (c.1 + d / 2 ^ 63, c.2 + d mod 2 ^ 63)). symmetry.
  rewrite <- (split_value (c.1 + d / 2 ^ 63, c.2 + d mod 2 ^ 63)) by (unfold columns_ok; cbn; lia).
  f_equal. unfold value. cbn [fst snd]. lia.
Qed.

Lemma add_carry c d : amount (value c) → amount d → columns_ok c → 2 ^ 63 ≤ c.2 + d mod 2 ^ 63 →
  split (value c + d) = (c.1 + d / 2 ^ 63 + 1, (c.2 + d mod 2 ^ 63) mod 2 ^ 63) ∧
  - 2 ^ 63 ≤ c.1 + d / 2 ^ 63 < 2 ^ 63 ∧ - 2 ^ 63 ≤ c.1 + d / 2 ^ 63 + 1 < 2 ^ 63.
Proof.
  intros Hv Hd Hc Hl. pose proof (Z.div_mod d (2 ^ 63)). pose proof (Z.mod_pos_bound d (2 ^ 63)).
  assert (Hm : (c.2 + d mod 2 ^ 63) mod 2 ^ 63 = c.2 + d mod 2 ^ 63 - 2 ^ 63).
  { rewrite <- (Z.mod_add _ (-1)) by lia. apply Z.mod_small. unfold columns_ok in Hc. lia. }
  unfold amount, columns_ok in *. split; [|unfold value in *; lia].
  rewrite Hm. symmetry.
  rewrite <- (split_value (c.1 + d / 2 ^ 63 + 1, c.2 + d mod 2 ^ 63 - 2 ^ 63))
    by (unfold columns_ok, value in *; cbn; lia).
  f_equal. unfold value. cbn [fst snd]. lia.
Qed.

Lemma execute_adds {Table} (config : BigIntSqlConfig Table) t c set d :
  updates_row config t c set → wei_change_params config = MkWeiChangeBytes (split d).1 (split d).2 →
  columns_ok c → amount (value c) → amount d →
  execute config t = Ret (set (split (value c + d)), Ok ()).
Proof.
  intros [Hsel Hmain Hover] Hp Hc Hv Hd. unfold execute. rewrite Hp, Hmain. cbn [high_bytes low_bytes].
  unfold split at 1 2. cbn [fst snd]. unfold sql_add.
  pose proof (Z.mod_pos_bound d (2 ^ 63) ltac:(lia)) as Hmod.
  destruct (Z.lt_ge_cases (c.2 + d mod 2 ^ 63) (2 ^ 63)) as [Hl|Hl].
  - destruct (add_no_carry c d) as [-> Hh]; [done..|].
    rewrite !(proj2 (fits_i_spec 64 _)) by (cbn; unfold columns_ok in Hc; lia). done.
  - destruct (add_carry c d) as (-> & Hh & Hh1); [done..|].
    rewrite (proj2 (fits_i_spec 64 _)) by (cbn; lia).
    destruct (fits_i 64 (c.2 + d mod 2 ^ 63)) eqn:E; [apply fits_i_spec in E; cbn in E; lia|].
    unfold update_with_overflow. rewrite Hsel. destruct c as [h l]. cbn [fst snd] in *.
    unfold correct_bytes. rewrite Hp. unfold split. cbn [high_bytes low_bytes fst snd].
    rewrite checked_i_ok by (cbn; lia). cbn [mbind run_bind]. rewrite checked_i_ok by (cbn; lia). cbn [mbind run_bind].
    rewrite land_low, sint_small by (lia || (pose proof (Z.mod_pos_bound (l + d mod 2 ^ 63) (2 ^ 63)); cbn; lia)).
    unfold execute_update. rewrite Hover. done.
Qed.
End BigInt.
