(* ===== verification/Thresholds.v ===== *)
(** * Times and payment thresholds

    Models the times of [node/src/accountant/db_access_objects/utils.rs]
    ([to_time_t], [from_time_t]), its [ThresholdUtils], [PaymentThresholds] of
    [node/src/sub_lib/accountant.rs] and the gauge of
    [node/src/accountant/scanners/scanners_utils.rs]: how much debt is let pass
    at which age.  A [SystemTime] is a number of nanoseconds since the epoch.

    The lemmas show that the limit starts at the debt threshold when a debt
    becomes mature, only falls with age, and never goes below the permanent debt
    allowed. *)
From S2P Require Import Prelude.
From S2P Require Import BigInt.
From stdpp Require Import base list gmap strings.

Module Time.
Import Signed BigInt.
Local Open Scope Z_scope.

Definition NANOS : Z := 1000000000.

(** [SystemTime::duration_since], in nanoseconds. *)
Definition duration_since (now earlier : Z) : option Z :=
  if earlier <=? now then Some (now - earlier) else None.

Definition as_secs (duration : Z) : Z := duration / NANOS.

Definition to_time_t (system_time : Z) : run Z :=
  match duration_since system_time 0 with
  | Some d => expect_ok (sign_conversion (fits_i 64) (as_secs d))
  | None => Panic
  end.

(** A negative number of seconds becomes one that no [SystemTime] holds. *)
Definition from_time_t (time_t : Z) : run Z :=
  let interval := u64 time_t in
  if fits_i 64 interval then Ret (interval * NANOS) else Panic.

Lemma to_time_t_ok t : 0 ≤ t < 2 ^ 63 * NANOS → to_time_t t = Ret (t / NANOS).
Proof.
  intros Ht. unfold to_time_t, duration_since. destruct (0 <=? t) eqn:E; [|b2p; lia].
  unfold sign_conversion, as_secs. rewrite Z.sub_0_r, (proj2 (fits_i_spec 64 _)); [done|].
  unfold NANOS in *. split; [transitivity 0; [cbn; lia|apply Z.div_pos; lia]|].
  apply Z.div_lt_upper_bound; [lia|]. cbn. lia.
Qed.

Lemma from_time_t_ok t : 0 ≤ t < 2 ^ 63 → from_time_t t = Ret (t * NANOS).
Proof.
  intros Ht. unfold from_time_t, u64. rewrite wrap_small by lia.
  by rewrite (proj2 (fits_i_spec 64 t)) by (cbn; lia).
Qed.

Lemma to_from_time_t t : 0 ≤ t < 2 ^ 63 → (s ← from_time_t t; to_time_t s) = Ret t.
Proof.
  intros Ht. rewrite from_time_t_ok by done. cbn [mbind run_bind].
  rewrite to_time_t_ok by (unfold NANOS; lia). by rewrite Z.div_mul by (unfold NANOS; lia).
Qed.
End Time.

Module Thresholds.
Import Signed BigInt Time.
Local Open Scope Z_scope.

Record PaymentThresholds := MkPaymentThresholds {
  debt_threshold_gwei : Z;
  maturity_threshold_sec : Z;
  payment_grace_period_sec : Z;
  permanent_debt_allowed_gwei : Z;
  threshold_interval_sec : Z;
  unban_below_gwei : Z
}.

Definition DEFAULT_PAYMENT_THRESHOLDS : PaymentThresholds :=
  MkPaymentThresholds 1000000000 1200 1200 500000000 21600 500000000.

Definition sugg_and_grace (pt : PaymentThresholds) (now : Z) : run Z :=
  m ← checked_conversion (fits_i 64) (maturity_threshold_sec pt);
  a ← checked_i 64 (now - m);
  g ← checked_conversion (fits_i 64) (payment_grace_period_sec pt);
  checked_i 64 (a - g).

Definition slope (pt : PaymentThresholds) : run Z :=
  if threshold_interval_sec pt =? 0 then Panic
  else Ret (Z.quot (gwei_to_wei (permanent_debt_allowed_gwei pt) - gwei_to_wei (debt_threshold_gwei pt))
              (threshold_interval_sec pt)).

Definition compute_theoretical_interception_with_y_axis (m maturity_threshold_sec debt_threshold_wei : Z) : run Z :=
  p ← checked_i 128 (maturity_threshold_sec * m); checked_i 128 (debt_threshold_wei - p).

Definition qualifies_for_permanent_debt_limit (debt_age_s : Z) (pt : PaymentThresholds) : run bool :=
  s ← checked_u 64 (maturity_threshold_sec pt + threshold_interval_sec pt); Ret (s <? debt_age_s).

Definition calculate_finite_debt_limit_by_age (pt : PaymentThresholds) (debt_age_s : Z) : run Z :=
  permanent ← qualifies_for_permanent_debt_limit debt_age_s pt;
  if (permanent : bool) then Ret (gwei_to_wei (permanent_debt_allowed_gwei pt))
  else
    m ← slope pt;
    b ← compute_theoretical_interception_with_y_axis m (maturity_threshold_sec pt) (gwei_to_wei (debt_threshold_gwei pt));
    p ← checked_i 128 (m * debt_age_s);
    y ← checked_i 128 (p + b);
    Ret (u128 y).

Definition is_innocent_age (age limit : Z) : bool := age <=? limit.
Definition is_innocent_balance (balance limit : Z) : bool := balance <=? limit.
Definition calculate_payout_threshold_in_gwei (pt : PaymentThresholds) (debt_age : Z) : run Z :=
  calculate_finite_debt_limit_by_age pt debt_age.

(** ** Sensible thresholds *)

(** What the comment in [slope] asks of thresholds, and bounds far above any
    real ones that keep the products within their types. *)
Record thresholds_ok (pt : PaymentThresholds) : Prop := {
  tk_debt : 0 ≤ permanent_debt_allowed_gwei pt < debt_threshold_gwei pt;
  tk_debt_max : debt_threshold_gwei pt < 2 ^ 63;
  tk_interval : 0 < threshold_interval_sec pt ≤ 10 ^ 9;
  tk_maturity : 0 ≤ maturity_threshold_sec pt < 2 ^ 32;
  tk_grace : 0 ≤ payment_grace_period_sec pt < 2 ^ 32;
  tk_slope : (debt_threshold_gwei pt - permanent_debt_allowed_gwei pt) * WEIS_IN_GWEI < 2 ^ 63 * threshold_interval_sec pt;
  tk_unban : 0 ≤ unban_below_gwei pt < 2 ^ 63
}.

Lemma default_thresholds_ok : thresholds_ok DEFAULT_PAYMENT_THRESHOLDS.
Proof. split; vm_compute; intuition congruence. Qed.

(** The steepness of the limit, in wei per second. *)
Definition drop (pt : PaymentThresholds) : Z :=
  (gwei_to_wei (debt_threshold_gwei pt) - gwei_to_wei (permanent_debt_allowed_gwei pt)) / threshold_interval_sec pt.

Section limits.
Context (pt : PaymentThresholds) (Hpt : thresholds_ok pt).

Abbreviation debt := (gwei_to_wei (debt_threshold_gwei pt)).
Abbreviation permanent := (gwei_to_wei (permanent_debt_allowed_gwei pt)).

Lemma drop_range : 0 < drop pt < 2 ^ 63.
Proof.
  destruct Hpt as [Hd _ Hi _ _ Hs _]. unfold drop, gwei_to_wei, WEIS_IN_GWEI in *. split.
  - apply Z.div_str_pos. nia.
  - apply Z.div_lt_upper_bound; nia.
Qed.

Lemma drop_total : drop pt * threshold_interval_sec pt ≤ debt - permanent.
Proof.
  destruct Hpt as [_ _ Hi _ _ _ _]. unfold drop. rewrite Z.mul_comm. apply Z.mul_div_le. lia.
Qed.

Lemma slope_ok : slope pt = Ret (- drop pt).
Proof.
  destruct Hpt as [Hd _ Hi _ _ _ _]. unfold slope. destruct (threshold_interval_sec pt =? 0) eqn:E; [b2p; lia|].
  f_equal. unfold drop. rewrite <- Z.quot_div_nonneg by (unfold gwei_to_wei, WEIS_IN_GWEI; lia).
  rewrite <- Z.quot_opp_l by lia. f_equal. lia.
Qed.

(** The limit as a function of the age. *)
Definition limit (age : Z) : Z :=
  if maturity_threshold_sec pt + threshold_interval_sec pt <? age then permanent
  else debt - drop pt * (age - maturity_threshold_sec pt).

Lemma limit_range age : maturity_threshold_sec pt ≤ age → permanent ≤ limit age ≤ debt.
Proof.
  intros Ha. pose proof drop_total. pose proof drop_range. destruct Hpt as [Hd _ Hi _ _ _ _].
  assert (permanent ≤ debt) by (unfold gwei_to_wei, WEIS_IN_GWEI; lia).
  unfold limit. case_match eqn:E; b2p; nia.
Qed.

Lemma limit_falls age age' : maturity_threshold_sec pt ≤ age ≤ age' → limit age' ≤ limit age.
Proof.
  intros Ha. pose proof (limit_range age ltac:(lia)). pose proof drop_range.
  unfold limit in *. repeat case_match; b2p; nia.
Qed.

Lemma limit_ok age : 0 ≤ age < 2 ^ 63 → maturity_threshold_sec pt ≤ age →
  calculate_finite_debt_limit_by_age pt age = Ret (limit age).
Proof.
  intros Hage Hmat. pose proof (limit_range age Hmat) as Hr. pose proof drop_range. pose proof slope_ok as Hs.
  destruct Hpt as [Hd Hdm Hi Hm _ _ _].
  unfold calculate_finite_debt_limit_by_age, qualifies_for_permanent_debt_limit, limit in *.
  rewrite checked_u_ok by lia. cbn [mbind run_bind].
  destruct (maturity_threshold_sec pt + threshold_interval_sec pt <? age) eqn:E; [done|]. b2p.
  rewrite Hs. cbn [mbind run_bind]. unfold compute_theoretical_interception_with_y_axis.
  unfold gwei_to_wei, WEIS_IN_GWEI in *.
  rewrite checked_i_ok by (cbn; nia). cbn [mbind run_bind]. rewrite checked_i_ok by (cbn; nia). cbn [mbind run_bind].
  rewrite checked_i_ok by (cbn; nia). cbn [mbind run_bind]. rewrite checked_i_ok by (cbn; nia). cbn [mbind run_bind].
  unfold u128. rewrite wrap_small by nia. f_equal. lia.
Qed.

Lemma sugg_and_grace_ok now : 0 ≤ now < 2 ^ 63 →
  sugg_and_grace pt now = Ret (now - maturity_threshold_sec pt - payment_grace_period_sec pt).
Proof.
  intros Hn. destruct Hpt as [_ _ _ Hm Hg _ _]. unfold sugg_and_grace.
  rewrite !checked_conversion_ok by (apply fits_i_spec; cbn; lia). cbn [mbind run_bind].
  rewrite checked_i_ok by (cbn; lia). cbn [mbind run_bind].
  apply checked_i_ok. cbn. lia.
Qed.
End limits.
End Thresholds.
