(* ===== verification/AccountingTables.v ===== *)
(** * The accounting tables

    Models the data access objects of [node/src/accountant/db_access_objects]:
    [payable_dao.rs], [pending_payable_dao.rs], [receivable_dao.rs],
    [banned_dao.rs] and the queries of [utils.rs], over the tables created in
    [node/src/database/db_initializer.rs].  A table is a finite map from its
    primary key, a statement is the function its text describes.

    Wallets are their addresses and transaction hashes are the numbers they
    denote.  The order in which SQLite visits rows is the parameter [rows].
    SQLite numbers new fingerprints one above the highest number in use.  A
    statement fails when a constraint of its table is violated; failures of the
    disk and corrupt files are left out.

    The lemmas give each operation a meaning on the balances instead of their
    columns; [Scanners.v] and [Accountant.v] build on them. *)
From S2P Require Import Prelude.
From S2P Require Import BigInt Thresholds.
From stdpp Require Import base list gmap strings sorting.

Module Daos.
Import Signed BigInt Time Thresholds.
Local Open Scope Z_scope.

(** ** Rows *)

Record PayableRow := MkPayableRow {
  p_balance_high_b : Z;
  p_balance_low_b : Z;
  last_paid_timestamp : Z;
  pending_payable_rowid : option Z
}.

Record PendingPayableRow := MkPendingPayableRow {
  transaction_hash : Z;
  amount_high_b : Z;
  amount_low_b : Z;
  payable_timestamp : Z;
  attempt : Z;
  process_error : option string
}.

Record ReceivableRow := MkReceivableRow {
  r_balance_high_b : Z;
  r_balance_low_b : Z;
  last_received_timestamp : Z
}.

Abbreviation PayableTable := (gmap Z PayableRow).
Abbreviation PendingPayableTable := (gmap Z PendingPayableRow).
Abbreviation ReceivableTable := (gmap Z ReceivableRow).

Global Instance payable_row_eq_dec : EqDecision PayableRow.
Proof. solve_decision. Defined.
Global Instance pending_payable_row_eq_dec : EqDecision PendingPayableRow.
Proof. solve_decision. Defined.
Global Instance receivable_row_eq_dec : EqDecision ReceivableRow.
Proof. solve_decision. Defined.

(** ** What the objects hand out *)

Record PendingPayableId := MkPendingPayableId {
  pid_rowid : Z;
  pid_hash : Z
}.

Record PayableAccount := MkPayableAccount {
  pa_wallet : Z;
  pa_balance_wei : Z;
  pa_last_paid_timestamp : Z;
  pa_pending_payable_opt : option PendingPayableId
}.

Record ReceivableAccount := MkReceivableAccount {
  ra_wallet : Z;
  ra_balance_wei : Z;
  ra_last_received_timestamp : Z
}.

Record PendingPayableFingerprint := MkFingerprint {
  fp_rowid : Z;
  fp_timestamp : Z;
  fp_hash : Z;
  fp_attempt : Z;
  fp_amount : Z;
  fp_process_error : option string
}.

Record TransactionHashes := MkTransactionHashes {
  rowid_results : list (Z * Z);
  no_rowid_results : list Z
}.

Record HashAndAmount := MkHashAndAmount {
  ha_hash : Z;
  ha_amount : Z
}.

Record BlockchainTransaction := MkBlockchainTransaction {
  block_number : Z;
  from : Z;
  wei_amount : Z
}.

Global Instance pending_payable_id_eq_dec : EqDecision PendingPayableId.
Proof. solve_decision. Defined.
Global Instance payable_account_eq_dec : EqDecision PayableAccount.
Proof. solve_decision. Defined.
Global Instance receivable_account_eq_dec : EqDecision ReceivableAccount.
Proof. solve_decision. Defined.

Inductive PayableDaoError := PayableSignConversion (n : Z) | PayableRusqliteError.
Inductive ReceivableDaoError := ReceivableSignConversion (n : Z) | ConfigurationError | ReceivableRusqliteError.
Inductive PendingPayableDaoError :=
| InsertionFailed | UpdateFailed | SignConversionError (n : Z) | RecordCannotBeRead | RecordDeletion | ErrorMarkFailed.

(** ** Payables *)

Definition set_p_balance (r : PayableRow) (c : Z * Z) : PayableRow :=
  MkPayableRow c.1 c.2 (last_paid_timestamp r) (pending_payable_rowid r).

Definition p_columns (r : PayableRow) : Z * Z := (p_balance_high_b r, p_balance_low_b r).

(** [insert .. on conflict (wallet_address) do update ..] and the statement that
    repairs a carry. *)
Definition more_money_payable_config (wallet last_paid : Z) (change : WeiChangeAsHighAndLowBytes)
    : BigIntSqlConfig PayableTable :=
  {| main_sql high low t :=
       match t !! wallet with
       | None => Ok (<[wallet := MkPayableRow high low last_paid None]> t, 1%nat)
       | Some r =>
           match sql_add (p_balance_high_b r) high, sql_add (p_balance_low_b r) low with
           | Some h, Some l => Ok (<[wallet := set_p_balance r (h, l)]> t, 1%nat)
           | _, _ => Err ConstraintDatatype
           end
       end;
     overflow_update_clause high low t :=
       match t !! wallet with
       | None => Ok (t, 0%nat)
       | Some r => Ok (<[wallet := set_p_balance r (high, low)]> t, 1%nat)
       end;
     select_sql t := p_columns <$> t !! wallet;
     wei_change_params := change |}.

Definition more_money_payable (timestamp wallet amount : Z) (t : PayableTable)
    : run (PayableTable * result PayableDaoError unit) :=
  last_paid_timestamp ← to_time_t timestamp;
  change ← wei_change_as_bytes (MkWeiChange amount Addition);
  '(t, res) ← execute (more_money_payable_config wallet last_paid_timestamp change) t;
  Ret (t, match res with Ok _ => Ok () | Err _ => Err PayableRusqliteError end).

(** The [case] expression: the number of the first pair with the wallet. *)
Definition compose_case_expression (wallets_and_rowids : list (Z * Z)) (wallet : Z) : option Z :=
  head (snd <$> filter (λ wr, wr.1 = wallet) wallets_and_rowids).

Definition set_pending (r : PayableRow) (rowid : option Z) : PayableRow :=
  MkPayableRow (p_balance_high_b r) (p_balance_low_b r) (last_paid_timestamp r) rowid.

Definition to_be_marked (wallets_and_rowids : list (Z * Z)) (wallet : Z) (r : PayableRow) : bool :=
  bool_decide (pending_payable_rowid r = None ∧ wallet ∈ wallets_and_rowids.*1).

(** [update payable set pending_payable_rowid = case .. end where .. returning
    pending_payable_rowid]; a number that no integer column holds fails it. *)
Definition mark_statement (wallets_and_rowids : list (Z * Z)) (t : PayableTable)
    : result SqlError (PayableTable * list (option Z)) :=
  let marked := filter (λ kr, to_be_marked wallets_and_rowids kr.1 kr.2 = true) t in
  let returned := (λ kr, compose_case_expression wallets_and_rowids kr.1) <$> map_to_list marked in
  if forallb (λ o, match o with Some rowid => fits_i 64 rowid | None => true end) returned
  then Ok (map_imap (λ w r, Some (if to_be_marked wallets_and_rowids w r
                                  then set_pending r (compose_case_expression wallets_and_rowids w) else r)) t, returned)
  else Err ConstraintDatatype.

(** [update_rows_and_return_valid_count] counts the rows that got a number. *)
Definition execute_command (wallets_and_rowids : list (Z * Z)) (t : PayableTable)
    : run (PayableTable * result PayableDaoError unit) :=
  match mark_statement wallets_and_rowids t with
  | Ok (t, returned) =>
      if (length (filter is_Some returned) =? length wallets_and_rowids)%nat then Ret (t, Ok ()) else Panic
  | Err _ => Ret (t, Err PayableRusqliteError)
  end.

Definition mark_pending_payables_rowids (wallets_and_rowids : list (Z * Z)) (t : PayableTable)
    : run (PayableTable * result PayableDaoError unit) :=
  match wallets_and_rowids with
  | [] => Panic
  | _ => execute_command wallets_and_rowids t
  end.

(** [update payable set .. where pending_payable_rowid = :rowid]. *)
Definition pays (rowid : Z) (r : PayableRow) : bool := bool_decide (pending_payable_rowid r = Some rowid).

Definition confirmed_row (last_paid : Z) (c : Z * Z) : PayableRow := MkPayableRow c.1 c.2 last_paid None.

Definition add_columns (c : Z * Z) (high low : Z) : option (Z * Z) :=
  h ← sql_add c.1 high; l ← sql_add c.2 low; Some (h, l).

Section dao.
(** The order in which the rows of a table are visited. *)
Context (rows : ∀ A, gmap Z A → list (Z * A)).

Definition transactions_confirmed_config (rowid last_paid : Z) (change : WeiChangeAsHighAndLowBytes)
    : BigIntSqlConfig PayableTable :=
  let due t := filter (λ kr : Z * PayableRow, pays rowid kr.2 = true) t in
  {| main_sql high low t :=
       if forallb (λ kr, bool_decide (is_Some (add_columns (p_columns kr.2) high low))) (map_to_list (due t))
       then Ok (map_imap (λ _ r, if pays rowid r then confirmed_row last_paid <$> add_columns (p_columns r) high low
                                 else Some r) t, size (due t))
       else Err ConstraintDatatype;
     overflow_update_clause high low t :=
       Ok ((λ r, if pays rowid r then confirmed_row last_paid (high, low) else r) <$> t, size (due t));
     select_sql t := (λ kr, p_columns kr.2) <$> head (filter (λ kr, pays rowid kr.2 = true) (rows _ t));
     wei_change_params := change |}.

Definition confirm_one (fingerprint : PendingPayableFingerprint) (t : PayableTable)
    : run (PayableTable * result PayableDaoError unit) :=
  i64_rowid ← checked_conversion (fits_i 64) (fp_rowid fingerprint);
  last_paid ← to_time_t (fp_timestamp fingerprint);
  change ← wei_change_as_bytes (MkWeiChange (fp_amount fingerprint) Subtraction);
  '(t, res) ← execute (transactions_confirmed_config i64_rowid last_paid change) t;
  Ret (t, match res with Ok _ => Ok () | Err _ => Err PayableRusqliteError end).

Fixpoint transactions_confirmed (confirmed_payables : list PendingPayableFingerprint) (t : PayableTable)
    : run (PayableTable * result PayableDaoError unit) :=
  match confirmed_payables with
  | [] => Ret (t, Ok ())
  | fingerprint :: rest =>
      '(t, res) ← confirm_one fingerprint t;
      match res with Ok _ => transactions_confirmed rest t | Err e => Ret (t, Err e) end
  end.

Definition u128_balance (high low : Z) : run Z :=
  n ← reconstitute high low; checked_conversion (fits_u 128) n.

Definition non_pending_account (kr : Z * PayableRow) : run PayableAccount :=
  let '(wallet, r) := kr in
  balance_wei ← u128_balance (p_balance_high_b r) (p_balance_low_b r);
  last_paid ← from_time_t (last_paid_timestamp r);
  Ret (MkPayableAccount wallet balance_wei last_paid None).

Fixpoint run_map {A B} (f : A → run B) (l : list A) : run (list B) :=
  match l with
  | [] => Ret []
  | a :: l => b ← f a; bs ← run_map f l; Ret (b :: bs)
  end.

Definition non_pending_payables (t : PayableTable) : run (list PayableAccount) :=
  run_map non_pending_account (filter (λ kr, pending_payable_rowid kr.2 = None) (rows _ t)).

(** The sum of a column pair over a table. *)
Fixpoint run_sum (l : list Z) (acc : Z) : run Z :=
  match l with
  | [] => Ret acc
  | z :: l => acc ← checked_i 128 (acc + z); run_sum l acc
  end.

Definition payable_total (t : PayableTable) : run Z :=
  values ← run_map (λ kr, big_int ← reconstitute (p_balance_high_b kr.2) (p_balance_low_b kr.2);
                          if p_balance_high_b kr.2 <? 0 then Panic else Ret big_int) (rows _ t);
  sum ← run_sum values 0;
  expect_ok (sign_conversion (fits_u 128) sum).

(** ** Fingerprints of pending payables *)

Definition fingerprints_rowids (hashes : list Z) (t : PendingPayableTable) : TransactionHashes :=
  let all_found_records := (λ kr, (kr.1, transaction_hash kr.2)) <$> filter (λ kr, transaction_hash kr.2 ∈ hashes) (rows _ t) in
  let hashes_of_found_records : gset Z := list_to_set (all_found_records.*2) in
  MkTransactionHashes all_found_records (filter (λ hash, hash ∉ hashes_of_found_records) hashes).

Definition fingerprint_of (kr : Z * PendingPayableRow) : run PendingPayableFingerprint :=
  let '(rowid, r) := kr in
  rowid ← checked_conversion (fits_u 64) rowid;
  attempt ← checked_conversion (fits_u 16) (attempt r);
  timestamp ← from_time_t (payable_timestamp r);
  amount ← u128_balance (amount_high_b r) (amount_low_b r);
  Ret (MkFingerprint rowid timestamp (transaction_hash r) attempt amount None).

Definition return_all_errorless_fingerprints (t : PendingPayableTable) : run (list PendingPayableFingerprint) :=
  run_map fingerprint_of (filter (λ kr, process_error kr.2 = None) (rows _ t)).

(** The number SQLite gives to a new row. *)
Definition next_rowid (t : PendingPayableTable) : Z := foldr (λ kr m, Z.max kr.1 m) 0 (map_to_list t) + 1.

(** [insert into pending_payable .. values ..]; the hashes are a unique index. *)
Fixpoint insert_rows (new : list PendingPayableRow) (t : PendingPayableTable) : result SqlError PendingPayableTable :=
  match new with
  | [] => Ok t
  | r :: new =>
      if decide (transaction_hash r ∈ (λ kr, transaction_hash kr.2) <$> map_to_list t) then Err ConstraintViolation
      else insert_rows new (<[next_rowid t := r]> t)
  end.

Definition value_clause (time_t : Z) (hash_and_amount : HashAndAmount) : run PendingPayableRow :=
  amount_checked ← checked_conversion (fits_i 128) (ha_amount hash_and_amount);
  '(high_bytes, low_bytes) ← deconstruct amount_checked;
  Ret (MkPendingPayableRow (ha_hash hash_and_amount) high_bytes low_bytes time_t 1 None).

(** Without any values the text is no statement. *)
Definition insert_new_fingerprints (hashes_and_amounts : list HashAndAmount) (batch_wide_timestamp : Z)
    (t : PendingPayableTable) : run (PendingPayableTable * result PendingPayableDaoError unit) :=
  time_t ← to_time_t batch_wide_timestamp;
  values ← run_map (value_clause time_t) hashes_and_amounts;
  match values with
  | [] => Panic
  | _ =>
      match insert_rows values t with
      | Ok t => Ret (t, Ok ())
      | Err _ => Ret (t, Err InsertionFailed)
      end
  end.

(** The rows a list of numbers selects. *)
Definition selected (ids : list Z) (t : PendingPayableTable) : PendingPayableTable :=
  filter (λ kr, kr.1 ∈ ids) t.

Definition update_selected (ids : list Z) (f : PendingPayableRow → PendingPayableRow) (t : PendingPayableTable)
    : PendingPayableTable :=
  map_imap (λ rowid r, Some (if decide (rowid ∈ ids) then f r else r)) t.

Definition delete_fingerprints (ids : list Z) (t : PendingPayableTable)
    : run (PendingPayableTable * result PendingPayableDaoError unit) :=
  if (size (selected ids t) =? length ids)%nat
  then Ret (filter (λ kr, kr.1 ∉ ids) t, Ok ()) else Panic.

Definition increment_scan_attempts (ids : list Z) (t : PendingPayableTable)
    : run (PendingPayableTable * result PendingPayableDaoError unit) :=
  if (size (selected ids t) =? length ids)%nat
  then Ret (update_selected ids (λ r, MkPendingPayableRow (transaction_hash r) (amount_high_b r) (amount_low_b r)
              (payable_timestamp r) (attempt r + 1) (process_error r)) t, Ok ())
  else Panic.

Definition mark_failures (ids : list Z) (t : PendingPayableTable)
    : run (PendingPayableTable * result PendingPayableDaoError unit) :=
  if (size (selected ids t) =? length ids)%nat
  then Ret (update_selected ids (λ r, MkPendingPayableRow (transaction_hash r) (amount_high_b r) (amount_low_b r)
              (payable_timestamp r) (attempt r) (Some "ERROR"%string)) t, Ok ())
  else Panic.

(** ** Receivables *)

Definition r_columns (r : ReceivableRow) : Z * Z := (r_balance_high_b r, r_balance_low_b r).

Definition set_r_balance (r : ReceivableRow) (c : Z * Z) : ReceivableRow :=
  MkReceivableRow c.1 c.2 (last_received_timestamp r).

Definition more_money_receivable_config (wallet last_received : Z) (change : WeiChangeAsHighAndLowBytes)
    : BigIntSqlConfig ReceivableTable :=
  {| main_sql high low t :=
       match t !! wallet with
       | None => Ok (<[wallet := MkReceivableRow high low last_received]> t, 1%nat)
       | Some r =>
           match sql_add (r_balance_high_b r) high, sql_add (r_balance_low_b r) low with
           | Some h, Some l => Ok (<[wallet := set_r_balance r (h, l)]> t, 1%nat)
           | _, _ => Err ConstraintDatatype
           end
       end;
     overflow_update_clause high low t :=
       match t !! wallet with
       | None => Ok (t, 0%nat)
       | Some r => Ok (<[wallet := set_r_balance r (high, low)]> t, 1%nat)
       end;
     select_sql t := r_columns <$> t !! wallet;
     wei_change_params := change |}.

Definition more_money_receivable (timestamp wallet amount : Z) (t : ReceivableTable)
    : run (ReceivableTable * result ReceivableDaoError unit) :=
  last_received_timestamp ← to_time_t timestamp;
  change ← wei_change_as_bytes (MkWeiChange amount Addition);
  '(t, res) ← execute (more_money_receivable_config wallet last_received_timestamp change) t;
  Ret (t, match res with Ok _ => Ok () | Err _ => Err ReceivableRusqliteError end).

Definition received_payment_config (wallet last_received : Z) (change : WeiChangeAsHighAndLowBytes)
    : BigIntSqlConfig ReceivableTable :=
  {| main_sql high low t :=
       match t !! wallet with
       | None => Ok (t, 0%nat)
       | Some r =>
           match sql_add (r_balance_high_b r) high, sql_add (r_balance_low_b r) low with
           | Some h, Some l => Ok (<[wallet := MkReceivableRow h l last_received]> t, 1%nat)
           | _, _ => Err ConstraintDatatype
           end
       end;
     overflow_update_clause high low t :=
       match t !! wallet with
       | None => Ok (t, 0%nat)
       | Some _ => Ok (<[wallet := MkReceivableRow high low last_received]> t, 1%nat)
       end;
     select_sql t := r_columns <$> t !! wallet;
     wei_change_params := change |}.

Definition verify_possibly_unknown_wallet (suspect : BlockchainTransaction) (t : ReceivableTable)
    : result ReceivableDaoError unit :=
  match t !! from suspect with
  | None => Ok ()
  | Some _ => Err ReceivableRusqliteError
  end.

(** Works within a transaction: the table is the uncommitted one. *)
Fixpoint process_received_payments_and_return_txn (received_payments : list BlockchainTransaction) (timestamp : Z)
    (txn : ReceivableTable) : run (result ReceivableDaoError ReceivableTable) :=
  match received_payments with
  | [] => Ret (Ok txn)
  | received_payment :: rest =>
      last_received_timestamp ← to_time_t timestamp;
      change ← wei_change_as_bytes (MkWeiChange (wei_amount received_payment) Subtraction);
      '(txn, res) ← execute (received_payment_config (from received_payment) last_received_timestamp change) txn;
      match (match res with
             | Ok _ => Ok ()
             | Err General => Err ReceivableRusqliteError
             | Err (RowChangeMismatch _) => verify_possibly_unknown_wallet received_payment txn
             end) with
      | Ok _ => process_received_payments_and_return_txn rest timestamp txn
      | Err e => Ret (Err e)
      end
  end.

(** The sum in the report for the log can overflow as well; it is made only on the way to a panic. *)
Definition more_money_received (timestamp : Z) (received_payments : list BlockchainTransaction) (t : ReceivableTable)
    : run ReceivableTable :=
  accounting_result ← process_received_payments_and_return_txn received_payments timestamp t;
  expect_ok accounting_result.

Definition create_receivable_account (kr : Z * ReceivableRow) : run ReceivableAccount :=
  let '(wallet, r) := kr in
  balance_wei ← reconstitute (r_balance_high_b r) (r_balance_low_b r);
  last_received ← from_time_t (last_received_timestamp r);
  Ret (MkReceivableAccount wallet balance_wei last_received).

(** The condition on one row in [new_delinquencies]: evaluated from left to
    right; an error of the registered functions is a panic when rows are read. *)
Definition is_new_delinquency (debt_threshold slope sugg_and_grace permanent_high permanent_low : Z)
    (banned : gset Z) (kr : Z * ReceivableRow) : run bool :=
  let '(wallet, r) := kr in
  if last_received_timestamp r <? sugg_and_grace then
    let age := sql_add sugg_and_grace (- last_received_timestamp r) in
    drop_high ← slope_drop_high_bytes (Some debt_threshold) (Some slope) age;
    drop_high ← expect_ok drop_high;
    drop_low ← slope_drop_low_bytes (Some debt_threshold) (Some slope) age;
    drop_low ← expect_ok drop_low;
    Ret (sql_gt (r_balance_high_b r) (r_balance_low_b r) drop_high drop_low
         && ((permanent_high <? r_balance_high_b r)
             || ((r_balance_high_b r =? 0) && (permanent_low <? r_balance_low_b r)))
         && negb (bool_decide (wallet ∈ banned)))
  else Ret false.

Fixpoint run_filter {A} (f : A → run bool) (l : list A) : run (list A) :=
  match l with
  | [] => Ret []
  | a :: l => b ← f a; rest ← run_filter f l; Ret (if (b : bool) then a :: rest else rest)
  end.

Definition new_delinquencies (now : Z) (pt : PaymentThresholds) (banned : gset Z) (t : ReceivableTable)
    : run (list ReceivableAccount) :=
  slope ← slope pt;
  let slope := sint 64 slope in
  '(permanent_high, permanent_low) ← deconstruct (gwei_to_wei (permanent_debt_allowed_gwei pt));
  debt_threshold ← checked_conversion (fits_i 64) (debt_threshold_gwei pt);
  now ← to_time_t now;
  sugg_and_grace ← sugg_and_grace pt now;
  found ← run_filter (is_new_delinquency debt_threshold slope sugg_and_grace permanent_high permanent_low banned) (rows _ t);
  run_map create_receivable_account found.

Definition paid_delinquencies (pt : PaymentThresholds) (banned : gset Z) (t : ReceivableTable)
    : run (list ReceivableAccount) :=
  '(unban_high, unban_low) ← deconstruct (unban_below_gwei pt * WEIS_IN_GWEI);
  run_map create_receivable_account
    (filter (λ kr, kr.1 ∈ banned ∧
                   sql_le (r_balance_high_b kr.2) (r_balance_low_b kr.2) unban_high unban_low = true) (rows _ t)).

Definition receivable_total (t : ReceivableTable) : run Z :=
  values ← run_map (λ kr, reconstitute (r_balance_high_b kr.2) (r_balance_low_b kr.2)) (rows _ t);
  run_sum values 0.

Definition account_status (wallet : Z) (t : ReceivableTable) : run (option ReceivableAccount) :=
  match t !! wallet with
  | Some r => a ← create_receivable_account (wallet, r); Ret (Some a)
  | None => Ret None
  end.

(** ** Bans *)

Record Banned := MkBanned {
  banned_table : gset Z;
  ban_cache : gset Z
}.

Definition is_banned (wallet : Z) (b : Banned) : bool := bool_decide (wallet ∈ ban_cache b).

Definition load (b : Banned) : Banned := MkBanned (banned_table b) (ban_cache b ∪ banned_table b).

Definition ban_list (b : Banned) : list Z := elements (banned_table b).

(** A wallet that is in the table already violates its primary key; both answers
    put it into the cache. *)
Definition ban (wallet : Z) (b : Banned) : Banned :=
  if is_banned wallet b then b
  else
    let executed := if decide (wallet ∈ banned_table b) then Err ConstraintViolation
                    else Ok ({[wallet]} ∪ banned_table b) in
    match executed with
    | Ok table => MkBanned table ({[wallet]} ∪ ban_cache b)
    | Err _ => MkBanned (banned_table b) ({[wallet]} ∪ ban_cache b)
    end.

Definition unban (wallet : Z) (b : Banned) : Banned :=
  if negb (is_banned wallet b) then b
  else MkBanned (banned_table b ∖ {[wallet]}) (ban_cache b ∖ {[wallet]}).

(** ** Queries of the user interface *)

Inductive TopRecordsOrdering := Age | Balance.

Inductive CustomQuery :=
| TopRecords (count : Z) (ordered_by : TopRecordsOrdering)
| RangeQuery (min_age_s max_age_s min_amount_gwei max_amount_gwei timestamp : Z).

(** The columns that the clauses of both tables are about. *)
Class Queried (R : Type) := {
  q_columns : R → Z * Z;
  q_timestamp : R → Z
}.
Global Instance payable_queried : Queried PayableRow := {| q_columns := p_columns; q_timestamp := last_paid_timestamp |}.
Global Instance receivable_queried : Queried ReceivableRow := {| q_columns := r_columns; q_timestamp := last_received_timestamp |}.

Definition balance_desc `{Queried R} (a b : Z * R) : Prop :=
  sql_gt (q_columns a.2).1 (q_columns a.2).2 (q_columns b.2).1 (q_columns b.2).2 = true.
Definition age_asc `{Queried R} (a b : Z * R) : Prop := q_timestamp a.2 < q_timestamp b.2.

(** [order by first, second]; rows that agree on both stay as they come. *)
Definition order_by {A} (first second : A → A → Prop) (a b : A) : Prop :=
  first a b ∨ (¬ first b a ∧ ¬ second b a).

Definition ordering `{Queried R} (o : TopRecordsOrdering) : (Z * R → Z * R → Prop) * (Z * R → Z * R → Prop) :=
  match o with
  | Age => (age_asc, balance_desc)
  | Balance => (balance_desc, age_asc)
  end.

Global Instance balance_desc_dec `{Queried R} (a b : Z * R) : Decision (balance_desc a b).
Proof. unfold balance_desc. apply _. Defined.
Global Instance age_asc_dec `{Queried R} (a b : Z * R) : Decision (age_asc a b).
Proof. unfold age_asc. apply _. Defined.
Global Instance order_by_dec {A} (first second : A → A → Prop) `{∀ a b, Decision (first a b), ∀ a b, Decision (second a b)} a b :
  Decision (order_by first second a b).
Proof. unfold order_by. apply _. Defined.
Global Instance ordering_first_dec `{Queried R} o (a b : Z * R) : Decision ((ordering o).1 a b).
Proof. destruct o; simpl; apply _. Defined.
Global Instance ordering_second_dec `{Queried R} o (a b : Z * R) : Decision ((ordering o).2 a b).
Proof. destruct o; simpl; apply _. Defined.

Definition sort_by {A} (first second : A → A → Prop) `{∀ a b, Decision (first a b), ∀ a b, Decision (second a b)}
    (l : list A) : list A := merge_sort (order_by first second) l.

Definition set_age_constraints (min_age max_age timestamp : Z) : run (Z * Z) :=
  now ← to_time_t timestamp;
  max_age ← checked_conversion (fits_i 64) max_age;
  min_timestamp ← checked_i 64 (now - max_age);
  min_age ← checked_conversion (fits_i 64) min_age;
  max_timestamp ← checked_i 64 (now - min_age);
  Ret (min_timestamp, max_timestamp).

Definition set_wei_constraints (min_amount max_amount : Z) : run ((Z * Z) * (Z * Z)) :=
  min ← deconstruct (min_amount * WEIS_IN_GWEI);
  max ← deconstruct (max_amount * WEIS_IN_GWEI);
  Ret (min, max).

(** [variant_top] and [variant_extension] are the clauses on the least amount
    that is shown; the rest of the range clause is the same for both tables. *)
Definition at_least_one_gwei `{Queried R} (kr : Z * R) : bool :=
  let '(high, low) := q_columns kr.2 in
  (0 <? high) || ((high =? 0) && (1000000000 <=? low)).

Definition in_range `{Queried R} (min_timestamp max_timestamp : Z) (min max : Z * Z) (kr : Z * R) : bool :=
  let '(high, low) := q_columns kr.2 in
  (q_timestamp kr.2 <=? max_timestamp) && (min_timestamp <=? q_timestamp kr.2)
  && sql_ge high low min.1 min.2 && sql_le high low max.1 max.2.

Definition query_rows `{Queried R} (q : CustomQuery) (extension : Z * R → bool) (t : gmap Z R) : run (list (Z * R)) :=
  match q with
  | TopRecords count ordered_by =>
      Ret (take (Z.to_nat count)
        (sort_by (ordering ordered_by).1 (ordering ordered_by).2 (filter (λ kr, at_least_one_gwei kr = true) (rows _ t))))
  | RangeQuery min_age_s max_age_s min_amount_gwei max_amount_gwei timestamp =>
      '(min_timestamp, max_timestamp) ← set_age_constraints min_age_s max_age_s timestamp;
      '(min, max) ← set_wei_constraints min_amount_gwei max_amount_gwei;
      Ret (sort_by balance_desc age_asc
        (filter (λ kr, in_range min_timestamp max_timestamp min max kr && extension kr = true) (rows _ t)))
  end.

Definition query `{Queried R} {A} (q : CustomQuery) (extension : Z * R → bool) (value_fetcher : Z * R → run A)
    (t : gmap Z R) : run (option (list A)) :=
  found ← query_rows q extension t;
  accounts ← run_map value_fetcher found;
  Ret (match accounts with [] => None | _ => Some accounts end).

(** The row is joined with the fingerprint its number names. *)
Definition create_payable_account (pending : PendingPayableTable) (kr : Z * PayableRow) : run PayableAccount :=
  let '(wallet, r) := kr in
  balance_wei ← u128_balance (p_balance_high_b r) (p_balance_low_b r);
  last_paid ← from_time_t (last_paid_timestamp r);
  pending_payable_opt ←
    match pending_payable_rowid r with
    | Some rowid =>
        hash ← expect (transaction_hash <$> pending !! rowid);
        rowid ← checked_conversion (fits_u 64) rowid;
        Ret (Some (MkPendingPayableId rowid hash))
    | None => Ret None
    end;
  Ret (MkPayableAccount wallet balance_wei last_paid pending_payable_opt).

Definition payable_custom_query (q : CustomQuery) (pending : PendingPayableTable) (t : PayableTable)
    : run (option (list PayableAccount)) :=
  query q at_least_one_gwei (create_payable_account pending) t.

(** 9223372035854775807 is [i64::MAX] less one gwei. *)
Definition receivable_extension (kr : Z * ReceivableRow) : bool :=
  at_least_one_gwei kr
  || ((r_balance_high_b kr.2 <? -1) || ((r_balance_high_b kr.2 =? -1) && (r_balance_low_b kr.2 <=? 9223372035854775807))).

Definition receivable_custom_query (q : CustomQuery) (t : ReceivableTable) : run (option (list ReceivableAccount)) :=
  query q receivable_extension create_receivable_account t.

Record UiPayableAccount := MkUiPayable {
  uip_wallet : Z;
  uip_age_s : Z;
  uip_balance_gwei : Z;
  uip_pending_payable_hash_opt : option Z
}.

Record UiReceivableAccount := MkUiReceivable {
  uir_wallet : Z;
  uir_age_s : Z;
  uir_balance_gwei : Z
}.

(** [now] is the reading of the clock. *)
Definition to_age (now timestamp : Z) : run Z :=
  now ← to_time_t now; t ← to_time_t timestamp; d ← checked_i 64 (now - t); Ret (u64 d).

Definition remap_payable_account (now : Z) (account : PayableAccount) : run UiPayableAccount :=
  age_s ← to_age now (pa_last_paid_timestamp account);
  let gwei := u64 (Z.quot (pa_balance_wei account) WEIS_IN_GWEI) in
  if 0 <? gwei then Ret (MkUiPayable (pa_wallet account) age_s gwei (pid_hash <$> pa_pending_payable_opt account)) else Panic.

Definition remap_payable_accounts (now : Z) (accounts : list PayableAccount) : run (list UiPayableAccount) :=
  run_map (remap_payable_account now) accounts.

Definition remap_receivable_account (now : Z) (account : ReceivableAccount) : run UiReceivableAccount :=
  age_s ← to_age now (ra_last_received_timestamp account);
  let gwei := sint 64 (Z.quot (ra_balance_wei account) WEIS_IN_GWEI) in
  if gwei =? 0 then Panic else Ret (MkUiReceivable (ra_wallet account) age_s gwei).

Definition remap_receivable_accounts (now : Z) (accounts : list ReceivableAccount) : run (list UiReceivableAccount) :=
  run_map (remap_receivable_account now) accounts.

(** ** Meaning of the operations on payables *)

Definition p_balance (r : PayableRow) : Z := value (p_columns r).

(** A bound on debts that is far above the supply of the token. *)
Definition MONEY : Z := 2 ^ 92.

Record p_row_ok (r : PayableRow) : Prop := {
  po_columns : columns_ok (p_columns r);
  po_balance : 0 ≤ p_balance r < MONEY;
  po_time : 0 ≤ last_paid_timestamp r < 2 ^ 63
}.

Definition valid_time (t : Z) : Prop := 0 ≤ t < 2 ^ 63 * NANOS.

Lemma valid_time_secs t : valid_time t → to_time_t t = Ret (t / NANOS) ∧ 0 ≤ t / NANOS < 2 ^ 63.
Proof.
  intros Ht. split; [by apply to_time_t_ok|]. unfold valid_time, NANOS in *.
  split; [apply Z.div_pos; lia|apply Z.div_lt_upper_bound; lia].
Qed.

Definition owed (t : PayableTable) (wallet : Z) : Z := from_option p_balance 0 (t !! wallet).

(** The row of a wallet after a debt of [a] is added at second [now]. *)
Definition charged (o : option PayableRow) (now a : Z) : PayableRow :=
  match o with
  | Some r => set_p_balance r (split (p_balance r + a))
  | None => MkPayableRow (split a).1 (split a).2 now None
  end.

Lemma p_balance_set r z : p_balance (set_p_balance r (split z)) = z.
Proof. apply value_split. Qed.

Lemma storable_money z : 0 ≤ z < MONEY → storable z.
Proof. unfold MONEY, storable. lia. Qed.

Lemma charged_ok o now a : (∀ r, o = Some r → p_row_ok r) → 0 ≤ now < 2 ^ 63 →
  0 ≤ a → from_option p_balance 0 o + a < MONEY → p_row_ok (charged o now a) ∧ p_balance (charged o now a) = from_option p_balance 0 o + a.
Proof.
  intros Ho Hnow Ha Hb. destruct o as [r|]; cbn [charged from_option] in *.
  - destruct (Ho r eq_refl) as [Hc Hr Ht].
    assert (0 ≤ p_balance r + a < MONEY) by lia. split; [|apply p_balance_set]. split; [|by rewrite p_balance_set|done].
    apply split_ok, storable_money. done.
  - assert (0 ≤ a < MONEY) by lia. assert (p_balance (MkPayableRow (split a).1 (split a).2 now None) = a) as Hv by apply value_split.
    split; [|by rewrite Hv]. split; [|by rewrite Hv|done]. apply split_ok, storable_money. done.
Qed.

Lemma more_money_payable_ok timestamp wallet a (t : PayableTable) :
  (∀ w r, t !! w = Some r → p_row_ok r) → valid_time timestamp → 0 ≤ a → owed t wallet + a < MONEY →
  more_money_payable timestamp wallet a t =
    Ret (<[wallet := charged (t !! wallet) (timestamp / NANOS) a]> t, Ok ()).
Proof.
  intros Ht Hts Ha Hb. destruct (valid_time_secs timestamp Hts) as [Htt _].
  assert (Hbal : 0 ≤ owed t wallet).
  { unfold owed. destruct (t !! wallet) as [r|] eqn:E; cbn; [apply (po_balance _ (Ht _ _ E))|lia]. }
  unfold more_money_payable. rewrite Htt. cbn [mbind run_bind].
  rewrite wei_change_ok by (cbn; unfold MONEY in *; lia). cbn [mbind run_bind direction amount_to_change].
  destruct (t !! wallet) as [r|] eqn:E; cbn [charged].
  - destruct (Ht _ _ E) as [Hc Hr _]. unfold owed in Hb. rewrite E in Hb. cbn in Hb. unfold p_balance in *.
    rewrite (execute_adds _ t (p_columns r) (λ c, <[wallet := set_p_balance r c]> t) a); [done|..|done|done| |];
      try (unfold amount, MONEY in *; lia).
    split; cbn; [by rewrite E|intros dh dl; by rewrite E|intros h l; by rewrite E].
  - unfold execute. cbn [more_money_payable_config main_sql]. by rewrite E.
Qed.

Lemma map_to_list_filter {A} (P : Z * A → Prop) `{∀ x, Decision (P x)} (m : gmap Z A) :
  map_to_list (filter P m) ≡ₚ filter P (map_to_list m).
Proof using.
  rewrite map_filter_alt. apply map_to_list_to_map.
  eapply sublist_NoDup; [apply (NoDup_fst_map_to_list m)|apply fmap_sublist, sublist_filter].
Qed.

Lemma list_filter_iff' {A} (P Q : A → Prop) `{∀ x, Decision (P x), ∀ x, Decision (Q x)} (l : list A) :
  (∀ x, x ∈ l → P x ↔ Q x) → filter P l = filter Q l.
Proof using.
  intros Hl. induction l as [|x l IH]; [done|]. rewrite !filter_cons, IH by (intros; apply Hl; by right).
  assert (P x ↔ Q x) by (apply Hl; by left). repeat case_decide; tauto || done.
Qed.

Lemma filter_all {A} (P : A → Prop) `{∀ x, Decision (P x)} (l : list A) : (∀ x, x ∈ l → P x) → filter P l = l.
Proof using.
  intros Hl. induction l as [|x l IH]; [done|]. rewrite filter_cons, decide_True by (apply Hl; by left).
  rewrite IH; [done|]. intros y Hy. apply Hl. by right.
Qed.

Lemma filter_none {A} (P : A → Prop) `{∀ x, Decision (P x)} (l : list A) : (∀ x, x ∈ l → ¬ P x) → filter P l = [].
Proof using.
  intros Hl. induction l as [|x l IH]; [done|]. rewrite filter_cons, decide_False by (apply Hl; by left).
  apply IH. intros y Hy. apply Hl. by right.
Qed.

(** The only row with a number. *)
Definition pays_only (t : PayableTable) (rowid wallet : Z) : Prop :=
  ∀ w r, t !! w = Some r → pending_payable_rowid r = Some rowid → w = wallet.

Context (Hrows : ∀ A (t : gmap Z A), rows A t ≡ₚ map_to_list t).

Lemma filter_due (t : PayableTable) rowid wallet r :
  t !! wallet = Some r → pending_payable_rowid r = Some rowid → pays_only t rowid wallet →
  filter (λ kr : Z * PayableRow, pays rowid kr.2 = true) t = {[wallet := r]}.
Proof using.
  intros Hw Hr Honly. apply map_eq. intros w. apply option_eq. intros r'.
  rewrite map_lookup_filter_Some, lookup_singleton_Some. unfold pays. cbn. rewrite bool_decide_eq_true. split.
  - intros [Hl Hp]. assert (w = wallet) as -> by eauto. split; congruence.
  - intros [<- <-]. done.
Qed.

Lemma due_visited (t : PayableTable) rowid wallet r :
  t !! wallet = Some r → pending_payable_rowid r = Some rowid → pays_only t rowid wallet →
  filter (λ kr : Z * PayableRow, pays rowid kr.2 = true) (rows _ t) = [(wallet, r)].
Proof using Hrows.
  intros Hw Hr Honly. apply Permutation_singleton_r.
  by rewrite (Hrows _ t), <- map_to_list_filter, (filter_due t rowid wallet r Hw Hr Honly), map_to_list_singleton.
Qed.

Lemma confirm_one_ok fp (t : PayableTable) wallet r :
  t !! wallet = Some r → pending_payable_rowid r = Some (fp_rowid fp) → pays_only t (fp_rowid fp) wallet →
  p_row_ok r → valid_time (fp_timestamp fp) → fits_i 64 (fp_rowid fp) = true → 0 ≤ fp_amount fp ≤ p_balance r →
  confirm_one fp t =
    Ret (<[wallet := confirmed_row (fp_timestamp fp / NANOS) (split (p_balance r - fp_amount fp))]> t, Ok ()).
Proof using Hrows.
  intros Hw Hr Honly [Hc Hb _] Hts Hid Ha. destruct (valid_time_secs _ Hts) as [Htt _].
  unfold confirm_one. rewrite checked_conversion_ok by done. cbn [mbind run_bind]. rewrite Htt. cbn [mbind run_bind].
  rewrite wei_change_ok by (cbn; unfold MONEY in *; lia). cbn [mbind run_bind direction amount_to_change].
  unfold p_balance in *. pose proof (filter_due t _ wallet r Hw Hr Honly) as Hdue.
  assert (Hpays : ∀ w r', t !! w = Some r' → pays (fp_rowid fp) r' = bool_decide (w = wallet)).
  { intros w r' Hl. unfold pays. apply bool_decide_ext. split; [by eauto|intros ->; congruence]. }
  rewrite (execute_adds _ t (p_columns r) (λ c, <[wallet := confirmed_row (fp_timestamp fp / NANOS) c]> t) (- fp_amount fp));
    [by rewrite Z.add_opp_r|..|done|done| |]; try (unfold amount, MONEY in *; lia).
  split; cbn [transactions_confirmed_config main_sql overflow_update_clause select_sql].
  - by rewrite (due_visited t _ wallet r).
  - intros dh dl. rewrite Hdue, map_to_list_singleton, map_size_singleton. cbn [forallb snd]. rewrite andb_true_r.
    unfold add_columns. destruct (sql_add (p_columns r).1 dh) as [h|] eqn:Eh; [|done].
    destruct (sql_add (p_columns r).2 dl) as [l|] eqn:El; [|done]. rewrite bool_decide_true by (by eexists). do 2 f_equal.
    apply map_eq. intros w. rewrite map_lookup_imap. destruct (decide (w = wallet)) as [->|Hne].
    + rewrite lookup_insert_eq, Hw. cbn. rewrite (Hpays _ _ Hw), bool_decide_true by done. cbn in Eh, El. rewrite Eh. cbn. by rewrite El.
    + rewrite lookup_insert_ne by done. destruct (t !! w) as [r'|] eqn:E; [|done]. cbn.
      by rewrite (Hpays _ _ E), bool_decide_false.
  - intros h l. rewrite Hdue, map_size_singleton. repeat f_equal.
    apply map_eq. intros w. rewrite lookup_fmap. destruct (decide (w = wallet)) as [->|Hne].
    + rewrite lookup_insert_eq, Hw. cbn. by rewrite (Hpays _ _ Hw), bool_decide_true.
    + rewrite lookup_insert_ne by done. destruct (t !! w) as [r'|] eqn:E; [|done]. cbn.
      by rewrite (Hpays _ _ E), bool_decide_false.
Qed.

(** ** Meaning of the operations on receivables *)

Definition r_balance (r : ReceivableRow) : Z := value (r_columns r).

Record r_row_ok (r : ReceivableRow) : Prop := {
  ro_columns : columns_ok (r_columns r);
  ro_balance : - MONEY < r_balance r < MONEY;
  ro_time : 0 ≤ last_received_timestamp r < 2 ^ 63
}.

Definition due (t : ReceivableTable) (wallet : Z) : Z := from_option r_balance 0 (t !! wallet).

Definition served (o : option ReceivableRow) (now a : Z) : ReceivableRow :=
  match o with
  | Some r => set_r_balance r (split (r_balance r + a))
  | None => MkReceivableRow (split a).1 (split a).2 now
  end.

Lemma served_ok o now a : (∀ r, o = Some r → r_row_ok r) → 0 ≤ now < 2 ^ 63 →
  0 ≤ a < MONEY → from_option r_balance 0 o + a < MONEY →
  r_row_ok (served o now a) ∧ r_balance (served o now a) = from_option r_balance 0 o + a.
Proof using.
  intros Ho Hnow Ha Hb. destruct o as [r|]; cbn [served from_option] in *.
  - destruct (Ho r eq_refl) as [Hc Hr Ht]. assert (r_balance (set_r_balance r (split (r_balance r + a))) = r_balance r + a) as Hv by apply value_split.
    split; [|done]. split; [|rewrite Hv; lia|done]. apply split_ok. unfold storable, MONEY in *. lia.
  - assert (r_balance (MkReceivableRow (split a).1 (split a).2 now) = a) as Hv by apply value_split.
    split; [|by rewrite Hv]. split; [|rewrite Hv; lia|done]. apply split_ok, storable_money. lia.
Qed.

Lemma more_money_receivable_ok timestamp wallet a (t : ReceivableTable) :
  (∀ w r, t !! w = Some r → r_row_ok r) → valid_time timestamp → 0 ≤ a < MONEY → due t wallet + a < MONEY →
  more_money_receivable timestamp wallet a t =
    Ret (<[wallet := served (t !! wallet) (timestamp / NANOS) a]> t, Ok ()).
Proof using.
  intros Ht Hts Ha Hb. destruct (valid_time_secs timestamp Hts) as [Htt _].
  unfold more_money_receivable. rewrite Htt. cbn [mbind run_bind].
  rewrite wei_change_ok by (cbn; unfold MONEY in *; lia). cbn [mbind run_bind direction amount_to_change].
  destruct (t !! wallet) as [r|] eqn:E; cbn [served].
  - destruct (Ht _ _ E) as [Hc Hr _]. unfold due in Hb. rewrite E in Hb. cbn in Hb. unfold r_balance in *.
    rewrite (execute_adds _ t (r_columns r) (λ c, <[wallet := set_r_balance r c]> t) a); [done|..|done|done| |];
      try (unfold amount, MONEY in *; lia).
    split; cbn; [by rewrite E|intros dh dl; by rewrite E|intros h l; by rewrite E].
  - unfold execute. cbn [more_money_receivable_config main_sql]. by rewrite E.
Qed.

(** A payment lowers the balance of a known wallet; one of an unknown wallet
    changes nothing. *)
Definition receive (now : Z) (p : BlockchainTransaction) (t : ReceivableTable) : ReceivableTable :=
  match t !! from p with
  | Some r => <[from p := MkReceivableRow (split (r_balance r - wei_amount p)).1 (split (r_balance r - wei_amount p)).2 now]> t
  | None => t
  end.

Definition receivables_ok (t : ReceivableTable) : Prop := ∀ w r, t !! w = Some r → r_row_ok r.

Lemma receive_ok now p t : receivables_ok t → 0 ≤ now < 2 ^ 63 → 0 ≤ wei_amount p → - MONEY < due t (from p) - wei_amount p →
  receivables_ok (receive now p t) ∧
  ∀ w, due (receive now p t) w = due t w - (if decide (w = from p ∧ is_Some (t !! w)) then wei_amount p else 0).
Proof using.
  intros Ht Hnow Ha Hb. unfold receive. destruct (t !! from p) as [r|] eqn:E.
  - unfold due in Hb. rewrite E in Hb. cbn in Hb. destruct (Ht _ _ E) as [Hc Hr _].
    set (r' := MkReceivableRow _ _ _).
    assert (Hv : r_balance r' = r_balance r - wei_amount p) by apply value_split. split.
    + intros w r1 [[<- <-]|[Hne Hl]]%lookup_insert_Some; [|by eauto]. split; [|rewrite Hv; lia|done].
      apply split_ok. unfold storable, MONEY in *. lia.
    + intros w. unfold due. destruct (decide (w = from p)) as [->|Hne].
      * rewrite lookup_insert_eq, E. cbn. rewrite decide_True by eauto. done.
      * rewrite lookup_insert_ne by done. rewrite decide_False by naive_solver. lia.
  - split; [done|]. intros w. rewrite decide_False; [lia|]. intros [-> [r Hr]]. congruence.
Qed.

Lemma process_one now p rest t : receivables_ok t → valid_time now → 0 ≤ wei_amount p < MONEY →
  process_received_payments_and_return_txn (p :: rest) now t =
  process_received_payments_and_return_txn rest now (receive (now / NANOS) p t).
Proof using.
  intros Ht Hnow Ha. cbn [process_received_payments_and_return_txn]. rewrite (proj1 (valid_time_secs now Hnow)). cbn [mbind run_bind].
  rewrite wei_change_ok by (cbn; unfold MONEY in *; lia). cbn [mbind run_bind direction amount_to_change].
  unfold receive. destruct (t !! from p) as [r|] eqn:E.
  - destruct (Ht _ _ E) as [Hc Hr _]. unfold r_balance in *.
    rewrite (execute_adds _ t (r_columns r) (λ c, <[from p := MkReceivableRow c.1 c.2 (now / NANOS)]> t) (- wei_amount p));
      [by rewrite Z.add_opp_r|..|done|done| |]; try (unfold amount, MONEY in *; lia).
    split; cbn; [by rewrite E|intros dh dl; by rewrite E|intros h l; by rewrite E].
  - unfold execute. cbn [received_payment_config main_sql]. rewrite E. cbn. unfold verify_possibly_unknown_wallet. by rewrite E.
Qed.

(** What a wallet paid in a list of transactions. *)
Definition paid_by (w : Z) (ps : list BlockchainTransaction) : Z :=
  foldr (λ p acc, (if decide (w = from p) then wei_amount p else 0) + acc) 0 ps.

Lemma paid_by_nonneg w ps : Forall (λ p, 0 ≤ wei_amount p < MONEY) ps → 0 ≤ paid_by w ps.
Proof using. induction 1 as [|p ps Hp _ IH]; [done|]. unfold paid_by in *. cbn [foldr]. case_decide; lia. Qed.

Lemma paid_by_cons w p ps : paid_by w (p :: ps) = (if decide (w = from p) then wei_amount p else 0) + paid_by w ps.
Proof using. done. Qed.

Lemma receive_known now p t w : is_Some (receive now p t !! w) ↔ is_Some (t !! w).
Proof using.
  unfold receive. destruct (t !! from p) eqn:E; [|done]. destruct (decide (w = from p)) as [->|].
  - rewrite lookup_insert_eq, E. split; eauto.
  - by rewrite lookup_insert_ne.
Qed.

Lemma more_money_received_ok now ps t :
  receivables_ok t → valid_time now → Forall (λ p, 0 ≤ wei_amount p < MONEY) ps →
  (∀ w, - MONEY < due t w - paid_by w ps) →
  ∃ t', more_money_received now ps t = Ret t' ∧ receivables_ok t' ∧
    (∀ w, is_Some (t' !! w) ↔ is_Some (t !! w)) ∧
    ∀ w, due t' w = due t w - (if decide (is_Some (t !! w)) then paid_by w ps else 0).
Proof using.
  intros Ht Hnow Hps Hb. unfold more_money_received. revert t Ht Hb.
  induction Hps as [|p ps Hp Hps IH]; intros t Ht Hb.
  - exists t. cbn. split; [done|]. split; [done|]. split; [done|]. intros w. case_decide; lia.
  - rewrite process_one by done. pose proof (Hb (from p)) as Hbp. rewrite paid_by_cons, decide_True in Hbp by done.
    pose proof (paid_by_nonneg (from p) ps Hps).
    destruct (receive_ok (now / NANOS) p t) as [Hok Hdue]; [done|by apply valid_time_secs|lia|lia|].
    destruct (IH _ Hok) as (t' & -> & Hok' & Hk & Hd).
    { intros w. rewrite Hdue. pose proof (Hb w) as Hbw. rewrite paid_by_cons in Hbw.
      repeat case_decide; first [lia|naive_solver]. }
    exists t'. split; [done|]. split; [done|]. split; [intros w; by rewrite Hk, receive_known|].
    intros w. rewrite Hd, Hdue, paid_by_cons. pose proof (receive_known (now / NANOS) p t w).
    repeat case_decide; first [lia|naive_solver].
Qed.

Lemma run_map_ok {A B} (f : A → run B) (g : A → B) l : (∀ x, x ∈ l → f x = Ret (g x)) → run_map f l = Ret (g <$> l).
Proof using.
  clear Hrows rows. induction l as [|x l IH]; intros H; [done|]. cbn. rewrite H by set_solver. cbn. rewrite IH by set_solver. done.
Qed.

Lemma run_filter_ok {A} (f : A → run bool) (P : A → Prop) `{∀ x, Decision (P x)} l :
  (∀ x, x ∈ l → f x = Ret (bool_decide (P x))) → run_filter f l = Ret (filter P l).
Proof using.
  clear Hrows rows. induction l as [|x l IH]; intros Hl; [done|]. cbn [run_filter]. rewrite Hl by set_solver. cbn [mbind run_bind].
  rewrite IH by set_solver. cbn [mbind run_bind]. rewrite filter_cons. case_bool_decide; case_decide; done.
Qed.

Definition receivable_account (kr : Z * ReceivableRow) : ReceivableAccount :=
  MkReceivableAccount kr.1 (r_balance kr.2) (last_received_timestamp kr.2 * NANOS).

Lemma create_receivable_account_ok kr : r_row_ok kr.2 → create_receivable_account kr = Ret (receivable_account kr).
Proof using.
  destruct kr as [w r]. intros [Hc _ Ht]. cbn in *. change (r_balance_high_b r) with (r_columns r).1.
  change (r_balance_low_b r) with (r_columns r).2. rewrite reconstitute_ok by done. cbn [mbind run_bind].
  by rewrite from_time_t_ok.
Qed.

(** ** Delinquency *)

(** An account is delinquent at second [now] when its debt is above the limit of
    an age that leaves out the grace period, and above the permanent debt. *)
Definition delinquent (pt : PaymentThresholds) (now : Z) (banned : gset Z) (kr : Z * ReceivableRow) : Prop :=
  let age := now - maturity_threshold_sec pt - payment_grace_period_sec pt - last_received_timestamp kr.2 in
  0 < age ∧
  gwei_to_wei (debt_threshold_gwei pt) - drop pt * age < r_balance kr.2 ∧
  gwei_to_wei (permanent_debt_allowed_gwei pt) < r_balance kr.2 ∧
  kr.1 ∉ banned.

Global Instance delinquent_dec pt now banned kr : Decision (delinquent pt now banned kr).
Proof using. unfold delinquent. apply _. Defined.

Lemma permanent_check (permanent : Z) c : columns_ok c → 0 ≤ permanent < 2 ^ 63 →
  ((split permanent).1 <? c.1) || ((c.1 =? 0) && ((split permanent).2 <? c.2)) = bool_decide (permanent < value c).
Proof using.
  intros [Hh Hl] Hp. unfold split, value. rewrite Z.div_small, Z.mod_small by lia. cbn [fst snd].
  apply eq_bool_prop_intro. rewrite bool_decide_spec, orb_True, andb_True, !Is_true_true, !Z.ltb_lt, Z.eqb_eq. lia.
Qed.

Lemma is_new_delinquency_ok pt now banned kr :
  thresholds_ok pt → gwei_to_wei (permanent_debt_allowed_gwei pt) < 2 ^ 63 → r_row_ok kr.2 → 0 ≤ now < 2 ^ 63 →
  is_new_delinquency (debt_threshold_gwei pt) (- drop pt) (now - maturity_threshold_sec pt - payment_grace_period_sec pt)
    (split (gwei_to_wei (permanent_debt_allowed_gwei pt))).1 (split (gwei_to_wei (permanent_debt_allowed_gwei pt))).2 banned kr
  = Ret (bool_decide (delinquent pt now banned kr)).
Proof using.
  intros Hpt Hperm Hr Hnow. destruct kr as [w r]. cbn [fst snd] in *. destruct Hr as [Hc Hb Ht].
  pose proof (drop_range pt Hpt) as Hdrop. pose proof Hpt as [Hd Hdm _ Hm Hg _ _].
  unfold is_new_delinquency, delinquent. cbn [fst snd].
  set (age := now - maturity_threshold_sec pt - payment_grace_period_sec pt - last_received_timestamp r).
  destruct (last_received_timestamp r <? _) eqn:E; b2p; [|rewrite bool_decide_false; [done|lia]].
  unfold sql_add. replace (_ + - last_received_timestamp r) with age by lia.
  rewrite (proj2 (fits_i_spec 64 age)) by (cbn; lia).
  unfold slope_drop_high_bytes, slope_drop_low_bytes, common_arg_distillation.
  destruct (- drop pt <? 0) eqn:E1; b2p; [|lia]. destruct (0 <? age) eqn:E2; b2p; [|lia].
  set (point := gwei_to_wei (debt_threshold_gwei pt) + - drop pt * age).
  assert (Hpoint : storable point).
  { unfold storable, point, gwei_to_wei, WEIS_IN_GWEI. assert (0 < drop pt * age < 2 ^ 63 * 2 ^ 63) by nia. lia. }
  pose proof (deconstruct_ok point Hpoint) as Hdec. unfold deconstruct in Hdec.
  destruct (deconstruct_high_bytes point) as [high|]; [|done]. cbn [mbind run_bind expect_ok] in *. injection Hdec as Hh _.
  assert (high = (split point).1) as -> by done. rewrite low_bytes_split. f_equal. change (r_balance_high_b r) with (r_columns r).1. change (r_balance_low_b r) with (r_columns r).2.
  rewrite permanent_check by (done || (unfold gwei_to_wei, WEIS_IN_GWEI in *; lia)).
  apply eq_bool_prop_intro. rewrite !andb_True, bool_decide_spec, negb_True, bool_decide_spec, Is_true_true.
  rewrite sql_gt_spec by (done || by apply split_ok). rewrite value_split, bool_decide_spec.
  unfold point, r_balance. intuition lia.
Qed.

Lemma visited {A} (t : gmap Z A) w r : (w, r) ∈ rows _ t ↔ t !! w = Some r.
Proof using Hrows. by rewrite (Hrows _ t), elem_of_map_to_list. Qed.

(** The query selects the delinquent accounts, as long as the permanent debt
    allowed fits the low column. *)
Lemma new_delinquencies_ok pt now banned t :
  thresholds_ok pt → gwei_to_wei (permanent_debt_allowed_gwei pt) < 2 ^ 63 → receivables_ok t → valid_time now →
  new_delinquencies now pt banned t =
    Ret (receivable_account <$> filter (delinquent pt (now / NANOS) banned) (rows _ t)).
Proof using Hrows.
  intros Hpt Hperm Ht Hnow. destruct (valid_time_secs now Hnow) as [Htt Hs]. pose proof (drop_range pt Hpt).
  pose proof Hpt as [Hd Hdm _ _ _ _ _].
  unfold new_delinquencies. rewrite slope_ok by done. cbn [mbind run_bind]. rewrite sint_small by (cbn; lia).
  rewrite deconstruct_ok by (unfold storable, gwei_to_wei, WEIS_IN_GWEI in *; lia). unfold split. cbn [mbind run_bind].
  rewrite checked_conversion_ok by (apply fits_i_spec; cbn; lia). cbn [mbind run_bind].
  rewrite Htt. cbn [mbind run_bind]. rewrite sugg_and_grace_ok by done. cbn [mbind run_bind].
  rewrite (run_filter_ok _ (delinquent pt (now / NANOS) banned)).
  - cbn [mbind run_bind]. apply run_map_ok. intros [w r] [_ Hin]%list_elem_of_filter. apply create_receivable_account_ok.
    apply visited in Hin. by eapply Ht.
  - intros [w r] Hin%visited. apply is_new_delinquency_ok; try done. by eapply Ht.
Qed.

Definition reformed (pt : PaymentThresholds) (banned : gset Z) (kr : Z * ReceivableRow) : Prop :=
  kr.1 ∈ banned ∧ r_balance kr.2 ≤ gwei_to_wei (unban_below_gwei pt).

Global Instance reformed_dec pt banned kr : Decision (reformed pt banned kr).
Proof using. unfold reformed. apply _. Defined.

Lemma paid_delinquencies_ok pt banned t : thresholds_ok pt → receivables_ok t →
  paid_delinquencies pt banned t = Ret (receivable_account <$> filter (reformed pt banned) (rows _ t)).
Proof using Hrows.
  intros [_ _ _ _ _ _ Hu] Ht. unfold paid_delinquencies.
  assert (Hst : storable (unban_below_gwei pt * WEIS_IN_GWEI)) by (unfold storable, WEIS_IN_GWEI; lia).
  rewrite deconstruct_ok by done. unfold split. cbn [mbind run_bind].
  assert (Hsame : ∀ kr, kr ∈ rows _ t →
    (kr.1 ∈ banned ∧ sql_le (r_balance_high_b kr.2) (r_balance_low_b kr.2)
       (unban_below_gwei pt * WEIS_IN_GWEI / 2 ^ 63) ((unban_below_gwei pt * WEIS_IN_GWEI) mod 2 ^ 63) = true) ↔ reformed pt banned kr).
  { intros [w r] Hin%visited. unfold reformed. cbn [fst snd].
    pose proof (sql_le_spec (r_columns r) (split (unban_below_gwei pt * WEIS_IN_GWEI)) (ro_columns _ (Ht _ _ Hin)) (split_ok _ Hst)) as H.
    unfold r_columns, split in H. cbn [fst snd] in H. rewrite H. unfold r_balance, gwei_to_wei.
    change (unban_below_gwei pt * WEIS_IN_GWEI / 2 ^ 63, (unban_below_gwei pt * WEIS_IN_GWEI) mod 2 ^ 63)
      with (split (unban_below_gwei pt * WEIS_IN_GWEI)). by rewrite value_split. }
  rewrite (list_filter_iff' _ (reformed pt banned) (rows _ t) Hsame).
  apply run_map_ok. intros [w r] [_ Hin]%list_elem_of_filter. apply create_receivable_account_ok. apply visited in Hin. by eapply Ht.
Qed.

(** ** Marking payables *)

Lemma compose_case_spec ps w : compose_case_expression ps w = None ↔ w ∉ ps.*1.
Proof using.
  unfold compose_case_expression. clear. induction ps as [|[w' id] ps IH]; [set_solver|].
  rewrite filter_cons. cbn. case_decide; cbn; set_solver.
Qed.

Lemma compose_case_in ps w id : NoDup ps.*1 → (w, id) ∈ ps → compose_case_expression ps w = Some id.
Proof using.
  unfold compose_case_expression. clear. intros Hnd Hin. induction ps as [|[w' id'] ps IH]; [set_solver|].
  cbn in Hnd. apply NoDup_cons in Hnd as [Hni Hnd]. rewrite filter_cons. cbn. case_decide as E; cbn.
  - subst. apply elem_of_cons in Hin as [[= ->]|Hin]; [done|]. destruct Hni. apply (list_elem_of_fmap_2 fst) in Hin. done.
  - apply elem_of_cons in Hin as [[= -> ->]|Hin]; [done|by auto].
Qed.

(** A wallet of the list gets its number. *)
Definition mark (ps : list (Z * Z)) (t : PayableTable) : PayableTable :=
  map_imap (λ w r, Some (match compose_case_expression ps w with Some id => set_pending r (Some id) | None => r end)) t.

Lemma lookup_mark ps t w : mark ps t !! w =
  (λ r, match compose_case_expression ps w with Some id => set_pending r (Some id) | None => r end) <$> t !! w.
Proof using. unfold mark. rewrite map_lookup_imap. by destruct (t !! w). Qed.

Lemma size_selection {A} (P : Z * A → Prop) `{∀ x, Decision (P x)} (t : gmap Z A) (ks : list Z) :
  NoDup ks → (∀ k, k ∈ ks ↔ ∃ a, t !! k = Some a ∧ P (k, a)) → size (filter P t) = length ks.
Proof using.
  clear. intros Hnd Hks. rewrite <- size_dom, <- (size_list_to_set (C := gset Z) ks) by done. f_equal.
  apply set_eq. intros k. rewrite elem_of_dom, elem_of_list_to_set, Hks. unfold is_Some.
  setoid_rewrite map_lookup_filter_Some. done.
Qed.

Lemma mark_ok ps t : ps ≠ [] → NoDup ps.*1 →
  (∀ w id, (w, id) ∈ ps → fits_i 64 id = true ∧ ∃ r, t !! w = Some r ∧ pending_payable_rowid r = None) →
  mark_pending_payables_rowids ps t = Ret (mark ps t, Ok ()).
Proof using.
  clear Hrows rows. intros Hne Hnd Hps. unfold mark_pending_payables_rowids. destruct ps as [|p0 ps0]; [done|]. set (ps := p0 :: ps0) in *.
  unfold execute_command, mark_statement.
  set (marked := filter _ t). set (returned := _ <$> map_to_list marked).
  assert (Hmarked : ∀ w r, to_be_marked ps w r = true ↔ pending_payable_rowid r = None ∧ w ∈ ps.*1).
  { intros w r. unfold to_be_marked. apply bool_decide_eq_true. }
  assert (Hfst : ∀ w, w ∈ ps.*1 ↔ ∃ id, (w, id) ∈ ps).
  { intros w. rewrite list_elem_of_fmap. split; [intros ([w' id] & -> & H); eauto|intros [id H]; by exists (w, id)]. }
  assert (Hsome : ∀ o, o ∈ returned → ∃ w id, (w, id) ∈ ps ∧ o = Some id).
  { intros o ([w r] & -> & Hin)%list_elem_of_fmap. apply elem_of_map_to_list, map_lookup_filter_Some in Hin as [_ Hin].
    apply Hmarked in Hin as [_ [id Hid]%Hfst]. exists w, id. split; [done|]. by apply compose_case_in. }
  assert (Hall : forallb (λ o : option Z, match o with Some rowid => fits_i 64 rowid | None => true end) returned = true).
  { apply forallb_forall. intros o Ho%list_elem_of_In. apply Hsome in Ho as (w & id & Hin & ->). by apply (Hps w id). }
  rewrite Hall. assert (Hflt : filter is_Some returned = returned).
  { apply filter_all. intros o (w & id & _ & ->)%Hsome. by eexists. }
  rewrite Hflt. unfold returned. rewrite length_fmap, length_map_to_list. unfold marked.
  rewrite (size_selection _ t ps.*1), length_fmap, Nat.eqb_refl; [|done|].
  - do 2 f_equal. unfold mark. apply map_eq. intros w. rewrite !map_lookup_imap. destruct (t !! w) as [r|] eqn:E; [|done]. cbn.
    f_equal. destruct (to_be_marked ps w r) eqn:Em.
    + apply Hmarked in Em as [_ [id Hid]%Hfst]. by rewrite (compose_case_in _ _ _ Hnd Hid).
    + destruct (compose_case_expression ps w) as [id|] eqn:Ec; [|done].
      assert (w ∈ ps.*1) as Hw by (destruct (decide (w ∈ ps.*1)) as [|Hn]; [done|apply compose_case_spec in Hn; congruence]).
      apply Hfst in Hw as [id' Hin]. destruct (Hps _ _ Hin) as (_ & r' & Hr' & Hp). rewrite E in Hr'. injection Hr' as <-.
      rewrite (proj2 (Hmarked w r)) in Em; [done|]. split; [done|]. apply Hfst. eauto.
  - intros w. rewrite Hfst. split.
    + intros [id Hin]. destruct (Hps _ _ Hin) as (_ & r & Hr & Hp). exists r. split; [done|]. apply Hmarked. split; [done|]. apply Hfst. eauto.
    + intros (r & _ & Hm). apply Hmarked in Hm as [_ Hw]. by apply Hfst.
Qed.

(** ** Fingerprints *)

Definition f_amount (r : PendingPayableRow) : Z := value (amount_high_b r, amount_low_b r).

Record f_row_ok (rowid : Z) (r : PendingPayableRow) : Prop := {
  fo_rowid : 1 ≤ rowid < 2 ^ 63;
  fo_columns : columns_ok (amount_high_b r, amount_low_b r);
  fo_amount : 0 ≤ f_amount r < MONEY;
  fo_time : 0 ≤ payable_timestamp r < 2 ^ 63;
  fo_attempt : 0 ≤ attempt r < 2 ^ 16
}.

Record fingerprints_ok (t : PendingPayableTable) : Prop := {
  fs_rows rowid r : t !! rowid = Some r → f_row_ok rowid r;
  fs_unique rowid rowid' r r' : t !! rowid = Some r → t !! rowid' = Some r' →
    transaction_hash r = transaction_hash r' → rowid = rowid'
}.

Lemma next_rowid_above (t : PendingPayableTable) rowid r : t !! rowid = Some r → rowid < next_rowid t.
Proof using.
  clear. intros Hin%elem_of_map_to_list. unfold next_rowid. revert Hin. generalize (map_to_list t). intros l Hin. induction l as [|kr l IH]; [set_solver|].
  cbn. apply elem_of_cons in Hin as [<-|Hin]; [cbn; lia|specialize (IH Hin); lia].
Qed.

Lemma next_rowid_pos (t : PendingPayableTable) : 1 ≤ next_rowid t.
Proof using. clear. unfold next_rowid. induction (map_to_list t) as [|kr l IH]; cbn; lia. Qed.

Lemma next_rowid_insert (t : PendingPayableTable) r : next_rowid (<[next_rowid t := r]> t) = next_rowid t + 1.
Proof using.
  clear. set (n := next_rowid t). assert (Hnew : t !! n = None).
  { destruct (t !! n) eqn:E; [|done]. apply next_rowid_above in E. unfold n in E. lia. }
  unfold next_rowid. pose proof (map_to_list_insert t n r Hnew) as Hp.
  assert (Hfold : ∀ l l' : list (Z * PendingPayableRow), l ≡ₚ l' → foldr (λ kr m, Z.max kr.1 m) 0 l = foldr (λ kr m, Z.max kr.1 m) 0 l').
  { intros l l' Hl. induction Hl; cbn in *; lia. }
  rewrite (Hfold _ _ Hp). cbn. unfold n, next_rowid. lia.
Qed.

Lemma insert_rows_ok (new : list PendingPayableRow) (t : PendingPayableTable) :
  fingerprints_ok t → NoDup (transaction_hash <$> new) → next_rowid t + Z.of_nat (length new) < 2 ^ 63 →
  (∀ r, r ∈ new → (∀ rowid, 1 ≤ rowid < 2 ^ 63 → f_row_ok rowid r) ∧
                  ∀ rowid r', t !! rowid = Some r' → transaction_hash r' ≠ transaction_hash r) →
  ∃ t', insert_rows new t = Ok t' ∧ fingerprints_ok t' ∧ t ⊆ t' ∧
    (∀ r, r ∈ new → ∃ rowid, t !! rowid = None ∧ t' !! rowid = Some r) ∧
    (∀ rowid r, t' !! rowid = Some r → t !! rowid = Some r ∨ t !! rowid = None ∧ r ∈ new).
Proof using.
  clear Hrows rows. revert t. induction new as [|r new IH]; intros t Ht Hnd Hn Hnew.
  - exists t. cbn. split_and!; [done|done|done|set_solver|by auto].
  - cbn in Hnd. apply NoDup_cons in Hnd as [Hni Hnd]. cbn [insert_rows]. rewrite decide_False.
    2: { intros ([rowid r'] & Heq & Hin%elem_of_map_to_list)%list_elem_of_fmap. cbn in Heq.
         by apply (proj2 (Hnew r ltac:(by left)) rowid r' Hin). }
    assert (Hfree : t !! next_rowid t = None).
    { destruct (t !! next_rowid t) eqn:E; [|done]. apply next_rowid_above in E. lia. }
    cbn [length] in Hn. pose proof (next_rowid_pos t).
    destruct (IH (<[next_rowid t := r]> t)) as (t' & Hins & Hok & Hsub & Hall & Honly).
    + split.
      * intros rowid r1 [[<- <-]|[_ Hl]]%lookup_insert_Some; [|by apply Ht]. apply (Hnew r); [by left|lia].
      * intros i1 i2 r1 r2 [[<- <-]|[_ Hl1]]%lookup_insert_Some [[<- <-]|[_ Hl2]]%lookup_insert_Some Heq; try done.
        -- by destruct (proj2 (Hnew r ltac:(by left)) i2 r2 Hl2).
        -- by destruct (proj2 (Hnew r ltac:(by left)) i1 r1 Hl1).
        -- by eapply (fs_unique t Ht).
    + done.
    + rewrite next_rowid_insert. lia.
    + intros r1 Hin. split; [apply Hnew; by right|]. intros rowid r' [[<- <-]|[_ Hl]]%lookup_insert_Some Heq.
      * apply Hni. rewrite Heq. by apply list_elem_of_fmap_2.
      * by apply (proj2 (Hnew r1 ltac:(by right)) rowid r' Hl).
    + exists t'. split; [done|]. split; [done|]. split; [etrans; [by apply insert_subseteq|done]|]. split.
      * intros r1 [->|Hin]%elem_of_cons.
        -- exists (next_rowid t). split; [done|]. eapply lookup_weaken; [|done]. apply lookup_insert_eq.
        -- destruct (Hall r1 Hin) as (rowid & Hno & Hl). exists rowid. split; [|done].
           apply lookup_insert_None in Hno. by destruct Hno.
      * intros rowid r1 Hl. destruct (Honly _ _ Hl) as [Hl1|[Hno Hin]].
        -- apply lookup_insert_Some in Hl1 as [[<- <-]|[_ Hl1]]; [right; split; [done|by left]|by left].
        -- apply lookup_insert_None in Hno as [Hno _]. right. split; [done|by right].
Qed.

(** The rows of the table are the old ones and the new ones. *)
Lemma insert_rows_values (new : list PendingPayableRow) (t t' : PendingPayableTable) :
  insert_rows new t = Ok t' → (map_to_list t').*2 ≡ₚ new ++ (map_to_list t).*2.
Proof using.
  clear Hrows rows. revert t. induction new as [|r new IH]; intros t Hins; cbn [insert_rows] in Hins; [by injection Hins as <-|].
  case_decide; [done|]. assert (Hfree : t !! next_rowid t = None).
  { destruct (t !! next_rowid t) eqn:E; [|done]. apply next_rowid_above in E. lia. }
  rewrite (IH _ Hins), map_to_list_insert by done. cbn. by rewrite Permutation_middle.
Qed.

Lemma selected_size ids (t : PendingPayableTable) : NoDup ids → (∀ id, id ∈ ids → is_Some (t !! id)) →
  size (selected ids t) = length ids.
Proof using.
  intros Hnd Hin. unfold selected. apply size_selection; [done|]. intros k. split.
  - intros Hk. destruct (Hin k Hk) as [r Hr]. by exists r.
  - by intros (r & _ & Hk).
Qed.

Lemma lookup_update_selected ids f (t : PendingPayableTable) id :
  update_selected ids f t !! id = (if decide (id ∈ ids) then f <$> t !! id else t !! id).
Proof using. unfold update_selected. rewrite map_lookup_imap. by destruct (t !! id); cbn; case_decide. Qed.
End dao.
End Daos.
