(* ===== verification/Scanners.v ===== *)
(** * The scanners of the accountant

    Models [node/src/accountant/scanners/mod.rs] and [scanners_utils.rs] with
    [payment_adjuster.rs]: the scanner for payables, which chooses debts to pay
    and marks them as pending, the scanner for pending payables, which follows
    transactions until the block chain confirms them, and the scanner for
    receivables, which bans and unbans debtors and books what they paid.

    The scanners work on the tables of [AccountingTables.v].  A scanner's own
    state is the time its scan began.  Readings of the clock are arguments;
    texts of errors and logging are left out, and so is the obfuscation of the
    list of payables on its way through the bridge, which is undone at its end. *)
From S2P Require Import Prelude.
From S2P Require Import BigInt Thresholds AccountingTables.
From stdpp Require Import base list gmap strings.

Module Scanners.
Import Signed BigInt Time Thresholds Daos.
Local Open Scope Z_scope.

Record ResponseSkeleton := MkResponseSkeleton {
  client_id : Z;
  context_id : Z
}.

(** The answer to a scan that a user asked for: target and context. *)
Definition scan_response (response_skeleton_opt : option ResponseSkeleton) : option (Z * Z) :=
  (λ s, (client_id s, context_id s)) <$> response_skeleton_opt.

Inductive BeginScanError :=
| NothingToProcess
| NoConsumingWalletFound
| ScanAlreadyRunning (timestamp : Z)
| CalledFromNullScanner.

(** [signal_scanner_completion]; a scan that was not begun is only logged. *)
Definition signal_scanner_completion (initiated_at_opt : option Z) (now : Z) : run (option Z) :=
  match initiated_at_opt with
  | Some timestamp => _ ← expect (duration_since now timestamp); Ret None
  | None => Ret None
  end.

(** ** Payables: which debts are paid *)

Record QualifiedPayablesMessage := MkQualifiedPayables {
  qualified_payables : list PayableAccount;
  qp_consuming_wallet : Z;
  qp_response_skeleton_opt : option ResponseSkeleton
}.

Definition payable_exceeded_threshold (pt : PaymentThresholds) (payable : PayableAccount) (now : Z) : run (option Z) :=
  debt_age ← expect (duration_since now (pa_last_paid_timestamp payable));
  let debt_age := as_secs debt_age in
  if is_innocent_age debt_age (maturity_threshold_sec pt) then Ret None
  else if is_innocent_balance (pa_balance_wei payable) (gwei_to_wei (permanent_debt_allowed_gwei pt)) then Ret None
  else
    threshold ← calculate_payout_threshold_in_gwei pt debt_age;
    Ret (if threshold <? pa_balance_wei payable then Some threshold else None).

(** The clock is read once for each account. *)
Fixpoint sniff_out_alarming_payables (pt : PaymentThresholds) (clock : nat → Z) (non_pending_payables : list PayableAccount)
    : run (list PayableAccount) :=
  match non_pending_payables with
  | [] => Ret []
  | account :: rest =>
      threshold_point ← payable_exceeded_threshold pt account (clock 0%nat);
      qualified ← sniff_out_alarming_payables pt (λ n, clock (S n)) rest;
      Ret (match (threshold_point : option Z) with Some _ => account :: qualified | None => qualified end)
  end.

Section scanners.
Context (rows : ∀ A, gmap Z A → list (Z * A)).

Definition payable_begin_scan (pt : PaymentThresholds) (initiated_at_opt : option Z) (consuming_wallet timestamp : Z)
    (response_skeleton_opt : option ResponseSkeleton) (clock : nat → Z) (ended : Z) (t : PayableTable)
    : run (option Z * result BeginScanError QualifiedPayablesMessage) :=
  match initiated_at_opt with
  | Some started => Ret (initiated_at_opt, Err (ScanAlreadyRunning started))
  | None =>
      all_non_pending_payables ← non_pending_payables rows t;
      qualified_payables ← sniff_out_alarming_payables pt clock all_non_pending_payables;
      match qualified_payables with
      | [] => initiated ← signal_scanner_completion (Some timestamp) ended; Ret (initiated, Err NothingToProcess)
      | _ => Ret (Some timestamp, Ok (MkQualifiedPayables qualified_payables consuming_wallet response_skeleton_opt))
      end
  end.

(** ** Payables: what became of the payments *)

Record PendingPayable := MkPendingPayable {
  recipient_wallet : Z;
  pp_hash : Z
}.

Inductive ProcessedPayableFallible :=
| Correct (p : PendingPayable)
| Failed (recipient_wallet hash : Z).

Inductive PayableTransactionError :=
| MissingConsumingWallet
| GasPriceQueryFailed
| TransactionID
| UnusableWallet
| Signing
| Sending (hashes : list Z)
| UninitializedBlockchainInterface.

Inductive PayableTransactingErrorEnum :=
| LocallyCausedError (e : PayableTransactionError)
| RemotelyCausedErrors (hashes : list Z).

Definition fold_guts (acc : list PendingPayable * list Z) (rpc_result : ProcessedPayableFallible)
    : list PendingPayable * list Z :=
  match rpc_result with
  | Correct pending_payable => (acc.1 ++ [pending_payable], acc.2)
  | Failed _ hash => (acc.1, acc.2 ++ [hash])
  end.

Definition separate_rpc_results (batch_request_responses : list ProcessedPayableFallible)
    : list PendingPayable * option (list Z) :=
  let '(oks, errs) := foldl fold_guts ([], []) batch_request_responses in
  (oks, match errs with [] => None | _ => Some errs end).

Definition separate_errors (payment_procedure_result : result PayableTransactionError (list ProcessedPayableFallible))
    : run (list PendingPayable * option PayableTransactingErrorEnum) :=
  match payment_procedure_result with
  | Ok [] => Panic
  | Ok individual_batch_responses =>
      let '(oks, err_hashes_opt) := separate_rpc_results individual_batch_responses in
      Ret (oks, RemotelyCausedErrors <$> err_hashes_opt)
  | Err e => Ret ([], Some (LocallyCausedError e))
  end.

Definition count_total_errors (full_set_of_errors : option PayableTransactingErrorEnum) : option nat :=
  match full_set_of_errors with
  | Some (LocallyCausedError (Sending hashes)) => Some (length hashes)
  | Some (LocallyCausedError _) => None
  | Some (RemotelyCausedErrors hashes) => Some (length hashes)
  | None => Some 0%nat
  end.

(** Recipient, hash and row number. *)
Record PendingPayableMetadata := MkMetadata {
  recipient : Z;
  md_hash : Z;
  rowid_opt : option Z
}.

(** Takes the wallets of hashes out of the map, one after the other. *)
Fixpoint take_wallets (wanted : list (Z * option Z)) (wallets : gmap Z Z)
    : run (list PendingPayableMetadata * gmap Z Z) :=
  match wanted with
  | [] => Ret ([], wallets)
  | (hash, rowid) :: rest =>
      wallet ← expect (wallets !! hash);
      '(metadata, wallets) ← take_wallets rest (delete hash wallets);
      Ret (MkMetadata wallet hash rowid :: metadata, wallets)
  end.

Definition separate_existent_and_nonexistent_fingerprints (sent_payables : list PendingPayable) (pending : PendingPayableTable)
    : run (list PendingPayableMetadata * list PendingPayableMetadata) :=
  let hashes := pp_hash <$> sent_payables in
  let sent_payables_hashmap : gmap Z Z := foldl (λ m payable, <[pp_hash payable := recipient_wallet payable]> m) ∅ sent_payables in
  let transaction_hashes := fingerprints_rowids rows hashes pending in
  let hashes_from_db : gset Z :=
    list_to_set (rowid_results transaction_hashes).*2 ∪ list_to_set (no_rowid_results transaction_hashes) in
  let sent_payables_hashes : gset Z := list_to_set hashes in
  if decide (sent_payables_hashes = hashes_from_db) then
    '(with_rowid, wallets) ← take_wallets ((λ rh, (rh.2, Some rh.1)) <$> rowid_results transaction_hashes) sent_payables_hashmap;
    '(without_rowid, _) ← take_wallets ((λ h, (h, None)) <$> no_rowid_results transaction_hashes) wallets;
    Ret (with_rowid, without_rowid)
  else Panic.

Definition ready_data_for_supply (existent : list PendingPayableMetadata) : run (list (Z * Z)) :=
  run_map (λ m, rowid ← expect (rowid_opt m); Ret (recipient m, rowid)) existent.

Definition mark_pending_payable (sent_payments : list PendingPayable) (pending : PendingPayableTable) (t : PayableTable)
    : run PayableTable :=
  '(existent, nonexistent) ← separate_existent_and_nonexistent_fingerprints sent_payments pending;
  mark_pp_input_data ← ready_data_for_supply existent;
  t ← match mark_pp_input_data with
      | [] => Ret t
      | _ => '(t, res) ← mark_pending_payables_rowids mark_pp_input_data t; _ ← expect_ok res; Ret t
      end;
  match nonexistent with [] => Ret t | _ => Panic end.

Definition discard_failed_transactions_with_possible_fingerprints (hashes_of_failed : list Z) (pending : PendingPayableTable)
    : run PendingPayableTable :=
  let existent_and_nonexistent := fingerprints_rowids rows hashes_of_failed pending in
  pending ← match rowid_results existent_and_nonexistent with
            | [] => Ret pending
            | rowids => '(pending, res) ← delete_fingerprints rowids.*1 pending; _ ← expect_ok res; Ret pending
            end;
  match no_rowid_results existent_and_nonexistent with [] => Ret pending | _ => Panic end.

Definition handle_sent_payable_errors (err_opt : option PayableTransactingErrorEnum) (pending : PendingPayableTable)
    : run PendingPayableTable :=
  match err_opt with
  | Some (LocallyCausedError (Sending hashes)) | Some (RemotelyCausedErrors hashes) =>
      discard_failed_transactions_with_possible_fingerprints hashes pending
  | Some _ | None => Ret pending
  end.

Record SentPayables := MkSentPayables {
  payment_procedure_result : result PayableTransactionError (list ProcessedPayableFallible);
  sp_response_skeleton_opt : option ResponseSkeleton
}.

Definition payable_finish_scan (initiated_at_opt : option Z) (message : SentPayables) (ended : Z)
    (pending : PendingPayableTable) (t : PayableTable)
    : run (option Z * PendingPayableTable * PayableTable * option (Z * Z)) :=
  '(sent_payables, err_opt) ← separate_errors (payment_procedure_result message);
  t ← match sent_payables with [] => Ret t | _ => mark_pending_payable sent_payables pending t end;
  pending ← handle_sent_payable_errors err_opt pending;
  initiated ← signal_scanner_completion initiated_at_opt ended;
  Ret (initiated, pending, t, scan_response (sp_response_skeleton_opt message)).

(** The payment adjuster does not ask for adjustments yet; the agent is not
    looked at. *)
Inductive Adjustment := MasqToken | TransactionFeeCurrency (limiting_count : Z) | Both.

Record BlockchainAgentWithContextMessage := MkAgentMessage {
  am_qualified_payables : list PayableAccount;
  am_response_skeleton_opt : option ResponseSkeleton
}.

Record OutboundPaymentsInstructions := MkInstructions {
  affordable_accounts : list PayableAccount;
  oi_response_skeleton_opt : option ResponseSkeleton
}.

Definition search_for_indispensable_adjustment (msg : BlockchainAgentWithContextMessage) : option Adjustment := None.

Definition adjust_payments (msg : BlockchainAgentWithContextMessage) (adjustment : Adjustment)
    : run OutboundPaymentsInstructions := Panic.

Definition try_skipping_payment_adjustment (msg : BlockchainAgentWithContextMessage)
    : OutboundPaymentsInstructions + BlockchainAgentWithContextMessage * Adjustment :=
  match search_for_indispensable_adjustment msg with
  | None => inl (MkInstructions (am_qualified_payables msg) (am_response_skeleton_opt msg))
  | Some adjustment => inr (msg, adjustment)
  end.

(** ** Pending payables *)

Record RequestTransactionReceipts := MkReceiptsRequest {
  pending_payable : list PendingPayableFingerprint;
  rr_response_skeleton_opt : option ResponseSkeleton
}.

Definition pending_payable_begin_scan (initiated_at_opt : option Z) (timestamp : Z)
    (response_skeleton_opt : option ResponseSkeleton) (ended : Z) (pending : PendingPayableTable)
    : run (option Z * result BeginScanError RequestTransactionReceipts) :=
  match initiated_at_opt with
  | Some started => Ret (initiated_at_opt, Err (ScanAlreadyRunning started))
  | None =>
      filtered_pending_payable ← return_all_errorless_fingerprints rows pending;
      match filtered_pending_payable with
      | [] => initiated ← signal_scanner_completion (Some timestamp) ended; Ret (initiated, Err NothingToProcess)
      | _ => Ret (Some timestamp, Ok (MkReceiptsRequest filtered_pending_payable response_skeleton_opt))
      end
  end.

Inductive TxStatus := TxFailed | TxPending | TxSucceeded (block_number : Z).

Inductive TransactionReceiptResult := RpcResponse (status : TxStatus) | LocalError.

Record PendingPayableScanReport := MkReport {
  still_pending : list PendingPayableId;
  failures : list PendingPayableId;
  confirmed : list PendingPayableFingerprint
}.

Definition id_of (fingerprint : PendingPayableFingerprint) : PendingPayableId :=
  MkPendingPayableId (fp_rowid fingerprint) (fp_hash fingerprint).

Definition handle_none_receipt (scan_report : PendingPayableScanReport) (payable : PendingPayableFingerprint)
    : PendingPayableScanReport :=
  MkReport (still_pending scan_report ++ [id_of payable]) (failures scan_report) (confirmed scan_report).

Definition handle_status_with_failure (scan_report : PendingPayableScanReport) (fingerprint : PendingPayableFingerprint)
    : PendingPayableScanReport :=
  MkReport (still_pending scan_report) (failures scan_report ++ [id_of fingerprint]) (confirmed scan_report).

Definition handle_status_with_success (scan_report : PendingPayableScanReport) (fingerprint : PendingPayableFingerprint)
    : PendingPayableScanReport :=
  MkReport (still_pending scan_report) (failures scan_report) (confirmed scan_report ++ [fingerprint]).

(** Gives up a transaction that is pending for too long; the scanner does not call it. *)
Definition handle_none_status (scan_report : PendingPayableScanReport) (fingerprint : PendingPayableFingerprint)
    (max_pending_interval now : Z) : run PendingPayableScanReport :=
  elapsed ← expect (duration_since now (fp_timestamp fingerprint));
  Ret (if max_pending_interval <? as_secs elapsed
       then MkReport (still_pending scan_report) (failures scan_report ++ [id_of fingerprint]) (confirmed scan_report)
       else MkReport (still_pending scan_report ++ [id_of fingerprint]) (failures scan_report) (confirmed scan_report)).

Definition handle_receipts_for_pending_transactions
    (fingerprints_with_receipts : list (TransactionReceiptResult * PendingPayableFingerprint)) : PendingPayableScanReport :=
  foldl (λ scan_report_so_far rf,
    match rf.1 with
    | RpcResponse TxPending => handle_none_receipt scan_report_so_far rf.2
    | RpcResponse TxFailed => handle_status_with_failure scan_report_so_far rf.2
    | RpcResponse (TxSucceeded _) => handle_status_with_success scan_report_so_far rf.2
    | LocalError => handle_none_receipt scan_report_so_far rf.2
    end) (MkReport [] [] []) fingerprints_with_receipts.

Fixpoint add_to_the_total_of_paid_payable (fingerprints : list PendingPayableFingerprint) (total : Z) : run Z :=
  match fingerprints with
  | [] => Ret total
  | fingerprint :: rest => total ← checked_u 128 (total + fp_amount fingerprint); add_to_the_total_of_paid_payable rest total
  end.

Definition confirm_transactions (fingerprints : list PendingPayableFingerprint) (pending : PendingPayableTable)
    (t : PayableTable) (total_paid : Z) : run (PendingPayableTable * PayableTable * Z) :=
  match fingerprints with
  | [] => Ret (pending, t, total_paid)
  | _ =>
      '(t, res) ← transactions_confirmed rows fingerprints t;
      _ ← expect_ok res;
      total_paid ← add_to_the_total_of_paid_payable fingerprints total_paid;
      '(pending, res) ← delete_fingerprints (fp_rowid <$> fingerprints) pending;
      _ ← expect_ok res;
      Ret (pending, t, total_paid)
  end.

Definition cancel_failed_transactions (ids : list PendingPayableId) (pending : PendingPayableTable) : run PendingPayableTable :=
  match ids with
  | [] => Ret pending
  | _ => '(pending, res) ← mark_failures (pid_rowid <$> ids) pending; _ ← expect_ok res; Ret pending
  end.

Definition update_remaining_fingerprints (ids : list PendingPayableId) (pending : PendingPayableTable) : run PendingPayableTable :=
  match ids with
  | [] => Ret pending
  | _ => '(pending, res) ← increment_scan_attempts (pid_rowid <$> ids) pending; _ ← expect_ok res; Ret pending
  end.

Definition process_transactions_by_reported_state (scan_report : PendingPayableScanReport) (pending : PendingPayableTable)
    (t : PayableTable) (total_paid : Z) : run (PendingPayableTable * PayableTable * Z) :=
  '(pending, t, total_paid) ← confirm_transactions (confirmed scan_report) pending t total_paid;
  pending ← cancel_failed_transactions (failures scan_report) pending;
  pending ← update_remaining_fingerprints (still_pending scan_report) pending;
  Ret (pending, t, total_paid).

Record ReportTransactionReceipts := MkReceipts {
  fingerprints_with_receipts : list (TransactionReceiptResult * PendingPayableFingerprint);
  rt_response_skeleton_opt : option ResponseSkeleton
}.

Definition pending_payable_finish_scan (initiated_at_opt : option Z) (message : ReportTransactionReceipts) (ended : Z)
    (pending : PendingPayableTable) (t : PayableTable) (total_paid : Z)
    : run (option Z * PendingPayableTable * PayableTable * Z * option (Z * Z)) :=
  '(pending, t, total_paid) ←
    match fingerprints_with_receipts message with
    | [] => Ret (pending, t, total_paid)
    | receipts =>
        process_transactions_by_reported_state (handle_receipts_for_pending_transactions receipts) pending t total_paid
    end;
  initiated ← signal_scanner_completion initiated_at_opt ended;
  Ret (initiated, pending, t, total_paid, scan_response (rt_response_skeleton_opt message)).

(** ** Receivables *)

Record RetrieveTransactions := MkRetrieveTransactions {
  rtx_recipient : Z;
  rtx_response_skeleton_opt : option ResponseSkeleton
}.

(** The numbers for the log; the balance must fit 64 bits as gwei. *)
Definition balance_and_age (time : Z) (account : ReceivableAccount) : run (Z * Z) :=
  balance ← wei_to_gwei (fits_i 64) (ra_balance_wei account);
  Ret (balance, from_option id 0 (duration_since time (ra_last_received_timestamp account))).

Fixpoint for_each_account (f : Z → Banned → Banned) (timestamp : Z) (accounts : list ReceivableAccount) (b : Banned) : run Banned :=
  match accounts with
  | [] => Ret b
  | account :: rest =>
      let b := f (ra_wallet account) b in
      _ ← balance_and_age timestamp account;
      for_each_account f timestamp rest b
  end.

Definition find_and_ban_delinquents (pt : PaymentThresholds) (timestamp : Z) (t : ReceivableTable) (b : Banned) : run Banned :=
  delinquents ← new_delinquencies rows timestamp pt (banned_table b) t;
  for_each_account ban timestamp delinquents b.

Definition find_and_unban_reformed_nodes (pt : PaymentThresholds) (timestamp : Z) (t : ReceivableTable) (b : Banned) : run Banned :=
  reformed ← paid_delinquencies rows pt (banned_table b) t;
  for_each_account unban timestamp reformed b.

Definition scan_for_delinquencies (pt : PaymentThresholds) (timestamp : Z) (t : ReceivableTable) (b : Banned) : run Banned :=
  b ← find_and_ban_delinquents pt timestamp t b;
  find_and_unban_reformed_nodes pt timestamp t b.

Definition receivable_begin_scan (pt : PaymentThresholds) (initiated_at_opt : option Z) (earning_wallet timestamp : Z)
    (response_skeleton_opt : option ResponseSkeleton) (t : ReceivableTable) (b : Banned)
    : run (option Z * Banned * result BeginScanError RetrieveTransactions) :=
  match initiated_at_opt with
  | Some started => Ret (initiated_at_opt, b, Err (ScanAlreadyRunning started))
  | None =>
      b ← scan_for_delinquencies pt timestamp t b;
      Ret (Some timestamp, b, Ok (MkRetrieveTransactions earning_wallet response_skeleton_opt))
  end.

Inductive BlockMarker := BlockUninitialized | BlockValue (n : Z).

Record ReceivedPayments := MkReceivedPayments {
  rp_timestamp : Z;
  new_start_block : BlockMarker;
  transactions : list BlockchainTransaction;
  rp_response_skeleton_opt : option ResponseSkeleton
}.

Fixpoint sum_wei (ps : list BlockchainTransaction) (so_far : Z) : run Z :=
  match ps with
  | [] => Ret so_far
  | p :: ps => so_far ← checked_u 128 (so_far + wei_amount p); sum_wei ps so_far
  end.

(** Payments and start block are written in one transaction. *)
Definition handle_new_received_payments (msg : ReceivedPayments) (t : ReceivableTable) (start_block : option Z) (total_paid : Z)
    : run (ReceivableTable * option Z * Z) :=
  match transactions msg with
  | [] => Ret (t, match new_start_block msg with BlockValue n => Some n | BlockUninitialized => start_block end, total_paid)
  | ps =>
      txn ← more_money_received (rp_timestamp msg) ps t;
      match new_start_block msg with
      | BlockUninitialized => Panic
      | BlockValue n =>
          total_newly_paid_receivable ← sum_wei ps 0;
          total_paid ← checked_u 128 (total_paid + total_newly_paid_receivable);
          Ret (txn, Some n, total_paid)
      end
  end.

Definition receivable_finish_scan (initiated_at_opt : option Z) (msg : ReceivedPayments) (ended : Z)
    (t : ReceivableTable) (start_block : option Z) (total_paid : Z)
    : run (option Z * ReceivableTable * option Z * Z * option (Z * Z)) :=
  '(t, start_block, total_paid) ← handle_new_received_payments msg t start_block total_paid;
  initiated ← signal_scanner_completion initiated_at_opt ended;
  Ret (initiated, t, start_block, total_paid, scan_response (rp_response_skeleton_opt msg)).

(** ** Bans *)

Context (Hrows : ∀ A (t : gmap Z A), rows A t ≡ₚ map_to_list t).

Definition banned_ok (b : Banned) : Prop := ban_cache b = banned_table b.

Lemma ban_ok w b : banned_ok b → banned_ok (ban w b) ∧ banned_table (ban w b) = banned_table b ∪ {[w]}.
Proof using.
  unfold banned_ok. clear. destruct b as [table cache]. cbn. intros ->. unfold ban, is_banned. cbn.
  case_bool_decide as E; [split; [done|set_solver]|]. case_decide; [done|]. cbn. split; [done|set_solver].
Qed.

Lemma unban_ok w b : banned_ok b → banned_ok (unban w b) ∧ banned_table (unban w b) = banned_table b ∖ {[w]}.
Proof using.
  unfold banned_ok. clear. destruct b as [table cache]. cbn. intros ->. unfold unban, is_banned. cbn.
  case_bool_decide as E; cbn; split; [done|done|done|set_solver].
Qed.

Lemma balance_and_age_ok time kr : r_row_ok kr.2 → ∃ x, balance_and_age time (receivable_account kr) = Ret x.
Proof using.
  intros [_ Hb _]. unfold balance_and_age, wei_to_gwei. cbn [receivable_account ra_balance_wei].
  rewrite checked_conversion_ok; [by eexists|]. apply fits_i_spec. unfold MONEY, WEIS_IN_GWEI in *.
  change (2 ^ (64 - 1)) with (2 ^ 63). Z.to_euclidean_division_equations. lia.
Qed.

Lemma for_each_ban accounts timestamp b : banned_ok b → (∀ kr, kr ∈ accounts → r_row_ok kr.2) →
  ∃ b', for_each_account ban timestamp (receivable_account <$> accounts) b = Ret b' ∧ banned_ok b' ∧
    ∀ w, w ∈ banned_table b' ↔ w ∈ banned_table b ∨ w ∈ accounts.*1.
Proof using.
  clear. revert b. induction accounts as [|kr accounts IH]; intros b Hb Hok; [exists b; set_solver|].
  cbn [fmap list_fmap for_each_account]. destruct (ban_ok kr.1 b Hb) as [Hb1 Ht1].
  destruct (balance_and_age_ok timestamp kr) as [x ->]; [apply Hok; by left|]. cbn [mbind run_bind].
  destruct (IH (ban kr.1 b) Hb1) as (b' & Heq & Hb' & Hin); [intros; apply Hok; by right|].
  exists b'. split; [exact Heq|]. split; [done|]. intros w. rewrite Hin, Ht1. set_solver.
Qed.

Lemma for_each_unban accounts timestamp b : banned_ok b → (∀ kr, kr ∈ accounts → r_row_ok kr.2) →
  ∃ b', for_each_account unban timestamp (receivable_account <$> accounts) b = Ret b' ∧ banned_ok b' ∧
    ∀ w, w ∈ banned_table b' ↔ w ∈ banned_table b ∧ w ∉ accounts.*1.
Proof using.
  clear. revert b. induction accounts as [|kr accounts IH]; intros b Hb Hok; [exists b; set_solver|].
  cbn [fmap list_fmap for_each_account]. destruct (unban_ok kr.1 b Hb) as [Hb1 Ht1].
  destruct (balance_and_age_ok timestamp kr) as [x ->]; [apply Hok; by left|]. cbn [mbind run_bind].
  destruct (IH (unban kr.1 b) Hb1) as (b' & Heq & Hb' & Hin); [intros; apply Hok; by right|].
  exists b'. split; [exact Heq|]. split; [done|]. intros w. rewrite Hin, Ht1. set_solver.
Qed.

Lemma visited_fst (P : Z * ReceivableRow → Prop) `{∀ x, Decision (P x)} (t : ReceivableTable) w :
  w ∈ (filter P (rows _ t)).*1 ↔ ∃ r, t !! w = Some r ∧ P (w, r).
Proof using Hrows.
  rewrite list_elem_of_fmap. split.
  - intros ([w' r] & -> & [HP Hin]%list_elem_of_filter). apply (visited rows Hrows) in Hin. by exists r.
  - intros (r & Hr & HP). exists (w, r). split; [done|]. apply list_elem_of_filter. split; [done|]. by apply (visited rows Hrows).
Qed.

Lemma scan_for_delinquencies_ok pt timestamp t b :
  thresholds_ok pt → gwei_to_wei (permanent_debt_allowed_gwei pt) < 2 ^ 63 → receivables_ok t → valid_time timestamp → banned_ok b →
  ∃ b', scan_for_delinquencies pt timestamp t b = Ret b' ∧ banned_ok b' ∧
    ∀ w, w ∈ banned_table b' ↔
      (w ∈ banned_table b ∨ ∃ r, t !! w = Some r ∧ delinquent pt (timestamp / NANOS) (banned_table b) (w, r)) ∧
      ¬ (∃ r, t !! w = Some r ∧ r_balance r ≤ gwei_to_wei (unban_below_gwei pt)).
Proof using Hrows.
  intros Hpt Hperm Ht Hts Hb. unfold scan_for_delinquencies, find_and_ban_delinquents.
  rewrite (new_delinquencies_ok rows Hrows) by done. cbn [mbind run_bind].
  assert (Hok : ∀ P `{∀ x : Z * ReceivableRow, Decision (P x)} kr, kr ∈ filter P (rows _ t) → r_row_ok kr.2).
  { intros P HP [w r] [_ Hin]%list_elem_of_filter. apply (visited rows Hrows) in Hin. by eapply Ht. }
  destruct (for_each_ban (filter (delinquent pt (timestamp / NANOS) (banned_table b)) (rows _ t)) timestamp b Hb) as (b1 & -> & Hb1 & Hin1);
    [by apply Hok|]. cbn [mbind run_bind]. unfold find_and_unban_reformed_nodes.
  rewrite (paid_delinquencies_ok rows Hrows) by done. cbn [mbind run_bind].
  destruct (for_each_unban (filter (reformed pt (banned_table b1)) (rows _ t)) timestamp b1 Hb1) as (b' & -> & Hb' & Hin');
    [by apply Hok|]. exists b'. split; [done|]. split; [done|]. intros w. pose proof (Hin1 w) as H1. rewrite visited_fst in H1.
  rewrite Hin', visited_fst. unfold reformed. cbn [fst snd]. clear -H1. naive_solver.
Qed.

(** ** Which debts are paid *)

Definition debt_age (now last : Z) : Z := (now - last) / NANOS.

Definition alarming (pt : PaymentThresholds) (now : Z) (a : PayableAccount) : Prop :=
  let age := debt_age now (pa_last_paid_timestamp a) in
  maturity_threshold_sec pt < age ∧
  gwei_to_wei (permanent_debt_allowed_gwei pt) < pa_balance_wei a ∧ limit pt age < pa_balance_wei a.

Global Instance alarming_dec pt now a : Decision (alarming pt now a).
Proof using. unfold alarming. apply _. Defined.

Lemma debt_age_range now last : valid_time now → valid_time last → last ≤ now → 0 ≤ debt_age now last < 2 ^ 63.
Proof using.
  clear. unfold valid_time, debt_age, NANOS. intros Hn Hl Hle.
  split; [apply Z.div_pos; lia|apply Z.div_lt_upper_bound; lia].
Qed.

Lemma payable_exceeded_threshold_ok pt a now :
  thresholds_ok pt → valid_time now → valid_time (pa_last_paid_timestamp a) → pa_last_paid_timestamp a ≤ now →
  payable_exceeded_threshold pt a now =
    Ret (if decide (alarming pt now a) then Some (limit pt (debt_age now (pa_last_paid_timestamp a))) else None).
Proof using.
  clear. intros Hpt Hnow Hlast Hle. pose proof (debt_age_range now _ Hnow Hlast Hle) as Hage.
  unfold payable_exceeded_threshold, duration_since, as_secs, alarming. cbv zeta.
  destruct (pa_last_paid_timestamp a <=? now) eqn:E; [|b2p; lia]. cbn [expect mbind run_bind].
  fold (debt_age now (pa_last_paid_timestamp a)). set (age := debt_age now _) in *.
  unfold is_innocent_age, is_innocent_balance, calculate_payout_threshold_in_gwei.
  destruct (age <=? maturity_threshold_sec pt) eqn:E1; b2p; [rewrite decide_False by lia; done|].
  destruct (pa_balance_wei a <=? _) eqn:E2; b2p; [rewrite decide_False by lia; done|].
  rewrite limit_ok by (done || lia). cbn [mbind run_bind].
  destruct (limit pt age <? pa_balance_wei a) eqn:E3; b2p; case_decide; try done; lia.
Qed.

(** A debt stays alarming. *)
Lemma alarming_later pt now now' a : thresholds_ok pt → now ≤ now' → alarming pt now a → alarming pt now' a.
Proof using.
  clear. unfold alarming. intros Hpt Hle (Hm & Hp & Hl). 
  assert (debt_age now (pa_last_paid_timestamp a) ≤ debt_age now' (pa_last_paid_timestamp a))
    by (unfold debt_age, NANOS; apply Z.div_le_mono; lia).
  pose proof (limit_falls pt Hpt _ _ (conj (Z.lt_le_incl _ _ Hm) H)). lia.
Qed.

(** C12: nobody is banned without notice, under valid thresholds that allow a
    permanent debt of less than 2^63 wei (above that the query compares the wrong
    column, and [large_permanent_debt_misjudged] shows a ban for a debt that is
    allowed for ever). When a creditor's query for new delinquencies finds an
    account, then a debtor who keeps the same balance and the same time of the
    last payment, under the same thresholds, has had this debt among those that
    its own scanner pays at every moment of the whole grace period before: the two
    sides compute their limits with different code (on pairs of database columns,
    and on a line through the thresholds), and the creditor's is never the
    stricter one earlier than the grace period allows. *)
Theorem delinquency_has_notice pt now banned t found account moment :
  thresholds_ok pt → gwei_to_wei (permanent_debt_allowed_gwei pt) < 2 ^ 63 → receivables_ok t → valid_time now →
  new_delinquencies rows now pt banned t = Ret found → account ∈ found →
  now - payment_grace_period_sec pt * NANOS ≤ moment → valid_time moment →
  ∃ point, payable_exceeded_threshold pt
    (MkPayableAccount (ra_wallet account) (ra_balance_wei account) (ra_last_received_timestamp account) None) moment
    = Ret (Some point) ∧ point < ra_balance_wei account.
Proof using Hrows.
  intros Hpt Hperm Ht Hnow Hq Hin Hle Hmoment. rewrite (new_delinquencies_ok rows Hrows) in Hq by done. injection Hq as <-.
  apply list_elem_of_fmap in Hin as ([w r] & -> & [Hdel Hin]%list_elem_of_filter). apply (visited rows Hrows) in Hin.
  destruct Hdel as (Hage & Hlim & Hbal & _). cbn [fst snd receivable_account ra_wallet ra_balance_wei ra_last_received_timestamp] in *.
  destruct (Ht _ _ Hin) as [_ _ Htime]. set (a := MkPayableAccount _ _ _ _).
  assert (Hlast : valid_time (pa_last_paid_timestamp a)) by (unfold valid_time, a; cbn; unfold NANOS; lia).
  set (before := now - payment_grace_period_sec pt * NANOS) in *.
  assert (Hda : debt_age before (pa_last_paid_timestamp a) =
                maturity_threshold_sec pt + (now / NANOS - maturity_threshold_sec pt - payment_grace_period_sec pt - last_received_timestamp r)).
  { unfold debt_age, before, a. cbn [pa_last_paid_timestamp].
    replace (now - payment_grace_period_sec pt * NANOS - last_received_timestamp r * NANOS)
      with (now + (- payment_grace_period_sec pt - last_received_timestamp r) * NANOS) by lia.
    rewrite Z.div_add by (unfold NANOS; lia). lia. }
  assert (Halarm : alarming pt before a).
  { unfold alarming. rewrite Hda. cbn [pa_balance_wei a]. unfold limit. split; [lia|]. split; [done|].
    case_match; [done|]. eapply Z.le_lt_trans; [|exact Hlim]. apply Z.eq_le_incl. f_equal. f_equal. lia. }
  assert (Hpast : pa_last_paid_timestamp a ≤ moment).
  { destruct Halarm as [Hm _]. pose proof Hpt as [_ _ _ [Hm0 _] _ _ _]. unfold debt_age in Hm.
    assert (0 ≤ (before - pa_last_paid_timestamp a) / NANOS) as Hdiv by lia.
    destruct (Z.le_gt_cases (pa_last_paid_timestamp a) before); [lia|].
    assert ((before - pa_last_paid_timestamp a) / NANOS < 0) by (apply Z.div_lt_upper_bound; unfold NANOS; lia). lia. }
  pose proof (alarming_later pt before moment a Hpt Hle Halarm) as Hlater.
  exists (limit pt (debt_age moment (pa_last_paid_timestamp a))).
  rewrite payable_exceeded_threshold_ok by done. rewrite decide_True by done. split; [done|apply Hlater].
Qed.

(** ** Marking payments that were sent *)

Lemma NoDup_fmap_eq {A B} (f : A → B) (l : list A) x y : NoDup (f <$> l) → x ∈ l → y ∈ l → f x = f y → x = y.
Proof using.
  clear. induction l as [|z l IH]; [set_solver|]. cbn. intros [Hni Hnd]%NoDup_cons [->|Hx]%elem_of_cons [->|Hy]%elem_of_cons Heq; try done.
  - destruct Hni. rewrite Heq. by apply list_elem_of_fmap_2.
  - destruct Hni. rewrite <- Heq. by apply list_elem_of_fmap_2.
  - by apply IH.
Qed.

(** A fingerprint with the hash is in the table. *)
Definition has_fingerprint (pending : PendingPayableTable) (hash rowid : Z) : Prop :=
  ∃ f, pending !! rowid = Some f ∧ transaction_hash f = hash.

Lemma take_wallets_ok wanted (g : Z → Z) (m : gmap Z Z) :
  NoDup wanted.*1 → (∀ h o, (h, o) ∈ wanted → m !! h = Some (g h)) →
  ∃ rest, take_wallets wanted m = Ret ((λ x, MkMetadata (g x.1) x.1 x.2) <$> wanted, rest).
Proof using.
  clear. revert m. induction wanted as [|[h o] wanted IH]; intros m Hnd Hm; [by eexists|].
  cbn in Hnd. apply NoDup_cons in Hnd as [Hni Hnd]. cbn [take_wallets]. rewrite (Hm h o) by (by left). cbn [expect mbind run_bind].
  destruct (IH (delete h m) Hnd) as [rest ->]; [|by eexists].
  intros h' o' Hin. rewrite lookup_delete_ne; [by eapply Hm; right|]. intros <-. apply Hni. by apply (list_elem_of_fmap_2 fst _ (h, o')).
Qed.

Lemma sent_hashmap sent (m : gmap Z Z) p : NoDup (pp_hash <$> sent) → p ∈ sent →
  foldl (λ m payable, <[pp_hash payable := recipient_wallet payable]> m) m sent !! pp_hash p = Some (recipient_wallet p).
Proof using.
  clear. intros Hnd Hin. revert m. induction sent as [|q sent IH]; intros m; [set_solver|].
  cbn in Hnd. apply NoDup_cons in Hnd as [Hni Hnd]. cbn [foldl]. apply elem_of_cons in Hin as [->|Hin]; [|by apply IH].
  assert (Hother : ∀ (l : list PendingPayable) (m : gmap Z Z), pp_hash q ∉ pp_hash <$> l →
    foldl (λ m payable, <[pp_hash payable := recipient_wallet payable]> m) m l !! pp_hash q = m !! pp_hash q).
  { clear. intros l. induction l as [|x l IH]; intros m Hl; [done|]. cbn in Hl. apply not_elem_of_cons in Hl as [Hx Hl]. cbn.
    rewrite IH by done. by rewrite lookup_insert_ne. }
  rewrite Hother by done. apply lookup_insert_eq.
Qed.

Lemma found_records hashes (pending : PendingPayableTable) : fingerprints_ok pending → NoDup hashes →
  (∀ h, h ∈ hashes → ∃ id, has_fingerprint pending h id) →
  ∃ found, fingerprints_rowids rows hashes pending = MkTransactionHashes found [] ∧ NoDup found.*1 ∧ NoDup found.*2 ∧
    found.*2 ≡ₚ hashes ∧ ∀ id h, (id, h) ∈ found ↔ h ∈ hashes ∧ has_fingerprint pending h id.
Proof using Hrows.
  intros [_ Huniq] Hnd Hall. unfold fingerprints_rowids. set (found := _ <$> filter _ (rows _ pending)).
  assert (Hin : ∀ id h, (id, h) ∈ found ↔ h ∈ hashes ∧ has_fingerprint pending h id).
  { intros id h. unfold found, has_fingerprint. rewrite list_elem_of_fmap. split.
    - intros ([id' f] & [= -> ->] & [Hh Hv]%list_elem_of_filter). apply (visited rows Hrows) in Hv. split; [done|]. by exists f.
    - intros (Hh & f & Hf & <-). exists (id, f). split; [done|]. apply list_elem_of_filter. split; [done|]. by apply (visited rows Hrows). }
  assert (Hnd1 : NoDup found.*1).
  { unfold found. rewrite <- list_fmap_compose. eapply (sublist_NoDup _ (rows _ pending).*1).
    - rewrite (Hrows _ pending). apply NoDup_fst_map_to_list.
    - apply fmap_sublist, sublist_filter. }
  assert (Hnd2 : NoDup found.*2).
  { apply NoDup_fmap_2_strong; [|by eapply NoDup_fmap_1]. intros [i1 h1] [i2 h2] H1 H2 Heq. cbn in Heq. subst h2.
    apply Hin in H1 as (_ & f1 & Hf1 & Hh1), H2 as (_ & f2 & Hf2 & Hh2). f_equal. eapply Huniq; [done..|]. congruence. }
  assert (Hset : ∀ h, h ∈ found.*2 ↔ h ∈ hashes).
  { intros h. rewrite list_elem_of_fmap. split.
    - intros ([id h'] & -> & Hi). by apply Hin in Hi as [? _].
    - intros Hh. destruct (Hall h Hh) as [id Hid]. exists (id, h). split; [done|]. by apply Hin. }
  exists found. split; [|split; [done|split; [done|split; [|done]]]].
  - f_equal. apply filter_none. intros h Hh. rewrite elem_of_list_to_set, Hset. tauto.
  - by apply NoDup_Permutation.
Qed.

Lemma ready_data_ok (g : Z → Z) (found : list (Z * Z)) :
  ready_data_for_supply ((λ x, MkMetadata (g x.2) x.2 (Some x.1)) <$> found) = Ret ((λ rh, (g rh.2, rh.1)) <$> found).
Proof using.
  clear. unfold ready_data_for_supply. induction found as [|[id h] found IH]; [done|].
  cbn [fmap list_fmap run_map rowid_opt expect mbind run_bind]. cbn in IH. by rewrite IH.
Qed.

Lemma mark_pending_payable_ok sent pending t : fingerprints_ok pending → sent ≠ [] →
  NoDup (pp_hash <$> sent) → NoDup (recipient_wallet <$> sent) →
  (∀ p, p ∈ sent → (∃ id, has_fingerprint pending (pp_hash p) id) ∧
                   ∃ r, t !! recipient_wallet p = Some r ∧ pending_payable_rowid r = None) →
  ∃ ps, mark_pending_payable sent pending t = Ret (mark ps t) ∧ NoDup ps.*1 ∧ NoDup ps.*2 ∧
    ∀ w id, (w, id) ∈ ps ↔ ∃ p, p ∈ sent ∧ w = recipient_wallet p ∧ has_fingerprint pending (pp_hash p) id.
Proof using Hrows.
  intros Hok Hne Hnd Hndw Hsent. unfold mark_pending_payable, separate_existent_and_nonexistent_fingerprints.
  destruct (found_records (pp_hash <$> sent) pending Hok Hnd) as (found & -> & Hnd1 & Hnd2 & Hperm & Hin).
  { intros h (p & -> & Hp)%list_elem_of_fmap. by apply Hsent. }
  cbn [rowid_results no_rowid_results]. rewrite decide_True by (rewrite Hperm; set_solver).
  set (m := foldl _ ∅ sent). set (g := λ h, default 0 (m !! h)).
  assert (Hg : ∀ p, p ∈ sent → m !! pp_hash p = Some (recipient_wallet p)) by (intros p Hp; by apply sent_hashmap).
  destruct (take_wallets_ok ((λ rh, (rh.2, Some rh.1)) <$> found) g m) as [rest ->].
  { by rewrite <- list_fmap_compose. }
  { intros h o ([id h'] & [= -> ->] & [(p & -> & Hp)%list_elem_of_fmap _]%Hin)%list_elem_of_fmap. unfold g. by rewrite (Hg p Hp). }
  cbn [mbind run_bind fmap list_fmap take_wallets]. rewrite <- list_fmap_compose.
  match goal with |- context [ready_data_for_supply ?l] => change (ready_data_for_supply l) with
    (ready_data_for_supply ((λ x : Z * Z, MkMetadata (g x.2) x.2 (Some x.1)) <$> found)) end.
  rewrite ready_data_ok. set (ps := (λ rh : Z * Z, (g rh.2, rh.1)) <$> found). cbn [mbind run_bind].
  assert (Hps : ∀ w id, (w, id) ∈ ps ↔ ∃ p, p ∈ sent ∧ w = recipient_wallet p ∧ has_fingerprint pending (pp_hash p) id).
  { intros w id. unfold ps. rewrite list_elem_of_fmap. split.
    - intros ([id' h] & [= -> ->] & [(p & -> & Hp)%list_elem_of_fmap Hf]%Hin). exists p. unfold g. by rewrite (Hg p Hp).
    - intros (p & Hp & -> & Hf). exists (id, pp_hash p). cbn. unfold g. rewrite (Hg p Hp). split; [done|].
      apply Hin. split; [by apply list_elem_of_fmap_2|done]. }
  assert (Hpsnd : NoDup ps.*1).
  { unfold ps. rewrite <- list_fmap_compose. apply NoDup_fmap_2_strong; [|by eapply NoDup_fmap_1].
    intros [i1 h1] [i2 h2] [(p1 & -> & Hp1)%list_elem_of_fmap Hf1]%Hin [(p2 & -> & Hp2)%list_elem_of_fmap Hf2]%Hin Heq.
    cbn in Heq. unfold g in Heq. rewrite (Hg p1 Hp1), (Hg p2 Hp2) in Heq. cbn in Heq.
    assert (p1 = p2) as -> by (by eapply (NoDup_fmap_eq recipient_wallet sent)). f_equal.
    destruct Hf1 as (f1 & Hf1 & Hh1), Hf2 as (f2 & Hf2 & Hh2). eapply (fs_unique _ Hok); [done..|congruence]. }
  exists ps. split; [|split; [done|split; [by unfold ps; rewrite <- list_fmap_compose|done]]].
  destruct ps as [|p0 ps0] eqn:Eps.
  { destruct sent as [|p sent']; [done|]. destruct (Hsent p ltac:(by left)) as [[id Hid] _].
    assert (Hempty : (recipient_wallet p, id) ∈ []) by (apply Hps; exists p; split; [by left|done]). by apply elem_of_nil in Hempty. }
  rewrite <- Eps in *. rewrite mark_ok; [done|by rewrite Eps|done|].
  intros w id (p & Hp & -> & f & Hf & _)%Hps. split; [|by apply Hsent].
  apply fits_i_spec. pose proof (fo_rowid _ _ (fs_rows _ Hok _ _ Hf)). cbn. lia.
Qed.

(** ** Forgetting payments that failed *)

Lemma discard_ok hashes (pending : PendingPayableTable) : fingerprints_ok pending → NoDup hashes →
  (∀ h, h ∈ hashes → ∃ id, has_fingerprint pending h id) →
  discard_failed_transactions_with_possible_fingerprints hashes pending =
    Ret (filter (λ kr, transaction_hash kr.2 ∉ hashes) pending).
Proof using Hrows.
  intros Hok Hnd Hall. unfold discard_failed_transactions_with_possible_fingerprints.
  destruct (found_records hashes pending Hok Hnd Hall) as (found & -> & Hnd1 & _ & Hperm & Hin).
  cbn [rowid_results no_rowid_results].
  assert (Hids : ∀ id, id ∈ found.*1 ↔ ∃ f, pending !! id = Some f ∧ transaction_hash f ∈ hashes).
  { intros id. rewrite list_elem_of_fmap. split.
    - intros ([id' h] & -> & (Hh & f & Hf & <-)%Hin). by exists f.
    - intros (f & Hf & Hh). exists (id, transaction_hash f). split; [done|]. apply Hin. split; [done|]. by exists f. }
  assert (Hsame : filter (λ kr, kr.1 ∉ found.*1) pending = filter (λ kr, transaction_hash kr.2 ∉ hashes) pending).
  { apply map_filter_ext. intros id f Hf. cbn. rewrite Hids. split; [|naive_solver]. intros Hn Hh. apply Hn. by exists f. }
  destruct found as [|x found0] eqn:E; cbn [mbind run_bind].
  - cbn in Hsame. rewrite <- Hsame. f_equal. symmetry. apply map_filter_id. intros id f _. apply not_elem_of_nil.
  - rewrite <- E in *. unfold delete_fingerprints. rewrite selected_size, Nat.eqb_refl by
      (done || (intros id Hid; apply Hids in Hid as (f & Hf & _); by exists f)).
    cbn [mbind run_bind expect_ok]. by rewrite Hsame.
Qed.

(** ** Confirmed payments *)

Definition settle (r : PayableRow) (fp : PendingPayableFingerprint) : PayableRow :=
  if pays (fp_rowid fp) r then confirmed_row (fp_timestamp fp / NANOS) (split (p_balance r - fp_amount fp)) else r.

(** The payment is due to be booked: one payable waits for it. *)
Definition awaited (t : PayableTable) (fp : PendingPayableFingerprint) : Prop :=
  valid_time (fp_timestamp fp) ∧ fits_i 64 (fp_rowid fp) = true ∧
  ∃ w r, t !! w = Some r ∧ pending_payable_rowid r = Some (fp_rowid fp) ∧ pays_only t (fp_rowid fp) w ∧
         p_row_ok r ∧ 0 ≤ fp_amount fp ≤ p_balance r.

Lemma confirm_one_settles fp t : awaited t fp → confirm_one rows fp t = Ret ((λ r, settle r fp) <$> t, Ok ()).
Proof using Hrows.
  intros (Hts & Hid & w & r & Hw & Hp & Honly & Hr & Ha). rewrite (confirm_one_ok rows Hrows fp t w r) by done.
  do 2 f_equal. apply map_eq. intros w'. rewrite lookup_fmap. unfold settle, pays. destruct (decide (w' = w)) as [->|Hne].
  - rewrite lookup_insert_eq, Hw. cbn. by rewrite bool_decide_true.
  - rewrite lookup_insert_ne by done. destruct (t !! w') as [r'|] eqn:E; [|done]. cbn.
    rewrite bool_decide_false; [done|]. intros Hp'. by apply Hne, (Honly w' r').
Qed.

Lemma settle_other r fp id : id ≠ fp_rowid fp → (pending_payable_rowid (settle r fp) = Some id ↔ pending_payable_rowid r = Some id).
Proof using. intros Hne. unfold settle, pays. case_bool_decide as E; [|done]. cbn. rewrite E. split; [done|]. intros [= Heq]. congruence. Qed.

Lemma settle_same r fp id : pending_payable_rowid r = Some id → id ≠ fp_rowid fp → settle r fp = r.
Proof using. intros Hr Hne. unfold settle, pays. rewrite bool_decide_false; [done|congruence]. Qed.

Lemma awaited_settled fp fp' t : fp_rowid fp' ≠ fp_rowid fp → awaited t fp' → awaited ((λ r, settle r fp) <$> t) fp'.
Proof using.
  clear. intros Hne (Hts & Hid & w & r & Hw & Hp & Honly & Hr & Ha). split; [done|]. split; [done|]. exists w, r.
  rewrite lookup_fmap, Hw. cbn. rewrite (settle_same _ _ _ Hp) by done. split; [done|]. split; [done|]. split; [|done].
  intros w' r'. rewrite lookup_fmap. destruct (t !! w') as [r1|] eqn:E; [|done]. cbn. intros [= <-] Hp'.
  apply settle_other in Hp'; [|done]. by eapply Honly.
Qed.

Lemma transactions_confirmed_ok fps t : NoDup (fp_rowid <$> fps) → (∀ fp, fp ∈ fps → awaited t fp) →
  transactions_confirmed rows fps t = Ret ((λ r, foldl settle r fps) <$> t, Ok ()).
Proof using Hrows.
  revert t. induction fps as [|fp fps IH]; intros t Hnd Haw.
  - cbn. by rewrite map_fmap_id.
  - cbn in Hnd. apply NoDup_cons in Hnd as [Hni Hnd]. cbn [transactions_confirmed].
    rewrite confirm_one_settles by (apply Haw; by left). cbn [mbind run_bind]. rewrite IH; [|done|].
    + cbn [foldl]. by rewrite <- map_fmap_compose.
    + intros fp' Hin. apply awaited_settled; [|apply Haw; by right]. intros Heq. apply Hni. rewrite <- Heq. by apply list_elem_of_fmap_2.
Qed.

(** ** Beginning a scan *)

Definition payable_account (kr : Z * PayableRow) : PayableAccount :=
  MkPayableAccount kr.1 (p_balance kr.2) (last_paid_timestamp kr.2 * NANOS) None.

Lemma u128_balance_ok c : columns_ok c → 0 ≤ value c < MONEY → u128_balance c.1 c.2 = Ret (value c).
Proof using.
  intros Hc Hv. unfold u128_balance. rewrite reconstitute_ok by done. cbn [mbind run_bind].
  apply checked_conversion_ok, fits_u_spec. unfold MONEY in *. lia.
Qed.

Lemma non_pending_payables_ok (t : PayableTable) : (∀ w r, t !! w = Some r → p_row_ok r) →
  non_pending_payables rows t = Ret (payable_account <$> filter (λ kr, pending_payable_rowid kr.2 = None) (rows _ t)).
Proof using Hrows.
  intros Ht. unfold non_pending_payables. apply run_map_ok. intros [w r] [_ Hin]%list_elem_of_filter.
  apply (visited rows Hrows) in Hin. destruct (Ht _ _ Hin) as [Hc Hb Htime]. unfold non_pending_account.
  change (p_balance_high_b r) with (p_columns r).1. change (p_balance_low_b r) with (p_columns r).2.
  rewrite u128_balance_ok by done. cbn [mbind run_bind]. by rewrite from_time_t_ok.
Qed.

Lemma sniff_out_ok pt clock l : thresholds_ok pt → (∀ n, valid_time (clock n)) →
  (∀ a n, a ∈ l → valid_time (pa_last_paid_timestamp a) ∧ pa_last_paid_timestamp a ≤ clock n) →
  ∃ q, sniff_out_alarming_payables pt clock l = Ret q ∧ q `sublist_of` l ∧
    (∀ a, a ∈ l → (∀ n, alarming pt (clock n) a) → a ∈ q) ∧ ∀ a, a ∈ q → ∃ n, alarming pt (clock n) a.
Proof using.
  clear. intros Hpt. revert clock. induction l as [|a l IH]; intros clock Hclock Hl.
  - exists []. cbn. split_and!; [done|done|done|set_solver].
  - cbn [sniff_out_alarming_payables]. destruct (Hl a 0%nat ltac:(by left)) as [Hlast Hle].
    rewrite payable_exceeded_threshold_ok by (done || apply Hclock). cbn [mbind run_bind].
    destruct (IH (λ n, clock (S n))) as (q & -> & Hsub & Hall & Hex); [intros; apply Hclock|intros; apply Hl; by right|].
    cbn [mbind run_bind]. destruct (decide (alarming pt (clock 0%nat) a)) as [Ha|Ha].
    + exists (a :: q). split; [done|]. split; [by constructor|]. split.
      * intros b [->|Hb]%elem_of_cons Hal; [by left|right; by apply Hall].
      * intros b [->|Hb]%elem_of_cons; [by exists 0%nat|]. destruct (Hex b Hb) as [n Hn]. by exists (S n).
    + exists q. split; [done|]. split; [by constructor|]. split.
      * intros b [->|Hb]%elem_of_cons Hal; [by destruct Ha|by apply Hall].
      * intros b Hb. destruct (Hex b Hb) as [n Hn]. by exists (S n).
Qed.

(** Chosen are accounts without a payment under way, and among them the ones
    whose debt is alarming; an account that is alarming at every reading of the
    clock is never left out. *)
Lemma payable_begin_scan_ok pt wallet timestamp sk clock ended (t : PayableTable) :
  thresholds_ok pt → (∀ w r, t !! w = Some r → p_row_ok r) → (∀ n, valid_time (clock n)) → timestamp ≤ ended →
  (∀ w r n, t !! w = Some r → last_paid_timestamp r * NANOS ≤ clock n) →
  ∃ q, payable_begin_scan pt None wallet timestamp sk clock ended t =
      Ret (match q with [] => (None, Err NothingToProcess) | _ => (Some timestamp, Ok (MkQualifiedPayables q wallet sk)) end) ∧
    NoDup (pa_wallet <$> q) ∧
    (∀ a, a ∈ q → ∃ w r n, a = payable_account (w, r) ∧ t !! w = Some r ∧ pending_payable_rowid r = None ∧ alarming pt (clock n) a) ∧
    ∀ w r, t !! w = Some r → pending_payable_rowid r = None → (∀ n, alarming pt (clock n) (payable_account (w, r))) →
      payable_account (w, r) ∈ q.
Proof using Hrows.
  intros Hpt Ht Hclock Hended Hpast. unfold payable_begin_scan. rewrite non_pending_payables_ok by done. cbn [mbind run_bind].
  set (l := filter (λ kr : Z * PayableRow, pending_payable_rowid kr.2 = None) (rows _ t)).
  assert (Hin : ∀ a, a ∈ payable_account <$> l ↔ ∃ w r, a = payable_account (w, r) ∧ t !! w = Some r ∧ pending_payable_rowid r = None).
  { intros a. rewrite list_elem_of_fmap. split.
    - intros ([w r] & -> & [Hp Hv]%list_elem_of_filter). apply (visited rows Hrows) in Hv. by exists w, r.
    - intros (w & r & -> & Hv & Hp). exists (w, r). split; [done|]. apply list_elem_of_filter. split; [done|]. by apply (visited rows Hrows). }
  destruct (sniff_out_ok pt clock (payable_account <$> l) Hpt Hclock) as (q & -> & Hsub & Hall & Hex).
  { intros a n (w & r & -> & Hw & _)%Hin. destruct (Ht _ _ Hw) as [_ _ Htime]. cbn. split; [unfold valid_time, NANOS; lia|by eapply Hpast]. }
  cbn [mbind run_bind]. exists q. split; [|split; [|split]].
  - destruct q; [|done]. unfold signal_scanner_completion, duration_since.
    destruct (timestamp <=? ended) eqn:E; [done|b2p; lia].
  - eapply sublist_NoDup; [|by apply fmap_sublist]. rewrite <- list_fmap_compose.
    change (NoDup (fst <$> l)). eapply (sublist_NoDup _ (rows _ t).*1); [rewrite (Hrows _ t); apply NoDup_fst_map_to_list|].
    apply fmap_sublist, sublist_filter.
  - intros a Ha. destruct (Hex a Ha) as [n Hn]. assert (a ∈ payable_account <$> l) as (w & r & Heq & Hw & Hp)%Hin by (by eapply elem_of_sublist).
    by exists w, r, n.
  - intros w r Hw Hp Hal. apply Hall; [apply Hin; by exists w, r|done].
Qed.

Definition fingerprint (kr : Z * PendingPayableRow) : PendingPayableFingerprint :=
  MkFingerprint kr.1 (payable_timestamp kr.2 * NANOS) (transaction_hash kr.2) (attempt kr.2) (f_amount kr.2) None.

Lemma pending_payable_begin_scan_ok timestamp sk ended (pending : PendingPayableTable) : fingerprints_ok pending → timestamp ≤ ended →
  pending_payable_begin_scan None timestamp sk ended pending =
    Ret (match fingerprint <$> filter (λ kr, process_error kr.2 = None) (rows _ pending) with
         | [] => (None, Err NothingToProcess)
         | l => (Some timestamp, Ok (MkReceiptsRequest l sk))
         end).
Proof using Hrows.
  intros Hok Hended. unfold pending_payable_begin_scan, return_all_errorless_fingerprints.
  rewrite (run_map_ok _ fingerprint).
  - cbn [mbind run_bind]. destruct (fingerprint <$> _); [|done]. unfold signal_scanner_completion, duration_since.
    destruct (timestamp <=? ended) eqn:E; [done|b2p; lia].
  - intros [id r] [_ Hin]%list_elem_of_filter. apply (visited rows Hrows) in Hin. destruct (fs_rows _ Hok _ _ Hin) as [Hid Hc Ha Ht Hat].
    unfold fingerprint_of. rewrite !checked_conversion_ok by (apply fits_u_spec; lia). cbn [mbind run_bind].
    rewrite from_time_t_ok by done. cbn [mbind run_bind].
    change (amount_high_b r) with (amount_high_b r, amount_low_b r).1. change (amount_low_b r) with (amount_high_b r, amount_low_b r).2.
    by rewrite u128_balance_ok.
Qed.
End scanners.

(** ** On concrete tables *)

(** A database that returns rows in the order of their keys. *)
Definition in_key_order (A : Type) (t : gmap Z A) : list (Z * A) := map_to_list t.

Lemma in_key_order_rows A (t : gmap Z A) : in_key_order A t ≡ₚ map_to_list t.
Proof. done. Qed.

(** Two gwei above the limit, owed since the start of the epoch. *)
Definition demo_debtors : ReceivableTable :=
  {[ 7 := MkReceivableRow 0 1000000002000000000 0 ]}.

Lemma delinquency_has_notice_witness :
  ∃ point, payable_exceeded_threshold DEFAULT_PAYMENT_THRESHOLDS
    (MkPayableAccount 7 1000000002000000000 0 None) (100000 * NANOS) = Ret (Some point) ∧ point < 1000000002000000000.
Proof.
  apply (delinquency_has_notice in_key_order in_key_order_rows DEFAULT_PAYMENT_THRESHOLDS (100100 * NANOS) ∅ demo_debtors
    [MkReceivableAccount 7 1000000002000000000 0] (MkReceivableAccount 7 1000000002000000000 0) (100000 * NANOS)).
  - exact default_thresholds_ok.
  - vm_compute; reflexivity.
  - intros w r Hr. unfold demo_debtors in Hr. apply lookup_singleton_Some in Hr as [_ <-]. split; vm_compute; intuition congruence.
  - vm_compute; intuition congruence.
  - vm_compute; reflexivity.
  - by left.
  - vm_compute; congruence.
  - vm_compute; intuition congruence.
Defined.

(** Allows a permanent debt of ten milliards of gwei, which does not fit the low
    column: its high column holds one. *)
Definition generous : PaymentThresholds :=
  MkPaymentThresholds 20000000000 1200 1200 10000000000 21600 10000000000.

(** The query compares the high column with zero where it means the high column
    of the permanent debt.  So it finds the first account, whose nine milliards
    of gwei are allowed forever, and misses the second, which owes fifteen. *)
Example large_permanent_debt_misjudged :
  new_delinquencies in_key_order (200000 * NANOS) generous ∅
    {[ 1 := MkReceivableRow 0 9000000000000000000 0; 2 := MkReceivableRow 1 5776627963145224192 0 ]}
  = Ret [MkReceivableAccount 1 9000000000000000000 0] ∧
  value (1, 5776627963145224192) = gwei_to_wei 15000000000 ∧
  9000000000000000000 < gwei_to_wei (permanent_debt_allowed_gwei generous) < gwei_to_wei 15000000000.
Proof. vm_compute. split_and!; reflexivity. Qed.

(** A query for a range of receivables leaves out the account that owes minus
    one gwei, though it shows those of plus one and minus two. *)
Example minus_one_gwei_hidden :
  receivable_custom_query in_key_order (RangeQuery 0 1000 (-5) 5 (500 * NANOS))
    {[ 1 := MkReceivableRow 0 1000000000 100; 2 := MkReceivableRow (-1) (2 ^ 63 - 1000000000) 100;
       3 := MkReceivableRow (-1) (2 ^ 63 - 2000000000) 100 ]}
  = Ret (Some [MkReceivableAccount 1 1000000000 (100 * NANOS); MkReceivableAccount 3 (-2000000000) (100 * NANOS)]).
Proof. vm_compute. reflexivity. Qed.

(** A receipt that overtakes the report of the payment that was sent finds the
    payable not marked yet: no row is updated, and the accountant stops.  Once
    the payable is marked, the same receipt settles the debt. *)
Example early_receipt_panics :
  let pending := {[ 1 := MkPendingPayableRow 42 0 5 100 1 None ]} in
  let fp := MkFingerprint 1 (100 * NANOS) 42 1 5 None in
  confirm_transactions in_key_order [fp] pending {[ 7 := MkPayableRow 0 5 50 None ]} 0 = Panic ∧
  confirm_transactions in_key_order [fp] pending {[ 7 := MkPayableRow 0 5 50 (Some 1) ]} 0
    = Ret (∅, {[ 7 := MkPayableRow 0 0 100 None ]}, 5).
Proof. vm_compute. done. Qed.

(** However long a transaction is pending, it stays so, while the routine that
    gives up after an interval calls it a failure. *)
Example never_given_up :
  let fp := MkFingerprint 1 0 42 1 5 None in
  let later := 1000000 * NANOS in
  handle_receipts_for_pending_transactions [(RpcResponse TxPending, fp)] = MkReport [id_of fp] [] [] ∧
  handle_none_status (MkReport [] [] []) fp 21600 later = Ret (MkReport [] [id_of fp] []).
Proof. vm_compute. done. Qed.
End Scanners.
