(* ===== verification/Accountant.v ===== *)
(** * The accountant

    Models the actor of [node/src/accountant/mod.rs] with [financials.rs] and the
    messages of [node/src/sub_lib/accountant.rs]: it books what services cost,
    starts and finishes the scans of [Scanners.v] and answers questions about
    money.  The tables are those of [AccountingTables.v]; every data access
    object of the actor and of its scanners works on the same database, so they
    are one state here.

    The recipients are bound by one message and together, so one flag says
    whether they are.  What is sent is a list.  The readings of the clock that
    belong to one message are an [Env].  Logging and message ids, which only the
    log shows, are left out. *)
From S2P Require Import Prelude.
From S2P Require Import BigInt Thresholds AccountingTables Scanners.
From stdpp Require Import base list gmap strings.

Module Accountant.
Import Signed BigInt Time Thresholds Daos Scanners.
Local Open Scope Z_scope.

Inductive ScanType := Payables | Receivables | PendingPayables.

Record Accountant := MkAccountant {
  suppress_initial_scans : bool;
  consuming_wallet_opt : option Z;
  earning_wallet : Z;
  crashable : bool;
  payment_thresholds : PaymentThresholds;
  payable : PayableTable;
  pending_payables : PendingPayableTable;
  receivable : ReceivableTable;
  banned : Banned;
  start_block : option Z;
  payable_initiated_at : option Z;
  pending_payable_initiated_at : option Z;
  receivable_initiated_at : option Z;
  total_paid_payable_wei : Z;
  total_paid_receivable_wei : Z;
  bound : bool
}.

(** *** Updates of the state *)

Definition set_payable (s : Accountant) (t : PayableTable) : Accountant :=
  MkAccountant (suppress_initial_scans s) (consuming_wallet_opt s) (earning_wallet s) (crashable s) (payment_thresholds s)
    t (pending_payables s) (receivable s) (banned s) (start_block s) (payable_initiated_at s)
    (pending_payable_initiated_at s) (receivable_initiated_at s) (total_paid_payable_wei s) (total_paid_receivable_wei s) (bound s).

Definition set_receivable (s : Accountant) (t : ReceivableTable) : Accountant :=
  MkAccountant (suppress_initial_scans s) (consuming_wallet_opt s) (earning_wallet s) (crashable s) (payment_thresholds s)
    (payable s) (pending_payables s) t (banned s) (start_block s) (payable_initiated_at s)
    (pending_payable_initiated_at s) (receivable_initiated_at s) (total_paid_payable_wei s) (total_paid_receivable_wei s) (bound s).

Definition set_pending_payables (s : Accountant) (t : PendingPayableTable) : Accountant :=
  MkAccountant (suppress_initial_scans s) (consuming_wallet_opt s) (earning_wallet s) (crashable s) (payment_thresholds s)
    (payable s) t (receivable s) (banned s) (start_block s) (payable_initiated_at s)
    (pending_payable_initiated_at s) (receivable_initiated_at s) (total_paid_payable_wei s) (total_paid_receivable_wei s) (bound s).

Definition set_payable_initiated_at (s : Accountant) (o : option Z) : Accountant :=
  MkAccountant (suppress_initial_scans s) (consuming_wallet_opt s) (earning_wallet s) (crashable s) (payment_thresholds s)
    (payable s) (pending_payables s) (receivable s) (banned s) (start_block s) o
    (pending_payable_initiated_at s) (receivable_initiated_at s) (total_paid_payable_wei s) (total_paid_receivable_wei s) (bound s).

Definition set_pending_payable_initiated_at (s : Accountant) (o : option Z) : Accountant :=
  MkAccountant (suppress_initial_scans s) (consuming_wallet_opt s) (earning_wallet s) (crashable s) (payment_thresholds s)
    (payable s) (pending_payables s) (receivable s) (banned s) (start_block s) (payable_initiated_at s)
    o (receivable_initiated_at s) (total_paid_payable_wei s) (total_paid_receivable_wei s) (bound s).

Definition set_receivable_initiated_at (s : Accountant) (o : option Z) : Accountant :=
  MkAccountant (suppress_initial_scans s) (consuming_wallet_opt s) (earning_wallet s) (crashable s) (payment_thresholds s)
    (payable s) (pending_payables s) (receivable s) (banned s) (start_block s) (payable_initiated_at s)
    (pending_payable_initiated_at s) o (total_paid_payable_wei s) (total_paid_receivable_wei s) (bound s).

Definition set_banned (s : Accountant) (b : Banned) : Accountant :=
  MkAccountant (suppress_initial_scans s) (consuming_wallet_opt s) (earning_wallet s) (crashable s) (payment_thresholds s)
    (payable s) (pending_payables s) (receivable s) b (start_block s) (payable_initiated_at s)
    (pending_payable_initiated_at s) (receivable_initiated_at s) (total_paid_payable_wei s) (total_paid_receivable_wei s) (bound s).

Definition set_total_paid_payable_wei (s : Accountant) (z : Z) : Accountant :=
  MkAccountant (suppress_initial_scans s) (consuming_wallet_opt s) (earning_wallet s) (crashable s) (payment_thresholds s)
    (payable s) (pending_payables s) (receivable s) (banned s) (start_block s) (payable_initiated_at s)
    (pending_payable_initiated_at s) (receivable_initiated_at s) z (total_paid_receivable_wei s) (bound s).

Definition set_received (s : Accountant) (t : ReceivableTable) (block : option Z) (total : Z) : Accountant :=
  MkAccountant (suppress_initial_scans s) (consuming_wallet_opt s) (earning_wallet s) (crashable s) (payment_thresholds s)
    (payable s) (pending_payables s) t (banned s) block (payable_initiated_at s)
    (pending_payable_initiated_at s) (receivable_initiated_at s) (total_paid_payable_wei s) total (bound s).

(** *** Messages *)

Record RoutingServiceConsumed := MkRoutingConsumed {
  rc_earning_wallet : Z;
  rc_service_rate : Z;
  rc_byte_rate : Z
}.

Record ExitServiceConsumed := MkExitConsumed {
  ec_earning_wallet : Z;
  ec_payload_size : Z;
  ec_service_rate : Z;
  ec_byte_rate : Z
}.

Record ReportServicesConsumedMessage := MkServicesConsumed {
  sc_timestamp : Z;
  exit : ExitServiceConsumed;
  routing_payload_size : Z;
  routing : list RoutingServiceConsumed
}.

(** Reports of routing and of exit services have the same fields. *)
Record ReportServiceProvidedMessage := MkServiceProvided {
  pr_timestamp : Z;
  paying_wallet : Z;
  payload_size : Z;
  service_rate : Z;
  byte_rate : Z
}.

Record PendingPayableFingerprintSeeds := MkSeeds {
  batch_wide_timestamp : Z;
  hashes_and_balances : list HashAndAmount
}.

Record ScanError := MkScanError {
  se_scan_type : ScanType;
  se_response_skeleton_opt : option ResponseSkeleton
}.

Record RangeSpecs := MkRangeSpecs {
  min_age_s : Z;
  max_age_s : Z;
  min_amount_gwei : Z;
  max_amount_gwei : Z
}.

Record CustomQueries := MkCustomQueries {
  payable_opt : option RangeSpecs;
  receivable_opt : option RangeSpecs
}.

Record UiFinancialsRequest := MkFinancialsRequest {
  stats_required : bool;
  top_records_opt : option (Z * TopRecordsOrdering);
  custom_queries_opt : option CustomQueries
}.

Inductive ConfigChange := UpdateMinHops (min_hops : Z) | UpdatePassword (password : string) | UpdateWallets (consuming earning : Z).

Inductive Message :=
| BindMessage
| ConfigChangeMsg (change : ConfigChange)
| StartMessage
| ReceivedPaymentsMsg (msg : ReceivedPayments)
| AgentMsg (msg : BlockchainAgentWithContextMessage)
| SentPayablesMsg (msg : SentPayables)
| ScanFor (scan_type : ScanType) (response_skeleton_opt : option ResponseSkeleton)
| ScanErrorMsg (msg : ScanError)
| ReportRoutingServiceProvided (msg : ReportServiceProvidedMessage)
| ReportExitServiceProvided (msg : ReportServiceProvidedMessage)
| ReportServicesConsumed (msg : ReportServicesConsumedMessage)
| ReportTransactionReceiptsMsg (msg : ReportTransactionReceipts)
| SeedsMsg (msg : PendingPayableFingerprintSeeds)
| UiFinancials (client_id context_id : Z) (msg : UiFinancialsRequest)
| UiScan (client_id context_id : Z) (scan_type : ScanType)
| UiCrash (for_accountant : bool).

Record UiFinancialStatistics := MkStatistics {
  total_unpaid_and_pending_payable_gwei : Z;
  total_paid_payable_gwei : Z;
  total_unpaid_receivable_gwei : Z;
  total_paid_receivable_gwei : Z
}.

Record QueryResults := MkQueryResults {
  qr_payable_opt : option (list UiPayableAccount);
  qr_receivable_opt : option (list UiReceivableAccount)
}.

Definition ACCOUNTANT_PREFIX : Z := 0x0040000000000000.
Definition UI_NODE_COMMUNICATION_PREFIX : Z := 0x8000000000000000.
Definition REQUEST_WITH_NO_VALUES : Z := Z.lor ACCOUNTANT_PREFIX 1.
Definition REQUEST_WITH_MUTUALLY_EXCLUSIVE_PARAMS : Z := Z.lor ACCOUNTANT_PREFIX 2.
Definition VALUE_EXCEEDS_ALLOWED_LIMIT : Z := Z.lor ACCOUNTANT_PREFIX 3.
Definition SCAN_ERROR : Z := Z.lor UI_NODE_COMMUNICATION_PREFIX 7.

Inductive UiBody :=
| UiScanResponse
| UiFinancialsResponse (stats_opt : option UiFinancialStatistics) (query_results_opt : option QueryResults)
| UiError (code : Z).

Inductive Sent :=
| ToBridgeQualifiedPayables (msg : QualifiedPayablesMessage)
| ToBridgeInstructions (msg : OutboundPaymentsInstructions)
| ToBridgeReceiptsRequest (msg : RequestTransactionReceipts)
| ToBridgeRetrieveTransactions (msg : RetrieveTransactions)
| ToUi (client_id context_id : Z) (body : UiBody)
| NotifySelf (scan_type : ScanType)
| NotifySelfLater (scan_type : ScanType).

Record Env := MkEnv {
  e_now : Z;
  e_clock : nat → Z;
  e_ended : Z
}.

Section accountant.
Context (rows : ∀ A, gmap Z A → list (Z * A)).

(** ** Booking services *)

Definition our_wallet (s : Accountant) (wallet : Z) : bool :=
  match consuming_wallet_opt s with
  | Some consuming => if consuming =? wallet then true else wallet =? earning_wallet s
  | None => wallet =? earning_wallet s
  end.

(** Rates and sizes are of 64 bits, so 128 bits hold the charge. *)
Definition total_charge (service_rate byte_rate payload_size : Z) : run Z :=
  byte_charge ← checked_u 128 (byte_rate * payload_size);
  checked_u 128 (service_rate + byte_charge).

Definition record_service_provided (s : Accountant) (service_rate byte_rate timestamp payload_size wallet : Z) : run Accountant :=
  total_charge ← total_charge service_rate byte_rate payload_size;
  if our_wallet s wallet then Ret s
  else
    '(t, res) ← more_money_receivable timestamp wallet total_charge (receivable s);
    match res with
    | Ok _ | Err (ReceivableSignConversion _) => Ret (set_receivable s t)
    | Err _ => Panic
    end.

Definition record_service_consumed (s : Accountant) (service_rate byte_rate timestamp payload_size wallet : Z) : run Accountant :=
  total_charge ← total_charge service_rate byte_rate payload_size;
  if our_wallet s wallet then Ret s
  else
    '(t, res) ← more_money_payable timestamp wallet total_charge (payable s);
    match res with
    | Ok _ | Err (PayableSignConversion _) => Ret (set_payable s t)
    | Err _ => Panic
    end.

Definition handle_report_routing_service_provided_message (s : Accountant) (msg : ReportServiceProvidedMessage) : run Accountant :=
  record_service_provided s (service_rate msg) (byte_rate msg) (pr_timestamp msg) (payload_size msg) (paying_wallet msg).

Definition handle_report_exit_service_provided_message (s : Accountant) (msg : ReportServiceProvidedMessage) : run Accountant :=
  record_service_provided s (service_rate msg) (byte_rate msg) (pr_timestamp msg) (payload_size msg) (paying_wallet msg).

Fixpoint record_routing (s : Accountant) (timestamp size : Z) (services : list RoutingServiceConsumed) : run Accountant :=
  match services with
  | [] => Ret s
  | r :: services =>
      s ← record_service_consumed s (rc_service_rate r) (rc_byte_rate r) timestamp size (rc_earning_wallet r);
      record_routing s timestamp size services
  end.

Definition handle_report_services_consumed_message (s : Accountant) (msg : ReportServicesConsumedMessage) : run Accountant :=
  s ← record_service_consumed s (ec_service_rate (exit msg)) (ec_byte_rate (exit msg)) (sc_timestamp msg)
        (ec_payload_size (exit msg)) (ec_earning_wallet (exit msg));
  record_routing s (sc_timestamp msg) (routing_payload_size msg) (routing msg).

(** ** Scans *)

(** Errors of beginning a scan are logged. *)
Definition handle_request_of_scan_for_payable (env : Env) (s : Accountant) (response_skeleton_opt : option ResponseSkeleton)
    : run (Accountant * list Sent) :=
  match consuming_wallet_opt s with
  | None => Ret (s, [])
  | Some consuming_wallet =>
      '(initiated, res) ← payable_begin_scan rows (payment_thresholds s) (payable_initiated_at s) consuming_wallet (e_now env)
                            response_skeleton_opt (e_clock env) (e_ended env) (payable s);
      let s := set_payable_initiated_at s initiated in
      match res with
      | Ok scan_message => if bound s then Ret (s, [ToBridgeQualifiedPayables scan_message]) else Panic
      | Err _ => Ret (s, [])
      end
  end.

Definition handle_request_of_scan_for_pending_payable (env : Env) (s : Accountant) (response_skeleton_opt : option ResponseSkeleton)
    : run (Accountant * list Sent) :=
  match consuming_wallet_opt s with
  | None => Ret (s, [])
  | Some _ =>
      '(initiated, res) ← pending_payable_begin_scan rows (pending_payable_initiated_at s) (e_now env)
                            response_skeleton_opt (e_ended env) (pending_payables s);
      let s := set_pending_payable_initiated_at s initiated in
      match res with
      | Ok scan_message => if bound s then Ret (s, [ToBridgeReceiptsRequest scan_message]) else Panic
      | Err _ => Ret (s, [])
      end
  end.

Definition handle_request_of_scan_for_receivable (env : Env) (s : Accountant) (response_skeleton_opt : option ResponseSkeleton)
    : run (Accountant * list Sent) :=
  '(initiated, b, res) ← receivable_begin_scan rows (payment_thresholds s) (receivable_initiated_at s) (earning_wallet s)
                           (e_now env) response_skeleton_opt (receivable s) (banned s);
  let s := set_banned (set_receivable_initiated_at s initiated) b in
  match res with
  | Ok scan_message => if bound s then Ret (s, [ToBridgeRetrieveTransactions scan_message]) else Panic
  | Err _ => Ret (s, [])
  end.

Definition handle_scan_request (env : Env) (s : Accountant) (scan_type : ScanType) (response_skeleton_opt : option ResponseSkeleton)
    : run (Accountant * list Sent) :=
  match scan_type with
  | Payables => handle_request_of_scan_for_payable env s response_skeleton_opt
  | PendingPayables => handle_request_of_scan_for_pending_payable env s response_skeleton_opt
  | Receivables => handle_request_of_scan_for_receivable env s response_skeleton_opt
  end.

(** The answer of a finished scan goes to the user interface that asked for it. *)
Definition answer_ui (s : Accountant) (response : option (Z * Z)) : run (list Sent) :=
  match response with
  | Some (client_id, context_id) => if bound s then Ret [ToUi client_id context_id UiScanResponse] else Panic
  | None => Ret []
  end.

Definition handle_received_payments (env : Env) (s : Accountant) (msg : ReceivedPayments) : run (Accountant * list Sent) :=
  '(initiated, t, block, total, response) ←
    receivable_finish_scan (receivable_initiated_at s) msg (e_ended env) (receivable s) (start_block s) (total_paid_receivable_wei s);
  let s := set_received (set_receivable_initiated_at s initiated) t block total in
  sent ← answer_ui s response;
  Ret (s, sent).

Definition handle_payable_payment_setup (s : Accountant) (msg : BlockchainAgentWithContextMessage) : run (Accountant * list Sent) :=
  instructions ←
    match try_skipping_payment_adjustment msg with
    | inl finalized_msg => Ret finalized_msg
    | inr (unaccepted_msg, adjustment) => adjust_payments unaccepted_msg adjustment
    end;
  if bound s then Ret (s, [ToBridgeInstructions instructions]) else Panic.

Definition handle_sent_payables (env : Env) (s : Accountant) (msg : SentPayables) : run (Accountant * list Sent) :=
  '(initiated, pending, t, response) ←
    payable_finish_scan rows (payable_initiated_at s) msg (e_ended env) (pending_payables s) (payable s);
  let s := set_payable (set_pending_payables (set_payable_initiated_at s initiated) pending) t in
  sent ← answer_ui s response;
  Ret (s, sent).

Definition handle_report_transaction_receipts (env : Env) (s : Accountant) (msg : ReportTransactionReceipts)
    : run (Accountant * list Sent) :=
  '(initiated, pending, t, total, response) ←
    pending_payable_finish_scan rows (pending_payable_initiated_at s) msg (e_ended env) (pending_payables s) (payable s)
      (total_paid_payable_wei s);
  let s := set_total_paid_payable_wei
             (set_payable (set_pending_payables (set_pending_payable_initiated_at s initiated) pending) t) total in
  sent ← answer_ui s response;
  Ret (s, sent).

Definition handle_scan_error (env : Env) (s : Accountant) (scan_error : ScanError) : run (Accountant * list Sent) :=
  s ← match se_scan_type scan_error with
      | Payables => o ← signal_scanner_completion (payable_initiated_at s) (e_ended env); Ret (set_payable_initiated_at s o)
      | PendingPayables =>
          o ← signal_scanner_completion (pending_payable_initiated_at s) (e_ended env); Ret (set_pending_payable_initiated_at s o)
      | Receivables => o ← signal_scanner_completion (receivable_initiated_at s) (e_ended env); Ret (set_receivable_initiated_at s o)
      end;
  match se_response_skeleton_opt scan_error with
  | Some sk => if bound s then Ret (s, [ToUi (client_id sk) (context_id sk) (UiError SCAN_ERROR)]) else Panic
  | None => Ret (s, [])
  end.

(** Only logs when the fingerprints cannot be saved. *)
Definition handle_new_pending_payable_fingerprints (s : Accountant) (msg : PendingPayableFingerprintSeeds) : run Accountant :=
  '(pending, _) ← insert_new_fingerprints (hashes_and_balances msg) (batch_wide_timestamp msg) (pending_payables s);
  Ret (set_pending_payables s pending).

(** ** Questions about money *)

(** Both types of amounts: what does not fit [u64] is negative. *)
Definition fits_in_0_to_i64max_for_u64 (num : Z) : run bool :=
  if fits_u 64 num then Ret (num <=? 2 ^ 63 - 1)
  else if num <? 0 then Ret true else Panic.

Definition check_query_is_within_tech_limits (q : CustomQuery) : run (result Z unit) :=
  match q with
  | RangeQuery min_age_s max_age_s min_amount_gwei max_amount_gwei _ =>
      min_fits ← fits_in_0_to_i64max_for_u64 min_amount_gwei;
      max_fits ← fits_in_0_to_i64max_for_u64 max_amount_gwei;
      Ret (match min_age_s <=? 2 ^ 63 - 1, max_age_s <=? 2 ^ 63 - 1, min_fits, max_fits with
           | false, _, _, _ => Err VALUE_EXCEEDS_ALLOWED_LIMIT
           | _, false, _, _ => Err VALUE_EXCEEDS_ALLOWED_LIMIT
           | _, _, false, _ => Err VALUE_EXCEEDS_ALLOWED_LIMIT
           | _, _, _, false => Err VALUE_EXCEEDS_ALLOWED_LIMIT
           | _, _, _, _ => Ok ()
           end)
  | TopRecords _ _ => Panic
  end.

Definition financials_entry_check (msg : UiFinancialsRequest) : result Z unit :=
  if negb (stats_required msg) && bool_decide (top_records_opt msg = None) && match custom_queries_opt msg with None => true | _ => false end
  then Err REQUEST_WITH_NO_VALUES
  else if negb (bool_decide (top_records_opt msg = None)) && match custom_queries_opt msg with None => false | _ => true end
  then Err REQUEST_WITH_MUTUALLY_EXCLUSIVE_PARAMS
  else Ok ().

Definition request_payable_accounts_by_specific_mode (now : Z) (s : Accountant) (mode : CustomQuery)
    : run (option (list UiPayableAccount)) :=
  accounts ← payable_custom_query rows mode (pending_payables s) (payable s);
  match accounts with
  | Some accounts => ui ← remap_payable_accounts now accounts; Ret (Some ui)
  | None => Ret None
  end.

Definition request_receivable_accounts_by_specific_mode (now : Z) (s : Accountant) (mode : CustomQuery)
    : run (option (list UiReceivableAccount)) :=
  accounts ← receivable_custom_query rows mode (receivable s);
  match accounts with
  | Some accounts => ui ← remap_receivable_accounts now accounts; Ret (Some ui)
  | None => Ret None
  end.

Definition process_stats (s : Accountant) (msg : UiFinancialsRequest) : run (option UiFinancialStatistics) :=
  if stats_required msg then
    payable_wei ← payable_total rows (payable s);
    payable_gwei ← wei_to_gwei (fits_u 64) payable_wei;
    paid_gwei ← wei_to_gwei (fits_u 64) (total_paid_payable_wei s);
    receivable_wei ← receivable_total rows (receivable s);
    receivable_gwei ← wei_to_gwei (fits_i 64) receivable_wei;
    received_gwei ← wei_to_gwei (fits_u 64) (total_paid_receivable_wei s);
    Ret (Some (MkStatistics payable_gwei paid_gwei receivable_gwei received_gwei))
  else Ret None.

Definition process_top_records_query (now : Z) (s : Accountant) (msg : UiFinancialsRequest) : run (option QueryResults) :=
  match top_records_opt msg with
  | Some (count, ordered_by) =>
      payable ← request_payable_accounts_by_specific_mode now s (TopRecords count ordered_by);
      receivable ← request_receivable_accounts_by_specific_mode now s (TopRecords count ordered_by);
      Ret (Some (MkQueryResults (Some (default [] payable)) (Some (default [] receivable))))
  | None => Ret None
  end.

(** [CustomQuery::from] stamps the query. *)
Definition range_query (now : Z) (specs : RangeSpecs) : CustomQuery :=
  RangeQuery (min_age_s specs) (max_age_s specs) (min_amount_gwei specs) (max_amount_gwei specs) now.

Local Open Scope rust_scope.

Definition process_custom_queries (now : Z) (s : Accountant) (msg : UiFinancialsRequest) : run (result Z (option QueryResults)) :=
  match custom_queries_opt msg with
  | Some specs =>
      payable_opt <-? match payable_opt specs with
                      | Some query_specs =>
                          let query := range_query now query_specs in
                          _ <-? check_query_is_within_tech_limits query;
                          r ← request_payable_accounts_by_specific_mode now s query; Ret (Ok r)
                      | None => Ret (Ok None)
                      end;
      receivable_opt <-? match receivable_opt specs with
                         | Some query_specs =>
                             let query := range_query now query_specs in
                             _ <-? check_query_is_within_tech_limits query;
                             r ← request_receivable_accounts_by_specific_mode now s query; Ret (Ok r)
                         | None => Ret (Ok None)
                         end;
      Ret (Ok (Some (MkQueryResults payable_opt receivable_opt)))
  | None => Ret (Ok None)
  end.

Definition process_queries_of_records (now : Z) (s : Accountant) (msg : UiFinancialsRequest) : run (result Z (option QueryResults)) :=
  top_records_opt ← process_top_records_query now s msg;
  custom_query_records_opt <-? process_custom_queries now s msg;
  Ret (Ok (match top_records_opt with Some _ => top_records_opt | None => custom_query_records_opt end)).

Definition compute_financials (now : Z) (s : Accountant) (msg : UiFinancialsRequest) : run UiBody :=
  match financials_entry_check msg with
  | Err code => Ret (UiError code)
  | Ok _ =>
      stats_opt ← process_stats s msg;
      query_results_opt ← process_queries_of_records now s msg;
      Ret (match query_results_opt with
           | Ok results_opt => UiFinancialsResponse stats_opt results_opt
           | Err code => UiError code
           end)
  end.

Definition handle_financials (now : Z) (s : Accountant) (msg : UiFinancialsRequest) (client_id context_id : Z)
    : run (list Sent) :=
  body ← compute_financials now s msg;
  if bound s then Ret [ToUi client_id context_id body] else Panic.

(** ** The handlers *)

Definition handle_config_change_msg (s : Accountant) (change : ConfigChange) : Accountant :=
  match change with
  | UpdateWallets consuming earning =>
      MkAccountant (suppress_initial_scans s) (Some consuming) earning (crashable s) (payment_thresholds s)
        (payable s) (pending_payables s) (receivable s) (banned s) (start_block s) (payable_initiated_at s)
        (pending_payable_initiated_at s) (receivable_initiated_at s) (total_paid_payable_wei s) (total_paid_receivable_wei s) (bound s)
  | _ => s
  end.

Definition handle_bind_message (s : Accountant) : Accountant :=
  MkAccountant (suppress_initial_scans s) (consuming_wallet_opt s) (earning_wallet s) (crashable s) (payment_thresholds s)
    (payable s) (pending_payables s) (receivable s) (banned s) (start_block s) (payable_initiated_at s)
    (pending_payable_initiated_at s) (receivable_initiated_at s) (total_paid_payable_wei s) (total_paid_receivable_wei s) true.

Definition handle (env : Env) (s : Accountant) (msg : Message) : run (Accountant * list Sent) :=
  match msg with
  | BindMessage => Ret (handle_bind_message s, [])
  | ConfigChangeMsg change => Ret (handle_config_change_msg s change, [])
  | StartMessage =>
      Ret (s, if suppress_initial_scans s then [] else [NotifySelf PendingPayables; NotifySelf Payables; NotifySelf Receivables])
  | ReceivedPaymentsMsg msg => handle_received_payments env s msg
  | AgentMsg msg => handle_payable_payment_setup s msg
  | SentPayablesMsg msg => handle_sent_payables env s msg
  | ScanFor scan_type response_skeleton_opt =>
      '(s, sent) ← handle_scan_request env s scan_type response_skeleton_opt;
      Ret (s, sent ++ [NotifySelfLater scan_type])
  | ScanErrorMsg msg => handle_scan_error env s msg
  | ReportRoutingServiceProvided msg => s ← handle_report_routing_service_provided_message s msg; Ret (s, [])
  | ReportExitServiceProvided msg => s ← handle_report_exit_service_provided_message s msg; Ret (s, [])
  | ReportServicesConsumed msg => s ← handle_report_services_consumed_message s msg; Ret (s, [])
  | ReportTransactionReceiptsMsg msg => handle_report_transaction_receipts env s msg
  | SeedsMsg msg => s ← handle_new_pending_payable_fingerprints s msg; Ret (s, [])
  | UiFinancials client_id context_id msg => sent ← handle_financials (e_now env) s msg client_id context_id; Ret (s, sent)
  | UiScan client_id context_id scan_type =>
      handle_scan_request env s scan_type (Some (MkResponseSkeleton client_id context_id))
  | UiCrash for_accountant => if crashable s && for_accountant then Panic else Ret (s, [])
  end.

(** The actor at its start, over the database it finds. *)
Definition new (suppress_initial_scans : bool) (consuming_wallet_opt : option Z) (earning_wallet : Z) (crashable : bool)
    (payment_thresholds_opt : option PaymentThresholds) (payable : PayableTable) (pending : PendingPayableTable)
    (receivable : ReceivableTable) (banned : Banned) (start_block : option Z) : run Accountant :=
  payment_thresholds ← expect payment_thresholds_opt;
  Ret (MkAccountant suppress_initial_scans consuming_wallet_opt earning_wallet crashable payment_thresholds payable pending
         receivable banned start_block None None None 0 0 false).

End accountant.
End Accountant.
