(* ===== verification/Books.v ===== *)
(** * The books of the accountant

    Proves that the actor of [Accountant.v] keeps its books in order.  A
    [Ledger] says, in unbounded integers, what each wallet was charged and paid;
    [post] says how a message changes it.  [accountant_ok] is the invariant of the
    state and [admissible] what the other actors promise about their messages:
    that the block-chain bridge reports on payments it was told to make, and that
    amounts stay far below the supply of the token.  The theorems show that no
    such message stops the accountant and that its tables agree with the ledger. *)
From S2P Require Import Prelude.
From S2P Require Import BigInt Thresholds AccountingTables Scanners Accountant.
From stdpp Require Import base list gmap strings.

Module Books.
Import Signed BigInt Time Thresholds Daos Scanners Accountant.
Local Open Scope Z_scope.

(** ** The invariant *)

Record accountant_ok (now : Z) (s : Accountant) : Prop := {
  ok_now : valid_time now;
  ok_bound : bound s = true;
  ok_thresholds : thresholds_ok (payment_thresholds s);
  ok_permanent : gwei_to_wei (permanent_debt_allowed_gwei (payment_thresholds s)) < 2 ^ 63;
  ok_payable w r : payable s !! w = Some r → p_row_ok r ∧ last_paid_timestamp r * NANOS ≤ now;
  ok_receivable : receivables_ok (receivable s);
  ok_fingerprints : fingerprints_ok (pending_payables s);
  ok_sent id f : pending_payables s !! id = Some f → payable_timestamp f * NANOS ≤ now;
  ok_marks w r id : payable s !! w = Some r → pending_payable_rowid r = Some id →
    ∃ f, pending_payables s !! id = Some f ∧ f_amount f ≤ p_balance r;
  ok_distinct w w' r r' id : payable s !! w = Some r → payable s !! w' = Some r' →
    pending_payable_rowid r = Some id → pending_payable_rowid r' = Some id → w = w';
  ok_banned : banned_ok (banned s);
  ok_payable_scan ts : payable_initiated_at s = Some ts → ts ≤ now;
  ok_pending_scan ts : pending_payable_initiated_at s = Some ts → ts ≤ now;
  ok_receivable_scan ts : receivable_initiated_at s = Some ts → ts ≤ now;
  ok_total_payable : 0 ≤ total_paid_payable_wei s < MONEY;
  ok_total_receivable : 0 ≤ total_paid_receivable_wei s < MONEY
}.

(** Time passes while a message is handled. *)
Record env_ok (now now' : Z) (env : Env) : Prop := {
  ev_later : now ≤ now';
  ev_valid : valid_time now';
  ev_now : now ≤ e_now env;
  ev_ended : e_now env ≤ e_ended env;
  ev_after : e_ended env ≤ now';
  ev_clock n : now ≤ e_clock env n ≤ now'
}.

(** ** The ledger *)

Record Ledger := MkLedger {
  charged_to : Z → Z;
  settled : Z → Z;
  earned : Z → Z;
  received : Z → Z
}.

Definition cost (service_rate byte_rate size : Z) : Z := service_rate + byte_rate * size.

(** What a report of consumed services charges in favour of a wallet. *)
Definition consumed (s : Accountant) (msg : ReportServicesConsumedMessage) (w : Z) : Z :=
  if our_wallet s w then 0
  else
    (if ec_earning_wallet (exit msg) =? w
     then cost (ec_service_rate (exit msg)) (ec_byte_rate (exit msg)) (ec_payload_size (exit msg)) else 0)
    + foldr (λ r acc, (if rc_earning_wallet r =? w then cost (rc_service_rate r) (rc_byte_rate r) (routing_payload_size msg) else 0) + acc)
        0 (routing msg).

Definition provided (s : Accountant) (msg : ReportServiceProvidedMessage) (w : Z) : Z :=
  if our_wallet s w then 0
  else if paying_wallet msg =? w then cost (service_rate msg) (byte_rate msg) (payload_size msg) else 0.

Definition succeeded (msg : ReportTransactionReceipts) : list PendingPayableFingerprint :=
  omap (λ rf, match rf.1 with RpcResponse (TxSucceeded _) => Some rf.2 | _ => None end) (fingerprints_with_receipts msg).

(** What the confirmed transactions of a report paid to a wallet. *)
Definition confirmed_for (s : Accountant) (msg : ReportTransactionReceipts) (w : Z) : Z :=
  foldr (λ fp acc, (if decide ((payable s !! w ≫= pending_payable_rowid) = Some (fp_rowid fp)) then fp_amount fp else 0) + acc)
    0 (succeeded msg).

Definition got (s : Accountant) (msg : ReceivedPayments) (w : Z) : Z :=
  if decide (is_Some (receivable s !! w)) then paid_by w (transactions msg) else 0.

Definition post (g : Ledger) (s : Accountant) (msg : Message) : Ledger :=
  match msg with
  | ReportServicesConsumed msg => MkLedger (λ w, charged_to g w + consumed s msg w) (settled g) (earned g) (received g)
  | ReportRoutingServiceProvided msg | ReportExitServiceProvided msg =>
      MkLedger (charged_to g) (settled g) (λ w, earned g w + provided s msg w) (received g)
  | ReportTransactionReceiptsMsg msg => MkLedger (charged_to g) (λ w, settled g w + confirmed_for s msg w) (earned g) (received g)
  | ReceivedPaymentsMsg msg => MkLedger (charged_to g) (settled g) (earned g) (λ w, received g w + got s msg w)
  | _ => g
  end.

(** The tables agree with the ledger. *)
Definition balanced (s : Accountant) (g : Ledger) : Prop :=
  (∀ w, owed (payable s) w = charged_to g w - settled g w) ∧ (∀ w, due (receivable s) w = earned g w - received g w).

(** ** What others promise *)

Definition rate_ok (z : Z) : Prop := 0 ≤ z < 2 ^ 64.

Record consumed_ok (now : Z) (s : Accountant) (msg : ReportServicesConsumedMessage) : Prop := {
  co_time : 0 ≤ sc_timestamp msg ≤ now;
  co_exit : rate_ok (ec_service_rate (exit msg)) ∧ rate_ok (ec_byte_rate (exit msg)) ∧ rate_ok (ec_payload_size (exit msg));
  co_size : rate_ok (routing_payload_size msg);
  co_routing r : r ∈ routing msg → rate_ok (rc_service_rate r) ∧ rate_ok (rc_byte_rate r);
  co_money w : owed (payable s) w + consumed s msg w < MONEY
}.

Record provided_ok (now : Z) (s : Accountant) (msg : ReportServiceProvidedMessage) : Prop := {
  vo_time : 0 ≤ pr_timestamp msg ≤ now;
  vo_rates : rate_ok (service_rate msg) ∧ rate_ok (byte_rate msg) ∧ rate_ok (payload_size msg);
  vo_cost : cost (service_rate msg) (byte_rate msg) (payload_size msg) < MONEY;
  vo_money w : due (receivable s) w + provided s msg w < MONEY
}.

(** A wallet waits for the payment with a number. *)
Definition marked (s : Accountant) (id : Z) : Prop := ∃ w r, payable s !! w = Some r ∧ pending_payable_rowid r = Some id.

(** A payment that the bridge calls sent is one of a payable without another
    payment under way, and its fingerprint is not of another payable. *)
Definition sent_payment_ok (s : Accountant) (p : PendingPayable) : Prop :=
  ∃ r id f, payable s !! recipient_wallet p = Some r ∧ pending_payable_rowid r = None ∧
    pending_payables s !! id = Some f ∧ transaction_hash f = pp_hash p ∧ f_amount f ≤ p_balance r ∧ ¬ marked s id.

Definition failed_payment_ok (s : Accountant) (hash : Z) : Prop :=
  ∃ id f, pending_payables s !! id = Some f ∧ transaction_hash f = hash ∧ ¬ marked s id.

Definition sent_ok (s : Accountant) (msg : SentPayables) : Prop :=
  match payment_procedure_result msg with
  | Ok l =>
      let '(oks, errs) := foldl fold_guts ([], []) l in
      l ≠ [] ∧ NoDup ((pp_hash <$> oks) ++ errs) ∧ NoDup (recipient_wallet <$> oks) ∧
      (∀ p, p ∈ oks → sent_payment_ok s p) ∧ (∀ h, h ∈ errs → failed_payment_ok s h)
  | Err (Sending hashes) => NoDup hashes ∧ ∀ h, h ∈ hashes → failed_payment_ok s h
  | Err _ => True
  end.

(** A receipt is about a fingerprint of the table; a transaction that succeeded
    has been marked. *)
Record receipts_ok (s : Accountant) (msg : ReportTransactionReceipts) : Prop := {
  rk_nodup : NoDup ((λ rf, fp_rowid rf.2) <$> fingerprints_with_receipts msg);
  rk_known r fp : (r, fp) ∈ fingerprints_with_receipts msg → ∃ f, pending_payables s !! fp_rowid fp = Some f ∧
    fp_amount fp = f_amount f ∧ fp_timestamp fp = payable_timestamp f * NANOS ∧ attempt f + 1 < 2 ^ 16;
  rk_marked fp : fp ∈ succeeded msg → marked s (fp_rowid fp);
  rk_money : total_paid_payable_wei s + foldr (λ fp acc, fp_amount fp + acc) 0 (succeeded msg) < MONEY
}.

Record seeds_ok (now : Z) (s : Accountant) (msg : PendingPayableFingerprintSeeds) : Prop := {
  sk_time : 0 ≤ batch_wide_timestamp msg ≤ now;
  sk_some : hashes_and_balances msg ≠ [];
  sk_nodup : NoDup (ha_hash <$> hashes_and_balances msg);
  sk_fresh h id f : h ∈ hashes_and_balances msg → pending_payables s !! id = Some f → transaction_hash f ≠ ha_hash h;
  sk_amount h : h ∈ hashes_and_balances msg → 0 ≤ ha_amount h < MONEY;
  sk_room : next_rowid (pending_payables s) + Z.of_nat (length (hashes_and_balances msg)) < 2 ^ 63
}.

Record received_ok (now : Z) (s : Accountant) (msg : ReceivedPayments) : Prop := {
  cv_time : 0 ≤ rp_timestamp msg ≤ now;
  cv_block : transactions msg ≠ [] → new_start_block msg ≠ BlockUninitialized;
  cv_amounts : Forall (λ p, 0 ≤ wei_amount p < MONEY) (transactions msg);
  cv_money w : - MONEY < due (receivable s) w - paid_by w (transactions msg);
  cv_total : total_paid_receivable_wei s + foldr (λ p acc, wei_amount p + acc) 0 (transactions msg) < MONEY
}.

Definition range_ok (lo hi : Z) (specs : RangeSpecs) : Prop :=
  rate_ok (min_age_s specs) ∧ rate_ok (max_age_s specs) ∧
  lo ≤ min_amount_gwei specs < hi ∧ lo ≤ max_amount_gwei specs < hi.

(** The types of a request, and that the sums over all accounts are no more
    money than there is. *)
Record financials_ok (s : Accountant) (msg : UiFinancialsRequest) : Prop := {
  fi_payable q specs : custom_queries_opt msg = Some q → payable_opt q = Some specs → range_ok 0 (2 ^ 64) specs;
  fi_receivable q specs : custom_queries_opt msg = Some q → receivable_opt q = Some specs → range_ok (- 2 ^ 63) (2 ^ 63) specs;
  fi_payables : foldr (λ kr acc, p_balance kr.2 + acc) 0 (map_to_list (payable s)) < MONEY;
  fi_receivables : foldr (λ kr acc, Z.abs (r_balance kr.2) + acc) 0 (map_to_list (receivable s)) < MONEY
}.

Definition admissible (now : Z) (s : Accountant) (msg : Message) : Prop :=
  match msg with
  | ReportServicesConsumed msg => consumed_ok now s msg
  | ReportRoutingServiceProvided msg | ReportExitServiceProvided msg => provided_ok now s msg
  | SentPayablesMsg msg => sent_ok s msg
  | ReportTransactionReceiptsMsg msg => receipts_ok s msg
  | SeedsMsg msg => seeds_ok now s msg
  | ReceivedPaymentsMsg msg => received_ok now s msg
  | UiFinancials _ _ msg => financials_ok s msg
  | UiCrash for_accountant => crashable s && for_accountant = false
  | _ => True
  end.

(** ** Booking services *)

Lemma accountant_ok_later now now' s : accountant_ok now s → now ≤ now' → valid_time now' → accountant_ok now' s.
Proof.
  intros [] Hle Hv. split; try done.
  - intros w r Hr. destruct (ok_payable0 w r Hr). split; [done|lia].
  - intros id f Hf. specialize (ok_sent0 id f Hf). lia.
  - intros ts H. specialize (ok_payable_scan0 ts H). lia.
  - intros ts H. specialize (ok_pending_scan0 ts H). lia.
  - intros ts H. specialize (ok_receivable_scan0 ts H). lia.
Qed.

Lemma valid_before now t : valid_time now → 0 ≤ t ≤ now → valid_time t ∧ t / NANOS * NANOS ≤ t.
Proof.
  unfold valid_time. intros Hn Ht. split; [lia|]. rewrite Z.mul_comm. apply Z.mul_div_le. unfold NANOS. lia.
Qed.

Lemma owed_nonneg now s w : accountant_ok now s → 0 ≤ owed (payable s) w.
Proof.
  intros Hok. unfold owed. destruct (payable s !! w) as [r|] eqn:E; [|done]. cbn.
  apply (po_balance _ (proj1 (ok_payable _ _ Hok _ _ E))).
Qed.

Lemma charge_ok now s ts w a : accountant_ok now s → 0 ≤ ts ≤ now → 0 ≤ a → owed (payable s) w + a < MONEY →
  ∃ t, more_money_payable ts w a (payable s) = Ret (t, Ok ()) ∧ accountant_ok now (set_payable s t) ∧
    ∀ w', owed t w' = owed (payable s) w' + (if w =? w' then a else 0).
Proof.
  intros Hok Hts Ha Hb. destruct (valid_before now ts (ok_now _ _ Hok) Hts) as [Hvt Hfloor].
  destruct (charged_ok (payable s !! w) (ts / NANOS) a) as [Hrow Hbal];
    [intros r Hr; apply (ok_payable _ _ Hok _ _ Hr)|by apply valid_time_secs|done|done|].
  eexists. split; [apply more_money_payable_ok; try done; intros w' r Hr; apply (ok_payable _ _ Hok _ _ Hr)|]. split.
  - destruct Hok. split; try done; cbn [payable set_payable pending_payables].
    + intros w' r [[<- <-]|[_ Hr]]%lookup_insert_Some; [|by eapply ok_payable0]. split; [done|].
      destruct (payable s !! w) as [r|] eqn:E; cbn; [apply (ok_payable0 w r E)|lia].
    + intros w' r id [[<- <-]|[_ Hr]]%lookup_insert_Some Hid; [|by eapply ok_marks0].
      destruct (payable s !! w) as [r|] eqn:E; [|done]. cbn in Hid. destruct (ok_marks0 w r id E Hid) as (f & Hf & Hle).
      exists f. split; [done|]. rewrite Hbal. cbn. lia.
    + assert (Hsame : ∀ x rx id, (<[w := charged (payable s !! w) (ts / NANOS) a]> (payable s)) !! x = Some rx → pending_payable_rowid rx = Some id →
        ∃ rx', payable s !! x = Some rx' ∧ pending_payable_rowid rx' = Some id).
      { intros x rx id [[<- <-]|[_ Hr]]%lookup_insert_Some Hid; [|by exists rx]. destruct (payable s !! w) as [r|] eqn:E; [|done]. by exists r. }
      intros w1 w2 r1 r2 id H1 H2 Hi1 Hi2. destruct (Hsame _ _ _ H1 Hi1) as (? & ? & ?), (Hsame _ _ _ H2 Hi2) as (? & ? & ?).
      by eapply ok_distinct0.
  - intros w'. unfold owed. destruct (w =? w') eqn:E; b2p.
    + subst w'. rewrite lookup_insert_eq. cbn. rewrite Hbal. done.
    + rewrite lookup_insert_ne by done. lia.
Qed.

Lemma total_charge_ok a b c : rate_ok a → rate_ok b → rate_ok c → total_charge a b c = Ret (cost a b c) ∧ 0 ≤ cost a b c.
Proof.
  unfold rate_ok, total_charge, cost. intros Ha Hb Hc. assert (0 ≤ b * c ≤ (2 ^ 64 - 1) * (2 ^ 64 - 1)) by nia.
  rewrite checked_u_ok by lia. cbn [mbind run_bind]. rewrite checked_u_ok by lia. split; [done|lia].
Qed.

Lemma our_wallet_set s t w : our_wallet (set_payable s t) w = our_wallet s w.
Proof. done. Qed.

(** The state with another payable table. *)
Lemma record_service_consumed_ok now s a b ts size w : accountant_ok now s → 0 ≤ ts ≤ now →
  rate_ok a → rate_ok b → rate_ok size → (our_wallet s w = false → owed (payable s) w + cost a b size < MONEY) →
  ∃ t, record_service_consumed s a b ts size w = Ret (set_payable s t) ∧ accountant_ok now (set_payable s t) ∧
    ∀ w', owed t w' = owed (payable s) w' + (if our_wallet s w' then 0 else if w =? w' then cost a b size else 0).
Proof.
  intros Hok Hts Ha Hb Hsize Hm. unfold record_service_consumed.
  destruct (total_charge_ok a b size) as [-> Hc]; [done..|]. cbn [mbind run_bind].
  destruct (our_wallet s w) eqn:E.
  - exists (payable s). assert (set_payable s (payable s) = s) as -> by (by destruct s). split; [done|]. split; [done|].
    intros w'. destruct (our_wallet s w') eqn:E'; [lia|]. destruct (w =? w') eqn:Ew; b2p; [congruence|lia].
  - destruct (charge_ok now s ts w (cost a b size)) as (t & -> & Hok' & Howed); [done..|by apply Hm|].
    exists t. split; [done|]. split; [done|]. intros w'. rewrite Howed. destruct (w =? w') eqn:Ew; b2p; [subst w'; by rewrite E|by case_match].
Qed.

Definition routed (s : Accountant) (size : Z) (l : list RoutingServiceConsumed) (w : Z) : Z :=
  if our_wallet s w then 0
  else foldr (λ r acc, (if rc_earning_wallet r =? w then cost (rc_service_rate r) (rc_byte_rate r) size else 0) + acc) 0 l.

Lemma routed_nonneg s size l w : rate_ok size → (∀ r, r ∈ l → rate_ok (rc_service_rate r) ∧ rate_ok (rc_byte_rate r)) → 0 ≤ routed s size l w.
Proof.
  intros Hsize Hl. unfold routed. case_match; [done|]. induction l as [|x l IH]; [done|]. cbn [foldr].
  destruct (Hl x ltac:(by left)) as [H1 H2]. pose proof (total_charge_ok _ _ _ H1 H2 Hsize) as [_ ?].
  ospecialize (IH _); [intros; apply Hl; by right|]. case_match; lia.
Qed.

Lemma record_routing_ok now s ts size l : accountant_ok now s → 0 ≤ ts ≤ now → rate_ok size →
  (∀ r, r ∈ l → rate_ok (rc_service_rate r) ∧ rate_ok (rc_byte_rate r)) → (∀ w, owed (payable s) w + routed s size l w < MONEY) →
  ∃ t, record_routing s ts size l = Ret (set_payable s t) ∧ accountant_ok now (set_payable s t) ∧
    ∀ w, owed t w = owed (payable s) w + routed s size l w.
Proof.
  intros Hok Hts Hsize. revert s Hok. induction l as [|r l IH]; intros s Hok Hl Hm.
  - exists (payable s). assert (set_payable s (payable s) = s) as -> by (by destruct s). split; [done|]. split; [done|].
    intros w. unfold routed. cbn. case_match; lia.
  - destruct (Hl r ltac:(by left)) as [Hr1 Hr2]. pose proof (total_charge_ok _ _ _ Hr1 Hr2 Hsize) as [_ Hc].
    assert (Hrest : ∀ w, 0 ≤ routed s size l w) by (intros w; apply routed_nonneg; [done|intros; apply Hl; by right]).
    assert (Hsplit : ∀ w, routed s size (r :: l) w = (if our_wallet s w then 0 else if rc_earning_wallet r =? w then cost (rc_service_rate r) (rc_byte_rate r) size else 0) + routed s size l w).
    { intros w. unfold routed. cbn. case_match; lia. }
    cbn [record_routing]. destruct (record_service_consumed_ok now s (rc_service_rate r) (rc_byte_rate r) ts size (rc_earning_wallet r)) as (t & -> & Hok' & Howed); try done.
    { intros E. specialize (Hm (rc_earning_wallet r)). rewrite Hsplit, E, Z.eqb_refl in Hm. specialize (Hrest (rc_earning_wallet r)). lia. }
    cbn [mbind run_bind]. destruct (IH (set_payable s t) Hok') as (t' & -> & Hok'' & Howed').
    { intros; apply Hl; by right. }
    { intros w. cbn [payable set_payable]. rewrite Howed. specialize (Hm w). rewrite Hsplit in Hm.
      change (routed (set_payable s t) size l w) with (routed s size l w). lia. }
    exists t'. split; [done|]. split; [done|]. intros w. rewrite Howed'. cbn [payable set_payable]. rewrite Howed, Hsplit.
    change (routed (set_payable s t) size l w) with (routed s size l w). lia.
Qed.

Lemma services_consumed_ok now s msg : accountant_ok now s → consumed_ok now s msg →
  ∃ t, handle_report_services_consumed_message s msg = Ret (set_payable s t) ∧ accountant_ok now (set_payable s t) ∧
    ∀ w, owed t w = owed (payable s) w + consumed s msg w.
Proof.
  intros Hok [Htime (He1 & He2 & He3) Hsize Hrouting Hm]. unfold handle_report_services_consumed_message.
  assert (Hsplit : ∀ w, consumed s msg w =
    (if our_wallet s w then 0 else if ec_earning_wallet (exit msg) =? w then cost (ec_service_rate (exit msg)) (ec_byte_rate (exit msg)) (ec_payload_size (exit msg)) else 0)
    + routed s (routing_payload_size msg) (routing msg) w).
  { intros w. unfold consumed, routed. case_match; lia. }
  pose proof (λ w, routed_nonneg s (routing_payload_size msg) (routing msg) w Hsize Hrouting) as Hrest.
  destruct (record_service_consumed_ok now s (ec_service_rate (exit msg)) (ec_byte_rate (exit msg)) (sc_timestamp msg)
    (ec_payload_size (exit msg)) (ec_earning_wallet (exit msg))) as (t & -> & Hok' & Howed); try done.
  { intros E. specialize (Hm (ec_earning_wallet (exit msg))). specialize (Hrest (ec_earning_wallet (exit msg))). rewrite Hsplit, E, Z.eqb_refl in Hm. lia. }
  cbn [mbind run_bind]. destruct (record_routing_ok now (set_payable s t) (sc_timestamp msg) (routing_payload_size msg) (routing msg))
    as (t' & -> & Hok'' & Howed'); try done.
  { intros w. cbn [payable set_payable]. rewrite Howed. specialize (Hm w). rewrite Hsplit in Hm.
    change (routed (set_payable s t) _ _ w) with (routed s (routing_payload_size msg) (routing msg) w). lia. }
  exists t'. split; [done|]. split; [done|]. intros w. rewrite Howed'. cbn [payable set_payable]. rewrite Howed, Hsplit.
  change (routed (set_payable s t) _ _ w) with (routed s (routing_payload_size msg) (routing msg) w). lia.
Qed.

Lemma service_provided_ok now s msg : accountant_ok now s → provided_ok now s msg →
  ∃ t, record_service_provided s (service_rate msg) (byte_rate msg) (pr_timestamp msg) (payload_size msg) (paying_wallet msg) = Ret (set_receivable s t) ∧
    accountant_ok now (set_receivable s t) ∧ ∀ w, due t w = due (receivable s) w + provided s msg w.
Proof.
  intros Hok [Htime (H1 & H2 & H3) Hcost Hm]. unfold record_service_provided.
  destruct (total_charge_ok _ _ _ H1 H2 H3) as [-> Hc]. cbn [mbind run_bind]. unfold provided in *.
  destruct (our_wallet s (paying_wallet msg)) eqn:E.
  - exists (receivable s). assert (set_receivable s (receivable s) = s) as -> by (by destruct s). split; [done|]. split; [done|].
    intros w. destruct (our_wallet s w) eqn:E'; [lia|]. destruct (paying_wallet msg =? w) eqn:Ew; b2p; [congruence|lia].
  - specialize (Hm (paying_wallet msg)). rewrite E, Z.eqb_refl in Hm.
    destruct (valid_before now _ (ok_now _ _ Hok) Htime) as [Hvt _].
    rewrite more_money_receivable_ok by (done || apply Hok). cbn [mbind run_bind].
    destruct (served_ok (receivable s !! paying_wallet msg) (pr_timestamp msg / NANOS)
      (cost (service_rate msg) (byte_rate msg) (payload_size msg))) as [Hrow Hbal];
      [intros r Hr; by eapply (ok_receivable _ _ Hok)|by apply valid_time_secs|done|done|].
    eexists. split; [done|]. split.
    + destruct Hok. split; try done. intros w r. cbn [receivable set_receivable]. intros [[<- <-]|[_ Hr]]%lookup_insert_Some; [done|by eapply ok_receivable0].
    + intros w. unfold due. destruct (paying_wallet msg =? w) eqn:Ew; b2p.
      * subst w. rewrite lookup_insert_eq, E. cbn. exact Hbal.
      * rewrite lookup_insert_ne by done. case_match; lia.
Qed.

(** ** Payments on their way *)

Lemma compose_case_Some ps w id : compose_case_expression ps w = Some id → (w, id) ∈ ps.
Proof.
  unfold compose_case_expression. intros H%head_Some_elem_of. apply list_elem_of_fmap in H as ([w' id'] & -> & [Hw Hin]%list_elem_of_filter).
  cbn in *. by subst.
Qed.

Lemma mark_keeps now s ps : accountant_ok now s → NoDup ps.*2 →
  (∀ w id, (w, id) ∈ ps → ¬ marked s id ∧ ∃ r f, payable s !! w = Some r ∧ pending_payables s !! id = Some f ∧ f_amount f ≤ p_balance r) →
  accountant_ok now (set_payable s (mark ps (payable s))) ∧ (∀ w, owed (mark ps (payable s)) w = owed (payable s) w) ∧
  ∀ id, marked (set_payable s (mark ps (payable s))) id → marked s id ∨ id ∈ ps.*2.
Proof.
  intros Hok Hnd Hps.
  assert (Hrow : ∀ w r', mark ps (payable s) !! w = Some r' → ∃ r, payable s !! w = Some r ∧ p_columns r' = p_columns r ∧
    last_paid_timestamp r' = last_paid_timestamp r ∧
    (pending_payable_rowid r' = pending_payable_rowid r ∨ ∃ id, (w, id) ∈ ps ∧ pending_payable_rowid r' = Some id)).
  { intros w r'. rewrite lookup_mark. destruct (payable s !! w) as [r|]; [|done]. cbn. intros [= <-]. exists r. split; [done|].
    destruct (compose_case_expression ps w) as [id|] eqn:E; [|by auto]. apply compose_case_Some in E. cbn. eauto 6. }
  assert (Hpend : ∀ w r' id, mark ps (payable s) !! w = Some r' → pending_payable_rowid r' = Some id →
    (w, id) ∈ ps ∨ ∃ r, payable s !! w = Some r ∧ pending_payable_rowid r = Some id).
  { intros w r' id Hr' Hid. destruct (Hrow _ _ Hr') as (r & Hr & _ & _ & [Heq|(id' & Hin & Heq)]).
    - right. exists r. split; [done|congruence].
    - left. congruence. }
  split; [|split].
  - destruct Hok. split; try done; cbn [payable set_payable pending_payables].
    + intros w r' Hr'. destruct (Hrow _ _ Hr') as (r & Hr & Hc & Ht & _). destruct (ok_payable0 w r Hr) as [[] Hle].
      unfold p_balance in *. split; [split; unfold p_balance; congruence|congruence].
    + intros w r' id Hr' Hid. destruct (Hrow _ _ Hr') as (r & Hr & Hc & _ & _). unfold p_balance. rewrite Hc. destruct (Hpend _ _ _ Hr' Hid) as [Hin|(r1 & Hr1 & Hid1)].
      * destruct (Hps _ _ Hin) as (_ & r1 & f & Hr1 & Hf & Hle). exists f. split; [done|]. rewrite Hr in Hr1. by injection Hr1 as <-.
      * rewrite Hr in Hr1. injection Hr1 as <-. by apply (ok_marks0 w r).
    + intros w w' r r' id Hr Hr' Hid Hid'. destruct (Hpend _ _ _ Hr Hid) as [Hin|(r1 & Hr1 & Hid1)], (Hpend _ _ _ Hr' Hid') as [Hin'|(r2 & Hr2 & Hid2)].
      * assert ((w, id) = (w', id)) as [= ->]; [|done]. by eapply (NoDup_fmap_eq snd ps).
      * destruct (Hps _ _ Hin) as [Hn _]. destruct Hn. by exists w', r2.
      * destruct (Hps _ _ Hin') as [Hn _]. destruct Hn. by exists w, r1.
      * by eapply ok_distinct0.
  - intros w. unfold owed. destruct (mark ps (payable s) !! w) as [r'|] eqn:E.
    + destruct (Hrow _ _ E) as (r & -> & Hc & _). cbn. unfold p_balance. by rewrite Hc.
    + rewrite lookup_mark in E. by destruct (payable s !! w).
  - intros id (w & r' & Hr' & Hid). destruct (Hpend _ _ _ Hr' Hid) as [Hin|(r & Hr & Hid1)].
    + right. by apply (list_elem_of_fmap_2 snd) in Hin.
    + left. by exists w, r.
Qed.

(** Fingerprints of no payable can go. *)
Lemma forget_keeps now s p' : accountant_ok now s → p' ⊆ pending_payables s →
  (∀ id, marked s id → p' !! id = pending_payables s !! id) → accountant_ok now (set_pending_payables s p').
Proof.
  intros [] Hsub Hkeep. split; try done; cbn [payable set_pending_payables pending_payables].
  - destruct ok_fingerprints0. split; intros; [eapply fs_rows|eapply fs_unique]; try done; by eapply lookup_weaken.
  - intros id f Hf. eapply ok_sent0. by eapply lookup_weaken.
  - intros w r id Hr Hid. rewrite Hkeep by (by exists w, r). by eapply ok_marks0.
Qed.

Lemma completion_ok env o : (∀ ts, o = Some ts → ts ≤ e_ended env) → signal_scanner_completion o (e_ended env) = Ret None.
Proof.
  intros Ho. unfold signal_scanner_completion. destruct o as [ts|]; [|done]. unfold duration_since.
  destruct (ts <=? e_ended env) eqn:E; [done|]. b2p. specialize (Ho ts eq_refl). lia.
Qed.

Lemma answer_ok s response : bound s = true → ∃ sent, answer_ui s response = Ret sent.
Proof. intros Hb. unfold answer_ui. destruct response as [[]|]; [rewrite Hb|]; by eexists. Qed.

(** The state after a scan for payables: other tables, the scan is over. *)
Definition payables_sent (s : Accountant) (p : PendingPayableTable) (t : PayableTable) : Accountant :=
  set_payable (set_pending_payables (set_payable_initiated_at s None) p) t.

Section books.
Context (rows : ∀ A, gmap Z A → list (Z * A)) (Hrows : ∀ A (t : gmap Z A), rows A t ≡ₚ map_to_list t).

Lemma discard_keeps now s hashes : accountant_ok now s → NoDup hashes → (∀ h, h ∈ hashes → failed_payment_ok s h) →
  ∃ p, discard_failed_transactions_with_possible_fingerprints rows hashes (pending_payables s) = Ret p ∧
    accountant_ok now (set_pending_payables s p).
Proof using Hrows.
  intros Hok Hnd Hh. eexists. split; [apply (discard_ok rows Hrows); [apply Hok|done|]|].
  - intros h Hin. destruct (Hh h Hin) as (id & f & Hf & Hhash & _). exists id. by exists f.
  - apply forget_keeps; [done|apply map_filter_subseteq|]. intros id Hm.
    destruct (pending_payables s !! id) as [f|] eqn:E; [|apply map_lookup_filter_None; by left].
    apply map_lookup_filter_Some. split; [done|]. cbn. intros Hin. destruct (Hh _ Hin) as (id' & f' & Hf' & Hhash & Hn).
    assert (id' = id) as -> by (by eapply (fs_unique _ (ok_fingerprints _ _ Hok))). done.
Qed.

Lemma mark_sent_keeps now s oks : accountant_ok now s → oks ≠ [] → NoDup (pp_hash <$> oks) → NoDup (recipient_wallet <$> oks) →
  (∀ p, p ∈ oks → sent_payment_ok s p) →
  ∃ t, mark_pending_payable rows oks (pending_payables s) (payable s) = Ret t ∧ accountant_ok now (set_payable s t) ∧
    (∀ w, owed t w = owed (payable s) w) ∧
    ∀ id, marked (set_payable s t) id → marked s id ∨ ∃ p f, p ∈ oks ∧ pending_payables s !! id = Some f ∧ transaction_hash f = pp_hash p.
Proof using Hrows.
  intros Hok Hne Hnd Hndw Hoks.
  destruct (mark_pending_payable_ok rows Hrows oks (pending_payables s) (payable s)) as (ps & -> & Hnd1 & Hnd2 & Hps);
    [apply Hok|done|done|done| |].
  { intros p Hp. destruct (Hoks p Hp) as (r & id & f & Hr & Hpend & Hf & Hh & _). split; [exists id; by exists f|by exists r]. }
  destruct (mark_keeps now s ps Hok Hnd2) as (Hok' & Howed & Hmarked).
  { intros w id (p & Hp & -> & f & Hf & Hh)%Hps. destruct (Hoks p Hp) as (r & id' & f' & Hr & _ & Hf' & Hh' & Hle & Hn).
    assert (id' = id) as -> by (eapply (fs_unique _ (ok_fingerprints _ _ Hok)); [done..|congruence]). split; [done|]. by exists r, f'. }
  exists (mark ps (payable s)). split; [done|]. split; [done|]. split; [done|]. intros id Hid. destruct (Hmarked id Hid) as [|Hin]; [by left|].
  right. apply list_elem_of_fmap in Hin as ([w id'] & -> & (p & Hp & -> & f & Hf & Hh)%Hps). by exists p, f.
Qed.

Lemma separate_spec l oks errs : l ≠ [] → foldl fold_guts ([], []) l = (oks, errs) →
  separate_errors (Ok l) = Ret (oks, match errs with [] => None | _ => Some (RemotelyCausedErrors errs) end).
Proof using.
  intros Hne Heq. unfold separate_errors, separate_rpc_results. destruct l; [done|]. rewrite Heq. by destruct errs.
Qed.

Lemma payable_finish_ok now s env msg : accountant_ok now s → (∀ ts, payable_initiated_at s = Some ts → ts ≤ e_ended env) → sent_ok s msg →
  ∃ p t, payable_finish_scan rows (payable_initiated_at s) msg (e_ended env) (pending_payables s) (payable s) =
      Ret (None, p, t, scan_response (sp_response_skeleton_opt msg)) ∧
    accountant_ok now (payables_sent s p t) ∧ ∀ w, owed t w = owed (payable s) w.
Proof using Hrows.
  intros Hok Hend Hsent. unfold payable_finish_scan.
  assert (Hidle : ∀ p t, accountant_ok now (set_pending_payables (set_payable s t) p) → accountant_ok now (payables_sent s p t)).
  { intros p t []. split; done. }
  unfold sent_ok in Hsent. destruct (payment_procedure_result msg) as [l|e].
  - destruct (foldl fold_guts ([], []) l) as [oks errs] eqn:Efold. destruct Hsent as (Hne & [Hnd [Hdisj Hnde]]%NoDup_app & Hndw & Hoks & Herrs).
    rewrite (separate_spec l oks errs) by done. cbn [mbind run_bind].
    assert (Hmark : ∃ t, match oks with [] => Ret (payable s) | _ => mark_pending_payable rows oks (pending_payables s) (payable s) end = Ret t ∧
      accountant_ok now (set_payable s t) ∧ (∀ w, owed t w = owed (payable s) w) ∧ ∀ h, h ∈ errs → failed_payment_ok (set_payable s t) h).
    { destruct oks as [|p0 oks0] eqn:E.
      - exists (payable s). assert (set_payable s (payable s) = s) as -> by (by destruct s). done.
      - rewrite <- E in *. destruct (mark_sent_keeps now s oks) as (t & -> & Hok' & Howed & Hm); [done|by rewrite E|done|done|done|].
        exists t. split; [done|]. split; [done|]. split; [done|]. intros h Hh. destruct (Herrs h Hh) as (id & f & Hf & Hhash & Hn).
        exists id, f. split; [done|]. split; [done|]. intros [|(p & f' & Hp & Hf' & Hh')]%Hm; [done|].
        apply (Hdisj (pp_hash p)); [by apply list_elem_of_fmap_2|]. rewrite Hf in Hf'. injection Hf' as <-. congruence. }
    destruct Hmark as (t & -> & Hok' & Howed & Herrs'). cbn [mbind run_bind].
    assert (Hdel : ∃ p, handle_sent_payable_errors rows (match errs with [] => None | _ => Some (RemotelyCausedErrors errs) end) (pending_payables s) = Ret p ∧
      accountant_ok now (set_pending_payables (set_payable s t) p)).
    { destruct errs as [|h0 errs0]; [exists (pending_payables s); split; [done|exact Hok']|]. cbn [handle_sent_payable_errors]. by apply (discard_keeps now (set_payable s t)). }
    destruct Hdel as (p & -> & Hok''). cbn [mbind run_bind]. rewrite completion_ok by done. cbn [mbind run_bind].
    exists p, t. split; [done|]. split; [by apply Hidle|done].
  - cbn [separate_errors mbind run_bind].
    assert (Hdel : ∃ p, handle_sent_payable_errors rows (Some (LocallyCausedError e)) (pending_payables s) = Ret p ∧
      accountant_ok now (set_pending_payables (set_payable s (payable s)) p)).
    { assert (set_payable s (payable s) = s) as -> by (by destruct s).
      destruct e; try (exists (pending_payables s); by destruct s). cbn [handle_sent_payable_errors].
      destruct Hsent. by apply discard_keeps. }
    destruct Hdel as (p & -> & Hok''). cbn [mbind run_bind]. rewrite completion_ok by done. cbn [mbind run_bind].
    exists p, (payable s). split; [done|]. split; [by apply Hidle|done].
Qed.

(** ** Payments confirmed *)

Definition failed (l : list (TransactionReceiptResult * PendingPayableFingerprint)) : list PendingPayableFingerprint :=
  omap (λ rf, match rf.1 with RpcResponse TxFailed => Some rf.2 | _ => None end) l.
Definition waiting (l : list (TransactionReceiptResult * PendingPayableFingerprint)) : list PendingPayableFingerprint :=
  omap (λ rf, match rf.1 with RpcResponse TxPending | LocalError => Some rf.2 | _ => None end) l.
Definition paid (l : list (TransactionReceiptResult * PendingPayableFingerprint)) : list PendingPayableFingerprint :=
  omap (λ rf, match rf.1 with RpcResponse (TxSucceeded _) => Some rf.2 | _ => None end) l.

(** Every receipt goes to one of three lists. *)
Lemma report_spec l : handle_receipts_for_pending_transactions l = MkReport (id_of <$> waiting l) (id_of <$> failed l) (paid l).
Proof using.
  clear. unfold handle_receipts_for_pending_transactions.
  match goal with |- foldl ?f _ _ = _ => set (step := f) end.
  assert (H : ∀ acc, foldl step acc l =
    MkReport (still_pending acc ++ (id_of <$> waiting l)) (failures acc ++ (id_of <$> failed l)) (confirmed acc ++ paid l)); [|by rewrite H].
  induction l as [|[res fp] l IH]; intros [a b c]; [by rewrite !app_nil_r|]. cbn [foldl]. rewrite IH. unfold step.
  destruct res as [[| |n]|]; cbn; by rewrite <- ?app_assoc.
Qed.

Lemma foldl_settle_out r fps : (∀ fp, fp ∈ fps → pending_payable_rowid r ≠ Some (fp_rowid fp)) → foldl settle r fps = r.
Proof using.
  clear. induction fps as [|fp fps IH]; intros H; [done|]. cbn [foldl]. unfold settle at 2, pays.
  rewrite bool_decide_false by (apply H; by left). apply IH. intros fp' Hin. apply H. by right.
Qed.

Lemma foldl_settle_in r fps fp : NoDup (fp_rowid <$> fps) → fp ∈ fps → pending_payable_rowid r = Some (fp_rowid fp) →
  foldl settle r fps = confirmed_row (fp_timestamp fp / NANOS) (split (p_balance r - fp_amount fp)).
Proof using.
  clear. revert r. induction fps as [|fp' fps IH]; intros r Hnd Hin Hr; [set_solver|]. cbn in Hnd. apply NoDup_cons in Hnd as [Hni Hnd].
  cbn [foldl]. apply elem_of_cons in Hin as [->|Hin].
  - unfold settle at 2, pays. rewrite bool_decide_true by done. by apply foldl_settle_out.
  - rewrite (settle_same r fp' (fp_rowid fp)); [by apply IH|done|]. intros Heq. apply Hni. rewrite <- Heq. by apply list_elem_of_fmap_2.
Qed.

Lemma sum_for_out (o : option Z) fps : (∀ fp, fp ∈ fps → o ≠ Some (fp_rowid fp)) →
  foldr (λ fp acc, (if decide (o = Some (fp_rowid fp)) then fp_amount fp else 0) + acc) 0 fps = 0.
Proof using.
  clear. induction fps as [|fp fps IH]; intros H; [done|]. cbn [foldr]. rewrite decide_False by (apply H; by left).
  rewrite IH; [done|]. intros fp' Hin. apply H. by right.
Qed.

Lemma sum_for_in (o : option Z) fps fp : NoDup (fp_rowid <$> fps) → fp ∈ fps → o = Some (fp_rowid fp) →
  foldr (λ fp acc, (if decide (o = Some (fp_rowid fp)) then fp_amount fp else 0) + acc) 0 fps = fp_amount fp.
Proof using.
  clear. induction fps as [|fp' fps IH]; intros Hnd Hin Ho; [set_solver|]. cbn in Hnd. apply NoDup_cons in Hnd as [Hni Hnd].
  cbn [foldr]. apply elem_of_cons in Hin as [<-|Hin].
  - rewrite decide_True, sum_for_out; [lia| |done]. intros x Hx Heq. apply Hni. rewrite Ho in Heq. injection Heq as ->. by apply list_elem_of_fmap_2.
  - rewrite decide_False; [rewrite IH by done; lia|]. intros Heq. apply Hni. rewrite Ho in Heq. injection Heq as <-. by apply list_elem_of_fmap_2.
Qed.

(** Each payable is either paid by exactly one of the transactions or as it was. *)
Lemma settle_cases (fps : list PendingPayableFingerprint) r :
  (∃ fp, fp ∈ fps ∧ pending_payable_rowid r = Some (fp_rowid fp)) ∨ (∀ fp, fp ∈ fps → pending_payable_rowid r ≠ Some (fp_rowid fp)).
Proof using.
  clear. destruct (pending_payable_rowid r) as [id|]; [|by right].
  destruct (decide (id ∈ fp_rowid <$> fps)) as [(fp & -> & Hin)%list_elem_of_fmap|Hn]; [left; by exists fp|].
  right. intros fp Hin [= ->]. apply Hn. by apply list_elem_of_fmap_2.
Qed.

(** The transaction of a fingerprint in the table. *)
Definition recorded (s : Accountant) (fp : PendingPayableFingerprint) : Prop :=
  ∃ f, pending_payables s !! fp_rowid fp = Some f ∧ fp_amount fp = f_amount f ∧ fp_timestamp fp = payable_timestamp f * NANOS.

Lemma awaited_ok now s fp : accountant_ok now s → recorded s fp → marked s (fp_rowid fp) → awaited (payable s) fp.
Proof using.
  clear. intros Hok (f & Hf & Ha & Ht) (w & r & Hw & Hr). destruct (fs_rows _ (ok_fingerprints _ _ Hok) _ _ Hf) as [Hid _ Hamount Htime _].
  split; [unfold valid_time; rewrite Ht; unfold NANOS; lia|]. split; [apply fits_i_spec; cbn; lia|].
  exists w, r. split; [done|]. split; [done|]. split; [intros w' r' Hw' Hr'; by eapply (ok_distinct _ _ Hok)|].
  split; [apply (ok_payable _ _ Hok _ _ Hw)|]. destruct (ok_marks _ _ Hok _ _ _ Hw Hr) as (f' & Hf' & Hle).
  rewrite Hf in Hf'. injection Hf' as <-. lia.
Qed.

Lemma add_total_ok fps total : (∀ fp, fp ∈ fps → 0 ≤ fp_amount fp) → 0 ≤ total →
  total + foldr (λ fp acc, fp_amount fp + acc) 0 fps < MONEY →
  add_to_the_total_of_paid_payable fps total = Ret (total + foldr (λ fp acc, fp_amount fp + acc) 0 fps) ∧
  0 ≤ foldr (λ fp acc, fp_amount fp + acc) 0 fps.
Proof using.
  clear. revert total. induction fps as [|fp fps IH]; intros total Hnn H0 Hm; cbn [foldr] in *; [split; [cbn; f_equal; lia|lia]|].
  pose proof (Hnn fp ltac:(by left)). assert (0 ≤ foldr (λ fp acc, fp_amount fp + acc) 0 fps).
  { clear -Hnn. induction fps as [|x l IH]; [done|]. cbn. pose proof (Hnn x ltac:(right; by left)).
    assert (0 ≤ foldr (λ fp acc, fp_amount fp + acc) 0 l) by (apply IH; intros y [->|Hy]%elem_of_cons; apply Hnn; [by left|by right; right]). lia. }
  cbn [add_to_the_total_of_paid_payable]. rewrite checked_u_ok by (unfold MONEY in *; lia). cbn [mbind run_bind].
  destruct (IH (total + fp_amount fp)) as [-> _]; [intros; apply Hnn; by right|lia|lia|]. split; [f_equal; lia|lia].
Qed.

Definition booked (s : Accountant) (fps : list PendingPayableFingerprint) : Accountant :=
  set_total_paid_payable_wei
    (set_payable (set_pending_payables s (filter (λ kr, kr.1 ∉ fp_rowid <$> fps) (pending_payables s)))
       ((λ r, foldl settle r fps) <$> payable s))
    (total_paid_payable_wei s + foldr (λ fp acc, fp_amount fp + acc) 0 fps).

Lemma confirm_ok now s fps : accountant_ok now s → NoDup (fp_rowid <$> fps) →
  (∀ fp, fp ∈ fps → recorded s fp ∧ marked s (fp_rowid fp)) →
  total_paid_payable_wei s + foldr (λ fp acc, fp_amount fp + acc) 0 fps < MONEY →
  confirm_transactions rows fps (pending_payables s) (payable s) (total_paid_payable_wei s) =
    Ret (pending_payables (booked s fps), payable (booked s fps), total_paid_payable_wei (booked s fps)).
Proof using Hrows.
  intros Hok Hnd Hfps Hm. pose proof (ok_total_payable _ _ Hok).
  assert (Hnn : ∀ fp, fp ∈ fps → 0 ≤ fp_amount fp).
  { intros fp Hin. destruct (Hfps fp Hin) as [(f & Hf & -> & _) _]. apply (fo_amount _ _ (fs_rows _ (ok_fingerprints _ _ Hok) _ _ Hf)). }
  unfold confirm_transactions. destruct fps as [|fp0 fps0] eqn:E.
  - cbn. f_equal. f_equal; [|lia]. f_equal; [symmetry; apply map_filter_id; intros; apply not_elem_of_nil|by rewrite map_fmap_id].
  - rewrite <- E in *. rewrite (transactions_confirmed_ok rows Hrows) by
      (done || (intros fp Hin; destruct (Hfps fp Hin); by eapply awaited_ok)).
    cbn [mbind run_bind expect_ok]. destruct (add_total_ok fps (total_paid_payable_wei s)) as [-> _]; [done|lia|done|]. cbn [mbind run_bind].
    unfold delete_fingerprints. rewrite selected_size, Nat.eqb_refl; [done|done|].
    intros id (fp & -> & Hin)%list_elem_of_fmap. destruct (Hfps fp Hin) as [(f & Hf & _) _]. by exists f.
Qed.

Lemma booked_row now s fps w : accountant_ok now s → NoDup (fp_rowid <$> fps) → (∀ fp, fp ∈ fps → recorded s fp) →
  ∀ r', payable (booked s fps) !! w = Some r' → ∃ r, payable s !! w = Some r ∧
    ((∃ fp, fp ∈ fps ∧ pending_payable_rowid r = Some (fp_rowid fp) ∧ pending_payable_rowid r' = None ∧ p_row_ok r' ∧
        p_balance r' = p_balance r - fp_amount fp ∧ last_paid_timestamp r' * NANOS ≤ now) ∨
     (r' = r ∧ ∀ fp, fp ∈ fps → pending_payable_rowid r ≠ Some (fp_rowid fp))).
Proof using.
  clear Hrows rows. intros Hok Hnd Hrec r'. cbn [booked payable set_payable set_total_paid_payable_wei]. rewrite lookup_fmap.
  destruct (payable s !! w) as [r|] eqn:Ew; [|done]. cbn. intros [= <-]. exists r. split; [done|].
  destruct (settle_cases fps r) as [(fp & Hin & Hr)|Hout]; [left|right; split; [by apply foldl_settle_out|done]].
  exists fp. rewrite (foldl_settle_in r fps fp) by done. destruct (Hrec fp Hin) as (f & Hf & Ha & Ht).
  destruct (fs_rows _ (ok_fingerprints _ _ Hok) _ _ Hf) as [_ _ Hamount Htime _].
  destruct (ok_marks _ _ Hok _ _ _ Ew Hr) as (f' & Hf' & Hle). rewrite Hf in Hf'. injection Hf' as <-.
  destruct (ok_payable _ _ Hok _ _ Ew) as [[_ Hb _] _].
  assert (Hv : p_balance (confirmed_row (fp_timestamp fp / NANOS) (split (p_balance r - fp_amount fp))) = p_balance r - fp_amount fp) by apply value_split.
  assert (Hts : fp_timestamp fp / NANOS = payable_timestamp f) by (rewrite Ht; apply Z.div_mul; unfold NANOS; lia).
  split; [done|]. split; [done|]. split; [done|]. split; [|split; [done|]].
  - split; [apply split_ok, storable_money; lia|rewrite Hv; lia|cbn; by rewrite Hts].
  - cbn. rewrite Hts. by eapply (ok_sent _ _ Hok).
Qed.

Lemma booked_ok now s fps : accountant_ok now s → NoDup (fp_rowid <$> fps) → (∀ fp, fp ∈ fps → recorded s fp ∧ marked s (fp_rowid fp)) →
  total_paid_payable_wei s + foldr (λ fp acc, fp_amount fp + acc) 0 fps < MONEY →
  accountant_ok now (booked s fps) ∧ ∀ w, owed (payable (booked s fps)) w =
    owed (payable s) w - foldr (λ fp acc, (if decide ((payable s !! w ≫= pending_payable_rowid) = Some (fp_rowid fp)) then fp_amount fp else 0) + acc) 0 fps.
Proof using.
  clear Hrows rows. intros Hok Hnd Hfps Hm.
  assert (Hrec : ∀ fp, fp ∈ fps → recorded s fp) by (intros fp Hin; apply (Hfps fp Hin)).
  pose proof (λ w, booked_row now s fps w Hok Hnd Hrec) as Hrow. split.
  - pose proof (ok_total_payable _ _ Hok) as Htot.
    destruct (add_total_ok fps (total_paid_payable_wei s)) as [_ Hsum]; [|lia|done|].
    { intros fp Hin. destruct (Hrec fp Hin) as (f & Hf & -> & _). apply (fo_amount _ _ (fs_rows _ (ok_fingerprints _ _ Hok) _ _ Hf)). }
    destruct Hok. split; try done.
    + intros w r' Hr'. destruct (Hrow w r' Hr') as (r & Hr & [(fp & _ & _ & _ & H1 & _ & H2)|[-> _]]); [done|by eapply ok_payable0].
    + destruct ok_fingerprints0. split.
      * intros id f [Hf _]%map_lookup_filter_Some. by apply fs_rows0.
      * intros id id' f f' [Hf _]%map_lookup_filter_Some [Hf' _]%map_lookup_filter_Some. by apply fs_unique0.
    + intros id f [Hf _]%map_lookup_filter_Some. by eapply ok_sent0.
    + intros w r' id Hr' Hid. destruct (Hrow w r' Hr') as (r & Hr & [(fp & _ & _ & Hnone & _)|[-> Hout]]); [congruence|].
      destruct (ok_marks0 w r id Hr Hid) as (f & Hf & Hle). exists f. split; [|done]. apply map_lookup_filter_Some. split; [done|].
      cbn. intros (fp & -> & Hin)%list_elem_of_fmap. by apply (Hout fp Hin).
    + intros w w' r1 r2 id Hr1 Hr2 Hid1 Hid2.
      destruct (Hrow _ _ Hr1) as (r & Hr & [(fp & _ & _ & Hnone & _)|[-> _]]); [congruence|].
      destruct (Hrow _ _ Hr2) as (r' & Hr' & [(fp & _ & _ & Hnone & _)|[-> _]]); [congruence|]. by eapply ok_distinct0.
    + cbn. lia.
  - intros w. unfold owed. destruct (payable (booked s fps) !! w) as [r'|] eqn:Ew.
    + destruct (Hrow _ _ Ew) as (r & -> & [(fp & Hin & Hr & _ & _ & Hbal & _)|[-> Hout]]); cbn [from_option mbind option_bind].
      * by rewrite (sum_for_in _ fps fp).
      * rewrite sum_for_out by done. lia.
    + cbn [booked payable set_payable set_total_paid_payable_wei] in Ew. rewrite lookup_fmap in Ew.
      destruct (payable s !! w); [done|]. cbn. rewrite sum_for_out by done. lia.
Qed.

(** Changing attempts and errors of fingerprints. *)
Lemma update_keeps now s ids f : accountant_ok now s →
  (∀ id r, pending_payables s !! id = Some r → id ∈ ids → f_row_ok id (f r)) →
  (∀ r, transaction_hash (f r) = transaction_hash r ∧ f_amount (f r) = f_amount r ∧ payable_timestamp (f r) = payable_timestamp r) →
  accountant_ok now (set_pending_payables s (update_selected ids f (pending_payables s))).
Proof using.
  clear Hrows rows. intros Hok Hrows' Hsame.
  assert (Hrow : ∀ id r', update_selected ids f (pending_payables s) !! id = Some r' → ∃ r, pending_payables s !! id = Some r ∧
    f_row_ok id r' ∧ transaction_hash r' = transaction_hash r ∧ f_amount r' = f_amount r ∧ payable_timestamp r' = payable_timestamp r).
  { intros id r'. rewrite lookup_update_selected. case_decide as Hin.
    - destruct (pending_payables s !! id) as [r|] eqn:E; [|done]. cbn. intros [= <-]. exists r. split; [done|]. split; [by apply Hrows'|apply Hsame].
    - intros E. exists r'. split; [done|]. split; [|done]. by apply (fs_rows _ (ok_fingerprints _ _ Hok)). }
  destruct Hok. split; try done; cbn [payable set_pending_payables pending_payables].
  - destruct ok_fingerprints0 as [_ Huniq]. split.
    + intros id r' (r & _ & H & _)%Hrow. done.
    + intros id id' r1 r2 (r & Hr & _ & Hh & _)%Hrow (r' & Hr' & _ & Hh' & _)%Hrow Heq. eapply Huniq; [done..|congruence].
  - intros id r' (r & Hr & _ & _ & _ & ->)%Hrow. by eapply ok_sent0.
  - intros w r id Hr Hid. destruct (ok_marks0 w r id Hr Hid) as (f0 & Hf0 & Hle).
    destruct (update_selected ids f (pending_payables s) !! id) as [r'|] eqn:E.
    + exists r'. split; [done|]. destruct (Hrow _ _ E) as (r0 & Hr0 & _ & _ & -> & _). rewrite Hf0 in Hr0. by injection Hr0 as <-.
    + rewrite lookup_update_selected, Hf0 in E. by case_decide.
Qed.

Lemma cancel_keeps now s ids : accountant_ok now s → NoDup (pid_rowid <$> ids) → (∀ id, id ∈ ids → is_Some (pending_payables s !! pid_rowid id)) →
  ∃ p, cancel_failed_transactions ids (pending_payables s) = Ret p ∧ accountant_ok now (set_pending_payables s p) ∧
    ∀ id r, pending_payables s !! id = Some r → ∃ r', p !! id = Some r' ∧ attempt r' = attempt r.
Proof using.
  clear Hrows rows. intros Hok Hnd Hin. unfold cancel_failed_transactions. destruct ids as [|i ids0] eqn:E.
  - exists (pending_payables s). assert (set_pending_payables s (pending_payables s) = s) as -> by (by destruct s). split; [done|]. split; [done|]. by eauto.
  - rewrite <- E in *. unfold mark_failures. rewrite selected_size, Nat.eqb_refl by (done || (intros id (x & -> & Hx)%list_elem_of_fmap; by apply Hin)).
    cbn [mbind run_bind expect_ok]. eexists. split; [done|]. split.
    + apply update_keeps; [done| |done]. intros id r Hr _. by destruct (fs_rows _ (ok_fingerprints _ _ Hok) _ _ Hr).
    + intros id r Hr. rewrite lookup_update_selected, Hr. case_decide; cbn; eauto.
Qed.

Lemma remaining_keeps now s ids : accountant_ok now s → NoDup (pid_rowid <$> ids) →
  (∀ id, id ∈ ids → ∃ r, pending_payables s !! pid_rowid id = Some r ∧ attempt r + 1 < 2 ^ 16) →
  ∃ p, update_remaining_fingerprints ids (pending_payables s) = Ret p ∧ accountant_ok now (set_pending_payables s p).
Proof using.
  clear Hrows rows. intros Hok Hnd Hin. unfold update_remaining_fingerprints. destruct ids as [|i ids0] eqn:E.
  - exists (pending_payables s). split; [done|]. by destruct s.
  - rewrite <- E in *. unfold increment_scan_attempts.
    rewrite selected_size, Nat.eqb_refl by (done || (intros id (x & -> & Hx)%list_elem_of_fmap; destruct (Hin x Hx) as (r & Hr & _); by exists r)).
    cbn [mbind run_bind expect_ok]. eexists. split; [done|]. apply update_keeps; [done| |done].
    intros id r Hr (x & -> & Hx)%list_elem_of_fmap. destruct (Hin x Hx) as (r0 & Hr0 & Hat). rewrite Hr in Hr0. injection Hr0 as <-.
    destruct (fs_rows _ (ok_fingerprints _ _ Hok) _ _ Hr). split; try done. cbn. lia.
Qed.

(** The parts of a report have different numbers. *)
Lemma omap_disjoint (f g : TransactionReceiptResult * PendingPayableFingerprint → option PendingPayableFingerprint) l :
  (∀ rf fp, f rf = Some fp → fp = rf.2) → (∀ rf fp, g rf = Some fp → fp = rf.2) → (∀ rf, f rf = None ∨ g rf = None) →
  NoDup ((λ rf, fp_rowid rf.2) <$> l) →
  NoDup (fp_rowid <$> omap f l) ∧ ∀ fp fp', fp ∈ omap f l → fp' ∈ omap g l → fp_rowid fp ≠ fp_rowid fp'.
Proof using.
  clear. intros Hf Hg Hfg Hnd. split.
  - induction l as [|rf l IH]; [constructor|]. cbn in Hnd. apply NoDup_cons in Hnd as [Hni Hnd]. cbn.
    destruct (f rf) as [fp|] eqn:E; [|by apply IH]. cbn. apply NoDup_cons. split; [|by apply IH].
    intros (fp' & Heq & (rf' & Hin & Hf')%list_elem_of_omap)%list_elem_of_fmap. apply Hni. rewrite (Hf _ _ E) in Heq. rewrite (Hf _ _ Hf') in Heq.
    rewrite Heq. by apply (list_elem_of_fmap_2 (λ rf, fp_rowid rf.2)).
  - intros fp fp' (rf & Hin & H1)%list_elem_of_omap (rf' & Hin' & H2)%list_elem_of_omap Heq.
    rewrite (Hf _ _ H1), (Hg _ _ H2) in Heq. assert (rf = rf') as -> by (by eapply (NoDup_fmap_eq (λ rf, fp_rowid rf.2) l)).
    destruct (Hfg rf'); congruence.
Qed.

Definition receipts_handled (s : Accountant) (p : PendingPayableTable) (t : PayableTable) (total : Z) : Accountant :=
  set_total_paid_payable_wei (set_payable (set_pending_payables (set_pending_payable_initiated_at s None) p) t) total.

Lemma process_ok now s msg : accountant_ok now s → receipts_ok s msg →
  ∃ p t total, process_transactions_by_reported_state rows
      (handle_receipts_for_pending_transactions (fingerprints_with_receipts msg)) (pending_payables s) (payable s) (total_paid_payable_wei s)
      = Ret (p, t, total) ∧
    accountant_ok now (receipts_handled s p t total) ∧ ∀ w, owed t w = owed (payable s) w - confirmed_for s msg w.
Proof using Hrows.
  intros Hok [Hnd Hknown Hmarked Hm]. set (l := fingerprints_with_receipts msg) in *. rewrite report_spec.
  assert (Hin : ∀ f fp, (∀ rf fp, f rf = Some fp → fp = rf.2) → fp ∈ omap f l → ∃ r, (r, fp) ∈ l).
  { intros f fp Hf ([r fp'] & Hin & Heq)%list_elem_of_omap. apply Hf in Heq as ->. by exists r. }
  assert (Hsnd : ∀ fp, fp ∈ waiting l ∨ fp ∈ failed l ∨ fp ∈ paid l → ∃ r, (r, fp) ∈ l).
  { intros fp [H|[H|H]]; (eapply Hin; [|exact H]); intros [[[]|] ?] ? [=]; done. }
  destruct (omap_disjoint (λ rf, match rf.1 with RpcResponse (TxSucceeded _) => Some rf.2 | _ => None end)
    (λ rf, match rf.1 with RpcResponse TxFailed => Some rf.2 | _ => None end) l) as [Hnd1 Hdis1];
    [intros [[[]|] ?] ? [=]; done|intros [[[]|] ?] ? [=]; done|intros [[[]|] ?]; auto|done|].
  destruct (omap_disjoint (λ rf, match rf.1 with RpcResponse TxFailed => Some rf.2 | _ => None end)
    (λ rf, match rf.1 with RpcResponse (TxSucceeded _) => Some rf.2 | _ => None end) l) as [Hnd2 _];
    [intros [[[]|] ?] ? [=]; done|intros [[[]|] ?] ? [=]; done|intros [[[]|] ?]; auto|done|].
  destruct (omap_disjoint (λ rf, match rf.1 with RpcResponse TxPending | LocalError => Some rf.2 | _ => None end)
    (λ rf, match rf.1 with RpcResponse (TxSucceeded _) => Some rf.2 | _ => None end) l) as [Hnd3 Hdis3];
    [intros [[[]|] ?] ? [=]; done|intros [[[]|] ?] ? [=]; done|intros [[[]|] ?]; auto|done|].
  fold (paid l) in *. fold (failed l) in *. fold (waiting l) in *. unfold process_transactions_by_reported_state. cbn [confirmed failures still_pending].
  assert (Hrec : ∀ fp, fp ∈ paid l → recorded s fp ∧ marked s (fp_rowid fp)).
  { intros fp Hfp. split; [|by apply Hmarked]. destruct (Hsnd fp ltac:(auto)) as [r Hr]. destruct (Hknown _ _ Hr) as (f & Hf & Ha & Ht & _). by exists f. }
  rewrite (confirm_ok now s (paid l)) by done. cbn [mbind run_bind].
  destruct (booked_ok now s (paid l)) as [Hok1 Howed]; [done..|]. set (s1 := booked s (paid l)) in *.
  assert (Hkeep : ∀ fp, (∀ fp', fp' ∈ paid l → fp_rowid fp ≠ fp_rowid fp') → (∃ r, (r, fp) ∈ l) →
    ∃ f, pending_payables s1 !! fp_rowid fp = Some f ∧ attempt f + 1 < 2 ^ 16).
  { intros fp Hne [r Hr]. destruct (Hknown _ _ Hr) as (f & Hf & _ & _ & Hat). exists f. split; [|done].
    apply map_lookup_filter_Some. split; [done|]. cbn. intros (fp' & Heq & Hp)%list_elem_of_fmap. by apply (Hne fp' Hp). }
  destruct (cancel_keeps now s1 (id_of <$> failed l)) as (p2 & -> & Hok2 & Hatt); [done|by rewrite <- list_fmap_compose| |].
  { intros x (fp & -> & Hfp)%list_elem_of_fmap. destruct (Hkeep fp) as (f & Hf & _); [|by apply Hsnd; auto|by exists f].
    intros fp' Hp Heq. by apply (Hdis1 fp' fp). }
  cbn [mbind run_bind]. destruct (remaining_keeps now (set_pending_payables s1 p2) (id_of <$> waiting l)) as (p3 & Hp3 & Hok3); [done|by rewrite <- list_fmap_compose| |].
  { intros x (fp & -> & Hfp)%list_elem_of_fmap. destruct (Hkeep fp) as (f & Hf & Hat); [by intros fp' Hp; apply Hdis3|by apply Hsnd; auto|].
    destruct (Hatt _ _ Hf) as (f' & Hf' & Heq). exists f'. split; [done|]. lia. }
  cbn [pending_payables set_pending_payables] in Hp3. rewrite Hp3. cbn [mbind run_bind].
  do 3 eexists. split; [done|]. split; [|done]. clear -Hok3. destruct Hok3. by split.
Qed.

Lemma pending_finish_ok now s env msg : accountant_ok now s → (∀ ts, pending_payable_initiated_at s = Some ts → ts ≤ e_ended env) → receipts_ok s msg →
  ∃ p t total, pending_payable_finish_scan rows (pending_payable_initiated_at s) msg (e_ended env) (pending_payables s) (payable s) (total_paid_payable_wei s)
      = Ret (None, p, t, total, scan_response (rt_response_skeleton_opt msg)) ∧
    accountant_ok now (receipts_handled s p t total) ∧ ∀ w, owed t w = owed (payable s) w - confirmed_for s msg w.
Proof using Hrows.
  intros Hok Hend Hr. unfold pending_payable_finish_scan. destruct (fingerprints_with_receipts msg) as [|rf l] eqn:E.
  - cbn [mbind run_bind]. rewrite completion_ok by done. cbn [mbind run_bind]. do 3 eexists. split; [done|]. split.
    + clear -Hok. destruct Hok. by split.
    + intros w. unfold confirmed_for, succeeded. rewrite E. cbn. lia.
  - rewrite <- E. destruct (process_ok now s msg Hok Hr) as (p & t & total & -> & Hok' & Howed). cbn [mbind run_bind].
    rewrite completion_ok by done. cbn [mbind run_bind]. by exists p, t, total.
Qed.

(** ** Other messages about payments *)

(** The row that a seed becomes. *)
Definition seed_row (ts : Z) (h : HashAndAmount) : PendingPayableRow :=
  MkPendingPayableRow (ha_hash h) (split (ha_amount h)).1 (split (ha_amount h)).2 ts 1 None.

Lemma seeds_keep now s msg : accountant_ok now s → seeds_ok now s msg →
  ∃ p, handle_new_pending_payable_fingerprints s msg = Ret (set_pending_payables s p) ∧ accountant_ok now (set_pending_payables s p) ∧
    insert_rows (seed_row (batch_wide_timestamp msg / NANOS) <$> hashes_and_balances msg) (pending_payables s) = Ok p.
Proof using.
  clear Hrows rows. intros Hok [Htime Hsome Hnd Hfresh Hamount Hroom]. destruct (valid_before now _ (ok_now _ _ Hok) Htime) as [Hvt Hfloor].
  destruct (valid_time_secs _ Hvt) as [Htt Hsecs]. set (ts := batch_wide_timestamp msg / NANOS) in *.
  unfold handle_new_pending_payable_fingerprints, insert_new_fingerprints. rewrite Htt. cbn [mbind run_bind].
  set (row := seed_row ts).
  assert (Hv : ∀ h, f_amount (row h) = ha_amount h) by (intros h; apply value_split).
  rewrite (run_map_ok _ row).
  2: { intros h Hin. pose proof (Hamount h Hin). unfold value_clause. rewrite checked_conversion_ok by (apply fits_i_spec; unfold MONEY in *; cbn; lia).
       cbn [mbind run_bind]. by rewrite deconstruct_ok by (by apply storable_money). }
  cbn [mbind run_bind]. destruct (insert_rows_ok (row <$> hashes_and_balances msg) (pending_payables s)) as (p & Hins & Hp & Hsub & Hall & Honly).
  { apply Hok. } { by rewrite <- list_fmap_compose. } { by rewrite length_fmap. }
  { intros r (h & -> & Hin)%list_elem_of_fmap. pose proof (Hamount h Hin). split.
    - intros id Hid. split; [done|apply split_ok; by apply storable_money|by rewrite Hv|done|done].
    - intros id r' Hr'. by apply (Hfresh h id r'). }
  destruct (row <$> hashes_and_balances msg) as [|r0 rs] eqn:E; [by destruct (hashes_and_balances msg)|]. rewrite <- E in *. rewrite Hins. cbn [mbind run_bind].
  exists p. split; [done|]. split; [|done].
  - destruct Hok. split; try done; cbn [payable set_pending_payables pending_payables].
    + intros id f Hf. destruct (Honly id f Hf) as [Hold|[_ (h & -> & _)%list_elem_of_fmap]]; [by eapply ok_sent0|cbn; lia].
    + intros w r id Hr Hid. destruct (ok_marks0 w r id Hr Hid) as (f & Hf & Hle). exists f. split; [by eapply lookup_weaken|done].
Qed.

Lemma sum_wei_ok ps acc : Forall (λ p, 0 ≤ wei_amount p < MONEY) ps → 0 ≤ acc → acc + foldr (λ p acc, wei_amount p + acc) 0 ps < MONEY →
  sum_wei ps acc = Ret (acc + foldr (λ p acc, wei_amount p + acc) 0 ps) ∧ 0 ≤ foldr (λ p acc, wei_amount p + acc) 0 ps.
Proof using.
  clear. intros Hps. revert acc. induction Hps as [|p ps Hp Hps IH]; intros acc Ha Hm; cbn [foldr] in *; [split; [cbn; f_equal; lia|lia]|].
  assert (0 ≤ foldr (λ p acc, wei_amount p + acc) 0 ps) by (clear -Hps; induction Hps; cbn; lia).
  cbn [sum_wei]. rewrite checked_u_ok by (unfold MONEY in *; lia). cbn [mbind run_bind].
  destruct (IH (acc + wei_amount p)) as [-> _]; [lia|lia|]. split; [f_equal; lia|lia].
Qed.

Lemma received_keeps now s env msg : accountant_ok now s → (∀ ts, receivable_initiated_at s = Some ts → ts ≤ e_ended env) → received_ok now s msg →
  ∃ t block total, receivable_finish_scan (receivable_initiated_at s) msg (e_ended env) (receivable s) (start_block s) (total_paid_receivable_wei s)
      = Ret (None, t, block, total, scan_response (rp_response_skeleton_opt msg)) ∧
    accountant_ok now (set_received (set_receivable_initiated_at s None) t block total) ∧
    ∀ w, due t w = due (receivable s) w - got s msg w.
Proof using.
  clear Hrows rows. intros Hok Hend [Htime Hblock Ham Hm Htot]. unfold receivable_finish_scan, handle_new_received_payments.
  destruct (transactions msg) as [|p0 ps0] eqn:E.
  - cbn [mbind run_bind]. rewrite completion_ok by done. cbn [mbind run_bind]. do 3 eexists. split; [done|]. split.
    + clear -Hok. destruct Hok. by split.
    + intros w. unfold got. rewrite E. cbn. case_decide; lia.
  - rewrite <- E in *. destruct (valid_before now _ (ok_now _ _ Hok) Htime) as [Hvt _].
    destruct (more_money_received_ok (rp_timestamp msg) (transactions msg) (receivable s)) as (t & -> & Ht & _ & Hdue); [apply Hok|done|done|done|].
    cbn [mbind run_bind]. destruct (new_start_block msg) as [|n]; [destruct Hblock; [by rewrite E|done]|].
    pose proof (ok_total_receivable _ _ Hok). destruct (sum_wei_ok (transactions msg) 0) as [-> Hsum]; [done|lia|lia|]. cbn [mbind run_bind].
    rewrite checked_u_ok by (unfold MONEY in *; lia). cbn [mbind run_bind]. rewrite completion_ok by done. cbn [mbind run_bind].
    do 3 eexists. split; [done|]. split; [|done]. clear -Hok Ht Hsum Htot. destruct Hok. split; try done. cbn. lia.
Qed.

(** ** Beginning scans *)

Lemma scan_payable_keeps now now' env s sk : accountant_ok now s → env_ok now now' env →
  ∃ o sent, handle_request_of_scan_for_payable rows env s sk = Ret (set_payable_initiated_at s o, sent) ∧
    accountant_ok now' (set_payable_initiated_at s o).
Proof using Hrows.
  intros Hok [Hlater Hvalid Hnow Hended Hafter Hclock]. pose proof (accountant_ok_later _ _ _ Hok Hlater Hvalid) as Hok'.
  assert (Hself : set_payable_initiated_at s (payable_initiated_at s) = s) by (by destruct s).
  assert (Hset : ∀ o, (∀ ts, o = Some ts → ts ≤ now') → accountant_ok now' (set_payable_initiated_at s o)).
  { intros o Ho. clear -Hok' Ho. destruct Hok'. by split. }
  unfold handle_request_of_scan_for_payable. destruct (consuming_wallet_opt s) as [wallet|].
  2: { exists (payable_initiated_at s), []. rewrite Hself. done. }
  destruct (payable_initiated_at s) as [started|] eqn:E.
  - cbn [payable_begin_scan mbind run_bind]. exists (Some started), []. split; [done|]. by rewrite Hself.
  - destruct (payable_begin_scan_ok rows Hrows (payment_thresholds s) wallet (e_now env) sk (e_clock env) (e_ended env) (payable s)) as (q & -> & _).
    + apply Hok.
    + intros w r Hr. apply (ok_payable _ _ Hok _ _ Hr).
    + intros n. pose proof (ok_now _ _ Hok). specialize (Hclock n). unfold valid_time in *. lia.
    + lia.
    + intros w r n Hr. specialize (Hclock n). destruct (ok_payable _ _ Hok _ _ Hr). lia.
    + destruct q as [|a q]; cbn [mbind run_bind].
      * exists None, []. split; [done|]. by apply Hset.
      * replace (bound (set_payable_initiated_at s (Some (e_now env)))) with true by (symmetry; apply Hok). exists (Some (e_now env)). eexists. split; [done|].
        apply Hset. intros ts [= <-]. lia.
Qed.

Lemma scan_pending_keeps now now' env s sk : accountant_ok now s → env_ok now now' env →
  ∃ o sent, handle_request_of_scan_for_pending_payable rows env s sk = Ret (set_pending_payable_initiated_at s o, sent) ∧
    accountant_ok now' (set_pending_payable_initiated_at s o).
Proof using Hrows.
  intros Hok [Hlater Hvalid Hnow Hended Hafter Hclock]. pose proof (accountant_ok_later _ _ _ Hok Hlater Hvalid) as Hok'.
  assert (Hself : set_pending_payable_initiated_at s (pending_payable_initiated_at s) = s) by (by destruct s).
  assert (Hset : ∀ o, (∀ ts, o = Some ts → ts ≤ now') → accountant_ok now' (set_pending_payable_initiated_at s o)).
  { intros o Ho. clear -Hok' Ho. destruct Hok'. by split. }
  unfold handle_request_of_scan_for_pending_payable. destruct (consuming_wallet_opt s) as [wallet|].
  2: { exists (pending_payable_initiated_at s), []. rewrite Hself. done. }
  destruct (pending_payable_initiated_at s) as [started|] eqn:E.
  - cbn [pending_payable_begin_scan mbind run_bind]. exists (Some started), []. split; [done|]. by rewrite Hself.
  - rewrite (pending_payable_begin_scan_ok rows Hrows) by (done || apply Hok). destruct (fingerprint <$> _) as [|a q]; cbn [mbind run_bind].
    + exists None, []. split; [done|]. by apply Hset.
    + replace (bound (set_pending_payable_initiated_at s (Some (e_now env)))) with true by (symmetry; apply Hok).
      exists (Some (e_now env)). eexists. split; [done|]. apply Hset. intros ts [= <-]. lia.
Qed.

Lemma scan_receivable_keeps now now' env s sk : accountant_ok now s → env_ok now now' env →
  ∃ o b sent, handle_request_of_scan_for_receivable rows env s sk = Ret (set_banned (set_receivable_initiated_at s o) b, sent) ∧
    accountant_ok now' (set_banned (set_receivable_initiated_at s o) b).
Proof using Hrows.
  intros Hok [Hlater Hvalid Hnow Hended Hafter Hclock]. pose proof (accountant_ok_later _ _ _ Hok Hlater Hvalid) as Hok'.
  assert (Hset : ∀ o b, (∀ ts, o = Some ts → ts ≤ now') → banned_ok b → accountant_ok now' (set_banned (set_receivable_initiated_at s o) b)).
  { intros o b Ho Hb. clear -Hok' Ho Hb. destruct Hok'. by split. }
  unfold handle_request_of_scan_for_receivable. destruct (receivable_initiated_at s) as [started|] eqn:E.
  - cbn [receivable_begin_scan mbind run_bind]. exists (Some started), (banned s), []. split; [done|]. apply Hset; [|apply Hok].
    intros ts [= <-]. by apply (ok_receivable_scan _ _ Hok').
  - cbn [receivable_begin_scan]. destruct (scan_for_delinquencies_ok rows Hrows (payment_thresholds s) (e_now env) (receivable s) (banned s)) as (b & -> & Hb & _).
    + apply Hok.
    + apply Hok.
    + apply Hok.
    + pose proof (ok_now _ _ Hok). unfold valid_time in *. lia.
    + apply Hok.
    + cbn [mbind run_bind]. replace (bound (set_banned (set_receivable_initiated_at s (Some (e_now env))) b)) with true by (symmetry; apply Hok).
      exists (Some (e_now env)), b. eexists. split; [done|]. apply Hset; [|done]. intros ts [= <-]. lia.
Qed.

(** ** Questions about money *)

Lemma run_map_total {A B} (f : A → run B) (P : B → Prop) l : (∀ x, x ∈ l → ∃ y, f x = Ret y ∧ P y) →
  ∃ l', run_map f l = Ret l' ∧ ∀ y, y ∈ l' → P y.
Proof using.
  clear. induction l as [|x l IH]; intros H; [exists []; split; [done|set_solver]|].
  destruct (H x ltac:(by left)) as (y & Hy & HP). destruct IH as (l' & Hl' & HP'); [intros; apply H; by right|].
  exists (y :: l'). cbn. rewrite Hy. cbn. rewrite Hl'. split; [done|]. intros z [->|Hz]%elem_of_cons; [done|by apply HP'].
Qed.

Lemma foldr_perm {A} (f : A → Z) l l' : l ≡ₚ l' → foldr (λ x acc, f x + acc) 0 l = foldr (λ x acc, f x + acc) 0 l'.
Proof using. clear. induction 1; cbn in *; lia. Qed.

Lemma run_sum_ok (l : list Z) acc : Z.abs acc + foldr (λ z acc, Z.abs z + acc) 0 l < MONEY →
  ∃ sum, run_sum l acc = Ret sum ∧ Z.abs sum ≤ Z.abs acc + foldr (λ z acc, Z.abs z + acc) 0 l ∧
    (0 ≤ acc → (∀ z, z ∈ l → 0 ≤ z) → 0 ≤ sum).
Proof using.
  clear. revert acc. induction l as [|z l IH]; intros acc Hm; cbn [foldr] in *; [exists acc; split; [done|lia]|].
  assert (0 ≤ foldr (λ z acc, Z.abs z + acc) 0 l) by (clear; induction l; cbn; lia).
  cbn [run_sum]. rewrite checked_i_ok by (unfold MONEY in *; cbn; lia). cbn [mbind run_bind].
  destruct (IH (acc + z)) as (sum & -> & Hle & Hnn); [lia|]. exists sum. split; [done|]. split; [lia|].
  intros Ha Hl. apply Hnn; [pose proof (Hl z ltac:(by left)); lia|intros; apply Hl; by right].
Qed.

Lemma query_rows_ok {R} `{Queried R} (q : CustomQuery) ext (t : gmap Z R) :
  (match q with
   | TopRecords _ _ => True
   | RangeQuery a b c d ts => 0 ≤ a < 2 ^ 63 ∧ 0 ≤ b < 2 ^ 63 ∧ - 2 ^ 63 ≤ c < 2 ^ 63 ∧ - 2 ^ 63 ≤ d < 2 ^ 63 ∧ valid_time ts
   end) →
  ∃ l, query_rows rows q ext t = Ret l ∧ ∀ kr, kr ∈ l → t !! kr.1 = Some kr.2 ∧
    (at_least_one_gwei kr = true ∨ (match q with TopRecords _ _ => False | _ => True end) ∧ ext kr = true).
Proof using Hrows.
  intros Hq. destruct q as [count ord|a b c d ts]; cbn [query_rows].
  - eexists. split; [done|]. intros [w r] Hin%elem_of_take. destruct Hin as (i & Hi & _). apply list_elem_of_lookup_2 in Hi.
    unfold sort_by in Hi. rewrite merge_sort_Permutation in Hi. apply list_elem_of_filter in Hi as [Hg Hv]. apply (visited rows Hrows) in Hv. auto.
  - destruct Hq as (Ha & Hb & Hc & Hd & Hts). destruct (valid_time_secs ts Hts) as [Htt Hs]. unfold set_age_constraints. rewrite Htt. cbn [mbind run_bind].
    rewrite !checked_conversion_ok by (apply fits_i_spec; cbn; lia). cbn [mbind run_bind].
    rewrite checked_i_ok by (cbn; lia). cbn [mbind run_bind]. rewrite checked_i_ok by (cbn; lia). cbn [mbind run_bind].
    unfold set_wei_constraints. rewrite !deconstruct_ok by (unfold storable, WEIS_IN_GWEI; lia). cbn [mbind run_bind].
    eexists. split; [done|]. intros [w r] Hi. unfold sort_by in Hi. rewrite merge_sort_Permutation in Hi.
    apply list_elem_of_filter in Hi as [[_ Hg]%andb_prop Hv]. apply (visited rows Hrows) in Hv. auto.
Qed.

Lemma one_gwei {R} `{Queried R} (kr : Z * R) : columns_ok (q_columns kr.2) →
  at_least_one_gwei kr = true → WEIS_IN_GWEI ≤ value (q_columns kr.2).
Proof using.
  clear. unfold at_least_one_gwei, columns_ok, value, WEIS_IN_GWEI. destruct (q_columns kr.2) as [h l]. cbn [fst snd].
  intros Hc Hg. apply orb_prop in Hg as [Hg|[Hg1 Hg2]%andb_prop]; b2p; lia.
Qed.

(** The least amounts below zero that are shown are above one gwei in size. *)
Lemma shown_receivable r w : columns_ok (r_columns r) →
  at_least_one_gwei (w, r) = true ∨ receivable_extension (w, r) = true → WEIS_IN_GWEI ≤ Z.abs (r_balance r).
Proof using.
  clear. intros Hc Hg.
  assert (Hone : at_least_one_gwei (w, r) = true → WEIS_IN_GWEI ≤ Z.abs (r_balance r)).
  { intros H. apply (one_gwei (w, r)) in H; [|done]. change (WEIS_IN_GWEI ≤ r_balance r) in H. lia. }
  destruct Hg as [Hg|Hg]; [by apply Hone|]. unfold receivable_extension in Hg. apply orb_prop in Hg as [Hg|Hg]; [by apply Hone|].
  cbn [snd] in Hg. unfold r_balance, value, WEIS_IN_GWEI. unfold columns_ok in Hc. cbn [r_columns fst snd] in *.
  apply orb_prop in Hg as [Hg|[Hg1 Hg2]%andb_prop]; b2p; lia.
Qed.

Lemma to_age_ok now t : valid_time now → 0 ≤ t < 2 ^ 63 → ∃ d, to_age now (t * NANOS) = Ret d.
Proof using.
  clear. intros Hn Ht. destruct (valid_time_secs now Hn) as [Htt Hs]. unfold to_age. rewrite Htt. cbn [mbind run_bind].
  rewrite to_time_t_ok by (unfold NANOS; lia). cbn [mbind run_bind]. rewrite Z.div_mul by (unfold NANOS; lia).
  rewrite checked_i_ok by (cbn; lia). by eexists.
Qed.

Lemma gwei_of z : WEIS_IN_GWEI ≤ Z.abs z < MONEY → Z.quot z WEIS_IN_GWEI ≠ 0 ∧ - 2 ^ 63 < Z.quot z WEIS_IN_GWEI < 2 ^ 63 ∧ (0 < z → 0 < Z.quot z WEIS_IN_GWEI).
Proof using. clear. unfold WEIS_IN_GWEI, MONEY. intros Hz. Z.to_euclidean_division_equations. lia. Qed.

Definition query_ok (q : CustomQuery) : Prop :=
  match q with
  | TopRecords _ _ => True
  | RangeQuery a b c d ts => 0 ≤ a < 2 ^ 63 ∧ 0 ≤ b < 2 ^ 63 ∧ - 2 ^ 63 ≤ c < 2 ^ 63 ∧ - 2 ^ 63 ≤ d < 2 ^ 63 ∧ valid_time ts
  end.

Lemma request_payable_total now0 now s q : accountant_ok now0 s → valid_time now → query_ok q →
  ∃ o, request_payable_accounts_by_specific_mode rows now s q = Ret o.
Proof using Hrows.
  intros Hok Hnow Hq. unfold request_payable_accounts_by_specific_mode, payable_custom_query, query.
  destruct (query_rows_ok q at_least_one_gwei (payable s) Hq) as (l & -> & Hl). cbn [mbind run_bind].
  destruct (run_map_total (create_payable_account (pending_payables s))
    (λ a, WEIS_IN_GWEI ≤ pa_balance_wei a < MONEY ∧ ∃ t, pa_last_paid_timestamp a = t * NANOS ∧ 0 ≤ t < 2 ^ 63) l) as (accounts & -> & Hacc).
  - intros [w r] Hin. destruct (Hl _ Hin) as [Hw Hg]. cbn [fst snd] in Hw. destruct (ok_payable _ _ Hok _ _ Hw) as [[Hc Hb Ht] _].
    assert (Hg' : at_least_one_gwei (w, r) = true) by (by destruct Hg as [|[_ ]]).
    assert (Hone : WEIS_IN_GWEI ≤ p_balance r) by exact (one_gwei (w, r) Hc Hg').
    unfold create_payable_account. change (p_balance_high_b r) with (p_columns r).1. change (p_balance_low_b r) with (p_columns r).2.
    rewrite u128_balance_ok by done. cbn [mbind run_bind]. rewrite from_time_t_ok by done. cbn [mbind run_bind].
    destruct (pending_payable_rowid r) as [id|] eqn:Ep.
    + destruct (ok_marks _ _ Hok _ _ _ Hw Ep) as (f & Hf & _). rewrite Hf. cbn [fmap option_fmap option_map expect mbind run_bind].
      destruct (fs_rows _ (ok_fingerprints _ _ Hok) _ _ Hf). rewrite checked_conversion_ok by (apply fits_u_spec; lia). cbn [mbind run_bind].
      eexists. split; [done|]. cbn. split; [change (value (p_columns r)) with (p_balance r); lia|by eexists].
    + eexists. split; [done|]. cbn. split; [change (value (p_columns r)) with (p_balance r); lia|by eexists].
  - cbn [mbind run_bind]. assert (Hremap : ∃ ui, remap_payable_accounts now accounts = Ret ui).
    { unfold remap_payable_accounts. destruct (run_map_total (remap_payable_account now) (λ _, True) accounts) as (ui & -> & _); [|by eexists].
      intros a Ha. destruct (Hacc a Ha) as (Hb & t & Ht & Hr). unfold remap_payable_account. rewrite Ht.
      destruct (to_age_ok now t Hnow Hr) as [d ->]. cbn [mbind run_bind]. destruct (gwei_of (pa_balance_wei a)) as (_ & Hlt & Hpos); [unfold WEIS_IN_GWEI in *; lia|].
      unfold u64. rewrite wrap_small by (split; [apply Z.lt_le_incl, Hpos; unfold WEIS_IN_GWEI in *; lia|lia]).
      destruct (0 <? _) eqn:E; [by eexists|]. b2p. unfold WEIS_IN_GWEI in *. lia. }
    destruct accounts as [|a accounts]; [by eexists|]. destruct Hremap as [ui ->]. by eexists.
Qed.

Lemma request_receivable_total now0 now s q : accountant_ok now0 s → valid_time now → query_ok q →
  ∃ o, request_receivable_accounts_by_specific_mode rows now s q = Ret o.
Proof using Hrows.
  intros Hok Hnow Hq. unfold request_receivable_accounts_by_specific_mode, receivable_custom_query, query.
  destruct (query_rows_ok q receivable_extension (receivable s) Hq) as (l & -> & Hl). cbn [mbind run_bind].
  destruct (run_map_total create_receivable_account
    (λ a, WEIS_IN_GWEI ≤ Z.abs (ra_balance_wei a) < MONEY ∧ ∃ t, ra_last_received_timestamp a = t * NANOS ∧ 0 ≤ t < 2 ^ 63) l) as (accounts & -> & Hacc).
  - intros [w r] Hin. destruct (Hl _ Hin) as [Hw Hg]. cbn [fst snd] in Hw. pose proof (ok_receivable _ _ Hok _ _ Hw) as Hrow.
    rewrite create_receivable_account_ok by done. eexists. split; [done|]. destruct Hrow as [Hc Hb Ht]. cbn. split; [|by eexists].
    pose proof (shown_receivable r w Hc ltac:(tauto)). lia.
  - cbn [mbind run_bind]. assert (Hremap : ∃ ui, remap_receivable_accounts now accounts = Ret ui).
    { unfold remap_receivable_accounts. destruct (run_map_total (remap_receivable_account now) (λ _, True) accounts) as (ui & -> & _); [|by eexists].
      intros a Ha. destruct (Hacc a Ha) as (Hb & t & Ht & Hr). unfold remap_receivable_account. rewrite Ht.
      destruct (to_age_ok now t Hnow Hr) as [d ->]. cbn [mbind run_bind]. destruct (gwei_of (ra_balance_wei a) Hb) as (Hne & Hlt & _).
      rewrite sint_small by (cbn; lia). destruct (_ =? 0) eqn:E; [b2p; lia|by eexists]. }
    destruct accounts as [|a accounts]; [by eexists|]. destruct Hremap as [ui ->]. by eexists.
Qed.

Lemma foldr_abs {A} (f : A → Z) (l : list A) : foldr (λ z acc, Z.abs z + acc) 0 (f <$> l) = foldr (λ x acc, Z.abs (f x) + acc) 0 l.
Proof using. clear. induction l as [|x l IH]; cbn; [done|]. cbn in IH. lia. Qed.

Lemma foldr_ext_in {A} (f g : A → Z) (l : list A) : (∀ x, x ∈ l → f x = g x) →
  foldr (λ x acc, f x + acc) 0 l = foldr (λ x acc, g x + acc) 0 l.
Proof using.
  clear. induction l as [|x l IH]; intros H; cbn; [done|]. rewrite (H x) by (by left). rewrite IH; [done|]. intros; apply H; by right.
Qed.

Lemma payable_total_ok now s : accountant_ok now s → foldr (λ kr acc, p_balance kr.2 + acc) 0 (map_to_list (payable s)) < MONEY →
  ∃ sum, payable_total rows (payable s) = Ret sum ∧ 0 ≤ sum < MONEY.
Proof using Hrows.
  intros Hok Hp. unfold payable_total.
  assert (Hnn : ∀ kr, kr ∈ rows _ (payable s) → 0 ≤ p_balance kr.2).
  { intros [w r] Hin%(visited rows Hrows). apply (po_balance _ (proj1 (ok_payable _ _ Hok _ _ Hin))). }
  rewrite (run_map_ok _ (λ kr, p_balance kr.2)).
  2: { intros [w r] Hin. pose proof (Hnn _ Hin) as H0. apply (visited rows Hrows) in Hin. destruct (ok_payable _ _ Hok _ _ Hin) as [[Hc _ _] _]. cbn [snd] in *.
       change (p_balance_high_b r) with (p_columns r).1. change (p_balance_low_b r) with (p_columns r).2. rewrite reconstitute_ok by done. cbn [mbind run_bind].
       destruct ((p_columns r).1 <? 0) eqn:E; [|done]. b2p. unfold p_balance, value, columns_ok in *. lia. }
  cbn [mbind run_bind].
  assert (Hsum : foldr (λ z acc, Z.abs z + acc) 0 ((λ kr : Z * PayableRow, p_balance kr.2) <$> rows _ (payable s)) < MONEY).
  { rewrite foldr_abs, (foldr_ext_in _ (λ kr : Z * PayableRow, p_balance kr.2)) by (intros kr Hin; pose proof (Hnn kr Hin); lia).
    by rewrite (foldr_perm _ _ _ (Hrows _ (payable s))). }
  destruct (run_sum_ok ((λ kr, p_balance kr.2) <$> rows _ (payable s)) 0) as (sum & -> & Hle & Hpos); [cbn; lia|].
  assert (0 ≤ sum) by (apply Hpos; [done|intros z (kr & -> & Hin)%list_elem_of_fmap; by apply Hnn]).
  cbn [mbind run_bind]. unfold sign_conversion. rewrite (proj2 (fits_u_spec 128 sum)) by (unfold MONEY in *; cbn in Hle; lia).
  exists sum. split; [done|]. cbn in Hle. lia.
Qed.

Lemma receivable_total_ok now s : accountant_ok now s → foldr (λ kr acc, Z.abs (r_balance kr.2) + acc) 0 (map_to_list (receivable s)) < MONEY →
  ∃ sum, receivable_total rows (receivable s) = Ret sum ∧ Z.abs sum < MONEY.
Proof using Hrows.
  intros Hok Hr. unfold receivable_total. rewrite (run_map_ok _ (λ kr, r_balance kr.2)).
  2: { intros [w r] Hin%(visited rows Hrows). destruct (ok_receivable _ _ Hok _ _ Hin) as [Hc _ _]. cbn [snd].
       change (r_balance_high_b r) with (r_columns r).1. change (r_balance_low_b r) with (r_columns r).2. by apply reconstitute_ok. }
  cbn [mbind run_bind].
  assert (Hsum : foldr (λ z acc, Z.abs z + acc) 0 ((λ kr : Z * ReceivableRow, r_balance kr.2) <$> rows _ (receivable s)) < MONEY).
  { by rewrite foldr_abs, (foldr_perm (λ kr : Z * ReceivableRow, Z.abs (r_balance kr.2)) _ _ (Hrows _ (receivable s))). }
  destruct (run_sum_ok ((λ kr, r_balance kr.2) <$> rows _ (receivable s)) 0) as (sum & -> & Hle & _); [cbn; lia|].
  exists sum. split; [done|]. cbn in Hle. lia.
Qed.

Lemma wei_to_gwei_total fits z : (∀ x, - 2 ^ 63 ≤ x < 2 ^ 63 → (0 ≤ z → 0 ≤ x) → fits x = true) → Z.abs z < MONEY → ∃ g, wei_to_gwei fits z = Ret g.
Proof using.
  clear. intros Hf Hz. eexists. apply checked_conversion_ok, Hf; unfold WEIS_IN_GWEI, MONEY in *; Z.to_euclidean_division_equations; lia.
Qed.

Lemma stats_total now s msg : accountant_ok now s → financials_ok s msg → ∃ o, process_stats rows s msg = Ret o.
Proof using Hrows.
  intros Hok [_ _ Hp Hr]. pose proof (ok_total_payable _ _ Hok). pose proof (ok_total_receivable _ _ Hok).
  unfold process_stats. destruct (stats_required msg); [|by eexists].
  destruct (payable_total_ok now s Hok Hp) as (sum & -> & Hsum). destruct (receivable_total_ok now s Hok Hr) as (sum' & Hr' & Hsum').
  cbn [mbind run_bind]. rewrite Hr'.
  destruct (wei_to_gwei_total (fits_u 64) sum) as [? ->]; [intros; apply fits_u_spec; lia|lia|]. cbn [mbind run_bind].
  destruct (wei_to_gwei_total (fits_u 64) (total_paid_payable_wei s)) as [? ->]; [intros; apply fits_u_spec; lia|lia|]. cbn [mbind run_bind].
  destruct (wei_to_gwei_total (fits_i 64) sum') as [? ->]; [intros; apply fits_i_spec; cbn; lia|lia|]. cbn [mbind run_bind].
  destruct (wei_to_gwei_total (fits_u 64) (total_paid_receivable_wei s)) as [? ->]; [intros; apply fits_u_spec; lia|lia|]. by eexists.
Qed.

Lemma custom_total now s msg : accountant_ok now s → financials_ok s msg → ∃ o, process_custom_queries rows now s msg = Ret o.
Proof using Hrows.
  intros Hok Hf. pose proof (ok_now _ _ Hok) as Hnow. unfold process_custom_queries. destruct (custom_queries_opt msg) as [q|] eqn:Eq; [|by eexists].
  assert (Hcheck : ∀ lo hi specs, range_ok lo hi specs → - 2 ^ 63 ≤ lo → hi ≤ 2 ^ 64 → (lo < 0 → hi ≤ 2 ^ 63) →
    ∃ r, check_query_is_within_tech_limits (range_query now specs) = Ret r ∧ (r = Ok () → query_ok (range_query now specs))).
  { clear -Hnow. intros lo hi specs (Ha & Hb & Hc & Hd) Hlo Hhi Hneg. unfold check_query_is_within_tech_limits, range_query, query_ok.
    assert (Hfit : ∀ n, lo ≤ n < hi → ∃ b, fits_in_0_to_i64max_for_u64 n = Ret b ∧ (b = true → - 2 ^ 63 ≤ n < 2 ^ 63)).
    { intros n Hn. unfold fits_in_0_to_i64max_for_u64. destruct (fits_u 64 n) eqn:E.
      - apply fits_u_spec in E. eexists. split; [done|]. intros H. b2p. lia.
      - destruct (n <? 0) eqn:E1; b2p; [eexists; split; [done|lia]|]. rewrite (proj2 (fits_u_spec 64 n)) in E by lia. done. }
    destruct (Hfit _ Hc) as (b1 & -> & H1), (Hfit _ Hd) as (b2 & -> & H2). cbn [mbind run_bind]. eexists. split; [done|].
    unfold rate_ok in *. intros Hr. destruct (min_age_s specs <=? _) eqn:E1; [|done]. destruct (max_age_s specs <=? _) eqn:E2; [|done].
    destruct b1; [|done]. destruct b2; [|done]. b2p. split; [lia|]. split; [lia|]. auto. }
  assert (Hpay : ∀ specs, payable_opt q = Some specs → ∃ r : result Z (option (list UiPayableAccount)),
    try_bind (check_query_is_within_tech_limits (range_query now specs))
      (λ _, r ← request_payable_accounts_by_specific_mode rows now s (range_query now specs); Ret (Ok r)) = Ret r).
  { intros specs Ep. destruct (Hcheck 0 (2 ^ 64) specs) as (r & -> & Hq); [by eapply (fi_payable _ _ Hf)|lia..|].
    destruct r as [[]|e]; [|by eexists]. cbn [try_bind].
    destruct (request_payable_total now now s (range_query now specs)) as [o ->]; [done|done|by apply Hq|by eexists]. }
  assert (Hrec : ∀ specs, receivable_opt q = Some specs → ∃ r : result Z (option (list UiReceivableAccount)),
    try_bind (check_query_is_within_tech_limits (range_query now specs))
      (λ _, r ← request_receivable_accounts_by_specific_mode rows now s (range_query now specs); Ret (Ok r)) = Ret r).
  { intros specs Ep. destruct (Hcheck (- 2 ^ 63) (2 ^ 63) specs) as (r & -> & Hq); [by eapply (fi_receivable _ _ Hf)|lia..|].
    destruct r as [[]|e]; [|by eexists]. cbn [try_bind].
    destruct (request_receivable_total now now s (range_query now specs)) as [o ->]; [done|done|by apply Hq|by eexists]. }
  cbv zeta. destruct (payable_opt q) as [specs|]; [destruct (Hpay specs eq_refl) as [[p|e] ->]|]; cbn [try_bind]; try (by eexists);
    (destruct (receivable_opt q) as [specs'|]; [destruct (Hrec specs' eq_refl) as [[r|e'] ->]|]; cbn [try_bind]; by eexists).
Qed.

Lemma financials_total now s msg c1 c2 : accountant_ok now s → financials_ok s msg → ∃ sent, handle_financials rows now s msg c1 c2 = Ret sent.
Proof using Hrows.
  intros Hok Hf. pose proof (ok_now _ _ Hok) as Hnow. unfold handle_financials, compute_financials. destruct (financials_entry_check msg) as [[]|code].
  2: { cbn [mbind run_bind]. rewrite (ok_bound _ _ Hok). by eexists. }
  destruct (stats_total now s msg Hok Hf) as [stats ->]. cbn [mbind run_bind]. unfold process_queries_of_records.
  assert (Htop : ∃ o, process_top_records_query rows now s msg = Ret o).
  { unfold process_top_records_query. destruct (top_records_opt msg) as [[count ord]|]; [|by eexists].
    destruct (request_payable_total now now s (TopRecords count ord)) as [? ->]; [done..|]. cbn [mbind run_bind].
    destruct (request_receivable_total now now s (TopRecords count ord)) as [? ->]; [done..|]. by eexists. }
  destruct Htop as [top ->]. cbn [mbind run_bind]. destruct (custom_total now s msg Hok Hf) as [[custom|code] ->]; cbn [try_bind mbind run_bind];
    rewrite (ok_bound _ _ Hok); by eexists.
Qed.

(** ** The books are kept *)

Lemma scan_request_keeps now now' env s scan_type sk : accountant_ok now s → env_ok now now' env →
  ∃ s' sent, handle_scan_request rows env s scan_type sk = Ret (s', sent) ∧ accountant_ok now' s' ∧
    payable s' = payable s ∧ receivable s' = receivable s.
Proof using Hrows.
  intros Hok Henv. destruct scan_type; cbn [handle_scan_request].
  - destruct (scan_payable_keeps now now' env s sk Hok Henv) as (o & sent & -> & Hok'). by do 2 eexists.
  - destruct (scan_receivable_keeps now now' env s sk Hok Henv) as (o & b & sent & -> & Hok'). by do 2 eexists.
  - destruct (scan_pending_keeps now now' env s sk Hok Henv) as (o & sent & -> & Hok'). by do 2 eexists.
Qed.

Lemma scan_error_keeps now now' env s e : accountant_ok now s → env_ok now now' env →
  ∃ s' sent, handle_scan_error env s e = Ret (s', sent) ∧ accountant_ok now' s' ∧ payable s' = payable s ∧ receivable s' = receivable s.
Proof using.
  clear Hrows rows. intros Hok [Hlater Hvalid Hnow Hended Hafter Hclock]. pose proof (accountant_ok_later _ _ _ Hok Hlater Hvalid) as Hok'.
  unfold handle_scan_error.
  assert (Hend : ∃ s', match se_scan_type e with
      | Payables => o ← signal_scanner_completion (payable_initiated_at s) (e_ended env); Ret (set_payable_initiated_at s o)
      | PendingPayables => o ← signal_scanner_completion (pending_payable_initiated_at s) (e_ended env); Ret (set_pending_payable_initiated_at s o)
      | Receivables => o ← signal_scanner_completion (receivable_initiated_at s) (e_ended env); Ret (set_receivable_initiated_at s o)
      end = Ret s' ∧ accountant_ok now' s' ∧ payable s' = payable s ∧ receivable s' = receivable s).
  { destruct (se_scan_type e); rewrite completion_ok.
    - eexists. split; [done|]. split; [|done]. clear -Hok'. destruct Hok'. by split.
    - intros ts Hts. pose proof (ok_payable_scan _ _ Hok ts Hts). lia.
    - eexists. split; [done|]. split; [|done]. clear -Hok'. destruct Hok'. by split.
    - intros ts Hts. pose proof (ok_receivable_scan _ _ Hok ts Hts). lia.
    - eexists. split; [done|]. split; [|done]. clear -Hok'. destruct Hok'. by split.
    - intros ts Hts. pose proof (ok_pending_scan _ _ Hok ts Hts). lia. }
  destruct Hend as (s' & -> & Hs' & Hp & Hr). cbn [mbind run_bind]. rewrite (ok_bound _ _ Hs').
  destruct (se_response_skeleton_opt e); by do 2 eexists.
Qed.

Lemma balanced_same s s' g : payable s' = payable s → receivable s' = receivable s → balanced s g → balanced s' g.
Proof using. intros Hp Hr [H1 H2]. split; intros w; rewrite ?Hp, ?Hr; [apply H1|apply H2]. Qed.

Lemma handle_keeps now now' env s msg g : accountant_ok now s → env_ok now now' env → admissible now' s msg → balanced s g →
  ∃ s' sent, handle rows env s msg = Ret (s', sent) ∧ accountant_ok now' s' ∧ balanced s' (post g s msg).
Proof using Hrows.
  intros Hok Henv Hadm Hbal. pose proof (accountant_ok_later _ _ _ Hok (ev_later _ _ _ Henv) (ev_valid _ _ _ Henv)) as Hok'.
  pose proof Henv as [Hlater Hvalid Hnow Hended Hafter Hclock]. destruct Hbal as [Hpay Hrec].
  assert (Hquiet : ∀ s' sent, accountant_ok now' s' → payable s' = payable s → receivable s' = receivable s →
    ∃ s1 sent1, Ret (s', sent : list Sent) = Ret (s1, sent1) ∧ accountant_ok now' s1 ∧ balanced s1 g).
  { intros s' sent Hs' Hp Hr. exists s', sent. split; [done|]. split; [done|]. by apply (balanced_same s). }
  destruct msg as [|change| |msg|msg|msg|scan_type sk|msg|msg|msg|msg|msg|msg|c1 c2 msg|c1 c2 scan_type|b]; cbn [handle post admissible] in *.
  - apply Hquiet; [|done|done]. clear -Hok'. destruct Hok'. by split.
  - apply Hquiet; [|by destruct change|by destruct change]. destruct change; try done. clear -Hok'. destruct Hok'. by split.
  - by apply Hquiet.
  - destruct (received_keeps now' s env msg Hok') as (t & block & total & Heq & Hs' & Hdue); [|done|].
    { intros ts Hts. pose proof (ok_receivable_scan _ _ Hok ts Hts). lia. }
    unfold handle_received_payments. rewrite Heq. cbn [mbind run_bind].
    destruct (answer_ok _ (scan_response (rp_response_skeleton_opt msg)) (ok_bound _ _ Hs')) as [sent ->]. cbn [mbind run_bind].
    do 2 eexists. split; [done|]. split; [done|]. split; [done|]. intros w. cbn. rewrite Hdue, Hrec. lia.
  - unfold handle_payable_payment_setup. cbn [try_skipping_payment_adjustment search_for_indispensable_adjustment mbind run_bind].
    rewrite (ok_bound _ _ Hok). by apply Hquiet.
  - destruct (payable_finish_ok now' s env msg Hok') as (p & t & Heq & Hs' & Howed); [|done|].
    { intros ts Hts. pose proof (ok_payable_scan _ _ Hok ts Hts). lia. }
    unfold handle_sent_payables. rewrite Heq. cbn [mbind run_bind].
    destruct (answer_ok _ (scan_response (sp_response_skeleton_opt msg)) (ok_bound _ _ Hs')) as [sent Hans].
    unfold payables_sent in Hans, Hs'. rewrite Hans. cbn [mbind run_bind].
    do 2 eexists. split; [done|]. split; [done|]. split; [|done]. intros w. cbn. by rewrite Howed.
  - destruct (scan_request_keeps now now' env s scan_type sk Hok Henv) as (s' & sent & -> & Hs' & Hp & Hr). cbn [mbind run_bind]. by apply Hquiet.
  - destruct (scan_error_keeps now now' env s msg Hok Henv) as (s' & sent & -> & Hs' & Hp & Hr). by apply Hquiet.
  - destruct (service_provided_ok now' s msg Hok' Hadm) as (t & Heq & Hs' & Hdue). unfold handle_report_routing_service_provided_message. rewrite Heq. cbn [mbind run_bind].
    do 2 eexists. split; [done|]. split; [done|]. split; [done|]. intros w. cbn. rewrite Hdue, Hrec. lia.
  - destruct (service_provided_ok now' s msg Hok' Hadm) as (t & Heq & Hs' & Hdue). unfold handle_report_exit_service_provided_message. rewrite Heq. cbn [mbind run_bind].
    do 2 eexists. split; [done|]. split; [done|]. split; [done|]. intros w. cbn. rewrite Hdue, Hrec. lia.
  - destruct (services_consumed_ok now' s msg Hok' Hadm) as (t & -> & Hs' & Howed). cbn [mbind run_bind].
    do 2 eexists. split; [done|]. split; [done|]. split; [|done]. intros w. cbn. rewrite Howed, Hpay. lia.
  - destruct (pending_finish_ok now' s env msg Hok') as (p & t & total & Heq & Hs' & Howed); [|done|].
    { intros ts Hts. pose proof (ok_pending_scan _ _ Hok ts Hts). lia. }
    unfold handle_report_transaction_receipts. rewrite Heq. cbn [mbind run_bind].
    destruct (answer_ok _ (scan_response (rt_response_skeleton_opt msg)) (ok_bound _ _ Hs')) as [sent Hans].
    unfold receipts_handled in Hans, Hs'. rewrite Hans. cbn [mbind run_bind].
    do 2 eexists. split; [done|]. split; [done|]. split; [|done]. intros w. cbn. rewrite Howed, Hpay. lia.
  - destruct (seeds_keep now' s msg Hok' Hadm) as (p & -> & Hs' & _). cbn [mbind run_bind]. by apply Hquiet.
  - destruct (financials_total (e_now env) s msg c1 c2) as [sent ->]; [|done|cbn [mbind run_bind]; by apply Hquiet].
    apply (accountant_ok_later now); [done|lia|]. pose proof (ok_now _ _ Hok). unfold valid_time in *. lia.
  - destruct (scan_request_keeps now now' env s scan_type (Some (MkResponseSkeleton c1 c2)) Hok Henv) as (s' & sent & -> & Hs' & Hp & Hr). by apply Hquiet.
  - rewrite Hadm. by apply Hquiet.
Qed.

(** ** A lifetime *)

(** From a start over tables in order, through any messages that others may send.
    What the tables hold at the start opens the ledger. *)
Inductive lifetime : Z → Accountant → Ledger → Prop :=
| life_start now suppress consuming earning crash thresholds t p r b block s0 :
    new suppress consuming earning crash thresholds t p r b block = Ret s0 → accountant_ok now (handle_bind_message s0) →
    lifetime now (handle_bind_message s0) (MkLedger (owed t) (λ _, 0) (due r) (λ _, 0))
| life_step now now' env s msg s' sent g :
    lifetime now s g → env_ok now now' env → admissible now' s msg → handle rows env s msg = Ret (s', sent) →
    lifetime now' s' (post g s msg).

Lemma life_keeps_books now s g : lifetime now s g → accountant_ok now s ∧ balanced s g.
Proof using Hrows.
  induction 1 as [now ? ? ? ? thresholds ? ? ? ? ? s0 Hnew Hok|now now' env s msg s' sent g _ [Hok Hbal] Henv Hadm Hstep].
  - split; [done|]. unfold new in Hnew. destruct thresholds; [|done]. cbn in Hnew. injection Hnew as <-. split; intros w; cbn; lia.
  - destruct (handle_keeps now now' env s msg g) as (s1 & sent1 & Heq & Hok' & Hbal'); [done..|]. rewrite Hstep in Heq. by injection Heq as -> ->.
Qed.

End books.

(** ** A short life *)

Definition opening : Accountant :=
  handle_bind_message (MkAccountant true (Some 1) 2 false DEFAULT_PAYMENT_THRESHOLDS ∅ ∅ ∅ (MkBanned ∅ ∅) None None None None 0 0 false).

(** Somebody exits for 600 wei, and the wallet in between gets 26. *)
Definition first_report : ReportServicesConsumedMessage :=
  MkServicesConsumed 50 (MkExitConsumed 7 100 100 5) 10 [MkRoutingConsumed 8 6 2].

Definition demo_env : Env := MkEnv 60 (λ _, 60) 60.

Definition after_report : Accountant :=
  set_payable opening {[ 7 := MkPayableRow 0 600 0 None; 8 := MkPayableRow 0 26 0 None ]}.

Lemma opening_ok : accountant_ok 0 opening.
Proof.
  split; try done; cbn; exact default_thresholds_ok.
Qed.

Lemma first_report_ok : consumed_ok 100 opening first_report.
Proof.
  split; cbn; unfold rate_ok; try lia.
  - intros r ->%list_elem_of_singleton. cbn. lia.
  - intros w. unfold consumed, owed. cbn. rewrite lookup_empty. cbn. unfold cost, MONEY. repeat case_match; lia.
Qed.

Lemma demo_env_ok : env_ok 0 100 demo_env.
Proof. split; vm_compute; intuition congruence. Qed.

End Books.
