(* ===== verification/PaymentCycle.v ===== *)
(** * A payment from debt to receipt

    Composes the handlers of [Accountant.v] into the whole cycle of a payment: the
    scanner for payables chooses debts, the bridge announces the transactions it is
    about to send and then reports them as sent, the scanner for pending payables
    asks for their receipts and the receipts settle the debts.  The bridge is the
    part of the conversation that [bridge_seeds], [bridge_sent] and
    [bridge_receipts] write down; the hashes of transactions are a parameter. *)
From S2P Require Import Prelude.
From S2P Require Import BigInt Thresholds AccountingTables Scanners Accountant Books.
From stdpp Require Import base list gmap strings.

Module PaymentCycle.
Import Signed BigInt Time Thresholds Daos Scanners Accountant Books.
Local Open Scope Z_scope.

Section cycle.
Context (rows : ∀ A, gmap Z A → list (Z * A)).
Context (Hrows : ∀ A (t : gmap Z A), rows A t ≡ₚ map_to_list t).
Context (hash : PayableAccount → Z).

(** ** The bridge *)

Definition announced (a : PayableAccount) : HashAndAmount := MkHashAndAmount (hash a) (pa_balance_wei a).

Definition bridge_seeds (timestamp : Z) (q : list PayableAccount) : PendingPayableFingerprintSeeds :=
  MkSeeds timestamp (announced <$> q).

Definition bridge_sent (q : list PayableAccount) : SentPayables :=
  MkSentPayables (Ok ((λ a, Correct (MkPendingPayable (pa_wallet a) (hash a))) <$> q)) None.

Definition bridge_receipts (block : Z) (request : RequestTransactionReceipts) : ReportTransactionReceipts :=
  MkReceipts ((λ fp, (RpcResponse (TxSucceeded block), fp)) <$> pending_payable request) (rr_response_skeleton_opt request).

(** ** What holds between the steps *)

(** Accounts of the table that wait for no payment, each wallet once. *)
Definition chosen (s : Accountant) (q : list PayableAccount) : Prop :=
  NoDup (pa_wallet <$> q) ∧
  ∀ a, a ∈ q → ∃ w r, a = payable_account (w, r) ∧ payable s !! w = Some r ∧ pending_payable_rowid r = None.

(** Transactions to different wallets have different hashes. *)
Definition recipients_differ : Prop := ∀ a b, hash a = hash b → pa_wallet a = pa_wallet b.

Lemma hashes_differ q : recipients_differ → NoDup (pa_wallet <$> q) → NoDup (hash <$> q).
Proof using.
  clear Hrows rows. intros Hdiff. induction q as [|a q IH]; [by constructor|]. cbn. intros [Hni Hnd]%NoDup_cons. constructor; [|by apply IH].
  intros (b & Heq & Hb)%list_elem_of_fmap. apply Hni. rewrite (Hdiff a b Heq). by apply list_elem_of_fmap_2.
Qed.

(** The fingerprints are those of the payments to [q]. *)
Definition under_way (p : PendingPayableTable) (ts : Z) (q : list PayableAccount) : Prop :=
  (map_to_list p).*2 ≡ₚ (seed_row ts ∘ announced) <$> q.

Lemma handle_stays now now' env s msg s' sent : accountant_ok now s → env_ok now now' env → admissible now' s msg →
  handle rows env s msg = Ret (s', sent) → accountant_ok now' s'.
Proof using Hrows.
  intros Hok Henv Hadm Heq.
  destruct (handle_keeps rows Hrows now now' env s msg (MkLedger (owed (payable s)) (λ _, 0) (due (receivable s)) (λ _, 0)))
    as (s1 & sent1 & Heq1 & Hok1 & _); [done..|split; intros w; cbn; lia|].
  rewrite Heq in Heq1. by injection Heq1 as -> ->.
Qed.

Lemma no_marks now s : accountant_ok now s → pending_payables s = ∅ →
  ∀ w r, payable s !! w = Some r → pending_payable_rowid r = None.
Proof using.
  clear. intros Hok He w r Hr. destruct (pending_payable_rowid r) as [id|] eqn:E; [|done].
  destruct (ok_marks _ _ Hok w r id Hr E) as (f & Hf & _). by rewrite He in Hf.
Qed.

Lemma under_way_row p ts q id f : under_way p ts q → p !! id = Some f → ∃ a, a ∈ q ∧ f = seed_row ts (announced a).
Proof using.
  clear. intros Hp Hf. assert (Hin : f ∈ (map_to_list p).*2).
  { apply list_elem_of_fmap. exists (id, f). split; [done|]. by apply elem_of_map_to_list. }
  rewrite Hp in Hin. apply list_elem_of_fmap in Hin as (a & -> & Ha). by exists a.
Qed.

Lemma under_way_account p ts q a : under_way p ts q → a ∈ q → ∃ id, p !! id = Some (seed_row ts (announced a)).
Proof using.
  clear. intros Hp Ha. assert (Hin : seed_row ts (announced a) ∈ (map_to_list p).*2).
  { rewrite Hp. by apply (list_elem_of_fmap_2 (seed_row ts ∘ announced)). }
  apply list_elem_of_fmap in Hin as ([id f] & -> & Hf). exists id. by apply elem_of_map_to_list.
Qed.

Lemma seed_amount ts a : f_amount (seed_row ts (announced a)) = pa_balance_wei a.
Proof using. apply value_split. Qed.

(** ** Choosing *)

Lemma scan_chooses now now' env s cw w r : accountant_ok now s → env_ok now now' env →
  consuming_wallet_opt s = Some cw → payable_initiated_at s = None → payable s !! w = Some r → pending_payable_rowid r = None →
  (∀ n, alarming (payment_thresholds s) (e_clock env n) (payable_account (w, r))) →
  ∃ q, handle rows env s (ScanFor Payables None) =
      Ret (set_payable_initiated_at s (Some (e_now env)),
           [ToBridgeQualifiedPayables (MkQualifiedPayables q cw None); NotifySelfLater Payables]) ∧
    chosen s q ∧ payable_account (w, r) ∈ q.
Proof using Hrows.
  intros Hok [Hlater Hvalid Hnow Hended Hafter Hclock] Hcw Hidle Hw Hr Hal.
  cbn [handle handle_scan_request]. unfold handle_request_of_scan_for_payable. rewrite Hcw, Hidle.
  destruct (payable_begin_scan_ok rows Hrows (payment_thresholds s) cw (e_now env) None (e_clock env) (e_ended env) (payable s))
    as (q & -> & Hnd & Hq & Hall).
  - apply Hok.
  - intros w' r' Hr'. apply (ok_payable _ _ Hok _ _ Hr').
  - intros n. pose proof (ok_now _ _ Hok). specialize (Hclock n). unfold valid_time in *. lia.
  - lia.
  - intros w' r' n Hr'. specialize (Hclock n). destruct (ok_payable _ _ Hok _ _ Hr'). lia.
  - pose proof (Hall w r Hw Hr Hal) as Hin. exists q. destruct q as [|a q]; [by apply elem_of_nil in Hin|]. cbn [mbind run_bind].
    replace (bound (set_payable_initiated_at s (Some (e_now env)))) with true by (symmetry; apply Hok). split; [done|].
    split; [split; [done|]|done]. intros b Hb. destruct (Hq b Hb) as (w' & r' & _ & Heq & Hw' & Hr' & _). by exists w', r'.
Qed.

Lemma chosen_length s q : chosen s q → (length q ≤ size (payable s))%nat.
Proof using.
  clear. intros [Hnd Hq]. rewrite <- (length_fmap pa_wallet), <- size_dom, <- (size_list_to_set (C := gset Z)) by done.
  apply subseteq_size. intros w Hw%elem_of_list_to_set. apply list_elem_of_fmap in Hw as (a & -> & Ha).
  destruct (Hq a Ha) as (w & r & -> & Hw & _). by apply elem_of_dom_2 in Hw.
Qed.

Lemma chosen_balance now s q a : accountant_ok now s → chosen s q → a ∈ q → 0 ≤ pa_balance_wei a < MONEY.
Proof using.
  clear. intros Hok [_ Hq] Ha. destruct (Hq a Ha) as (w & r & -> & Hw & _). apply (ok_payable _ _ Hok _ _ Hw).
Qed.

(** ** Announcing *)

Lemma announce now now' env s q ts : recipients_differ → accountant_ok now s → env_ok now now' env → pending_payables s = ∅ → chosen s q → q ≠ [] →
  0 ≤ ts ≤ now' → Z.of_nat (size (payable s)) < 2 ^ 63 - 1 →
  ∃ p, handle rows env s (SeedsMsg (bridge_seeds ts q)) = Ret (set_pending_payables s p, []) ∧
    accountant_ok now' (set_pending_payables s p) ∧ under_way p (ts / NANOS) q.
Proof using Hrows.
  intros Hinj Hok Henv He Hq Hne Hts Hroom.
  pose proof (accountant_ok_later _ _ _ Hok (ev_later _ _ _ Henv) (ev_valid _ _ _ Henv)) as Hok'.
  assert (Hseeds : seeds_ok now' s (bridge_seeds ts q)).
  { split; cbn [bridge_seeds batch_wide_timestamp hashes_and_balances].
    - done.
    - by destruct q.
    - rewrite <- list_fmap_compose. apply (hashes_differ q Hinj). apply Hq.
    - intros h id f _. by rewrite He, lookup_empty.
    - intros h (a & -> & Ha)%list_elem_of_fmap. by eapply (chosen_balance now s q).
    - rewrite He, length_fmap. pose proof (chosen_length _ _ Hq). change (next_rowid ∅) with 1. lia. }
  destruct (seeds_keep now' s _ Hok' Hseeds) as (p & Heq & Hok1 & Hins). cbn [handle]. rewrite Heq. cbn [mbind run_bind].
  exists p. split; [done|]. split; [done|]. apply insert_rows_values in Hins. rewrite He, map_to_list_empty, app_nil_r in Hins.
  cbn [bridge_seeds batch_wide_timestamp hashes_and_balances] in Hins. rewrite <- list_fmap_compose in Hins. done.
Qed.

(** ** Marking *)

Lemma fold_correct q acc : foldl fold_guts acc ((λ a, Correct (MkPendingPayable (pa_wallet a) (hash a))) <$> q) =
  (acc.1 ++ ((λ a, MkPendingPayable (pa_wallet a) (hash a)) <$> q), acc.2).
Proof using.
  clear Hrows rows. revert acc. induction q as [|a q IH]; intros [oks errs]; cbn [fmap list_fmap foldl]; [by rewrite app_nil_r|].
  rewrite IH. cbn. by rewrite <- (assoc_L (++)).
Qed.

(** The payables of [q] and only these are marked, each with the number of its
    own fingerprint. *)
Definition marks (p : PendingPayableTable) (q : list PayableAccount) (ps : list (Z * Z)) : Prop :=
  NoDup ps.*1 ∧ ∀ w id, (w, id) ∈ ps ↔ ∃ a, a ∈ q ∧ w = pa_wallet a ∧ has_fingerprint p (hash a) id.

Lemma payments_marked now now' env s q ts : recipients_differ → accountant_ok now s → env_ok now now' env →
  under_way (pending_payables s) ts q → chosen s q → q ≠ [] → (∀ w r, payable s !! w = Some r → pending_payable_rowid r = None) →
  ∃ ps, handle rows env s (SentPayablesMsg (bridge_sent q)) =
      Ret (set_payable (set_payable_initiated_at s None) (mark ps (payable s)), []) ∧
    accountant_ok now' (set_payable (set_payable_initiated_at s None) (mark ps (payable s))) ∧ marks (pending_payables s) q ps.
Proof using Hrows.
  intros Hinj Hok Henv Hp [Hnd Hq] Hne Hfree. set (oks := (λ a, MkPendingPayable (pa_wallet a) (hash a)) <$> q).
  assert (Hndh : NoDup (pp_hash <$> oks)).
  { unfold oks. rewrite <- list_fmap_compose. by apply (hashes_differ q Hinj). }
  assert (Hndw : NoDup (recipient_wallet <$> oks)) by (unfold oks; by rewrite <- list_fmap_compose).
  assert (Hones : ∀ x, x ∈ oks → sent_payment_ok s x).
  { intros x (a & -> & Ha)%list_elem_of_fmap. destruct (under_way_account _ _ _ _ Hp Ha) as [id Hid].
    destruct (Hq a Ha) as (w & r & -> & Hw & Hr). exists r, id. eexists. split; [done|]. split; [done|]. split; [done|]. split; [done|].
    split; [by rewrite seed_amount|]. intros (w' & r' & Hw' & Hr'). by rewrite (Hfree w' r' Hw') in Hr'. }
  assert (Hsent : sent_ok s (bridge_sent q)).
  { unfold sent_ok, bridge_sent. cbn [payment_procedure_result]. rewrite fold_correct. cbn [fst snd app].
    split; [by destruct q|]. rewrite app_nil_r. split; [done|]. split; [done|]. split; [done|]. intros h Hh. by apply elem_of_nil in Hh. }
  assert (Hlist : oks ≠ []) by (unfold oks; by destruct q).
  destruct (mark_pending_payable_ok rows Hrows oks (pending_payables s) (payable s)) as (ps & Hmark & Hps1 & _ & Hps);
    [apply Hok|done|done|done| |].
  { intros x Hx. destruct (Hones x Hx) as (r & id & f & Hr & Hn & Hf & Hh & _). split; [by exists id, f|by exists r]. }
  assert (Heq : handle rows env s (SentPayablesMsg (bridge_sent q)) =
    Ret (set_payable (set_payable_initiated_at s None) (mark ps (payable s)), [])).
  { cbn [handle]. unfold handle_sent_payables, payable_finish_scan, bridge_sent. cbn [payment_procedure_result sp_response_skeleton_opt].
    rewrite (separate_spec _ oks []); [|by destruct q|by rewrite fold_correct]. cbn [mbind run_bind].
    destruct oks as [|x l] eqn:E; [done|]. rewrite <- E in *. rewrite Hmark. cbn [mbind run_bind handle_sent_payable_errors].
    rewrite completion_ok; [done|]. intros t Ht. pose proof (ok_payable_scan _ _ Hok t Ht). destruct Henv. lia. }
  exists ps. split; [done|]. split; [exact (handle_stays now now' env s (SentPayablesMsg (bridge_sent q)) _ _ Hok Henv Hsent Heq)|]. split; [done|].
  intros w id. rewrite Hps. split.
  - intros (x & (a & -> & Ha)%list_elem_of_fmap & -> & Hf). by exists a.
  - intros (a & Ha & -> & Hf). exists (MkPendingPayable (pa_wallet a) (hash a)). split; [|done]. unfold oks. by apply (list_elem_of_fmap_2 (λ a, MkPendingPayable (pa_wallet a) (hash a))).
Qed.

(** ** Asking for receipts *)

Lemma receipts_asked now now' env s q ts cw : accountant_ok now s → env_ok now now' env →
  consuming_wallet_opt s = Some cw → pending_payable_initiated_at s = None → under_way (pending_payables s) ts q → q ≠ [] →
  handle rows env s (ScanFor PendingPayables None) =
    Ret (set_pending_payable_initiated_at s (Some (e_now env)),
         [ToBridgeReceiptsRequest (MkReceiptsRequest (fingerprint <$> rows _ (pending_payables s)) None); NotifySelfLater PendingPayables]).
Proof using Hrows.
  intros Hok [Hlater Hvalid Hnow Hended Hafter Hclock] Hcw Hidle Hp Hne.
  cbn [handle handle_scan_request]. unfold handle_request_of_scan_for_pending_payable. rewrite Hcw, Hidle.
  rewrite (pending_payable_begin_scan_ok rows Hrows) by (apply Hok || lia).
  assert (Hall : filter (λ kr : Z * PendingPayableRow, process_error kr.2 = None) (rows _ (pending_payables s)) = rows _ (pending_payables s)).
  { apply filter_all. intros [id f] Hin%(visited rows Hrows). destruct (under_way_row _ _ _ _ _ Hp Hin) as (a & _ & ->). done. }
  rewrite Hall. destruct q as [|a q]; [done|]. destruct (under_way_account _ _ _ a Hp) as [id Hid]; [by left|].
  destruct (fingerprint <$> rows _ (pending_payables s)) as [|fp l] eqn:E.
  { apply fmap_nil_inv in E. apply (visited rows Hrows) in Hid. rewrite E in Hid. by apply elem_of_nil in Hid. }
  cbn [mbind run_bind]. by replace (bound (set_pending_payable_initiated_at s (Some (e_now env)))) with true by (symmetry; apply Hok).
Qed.

(** ** Settling *)

Lemma sum_submseteq {A} (f : A → Z) (l l' : list A) : l ⊆+ l' → (∀ x, x ∈ l' → 0 ≤ f x) →
  foldr (λ x acc, f x + acc) 0 l ≤ foldr (λ x acc, f x + acc) 0 l'.
Proof using.
  clear. intros Hsub. induction Hsub as [|x l l' _ IH|x y l|x l l' _ IH|l l' l'' _ IH1 Hsub IH2]; intros Hnn; cbn [foldr]; try lia.
  - assert (∀ z, z ∈ l' → 0 ≤ f z) as H by (intros; apply Hnn; by right). specialize (IH H). lia.
  - assert (∀ z, z ∈ l' → 0 ≤ f z) as H by (intros; apply Hnn; by right). specialize (IH H). pose proof (Hnn x ltac:(by left)). lia.
  - etrans; [apply IH1|by apply IH2]. intros z Hz. apply Hnn. by eapply elem_of_submseteq.
Qed.

(** The chosen debts are no more than all debts. *)
Lemma chosen_sum now s q : accountant_ok now s → chosen s q →
  foldr (λ a acc, pa_balance_wei a + acc) 0 q ≤ foldr (λ kr acc, p_balance kr.2 + acc) 0 (map_to_list (payable s)).
Proof using.
  clear. intros Hok [Hnd Hq]. etrans; [apply (sum_submseteq pa_balance_wei q (payable_account <$> map_to_list (payable s)))|].
  - apply NoDup_submseteq; [by eapply NoDup_fmap_1|]. intros a Ha. destruct (Hq a Ha) as (w & r & -> & Hw & _).
    apply list_elem_of_fmap_2. by apply elem_of_map_to_list.
  - intros a ([w r] & -> & Hw%elem_of_map_to_list)%list_elem_of_fmap. apply (ok_payable _ _ Hok _ _ Hw).
  - generalize (map_to_list (payable s)). intros l. induction l as [|[w r] l IH]; cbn in *; lia.
Qed.

Lemma under_way_sum p ts q : under_way p ts q →
  foldr (λ fp acc, fp_amount fp + acc) 0 (fingerprint <$> rows _ p) = foldr (λ a acc, pa_balance_wei a + acc) 0 q.
Proof using Hrows.
  intros Hp. assert (Hrow : ∀ l : list (Z * PendingPayableRow), foldr (λ fp acc, fp_amount fp + acc) 0 (fingerprint <$> l) = foldr (λ f acc, f_amount f + acc) 0 l.*2).
  { clear. intros l. induction l as [|[id f] l IH]; [done|]. cbn in *. by rewrite IH. }
  rewrite Hrow, (foldr_perm f_amount _ ((seed_row ts ∘ announced) <$> q)).
  - clear. induction q as [|a q IH]; [done|]. cbn [fmap list_fmap foldr compose]. rewrite seed_amount. by rewrite <- IH.
  - by rewrite (Hrows _ p).
Qed.

Lemma all_succeeded block l : succeeded (bridge_receipts block (MkReceiptsRequest l None)) = l.
Proof using. clear. unfold succeeded, bridge_receipts. cbn. induction l as [|fp l IH]; [done|]. cbn. by rewrite IH. Qed.

Lemma none_else block (l : list PendingPayableFingerprint) : let l' := (λ fp, (RpcResponse (TxSucceeded block), fp)) <$> l in
  handle_receipts_for_pending_transactions l' = MkReport [] [] l.
Proof using.
  clear. cbn zeta. rewrite report_spec. f_equal.
  - induction l as [|fp l IH]; [done|exact IH].
  - induction l as [|fp l IH]; [done|exact IH].
  - induction l as [|fp l IH]; [done|exact (f_equal (cons fp) IH)].
Qed.

(** A row of the payables after all receipts came in. *)
Definition paid_off (q : list PayableAccount) (ts : Z) (t : PayableTable) (w : Z) : option PayableRow :=
  if decide (w ∈ pa_wallet <$> q) then Some (MkPayableRow 0 0 ts None) else t !! w.

Lemma receipts_settle now now' env s t0 q ts ps block : recipients_differ → accountant_ok now s → env_ok now now' env →
  under_way (pending_payables s) ts q → chosen (set_payable s t0) q → q ≠ [] → (∀ w r, t0 !! w = Some r → pending_payable_rowid r = None) →
  payable s = mark ps t0 → marks (pending_payables s) q ps →
  total_paid_payable_wei s + foldr (λ a acc, pa_balance_wei a + acc) 0 q < MONEY →
  ∃ s', handle rows env s (ReportTransactionReceiptsMsg (bridge_receipts block
          (MkReceiptsRequest (fingerprint <$> rows _ (pending_payables s)) None))) = Ret (s', []) ∧
    accountant_ok now' s' ∧ (∀ w, payable s' !! w = paid_off q ts t0 w) ∧ pending_payables s' = ∅ ∧
    total_paid_payable_wei s' = total_paid_payable_wei s + foldr (λ a acc, pa_balance_wei a + acc) 0 q ∧
    payable_initiated_at s' = payable_initiated_at s ∧ pending_payable_initiated_at s' = None ∧
    receivable s' = receivable s ∧ banned s' = banned s.
Proof using Hrows.
  intros Hinj Hok Henv Hp [Hnd Hq] Hne Hfree Hpay [Hps1 Hps] Hm.
  set (p := pending_payables s) in *. set (fps := fingerprint <$> rows _ p) in *.
  set (msg := bridge_receipts block (MkReceiptsRequest fps None)).
  assert (Hsum : foldr (λ fp acc, fp_amount fp + acc) 0 fps = foldr (λ a acc, pa_balance_wei a + acc) 0 q) by (by eapply under_way_sum).
  assert (Hfp : ∀ fp, fp ∈ fps ↔ ∃ id f, p !! id = Some f ∧ fp = fingerprint (id, f)).
  { intros fp. unfold fps. rewrite list_elem_of_fmap. split.
    - intros ([id f] & -> & Hin%(visited rows Hrows)). by exists id, f.
    - intros (id & f & Hf & ->). exists (id, f). split; [done|]. by apply (visited rows Hrows). }
  assert (Hndid : NoDup (fp_rowid <$> fps)).
  { unfold fps. rewrite <- list_fmap_compose. change (NoDup ((rows _ p).*1)). rewrite (Hrows _ p). apply NoDup_fst_map_to_list. }
  assert (Hmarked : ∀ a id, a ∈ q → p !! id = Some (seed_row ts (announced a)) →
    ∃ r, a = payable_account (pa_wallet a, r) ∧ t0 !! pa_wallet a = Some r ∧ payable s !! pa_wallet a = Some (set_pending r (Some id))).
  { intros a id Ha Hid. destruct (Hq a Ha) as (w & r & -> & Hw & _). exists r. split; [done|]. split; [done|].
    rewrite Hpay, lookup_mark. cbn in Hw |- *. rewrite Hw. cbn. rewrite (compose_case_in ps w id); [done|done|].
    apply Hps. exists (payable_account (w, r)). split; [done|]. split; [done|]. by exists (seed_row ts (announced (payable_account (w, r)))). }
  assert (Hrec : ∀ fp, fp ∈ fps → recorded s fp ∧ marked s (fp_rowid fp)).
  { intros fp (id & f & Hf & ->)%Hfp. split; [by exists f|]. destruct (under_way_row _ _ _ _ _ Hp Hf) as (a & Ha & ->).
    destruct (Hmarked a id Ha Hf) as (r & _ & _ & Hr). by exists (pa_wallet a), (set_pending r (Some id)). }
  assert (Hadm : receipts_ok s msg).
  { split; unfold msg.
    - cbn. rewrite <- list_fmap_compose. exact Hndid.
    - intros r fp (fp' & [= -> ->] & Hin)%list_elem_of_fmap. apply Hfp in Hin as (id & f & Hf & ->). exists f. split; [done|].
      destruct (under_way_row _ _ _ _ _ Hp Hf) as (a & _ & ->). done.
    - intros fp. rewrite all_succeeded. intros Hin. by apply Hrec.
    - rewrite all_succeeded, Hsum. done. }
  assert (Hhandle : handle rows env s (ReportTransactionReceiptsMsg msg) =
    Ret (set_total_paid_payable_wei (set_payable (set_pending_payables (set_pending_payable_initiated_at s None)
           (pending_payables (booked s fps))) (payable (booked s fps))) (total_paid_payable_wei (booked s fps)), [])).
  { cbn [handle]. unfold handle_report_transaction_receipts, pending_payable_finish_scan, msg, bridge_receipts.
    cbn [fingerprints_with_receipts rt_response_skeleton_opt pending_payable rr_response_skeleton_opt].
    assert (Hsome : ∃ fp l, fps = fp :: l).
    { destruct q as [|a q']; [done|]. destruct (under_way_account _ _ _ a Hp) as [id Hid]; [by left|].
      assert (fingerprint (id, seed_row ts (announced a)) ∈ fps) as Hin by (apply Hfp; eauto). destruct fps as [|fp l]; [by apply elem_of_nil in Hin|by exists fp, l]. }
    destruct Hsome as (fp & l & E). rewrite E. cbn [fmap list_fmap]. 
    pose proof (none_else block (fp :: l)) as Hreport. cbn [fmap list_fmap] in Hreport. cbn zeta in Hreport. rewrite Hreport, <- E.
    unfold process_transactions_by_reported_state. cbn [confirmed failures still_pending].
    rewrite (confirm_ok rows Hrows now s fps) by (done || by rewrite Hsum). cbn [mbind run_bind cancel_failed_transactions update_remaining_fingerprints].
    rewrite completion_ok; [done|]. intros t Ht. pose proof (ok_pending_scan _ _ Hok t Ht). destruct Henv. lia. }
  eexists. split; [exact Hhandle|]. split; [exact (handle_stays now now' env s (ReportTransactionReceiptsMsg msg) _ _ Hok Henv Hadm Hhandle)|].
  cbn [payable pending_payables set_total_paid_payable_wei set_payable set_pending_payables total_paid_payable_wei booked payable_initiated_at
       pending_payable_initiated_at set_pending_payable_initiated_at receivable banned].
  split; [|split; [|split; [by rewrite Hsum|done]]].
  - intros w. rewrite lookup_fmap. unfold paid_off. case_decide as Hw.
    + apply list_elem_of_fmap in Hw as (a & -> & Ha). destruct (under_way_account _ _ _ _ Hp Ha) as [id Hid].
      destruct (Hmarked a id Ha Hid) as (r & Heq & _ & ->). cbn [fmap option_fmap option_map].
      rewrite (foldl_settle_in _ fps (fingerprint (id, seed_row ts (announced a)))); [|done|apply Hfp; eauto|done].
      cbn [fp_timestamp fingerprint fp_amount fst snd payable_timestamp seed_row]. rewrite Z.div_mul by (unfold NANOS; lia).
      change (p_balance (set_pending r (Some id))) with (p_balance r). rewrite seed_amount.
      assert (p_balance r = pa_balance_wei a) as -> by (by rewrite Heq). by rewrite Z.sub_diag.
    + rewrite Hpay, lookup_mark. destruct (t0 !! w) as [r|] eqn:E; [|done]. cbn [fmap option_fmap option_map].
      assert (compose_case_expression ps w = None) as ->.
      { apply compose_case_spec. intros ([w' id] & -> & (a & Ha & -> & _)%Hps)%list_elem_of_fmap. apply Hw. cbn. by apply list_elem_of_fmap_2. }
      f_equal. apply foldl_settle_out. intros fp _. by rewrite (Hfree w r E).
  - apply map_empty. intros id. apply map_lookup_filter_None. right. intros f Hf Hn. apply Hn. cbn.
    apply list_elem_of_fmap. exists (fingerprint (id, f)). split; [done|]. apply Hfp. by exists id, f.
Qed.

(** C4: debts get paid.  Take an accountant with a consuming wallet, no scan and
    no payment under way, and an account whose debt is alarming.  When the scan for
    payables runs, the bridge announces, sends and reports the payments it is
    asked for, the scan for pending payables runs, and the bridge brings receipts
    of success, then each step ends without a panic with the request the next one
    needs, and after the last one the account is settled: balance zero, the time
    of the payment, no payment under way.  So are all accounts the scan chose, the
    others are as they were, no fingerprint is left, the total paid has grown by
    the sum of the chosen debts, and both scanners are free for the next round. *)
Theorem debts_get_paid (time : nat → Z) (env : nat → Env) s cw w r ts block :
  recipients_differ → (∀ n, (n < 6)%nat → env_ok (time n) (time (S n)) (env n)) → accountant_ok (time 0%nat) s →
  consuming_wallet_opt s = Some cw → payable_initiated_at s = None → pending_payable_initiated_at s = None →
  pending_payables s = ∅ → payable s !! w = Some r →
  (∀ n, alarming (payment_thresholds s) (e_clock (env 0%nat) n) (payable_account (w, r))) →
  0 ≤ ts ≤ time 3%nat → Z.of_nat (size (payable s)) < 2 ^ 63 - 1 →
  total_paid_payable_wei s + foldr (λ kr acc, p_balance kr.2 + acc) 0 (map_to_list (payable s)) < MONEY →
  ∃ q s1 s2 s3 s4 s5 request,
    handle rows (env 0%nat) s (ScanFor Payables None) =
      Ret (s1, [ToBridgeQualifiedPayables (MkQualifiedPayables q cw None); NotifySelfLater Payables]) ∧
    handle rows (env 1%nat) s1 (AgentMsg (MkAgentMessage q None)) = Ret (s1, [ToBridgeInstructions (MkInstructions q None)]) ∧
    handle rows (env 2%nat) s1 (SeedsMsg (bridge_seeds ts q)) = Ret (s2, []) ∧
    handle rows (env 3%nat) s2 (SentPayablesMsg (bridge_sent q)) = Ret (s3, []) ∧
    handle rows (env 4%nat) s3 (ScanFor PendingPayables None) =
      Ret (s4, [ToBridgeReceiptsRequest request; NotifySelfLater PendingPayables]) ∧
    handle rows (env 5%nat) s4 (ReportTransactionReceiptsMsg (bridge_receipts block request)) = Ret (s5, []) ∧
    payable s5 !! w = Some (MkPayableRow 0 0 (ts / NANOS) None) ∧
    (∀ w', payable s5 !! w' = paid_off q (ts / NANOS) (payable s) w') ∧ pending_payables s5 = ∅ ∧
    total_paid_payable_wei s5 = total_paid_payable_wei s + foldr (λ a acc, pa_balance_wei a + acc) 0 q ∧
    payable_initiated_at s5 = None ∧ pending_payable_initiated_at s5 = None.
Proof using Hrows.
  intros Hinj Henv Hok Hcw Hi1 Hi2 He Hw Hal Hts Hroom Hm.
  pose proof (no_marks _ _ Hok He) as Hfree.
  destruct (scan_chooses (time 0%nat) (time 1%nat) (env 0%nat) s cw w r) as (q & E1 & Hq & Hin); [done|apply Henv; lia|done|done|done|by eapply Hfree|done|].
  assert (Hne : q ≠ []) by (intros ->; by apply elem_of_nil in Hin).
  pose proof (handle_stays _ _ _ _ (ScanFor Payables None) _ _ Hok (Henv 0%nat ltac:(lia)) I E1) as Hok1. set (s1 := set_payable_initiated_at s _) in *.
  assert (E2 : handle rows (env 1%nat) s1 (AgentMsg (MkAgentMessage q None)) = Ret (s1, [ToBridgeInstructions (MkInstructions q None)])).
  { cbn [handle]. unfold handle_payable_payment_setup. cbn [try_skipping_payment_adjustment search_for_indispensable_adjustment mbind run_bind].
    by rewrite (ok_bound _ _ Hok1). }
  pose proof (handle_stays _ _ _ _ (AgentMsg (MkAgentMessage q None)) _ _ Hok1 (Henv 1%nat ltac:(lia)) I E2) as Hok2.
  destruct (announce (time 2%nat) (time 3%nat) (env 2%nat) s1 q ts) as (p & E3 & Hok3 & Hp); [done|done|apply Henv; lia|done..|].
  destruct (payments_marked (time 3%nat) (time 4%nat) (env 3%nat) (set_pending_payables s1 p) q (ts / NANOS))
    as (ps & E4 & Hok4 & Hps); [done|done|apply Henv; lia|done|done|done|done|].
  set (s3 := set_payable (set_payable_initiated_at _ None) _) in *.
  pose proof (receipts_asked (time 4%nat) (time 5%nat) (env 4%nat) s3 q (ts / NANOS) cw Hok4 (Henv 4%nat ltac:(lia)) Hcw Hi2 Hp Hne) as E5.
  pose proof (handle_stays _ _ _ _ (ScanFor PendingPayables None) _ _ Hok4 (Henv 4%nat ltac:(lia)) I E5) as Hok5. set (s4 := set_pending_payable_initiated_at s3 _) in *.
  pose proof (chosen_sum _ _ _ Hok Hq) as Hsum.
  destruct (receipts_settle (time 5%nat) (time 6%nat) (env 5%nat) s4 (payable s) q (ts / NANOS) ps block)
    as (s5 & E6 & _ & Hpay & Hpend & Htotal & Hi5 & Hi6 & _); [done|done|apply Henv; lia|done|done|done|done|done|done|cbn; lia|].
  exists q, s1, (set_pending_payables s1 p), s3, s4, s5. eexists. split; [exact E1|]. split; [exact E2|]. split; [exact E3|].
  split; [exact E4|]. split; [exact E5|]. split; [exact E6|]. split; [|by auto].
  rewrite Hpay. unfold paid_off. rewrite decide_True; [done|]. change w with (pa_wallet (payable_account (w, r))). by apply list_elem_of_fmap_2.
Qed.
End cycle.

(** ** A concrete payment *)

(** Owes two milliards of gwei since the start of the epoch. *)
Definition debtor_row : PayableRow := MkPayableRow 0 2000000000000000000 0 None.

Definition debtor : Accountant :=
  handle_bind_message (MkAccountant true (Some 1) 2 false DEFAULT_PAYMENT_THRESHOLDS {[ 7 := debtor_row ]} ∅ ∅ (MkBanned ∅ ∅) None None None None 0 0 false).

(** A message a second, from a day after the start of the epoch. *)
Definition demo_time (n : nat) : Z := (86400 + Z.of_nat n) * NANOS.
Definition demo_clock (n : nat) : Env := MkEnv (demo_time n) (λ _, demo_time n) (demo_time n).

Lemma demo_clock_ok n : (n < 6)%nat → env_ok (demo_time n) (demo_time (S n)) (demo_clock n).
Proof. intros Hn. split; unfold demo_clock, demo_time, valid_time, NANOS; cbn [e_now e_clock e_ended]; intros; lia. Qed.

Lemma debtor_ok : accountant_ok (demo_time 0) debtor.
Proof.
  assert (Hone : ∀ w r, ({[ 7 := debtor_row ]} : PayableTable) !! w = Some r → r = debtor_row).
  { intros w r Hr. apply lookup_singleton_Some in Hr as [_ <-]. done. }
  split; try done.
  - intros w r ->%Hone. split; [split; vm_compute; intuition congruence|vm_compute; congruence].
  - intros w r id ->%Hone. done.
  - intros w w' r r' id ->%Hone _. done.
Qed.

Lemma debts_get_paid_witness :
  ∃ q s1 s2 s3 s4 s5 request,
    handle in_key_order (demo_clock 0) debtor (ScanFor Payables None) =
      Ret (s1, [ToBridgeQualifiedPayables (MkQualifiedPayables q 1 None); NotifySelfLater Payables]) ∧
    handle in_key_order (demo_clock 1) s1 (AgentMsg (MkAgentMessage q None)) = Ret (s1, [ToBridgeInstructions (MkInstructions q None)]) ∧
    handle in_key_order (demo_clock 2) s1 (SeedsMsg (bridge_seeds pa_wallet (demo_time 2) q)) = Ret (s2, []) ∧
    handle in_key_order (demo_clock 3) s2 (SentPayablesMsg (bridge_sent pa_wallet q)) = Ret (s3, []) ∧
    handle in_key_order (demo_clock 4) s3 (ScanFor PendingPayables None) =
      Ret (s4, [ToBridgeReceiptsRequest request; NotifySelfLater PendingPayables]) ∧
    handle in_key_order (demo_clock 5) s4 (ReportTransactionReceiptsMsg (bridge_receipts 1000 request)) = Ret (s5, []) ∧
    payable s5 !! 7 = Some (MkPayableRow 0 0 (demo_time 2 / NANOS) None) ∧
    (∀ w', payable s5 !! w' = paid_off q (demo_time 2 / NANOS) (payable debtor) w') ∧ pending_payables s5 = ∅ ∧
    total_paid_payable_wei s5 = total_paid_payable_wei debtor + foldr (λ a acc, pa_balance_wei a + acc) 0 q ∧
    payable_initiated_at s5 = None ∧ pending_payable_initiated_at s5 = None.
Proof.
  apply (debts_get_paid in_key_order in_key_order_rows pa_wallet demo_time demo_clock debtor 1 7 debtor_row (demo_time 2) 1000).
  - by intros a b.
  - exact demo_clock_ok.
  - exact debtor_ok.
  - reflexivity.
  - reflexivity.
  - reflexivity.
  - reflexivity.
  - reflexivity.
  - intros n. vm_compute. intuition congruence.
  - vm_compute. intuition congruence.
  - vm_compute. reflexivity.
  - vm_compute. reflexivity.
Defined.
End PaymentCycle.
