(* ===== verification/ProtocolPacks.v ===== *)
(** * Protocol packs: what the proxy server knows about HTTP and TLS

    Models [node/src/proxy_server/http_protocol_pack.rs], [protocol_pack.rs],
    [server_impersonator_http.rs], [server_impersonator_tls.rs] and
    [client_request_payload_factory.rs], with the payload of
    [node/src/sub_lib/proxy_server.rs]: the host a request is for, the answers that
    are given in the name of a server, and the payload that is sent to an exit.
    The host of a TLS request is found in [TlsHost.v].

    A [String] is its bytes.  The regular expression for the host in a URL and the
    parser of HTTP methods are of other crates and are parameters. *)
From Stdlib Require Import String Ascii.
From S2P Require Import Prelude.
From S2P Require Import Utils TlsHost HttpFramer SequenceBuffer Cryptde Hopper.
From stdpp Require Import base list gmap strings.

Module ProtocolPacks.
Import Cryptde.
Local Open Scope Z_scope.

Abbreviation bytes_of := Http.bytes_of.
Abbreviation Host := TlsPack.Host.
Abbreviation MkHost := TlsPack.MkHost.

Abbreviation StreamKey := (list Z) (only parsing).

Definition HTTP_PORT : Z := 80.
Definition TLS_PORT : Z := 443.

Inductive ProxyProtocol := HTTP | TLS.

Global Instance ProxyProtocol_eq_dec : EqDecision ProxyProtocol.
Proof. solve_decision. Defined.

(** ** The host of an HTTP request *)

(** [str::split] at one character. *)
Fixpoint split_at (c : Z) (l : list Z) : list (list Z) :=
  match l with
  | [] => [[]]
  | b :: l =>
      let parts := split_at c l in
      if b =? c then [] :: parts
      else match parts with [] => [[b]] | part :: parts => (b :: part) :: parts end
  end.

(** [str::parse::<u16>]. *)
Fixpoint parse_u16_digits (acc : Z) (l : list Z) : option Z :=
  match l with
  | [] => Some acc
  | b :: l =>
      if (48 <=? b) && (b <=? 57) && (acc * 10 + (b - 48) <? 2 ^ 16) then parse_u16_digits (acc * 10 + (b - 48)) l else None
  end.

Definition port_from_string (port_str : list Z) : option Z :=
  match port_str with
  | [] => None
  | 43 :: ((_ :: _) as l) => parse_u16_digits 0 l
  | _ => parse_u16_digits 0 port_str
  end.

Definition host_from_host_name_and_port (host_and_port : list Z) : option Host :=
  match split_at 58 host_and_port with
  | [name] => Some (MkHost name HTTP_PORT)
  | [name; port] => (λ port, MkHost name port) <$> port_from_string port
  | _ => None
  end.

(** [?] on an [Option] in a function that may also panic. *)
Definition some_or_return {A B} (o : option A) (f : A → run (option B)) : run (option B) :=
  match o with Some a => f a | None => Ret None end.

Declare Scope option_scope.
Notation "x <-! o ; k" := (some_or_return o (λ x, k)) (at level 20, o at level 100, k at level 200, only parsing) : option_scope.
Local Open Scope option_scope.

Definition from_utf8 (l : list Z) : option (list Z) := if valid_utf8 l then Some l else None.

Definition find_header_host (data : list Z) : run (option Host) :=
  idx <-! Utils.index_of data [13; 10; 13; 10];
  headers ← slice data 0 (idx + 2);
  let needle := [13; 10] ++ bytes_of "Host: " in
  at_needle <-! Utils.index_of headers needle;
  let begin := (at_needle + length needle)%nat in
  from_begin ← slice_from headers begin;
  len <-! Utils.index_of from_begin [13; 10];
  host_header_value ← slice headers begin (len + begin);
  host_and_port <-! from_utf8 host_header_value;
  Ret (host_from_host_name_and_port host_and_port).

Section packs.
(** Capture group 1 of ["^(?:https?://)?([^\s/]+)"]; the outer option is the match. *)
Context (host_pattern_captures : list Z → option (option (list Z))).
(** Whether [http::Method::from_bytes] recognizes [CONNECT]. *)
Context (method_is_connect : list Z → bool).

Definition find_url_host (data : list Z) : run (option Host) :=
  idx <-! Utils.index_of data [13; 10];
  first_line ← slice data 0 idx;
  at_space <-! Utils.index_of first_line [32];
  let path_begin := (at_space + 1)%nat in
  from_path ← slice_from data path_begin;
  len <-! Utils.index_of from_path [32];
  let path_end := (len + path_begin)%nat in
  path_bytes ← slice data path_begin path_end;
  path <-! from_utf8 path_bytes;
  captures <-! host_pattern_captures path;
  host_name_and_port <-! captures;
  Ret (match host_from_host_name_and_port host_name_and_port with
       | Some host => if bool_decide (TlsPack.name host = []) then None else Some host
       | None => None
       end).

Definition http_find_host (data : list Z) : run (option Host) :=
  h ← find_header_host data;
  match h with
  | Some host => Ret (Some host)
  | None => find_url_host data
  end.

Definition is_connect (data : list Z) : bool :=
  let method_bytes := (fix take_while l := match l with b :: l => if b =? 32 then [] else b :: take_while l | [] => [] end) (take 8 data) in
  method_is_connect method_bytes.

(** ** Answers in the name of a server *)

(** [str::replace]. *)
Fixpoint replace_loop (fuel : nat) (l from to : list Z) : list Z :=
  match fuel with
  | O => l
  | S fuel =>
      match l with
      | [] => []
      | b :: rest =>
          if bool_decide (take (length from) l = from) then to ++ replace_loop fuel (drop (length from) l) from to
          else b :: replace_loop fuel rest from to
      end
  end.

Definition replace (l : list Z) (from : string) (to : list Z) : list Z := replace_loop (S (length l)) l (bytes_of from) to.

(** [format!("{}", n)]. *)
Fixpoint decimal_loop (fuel n : nat) (acc : list Z) : list Z :=
  match fuel with
  | O => acc
  | S fuel =>
      let acc := 48 + Z.of_nat (n `mod` 10) :: acc in
      if (n <? 10)%nat then acc else decimal_loop fuel (n `div` 10) acc
  end.

Definition decimal (n : nat) : list Z := decimal_loop (S n) n [].

Definition LF : string := String (ascii_of_nat 10) EmptyString.
Definition CR_LF : string := String (ascii_of_nat 13) LF.

Definition ERROR_TEMPLATE : list Z :=
  bytes_of ("<html>" +:+ LF +:+ "<body>" +:+ LF +:+ "<h1>Error {status}</h1>" +:+ LF +:+ "<h2>Title: {title}</h2>" +:+ LF +:+
            "<h3>Subtitle: {subtitle}</h3>" +:+ LF +:+ "<p>{content}</p>" +:+ LF +:+ "</body>" +:+ LF +:+ "</html>" +:+ LF)%string.

Definition HTTP_RESPONSE_TEMPLATE : list Z :=
  bytes_of ("HTTP/1.1 {status} Routing Error" +:+ CR_LF +:+ "Content-Type: text/html" +:+ CR_LF +:+
            "Content-Length: {length}" +:+ CR_LF +:+ CR_LF +:+ "{body}")%string.

Definition make_error_page (status : nat) (title subtitle content : list Z) : list Z :=
  replace (replace (replace (replace ERROR_TEMPLATE "{status}" (decimal status)) "{title}" title) "{subtitle}" subtitle)
    "{content}" content.

Definition make_error_response (status : nat) (title subtitle content : list Z) : list Z :=
  let html := make_error_page status title subtitle content in
  replace (replace (replace HTTP_RESPONSE_TEMPLATE "{status}" (decimal status)) "{length}" (decimal (length html))) "{body}" html.

Definition TLS_INTERNAL_ERROR_ALERT : list Z := [0x15; 0x03; 0x03; 0x00; 0x02; 0x02; 0x50].
Definition TLS_UNRECOGNIZED_NAME_ALERT : list Z := [0x15; 0x03; 0x03; 0x00; 0x02; 0x02; 0x70].

Definition http_route_query_failure_response (server_name : list Z) : list Z :=
  make_error_response 503 (bytes_of "Routing Problem") (bytes_of "Can't find a route to " ++ server_name)
    (bytes_of "MASQ can't find a route through the Network yet to a Node that knows where to find " ++ server_name ++
     bytes_of ". Maybe later enough will be known about the Network to find that Node, but we can't guarantee it. We're sorry.").

Definition quotation_mark : Z := 34.

Definition http_dns_resolution_failure_response (server_name_opt : option (list Z)) : list Z :=
  let '(server_name, quoted_server_name) :=
    match server_name_opt with
    | Some name => (name, [quotation_mark] ++ name ++ [quotation_mark])
    | None => (bytes_of "<unspecified>", bytes_of "<unspecified>")
    end in
  make_error_response 503 (bytes_of "DNS Resolution Problem") (bytes_of "Exit Nodes couldn't resolve " ++ quoted_server_name)
    (bytes_of "DNS Failure, We have tried multiple Exit Nodes and all have failed to resolve this address " ++ server_name).

Definition http_consuming_wallet_absent : list Z :=
  make_error_response 402 (bytes_of "Consuming Wallet Required") (bytes_of "Can't consume without wallet to pay from")
    (bytes_of ("You're trying to consume routing and exit services from other Nodes, but you haven't " +:+
               "specified a consuming wallet from which your Node can pay the bills you're about to incur. " +:+
               "Set up a funded consuming wallet and try again.")%string).

(** ** [ProtocolPack], by protocol *)

Definition standard_port (p : ProxyProtocol) : Z := match p with HTTP => HTTP_PORT | TLS => TLS_PORT end.

Definition find_host (p : ProxyProtocol) (data : list Z) : run (option Host) :=
  match p with HTTP => http_find_host data | TLS => TlsPack.find_host data end.

Definition route_query_failure_response (p : ProxyProtocol) (server_name : list Z) : list Z :=
  match p with HTTP => http_route_query_failure_response server_name | TLS => TLS_INTERNAL_ERROR_ALERT end.

Definition dns_resolution_failure_response (p : ProxyProtocol) (server_name_opt : option (list Z)) : list Z :=
  match p with HTTP => http_dns_resolution_failure_response server_name_opt | TLS => TLS_UNRECOGNIZED_NAME_ALERT end.

Definition consuming_wallet_absent (p : ProxyProtocol) : list Z :=
  match p with HTTP => http_consuming_wallet_absent | TLS => TLS_INTERNAL_ERROR_ALERT end.

Definition from_standard_port (standard_port : Z) : option ProxyProtocol :=
  if standard_port =? HTTP_PORT then Some HTTP else if standard_port =? TLS_PORT then Some TLS else None.

Definition from_ibcd (ibcd : Hopper.InboundClientData) : result unit ProxyProtocol :=
  match Hopper.reception_port ibcd with
  | None => Err ()
  | Some origin_port => match from_standard_port origin_port with Some pp => Ok pp | None => Err () end
  end.

(** ** Payloads *)

Record ClientRequestPayload := MkRequest {
  stream_key : StreamKey;
  sequenced_packet : SequenceBuffer.SequencedPacket;
  target_hostname : option (list Z);
  target_port : Z;
  protocol : ProxyProtocol;
  originator_public_key : PublicKey
}.

Definition payload_make (ibcd : Hopper.InboundClientData) (key : StreamKey) (cryptde : CryptDE)
    : run (option ClientRequestPayload) :=
  match from_ibcd ibcd with
  | Err _ => Ret None
  | Ok protocol_pack =>
      match Hopper.sequence_number ibcd with
      | None => Ret None
      | Some sequence_number =>
          target_host ← find_host protocol_pack (Hopper.data ibcd);
          let '(target_hostname_opt, target_port) :=
            match target_host with
            | Some host => (Some (TlsPack.name host), TlsPack.port host)
            | None => (None, standard_port protocol_pack)
            end in
          Ret (Some (MkRequest key
                       (SequenceBuffer.MkPacket (Hopper.data ibcd) sequence_number (Hopper.last_data ibcd))
                       target_hostname_opt target_port protocol_pack (cd_public_key cryptde)))
      end
  end.

(** ** Finding a host of an HTTP request does not panic *)

Lemma slice_total {A} (l : list A) a b : (a ≤ b)%nat → (b ≤ length l)%nat → slice l a b = Ret (take (b - a) (drop a l)).
Proof. intros Hab Hb. unfold slice. by rewrite (proj2 (Nat.leb_le a b) Hab), (proj2 (Nat.leb_le b _) Hb). Qed.

Lemma slice_from_total {A} (l : list A) a : (a ≤ length l)%nat → slice_from l a = Ret (drop a l).
Proof. intros Ha. unfold slice_from. by rewrite (proj2 (Nat.leb_le a _) Ha). Qed.

Lemma index_of_bound (l needles : list Z) i : needles ≠ [] → Utils.index_of l needles = Some i → (i + length needles ≤ length l)%nat.
Proof. intros Hne Hi. pose proof (Utils.index_of_spec l needles Hne) as H. rewrite Hi in H. tauto. Qed.

Lemma find_header_host_total data : ∃ h, find_header_host data = Ret h.
Proof.
  unfold find_header_host, some_or_return. destruct (Utils.index_of data [13; 10; 13; 10]) as [idx|] eqn:E1; [|by eexists].
  apply index_of_bound in E1; [|done]. cbn [length] in E1. rewrite slice_total by lia. cbn [mbind run_bind]. set (headers := take _ _).
  set (needle := [13; 10] ++ bytes_of "Host: "). destruct (Utils.index_of headers needle) as [i|] eqn:E2; [|by eexists].
  apply index_of_bound in E2; [|done]. rewrite slice_from_total by lia. cbn [mbind run_bind].
  destruct (Utils.index_of (drop _ headers) [13; 10]) as [len|] eqn:E3; [|by eexists].
  apply index_of_bound in E3; [|done]. rewrite length_drop in E3. cbn [length] in E3. rewrite slice_total by lia. cbn [mbind run_bind].
  destruct (from_utf8 _); by eexists.
Qed.

Lemma http_find_host_total data : ∃ h, http_find_host data = Ret h.
Proof.
  unfold http_find_host. destruct (find_header_host_total data) as [h ->]. cbn [mbind run_bind]. destruct h; [by eexists|].
  unfold find_url_host, some_or_return. destruct (Utils.index_of data [13; 10]) as [idx|] eqn:E1; [|by eexists].
  apply index_of_bound in E1; [|done]. cbn [length] in E1. rewrite slice_total by lia. cbn [mbind run_bind].
  destruct (Utils.index_of _ [32]) as [i|] eqn:E2; [|by eexists]. apply index_of_bound in E2; [|done].
  rewrite length_take, length_drop in E2. cbn [length] in E2. rewrite slice_from_total by lia. cbn [mbind run_bind].
  destruct (Utils.index_of (drop _ data) [32]) as [len|] eqn:E3; [|by eexists].
  apply index_of_bound in E3; [|done]. rewrite length_drop in E3. cbn [length] in E3. rewrite slice_total by lia. cbn [mbind run_bind].
  destruct (from_utf8 _) as [path|]; [|by eexists]. destruct (host_pattern_captures path) as [[|]|]; by eexists.
Qed.

(** ** Error pages *)

(** The names of the blanks in a template begin with an opening brace. *)
Lemma replace_loop_fuel fuel fuel' l from to : from ≠ [] → (length l < fuel)%nat → (length l < fuel')%nat →
  replace_loop fuel l from to = replace_loop fuel' l from to.
Proof.
  intros Hne. revert fuel' l. induction fuel as [|fuel IH]; intros [|fuel'] l H1 H2; try lia. cbn [replace_loop].
  destruct l as [|b rest]; [done|]. cbn [length] in *. case_bool_decide.
  - f_equal. destruct from as [|c from]; [done|]. apply IH; rewrite length_drop; cbn [length]; lia.
  - f_equal. apply IH; lia.
Qed.

Lemma replace_plain (pre rest : list Z) (from : string) to c tl : bytes_of from = c :: tl → c ∉ pre →
  replace (pre ++ rest) from to = pre ++ replace rest from to.
Proof.
  intros Hf. unfold replace. rewrite Hf. induction pre as [|b pre IH]; intros Hni; [done|].
  apply not_elem_of_cons in Hni as [Hb Hni]. specialize (IH Hni). cbn [app length]. cbn [replace_loop].
  rewrite bool_decide_false; [by f_equal|]. cbn [length take]. congruence.
Qed.

Lemma replace_here (rest : list Z) (from : string) to c tl : bytes_of from = c :: tl →
  replace (bytes_of from ++ rest) from to = to ++ replace rest from to.
Proof.
  intros Hf. unfold replace. rewrite Hf.
  assert (Hstep : ∀ fuel l, replace_loop (S fuel) (c :: tl ++ l) (c :: tl) to = to ++ replace_loop fuel l (c :: tl) to).
  { intros fuel l. cbn [replace_loop]. rewrite bool_decide_true.
    - f_equal. f_equal. exact (drop_app_length (c :: tl) l).
    - apply (take_app_length (c :: tl) l). }
  cbn [app]. rewrite Hstep. f_equal. apply replace_loop_fuel; [done| |lia]. cbn [length]. rewrite length_app. lia.
Qed.

Lemma decimal_loop_digits fuel n acc d : d ∈ decimal_loop fuel n acc → 48 ≤ d ≤ 57 ∨ d ∈ acc.
Proof.
  revert n acc. induction fuel as [|fuel IH]; intros n acc; cbn [decimal_loop]; [by auto|].
  pose proof (Nat.mod_upper_bound n 10). destruct (n <? 10)%nat.
  - intros [->|Hd]%elem_of_cons; [left; lia|by right].
  - intros [Hd|[->|Hd]%elem_of_cons]%IH; [by left|left; lia|by right].
Qed.

Lemma decimal_digits n d : d ∈ decimal n → 48 ≤ d ≤ 57.
Proof. intros [H|H%elem_of_nil]%decimal_loop_digits; done. Qed.

Lemma decimal_loop_acc fuel n acc : (n < fuel)%nat → decimal_loop fuel n acc = decimal_loop fuel n [] ++ acc.
Proof.
  revert n acc. induction fuel as [|fuel IH]; intros n acc Hn; [lia|]. cbn [decimal_loop]. destruct (Nat.ltb_spec n 10); [done|].
  assert (n `div` 10 < fuel)%nat by (apply Nat.div_lt_upper_bound; lia). rewrite IH, (IH _ [_]) by done. by rewrite <- (assoc_L (++)).
Qed.

(** What is printed reads back as the number. *)
Lemma parse_digits_app acc l d : Http.parse_digits acc (l ++ [d]) =
  (acc ← Http.parse_digits acc l; Http.parse_digits acc [d]).
Proof.
  revert acc. induction l as [|b l IH]; intros acc; [done|]. cbn [app Http.parse_digits].
  destruct (_ && _); [apply IH|done].
Qed.

Lemma parse_decimal_loop fuel n : (n < fuel)%nat → Z.of_nat n < 2 ^ 64 → Http.parse_digits 0 (decimal_loop fuel n []) = Some (Z.of_nat n).
Proof.
  revert n. induction fuel as [|fuel IH]; intros n Hn Hb; [lia|]. cbn [decimal_loop]. pose proof (Nat.div_mod_eq n 10) as Hdm.
  pose proof (Nat.mod_upper_bound n 10). destruct (Nat.ltb_spec n 10) as [Hlt|Hge].
  - cbn [Http.parse_digits]. rewrite (Nat.mod_small n 10) by done.
    replace (0 * 10 + (48 + Z.of_nat n - 48)) with (Z.of_nat n) by lia.
    rewrite (proj2 (Z.leb_le 48 _)), (proj2 (Z.leb_le _ 57)), (proj2 (Z.ltb_lt _ _)) by lia. done.
  - assert (n `div` 10 < fuel)%nat by (apply Nat.div_lt_upper_bound; lia).
    rewrite decimal_loop_acc, parse_digits_app, IH by (done || (pose proof (Nat.div_le_upper_bound n 10 n); lia)).
    cbn [mbind option_bind Http.parse_digits].
    replace (Z.of_nat (n `div` 10) * 10 + (48 + Z.of_nat (n `mod` 10) - 48)) with (Z.of_nat n) by lia.
    rewrite (proj2 (Z.leb_le 48 _)), (proj2 (Z.leb_le _ 57)), (proj2 (Z.ltb_lt _ _)) by lia. done.
Qed.

Lemma parse_decimal n : Z.of_nat n < 2 ^ 64 → Http.parse_usize (decimal n) = Some (Z.of_nat n).
Proof.
  intros Hn. unfold Http.parse_usize. pose proof (parse_decimal_loop (S n) n ltac:(lia) Hn) as Hp. fold (decimal n) in Hp.
  pose proof (decimal_digits n) as Hd. destruct (decimal n) as [|b l] eqn:E.
  - exfalso. unfold decimal in E. cbn [decimal_loop] in E. destruct (n <? 10)%nat; [done|].
    destruct n as [|n']; [done|]. rewrite decimal_loop_acc in E by (apply Nat.div_lt; lia). by apply app_nil in E as [_ ?].
  - specialize (Hd b ltac:(by left)). assert (b ≠ 43) by lia. repeat (case_match; try done).
Qed.

(** The answer is a header that announces the length of the page, and the page. *)
Lemma error_response_shape status title subtitle content :
  let html := make_error_page status title subtitle content in
  make_error_response status title subtitle content =
    bytes_of "HTTP/1.1 " ++ decimal status ++ bytes_of (" Routing Error" +:+ CR_LF +:+ "Content-Type: text/html" +:+ CR_LF +:+ "Content-Length: ")%string
      ++ decimal (length html) ++ bytes_of (CR_LF +:+ CR_LF) ++ html.
Proof.
  intros html. unfold make_error_response. fold html.
  assert (Hd : ∀ n, (123 : Z) ∉ decimal n) by (intros n H%decimal_digits; lia).
  set (a := bytes_of "HTTP/1.1 "). set (b := bytes_of (" Routing Error" +:+ CR_LF +:+ "Content-Type: text/html" +:+ CR_LF +:+ "Content-Length: ")%string).
  set (c := bytes_of (CR_LF +:+ CR_LF)%string).
  assert (Ha : 123 ∉ a) by (apply (bool_decide_unpack _); vm_compute; exact I).
  assert (Hb : 123 ∉ b) by (apply (bool_decide_unpack _); vm_compute; exact I).
  assert (Hc : 123 ∉ c) by (apply (bool_decide_unpack _); vm_compute; exact I).
  change HTTP_RESPONSE_TEMPLATE with (a ++ bytes_of "{status}" ++ b ++ bytes_of "{length}" ++ c ++ bytes_of "{body}").
  rewrite (replace_plain a _ "{status}" _ 123 (bytes_of "status}")), (replace_here _ "{status}" _ 123 (bytes_of "status}")) by done.
  change (replace (b ++ bytes_of "{length}" ++ c ++ bytes_of "{body}") "{status}" (decimal status))
    with (b ++ bytes_of "{length}" ++ c ++ bytes_of "{body}").
  rewrite (replace_plain a _ "{length}" _ 123 (bytes_of "length}")), (replace_plain (decimal status) _ "{length}" _ 123 (bytes_of "length}")),
    (replace_plain b _ "{length}" _ 123 (bytes_of "length}")), (replace_here _ "{length}" _ 123 (bytes_of "length}")) by done.
  change (replace (c ++ bytes_of "{body}") "{length}" (decimal (length html))) with (c ++ bytes_of "{body}").
  rewrite (replace_plain a _ "{body}" _ 123 (bytes_of "body}")), (replace_plain (decimal status) _ "{body}" _ 123 (bytes_of "body}")),
    (replace_plain b _ "{body}" _ 123 (bytes_of "body}")), (replace_plain (decimal _) _ "{body}" _ 123 (bytes_of "body}")),
    (replace_plain c _ "{body}" _ 123 (bytes_of "body}")) by done.
  rewrite <- (app_nil_r (bytes_of "{body}")), (replace_here [] "{body}" _ 123 (bytes_of "body}")) by done. by rewrite app_nil_r.
Qed.
End packs.
End ProtocolPacks.
