(* ===== verification/ProxyServer.v ===== *)
(** * The proxy server

    Models [node/src/proxy_server/mod.rs] with the messages of
    [node/src/sub_lib/proxy_server.rs] and [node/src/sub_lib/proxy_client.rs]: the
    actor that turns what a browser sends into packages for an exit node, and what
    comes back into data for the browser.

    A message to another actor is a value of [Sent].  A route query is a future: the
    handler that asks emits [QueryRoute] with what the future carries, and
    [resolve_message] is what runs when the answer arrives.  Wallets are numbers, as
    in [Accountant.v]; host names are their bytes.  The hash that makes stream keys,
    the regular expression of [Hostname] and the codecs are parameters, and so are
    the readings of the clocks. *)
From Stdlib Require Import String Ascii.
From S2P Require Import Prelude.
From S2P Require Import CountryBlockStream IpCountryCsv TlsHost Collections SequenceBuffer NeighborhoodDatabase Cryptde Route VersionedData Hopper RouteQuery NeighborhoodActor.
From S2P Require Import BigInt Accountant ProtocolPacks.
From stdpp Require Import base list gmap strings.

Module ProxyServer.
Import Cryptde ProtocolPacks.
Local Open Scope Z_scope.

Abbreviation SocketAddr := (Stream.IpAddr * Z)%type (only parsing).
Abbreviation ExpectedService := (RouteQuery.ExpectedService (Wallet := Z)) (only parsing).
Abbreviation RouteQueryResponse := (RouteQuery.RouteQueryResponse (Wallet := Z)) (only parsing).

Local Arguments Hopper.ex_payload {Wallet T} _.
Local Arguments Hopper.remaining_route {Wallet T} _.
Local Arguments Hopper.payload_len {Wallet T} _.

Definition RETURN_ROUTE_TTL : Z := 120.
Definition STREAM_KEY_PURGE_DELAY : Z := 30.

(** ** Messages *)

Record AddReturnRouteMessage := MkReturnRoute {
  return_route_id : Z;
  rr_expected_services : list ExpectedService;
  rr_protocol : ProxyProtocol;
  rr_hostname_opt : option (list Z)
}.

Record ClientResponsePayload := MkClientResponse {
  cr_stream_key : StreamKey;
  cr_sequenced_packet : SequenceBuffer.SequencedPacket
}.

Record StreamShutdownMsg := MkShutdown {
  peer_addr : SocketAddr;
  stream_type : NeighborhoodActor.RemovedStreamType;
  report_to_counterpart : bool
}.

Record DNSFailureRetry := MkRetry {
  unsuccessful_request : ClientRequestPayload;
  retries_left : nat
}.

(** What a future that waits for a route carries; the rest are addresses of actors. *)
Record TransmitToHopperArgs := MkArgs {
  a_main_cryptde : CryptDE;
  a_payload : ClientRequestPayload;
  a_client_addr : SocketAddr;
  a_timestamp : Z;
  a_is_decentralized : bool;
  a_retire_stream_key : bool
}.

Inductive Sent :=
| ToDispatcher (m : Hopper.TransmitDataMsg)
| ToHopper (m : Hopper.IncipientCoresPackage)
| ToAccountant (m : Accountant.ReportServicesConsumedMessage)
| AddUnreachableHost (exit_public_key : PublicKey) (hostname : list Z)
| QueryRoute (hostname_opt : option (list Z)) (payload_size : nat) (args : TransmitToHopperArgs)
| ToSelfReturnRoute (m : AddReturnRouteMessage)
| ToSelfRouteResult (stream_key : StreamKey) (r : result unit RouteQueryResponse)
| ToSelfShutdown (m : StreamShutdownMsg)
| ToSelfPurgeLater (stream_key : StreamKey) (delay : Z).

Abbreviation KeyAddrMap := (@Bidi.BidiHashMap StreamKey SocketAddr _ _ _ _).
Abbreviation ReturnRoutes := (@Ttl.TtlHashMap Z AddReturnRouteMessage _ _).

Record ProxyServer := MkProxyServer {
  bound : bool;
  keys_and_addrs : KeyAddrMap;
  tunneled_hosts : gmap StreamKey (list Z);
  dns_failure_retries : gmap StreamKey DNSFailureRetry;
  stream_key_routes : gmap StreamKey RouteQueryResponse;
  stream_key_ttl : gmap StreamKey Z;
  is_decentralized : bool;
  consuming_wallet_balance : option Z;
  main_cryptde : CryptDE;
  alias_cryptde : CryptDE;
  crashable : bool;
  route_ids_to_return_routes : ReturnRoutes;
  browser_proxy_sequence_offset : bool;
  stream_key_purge_delay : Z;
  is_running_in_integration_test : bool
}.

(** *** Updates of the state *)

Definition set_bound (s : ProxyServer) : ProxyServer :=
  MkProxyServer true (keys_and_addrs s) (tunneled_hosts s) (dns_failure_retries s) (stream_key_routes s) (stream_key_ttl s)
    (is_decentralized s) (consuming_wallet_balance s) (main_cryptde s) (alias_cryptde s) (crashable s)
    (route_ids_to_return_routes s) (browser_proxy_sequence_offset s) (stream_key_purge_delay s) (is_running_in_integration_test s).

Definition set_keys_and_addrs (s : ProxyServer) (m : KeyAddrMap) : ProxyServer :=
  MkProxyServer (bound s) m (tunneled_hosts s) (dns_failure_retries s) (stream_key_routes s) (stream_key_ttl s)
    (is_decentralized s) (consuming_wallet_balance s) (main_cryptde s) (alias_cryptde s) (crashable s)
    (route_ids_to_return_routes s) (browser_proxy_sequence_offset s) (stream_key_purge_delay s) (is_running_in_integration_test s).

Definition set_tunneled_hosts (s : ProxyServer) (m : gmap StreamKey (list Z)) : ProxyServer :=
  MkProxyServer (bound s) (keys_and_addrs s) m (dns_failure_retries s) (stream_key_routes s) (stream_key_ttl s)
    (is_decentralized s) (consuming_wallet_balance s) (main_cryptde s) (alias_cryptde s) (crashable s)
    (route_ids_to_return_routes s) (browser_proxy_sequence_offset s) (stream_key_purge_delay s) (is_running_in_integration_test s).

Definition set_dns_failure_retries (s : ProxyServer) (m : gmap StreamKey DNSFailureRetry) : ProxyServer :=
  MkProxyServer (bound s) (keys_and_addrs s) (tunneled_hosts s) m (stream_key_routes s) (stream_key_ttl s)
    (is_decentralized s) (consuming_wallet_balance s) (main_cryptde s) (alias_cryptde s) (crashable s)
    (route_ids_to_return_routes s) (browser_proxy_sequence_offset s) (stream_key_purge_delay s) (is_running_in_integration_test s).

Definition set_stream_key_routes (s : ProxyServer) (m : gmap StreamKey RouteQueryResponse) : ProxyServer :=
  MkProxyServer (bound s) (keys_and_addrs s) (tunneled_hosts s) (dns_failure_retries s) m (stream_key_ttl s)
    (is_decentralized s) (consuming_wallet_balance s) (main_cryptde s) (alias_cryptde s) (crashable s)
    (route_ids_to_return_routes s) (browser_proxy_sequence_offset s) (stream_key_purge_delay s) (is_running_in_integration_test s).

Definition set_stream_key_ttl (s : ProxyServer) (m : gmap StreamKey Z) : ProxyServer :=
  MkProxyServer (bound s) (keys_and_addrs s) (tunneled_hosts s) (dns_failure_retries s) (stream_key_routes s) m
    (is_decentralized s) (consuming_wallet_balance s) (main_cryptde s) (alias_cryptde s) (crashable s)
    (route_ids_to_return_routes s) (browser_proxy_sequence_offset s) (stream_key_purge_delay s) (is_running_in_integration_test s).

Definition set_return_routes (s : ProxyServer) (m : ReturnRoutes) : ProxyServer :=
  MkProxyServer (bound s) (keys_and_addrs s) (tunneled_hosts s) (dns_failure_retries s) (stream_key_routes s) (stream_key_ttl s)
    (is_decentralized s) (consuming_wallet_balance s) (main_cryptde s) (alias_cryptde s) (crashable s)
    m (browser_proxy_sequence_offset s) (stream_key_purge_delay s) (is_running_in_integration_test s).

Definition set_sequence_offset (s : ProxyServer) : ProxyServer :=
  MkProxyServer (bound s) (keys_and_addrs s) (tunneled_hosts s) (dns_failure_retries s) (stream_key_routes s) (stream_key_ttl s)
    (is_decentralized s) (consuming_wallet_balance s) (main_cryptde s) (alias_cryptde s) (crashable s)
    (route_ids_to_return_routes s) true (stream_key_purge_delay s) (is_running_in_integration_test s).

(** The readings of the clocks while a message is handled: the system time, and
    the two instants of the map of return routes. *)
Record Env := MkEnv {
  e_now : Z;
  e_instant : Z;
  e_instant' : Z
}.

(** ** Hosts that must not be asked for *)

Definition string_of (l : list Z) : string := string_of_list_ascii ((λ b, ascii_of_nat (Z.to_nat b)) <$> l).

(** [RouteQueryMessage::data_indefinite_route_request]. *)
Definition data_indefinite_route_request (hostname_opt : option (list Z)) (payload_size : nat) : RouteQuery.RouteQueryMessage :=
  RouteQuery.MkQuery None Route.ProxyClient (Some Route.ProxyServer) (Z.of_nat payload_size) (string_of <$> hostname_opt).

Section proxy.
Context {Signature : Type}.
Context `{!Codec (Route.LiveHop Z Signature), !Codec Z, !Codec Hopper.MessageType, !Codec ClientRequestPayload}.
(** [SHA-1] over key, address and salt. *)
Context (stream_key_new : PublicKey → SocketAddr → StreamKey).
Context (request_migrations : Versioned.Migrations).
Context (host_pattern_captures : list Z → option (option (list Z))) (method_is_connect : list Z → bool).
(** Capture group 3 of the pattern of [Hostname::new]; the outer option is the match. *)
Context (url_captures : list Z → option (option (list Z))).

Definition hostname_new (raw_url : list Z) : list Z :=
  match url_captures raw_url with
  | Some (Some m) => m
  | _ => raw_url
  end.

Definition validate_non_loopback_host (hostname : list Z) : result unit unit :=
  match NetParser.from_str (string_of hostname) with
  | Some (Stream.IpV4 a) => if (a =? 0) || (a =? 0x7F000001) then Err () else Ok ()
  | Some (Stream.IpV6 a) => if (a =? 0) || (a =? 1) then Err () else Ok ()
  | None => if bool_decide (hostname = bytes_of "localhost") then Err () else Ok ()
  end.

(** ** Streams *)

Definition find_or_generate_stream_key (s : ProxyServer) (ibcd : Hopper.InboundClientData) : ProxyServer * StreamKey :=
  match Bidi.b_to_a (keys_and_addrs s) (Hopper.client_addr ibcd) with
  | Some stream_key => (s, stream_key)
  | None =>
      let stream_key := stream_key_new (cd_public_key (main_cryptde s)) (Hopper.client_addr ibcd) in
      (set_keys_and_addrs s (Bidi.insert (keys_and_addrs s) stream_key (Hopper.client_addr ibcd)), stream_key)
  end.

Definition purge_stream_key (s : ProxyServer) (k : StreamKey) : ProxyServer :=
  let s := set_keys_and_addrs s (Bidi.remove_a (keys_and_addrs s) k).1 in
  let s := set_stream_key_routes s (delete k (stream_key_routes s)) in
  let s := set_tunneled_hosts s (delete k (tunneled_hosts s)) in
  set_stream_key_ttl s (delete k (stream_key_ttl s)).

Definition schedule_stream_key_purge (env : Env) (s : ProxyServer) (k : StreamKey) : run (ProxyServer * list Sent) :=
  let s := set_stream_key_ttl s (<[k := e_now env]> (stream_key_ttl s)) in
  if bound s then Ret (s, [ToSelfPurgeLater k (stream_key_purge_delay s)]) else Panic.

Definition make_payload (s : ProxyServer) (ibcd : Hopper.InboundClientData) (k : StreamKey)
    : run (result unit ClientRequestPayload) :=
  let tunnelled_host := tunneled_hosts s !! k in
  let new_ibcd :=
    match tunnelled_host with
    | Some _ => Hopper.MkInbound (Hopper.timestamp ibcd) (Hopper.client_addr ibcd) (Some 443) (Hopper.last_data ibcd)
                  (Hopper.is_clandestine ibcd) (Hopper.sequence_number ibcd) (Hopper.data ibcd)
    | None => ibcd
    end in
  p ← payload_make host_pattern_captures new_ibcd k (alias_cryptde s);
  Ret (match p with
       | None => Err ()
       | Some payload =>
           match tunnelled_host with
           | Some hostname => Ok (MkRequest (stream_key payload) (sequenced_packet payload) (Some hostname)
                                    (target_port payload) (protocol payload) (originator_public_key payload))
           | None => Ok payload
           end
       end).

(** ** What services cost *)

Definition report_on_routing_services (expected_services : list ExpectedService) : list Accountant.RoutingServiceConsumed :=
  omap (λ service, match service with
                   | RouteQuery.ExpectRouting _ earning_wallet rate_pack =>
                       Some (Accountant.MkRoutingConsumed earning_wallet (Neighborhood.routing_service_rate rate_pack)
                               (Neighborhood.routing_byte_rate rate_pack))
                   | _ => None
                   end) expected_services.

Fixpoint exit_fold (expected_services : list ExpectedService) (acc : option (Z * Neighborhood.RatePack))
    : run (option (Z * Neighborhood.RatePack)) :=
  match expected_services with
  | [] => Ret acc
  | current_service :: rest =>
      match acc, current_service with
      | Some _, RouteQuery.ExpectExit _ _ _ => Panic
      | None, RouteQuery.ExpectExit _ earning_wallet rate_pack => exit_fold rest (Some (earning_wallet, rate_pack))
      | None, _ => exit_fold rest None
      | Some _, _ => exit_fold rest acc
      end
  end.

Definition report_on_exit_service (expected_services : list ExpectedService) (payload_size : nat)
    : run Accountant.ExitServiceConsumed :=
  found ← exit_fold expected_services None;
  match found with
  | Some (earning_wallet, rate_pack) =>
      Ret (Accountant.MkExitConsumed earning_wallet (Z.of_nat payload_size) (Neighborhood.exit_service_rate rate_pack)
             (Neighborhood.exit_byte_rate rate_pack))
  | None => Panic
  end.

Definition find_exit_node_key (expected_services : list ExpectedService) : option PublicKey :=
  head (omap (λ service, match service with RouteQuery.ExpectExit k _ _ => Some k | _ => None end) expected_services).

Definition is_zero_hop (m : AddReturnRouteMessage) : bool :=
  match rr_expected_services m with
  | [RouteQuery.ExpectNothing; RouteQuery.ExpectNothing] => true
  | _ => false
  end.

(** The first service that costs something has to be that of the exit. *)
Fixpoint exit_service_search (services : list ExpectedService) (exit_size : nat) : run (option Accountant.ExitServiceConsumed) :=
  match services with
  | [] => Ret None
  | RouteQuery.ExpectNothing :: rest => exit_service_search rest exit_size
  | RouteQuery.ExpectExit _ wallet rate_pack :: _ =>
      Ret (Some (Accountant.MkExitConsumed wallet (Z.of_nat exit_size) (Neighborhood.exit_service_rate rate_pack)
                   (Neighborhood.exit_byte_rate rate_pack)))
  | RouteQuery.ExpectRouting _ _ _ :: _ => Panic
  end.

Definition report_response_services_consumed (env : Env) (s : ProxyServer) (return_route_info : AddReturnRouteMessage)
    (exit_size routing_size : nat) : run (list Sent) :=
  found ← exit_service_search (rr_expected_services return_route_info) exit_size;
  match found with
  | None => Ret []
  | Some exit_service_report =>
      if bound s
      then Ret [ToAccountant (Accountant.MkServicesConsumed (e_now env) exit_service_report (Z.of_nat routing_size)
                                (report_on_routing_services (rr_expected_services return_route_info)))]
      else Panic
  end.

(** ** Sending a request *)

Definition hostname (payload : ClientRequestPayload) : list Z := default (bytes_of "<unknown>") (target_hostname payload).

Definition handle_route_failure (payload : ClientRequestPayload) (source_addr : SocketAddr) : list Sent :=
  [ToDispatcher (Hopper.MkTransmit (Hopper.Socket source_addr) true
                   (route_query_failure_response (protocol payload) (hostname payload)) (Some 0))].

Definition transmit_to_hopper (args : TransmitToHopperArgs) (route : Route.Route) (expected_services : list ExpectedService)
    : run (list Sent * result unit unit) :=
  let destination_key_opt :=
    if a_is_decentralized args then find_exit_node_key expected_services else Some (cd_public_key (a_main_cryptde args)) in
  match destination_key_opt with
  | None => Ret (handle_route_failure (a_payload args) (a_client_addr args), Err ())
  | Some payload_destination_key =>
      let payload := a_payload args in
      let payload_size := length (SequenceBuffer.data (sequenced_packet payload)) in
      vd ← Versioned.vd_new request_migrations payload;
      pkg ← expect_ok (Hopper.incipient_new (a_main_cryptde args) route (Hopper.ClientRequest vd) payload_destination_key);
      reports ← (if a_is_decentralized args then
                   exit ← report_on_exit_service expected_services payload_size;
                   Ret [ToAccountant (Accountant.MkServicesConsumed (a_timestamp args) exit
                                        (Z.of_nat (length (Hopper.ic_payload pkg))) (report_on_routing_services expected_services))]
                 else Ret []);
      Ret (reports ++ [ToHopper pkg] ++
             (if a_retire_stream_key args
              then [ToSelfShutdown (MkShutdown (a_client_addr args) (NeighborhoodActor.NonClandestine 0 0) false)] else []),
           Ok ())
  end.

Definition try_transmit_to_hopper (args : TransmitToHopperArgs) (route_query_response : RouteQueryResponse)
    : run (list Sent * result unit unit) :=
  match RouteQuery.expected_services route_query_response with
  | RouteQuery.RoundTrip over back return_route_id =>
      let return_route_info := MkReturnRoute return_route_id back (protocol (a_payload args)) (target_hostname (a_payload args)) in
      '(sent, r) ← transmit_to_hopper args (RouteQuery.r_route route_query_response) over;
      Ret (ToSelfReturnRoute return_route_info :: sent, r)
  | RouteQuery.OneWay _ => Panic
  end.

(** [None] is an answer that the neighborhood did not give. *)
Definition resolve_message (args : TransmitToHopperArgs) (route_result : option (option RouteQueryResponse)) : run (list Sent) :=
  let k := stream_key (a_payload args) in
  '(sent, r) ←
    match route_result with
    | Some (Some route_query_response) =>
        '(sent, r) ← try_transmit_to_hopper args route_query_response;
        Ret (sent, match r with Ok _ => Ok route_query_response | Err e => Err e end)
    | Some None => Ret (handle_route_failure (a_payload args) (a_client_addr args), Err ())
    | None => Ret ([], Err ())
    end;
  Ret (sent ++ [ToSelfRouteResult k r]).

Definition request_route_and_transmit (args : TransmitToHopperArgs) : list Sent :=
  [QueryRoute (target_hostname (a_payload args)) (length (SequenceBuffer.data (sequenced_packet (a_payload args)))) args].

Definition args_new (s : ProxyServer) (payload : ClientRequestPayload) (client_addr : SocketAddr) (timestamp : Z)
    (retire_stream_key : bool) : run TransmitToHopperArgs :=
  if bound s then Ret (MkArgs (main_cryptde s) payload client_addr timestamp (is_decentralized s) retire_stream_key) else Panic.

(** Errors are logged by the callers. *)
Definition handle_normal_client_data (s : ProxyServer) (msg : Hopper.InboundClientData) (retire_stream_key : bool)
    : run (ProxyServer * list Sent * result unit unit) :=
  let client_addr := Hopper.client_addr msg in
  if bool_decide (consuming_wallet_balance s = None) && is_decentralized s then
    match from_ibcd msg with
    | Err _ => Ret (s, [], Err ())
    | Ok protocol_pack =>
        if bound s
        then Ret (s, [ToDispatcher (Hopper.MkTransmit (Hopper.Socket client_addr) true (consuming_wallet_absent protocol_pack) (Some 0))], Err ())
        else Panic
    end
  else
    let '(s, k) := find_or_generate_stream_key s msg in
    made ← make_payload s msg k;
    match made with
    | Err _ => Ret (s, [], Err ())
    | Ok payload =>
        let forbidden :=
          negb (is_running_in_integration_test s)
          && match target_hostname payload with
             | Some h => match validate_non_loopback_host (hostname_new h) with Err _ => true | Ok _ => false end
             | None => false
             end in
        if forbidden then Ret (s, [], Err ())
        else
          let s := match dns_failure_retries s !! k with
                   | Some _ => s
                   | None => set_dns_failure_retries s
                               (<[k := MkRetry payload (if is_decentralized s then 3 else 0)]> (dns_failure_retries s))
                   end in
          args ← args_new s payload client_addr (Hopper.timestamp msg) retire_stream_key;
          match stream_key_routes s !! stream_key payload with
          | Some route_query_response =>
              '(sent, r) ← try_transmit_to_hopper args route_query_response; Ret (s, sent, r)
          | None => Ret (s, request_route_and_transmit args, Ok ())
          end
    end.

(** ** [CONNECT] *)

Definition tls_connect (s : ProxyServer) (msg : Hopper.InboundClientData) : run (ProxyServer * list Sent) :=
  http_data ← http_find_host host_pattern_captures (Hopper.data msg);
  let answer last_data text :=
    ToDispatcher (Hopper.MkTransmit (Hopper.Socket (Hopper.client_addr msg)) last_data text (Hopper.sequence_number msg)) in
  match http_data with
  | Some host =>
      if TlsPack.port host =? TLS_PORT then
        let '(s, k) := find_or_generate_stream_key s msg in
        let s := set_tunneled_hosts s (<[k := TlsPack.name host]> (tunneled_hosts s)) in
        if bound s then Ret (s, [answer false (bytes_of ("HTTP/1.1 200 OK" +:+ CR_LF +:+ CR_LF))]) else Panic
      else if bound s
      then Ret (s, [answer true (bytes_of ("HTTP/1.1 400 Bad Request" +:+ CR_LF +:+ "Content-Length: 0" +:+ CR_LF +:+ CR_LF))]) else Panic
  | None =>
      if bound s
      then Ret (s, [answer true (bytes_of ("HTTP/1.1 400 Bad Request" +:+ CR_LF +:+ "Content-Length: 0" +:+ CR_LF +:+ CR_LF))]) else Panic
  end.

Definition handle_inbound_client_data (s : ProxyServer) (msg : Hopper.InboundClientData) : run (ProxyServer * list Sent) :=
  if is_connect method_is_connect (Hopper.data msg) then
    '(s, sent) ← tls_connect s msg; Ret (set_sequence_offset s, sent)
  else '(s, sent, _) ← handle_normal_client_data s msg false; Ret (s, sent).

(** ** What comes back *)

Definition get_return_route_info (env : Env) (s : ProxyServer) (remaining_route : Route.Route)
    : run (ProxyServer * option AddReturnRouteMessage) :=
  '(r, shifted) ← Route.shift remaining_route (main_cryptde s);
  _ ← expect_ok (shifted : result CodexError (Route.LiveHop Z Signature));
  id ← Route.id r (main_cryptde s);
  match id with
  | Err _ => Ret (s, None)
  | Ok return_route_id =>
      let '(m, found) := Ttl.get (route_ids_to_return_routes s) return_route_id (e_instant env) (e_instant' env) in
      Ret (set_return_routes s m, found)
  end.

Definition remove_dns_failure_retry (s : ProxyServer) (k : StreamKey) : ProxyServer * option DNSFailureRetry :=
  (set_dns_failure_retries s (delete k (dns_failure_retries s)), dns_failure_retries s !! k).

Definition retry_dns_resolution (env : Env) (s : ProxyServer) (retry : DNSFailureRetry) (client_addr : SocketAddr)
    : run (list Sent) :=
  args ← args_new s (unsuccessful_request retry) client_addr (e_now env) false;
  Ret (request_route_and_transmit args).

Definition send_dns_failure_response_to_the_browser (s : ProxyServer) (client_addr : SocketAddr) (proxy_protocol : ProxyProtocol)
    (hostname_opt : option (list Z)) : run (list Sent) :=
  if bound s
  then Ret [ToDispatcher (Hopper.MkTransmit (Hopper.Socket client_addr) true
                            (dns_resolution_failure_response proxy_protocol hostname_opt) (Some 0))]
  else Panic.

Definition handle_dns_resolve_failure (env : Env) (s : ProxyServer)
    (msg : Hopper.ExpiredCoresPackage (Wallet := Z) StreamKey) : run (ProxyServer * list Sent) :=
  looked_up ← get_return_route_info env s (Hopper.remaining_route msg);
  let '(s, found) := (looked_up : ProxyServer * option AddReturnRouteMessage) in
  match found with
  | None => Ret (s, [])
  | Some return_route_info =>
      exit_public_key ←
        match find_exit_node_key (rr_expected_services return_route_info) return run PublicKey with
        | Some k => Ret k
        | None => if is_decentralized s then Panic else Ret (cd_public_key (main_cryptde s))
        end;
      let hostname_opt := rr_hostname_opt return_route_info in
      let k := Hopper.ex_payload msg in
      match Bidi.a_to_b (keys_and_addrs s) k with
      | None => Ret (s, [])
      | Some client_addr =>
          unreachable ←
            match hostname_opt with
            | Some server_name => if bound s then Ret [AddUnreachableHost exit_public_key server_name] else Panic
            | None => Ret []
            end;
          report ← report_response_services_consumed env s return_route_info 0 (Hopper.payload_len msg);
          let '(s, removed) := remove_dns_failure_retry s k in
          match removed with
          | None => Ret (s, unreachable ++ report)
          | Some retry =>
              match retries_left retry with
              | S remaining =>
                  query ← retry_dns_resolution env s retry client_addr;
                  let s := set_dns_failure_retries s (<[k := MkRetry (unsuccessful_request retry) remaining]> (dns_failure_retries s)) in
                  Ret (s, unreachable ++ report ++ query)
              | O =>
                  let s := purge_stream_key s k in
                  answer ← send_dns_failure_response_to_the_browser s client_addr (rr_protocol return_route_info) hostname_opt;
                  Ret (s, unreachable ++ report ++ answer)
              end
          end
      end
  end.

Definition handle_client_response_payload (env : Env) (s : ProxyServer)
    (msg : Hopper.ExpiredCoresPackage (Wallet := Z) ClientResponsePayload) : run (ProxyServer * list Sent) :=
  let response := Hopper.ex_payload msg in
  let packet := cr_sequenced_packet response in
  looked_up ← get_return_route_info env s (Hopper.remaining_route msg);
  let '(s, found) := (looked_up : ProxyServer * option AddReturnRouteMessage) in
  match found with
  | None => Ret (s, [])
  | Some return_route_info =>
      report ← report_response_services_consumed env s return_route_info (length (SequenceBuffer.data packet)) (Hopper.payload_len msg);
      let k := cr_stream_key response in
      let '(s, _) := remove_dns_failure_retry s k in
      match stream_key_ttl s !! k with
      | Some old_timestamp => if old_timestamp <=? e_now env then Ret (s, report) else Panic
      | None =>
          match Bidi.a_to_b (keys_and_addrs s) k with
          | None => Ret (s, report)
          | Some socket_addr =>
              sequence_number ← Signed.checked_u 64 (SequenceBuffer.sequence_number packet + Z.b2z (browser_proxy_sequence_offset s));
              if bound s then
                let sent := report ++ [ToDispatcher (Hopper.MkTransmit (Hopper.Socket socket_addr) (SequenceBuffer.last_data packet)
                                                       (SequenceBuffer.data packet) (Some sequence_number))] in
                Ret (if SequenceBuffer.last_data packet then purge_stream_key s k else s, sent)
              else Panic
          end
      end
  end.

Definition handle_stream_shutdown_msg (env : Env) (s : ProxyServer) (msg : StreamShutdownMsg) : run (ProxyServer * list Sent) :=
  match stream_type msg with
  | NeighborhoodActor.Clandestine => Panic
  | NeighborhoodActor.NonClandestine reception_port sequence_number =>
      match Bidi.b_to_a (keys_and_addrs s) (peer_addr msg) with
      | None => Ret (s, [])
      | Some k =>
          '(s, sent) ← schedule_stream_key_purge env s k;
          if report_to_counterpart msg then
            let ibcd := Hopper.MkInbound (e_now env) (peer_addr msg) (Some reception_port) true false (Some sequence_number) [] in
            '(s, sent', _) ← handle_normal_client_data s ibcd true;
            Ret (s, sent ++ sent')
          else Ret (s, sent)
      end
  end.

Definition handle_add_route_result (s : ProxyServer) (k : StreamKey) (r : result unit RouteQueryResponse) : run ProxyServer :=
  _ ← expect (dns_failure_retries s !! k);
  Ret (match r with
       | Ok route_query_response => set_stream_key_routes s (<[k := route_query_response]> (stream_key_routes s))
       | Err _ => s
       end).

(** ** The handlers *)

Inductive Message :=
| BindMessage
| Inbound (msg : Hopper.InboundClientData)
| AddReturnRoute (msg : AddReturnRouteMessage)
| AddRouteResult (k : StreamKey) (r : result unit RouteQueryResponse)
| DnsFailure (msg : Hopper.ExpiredCoresPackage (Wallet := Z) StreamKey)
| ClientResponse (msg : Hopper.ExpiredCoresPackage (Wallet := Z) ClientResponsePayload)
| StreamShutdown (msg : StreamShutdownMsg)
| UiCrash (for_proxy_server : bool)
| StreamKeyPurge (k : StreamKey).

Definition handle (env : Env) (s : ProxyServer) (msg : Message) : run (ProxyServer * list Sent) :=
  match msg with
  | BindMessage => Ret (set_bound s, [])
  | Inbound msg => handle_inbound_client_data s msg
  | AddReturnRoute msg =>
      Ret (set_return_routes s (Ttl.insert (route_ids_to_return_routes s) (return_route_id msg) msg (e_instant env) (e_instant' env)), [])
  | AddRouteResult k r => s ← handle_add_route_result s k r; Ret (s, [])
  | DnsFailure msg => handle_dns_resolve_failure env s msg
  | ClientResponse msg => handle_client_response_payload env s msg
  | StreamShutdown msg => handle_stream_shutdown_msg env s msg
  | UiCrash for_proxy_server => if crashable s && for_proxy_server then Panic else Ret (s, [])
  | StreamKeyPurge k => Ret (purge_stream_key s k, [])
  end.

Definition new (instant : Z) (main alias : CryptDE) (is_decentralized : bool) (consuming_wallet_balance : option Z)
    (crashable is_running_in_integration_test : bool) : ProxyServer :=
  MkProxyServer false Bidi.new ∅ ∅ ∅ ∅ is_decentralized consuming_wallet_balance main alias crashable
    (Ttl.new instant RETURN_ROUTE_TTL) false STREAM_KEY_PURGE_DELAY is_running_in_integration_test.
End proxy.
End ProxyServer.
