(* ===== verification/ProxyRequests.v ===== *)
(** * A request finds its way, and is paid for

    Composes the proxy server ([ProxyServer.v]) with the answers of the
    neighborhood ([RouteQuery.v]): what the future that waits for a route does when
    the answer arrives. *)
From Stdlib Require Import String.
From S2P Require Import Prelude.
From S2P Require Import CountryBlockStream TlsHost Collections SequenceBuffer NeighborhoodDatabase Routing Cryptde Route VersionedData Hopper RouteQuery NeighborhoodActor.
From S2P Require Import BigInt Accountant ProtocolPacks ProxyServer.
From stdpp Require Import base list gmap strings.

Module ProxyRequests.
Import Cryptde ProtocolPacks ProxyServer.
Local Open Scope Z_scope.

(** ** Services of a leg *)

Definition exits (l : list ExpectedService) : list (PublicKey * Z * Neighborhood.RatePack) :=
  omap (λ service, match service with RouteQuery.ExpectExit k w r => Some (k, w, r) | _ => None end) l.

Lemma exit_fold_none l acc : exits l = [] → exit_fold l acc = Ret acc.
Proof.
  revert acc. induction l as [|[k w r|k w r|] l IH]; intros acc He; cbn in *; [done| |done|]; destruct acc; by apply IH.
Qed.

Lemma exit_fold_one l k w r : exits l = [(k, w, r)] → exit_fold l None = Ret (Some (w, r)) ∧ find_exit_node_key l = Some k.
Proof.
  induction l as [|[k' w' r'|k' w' r'|] l IH]; cbn; try done.
  intros [= -> -> -> He]. split; [|done]. by apply exit_fold_none.
Qed.

Section legs.
Context (db : Neighborhood.NeighborhoodDatabase (Wallet := Z)).

(** The service that a known node gives on the way, and as an exit. *)
Definition passes_on (k : PublicKey) : ExpectedService :=
  match Neighborhood.node_by_key db k with
  | Some node => RouteQuery.ExpectRouting k (Neighborhood.earning_wallet node) (Neighborhood.rate_pack node)
  | None => RouteQuery.ExpectNothing
  end.

Definition exits_for (k : PublicKey) : ExpectedService :=
  match Neighborhood.node_by_key db k with
  | Some node => RouteQuery.ExpectExit k (Neighborhood.earning_wallet node) (Neighborhood.rate_pack node)
  | None => RouteQuery.ExpectNothing
  end.

Lemma mid_services leg (mid : list PublicKey) : (∀ k, k ∈ mid → k ≠ Neighborhood.this_node db ∧ head leg ≠ Some k ∧ last leg ≠ Some k) →
  RouteQuery.service_of db leg <$> mid = passes_on <$> mid.
Proof.
  intros Hmid. apply list_fmap_ext. intros i k Hk. destruct (Hmid k) as (Hown & Hh & Hl); [by eapply list_elem_of_lookup_2|].
  unfold RouteQuery.service_of, passes_on. destruct (Neighborhood.node_by_key db k); [|done].
  rewrite decide_False, !bool_decide_false by done. done.
Qed.

Lemma own_service leg : RouteQuery.service_of db leg (Neighborhood.this_node db) = RouteQuery.ExpectNothing.
Proof. unfold RouteQuery.service_of. destruct (Neighborhood.node_by_key _ _); [|done]. by rewrite decide_True. Qed.

Lemma end_service leg k : k ≠ Neighborhood.this_node db → head leg = Some k ∨ last leg = Some k → RouteQuery.service_of db leg k = exits_for k.
Proof.
  intros Hk He. unfold RouteQuery.service_of, exits_for. destruct (Neighborhood.node_by_key db k); [|done].
  rewrite decide_False by done. by destruct He as [->| ->]; rewrite (bool_decide_true (Some k = Some k)), ?orb_true_r by done.
Qed.

Lemma over_services mid exit : NoDup (Neighborhood.this_node db :: mid ++ [exit]) →
  let leg := Neighborhood.this_node db :: mid ++ [exit] in
  RouteQuery.service_of db leg <$> leg = RouteQuery.ExpectNothing :: (passes_on <$> mid) ++ [exits_for exit].
Proof.
  intros [Hown [Hnd [Hdis _]]%NoDup_app]%NoDup_cons. cbn zeta. rewrite fmap_cons, own_service, fmap_app.
  rewrite not_elem_of_app in Hown. f_equal. f_equal.
  - apply mid_services. intros k Hk. split; [intros ->; tauto|]. cbn [head]. split; [intros [= <-]; tauto|].
    rewrite app_comm_cons, last_snoc. intros [= ->]. apply (Hdis k Hk). by left.
  - cbn. f_equal. apply end_service; [intros ->; destruct Hown as [_ Hn]; apply Hn; by left|]. right. by rewrite app_comm_cons, last_snoc.
Qed.

Lemma back_services exit mid : NoDup (exit :: mid ++ [Neighborhood.this_node db]) →
  let leg := exit :: mid ++ [Neighborhood.this_node db] in
  RouteQuery.service_of db leg <$> leg = exits_for exit :: (passes_on <$> mid) ++ [RouteQuery.ExpectNothing].
Proof.
  intros [Hexit [Hnd [Hdis _]]%NoDup_app]%NoDup_cons. cbn zeta. rewrite fmap_cons, fmap_app. rewrite not_elem_of_app in Hexit.
  rewrite end_service; [|intros ->; destruct Hexit as [_ Hn]; apply Hn; by left|by left]. f_equal. f_equal.
  - apply mid_services. intros k Hk. split; [intros ->; by apply (Hdis (Neighborhood.this_node db) Hk); left|].
    cbn [head]. split; [intros [= <-]; tauto|]. rewrite app_comm_cons, last_snoc. intros [= <-]. by apply (Hdis (Neighborhood.this_node db) Hk); left.
  - cbn. by rewrite own_service.
Qed.

Lemma exits_mid (mid : list PublicKey) : exits (passes_on <$> mid) = [].
Proof.
  induction mid as [|k mid IH]; [done|]. cbn. unfold passes_on at 1. destruct (Neighborhood.node_by_key db k); exact IH.
Qed.

Lemma over_exits (mid : list PublicKey) exit node : Neighborhood.node_by_key db exit = Some node →
  exits (RouteQuery.ExpectNothing :: (passes_on <$> mid) ++ [exits_for exit]) = [(exit, Neighborhood.earning_wallet node, Neighborhood.rate_pack node)].
Proof.
  intros Hn. change (exits ((passes_on <$> mid) ++ [exits_for exit]) = [(exit, Neighborhood.earning_wallet node, Neighborhood.rate_pack node)]).
  unfold exits. rewrite omap_app. fold (exits (passes_on <$> mid)). rewrite exits_mid. cbn. unfold exits_for. by rewrite Hn.
Qed.

Lemma over_routing mid exit :
  report_on_routing_services (RouteQuery.ExpectNothing :: (passes_on <$> mid) ++ [exits_for exit]) = report_on_routing_services (passes_on <$> mid).
Proof.
  change (report_on_routing_services ((passes_on <$> mid) ++ [exits_for exit]) = report_on_routing_services (passes_on <$> mid)).
  unfold report_on_routing_services. rewrite omap_app. unfold exits_for. destruct (Neighborhood.node_by_key db exit); cbn; apply app_nil_r.
Qed.
End legs.

Lemma walk_NoDup db target direction prefix rest : Routing.walk (Wallet := Z) db target direction prefix rest → NoDup prefix → NoDup (prefix ++ rest).
Proof.
  revert prefix. induction rest as [|k rest IH]; intros prefix; [by rewrite app_nil_r|]. intros [(Hni & _) Hw] Hnd.
  assert (prefix ++ k :: rest = (prefix ++ [k]) ++ rest) as -> by by rewrite <- (assoc_L (++)).
  apply IH; [done|]. apply NoDup_app. split; [done|]. split; [|by apply NoDup_singleton]. by intros x Hx ->%list_elem_of_singleton.
Qed.

(** A valid leg of at least one hop. *)
Lemma leg_shape db prefs target direction source min_hops p :
  Routing.valid_route (Wallet := Z) db prefs target direction source min_hops p → (1 ≤ min_hops)%nat →
  ∃ mid final, p = source :: mid ++ [final] ∧ NoDup p ∧ (∀ t, target = Some t → final = t).
Proof.
  intros (rest & -> & Hw & Hlen & _ & Hend & _) Hmin. destruct rest as [|final mid _] using rev_ind; [cbn in Hlen; lia|].
  exists mid, final. split; [done|]. split; [apply (walk_NoDup db target direction [source]); [done|by apply NoDup_singleton]|].
  intros t ->. unfold Routing.end_ok in Hend. cbn [head] in Hend. rewrite app_comm_cons, last_snoc in Hend.
  apply andb_prop in Hend as [Hend _]. by apply bool_decide_eq_true in Hend.
Qed.

(** ** The future of a route query *)

Section requests.
Context {Signature : Type}.
Context `{!Codec (Route.LiveHop Z Signature), !Codec Z, !Codec Hopper.MessageType, !Codec ClientRequestPayload}.
Context `{!CodecOk (Route.LiveHop Z Signature), !CodecOk Z, !CodecOk Hopper.MessageType, !CodecOk ClientRequestPayload}.
Context (member : CryptDE → Prop) `{!KeyPairs member}.
Context (request_migrations : Versioned.Migrations).

Abbreviation Neighborhood := (RouteQuery.NeighborhoodState (Wallet := Z)).

(** What the future asks. *)
Definition query_of (args : TransmitToHopperArgs) : RouteQuery.RouteQueryMessage :=
  data_indefinite_route_request (target_hostname (a_payload args)) (length (SequenceBuffer.data (sequenced_packet (a_payload args)))).

(** The charge for a package over a leg: the exit is paid by the data of the
    browser, the nodes on the way by the bytes of the package. *)
Definition charge (db : Neighborhood.NeighborhoodDatabase (Wallet := Z)) (args : TransmitToHopperArgs) (mid : list PublicKey)
    (node : Neighborhood.NodeRecord (Wallet := Z)) (pkg : Hopper.IncipientCoresPackage) : Accountant.ReportServicesConsumedMessage :=
  Accountant.MkServicesConsumed (a_timestamp args)
    (Accountant.MkExitConsumed (Neighborhood.earning_wallet node)
       (Z.of_nat (length (SequenceBuffer.data (sequenced_packet (a_payload args)))))
       (Neighborhood.exit_service_rate (Neighborhood.rate_pack node)) (Neighborhood.exit_byte_rate (Neighborhood.rate_pack node)))
    (Z.of_nat (length (Hopper.ic_payload pkg)))
    (report_on_routing_services (passes_on db <$> mid)).

(** The package carries the request, and whoever holds the key of the exit reads it. *)
Definition carries (exit : PublicKey) (payload : ClientRequestPayload) (pkg : Hopper.IncipientCoresPackage) : Prop :=
  ∃ vd, Versioned.vd_new request_migrations payload = Ret vd ∧
    ∀ c, member c → cd_public_key c = exit → decodex c (Hopper.ic_payload pkg) = Ret (Ok (Hopper.ClientRequest vd)).

Lemma package_carries c exit route payload : member c → Route.held member exit →
  ∃ vd pkg, Versioned.vd_new request_migrations payload = Ret vd ∧
    Hopper.incipient_new c route (Hopper.ClientRequest vd) exit = Ok pkg ∧ Hopper.ic_route pkg = route ∧ carries exit payload pkg.
Proof using CodecOk2 CodecOk3 KeyPairs0.
  intros Hc (c' & Hc' & <-). unfold carries. destruct (from_to_vec payload) as (bytes & Hb & _).
  set (vd := Versioned.MkVersioned (Versioned.current_version request_migrations) bytes).
  assert (Versioned.vd_new request_migrations payload = Ret vd) as -> by (unfold Versioned.vd_new; by rewrite Hb).
  destruct (decodex_encodex member c c' (Hopper.ClientRequest vd) Hc Hc') as (e & He & _).
  exists vd, (Hopper.MkIncipient route e). split; [done|]. unfold Hopper.incipient_new. rewrite He. split; [done|]. split; [done|].
  exists vd. split; [done|]. intros c2 Hc2 Hk. destruct (decodex_encodex member c c2 (Hopper.ClientRequest vd) Hc Hc2) as (e2 & He2 & Hd).
  rewrite Hk, He in He2. by injection He2 as <-.
Qed.

(** A package leaves over a route with one exit. *)
Lemma transmit_ok args route services exit wallet rates :
  a_is_decentralized args = true → member (a_main_cryptde args) → Route.held member exit → exits services = [(exit, wallet, rates)] →
  ∃ pkg, Hopper.ic_route pkg = route ∧ carries exit (a_payload args) pkg ∧
    transmit_to_hopper request_migrations args route services =
      Ret ([ToAccountant (Accountant.MkServicesConsumed (a_timestamp args)
              (Accountant.MkExitConsumed wallet (Z.of_nat (length (SequenceBuffer.data (sequenced_packet (a_payload args)))))
                 (Neighborhood.exit_service_rate rates) (Neighborhood.exit_byte_rate rates))
              (Z.of_nat (length (Hopper.ic_payload pkg))) (report_on_routing_services services)); ToHopper pkg]
           ++ (if a_retire_stream_key args
               then [ToSelfShutdown (MkShutdown (a_client_addr args) (NeighborhoodActor.NonClandestine 0 0) false)] else []), Ok ()).
Proof using CodecOk2 CodecOk3 KeyPairs0.
  intros Hdec Hc Hexit Hone. destruct (exit_fold_one _ _ _ _ Hone) as [Hfold Hfind].
  destruct (package_carries (a_main_cryptde args) exit route (a_payload args) Hc Hexit) as (vd & pkg & Hvd & Hpkg & Hroute & Hcar).
  exists pkg. split; [done|]. split; [done|]. unfold transmit_to_hopper. rewrite Hdec, Hfind, Hvd. cbn [mbind run_bind].
  rewrite Hpkg. cbn [expect_ok mbind run_bind]. unfold report_on_exit_service. rewrite Hfold. done.
Qed.

Context (as_payer : Z → PublicKey → list Z → run (Route.Payer Z Signature)).
Context (order_over order_back : list PublicKey → gset PublicKey → list PublicKey).

(** The services of the legs of an answer. *)
Lemma answered_services (nb : Neighborhood) msg (M : Z) over back exit component resp :
  RouteQuery.query_ready as_payer order_over order_back member nb msg M → (1 ≤ RouteQuery.min_hops nb)%nat →
  RouteQuery.over_leg nb msg over → last over = Some exit → RouteQuery.back_leg nb msg exit back →
  RouteQuery.answers as_payer nb (Route.MkSegment over (RouteQuery.target_component msg)) (Route.MkSegment back component) resp →
  let db := RouteQuery.neighborhood_database nb in
  let own := cd_public_key (RouteQuery.cryptde nb) in
  ∃ mid mid' node, over = own :: mid ++ [exit] ∧ back = exit :: mid' ++ [own] ∧ Neighborhood.node_by_key db exit = Some node ∧
    RouteQuery.expected_services resp =
      RouteQuery.RoundTrip (RouteQuery.ExpectNothing :: (passes_on db <$> mid) ++ [exits_for db exit])
        (exits_for db exit :: (passes_on db <$> mid') ++ [RouteQuery.ExpectNothing]) (RouteQuery.next_return_route_id nb).
Proof using.
  intros Hq Hmin Hover Hlast Hback Hresp db own. pose proof (RouteQuery.qr_root _ _ _ _ _ _ _ Hq) as Hroot. fold db own in Hroot.
  destruct (leg_shape _ _ _ _ _ _ _ (proj1 Hover) Hmin) as (mid & exit' & -> & Hnd & _).
  rewrite app_comm_cons, last_snoc in Hlast. injection Hlast as ->.
  destruct (leg_shape _ _ _ _ _ _ _ (proj1 Hback) Hmin) as (mid' & final & -> & Hnd' & Hfinal).
  rewrite (Hfinal _ eq_refl) in *. clear Hfinal final. fold own db in Hnd, Hnd'.
  assert (Hknown : is_Some (Neighborhood.node_by_key db exit)).
  { eapply RouteQuery.over_keys_known; [done..|exact Hover|]. right. apply elem_of_app. right. by left. }
  destruct Hknown as [node Hnode]. destruct Hresp as [_ Hserv]. cbn [Route.keys] in Hserv. fold db own in Hserv.
  rewrite <- Hroot in Hserv, Hnd, Hnd'. rewrite over_services, back_services in Hserv by done.
  exists mid, mid', node. rewrite Hroot in *. done.
Qed.

(** C7: a request finds its way and is paid for.  A node of the network whose
    database is in order asks its neighborhood for a route of at least one hop.
    Neither the neighborhood nor the proxy server panics over the answer.  If there
    is a round trip, the browser's request leaves in a package over its cheapest
    outward leg, readable with the key of the exit at its end; before that exactly
    one report goes to the accountant, with the exit's own wallet and rates for the
    data of the browser and those of the nodes in between for the bytes of the
    package, and the expected charges of the way back are remembered under the id
    of the return route.  If there is none, the browser gets an error page that
    ends its stream, and nothing is sent or charged. *)
Theorem request_routed_and_charged (nb : Neighborhood) (args : TransmitToHopperArgs) (M : Z) :
  RouteQuery.query_ready as_payer order_over order_back member nb (query_of args) M → RouteQuery.zero_hop_mode nb = false →
  (1 ≤ RouteQuery.min_hops nb)%nat → a_is_decentralized args = true → member (a_main_cryptde args) →
  let db := RouteQuery.neighborhood_database nb in
  let own := cd_public_key (RouteQuery.cryptde nb) in
  let k := stream_key (a_payload args) in
  ∃ nb' answer sent,
    RouteQuery.handle_route_query_message as_payer order_over order_back nb (query_of args) = Ret (nb', answer) ∧
    resolve_message request_migrations args (Some answer) = Ret sent ∧
    match answer with
    | None =>
        RouteQuery.unanswerable nb (query_of args) ∧
        sent = [ToDispatcher (Hopper.MkTransmit (Hopper.Socket (a_client_addr args)) true
                  (route_query_failure_response (protocol (a_payload args)) (hostname (a_payload args))) (Some 0));
                ToSelfRouteResult k (Err ())]
    | Some resp =>
        ∃ mid exit mid' node pkg,
          RouteQuery.over_leg nb (query_of args) (own :: mid ++ [exit]) ∧
          RouteQuery.back_leg nb (query_of args) exit (exit :: mid' ++ [own]) ∧
          Neighborhood.node_by_key db exit = Some node ∧
          Hopper.ic_route pkg = RouteQuery.r_route resp ∧ carries exit (a_payload args) pkg ∧
          sent = [ToSelfReturnRoute (MkReturnRoute (RouteQuery.next_return_route_id nb)
                    (exits_for db exit :: (passes_on db <$> mid') ++ [RouteQuery.ExpectNothing])
                    (protocol (a_payload args)) (target_hostname (a_payload args)));
                  ToAccountant (charge db args mid node pkg); ToHopper pkg]
                 ++ (if a_retire_stream_key args
                     then [ToSelfShutdown (MkShutdown (a_client_addr args) (NeighborhoodActor.NonClandestine 0 0) false)] else [])
                 ++ [ToSelfRouteResult k (Ok resp)]
    end.
Proof using All.
  intros Hq Hz Hmin Hdec Hc db own k.
  destruct (RouteQuery.route_query_answered as_payer order_over order_back member nb (query_of args) M Hq Hz) as (nb' & answer & Heq & Hans).
  exists nb', answer. destruct answer as [resp|].
  2: { eexists. split; [done|]. split; [reflexivity|]. destruct Hans as [_ Hun]. by split. }
  destruct Hans as (_ & over & back & exit & component & Hover & Hlast & Hback & _ & Hresp).
  destruct (answered_services nb (query_of args) M over back exit component resp Hq Hmin Hover Hlast Hback Hresp)
    as (mid & mid' & node & -> & -> & Hnode & Hserv). fold db own in Hover, Hback, Hnode, Hserv.
  destruct (transmit_ok args (RouteQuery.r_route resp) _ exit _ _ Hdec Hc (RouteQuery.qr_held _ _ _ _ _ _ _ Hq exit (ex_intro _ node Hnode)) (over_exits db mid exit node Hnode))
    as (pkg & Hroute & Hcar & Hsent).
  eexists. split; [exact Heq|]. split.
  { unfold resolve_message, try_transmit_to_hopper. rewrite Hserv, Hsent. cbn [mbind run_bind]. reflexivity. }
  exists mid, exit, mid', node, pkg. split; [done|]. split; [done|]. split; [done|]. split; [done|]. split; [done|].
  unfold charge. rewrite over_routing. by destruct (a_retire_stream_key args).
Qed.
End requests.

(** ** A concrete request *)

Module Demo.
Import NeighborhoodDatabase.Neighborhood Routing.Routing.

Global Instance Payer_Z_eq_dec : EqDecision (Route.Payer Z Z).
Proof. solve_decision. Defined.
Global Instance LiveHop_Z_eq_dec : EqDecision (Route.LiveHop Z Z).
Proof. solve_decision. Defined.
Global Instance LiveHop_Z_countable : Countable (Route.LiveHop Z Z).
Proof.
  apply (inj_countable'
    (λ h, (Route.hop_public_key h, (λ p, (Route.wallet p, Route.proof p)) <$> Route.payer h, Route.component h))
    (λ '(k, p, c), Route.MkHop k ((λ '(w, s), Route.MkPayer w s) <$> p) c)).
  by intros [k [[]|] c].
Defined.
Global Instance Packet_countable : Countable SequenceBuffer.SequencedPacket.
Proof.
  apply (inj_countable' (λ p, (SequenceBuffer.data p, SequenceBuffer.sequence_number p, SequenceBuffer.last_data p))
    (λ '(a, b, c), SequenceBuffer.MkPacket a b c)). by intros [].
Defined.
Global Instance Request_eq_dec : EqDecision ClientRequestPayload.
Proof. solve_decision. Defined.
Global Instance Request_countable : Countable ClientRequestPayload.
Proof.
  apply (inj_countable' (λ r, (stream_key r, sequenced_packet r, target_hostname r, target_port r,
      match protocol r with HTTP => true | TLS => false end, originator_public_key r))
    (λ '(a, b, c, d, e, f), MkRequest a b c d (if e : bool then HTTP else TLS) f)). by intros [? ? ? ? [] ?].
Defined.

Local Instance demo_codec `{Countable T} : Codec T := Route.countable_codec.
Local Instance demo_codec_ok `{Countable T} : @CodecOk T demo_codec := Route.countable_codec_ok.

Definition rates (n : Z) : RatePack := MkRates n n n n.

(** Wallet 7 owns node 2 and wallet 9 the exit 3. *)
Definition demo_record (n : Z) (ns : list Z) (w : Z) : NodeRecord (Wallet := Z) :=
  MkRecord (MkInner [n] w (rates n) (list_to_set ((λ n, [n]) <$> ns)) true true 0 None) (MkMetadata 100 None ∅ None 0) [] [].

Definition demo_start : run (NeighborhoodDatabase (Wallet := Z)) :=
  database_new (λ _, Some []) Some demo_finder 50 [1] (OriginateOnly (D := unit) [] ZERO_RATE_PACK) 5.

Definition demo_ops : list (db_op (Wallet := Z)) :=
  [AddNode (demo_record 2 [1; 3] 7); AddNode (demo_record 3 [2] 9); AddHalfNeighbor [2] 120].

Definition demo_db : NeighborhoodDatabase (Wallet := Z) :=
  match foldl (λ m o, db ← m; db_step db o) demo_start demo_ops with Ret db => db | Panic => MkDb [] ∅ ∅ end.

Lemma demo_db_consistent : consistent demo_db.
Proof.
  assert (foldl (λ m o, db ← m; db_step db o) demo_start demo_ops = Ret demo_db) as Hnet by (vm_compute; done).
  apply (reachable_consistent (Wallet := Z) [1]), (reachable_history (Wallet := Z) _ demo_ops demo_start); [|vm_compute; done|done].
  intros db Hdb. unfold demo_start in Hdb. by eapply reach_new.
Qed.

Definition demo_nb : RouteQuery.NeighborhoodState (Wallet := Z) :=
  RouteQuery.MkState (Route.demo_cryptde 1) demo_db (Some 5) false 2 77 no_preferences [9].

Definition demo_pay (w : Z) (k : PublicKey) (a : list Z) : run (Route.Payer Z Z) := Ret (Route.MkPayer w w).

Definition demo_request : ClientRequestPayload :=
  MkRequest [8] (SequenceBuffer.MkPacket [71; 69; 84] 0 false) (Some [120]) 80 HTTP [1].

Definition demo_args : TransmitToHopperArgs :=
  MkArgs (Route.demo_cryptde 1) demo_request (Stream.IpV4 0x7F000001, 4000) 1000 true false.

Lemma demo_keys k : is_Some (node_by_key demo_db k) → k ≠ [].
Proof. intros Hk ->. by vm_compute in Hk; destruct Hk. Qed.

Lemma demo_request_ready :
  RouteQuery.query_ready demo_pay net_order net_order Null.is_null demo_nb (query_of demo_args) (2 ^ 40).
Proof.
  split.
  - exact demo_db_consistent.
  - vm_compute. reflexivity.
  - done.
  - done.
  - vm_compute. reflexivity.
  - vm_compute. reflexivity.
  - vm_compute. reflexivity.
  - by eexists.
  - by apply Null.null_from_is_null.
  - intros k Hk%demo_keys. eexists. split; [by apply (Null.null_from_is_null (λ l, l) [] k)|]. by destruct k.
  - done.
Qed.

Definition demo_bill (sent : run (list Sent)) : option (Accountant.ExitServiceConsumed * list Accountant.RoutingServiceConsumed) :=
  match sent with
  | Ret (_ :: ToAccountant report :: _) => Some (Accountant.exit report, Accountant.routing report)
  | _ => None
  end.

Lemma request_routed_and_charged_witness :
  ∃ nb' resp return_route report pkg rest exit,
    RouteQuery.handle_route_query_message demo_pay net_order net_order demo_nb (query_of demo_args) = Ret (nb', Some resp) ∧
    resolve_message Hopper.Demo.demo_migrations demo_args (Some (Some resp)) =
      Ret (ToSelfReturnRoute return_route :: ToAccountant report :: ToHopper pkg :: rest) ∧
    Accountant.exit report = Accountant.MkExitConsumed 9 3 3 3 ∧
    Accountant.routing report = [Accountant.MkRoutingConsumed 7 2 2] ∧
    carries Null.is_null Hopper.Demo.demo_migrations exit demo_request pkg.
Proof.
  destruct (request_routed_and_charged Null.is_null Hopper.Demo.demo_migrations demo_pay net_order net_order demo_nb demo_args (2 ^ 40)
    demo_request_ready eq_refl ltac:(simpl; lia) eq_refl ltac:(by apply Null.null_from_is_null)) as (nb' & answer & sent & Hrun & Hsent & Hans).
  destruct answer as [resp|]; [|exfalso; clear Hans Hsent; vm_compute in Hrun; discriminate Hrun].
  assert (Hbill : demo_bill (resolve_message Hopper.Demo.demo_migrations demo_args (Some (Some resp))) =
    Some (Accountant.MkExitConsumed 9 3 3 3, [Accountant.MkRoutingConsumed 7 2 2])).
  { clear Hans Hsent. vm_compute in Hrun. injection Hrun as _ <-. vm_compute. reflexivity. }
  destruct Hans as (mid & exit & mid' & node & pkg & _ & _ & _ & _ & Hcar & ->).
  rewrite Hsent in Hbill. injection Hbill as Hwallet Hservice Hbyte Hrouting. cbn [app a_retire_stream_key demo_args] in Hsent.
  exists nb', resp. do 4 eexists. exists exit. split; [exact Hrun|]. split; [exact Hsent|]. split.
  { unfold charge. cbn [Accountant.exit]. rewrite Hwallet, Hservice, Hbyte. reflexivity. }
  split; [exact Hrouting|]. exact Hcar.
Defined.
End Demo.
End ProxyRequests.
