(* ===== verification/ProxyLife.v ===== *)
(** * The life of the proxy server

    What holds of the actor of [ProxyServer.v] in every history of messages.  A
    [World] is the actor with everything it ever sent and every client it ever
    heard from; a step delivers a message or resolves a route query.  A message the
    actor sends to itself may arrive at any later time, in any order, so that what
    is proved does not rest on the order of a mailbox.

    Stream keys are a hash of the client's address; the addresses of a history are
    assumed not to collide. *)
From Stdlib Require Import String.
From S2P Require Import Prelude.
From S2P Require Import CountryBlockStream TlsHost Collections SequenceBuffer NeighborhoodDatabase Routing Cryptde Route VersionedData Hopper RouteQuery NeighborhoodActor.
From S2P Require Import BigInt Accountant ProtocolPacks ProxyServer ProxyRequests.
From stdpp Require Import base list gmap strings relations.

Module ProxyLife.
Import Cryptde ProtocolPacks ProxyServer ProxyRequests.
Local Open Scope Z_scope.

Local Arguments Hopper.ex_payload {Wallet T} _.
Local Arguments Hopper.remaining_route {Wallet T} _.
Local Arguments Hopper.payload_len {Wallet T} _.

Abbreviation key_of := Bidi.b_to_a.
Abbreviation addr_of := Bidi.a_to_b.
Abbreviation Failure := (Env * Hopper.ExpiredCoresPackage (Wallet := Z) StreamKey)%type.

(** Projections of updated states. *)
Ltac project := cbn [bound keys_and_addrs tunneled_hosts dns_failure_retries stream_key_routes stream_key_ttl is_decentralized
  consuming_wallet_balance main_cryptde alias_cryptde crashable route_ids_to_return_routes browser_proxy_sequence_offset
  stream_key_purge_delay is_running_in_integration_test set_bound set_keys_and_addrs set_tunneled_hosts set_dns_failure_retries
  set_stream_key_routes set_stream_key_ttl set_return_routes set_sequence_offset purge_stream_key].

(** ** Facts on the shared maps *)

Lemma remove_a_lookup (m : KeyAddrMap) k k' a : addr_of (Bidi.remove_a m k).1 k' = Some a ↔ k' ≠ k ∧ addr_of m k' = Some a.
Proof.
  unfold addr_of, Bidi.remove_a. destruct (Bidi.m_a_to_b m !! k); cbn [fst Bidi.m_a_to_b]; rewrite lookup_delete_Some; naive_solver.
Qed.

Lemma ttl_insert_lookup (m : ReturnRoutes) id v t t' id' v' u :
  Ttl.data (Ttl.insert m id v t t') !! id' = Some (v', u) → v' = v ∨ ∃ u', Ttl.data m !! id' = Some (v', u').
Proof.
  unfold Ttl.insert, Ttl.remove_expired_entries. cbn [Ttl.data]. intros [(_ & [= <- _])|[_ H]]%lookup_insert_Some; [by left|]. right.
  destruct (_ <? _); [by eexists|]. cbn [Ttl.data] in H. apply map_lookup_filter_Some in H as [H _]. by eexists.
Qed.

Lemma ttl_get_lookup (m m' : ReturnRoutes) id t t' found :
  Ttl.get m id t t' = (m', found) →
  (∀ v, found = Some v → ∃ u, Ttl.data m !! id = Some (v, u)) ∧
  (∀ id' v u, Ttl.data m' !! id' = Some (v, u) → ∃ u', Ttl.data m !! id' = Some (v, u')).
Proof.
  unfold Ttl.get. set (swept := Ttl.remove_expired_entries m t).
  assert (Hs : ∀ id' v u, Ttl.data swept !! id' = Some (v, u) → Ttl.data m !! id' = Some (v, u)).
  { intros id' v u. unfold swept, Ttl.remove_expired_entries. destruct (_ <? _); [done|]. cbn [Ttl.data]. by intros [H _]%map_lookup_filter_Some. }
  destruct (Ttl.data swept !! id) as [[v u]|] eqn:E; intros [= <- <-].
  - split; [intros v' [= <-]; by eexists; apply Hs|]. cbn [Ttl.data].
    intros id' v' u' [(<- & [= -> _])|[_ H]]%lookup_insert_Some; [by eexists; apply Hs|]. by eexists; apply Hs.
  - split; [done|]. intros. by eexists; apply Hs.
Qed.

(** ** When making a payload panics *)

Section payloads.
Context (host_pattern_captures : list Z → option (option (list Z))).

(** A TLS packet of one to four bytes that claims to be a handshake. *)
Definition stub (data : list Z) : Prop := data !! 0%nat = Some 22 ∧ (length data ≤ 4)%nat.

Lemma tls_find_host_panics data : ProtocolPacks.find_host host_pattern_captures TLS data = Panic ↔ stub data.
Proof. apply TlsPack.find_host_panics. Qed.

Lemma payload_make_panics ibcd k c :
  payload_make host_pattern_captures ibcd k c = Panic ↔
  from_ibcd ibcd = Ok TLS ∧ is_Some (Hopper.sequence_number ibcd) ∧ stub (Hopper.data ibcd).
Proof.
  unfold payload_make. destruct (from_ibcd ibcd) as [pp|]; [|by split; [|intros (? & _)]].
  destruct (Hopper.sequence_number ibcd) as [n|]; [|split; [done|by intros (_ & [? ?] & _)]]. rewrite <- tls_find_host_panics.
  destruct pp; [|destruct (find_host _ TLS _) as [[]|]; cbn [mbind run_bind]; naive_solver].
  split; [|by intros (? & _)]. destruct (http_find_host_total host_pattern_captures (λ _, false) (Hopper.data ibcd)) as [h Hh].
  cbn [find_host]. rewrite Hh. cbn [mbind run_bind]. by destruct h.
Qed.
End payloads.

Section life.
Context {Signature : Type}.
Context `{!Codec (Route.LiveHop Z Signature), !Codec Z, !Codec Hopper.MessageType, !Codec ClientRequestPayload}.
Context `{!CodecOk (Route.LiveHop Z Signature), !CodecOk Z, !CodecOk Hopper.MessageType, !CodecOk ClientRequestPayload}.
Context (member : CryptDE → Prop) `{!KeyPairs member}.
Context (stream_key_new : PublicKey → SocketAddr → StreamKey).
Context (request_migrations : Versioned.Migrations).
Context (host_pattern_captures : list Z → option (option (list Z))) (method_is_connect : list Z → bool).
Context (url_captures : list Z → option (option (list Z))).
(** The node's own pairs of keys, and whether it takes part in the network. *)
Context (main alias : CryptDE) (dec : bool).
(** The addresses that clients have. *)
Context (client : SocketAddr → Prop).
Context (Hmain : member main).
Context (Hkeys : ∀ a b, client a → client b → stream_key_new (cd_public_key main) a = stream_key_new (cd_public_key main) b → a = b).

Local Abbreviation key := (stream_key_new (cd_public_key main)).
Local Abbreviation handle := (handle (Signature := Signature) stream_key_new request_migrations host_pattern_captures method_is_connect url_captures).

(** ** What the answers of the neighborhood look like *)

(** One exit on the way over; on the way back the exit comes first. *)
Definition over_ok (over : list ExpectedService) : Prop :=
  dec = true → ∃ exit w r, exits over = [(exit, w, r)] ∧ Route.held member exit.
Definition back_ok (back : list ExpectedService) : Prop :=
  if dec then ∃ exit w r rest, back = RouteQuery.ExpectExit exit w r :: rest else Forall (λ e, e = RouteQuery.ExpectNothing) back.
Definition response_ok (resp : RouteQueryResponse) : Prop :=
  ∃ over back id, RouteQuery.expected_services resp = RouteQuery.RoundTrip over back id ∧ over_ok over ∧ back_ok back.

(** ** Invariants *)

Definition args_ok (clients : list SocketAddr) (args : TransmitToHopperArgs) : Prop :=
  a_main_cryptde args = main ∧ a_is_decentralized args = dec ∧ a_client_addr args ∈ clients ∧
  stream_key (a_payload args) = key (a_client_addr args).

Definition sent_ok (clients : list SocketAddr) (m : Sent) : Prop :=
  match m with
  | ToDispatcher t => ∃ a, Hopper.endpoint t = Hopper.Socket a ∧ a ∈ clients
  | QueryRoute hostname_opt size args =>
      args_ok clients args ∧ hostname_opt = target_hostname (a_payload args) ∧
      size = length (SequenceBuffer.data (sequenced_packet (a_payload args)))
  | ToSelfReturnRoute r => back_ok (rr_expected_services r)
  | ToSelfRouteResult k (Ok r) => response_ok r
  | ToSelfShutdown sh => stream_type sh ≠ NeighborhoodActor.Clandestine
  | _ => True
  end.

Record proxy_ok (clients : list SocketAddr) (s : ProxyServer) : Prop := {
  ok_bound : bound s = true;
  ok_main : main_cryptde s = main;
  ok_dec : is_decentralized s = dec;
  ok_clients : Forall client clients;
  ok_inverse : Bidi.inverse (keys_and_addrs s);
  ok_keys : ∀ k a, addr_of (keys_and_addrs s) k = Some a → k = key a ∧ a ∈ clients;
  ok_retries : ∀ k r, dns_failure_retries s !! k = Some r →
    stream_key (unsuccessful_request r) = k ∧ (retries_left r ≤ if dec then 3 else 0)%nat;
  ok_routes : ∀ k r, stream_key_routes s !! k = Some r → response_ok r;
  ok_returns : ∀ id m t, Ttl.data (route_ids_to_return_routes s) !! id = Some (m, t) → back_ok (rr_expected_services m)
}.

Lemma sent_ok_mono clients clients' sent : clients ⊆ clients' → Forall (sent_ok clients) sent → Forall (sent_ok clients') sent.
Proof using.
  intros Hsub Hs. apply (Forall_impl _ _ _ Hs). intros []; cbn; try done.
  - intros (a & ? & ?). eexists. split; [done|]. by apply Hsub.
  - intros ((? & ? & ? & ?) & ?). split; [|done]. split_and!; try done. by apply Hsub.
Qed.

(** Updates that do not touch what the invariant speaks of. *)
Lemma set_tunneled_ok clients s m : proxy_ok clients s → proxy_ok clients (set_tunneled_hosts s m).
Proof using. by intros []. Qed.
Lemma set_ttl_ok clients s m : proxy_ok clients s → proxy_ok clients (set_stream_key_ttl s m).
Proof using. by intros []. Qed.
Lemma set_offset_ok clients s : proxy_ok clients s → proxy_ok clients (set_sequence_offset s).
Proof using. by intros []. Qed.

Lemma delete_retry_ok clients s k : proxy_ok clients s → proxy_ok clients (set_dns_failure_retries s (delete k (dns_failure_retries s))).
Proof using. intros []. split; try done. project. intros k' r [_ ?]%lookup_delete_Some. auto. Qed.

Lemma insert_retry_ok clients s k r : proxy_ok clients s → stream_key (unsuccessful_request r) = k → (retries_left r ≤ if dec then 3 else 0)%nat →
  proxy_ok clients (set_dns_failure_retries s (<[k := r]> (dns_failure_retries s))).
Proof using. intros [] ? ?. split; try done. project. intros k' r' [[<- <-]|[_ ?]]%lookup_insert_Some; auto. Qed.

Lemma purge_ok clients s k : proxy_ok clients s → proxy_ok clients (purge_stream_key s k).
Proof using.
  intros []. split; try done; project.
  - by apply Bidi.inverse_remove_a.
  - intros k' a [_ ?]%remove_a_lookup. auto.
  - intros k' r [_ ?]%lookup_delete_Some. eauto.
Qed.

(** Finding the key of a client. *)
Lemma find_key_ok clients s (ibcd : Hopper.InboundClientData) s' k : proxy_ok clients s → client (Hopper.client_addr ibcd) →
  find_or_generate_stream_key stream_key_new s ibcd = (s', k) →
  proxy_ok (Hopper.client_addr ibcd :: clients) s' ∧ k = key (Hopper.client_addr ibcd) ∧
  dns_failure_retries s' = dns_failure_retries s ∧ stream_key_routes s' = stream_key_routes s ∧ tunneled_hosts s' = tunneled_hosts s ∧
  consuming_wallet_balance s' = consuming_wallet_balance s.
Proof using Hkeys.
  intros Hok Hc. pose proof Hok as []. unfold find_or_generate_stream_key. set (a := Hopper.client_addr ibcd) in *.
  destruct (key_of (keys_and_addrs s) a) as [k'|] eqn:E; intros [= <- <-].
  - pose proof (proj2 (ok_inverse0 _ _) E) as Ha. destruct (ok_keys0 _ _ Ha) as [-> Hin]. split; [|done].
    split; try done; [by constructor|]. intros k2 a2 H2. destruct (ok_keys0 _ _ H2). split; [done|by right].
  - rewrite ok_main0. split; [|done]. split; try done; [by constructor| |]; project.
    + apply Bidi.inverse_insert; [done|]. apply bool_decide_eq_true. left. split; [|done].
      destruct (addr_of (keys_and_addrs s) (key a)) as [b|] eqn:Eb; [exfalso|done].
      destruct (ok_keys0 _ _ Eb) as [Hk Hin]. apply ok_inverse0 in Eb.
      rewrite Forall_forall in ok_clients0. assert (b = a) as -> by (symmetry; apply Hkeys; auto). congruence.
    + unfold addr_of, Bidi.insert. cbn [Bidi.m_a_to_b]. intros k2 a2 [[<- <-]|[_ H2]]%lookup_insert_Some; [split; [done|by left]|].
      destruct (ok_keys0 _ _ H2). split; [done|by right].
Qed.

(** ** Sending *)

Lemma try_transmit_total clients args resp : response_ok resp → args_ok clients args →
  ∃ sent, try_transmit_to_hopper request_migrations args resp = Ret (sent, Ok ()) ∧ Forall (sent_ok clients) sent.
Proof using CodecOk2 CodecOk3 KeyPairs0 Hmain.
  intros (over & back & id & Hserv & Hover & Hback) (Hm & Hdec & Hin & _). unfold try_transmit_to_hopper. rewrite Hserv.
  unfold over_ok in Hover. destruct dec eqn:Ed.
  - destruct (Hover eq_refl) as (exit & w & r & Hone & Hheld). rewrite <- Hm in Hmain.
    destruct (transmit_ok member request_migrations args (RouteQuery.r_route resp) over exit w r Hdec Hmain Hheld Hone) as (pkg & _ & _ & ->).
    cbn [mbind run_bind]. eexists. split; [reflexivity|]. constructor; [exact Hback|].
    do 2 (constructor; [exact I|]). destruct (a_retire_stream_key args); repeat constructor. done.
  - unfold transmit_to_hopper. rewrite Hdec, Hm.
    destruct (package_carries member request_migrations main (cd_public_key main) (RouteQuery.r_route resp) (a_payload args) Hmain
      (ex_intro _ main (conj Hmain eq_refl))) as (vd & pkg & -> & Hp & _).
    cbn [mbind run_bind]. rewrite Hp. cbn [mbind run_bind expect_ok]. eexists. split; [reflexivity|]. constructor; [exact Hback|].
    constructor; [exact I|]. destruct (a_retire_stream_key args); repeat constructor. done.
Qed.

Lemma route_failure_ok clients payload a : a ∈ clients → Forall (sent_ok clients) (handle_route_failure payload a).
Proof using. intros Ha. repeat constructor. by exists a. Qed.

(** The future of a route query does not panic, whatever the answer. *)
Lemma resolve_total clients args answer : args_ok clients args → (∀ resp, answer = Some (Some resp) → response_ok resp) →
  ∃ sent, resolve_message request_migrations args answer = Ret sent ∧ Forall (sent_ok clients) sent.
Proof using CodecOk2 CodecOk3 KeyPairs0 Hmain.
  intros Hargs Hans. unfold resolve_message. destruct answer as [[resp|]|].
  - destruct (try_transmit_total clients args resp (Hans _ eq_refl) Hargs) as (sent & -> & Hs). cbn [mbind run_bind].
    eexists. split; [reflexivity|]. apply Forall_app. split; [done|]. repeat constructor. by apply Hans.
  - cbn [mbind run_bind]. eexists. split; [reflexivity|]. apply Forall_app. split; [|by repeat constructor].
    apply route_failure_ok. apply Hargs.
  - cbn [mbind run_bind]. eexists. split; [reflexivity|]. by repeat constructor.
Qed.

(** An answer that the future of a route query cannot use: a way one way only,
    or one with several exits. *)
Definition unusable (resp : RouteQueryResponse) : Prop :=
  match RouteQuery.expected_services resp with
  | RouteQuery.OneWay _ => True
  | RouteQuery.RoundTrip over _ _ => dec = true ∧ (2 ≤ length (exits over))%nat
  end.

Definition exits_held (resp : RouteQueryResponse) : Prop :=
  ∀ over back id exit w r, RouteQuery.expected_services resp = RouteQuery.RoundTrip over back id →
    (exit, w, r) ∈ exits over → Route.held member exit.

Lemma exit_fold_more l acc : exits l ≠ [] → exit_fold l (Some acc) = Panic.
Proof using. induction l as [|[k w r|k w r|] l IH]; cbn; try done. Qed.

Lemma exit_fold_two l : (2 ≤ length (exits l))%nat → exit_fold l None = Panic.
Proof using.
  induction l as [|[k w r|k w r|] l IH]; cbn; try done; try lia. intros Hl. apply exit_fold_more.
  unfold exits. destruct (omap _ l); [cbn in Hl; lia|done].
Qed.

Lemma find_exit_head l k w r rest : exits l = (k, w, r) :: rest → find_exit_node_key l = Some k.
Proof using. unfold find_exit_node_key. induction l as [|[k' w' r'|k' w' r'|] l IH]; cbn; try done. by intros [= -> _]. Qed.

Lemma find_exit_none l : exits l = [] → find_exit_node_key l = None.
Proof using. unfold find_exit_node_key. by induction l as [|[k' w' r'|k' w' r'|] l IH]. Qed.

Lemma try_transmit_panics clients args resp : exits_held resp → args_ok clients args →
  try_transmit_to_hopper request_migrations args resp = Panic ↔ unusable resp.
Proof using CodecOk2 CodecOk3 KeyPairs0 Hmain.
  intros Hheld (Hm & Hdec & _). unfold try_transmit_to_hopper, unusable, exits_held in *.
  destruct (RouteQuery.expected_services resp) as [services|over back id]; [done|].
  specialize (λ exit w r, Hheld over back id exit w r eq_refl). unfold transmit_to_hopper. rewrite Hdec, Hm. destruct dec.
  - destruct (exits over) as [|[[exit w] r] more] eqn:Ex.
    { rewrite find_exit_none by done. cbn [mbind run_bind length]. split; [done|]. intros [_ H]. lia. }
    rewrite (find_exit_head _ _ _ _ _ Ex).
    destruct (package_carries member request_migrations main exit (RouteQuery.r_route resp) (a_payload args) Hmain) as (vd & pkg & -> & Hp & _).
    { apply (Hheld exit w r). by left. }
    cbn [mbind run_bind]. rewrite Hp. cbn [mbind run_bind expect_ok]. unfold report_on_exit_service. destruct more as [|x more].
    + destruct (exit_fold_one _ _ _ _ Ex) as [-> _]. cbn [mbind run_bind length]. split; [done|]. intros [_ H]. lia.
    + rewrite exit_fold_two by (rewrite Ex; cbn [length]; lia). cbn [length]. split; [intros _; split; [done|lia]|done].
  - destruct (package_carries member request_migrations main (cd_public_key main) (RouteQuery.r_route resp) (a_payload args) Hmain
      (ex_intro _ main (conj Hmain eq_refl))) as (vd & pkg & -> & Hp & _).
    cbn [mbind run_bind]. rewrite Hp. cbn [mbind run_bind expect_ok]. by split; [|intros []].
Qed.

Lemma resolve_panics clients args answer : args_ok clients args → (∀ resp, answer = Some (Some resp) → exits_held resp) →
  resolve_message request_migrations args answer = Panic ↔ ∃ resp, answer = Some (Some resp) ∧ unusable resp.
Proof using CodecOk2 CodecOk3 KeyPairs0 Hmain.
  intros Hargs Hheld. unfold resolve_message. destruct answer as [[resp|]|]; [|by split; [|intros (? & ? & _)]..].
  pose proof (try_transmit_panics clients args resp (Hheld _ eq_refl) Hargs) as H.
  destruct (try_transmit_to_hopper request_migrations args resp) as [[sent r]|]; cbn [mbind run_bind].
  - split; [done|]. intros (resp' & [= <-] & Hu). by discriminate (proj2 H Hu).
  - split; [|done]. intros _. exists resp. split; [done|]. by apply H.
Qed.

(** ** Data from a client *)

Definition speaks_tls (s : ProxyServer) (msg : Hopper.InboundClientData) : Prop :=
  is_Some (tunneled_hosts s !! key (Hopper.client_addr msg)) ∨ from_ibcd msg = Ok TLS.

(** The data that the proxy server cannot stomach: a stub of a handshake, when
    there is a wallet to pay with. *)
Definition chokes (s : ProxyServer) (msg : Hopper.InboundClientData) : Prop :=
  (consuming_wallet_balance s = None → dec = false) ∧ speaks_tls s msg ∧ is_Some (Hopper.sequence_number msg) ∧ stub (Hopper.data msg).

Lemma make_payload_panics s msg k : make_payload host_pattern_captures s msg k = Panic ↔
  (is_Some (tunneled_hosts s !! k) ∨ from_ibcd msg = Ok TLS) ∧ is_Some (Hopper.sequence_number msg) ∧ stub (Hopper.data msg).
Proof using.
  assert (Hbind : ∀ {A B} (m : run A) (f : A → B), (x ← m; Ret (f x)) = Panic ↔ m = Panic) by by intros A B [] f.
  unfold make_payload. rewrite Hbind, payload_make_panics. destruct (tunneled_hosts s !! k) as [h|]; cbn [Hopper.data Hopper.sequence_number].
  - split; [intros (_ & ? & ?); split; [left; by eexists|done]|by intros (_ & ? & ?)].
  - split; [intros (? & ? & ?); split; [by right|done]|]. by intros ([[]|?] & ? & ?).
Qed.

Lemma make_payload_key s msg k p : make_payload host_pattern_captures s msg k = Ret (Ok p) → stream_key p = k.
Proof using.
  unfold make_payload, payload_make. destruct (tunneled_hosts s !! k) as [h|]; destruct (from_ibcd _); cbn [mbind run_bind]; try done;
    destruct (Hopper.sequence_number _); cbn [mbind run_bind]; try done;
    destruct (find_host _ _ _) as [[]|]; cbn [mbind run_bind]; try done; by intros [= <-].
Qed.

Lemma more_clients clients s a : proxy_ok clients s → client a → proxy_ok (a :: clients) s.
Proof using.
  intros [] Ha. split; try done; [by constructor|]. intros k b Hb. destruct (ok_keys0 _ _ Hb). split; [done|by right].
Qed.

(** The retry entry that a request leaves. *)
Definition note_request (s : ProxyServer) (k : StreamKey) (payload : ClientRequestPayload) : ProxyServer :=
  match dns_failure_retries s !! k with
  | Some _ => s
  | None => set_dns_failure_retries s (<[k := MkRetry payload (if is_decentralized s then 3 else 0)]> (dns_failure_retries s))
  end.

Lemma note_request_ok clients s k payload : proxy_ok clients s → stream_key payload = k → proxy_ok clients (note_request s k payload).
Proof using.
  intros Hok Hk. unfold note_request. destruct (dns_failure_retries s !! k); [done|]. rewrite (ok_dec _ _ Hok). by apply insert_retry_ok.
Qed.

Lemma normal_data clients s msg retire : proxy_ok clients s → client (Hopper.client_addr msg) →
  let clients' := Hopper.client_addr msg :: clients in
  match handle_normal_client_data stream_key_new request_migrations host_pattern_captures url_captures s msg retire with
  | Panic => chokes s msg
  | Ret (s', sent, _) => ¬ chokes s msg ∧ proxy_ok clients' s' ∧ Forall (sent_ok clients') sent
  end.
Proof using Hkeys CodecOk2 CodecOk3 KeyPairs0 Hmain.
  intros Hok Hc clients'. pose proof (ok_dec _ _ Hok) as Hdec. unfold handle_normal_client_data. rewrite Hdec, (ok_bound _ _ Hok).
  destruct (bool_decide (consuming_wallet_balance s = None) && dec) eqn:Ew.
  { apply andb_prop in Ew as [Hb%bool_decide_eq_true Hd].
    assert (¬ chokes s msg) by (intros [Hw _]; specialize (Hw Hb); congruence).
    destruct (from_ibcd msg) as [pp|]; (split; [done|split; [by apply more_clients|repeat constructor]]). eexists. split; [done|by left]. }
  assert (Hw : consuming_wallet_balance s = None → dec = false) by (intros Hb; by rewrite bool_decide_true in Ew).
  destruct (find_or_generate_stream_key stream_key_new s msg) as [s1 k] eqn:Ef.
  destruct (find_key_ok clients s msg s1 k Hok Hc Ef) as (Hok1 & -> & _ & _ & Ht & _). set (k := key (Hopper.client_addr msg)) in *.
  pose proof (make_payload_panics s1 msg k) as Hp. pose proof (make_payload_key s1 msg k) as Hpk. rewrite Ht in Hp.
  destruct (make_payload host_pattern_captures s1 msg k) as [made|]; cbn [mbind run_bind].
  2: { destruct (proj1 Hp) as (? & ? & ?); done. }
  assert (Hch : ¬ chokes s msg) by (intros (_ & ? & ? & ?); by discriminate (proj2 Hp)).
  destruct made as [payload|]; [|by split]. specialize (Hpk _ eq_refl).
  destruct (negb _ && _); [by split|]. fold (note_request s1 k payload).
  pose proof (note_request_ok _ _ k payload Hok1 Hpk) as Hok2. set (s2 := note_request s1 k payload) in *.
  unfold args_new. rewrite (ok_bound _ _ Hok2). cbn [mbind run_bind]. set (args := MkArgs _ _ _ _ _ _).
  assert (Hargs : args_ok clients' args).
  { split; [apply (ok_main _ _ Hok2)|]. split; [apply (ok_dec _ _ Hok2)|]. split; [by left|]. exact Hpk. }
  destruct (stream_key_routes s2 !! stream_key payload) as [resp|] eqn:Er.
  - destruct (try_transmit_total _ _ _ (ok_routes _ _ Hok2 _ _ Er) Hargs) as (sent & -> & Hs). cbn [mbind run_bind]. done.
  - split; [done|]. split; [done|]. repeat constructor; apply Hargs.
Qed.

(** ** What comes back *)

(** The rest of a route on which the way home cannot be read. *)
Definition lost (r : Route.Route) : Prop :=
  match Route.shift (Signature := Signature) (Wallet := Z) r main with
  | Ret (r', Ok _) => Route.id r' main = Panic
  | _ => True
  end.

Lemma return_info clients env s r : proxy_ok clients s →
  match get_return_route_info (Signature := Signature) env s r with
  | Panic => lost r
  | Ret (s', found) => ¬ lost r ∧ (∃ m, s' = set_return_routes s m) ∧ proxy_ok clients s' ∧ (∀ info, found = Some info → back_ok (rr_expected_services info))
  end.
Proof using.
  intros Hok. unfold get_return_route_info, lost. rewrite (ok_main _ _ Hok).
  destruct (Route.shift r main) as [[r' [hop|e]]|]; cbn [mbind run_bind expect_ok]; [|done..].
  destruct (Route.id r' main) as [[id|e]|]; cbn [mbind run_bind]; [|split; [done|split; [|done]]|done].
  2: { exists (route_ids_to_return_routes s). by destruct s. }
  destruct (Ttl.get _ _ _ _) as [m found] eqn:E. apply ttl_get_lookup in E as [Hf Hm]. split; [done|]. split; [by eexists|]. pose proof Hok as [].
  split; [split; try done; project; intros ? ? ? (? & ?)%Hm; eauto|]. intros info (u & Hu)%Hf. eauto.
Qed.

Lemma search_nothing l size : Forall (λ e, e = RouteQuery.ExpectNothing) l → exit_service_search l size = Ret None.
Proof using. induction 1 as [|e l -> _ IH]; done. Qed.

Lemma report_ok clients env s info size size' : proxy_ok clients s → back_ok (rr_expected_services info) →
  ∃ sent, report_response_services_consumed env s info size size' = Ret sent ∧ Forall (sent_ok clients) sent ∧ length sent = if dec then 1%nat else 0%nat.
Proof using.
  intros Hok Hb. unfold report_response_services_consumed, back_ok in *. rewrite (ok_bound _ _ Hok). destruct dec.
  - destruct Hb as (exit & w & r & rest & ->). eexists. split; [reflexivity|]. by repeat constructor.
  - rewrite search_nothing by done. eexists. split; [reflexivity|]. by repeat constructor.
Qed.

Lemma back_exit info : back_ok (rr_expected_services info) → dec = true → is_Some (find_exit_node_key (rr_expected_services info)).
Proof using. unfold back_ok. intros Hb ->. destruct Hb as (exit & w & r & rest & ->). by eexists. Qed.

Lemma dns_failure_total clients env s msg : proxy_ok clients s →
  match handle_dns_resolve_failure (Signature := Signature) env s msg with
  | Panic => lost (Hopper.remaining_route msg)
  | Ret (s', sent) => ¬ lost (Hopper.remaining_route msg) ∧ proxy_ok clients s' ∧ Forall (sent_ok clients) sent
  end.
Proof using.
  intros Hok0. unfold handle_dns_resolve_failure. pose proof (return_info clients env s (Hopper.remaining_route msg) Hok0) as Hi.
  destruct (get_return_route_info env s (Hopper.remaining_route msg)) as [[s1 [info|]]|]; cbn [mbind run_bind]; [| |done].
  2: { destruct Hi as (? & _ & ? & _). split; [done|]. split; [done|constructor]. }
  destruct Hi as (Hl & _ & Hok & Hb). specialize (Hb _ eq_refl). rewrite (ok_dec _ _ Hok). pose proof (back_exit info Hb) as Hx.
  assert (∃ x, match find_exit_node_key (rr_expected_services info) return run PublicKey with
    | Some k => Ret k | None => if dec then Panic else Ret (cd_public_key (main_cryptde s1)) end = Ret x) as [x ->].
  { destruct (find_exit_node_key _); [by eexists|]. destruct dec; [by destruct (Hx eq_refl)|by eexists]. }
  cbn [mbind run_bind]. destruct (addr_of (keys_and_addrs s1) (Hopper.ex_payload msg)) as [a|] eqn:Ea; [|split; [done|split; [done|constructor]]].
  destruct (ok_keys _ _ Hok _ _ Ea) as [Hk Hin]. rewrite (ok_bound _ _ Hok).
  assert (∃ un, match rr_hostname_opt info with Some server_name => Ret [AddUnreachableHost x server_name] | None => Ret [] end = Ret un
    ∧ Forall (sent_ok clients) un) as (un & -> & Hun) by (destruct (rr_hostname_opt info); eexists; split; [done| |done|]; by repeat constructor).
  cbn [mbind run_bind]. destruct (report_ok clients env s1 info 0 (Hopper.payload_len msg) Hok Hb) as (report & -> & Hrep & _). cbn [mbind run_bind remove_dns_failure_retry].
  set (k := Hopper.ex_payload msg) in *. pose proof (delete_retry_ok _ _ k Hok) as Hok2. set (s2 := set_dns_failure_retries s1 _) in *.
  destruct (dns_failure_retries s1 !! k) as [retry|] eqn:Er; [|split; [done|]; split; [done|by apply Forall_app]].
  destruct (ok_retries _ _ Hok _ _ Er) as [Hrk Hleft]. destruct (retries_left retry) as [|left'] eqn:El.
  - unfold send_dns_failure_response_to_the_browser. rewrite (ok_bound _ _ (purge_ok _ _ k Hok2)). cbn [mbind run_bind].
    split; [done|]. split; [by apply purge_ok|]. rewrite !Forall_app. split_and!; try done. repeat constructor. by exists a.
  - unfold retry_dns_resolution, args_new. rewrite (ok_bound _ _ Hok2). cbn [mbind run_bind]. split; [done|].
    split; [apply insert_retry_ok; [done|done|]; cbn [retries_left]; lia|]. rewrite !Forall_app. split_and!; try done. repeat constructor; cbn.
    + apply (ok_main _ _ Hok2).
    + apply (ok_dec _ _ Hok2).
    + done.
    + congruence.
Qed.

(** A response that finds its stream after the clock was set back, or with a
    number that cannot be raised. *)
Definition spoils (env : Env) (s : ProxyServer) (msg : Hopper.ExpiredCoresPackage (Wallet := Z) ClientResponsePayload) : Prop :=
  lost (Hopper.remaining_route msg) ∨
  (∃ s' info, get_return_route_info (Signature := Signature) env s (Hopper.remaining_route msg) = Ret (s', Some info)) ∧
  match stream_key_ttl s !! cr_stream_key (Hopper.ex_payload msg) with
  | Some old_timestamp => e_now env < old_timestamp
  | None =>
      is_Some (addr_of (keys_and_addrs s) (cr_stream_key (Hopper.ex_payload msg))) ∧
      2 ^ 64 ≤ SequenceBuffer.sequence_number (cr_sequenced_packet (Hopper.ex_payload msg)) + Z.b2z (browser_proxy_sequence_offset s)
  end.

Lemma client_response_total clients env s msg : proxy_ok clients s →
  0 ≤ SequenceBuffer.sequence_number (cr_sequenced_packet (Hopper.ex_payload msg)) →
  match handle_client_response_payload (Signature := Signature) env s msg with
  | Panic => spoils env s msg
  | Ret (s', sent) => ¬ spoils env s msg ∧ proxy_ok clients s' ∧ Forall (sent_ok clients) sent
  end.
Proof using.
  intros Hok0 Hseq. unfold handle_client_response_payload, spoils. pose proof (return_info clients env s (Hopper.remaining_route msg) Hok0) as Hi.
  destruct (get_return_route_info env s (Hopper.remaining_route msg)) as [[s1 [info|]]|]; cbn [mbind run_bind]; [| |by left].
  2: { destruct Hi as (? & _ & ? & _). split; [|split; [done|constructor]]. intros [?|[(? & ? & ?) _]]; done. }
  destruct Hi as (Hl & [m ->] & Hok & Hb). specialize (Hb _ eq_refl).
  destruct (report_ok clients env _ info (length (SequenceBuffer.data (cr_sequenced_packet (Hopper.ex_payload msg)))) (Hopper.payload_len msg) Hok Hb)
    as (report & -> & Hrep & _). cbn [mbind run_bind remove_dns_failure_retry]. set (k := cr_stream_key (Hopper.ex_payload msg)).
  pose proof (delete_retry_ok _ _ k Hok) as Hok2. set (s2 := set_dns_failure_retries _ _) in *.
  change (stream_key_ttl s2) with (stream_key_ttl s). change (keys_and_addrs s2) with (keys_and_addrs s).
  change (browser_proxy_sequence_offset s2) with (browser_proxy_sequence_offset s). destruct (stream_key_ttl s !! k) as [old|].
  { destruct (Z.leb_spec old (e_now env)); [|right; split; [by do 2 eexists|done]]. split; [|done]. intros [?|[_ ?]]; [done|lia]. }
  destruct (addr_of (keys_and_addrs s) k) as [a|] eqn:Ea; [|split; [|done]; intros [?|[_ [[] _]]]; done].
  destruct (ok_keys _ _ Hok2 k a Ea) as [_ Hin]. unfold Signed.checked_u. destruct (Signed.fits_u _ _) eqn:Efits; cbn [mbind run_bind].
  - rewrite (ok_bound _ _ Hok2). apply andb_prop in Efits as [_ Hlt%Z.ltb_lt]. split; [intros [?|[_ [_ ?]]]; [done|lia]|]. split.
    { destruct (SequenceBuffer.last_data _); [by apply purge_ok|done]. }
    rewrite Forall_app. split; [done|]. repeat constructor. by exists a.
  - right. split; [by do 2 eexists|]. split; [by eexists|]. apply andb_false_iff in Efits as [?%Z.leb_gt|?%Z.ltb_ge]; [|done].
    destruct (browser_proxy_sequence_offset s); cbn [Z.b2z] in *; lia.
Qed.

Lemma known_clients clients s a : proxy_ok (a :: clients) s → a ∈ clients → proxy_ok clients s.
Proof using.
  intros [] Ha. split; try done; [by inversion ok_clients0|]. intros k b Hb. destruct (ok_keys0 _ _ Hb) as [? [->|?]%elem_of_cons]; done.
Qed.

Lemma shutdown_total clients env s msg : proxy_ok clients s → stream_type msg ≠ NeighborhoodActor.Clandestine →
  ∃ s' sent, handle_stream_shutdown_msg stream_key_new request_migrations host_pattern_captures url_captures env s msg = Ret (s', sent) ∧
    proxy_ok clients s' ∧ Forall (sent_ok clients) sent.
Proof using Hkeys CodecOk2 CodecOk3 KeyPairs0 Hmain.
  intros Hok Hty. unfold handle_stream_shutdown_msg. destruct (stream_type msg) as [|port n]; [done|].
  destruct (key_of (keys_and_addrs s) (peer_addr msg)) as [k|] eqn:E; [|do 2 eexists; split; [done|split; [done|constructor]]].
  apply (ok_inverse _ _ Hok) in E. destruct (ok_keys _ _ Hok _ _ E) as [_ Hin].
  unfold schedule_stream_key_purge. project. rewrite (ok_bound _ _ Hok). cbn [mbind run_bind].
  pose proof (set_ttl_ok _ _ (<[k := e_now env]> (stream_key_ttl s)) Hok) as Hok1. set (s1 := set_stream_key_ttl s _) in *.
  destruct (report_to_counterpart msg); [|do 2 eexists; split; [done|split; [done|by repeat constructor]]].
  set (ibcd := Hopper.MkInbound _ _ _ _ _ _ _). assert (Hc : client (Hopper.client_addr ibcd)) by by (eapply Forall_forall; [apply Hok|]).
  pose proof (normal_data clients s1 ibcd true Hok1 Hc) as Hn. cbn zeta in Hn.
  destruct (handle_normal_client_data _ _ _ _ s1 ibcd true) as [[[s2 sent] r]|]; cbn [mbind run_bind].
  - destruct Hn as (_ & Hok2 & Hs). do 2 eexists. split; [done|]. split; [by eapply known_clients|]. constructor; [done|].
    eapply sent_ok_mono; [|exact Hs]. by intros x [->|?]%elem_of_cons.
  - by destruct Hn as (_ & _ & _ & [? _]).
Qed.

Lemma connect_total clients s msg : proxy_ok clients s → client (Hopper.client_addr msg) →
  ∃ s' sent, tls_connect stream_key_new host_pattern_captures s msg = Ret (s', sent) ∧
    proxy_ok (Hopper.client_addr msg :: clients) s' ∧ Forall (sent_ok (Hopper.client_addr msg :: clients)) sent.
Proof using Hkeys.
  intros Hok Hc. unfold tls_connect. rewrite (ok_bound _ _ Hok).
  destruct (http_find_host_total host_pattern_captures (λ _, false) (Hopper.data msg)) as [h ->]. cbn [mbind run_bind].
  assert (Hdone : ∀ b d n, Forall (sent_ok (Hopper.client_addr msg :: clients)) [ToDispatcher (Hopper.MkTransmit (Hopper.Socket (Hopper.client_addr msg)) b d n)]).
  { intros. repeat constructor. eexists. split; [done|by left]. }
  destruct h as [host|]; [|by do 2 eexists; split; [done|split; [by apply more_clients|]]].
  destruct (TlsPack.port host =? _); [|by do 2 eexists; split; [done|split; [by apply more_clients|]]].
  destruct (find_or_generate_stream_key stream_key_new s msg) as [s1 k] eqn:Ef.
  destruct (find_key_ok clients s msg s1 k Hok Hc Ef) as (Hok1 & _). project. rewrite (ok_bound _ _ Hok1).
  do 2 eexists. split; [done|]. split; [by apply set_tunneled_ok|done].
Qed.

(** ** Histories *)

Record World := MkWorld {
  w_proxy : ProxyServer;
  w_sent : list Sent;
  w_clients : list SocketAddr
}.

(** What may arrive: what others send, and what the actor sent to itself. *)
Inductive arrives (w : World) : Message → Prop :=
| from_client msg : client (Hopper.client_addr msg) → arrives w (Inbound msg)
| from_exit_failure msg : arrives w (DnsFailure msg)
| from_exit_response msg : 0 ≤ SequenceBuffer.sequence_number (cr_sequenced_packet (Hopper.ex_payload msg)) < 2 ^ 64 → arrives w (ClientResponse msg)
| from_dispatcher msg : arrives w (StreamShutdown msg)
| from_ui for_proxy_server : arrives w (UiCrash for_proxy_server)
| own_return_route msg : ToSelfReturnRoute msg ∈ w_sent w → arrives w (AddReturnRoute msg)
| own_route_result k r : ToSelfRouteResult k r ∈ w_sent w → arrives w (AddRouteResult k r)
| own_purge k delay : ToSelfPurgeLater k delay ∈ w_sent w → arrives w (StreamKeyPurge k).

Definition heard (msg : Message) : list SocketAddr := match msg with Inbound m => [Hopper.client_addr m] | _ => [] end.

Inductive step : World → World → Prop :=
| deliver w env msg s' sent :
    arrives w msg → handle env (w_proxy w) msg = Ret (s', sent) →
    step w (MkWorld s' (sent ++ w_sent w) (heard msg ++ w_clients w))
| answer w hostname_opt size args route_result sent :
    QueryRoute hostname_opt size args ∈ w_sent w → (∀ resp, route_result = Some (Some resp) → response_ok resp) →
    resolve_message request_migrations args route_result = Ret sent →
    step w (MkWorld (w_proxy w) (sent ++ w_sent w) (w_clients w)).

Definition start (instant : Z) (balance : option Z) (crashable integration : bool) : World :=
  MkWorld (set_bound (new instant main alias dec balance crashable integration)) [] [].

Definition world_ok (w : World) : Prop := proxy_ok (w_clients w) (w_proxy w) ∧ Forall (sent_ok (w_clients w)) (w_sent w).

(** The messages that stop the proxy server. *)
Definition fault (env : Env) (s : ProxyServer) (msg : Message) : Prop :=
  match msg with
  | Inbound m => is_connect method_is_connect (Hopper.data m) = false ∧ chokes s m
  | AddRouteResult k _ => dns_failure_retries s !! k = None
  | DnsFailure m => lost (Hopper.remaining_route m)
  | ClientResponse m => spoils env s m
  | StreamShutdown m => stream_type m = NeighborhoodActor.Clandestine
  | UiCrash for_proxy_server => crashable s = true ∧ for_proxy_server = true
  | _ => False
  end.

Lemma inbound_total clients s m : proxy_ok clients s → client (Hopper.client_addr m) →
  match handle_inbound_client_data stream_key_new request_migrations host_pattern_captures method_is_connect url_captures s m with
  | Panic => is_connect method_is_connect (Hopper.data m) = false ∧ chokes s m
  | Ret (s', sent) =>
      ¬ (is_connect method_is_connect (Hopper.data m) = false ∧ chokes s m) ∧ proxy_ok (Hopper.client_addr m :: clients) s' ∧
      Forall (sent_ok (Hopper.client_addr m :: clients)) sent
  end.
Proof using Hkeys CodecOk2 CodecOk3 KeyPairs0 Hmain.
  intros Hok Hc. unfold handle_inbound_client_data. destruct (is_connect method_is_connect (Hopper.data m)).
  - destruct (connect_total clients s m Hok Hc) as (s' & sent & -> & Hok' & Hs). cbn [mbind run_bind].
    split; [by intros []|]. split; [by apply set_offset_ok|done].
  - pose proof (normal_data clients s m false Hok Hc) as Hn. cbn zeta in Hn.
    destruct (handle_normal_client_data _ _ _ _ _ _ _) as [[[s' sent] r]|]; cbn [mbind run_bind]; [|done].
    destruct Hn as (Hch & ? & ?). split; [by intros []|done].
Qed.

Lemma handle_total w env msg : world_ok w → arrives w msg →
  match handle env (w_proxy w) msg with
  | Panic => fault env (w_proxy w) msg
  | Ret (s', sent) => ¬ fault env (w_proxy w) msg ∧ proxy_ok (heard msg ++ w_clients w) s' ∧ Forall (sent_ok (heard msg ++ w_clients w)) sent
  end.
Proof using Hkeys CodecOk2 CodecOk3 KeyPairs0 Hmain.
  intros [Hok Hsent] Harr. rewrite Forall_forall in Hsent.
  destruct Harr as [msg Hc|msg|msg Hseq|msg|b|msg Hin|k r Hin|k d Hin]; cbn [ProxyServer.handle fault heard app].
  - by apply inbound_total.
  - by apply dns_failure_total.
  - apply client_response_total; [done|lia].
  - destruct (stream_type msg) eqn:Hty; [unfold handle_stream_shutdown_msg; by rewrite Hty|].
    destruct (shutdown_total _ env _ msg Hok) as (s' & sent & -> & ? & ?); [by rewrite Hty|]. by split.
  - destruct (crashable (w_proxy w)), b; cbn [andb]; (split; [by try intros []|]); done || (split; [done|constructor]).
  - split; [by intros []|]. split; [|constructor]. pose proof Hok as []. split; try done. project.
    intros id m t [->|[u Hu]]%ttl_insert_lookup; [exact (Hsent _ Hin)|eauto].
  - unfold handle_add_route_result. destruct (dns_failure_retries (w_proxy w) !! k); cbn [expect mbind run_bind]; [|done].
    split; [done|]. split; [|constructor]. destruct r as [resp|]; [|done]. pose proof Hok as []. split; try done. project.
    intros k' r' [[<- <-]|[_ ?]]%lookup_insert_Some; [exact (Hsent _ Hin)|eauto].
  - split; [by intros []|]. split; [by apply purge_ok|constructor].
Qed.

Lemma start_world_ok instant balance crash integration : world_ok (start instant balance crash integration).
Proof using.
  split; [|constructor]. by split; cbn.
Qed.

Lemma world_step_ok w w' : step w w' → world_ok w → world_ok w'.
Proof using Hkeys CodecOk2 CodecOk3 KeyPairs0 Hmain.
  intros [w0 env msg s' sent Harr Hh|w0 h n args a sent Hin Hans Hr] Hw.
  - pose proof (handle_total w0 env msg Hw Harr) as Ht. rewrite Hh in Ht. destruct Ht as (_ & Hok & Hs). split; [done|]. cbn.
    rewrite Forall_app. split; [done|]. eapply sent_ok_mono; [|apply Hw]. intros x Hx. apply elem_of_app. by right.
  - pose proof Hw as [Hok Hs]. split; [done|]. cbn. rewrite Forall_app. split; [|done]. rewrite Forall_forall in Hs.
    destruct (resolve_total _ args a (proj1 (Hs _ Hin)) Hans) as (sent' & Hr' & Hs'). rewrite Hr in Hr'. by injection Hr' as <-.
Qed.

Lemma reachable_ok instant balance crash integration w : rtc step (start instant balance crash integration) w → world_ok w.
Proof using Hkeys CodecOk2 CodecOk3 KeyPairs0 Hmain.
  intros Hw. pose proof (start_world_ok instant balance crash integration) as Hs.
  induction Hw as [|w1 w2 w3 Hstep _ IH]; [done|]. by apply IH, (world_step_ok w1).
Qed.

(** C14: when the proxy server panics.  Take any history in which the neighborhood
    answers as it does ([answers_ok]): with a round trip, one exit on the way over
    and the exit first on the way back.  Whatever message of another actor, or of
    its own that it has sent before, arrives next, the proxy server panics exactly
    on: data of one to four bytes that begins like a TLS handshake, from a client
    that speaks TLS, when there is a wallet to pay with; the result of a route query
    for a stream whose request is no longer on record; a package from an exit whose
    route does not lead home; a response that is handled after the clock was set
    back behind the shutdown of its stream, or whose number is the largest one and
    has to be raised; the shutdown of a clandestine stream; and a crash that the
    user interface asks for.  And whatever the neighborhood answers next, as long
    as the exits it names have keys that can be encrypted for, the future of a
    route query panics exactly on a route one way only and, unless the node runs on
    its own, on a way over with several exits. *)
Theorem proxy_panics_exactly instant balance crash integration (w : World) :
  rtc step (start instant balance crash integration) w →
  (∀ env msg, arrives w msg → handle env (w_proxy w) msg = Panic ↔ fault env (w_proxy w) msg) ∧
  (∀ hostname_opt size args route_result, QueryRoute hostname_opt size args ∈ w_sent w →
    (∀ resp, route_result = Some (Some resp) → exits_held resp) →
    resolve_message request_migrations args route_result = Panic ↔ ∃ resp, route_result = Some (Some resp) ∧ unusable resp).
Proof using Hkeys CodecOk2 CodecOk3 KeyPairs0 Hmain.
  intros Hw%reachable_ok. split.
  - intros env msg Harr. pose proof (handle_total w env msg Hw Harr) as Ht. destruct (handle env (w_proxy w) msg) as [[s' sent]|]; [|done].
    split; [done|]. by destruct Ht as (? & _).
  - intros h n args a Hin Hheld. destruct Hw as [_ Hs]. rewrite Forall_forall in Hs. exact (resolve_panics _ args a (proj1 (Hs _ Hin)) Hheld).
Qed.

(** ** Responses *)

(** What a response over a known way back costs: the exit by the data it
    delivers, the nodes on the way by the size of the package. *)
Definition response_charge (env : Env) (info : AddReturnRouteMessage) (size routing_size : nat) : list Sent :=
  match rr_expected_services info with
  | RouteQuery.ExpectExit _ w r :: rest =>
      [ToAccountant (Accountant.MkServicesConsumed (e_now env)
         (Accountant.MkExitConsumed w (Z.of_nat size) (Neighborhood.exit_service_rate r) (Neighborhood.exit_byte_rate r))
         (Z.of_nat routing_size) (report_on_routing_services rest))]
  | _ => []
  end.

Lemma response_report_spec clients env s info size size' : proxy_ok clients s → back_ok (rr_expected_services info) →
  report_response_services_consumed env s info size size' = Ret (response_charge env info size size').
Proof using.
  intros Hok Hb. unfold report_response_services_consumed, response_charge, back_ok in *. rewrite (ok_bound _ _ Hok). destruct dec.
  - by destruct Hb as (exit & w & r & rest & ->).
  - rewrite search_nothing by done. cbn [mbind run_bind]. by destruct Hb as [|e l -> _].
Qed.

(** Nothing is left of a stream. *)
Definition forgotten (s : ProxyServer) (k : StreamKey) (a : SocketAddr) : Prop :=
  addr_of (keys_and_addrs s) k = None ∧ key_of (keys_and_addrs s) a = None ∧ stream_key_routes s !! k = None ∧
  tunneled_hosts s !! k = None ∧ stream_key_ttl s !! k = None.

Lemma purge_forgets clients s k a : proxy_ok clients s → addr_of (keys_and_addrs s) k = Some a → forgotten (purge_stream_key s k) k a.
Proof using.
  intros Hok Ha. pose proof (ok_inverse _ _ (purge_ok _ _ k Hok)) as Hinv.
  assert (Hnone : addr_of (keys_and_addrs (purge_stream_key s k)) k = None).
  { project. unfold addr_of, Bidi.remove_a. destruct (Bidi.m_a_to_b (keys_and_addrs s) !! k); apply lookup_delete_eq. }
  split; [done|]. split; [|project; rewrite !lookup_delete_eq; done].
  destruct (key_of _ a) as [k'|] eqn:E; [exfalso|done]. apply Hinv in E. revert E. project. intros [Hne E]%remove_a_lookup.
  apply (ok_inverse _ _ Hok) in E, Ha. congruence.
Qed.


(** ** Failures to resolve a host *)

(** The failure is about the stream and comes over a way back that is remembered. *)
Definition heeded (k : StreamKey) (s : ProxyServer) (f : Failure) : Prop :=
  Hopper.ex_payload f.2 = k ∧
  ∃ s1 info, get_return_route_info (Signature := Signature) f.1 s (Hopper.remaining_route f.2) = Ret (s1, Some info).

(** The messages that end a series of failures: a response on the stream, and
    the removal of the stream after its shutdown.  A failure that is heeded is
    counted. *)
Definition beside (k : StreamKey) (env : Env) (s : ProxyServer) (msg : Message) : Prop :=
  match msg with
  | ClientResponse m => cr_stream_key (Hopper.ex_payload m) ≠ k
  | StreamKeyPurge k' => k' ≠ k
  | DnsFailure m => ¬ heeded k s (env, m)
  | _ => True
  end.

(** A history in which failures for a stream are heeded, with what each of them
    made the actor send; between them anything else may happen. *)
Inductive trail (k : StreamKey) : World → list (Failure * list Sent) → World → Prop :=
| trail_end w : trail k w [] w
| trail_failure w f s' sent fs w' :
    heeded k (w_proxy w) f → handle f.1 (w_proxy w) (DnsFailure f.2) = Ret (s', sent) →
    trail k (MkWorld s' (sent ++ w_sent w) (w_clients w)) fs w' → trail k w ((f, sent) :: fs) w'
| trail_message w env msg s' sent fs w' :
    arrives w msg → beside k env (w_proxy w) msg → handle env (w_proxy w) msg = Ret (s', sent) →
    trail k (MkWorld s' (sent ++ w_sent w) (heard msg ++ w_clients w)) fs w' → trail k w fs w'
| trail_answer w hostname_opt size args route_result sent fs w' :
    QueryRoute hostname_opt size args ∈ w_sent w → (∀ resp, route_result = Some (Some resp) → response_ok resp) →
    resolve_message request_migrations args route_result = Ret sent →
    trail k (MkWorld (w_proxy w) (sent ++ w_sent w) (w_clients w)) fs w' → trail k w fs w'.

Definition queries (sent : list Sent) : list (option (list Z) * nat * TransmitToHopperArgs) :=
  omap (λ m, match m with QueryRoute h n args => Some (h, n, args) | _ => None end) sent.
Definition dispatched (sent : list Sent) : list Hopper.TransmitDataMsg := omap (λ m, match m with ToDispatcher t => Some t | _ => None end) sent.

(** The request goes out once more. *)
Definition again (a : SocketAddr) (req : ClientRequestPayload) (failure : Failure) : option (list Z) * nat * TransmitToHopperArgs :=
  (target_hostname req, length (SequenceBuffer.data (sequenced_packet req)), MkArgs main req a (e_now failure.1) dec false).

Lemma dns_step clients env s msg s1 info a req n : proxy_ok clients s →
  get_return_route_info (Signature := Signature) env s (Hopper.remaining_route msg) = Ret (s1, Some info) →
  let k := Hopper.ex_payload msg in
  addr_of (keys_and_addrs s) k = Some a → dns_failure_retries s !! k = Some (MkRetry req n) →
  ∃ s' sent, handle env s (DnsFailure msg) = Ret (s', sent) ∧ proxy_ok clients s' ∧
    match n with
    | S n' => queries sent = [again a req (env, msg)] ∧ dispatched sent = [] ∧
        addr_of (keys_and_addrs s') k = Some a ∧ dns_failure_retries s' !! k = Some (MkRetry req n')
    | O => queries sent = [] ∧
        dispatched sent = [Hopper.MkTransmit (Hopper.Socket a) true (dns_resolution_failure_response (rr_protocol info) (rr_hostname_opt info)) (Some 0)] ∧
        forgotten s' k a ∧ dns_failure_retries s' !! k = None
    end.
Proof using.
  intros Hok0 Hinfo k Ha Hr. pose proof (return_info clients env s (Hopper.remaining_route msg) Hok0) as Hi. rewrite Hinfo in Hi.
  destruct Hi as (_ & [m ->] & Hok & Hb). specialize (Hb _ eq_refl). pose proof (dns_failure_total clients env s msg Hok0) as Htotal.
  cbn [ProxyServer.handle]. revert Htotal. unfold handle_dns_resolve_failure. rewrite Hinfo. cbn [mbind run_bind]. project. fold k.
  destruct (find_exit_node_key (rr_expected_services info)) as [x|] eqn:Ex; [|destruct (is_decentralized s) eqn:Ed].
  2: { exfalso. rewrite (ok_dec _ _ Hok0) in Ed. destruct (back_exit info Hb Ed). congruence. }
  all: cbn [mbind run_bind]; rewrite Ha, (ok_bound _ _ Hok0), (response_report_spec _ env _ info _ _ Hok Hb);
    destruct (rr_hostname_opt info) as [name|] eqn:En; cbn [mbind run_bind remove_dns_failure_retry]; project; rewrite Hr; cbn [retries_left unsuccessful_request];
    destruct n as [|n']; unfold send_dns_failure_response_to_the_browser, retry_dns_resolution, args_new; project; rewrite (ok_bound _ _ Hok0), ?(ok_main _ _ Hok0), ?(ok_dec _ _ Hok0);
    cbn [mbind run_bind]; intros (_ & Hok' & _); (do 2 eexists; split; [reflexivity|]; split; [exact Hok'|]).
  all: assert (Hq : queries (response_charge env info 0 (Hopper.payload_len msg)) = [] ∧ dispatched (response_charge env info 0 (Hopper.payload_len msg)) = [])
    by (unfold response_charge; by destruct (rr_expected_services info) as [|[]]).
  all: destruct Hq as [Hq Hd]; unfold queries, dispatched in *; rewrite ?omap_app, ?Hq, ?Hd; project; rewrite ?lookup_insert_eq, ?lookup_delete_eq.
  all: try done.
  all: (split; [done|]; split; [done|]; split; [|done]).
  all: exact (purge_forgets clients _ k a (delete_retry_ok _ _ k Hok) Ha).
Qed.

(** The stream is open, and a request is on record for it. *)
Definition open_with (k : StreamKey) (a : SocketAddr) (r : DNSFailureRetry) (s : ProxyServer) : Prop :=
  addr_of (keys_and_addrs s) k = Some a ∧ dns_failure_retries s !! k = Some r.

Section beside.
Context (k : StreamKey) (a : SocketAddr) (r : DNSFailureRetry).

Lemma purge_other k' s : k' ≠ k → open_with k a r s → open_with k a r (purge_stream_key s k').
Proof using. intros Hne [Ha Hr]. split; [|done]. project. by apply remove_a_lookup. Qed.

Lemma find_key_keeps clients s (msg : Hopper.InboundClientData) s' k' : proxy_ok clients s → client (Hopper.client_addr msg) → open_with k a r s →
  find_or_generate_stream_key stream_key_new s msg = (s', k') → open_with k a r s'.
Proof using Hkeys.
  intros Hok Hc [Ha Hr]. unfold find_or_generate_stream_key. destruct (key_of (keys_and_addrs s) (Hopper.client_addr msg)) as [k1|] eqn:E; [by intros [= <- _]|].
  intros [= <- _]. split; [|done]. project. unfold addr_of, Bidi.insert. cbn [Bidi.m_a_to_b]. rewrite lookup_insert_ne; [done|].
  rewrite (ok_main _ _ Hok). destruct (ok_keys _ _ Hok _ _ Ha) as [Hk Hin]. intros Heq.
  assert (Hopper.client_addr msg = a) as Hm.
  { apply Hkeys; [done| |congruence]. by eapply Forall_forall; [apply (ok_clients _ _ Hok)|]. }
  apply (ok_inverse _ _ Hok) in Ha. congruence.
Qed.

Lemma note_request_keeps s k' payload : open_with k a r s → open_with k a r (note_request s k' payload).
Proof using.
  intros [Ha Hr]. unfold note_request. destruct (dns_failure_retries s !! k') eqn:E; [done|]. split; [done|]. project.
  rewrite lookup_insert_ne; [done|congruence].
Qed.

Lemma normal_keeps clients s msg retire s' sent res : proxy_ok clients s → client (Hopper.client_addr msg) → open_with k a r s →
  handle_normal_client_data stream_key_new request_migrations host_pattern_captures url_captures s msg retire = Ret (s', sent, res) →
  open_with k a r s'.
Proof using Hkeys.
  intros Hok Hc Hs. unfold handle_normal_client_data. destruct (bool_decide _ && _).
  { destruct (from_ibcd msg); [|by intros [= <- _ _]]. destruct (bound s); [by intros [= <- _ _]|done]. }
  destruct (find_or_generate_stream_key stream_key_new s msg) as [s1 k1] eqn:Ef.
  pose proof (find_key_keeps clients s msg s1 k1 Hok Hc Hs Ef) as H1.
  destruct (make_payload _ s1 msg k1) as [[payload|]|]; cbn [mbind run_bind]; [|by intros [= <- _ _]|done].
  destruct (negb _ && _); [by intros [= <- _ _]|]. fold (note_request s1 k1 payload).
  pose proof (note_request_keeps s1 k1 payload H1) as H2. set (s2 := note_request s1 k1 payload) in *.
  unfold args_new. destruct (bound s2); cbn [mbind run_bind]; [|done].
  destruct (stream_key_routes s2 !! stream_key payload); [|by intros [= <- _ _]].
  destruct (try_transmit_to_hopper _ _ _) as [[]|]; cbn [mbind run_bind]; [by intros [= <- _ _]|done].
Qed.

Lemma inbound_keeps clients s msg s' sent : proxy_ok clients s → client (Hopper.client_addr msg) → open_with k a r s →
  handle_inbound_client_data stream_key_new request_migrations host_pattern_captures method_is_connect url_captures s msg = Ret (s', sent) →
  open_with k a r s'.
Proof using Hkeys.
  intros Hok Hc Hs. unfold handle_inbound_client_data. destruct (is_connect _ _).
  - unfold tls_connect. destruct (http_find_host _ _) as [h|]; cbn [mbind run_bind]; [|done].
    destruct h as [host|]; [|destruct (bound s); [by intros [= <- _]|done]].
    destruct (TlsPack.port host =? _); [|destruct (bound s); [by intros [= <- _]|done]].
    destruct (find_or_generate_stream_key stream_key_new s msg) as [s1 k1] eqn:Ef.
    pose proof (find_key_keeps clients s msg s1 k1 Hok Hc Hs Ef) as H1. project. destruct (bound s1); [by intros [= <- _]|done].
  - destruct (handle_normal_client_data _ _ _ _ s msg false) as [[[s1 sent1] res]|] eqn:E; cbn [mbind run_bind]; [|done].
    intros [= <- _]. by eapply normal_keeps.
Qed.

Lemma shutdown_keeps clients env s msg s' sent : proxy_ok clients s → open_with k a r s →
  handle_stream_shutdown_msg stream_key_new request_migrations host_pattern_captures url_captures env s msg = Ret (s', sent) →
  open_with k a r s'.
Proof using Hkeys.
  intros Hok Hs. unfold handle_stream_shutdown_msg. destruct (stream_type msg) as [|port n]; [done|].
  destruct (key_of (keys_and_addrs s) (peer_addr msg)) as [k1|] eqn:E; [|by intros [= <- _]].
  unfold schedule_stream_key_purge. project. destruct (bound s) eqn:Eb; cbn [mbind run_bind]; [|done].
  destruct (report_to_counterpart msg); [|by intros [= <- _]]. apply (ok_inverse _ _ Hok) in E. destruct (ok_keys _ _ Hok _ _ E) as [_ Hin].
  destruct (handle_normal_client_data _ _ _ _ _ _ true) as [[[s2 sent2] res]|] eqn:En; cbn [mbind run_bind]; [|done]. intros [= <- _].
  eapply (normal_keeps clients); [|..|exact En].
  - by apply set_ttl_ok.
  - cbn. by eapply Forall_forall; [apply (ok_clients _ _ Hok)|].
  - exact Hs.
Qed.

Lemma delete_retry_other k' s : k' ≠ k → open_with k a r s → open_with k a r (set_dns_failure_retries s (delete k' (dns_failure_retries s))).
Proof using. intros Hne [Ha Hr]. split; [done|]. project. by rewrite lookup_delete_ne. Qed.

Lemma response_keeps clients env s msg s' sent : proxy_ok clients s → cr_stream_key (Hopper.ex_payload msg) ≠ k → open_with k a r s →
  handle_client_response_payload (Signature := Signature) env s msg = Ret (s', sent) → open_with k a r s'.
Proof using.
  intros Hok Hne Hs. unfold handle_client_response_payload. pose proof (return_info clients env s (Hopper.remaining_route msg) Hok) as Hi.
  destruct (get_return_route_info env s (Hopper.remaining_route msg)) as [[s1 found]|]; cbn [mbind run_bind]; [|done].
  destruct Hi as (_ & [m ->] & _). destruct found as [info|]; [|by intros [= <- _]].
  destruct (report_response_services_consumed _ _ _ _ _); cbn [mbind run_bind remove_dns_failure_retry]; [|done].
  set (k1 := cr_stream_key _) in *. assert (open_with k a r (set_return_routes s m)) as H1 by done.
  pose proof (delete_retry_other k1 _ Hne H1) as H2. set (s2 := set_dns_failure_retries _ _) in *.
  destruct (stream_key_ttl s2 !! k1) as [old|]; [destruct (old <=? _); [by intros [= <- _]|done]|].
  destruct (addr_of (keys_and_addrs s2) k1); [|by intros [= <- _]].
  destruct (Signed.checked_u _ _); cbn [mbind run_bind]; [|done]. destruct (bound s2); [|done]. intros [= <- _].
  destruct (SequenceBuffer.last_data _); [by apply purge_other|done].
Qed.

Lemma failure_keeps clients env s msg s' sent : proxy_ok clients s → ¬ heeded k s (env, msg) → open_with k a r s →
  handle_dns_resolve_failure (Signature := Signature) env s msg = Ret (s', sent) → open_with k a r s'.
Proof using.
  intros Hok Hnot Hs. unfold handle_dns_resolve_failure. pose proof (return_info clients env s (Hopper.remaining_route msg) Hok) as Hi.
  destruct (get_return_route_info env s (Hopper.remaining_route msg)) as [[s1 found]|] eqn:Eg; cbn [mbind run_bind]; [|done].
  destruct Hi as (_ & [m ->] & _). destruct found as [info|]; [|by intros [= <- _]].
  assert (Hopper.ex_payload msg ≠ k) as Hne by (intros Hk; apply Hnot; split; [done|]; do 2 eexists; exact Eg).
  destruct (match find_exit_node_key _ with Some _ => _ | None => _ end); cbn [mbind run_bind]; [|done].
  assert (open_with k a r (set_return_routes s m)) as H1 by done. set (s1 := set_return_routes s m) in *.
  destruct (addr_of (keys_and_addrs s1) (Hopper.ex_payload msg)); [|by intros [= <- _]].
  destruct (match rr_hostname_opt info with Some _ => _ | None => _ end); cbn [mbind run_bind]; [|done].
  destruct (report_response_services_consumed _ _ _ _ _); cbn [mbind run_bind remove_dns_failure_retry]; [|done].
  pose proof (delete_retry_other _ _ Hne H1) as H2. set (s2 := set_dns_failure_retries s1 _) in *.
  destruct (dns_failure_retries s1 !! Hopper.ex_payload msg) as [[req' [|n']]|]; cbn [retries_left]; [| |by intros [= <- _]].
  - destruct (send_dns_failure_response_to_the_browser _ _ _ _); cbn [mbind run_bind]; [|done]. intros [= <- _]. by apply purge_other.
  - destruct (retry_dns_resolution _ _ _ _); cbn [mbind run_bind]; [|done]. intros [= <- _].
    destruct H2 as [Ha Hr]. split; [done|]. project. by rewrite lookup_insert_ne.
Qed.

(** Nothing but a response, the end of the stream and a heeded failure touches
    what is on record for a stream. *)
Lemma beside_keeps w env msg s' sent : world_ok w → arrives w msg → beside k env (w_proxy w) msg → open_with k a r (w_proxy w) →
  handle env (w_proxy w) msg = Ret (s', sent) → open_with k a r s'.
Proof using Hkeys.
  intros [Hok _] Harr Hb Hs. destruct Harr as [msg Hc|msg|msg Hseq|msg|b|msg Hin|k' res Hin|k' d Hin]; cbn [ProxyServer.handle beside] in *.
  - by eapply inbound_keeps.
  - by eapply failure_keeps.
  - by eapply response_keeps.
  - by eapply shutdown_keeps.
  - destruct (_ && _); [done|by intros [= <- _]].
  - by intros [= <- _].
  - unfold handle_add_route_result. destruct (dns_failure_retries (w_proxy w) !! k'); cbn [expect mbind run_bind]; [|done].
    intros [= <- _]. by destruct res.
  - intros [= <- _]. by apply purge_other.
Qed.
End beside.

(** What is left on record after some failures, and what each of them did. *)
Lemma trail_counts k a req n w fs w' : world_ok w → open_with k a (MkRetry req n) (w_proxy w) → trail k w fs w' → (length fs ≤ n)%nat →
  world_ok w' ∧ open_with k a (MkRetry req (n - length fs)) (w_proxy w') ∧
  (∀ f sent, (f, sent) ∈ fs → queries sent = [again a req f] ∧ dispatched sent = []).
Proof using Hkeys CodecOk2 CodecOk3 KeyPairs0 Hmain.
  intros Hw Hs Ht. revert n Hw Hs. induction Ht as [w|w f s' sent fs w' [Hk (s1 & info & Hi)] Hh Ht IH|w env msg s' sent fs w' Harr Hb Hh Ht IH|w h size args res sent fs w' Hin Hans Hr Ht IH];
    intros n Hw Hs Hlen.
  - rewrite Nat.sub_0_r. split; [done|]. split; [done|]. intros f sent Hin. by apply not_elem_of_nil in Hin.
  - destruct f as [env msg], n as [|n]; [cbn in Hlen; lia|]. cbn [fst snd] in *. destruct Hs as [Ha Hr]. rewrite <- Hk in Ha, Hr.
    destruct (dns_step _ env _ msg s1 info a req (S n) (proj1 Hw) Hi Ha Hr) as (s2 & sent2 & Hs2 & _ & Hq & Hd & Ha2 & Hr2).
    rewrite Hh in Hs2. injection Hs2 as <- <-. rewrite Hk in Ha2, Hr2. destruct (IH n) as (Hw' & Hs' & Hall).
    { eapply world_step_ok; [|exact Hw]. eapply (deliver w env (DnsFailure msg)); [constructor|done]. }
    { split; done. } { cbn [length] in Hlen. lia. }
    split; [done|]. split; [done|]. intros f sent' [[= -> ->]|Hin]%elem_of_cons; [done|by apply Hall].
  - apply IH; [|by eapply beside_keeps|done]. eapply world_step_ok; [by eapply deliver|done].
  - apply IH; [|done|done]. eapply world_step_ok; [by eapply answer|done].
Qed.

(** C15: failures to resolve a host come to an end.  Take any history, with the
    neighborhood's answers as it gives them, a stream whose request is on record,
    and any continuation in which no response comes on that stream and it is not
    removed after a shutdown: more data of clients, other streams, route queries
    and their results, in any order.  At most three retries are left, and as many
    failures that are reported for the stream over a remembered way back send that
    very request out again, each with one new query for a route, and tell the
    client nothing.  Each of them takes one retry, and nothing that happens in
    between gives one back.  The failure after them gives the client, and nobody
    else, one error page that ends the stream, and nothing is left of the
    stream. *)
Theorem dns_failures_give_up instant balance crash integration (w : World) k a req n fs w' f :
  rtc step (start instant balance crash integration) w →
  addr_of (keys_and_addrs (w_proxy w)) k = Some a → dns_failure_retries (w_proxy w) !! k = Some (MkRetry req n) →
  trail k w fs w' → (length fs ≤ n)%nat → heeded k (w_proxy w') f →
  (n ≤ 3)%nat ∧ stream_key req = k ∧ a ∈ w_clients w ∧
  (∀ f' sent, (f', sent) ∈ fs → queries sent = [again a req f'] ∧ dispatched sent = []) ∧
  ∃ s' sent, handle f.1 (w_proxy w') (DnsFailure f.2) = Ret (s', sent) ∧
    if (length fs <? n)%nat then
      queries sent = [again a req f] ∧ dispatched sent = [] ∧ dns_failure_retries s' !! k = Some (MkRetry req (n - S (length fs)))
    else
      queries sent = [] ∧
      (∃ protocol name, dispatched sent = [Hopper.MkTransmit (Hopper.Socket a) true (dns_resolution_failure_response protocol name) (Some 0)]) ∧
      forgotten s' k a ∧ dns_failure_retries s' !! k = None.
Proof using Hkeys CodecOk2 CodecOk3 KeyPairs0 Hmain.
  intros Hw%reachable_ok Ha Hr Ht Hlen [Hk (s1 & info & Hi)]. destruct (ok_retries _ _ (proj1 Hw) _ _ Hr) as [Hreq Hn]. cbn [retries_left unsuccessful_request] in *.
  split; [destruct dec; lia|]. split; [done|]. split; [by apply (ok_keys _ _ (proj1 Hw) _ _ Ha)|].
  destruct (trail_counts k a req n w fs w' Hw (conj Ha Hr) Ht Hlen) as ([Hok _] & [Ha' Hr'] & Hall). split; [done|].
  destruct f as [env msg]. cbn [fst snd] in *. subst k.
  destruct (dns_step _ env _ msg s1 info a req _ Hok Hi Ha' Hr') as (s2 & sent & Hs & _ & Hcase). exists s2, sent. split; [done|].
  destruct (Nat.ltb_spec (length fs) n) as [Hlt|Hge].
  - replace (n - length fs)%nat with (S (n - S (length fs))) in Hcase by lia. by destruct Hcase as (? & ? & _ & ?).
  - replace (n - length fs)%nat with 0%nat in Hcase by lia. destruct Hcase as (? & ? & ? & ?). split; [done|]. split; [by do 2 eexists|done].
Qed.

(** ** The neighborhood's answers *)

(** What the neighborhood answers to the proxy server is as [step] expects. *)
Lemma answers_ok as_payer order_over order_back nb args (M : Z) nb' resp :
  RouteQuery.query_ready (Signature := Signature) as_payer order_over order_back member nb (query_of args) M → RouteQuery.zero_hop_mode nb = false →
  (1 ≤ RouteQuery.min_hops nb)%nat → dec = true →
  RouteQuery.handle_route_query_message as_payer order_over order_back nb (query_of args) = Ret (nb', Some resp) → response_ok resp.
Proof using CodecOk0 CodecOk1 CodecOk2 KeyPairs0.
  intros Hq Hz Hmin Hdec Hrun.
  destruct (RouteQuery.route_query_answered as_payer order_over order_back member nb (query_of args) M Hq Hz) as (nb2 & answer & Heq & Hans).
  rewrite Hrun in Heq. injection Heq as <- <-. destruct Hans as (_ & over & back & exit & component & Hover & Hlast & Hback & _ & Hresp).
  destruct (answered_services member as_payer order_over order_back nb (query_of args) M over back exit component resp Hq Hmin Hover Hlast Hback Hresp)
    as (mid & mid' & node & _ & _ & Hnode & Hserv). do 3 eexists. split; [exact Hserv|]. split.
  - intros _. do 3 eexists. split; [by apply over_exits|]. apply (RouteQuery.qr_held _ _ _ _ _ _ _ Hq). by eexists.
  - unfold back_ok. rewrite Hdec. unfold exits_for. rewrite Hnode. by do 4 eexists.
Qed.

(** ** Playing a history *)

(** A message of the actor to itself, as it arrives. *)
Definition own (m : Sent) : option Message :=
  match m with
  | ToSelfReturnRoute r => Some (AddReturnRoute r)
  | ToSelfRouteResult k r => Some (AddRouteResult k r)
  | ToSelfShutdown m => Some (StreamShutdown m)
  | ToSelfPurgeLater k _ => Some (StreamKeyPurge k)
  | _ => None
  end.

(** [Own] and [Reply] point at something sent, the latest first. *)
Inductive event :=
| External (env : Env) (msg : Message)
| Own (env : Env) (i : nat)
| Reply (i : nat) (route_result : option (option RouteQueryResponse)).

Definition receive (w : World) (env : Env) (msg : Message) : option World :=
  match handle env (w_proxy w) msg with
  | Ret (s', sent) => Some (MkWorld s' (sent ++ w_sent w) (heard msg ++ w_clients w))
  | Panic => None
  end.

Definition play_event (w : World) (e : event) : option World :=
  match e with
  | External env msg => receive w env msg
  | Own env i => m ← w_sent w !! i; msg ← own m; receive w env msg
  | Reply i route_result =>
      m ← w_sent w !! i;
      match m with
      | QueryRoute _ _ args =>
          match resolve_message request_migrations args route_result with
          | Ret sent => Some (MkWorld (w_proxy w) (sent ++ w_sent w) (w_clients w))
          | Panic => None
          end
      | _ => None
      end
  end.

Fixpoint play (w : World) (events : list event) : option World :=
  match events with
  | [] => Some w
  | e :: events => w ← play_event w e; play w events
  end.

Definition event_ok (e : event) : Prop :=
  match e with
  | External _ msg => ∀ w, arrives w msg
  | Own _ _ => True
  | Reply _ route_result => ∀ resp, route_result = Some (Some resp) → response_ok resp
  end.

(** [heeded] and [beside], executed. *)
Definition heeds (k : StreamKey) (s : ProxyServer) (f : Failure) : bool :=
  bool_decide (Hopper.ex_payload f.2 = k) &&
  match get_return_route_info (Signature := Signature) f.1 s (Hopper.remaining_route f.2) with Ret (_, Some _) => true | _ => false end.

Lemma heeds_spec k s f : heeds k s f = true → heeded k s f.
Proof using.
  unfold heeds. intros [Hk%bool_decide_eq_true Hi]%andb_prop. split; [done|].
  destruct (get_return_route_info _ _ _) as [[s1 [info|]]|]; try done. by do 2 eexists.
Qed.

Definition spares (k : StreamKey) (msg : Message) : bool :=
  match msg with
  | ClientResponse m => bool_decide (cr_stream_key (Hopper.ex_payload m) ≠ k)
  | StreamKeyPurge k' => bool_decide (k' ≠ k)
  | DnsFailure _ => false
  | _ => true
  end.

Lemma spares_spec k env s msg : spares k msg = true → beside k env s msg.
Proof using. destruct msg; cbn; try done; by intros ?%bool_decide_eq_true. Qed.

(** The message that an event delivers. *)
Definition delivered (w : World) (e : event) : option (Env * Message) :=
  match e with
  | External env msg => Some (env, msg)
  | Own env i => m ← w_sent w !! i; msg ← own m; Some (env, msg)
  | Reply _ _ => None
  end.

Lemma delivered_arrives w e env msg : event_ok e → delivered w e = Some (env, msg) → arrives w msg.
Proof using.
  destruct e as [env' msg'|env' i|i a]; cbn [event_ok delivered]; intros Hok; [intros [= _ <-]; apply Hok| |done].
  destruct (w_sent w !! i) as [m|] eqn:Em; cbn [mbind option_bind]; [|done]. apply list_elem_of_lookup_2 in Em.
  destruct m; cbn [own mbind option_bind]; try done; intros [= _ <-]; by econstructor.
Qed.

(** The events as a [trail]. *)
Fixpoint follow (k : StreamKey) (w : World) (events : list event) : option (list (Failure * list Sent) * World) :=
  match events with
  | [] => Some ([], w)
  | e :: events =>
      match delivered w e with
      | Some (env, DnsFailure m) =>
          if heeds k (w_proxy w) (env, m) then
            w' ← receive w env (DnsFailure m);
            '(fs, w'') ← follow k w' events;
            Some (((env, m), take (length (w_sent w') - length (w_sent w)) (w_sent w')) :: fs, w'')
          else None
      | Some (env, msg) => if spares k msg then w' ← receive w env msg; follow k w' events else None
      | None => w' ← play_event w e; follow k w' events
      end
  end.

Lemma play_event_step w e w' : event_ok e → play_event w e = Some w' → step w w'.
Proof using.
  assert (Hrec : ∀ env msg, arrives w msg → receive w env msg = Some w' → step w w').
  { intros env msg Harr. unfold receive. destruct (handle env (w_proxy w) msg) as [[s' sent]|] eqn:E; [|done].
    intros [= <-]. by eapply deliver. }
  intros Hok. pose proof (λ env msg, delivered_arrives w e env msg Hok) as Harr.
  destruct e as [env msg|env i|i a]; cbn [play_event delivered] in *.
  - by apply Hrec, (Harr env).
  - destruct (w_sent w !! i) as [m|]; cbn [mbind option_bind] in *; [|done]. destruct (own m); cbn [mbind option_bind] in *; [|done]. by apply Hrec, (Harr env).
  - destruct (w_sent w !! i) as [m|] eqn:Em; cbn [mbind option_bind]; [|done]. apply list_elem_of_lookup_2 in Em. destruct m; try done.
    destruct (resolve_message request_migrations args a) as [sent|] eqn:E; [|done]. intros [= <-]. by eapply answer.
Qed.

Lemma follow_trail k w events fs w' : Forall event_ok events → follow k w events = Some (fs, w') → trail k w fs w'.
Proof using.
  intros Hok. revert w fs w'. induction Hok as [|e events He _ IH]; intros w fs w'; [intros [= <- <-]; constructor|]. cbn [follow].
  destruct (delivered w e) as [[env msg]|] eqn:Ed.
  - pose proof (delivered_arrives w e env msg He Ed) as Harr.
    assert (spares k msg = true → ∀ w1, receive w env msg = Some w1 → follow k w1 events = Some (fs, w') → trail k w fs w') as Hother.
    { intros Hsp w1. unfold receive. destruct (handle env (w_proxy w) msg) as [[s1 sent]|] eqn:Eh; [|done]. intros [= <-] Hf.
      eapply trail_message; [done|by apply spares_spec|done|by apply IH]. }
    destruct msg as [|m|m|kk res|m|m|m|b|kk].
    5: { destruct (heeds k (w_proxy w) (env, m)) eqn:Eh; [|done]. unfold receive.
      destruct (handle env (w_proxy w) (DnsFailure m)) as [[s1 sent]|] eqn:E1; [|done]. cbn [mbind option_bind heard app w_sent].
      destruct (follow k _ events) as [[fs1 w1]|] eqn:Ef; cbn [mbind option_bind]; [|done]. intros [= <- <-].
      rewrite length_app, Nat.add_sub, take_app_length. eapply trail_failure; [by apply heeds_spec|exact E1|by apply IH]. }
    all: destruct (spares k _); [|done]; destruct (receive w env _) as [w1|]; cbn [mbind option_bind]; [|done]; by apply Hother.
  - destruct (play_event w e) as [w1|] eqn:Ep; cbn [mbind option_bind]; [|done]. intros Hf.
    destruct e as [env msg|env i|i a]; cbn [delivered play_event] in *; [done| |].
    { destruct (w_sent w !! i); cbn [mbind option_bind] in *; [|done]. destruct (own s); done. }
    destruct (w_sent w !! i) as [m|] eqn:Em; cbn [mbind option_bind] in *; [|done]. apply list_elem_of_lookup_2 in Em. destruct m; try done.
    destruct (resolve_message request_migrations args a) as [sent|] eqn:E; [|done]. injection Ep as <-. eapply trail_answer; [done..|by apply IH].
Qed.

Lemma play_reachable w events w' : Forall event_ok events → play w events = Some w' → rtc step w w'.
Proof using.
  intros Hok. revert w. induction Hok as [|e events He _ IH]; intros w; [by intros [= <-]|]. cbn [play].
  destruct (play_event w e) as [w1|] eqn:E; cbn [mbind option_bind]; [|done]. intros Hp. eapply rtc_l; [by eapply play_event_step|by apply IH].
Qed.
End life.

(** ** Concrete histories *)

Module Demo.
Import ProxyRequests.Demo.

Local Instance demo_codec `{Countable T} : Codec T := Route.countable_codec.
Local Instance demo_codec_ok `{Countable T} : @CodecOk T demo_codec := Route.countable_codec_ok.

Definition demo_key (pk : PublicKey) (a : SocketAddr) : StreamKey :=
  match a.1 with Stream.IpV4 x => [4; x; a.2] | Stream.IpV6 x => [6; x; a.2] end.

Lemma demo_key_inj pk (a b : SocketAddr) : True → True → demo_key pk a = demo_key pk b → a = b.
Proof. intros _ _. destruct a as [[] ?], b as [[] ?]; cbn; congruence. Qed.

Definition demo_connect (method : list Z) : bool := bool_decide (method = bytes_of "CONNECT").
Definition demo_main : CryptDE := Route.demo_cryptde 1.

Lemma demo_main_member : Null.is_null demo_main.
Proof. by apply Null.null_from_is_null. Qed.

Definition demo_start : World := start demo_main (Route.demo_cryptde 101) true 0 (Some 0) false false.
Definition demo_play : World → list event → option World :=
  play (Signature := Z) demo_key Hopper.Demo.demo_migrations (λ _, None) demo_connect (λ _, None).
Definition demo_handle : Env → ProxyServer → Message → run (ProxyServer * list Sent) :=
  ProxyServer.handle (Signature := Z) demo_key Hopper.Demo.demo_migrations (λ _, None) demo_connect (λ _, None).

Definition alice : SocketAddr := (Stream.IpV4 0xC0A80002, 4000).
Definition bob : SocketAddr := (Stream.IpV4 0xC0A80003, 4000).
Definition from (a : SocketAddr) (n : Z) (data : string) : Message :=
  Inbound (Hopper.MkInbound 100 a (Some 80) false false (Some n) (bytes_of data)).
Definition get_page (host : string) : string := "GET / HTTP/1.1" +:+ CR_LF +:+ "Host: " +:+ host +:+ CR_LF +:+ CR_LF.

(** A route over the exit 3, whose wallet is 9. *)
Definition demo_answer : RouteQueryResponse :=
  RouteQuery.MkResponse (Route.MkRoute [])
    (RouteQuery.RoundTrip [RouteQuery.ExpectNothing; RouteQuery.ExpectExit [3] 9 (rates 3)]
       [RouteQuery.ExpectExit [3] 9 (rates 3); RouteQuery.ExpectNothing] 77).

Lemma demo_answer_ok : response_ok Null.is_null true demo_answer.
Proof.
  do 3 eexists. split; [reflexivity|]. split.
  - intros _. do 3 eexists. split; [reflexivity|]. eexists. split; [by apply (Null.null_from_is_null (λ l, l) [] [3])|done].
  - by do 4 eexists.
Qed.

(** What is left of the route when a package comes home. *)
Definition demo_home : Route.Route :=
  match encodex demo_main [1] (Route.MkHop [] None Route.ProxyServer : Route.LiveHop Z Z), encodex demo_main [1] 77 with
  | Ok hop, Ok id => Route.MkRoute [hop; id]
  | _, _ => Route.MkRoute []
  end.

Definition response (k : StreamKey) (n : Z) (last : bool) (data : string) : Message :=
  ClientResponse (Hopper.MkExpired _ bob None demo_home (MkClientResponse k (SequenceBuffer.MkPacket (bytes_of data) n last)) 500).
Definition failure (k : StreamKey) : Message := DnsFailure (Hopper.MkExpired _ bob None demo_home k 500).
Definition demo_env (t : Z) : Env := MkEnv t t t.

(** A request that finds a route. *)
Definition ask (a : SocketAddr) (host : string) : list event :=
  [External (demo_env 1) (from a 0 (get_page host)); Reply 0 (Some (Some demo_answer)); Own (demo_env 2) 0; Own (demo_env 3) 3].

Definition demo_world (events : list event) : World := default demo_start (demo_play demo_start events).
Definition plays (events : list event) : bool := match demo_play demo_start events with Some _ => true | None => false end.
Local Abbreviation demo_step := (step (Signature := Z) Null.is_null demo_key Hopper.Demo.demo_migrations (λ _, None) demo_connect (λ _, None) true (λ _, True)).

Lemma played_reachable events : Forall (event_ok Null.is_null true (λ _, True)) events → plays events = true →
  rtc demo_step demo_start (demo_world events).
Proof.
  intros Hok. unfold plays, demo_world. destruct (demo_play demo_start events) as [w|] eqn:E; [|done]. intros _. by eapply play_reachable.
Qed.

Ltac demo_events :=
  repeat match goal with |- Forall _ (_ :: _) => constructor | |- Forall _ [] => constructor end;
  cbn; try done; try (intros; by constructor); by intros ? [= <-]; apply demo_answer_ok.

Lemma ask_ok a host : Forall (event_ok Null.is_null true (λ _, True)) (ask a host).
Proof. unfold ask. demo_events. Qed.

Lemma demo_asked : rtc demo_step demo_start (demo_world (ask alice "x.com")).
Proof. apply played_reachable; [apply ask_ok|vm_compute; reflexivity]. Qed.

(** A stub of a handshake. *)
Definition demo_stub : Message := Inbound (Hopper.MkInbound 100 alice (Some 443) false false (Some 0) [22; 3; 1]).

Lemma proxy_panics_exactly_witness :
  let w := demo_world (ask alice "x.com") in
  (demo_handle (demo_env 9) (w_proxy w) demo_stub = Panic ↔ fault (Signature := Z) demo_key demo_connect demo_main true (demo_env 9) (w_proxy w) demo_stub) ∧
  demo_handle (demo_env 9) (w_proxy w) demo_stub = Panic ∧ demo_handle (demo_env 9) (w_proxy w) (from bob 0 (get_page "y.com")) ≠ Panic.
Proof.
  intros w. destruct (proxy_panics_exactly (Signature := Z) Null.is_null demo_key Hopper.Demo.demo_migrations (λ _, None) demo_connect (λ _, None) demo_main
    (Route.demo_cryptde 101) true (λ _, True) demo_main_member (demo_key_inj _) 0 (Some 0) false false w demo_asked) as [Hp _].
  split; [exact (Hp (demo_env 9) demo_stub (from_client _ _ _ I))|]. split; [vm_compute; reflexivity|].
  intros E. assert (match demo_handle (demo_env 9) (w_proxy w) (from bob 0 (get_page "y.com")) with Ret _ => true | Panic => false end = true)
    as Hr by (vm_compute; reflexivity). by rewrite E in Hr.
Defined.

Definition demo_last : Message := response (demo_key [1] alice) 0 true "hi".


Definition demo_failure (t : Z) : Failure := (demo_env t, Hopper.MkExpired _ bob None demo_home (demo_key [1] alice) 500).

(** A failure, the answer to the query that it makes, and the two messages of the
    actor to itself that follow; somebody else asks for a page in between. *)
Definition try_again (t : Z) : list event :=
  [External (demo_env t) (DnsFailure (demo_failure t).2); Reply 2 (Some (Some demo_answer)); Own (demo_env (t + 1)) 0; Own (demo_env (t + 2)) 3;
   External (demo_env (t + 3)) (from bob t (get_page "z.com"))].
Definition demo_series : list event := try_again 10 ++ try_again 20 ++ try_again 30.
Definition demo_follow : option (list (Failure * list Sent) * World) :=
  follow (Signature := Z) demo_key Hopper.Demo.demo_migrations (λ _, None) demo_connect (λ _, None) (demo_key [1] alice)
    (demo_world (ask alice "x.com")) demo_series.

Lemma demo_series_ok : Forall (event_ok Null.is_null true (λ _, True)) demo_series.
Proof. unfold demo_series, try_again. cbn [app]. demo_events. Qed.

Lemma dns_failures_give_up_witness :
  ∃ fs w', demo_follow = Some (fs, w') ∧ length fs = 3%nat ∧ (∀ f sent, (f, sent) ∈ fs → length (queries sent) = 1%nat) ∧
    ∃ s' sent protocol name, demo_handle (demo_env 40) (w_proxy w') (failure (demo_key [1] alice)) = Ret (s', sent) ∧
      dispatched sent = [Hopper.MkTransmit (Hopper.Socket alice) true (dns_resolution_failure_response protocol name) (Some 0)] ∧
      forgotten s' (demo_key [1] alice) alice.
Proof.
  set (w := demo_world (ask alice "x.com")).
  assert (Ha : addr_of (keys_and_addrs (w_proxy w)) (demo_key [1] alice) = Some alice) by (vm_compute; reflexivity).
  assert (Hn : retries_left <$> dns_failure_retries (w_proxy w) !! demo_key [1] alice = Some 3%nat) by (vm_compute; reflexivity).
  destruct (dns_failure_retries (w_proxy w) !! demo_key [1] alice) as [[req n]|] eqn:Er; [|done]. injection Hn as Hn. cbn in Hn. subst n.
  assert (Hf : match demo_follow with
    | Some (fs, w') => (length fs =? 3)%nat && heeds (Signature := Z) (demo_key [1] alice) (w_proxy w') (demo_failure 40)
    | None => false end = true) by (vm_compute; reflexivity).
  destruct demo_follow as [[fs w']|] eqn:Ef; [|discriminate Hf]. apply andb_prop in Hf as [Hl%Nat.eqb_eq Hh%heeds_spec].
  destruct (dns_failures_give_up (Signature := Z) Null.is_null demo_key Hopper.Demo.demo_migrations (λ _, None) demo_connect (λ _, None) demo_main
    (Route.demo_cryptde 101) true (λ _, True) demo_main_member (demo_key_inj _) 0 (Some 0) false false w _ alice req 3 fs w' (demo_failure 40)
    demo_asked Ha Er (follow_trail _ _ _ _ _ _ _ _ _ _ _ _ _ demo_series_ok Ef)) as (_ & _ & _ & Hall & s' & sent & Hr & Hcase); [lia|done|].
  rewrite Hl in Hcase. destruct Hcase as (_ & (p & name & Hd) & Hgone & _). exists fs, w'. split; [done|]. split; [done|]. split.
  - intros f sent' Hin. destruct (Hall f sent' Hin) as [-> _]. reflexivity.
  - exists s', sent, p, name. exact (conj Hr (conj Hd Hgone)).
Defined.

(** *** Unintended behaviour *)

(** One [CONNECT] from anybody, and the responses to every plain request from then
    on are numbered from 1, so that whoever sorts them waits for number 0. *)
Example connect_shifts_other_streams :
  let w := demo_world (External (demo_env 0) (from alice 0 ("CONNECT y.com:443 HTTP/1.1" +:+ CR_LF +:+ CR_LF)) :: ask bob "x.com") in
  tunneled_hosts (w_proxy w) !! demo_key [1] bob = None ∧
  match demo_handle (demo_env 4) (w_proxy w) (response (demo_key [1] bob) 0 false "hi") with
  | Ret (_, sent) => dispatched sent = [Hopper.MkTransmit (Hopper.Socket bob) false (bytes_of "hi") (Some 1)]
  | Panic => False
  end.
Proof. vm_compute. split; reflexivity. Qed.

(** A client asks for one page, hangs up, and asks for another one from the same
    port.  When the second host cannot be resolved, it is the first request that is
    sent again. *)
Example stale_request_sent_again :
  let w := demo_world (ask alice "old.com" ++
    [External (demo_env 5) (StreamShutdown (MkShutdown alice (NeighborhoodActor.NonClandestine 80 1) false)); Own (demo_env 40) 0] ++ ask alice "new.com") in
  match demo_handle (demo_env 50) (w_proxy w) (failure (demo_key [1] alice)) with
  | Ret (_, sent) => (λ q, q.1.1) <$> queries sent = [Some (bytes_of "old.com")] ∧ AddUnreachableHost [3] (bytes_of "new.com") ∈ sent
  | Panic => False
  end.
Proof.
  vm_compute. split; [reflexivity|]. apply list_elem_of_here.
Qed.

(** Two packets of a request leave before a route is known, and the response to
    the first one comes before the result of the second query: that result, a
    message of the proxy server to itself, makes it panic. *)
Example late_route_result_panics :
  let w := demo_world [External (demo_env 0) (from alice 0 (get_page "x.com")); External (demo_env 1) (from alice 1 (get_page "x.com"));
    Reply 1 (Some (Some demo_answer)); Own (demo_env 2) 0; Own (demo_env 3) 3; External (demo_env 4) (response (demo_key [1] alice) 0 false "hi");
    Reply 6 (Some (Some demo_answer))] in
  (match w_sent w !! 3%nat with Some (ToSelfRouteResult k (Ok _)) => bool_decide (k = demo_key [1] alice) | _ => false end) = true ∧
  demo_handle (demo_env 6) (w_proxy w) (AddRouteResult (demo_key [1] alice) (Ok demo_answer)) = Panic.
Proof. vm_compute. split; reflexivity. Qed.
End Demo.
End ProxyLife.
