(* ===== verification/ConfigParams.v ===== *)
(** * Values of the configuration as text

    Models [node/src/sub_lib/combined_parameters.rs], and how the enumerations of
    the configuration are written and read ([Hops] of
    [node/src/sub_lib/neighborhood.rs], [AutomapProtocol] and
    [NeighborhoodModeLight] of [masq_lib/src/utils.rs]), with the parsing and
    printing of integers of the standard library.

    Text is ASCII here: [to_uppercase] and [{:?}] are modelled for ASCII only. *)
From Stdlib Require Import String Ascii.
From S2P Require Import Prelude.
From S2P Require Import NeighborhoodDatabase Thresholds.
From stdpp Require Import base list gmap strings.

Module ConfigParams.
Import Neighborhood Thresholds Time.
Local Open Scope rust_scope.
Local Open Scope string_scope.
Local Open Scope Z_scope.

(** ** Integers *)

Inductive IntErrorKind := EmptyText | InvalidDigit | PosOverflow | NegOverflow.

Definition to_digit (c : ascii) : option Z :=
  let n := Z.of_nat (nat_of_ascii c) in if (48 <=? n) && (n <=? 57) then Some (n - 48) else None.

Fixpoint parse_digits (lo hi : Z) (negative : bool) (acc : Z) (s : string) : result IntErrorKind Z :=
  match s with
  | EmptyString => Ok acc
  | String c s =>
      match to_digit c with
      | None => Err InvalidDigit
      | Some d =>
          let acc := if negative then acc * 10 - d else acc * 10 + d in
          if (lo <=? acc) && (acc <? hi) then parse_digits lo hi negative acc s
          else Err (if negative then NegOverflow else PosOverflow)
      end
  end.

(** [from_str] of the integers from [lo] to below [hi]. *)
Definition parse_int (lo hi : Z) (s : string) : result IntErrorKind Z :=
  match s with
  | EmptyString => Err EmptyText
  | String c rest =>
      if bool_decide (c = "+"%char) then
        match rest with EmptyString => Err InvalidDigit | _ => parse_digits lo hi false 0 rest end
      else if bool_decide (c = "-"%char) then
        match rest with
        | EmptyString => Err InvalidDigit
        | _ => if lo <? 0 then parse_digits lo hi true 0 rest else Err InvalidDigit
        end
      else parse_digits lo hi false 0 s
  end.

Definition parse_u64 : string → result IntErrorKind Z := parse_int 0 (2 ^ 64).
Definition parse_i64 : string → result IntErrorKind Z := parse_int (- 2 ^ 63) (2 ^ 63).
Definition parse_u128 : string → result IntErrorKind Z := parse_int 0 (2 ^ 128).

Definition digit (d : Z) : ascii := ascii_of_nat (Z.to_nat (48 + d)).

Fixpoint print_loop (fuel : nat) (z : Z) (acc : string) : string :=
  match fuel with
  | O => acc
  | S fuel =>
      let acc := String (digit (z mod 10)) acc in
      if z <? 10 then acc else print_loop fuel (z / 10) acc
  end.

(** Unsigned numbers; 40 digits are enough for 128 bits. *)
Definition print (z : Z) : string := print_loop 40 z "".

Lemma to_digit_digit d : 0 ≤ d < 10 → to_digit (digit d) = Some d.
Proof.
  intros Hd. unfold to_digit, digit. rewrite nat_ascii_embedding by lia.
  rewrite Z2Nat.id by lia. destruct (Z.leb_spec 48 (48 + d)), (Z.leb_spec (48 + d) 57); try lia. cbn. f_equal. lia.
Qed.

Lemma string_app_assoc (a b c : string) : (a +:+ b) +:+ c = a +:+ (b +:+ c).
Proof. induction a as [|x a IH]; [done|]. exact (f_equal (String x) IH). Qed.

Lemma print_loop_acc fuel z acc : print_loop fuel z acc = print_loop fuel z "" +:+ acc.
Proof.
  revert z acc. induction fuel as [|fuel IH]; intros z acc; [done|]. cbn [print_loop]. destruct (z <? 10); [done|].
  rewrite IH, (IH _ (String _ "")), string_app_assoc. done.
Qed.

Lemma config_digits_app lo hi acc s s' a : parse_digits lo hi false acc s = Ok a →
  parse_digits lo hi false acc (s +:+ s') = parse_digits lo hi false a s'.
Proof.
  revert acc. induction s as [|c s IH]; intros acc; [by intros [= ->]|].
  change (String c s +:+ s') with (String c (s +:+ s')). cbn [parse_digits]. destruct (to_digit c); [|done]. destruct (_ && _); [apply IH|done].
Qed.

Lemma parse_print_loop fuel hi z : 0 ≤ z < hi → z < 10 ^ Z.of_nat fuel → (0 < fuel)%nat →
  parse_digits 0 hi false 0 (print_loop fuel z "") = Ok z.
Proof.
  revert z. induction fuel as [|fuel IH]; intros z Hz Hb Hf; [lia|]. cbn [print_loop].
  pose proof (Z.div_mod z 10). pose proof (Z.mod_pos_bound z 10).
  destruct (Z.ltb_spec z 10) as [Hs|Hl].
  - cbn [parse_digits]. rewrite to_digit_digit by lia. rewrite Z.mod_small by lia.
    destruct (Z.leb_spec 0 (0 * 10 + z)), (Z.ltb_spec (0 * 10 + z) hi); try lia. done.
  - destruct fuel as [|fuel]; [cbn in Hb; lia|]. rewrite print_loop_acc.
    assert (z / 10 < 10 ^ Z.of_nat (S fuel)).
    { apply Z.div_lt_upper_bound; [lia|]. rewrite <- Z.pow_succ_r by lia. by rewrite <- Nat2Z.inj_succ. }
    rewrite (config_digits_app _ _ _ _ _ (z / 10)) by (apply IH; [split; [apply Z.div_pos|]|..]; lia).
    cbn [parse_digits]. rewrite to_digit_digit by lia.
    destruct (Z.leb_spec 0 (z / 10 * 10 + z mod 10)), (Z.ltb_spec (z / 10 * 10 + z mod 10) hi); try lia. cbn. f_equal. lia.
Qed.

(** The digits of a number, the first of them apart. *)
Lemma print_loop_digits fuel z acc : (0 < fuel)%nat → 0 ≤ z → ∃ d s, 0 ≤ d < 10 ∧ print_loop fuel z acc = String (digit d) s.
Proof.
  revert z acc. induction fuel as [|fuel IH]; intros z acc Hf Hz; [lia|]. cbn [print_loop]. pose proof (Z.mod_pos_bound z 10).
  destruct (z <? 10); [by do 2 eexists; split; [|done]; lia|]. destruct fuel; [by do 2 eexists; split; [|done]; lia|].
  apply IH; [lia|]. apply Z.div_pos; lia.
Qed.

Lemma digit_not_sign d c : 0 ≤ d < 10 → to_digit c = None → digit d ≠ c.
Proof. intros Hd Hc <-. by rewrite to_digit_digit in Hc. Qed.

Lemma parse_print hi z : 0 ≤ z < hi → hi ≤ 10 ^ 40 → parse_int 0 hi (print z) = Ok z.
Proof.
  intros Hz Hb. pose proof (parse_print_loop 40 hi z Hz ltac:(lia) ltac:(lia)) as Hp. fold (print z) in Hp.
  destruct (print_loop_digits 40 z "" ltac:(lia) ltac:(lia)) as (d & s & Hd & Hs). fold (print z) in Hs. rewrite Hs in *.
  unfold parse_int. rewrite !bool_decide_false by (by apply digit_not_sign). exact Hp.
Qed.

Lemma parse_u64_print z : 0 ≤ z < 2 ^ 64 → parse_u64 (print z) = Ok z.
Proof. intros Hz. apply parse_print; [done|]. vm_compute. discriminate. Qed.

(** ** Pieces *)

Fixpoint split_on (c : ascii) (s : string) : list string :=
  match s with
  | EmptyString => [""]
  | String x s =>
      if bool_decide (x = c) then "" :: split_on c s
      else match split_on c s with piece :: pieces => String x piece :: pieces | [] => [String x ""] end
  end.

Fixpoint free_of (c : ascii) (s : string) : Prop :=
  match s with EmptyString => True | String x s => x ≠ c ∧ free_of c s end.

Lemma split_free c s : free_of c s → split_on c s = [s].
Proof. induction s as [|x s IH]; [done|]. intros [Hx Hs]. cbn [split_on]. by rewrite bool_decide_false, IH. Qed.

Lemma split_first c s rest : free_of c s → split_on c (s +:+ String c rest) = s :: split_on c rest.
Proof.
  induction s as [|x s IH]; [intros _; change ("" +:+ String c rest) with (String c rest); cbn [split_on]; by rewrite bool_decide_true|]. intros [Hx Hs].
  change (String x s +:+ String c rest) with (String x (s +:+ String c rest)). cbn [split_on]. by rewrite bool_decide_false, IH.
Qed.

Lemma split_concat c s l : Forall (free_of c) (s :: l) → split_on c (String.concat (String c "") (s :: l)) = s :: l.
Proof.
  revert s. induction l as [|s' l IH]; intros s Hf; inversion_clear Hf as [|? ? Hs Hl]; [by apply split_free|].
  change (String.concat (String c "") (s :: s' :: l)) with (s +:+ (String c "" +:+ String.concat (String c "") (s' :: l))).
  change (String c "" +:+ ?r) with (String c r). rewrite split_first by done. by rewrite IH.
Qed.

Lemma print_free c z : 0 ≤ z → to_digit c = None → free_of c (print z).
Proof.
  intros Hz Hc. unfold print. assert (free_of c "") as Hacc by done. revert z Hz Hacc. generalize "". generalize 40%nat.
  intros fuel. induction fuel as [|fuel IH]; intros acc z Hz Hacc; [done|]. cbn [print_loop]. pose proof (Z.mod_pos_bound z 10).
  assert (free_of c (String (digit (z mod 10)) acc)) by (split; [apply digit_not_sign; [lia|done]|done]).
  destruct (z <? 10); [done|]. apply IH; [apply Z.div_pos; lia|done].
Qed.

(** ** Combined parameters *)

Definition COMBINED_PARAMETERS_DELIMITER : ascii := "|"%char.

Inductive CombinedParamsDataTypes := U64 | I64 | U128.

Inductive CombinedParamsValueRetriever :=
| VU64 (num : Z)
| VI64 (num : Z)
| VU128 (num : Z).

Record ScanIntervals := MkScanIntervals {
  payable_scan_interval : Z;
  pending_payable_scan_interval : Z;
  receivable_scan_interval : Z
}.

(** [Duration::from_secs], in nanoseconds. *)
Definition from_secs (secs : Z) : Z := secs * NANOS.

Inductive InitializationState (T : Type) := Uninitialized | Initialized (t : T).
Arguments Uninitialized {T}.
Arguments Initialized {T} t.

Inductive CombinedParams :=
| CpRatePack (s : InitializationState RatePack)
| CpPaymentThresholds (s : InitializationState PaymentThresholds)
| CpScanIntervals (s : InitializationState ScanIntervals).

Definition retriever_parse (str_value : string) (data_type : CombinedParamsDataTypes) : result IntErrorKind CombinedParamsValueRetriever :=
  match data_type with
  | U64 => n ← parse_u64 str_value; Ok (VU64 n)
  | I64 => n ← parse_i64 str_value; Ok (VI64 n)
  | U128 => n ← parse_u128 str_value; Ok (VU128 n)
  end.

(** [get_value::<u64>], the only type it is used at. *)
Definition get_value (map : gmap string CombinedParamsValueRetriever) (parameter_name : string) : run Z :=
  match map !! parameter_name with
  | Some (VU64 num) => Ret num
  | _ => Panic
  end.

(** [From<&CombinedParams>]. *)
Definition expected_collection (params : CombinedParams) : run (list (string * CombinedParamsDataTypes)) :=
  match params with
  | CpRatePack Uninitialized =>
      Ret [("routing_byte_rate", U64); ("routing_service_rate", U64); ("exit_byte_rate", U64); ("exit_service_rate", U64)]
  | CpPaymentThresholds Uninitialized =>
      Ret [("debt_threshold_gwei", U64); ("maturity_threshold_sec", U64); ("payment_grace_period_sec", U64);
           ("permanent_debt_allowed_gwei", U64); ("threshold_interval_sec", U64); ("unban_below_gwei", U64)]
  | CpScanIntervals Uninitialized =>
      Ret [("pending_payable_scan_interval", U64); ("payable_scan_interval", U64); ("receivable_scan_interval", U64)]
  | _ => Panic
  end.

(** Collecting into a map: a later pair replaces an earlier one of the same name. *)
Fixpoint collect_values (zipped : list (string * (string * CombinedParamsDataTypes))) (map : gmap string CombinedParamsValueRetriever)
    : run (gmap string CombinedParamsValueRetriever) :=
  match zipped with
  | [] => Ret map
  | (piece, (param_name, data_type)) :: zipped =>
      match retriever_parse piece data_type with
      | Ok value => collect_values zipped (<[param_name := value]> map)
      | Err _ => Panic
      end
  end.

Definition parse_combined_params (input : string) (delimiter : ascii) (expected : list (string * CombinedParamsDataTypes))
    : run (result string (gmap string CombinedParamsValueRetriever)) :=
  let pieces := split_on delimiter input in
  let count := length pieces in
  if bool_decide (count ≠ length expected) then
    Ret (Err ("Wrong number of values: expected " +:+ print (Z.of_nat (length expected)) +:+ " but " +:+ print (Z.of_nat count) +:+ " supplied" +:+
                (if (count =? 1)%nat then ". Did you use the correct delimiter '" +:+ String delimiter "" +:+ "'?" else "")))
  else map ← collect_values (zip pieces expected) ∅; Ret (Ok map).

Definition initialize_objects (self : CombinedParams) (m : gmap string CombinedParamsValueRetriever) : run CombinedParams :=
  match self with
  | CpRatePack Uninitialized =>
      a ← get_value m "routing_byte_rate"; b ← get_value m "routing_service_rate";
      c ← get_value m "exit_byte_rate"; d ← get_value m "exit_service_rate";
      Ret (CpRatePack (Initialized (MkRates a b c d)))
  | CpPaymentThresholds Uninitialized =>
      maturity ← get_value m "maturity_threshold_sec"; grace ← get_value m "payment_grace_period_sec";
      permanent ← get_value m "permanent_debt_allowed_gwei"; debt ← get_value m "debt_threshold_gwei";
      interval ← get_value m "threshold_interval_sec"; unban ← get_value m "unban_below_gwei";
      Ret (CpPaymentThresholds (Initialized (MkPaymentThresholds debt maturity grace permanent interval unban)))
  | CpScanIntervals Uninitialized =>
      pending ← get_value m "pending_payable_scan_interval"; payable ← get_value m "payable_scan_interval";
      receivable ← get_value m "receivable_scan_interval";
      Ret (CpScanIntervals (Initialized (MkScanIntervals (from_secs payable) (from_secs pending) (from_secs receivable))))
  | _ => Panic
  end.

Definition combined_parse (self : CombinedParams) (parameters_str : string) : run (result string CombinedParams) :=
  expected ← expected_collection self;
  parsed_values <-? parse_combined_params parameters_str COMBINED_PARAMETERS_DELIMITER expected;
  o ← initialize_objects self parsed_values;
  Ret (Ok o).

Definition rate_pack_try_from (parameters : string) : run (result string RatePack) :=
  r ← combined_parse (CpRatePack Uninitialized) parameters;
  match r with
  | Ok (CpRatePack (Initialized rate_pack)) => Ret (Ok rate_pack)
  | Err e => Ret (Err e)
  | _ => Panic
  end.

Definition payment_thresholds_try_from (parameters : string) : run (result string PaymentThresholds) :=
  r ← combined_parse (CpPaymentThresholds Uninitialized) parameters;
  match r with
  | Ok (CpPaymentThresholds (Initialized payment_thresholds)) => Ret (Ok payment_thresholds)
  | Err e => Ret (Err e)
  | _ => Panic
  end.

Definition scan_intervals_try_from (parameters : string) : run (result string ScanIntervals) :=
  r ← combined_parse (CpScanIntervals Uninitialized) parameters;
  match r with
  | Ok (CpScanIntervals (Initialized scan_intervals)) => Ret (Ok scan_intervals)
  | Err e => Ret (Err e)
  | _ => Panic
  end.

Definition print_scan_intervals (s : ScanIntervals) : string :=
  String.concat "|" [print (as_secs (pending_payable_scan_interval s)); print (as_secs (payable_scan_interval s)); print (as_secs (receivable_scan_interval s))].

Definition print_payment_thresholds (t : PaymentThresholds) : string :=
  String.concat "|" [print (debt_threshold_gwei t); print (maturity_threshold_sec t); print (payment_grace_period_sec t);
    print (permanent_debt_allowed_gwei t); print (threshold_interval_sec t); print (unban_below_gwei t)].

Definition print_rate_pack (r : RatePack) : string :=
  String.concat "|" [print (routing_byte_rate r); print (routing_service_rate r); print (exit_byte_rate r); print (exit_service_rate r)].

(** ** Enumerations *)

Inductive Hops := OneHop | TwoHops | ThreeHops | FourHops | FiveHops | SixHops.

Definition hops_from_str (value : string) : result string Hops :=
  if bool_decide (value = "1") then Ok OneHop
  else if bool_decide (value = "2") then Ok TwoHops
  else if bool_decide (value = "3") then Ok ThreeHops
  else if bool_decide (value = "4") then Ok FourHops
  else if bool_decide (value = "5") then Ok FiveHops
  else if bool_decide (value = "6") then Ok SixHops
  else Err "Invalid value for min hops provided".

(** [*self as usize]. *)
Definition hops_number (h : Hops) : Z :=
  match h with OneHop => 1 | TwoHops => 2 | ThreeHops => 3 | FourHops => 4 | FiveHops => 5 | SixHops => 6 end.

Definition print_hops (h : Hops) : string := print (hops_number h).

Inductive NeighborhoodModeLight := LightStandard | LightConsumeOnly | LightOriginateOnly | LightZeroHop.

Definition print_mode (m : NeighborhoodModeLight) : string :=
  match m with
  | LightStandard => "standard"
  | LightConsumeOnly => "consume-only"
  | LightOriginateOnly => "originate-only"
  | LightZeroHop => "zero-hop"
  end.

Definition mode_from_str (str : string) : result string NeighborhoodModeLight :=
  if bool_decide (str = "standard") then Ok LightStandard
  else if bool_decide (str = "consume-only") then Ok LightConsumeOnly
  else if bool_decide (str = "originate-only") then Ok LightOriginateOnly
  else if bool_decide (str = "zero-hop") then Ok LightZeroHop
  else Err ("Invalid value read for neighborhood mode: " +:+ str).

Inductive AutomapProtocol := Pmp | Pcp | Igdp.

Definition print_protocol (p : AutomapProtocol) : string :=
  match p with Pmp => "PMP" | Pcp => "PCP" | Igdp => "IGDP" end.

Definition upper (c : ascii) : ascii :=
  let n := nat_of_ascii c in if (97 <=? n)%nat && (n <=? 122)%nat then ascii_of_nat (n - 32) else c.

Fixpoint to_uppercase (s : string) : string :=
  match s with EmptyString => "" | String c s => String (upper c) (to_uppercase s) end.

Definition protocol_from_str (s : string) : result string AutomapProtocol :=
  let u := to_uppercase s in
  if bool_decide (u = "PCP") then Ok Pcp
  else if bool_decide (u = "PMP") then Ok Pmp
  else if bool_decide (u = "IGDP") then Ok Igdp
  else Err ("Valid protocol names are PCP, PMP, and IGDP; not '" +:+ s +:+ "'").

(** ** What is written is read back *)

Definition is_u64 (z : Z) : Prop := 0 ≤ z < 2 ^ 64.

Definition rates_u64 (r : RatePack) : Prop :=
  is_u64 (routing_byte_rate r) ∧ is_u64 (routing_service_rate r) ∧ is_u64 (exit_byte_rate r) ∧ is_u64 (exit_service_rate r).

Definition thresholds_u64 (t : PaymentThresholds) : Prop :=
  is_u64 (debt_threshold_gwei t) ∧ is_u64 (maturity_threshold_sec t) ∧ is_u64 (payment_grace_period_sec t) ∧
  is_u64 (permanent_debt_allowed_gwei t) ∧ is_u64 (threshold_interval_sec t) ∧ is_u64 (unban_below_gwei t).

(** Whole seconds. *)
Definition secs_u64 (duration : Z) : Prop := ∃ secs, duration = from_secs secs ∧ is_u64 secs.
Definition intervals_u64 (s : ScanIntervals) : Prop :=
  secs_u64 (payable_scan_interval s) ∧ secs_u64 (pending_payable_scan_interval s) ∧ secs_u64 (receivable_scan_interval s).

Lemma as_from_secs secs : as_secs (from_secs secs) = secs.
Proof. unfold as_secs, from_secs. apply Z.div_mul. done. Qed.

Lemma numbers_free numbers : Forall is_u64 numbers → Forall (free_of COMBINED_PARAMETERS_DELIMITER) (print <$> numbers).
Proof. intros H. apply Forall_fmap. apply (Forall_impl _ _ _ H). intros z [Hz _]. by apply print_free. Qed.

Lemma split_numbers n numbers : Forall is_u64 (n :: numbers) →
  split_on COMBINED_PARAMETERS_DELIMITER (String.concat "|" (print <$> n :: numbers)) = print <$> n :: numbers.
Proof. intros H%numbers_free. exact (split_concat COMBINED_PARAMETERS_DELIMITER (print n) (fmap (M:=list) print numbers) H). Qed.

Ltac read_back H :=
  unfold combined_parse, parse_combined_params; cbn [expected_collection mbind run_bind]; rewrite (split_numbers _ _ H);
  cbn [fmap list_fmap length]; rewrite bool_decide_false by auto; cbn [zip zip_with collect_values retriever_parse];
  repeat (rewrite parse_u64_print by (repeat match goal with H : Forall _ (_ :: _) |- _ => inversion_clear H end; done); cbn [mbind result_bind collect_values retriever_parse]);
  cbn [mbind run_bind try_bind initialize_objects]; unfold get_value; repeat (first [rewrite lookup_insert_eq|rewrite lookup_insert_ne by done]; cbn [mbind run_bind]).

Lemma rate_pack_read_back r : rates_u64 r → rate_pack_try_from (print_rate_pack r) = Ret (Ok r).
Proof.
  destruct r as [a b c d]. intros (Ha & Hb & Hc & Hd). cbn [routing_byte_rate routing_service_rate exit_byte_rate exit_service_rate] in *.
  assert (H : Forall is_u64 [a; b; c; d]) by (repeat (apply Forall_cons; split; [done|]); constructor). unfold rate_pack_try_from.
  change (print_rate_pack _) with (String.concat "|" (print <$> [a; b; c; d])). by read_back H.
Qed.

Lemma payment_thresholds_read_back t : thresholds_u64 t → payment_thresholds_try_from (print_payment_thresholds t) = Ret (Ok t).
Proof.
  destruct t as [a b c d e f]. intros (Ha & Hb & Hc & Hd & He & Hf).
  assert (H : Forall is_u64 [a; b; c; d; e; f]) by (repeat (apply Forall_cons; split; [done|]); constructor). unfold payment_thresholds_try_from.
  change (print_payment_thresholds _) with (String.concat "|" (print <$> [a; b; c; d; e; f])). by read_back H.
Qed.

Lemma scan_intervals_read_back s : intervals_u64 s → scan_intervals_try_from (print_scan_intervals s) = Ret (Ok s).
Proof.
  destruct s as [p q r]. unfold intervals_u64. cbn [payable_scan_interval pending_payable_scan_interval receivable_scan_interval]. intros ((a & -> & Ha) & (b & -> & Hb) & (c & -> & Hc)).
  assert (H : Forall is_u64 [b; a; c]) by (repeat (apply Forall_cons; split; [done|]); constructor). unfold scan_intervals_try_from, print_scan_intervals.
  cbn [pending_payable_scan_interval payable_scan_interval receivable_scan_interval]. rewrite !as_from_secs.
  change (String.concat "|" _) with (String.concat "|" (print <$> [b; a; c])). by read_back H.
Qed.

Lemma hops_read_back h : hops_from_str (print_hops h) = Ok h.
Proof. by destruct h. Qed.

Lemma mode_read_back m : mode_from_str (print_mode m) = Ok m.
Proof. by destruct m. Qed.

Lemma protocol_read_back p : protocol_from_str (print_protocol p) = Ok p.
Proof. by destruct p. Qed.

(** ** What is not *)

(** Text with the right number of pieces one of which is not a number is not
    refused: reading it panics. *)
Example bad_piece_panics : rate_pack_try_from "1|2|3|x" = Panic.
Proof. vm_compute. reflexivity. Qed.

(** Whether text can be read: a wrong number of pieces is an error, and a right
    number panics exactly when a piece is not a number of 64 bits. *)
Lemma collect_values_panics zipped m : Forall (λ z, z.2.2 = U64) zipped →
  (collect_values zipped m = Panic ↔ ∃ z e, z ∈ zipped ∧ parse_u64 z.1 = Err e).
Proof.
  intros Hu. revert m. induction Hu as [|[piece [name ty]] zipped Hty _ IH]; intros m; cbn [collect_values].
  - split; [done|]. by intros (z & e & Hz%elem_of_nil & _).
  - cbn in Hty. subst ty. cbn [retriever_parse]. destruct (parse_u64 piece) as [n|e] eqn:E; cbn [mbind result_bind].
    + rewrite IH. split; intros (z & e & Hz & He); exists z, e; [split; [by right|done]|].
      apply elem_of_cons in Hz as [->|Hz]; [|done]. cbn in He. congruence.
    + split; [|done]. intros _. eexists (piece, (name, U64)), e. split; [by left|done].
Qed.
End ConfigParams.
