(* ===== verification/ConfigLayers.v ===== *)
(** * The layers below the persistent configuration

    Models [node/src/db_config/config_dao.rs], [db_encryption_layer.rs],
    [secure_config_layer.rs] and [typed_config_layer.rs] of the same directory, with
    [encrypt_bytes] and [decrypt_bytes] of [node/src/blockchain/bip39.rs].

    The table is the list of its rows in the order of their ids.  An access that the
    database engine refuses is an answer of the parameter [io].  The encryption of
    the library behind [Bip39], hexadecimal text and the random bytes of the example
    are parameters; the text of the library's own errors is left out. *)
From Stdlib Require Import String Ascii.
From S2P Require Import Prelude.
From S2P Require Import Cryptde ConfigParams.
From stdpp Require Import base list strings.

Module ConfigLayers.
Import Cryptde ConfigParams.
Local Open Scope rust_scope.
Local Open Scope string_scope.
Local Open Scope Z_scope.

(** ** [ConfigDao] *)

Inductive ConfigDaoError :=
| DaoNotPresent
| DaoTransactionError
| DaoDatabaseError (msg : string).

Record ConfigDaoRecord := MkConfigRecord {
  name : string;
  value_opt : option string;
  encrypted : bool
}.

Abbreviation Table := (list ConfigDaoRecord) (only parsing).

Inductive Access := ReadAll | ReadOne (name : string) | WriteOne (name : string).

(** [as_bytes] and [String::from_utf8]. *)
Definition as_bytes (s : string) : list Z := (λ c, Z.of_nat (nat_of_ascii c)) <$> list_ascii_of_string s.
Definition from_utf8 (l : list Z) : option string :=
  if valid_utf8 l then Some (string_of_list_ascii ((λ b, ascii_of_nat (Z.to_nat b)) <$> l)) else None.

Section layers.
(** What the engine answers to an access it cannot perform. *)
Context (io : Access → option string).

Definition get_all (dao : Table) : result ConfigDaoError (list ConfigDaoRecord) :=
  match io ReadAll with
  | Some e => Err (DaoDatabaseError e)
  | None => Ok dao
  end.

Definition dao_get (dao : Table) (n : string) : result ConfigDaoError ConfigDaoRecord :=
  match io (ReadOne n) with
  | Some e => Err (DaoDatabaseError e)
  | None => match list_find (λ r, name r = n) dao with Some (_, r) => Ok r | None => Err DaoNotPresent end
  end.

(** [update config set value = ? where name = ?]. *)
Definition update_value (dao : Table) (n : string) (value : option string) : Table :=
  (λ r, if decide (name r = n) then MkConfigRecord (name r) value (encrypted r) else r) <$> dao.

(** Also [set_by_guest_transaction], on the table as the transaction sees it. *)
Definition dao_set (dao : Table) (n : string) (value : option string) : Table * result ConfigDaoError unit :=
  match io (WriteOne n) with
  | Some e => (dao, Err (DaoDatabaseError e))
  | None =>
      if decide (Exists (λ r, name r = n) dao) then (update_value dao n value, Ok ())
      else (dao, Err DaoNotPresent)
  end.

(** ** [Bip39] *)

Context {Crypto : Type} `{!Codec Crypto}.
Context (crypto_encrypt : list Z → string → option Crypto) (crypto_decrypt : Crypto → string → option (list Z)).
Context (to_hex : list Z → string) (from_hex : string → option (list Z)).

Inductive Bip39Error :=
| ConversionError
| EncryptionFailure
| DecryptionFailure
| Bip39NotPresent
| SerializationFailure
| DeserializationFailure.

Definition encrypt_bytes (seed : list Z) (db_password : string) : result Bip39Error string :=
  match crypto_encrypt seed db_password with
  | Some crypto => match to_vec crypto with Some cipher_seed => Ok (to_hex cipher_seed) | None => Err SerializationFailure end
  | None => Err EncryptionFailure
  end.

Definition decrypt_bytes (crypt_string db_password : string) : result Bip39Error (list Z) :=
  match from_hex crypt_string with
  | Some cipher_seed_slice =>
      match from_slice cipher_seed_slice with
      | Some crypto => match crypto_decrypt crypto db_password with Some mnemonic_seed => Ok mnemonic_seed | None => Err DecryptionFailure end
      | None => Err DeserializationFailure
      end
  | None => Err ConversionError
  end.

(** ** [DbEncryptionLayer] *)

Inductive SecureConfigLayerError :=
| SecureNotPresent
| SecurePasswordError
| SecureTransactionError
| SecureDatabaseError (msg : string).

Definition secure_from_dao (input : ConfigDaoError) : SecureConfigLayerError :=
  match input with
  | DaoNotPresent => SecureNotPresent
  | DaoTransactionError => SecureTransactionError
  | DaoDatabaseError msg => SecureDatabaseError msg
  end.

Definition password_matches (db_password_opt example_encrypted_opt : option string) : run bool :=
  match db_password_opt, example_encrypted_opt with
  | None, None => Ret true
  | None, Some _ => Ret false
  | Some _, None => Ret false
  | Some db_password, Some encrypted_example =>
      match decrypt_bytes encrypted_example db_password with
      | Ok _ => Ret true
      | Err DecryptionFailure => Ret false
      | Err _ => Panic
      end
  end.

Definition decrypt_value (crypt_value_opt db_password_opt : option string) : run (result SecureConfigLayerError (option string)) :=
  match crypt_value_opt, db_password_opt with
  | Some value, Some password =>
      match decrypt_bytes value password with
      | Err _ => Ret (Err SecurePasswordError)
      | Ok plain_data => match from_utf8 plain_data with None => Panic | Some plain_value => Ret (Ok (Some plain_value)) end
      end
  | Some _, None => Ret (Err SecurePasswordError)
  | None, _ => Ret (Ok None)
  end.

Definition encrypt_value (plain_value_opt db_password_opt : option string) : run (result SecureConfigLayerError (option string)) :=
  match plain_value_opt, db_password_opt with
  | Some plain_value, Some password =>
      match encrypt_bytes (as_bytes plain_value) password with
      | Err _ => Panic
      | Ok crypt_data => Ret (Ok (Some crypt_data))
      end
  | Some _, None => Ret (Err SecurePasswordError)
  | None, _ => Ret (Ok None)
  end.

Definition reencrypt_value (crypt_value old_password new_password : string) : run string :=
  match decrypt_bytes crypt_value old_password with
  | Ok decrypted_value => expect_ok (encrypt_bytes decrypted_value new_password)
  | Err _ => Panic
  end.

(** ** [SecureConfigLayer] *)

Definition EXAMPLE_ENCRYPTED : string := "example_encrypted".

Definition password_matches_example (db_password_opt : option string) (example_record : ConfigDaoRecord)
    : run (result SecureConfigLayerError bool) :=
  if negb (encrypted example_record) then Panic
  else b ← password_matches db_password_opt (value_opt example_record); Ret (Ok b).

Definition secure_check_password (db_password_opt : option string) (dao : Table) : run (result SecureConfigLayerError bool) :=
  match dao_get dao EXAMPLE_ENCRYPTED with
  | Ok example_record => password_matches_example db_password_opt example_record
  | Err e => Ret (Err (secure_from_dao e))
  end.

(** Never an error. *)
Definition reencrypt_record (old_record : ConfigDaoRecord) (old_password_opt : option string) (new_password : string)
    : run ConfigDaoRecord :=
  match encrypted old_record, value_opt old_record, old_password_opt with
  | false, _, _ => Ret old_record
  | true, None, _ => Ret old_record
  | true, Some _, None => Panic
  | true, Some value, Some old_password =>
      reencrypted_value ← reencrypt_value value old_password new_password;
      Ret (MkConfigRecord (name old_record) (Some reencrypted_value) (encrypted old_record))
  end.

Fixpoint reencrypt_all (records : list ConfigDaoRecord) (old_password_opt : option string) (new_password : string)
    : run (list ConfigDaoRecord) :=
  match records with
  | [] => Ret []
  | record :: records =>
      new_record ← reencrypt_record record old_password_opt new_password;
      new_records ← reencrypt_all records old_password_opt new_password;
      Ret (new_record :: new_records)
  end.

(** [{:?}] of text, and of an error. *)
Fixpoint debug_chars (s : string) : string :=
  match s with
  | EmptyString => ""
  | String c s =>
      let n := nat_of_ascii c in
      let rest := debug_chars s in
      let escaped x := String (ascii_of_nat 92) (String x rest) in
      if (n =? 34)%nat || (n =? 92)%nat then escaped c
      else if (n =? 9)%nat then escaped "t"%char
      else if (n =? 10)%nat then escaped "n"%char
      else if (n =? 13)%nat then escaped "r"%char
      else if (n =? 0)%nat then escaped "0"%char
      else String c rest
  end.
Definition debug_string (s : string) : string :=
  String (ascii_of_nat 34) (debug_chars s +:+ String (ascii_of_nat 34) "").
Definition debug_dao_error (e : ConfigDaoError) : string :=
  match e with
  | DaoNotPresent => "NotPresent"
  | DaoTransactionError => "TransactionError"
  | DaoDatabaseError msg => "DatabaseError(" +:+ debug_string msg +:+ ")"
  end.

(** The first failure ends the changes; what was written stays. *)
Fixpoint update_records (reencrypted_records : list ConfigDaoRecord) (dao : Table) : Table * result SecureConfigLayerError unit :=
  match reencrypted_records with
  | [] => (dao, Ok ())
  | record :: records =>
      match dao_set dao (name record) (value_opt record) with
      | (dao, Ok _) => update_records records dao
      | (dao, Err e) =>
          (dao, Err (SecureDatabaseError ("Aborting password change: configuration value '" +:+ name record +:+
                                            "' could not be set: " +:+ debug_dao_error e)))
      end
  end.

Definition reencrypt_records (old_password_opt : option string) (new_password : string) (dao : Table)
    : run (Table * result SecureConfigLayerError unit) :=
  match get_all dao with
  | Err e => Ret (dao, Err (secure_from_dao e))
  | Ok existing_records =>
      reencrypted_records ← reencrypt_all (filter (λ record, name record ≠ EXAMPLE_ENCRYPTED) existing_records) old_password_opt new_password;
      Ret (update_records reencrypted_records dao)
  end.

Definition install_example_for_password (example_data : list Z) (new_password : string) (dao : Table)
    : run (Table * result SecureConfigLayerError unit) :=
  example_encrypted ← expect_ok (encrypt_bytes example_data new_password);
  let '(dao, r) := dao_set dao EXAMPLE_ENCRYPTED (Some example_encrypted) in
  Ret (dao, match r with Ok u => Ok u | Err e => Err (secure_from_dao e) end).

Definition secure_change_password (example_data : list Z) (old_password_opt : option string) (new_password : string) (dao : Table)
    : run (Table * result SecureConfigLayerError unit) :=
  matches ← secure_check_password old_password_opt dao;
  match matches with
  | Err e => Ret (dao, Err e)
  | Ok false => Ret (dao, Err SecurePasswordError)
  | Ok true =>
      '(dao, r) ← reencrypt_records old_password_opt new_password dao;
      match r with
      | Err e => Ret (dao, Err e)
      | Ok _ => install_example_for_password example_data new_password dao
      end
  end.

Definition encrypt (n : string) (plain_value_opt password_opt : option string) (dao : Table)
    : run (result SecureConfigLayerError (option string)) :=
  matches <-? secure_check_password password_opt dao;
  if negb matches then Ret (Err SecurePasswordError)
  else match dao_get dao n with
       | Err e => Ret (Err (secure_from_dao e))
       | Ok record => if negb (encrypted record) then Ret (Ok plain_value_opt) else encrypt_value plain_value_opt password_opt
       end.

Definition decrypt (record : ConfigDaoRecord) (password_opt : option string) (dao : Table)
    : run (result SecureConfigLayerError (option string)) :=
  matches <-? secure_check_password password_opt dao;
  if negb matches then Ret (Err SecurePasswordError)
  else if negb (encrypted record) then Ret (Ok (value_opt record)) else decrypt_value (value_opt record) password_opt.

(** ** The typed layer *)

Inductive TypedConfigLayerError :=
| TypedBadNumberFormat (s : string)
| TypedBadHexFormat (s : string)
| TypedBadCombinedParamsFormat (s : string).

Definition decode_u64 (string_opt : option string) : result TypedConfigLayerError (option Z) :=
  match string_opt with
  | None => Ok None
  | Some s => match parse_u64 s with Err _ => Err (TypedBadNumberFormat s) | Ok number => Ok (Some number) end
  end.

Definition decode_bytes (string_opt : option string) : result TypedConfigLayerError (option (list Z)) :=
  match string_opt with
  | None => Ok None
  | Some s => match from_hex s with None => Err (TypedBadHexFormat s) | Some bytes => Ok (Some bytes) end
  end.

(** The parser of the values may panic. *)
Definition decode_combined_params {T} (values_parser : string → run (result string T)) (string_opt : option string)
    : run (result TypedConfigLayerError (option T)) :=
  match string_opt with
  | None => Ret (Ok None)
  | Some string_params =>
      r ← values_parser string_params;
      Ret (match r with Ok val => Ok (Some val) | Err e => Err (TypedBadCombinedParamsFormat e) end)
  end.

Definition encode_u64 (value_opt : option Z) : result TypedConfigLayerError (option string) :=
  match value_opt with None => Ok None | Some number => Ok (Some (print number)) end.

Definition encode_bytes (value_opt : option (list Z)) : result TypedConfigLayerError (option string) :=
  match value_opt with Some bytes => Ok (Some (to_hex bytes)) | None => Ok None end.
End layers.
End ConfigLayers.
