(* ===== verification/PersistentConfig.v ===== *)
(** * The persistent configuration

    Models [node/src/db_config/persistent_configuration.rs] over the layers of
    [ConfigLayers.v], and the table as [node/src/database/db_initializer.rs] creates
    it ([initialize_config]).

    Wallets, addresses and node descriptors belong to libraries or to other
    components: how a wallet is made from its text or its key, whether a URL is one
    and whether a port is free are parameters. *)
From Stdlib Require Import String Ascii.
From S2P Require Import Prelude.
From S2P Require Import NeighborhoodDatabase Thresholds Cryptde ConfigParams ConfigLayers.
From stdpp Require Import base list strings.

Module PersistentConfig.
Import Cryptde ConfigParams ConfigLayers.
Local Open Scope rust_scope.
Local Open Scope string_scope.
Local Open Scope Z_scope.

Definition LOWEST_USABLE_INSECURE_PORT : Z := 1025.
Definition HIGHEST_USABLE_PORT : Z := 65535.

Inductive PersistentConfigError :=
| NotPresent
| PasswordError
| TransactionError
| DatabaseError (msg : string)
| BadPortNumber (msg : string)
| BadNumberFormat (msg : string)
| BadHexFormat (msg : string)
| BadCoupledParamsFormat (msg : string)
| BadMnemonicSeed (data : list Z)
| BadDerivationPathFormat (msg : string)
| BadAddressFormat (msg : string)
| InvalidUrl (msg : string)
| Collision (msg : string)
| UninterpretableValue (msg : string).

Definition from_typed (input : TypedConfigLayerError) : PersistentConfigError :=
  match input with
  | TypedBadHexFormat msg => BadHexFormat msg
  | TypedBadNumberFormat msg => BadNumberFormat msg
  | TypedBadCombinedParamsFormat msg => BadCoupledParamsFormat msg
  end.

Definition from_secure (input : SecureConfigLayerError) : PersistentConfigError :=
  match input with
  | SecureNotPresent => NotPresent
  | SecurePasswordError => PasswordError
  | SecureTransactionError => TransactionError
  | SecureDatabaseError msg => DatabaseError msg
  end.

Definition from_dao (input : ConfigDaoError) : PersistentConfigError := from_secure (secure_from_dao input).

(** [map_err] of the conversions that [?] makes. *)
Definition map_err {E E' A} (f : E → E') (r : result E A) : result E' A :=
  match r with Ok a => Ok a | Err e => Err (f e) end.

Section config.
Context (io : Access → option string).
Context {Crypto : Type} `{!Codec Crypto}.
Context (crypto_encrypt : list Z → string → option Crypto) (crypto_decrypt : Crypto → string → option (list Z)).
Context (to_hex : list Z → string) (from_hex : string → option (list Z)).
Context {Wallet NodeDescriptor : Type} `{!Codec (list NodeDescriptor)}.
(** [Wallet::from_str], and a wallet from a raw secret. *)
Context (wallet_from_str : string → option Wallet) (from_raw_secret : list Z → option Wallet).
(** [Url::parse], with its complaint, and [TcpListener::bind]. *)
Context (url_parse : string → option string) (port_is_free : Z → bool).

Local Abbreviation encrypt_bytes := (encrypt_bytes crypto_encrypt to_hex).
Local Abbreviation decrypt_bytes := (decrypt_bytes crypto_decrypt from_hex).

(** ** Access *)

Definition get_record (dao : Table) (n : string) : run (result ConfigDaoError ConfigDaoRecord) :=
  match dao_get io dao n with
  | Ok record => if decide (name record = n) then Ret (Ok record) else Panic
  | Err e => Ret (Err e)
  end.

Definition get (dao : Table) (n : string) : run (result PersistentConfigError (option string)) :=
  r ← get_record dao n; Ret (map_err from_dao (match r with Ok record => Ok (value_opt record) | Err e => Err e end)).

Definition set (dao : Table) (n : string) (value : option string) : Table * result PersistentConfigError unit :=
  let '(dao, r) := dao_set io dao n value in (dao, map_err from_dao r).

(** The text of the value; also inside a transaction. *)
Definition simple_set_method (dao : Table) (parameter_name : string) (text : string) : Table * result PersistentConfigError unit :=
  set dao parameter_name (Some text).
Definition simple_set_method_from_provided_txn (dao : Table) (parameter_name : string) (text_opt : option string)
    : Table * result PersistentConfigError unit := set dao parameter_name text_opt.

Definition combined_params_get_method {T} (dao : Table) (values_parser : string → run (result string T)) (parameter : string)
    : run (result PersistentConfigError T) :=
  s <-? get dao parameter;
  r ← decode_combined_params values_parser s;
  match r with
  | Err e => Ret (Err (from_typed e))
  | Ok None => Panic
  | Ok (Some value) => Ret (Ok value)
  end.

(** ** Settings that are plain *)

Definition blockchain_service_url (dao : Table) : run (result PersistentConfigError (option string)) := get dao "blockchain_service_url".

Definition set_blockchain_service_url (dao : Table) (url : string) : Table * result PersistentConfigError unit :=
  match url_parse url with
  | Some e => (dao, Err (InvalidUrl e))
  | None => set dao "blockchain_service_url" (Some url)
  end.

Definition required (r : run (result PersistentConfigError (option string))) : run string :=
  v ← r; match v with Ok (Some text) => Ret text | _ => Panic end.
Definition current_schema_version (dao : Table) : run string := required (get dao "schema_version").
Definition chain_name (dao : Table) : run string := required (get dao "chain_name").

Definition clandestine_port (dao : Table) : run (result PersistentConfigError Z) :=
  s <-? get dao "clandestine_port";
  match decode_u64 s with
  | Err e => Ret (Err (from_typed e))
  | Ok None => Panic
  | Ok (Some unchecked_port) =>
      if (unchecked_port <? LOWEST_USABLE_INSECURE_PORT) || (HIGHEST_USABLE_PORT <? unchecked_port) then Panic
      else Ret (Ok unchecked_port)
  end.

Definition set_clandestine_port (dao : Table) (port : Z) : Table * result PersistentConfigError unit :=
  if port <? LOWEST_USABLE_INSECURE_PORT then (dao, Err (BadPortNumber ("Must be greater than 1024; not " +:+ print port)))
  else if negb (port_is_free port) then (dao, Err (BadPortNumber ("Must be open port: " +:+ print port +:+ " is in use")))
  else match encode_u64 (Some port) with
       | Err e => (dao, Err (from_typed e))
       | Ok s => set dao "clandestine_port" s
       end.

Definition earning_wallet_address (dao : Table) : run (result PersistentConfigError (option string)) := get dao "earning_wallet_address".

Definition earning_wallet (dao : Table) : run (result PersistentConfigError (option Wallet)) :=
  address <-? earning_wallet_address dao;
  match address with
  | None => Ret (Ok None)
  | Some address => match wallet_from_str address with Some w => Ret (Ok (Some w)) | None => Panic end
  end.

Definition gas_price (dao : Table) : run (result PersistentConfigError Z) :=
  s <-? get dao "gas_price";
  match decode_u64 s with
  | Ok (Some val) => Ret (Ok val)
  | Ok None => Panic
  | Err e => Ret (Err (from_typed e))
  end.

Definition set_gas_price (dao : Table) (gas_price : Z) : Table * result PersistentConfigError unit :=
  simple_set_method dao "gas_price" (print gas_price).

Definition mapping_protocol (dao : Table) : run (result PersistentConfigError (option AutomapProtocol)) :=
  s <-? get dao "mapping_protocol";
  Ret (match protocol_from_str <$> s with
       | None => Ok None
       | Some (Ok protocol) => Ok (Some protocol)
       | Some (Err msg) => Err (DatabaseError msg)
       end).

Definition set_mapping_protocol (dao : Table) (value_opt : option AutomapProtocol) : Table * result PersistentConfigError unit :=
  set dao "mapping_protocol" (print_protocol <$> value_opt).

Definition min_hops (dao : Table) : run (result PersistentConfigError Hops) :=
  s <-? get dao "min_hops";
  match hops_from_str <$> s with
  | None => Panic
  | Some (Ok hops) => Ret (Ok hops)
  | Some (Err msg) => Ret (Err (DatabaseError msg))
  end.

Definition set_min_hops (dao : Table) (value : Hops) : Table * result PersistentConfigError unit := set dao "min_hops" (Some (print_hops value)).

Definition neighborhood_mode (dao : Table) : run (result PersistentConfigError NeighborhoodModeLight) :=
  s <-? get dao "neighborhood_mode";
  match s with
  | None => Panic
  | Some s => Ret (map_err UninterpretableValue (mode_from_str s))
  end.

Definition set_neighborhood_mode (dao : Table) (value : NeighborhoodModeLight) : Table * result PersistentConfigError unit :=
  simple_set_method dao "neighborhood_mode" (print_mode value).

Definition get_block (dao : Table) (n : string) : run (result PersistentConfigError (option Z)) :=
  s <-? get dao n; Ret (map_err from_typed (decode_u64 s)).
Definition set_block (dao : Table) (n : string) (value_opt : option Z) : Table * result PersistentConfigError unit :=
  match encode_u64 value_opt with
  | Err e => (dao, Err (from_typed e))
  | Ok s => set dao n s
  end.

Definition start_block (dao : Table) : run (result PersistentConfigError (option Z)) := get_block dao "start_block".
Definition set_start_block (dao : Table) (value_opt : option Z) : Table * result PersistentConfigError unit := set_block dao "start_block" value_opt.
Definition max_block_count (dao : Table) : run (result PersistentConfigError (option Z)) := get_block dao "max_block_count".
Definition set_max_block_count (dao : Table) (value_opt : option Z) : Table * result PersistentConfigError unit := set_block dao "max_block_count" value_opt.
Definition set_start_block_from_txn (dao : Table) (value_opt : option Z) : Table * result PersistentConfigError unit :=
  simple_set_method_from_provided_txn dao "start_block" (print <$> value_opt).

Definition payment_thresholds (dao : Table) : run (result PersistentConfigError Thresholds.PaymentThresholds) :=
  combined_params_get_method dao payment_thresholds_try_from "payment_thresholds".
Definition set_payment_thresholds (dao : Table) (curves : string) : Table * result PersistentConfigError unit :=
  simple_set_method dao "payment_thresholds" curves.
Definition rate_pack (dao : Table) : run (result PersistentConfigError Neighborhood.RatePack) :=
  combined_params_get_method dao rate_pack_try_from "rate_pack".
Definition set_rate_pack (dao : Table) (rate_pack : string) : Table * result PersistentConfigError unit := simple_set_method dao "rate_pack" rate_pack.
Definition scan_intervals (dao : Table) : run (result PersistentConfigError ScanIntervals) :=
  combined_params_get_method dao scan_intervals_try_from "scan_intervals".
Definition set_scan_intervals (dao : Table) (intervals : string) : Table * result PersistentConfigError unit :=
  simple_set_method dao "scan_intervals" intervals.

(** ** Settings that are secret *)

Definition check_password (dao : Table) (db_password_opt : option string) : run (result PersistentConfigError bool) :=
  r ← secure_check_password io crypto_decrypt from_hex db_password_opt dao; Ret (map_err from_secure r).

Definition change_password (example_data : list Z) (dao : Table) (old_password_opt : option string) (new_password : string)
    : run (Table * result PersistentConfigError unit) :=
  '(dao, r) ← secure_change_password io crypto_encrypt crypto_decrypt to_hex from_hex example_data old_password_opt new_password dao;
  Ret (dao, map_err from_secure r).

Definition consuming_wallet_private_key (dao : Table) (db_password : string) : run (result PersistentConfigError (option string)) :=
  encrypted_value_opt <-? get dao "consuming_wallet_private_key";
  match encrypted_value_opt with
  | Some encrypted_value =>
      match decrypt_bytes encrypted_value db_password with
      | Ok decrypted_bytes => Ret (Ok (Some (to_hex decrypted_bytes)))
      | Err DecryptionFailure => Ret (Err PasswordError)
      | Err _ => Panic
      end
  | None => Ret (Ok None)
  end.

Definition consuming_wallet (dao : Table) (db_password : string) : run (result PersistentConfigError (option Wallet)) :=
  key_opt <-? consuming_wallet_private_key dao db_password;
  match key_opt with
  | None => Ret (Ok None)
  | Some key =>
      bytes ← expect (from_hex key);
      wallet ← expect (from_raw_secret bytes);
      Ret (Ok (Some wallet))
  end.

Definition past_neighbors (dao : Table) (db_password : string) : run (result PersistentConfigError (option (list NodeDescriptor))) :=
  record ← get_record dao "past_neighbors";
  match record with
  | Err e => Ret (Err (from_dao e))
  | Ok record =>
      plain ← decrypt io crypto_decrypt from_hex record (Some db_password) dao;
      match plain with
      | Err e => Ret (Err (from_secure e))
      | Ok plain =>
          match decode_bytes from_hex plain with
          | Err e => Ret (Err (from_typed e))
          | Ok None => Ret (Ok None)
          | Ok (Some bytes) => node_descriptors ← expect (from_slice bytes); Ret (Ok (Some node_descriptors))
          end
      end
  end.

Definition set_past_neighbors (dao : Table) (node_descriptors_opt : option (list NodeDescriptor)) (db_password : string)
    : run (Table * result PersistentConfigError unit) :=
  plain_data_opt ←
    match node_descriptors_opt with
    | Some node_descriptors => bytes ← expect (to_vec node_descriptors); Ret (Some bytes)
    | None => Ret None
    end;
  match encode_bytes to_hex plain_data_opt with
  | Err e => Ret (dao, Err (from_typed e))
  | Ok plain =>
      value ← encrypt io crypto_encrypt crypto_decrypt to_hex from_hex "past_neighbors" plain (Some db_password) dao;
      match value with
      | Err e => Ret (dao, Err (from_secure e))
      | Ok value => Ret (set dao "past_neighbors" value)
      end
  end.

Definition encrypt_private_key (private_key db_password : string) : run (result PersistentConfigError string) :=
  match from_hex private_key with
  | Some private_key_bytes =>
      match encrypt_bytes private_key_bytes db_password with
      | Ok s => Ret (Ok s)
      | Err _ => Panic
      end
  | None => Ret (Err (BadHexFormat private_key))
  end.

Definition validate_wallet_address (address : string) : bool := match wallet_from_str address with Some _ => true | None => false end.

Definition set_wallet_info (dao : Table) (private_key earning_address db_password : string)
    : run (Table * result PersistentConfigError unit) :=
  existing_key ← consuming_wallet_private_key dao db_password;
  match existing_key with
  | Err e => Ret (dao, Err e)
  | Ok existing_key_opt =>
      if match existing_key_opt with
         | Some existing => bool_decide (to_uppercase private_key ≠ to_uppercase existing)
         | None => false
         end
      then Ret (dao, Err (Collision "Consuming wallet private key already populated; cannot replace"))
      else
        existing_address ← earning_wallet_address dao;
        match existing_address with
        | Err e => Ret (dao, Err e)
        | Ok existing_address_opt =>
            if match existing_address_opt with Some existing => bool_decide (earning_address ≠ existing) | None => false end
            then Ret (dao, Err (Collision "Earning wallet address already populated; cannot replace"))
            else
              encrypted_private_key ← encrypt_private_key private_key db_password;
              match encrypted_private_key with
              | Err e => Ret (dao, Err e)
              | Ok encrypted_private_key =>
                  if negb (validate_wallet_address earning_address) then Ret (dao, Err (BadAddressFormat earning_address))
                  else match set dao "consuming_wallet_private_key" (Some encrypted_private_key) with
                       | (dao, Err e) => Ret (dao, Err e)
                       | (dao, Ok _) => Ret (set dao "earning_wallet_address" (Some earning_address))
                       end
              end
        end
  end.
End config.

(** ** The table as it is created *)

Definition CURRENT_SCHEMA_VERSION : Z := 10.
Definition DEFAULT_GAS_PRICE : Z := 1.
Definition DEFAULT_RATE_PACK : Neighborhood.RatePack := Neighborhood.MkRates 172300000 1723000000 344600000 3446000000.
Definition DEFAULT_SCAN_INTERVALS : ScanIntervals := MkScanIntervals (from_secs 600) (from_secs 600) (from_secs 600).
Definition DEFAULT_MIN_HOPS : Hops := ThreeHops.

Definition initialize_config (chain : string) (mode : NeighborhoodModeLight) (port : Z) : list ConfigDaoRecord :=
  [MkConfigRecord EXAMPLE_ENCRYPTED None true;
   MkConfigRecord "blockchain_service_url" None false;
   MkConfigRecord "chain_name" (Some chain) false;
   MkConfigRecord "clandestine_port" (Some (print port)) false;
   MkConfigRecord "consuming_wallet_private_key" None true;
   MkConfigRecord "earning_wallet_address" None false;
   MkConfigRecord "neighborhood_mode" (Some (print_mode mode)) false;
   MkConfigRecord "schema_version" (Some (print CURRENT_SCHEMA_VERSION)) false;
   MkConfigRecord "start_block" None false;
   MkConfigRecord "gas_price" (Some (print DEFAULT_GAS_PRICE)) false;
   MkConfigRecord "past_neighbors" None true;
   MkConfigRecord "mapping_protocol" None false;
   MkConfigRecord "min_hops" (Some (print_hops DEFAULT_MIN_HOPS)) false;
   MkConfigRecord "payment_thresholds" (Some (print_payment_thresholds Thresholds.DEFAULT_PAYMENT_THRESHOLDS)) false;
   MkConfigRecord "rate_pack" (Some (print_rate_pack DEFAULT_RATE_PACK)) false;
   MkConfigRecord "scan_intervals" (Some (print_scan_intervals DEFAULT_SCAN_INTERVALS)) false;
   MkConfigRecord "max_block_count" None false].
End PersistentConfig.
