(* ===== verification/Settings.v ===== *)
(** * The configuration as a record of settings

    What the persistent configuration of [PersistentConfig.v] promises to its users:
    it is a record of settings with a password, whatever is done to the table below.
    [Settings] is that record, [spec_step] what each operation does to it, and
    [holds] when a table stores a record. *)
From Stdlib Require Import String Ascii.
From S2P Require Import Prelude.
From S2P Require Import NeighborhoodDatabase Thresholds Cryptde ConfigParams ConfigLayers PersistentConfig.
From stdpp Require Import base list strings.

Module Settings.
Import Cryptde ConfigParams ConfigLayers PersistentConfig.
Local Open Scope rust_scope.
Local Open Scope string_scope.
Local Open Scope Z_scope.

Abbreviation bytes := Cryptde.Null.bytes.

(** ** Text and bytes *)

Lemma as_bytes_bytes s : bytes (as_bytes s).
Proof.
  unfold bytes, as_bytes. apply Forall_fmap, Forall_forall. intros c _. cbn. pose proof (nat_ascii_bounded c). lia.
Qed.

Lemma string_of_as_bytes s : string_of_list_ascii ((λ b, ascii_of_nat (Z.to_nat b)) <$> as_bytes s) = s.
Proof.
  unfold as_bytes. rewrite <- list_fmap_compose. induction s as [|c s IH]; [done|]. cbn. rewrite Nat2Z.id, ascii_nat_embedding.
  f_equal. exact IH.
Qed.

Lemma from_utf8_as_bytes s : Forall (λ b, b < 128) (as_bytes s) → from_utf8 (as_bytes s) = Some s.
Proof.
  intros Hs. unfold from_utf8. by rewrite ascii_utf8, string_of_as_bytes.
Qed.

(** ** Rows *)

Definition schema : list (string * bool) :=
  [(EXAMPLE_ENCRYPTED, true); ("blockchain_service_url", false); ("chain_name", false); ("clandestine_port", false);
   ("consuming_wallet_private_key", true); ("earning_wallet_address", false); ("neighborhood_mode", false); ("schema_version", false);
   ("start_block", false); ("gas_price", false); ("past_neighbors", true); ("mapping_protocol", false); ("min_hops", false);
   ("payment_thresholds", false); ("rate_pack", false); ("scan_intervals", false); ("max_block_count", false)].

Lemma schema_NoDup : NoDup schema.*1.
Proof. apply (bool_decide_unpack _). vm_compute. exact I. Qed.

Definition shape (t : Table) : list (string * bool) := (λ r, (name r, encrypted r)) <$> t.

Lemma shape_names t : shape t = schema → name <$> t = schema.*1.
Proof. intros <-. unfold shape. by rewrite <- list_fmap_compose. Qed.

Lemma update_shape t n v : shape (update_value t n v) = shape t.
Proof.
  unfold shape, update_value. rewrite <- list_fmap_compose. apply list_fmap_ext. intros i r _. cbn. by destruct (decide (name r = n)).
Qed.

(** The row of a name. *)
Lemma row_of t n e : shape t = schema → (n, e) ∈ schema → ∃ r, r ∈ t ∧ name r = n ∧ encrypted r = e.
Proof.
  intros <- Hin. unfold shape in Hin. apply list_elem_of_fmap in Hin as (r & [= -> ->] & Hr). by exists r.
Qed.

Lemma row_unique t r r' : shape t = schema → r ∈ t → r' ∈ t → name r = name r' → r = r'.
Proof.
  intros Hs Hr Hr' Hn. apply list_elem_of_lookup in Hr as [i Hi], Hr' as [j Hj].
  pose proof schema_NoDup as Hnd. rewrite <- (shape_names t Hs) in Hnd.
  assert (i = j) as -> by (apply (proj1 (NoDup_alt _) Hnd i j (name r)); rewrite list_lookup_fmap, ?Hi, ?Hj; cbn; congruence).
  congruence.
Qed.

Lemma find_row t r : shape t = schema → r ∈ t → ∃ i, list_find (λ r', name r' = name r) t = Some (i, r).
Proof.
  intros Hs Hr. destruct (list_find (λ r', name r' = name r) t) as [[i r']|] eqn:E.
  - apply list_find_Some in E as (Hi & Hn & _). apply list_elem_of_lookup_2 in Hi. exists i.
    by rewrite (row_unique t r' r Hs Hi Hr Hn).
  - rewrite list_find_None, Forall_forall in E. by destruct (E r Hr).
Qed.

Lemma update_row t n v r : r ∈ update_value t n v ↔ (∃ r', r' ∈ t ∧ name r' = n ∧ r = MkConfigRecord n v (encrypted r')) ∨ (r ∈ t ∧ name r ≠ n).
Proof.
  unfold update_value. rewrite list_elem_of_fmap. split.
  - intros (r' & -> & Hr'). destruct (decide (name r' = n)) as [Hn|Hn]; [left|by right]. exists r'. by rewrite Hn.
  - intros [(r' & Hr' & Hn & ->)|[Hr Hn]]; [exists r'|exists r]; destruct (decide _); by rewrite ?Hn.
Qed.

(** ** Settings *)

Record Settings {NodeDescriptor : Type} := MkSettings {
  s_password : option string;
  s_url : option string;
  s_chain : string;
  s_port : Z;
  s_private_key : option (list Z);
  s_earning : option string;
  s_mode : NeighborhoodModeLight;
  s_schema_version : string;
  s_start_block : option Z;
  s_gas_price : Z;
  s_past : option (list NodeDescriptor);
  s_protocol : option AutomapProtocol;
  s_hops : Hops;
  s_thresholds : string;
  s_rates : string;
  s_intervals : string;
  s_max_block : option Z
}.
Arguments Settings : clear implicits.

(** Changes of one setting. *)
Section put.
Context {NodeDescriptor : Type}.
Implicit Type a : Settings NodeDescriptor.

Definition put_password (v : option string) a : Settings NodeDescriptor :=
  MkSettings NodeDescriptor v (s_url a) (s_chain a) (s_port a) (s_private_key a) (s_earning a) (s_mode a) (s_schema_version a) (s_start_block a) (s_gas_price a) (s_past a) (s_protocol a) (s_hops a) (s_thresholds a) (s_rates a) (s_intervals a) (s_max_block a).
Definition put_url (v : option string) a : Settings NodeDescriptor :=
  MkSettings NodeDescriptor (s_password a) v (s_chain a) (s_port a) (s_private_key a) (s_earning a) (s_mode a) (s_schema_version a) (s_start_block a) (s_gas_price a) (s_past a) (s_protocol a) (s_hops a) (s_thresholds a) (s_rates a) (s_intervals a) (s_max_block a).
Definition put_port (v : Z) a : Settings NodeDescriptor :=
  MkSettings NodeDescriptor (s_password a) (s_url a) (s_chain a) v (s_private_key a) (s_earning a) (s_mode a) (s_schema_version a) (s_start_block a) (s_gas_price a) (s_past a) (s_protocol a) (s_hops a) (s_thresholds a) (s_rates a) (s_intervals a) (s_max_block a).
Definition put_private_key (v : option (list Z)) a : Settings NodeDescriptor :=
  MkSettings NodeDescriptor (s_password a) (s_url a) (s_chain a) (s_port a) v (s_earning a) (s_mode a) (s_schema_version a) (s_start_block a) (s_gas_price a) (s_past a) (s_protocol a) (s_hops a) (s_thresholds a) (s_rates a) (s_intervals a) (s_max_block a).
Definition put_earning (v : option string) a : Settings NodeDescriptor :=
  MkSettings NodeDescriptor (s_password a) (s_url a) (s_chain a) (s_port a) (s_private_key a) v (s_mode a) (s_schema_version a) (s_start_block a) (s_gas_price a) (s_past a) (s_protocol a) (s_hops a) (s_thresholds a) (s_rates a) (s_intervals a) (s_max_block a).
Definition put_mode (v : NeighborhoodModeLight) a : Settings NodeDescriptor :=
  MkSettings NodeDescriptor (s_password a) (s_url a) (s_chain a) (s_port a) (s_private_key a) (s_earning a) v (s_schema_version a) (s_start_block a) (s_gas_price a) (s_past a) (s_protocol a) (s_hops a) (s_thresholds a) (s_rates a) (s_intervals a) (s_max_block a).
Definition put_start_block (v : option Z) a : Settings NodeDescriptor :=
  MkSettings NodeDescriptor (s_password a) (s_url a) (s_chain a) (s_port a) (s_private_key a) (s_earning a) (s_mode a) (s_schema_version a) v (s_gas_price a) (s_past a) (s_protocol a) (s_hops a) (s_thresholds a) (s_rates a) (s_intervals a) (s_max_block a).
Definition put_gas_price (v : Z) a : Settings NodeDescriptor :=
  MkSettings NodeDescriptor (s_password a) (s_url a) (s_chain a) (s_port a) (s_private_key a) (s_earning a) (s_mode a) (s_schema_version a) (s_start_block a) v (s_past a) (s_protocol a) (s_hops a) (s_thresholds a) (s_rates a) (s_intervals a) (s_max_block a).
Definition put_past (v : option (list NodeDescriptor)) a : Settings NodeDescriptor :=
  MkSettings NodeDescriptor (s_password a) (s_url a) (s_chain a) (s_port a) (s_private_key a) (s_earning a) (s_mode a) (s_schema_version a) (s_start_block a) (s_gas_price a) v (s_protocol a) (s_hops a) (s_thresholds a) (s_rates a) (s_intervals a) (s_max_block a).
Definition put_protocol (v : option AutomapProtocol) a : Settings NodeDescriptor :=
  MkSettings NodeDescriptor (s_password a) (s_url a) (s_chain a) (s_port a) (s_private_key a) (s_earning a) (s_mode a) (s_schema_version a) (s_start_block a) (s_gas_price a) (s_past a) v (s_hops a) (s_thresholds a) (s_rates a) (s_intervals a) (s_max_block a).
Definition put_hops (v : Hops) a : Settings NodeDescriptor :=
  MkSettings NodeDescriptor (s_password a) (s_url a) (s_chain a) (s_port a) (s_private_key a) (s_earning a) (s_mode a) (s_schema_version a) (s_start_block a) (s_gas_price a) (s_past a) (s_protocol a) v (s_thresholds a) (s_rates a) (s_intervals a) (s_max_block a).
Definition put_thresholds (v : string) a : Settings NodeDescriptor :=
  MkSettings NodeDescriptor (s_password a) (s_url a) (s_chain a) (s_port a) (s_private_key a) (s_earning a) (s_mode a) (s_schema_version a) (s_start_block a) (s_gas_price a) (s_past a) (s_protocol a) (s_hops a) v (s_rates a) (s_intervals a) (s_max_block a).
Definition put_rates (v : string) a : Settings NodeDescriptor :=
  MkSettings NodeDescriptor (s_password a) (s_url a) (s_chain a) (s_port a) (s_private_key a) (s_earning a) (s_mode a) (s_schema_version a) (s_start_block a) (s_gas_price a) (s_past a) (s_protocol a) (s_hops a) (s_thresholds a) v (s_intervals a) (s_max_block a).
Definition put_intervals (v : string) a : Settings NodeDescriptor :=
  MkSettings NodeDescriptor (s_password a) (s_url a) (s_chain a) (s_port a) (s_private_key a) (s_earning a) (s_mode a) (s_schema_version a) (s_start_block a) (s_gas_price a) (s_past a) (s_protocol a) (s_hops a) (s_thresholds a) (s_rates a) v (s_max_block a).
Definition put_max_block (v : option Z) a : Settings NodeDescriptor :=
  MkSettings NodeDescriptor (s_password a) (s_url a) (s_chain a) (s_port a) (s_private_key a) (s_earning a) (s_mode a) (s_schema_version a) (s_start_block a) (s_gas_price a) (s_past a) (s_protocol a) (s_hops a) (s_thresholds a) (s_rates a) (s_intervals a) v.
End put.

Section settings.
Context {Crypto : Type} `{!Codec Crypto, !CodecOk Crypto}.
Context (crypto_encrypt : list Z → string → option Crypto) (crypto_decrypt : Crypto → string → option (list Z)).
Context (to_hex : list Z → string) (from_hex : string → option (list Z)).
Context {Wallet NodeDescriptor : Type} `{!Codec (list NodeDescriptor), !CodecOk (list NodeDescriptor)}.
Context (wallet_from_str : string → option Wallet) (from_raw_secret : list Z → option Wallet).
Context (url_parse : string → option string) (port_is_free : Z → bool).

(** What the libraries promise: bytes are encrypted, the password opens them and
    no other one does, and hexadecimal text is read back. *)
Class CryptoOk : Prop := {
  crypto_total : ∀ data p, bytes data → ∃ c, crypto_encrypt data p = Some c;
  crypto_opens : ∀ data p c, crypto_encrypt data p = Some c → crypto_decrypt c p = Some data;
  crypto_refuses : ∀ data p p' c, crypto_encrypt data p = Some c → p' ≠ p → crypto_decrypt c p' = None;
  crypto_bytes : ∀ (c : Crypto) l, to_vec c = Some l → bytes l;
  descriptor_bytes : ∀ (ds : list NodeDescriptor) l, to_vec ds = Some l → bytes l;
  hex_reads : ∀ l, bytes l → from_hex (to_hex l) = Some l;
  hex_bytes : ∀ s l, from_hex s = Some l → bytes l;
  hex_text : ∀ l, Forall (λ b, b < 128) (as_bytes (to_hex l))
}.
Context {Hcrypto : CryptoOk}.

(** The database works. *)
Local Abbreviation io := (λ _ : Access, None : option string).
Local Abbreviation encrypt_bytes := (encrypt_bytes crypto_encrypt to_hex).
Local Abbreviation decrypt_bytes := (decrypt_bytes crypto_decrypt from_hex).

(** ** Sealed values *)

Definition seals (p : string) (data : list Z) (c : string) : Prop :=
  bytes data ∧ decrypt_bytes c p = Ok data ∧ ∀ p', p' ≠ p → decrypt_bytes c p' = Err DecryptionFailure.

Lemma encrypt_seals data p : bytes data → ∃ c, encrypt_bytes data p = Ok c ∧ seals p data c.
Proof using CodecOk0 Hcrypto.
  intros Hb. destruct (crypto_total data p Hb) as [c Hc]. destruct (from_to_vec c) as (l & Hl & _ & Hback).
  exists (to_hex l). unfold ConfigLayers.encrypt_bytes. rewrite Hc, Hl. split; [done|]. split; [done|].
  unfold ConfigLayers.decrypt_bytes. rewrite (hex_reads l (crypto_bytes c l Hl)), Hback, (crypto_opens _ _ _ Hc). split; [done|].
  intros p' Hp. by rewrite (crypto_refuses _ _ _ _ Hc Hp).
Qed.

(** The value of a secret row under a password. *)
Definition sealed (password : option string) (data : option (list Z)) (v : option string) : Prop :=
  match data, v with
  | None, None => True
  | Some d, Some c => ∃ p, password = Some p ∧ seals p d c
  | _, _ => False
  end.

(** ** Tables that store settings *)

Definition plain_value (a : Settings NodeDescriptor) (n : string) : option string :=
  if bool_decide (n = "blockchain_service_url") then s_url a
  else if bool_decide (n = "chain_name") then Some (s_chain a)
  else if bool_decide (n = "clandestine_port") then Some (print (s_port a))
  else if bool_decide (n = "earning_wallet_address") then s_earning a
  else if bool_decide (n = "neighborhood_mode") then Some (print_mode (s_mode a))
  else if bool_decide (n = "schema_version") then Some (s_schema_version a)
  else if bool_decide (n = "start_block") then print <$> s_start_block a
  else if bool_decide (n = "gas_price") then Some (print (s_gas_price a))
  else if bool_decide (n = "mapping_protocol") then print_protocol <$> s_protocol a
  else if bool_decide (n = "min_hops") then Some (print_hops (s_hops a))
  else if bool_decide (n = "payment_thresholds") then Some (s_thresholds a)
  else if bool_decide (n = "rate_pack") then Some (s_rates a)
  else if bool_decide (n = "scan_intervals") then Some (s_intervals a)
  else if bool_decide (n = "max_block_count") then print <$> s_max_block a
  else None.

(** The bytes that a list of descriptors is stored as. *)
Definition past_data (a : Settings NodeDescriptor) (d : option (list Z)) : Prop :=
  match s_past a, d with
  | None, None => True
  | Some ds, Some l => ∃ cbor, to_vec ds = Some cbor ∧ l = as_bytes (to_hex cbor)
  | _, _ => False
  end.

(** What may be in a row. *)
Definition row_ok (a : Settings NodeDescriptor) (r : ConfigDaoRecord) : Prop :=
  if encrypted r then
    if bool_decide (name r = EXAMPLE_ENCRYPTED) then ∃ d, sealed (s_password a) d (value_opt r) ∧ (d = None ↔ s_password a = None)
    else if bool_decide (name r = "consuming_wallet_private_key") then sealed (s_password a) (s_private_key a) (value_opt r)
    else name r = "past_neighbors" ∧ ∃ d, past_data a d ∧ sealed (s_password a) d (value_opt r)
  else value_opt r = plain_value a (name r).

(** Numbers have their widths, and a password protects what is secret. *)
Definition settings_ok (a : Settings NodeDescriptor) : Prop :=
  1025 ≤ s_port a < 2 ^ 16 ∧ is_u64 (s_gas_price a) ∧ (∀ n, s_start_block a = Some n → is_u64 n) ∧ (∀ n, s_max_block a = Some n → is_u64 n).

Definition holds (t : Table) (a : Settings NodeDescriptor) : Prop :=
  shape t = schema ∧ settings_ok a ∧ ∀ r, r ∈ t → row_ok a r.

(** ** Access to a table that stores settings *)

Lemma dao_get_row t a n e : holds t a → (n, e) ∈ schema →
  ∃ r, r ∈ t ∧ name r = n ∧ encrypted r = e ∧ dao_get io t n = Ok r ∧ row_ok a r.
Proof using.
  intros (Hs & _ & Hr) Hin. destruct (row_of t n e Hs Hin) as (r & Hin' & <- & <-). exists r.
  destruct (find_row t r Hs Hin') as [i Hi]. unfold dao_get. rewrite Hi. split_and!; [done..|by apply Hr].
Qed.

Lemma get_plain t a n : holds t a → (n, false) ∈ schema → get io t n = Ret (Ok (plain_value a n)).
Proof using.
  intros Hh Hin. destruct (dao_get_row t a n false Hh Hin) as (r & _ & Hn & He & Hg & Hrow).
  unfold get, get_record. rewrite Hg, Hn, decide_True by done. cbn [mbind run_bind map_err].
  unfold row_ok in Hrow. rewrite He, Hn in Hrow. by rewrite Hrow.
Qed.

Lemma set_row t n v e : shape t = schema → (n, e) ∈ schema → set io t n v = (update_value t n v, Ok ()).
Proof using.
  intros Hs Hin. destruct (row_of t n e Hs Hin) as (r & Hr & Hn & _). unfold set, dao_set.
  rewrite decide_True; [done|]. apply Exists_exists. by exists r.
Qed.

(** One row changes. *)
Lemma holds_set t a a' n v e : holds t a → (n, e) ∈ schema → settings_ok a' → row_ok a' (MkConfigRecord n v e) →
  (∀ r, name r ≠ n → row_ok a r → row_ok a' r) →
  set io t n v = (update_value t n v, Ok ()) ∧ holds (update_value t n v) a'.
Proof using.
  intros (Hs & _ & Hrows) Hin Hok Hnew Hsame. split; [by eapply set_row|]. split; [by rewrite update_shape|]. split; [done|].
  intros r [(r' & Hr' & Hn & ->)|[Hr Hne]]%update_row; [|by apply Hsame; [|apply Hrows]].
  destruct (row_of t n e Hs Hin) as (r2 & Hr2 & Hn2 & <-). by rewrite (row_unique t r' r2 Hs Hr' Hr2) by congruence.
Qed.

Lemma holds_set_plain t a a' n : holds t a → (n, false) ∈ schema → settings_ok a' →
  (∀ n', n' ≠ n → plain_value a' n' = plain_value a n') →
  s_password a' = s_password a → s_private_key a' = s_private_key a → s_past a' = s_past a →
  set io t n (plain_value a' n) = (update_value t n (plain_value a' n), Ok ()) ∧ holds (update_value t n (plain_value a' n)) a'.
Proof using.
  intros Hh Hin Hok Hsame Hp Hk Hpast. apply (holds_set t a a' n _ false); try done. intros r Hne Hrow.
  unfold row_ok, past_data in *. rewrite Hp, Hk, Hpast, (Hsame _ Hne). exact Hrow.
Qed.

(** ** Secrets *)

Lemma check_password_spec t a pw : holds t a →
  secure_check_password io crypto_decrypt from_hex pw t = Ret (Ok (bool_decide (pw = s_password a))).
Proof using.
  intros Hh. destruct (dao_get_row t a EXAMPLE_ENCRYPTED true Hh) as (r & _ & Hn & He & Hg & Hrow); [by left|].
  unfold secure_check_password. rewrite Hg. unfold password_matches_example. rewrite He. cbn [negb].
  unfold row_ok in Hrow. rewrite He, Hn, bool_decide_true in Hrow by done. destruct Hrow as (d & Hsealed & Hd).
  unfold sealed in Hsealed. unfold password_matches.
  destruct d as [d|], (value_opt r) as [c|]; try done.
  - destruct Hsealed as (p & Hp & _ & Hopen & Hshut). rewrite Hp. destruct pw as [p'|]; cbn [mbind run_bind]; [|by rewrite bool_decide_false].
    destruct (decide (p' = p)) as [->|Hne]; [rewrite Hopen, bool_decide_true by done; done|].
    rewrite (Hshut p' Hne), bool_decide_false by congruence. done.
  - rewrite (proj1 Hd eq_refl). destruct pw; cbn [mbind run_bind]; [by rewrite bool_decide_false|by rewrite bool_decide_true].
Qed.

Lemma private_key_spec t a pw : holds t a →
  consuming_wallet_private_key io crypto_decrypt to_hex from_hex t pw =
    Ret (match s_private_key a with
         | None => Ok None
         | Some k => if decide (s_password a = Some pw) then Ok (Some (to_hex k)) else Err PasswordError
         end).
Proof using.
  intros Hh. destruct (dao_get_row t a "consuming_wallet_private_key" true Hh) as (r & _ & Hn & He & Hg & Hrow); [by repeat first [left; done|right]|].
  unfold consuming_wallet_private_key, get, get_record. rewrite Hg, Hn, decide_True by done. cbn [mbind run_bind map_err try_bind].
  unfold row_ok in Hrow. rewrite He, Hn, bool_decide_false, bool_decide_true in Hrow by done. unfold sealed in Hrow.
  destruct (s_private_key a) as [k|], (value_opt r) as [c|]; try done. destruct Hrow as (p & Hp & _ & Hopen & Hshut). rewrite Hp.
  destruct (decide (Some p = Some pw)) as [[= ->]|Hne]; [by rewrite Hopen|]. by rewrite Hshut by congruence.
Qed.

Lemma past_neighbors_spec t a pw : holds t a →
  past_neighbors io crypto_decrypt from_hex t pw = Ret (if decide (s_password a = Some pw) then Ok (s_past a) else Err PasswordError).
Proof using CodecOk1 Hcrypto.
  intros Hh. destruct (dao_get_row t a "past_neighbors" true Hh) as (r & _ & Hn & He & Hg & Hrow); [by repeat first [left; done|right]|].
  unfold past_neighbors, get_record. rewrite Hg, Hn, decide_True by done. cbn [mbind run_bind].
  unfold decrypt. rewrite (check_password_spec t a _ Hh). cbn [try_bind].
  destruct (decide (s_password a = Some pw)) as [Hpw|Hpw]; [rewrite bool_decide_true by done|by rewrite bool_decide_false by done].
  cbn [negb]. rewrite He. cbn [negb]. unfold row_ok in Hrow. rewrite He, Hn, !bool_decide_false in Hrow by done.
  destruct Hrow as (_ & d & Hdata & Hsealed). unfold past_data in Hdata. unfold sealed in Hsealed. unfold decrypt_value.
  destruct d as [d|], (value_opt r) as [c|]; try done.
  - destruct (s_past a) as [ds|]; [|done]. destruct Hdata as (cbor & Hcbor & ->). destruct Hsealed as (p & Hp & _ & Hopen & _).
    rewrite Hpw in Hp. injection Hp as <-. rewrite Hopen, from_utf8_as_bytes by apply hex_text. cbn [mbind run_bind].
    unfold decode_bytes. rewrite (hex_reads cbor (descriptor_bytes ds cbor Hcbor)).
    destruct (from_to_vec ds) as (cbor' & Hcbor' & _ & Hback). rewrite Hcbor in Hcbor'. injection Hcbor' as <-. by rewrite Hback.
  - by destruct (s_past a).
Qed.

(** ** Changing the password *)

Section password.
Context (a : Settings NodeDescriptor) (new_password : string).
Local Abbreviation a' := (put_password (Some new_password) a).

Lemma reencrypt_row r : row_ok a r → name r ≠ EXAMPLE_ENCRYPTED →
  ∃ r', reencrypt_record crypto_encrypt crypto_decrypt to_hex from_hex r (s_password a) new_password = Ret r' ∧
    name r' = name r ∧ encrypted r' = encrypted r ∧ row_ok a' r'.
Proof using CodecOk0 Hcrypto.
  intros Hrow Hne. unfold reencrypt_record. destruct (encrypted r) eqn:He.
  2: { exists r. unfold row_ok in *. rewrite He in *. done. }
  assert (Hseal : ∃ d, sealed (s_password a) d (value_opt r) ∧ ∀ r', encrypted r' = true → name r' = name r → sealed (Some new_password) d (value_opt r') → row_ok a' r').
  { unfold row_ok in Hrow. rewrite He, bool_decide_false in Hrow by done. case_bool_decide as Hk.
    - eexists. split; [exact Hrow|]. intros r' He' Hn' Hs. unfold row_ok. rewrite He', Hn', bool_decide_false, bool_decide_true by done. exact Hs.
    - destruct Hrow as (Hn & d & Hd & Hs). exists d. split; [done|]. intros r' He' Hn' Hs'. unfold row_ok.
      rewrite He', Hn', !bool_decide_false by done. split; [done|]. exists d. by split. }
  destruct Hseal as (d & Hs & Hback). unfold sealed in Hs. destruct d as [d|], (value_opt r) as [c|] eqn:Ev; try done.
  - destruct Hs as (p & -> & Hb & Hopen & _). unfold reencrypt_value. rewrite Hopen.
    destruct (encrypt_seals d new_password Hb) as (c' & Hc' & Hseals). rewrite Hc'. cbn [expect_ok mbind run_bind].
    eexists. split; [done|]. cbn [name encrypted value_opt]. split; [done|]. split; [done|]. apply Hback; [done..|]. by exists new_password.
  - exists r. rewrite He. split; [done|]. split; [done|]. split; [done|]. apply Hback; [done..|]. by rewrite Ev.
Qed.

Lemma reencrypt_rows rows : Forall (λ r, row_ok a r ∧ name r ≠ EXAMPLE_ENCRYPTED) rows →
  ∃ rows', reencrypt_all crypto_encrypt crypto_decrypt to_hex from_hex rows (s_password a) new_password = Ret rows' ∧
    shape rows' = shape rows ∧ Forall (row_ok a') rows'.
Proof using CodecOk0 Hcrypto.
  induction 1 as [|r rows [Hrow Hne] _ (rows' & Hall & Hshape & Hok)]; [by exists []|].
  destruct (reencrypt_row r Hrow Hne) as (r' & Hr' & Hn & He & Hok'). exists (r' :: rows'). cbn [reencrypt_all]. rewrite Hr', Hall.
  cbn [mbind run_bind]. split; [done|]. split; [|by constructor]. unfold shape in *. rewrite !fmap_cons, Hn, He. by f_equal.
Qed.

Lemma update_rows rows t (done_names : list string) : shape t = schema → Forall (λ r, (name r, encrypted r) ∈ schema ∧ row_ok a' r) rows →
  (∀ r, r ∈ t → name r ∈ done_names → row_ok a' r) →
  ∃ t', update_records io rows t = (t', Ok ()) ∧ shape t' = schema ∧
    ∀ r, r ∈ t' → name r ∈ ((name <$> rows) ++ done_names)%list → row_ok a' r.
Proof using.
  intros Hs Hrows. revert t done_names Hs. induction Hrows as [|row rows [Hin Hok] _ IH]; intros t done_names Hs Hdone; [by exists t|].
  cbn [update_records]. pose proof (set_row t (name row) (value_opt row) _ Hs Hin) as Hset. unfold set in Hset.
  destruct (dao_set io t (name row) (value_opt row)) as [t1 [[]|e]]; [|done]. injection Hset as ->.
  destruct (IH (update_value t (name row) (value_opt row)) (name row :: done_names)) as (t' & Hup & Hs' & Hall).
  - by rewrite update_shape.
  - intros r [(r' & Hr' & Hn & ->)|[Hr Hne]]%update_row Hmem.
    + destruct (row_of t (name row) (encrypted row) Hs Hin) as (r2 & Hr2 & Hn2 & He2).
      rewrite (row_unique t r' r2 Hs Hr' Hr2), He2 by congruence. by destruct row.
    + apply Hdone; [done|]. by apply elem_of_cons in Hmem as [?|?].
  - exists t'. split; [done|]. split; [done|]. intros r Hr Hmem. apply Hall; [done|]. revert Hmem.
    rewrite fmap_cons, !elem_of_app, !elem_of_cons. clear. tauto.
Qed.
End password.

Lemma change_password_spec t a old new example : holds t a → bytes example →
  ∃ t', change_password io crypto_encrypt crypto_decrypt to_hex from_hex example t old new =
      Ret (t', if decide (old = s_password a) then Ok () else Err PasswordError) ∧
    holds t' (if decide (old = s_password a) then put_password (Some new) a else a).
Proof using CodecOk0 Hcrypto.
  intros Hh Hex. unfold change_password, secure_change_password. rewrite (check_password_spec t a old Hh). cbn [mbind run_bind].
  destruct (decide (old = s_password a)) as [->|Hne]; [rewrite bool_decide_true by done|rewrite bool_decide_false by done; by exists t].
  pose proof Hh as (Hs & Hok & Hrows). unfold reencrypt_records, get_all.
  destruct (reencrypt_rows a new (filter (λ r, name r ≠ EXAMPLE_ENCRYPTED) t)) as (rows & -> & Hshape & Hrows').
  { apply Forall_forall. intros r [Hn Hr]%list_elem_of_filter. auto. }
  cbn [mbind run_bind]. destruct (update_rows a new rows t []) as (t1 & -> & Hs1 & Hall); [done| |by intros ? _ ?%elem_of_nil|].
  { apply Forall_forall. intros r Hr. rewrite Forall_forall in Hrows'. split; [|auto]. rewrite <- Hs.
    assert (Hin : (name r, encrypted r) ∈ shape rows) by (apply list_elem_of_fmap; by exists r). rewrite Hshape in Hin.
    apply list_elem_of_fmap in Hin as (r2 & Heq & [_ Hr2]%list_elem_of_filter). apply list_elem_of_fmap. by exists r2. }
  unfold install_example_for_password. destruct (encrypt_seals example new Hex) as (c & -> & Hseals). cbn [expect_ok mbind run_bind].
  pose proof (set_row t1 EXAMPLE_ENCRYPTED (Some c) true Hs1 ltac:(by left)) as Hset. unfold set in Hset.
  destruct (dao_set io t1 EXAMPLE_ENCRYPTED (Some c)) as [t2 [[]|e]]; [|done]. injection Hset as ->. cbn [mbind run_bind map_err].
  eexists. split; [done|]. split; [by rewrite update_shape|]. split; [done|].
  intros r [(r' & Hr' & Hn & ->)|[Hr Hn]]%update_row.
  - destruct (row_of t1 EXAMPLE_ENCRYPTED true Hs1) as (r2 & Hr2 & Hn2 & He2); [by left|].
    rewrite (row_unique t1 r' r2 Hs1 Hr' Hr2), He2 by congruence. unfold row_ok. cbn [encrypted name value_opt]. rewrite bool_decide_true by done.
    exists (Some example). split; [by exists new|done].
  - apply Hall; [done|]. rewrite app_nil_r.
    assert (Hin : (name r, encrypted r) ∈ shape t) by (rewrite Hs, <- Hs1; apply list_elem_of_fmap; by exists r).
    apply list_elem_of_fmap in Hin as (r0 & [= Hn0 He0] & Hr0).
    assert (Hin : (name r, encrypted r) ∈ shape rows).
    { rewrite Hshape. apply list_elem_of_fmap. exists r0. split; [congruence|]. apply list_elem_of_filter. by rewrite <- Hn0. }
    apply list_elem_of_fmap in Hin as (r3 & [= Hn3 _] & Hr3). rewrite Hn3. apply list_elem_of_fmap. by exists r3.
Qed.

(** ** What can be done *)

Inductive operation :=
| SetUrl (url : string)
| SetPort (port : Z)
| SetGasPrice (gas_price : Z)
| SetProtocol (value_opt : option AutomapProtocol)
| SetHops (value : Hops)
| SetMode (value : NeighborhoodModeLight)
| SetStartBlock (value_opt : option Z)
| SetStartBlockTxn (value_opt : option Z)
| SetMaxBlock (value_opt : option Z)
| SetThresholds (curves : string)
| SetRates (rate_pack : string)
| SetIntervals (intervals : string)
| SetPast (node_descriptors_opt : option (list NodeDescriptor)) (db_password : string)
| SetWallets (private_key earning_address db_password : string)
| ChangePassword (old_password_opt : option string) (new_password : string) (example_data : list Z).

Definition perform (t : Table) (o : operation) : run (Table * result PersistentConfigError unit) :=
  match o with
  | SetUrl url => Ret (set_blockchain_service_url io url_parse t url)
  | SetPort port => Ret (set_clandestine_port io port_is_free t port)
  | SetGasPrice n => Ret (set_gas_price io t n)
  | SetProtocol v => Ret (set_mapping_protocol io t v)
  | SetHops h => Ret (set_min_hops io t h)
  | SetMode m => Ret (set_neighborhood_mode io t m)
  | SetStartBlock v => Ret (set_start_block io t v)
  | SetStartBlockTxn v => Ret (set_start_block_from_txn io t v)
  | SetMaxBlock v => Ret (set_max_block_count io t v)
  | SetThresholds s => Ret (set_payment_thresholds io t s)
  | SetRates s => Ret (set_rate_pack io t s)
  | SetIntervals s => Ret (set_scan_intervals io t s)
  | SetPast ds pw => set_past_neighbors io crypto_encrypt crypto_decrypt to_hex from_hex t ds pw
  | SetWallets k a pw => set_wallet_info io crypto_encrypt crypto_decrypt to_hex from_hex wallet_from_str t k a pw
  | ChangePassword old new example => change_password io crypto_encrypt crypto_decrypt to_hex from_hex example t old new
  end.

Definition spec_wallets (a : Settings NodeDescriptor) (key address : string) : Settings NodeDescriptor * result PersistentConfigError unit :=
  if match s_private_key a with Some k => bool_decide (to_uppercase key ≠ to_uppercase (to_hex k)) | None => false end
  then (a, Err (Collision "Consuming wallet private key already populated; cannot replace"))
  else if match s_earning a with Some e => bool_decide (address ≠ e) | None => false end
  then (a, Err (Collision "Earning wallet address already populated; cannot replace"))
  else match from_hex key with
       | None => (a, Err (BadHexFormat key))
       | Some k =>
           if negb (validate_wallet_address wallet_from_str address) then (a, Err (BadAddressFormat address))
           else (put_earning (Some address) (put_private_key (Some k) a), Ok ())
       end.

(** The operations on the record. *)
Definition spec_step (a : Settings NodeDescriptor) (o : operation) : Settings NodeDescriptor * result PersistentConfigError unit :=
  match o with
  | SetUrl url => match url_parse url with Some e => (a, Err (InvalidUrl e)) | None => (put_url (Some url) a, Ok ()) end
  | SetPort port =>
      if port <? LOWEST_USABLE_INSECURE_PORT then (a, Err (BadPortNumber ("Must be greater than 1024; not " +:+ print port)))
      else if negb (port_is_free port) then (a, Err (BadPortNumber ("Must be open port: " +:+ print port +:+ " is in use")))
      else (put_port port a, Ok ())
  | SetGasPrice n => (put_gas_price n a, Ok ())
  | SetProtocol v => (put_protocol v a, Ok ())
  | SetHops h => (put_hops h a, Ok ())
  | SetMode m => (put_mode m a, Ok ())
  | SetStartBlock v | SetStartBlockTxn v => (put_start_block v a, Ok ())
  | SetMaxBlock v => (put_max_block v a, Ok ())
  | SetThresholds s => (put_thresholds s a, Ok ())
  | SetRates s => (put_rates s a, Ok ())
  | SetIntervals s => (put_intervals s a, Ok ())
  | SetPast ds pw => if decide (s_password a = Some pw) then (put_past ds a, Ok ()) else (a, Err PasswordError)
  | SetWallets k e pw => spec_wallets a k e
  | ChangePassword old new _ => if decide (old = s_password a) then (put_password (Some new) a, Ok ()) else (a, Err PasswordError)
  end.

(** Numbers have their widths; wallets come with the password of the database,
    which the operation itself does not check. *)
Definition admissible (a : Settings NodeDescriptor) (o : operation) : Prop :=
  match o with
  | SetPort port => 0 ≤ port < 2 ^ 16
  | SetGasPrice n => is_u64 n
  | SetStartBlock (Some n) | SetStartBlockTxn (Some n) | SetMaxBlock (Some n) => is_u64 n
  | SetWallets _ _ pw => s_password a = Some pw
  | ChangePassword _ _ example_data => bytes example_data
  | _ => True
  end.

(** What a reader sees. *)
Definition reads (t : Table) (a : Settings NodeDescriptor) : Prop :=
  blockchain_service_url io t = Ret (Ok (s_url a)) ∧
  chain_name io t = Ret (s_chain a) ∧
  current_schema_version io t = Ret (s_schema_version a) ∧
  clandestine_port io t = Ret (Ok (s_port a)) ∧
  earning_wallet_address io t = Ret (Ok (s_earning a)) ∧
  gas_price io t = Ret (Ok (s_gas_price a)) ∧
  mapping_protocol io t = Ret (Ok (s_protocol a)) ∧
  min_hops io t = Ret (Ok (s_hops a)) ∧
  neighborhood_mode io t = Ret (Ok (s_mode a)) ∧
  start_block io t = Ret (Ok (s_start_block a)) ∧
  max_block_count io t = Ret (Ok (s_max_block a)) ∧
  payment_thresholds io t = (r ← payment_thresholds_try_from (s_thresholds a); Ret (map_err BadCoupledParamsFormat r)) ∧
  rate_pack io t = (r ← rate_pack_try_from (s_rates a); Ret (map_err BadCoupledParamsFormat r)) ∧
  scan_intervals io t = (r ← scan_intervals_try_from (s_intervals a); Ret (map_err BadCoupledParamsFormat r)) ∧
  (∀ pw, check_password io crypto_decrypt from_hex t pw = Ret (Ok (bool_decide (pw = s_password a)))) ∧
  (∀ pw, consuming_wallet_private_key io crypto_decrypt to_hex from_hex t pw =
    Ret (match s_private_key a with
         | None => Ok None
         | Some k => if decide (s_password a = Some pw) then Ok (Some (to_hex k)) else Err PasswordError
         end)) ∧
  (∀ pw, past_neighbors io crypto_decrypt from_hex t pw = Ret (if decide (s_password a = Some pw) then Ok (s_past a) else Err PasswordError)).

Lemma holds_reads t a : holds t a → reads t a.
Proof using CodecOk1 Hcrypto.
  intros Hh. pose proof Hh as (_ & (Hport & Hgas & Hstart & Hmax) & _). unfold reads.
  assert (Hp : ∀ n, (n, false) ∈ schema → get io t n = Ret (Ok (plain_value a n))) by (intros; by apply get_plain).
  unfold blockchain_service_url, chain_name, current_schema_version, required, clandestine_port, earning_wallet_address, gas_price, mapping_protocol, min_hops,
    neighborhood_mode, start_block, max_block_count, get_block, payment_thresholds, rate_pack, scan_intervals, combined_params_get_method.
  repeat (rewrite Hp; [|by repeat first [left; done|right]]). cbn [try_bind mbind run_bind].
  change (plain_value a "blockchain_service_url") with (s_url a). change (plain_value a "chain_name") with (Some (s_chain a)).
  change (plain_value a "schema_version") with (Some (s_schema_version a)). change (plain_value a "clandestine_port") with (Some (print (s_port a))).
  change (plain_value a "earning_wallet_address") with (s_earning a). change (plain_value a "gas_price") with (Some (print (s_gas_price a))).
  change (plain_value a "mapping_protocol") with (print_protocol <$> s_protocol a). change (plain_value a "min_hops") with (Some (print_hops (s_hops a))).
  change (plain_value a "neighborhood_mode") with (Some (print_mode (s_mode a))). change (plain_value a "start_block") with (print <$> s_start_block a).
  change (plain_value a "max_block_count") with (print <$> s_max_block a). change (plain_value a "payment_thresholds") with (Some (s_thresholds a)).
  change (plain_value a "rate_pack") with (Some (s_rates a)). change (plain_value a "scan_intervals") with (Some (s_intervals a)).
  unfold decode_u64, decode_combined_params. split_and!; try done.
  - rewrite parse_u64_print by lia. unfold LOWEST_USABLE_INSECURE_PORT, HIGHEST_USABLE_PORT.
    destruct (Z.ltb_spec (s_port a) 1025), (Z.ltb_spec 65535 (s_port a)); try lia. done.
  - by rewrite parse_u64_print.
  - destruct (s_protocol a); cbn [fmap option_fmap option_map]; [by rewrite protocol_read_back|done].
  - cbn [fmap option_fmap option_map]. by rewrite hops_read_back.
  - by rewrite mode_read_back.
  - destruct (s_start_block a) as [n|]; cbn [fmap option_fmap option_map]; [|done]. by rewrite (parse_u64_print n (Hstart n eq_refl)).
  - destruct (s_max_block a) as [n|]; cbn [fmap option_fmap option_map]; [|done]. by rewrite (parse_u64_print n (Hmax n eq_refl)).
  - by destruct (payment_thresholds_try_from (s_thresholds a)) as [[]|].
  - by destruct (rate_pack_try_from (s_rates a)) as [[]|].
  - by destruct (scan_intervals_try_from (s_intervals a)) as [[]|].
  - intros pw. unfold check_password. by rewrite (check_password_spec t a pw Hh).
  - intros pw. by apply private_key_spec.
  - intros pw. by apply past_neighbors_spec.
Qed.

(** ** Each operation does to the table what it does to the record *)

(** Only the changed row differs. *)
Ltac same_elsewhere :=
  let n' := fresh "n" in let Hn := fresh "Hn" in intros n' Hn; unfold plain_value; rewrite !(bool_decide_false _ Hn); reflexivity.

Lemma set_plain_performs t a a' n v : holds t a → (n, false) ∈ schema → settings_ok a' → v = plain_value a' n →
  (∀ n', n' ≠ n → plain_value a' n' = plain_value a n') →
  s_password a' = s_password a → s_private_key a' = s_private_key a → s_past a' = s_past a →
  ∃ t', (Ret (set io t n v) : run (Table * result PersistentConfigError unit)) = Ret (t', Ok ()) ∧ holds t' a'.
Proof using.
  intros Hh Hin Hok -> Hsame Hp Hk Hpast. destruct (holds_set_plain t a a' n Hh Hin Hok Hsame Hp Hk Hpast) as [-> Hh']. by eexists.
Qed.

Lemma set_past_performs t a ds pw : holds t a →
  ∃ t', perform t (SetPast ds pw) = Ret (t', (spec_step a (SetPast ds pw)).2) ∧ holds t' (spec_step a (SetPast ds pw)).1.
Proof using CodecOk0 CodecOk1 Hcrypto.
  intros Hh. cbn [perform spec_step]. unfold set_past_neighbors.
  assert (∃ d, (match ds with Some nds => bytes ← expect (to_vec nds); Ret (Some bytes) | None => Ret None end) = Ret d ∧
    past_data (put_past ds a) ((λ l, as_bytes (to_hex l)) <$> d)) as (d & -> & Hd).
  { destruct ds as [nds|]; [|by exists None]. destruct (from_to_vec nds) as (cbor & Hcbor & _). rewrite Hcbor. exists (Some cbor). split; [done|].
    cbn. by exists cbor. }
  cbn [mbind run_bind]. assert (encode_bytes to_hex d = Ok (to_hex <$> d)) as -> by by destruct d. unfold encrypt.
  rewrite (check_password_spec t a _ Hh). cbn [try_bind].
  destruct (decide (s_password a = Some pw)) as [Hpw|Hpw]; [rewrite bool_decide_true by done|rewrite bool_decide_false by done; by exists t].
  cbn [negb]. destruct (dao_get_row t a "past_neighbors" true Hh) as (r & _ & _ & He & -> & _); [by repeat first [left; done|right]|].
  rewrite He. cbn [negb].
  assert (∃ v, encrypt_value crypto_encrypt to_hex (to_hex <$> d) (Some pw) = Ret (Ok v) ∧ sealed (Some pw) ((λ l, as_bytes (to_hex l)) <$> d) v) as (v & -> & Hv).
  { destruct d as [l|]; [|by exists None]. cbn [fmap option_fmap option_map encrypt_value].
    destruct (encrypt_seals (as_bytes (to_hex l)) pw (as_bytes_bytes _)) as (c & -> & Hs). exists (Some c). split; [done|]. by exists pw. }
  cbn [mbind run_bind]. pose proof Hh as (_ & Hok & _).
  destruct (holds_set t a (put_past ds a) "past_neighbors" v true Hh) as [-> Hh']; [by repeat first [left; done|right]|done| | |by eexists].
  - unfold row_ok. cbn [encrypted name value_opt]. rewrite !bool_decide_false by done. split; [done|]. eexists. split; [exact Hd|]. cbn [s_password put_past]. by rewrite Hpw.
  - intros r' Hne Hrow. unfold row_ok in *. destruct (encrypted r'); [|exact Hrow]. case_bool_decide; [exact Hrow|]. case_bool_decide; [exact Hrow|].
    by destruct Hrow as [? _].
Qed.

Lemma set_wallets_performs t a key address pw : holds t a → s_password a = Some pw →
  ∃ t', perform t (SetWallets key address pw) = Ret (t', (spec_wallets a key address).2) ∧ holds t' (spec_wallets a key address).1.
Proof using CodecOk0 Hcrypto.
  intros Hh Hpw. cbn [perform]. unfold set_wallet_info, spec_wallets. rewrite (private_key_spec t a pw Hh). cbn [mbind run_bind].
  unfold earning_wallet_address. rewrite (get_plain t a "earning_wallet_address" Hh) by by repeat first [left; done|right].
  change (plain_value a "earning_wallet_address") with (s_earning a).
  assert (∃ key_opt, match s_private_key a with None => Ok None | Some k => if decide (s_password a = Some pw) then Ok (Some (to_hex k)) else Err PasswordError end = Ok key_opt ∧
    match key_opt with Some existing => bool_decide (to_uppercase key ≠ to_uppercase existing) | None => false end =
    match s_private_key a with Some k => bool_decide (to_uppercase key ≠ to_uppercase (to_hex k)) | None => false end :> bool) as (key_opt & -> & ->)
    by (destruct (s_private_key a); [rewrite decide_True by done|]; by eexists).
  destruct (match s_private_key a with Some _ => _ | None => _ end); [by exists t|]. cbn [mbind run_bind].
  destruct (match s_earning a with Some _ => _ | None => _ end); [by exists t|].
  unfold encrypt_private_key. destruct (from_hex key) as [k|] eqn:Ek; cbn [mbind run_bind]; [|by exists t].
  destruct (encrypt_seals k pw (hex_bytes key k Ek)) as (c & -> & Hseals). cbn [mbind run_bind].
  destruct (validate_wallet_address wallet_from_str address); cbn [negb]; [|by exists t]. pose proof Hh as (_ & Hok & _).
  destruct (holds_set t a (put_private_key (Some k) a) "consuming_wallet_private_key" (Some c) true Hh) as [-> Hh1];
    [by repeat first [left; done|right]|done| | |].
  - unfold row_ok. cbn [encrypted name value_opt]. rewrite bool_decide_false, bool_decide_true by done. by exists pw.
  - intros r Hne Hrow. unfold row_ok in *. destruct (encrypted r); [|exact Hrow]. case_bool_decide; [exact Hrow|]. by rewrite bool_decide_false in *.
  - apply (set_plain_performs _ (put_private_key (Some k) a)); try done; [by repeat first [left; done|right]|]. same_elsewhere.
Qed.

Lemma operation_performs t a o : holds t a → admissible a o →
  ∃ t', perform t o = Ret (t', (spec_step a o).2) ∧ holds t' (spec_step a o).1.
Proof using CodecOk0 CodecOk1 Hcrypto.
  intros Hh Hadm. pose proof Hh as (_ & (Hport & Hgas & Hstart & Hmax) & _).
  assert (Hset : ∀ a' n v, (n, false) ∈ schema → settings_ok a' → v = plain_value a' n →
    (∀ n', n' ≠ n → plain_value a' n' = plain_value a n') → s_password a' = s_password a → s_private_key a' = s_private_key a → s_past a' = s_past a →
    ∃ t', (Ret (set io t n v) : run (Table * result PersistentConfigError unit)) = Ret (t', Ok ()) ∧ holds t' a')
    by (intros; by eapply set_plain_performs).
  assert (Hblock : ∀ v n, set_block io t n v = set io t n (print <$> v)) by by intros [] ?.
  destruct o; try exact (set_past_performs t a _ _ Hh); try exact (set_wallets_performs t a _ _ _ Hh Hadm);
    cbn [perform spec_step] in *; unfold set_gas_price, set_mapping_protocol, set_min_hops, set_neighborhood_mode, set_start_block, set_start_block_from_txn,
      simple_set_method_from_provided_txn, set_max_block_count, set_payment_thresholds, set_rate_pack, set_scan_intervals, simple_set_method; rewrite ?Hblock.
  - unfold set_blockchain_service_url. destruct (url_parse url); [by exists t|].
    apply Hset; try done; [by repeat first [left; done|right]|same_elsewhere].
  - unfold set_clandestine_port. destruct (Z.ltb_spec port LOWEST_USABLE_INSECURE_PORT); [by exists t|].
    destruct (port_is_free port); [|by exists t]. cbn [negb encode_u64].
    apply Hset; try done; [by repeat first [left; done|right]| |same_elsewhere]. unfold LOWEST_USABLE_INSECURE_PORT in *.
    cbn [admissible] in Hadm. split; [cbn; lia|]. by split.
  - apply Hset; try done; [by repeat first [left; done|right]|same_elsewhere].
  - apply Hset; try done; [by repeat first [left; done|right]|same_elsewhere].
  - apply Hset; try done; [by repeat first [left; done|right]|same_elsewhere].
  - apply Hset; try done; [by repeat first [left; done|right]|same_elsewhere].
  - apply Hset; try done; [by repeat first [left; done|right]| |same_elsewhere]. split; [done|]. split; [done|]. split; [|done]. cbn. by intros n ->.
  - apply Hset; try done; [by repeat first [left; done|right]| |same_elsewhere]. split; [done|]. split; [done|]. split; [|done]. cbn. by intros n ->.
  - apply Hset; try done; [by repeat first [left; done|right]| |same_elsewhere]. split; [done|]. split; [done|]. split; [done|]. cbn. by intros n ->.
  - apply Hset; try done; [by repeat first [left; done|right]|same_elsewhere].
  - apply Hset; try done; [by repeat first [left; done|right]|same_elsewhere].
  - apply Hset; try done; [by repeat first [left; done|right]|same_elsewhere].
  - destruct (change_password_spec t a old_password_opt new_password example_data Hh Hadm) as (t' & -> & Hh'). exists t'.
    by destruct (decide (old_password_opt = s_password a)).
Qed.

(** ** Histories *)

(** The settings of a new database. *)
Definition initial_settings (chain : string) (mode : NeighborhoodModeLight) (port : Z) : Settings NodeDescriptor :=
  MkSettings NodeDescriptor None None chain port None None mode (print CURRENT_SCHEMA_VERSION) None DEFAULT_GAS_PRICE None None DEFAULT_MIN_HOPS
    (print_payment_thresholds Thresholds.DEFAULT_PAYMENT_THRESHOLDS) (print_rate_pack DEFAULT_RATE_PACK) (print_scan_intervals DEFAULT_SCAN_INTERVALS) None.

Fixpoint perform_all (t : Table) (os : list operation) : run (Table * list (result PersistentConfigError unit)) :=
  match os with
  | [] => Ret (t, [])
  | o :: os =>
      '(t, r) ← perform t o;
      '(t, rs) ← perform_all t os;
      Ret (t, r :: rs)
  end.

Fixpoint spec_run (a : Settings NodeDescriptor) (os : list operation) : Settings NodeDescriptor * list (result PersistentConfigError unit) :=
  match os with
  | [] => (a, [])
  | o :: os => let '(a, r) := spec_step a o in let '(a, rs) := spec_run a os in (a, r :: rs)
  end.

(** Every operation is admissible when its turn comes. *)
Fixpoint admissible_all (a : Settings NodeDescriptor) (os : list operation) : Prop :=
  match os with
  | [] => True
  | o :: os => admissible a o ∧ admissible_all (spec_step a o).1 os
  end.

Lemma initial_holds chain mode port : 1025 ≤ port < 2 ^ 16 → holds (initialize_config chain mode port) (initial_settings chain mode port).
Proof using.
  intros Hport. split; [reflexivity|]. split.
  - split; [exact Hport|]. split; [by vm_compute|]. by split.
  - apply Forall_forall. unfold initialize_config. repeat (apply Forall_cons; split; [|]); try (apply Forall_nil; done);
      try reflexivity; unfold row_ok; cbn [encrypted name value_opt].
    + rewrite bool_decide_true by done. by exists None.
    + rewrite !bool_decide_false by done. split; [done|]. by exists None.
Qed.

Lemma operations_perform os : ∀ t a, holds t a → admissible_all a os →
  ∃ t', perform_all t os = Ret (t', (spec_run a os).2) ∧ holds t' (spec_run a os).1.
Proof using CodecOk0 CodecOk1 Hcrypto.
  induction os as [|o os IH]; intros t a Hh Hadm; [by exists t|]. destruct Hadm as [Ho Hos].
  destruct (operation_performs t a o Hh Ho) as (t1 & Hstep & Hh1). destruct (IH t1 _ Hh1 Hos) as (t2 & Hrest & Hh2).
  exists t2. cbn [perform_all spec_run]. rewrite Hstep. cbn [mbind run_bind]. rewrite Hrest. cbn [mbind run_bind].
  destruct (spec_step a o) as [a1 r]. cbn [fst snd] in *. by destruct (spec_run a1 os).
Qed.

(** C19: The configuration is a record of settings with a password.  Start from the
    table that [initialize_config] creates and perform any list of the operations of
    [PersistentConfiguration] (each setter, the wallets, the past neighbors, a change of
    the password), with numbers of their widths and wallets given with the password
    of the database.  No operation panics, each one answers what the operation on
    the record answers (a refused port, a bad address, a wrong password, a wallet that
    is there already), and in the end every getter answers the setting of the record:
    what was set last is read, a change of the password keeps every secret and makes
    the old password useless, and a secret is read with the password only. *)
Theorem configuration_refines chain mode port os :
  1025 ≤ port < 2 ^ 16 → admissible_all (initial_settings chain mode port) os →
  ∃ t, perform_all (initialize_config chain mode port) os = Ret (t, (spec_run (initial_settings chain mode port) os).2) ∧
    reads t (spec_run (initial_settings chain mode port) os).1.
Proof using CodecOk0 CodecOk1 Hcrypto.
  intros Hport Hadm. destruct (operations_perform os _ _ (initial_holds chain mode port Hport) Hadm) as (t & Hrun & Hh).
  exists t. split; [done|]. by apply holds_reads.
Qed.
End settings.

(** ** A configuration in use *)

Module Demo.

(** A codec of bytes for everything countable. *)
Fixpoint bits (p : positive) : list Z :=
  match p with xI p => 1 :: bits p | xO p => 0 :: bits p | xH => [2] end.

Fixpoint of_bits (l : list Z) : option positive :=
  match l with
  | 2 :: _ => Some xH
  | 1 :: l => xI <$> of_bits l
  | 0 :: l => xO <$> of_bits l
  | _ => None
  end.

Lemma of_bits_bits p : of_bits (bits p) = Some p.
Proof. induction p as [p IH|p IH|]; cbn; by rewrite ?IH. Qed.

Lemma bits_bytes p : bytes (bits p).
Proof. unfold bytes. induction p as [p IH|p IH|]; cbn; constructor; done. Qed.

#[local] Instance bits_codec `{Countable T} : Codec T := {| to_vec t := Some (bits (countable.encode t)); from_slice l := of_bits l ≫= countable.decode |}.

#[local] Instance bits_codec_ok `{Countable T} : CodecOk T.
Proof. intros t. exists (bits (countable.encode t)). split; [done|]. split; [by destruct (countable.encode t)|]. cbn. rewrite of_bits_bits. apply countable.decode_encode. Qed.

(** Hexadecimal text. *)
Definition digit (d : Z) : ascii := ascii_of_nat (Z.to_nat (if d <? 10 then 48 + d else 87 + d)).

Definition digit_of (c : ascii) : option Z :=
  let n := Z.of_nat (nat_of_ascii c) in
  if (48 <=? n) && (n <=? 57) then Some (n - 48)
  else if (97 <=? n) && (n <=? 102) then Some (n - 87)
  else None.

Definition to_hex (l : list Z) : string :=
  string_of_list_ascii (l ≫= λ b, [digit ((b / 16) mod 16); digit (b mod 16)]).

Fixpoint from_hex (s : string) : option (list Z) :=
  match s with
  | EmptyString => Some []
  | String _ EmptyString => None
  | String h (String l s) => h ← digit_of h; l ← digit_of l; r ← from_hex s; Some (h * 16 + l :: r)
  end.

Lemma digit_facts d : 0 ≤ d < 16 → digit_of (digit d) = Some d ∧ (nat_of_ascii (digit d) < 128)%nat.
Proof.
  intros Hd. rewrite <- (Z2Nat.id d) by lia. assert (Z.to_nat d < 16)%nat as Hn by lia. generalize dependent (Z.to_nat d). clear. intros n Hn.
  do 16 (destruct n as [|n]; [split; [reflexivity|by apply Nat.ltb_lt]|]). lia.
Qed.

Lemma digit_of_bound c d : digit_of c = Some d → 0 ≤ d < 16.
Proof.
  unfold digit_of. generalize (Z.of_nat (nat_of_ascii c)). cbv zeta. intros n.
  destruct (Z.leb_spec 48 n), (Z.leb_spec n 57), (Z.leb_spec 97 n), (Z.leb_spec n 102); cbn [andb]; intros [= <-]; lia.
Qed.

Lemma demo_hex_reads l : bytes l → from_hex (to_hex l) = Some l.
Proof.
  unfold bytes, to_hex. induction 1 as [|b l Hb _ IH]; [done|]. cbn beta in Hb. cbn [mbind list_bind app string_of_list_ascii from_hex].
  rewrite !(λ d H, proj1 (digit_facts d H)) by (apply Z.mod_pos_bound; lia). cbn [mbind option_bind]. cbn [mbind] in IH. rewrite IH. cbn.
  f_equal. f_equal. Z.div_mod_to_equations. lia.
Qed.

Lemma demo_hex_bytes s : ∀ l, from_hex s = Some l → bytes l.
Proof.
  unfold bytes. induction s as [s IH] using (induction_ltof1 _ String.length). unfold ltof in IH.
  destruct s as [|h [|c s]]; intros l Hl; [injection Hl as <-; constructor|done|]. cbn [from_hex] in Hl.
  apply bind_Some in Hl as (h' & Hh & Hl). apply bind_Some in Hl as (c' & Hc & Hl). apply bind_Some in Hl as (r & Hr & [= <-]).
  apply digit_of_bound in Hh, Hc. constructor; [cbn; lia|]. apply (IH s); [cbn; lia|done].
Qed.

Lemma demo_hex_text l : Forall (λ b, b < 128) (as_bytes (to_hex l)).
Proof.
  unfold as_bytes, to_hex. rewrite list_ascii_of_string_of_list_ascii. apply Forall_fmap, Forall_bind, Forall_forall. intros b _.
  repeat constructor; cbn; match goal with |- context [digit ?d] => pose proof (proj2 (digit_facts d ltac:(apply Z.mod_pos_bound; lia))); lia end.
Qed.

(** A box that the password opens. *)
Definition Box : Type := string * string.
Definition box_encrypt (data : list Z) (p : string) : option Box :=
  if decide (Forall (λ b, 0 ≤ b < 256) data) then Some (p, string_of_list_ascii ((λ b, ascii_of_nat (Z.to_nat b)) <$> data)) else None.
Definition box_decrypt (c : Box) (p : string) : option (list Z) :=
  if decide (c.1 = p) then Some (as_bytes c.2) else None.

#[local] Instance demo_crypto_ok : CryptoOk (Crypto := Box) (NodeDescriptor := string) box_encrypt box_decrypt to_hex from_hex.
Proof.
  split.
  - intros data p Hb. unfold box_encrypt. rewrite decide_True by done. by eexists.
  - intros data p c. unfold box_encrypt, box_decrypt. destruct (decide (Forall (λ b, 0 ≤ b < 256) data)) as [Hb|]; [|done]. intros [= <-]. cbn [fst snd].
    rewrite decide_True by done. unfold as_bytes. rewrite list_ascii_of_string_of_list_ascii, <- list_fmap_compose. f_equal.
    unfold bytes in Hb. induction Hb as [|b l Hb _ IH]; [done|]. cbn. f_equal; [|exact IH]. rewrite nat_ascii_embedding; lia.
  - intros data p p' c. unfold box_encrypt, box_decrypt. destruct (decide (Forall (λ b, 0 ≤ b < 256) data)); [|done]. intros [= <-] Hne. cbn [fst].
    by rewrite decide_False by congruence.
  - intros c l [= <-]. apply bits_bytes.
  - intros ds l [= <-]. apply bits_bytes.
  - apply demo_hex_reads.
  - apply demo_hex_bytes.
  - apply demo_hex_text.
Qed.

Definition demo_wallet (s : string) : option Z := if decide (s = "0x01") then Some 1 else None.

(** A password is chosen, wallets and a neighbor are stored under it, a wrong
    password and a privileged port are refused, and the password is changed. *)
Definition demo_history : list (operation (NodeDescriptor := string)) :=
  [SetPort 5333; ChangePassword None "one" [7; 200]; SetWallets "0a1b" "0x01" "one"; SetPast (Some ["node"]) "one"; SetPast None "two";
   ChangePassword (Some "one") "two" [9]; SetPort 80; SetWallets "ff" "0x01" "two"].

Lemma configuration_refines_witness :
  ∃ t, perform_all box_encrypt box_decrypt to_hex from_hex demo_wallet (λ _, None) (λ _, true) (initialize_config "base" LightStandard 4000) demo_history =
      Ret (t, [Ok (); Ok (); Ok (); Ok (); Err PasswordError; Ok (); Err (BadPortNumber "Must be greater than 1024; not 80");
               Err (Collision "Consuming wallet private key already populated; cannot replace")]) ∧
    clandestine_port (λ _, None) t = Ret (Ok 5333) ∧
    past_neighbors (λ _, None) box_decrypt from_hex t "two" = Ret (Ok (Some ["node"])) ∧
    past_neighbors (NodeDescriptor := string) (λ _, None) box_decrypt from_hex t "one" = Ret (Err PasswordError) ∧
    consuming_wallet_private_key (λ _, None) box_decrypt to_hex from_hex t "two" = Ret (Ok (Some "0a1b")).
Proof.
  destruct (configuration_refines (NodeDescriptor := string) box_encrypt box_decrypt to_hex from_hex demo_wallet (λ _, None) (λ _, true) "base" LightStandard 4000 demo_history)
    as (t & Hrun & Hreads).
  - by vm_compute.
  - cbn. repeat split; try done. all: by repeat constructor.
  - exists t. split; [rewrite Hrun; reflexivity|]. destruct Hreads as (_ & _ & _ & Hport & _ & _ & _ & _ & _ & _ & _ & _ & _ & _ & _ & Hkey & Hpast).
    split; [exact Hport|]. split; [exact (Hpast "two")|]. split; [exact (Hpast "one")|exact (Hkey "two")].
Defined.

(** ** Unintended behaviours *)


Local Abbreviation demo_perform_all := (perform_all (NodeDescriptor := string) box_encrypt box_decrypt to_hex from_hex demo_wallet (λ _, None) (λ _, true)).
Local Abbreviation demo_table := (initialize_config "base" LightStandard 4000).

(** [set_wallet_info] does not check the password: the key is sealed under a wrong
    one, and the next change of the password panics. *)
Example wallets_under_wrong_password :
  (r ← demo_perform_all demo_table [ChangePassword None "one" [7]; SetWallets "0a1b" "0x01" "wrong"]; Ret r.2) = Ret [Ok (); Ok ()] ∧
  demo_perform_all demo_table [ChangePassword None "one" [7]; SetWallets "0a1b" "0x01" "wrong"; ChangePassword (Some "one") "two" [8]] = Panic.
Proof. split; reflexivity. Qed.

(** [change_password] is not atomic: when a write fails midway, the old password still
    opens the database but not the private key. *)
Example password_change_halfway :
  let broken := λ x, match x with WriteOne n => if decide (n = "past_neighbors") then Some "disk full" else None | _ => None end in
  (r ← demo_perform_all demo_table [ChangePassword None "one" [7]; SetWallets "0a1b" "0x01" "one"];
   '(t, _) ← change_password broken box_encrypt box_decrypt to_hex from_hex [8] r.1 (Some "one") "two";
   opens ← check_password (λ _, None) box_decrypt from_hex t (Some "one");
   key ← consuming_wallet_private_key (λ _, None) box_decrypt to_hex from_hex t "one";
   Ret (opens, key)) = Ret (Ok true, Err PasswordError).
Proof. reflexivity. Qed.

(** [set_wallet_info] keeps the key when the address cannot be written. *)
Example wallets_not_rolled_back :
  let broken := λ x, match x with WriteOne n => if decide (n = "earning_wallet_address") then Some "disk full" else None | _ => None end in
  (r ← demo_perform_all demo_table [ChangePassword None "one" [7]];
   '(t, result) ← set_wallet_info broken box_encrypt box_decrypt to_hex from_hex demo_wallet r.1 "0a1b" "0x01" "one";
   key ← consuming_wallet_private_key (λ _, None) box_decrypt to_hex from_hex t "one";
   Ret (result, key)) = Ret (Err (DatabaseError "disk full"), Ok (Some "0a1b")).
Proof. reflexivity. Qed.
End Demo.
End Settings.
