(* ===== verification/ProxyClient.v ===== *)
(** * The proxy client

    Models the exit side of a stream: the actor of [node/src/proxy_client/mod.rs],
    the pool of streams to servers ([stream_handler_pool.rs]), the establisher
    ([stream_establisher.rs], [connect_one] of [sub_lib/stream_connector.rs]) and the
    two tasks of a stream ([stream_reader.rs], [stream_writer.rs]), with the messages
    of [sub_lib/proxy_client.rs].

    A message to another actor, or to the proxy client itself, is a value of [Sent].
    The two channels of a stream to a server are fields of its [Connection], and a
    sender is the number of the connection.  A future that the pool spawns is a value
    of [Spawned], and [poll_spawned] is what runs when the executor gets to it: the
    name resolver and the network answer then.  The answers of sockets are scripts,
    as in [StreamWriters.v].  Wallets are numbers, host names are their bytes. *)
From Stdlib Require Import String Ascii.
From S2P Require Import Prelude.
From S2P Require Import CountryBlockStream IpCountryCsv SequenceBuffer StreamWriters Cryptde Route VersionedData Hopper Accountant ProtocolPacks ProxyServer.
From stdpp Require Import base list gmap strings.

Module ProxyClient.
Import Cryptde ProtocolPacks.
Import Writers(ErrorKind, indicates_dead_stream, rx_answer(..), write_answer(..), shutdown_answer(..), script, MkScript, rx, writes, shutdowns, world, MkWorld, received, wire, task_poll(..)).
Local Open Scope Z_scope.

Abbreviation SocketAddr := (Stream.IpAddr * Z)%type (only parsing).
Abbreviation SequencedPacket := SequenceBuffer.SequencedPacket (only parsing).

Local Arguments Hopper.ex_payload {Wallet T} _.
Local Arguments Hopper.remaining_route {Wallet T} _.
Local Arguments Hopper.ex_paying_wallet {Wallet T} _.

(** ** Messages *)

Record InboundServerData := MkServerData {
  sd_stream_key : StreamKey;
  sd_last_data : bool;
  sd_sequence_number : Z;
  sd_source : SocketAddr;
  sd_data : list Z
}.

Definition error_socket_addr : SocketAddr := (Stream.IpV4 0, 0).

Inductive Sent :=
| ToHopper (m : Hopper.IncipientCoresPackage)
| ToAccountant (m : Accountant.ReportServiceProvidedMessage)
| ToSelfServerData (m : InboundServerData)
| ToSelfDnsFailure (stream_key : StreamKey).

(** ** [StreamReader] *)

Record StreamReader := MkReader {
  r_stream_key : StreamKey;
  r_peer_addr : SocketAddr;
  sequencer : Z
}.

Definition reader_new (stream_key : StreamKey) (peer_addr : SocketAddr) : StreamReader := MkReader stream_key peer_addr 0.

(** An answer of [poll_read]: [RdReady []] is a read of no bytes. *)
Inductive read_answer := RdNotReady | RdReady (data : list Z) | RdErr (kind : ErrorKind).

(** What the task leaves behind when it is polled. *)
Record reader_effect := MkEffect {
  e_signals : nat;
  e_data : list InboundServerData;
  e_killed : list (StreamKey * Z)
}.

Definition reader_shutdown (self : StreamReader) : run (StreamReader * list (StreamKey * Z)) :=
  '(n, next) ← SequenceBuffer.next_sequence_number (sequencer self);
  Ret (MkReader (r_stream_key self) (r_peer_addr self) next, [(r_stream_key self, n)]).

Definition send_inbound_server_data (self : StreamReader) (data : list Z) (last_data : bool) : run (StreamReader * InboundServerData) :=
  '(n, next) ← SequenceBuffer.next_sequence_number (sequencer self);
  Ret (MkReader (r_stream_key self) (r_peer_addr self) next, MkServerData (r_stream_key self) last_data n (r_peer_addr self) data).

(** The loop of [poll]; an exhausted script answers [NotReady]. *)
Fixpoint reader_poll (self : StreamReader) (signals : nat) (answers : list read_answer) : run (StreamReader * reader_effect * task_poll) :=
  match signals with
  | S signals => Ret (self, MkEffect signals [] [], TaskReady)
  | O =>
      match answers with
      | [] | RdNotReady :: _ => Ret (self, MkEffect 0 [] [], TaskNotReady)
      | RdReady [] :: _ =>
          '(self, killed) ← reader_shutdown self;
          Ret (self, MkEffect 0 [] killed, TaskReady)
      | RdReady data :: answers =>
          '(self, message) ← send_inbound_server_data self data false;
          '(self, effect, result) ← reader_poll self 0 answers;
          Ret (self, MkEffect (e_signals effect) (message :: e_data effect) (e_killed effect), result)
      | RdErr kind :: answers =>
          if indicates_dead_stream kind then
            '(self, killed) ← reader_shutdown self;
            Ret (self, MkEffect 0 [] killed, TaskErr)
          else reader_poll self 0 answers
      end
  end.

(** ** [StreamWriter] *)

Record StreamWriter := MkStreamWriter {
  sequence_buffer : SequenceBuffer.SequenceBuffer;
  shutting_down : bool
}.

Definition writer_new : StreamWriter := MkStreamWriter SequenceBuffer.new false.

Definition writer_shutdown (answers : list shutdown_answer) : task_poll :=
  match answers with
  | [] | ShNotReady :: _ => TaskNotReady
  | ShReady :: _ => TaskReady
  | ShErr :: _ => TaskErr
  end.

Fixpoint read_data_from_channel (self : StreamWriter) (w : world) (answers : list rx_answer) : run (StreamWriter * world * task_poll) :=
  match answers with
  | RxPacket sequenced_packet :: answers =>
      read_data_from_channel (MkStreamWriter (SequenceBuffer.push (sequence_buffer self) sequenced_packet) (shutting_down self))
        (MkWorld (received w ++ [sequenced_packet]) (wire w)) answers
  | RxClosed :: _ => Ret (self, w, TaskReady)
  | [] | RxNotReady :: _ => Ret (self, w, TaskNotReady)
  | RxErr :: _ => Panic
  end.

Fixpoint write_from_buffer_to_stream (self : StreamWriter) (w : world) (answers : list write_answer) (sh : list shutdown_answer)
    : run (StreamWriter * world * task_poll) :=
  '(buffer, packet_opt) ← SequenceBuffer.poll (sequence_buffer self);
  match packet_opt with
  | None => Ret (MkStreamWriter buffer (shutting_down self), w, TaskReady)
  | Some packet =>
      match answers with
      | WrErr kind :: answers =>
          if indicates_dead_stream kind then Ret (MkStreamWriter buffer (shutting_down self), w, TaskErr)
          else
            buffer ← SequenceBuffer.repush buffer packet;
            write_from_buffer_to_stream (MkStreamWriter buffer (shutting_down self)) w answers sh
      | [] | WrNotReady :: _ =>
          buffer ← SequenceBuffer.repush buffer packet;
          Ret (MkStreamWriter buffer (shutting_down self), w, TaskNotReady)
      | WrReady n :: answers =>
          let bytes_written_count := Nat.min n (length (SequenceBuffer.data packet)) in
          let w := MkWorld (received w) (wire w ++ take bytes_written_count (SequenceBuffer.data packet)) in
          if negb (bytes_written_count =? length (SequenceBuffer.data packet))%nat then
            buffer ← SequenceBuffer.repush buffer
              (SequenceBuffer.MkPacket (drop bytes_written_count (SequenceBuffer.data packet)) (SequenceBuffer.sequence_number packet) (SequenceBuffer.last_data packet));
            write_from_buffer_to_stream (MkStreamWriter buffer (shutting_down self)) w answers sh
          else if SequenceBuffer.last_data packet then Ret (MkStreamWriter buffer true, w, writer_shutdown sh)
          else write_from_buffer_to_stream (MkStreamWriter buffer (shutting_down self)) w answers sh
      end
  end.

Definition writer_poll (self : StreamWriter) (w : world) (s : script) : run (StreamWriter * world * task_poll) :=
  if shutting_down self then Ret (self, w, writer_shutdown (shutdowns s))
  else
    '(self, w, read_result) ← read_data_from_channel self w (rx s);
    '(self, w, write_result) ← write_from_buffer_to_stream self w (writes s) (shutdowns s);
    Ret (self, w, match read_result, write_result with
                  | _, TaskErr => TaskErr
                  | TaskNotReady, _ => TaskNotReady
                  | _, _ => write_result
                  end).

(** ** Streams to servers *)

(** A stream to a server with the channels of its tasks.  A task that is over is
    [None], and so is what it received from. *)
Record Connection := MkConnection {
  c_stream_key : StreamKey;
  c_peer_addr : SocketAddr;
  c_reader : option StreamReader;
  c_signals : nat;
  c_writer : option StreamWriter;
  c_queue : list SequencedPacket;
  c_socket : world
}.

(** [writer_data] and [reader_shutdown_tx] of a connection. *)
Record StreamSenders := MkSenders {
  connection : nat;
  s_peer_addr : SocketAddr
}.

(** What the pool has spawned and what it carries. *)
Inductive Spawned :=
| Tend (stream_key : StreamKey) (last_data : bool) (payload_size : nat) (paying_wallet_opt : option Z)
| WriteFailed (stream_key : StreamKey) (source : SocketAddr)
| Connect (payload : ClientRequestPayload) (paying_wallet_opt : option Z) (ip_addr : Stream.IpAddr)
| LookUp (payload : ClientRequestPayload) (paying_wallet_opt : option Z) (target_hostname : list Z)
| NoHost (stream_key : StreamKey).

Record StreamHandlerPool := MkPool {
  stream_writer_channels : gmap StreamKey StreamSenders;
  stream_adder : list (StreamKey * StreamSenders);
  stream_killer : list (StreamKey * Z);
  connections : list Connection;
  spawned : list Spawned;
  p_exit_service_rate : Z;
  p_exit_byte_rate : Z
}.

Definition pool_new (exit_service_rate exit_byte_rate : Z) : StreamHandlerPool := MkPool ∅ [] [] [] [] exit_service_rate exit_byte_rate.

Definition set_channels (p : StreamHandlerPool) (m : gmap StreamKey StreamSenders) : StreamHandlerPool :=
  MkPool m (stream_adder p) (stream_killer p) (connections p) (spawned p) (p_exit_service_rate p) (p_exit_byte_rate p).
Definition set_adder (p : StreamHandlerPool) (l : list (StreamKey * StreamSenders)) : StreamHandlerPool :=
  MkPool (stream_writer_channels p) l (stream_killer p) (connections p) (spawned p) (p_exit_service_rate p) (p_exit_byte_rate p).
Definition set_killer (p : StreamHandlerPool) (l : list (StreamKey * Z)) : StreamHandlerPool :=
  MkPool (stream_writer_channels p) (stream_adder p) l (connections p) (spawned p) (p_exit_service_rate p) (p_exit_byte_rate p).
Definition set_connections (p : StreamHandlerPool) (l : list Connection) : StreamHandlerPool :=
  MkPool (stream_writer_channels p) (stream_adder p) (stream_killer p) l (spawned p) (p_exit_service_rate p) (p_exit_byte_rate p).
Definition set_spawned (p : StreamHandlerPool) (l : list Spawned) : StreamHandlerPool :=
  MkPool (stream_writer_channels p) (stream_adder p) (stream_killer p) (connections p) l (p_exit_service_rate p) (p_exit_byte_rate p).
Definition spawn (p : StreamHandlerPool) (future : Spawned) : StreamHandlerPool := set_spawned p (spawned p ++ [future]).

Definition with_reader (c : Connection) (reader : option StreamReader) (signals : nat) : Connection :=
  MkConnection (c_stream_key c) (c_peer_addr c) reader signals (c_writer c) (c_queue c) (c_socket c).
Definition with_writer (c : Connection) (writer : option StreamWriter) (queue : list SequencedPacket) (socket : world) : Connection :=
  MkConnection (c_stream_key c) (c_peer_addr c) (c_reader c) (c_signals c) writer queue socket.

(** A signal to a reader that is gone is lost. *)
Definition send_shutdown_signal_to_stream_reader (p : StreamHandlerPool) (senders : StreamSenders) : StreamHandlerPool :=
  set_connections p (alter (λ c, match c_reader c with
                                 | Some _ => with_reader c (c_reader c) (S (c_signals c))
                                 | None => c
                                 end) (connection senders) (connections p)).

(** [unbounded_send] fails when the writer is gone. *)
Definition perform_write (p : StreamHandlerPool) (sequenced_packet : SequencedPacket) (sender : nat) : StreamHandlerPool * result unit unit :=
  match connections p !! sender ≫= c_writer with
  | Some _ =>
      (set_connections p (alter (λ c, with_writer c (c_writer c) (c_queue c ++ [sequenced_packet]) (c_socket c)) sender (connections p)), Ok ())
  | None => (p, Err ())
  end.

(** ** The pool *)

(** [SocketAddr::from_str]: an address and a port; after [core::net::parser]. *)
Definition read_port : NetParser.reader Z :=
  λ s, '(_, s) ← NetParser.read_given_char ":"%char s; NetParser.read_number 10 (length s) true 65535 s.

Definition read_scope_id : NetParser.reader Z :=
  λ s, '(_, s) ← NetParser.read_given_char "%"%char s; NetParser.read_number 10 (length s) true (2 ^ 32 - 1) s.

Definition read_socket_addr_v6 : NetParser.reader Stream.IpAddr :=
  λ s,
    '(_, s) ← NetParser.read_given_char "["%char s;
    '(ip, s) ← NetParser.read_ipv6_addr s;
    let s := match read_scope_id s with Some (_, s) => s | None => s end in
    '(_, s) ← NetParser.read_given_char "]"%char s;
    '(_, s) ← read_port s;
    Some (Stream.IpV6 ip, s).

Definition read_socket_addr_v4 : NetParser.reader Stream.IpAddr :=
  λ s, '(ip, s) ← NetParser.read_ipv4_addr s; '(_, s) ← read_port s; Some (Stream.IpV4 ip, s).

Definition socket_ip_from_str (text : string) : option Stream.IpAddr :=
  let whole r := match r with Some (ip, []) => Some ip | _ => None end in
  match read_socket_addr_v4 (NetParser.chars text) with
  | Some r => whole (Some r)
  | None => whole (read_socket_addr_v6 (NetParser.chars text))
  end.

Definition parse_ip (hostname : list Z) : option Stream.IpAddr :=
  match socket_ip_from_str (ProxyServer.string_of hostname) with
  | Some ip => Some ip
  | None => NetParser.from_str (ProxyServer.string_of hostname)
  end.

Definition filter_wildcard_ips (ip_addrs : list Stream.IpAddr) : list Stream.IpAddr :=
  List.filter (λ ip, match ip with Stream.IpV4 0 => false | _ => true end) ip_addrs.

(** What the network answers: [connect] of a TCP stream, with the address of the
    peer unless that cannot be found out, and the addresses of a name. *)
Record Network := MkNetwork {
  tcp_connect : SocketAddr → result ErrorKind (option SocketAddr);
  lookup_ip : list Z → result ErrorKind (list Stream.IpAddr)
}.

Fixpoint connect_loop (net : Network) (ip_addrs : list Stream.IpAddr) (target_port : Z) (last_error : ErrorKind) : run (result ErrorKind SocketAddr) :=
  match ip_addrs with
  | [] => Ret (Err last_error)
  | ip_addr :: ip_addrs =>
      match tcp_connect net (ip_addr, target_port) with
      | Ok (Some peer_addr) => Ret (Ok peer_addr)
      | Ok None => Panic
      | Err e => connect_loop net ip_addrs target_port e
      end
  end.

Definition connect_one (net : Network) (ip_addrs : list Stream.IpAddr) (target_port : Z) : run (result ErrorKind SocketAddr) :=
  connect_loop net ip_addrs target_port (Writers.OtherKind 0).

Definition establish_stream (net : Network) (p : StreamHandlerPool) (payload : ClientRequestPayload) (ip_addrs : list Stream.IpAddr)
    : run (StreamHandlerPool * result ErrorKind nat) :=
  connected ← connect_one net ip_addrs (target_port payload);
  Ret (match connected with
       | Err e => (p, Err e)
       | Ok peer_addr =>
           let id := length (connections p) in
           let c := MkConnection (stream_key payload) peer_addr (Some (reader_new (stream_key payload) peer_addr)) 0 (Some writer_new) [] (MkWorld [] []) in
           let p := set_connections p (connections p ++ [c]) in
           (set_adder p (stream_adder p ++ [(stream_key payload, MkSenders id peer_addr)]), Ok id)
       end).

Definition handle_lookup_ip (net : Network) (p : StreamHandlerPool) (payload : ClientRequestPayload) (lookup_result : result ErrorKind (list Stream.IpAddr))
    : run (StreamHandlerPool * result ErrorKind nat) :=
  match lookup_result with
  | Err e => Ret (p, Err e)
  | Ok ip_addrs =>
      match filter_wildcard_ips ip_addrs with
      | [] => Ret (p, Err (Writers.OtherKind 1))
      | filtered_ip_addrs => establish_stream net p payload filtered_ip_addrs
      end
  end.

Definition make_fqdn (target_hostname : list Z) : list Z := target_hostname ++ [46].

Definition send_terminating_package (stream_key : StreamKey) (source : SocketAddr) : list Sent :=
  [ToSelfServerData (MkServerData stream_key true 0 source [])].

Definition clean_up_bad_stream (p : StreamHandlerPool) (stream_key : StreamKey) (source : SocketAddr) : StreamHandlerPool * list Sent :=
  let p := match stream_writer_channels p !! stream_key with
           | Some stream_senders =>
               send_shutdown_signal_to_stream_reader (set_channels p (delete stream_key (stream_writer_channels p))) stream_senders
           | None => p
           end in
  (p, send_terminating_package stream_key source).

(** [write_and_tend] after its write. *)
Definition tend (now : Z) (p : StreamHandlerPool) (stream_key : StreamKey) (last_data : bool) (payload_size : nat) (paying_wallet_opt : option Z)
    : StreamHandlerPool * list Sent :=
  let report :=
    if (0 <? payload_size)%nat then
      match paying_wallet_opt with
      | Some wallet => [ToAccountant (Accountant.MkServiceProvided now wallet (Z.of_nat payload_size) (p_exit_service_rate p) (p_exit_byte_rate p))]
      | None => []
      end
    else [] in
  let p :=
    if last_data then
      match stream_writer_channels p !! stream_key with
      | Some stream_senders =>
          send_shutdown_signal_to_stream_reader (set_channels p (delete stream_key (stream_writer_channels p))) stream_senders
      | None => p
      end
    else p in
  (p, report).

(** [write_and_tend] on the stream that has just been made, or the error. *)
Definition write_to_new_stream (now : Z) (p : StreamHandlerPool) (payload : ClientRequestPayload) (paying_wallet_opt : option Z) (made : result ErrorKind nat)
    : StreamHandlerPool * list Sent :=
  match made with
  | Err _ => clean_up_bad_stream p (stream_key payload) error_socket_addr
  | Ok sender =>
      let '(p, r) := perform_write p (sequenced_packet payload) sender in
      match r with
      | Err _ => clean_up_bad_stream p (stream_key payload) error_socket_addr
      | Ok _ =>
          tend now p (stream_key payload) (SequenceBuffer.last_data (sequenced_packet payload))
            (length (SequenceBuffer.data (sequenced_packet payload))) paying_wallet_opt
      end
  end.

(** A future that is ready. *)
Definition poll_spawned (now : Z) (net : Network) (p : StreamHandlerPool) (future : Spawned) : run (StreamHandlerPool * list Sent) :=
  match future with
  | Tend stream_key last_data payload_size paying_wallet_opt => Ret (tend now p stream_key last_data payload_size paying_wallet_opt)
  | WriteFailed stream_key source => Ret (clean_up_bad_stream p stream_key source)
  | NoHost stream_key => Ret (clean_up_bad_stream p stream_key error_socket_addr)
  | Connect payload paying_wallet_opt ip_addr =>
      '(p, made) ← establish_stream net p payload [ip_addr];
      Ret (write_to_new_stream now p payload paying_wallet_opt made)
  | LookUp payload paying_wallet_opt target_hostname =>
      '(p, made) ← handle_lookup_ip net p payload (lookup_ip net (make_fqdn target_hostname));
      let failure := match made with Err _ => [ToSelfDnsFailure (stream_key payload)] | Ok _ => [] end in
      let '(p, sent) := write_to_new_stream now p payload paying_wallet_opt made in
      Ret (p, failure ++ sent)
  end.

Definition make_stream_with_key (payload : ClientRequestPayload) (paying_wallet_opt : option Z) : Spawned :=
  match target_hostname payload with
  | Some target_hostname =>
      match parse_ip target_hostname with
      | Some ip_addr => Connect payload paying_wallet_opt ip_addr
      | None => LookUp payload paying_wallet_opt target_hostname
      end
  | None => NoHost (stream_key payload)
  end.

(** The write to an existing stream is done at once, what follows it when the future
    is polled. *)
Definition process_package (p : StreamHandlerPool) (payload : ClientRequestPayload) (paying_wallet_opt : option Z) : StreamHandlerPool :=
  match stream_writer_channels p !! stream_key payload with
  | Some senders =>
      let '(p, r) := perform_write p (sequenced_packet payload) (connection senders) in
      match r with
      | Ok _ => spawn p (Tend (stream_key payload) (SequenceBuffer.last_data (sequenced_packet payload))
                           (length (SequenceBuffer.data (sequenced_packet payload))) paying_wallet_opt)
      | Err _ => spawn p (WriteFailed (stream_key payload) (s_peer_addr senders))
      end
  | None =>
      match SequenceBuffer.data (sequenced_packet payload) with
      | [] => p
      | _ => spawn p (make_stream_with_key payload paying_wallet_opt)
      end
  end.

Fixpoint kill_streams (p : StreamHandlerPool) (killed : list (StreamKey * Z)) : StreamHandlerPool * list Sent :=
  match killed with
  | [] => (p, [])
  | (stream_key, sequence_number) :: killed =>
      match stream_writer_channels p !! stream_key with
      | Some stream_senders =>
          let p := send_shutdown_signal_to_stream_reader (set_channels p (delete stream_key (stream_writer_channels p))) stream_senders in
          let '(p, sent) := kill_streams p killed in
          (p, ToSelfServerData (MkServerData stream_key true sequence_number (s_peer_addr stream_senders) []) :: sent)
      | None => kill_streams p killed
      end
  end.

Definition clean_up_dead_streams (p : StreamHandlerPool) : StreamHandlerPool * list Sent := kill_streams (set_killer p []) (stream_killer p).

Definition add_new_streams (p : StreamHandlerPool) : StreamHandlerPool :=
  set_adder (set_channels p (foldl (λ m '(k, senders), <[k := senders]> m) (stream_writer_channels p) (stream_adder p))) [].

Definition do_housekeeping (p : StreamHandlerPool) : StreamHandlerPool * list Sent :=
  let '(p, sent) := clean_up_dead_streams p in (add_new_streams p, sent).

Definition pool_process_package (p : StreamHandlerPool) (payload : ClientRequestPayload) (paying_wallet_opt : option Z) : StreamHandlerPool * list Sent :=
  let '(p, sent) := do_housekeeping p in (process_package p payload paying_wallet_opt, sent).

(** ** The actor *)

Record StreamContext := MkContext {
  return_route : Route.Route;
  payload_destination_key : PublicKey;
  paying_wallet : option Z
}.

Record ProxyClient := MkProxyClient {
  cryptde : CryptDE;
  bound : bool;
  pool : StreamHandlerPool;
  stream_contexts : gmap StreamKey StreamContext;
  exit_service_rate : Z;
  exit_byte_rate : Z;
  is_decentralized : bool;
  crashable : bool
}.

Definition set_pool (s : ProxyClient) (p : StreamHandlerPool) : ProxyClient :=
  MkProxyClient (cryptde s) (bound s) p (stream_contexts s) (exit_service_rate s) (exit_byte_rate s) (is_decentralized s) (crashable s).
Definition set_contexts (s : ProxyClient) (m : gmap StreamKey StreamContext) : ProxyClient :=
  MkProxyClient (cryptde s) (bound s) (pool s) m (exit_service_rate s) (exit_byte_rate s) (is_decentralized s) (crashable s).

(** A pool that does not exist yet is never looked at. *)
Definition new (c : CryptDE) (dns_servers : list SocketAddr) (exit_service_rate exit_byte_rate : Z) (is_decentralized crashable : bool) : run ProxyClient :=
  match dns_servers with
  | [] => Panic
  | _ => Ret (MkProxyClient c false (pool_new exit_service_rate exit_byte_rate) ∅ exit_service_rate exit_byte_rate is_decentralized crashable)
  end.

Definition handle_bind (s : ProxyClient) (proxy_client_present : bool) : run ProxyClient :=
  if proxy_client_present
  then Ret (MkProxyClient (cryptde s) true (pool_new (exit_service_rate s) (exit_byte_rate s)) (stream_contexts s) (exit_service_rate s)
              (exit_byte_rate s) (is_decentralized s) (crashable s))
  else Panic.

Section client.
Context `{!Codec Hopper.MessageType, !Codec ProxyServer.ClientResponsePayload, !Codec StreamKey}.
Context (response_migrations dns_failure_migrations : Versioned.Migrations).

Definition handle_request (s : ProxyClient) (msg : Hopper.ExpiredCoresPackage (Wallet := Z) ClientRequestPayload) : run (ProxyClient * list Sent) :=
  let payload := Hopper.ex_payload msg in
  let paying_wallet := Hopper.ex_paying_wallet msg in
  if bool_decide (is_Some paying_wallet) || negb (is_decentralized s) then
    if bound s then
      let latest_stream_context := MkContext (Hopper.remaining_route msg) (originator_public_key payload) paying_wallet in
      let s := set_contexts s (<[stream_key payload := latest_stream_context]> (stream_contexts s)) in
      let '(p, sent) := pool_process_package (pool s) payload paying_wallet in
      Ret (set_pool s p, sent)
    else Panic
  else Ret (s, []).

Definition send_response_to_hopper (s : ProxyClient) (msg : InboundServerData) (stream_context : StreamContext) : run (result unit (list Sent)) :=
  vd ← Versioned.vd_new response_migrations
         (ProxyServer.MkClientResponse (sd_stream_key msg) (SequenceBuffer.MkPacket (sd_data msg) (sd_sequence_number msg) (sd_last_data msg)));
  match Hopper.incipient_new (cryptde s) (return_route stream_context) (Hopper.ClientResponse vd) (payload_destination_key stream_context) with
  | Err _ => Ret (Err ())
  | Ok icp => if bound s then Ret (Ok [ToHopper icp]) else Panic
  end.

Definition report_response_exit_to_accountant (now : Z) (s : ProxyClient) (stream_context : StreamContext) (msg_data_len : nat) : run (list Sent) :=
  match paying_wallet stream_context with
  | Some wallet =>
      if bound s
      then Ret [ToAccountant (Accountant.MkServiceProvided now wallet (Z.of_nat msg_data_len) (exit_service_rate s) (exit_byte_rate s))]
      else Panic
  | None => Ret []
  end.

Definition handle_inbound_server_data (now : Z) (s : ProxyClient) (msg : InboundServerData) : run (ProxyClient * list Sent) :=
  match stream_contexts s !! sd_stream_key msg with
  | None => Ret (s, [])
  | Some stream_context =>
      response ← send_response_to_hopper s msg stream_context;
      match response with
      | Err _ => Ret (s, [])
      | Ok response =>
          report ← report_response_exit_to_accountant now s stream_context (length (sd_data msg));
          Ret (if sd_last_data msg then set_contexts s (delete (sd_stream_key msg) (stream_contexts s)) else s, response ++ report)
      end
  end.

Definition handle_dns_resolve_failure (s : ProxyClient) (k : StreamKey) : run (ProxyClient * list Sent) :=
  match stream_contexts s !! k with
  | Some stream_context =>
      vd ← Versioned.vd_new dns_failure_migrations k;
      package ← expect_ok (Hopper.incipient_new (cryptde s) (return_route stream_context) (Hopper.DnsResolveFailed vd) (payload_destination_key stream_context));
      if bound s then Ret (set_contexts s (delete k (stream_contexts s)), [ToHopper package]) else Panic
  | None => Ret (s, [])
  end.

(** ** The node at work *)

(** What the proxy client has sent to itself and not handled yet. *)
Inductive SelfMessage := ServerData (m : InboundServerData) | DnsFailure (k : StreamKey).

Record Exit := MkExit {
  client : ProxyClient;
  mailbox : list SelfMessage
}.

Definition to_self (m : Sent) : option SelfMessage :=
  match m with
  | ToSelfServerData m => Some (ServerData m)
  | ToSelfDnsFailure k => Some (DnsFailure k)
  | _ => None
  end.

Inductive Event :=
| Request (msg : Hopper.ExpiredCoresPackage (Wallet := Z) ClientRequestPayload)
| NextMessage (now : Z)
| PollSpawned (i : nat) (now : Z) (net : Network)
| PollReader (i : nat) (answers : list read_answer)
| PollWriter (i : nat) (closed : bool) (writes : list write_answer) (shutdowns : list shutdown_answer)
| UiCrash (for_proxy_client : bool).

Definition poll_reader (p : StreamHandlerPool) (i : nat) (answers : list read_answer) : run (StreamHandlerPool * list Sent) :=
  match connections p !! i with
  | Some c =>
      match c_reader c with
      | Some reader =>
          '(reader, effect, result) ← reader_poll reader (c_signals c) answers;
          let reader_opt := match result with TaskNotReady => Some reader | _ => None end in
          let p := set_connections p (<[i := with_reader c reader_opt (e_signals effect)]> (connections p)) in
          Ret (set_killer p (stream_killer p ++ e_killed effect), ToSelfServerData <$> e_data effect)
      | None => Ret (p, [])
      end
  | None => Ret (p, [])
  end.

(** [closed] when every sender is gone. *)
Definition poll_writer (p : StreamHandlerPool) (i : nat) (closed : bool) (ws : list write_answer) (shs : list shutdown_answer) : run StreamHandlerPool :=
  match connections p !! i with
  | Some c =>
      match c_writer c with
      | Some writer =>
          let rxs := (RxPacket <$> c_queue c) ++ [if closed then RxClosed else RxNotReady] in
          '(writer', w, result) ← writer_poll writer (c_socket c) (MkScript rxs ws shs);
          let queue := if shutting_down writer then c_queue c else [] in
          let writer_opt := match result with TaskNotReady => Some writer' | _ => None end in
          Ret (set_connections p (<[i := with_writer c writer_opt queue w]> (connections p)))
      | None => Ret p
      end
  | None => Ret p
  end.

Definition step (x : Exit) (e : Event) : run (Exit * list Sent) :=
  let s := client x in
  '(s, mail, sent) ←
    match e return run (ProxyClient * list SelfMessage * list Sent) with
    | Request msg => '(s, sent) ← handle_request s msg; Ret (s, mailbox x, sent)
    | NextMessage now =>
        match mailbox x with
        | [] => Ret (s, [], [])
        | ServerData m :: mail => '(s, sent) ← handle_inbound_server_data now s m; Ret (s, mail, sent)
        | DnsFailure k :: mail => '(s, sent) ← handle_dns_resolve_failure s k; Ret (s, mail, sent)
        end
    | PollSpawned i now net =>
        match spawned (pool s) !! i with
        | Some future =>
            '(p, sent) ← poll_spawned now net (set_spawned (pool s) (delete i (spawned (pool s)))) future;
            Ret (set_pool s p, mailbox x, sent)
        | None => Ret (s, mailbox x, [])
        end
    | PollReader i answers => '(p, sent) ← poll_reader (pool s) i answers; Ret (set_pool s p, mailbox x, sent)
    | PollWriter i closed ws shs => p ← poll_writer (pool s) i closed ws shs; Ret (set_pool s p, mailbox x, [])
    | UiCrash for_proxy_client => if crashable s && for_proxy_client then Panic else Ret (s, mailbox x, [])
    end;
  Ret (MkExit s (mail ++ omap to_self sent), sent).

Fixpoint history (x : Exit) (es : list Event) : run (Exit * list Sent) :=
  match es with
  | [] => Ret (x, [])
  | e :: es => '(x, sent) ← step x e; '(x, sents) ← history x es; Ret (x, sent ++ sents)
  end.
End client.
End ProxyClient.
