(* ===== verification/ExitStreams.v ===== *)
(** * Streams through the exit

    What the two tasks of [ProxyClient.v] do with the bytes of a stream.  The writer
    to a server is the sorted writer of [StreamWriters.v], poll by poll; the reader
    numbers what a server sends so that the writer to the client, whatever happens to
    the packets on their way, puts back the bytes of the server. *)
From S2P Require Import Prelude.
From S2P Require Import CountryBlockStream SequenceBuffer StreamWriters Cryptde ProtocolPacks ProxyClient.
From stdpp Require Import base list gmap.

Module ExitStreams.
Import Writers(rx_answer(..), write_answer(..), shutdown_answer(..), script, MkScript, rx, writes, shutdowns, world, MkWorld, received, wire, task_poll(..), ReadChannelStatus(..), WriteBufferStatus(..), ErrorKind(..), indicates_dead_stream).
Import ProtocolPacks ProxyClient.
Local Open Scope Z_scope.

(** ** The writer to the server *)

Definition to_sorted (self : StreamWriter) : Writers.StreamWriterSorted SequenceBuffer.SequenceBuffer :=
  Writers.MkSorted (sequence_buffer self) (shutting_down self).

Definition read_status (r : task_poll) : ReadChannelStatus := match r with TaskReady => Closed | _ => StillOpen end.
Definition write_status (r : task_poll) : WriteBufferStatus :=
  match r with TaskErr => StreamInError | TaskNotReady => BufferNotEmpty | TaskReady => BufferEmpty end.

Lemma read_equivalent answers : ∀ self w,
  Writers.read_data_from_channel (sequence_buffer self) w answers =
    '(self', w', r) ← read_data_from_channel self w answers;
    Ret (sequence_buffer self', w', read_status r).
Proof.
  induction answers as [|[p| | |] answers IH]; intros self w; try done. cbn [Writers.read_data_from_channel read_data_from_channel].
  exact (IH (MkStreamWriter (SequenceBuffer.push (sequence_buffer self) p) (shutting_down self)) _).
Qed.

(** Reading answers with the receiver's state, not with an error. *)
Lemma read_keeps answers : ∀ self w self' w' r, read_data_from_channel self w answers = Ret (self', w', r) →
  shutting_down self' = shutting_down self ∧ r ≠ TaskErr.
Proof.
  induction answers as [|[p| | |] answers IH]; intros self w self' w' r Hr; cbn [read_data_from_channel] in Hr; try (by injection Hr as <- <- <-).
  - exact (IH _ _ _ _ _ Hr).
  - done.
Qed.

Lemma shutdown_equivalent sh : write_status (writer_shutdown sh) =
  match Writers.shutdown sh with ShNotReady => BufferNotEmpty | ShReady => BufferEmpty | ShErr => StreamInError end.
Proof. by destruct sh as [|[]]. Qed.

Lemma write_equivalent answers : ∀ buffer w sh,
  Writers.write_from_buffer_to_stream buffer w answers sh =
    '(self', w', r) ← write_from_buffer_to_stream (MkStreamWriter buffer false) w answers sh;
    Ret (to_sorted self', w', write_status r).
Proof.
  induction answers as [|a answers IH]; intros buffer w sh; cbn [Writers.write_from_buffer_to_stream write_from_buffer_to_stream sequence_buffer shutting_down];
    change (SequenceBuffer.pb_poll buffer) with (SequenceBuffer.poll buffer); (destruct (SequenceBuffer.poll buffer) as [[b [p|]]|]; cbn [mbind run_bind]; [|done|done]).
  - change (SequenceBuffer.pb_repush b p) with (SequenceBuffer.repush b p). by destruct (SequenceBuffer.repush b p).
  - destruct a as [kind| |n].
    + destruct (indicates_dead_stream kind); [done|]. change (SequenceBuffer.pb_repush b p) with (SequenceBuffer.repush b p).
      destruct (SequenceBuffer.repush b p); [apply IH|done].
    + change (SequenceBuffer.pb_repush b p) with (SequenceBuffer.repush b p). by destruct (SequenceBuffer.repush b p).
    + destruct (negb _).
      * change (SequenceBuffer.pb_repush b) with (SequenceBuffer.repush b). destruct (SequenceBuffer.repush b _); [apply IH|done].
      * destruct (SequenceBuffer.last_data p); [|apply IH]. cbn [mbind run_bind]. by rewrite shutdown_equivalent.
Qed.

Lemma poll_equivalent self w s :
  Writers.poll_sorted (to_sorted self) w s = '(self', w', r) ← writer_poll self w s; Ret (to_sorted self', w', r).
Proof.
  unfold Writers.poll_sorted, writer_poll. cbn [Writers.shutting_down to_sorted]. destruct (shutting_down self) eqn:Esd.
  - cbn [mbind run_bind]. f_equal. f_equal. by destruct (shutdowns s) as [|[]].
  - change (Writers.sequence_buffer (to_sorted self)) with (sequence_buffer self). rewrite read_equivalent. destruct (read_data_from_channel self w (rx s)) as [[[self1 w1] r1]|] eqn:E1; [|done].
    cbn [mbind run_bind]. destruct (read_keeps _ _ _ _ _ _ E1) as [Hsd Hr1]. rewrite write_equivalent.
    assert (self1 = MkStreamWriter (sequence_buffer self1) false) as Hself by (destruct self1; cbn in *; congruence). rewrite <- Hself.
    destruct (write_from_buffer_to_stream self1 w1 (writes s) (shutdowns s)) as [[[self2 w2] r2]|]; [|done]. cbn [mbind run_bind].
    by destruct r1, r2.
Qed.

(** Everything in the channel is read. *)
Lemma read_all {B : Type} `{!SequenceBuffer.PacketBuffer B} q fin : fin = RxClosed ∨ fin = RxNotReady → ∀ (b : B) w b' w' r,
  Writers.read_data_from_channel b w ((RxPacket <$> q) ++ [fin]) = Ret (b', w', r) → received w' = received w ++ q.
Proof.
  intros Hfin. induction q as [|p q IH]; intros b w b' w' r Hr; cbn [fmap list_fmap app Writers.read_data_from_channel] in Hr.
  - rewrite app_nil_r. destruct Hfin as [-> | ->]; by injection Hr as <- <- <-.
  - rewrite (IH _ _ _ _ _ Hr). cbn [received]. by rewrite <- app_assoc.
Qed.

(** One poll of a writer that is at work. *)
Lemma writer_poll_ok self w s q fin : Writers.live (to_sorted self) w → Writers.wire_prefix w → Writers.numbers_ok (received w ++ q) = true →
  rx s = (RxPacket <$> q) ++ [fin] → fin = RxClosed ∨ fin = RxNotReady →
  ∃ self' w' r, writer_poll self w s = Ret (self', w', r) ∧ (r = TaskNotReady → Writers.live (to_sorted self') w') ∧ Writers.wire_prefix w' ∧
    received w' = if shutting_down self then received w else received w ++ q.
Proof.
  intros Hl Hpre Hnum Hrx Hfin.
  assert (∃ st' w' r, Writers.poll_sorted (to_sorted self) w s = Ret (st', w', r) ∧ (r = TaskNotReady → Writers.live st' w') ∧ Writers.wire_prefix w' ∧
    received w' = if shutting_down self then received w else received w ++ q) as (st' & w' & r & Hpoll & Hrest).
  { unfold Writers.poll_sorted. cbn [Writers.shutting_down to_sorted]. unfold Writers.live in Hl. cbn [Writers.shutting_down to_sorted] in Hl.
    destruct (shutting_down self) eqn:Esd.
    { eexists _, w, _. split; [done|]. split; [|done]. intros _. unfold Writers.live. cbn [Writers.shutting_down to_sorted]. by rewrite Esd. }
    destruct Hl as (a & n & sent & Hb & Hp). rewrite Hrx. change (Writers.sequence_buffer (to_sorted self)) with (sequence_buffer self).
    unfold Writers.numbers_ok in Hnum. rewrite forallb_app in Hnum. apply andb_true_iff in Hnum as [Hnw Hnq].
    destruct (Writers.read_loop_ok ((RxPacket <$> q) ++ [fin]) (sequence_buffer self) a w n sent Hb Hp Hnw) as (b1 & w1 & r1 & a1 & Hread & Hb1 & Hp1 & Hn1).
    { unfold Writers.channel_ok. cbn [forallb rx]. rewrite andb_true_r, forallb_app. apply andb_true_iff. split; [|by destruct Hfin as [-> | ->]].
      clear -Hnq. induction q as [|p q IH]; [done|]. cbn in *. apply andb_true_iff in Hnq as [-> Hq]. by apply IH. }
    rewrite Hread. cbn [mbind run_bind].
    destruct (Writers.write_loop_ok (writes s) b1 a1 w1 n sent (shutdowns s) Hb1 Hp1 Hn1) as (st2 & w2 & r2 & -> & Hrec & Hpre2 & Hwr).
    cbn [mbind run_bind]. eexists _, _, _. split; [done|]. split; [|split; [done|]].
    - intros Hnr. unfold Writers.live. destruct (Writers.shutting_down st2) eqn:Es; [done|].
      assert (Writers.live st2 w2) as Hlive by (destruct r1, r2; try done; by destruct Hwr). unfold Writers.live in Hlive. by rewrite Es in Hlive.
    - rewrite Hrec. exact (read_all q fin Hfin _ _ _ _ _ Hread). }
  rewrite poll_equivalent in Hpoll. destruct (writer_poll self w s) as [[[self1 w1] r1]|]; [|done]. cbn [mbind run_bind] in Hpoll. injection Hpoll as <- <- <-.
  by exists self1, w1, r1.
Qed.

(** The executor polls the task until it is done. *)
Fixpoint run_writer (self : StreamWriter) (w : world) (ss : list script) : run (StreamWriter * world * task_poll) :=
  match ss with
  | [] => Ret (self, w, TaskNotReady)
  | s :: ss =>
      '(self, w, r) ← writer_poll self w s;
      match r with TaskNotReady => run_writer self w ss | _ => Ret (self, w, r) end
  end.

Lemma run_equivalent ss : ∀ self w,
  Writers.run_sorted (to_sorted self) w ss = '(self', w', r) ← run_writer self w ss; Ret (to_sorted self', w', r).
Proof.
  induction ss as [|s ss IH]; intros self w; [done|]. cbn [Writers.run_sorted run_writer]. rewrite poll_equivalent.
  destruct (writer_poll self w s) as [[[self1 w1] []]|]; cbn [mbind run_bind]; [done|apply IH|done..].
Qed.

(** C18: The writer to a server is the writer to a client.  The two tasks are written
    separately, one for the exit's streams to servers and one for the streams of
    browsers; polled any number of times with the same answers of channel and socket
    they write the same bytes, end the same way and hold the same packets, and they
    panic together. *)
Theorem exit_writer_is_sorted_writer ss :
  Writers.run_sorted Writers.sorted_new (MkWorld [] []) ss =
    '(self, w, r) ← run_writer writer_new (MkWorld [] []) ss; Ret (to_sorted self, w, r).
Proof. exact (run_equivalent ss writer_new (MkWorld [] [])). Qed.

(** ** The reader *)

(** What the server has sent, chunk by chunk, and whether the stream has ended. *)
Fixpoint chunks (answers : list read_answer) : list (list Z) :=
  match answers with
  | [] => []
  | RdNotReady :: answers => chunks answers
  | RdReady [] :: _ => []
  | RdReady data :: answers => data :: chunks answers
  | RdErr kind :: answers => if indicates_dead_stream kind then [] else chunks answers
  end.

Fixpoint ended (answers : list read_answer) : bool :=
  match answers with
  | [] => false
  | RdNotReady :: answers => ended answers
  | RdReady [] :: _ => true
  | RdReady _ :: answers => ended answers
  | RdErr kind :: answers => indicates_dead_stream kind || ended answers
  end.

(** A poll ends at the first answer that is not ready. *)
Fixpoint one_poll (answers : list read_answer) : list read_answer :=
  match answers with
  | [] | RdNotReady :: _ => []
  | a :: answers => a :: one_poll answers
  end.

Definition offered (polls : list (list read_answer)) : list read_answer := polls ≫= one_poll.

(** The executor polls the reader until it is done. *)
Fixpoint run_reader (self : StreamReader) (polls : list (list read_answer)) : run (list InboundServerData * list (StreamKey * Z)) :=
  match polls with
  | [] => Ret ([], [])
  | answers :: polls =>
      '(self, effect, r) ← reader_poll self 0 answers;
      match r with
      | TaskNotReady => '(data, killed) ← run_reader self polls; Ret (e_data effect ++ data, e_killed effect ++ killed)
      | _ => Ret (e_data effect, e_killed effect)
      end
  end.

(** The messages for chunks, numbered from [n]. *)
Definition numbered (k : StreamKey) (peer : SocketAddr) (n : Z) (cs : list (list Z)) : list InboundServerData :=
  imap (λ i data, MkServerData k false (n + Z.of_nat i) peer data) cs.

Definition at_number (self : StreamReader) (n : Z) : StreamReader := MkReader (r_stream_key self) (r_peer_addr self) n.

Lemma numbered_cons k peer n c cs : numbered k peer n (c :: cs) = MkServerData k false n peer c :: numbered k peer (n + 1) cs.
Proof. unfold numbered. cbn. f_equal; [f_equal; lia|]. apply imap_ext. intros i x _. cbn. f_equal. lia. Qed.

Lemma numbered_app k peer n cs cs' : numbered k peer n (cs ++ cs') = numbered k peer n cs ++ numbered k peer (n + Z.of_nat (length cs)) cs'.
Proof.
  revert n; induction cs as [|c cs IH]; intros n; cbn [app length]; [by rewrite Z.add_0_r|].
  rewrite !numbered_cons, IH. cbn [app]. f_equal. f_equal. f_equal. lia.
Qed.

Lemma next_number n : n + 1 < 2 ^ 64 → SequenceBuffer.next_sequence_number n = Ret (n, n + 1).
Proof. intros Hn. unfold SequenceBuffer.next_sequence_number, panic_if. by destruct (Z.leb_spec (2 ^ 64) (n + 1)); [lia|]. Qed.

(** One poll of the reader. *)
Lemma reader_poll_spec answers : ∀ self, sequencer self + Z.of_nat (length answers) + 1 < 2 ^ 64 →
  ∃ r, let cs := chunks (one_poll answers) in let n := sequencer self + Z.of_nat (length cs) in
    reader_poll self 0 answers =
      Ret (at_number self (n + Z.b2z (ended (one_poll answers))),
           MkEffect 0 (numbered (r_stream_key self) (r_peer_addr self) (sequencer self) cs)
             (if ended (one_poll answers) then [(r_stream_key self, n)] else []), r) ∧
    (ended (one_poll answers) = false ↔ r = TaskNotReady) ∧
    (length cs ≤ length answers)%nat.
Proof.
  induction answers as [|a answers IH]; intros [k peer n] Hn; cbn [sequencer length] in *.
  - exists TaskNotReady. cbn. by rewrite !Z.add_0_r.
  - destruct a as [|[|b data]|kind].
    + exists TaskNotReady. cbn. rewrite !Z.add_0_r. split; [done|]. split; [done|lia].
    + exists TaskReady. cbn [reader_poll]. unfold reader_shutdown. cbn [sequencer r_stream_key r_peer_addr]. rewrite next_number by lia.
      cbn. rewrite !Z.add_0_r. split; [done|]. split; [done|lia].
    + cbn [reader_poll]. unfold send_inbound_server_data. cbn [sequencer r_stream_key r_peer_addr]. rewrite next_number by lia. cbn [mbind run_bind].
      destruct (IH (MkReader k peer (n + 1))) as (r & Heq & Hr & Hlen); [cbn; lia|]. cbn [sequencer r_stream_key r_peer_addr] in Heq.
      exists r. rewrite Heq. cbn [mbind run_bind one_poll chunks ended length e_signals e_data e_killed]. rewrite numbered_cons.
      unfold at_number. cbn [r_stream_key r_peer_addr].
      replace (n + Z.of_nat (S (length (chunks (one_poll answers))))) with (n + 1 + Z.of_nat (length (chunks (one_poll answers)))) by lia.
      split; [done|]. split; [done|lia].
    + cbn [reader_poll one_poll chunks ended]. destruct (indicates_dead_stream kind).
      * exists TaskErr. unfold reader_shutdown. cbn [sequencer r_stream_key r_peer_addr]. rewrite next_number by lia. cbn. rewrite !Z.add_0_r.
        split; [done|]. split; [done|lia].
      * destruct (IH (MkReader k peer n)) as (r & Heq & Hr & Hlen); [cbn; lia|]. exists r. rewrite Heq. cbn [orb]. split; [done|]. split; [done|]. cbn. lia.
Qed.

Lemma chunks_app l l' : ended l = false → chunks (l ++ l') = chunks l ++ chunks l'.
Proof.
  induction l as [|[|[|b data]|kind] l IH]; intros He; cbn in *; try done; [by apply IH|by rewrite IH|].
  destruct (indicates_dead_stream kind); [done|]. by apply IH.
Qed.

Lemma chunks_ended l l' : ended l = true → chunks (l ++ l') = chunks l.
Proof.
  induction l as [|[|[|b data]|kind] l IH]; intros He; cbn in *; try done; [by apply IH|by rewrite IH|].
  destruct (indicates_dead_stream kind); [done|]. by apply IH.
Qed.

Lemma ended_app l l' : ended (l ++ l') = ended l || ended l'.
Proof.
  induction l as [|[|[|b data]|kind] l IH]; cbn; try done. destruct (indicates_dead_stream kind); [done|]. exact IH.
Qed.

(** The whole life of a reader. *)
Lemma run_reader_spec polls : ∀ self, sequencer self + Z.of_nat (length (concat polls)) + 1 < 2 ^ 64 →
  let cs := chunks (offered polls) in
  run_reader self polls =
    Ret (numbered (r_stream_key self) (r_peer_addr self) (sequencer self) cs,
         if ended (offered polls) then [(r_stream_key self, sequencer self + Z.of_nat (length cs))] else []).
Proof.
  induction polls as [|answers polls IH]; intros self Hn; [done|]. cbn [run_reader concat] in *. rewrite length_app in Hn.
  destruct (reader_poll_spec answers self) as (r & Heq & Hr & Hlen); [lia|]. cbn zeta in *. rewrite Heq. cbn [mbind run_bind e_data e_killed].
  unfold offered. cbn [mbind list_bind]. fold (offered polls). change (polls ≫= one_poll) with (offered polls). rewrite ended_app.
  destruct (ended (one_poll answers)) eqn:Ee; cbn [orb].
  - rewrite (chunks_ended _ _ Ee). destruct r; [done| |done]. by pose proof (proj2 Hr eq_refl).
  - rewrite (chunks_app _ _ Ee). rewrite (proj1 Hr eq_refl). cbn [Z.b2z]. rewrite Z.add_0_r.
    rewrite (IH (at_number self _)) by (cbn [at_number sequencer]; lia). cbn [mbind run_bind at_number sequencer r_stream_key r_peer_addr].
    rewrite numbered_app, length_app. by rewrite Nat2Z.inj_add, Z.add_assoc.
Qed.

(** ** From the server to the client *)

(** The packets that the messages of a reader become: the data, and the end that the
    pool reports for a stream that was killed. *)
Definition packet_of (m : InboundServerData) : SequenceBuffer.SequencedPacket :=
  SequenceBuffer.MkPacket (sd_data m) (sd_sequence_number m) (sd_last_data m).

Definition stream_packets (data : list InboundServerData) (killed : list (StreamKey * Z)) : list SequenceBuffer.SequencedPacket :=
  (packet_of <$> data) ++ ((λ '(_, n), SequenceBuffer.MkPacket [] n true) <$> killed).

Definition rx_packets (ss : list script) : list SequenceBuffer.SequencedPacket :=
  ss ≫= λ s, omap (λ a, match a with RxPacket p => Some p | _ => None end) (rx s).

Definition no_rx_error (ss : list script) : bool :=
  forallb (λ s, forallb (λ a, match a with RxErr => false | _ => true end) (rx s)) ss.

(** The packets of chunks [cs]. *)
Definition is_packet (cs : list (list Z)) (closed : bool) (p : SequenceBuffer.SequencedPacket) : Prop :=
  (∃ i c, cs !! i = Some c ∧ p = SequenceBuffer.MkPacket c (Z.of_nat i) false) ∨
  (closed = true ∧ p = SequenceBuffer.MkPacket [] (Z.of_nat (length cs)) true).

Lemma stream_packets_spec k peer cs (closed : bool) p :
  p ∈ stream_packets (numbered k peer 0 cs) (if closed then [(k, Z.of_nat (length cs))] else []) ↔ is_packet cs closed p.
Proof.
  unfold stream_packets, is_packet, numbered. rewrite elem_of_app, !list_elem_of_fmap. split.
  - intros [(m & -> & Hm)|((k' & n) & -> & Hm)].
    + left. apply elem_of_lookup_imap_1 in Hm as (i & c & -> & Hc). exists i, c. by split.
    + right. destruct closed; [|by apply elem_of_nil in Hm]. apply list_elem_of_singleton in Hm. by injection Hm as -> ->.
  - intros [(i & c & Hc & ->)|[-> ->]].
    + left. exists (MkServerData k false (0 + Z.of_nat i) peer c). split; [done|].
      exact (elem_of_lookup_imap_2 (λ i data, MkServerData k false (0 + Z.of_nat i) peer data) cs c i Hc).
    + right. exists (k, Z.of_nat (length cs)). split; [done|]. by apply list_elem_of_singleton.
Qed.

(** In order, packets of chunks are the bytes of the chunks. *)
Lemma in_order_chunks cs closed ps n : (∀ p, p ∈ ps → is_packet cs closed p) → Writers.all_arrived ps n →
  Writers.in_order ps n = concat (take n cs) ∧ (n ≤ S (length cs))%nat.
Proof.
  intros Hps. induction n as [|n IH]; intros Harr; [by rewrite take_0; split; [|lia]|].
  destruct IH as [IH Hn]; [intros i ?; apply Harr; lia|]. destruct (Harr n ltac:(lia)) as [p Hp].
  destruct (Writers.first_with_number _ _ _ Hp) as [Hnum Hin]. rewrite (Writers.in_order_S ps n p Hp), IH.
  destruct (Hps p Hin) as [(i & c & Hc & ->)|[_ ->]]; cbn [SequenceBuffer.sequence_number SequenceBuffer.data] in *; apply Nat2Z.inj in Hnum; subst n.
  - rewrite (take_S_r _ _ _ Hc), concat_app. cbn. rewrite app_nil_r. split; [done|]. apply lookup_lt_Some in Hc. lia.
  - rewrite app_nil_r, !take_ge by lia. by split; [|lia].
Qed.

Section received.
Context {B : Type} `{!SequenceBuffer.PacketBuffer B}.

Lemma write_received answers : ∀ (b : B) w sh st w' r, Writers.write_from_buffer_to_stream b w answers sh = Ret (st, w', r) → received w' = received w.
Proof.
  induction answers as [|a answers IH]; intros b w sh st w' r Hw; cbn [Writers.write_from_buffer_to_stream] in Hw;
    (destruct (SequenceBuffer.pb_poll b) as [[b1 [p|]]|]; cbn [mbind run_bind] in Hw; [|by injection Hw as <- <- <-|done]).
  - destruct (SequenceBuffer.pb_repush b1 p); [|done]. by injection Hw as <- <- <-.
  - destruct a as [kind| |n].
    + destruct (indicates_dead_stream kind); [by injection Hw as <- <- <-|]. destruct (SequenceBuffer.pb_repush b1 p); [|done]. exact (IH _ _ _ _ _ _ Hw).
    + destruct (SequenceBuffer.pb_repush b1 p); [|done]. by injection Hw as <- <- <-.
    + destruct (negb _); [destruct (SequenceBuffer.pb_repush b1 _); [|done]; exact (IH _ _ _ _ _ _ Hw)|].
      destruct (SequenceBuffer.last_data p); [by injection Hw as <- <- <-|exact (IH _ _ _ _ _ _ Hw)].
Qed.

Lemma read_received answers : ∀ (b : B) w b' w' r, Writers.read_data_from_channel b w answers = Ret (b', w', r) →
  ∀ p, p ∈ received w' → p ∈ received w ∨ p ∈ omap (λ a, match a with RxPacket p => Some p | _ => None end) answers.
Proof.
  induction answers as [|[q| | |] answers IH]; intros b w b' w' r Hr p Hp; cbn [Writers.read_data_from_channel] in Hr; try (injection Hr as <- <- <-; by left); try done.
  apply (IH _ _ _ _ _ Hr) in Hp as [Hp|Hp]; [|right; by apply elem_of_cons; right].
  cbn [received] in Hp. apply elem_of_app in Hp as [Hp|Hp%list_elem_of_singleton]; [by left|]. right. apply elem_of_cons. by left.
Qed.

Lemma run_received ss : ∀ (st : Writers.StreamWriterSorted B) w st' w' r, Writers.run_sorted st w ss = Ret (st', w', r) →
  ∀ p, p ∈ received w' → p ∈ received w ∨ p ∈ rx_packets ss.
Proof.
  induction ss as [|s ss IH]; intros st w st' w' r Hr p Hp; cbn [Writers.run_sorted] in Hr; [injection Hr as <- <- <-; by left|].
  unfold rx_packets. cbn [mbind list_bind]. rewrite elem_of_app.
  assert (∀ st1 w1 r1, Writers.poll_sorted st w s = Ret (st1, w1, r1) → ∀ p, p ∈ received w1 → p ∈ received w ∨ p ∈ omap (λ a, match a with RxPacket p => Some p | _ => None end) (rx s)) as Hpoll.
  { intros st1 w1 r1 H1 q Hq. unfold Writers.poll_sorted in H1. destruct (Writers.shutting_down st); [injection H1 as <- <- <-; by left|].
    destruct (Writers.read_data_from_channel (Writers.sequence_buffer st) w (rx s)) as [[[b2 w2] r2]|] eqn:E2; [|done]. cbn [mbind run_bind] in H1.
    destruct (Writers.write_from_buffer_to_stream b2 w2 (writes s) (shutdowns s)) as [[[st3 w3] r3]|] eqn:E3; [|done]. injection H1 as <- <- <-.
    rewrite (write_received _ _ _ _ _ _ _ E3) in Hq. exact (read_received _ _ _ _ _ _ E2 q Hq). }
  destruct (Writers.poll_sorted st w s) as [[[st1 w1] r1]|]; [|done]. cbn [mbind run_bind] in Hr. specialize (Hpoll st1 w1 r1 eq_refl).
  destruct r1; [injection Hr as <- <- <-; destruct (Hpoll p Hp); by auto| |injection Hr as <- <- <-; destruct (Hpoll p Hp); by auto].
  destruct (IH _ _ _ _ _ Hr p Hp) as [H1|H1]; [destruct (Hpoll p H1)|]; by auto.
Qed.
End received.

Lemma offered_length polls : (length (offered polls) ≤ length (concat polls))%nat.
Proof.
  induction polls as [|l polls IH]; [done|]. unfold offered in *. cbn. rewrite !length_app. assert (length (one_poll l) ≤ length l)%nat; [|lia].
  clear. induction l as [|[] l IH]; cbn; lia.
Qed.

Lemma chunks_length polls : (length (chunks (offered polls)) ≤ length (concat polls))%nat.
Proof.
  etrans; [|apply (offered_length polls)]. generalize (offered polls). intros l.
  induction l as [|[|[|b data]|kind] l IH]; cbn; try lia. destruct (indicates_dead_stream kind); cbn; lia.
Qed.

(** The numbers of the packets of a stream are small enough for the channel. *)
Lemma channel_ok_packets cs closed ss : (∀ p, p ∈ rx_packets ss → is_packet cs closed p) → no_rx_error ss = true →
  Z.of_nat (length cs) + 1 < 2 ^ 64 → Writers.channel_ok ss = true.
Proof.
  intros Hss Hrx Hlen. unfold Writers.channel_ok. rewrite forallb_forall. intros s Hs. rewrite forallb_forall. intros a Ha.
  unfold no_rx_error in Hrx. rewrite forallb_forall in Hrx. specialize (Hrx s Hs). rewrite forallb_forall in Hrx. specialize (Hrx a Ha).
  destruct a as [p| | |]; try done. apply Z.ltb_lt.
  destruct (Hss p) as [(i & c & Hc & ->)|[_ ->]]; cbn [SequenceBuffer.sequence_number]; [|apply lookup_lt_Some in Hc; lia|lia].
  unfold rx_packets. apply list_elem_of_bind. exists s. split; [|by apply list_elem_of_In]. apply list_elem_of_omap. exists (RxPacket p).
  split; [by apply list_elem_of_In|done].
Qed.


(** Two chunks and the end, with a transient error; the packets come in reverse. *)
Definition demo_polls : list (list read_answer) := [[RdReady [1; 2]; RdErr (OtherKind 3)]; [RdNotReady]; [RdReady [3]; RdReady []]].
Definition demo_scripts : list script :=
  [MkScript [RxPacket (SequenceBuffer.MkPacket [] 2 true); RxPacket (SequenceBuffer.MkPacket [3] 1 false)] [] [];
   MkScript [RxPacket (SequenceBuffer.MkPacket [1; 2] 0 false)] [WrReady 1; WrReady 1; WrReady 1; WrReady 0] [ShReady]].


Example demo_stream_whole :
  match Writers.run_sorted (B := SequenceBuffer.SequenceBuffer) Writers.sorted_new (MkWorld [] []) demo_scripts with
  | Ret (st, w, r) => wire w = [1; 2; 3] ∧ Writers.shutting_down st = true
  | Panic => False
  end.
Proof. split; reflexivity. Qed.
End ExitStreams.
