(* ===== verification/ExitLife.v ===== *)
(** * The life of an exit

    Histories of the exit of [ProxyClient.v]: requests, the proxy client's own
    messages, spawned futures and the polls of readers and writers, in any order.
    An [Act] is something done for a client; a history is judged by its acts. *)
From Stdlib Require Import String.
From S2P Require Import Prelude.
From S2P Require Import CountryBlockStream SequenceBuffer StreamWriters Cryptde Route VersionedData Hopper Accountant ProtocolPacks ProxyServer ProxyRequests ProxyClient ExitStreams.
From stdpp Require Import base list gmap.

Module ExitLife.
Import Writers(world, MkWorld, received, wire, task_poll(..), script, MkScript, rx, rx_answer(..)).
Import Cryptde ProtocolPacks ProxyClient ExitStreams.
Local Open Scope Z_scope.

Local Arguments Hopper.ex_payload {Wallet T} _.
Local Arguments Hopper.remaining_route {Wallet T} _.
Local Arguments Hopper.ex_paying_wallet {Wallet T} _.

Abbreviation RequestPackage := (Hopper.ExpiredCoresPackage (Wallet := Z) ClientRequestPayload) (only parsing).

(** ** What is done for clients *)

Inductive Act :=
| Written (wallet : option Z) (packet : SequenceBuffer.SequencedPacket)
| Answered (context : StreamContext) (m : InboundServerData)
| Unresolved (context : StreamContext) (k : StreamKey).

(** Wallet, bytes and the two rates. *)
Definition charge : Type := Z * Z * Z * Z.

Definition written (acts : list Act) : list SequenceBuffer.SequencedPacket :=
  omap (λ a, match a with Written _ packet => Some packet | _ => None end) acts.

Definition answers (acts : list Act) : list Act :=
  List.filter (λ a, match a with Written _ _ => false | _ => true end) acts.

Definition packages (sent : list Sent) : list Hopper.IncipientCoresPackage :=
  omap (λ m, match m with ToHopper p => Some p | _ => None end) sent.

Definition charges_sent (sent : list Sent) : list charge :=
  omap (λ m, match m with
             | ToAccountant r => Some (Accountant.paying_wallet r, Accountant.payload_size r, Accountant.service_rate r, Accountant.byte_rate r)
             | _ => None
             end) sent.

Definition context_of (msg : RequestPackage) : StreamContext :=
  MkContext (Hopper.remaining_route msg) (originator_public_key (Hopper.ex_payload msg)) (Hopper.ex_paying_wallet msg).

(** Packets a stream to a server has taken over. *)
Definition accepted (c : Connection) : list SequenceBuffer.SequencedPacket := received (c_socket c) ++ c_queue c.

(** Whose stream a connection is, and to whom it goes. *)
Definition identity (c : Connection) : StreamKey * SocketAddr := (c_stream_key c, c_peer_addr c).

Definition reads (es : list Event) : nat :=
  sum_list_with (λ e, match e with PollReader _ answers => length answers | _ => 0%nat end) es.

Section exit.
Context `{!Codec Hopper.MessageType, !CodecOk Hopper.MessageType, !Codec ProxyServer.ClientResponsePayload, !CodecOk ProxyServer.ClientResponsePayload}.
Context `{!Codec StreamKey, !CodecOk StreamKey}.
Context (response_migrations dns_failure_migrations : Versioned.Migrations).
Context (c : CryptDE) (service_rate byte_rate : Z) (decentralized : bool).

Definition charge_for (wallet_opt : option Z) (size : nat) : list charge :=
  match wallet_opt with Some w => [(w, Z.of_nat size, service_rate, byte_rate)] | None => [] end.

(** Requests are charged when they have data, answers always. *)
Definition charge_written (wallet_opt : option Z) (size : nat) : list charge :=
  if (0 <? size)%nat then charge_for wallet_opt size else [].

Definition charges_of (a : Act) : list charge :=
  match a with
  | Written wallet packet => charge_written wallet (length (SequenceBuffer.data packet))
  | Answered context m => charge_for (paying_wallet context) (length (sd_data m))
  | Unresolved _ _ => []
  end.

Definition charge_pending (f : Spawned) : list charge :=
  match f with Tend _ _ size wallet => charge_written wallet size | _ => [] end.

(** The package that carries an answer. *)
Definition answer_package (a : Act) (pkg : Hopper.IncipientCoresPackage) : Prop :=
  match a with
  | Written _ _ => False
  | Answered context m =>
      ∃ vd, Versioned.vd_new response_migrations (ProxyServer.MkClientResponse (sd_stream_key m) (packet_of m)) = Ret vd ∧
        Hopper.incipient_new c (return_route context) (Hopper.ClientResponse vd) (payload_destination_key context) = Ok pkg
  | Unresolved context k =>
      ∃ vd, Versioned.vd_new dns_failure_migrations k = Ret vd ∧
        Hopper.incipient_new c (return_route context) (Hopper.DnsResolveFailed vd) (payload_destination_key context) = Ok pkg
  end.

(** A request that came in and is entitled to service. *)
Definition requested (es : list Event) (msg : RequestPackage) : Prop :=
  Request msg ∈ es ∧ (is_Some (Hopper.ex_paying_wallet msg) ∨ decentralized = false).

(** Data for a stream comes from a server that was connected to for that stream. *)
Definition from_server (ids : list (StreamKey * SocketAddr)) (m : InboundServerData) : Prop :=
  sd_data m ≠ [] → (sd_stream_key m, sd_source m) ∈ ids.

Definition justified (es : list Event) (ids : list (StreamKey * SocketAddr)) (a : Act) : Prop :=
  match a with
  | Written wallet packet => ∃ msg, requested es msg ∧ Hopper.ex_paying_wallet msg = wallet ∧ sequenced_packet (Hopper.ex_payload msg) = packet
  | Answered context m =>
      (∃ msg, requested es msg ∧ stream_key (Hopper.ex_payload msg) = sd_stream_key m ∧ context = context_of msg) ∧ from_server ids m
  | Unresolved context k => ∃ msg, requested es msg ∧ stream_key (Hopper.ex_payload msg) = k ∧ context = context_of msg
  end.

(** Everything can be encrypted with the key of a request, and its packet has an
    ordinary number; sockets have peers. *)
Definition event_ok (e : Event) : Prop :=
  match e with
  | Request msg =>
      (∀ m : Hopper.MessageType, ∃ data, encodex c (originator_public_key (Hopper.ex_payload msg)) m = Ok data) ∧
      SequenceBuffer.sequence_number (sequenced_packet (Hopper.ex_payload msg)) + 1 < 2 ^ 64
  | PollSpawned _ _ net => ∀ a, tcp_connect net a ≠ Ok None
  | _ => True
  end.

(** ** The invariant *)

Definition context_ok (es : list Event) (k : StreamKey) (context : StreamContext) : Prop :=
  ∃ msg, requested es msg ∧ event_ok (Request msg) ∧ stream_key (Hopper.ex_payload msg) = k ∧ context = context_of msg.

Definition future_ok (es : list Event) (f : Spawned) : Prop :=
  match f with
  | Connect payload wallet _ | LookUp payload wallet _ =>
      ∃ msg, requested es msg ∧ event_ok (Request msg) ∧ Hopper.ex_payload msg = payload ∧ Hopper.ex_paying_wallet msg = wallet
  | _ => True
  end.

Definition connection_ok (es : list Event) (con : Connection) : Prop :=
  (∃ msg, requested es msg ∧ stream_key (Hopper.ex_payload msg) = c_stream_key con) ∧
  (∀ r, c_reader con = Some r →
    r_stream_key r = c_stream_key con ∧ r_peer_addr r = c_peer_addr con ∧ 0 ≤ sequencer r ≤ Z.of_nat (reads es)) ∧
  (∀ wr, c_writer con = Some wr → Writers.live (to_sorted wr) (c_socket con)) ∧
  Writers.numbers_ok (accepted con) = true ∧
  Writers.wire_prefix (c_socket con).

Record pool_ok (es : list Event) (acts : list Act) (p : StreamHandlerPool) : Prop := {
  pool_futures : Forall (future_ok es) (spawned p);
  pool_connections : Forall (connection_ok es) (connections p);
  pool_accepted : written acts ≡ₚ connections p ≫= accepted;
  pool_rates : p_exit_service_rate p = service_rate ∧ p_exit_byte_rate p = byte_rate
}.

Definition mail_ok (ids : list (StreamKey * SocketAddr)) (m : SelfMessage) : Prop :=
  match m with ServerData m => from_server ids m | DnsFailure _ => True end.

Record exit_ok (es : list Event) (acts : list Act) (x : Exit) : Prop := {
  exit_pool : pool_ok es acts (pool (client x));
  exit_contexts : ∀ k context, stream_contexts (client x) !! k = Some context → context_ok es k context;
  exit_mail : Forall (mail_ok (identity <$> connections (pool (client x)))) (mailbox x);
  exit_client : bound (client x) = true ∧ cryptde (client x) = c ∧ is_decentralized (client x) = decentralized ∧ crashable (client x) = false ∧
    exit_service_rate (client x) = service_rate ∧ exit_byte_rate (client x) = byte_rate
}.

(** *** More events *)

Lemma requested_mono es es' msg : requested es msg → requested (es ++ es') msg.
Proof using. intros [Hin Hw]. split; [apply elem_of_app; by left|done]. Qed.

Lemma reads_app es es' : reads (es ++ es') = (reads es + reads es')%nat.
Proof using. unfold reads. induction es; cbn; lia. Qed.

Lemma future_ok_mono es es' f : future_ok es f → future_ok (es ++ es') f.
Proof using. destruct f; cbn; try done; intros (msg & Hr & H); exists msg; by split; [apply requested_mono|]. Qed.

Lemma connection_ok_mono es es' con : connection_ok es con → connection_ok (es ++ es') con.
Proof using.
  intros ((msg & Hr & Hk) & Hreader & Hrest). split; [exists msg; by split; [apply requested_mono|]|]. split; [|done].
  intros r Hs. destruct (Hreader r Hs) as (? & ? & ?). rewrite reads_app. split_and!; try done; lia.
Qed.

Lemma context_ok_mono es es' k context : context_ok es k context → context_ok (es ++ es') k context.
Proof using. intros (msg & Hr & H). exists msg. by split; [apply requested_mono|]. Qed.

Lemma pool_ok_mono es es' acts p : pool_ok es acts p → pool_ok (es ++ es') acts p.
Proof using.
  intros [Hf Hc Ha Hr]. split; [|by eapply Forall_impl; [exact Hc|]; intros; apply connection_ok_mono|done..].
  eapply Forall_impl; [exact Hf|]. intros. by apply future_ok_mono.
Qed.

Lemma from_server_mono ids ids' m : ids `prefix_of` ids' → from_server ids m → from_server ids' m.
Proof using. intros [l ->] Hm Hd. apply elem_of_app. left. by apply Hm. Qed.

Lemma mail_ok_mono ids ids' m : ids `prefix_of` ids' → mail_ok ids m → mail_ok ids' m.
Proof using. destruct m; cbn; [apply from_server_mono|done]. Qed.

Lemma justified_mono es es' ids ids' a : ids `prefix_of` ids' → justified es ids a → justified (es ++ es') ids' a.
Proof using.
  intros Hids. destruct a; cbn.
  - intros (msg & Hr & H). exists msg. by split; [apply requested_mono|].
  - intros [(msg & Hr & H) Hs]. split; [exists msg; by split; [apply requested_mono|]|by eapply from_server_mono].
  - intros (msg & Hr & H). exists msg. by split; [apply requested_mono|].
Qed.

Lemma answers_app l l' : answers (l ++ l') = answers l ++ answers l'.
Proof using. apply List.filter_app. Qed.

Lemma written_app l l' : written (l ++ l') = written l ++ written l'.
Proof using. apply omap_app. Qed.

Lemma packages_app l l' : packages (l ++ l') = packages l ++ packages l'.
Proof using. apply omap_app. Qed.

Lemma charges_sent_app l l' : charges_sent (l ++ l') = charges_sent l ++ charges_sent l'.
Proof using. apply omap_app. Qed.

(** ** What the pool does *)

(** From one state of the pool to another, with what was done and sent. *)
Record pool_does (es : list Event) (acts : list Act) (p : StreamHandlerPool) (acts' : list Act) (sent : list Sent) (p' : StreamHandlerPool) : Prop := {
  does_ok : pool_ok es (acts ++ acts') p';
  does_charges : charges_sent sent ++ (spawned p' ≫= charge_pending) ≡ₚ (acts' ≫= charges_of) ++ (spawned p ≫= charge_pending);
  does_ids : (identity <$> connections p) `prefix_of` (identity <$> connections p');
  does_packages : answers acts' = [] ∧ packages sent = [];
  does_justified : ∀ ids, Forall (justified es ids) acts';
  does_mail : Forall (mail_ok (identity <$> connections p')) (omap to_self sent)
}.

Lemma does_trans es acts p acts1 sent1 p1 acts2 sent2 p2 :
  pool_does es acts p acts1 sent1 p1 → pool_does es (acts ++ acts1) p1 acts2 sent2 p2 →
  pool_does es acts p (acts1 ++ acts2) (sent1 ++ sent2) p2.
Proof using.
  intros [Hok1 Hch1 Hid1 [Ha1 Hp1] Hj1 Hm1] [Hok2 Hch2 Hid2 [Ha2 Hp2] Hj2 Hm2]. split.
  - by rewrite app_assoc.
  - rewrite charges_sent_app, bind_app, <- (app_assoc (charges_sent sent1)), Hch2. rewrite (Permutation_app_comm (acts2 ≫= charges_of)), app_assoc, Hch1.
    rewrite <- !app_assoc. apply Permutation_app_head, Permutation_app_comm.
  - by etrans.
  - by rewrite answers_app, packages_app, Ha1, Ha2, Hp1, Hp2.
  - intros ids. apply Forall_app. by split.
  - rewrite omap_app. apply Forall_app. split; [|done]. eapply Forall_impl; [exact Hm1|]. intros m. by apply mail_ok_mono.
Qed.

(** *** Only signals *)

Definition static (con : Connection) : StreamKey * SocketAddr * option StreamReader * option StreamWriter * list SequenceBuffer.SequencedPacket * world :=
  (c_stream_key con, c_peer_addr con, c_reader con, c_writer con, c_queue con, c_socket con).

Definition quiet (p p' : StreamHandlerPool) : Prop :=
  static <$> connections p' = static <$> connections p ∧ spawned p' = spawned p ∧
  p_exit_service_rate p' = p_exit_service_rate p ∧ p_exit_byte_rate p' = p_exit_byte_rate p.

Lemma quiet_trans p p1 p2 : quiet p p1 → quiet p1 p2 → quiet p p2.
Proof using. unfold quiet. intros (? & ? & ? & ?) (? & ? & ? & ?). split_and!; congruence. Qed.

Lemma fmap_transfer {A B} (f : A → B) (P : A → Prop) l l' :
  (∀ a b, f a = f b → P a → P b) → f <$> l' = f <$> l → Forall P l → Forall P l'.
Proof using.
  intros Hf. revert l'. induction l as [|a l IH]; intros [|b l'] Heq Hl; try done.
  injection Heq as Hb Hl'. apply Forall_cons in Hl as [Ha Hl]. constructor; [by eapply Hf|by apply IH].
Qed.

Lemma static_ok es a b : static a = static b → connection_ok es a → connection_ok es b.
Proof using. destruct a, b. unfold static. cbn. intros [= -> -> -> -> -> ->]. done. Qed.

Lemma static_accepted (l l' : list Connection) : static <$> l' = static <$> l → l' ≫= accepted = l ≫= accepted.
Proof using.
  revert l'. induction l as [|a l IH]; intros [|b l'] Heq; try done. injection Heq as Hk Hp Hr Hw Hq Hs Hl. cbn. rewrite (IH l' Hl). f_equal.
  unfold accepted. congruence.
Qed.

Lemma static_identity (l l' : list Connection) : static <$> l' = static <$> l → identity <$> l' = identity <$> l.
Proof using.
  revert l'. induction l as [|a l IH]; intros [|b l'] Heq; try done. injection Heq as Hk Hp Hr Hw Hq Hs Hl. cbn. rewrite (IH l' Hl). f_equal.
  unfold identity. congruence.
Qed.

(** Messages without data are for any stream. *)
Definition plain_message (m : Sent) : Prop :=
  match m with ToSelfServerData m => sd_data m = [] | ToSelfDnsFailure _ => True | _ => False end.

Lemma quiet_does es acts p p' sent : pool_ok es acts p → quiet p p' → Forall plain_message sent → pool_does es acts p [] sent p'.
Proof using.
  intros [Hf Hc Ha [Hr1 Hr2]] (Hst & Hsp & Hq1 & Hq2) Hs.
  assert (charges_sent sent = [] ∧ packages sent = [] ∧ ∀ ids, Forall (mail_ok ids) (omap to_self sent)) as (Hch & Hpk & Hm).
  { induction Hs as [|m sent Hm _ (H1 & H2 & H3)]; [done|]. destruct m; try done; cbn in *; (split; [exact H1|]; split; [exact H2|]);
      intros ids; (constructor; [|apply H3]); [|done]. intros Hd. by rewrite Hm in Hd. }
  split; [split| | | | |]; rewrite ?Hsp, ?app_nil_r; try done.
  - eapply fmap_transfer; [apply static_ok|exact Hst|done].
  - by rewrite (static_accepted _ _ Hst).
  - by rewrite Hq1, Hq2.
  - by rewrite Hch.
  - by rewrite (static_identity _ _ Hst).
Qed.

Lemma signal_quiet p senders : quiet p (send_shutdown_signal_to_stream_reader p senders).
Proof using.
  split; [|done]. cbn [send_shutdown_signal_to_stream_reader set_connections connections]. generalize (connection senders). intros i.
  revert i. induction (connections p) as [|con l IH]; intros [|i]; try done; cbn.
  - destruct (c_reader con) eqn:E; [|done]. unfold static. cbn. by rewrite E.
  - f_equal. apply IH.
Qed.

Lemma remove_quiet p k senders : quiet p (send_shutdown_signal_to_stream_reader (set_channels p (delete k (stream_writer_channels p))) senders).
Proof using. eapply quiet_trans; [|apply signal_quiet]. done. Qed.

Lemma clean_up_quiet p k source : quiet p (clean_up_bad_stream p k source).1 ∧ Forall plain_message (clean_up_bad_stream p k source).2.
Proof using.
  unfold clean_up_bad_stream. split; [|by repeat constructor]. cbn [fst].
  destruct (stream_writer_channels p !! k); [apply remove_quiet|done].
Qed.

Lemma kill_quiet killed : ∀ p, quiet p (kill_streams p killed).1 ∧ Forall plain_message (kill_streams p killed).2.
Proof using.
  induction killed as [|[k n] killed IH]; intros p; [by split|]. cbn [kill_streams].
  destruct (stream_writer_channels p !! k) as [senders|]; [|apply IH].
  destruct (IH (send_shutdown_signal_to_stream_reader (set_channels p (delete k (stream_writer_channels p))) senders)) as [Hq Hs].
  destruct (kill_streams _ killed) as [p' sent]. cbn [fst snd] in *. split; [|by constructor].
  eapply quiet_trans; [apply remove_quiet|done].
Qed.

Lemma housekeeping_quiet p : quiet p (do_housekeeping p).1 ∧ Forall plain_message (do_housekeeping p).2.
Proof using.
  unfold do_housekeeping, clean_up_dead_streams. destruct (kill_quiet (stream_killer p) (set_killer p [])) as [Hq Hs].
  destruct (kill_streams _ _) as [p' sent]. cbn [fst snd] in *. split; [|done]. eapply quiet_trans; [exact Hq|]. done.
Qed.

(** *** Changes of one connection *)

Lemma accepted_update (l : list Connection) i con con' extra : l !! i = Some con → accepted con' ≡ₚ accepted con ++ extra →
  <[i := con']> l ≫= accepted ≡ₚ (l ≫= accepted) ++ extra.
Proof using.
  intros Hi Ha. rewrite insert_take_drop by by eapply lookup_lt_Some. rewrite <- (take_drop_middle l i con Hi) at 3. rewrite !bind_app. cbn [mbind list_bind].
  change (list_bind Connection _ accepted (drop (S i) l)) with (drop (S i) l ≫= accepted). rewrite Ha, <- !app_assoc. apply Permutation_app_head, Permutation_app_head, Permutation_app_comm.
Qed.

Lemma identity_update (l : list Connection) i con con' : l !! i = Some con → identity con' = identity con → identity <$> <[i := con']> l = identity <$> l.
Proof using. intros Hi He. rewrite list_fmap_insert, He. apply list_insert_id. by rewrite list_lookup_fmap, Hi. Qed.

Lemma alter_insert {A} (f : A → A) (l : list A) i a : l !! i = Some a → alter f i l = <[i := f a]> l.
Proof using. revert i; induction l as [|b l IH]; intros [|i] Hi; cbn in *; try done; [by injection Hi as ->|]. f_equal. by apply IH. Qed.

Lemma numbers_ok_app l l' : Writers.numbers_ok (l ++ l') = Writers.numbers_ok l && Writers.numbers_ok l'.
Proof using. apply forallb_app. Qed.

(** The packet of a request is taken over by a connection, or not. *)
Lemma perform_write_does es acts p msg i : pool_ok es acts p → requested es msg → event_ok (Request msg) →
  let packet := sequenced_packet (Hopper.ex_payload msg) in
  let '(p', r) := perform_write p packet i in
  spawned p' = spawned p ∧ (identity <$> connections p') = (identity <$> connections p) ∧ (stream_writer_channels p' = stream_writer_channels p) ∧
  match r with
  | Ok _ => pool_ok es (acts ++ [Written (Hopper.ex_paying_wallet msg) packet]) p'
  | Err _ => pool_ok es acts p'
  end.
Proof using.
  intros [Hf Hc Ha Hr] Hreq [_ Hnum]. cbn zeta. unfold perform_write. destruct (connections p !! i) as [con|] eqn:Hi; [|done]. cbn [mbind option_bind].
  destruct (c_writer con) as [wr|] eqn:Hw; [|done]. rewrite (alter_insert _ _ _ _ Hi). cbn [set_connections spawned connections stream_writer_channels].
  split; [done|]. split; [by apply (identity_update _ _ con)|]. split; [done|].
  split; cbn [set_connections spawned connections p_exit_service_rate p_exit_byte_rate]; [done| | |done].
  - apply Forall_insert; [done|]. rewrite Forall_forall in Hc. destruct (Hc con) as (H1 & H2 & H3 & H4 & H5); [by eapply list_elem_of_lookup_2|].
    split_and!; try done; cbn [c_stream_key c_reader c_peer_addr c_writer c_socket with_writer] in *; try done.
    unfold accepted in *. cbn [with_writer c_socket c_queue]. rewrite app_assoc, numbers_ok_app, H4. cbn. rewrite andb_true_r. apply Z.ltb_lt. exact Hnum.
  - rewrite written_app, (accepted_update _ _ con _ [sequenced_packet (Hopper.ex_payload msg)] Hi); [by apply Permutation_app_tail|].
    unfold accepted. cbn [with_writer c_socket c_queue]. by rewrite app_assoc.
Qed.

Lemma tend_quiet now p k last size wallet :
  quiet p (tend now p k last size wallet).1 ∧ packages (tend now p k last size wallet).2 = [] ∧ omap to_self (tend now p k last size wallet).2 = [] ∧
  charges_sent (tend now p k last size wallet).2 =
    if (0 <? size)%nat then match wallet with Some w => [(w, Z.of_nat size, p_exit_service_rate p, p_exit_byte_rate p)] | None => [] end else [].
Proof using.
  unfold tend. cbn [fst snd]. split.
  - destruct last; [|done]. destruct (stream_writer_channels p !! k); [apply remove_quiet|done].
  - by destruct (0 <? size)%nat, wallet.
Qed.

(** Tending pays what was pending for the future. *)
Lemma tend_does es acts p now k last size wallet : pool_ok es acts p →
  let '(p', sent) := tend now p k last size wallet in
  pool_ok es acts p' ∧ spawned p' = spawned p ∧ (identity <$> connections p') = (identity <$> connections p) ∧
  packages sent = [] ∧ omap to_self sent = [] ∧ charges_sent sent = charge_written wallet size.
Proof using.
  intros Hok. destruct (tend_quiet now p k last size wallet) as (Hq & Hp & Ht & Hc). destruct (tend now p k last size wallet) as [p' sent]. cbn [fst snd] in *.
  destruct (quiet_does es acts p p' [] Hok Hq) as [Hok' _ _ _ _ _]; [constructor|]. rewrite app_nil_r in Hok'.
  destruct Hq as (Hst & Hsp & _ & _). split; [done|]. split; [done|]. split; [by apply static_identity|]. split; [done|]. split; [done|].
  rewrite Hc. unfold charge_written, charge_for. destruct (pool_rates _ _ _ Hok) as [-> ->]. done.
Qed.

Lemma process_package_does es acts p msg : pool_ok es acts p → requested es msg → event_ok (Request msg) →
  ∃ acts', pool_does es acts p acts' [] (process_package p (Hopper.ex_payload msg) (Hopper.ex_paying_wallet msg)).
Proof using.
  intros Hok Hreq Hev. unfold process_package. destruct (stream_writer_channels p !! stream_key (Hopper.ex_payload msg)) as [senders|].
  - pose proof (perform_write_does es acts p msg (connection senders) Hok Hreq Hev) as Hw. cbn zeta in Hw.
    destruct (perform_write p _ (connection senders)) as [p' [[]|[]]]; destruct Hw as (Hsp & Hid & _ & Hok').
    + exists [Written (Hopper.ex_paying_wallet msg) (sequenced_packet (Hopper.ex_payload msg))]. split; cbn [spawn set_spawned spawned connections].
      * destruct Hok' as [Hf Hc Ha Hr]. split; try done. cbn [spawn set_spawned spawned]. apply Forall_app. split; [done|]. by repeat constructor.
      * rewrite Hsp, bind_app. cbn. rewrite !app_nil_r. apply Permutation_app_comm.
      * by rewrite Hid.
      * done.
      * intros ids. constructor; [|constructor]. exists msg. by split.
      * constructor.
    + exists []. split; cbn [spawn set_spawned spawned connections].
      * rewrite app_nil_r. destruct Hok' as [Hf Hc Ha Hr]. split; try done. cbn [spawn set_spawned spawned]. apply Forall_app. split; [done|]. by repeat constructor.
      * rewrite Hsp, bind_app. cbn. by rewrite app_nil_r.
      * by rewrite Hid.
      * done.
      * constructor.
      * constructor.
  - exists []. destruct (SequenceBuffer.data _) as [|b data]; [by apply quiet_does; [done|done|constructor]|].
    assert (future_ok es (make_stream_with_key (Hopper.ex_payload msg) (Hopper.ex_paying_wallet msg)) ∧
      charge_pending (make_stream_with_key (Hopper.ex_payload msg) (Hopper.ex_paying_wallet msg)) = []) as [Hf Hp].
    { unfold make_stream_with_key. destruct (target_hostname _); [|done]. destruct (parse_ip _); (split; [|done]); by exists msg. }
    destruct Hok as [Hfs Hc Ha Hr]. split; cbn [spawn set_spawned spawned connections]; try done.
    + rewrite app_nil_r. split; try done. cbn [spawn set_spawned spawned]. apply Forall_app. split; [done|]. by constructor.
    + rewrite bind_app. cbn. by rewrite Hp, !app_nil_r.
Qed.

(** *** Futures *)

Lemma connect_loop_returns net ips port e : (∀ a, tcp_connect net a ≠ Ok None) → ∃ r, connect_loop net ips port e = Ret r.
Proof using.
  intros Hnet. revert e; induction ips as [|ip ips IH]; intros e; cbn; [by eexists|].
  destruct (tcp_connect net (ip, port)) as [[peer|]|e'] eqn:E; [by eexists|by destruct (Hnet _ E)|apply IH].
Qed.

(** A new stream, if any address answers. *)
Lemma establish_does es acts net p msg ips : pool_ok es acts p → requested es msg → (∀ a, tcp_connect net a ≠ Ok None) →
  ∃ p' made, establish_stream net p (Hopper.ex_payload msg) ips = Ret (p', made) ∧
    pool_ok es acts p' ∧ spawned p' = spawned p ∧ (identity <$> connections p) `prefix_of` (identity <$> connections p').
Proof using.
  intros Hok Hreq Hnet. unfold establish_stream, connect_one.
  destruct (connect_loop_returns net ips (target_port (Hopper.ex_payload msg)) (Writers.OtherKind 0) Hnet) as [[peer|e] ->]; cbn [mbind run_bind].
  2: { eexists _, _. split; [done|]. by split. }
  eexists _, _. split; [done|]. cbn [set_adder set_connections connections spawned]. destruct Hok as [Hf Hc Ha Hr]. split.
  - split; cbn [set_adder set_connections connections spawned p_exit_service_rate p_exit_byte_rate]; try done.
    + apply Forall_app. split; [done|]. constructor; [|constructor]. split_and!; cbn [c_stream_key c_reader c_writer c_socket c_queue].
      * by exists msg.
      * intros r [= <-]. split; [done|]. split; [done|]. cbn. lia.
      * intros wr [= <-]. change (Writers.live (B := SequenceBuffer.SequenceBuffer) Writers.sorted_new (MkWorld [] [])). exists SequenceBuffer.spec_new, 0%nat, []. split; [apply SequenceBuffer.pb_new_ok|apply Writers.progress_new].
      * done.
      * exists 0%nat. split; [|done]. intros i Hi. lia.
    + rewrite bind_app. cbn. by rewrite !app_nil_r.
  - split; [done|]. rewrite fmap_app. by eexists.
Qed.

(** A future that does nothing but clean up. *)
Lemma clean_up_does es acts p k source : pool_ok es acts p →
  pool_does es acts p [] (clean_up_bad_stream p k source).2 (clean_up_bad_stream p k source).1.
Proof using. intros Hok. destruct (clean_up_quiet p k source) as [Hq Hs]. by apply quiet_does. Qed.

Lemma write_to_new_does es acts now p msg made : pool_ok es acts p → requested es msg → event_ok (Request msg) →
  let '(p', sent) := write_to_new_stream now p (Hopper.ex_payload msg) (Hopper.ex_paying_wallet msg) made in
  ∃ acts', pool_does es acts p acts' sent p'.
Proof using.
  intros Hok Hreq Hev. unfold write_to_new_stream. destruct made as [i|e].
  2: { pose proof (clean_up_does es acts p (stream_key (Hopper.ex_payload msg)) error_socket_addr Hok) as Hd. destruct (clean_up_bad_stream _ _ _). by eexists. }
  pose proof (perform_write_does es acts p msg i Hok Hreq Hev) as Hw. cbn zeta in Hw.
  destruct (perform_write p _ i) as [p1 [[]|[]]]; destruct Hw as (Hsp & Hid & _ & Hok1).
  2: { pose proof (clean_up_does es acts p1 (stream_key (Hopper.ex_payload msg)) error_socket_addr Hok1) as Hd. destruct (clean_up_bad_stream _ _ _).
       exists []. destruct Hd as [H1 H2 H3 H4 H5 H6]. split; try done; [by rewrite H2, Hsp|by rewrite <- Hid]. }
  pose proof (tend_does _ _ p1 now (stream_key (Hopper.ex_payload msg)) (SequenceBuffer.last_data (sequenced_packet (Hopper.ex_payload msg)))
    (length (SequenceBuffer.data (sequenced_packet (Hopper.ex_payload msg)))) (Hopper.ex_paying_wallet msg) Hok1) as Ht.
  destruct (tend _ _ _ _ _ _) as [p2 sent]. destruct Ht as (Hok2 & Hsp2 & Hid2 & Hpk & Hts & Hch).
  exists [Written (Hopper.ex_paying_wallet msg) (sequenced_packet (Hopper.ex_payload msg))]. split.
  - done.
  - rewrite Hsp2, Hsp, Hch. cbn. by rewrite app_nil_r.
  - by rewrite Hid2, Hid.
  - done.
  - intros ids. constructor; [|constructor]. exists msg. by split.
  - rewrite Hts. constructor.
Qed.

(** The same state with other pending futures. *)
Lemma does_from es acts p p0 acts' sent p' : spawned p0 = spawned p → (identity <$> connections p) `prefix_of` (identity <$> connections p0) →
  pool_does es acts p0 acts' sent p' → pool_does es acts p acts' sent p'.
Proof using. intros Hsp Hid [H1 H2 H3 H4 H5 H6]. split; try done; [by rewrite H2, Hsp|by etrans]. Qed.

Lemma does_send_first es acts p acts' sent p' m : plain_message m → pool_does es acts p acts' sent p' → pool_does es acts p acts' (m :: sent) p'.
Proof using.
  intros Hm [H1 H2 H3 [H4 H4'] H5 H6]. destruct m; try done; (split; try done); cbn; (constructor; [|done]); [|done].
  cbn in *. intros Hd. by rewrite Hm in Hd.
Qed.

(** What a future does when it is polled, with its charge if it had one. *)
Lemma poll_spawned_does es acts now net p f : pool_ok es acts p → future_ok es f → (∀ a, tcp_connect net a ≠ Ok None) →
  ∃ p' acts' sent, poll_spawned now net p f = Ret (p', sent) ∧ pool_ok es (acts ++ acts') p' ∧
    charges_sent sent ++ (spawned p' ≫= charge_pending) ≡ₚ (acts' ≫= charges_of) ++ charge_pending f ++ (spawned p ≫= charge_pending) ∧
    (identity <$> connections p) `prefix_of` (identity <$> connections p') ∧ answers acts' = [] ∧ packages sent = [] ∧
    (∀ ids, Forall (justified es ids) acts') ∧ Forall (mail_ok (identity <$> connections p')) (omap to_self sent).
Proof using.
  intros Hok Hf Hnet.
  assert (Hplain : ∀ p' acts' sent, charge_pending f = [] → pool_does es acts p acts' sent p' →
    pool_ok es (acts ++ acts') p' ∧ charges_sent sent ++ (spawned p' ≫= charge_pending) ≡ₚ (acts' ≫= charges_of) ++ charge_pending f ++ (spawned p ≫= charge_pending) ∧
    (identity <$> connections p) `prefix_of` (identity <$> connections p') ∧ answers acts' = [] ∧ packages sent = [] ∧
    (∀ ids, Forall (justified es ids) acts') ∧ Forall (mail_ok (identity <$> connections p')) (omap to_self sent))
    by (intros p' acts' sent -> [H1 H2 H3 [H4 H5] H6 H7]; by split_and!).
  assert (Hnew : ∀ msg p1 made, requested es msg → event_ok (Request msg) → pool_ok es acts p1 → spawned p1 = spawned p →
    (identity <$> connections p) `prefix_of` (identity <$> connections p1) →
    ∃ p' sent acts', write_to_new_stream now p1 (Hopper.ex_payload msg) (Hopper.ex_paying_wallet msg) made = (p', sent) ∧ pool_does es acts p acts' sent p').
  { intros msg p1 made Hreq Hev Hok1 Hsp Hid. pose proof (write_to_new_does es acts now p1 msg made Hok1 Hreq Hev) as Hw.
    destruct (write_to_new_stream _ _ _ _ _) as [p' sent]. destruct Hw as [acts' Hd]. eexists _, _, _. split; [done|]. by eapply does_from. }
  destruct f as [k last size wallet|k source|payload wallet ip|payload wallet host|k]; cbn [poll_spawned future_ok] in *.
  - pose proof (tend_does es acts p now k last size wallet Hok) as Ht. destruct (tend _ _ _ _ _ _) as [p' sent].
    destruct Ht as (Hok' & Hsp & Hid & Hpk & Hts & Hch). exists p', [], sent. rewrite app_nil_r. split_and!; try done.
    + by rewrite Hch, Hsp.
    + by rewrite Hid.
    + by rewrite Hts.
  - pose proof (clean_up_does es acts p k source Hok) as Hd. destruct (clean_up_bad_stream _ _ _) as [p' sent]. exists p', [], sent. split; [done|]. by apply Hplain.
  - destruct Hf as (msg & Hreq & Hev & <- & <-). destruct (establish_does es acts net p msg [ip] Hok Hreq Hnet) as (p1 & made & -> & Hok1 & Hsp & Hid).
    cbn [mbind run_bind]. destruct (Hnew msg p1 made Hreq Hev Hok1 Hsp Hid) as (p' & sent & acts' & -> & Hd). exists p', acts', sent. split; [done|]. by apply Hplain.
  - destruct Hf as (msg & Hreq & Hev & <- & <-).
    assert (∃ p1 made, handle_lookup_ip net p (Hopper.ex_payload msg) (lookup_ip net (make_fqdn host)) = Ret (p1, made) ∧
      pool_ok es acts p1 ∧ spawned p1 = spawned p ∧ (identity <$> connections p) `prefix_of` (identity <$> connections p1)) as (p1 & made & -> & Hok1 & Hsp & Hid).
    { unfold handle_lookup_ip. destruct (lookup_ip net _) as [ips|e]; [|by eexists _, _]. destruct (filter_wildcard_ips ips); [by eexists _, _|].
      by apply establish_does. }
    cbn [mbind run_bind]. destruct (Hnew msg p1 made Hreq Hev Hok1 Hsp Hid) as (p' & sent & acts' & -> & Hd). exists p', acts'.
    eexists. split; [done|]. apply Hplain; [done|]. destruct made; [done|]. by apply does_send_first.
  - pose proof (clean_up_does es acts p k error_socket_addr Hok) as Hd. destruct (clean_up_bad_stream _ _ _) as [p' sent]. exists p', [], sent. split; [done|]. by apply Hplain.
Qed.

(** *** Readers and writers *)

Lemma server_data_plain ids (l : list InboundServerData) :
  charges_sent (ToSelfServerData <$> l) = [] ∧ packages (ToSelfServerData <$> l) = [] ∧
  (Forall (from_server ids) l → Forall (mail_ok ids) (omap to_self (ToSelfServerData <$> l))).
Proof using.
  induction l as [|m l (H1 & H2 & H3)]; [done|]. split; [exact H1|]. split; [exact H2|]. intros [Hm Hl]%Forall_cons. cbn. constructor; [done|by apply H3].
Qed.

Lemma numbered_from k peer n cs : Forall (λ m, sd_stream_key m = k ∧ sd_source m = peer) (numbered k peer n cs).
Proof using. apply Forall_lookup. intros i m Hm. unfold numbered in Hm. rewrite list_lookup_imap in Hm. destruct (cs !! i); [|done]. by injection Hm as <-. Qed.

(** A connection is replaced by one with another reader. *)
Lemma reader_change es acts p i con reader signals killed : pool_ok es acts p → connections p !! i = Some con →
  (∀ r, reader = Some r → r_stream_key r = c_stream_key con ∧ r_peer_addr r = c_peer_addr con ∧ 0 ≤ sequencer r ≤ Z.of_nat (reads es)) →
  let p' := set_killer (set_connections p (<[i := with_reader con reader signals]> (connections p))) killed in
  pool_ok es acts p' ∧ spawned p' = spawned p ∧ identity <$> connections p' = identity <$> connections p.
Proof using.
  intros [Hf Hc Ha Hr] Hi Hreader. cbn zeta. cbn [set_killer set_connections spawned connections]. split; [split|split; [done|]]; cbn [set_killer set_connections spawned connections p_exit_service_rate p_exit_byte_rate]; try done.
  - apply Forall_insert; [done|]. rewrite Forall_forall in Hc. destruct (Hc con) as (H1 & H2 & H3 & H4 & H5); [by eapply list_elem_of_lookup_2|].
    by split_and!.
  - rewrite (accepted_update _ _ con _ [] Hi); [by rewrite app_nil_r|]. by rewrite app_nil_r.
  - by apply (identity_update _ _ con).
Qed.

Lemma poll_reader_does es acts p i l : pool_ok es acts p → let es' := es ++ [PollReader i l] in Z.of_nat (reads es') + 1 < 2 ^ 64 →
  ∃ p' sent, poll_reader p i l = Ret (p', sent) ∧ pool_does es' acts p [] sent p'.
Proof using.
  intros Hok0 es' Hreads. pose proof (pool_ok_mono _ [PollReader i l] _ _ Hok0) as Hok. fold es' in Hok.
  assert (Hsame : pool_does es' acts p [] [] p) by by apply quiet_does; [|done|constructor].
  assert (Hlen : reads es' = (reads es + length l)%nat) by (unfold es'; rewrite reads_app; cbn; lia).
  unfold poll_reader. destruct (connections p !! i) as [con|] eqn:Hi; [|by eexists _, _]. destruct (c_reader con) as [r|] eqn:Hr; [|by eexists _, _].
  pose proof (pool_connections _ _ _ Hok0) as Hc. rewrite Forall_forall in Hc. destruct (Hc con) as (_ & Hreader & _); [by eapply list_elem_of_lookup_2|].
  destruct (Hreader r Hr) as (Hk & Hpeer & Hseq).
  assert (Hdoes : ∀ reader signals killed (data : list InboundServerData),
    (∀ r', reader = Some r' → r_stream_key r' = c_stream_key con ∧ r_peer_addr r' = c_peer_addr con ∧ 0 ≤ sequencer r' ≤ Z.of_nat (reads es')) →
    Forall (λ m, sd_stream_key m = c_stream_key con ∧ sd_source m = c_peer_addr con) data →
    pool_does es' acts p [] (ToSelfServerData <$> data) (set_killer (set_connections p (<[i := with_reader con reader signals]> (connections p))) killed)).
  { intros reader signals killed data Hrd Hdata. destruct (reader_change es' acts p i con reader signals killed Hok Hi Hrd) as (Hok' & Hsp & Hid).
    destruct (server_data_plain (identity <$> connections p) data) as (H1 & H2 & H3). split; rewrite ?app_nil_r; try done.
    - by rewrite H1, Hsp.
    - by rewrite Hid.
    - rewrite Hid. apply H3. eapply Forall_impl; [exact Hdata|]. intros m [Hmk Hms] _. rewrite Hmk, Hms. apply list_elem_of_fmap.
      exists con. split; [done|by eapply list_elem_of_lookup_2]. }
  destruct (c_signals con) as [|n] eqn:Hs.
  - destruct (reader_poll_spec l r) as (res & Heq & Hres & Hcs); [lia|]. cbn zeta in *. rewrite Heq. cbn [mbind run_bind e_signals e_data e_killed].
    eexists _, _. split; [done|]. apply Hdoes; [|rewrite Hk, Hpeer; apply numbered_from].
    intros r' Hr'. destruct res; try done. injection Hr' as <-. cbn [at_number r_stream_key r_peer_addr sequencer].
    rewrite (proj2 Hres eq_refl). cbn [Z.b2z]. split; [done|]. split; [done|]. lia.
  - assert (reader_poll r (S n) l = Ret (r, MkEffect n [] [], TaskReady)) as -> by by destruct l.
    cbn [mbind run_bind e_signals e_data e_killed]. eexists _, _. split; [done|]. by apply (Hdoes None n _ []).
Qed.

Lemma poll_writer_does es acts p i closed ws shs : pool_ok es acts p →
  ∃ p', poll_writer p i closed ws shs = Ret p' ∧ pool_does es acts p [] [] p'.
Proof using.
  intros Hok. assert (Hsame : pool_does es acts p [] [] p) by by apply quiet_does; [|done|constructor].
  unfold poll_writer. destruct (connections p !! i) as [con|] eqn:Hi; [|by eexists]. destruct (c_writer con) as [wr|] eqn:Hw; [|by eexists].
  pose proof (pool_connections _ _ _ Hok) as Hc. rewrite Forall_forall in Hc. destruct (Hc con) as (Hkey & Hreader & Hwriter & Hnum & Hpre); [by eapply list_elem_of_lookup_2|].
  destruct (writer_poll_ok wr (c_socket con) (MkScript ((RxPacket <$> c_queue con) ++ [if closed then RxClosed else RxNotReady]) ws shs) (c_queue con)
    (if closed then RxClosed else RxNotReady)) as (wr' & w' & r & -> & Hlive & Hpre' & Hrec); [by apply Hwriter|done|done|done|destruct closed; by auto|].
  cbn [mbind run_bind]. eexists. split; [done|].
  assert (Hacc : accepted (with_writer con (match r with TaskNotReady => Some wr' | _ => None end) (if shutting_down wr then c_queue con else []) w') = accepted con).
  { unfold accepted. cbn [with_writer c_socket c_queue]. rewrite Hrec. destruct (shutting_down wr); [done|]. by rewrite app_nil_r. }
  destruct Hok as [Hf _ Ha Hr]. split; rewrite ?app_nil_r; cbn [set_connections spawned connections]; try done.
  - split; cbn [set_connections spawned connections]; try done.
    + apply Forall_insert; [by apply Forall_forall|]. split; [done|]. split; [done|]. rewrite Hacc. split; [|done].
      intros wr2 Hwr2. cbn [with_writer c_writer c_socket] in *. destruct r; try done. injection Hwr2 as <-. by apply Hlive.
    + rewrite (accepted_update _ _ con _ [] Hi); by rewrite ?Hacc, app_nil_r.
  - by rewrite (identity_update _ _ con).
Qed.

(** ** One step *)

Local Abbreviation step := (step response_migrations dns_failure_migrations).
Local Abbreviation history := (history response_migrations dns_failure_migrations).

Definition pending (x : Exit) : list charge := spawned (pool (client x)) ≫= charge_pending.
Definition ids (x : Exit) : list (StreamKey * SocketAddr) := identity <$> connections (pool (client x)).

Record step_does (es : list Event) (acts : list Act) (x : Exit) (acts' : list Act) (sent : list Sent) (x' : Exit) : Prop := {
  step_ok : exit_ok es (acts ++ acts') x';
  step_packages : Forall2 answer_package (answers acts') (packages sent);
  step_charges : charges_sent sent ++ pending x' ≡ₚ (acts' ≫= charges_of) ++ pending x;
  step_justified : Forall (justified es (ids x')) acts';
  step_ids : ids x `prefix_of` ids x'
}.

(** A step of the pool only. *)
Lemma pool_step es es' acts x p' acts' sent : exit_ok es acts x → pool_does (es ++ es') acts (pool (client x)) acts' sent p' →
  step_does (es ++ es') acts x acts' sent (MkExit (set_pool (client x) p') (mailbox x ++ omap to_self sent)).
Proof using.
  intros [Hp Hctx Hmail Hcl] [Hok Hch Hid [Han Hpk] Hj Hm]. split; unfold pending, ids; cbn [client set_pool pool]; try done.
  - split; cbn [client set_pool pool stream_contexts mailbox bound cryptde is_decentralized crashable exit_service_rate exit_byte_rate]; try done.
    + intros k context Hk. by apply context_ok_mono, Hctx.
    + apply Forall_app. split; [|done]. eapply Forall_impl; [exact Hmail|]. intros m. by apply mail_ok_mono.
  - rewrite Han, Hpk. constructor.
Qed.

(** A message that the actor has taken from its mailbox. *)
Lemma actor_step es e acts x mail s' acts' sent : exit_ok es acts x →
  pool s' = pool (client x) → omap to_self sent = [] → Forall (mail_ok (ids x)) mail →
  (∀ k context, stream_contexts s' !! k = Some context → context_ok es k context) →
  bound s' = true ∧ cryptde s' = c ∧ is_decentralized s' = decentralized ∧ crashable s' = false ∧ exit_service_rate s' = service_rate ∧ exit_byte_rate s' = byte_rate →
  written acts' = [] → Forall2 answer_package (answers acts') (packages sent) → charges_sent sent ≡ₚ acts' ≫= charges_of →
  Forall (justified (es ++ [e]) (ids x)) acts' →
  step_does (es ++ [e]) acts x acts' sent (MkExit s' (mail ++ omap to_self sent)).
Proof using.
  intros [Hp Hctx Hmail Hcl] Hpool Hself Hm Hctx' Hcl' Hwr Hpk Hch Hj. rewrite Hself, app_nil_r. split; unfold pending, ids in *; cbn [client mailbox]; rewrite ?Hpool; try done.
  - split; cbn [client mailbox]; rewrite ?Hpool; try done.
    + apply pool_ok_mono. destruct Hp as [Hf Hc Ha Hr]. split; try done. by rewrite written_app, Hwr, app_nil_r.
    + intros k context Hk. by apply context_ok_mono, Hctx'.
  - by rewrite Hch.
Qed.

Lemma delete_context_ok (es : list Event) (m : gmap StreamKey StreamContext) (k k' : StreamKey) (context : StreamContext) :
  (∀ k context, m !! k = Some context → context_ok es k context) → delete k m !! k' = Some context → context_ok es k' context.
Proof using. intros Hm [_ Hk]%lookup_delete_Some. by apply Hm. Qed.

Lemma vd_new_total {T} `{!Codec T, !CodecOk T} (migrations : Versioned.Migrations) (data : T) : ∃ vd, Versioned.vd_new migrations data = Ret vd.
Proof using. unfold Versioned.vd_new. destruct (from_to_vec data) as (bytes & -> & _). cbn. by eexists. Qed.

Lemma incipient_total es k context route m : context_ok es k context → ∃ pkg, Hopper.incipient_new c route m (payload_destination_key context) = Ok pkg.
Proof using.
  intros (msg & _ & [Henc _] & _ & ->). destruct (Henc m) as [data Hd]. unfold Hopper.incipient_new. cbn [context_of payload_destination_key]. rewrite Hd. by eexists.
Qed.

Lemma server_data_step es acts x m mail now : exit_ok es acts x → mailbox x = ServerData m :: mail →
  ∃ acts' sent x', step x (NextMessage now) = Ret (x', sent) ∧ step_does (es ++ [NextMessage now]) acts x acts' sent x'.
Proof using CodecOk0 CodecOk1.
  intros Hok Hmail. pose proof Hok as [Hp Hctx Hm Hcl]. rewrite Hmail in Hm. apply Forall_cons in Hm as [Hm Hrest].
  unfold ProxyClient.step. rewrite Hmail. unfold handle_inbound_server_data.
  destruct (stream_contexts (client x) !! sd_stream_key m) as [context|] eqn:Ek; cbn [mbind run_bind].
  2: { exists [], [], (MkExit (client x) (mail ++ omap to_self [])). split; [done|]. by apply actor_step. }
  pose proof (Hctx _ _ Ek) as Hcontext. destruct Hcl as (Hb & Hc & Hd & Hcr & Hsr & Hbr). unfold send_response_to_hopper.
  destruct (vd_new_total response_migrations (ProxyServer.MkClientResponse (sd_stream_key m) (packet_of m))) as [vd Hvd]. unfold packet_of in Hvd. rewrite Hvd. cbn [mbind run_bind].
  destruct (incipient_total es _ context (return_route context) (Hopper.ClientResponse vd) Hcontext) as [pkg Hpkg]. rewrite Hc, Hpkg, Hb. cbn [mbind run_bind].
  set (report := match paying_wallet context with
                 | Some w => [ToAccountant (Accountant.MkServiceProvided now w (Z.of_nat (length (sd_data m))) service_rate byte_rate)]
                 | None => []
                 end).
  assert (report_response_exit_to_accountant now (client x) context (length (sd_data m)) = Ret report) as ->
    by (unfold report_response_exit_to_accountant, report; rewrite Hb, Hsr, Hbr; by destruct (paying_wallet context)).
  cbn [mbind run_bind app]. exists [Answered context m], (ToHopper pkg :: report). eexists. split; [done|].
  apply actor_step; try done.
  - by destruct (sd_last_data m).
  - unfold report. by destruct (paying_wallet context).
  - intros k cx. destruct (sd_last_data m); [by apply delete_context_ok|apply Hctx].
  - by destruct (sd_last_data m).
  - assert (packages (ToHopper pkg :: report) = [pkg]) as -> by (unfold report; by destruct (paying_wallet context)).
    constructor; [|constructor]. by exists vd.
  - unfold report. cbn. unfold charge_for. by destruct (paying_wallet context).
  - constructor; [|constructor]. destruct Hcontext as (msg & Hreq & _ & Hk & Hcx). split; [|done]. exists msg. by split; [apply requested_mono|].
Qed.

Lemma dns_failure_step es acts x k mail now : exit_ok es acts x → mailbox x = DnsFailure k :: mail →
  ∃ acts' sent x', step x (NextMessage now) = Ret (x', sent) ∧ step_does (es ++ [NextMessage now]) acts x acts' sent x'.
Proof using CodecOk0 CodecOk2.
  intros Hok Hmail. pose proof Hok as [Hp Hctx Hm Hcl]. rewrite Hmail in Hm. apply Forall_cons in Hm as [_ Hrest].
  unfold ProxyClient.step. rewrite Hmail. unfold handle_dns_resolve_failure.
  destruct (stream_contexts (client x) !! k) as [context|] eqn:Ek; cbn [mbind run_bind].
  2: { exists [], [], (MkExit (client x) (mail ++ omap to_self [])). split; [done|]. by apply actor_step. }
  pose proof (Hctx _ _ Ek) as Hcontext. destruct Hcl as (Hb & Hc & Hrest'). destruct (vd_new_total dns_failure_migrations k) as [vd Hvd]. rewrite Hvd. cbn [mbind run_bind].
  destruct (incipient_total es _ context (return_route context) (Hopper.DnsResolveFailed vd) Hcontext) as [pkg Hpkg]. rewrite Hc, Hpkg, Hb. cbn [mbind run_bind expect_ok].
  exists [Unresolved context k], [ToHopper pkg]. eexists. split; [done|]. apply actor_step; try done.
  - intros k' cx. by apply delete_context_ok.
  - constructor; [|constructor]. by exists vd.
  - constructor; [|constructor]. destruct Hcontext as (msg & Hreq & _ & Hk & Hcx). exists msg. by split; [apply requested_mono|].
Qed.

Lemma request_step es acts x msg : exit_ok es acts x → event_ok (Request msg) →
  ∃ acts' sent x', step x (Request msg) = Ret (x', sent) ∧ step_does (es ++ [Request msg]) acts x acts' sent x'.
Proof using.
  intros Hok Hev. pose proof Hok as [Hp Hctx Hm Hcl]. pose proof Hcl as (Hb & Hc & Hd & _). unfold ProxyClient.step, handle_request.
  destruct (bool_decide (is_Some (Hopper.ex_paying_wallet msg)) || negb (is_decentralized (client x))) eqn:Eserve; cbn [mbind run_bind].
  2: { exists [], []. eexists. split; [done|]. by apply actor_step. }
  rewrite Hb.
  assert (Hreq : requested (es ++ [Request msg]) msg).
  { split; [apply elem_of_app; right; by apply list_elem_of_singleton|]. apply orb_true_iff in Eserve as [Hw%bool_decide_eq_true|Hw]; [by left|right].
    rewrite Hd in Hw. by destruct decentralized. }
  set (s1 := set_contexts (client x) (<[stream_key (Hopper.ex_payload msg) := context_of msg]> (stream_contexts (client x)))).
  change (MkContext (Hopper.remaining_route msg) (originator_public_key (Hopper.ex_payload msg)) (Hopper.ex_paying_wallet msg)) with (context_of msg).
  fold s1. unfold pool_process_package. destruct (housekeeping_quiet (pool s1)) as [Hq Hplain].
  pose proof (pool_ok_mono _ [Request msg] _ _ Hp) as Hp'.
  pose proof (quiet_does _ acts (pool s1) _ _ Hp' Hq Hplain) as Hd1. destruct (do_housekeeping (pool s1)) as [p1 sent1]. cbn [fst snd] in Hd1.
  destruct (process_package_does _ _ p1 msg (does_ok _ _ _ _ _ _ Hd1) Hreq Hev) as [acts2 Hd2]. cbn [mbind run_bind].
  pose proof (does_trans _ _ _ _ _ _ _ _ _ Hd1 Hd2) as Hd12. rewrite app_nil_r in Hd12. cbn [app] in Hd12.
  exists acts2, sent1. eexists. split; [done|].
  destruct Hd12 as [H1 H2 H3 [H4 H5] H6 H7]. split; unfold pending, ids; cbn [client set_pool pool]; try done.
  - split; cbn [client set_pool pool mailbox]; try done.
    + intros k cx Hk. cbn [set_pool stream_contexts s1 set_contexts] in Hk. apply lookup_insert_Some in Hk as [[<- <-]|[_ Hk]]; [by exists msg|].
      by apply context_ok_mono, Hctx.
    + apply Forall_app. split; [|done]. eapply Forall_impl; [exact Hm|]. intros m. by apply mail_ok_mono.
  - rewrite H4, H5. constructor.
Qed.

Lemma one_step es acts x e : exit_ok es acts x → event_ok e → Z.of_nat (reads (es ++ [e])) + 1 < 2 ^ 64 →
  ∃ acts' sent x', step x e = Ret (x', sent) ∧ step_does (es ++ [e]) acts x acts' sent x'.
Proof using CodecOk0 CodecOk1 CodecOk2.
  intros Hok Hev Hreads. pose proof Hok as [Hp Hctx Hm Hcl]. pose proof (pool_ok_mono _ [e] _ _ Hp) as Hp'.
  assert (Hsame : step_does (es ++ [e]) acts x [] [] (MkExit (client x) (mailbox x ++ omap to_self []))) by by apply actor_step.
  destruct e as [msg|now|i now net|i l|i closed ws shs|ui].
  - by apply request_step.
  - destruct (mailbox x) as [|[m|k] mail] eqn:Hmail; [|by eapply server_data_step|by eapply dns_failure_step].
    exists [], [], (MkExit (client x) ([] ++ omap to_self [])). unfold ProxyClient.step. rewrite Hmail. by split.
  - unfold ProxyClient.step. destruct (spawned (pool (client x)) !! i) as [f|] eqn:Hi; [|by eexists _, _, _].
    set (p0 := set_spawned (pool (client x)) (delete i (spawned (pool (client x))))).
    pose proof (pool_futures _ _ _ Hp') as Hf. rewrite Forall_forall in Hf.
    assert (Hok0 : pool_ok (es ++ [PollSpawned i now net]) acts p0).
    { destruct Hp' as [Hfs Hc Ha Hr]. split; try done. by apply Forall_delete. }
    destruct (poll_spawned_does _ acts now net p0 f Hok0) as (p' & acts' & sent & -> & H1 & H2 & H3 & H4 & H5 & H6 & H7);
      [apply Hf; by eapply list_elem_of_lookup_2|exact Hev|].
    cbn [mbind run_bind]. eexists acts', sent, _. split; [done|]. apply pool_step; [done|]. split; try done.
    rewrite H2. apply Permutation_app_head. change (spawned p0) with (delete i (spawned (pool (client x)))).
    rewrite (delete_Permutation (spawned (pool (client x))) i f Hi) at 2. done.
  - destruct (poll_reader_does es acts _ i l Hp Hreads) as (p' & sent & Heq & Hd). unfold ProxyClient.step. rewrite Heq. cbn [mbind run_bind].
    eexists [], sent, _. split; [done|]. by apply pool_step.
  - destruct (poll_writer_does _ acts _ i closed ws shs Hp') as (p' & Heq & Hd). unfold ProxyClient.step. rewrite Heq. cbn [mbind run_bind].
    eexists [], [], _. split; [done|]. by apply pool_step.
  - unfold ProxyClient.step. destruct Hcl as (_ & _ & _ & -> & _). by eexists _, _, _.
Qed.

(** ** Histories *)

Lemma histories es : ∀ past acts x, exit_ok past acts x → Forall event_ok es → Z.of_nat (reads (past ++ es)) + 1 < 2 ^ 64 →
  ∃ acts' sent x', history x es = Ret (x', sent) ∧ step_does (past ++ es) acts x acts' sent x'.
Proof using CodecOk0 CodecOk1 CodecOk2.
  induction es as [|e es IH]; intros past acts x Hok Hev Hreads.
  - exists [], [], x. rewrite app_nil_r in *. split; [done|]. split; rewrite ?app_nil_r; try done; constructor.
  - apply Forall_cons in Hev as [He Hes].
    destruct (one_step past acts x e Hok He) as (acts1 & sent1 & x1 & Hstep & [H1 H2 H3 H4 H5]); [revert Hreads; rewrite !reads_app; cbn; lia|].
    destruct (IH (past ++ [e]) (acts ++ acts1) x1 H1 Hes) as (acts2 & sent2 & x2 & Hhist & [J1 J2 J3 J4 J5]); [by rewrite <- app_assoc|].
    rewrite <- app_assoc in *. cbn [app] in *. exists (acts1 ++ acts2), (sent1 ++ sent2), x2. cbn [ProxyClient.history]. rewrite Hstep. cbn [mbind run_bind]. rewrite Hhist.
    split; [done|]. split.
    + by rewrite app_assoc.
    + rewrite answers_app, packages_app. by apply Forall2_app.
    + rewrite charges_sent_app, bind_app, <- (app_assoc (charges_sent sent1)), J3. rewrite (Permutation_app_comm (acts2 ≫= charges_of)), app_assoc, H3.
      rewrite <- !app_assoc. apply Permutation_app_head, Permutation_app_comm.
    + apply Forall_app. split; [|done]. eapply Forall_impl; [exact H4|]. intros a Ha.
      pose proof (justified_mono _ es _ _ a J5 Ha) as Hj. by rewrite <- app_assoc in Hj.
    + by etrans.
Qed.

(** The exit as it comes into being. *)
Definition start (dns_servers : list SocketAddr) : run Exit :=
  s ← new c dns_servers service_rate byte_rate decentralized false; s ← handle_bind s true; Ret (MkExit s []).

Lemma fresh_exit_ok dns_servers : dns_servers ≠ [] → ∃ x, start dns_servers = Ret x ∧ exit_ok [] [] x ∧ pending x = [].
Proof using.
  intros Hne. unfold start, new. destruct dns_servers; [done|]. cbn. eexists. split; [done|]. split; [|done]. split; cbn; try done.
Qed.

(** C16: an exit serves for pay, and serves everybody his own. Take any history of
    an exit with name servers that cannot be crashed: requests in any order,
    messages of the proxy client to itself, futures and the polls of readers and
    writers interleaved anyhow, any answers of resolver and sockets; under the
    conditions that every request carries a key that can be encrypted for (with
    another key a failure to resolve its host does stop the exit, as
    [unusable_key_stops_exit] shows) and a packet number below 2^64 - 1, that a
    socket which has connected knows its peer, and that there are fewer than 2^64
    reads. Nothing panics. What was done is a list of acts: the packages handed to
    the hopper are those of the acts, in order, over the return route and with the
    key of a request for the same stream; the packets taken over by streams to
    servers are those of the acts; every act is due to a request, one with a
    paying wallet when the node is decentralized; data for a stream came from a
    server connected to for that stream. The charges sent to the accountant and
    those that pending futures will send are together exactly those of the acts,
    to the wallet of the request of each, if it has one: one for a packet that was
    taken over and is not empty, by its bytes; one for every answer, by its bytes;
    none for a failure to resolve. And what is on the wire to each server is a
    beginning of the data of the packets it was sent, in order. *)
Theorem exit_serves_for_pay dns_servers es : dns_servers ≠ [] → Forall event_ok es → Z.of_nat (reads es) + 1 < 2 ^ 64 →
  ∃ x sent acts, (x0 ← start dns_servers; history x0 es) = Ret (x, sent) ∧
    Forall2 answer_package (answers acts) (packages sent) ∧
    written acts ≡ₚ connections (pool (client x)) ≫= accepted ∧
    Forall (justified es (ids x)) acts ∧
    charges_sent sent ++ pending x ≡ₚ acts ≫= charges_of ∧
    Forall (λ con, Writers.wire_prefix (c_socket con)) (connections (pool (client x))).
Proof using CodecOk0 CodecOk1 CodecOk2.
  intros Hne Hev Hreads. destruct (fresh_exit_ok dns_servers Hne) as (x0 & -> & Hok & Hpend). cbn [mbind run_bind].
  destruct (histories es [] [] x0 Hok Hev Hreads) as (acts & sent & x & -> & [H1 H2 H3 H4 H5]).
  exists x, sent, acts. destruct H1 as [Hp _ _ _]. split_and!; try done.
  - exact (pool_accepted _ _ _ Hp).
  - by rewrite H3, Hpend, app_nil_r.
  - eapply Forall_impl; [exact (pool_connections _ _ _ Hp)|]. by intros con (_ & _ & _ & _ & H).
Qed.
End exit.

(** ** Exits at work *)

Module Demo.
Import ProxyRequests.Demo.

#[local] Instance Response_eq_dec : EqDecision ProxyServer.ClientResponsePayload.
Proof. solve_decision. Defined.
#[local] Instance Response_countable : Countable ProxyServer.ClientResponsePayload.
Proof.
  apply (inj_countable' (λ r, (ProxyServer.cr_stream_key r, ProxyServer.cr_sequenced_packet r)) (λ '(k, p), ProxyServer.MkClientResponse k p)). by intros [].
Defined.
#[local] Instance demo_codec `{Countable T} : Codec T := Route.countable_codec.
#[local] Instance demo_codec_ok `{Countable T} : @CodecOk T demo_codec := Route.countable_codec_ok.

(** As both implementations, it refuses an empty key. *)
Definition demo_cryptde : CryptDE := MkCryptDE (λ k d, if bool_decide (k = []) then Err EmptyKey else Ok d) (λ d, Ret (Ok d)) (λ n, repeat 0 n) [3] [].

(** A server at every address, and no name resolves. *)
Definition demo_net : Network := MkNetwork (λ a, Ok (Some a)) (λ _, Err (Writers.OtherKind 7)).

Definition demo_request (wallet : option Z) (key : PublicKey) (host : string) (n : Z) (data : list Z) : Event :=
  Request (Hopper.MkExpired _ (Stream.IpV4 1, 1) wallet (Route.MkRoute [[n]])
    (MkRequest [7] (SequenceBuffer.MkPacket data n false) (Some (bytes_of host)) 80 HTTP key) 10).

Definition demo_start : run Exit := start demo_cryptde 1 2 true [(Stream.IpV4 1, 53)].
Definition demo_history (es : list Event) : run (Exit * list Sent) :=
  x ← demo_start; history Hopper.Demo.demo_migrations Hopper.Demo.demo_migrations x es.

(** A request that pays and one that does not, an answer, a second packet. *)
Definition demo_events : list Event :=
  [demo_request (Some 5) [1] "1.2.3.4" 0 [10; 11]; PollSpawned 0 100 demo_net; demo_request None [2] "1.2.3.4" 0 [12];
   PollReader 0 [RdReady [20; 21; 22]]; NextMessage 101; demo_request (Some 6) [1] "1.2.3.4" 1 [13];
   PollWriter 0 false [Writers.WrReady 2; Writers.WrReady 1] []].

Lemma exit_serves_for_pay_witness :
  ∃ x sent acts, demo_history demo_events = Ret (x, sent) ∧
    Forall (justified true demo_events (ids x)) acts ∧ charges_sent sent ++ pending 1 2 x ≡ₚ acts ≫= charges_of 1 2.
Proof.
  destruct (exit_serves_for_pay Hopper.Demo.demo_migrations Hopper.Demo.demo_migrations demo_cryptde 1 2 true [(Stream.IpV4 1, 53)] demo_events)
    as (x & sent & acts & Hrun & _ & _ & Hj & Hch & _).
  - done.
  - repeat constructor; try done; intros m; by eexists.
  - by vm_compute.
  - exists x, sent, acts. split; [exact Hrun|]. by split.
Defined.

(** What the accountant and the server of that history got. *)
Example demo_charges :
  (r ← demo_history demo_events;
   Ret (charges_sent r.2, pending 1 2 r.1, (λ con, wire (c_socket con)) <$> connections (pool (client r.1)))) =
  Ret ([(5, 2, 1, 2); (5, 3, 1, 2)], [(6, 1, 1, 2)], [[10; 11; 13]]).
Proof. reflexivity. Qed.

(** *** Unintended behaviours *)

(** A paying request with an unusable key, for a host that cannot be resolved, stops
    the exit. *)
Example unusable_key_stops_exit :
  demo_history [demo_request (Some 5) [] "nowhere.example" 0 [1]; PollSpawned 0 100 demo_net; NextMessage 101] = Panic.
Proof. reflexivity. Qed.

(** Two packets of a new stream that arrive before it is established go to two
    connections; the second one never gets the packet it waits for. *)
Example flurry_splits_stream :
  (r ← demo_history [demo_request (Some 5) [1] "1.2.3.4" 0 [10]; demo_request (Some 5) [1] "1.2.3.4" 1 [11];
                     PollSpawned 0 100 demo_net; PollSpawned 0 100 demo_net;
                     PollWriter 0 false [Writers.WrReady 9] []; PollWriter 1 false [Writers.WrReady 9] []];
   Ret ((λ con, (received (c_socket con), wire (c_socket con))) <$> connections (pool (client r.1)))) =
  Ret [([SequenceBuffer.MkPacket [10] 0 false], [10]); ([SequenceBuffer.MkPacket [11] 1 false], [])].
Proof. reflexivity. Qed.

(** The end of a stream whose writer died is numbered zero, although the server's data
    has been numbered from zero already. *)
Example end_numbered_zero :
  (r ← demo_history [demo_request (Some 5) [1] "1.2.3.4" 0 [10]; PollSpawned 0 100 demo_net; PollReader 0 [RdReady [20]];
                     PollWriter 0 false [Writers.WrErr Writers.BrokenPipe] []; demo_request (Some 5) [1] "1.2.3.4" 1 [11]; PollSpawned 0 100 demo_net];
   Ret (omap (λ m, match m with ToSelfServerData m => Some (sd_sequence_number m, sd_last_data m) | _ => None end) (r.2 : list Sent))) =
  Ret [(0, false); (0, true)].
Proof. reflexivity. Qed.
End Demo.
End ExitLife.
