(* ===== verification/Masquerade.v ===== *)
(** * Masquerading and the reader of a stream

    Models [node/src/json_masquerader.rs] (how clandestine data is dressed as JSON),
    [node/src/json_discriminator_factory.rs] and [node/src/stream_reader.rs], the
    task that reads a stream from a neighbor or a browser, frames and unmasks what
    it reads and sends it to the dispatcher.

    [serde_json] and [base64] are outside the program: they are parameters, and
    [SerdeOk] says what they are documented to do.  A text is the list of its bytes.
    The socket answers by a script, as for the writers of [StreamWriters.v].  The
    clock is a function of the number of messages sent before.  A [poll] puts what
    it reads into one buffer of 64 KiB that is zeroed once, so what was read before
    stays behind a shorter read. *)
From Stdlib Require Import String Ascii.
From S2P Require Import Prelude.
From S2P Require Import CountryBlockStream SequenceBuffer StreamWriters Framer JsonFramer Hopper NeighborhoodActor ProtocolPacks ProxyClient.
From stdpp Require Import base list strings.

Module Masquerade.
Import Framer.
Import Writers(ErrorKind, indicates_dead_stream, task_poll(..)).
Import ProxyClient(read_answer(..)).
Local Open Scope Z_scope.

Abbreviation SocketAddr := (Stream.IpAddr * Z)%type (only parsing).

(** ** [JsonMasquerader] *)

Record JsonMasqueraderStringStructure := MkStringStructure { s_bodyText : list Z }.
Record JsonMasqueraderDataStructure := MkDataStructure { d_bodyData : list Z }.
Record JsonMasqueraderUnmaskStructure := MkUnmaskStructure {
  bodyText : option (list Z);
  bodyData : option (list Z)
}.

(** The classes of a [serde_json::Error]. *)
Inductive JsonError := JsonSyntax | JsonData | JsonEof | JsonOther (text : string).

Definition text_of (l : list Z) : string := string_of_list_ascii ((λ b, ascii_of_nat (Z.to_nat b)) <$> l).

Section json.
Context (text_to_string : JsonMasqueraderStringStructure → option (list Z)).
Context (data_to_string : JsonMasqueraderDataStructure → option (list Z)).
Context (from_str : list Z → result JsonError JsonMasqueraderUnmaskStructure).
Context (base64_encode : list Z → list Z) (base64_decode : list Z → option (list Z)).

Definition make_text_structure (text : list Z) : option (list Z) := text_to_string (MkStringStructure text).

Definition make_binary_structure (data : list Z) : option (list Z) :=
  data_to_string (MkDataStructure (base64_encode data)).

Definition json_mask (data : list Z) : run (result MasqueradeError (list Z)) :=
  json_string ← expect (if valid_utf8 data then make_text_structure data else make_binary_structure data);
  Ret (Ok json_string).

Definition string_from_data (data : list Z) : result MasqueradeError (list Z) :=
  if valid_utf8 data then Ok data else Err (LowLevelDataError "Data is not a UTF-8 string").

Definition structure_from_string (json_string : list Z) : result MasqueradeError JsonMasqueraderUnmaskStructure :=
  match from_str json_string with
  | Ok json_structure => Ok json_structure
  | Err e => Err (MidLevelDataError match e with
                                    | JsonSyntax => "Data is not JSON"
                                    | JsonData => "JSON does not match schema"
                                    | JsonEof => "JSON was truncated"
                                    | JsonOther text => "Unexpected JSON parsing error: " +:+ text
                                    end)
  end.

Definition data_vector_from_structure (structure : JsonMasqueraderUnmaskStructure) : result MasqueradeError (list Z) :=
  match bodyText structure, bodyData structure with
  | Some text, None => Ok text
  | None, Some data =>
      match base64_decode data with
      | Some vec => Ok vec
      | None => Err (HighLevelDataError ("Can't decode Base64: '" +:+ text_of data +:+ "'"))
      end
  | Some _, Some _ => Err (HighLevelDataError "Found both bodyText and bodyData; can't choose")
  | None, None => Err (HighLevelDataError "Found neither bodyText nor bodyData; need one")
  end.

Definition unmask (data : list Z) : result MasqueradeError UnmaskedChunk :=
  json_string ← string_from_data data;
  structure ← structure_from_string json_string;
  data_vector ← data_vector_from_structure structure;
  Ok (MkUnmasked data_vector true false).

Definition json_try_unmask : Masquerader := unmask.

(** [JsonDiscriminatorFactory::make]. *)
Definition json_discriminator : run (Discriminator Json.JsonFramer) := discriminator_new Json.json_new [json_try_unmask].

(** What [serde_json] and [base64] are documented to do: a structure is written as
    a compact object with one member, its text escaped as JSON prescribes, in UTF-8;
    it reads back as the structure it was; Base64 gives text that decodes to the
    bytes it was made of. *)
Class SerdeOk := {
  text_written s : valid_utf8 s = true →
    ∃ escaped, text_to_string (MkStringStructure s) =
      Some (Json.bytes_of "{" ++ [Json.DQ] ++ Json.bytes_of "bodyText" ++ [Json.DQ] ++ Json.bytes_of ":" ++ [Json.DQ] ++ escaped ++ [Json.DQ] ++ Json.bytes_of "}") ∧
      Json.quoted Json.DQ escaped;
  data_written s : valid_utf8 s = true →
    ∃ escaped, data_to_string (MkDataStructure s) =
      Some (Json.bytes_of "{" ++ [Json.DQ] ++ Json.bytes_of "bodyData" ++ [Json.DQ] ++ Json.bytes_of ":" ++ [Json.DQ] ++ escaped ++ [Json.DQ] ++ Json.bytes_of "}") ∧
      Json.quoted Json.DQ escaped;
  text_is_utf8 s j : valid_utf8 s = true → text_to_string (MkStringStructure s) = Some j → valid_utf8 j = true;
  data_is_utf8 s j : valid_utf8 s = true → data_to_string (MkDataStructure s) = Some j → valid_utf8 j = true;
  text_reads s j : valid_utf8 s = true → Forall (λ b, 0 ≤ b < 256) s → text_to_string (MkStringStructure s) = Some j →
    from_str j = Ok (MkUnmaskStructure (Some s) None);
  data_reads s j : valid_utf8 s = true → Forall (λ b, 0 ≤ b < 256) s → data_to_string (MkDataStructure s) = Some j →
    from_str j = Ok (MkUnmaskStructure None (Some s));
  base64_text d : valid_utf8 (base64_encode d) = true;
  base64_bytes d : Forall (λ b, 0 ≤ b < 256) (base64_encode d);
  base64_reads d : Forall (λ b, 0 ≤ b < 256) d → base64_decode (base64_encode d) = Some d
}.
End json.
Arguments text_written {_ _ _ _ _ _} s.
Arguments data_written {_ _ _ _ _ _} s.
Arguments text_is_utf8 {_ _ _ _ _ _} s j.
Arguments data_is_utf8 {_ _ _ _ _ _} s j.
Arguments text_reads {_ _ _ _ _ _} s j.
Arguments data_reads {_ _ _ _ _ _} s j.
Arguments base64_text {_ _ _ _ _ _} d.
Arguments base64_bytes {_ _ _ _ _ _} d.
Arguments base64_reads {_ _ _ _ _ _} d.

(** ** [StreamReaderReal] *)

Record RemoveStreamMsg := MkRemove {
  rm_local_addr : SocketAddr;
  rm_peer_addr : SocketAddr;
  rm_stream_type : NeighborhoodActor.RemovedStreamType
}.

Inductive ReaderSent :=
| SendInbound (m : Hopper.InboundClientData)
| SendRemove (m : RemoveStreamMsg).

(** The length of the buffer, [0x0001_0000]. *)
Definition buffer_size : nat := N.to_nat 65536.
#[global] Opaque buffer_size.

Section reader.
Context {F : Type} `{!Framer F}.
Context (method_is_connect : list Z → bool).
Context (now : nat → Z).

Record StreamReaderReal := MkStreamReader {
  local_addr : SocketAddr;
  peer_addr : SocketAddr;
  reception_port : option Z;
  discriminators : list (Discriminator F);
  is_clandestine : bool;
  sequencer : Z
}.

(** The factories are what their [make] gives. *)
Definition reader_new (reception_port : option Z) (discriminator_factories : list (run (Discriminator F)))
    (is_clandestine : bool) (peer_addr local_addr : SocketAddr) : run StreamReaderReal :=
  panic_if (bool_decide (length discriminator_factories = 0%nat))
    (discriminators ← mapM id discriminator_factories;
     Ret (MkStreamReader local_addr peer_addr reception_port discriminators is_clandestine 0)).

Definition set_discriminator (self : StreamReaderReal) (i : nat) (d : Discriminator F) : StreamReaderReal :=
  MkStreamReader (local_addr self) (peer_addr self) (reception_port self) (<[i:=d]> (discriminators self)) (is_clandestine self) (sequencer self).
Definition set_sequencer (self : StreamReaderReal) (next : Z) : StreamReaderReal :=
  MkStreamReader (local_addr self) (peer_addr self) (reception_port self) (discriminators self) (is_clandestine self) next.

Definition inbound (self : StreamReaderReal) (at_ : Z) (sequence_number : option Z) (chunk : list Z) : Hopper.InboundClientData :=
  Hopper.MkInbound at_ (peer_addr self) (reception_port self) false (is_clandestine self) sequence_number chunk.

(** The loop of [wrangle_discriminators] over the chosen discriminator [i]; [None]
    means out of fuel. *)
Fixpoint chunk_loop (fuel : nat) (self : StreamReaderReal) (i : nat) (chosen_discriminator : Discriminator F) (is_connect : bool)
    (sent : list ReaderSent) : option (run (StreamReaderReal * list ReaderSent)) :=
  match fuel with
  | O => None
  | S fuel =>
      match take_chunk chosen_discriminator with
      | Panic => Some Panic
      | Ret (chosen_discriminator, None) => Some (Ret (set_discriminator self i chosen_discriminator, sent))
      | Ret (chosen_discriminator, Some unmasked_chunk) =>
          let go self sequence_number :=
            chunk_loop fuel self i chosen_discriminator is_connect
              (sent ++ [SendInbound (inbound self (now (length sent)) sequence_number (u_chunk unmasked_chunk))]) in
          if sequenced unmasked_chunk && negb is_connect then
            match SequenceBuffer.next_sequence_number (sequencer self) with
            | Panic => Some Panic
            | Ret (n, next) => go (set_sequencer self next) (Some n)
            end
          else if is_connect then go self (Some 0)
          else go self None
      end
  end.

Definition wrangle_discriminators (fuel : nat) (self : StreamReaderReal) (buf : list Z) (length_ : nat)
    (sent : list ReaderSent) : option (run (StreamReaderReal * list ReaderSent)) :=
  let is_connect := ProtocolPacks.is_connect method_is_connect buf in
  let i := if (1 <? length (discriminators self))%nat && is_connect then 1%nat else 0%nat in
  match discriminators self !! i with
  | None => Some Panic
  | Some chosen_discriminator =>
      chunk_loop fuel self i (discriminator_add_data chosen_discriminator (take length_ buf)) is_connect sent
  end.

Definition shutdown (self : StreamReaderReal) : run (StreamReaderReal * ReaderSent) :=
  if is_clandestine self then
    Ret (self, SendRemove (MkRemove (local_addr self) (peer_addr self) NeighborhoodActor.Clandestine))
  else
    port ← expect (reception_port self);
    '(n, next) ← SequenceBuffer.next_sequence_number (sequencer self);
    Ret (set_sequencer self next,
         SendRemove (MkRemove (local_addr self) (peer_addr self) (NeighborhoodActor.NonClandestine port n))).

(** What a read leaves in the buffer, and how many bytes it read. *)
Definition fill (buf data : list Z) : list Z * nat :=
  let data := take (length buf) data in (data ++ drop (length data) buf, length data).

Fixpoint poll_loop (fuel : nat) (self : StreamReaderReal) (buf : list Z) (answers : list read_answer) (sent : list ReaderSent)
    : option (run (StreamReaderReal * list ReaderSent * task_poll)) :=
  let finish result :=
    Some ('(self, message) ← shutdown self; Ret (self, sent ++ [message], result)) in
  match answers with
  | [] | RdNotReady :: _ => Some (Ret (self, sent, TaskNotReady))
  | RdReady data :: answers =>
      let '(buf, length_) := fill buf data in
      if (length_ =? 0)%nat then finish TaskReady
      else
        match wrangle_discriminators fuel self buf length_ sent with
        | None => None
        | Some Panic => Some Panic
        | Some (Ret (self, sent)) => poll_loop fuel self buf answers sent
        end
  | RdErr kind :: answers =>
      if indicates_dead_stream kind then finish TaskErr else poll_loop fuel self buf answers sent
  end.

Definition poll (fuel : nat) (self : StreamReaderReal) (answers : list read_answer) (sent : list ReaderSent)
    : option (run (StreamReaderReal * list ReaderSent * task_poll)) :=
  poll_loop fuel self (replicate buffer_size 0) answers sent.

(** The executor polls the task until it is done. *)
Fixpoint run_reader (fuel : nat) (self : StreamReaderReal) (polls : list (list read_answer)) (sent : list ReaderSent)
    : option (run (StreamReaderReal * list ReaderSent * task_poll)) :=
  match polls with
  | [] => Some (Ret (self, sent, TaskNotReady))
  | answers :: polls =>
      match poll fuel self answers sent with
      | Some (Ret (self, sent, TaskNotReady)) => run_reader fuel self polls sent
      | r => r
      end
  end.
End reader.
Arguments StreamReaderReal F : clear implicits.

(** ** Masking *)

(** An object that the framer finds: its braces match. *)
Definition framed (j : list Z) : Prop := ∃ body, j = Json.OB :: body ++ [Json.CB] ∧ Json.balanced body.

Lemma member_balanced name escaped :
  Json.quoted Json.DQ (Json.bytes_of name) → Json.quoted Json.DQ escaped →
  framed (Json.bytes_of "{" ++ [Json.DQ] ++ Json.bytes_of name ++ [Json.DQ] ++ Json.bytes_of ":" ++ [Json.DQ] ++ escaped ++ [Json.DQ] ++ Json.bytes_of "}").
Proof.
  intros Hn He. exists (Json.DQ :: Json.bytes_of name ++ Json.DQ :: Json.bytes_of ":" ++ Json.DQ :: escaped ++ [Json.DQ]). split.
  - cbn. rewrite <- !app_assoc. cbn. by rewrite <- !app_assoc.
  - apply Json.bal_string; [by right|done|]. apply Json.bal_plain; [by vm_compute; set_solver|].
    apply Json.bal_string; [by right|done|apply Json.bal_nil].
Qed.

Section masking.
Context (text_to_string : JsonMasqueraderStringStructure → option (list Z)).
Context (data_to_string : JsonMasqueraderDataStructure → option (list Z)).
Context (from_str : list Z → result JsonError JsonMasqueraderUnmaskStructure).
Context (base64_encode : list Z → list Z) (base64_decode : list Z → option (list Z)).
Context `{!SerdeOk text_to_string data_to_string from_str base64_encode base64_decode}.

Lemma json_mask_unmask d : Forall (λ b, 0 ≤ b < 256) d →
  ∃ j, json_mask text_to_string data_to_string base64_encode d = Ret (Ok j) ∧ framed j ∧
    json_try_unmask from_str base64_decode j = Ok (MkUnmasked d true false).
Proof.
  intros Hd. unfold json_mask, json_try_unmask, unmask, string_from_data, structure_from_string.
  destruct (valid_utf8 d) eqn:Hu.
  - destruct (text_written d Hu) as (escaped & Hw & He). unfold make_text_structure. rewrite Hw. eexists. split; [done|].
    split; [by apply member_balanced; [repeat constructor|]|].
    rewrite (text_is_utf8 d _ Hu Hw). cbn [mbind result_bind]. by rewrite (text_reads d _ Hu Hd Hw).
  - pose proof (base64_text d) as Hb. destruct (data_written (base64_encode d) Hb) as (escaped & Hw & He).
    unfold make_binary_structure. rewrite Hw. eexists. split; [done|].
    split; [by apply member_balanced; [repeat constructor|]|].
    rewrite (data_is_utf8 _ _ Hb Hw). cbn [mbind result_bind]. rewrite (data_reads _ _ Hb (base64_bytes d) Hw). cbn.
    by rewrite base64_reads.
Qed.
End masking.

(** ** Frames of masked data *)

Lemma framed_taken st j rest : framed j → Json.small (j ++ rest) →
  Json.json_take_frame (Json.MkJson st (j ++ rest)) = Ret (Json.MkJson Json.reset rest, Some (MkChunk j true)).
Proof.
  intros (body & -> & Hb) Hs. cbn [app] in *. rewrite <- app_assoc in *. cbn [app] in *.
  apply (Json.json_framer_frames_object st [] body rest); [by apply not_elem_of_nil|done|done].
Qed.

(** Part of an object is no frame. *)
Lemma part_not_taken st j p : framed j → Json.small j → p `prefix_of` j → (length p < length j)%nat →
  ∃ f, Json.json_take_frame (Json.MkJson st p) = Ret (f, None).
Proof.
  intros Hj Hs [more ->] Hl. rewrite length_app in Hl.
  assert (Json.small p) as Hp by (apply (Json.small_le _ (p ++ more)); [rewrite length_app; lia|done]).
  destruct (Json.take_frame_total (Json.MkJson st p) Hp) as (f & o & Hf & _). destruct o as [c|]; [|by exists f].
  destruct (Json.take_frame_late (Json.MkJson st p) f c more Hs Hf) as [Hlate _].
  pose proof (framed_taken st (p ++ more) [] Hj) as Hj'. rewrite app_nil_r in Hj'. specialize (Hj' Hs).
  change (Json.json_add_data (Json.MkJson st p) more) with (Json.MkJson st (p ++ more)) in Hlate. rewrite Hj' in Hlate. injection Hlate as Hstate Hdata Hc.
  symmetry in Hdata. apply app_eq_nil in Hdata as [_ ->]. simpl in Hl. lia.
Qed.

Lemma prefix_split {A} (p a b : list A) : p `prefix_of` a ++ b →
  (∃ p', p = a ++ p' ∧ p' `prefix_of` b) ∨ (p `prefix_of` a ∧ length p < length a)%nat.
Proof.
  intros Hp. destruct (prefix_weak_total p a (a ++ b) Hp) as [Ha|[p' ->]]; [by apply prefix_app_r| |].
  - destruct Ha as [r ->]. destruct r as [|x r]; [left; exists []; split; [by rewrite !app_nil_r|apply prefix_nil]|].
    right. split; [by apply prefix_app_r|]. rewrite length_app. cbn. lia.
  - left. exists p'. split; [done|]. by apply prefix_app_inv in Hp.
Qed.

(** How many of the objects [js] lie in the first [n] bytes of them all. *)
Definition whole (js : list (list Z)) (n k : nat) : Prop :=
  (k ≤ length js)%nat ∧ (length (concat (take k js)) ≤ n)%nat ∧
  ((k < length js)%nat → (n < length (concat (take (S k) js)))%nat).

Lemma take_all_framed js st p fuel : Forall framed js → Json.small (concat js) → p `prefix_of` concat js → (length p < fuel)%nat →
  ∃ k f, whole js (length p) k ∧ take_all fuel (Json.MkJson st p) = Ret (f, (λ j, MkChunk j true) <$> take k js).
Proof.
  revert st p fuel; induction js as [|j js IH]; intros st p fuel Hjs Hs Hp Hf; (destruct fuel as [|fuel]; [lia|]).
  - apply prefix_nil_inv in Hp as ->. exists 0%nat, (Json.MkJson Json.reset []). split; [split; cbn; lia|done].
  - inversion_clear Hjs as [|? ? Hj Hjs']. cbn [concat] in Hs, Hp.
    assert (Json.small j ∧ Json.small (concat js)) as [Hsj Hsjs] by (unfold Json.small in *; rewrite length_app in Hs; lia).
    rewrite Json.take_all_step. destruct (prefix_split _ _ _ Hp) as [(p' & -> & Hp')|[Hpj Hlt]].
    + rewrite framed_taken by (done || (destruct Hp' as [r Hr]; apply (Json.small_le _ (j ++ concat js)); [rewrite Hr, !length_app; lia|done])).
      cbn [mbind run_bind]. rewrite length_app in *.
      destruct (IH Json.reset p' fuel) as (k & f & (H1 & H2 & H3) & ->); [done|done|done|destruct Hj as (? & -> & _); cbn in Hf; lia|].
      exists (S k), f. split; [|done]. split; [cbn; lia|]. cbn [take concat length]. rewrite !length_app. split; [lia|].
      intros Hl. specialize (H3 ltac:(lia)). destruct js; cbn in *; [lia|]. rewrite !length_app in *. lia.
    + destruct (part_not_taken st j p Hj Hsj Hpj Hlt) as [f ->].
      exists 0%nat, f. split; [|done]. split; [lia|]. split; [cbn; lia|]. intros _. cbn. rewrite app_nil_r. lia.
Qed.

(** ** What a reader of clandestine data sends *)

(** The pieces a poll reads, and whether the stream ends in it. *)
Fixpoint heard (answers : list read_answer) : list (list Z) * bool :=
  match answers with
  | [] | RdNotReady :: _ => ([], false)
  | RdReady data :: answers =>
      let data := take buffer_size data in
      if (length data =? 0)%nat then ([], true) else let '(l, e) := heard answers in (data :: l, e)
  | RdErr kind :: answers => if indicates_dead_stream kind then ([], true) else heard answers
  end.

Fixpoint heard_all (polls : list (list read_answer)) : list (list Z) * bool :=
  match polls with
  | [] => ([], false)
  | answers :: polls =>
      let '(l, e) := heard answers in
      if e then (l, true) else let '(l', e') := heard_all polls in (l ++ l', e')
  end.

Lemma feed_app {F} `{!Framer F} fuel (f : F) l1 l2 :
  feed fuel f (l1 ++ l2) = ('(f, cs) ← feed fuel f l1; '(f, cs') ← feed fuel f l2; Ret (f, cs ++ cs')).
Proof.
  revert f; induction l1 as [|p l1 IH]; intros f; cbn [app feed mbind run_bind].
  - by destruct (feed fuel f l2) as [[]|].
  - destruct (take_all fuel (add_data f p)) as [[f1 cs]|]; [|done]. cbn [mbind run_bind]. rewrite IH.
    destruct (feed fuel f1 l1) as [[f2 cs1]|]; [|done]. cbn [mbind run_bind].
    destruct (feed fuel f2 l2) as [[f3 cs2]|]; [|done]. cbn [mbind run_bind]. by rewrite app_assoc.
Qed.

Section reading.
Context (method_is_connect : list Z → bool) (now : nat → Z).
Context (masquerader : Masquerader) (here there : SocketAddr) (port : option Z).

(** A reader of clandestine data whose framer holds [f]. *)
Definition reading (f : Json.JsonFramer) : StreamReaderReal Json.JsonFramer :=
  MkStreamReader here there port [MkDiscriminator f [masquerader]] true 0.

(** The message that carries [d] to the dispatcher. *)
Definition carries (d : list Z) (m : Hopper.InboundClientData) : Prop :=
  ∃ t n, m = Hopper.MkInbound t there port false true n d.

(** The frames [cs] are the data [ds], masked. *)
Definition unmasks (cs : list FramedChunk) (ds : list (list Z)) : Prop :=
  Forall2 (λ c d, ∃ l, masquerader (chunk c) = Ok (MkUnmasked d l false)) cs ds.

Definition farewell (e : bool) : list ReaderSent :=
  if e then [SendRemove (MkRemove here there NeighborhoodActor.Clandestine)] else [].

Lemma chunk_loop_reads fuel f f' f0 cs ds connect sent :
  Json.small (Json.data_so_far f) → (length (Json.data_so_far f) < fuel)%nat →
  take_all fuel f = Ret (f', cs) → unmasks cs ds →
  ∃ ms, chunk_loop now fuel (reading f0) 0 (MkDiscriminator f [masquerader]) connect sent = Some (Ret (reading f', sent ++ (SendInbound <$> ms))) ∧
    Forall2 carries ds ms.
Proof.
  revert f cs ds sent; induction fuel as [|fuel IH]; intros f cs ds sent Hs Hl Ht Hu; [lia|].
  rewrite Json.take_all_step in Ht. cbn [chunk_loop]. unfold take_chunk. cbn [framer masqueraders take_frame Json.json_framer].
  destruct (Json.take_frame_total f Hs) as (f1 & o & Hf1 & Hle & Hlt). rewrite Hf1 in *. cbn [mbind run_bind] in *. destruct o as [c|].
  - specialize (Hlt ltac:(done)). destruct (take_all fuel f1) as [[f2 cs']|] eqn:Ef2; [|done]. cbn [mbind run_bind] in Ht. injection Ht as <- <-.
    inversion_clear Hu as [|? d ? ds' [l Hc] Hu']. cbn [try_masqueraders chunk]. rewrite Hc. cbn [sequenced andb u_chunk].
    assert (Json.small (Json.data_so_far f1)) as Hs1 by (apply (Json.small_le _ (Json.data_so_far f)); [lia|done]).
    destruct connect.
    all: match goal with |- context [SendInbound ?m] =>
           destruct (IH f1 cs' ds' (sent ++ [SendInbound m]) Hs1 ltac:(lia) Ef2 Hu') as (ms & -> & Hms); exists (m :: ms) end.
    all: rewrite <- app_assoc; split; [done|constructor; [by eexists _, _|done]].
  - injection Ht as <- <-. inversion Hu. subst. exists []. split; [|constructor]. cbn. by rewrite app_nil_r.
Qed.

Lemma fill_length buf data : length (fill buf data).1 = length buf.
Proof. unfold fill. cbn. rewrite length_app, length_drop, length_take. lia. Qed.

Lemma take_filled buf data : take (length (take (length buf) data)) (fill buf data).1 = take (length buf) data.
Proof. unfold fill. cbn. by rewrite take_app_length. Qed.

Lemma poll_loop_hears fuel answers l e buf f f' cs ds sent :
  length buf = buffer_size → heard answers = (l, e) →
  Json.small (Json.data_so_far f ++ concat l) → (length (Json.data_so_far f ++ concat l) < fuel)%nat →
  feed fuel f l = Ret (f', cs) → unmasks cs ds →
  ∃ ms r, poll_loop method_is_connect now fuel (reading f) buf answers sent =
      Some (Ret (reading f', sent ++ (SendInbound <$> ms) ++ farewell e, r)) ∧
    Forall2 carries ds ms ∧ (e = false → r = TaskNotReady) ∧ (e = true → r ≠ TaskNotReady).
Proof.
  revert l buf f cs ds sent; induction answers as [|[|data|kind] answers IH]; intros l buf f cs ds sent Hbuf Hh Hs Hl Hfeed Hu; cbn [heard poll_loop] in *.
  - injection Hh as <- <-. cbn in Hfeed. injection Hfeed as <- <-. inversion Hu. subst. exists [], TaskNotReady. cbn. by rewrite app_nil_r.
  - injection Hh as <- <-. cbn in Hfeed. injection Hfeed as <- <-. inversion Hu. subst. exists [], TaskNotReady. cbn. by rewrite app_nil_r.
  - pose proof (fill_length buf data) as Hbuf'. pose proof (take_filled buf data) as Htake.
    unfold fill in Hbuf', Htake |- *. cbn [fst] in Hbuf', Htake. rewrite <- Hbuf in Hh.
    destruct (Nat.eqb_spec (length (take (length buf) data)) 0) as [E0|E0].
    { injection Hh as <- <-. cbn in Hfeed. injection Hfeed as <- <-. inversion Hu. subst. by exists [], TaskReady. }
    destruct (heard answers) as [l' e'] eqn:Eh. injection Hh as <- <-. unfold wrangle_discriminators. cbn [reading discriminators length Nat.ltb Nat.leb andb lookup list_lookup].
    rewrite Htake. unfold discriminator_add_data. cbn [framer masqueraders add_data Json.json_framer].
    cbn [feed concat] in *. change (add_data f (take (length buf) data)) with (Json.json_add_data f (take (length buf) data)) in Hfeed.
    rewrite app_assoc in Hs, Hl.
    destruct (Json.take_all_more fuel (Json.json_add_data f (take (length buf) data)) (concat l') fuel) as (f1 & cs1 & Ht1 & _ & Hlen & _);
      [done|rewrite length_app in Hl; simpl; lia|done|].
    rewrite Ht1 in Hfeed. cbn [mbind run_bind] in Hfeed. destruct (feed fuel f1 l') as [[f2 cs2]|] eqn:Ef2; [|done]. cbn [mbind run_bind] in Hfeed.
    injection Hfeed as <- <-. apply Forall2_app_inv_l in Hu as (ds1 & ds2 & Hu1 & Hu2 & ->).
    match goal with |- context [chunk_loop _ _ _ _ _ ?c _] =>
      destruct (chunk_loop_reads fuel (Json.json_add_data f (take (length buf) data)) f1 f cs1 ds1 c sent) as (ms1 & Hms1 & Hc1) end; [..|done|done|].
    { apply (Json.small_le _ ((Json.data_so_far f ++ take (length buf) data) ++ concat l')); [rewrite length_app; simpl; lia|done]. }
    { rewrite length_app in Hl. simpl. lia. }
    change ({| local_addr := here; peer_addr := there; reception_port := port;
      discriminators := [{| framer := f; masqueraders := [masquerader] |}]; is_clandestine := true; sequencer := 0 |}) with (reading f).
    rewrite Hms1. simpl in Hlen.
    destruct (IH l' (take (length buf) data ++ drop (length (take (length buf) data)) buf) f1 cs2 ds2 (sent ++ (SendInbound <$> ms1)))
      as (ms2 & r & -> & Hc2 & Hr); [lia|done|by apply (Json.small_le _ ((Json.data_so_far f ++ take (length buf) data) ++ concat l'))|lia|done|done|].
    exists (ms1 ++ ms2), r. rewrite fmap_app, <- !app_assoc. split; [done|]. split; [by apply Forall2_app|done].
  - destruct (indicates_dead_stream kind).
    + injection Hh as <- <-. cbn in Hfeed. injection Hfeed as <- <-. inversion Hu. subst. by exists [], TaskErr.
    + by apply (IH l buf f cs).
Qed.

Lemma poll_hears fuel answers l e f f' cs ds sent :
  heard answers = (l, e) →
  Json.small (Json.data_so_far f ++ concat l) → (length (Json.data_so_far f ++ concat l) < fuel)%nat →
  feed fuel f l = Ret (f', cs) → unmasks cs ds →
  ∃ ms r, poll method_is_connect now fuel (reading f) answers sent =
      Some (Ret (reading f', sent ++ (SendInbound <$> ms) ++ farewell e, r)) ∧
    Forall2 carries ds ms ∧ (e = false → r = TaskNotReady) ∧ (e = true → r ≠ TaskNotReady).
Proof. exact (poll_loop_hears fuel answers l e (replicate buffer_size 0) f f' cs ds sent (length_replicate _ _)). Qed.

Lemma run_reader_hears fuel polls l e f f' cs ds sent :
  heard_all polls = (l, e) → Json.small (Json.data_so_far f ++ concat l) → (length (Json.data_so_far f ++ concat l) < fuel)%nat →
  Json.json_take_frame f = Ret (f, None) → feed fuel f l = Ret (f', cs) → unmasks cs ds →
  ∃ ms r, run_reader method_is_connect now fuel (reading f) polls sent =
      Some (Ret (reading f', sent ++ (SendInbound <$> ms) ++ farewell e, r)) ∧ Forall2 carries ds ms.
Proof.
  revert l f cs ds sent; induction polls as [|answers polls IH]; intros l f cs ds sent Hh Hs Hl Hset Hfeed Hu; cbn [heard_all run_reader] in *.
  { injection Hh as <- <-. cbn in Hfeed. injection Hfeed as <- <-. inversion Hu. subst. exists [], TaskNotReady. cbn. by rewrite app_nil_r. }
  destruct (heard answers) as [l1 e1] eqn:Eh.
  destruct e1.
  { injection Hh as <- <-. destruct (poll_hears fuel answers l1 true f f' cs ds sent) as (ms & r & -> & Hms & _ & Hr); [done..|].
    specialize (Hr eq_refl). exists ms, r. split; [|exact Hms]. destruct r; [reflexivity|congruence|reflexivity]. }
  destruct (heard_all polls) as [l2 e2]. injection Hh as <- <-. rewrite concat_app, app_assoc in Hs, Hl.
  assert (Json.small (Json.data_so_far f ++ concat l1)) as Hs1.
  { apply (Json.small_le _ ((Json.data_so_far f ++ concat l1) ++ concat l2)); [rewrite (length_app (_ ++ _)); lia|done]. }
  assert (length (Json.data_so_far f ++ concat l1) < fuel)%nat as Hl1 by (rewrite (length_app (_ ++ _)) in Hl; lia).
  rewrite feed_app, (Json.feed_whole l1) in Hfeed by done.
  destruct (Json.take_all_more fuel (Json.json_add_data f (concat l1)) (concat l2) fuel) as (f1 & cs1 & Ht1 & Hset1 & Hlen & _); [done|done|done|].
  rewrite Ht1 in Hfeed. cbn [mbind run_bind] in Hfeed. destruct (feed fuel f1 l2) as [[f2 cs2]|] eqn:Ef2; [|done]. cbn [mbind run_bind] in Hfeed.
  injection Hfeed as <- <-. apply Forall2_app_inv_l in Hu as (ds1 & ds2 & Hu1 & Hu2 & ->). simpl in Hlen.
  destruct (poll_hears fuel answers l1 false f f1 cs1 ds1 sent) as (ms1 & r & -> & Hms1 & Hr & _); [done..| |done|].
  { by rewrite Json.feed_whole. }
  rewrite Hr by done.
  destruct (IH l2 f1 cs2 ds2 (sent ++ (SendInbound <$> ms1) ++ [])) as (ms2 & r2 & Hrun & Hms2);
    [done|by apply (Json.small_le _ ((Json.data_so_far f ++ concat l1) ++ concat l2))|lia|done|done|done|].
  cbn [farewell] in *. rewrite Hrun. exists (ms1 ++ ms2), r2. rewrite app_nil_r, fmap_app, <- !app_assoc. split; [done|by apply Forall2_app].
Qed.

(** The messages that lie whole in what was read come out, in order. *)
Lemma masked_stream_heard fuel js ds polls l e :
  Forall framed js → Json.small (concat js) → Forall2 (λ j d, masquerader j = Ok (MkUnmasked d true false)) js ds →
  heard_all polls = (l, e) → concat l `prefix_of` concat js → (length (concat l) < fuel)%nat →
  ∃ k f ms r, whole js (length (concat l)) k ∧ Forall2 carries (take k ds) ms ∧
    run_reader method_is_connect now fuel (reading Json.json_new) polls [] = Some (Ret (reading f, (SendInbound <$> ms) ++ farewell e, r)).
Proof.
  intros Hjs Hs Hm Hh Hp Hl. destruct (take_all_framed js Json.reset (concat l) fuel Hjs Hs Hp Hl) as (k & f & Hk & Ht).
  assert (Json.small (concat l)) as Hsl by (apply (Json.small_le _ (concat js)); [by apply prefix_length|done]).
  destruct (run_reader_hears fuel polls l e Json.json_new f ((λ j, MkChunk j true) <$> take k js) (take k ds) []) as (ms & r & Hrun & Hms); [done..| | |].
  - rewrite Json.feed_whole by done. exact Ht.
  - unfold unmasks. apply Forall2_fmap_l. eapply Forall2_impl; [by apply Forall2_take|]. intros j d Hj. by exists true.
  - by exists k, f, ms, r.
Qed.

End reading.

End Masquerade.
