(* ===== verification/StreamPool.v ===== *)
(** * The stream handler pool and the dispatcher

    Models [node/src/stream_handler_pool.rs], the actor that holds the streams to
    neighbors and browsers, with the messages of [node/src/stream_messages.rs] and
    [node/src/sub_lib/stream_handler_pool.rs], and [node/src/dispatcher.rs], which
    stands between the streams and the other actors.

    A handler returns the new state and what it sends, in order; a future that it
    spawns and a line that it logs are among what it sends.  The tasks of a stream
    are a [Channel] (the channel of its writer, which the pool sends into) and a
    reader of [Masquerade.v].  A sender is the number of its channel.  All the
    subscriptions of the pool are set by one message, so [bound] stands for them.

    The life of the pool is a list of events on a state that has its mailbox, its
    timers, the queries that the neighborhood has not answered and the attempts to
    connect that are under way.  Since everything that happens to a message leaves a
    trace, the messages that were handed in can be accounted for.  A request to crash
    the pool, which panics on purpose, is left out. *)
From Stdlib Require Import String.
From S2P Require Import Prelude.
From S2P Require Import CountryBlockStream SequenceBuffer StreamWriters Framer JsonFramer HttpFramer NeighborhoodDatabase ConnectionStatus Cryptde Route Hopper NeighborhoodActor ProtocolPacks ProxyServer ProxyClient Masquerade.
From stdpp Require Import base list gmap.

Module StreamPool.
Import Framer Masquerade.
Import Hopper(Endpoint(..), TransmitDataMsg, endpoint, tx_last_data, tx_data, tx_sequence_number, InboundClientData).
Local Open Scope Z_scope.

Abbreviation SocketAddr := (Stream.IpAddr * Z)%type (only parsing).
Abbreviation IpAddr := Stream.IpAddr (only parsing).
Abbreviation SequencedPacket := SequenceBuffer.SequencedPacket (only parsing).
Abbreviation PublicKey := Cryptde.PublicKey (only parsing).

(** ** Messages *)

Record NodeQueryResponseMetadata := MkMetadata {
  public_key : PublicKey;
  node_addr_opt : option Neighborhood.NodeAddr;
  rate_pack : Neighborhood.RatePack
}.

Record DispatcherNodeQueryResponse := MkResponse {
  result_ : option NodeQueryResponseMetadata;
  context : TransmitDataMsg
}.

(** ** Keys *)

Definition is_loopback (ip : IpAddr) : bool :=
  match ip with
  | Stream.IpV4 a => a / 2 ^ 24 =? 127
  | Stream.IpV6 a => a =? 1
  end.

Definition localhost : IpAddr := Stream.IpV4 0x7F000001.

Definition stream_writer_key (socket_addr : SocketAddr) : SocketAddr :=
  if is_loopback socket_addr.1 then socket_addr else (socket_addr.1, 0).

(** ** The pool *)

(** The channel to the writer of a stream: whom the stream is to, which of the two
    writers takes the packets, whether it still does, and what was sent into it. *)
Record Channel := MkChannel {
  ch_peer_addr : SocketAddr;
  ch_clandestine : bool;
  ch_alive : bool;
  ch_packets : list SequencedPacket
}.

(** Why a message is dropped. *)
Inductive PoolError :=
| NoNodeFound (e : Endpoint)
| NoKnownIp (k : PublicKey)
| LocalConnectionNotFound (peer_addr : SocketAddr)
| MaskingFailed (peer_addr : SocketAddr) (e : MasqueradeError)
| WriterDisabled (peer_addr : SocketAddr)
| CouldNotConnect (peer_addr : SocketAddr).

Section pool.
Context {F : Type} `{!Framer F}.
Context (mask : list Z → run (result MasqueradeError (list Z))).

Record PortConfiguration := MkPortConfiguration {
  discriminator_factories : list (run (Discriminator F));
  pc_is_clandestine : bool
}.

Record AddStreamMsg := MkAddStream {
  as_local_addr : SocketAddr;
  as_peer_addr : SocketAddr;
  origin_port : option Z;
  port_configuration : PortConfiguration
}.

Inductive Message :=
| AddStream (m : AddStreamMsg)
| RemoveStream (m : RemoveStreamMsg)
| TransmitData (m : TransmitDataMsg)
| NodeQueryResponse (m : DispatcherNodeQueryResponse)
| ScheduledResponse (m : DispatcherNodeQueryResponse) (delay : Z).

(** What a handler leaves behind.  [Queued] and [Discarded] are lines of the log. *)
Inductive Sent :=
| ToSelf (m : Message)
| NotifyLater (m : DispatcherNodeQueryResponse) (delay : Z)
| AskNeighborhood (query : PublicKey) (context : TransmitDataMsg)
| ToDispatcher (m : ProxyServer.StreamShutdownMsg)
| RemoveNeighbor (public_key : PublicKey)
| ConnectionProgress (peer_ip : IpAddr) (event : ConnectionStatus.ConnectionProgressEvent)
| SpawnConnect (peer_addr : SocketAddr) (m : DispatcherNodeQueryResponse)
| Queued (channel : nat) (peer_addr : SocketAddr) (m : TransmitDataMsg)
| Discarded (e : PoolError) (m : TransmitDataMsg)
| UnpopulatedEntry (stream_type : NeighborhoodActor.RemovedStreamType) (key : SocketAddr).

Record StreamHandlerPool := MkPool {
  stream_writers : gmap SocketAddr (option nat);
  bound : bool;
  clandestine_discriminator_factories : list (run (Discriminator F));
  channels : list Channel;
  readers : list (StreamReaderReal F)
}.

Definition pool_new (factories : list (run (Discriminator F))) : StreamHandlerPool := MkPool ∅ false factories [] [].

(** [Handler<PoolBindMessage>]. *)
Definition pool_bind (self : StreamHandlerPool) : StreamHandlerPool :=
  MkPool (stream_writers self) true (clandestine_discriminator_factories self) (channels self) (readers self).

Definition set_writers (self : StreamHandlerPool) (m : gmap SocketAddr (option nat)) : StreamHandlerPool :=
  MkPool m (bound self) (clandestine_discriminator_factories self) (channels self) (readers self).
Definition set_channels (self : StreamHandlerPool) (l : list Channel) : StreamHandlerPool :=
  MkPool (stream_writers self) (bound self) (clandestine_discriminator_factories self) l (readers self).
Definition set_readers (self : StreamHandlerPool) (l : list (StreamReaderReal F)) : StreamHandlerPool :=
  MkPool (stream_writers self) (bound self) (clandestine_discriminator_factories self) (channels self) l.

(** [expect] on a subscription. *)
Definition subs {A} (self : StreamHandlerPool) (k : run A) : run A := panic_if (negb (bound self)) k.

Definition set_up_stream_reader (self : StreamHandlerPool) (origin_port : option Z) (port_configuration : PortConfiguration)
    (peer_addr local_addr : SocketAddr) : run StreamHandlerPool :=
  subs self
    (stream_reader ← reader_new origin_port (discriminator_factories port_configuration) (pc_is_clandestine port_configuration) peer_addr local_addr;
     Ret (set_readers self (readers self ++ [stream_reader]))).

Definition set_up_stream_writer (self : StreamHandlerPool) (peer_addr : SocketAddr) (is_clandestine : bool) : StreamHandlerPool :=
  let tx := length (channels self) in
  set_channels (set_writers self (<[stream_writer_key peer_addr:=Some tx]> (stream_writers self)))
    (channels self ++ [MkChannel peer_addr is_clandestine true []]).

Definition handle_add_stream_msg (self : StreamHandlerPool) (msg : AddStreamMsg) : run StreamHandlerPool :=
  let port_config := port_configuration msg in
  let self := set_up_stream_writer self (as_peer_addr msg) (pc_is_clandestine port_config) in
  set_up_stream_reader self (origin_port msg) port_config (as_peer_addr msg) (as_local_addr msg).

Definition handle_remove_stream_msg (self : StreamHandlerPool) (msg : RemoveStreamMsg) : StreamHandlerPool * list Sent :=
  let key := stream_writer_key (rm_peer_addr msg) in
  let '(log, report_to_counterpart) :=
    match stream_writers self !! key with
    | None => ([], false)
    | Some None => ([UnpopulatedEntry (rm_stream_type msg) key], false)
    | Some (Some _) => ([], true)
    end in
  (set_writers self (delete key (stream_writers self)),
   log ++ [ToDispatcher (ProxyServer.MkShutdown (rm_peer_addr msg) (rm_stream_type msg) report_to_counterpart)]).

Definition handle_transmit_data_msg (self : StreamHandlerPool) (msg : TransmitDataMsg) : run (list Sent) :=
  subs self
    (Ret match endpoint msg with
         | Key key => [AskNeighborhood key msg]
         | Socket socket_addr =>
             [ToSelf (NodeQueryResponse (MkResponse
               (Some (MkMetadata [] (Some (Neighborhood.node_addr_new socket_addr.1 [socket_addr.2])) Neighborhood.ZERO_RATE_PACK)) msg))]
         end).

Definition extract_node_addr (msg : DispatcherNodeQueryResponse) : result PoolError Neighborhood.NodeAddr :=
  match result_ msg with
  | Some metadata =>
      match node_addr_opt metadata with
      | Some node_addr => Ok node_addr
      | None => Err (NoKnownIp (public_key metadata))
      end
  | None => Err (NoNodeFound (endpoint (context msg)))
  end.

(** The packet that [send_packet_on_open_stream] makes of a message. *)
Definition make_packet (m : TransmitDataMsg) : run (result MasqueradeError SequencedPacket) :=
  match tx_sequence_number m with
  | None =>
      masked ← mask (tx_data m);
      Ret (masked_data ← masked; Ok (SequenceBuffer.MkPacket masked_data 0 false))
  | Some _ => Ret (Ok (SequenceBuffer.from_transmit_data_msg (tx_data m) (tx_sequence_number m) (tx_last_data m)))
  end.

(** [unbounded_send]: a channel whose receiver is gone refuses. *)
Definition unbounded_send (self : StreamHandlerPool) (tx : nat) (packet : SequencedPacket) : option StreamHandlerPool :=
  match channels self !! tx with
  | Some (MkChannel peer clandestine true packets) =>
      Some (set_channels self (<[tx:=MkChannel peer clandestine true (packets ++ [packet])]> (channels self)))
  | _ => None
  end.

(** The result says whether the writer is to be removed. *)
Definition send_packet_on_open_stream (self : StreamHandlerPool) (msg : DispatcherNodeQueryResponse) (peer_addr : SocketAddr) (tx : nat)
    : run (result PoolError (StreamHandlerPool * list Sent * bool)) :=
  packet ← make_packet (context msg);
  match packet with
  | Err e => Ret (Err (MaskingFailed peer_addr e))
  | Ok packet =>
      match unbounded_send self tx packet with
      | None => Ret (Ok (self, [Discarded (WriterDisabled peer_addr) (context msg)], true))
      | Some self => Ret (Ok (self, [Queued tx peer_addr (context msg)], tx_last_data (context msg)))
      end
  end.

Definition delay_packet_for_opening_stream (self : StreamHandlerPool) (msg : DispatcherNodeQueryResponse) : run (list Sent) :=
  subs self (Ret [ToSelf (ScheduledResponse msg 100)]).

Definition open_new_stream_and_recycle_message (self : StreamHandlerPool) (msg : DispatcherNodeQueryResponse) (peer_addr : SocketAddr)
    : run (list Sent) :=
  subs self (_ ← expect (result_ msg); Ret [SpawnConnect peer_addr msg]).

Definition send_or_queue_packet (self : StreamHandlerPool) (msg : DispatcherNodeQueryResponse) (peer_addr sw_key : SocketAddr)
    : run (result PoolError (StreamHandlerPool * list Sent)) :=
  match stream_writers self !! sw_key with
  | Some (Some tx_box) =>
      r ← send_packet_on_open_stream self msg peer_addr tx_box;
      Ret ('(self, sent, remove_stream_writer) ← r;
           Ok (if remove_stream_writer : bool
               then set_writers self (delete (stream_writer_key peer_addr) (stream_writers self)) else self, sent))
  | Some None => sent ← delay_packet_for_opening_stream self msg; Ret (Ok (self, sent))
  | None =>
      if bool_decide (peer_addr.1 = localhost) then Ret (Err (LocalConnectionNotFound peer_addr))
      else
        let self := set_writers self (<[stream_writer_key peer_addr:=None]> (stream_writers self)) in
        sent ← open_new_stream_and_recycle_message self msg peer_addr;
        Ret (Ok (self, sent))
  end.

Definition handle_dispatcher_node_query_response (self : StreamHandlerPool) (msg : DispatcherNodeQueryResponse)
    : run (StreamHandlerPool * list Sent) :=
  match extract_node_addr msg with
  | Err e => Ret (self, [Discarded e (context msg)])
  | Ok node_addr =>
      port ← expect (head (Neighborhood.ports node_addr));
      let peer_addr := (Neighborhood.ip_addr node_addr, port) in
      r ← send_or_queue_packet self msg peer_addr (stream_writer_key peer_addr);
      Ret (match r with
           | Ok (self, sent) => (self, sent)
           | Err e => (self, [Discarded e (context msg)])
           end)
  end.

(** The [Handler]s of the actor. *)
Definition handle (self : StreamHandlerPool) (msg : Message) : run (StreamHandlerPool * list Sent) :=
  match msg with
  | AddStream m => self ← handle_add_stream_msg self m; Ret (self, [])
  | RemoveStream m => Ret (handle_remove_stream_msg self m)
  | TransmitData m => sent ← handle_transmit_data_msg self m; Ret (self, sent)
  | NodeQueryResponse m => handle_dispatcher_node_query_response self m
  | ScheduledResponse m delay => Ret (self, [NotifyLater m delay])
  end.

(** [StreamStartFailureHandler::handle]. *)
Definition failure_handle (peer_addr : SocketAddr) (msg : DispatcherNodeQueryResponse) : run (list Sent) :=
  metadata ← expect (result_ msg);
  Ret [Discarded (CouldNotConnect peer_addr) (context msg);
       ToSelf (RemoveStream (MkRemove (localhost, 0) peer_addr NeighborhoodActor.Clandestine));
       RemoveNeighbor (public_key metadata);
       ConnectionProgress peer_addr.1 ConnectionStatus.EvTcpConnectionFailed].

(** [StreamStartSuccessHandler::handle]; the connection has the addresses of its ends. *)
Definition success_handle (factories : list (run (Discriminator F))) (peer_addr : SocketAddr) (msg : DispatcherNodeQueryResponse)
    (info_local_addr info_peer_addr : SocketAddr) : list Sent :=
  [ToSelf (AddStream (MkAddStream info_local_addr info_peer_addr (Some info_local_addr.2) (MkPortConfiguration factories true)));
   ToSelf (NodeQueryResponse msg);
   ConnectionProgress peer_addr.1 ConnectionStatus.EvTcpConnectionSuccessful].
End pool.

(** ** The life of a pool *)

Section life.
Context {F : Type} `{!Framer F}.
Context (mask : list Z → run (result MasqueradeError (list Z))).

Local Abbreviation Message := (Message (F := F)).
Local Abbreviation Sent := (Sent (F := F)).
Local Abbreviation StreamHandlerPool := (StreamHandlerPool (F := F)).

(** The pool with what waits for it, and the records of the observer: what was
    handed in, what the neighborhood answered and everything the pool sent. *)
Record Life := MkLife {
  pool : StreamHandlerPool;
  mailbox : list Message;
  timers : list DispatcherNodeQueryResponse;
  asked : list (PublicKey * TransmitDataMsg);
  connecting : list (SocketAddr * DispatcherNodeQueryResponse);
  handed_in : list TransmitDataMsg;
  answered : list (PublicKey * option NodeQueryResponseMetadata);
  log : list Sent
}.

Definition born (factories : list (run (Discriminator F))) : Life := MkLife (pool_bind (pool_new factories)) [] [] [] [] [] [] [].

Definition post (s : Life) (x : Sent) : Life :=
  MkLife (pool s)
    (mailbox s ++ match x with ToSelf m => [m] | _ => [] end)
    (timers s ++ match x with NotifyLater m _ => [m] | _ => [] end)
    (asked s ++ match x with AskNeighborhood k m => [(k, m)] | _ => [] end)
    (connecting s ++ match x with SpawnConnect a m => [(a, m)] | _ => [] end)
    (handed_in s) (answered s) (log s ++ [x]).

Definition post_all (s : Life) (l : list Sent) : Life := foldl post s l.

Definition with_pool (s : Life) (p : StreamHandlerPool) : Life :=
  MkLife p (mailbox s) (timers s) (asked s) (connecting s) (handed_in s) (answered s) (log s).
Definition with_mailbox (s : Life) (l : list Message) : Life :=
  MkLife (pool s) l (timers s) (asked s) (connecting s) (handed_in s) (answered s) (log s).
Definition with_timers (s : Life) (l : list DispatcherNodeQueryResponse) : Life :=
  MkLife (pool s) (mailbox s) l (asked s) (connecting s) (handed_in s) (answered s) (log s).
Definition with_connecting (s : Life) (l : list (SocketAddr * DispatcherNodeQueryResponse)) : Life :=
  MkLife (pool s) (mailbox s) (timers s) (asked s) l (handed_in s) (answered s) (log s).

(** What can happen.  The dispatcher hands in a message; a listener has a new
    stream; a reader is over; a writer is over; the actor takes the next message of
    its mailbox; the neighborhood answers a query; a timer rings; an attempt to
    connect succeeds, with a local address, or fails. *)
Inductive Event :=
| HandIn (m : TransmitDataMsg)
| Listen (m : AddStreamMsg (F := F))
| ReaderOver (m : RemoveStreamMsg)
| WriterOver (tx : nat)
| Deliver
| Answer (i : nat) (r : option NodeQueryResponseMetadata)
| Ring (i : nat)
| Connected (i : nat) (at_ : SocketAddr)
| ConnectFailed (i : nat).

Definition over (ch : Channel) : Channel := MkChannel (ch_peer_addr ch) (ch_clandestine ch) false (ch_packets ch).

Definition act (s : Life) (m : Message) : run Life :=
  '(p, sent) ← handle mask (pool s) m; Ret (post_all (with_pool s p) sent).

Definition step (s : Life) (e : Event) : run Life :=
  match e with
  | HandIn m =>
      Ret (MkLife (pool s) (mailbox s ++ [TransmitData m]) (timers s) (asked s) (connecting s) (handed_in s ++ [m]) (answered s) (log s))
  | Listen m => Ret (with_mailbox s (mailbox s ++ [AddStream m]))
  | ReaderOver m => Ret (with_mailbox s (mailbox s ++ [RemoveStream m]))
  | WriterOver tx => Ret (with_pool s (set_channels (pool s) (alter over tx (channels (pool s)))))
  | Deliver =>
      match mailbox s with
      | [] => Ret s
      | m :: rest => act (with_mailbox s rest) m
      end
  | Answer i r =>
      match asked s !! i with
      | None => Ret s
      | Some (k, m) =>
          Ret (MkLife (pool s) (mailbox s ++ [NodeQueryResponse (MkResponse r m)]) (timers s) (delete i (asked s)) (connecting s)
                 (handed_in s) (answered s ++ [(k, r)]) (log s))
      end
  | Ring i =>
      match timers s !! i with
      | None => Ret s
      | Some m => act (with_timers s (delete i (timers s))) (NodeQueryResponse m)
      end
  | Connected i at_ =>
      match connecting s !! i with
      | None => Ret s
      | Some (peer_addr, m) =>
          Ret (post_all (with_connecting s (delete i (connecting s)))
                 (success_handle (clandestine_discriminator_factories (pool s)) peer_addr m at_ peer_addr))
      end
  | ConnectFailed i =>
      match connecting s !! i with
      | None => Ret s
      | Some (peer_addr, m) =>
          sent ← failure_handle peer_addr m;
          Ret (post_all (with_connecting s (delete i (connecting s))) sent)
      end
  end.

Fixpoint steps (s : Life) (es : list Event) : run Life :=
  match es with
  | [] => Ret s
  | e :: es => s ← step s e; steps s es
  end.

(** ** The account of messages *)

Definition carried (m : Message) : list TransmitDataMsg :=
  match m with
  | TransmitData m => [m]
  | NodeQueryResponse r | ScheduledResponse r _ => [context r]
  | _ => []
  end.

Definition settled (x : Sent) : list TransmitDataMsg :=
  match x with Queued _ _ m | Discarded _ m => [m] | _ => [] end.

Definition conveyed (x : Sent) : list TransmitDataMsg :=
  match x with
  | ToSelf m => carried m
  | NotifyLater r _ | SpawnConnect _ r => [context r]
  | AskNeighborhood _ m => [m]
  | _ => settled x
  end.

(** The messages that wait: in the mailbox, for a timer, for the neighborhood or
    for a connection. *)
Definition under_way (s : Life) : list TransmitDataMsg :=
  (mailbox s ≫= carried) ++ (context <$> timers s) ++ (snd <$> asked s) ++ ((λ c, context c.2) <$> connecting s).

Definition account (s : Life) : list TransmitDataMsg := under_way s ++ (log s ≫= settled).

Lemma handle_conveys p m p' sent : handle mask p m = Ret (p', sent) → sent ≫= conveyed = carried m.
Proof.
  destruct m as [m|m|m|m|m d]; cbn [handle carried].
  - destruct (handle_add_stream_msg p m); [|done]. cbn. by intros [= _ <-].
  - unfold handle_remove_stream_msg. destruct (stream_writers p !! _) as [[]|]; by intros [= _ <-].
  - unfold handle_transmit_data_msg, subs, panic_if. destruct (negb _); [done|]. cbn. destruct (endpoint m); by intros [= _ <-].
  - unfold handle_dispatcher_node_query_response. destruct (extract_node_addr m) as [na|e]; [|by intros [= _ <-]].
    destruct (head _) as [port|]; [|done]. cbn. unfold send_or_queue_packet.
    destruct (stream_writers p !! _) as [[tx|]|].
    + unfold send_packet_on_open_stream. destruct (make_packet _ _) as [[k|e]|]; [|by intros [= _ <-]|done]. cbn.
      destruct (unbounded_send p tx k); by intros [= _ <-].
    + unfold delay_packet_for_opening_stream, subs, panic_if. destruct (negb _); [done|]. by intros [= _ <-].
    + case_bool_decide; [by intros [= _ <-]|]. unfold open_new_stream_and_recycle_message, subs, panic_if. destruct (negb _); [done|].
      destruct (result_ m); [|done]. by intros [= _ <-].
  - by intros [= _ <-].
Qed.

Lemma post_account s x : account (post s x) ≡ₚ account s ++ conveyed x.
Proof.
  unfold account, under_way, post. destruct x as [m|r d|k m|m|k|ip ev|a r|tx a m|e m|t k]; cbn;
    rewrite ?app_nil_r, ?bind_app, ?fmap_app; cbn; rewrite ?app_nil_r; solve_Permutation.
Qed.

Lemma post_all_account s l : account (post_all s l) ≡ₚ account s ++ (l ≫= conveyed).
Proof.
  revert s; induction l as [|x l IH]; intros s; cbn; [by rewrite app_nil_r|]. rewrite IH, post_account. by rewrite app_assoc.
Qed.

Lemma act_account s m s' : act s m = Ret s' → account s' ≡ₚ account s ++ carried m ∧ handed_in s' = handed_in s.
Proof.
  unfold act. destruct (handle mask (pool s) m) as [[p sent]|] eqn:E; [|done]. cbn. intros [= <-]. split.
  - rewrite post_all_account, (handle_conveys _ _ _ _ E). done.
  - revert s E; clear; intros s _. change (handed_in s) with (handed_in (with_pool s p)). generalize (with_pool s p). clear.
    induction sent as [|x l IH]; intros s; [done|]. cbn. by rewrite IH.
Qed.

(** Every message handed in waits somewhere, or was sent into a channel, or was
    dropped, once. *)
Lemma step_account s e s' : step s e = Ret s' → handed_in s ≡ₚ account s → handed_in s' ≡ₚ account s'.
Proof.
  destruct e as [m|m|m|tx| |i r|i|i at_|i]; cbn [step].
  - intros [= <-] H. unfold account, under_way in *. cbn. rewrite bind_app, H. cbn. solve_Permutation.
  - intros [= <-] H. unfold account, under_way in *. cbn. rewrite bind_app, H. cbn. solve_Permutation.
  - intros [= <-] H. unfold account, under_way in *. cbn. rewrite bind_app, H. cbn. solve_Permutation.
  - by intros [= <-] H.
  - destruct (mailbox s) as [|m rest] eqn:Em; [by intros [= <-]|]. intros [Ha ->]%act_account H. rewrite Ha. cbn. rewrite H.
    unfold account, under_way. cbn. rewrite Em. cbn. solve_Permutation.
  - destruct (asked s !! i) as [[k m]|] eqn:Ei; intros [= <-]; [|done]. intros H. cbn [handed_in]. etransitivity; [exact H|]. unfold account, under_way. cbn. rewrite bind_app. cbn.
    rewrite (delete_Permutation (asked s) i (k, m) Ei) at 1. cbn. solve_Permutation.
  - destruct (timers s !! i) as [m|] eqn:Ei; [|by intros [= <-]]. intros [Ha ->]%act_account H. rewrite Ha. cbn. rewrite H.
    unfold account, under_way. cbn. rewrite (delete_Permutation (timers s) i m Ei) at 1. cbn. solve_Permutation.
  - destruct (connecting s !! i) as [[a m]|] eqn:Ei; [|by intros [= <-]]. remember (post_all _ _) as t eqn:Et. intros [= <-] H.
    assert (handed_in t = handed_in s) as -> by by rewrite Et. rewrite Et, post_all_account.
    etransitivity; [exact H|]. unfold account, under_way. cbn. rewrite (delete_Permutation (connecting s) i (a, m) Ei) at 1. cbn. solve_Permutation.
  - destruct (connecting s !! i) as [[a m]|] eqn:Ei; [|by intros [= <-]]. unfold failure_handle. destruct (result_ m); [|done].
    cbn [expect mbind run_bind]. remember (post_all _ _) as t eqn:Et. intros [= <-] H.
    assert (handed_in t = handed_in s) as -> by by rewrite Et. rewrite Et, post_all_account.
    etransitivity; [exact H|]. unfold account, under_way. cbn. rewrite (delete_Permutation (connecting s) i (a, m) Ei) at 1. cbn. solve_Permutation.
Qed.

(** ** What stays true *)

Definition good_factories (fs : list (run (Discriminator F))) : Prop := ∃ d ds, fs = Ret <$> (d :: ds).

(** The address a message is for: the one it names, or one that the neighborhood
    gave for the node it names. *)
Definition resolved (answers : list (PublicKey * option NodeQueryResponseMetadata)) (m : TransmitDataMsg) (a : SocketAddr) : Prop :=
  match endpoint m with
  | Socket a' => a = a'
  | Key k => ∃ md na, (k, Some md) ∈ answers ∧ node_addr_opt md = Some na ∧ Neighborhood.ip_addr na = a.1 ∧ head (Neighborhood.ports na) = Some a.2
  end.

Definition response_ok answers (r : DispatcherNodeQueryResponse) : Prop :=
  ∀ na, extract_node_addr r = Ok na →
    ∃ port, head (Neighborhood.ports na) = Some port ∧ resolved answers (context r) (Neighborhood.ip_addr na, port).

Definition message_ok answers (m : Message) : Prop :=
  match m with
  | AddStream m => good_factories (discriminator_factories (port_configuration m))
  | NodeQueryResponse r | ScheduledResponse r _ => response_ok answers r
  | RemoveStream _ | TransmitData _ => True
  end.

Definition sent_ok answers (x : Sent) : Prop :=
  match x with
  | ToSelf m => message_ok answers m
  | NotifyLater r _ => response_ok answers r
  | SpawnConnect _ r => response_ok answers r ∧ is_Some (result_ r)
  | AskNeighborhood k m => endpoint m = Key k
  | Queued _ a m => resolved answers m a
  | _ => True
  end.

(** The messages sent into a channel, in order. *)
Definition queued_on (tx : nat) (l : list Sent) : list TransmitDataMsg :=
  omap (λ x, match x with Queued tx' _ m => if decide (tx' = tx) then Some m else None | _ => None end) l.

(** The books: a channel has the packets of the messages sent into it, and a message
    goes into a channel to the place it is for. *)
Record pool_ok (p : StreamHandlerPool) (l : list Sent) : Prop := {
  ok_bound : bound p = true;
  ok_factories : good_factories (clandestine_discriminator_factories p);
  ok_writers key tx : stream_writers p !! key = Some (Some tx) →
    ∃ ch, channels p !! tx = Some ch ∧ stream_writer_key (ch_peer_addr ch) = key;
  ok_packets tx ch : channels p !! tx = Some ch →
    Forall2 (λ m k, make_packet mask m = Ret (Ok k)) (queued_on tx l) (ch_packets ch);
  ok_places tx a m : Queued tx a m ∈ l →
    ∃ ch, channels p !! tx = Some ch ∧ stream_writer_key (ch_peer_addr ch) = stream_writer_key a
}.

(** A message that ends the opening of a stream. *)
Definition ends_opening (key : SocketAddr) (m : Message) : Prop :=
  match m with
  | AddStream m => stream_writer_key (as_peer_addr m) = key
  | RemoveStream m => stream_writer_key (rm_peer_addr m) = key
  | _ => False
  end.

(** Entries of streams that are being opened come only from attempts to connect,
    and go with the messages that end them. *)
Definition openings (p p' : StreamHandlerPool) (m : Message) (sent : list Sent) : Prop :=
  ∀ key, stream_writers p' !! key = Some None →
    (stream_writers p !! key = Some None ∧ ¬ ends_opening key m) ∨ ∃ a r, SpawnConnect a r ∈ sent ∧ stream_writer_key a = key.

Lemma stream_writer_key_idemp a : stream_writer_key (stream_writer_key a) = stream_writer_key a.
Proof. unfold stream_writer_key. destruct (is_loopback a.1) eqn:E; cbn; by rewrite E. Qed.

Lemma queued_on_app tx l1 l2 : queued_on tx (l1 ++ l2) = queued_on tx l1 ++ queued_on tx l2.
Proof. apply omap_app. Qed.

Lemma queued_on_new p l tx : pool_ok p l → (length (channels p) ≤ tx)%nat → queued_on tx l = [].
Proof.
  intros Hp Htx. destruct (queued_on tx l) as [|m ms] eqn:E; [done|]. exfalso.
  assert (m ∈ queued_on tx l) as Hm by (rewrite E; left). unfold queued_on in Hm. apply list_elem_of_omap in Hm as (x & Hx & Hxm).
  destruct x as [| | | | | | |tx' a m'| |]; try done. destruct (decide (tx' = tx)) as [->|]; [|done].
  destruct (ok_places _ _ Hp _ _ _ Hx) as (ch & Hch & _). apply lookup_lt_Some in Hch. lia.
Qed.

Lemma mapM_Ret (ds : list (Discriminator F)) : mapM id (Ret <$> ds) = Ret ds.
Proof. induction ds as [|d ds IH]; [done|]. cbn. cbn in IH. by rewrite IH. Qed.

Lemma add_stream_ok p l m : pool_ok p l → good_factories (discriminator_factories (port_configuration m)) →
  ∃ p', handle_add_stream_msg p m = Ret p' ∧ pool_ok p' l ∧
    stream_writers p' = <[stream_writer_key (as_peer_addr m) := Some (length (channels p))]> (stream_writers p).
Proof.
  intros Hp (d & ds & Hf). unfold handle_add_stream_msg, set_up_stream_reader, subs, panic_if.
  change (bound (set_up_stream_writer p _ _)) with (bound p). rewrite (ok_bound _ _ Hp). cbn [negb].
  unfold reader_new, panic_if. rewrite Hf. rewrite bool_decide_eq_false_2 by done. rewrite mapM_Ret.
  eexists. split; [reflexivity|]. split; [|done]. split.
  - apply Hp.
  - apply Hp.
  - cbn. intros key tx. rewrite lookup_insert. destruct (decide _) as [<-|Hne].
    + intros [= <-]. exists (MkChannel (as_peer_addr m) (pc_is_clandestine (port_configuration m)) true []).
      split; [by rewrite lookup_app_r, Nat.sub_diag by lia|done].
    + intros Hk. destruct (ok_writers _ _ Hp _ _ Hk) as (ch & Hch & Hkey). exists ch. split; [|done]. by apply lookup_app_l_Some.
  - cbn. intros tx ch [Hch|[Hle Hch]]%lookup_app_Some; [by apply Hp|]. rewrite (queued_on_new p l tx) by done.
    apply list_lookup_singleton_Some in Hch as [_ <-]. constructor.
  - cbn. intros tx a m' Hq. destruct (ok_places _ _ Hp _ _ _ Hq) as (ch & Hch & Hkey). exists ch. split; [|done]. by apply lookup_app_l_Some.
Qed.

Definition unqueued (x : Sent) : Prop := match x with Queued _ _ _ => False | _ => True end.

(** Nothing changes for the channels: other entries, other lines in the log. *)
Lemma pool_ok_quiet p p' l sent : pool_ok p l → bound p' = bound p →
  clandestine_discriminator_factories p' = clandestine_discriminator_factories p → channels p' = channels p →
  (∀ key tx, stream_writers p' !! key = Some (Some tx) → stream_writers p !! key = Some (Some tx)) →
  Forall unqueued sent → pool_ok p' (l ++ sent).
Proof.
  intros Hp Hb Hf Hc Hw Hq. assert (∀ tx, queued_on tx sent = []) as Hnone.
  { intros tx. induction Hq as [|x sent Hx _ IH]; [done|]. cbn. by destruct x. }
  split.
  - rewrite Hb. apply Hp.
  - rewrite Hf. apply Hp.
  - rewrite Hc. intros key tx Hk. by apply Hp, Hw.
  - rewrite Hc. intros tx ch Hch. rewrite queued_on_app, Hnone, app_nil_r. by apply Hp.
  - rewrite Hc. intros tx a m [Hm|Hm]%elem_of_app; [by apply (ok_places _ _ Hp _ _ m)|].
    rewrite Forall_forall in Hq. by destruct (Hq _ Hm).
Qed.

(** A packet goes into a channel. *)
Lemma pool_ok_queue p p' l tx a m k : pool_ok p l → unbounded_send p tx k = Some p' →
  stream_writers p !! stream_writer_key a = Some (Some tx) → make_packet mask m = Ret (Ok k) →
  pool_ok p' (l ++ [Queued tx a m]) ∧ stream_writers p' = stream_writers p.
Proof.
  intros Hp Hsend Htx Hk. unfold unbounded_send in Hsend. destruct (channels p !! tx) as [[peer cl [] packets]|] eqn:Ech; try done.
  injection Hsend as <-. split; [|done].
  assert (tx < length (channels p))%nat as Hlt by by apply lookup_lt_Some in Ech.
  assert (∀ tx' ch, channels p !! tx' = Some ch →
    ∃ ch', <[tx:=MkChannel peer cl true (packets ++ [k])]> (channels p) !! tx' = Some ch' ∧ ch_peer_addr ch' = ch_peer_addr ch) as Hkeep.
  { intros tx' ch Hch. destruct (decide (tx' = tx)) as [->|Hne].
    - rewrite Ech in Hch. injection Hch as <-. eexists. split; [by apply list_lookup_insert_eq|done].
    - exists ch. split; [by rewrite list_lookup_insert_ne|done]. }
  split; [apply Hp|apply Hp|..]; cbn.
  - intros key tx' Hkey. destruct (ok_writers _ _ Hp _ _ Hkey) as (ch & Hch & <-). destruct (Hkeep _ _ Hch) as (ch' & Hch' & <-). by exists ch'.
  - intros tx' ch Hch. rewrite queued_on_app. cbn. destruct (decide (tx = tx')) as [<-|Hne].
    + rewrite list_lookup_insert_eq in Hch by done. injection Hch as <-. cbn. apply Forall2_app; [|by constructor].
      exact (ok_packets _ _ Hp _ _ Ech).
    + rewrite list_lookup_insert_ne in Hch by done. rewrite app_nil_r. by apply Hp.
  - intros tx' a' m' [Hm|Hm]%elem_of_app.
    + destruct (ok_places _ _ Hp _ _ _ Hm) as (ch & Hch & <-). destruct (Hkeep _ _ Hch) as (ch' & Hch' & <-). by exists ch'.
    + apply list_elem_of_singleton in Hm. injection Hm as -> -> ->. destruct (ok_writers _ _ Hp _ _ Htx) as (ch & Hch & <-).
      destruct (Hkeep _ _ Hch) as (ch' & Hch' & <-). by exists ch'.
Qed.

Lemma delete_writer (m : gmap SocketAddr (option nat)) (k : SocketAddr) key v : delete k m !! key = Some v → m !! key = Some v ∧ key ≠ k.
Proof. intros [Hne Hm]%lookup_delete_Some. split; [done|congruence]. Qed.

Context (mask_returns : ∀ d, mask d ≠ Panic).

Lemma make_packet_returns m : ∃ r, make_packet mask m = Ret r.
Proof using mask_returns.
  unfold make_packet. destruct (tx_sequence_number m); [by eexists|]. destruct (mask (tx_data m)) as [r|] eqn:E; [by eexists|]. by destruct (mask_returns (tx_data m)).
Qed.

(** What a handler does. *)
Definition handled answers (p : StreamHandlerPool) (l : list Sent) (m : Message) (r : run (StreamHandlerPool * list Sent)) : Prop :=
  ∃ p' sent, r = Ret (p', sent) ∧ pool_ok p' (l ++ sent) ∧ Forall (sent_ok answers) sent ∧ openings p p' m sent.

Lemma send_or_queue_handled answers p l r na port :
  pool_ok p l → extract_node_addr r = Ok na → head (Neighborhood.ports na) = Some port →
  response_ok answers r → resolved answers (context r) (Neighborhood.ip_addr na, port) →
  handled answers p l (NodeQueryResponse r) (handle_dispatcher_node_query_response mask p r).
Proof using mask_returns.
  intros Hp He Hport Hr Hres. unfold handled, handle_dispatcher_node_query_response. rewrite He, Hport. cbn [expect mbind run_bind].
  set (a := (Neighborhood.ip_addr na, port)) in *. unfold send_or_queue_packet.
  assert (∀ e, handled answers p l (NodeQueryResponse r) (Ret (p, [Discarded e (context r)]))) as Hdrop.
  { intros e. eexists _, _. split; [reflexivity|]. split; [apply (pool_ok_quiet p); [done..|by repeat constructor]|]. split; [by repeat constructor|]. intros key Hk. left. split; [done|intros []]. }
  destruct (stream_writers p !! stream_writer_key a) as [[tx|]|] eqn:Ek.
  - unfold send_packet_on_open_stream. destruct (make_packet_returns (context r)) as [[k|e] Hk]; rewrite Hk; cbn [mbind run_bind result_bind]; [|apply Hdrop].
    destruct (unbounded_send p tx k) as [p1|] eqn:Es; cbn [mbind result_bind].
    + destruct (pool_ok_queue p p1 l tx a (context r) k Hp Es Ek Hk) as [Hp1 Hw1].
      eexists _, _. split; [reflexivity|]. rewrite <- (app_nil_r (l ++ _)). split; [|split; [by repeat constructor|]].
      * apply (pool_ok_quiet p1); [done|by destruct (tx_last_data _)..| |constructor].
        intros key tx' Hkey. destruct (tx_last_data (context r)); [|done]. by apply delete_writer in Hkey as [? _].
      * intros key Hkey. left. split; [|intros []]. rewrite <- Hw1. destruct (tx_last_data (context r)); [|done]. by apply delete_writer in Hkey as [? _].
    + eexists _, _. split; [reflexivity|]. split; [|split; [by repeat constructor|]].
      * apply (pool_ok_quiet p); [done..| |by repeat constructor]. intros key tx' Hkey. by apply delete_writer in Hkey as [? _].
      * intros key Hkey. left. split; [|intros []]. by apply delete_writer in Hkey as [? _].
  - unfold delay_packet_for_opening_stream, subs, panic_if. rewrite (ok_bound _ _ Hp). cbn.
    eexists _, _. split; [reflexivity|]. split; [apply (pool_ok_quiet p); [done..|by repeat constructor]|]. split; [by repeat constructor|]. intros key Hkey. left. split; [done|intros []].
  - case_bool_decide; [apply Hdrop|]. unfold open_new_stream_and_recycle_message, subs, panic_if.
    change (bound (set_writers p _)) with (bound p). rewrite (ok_bound _ _ Hp). cbn [negb].
    unfold extract_node_addr in He. destruct (result_ r) as [md|] eqn:Emd; [|done]. cbn.
    eexists _, _. split; [reflexivity|]. split; [|split].
    + apply (pool_ok_quiet p); [done..| |by repeat constructor]. cbn. intros key tx'. rewrite lookup_insert. by destruct (decide _).
    + constructor; [|constructor]. split; [done|]. by rewrite Emd.
    + intros key. cbn. rewrite lookup_insert. destruct (decide _) as [<-|Hne]; intros Hkey.
      * right. exists a, r. split; [left|done].
      * left. split; [done|intros []].
Qed.

Lemma handle_handled answers p l m : pool_ok p l → message_ok answers m → handled answers p l m (handle mask p m).
Proof using mask_returns.
  intros Hp Hm. destruct m as [m|m|m|r|r d]; cbn [handle message_ok] in *.
  - destruct (add_stream_ok p l m Hp Hm) as (p' & -> & Hp' & Hw). eexists _, _. split; [reflexivity|]. rewrite app_nil_r. split; [done|].
    split; [constructor|]. intros key. rewrite Hw, lookup_insert. destruct (decide _) as [|Hne]; [done|]. intros Hkey. by left.
  - eexists _, _. split; [by rewrite <- surjective_pairing|]. unfold handle_remove_stream_msg. split; [|split].
    + apply (pool_ok_quiet p); [done|by destruct (stream_writers p !! _) as [[]|]..| |by destruct (stream_writers p !! _) as [[]|]; repeat constructor].
      intros key tx. destruct (stream_writers p !! _) as [[]|]; cbn; by intros [? _]%delete_writer.
    + by destruct (stream_writers p !! _) as [[]|]; repeat constructor.
    + intros key. destruct (stream_writers p !! stream_writer_key (rm_peer_addr m)) as [[]|]; cbn; intros [? Hne]%delete_writer; left; split; [done|congruence|done|congruence|done|congruence].
  - unfold handle_transmit_data_msg, subs, panic_if. rewrite (ok_bound _ _ Hp). cbn [negb mbind run_bind].
    eexists _, _. split; [reflexivity|]. split; [apply (pool_ok_quiet p); [done..|]; by destruct (endpoint m); repeat constructor|]. split.
    + destruct (endpoint m) as [k|a] eqn:Ee; (constructor; [|constructor]); cbn; [done|]. intros na [= <-]. exists a.2. cbn. split; [done|].
      unfold resolved. cbn. rewrite Ee. by destruct a.
    + intros key Hkey. left. split; [done|intros []].
  - destruct (extract_node_addr r) as [na|e] eqn:He.
    + destruct (Hm na He) as (port & Hport & Hres). by apply (send_or_queue_handled _ _ _ _ na port).
    + unfold handle_dispatcher_node_query_response. rewrite He. eexists _, _. split; [reflexivity|].
      split; [apply (pool_ok_quiet p); [done..|by repeat constructor]|]. split; [by repeat constructor|]. intros key Hkey. left. split; [done|intros []].
  - eexists _, _. split; [reflexivity|]. split; [apply (pool_ok_quiet p); [done..|by repeat constructor]|]. split; [by repeat constructor|].
    intros key Hkey. left. split; [done|intros []].
Qed.

(** ** Reachable states *)

(** A stream that is being opened has an attempt under way, or the message that
    ends its opening waits in the mailbox. *)
Definition tended (s : Life) (key : SocketAddr) : Prop :=
  (∃ a r, (a, r) ∈ connecting s ∧ stream_writer_key a = key) ∨ (∃ m, m ∈ mailbox s ∧ ends_opening key m).

Record queues_ok (s : Life) : Prop := {
  ok_mailbox : Forall (message_ok (answered s)) (mailbox s);
  ok_timers : Forall (response_ok (answered s)) (timers s);
  ok_asked : Forall (λ q, endpoint q.2 = Key q.1) (asked s);
  ok_connecting : Forall (λ c, response_ok (answered s) c.2 ∧ is_Some (result_ c.2)) (connecting s);
  ok_log : Forall (sent_ok (answered s)) (log s)
}.

Record life_ok (s : Life) : Prop := {
  ok_pool : pool_ok (pool s) (log s);
  ok_queues : queues_ok s;
  ok_openings key : stream_writers (pool s) !! key = Some None → tended s key
}.

(** What the pool is promised: listeners give it discriminators, and an address
    from the neighborhood has a port. *)
Definition good_event (e : Event) : Prop :=
  match e with
  | Listen m => good_factories (discriminator_factories (port_configuration m))
  | Answer _ (Some md) => ∀ na, node_addr_opt md = Some na → Neighborhood.ports na ≠ []
  | _ => True
  end.

Lemma post_queues s x : queues_ok s → sent_ok (answered s) x → queues_ok (post s x).
Proof using Type.
  intros [H1 H2 H3 H4 H5] Hx. split; cbn; apply Forall_app; (split; [done|]); destruct x; first [apply Forall_nil_2|apply Forall_singleton; exact Hx].
Qed.

Lemma post_tended s x key : tended s key → tended (post s x) key.
Proof using Type. intros [(a & r & Hc & Hk)|(m & Hm & Hk)]; [left; exists a, r|right; exists m]; (split; [|done]); cbn; by apply elem_of_app; left. Qed.

Lemma post_all_facts s l : queues_ok s → Forall (sent_ok (answered s)) l →
  queues_ok (post_all s l) ∧ pool (post_all s l) = pool s ∧ log (post_all s l) = log s ++ l ∧
  (∀ key, tended s key → tended (post_all s l) key) ∧
  (∀ key x, x ∈ l → match x with SpawnConnect a _ => stream_writer_key a = key | ToSelf m => ends_opening key m | _ => False end → tended (post_all s l) key).
Proof using Type.
  revert s; induction l as [|x l IH]; intros s Hq Hl; [by rewrite app_nil_r; split_and!; try done; intros ? ? ?%not_elem_of_nil|].
  inversion_clear Hl as [|? ? Hx Hl']. destruct (IH (post s x)) as (H1 & H2 & H3 & H4 & H5); [by apply post_queues|done|]. cbn [post_all foldl].
  change (foldl post (post s x) l) with (post_all (post s x) l). split; [done|]. split; [by rewrite H2|].
  split; [by rewrite H3; cbn; rewrite <- app_assoc|]. split; [intros key Hk; by apply H4, post_tended|].
  intros key y [->|Hy]%elem_of_cons Hk; [|by apply (H5 key y)]. apply H4. destruct x as [m| | | | | |a r| | |]; try done.
  - right. exists m. split; [|done]. cbn. apply elem_of_app. right. by apply list_elem_of_singleton.
  - left. exists a, r. split; [|done]. cbn. apply elem_of_app. right. by apply list_elem_of_singleton.
Qed.

(** The pool handles a message that has left its queue. *)
Lemma act_ok s m : pool_ok (pool s) (log s) → queues_ok s → message_ok (answered s) m →
  (∀ key, stream_writers (pool s) !! key = Some None → ends_opening key m ∨ tended s key) →
  ∃ s', act s m = Ret s' ∧ life_ok s'.
Proof using mask_returns.
  intros Hp Hq Hm Ho. unfold act. destruct (handle_handled (answered s) (pool s) (log s) m Hp Hm) as (p' & sent & -> & Hp' & Hsent & Hopen).
  eexists. split; [reflexivity|].
  destruct (post_all_facts (with_pool s p') sent) as (H1 & H2 & H3 & H4 & H5); [by destruct Hq|done|].
  split; [by rewrite H2, H3|done|]. rewrite H2. cbn [pool with_pool]. intros key Hkey.
  destruct (Hopen key Hkey) as [[Hkey' Hne]|(a & r & Ha & Hk)].
  - destruct (Ho key Hkey') as [Hend|Ht]; [by destruct (Hne Hend)|]. by apply H4.
  - by apply (H5 key (SpawnConnect a r)).
Qed.

Lemma resolved_mono l l' m a : l ⊆ l' → resolved l m a → resolved l' m a.
Proof using Type. intros Hl. unfold resolved. destruct (endpoint m); [|done]. intros (md & na & Hin & H). exists md, na. split; [by apply Hl|done]. Qed.

Lemma response_mono l l' r : l ⊆ l' → response_ok l r → response_ok l' r.
Proof using Type. intros Hl H na Hna. destruct (H na Hna) as (port & Hp & Hr). exists port. split; [done|]. by apply (resolved_mono l). Qed.

Lemma message_mono l l' m : l ⊆ l' → message_ok l m → message_ok l' m.
Proof using Type. intros Hl. destruct m; cbn; try done; by apply response_mono. Qed.

Lemma sent_mono l l' x : l ⊆ l' → sent_ok l x → sent_ok l' x.
Proof using Type.
  intros Hl. destruct x; cbn; try done; [by apply message_mono|by apply response_mono| |by apply resolved_mono].
  intros [? ?]. split; [by apply (response_mono l)|done].
Qed.

(** An answer leaves what was there in order. *)
Lemma queues_mono s s' : queues_ok s → answered s ⊆ answered s' → mailbox s' = mailbox s → timers s' = timers s → asked s' ⊆ asked s →
  connecting s' = connecting s → log s' = log s → queues_ok s'.
Proof using Type.
  intros [H1 H2 H3 H4 H5] Ha Hm Ht Hq Hc Hl. split; rewrite ?Hm, ?Ht, ?Hc, ?Hl.
  - eapply Forall_impl; [exact H1|]. intros m. by apply message_mono.
  - eapply Forall_impl; [exact H2|]. intros r. by apply response_mono.
  - apply Forall_forall. rewrite Forall_forall in H3. intros q Hin. by apply H3, Hq.
  - eapply Forall_impl; [exact H4|]. intros c [? ?]. split; [by apply (response_mono (answered s))|done].
  - eapply Forall_impl; [exact H5|]. intros x. by apply sent_mono.
Qed.

(** A message comes into the mailbox. *)
Lemma mailbox_receives s m : life_ok s → message_ok (answered s) m → life_ok (with_mailbox s (mailbox s ++ [m])).
Proof using Type.
  intros [Hp Hq Ho] Hm. split; [done| |].
  - destruct Hq. split; try done. cbn. apply Forall_app. split; [done|by apply Forall_singleton].
  - intros key Hkey. destruct (Ho key Hkey) as [(a & r & H & Hk)|(m' & H & Hk)]; [left; by exists a, r|right; exists m'].
    split; [|done]. cbn. by apply elem_of_app; left.
Qed.

Lemma over_ok p l tx : pool_ok p l → pool_ok (set_channels p (alter over tx (channels p))) l.
Proof using Type.
  intros Hp. assert (∀ tx' ch, channels p !! tx' = Some ch →
    ∃ ch', alter over tx (channels p) !! tx' = Some ch' ∧ ch_peer_addr ch' = ch_peer_addr ch) as Hkeep.
  { intros tx' ch Hch. destruct (decide (tx' = tx)) as [->|Hne].
    - exists (over ch). by rewrite list_lookup_alter_eq, Hch.
    - exists ch. by rewrite list_lookup_alter_ne. }
  split; [apply Hp|apply Hp|..]; cbn.
  - intros key tx' Hk. destruct (ok_writers _ _ Hp _ _ Hk) as (ch & Hch & <-). destruct (Hkeep _ _ Hch) as (ch' & Hch' & <-). by exists ch'.
  - intros tx' ch' Hch'. destruct (decide (tx' = tx)) as [->|Hne].
    + rewrite list_lookup_alter_eq in Hch'. apply fmap_Some in Hch' as (ch & Hch & ->). exact (ok_packets _ _ Hp _ _ Hch).
    + rewrite list_lookup_alter_ne in Hch' by done. by apply Hp.
  - intros tx' a m Hq. destruct (ok_places _ _ Hp _ _ _ Hq) as (ch & Hch & <-). destruct (Hkeep _ _ Hch) as (ch' & Hch' & <-). by exists ch'.
Qed.

(** An attempt to connect is over, and its message comes into the mailbox. *)
Lemma concluded_ok s i a m sent : life_ok s → connecting s !! i = Some (a, m) → Forall (sent_ok (answered s)) sent →
  (∃ m', ToSelf m' ∈ sent ∧ ends_opening (stream_writer_key a) m') → Forall unqueued sent →
  life_ok (post_all (with_connecting s (delete i (connecting s))) sent).
Proof using Type.
  intros [Hp Hq Ho] Hi Hsent (m' & Hm' & Hend) Hun. destruct (post_all_facts (with_connecting s (delete i (connecting s))) sent) as (H1 & H2 & H3 & H4 & H5).
  { destruct Hq. split; try done. by apply Forall_delete. } { done. }
  split; [|done|].
  - rewrite H2, H3. by apply (pool_ok_quiet (pool s)).
  - rewrite H2. intros key Hkey. destruct (Ho key Hkey) as [(a' & r' & Hc & Hk)|Hm]; [|by apply H4; right].
    rewrite (delete_Permutation _ _ _ Hi) in Hc. apply elem_of_cons in Hc as [Hc|Hc].
    + injection Hc as -> ->. subst key. by apply (H5 _ (ToSelf m')).
    + apply H4. left. by exists a', r'.
Qed.

Lemma event_keeps s e : life_ok s → good_event e → ∃ s', step s e = Ret s' ∧ life_ok s'.
Proof using mask_returns.
  intros Hs He. pose proof Hs as [Hp Hq Ho]. destruct e as [m|m|m|tx| |i r|i|i at_|i]; cbn [step].
  - eexists. split; [reflexivity|]. pose proof (mailbox_receives s (TransmitData m) Hs I) as [H1 H2 H3]. split; [done| |done]. by destruct H2.
  - eexists. split; [reflexivity|]. by apply mailbox_receives.
  - eexists. split; [reflexivity|]. by apply mailbox_receives.
  - eexists. split; [reflexivity|]. split; [by apply over_ok|by destruct Hq|done].
  - destruct (mailbox s) as [|m rest] eqn:Em; [by eexists|]. pose proof (ok_mailbox _ Hq) as Hm. rewrite Em in Hm. apply Forall_cons in Hm as [Hm Hrest].
    apply act_ok; [done|by destruct Hq|done|]. intros key Hkey. destruct (Ho key Hkey) as [Hc|(m' & Hm' & Hk)]; [right; by left|].
    rewrite Em in Hm'. apply elem_of_cons in Hm' as [->|Hm']; [by left|]. right. right. by exists m'.
  - destruct (asked s !! i) as [[k m]|] eqn:Ei; [|by eexists]. eexists. split; [reflexivity|].
    pose proof (ok_asked _ Hq) as Hk. rewrite Forall_forall in Hk. specialize (Hk _ (list_elem_of_lookup_2 _ _ _ Ei)). cbn in Hk.
    apply (mailbox_receives (MkLife (pool s) (mailbox s) (timers s) (delete i (asked s)) (connecting s) (handed_in s) (answered s ++ [(k, r)]) (log s))).
    + split; [done| |done]. apply (queues_mono s); try done; cbn; [by apply list_subseteq_app_l|apply list_subseteq_delete].
    + cbn. intros na. unfold extract_node_addr. cbn. destruct r as [md|]; [|done]. destruct (node_addr_opt md) as [na'|] eqn:Ena; [|done]. intros [= ->].
      specialize (He na Ena). destruct (Neighborhood.ports na) as [|port ps] eqn:Eps; [done|]. exists port. split; [done|].
      unfold resolved. cbn. rewrite Hk. exists md, na. rewrite Eps. split; [|done]. apply elem_of_app. right. by apply list_elem_of_singleton.
  - destruct (timers s !! i) as [m|] eqn:Ei; [|by eexists]. pose proof (ok_timers _ Hq) as Ht.
    apply act_ok; [done| | |].
    + destruct Hq. split; try done. by apply Forall_delete.
    + rewrite Forall_forall in Ht. exact (Ht _ (list_elem_of_lookup_2 _ _ _ Ei)).
    + intros key Hkey. right. exact (Ho key Hkey).
  - destruct (connecting s !! i) as [[a m]|] eqn:Ei; [|by eexists]. eexists. split; [reflexivity|].
    pose proof (ok_connecting _ Hq) as Hc. rewrite Forall_forall in Hc. destruct (Hc _ (list_elem_of_lookup_2 _ _ _ Ei)) as [Hr _].
    apply concluded_ok with (a := a) (m := m); [done|done| | |].
    + constructor; [apply Hp|]. constructor; [exact Hr|]. by repeat constructor.
    + eexists. split; [left|done].
    + by repeat constructor.
  - destruct (connecting s !! i) as [[a m]|] eqn:Ei; [|by eexists].
    pose proof (ok_connecting _ Hq) as Hc. rewrite Forall_forall in Hc. destruct (Hc _ (list_elem_of_lookup_2 _ _ _ Ei)) as [_ [md Hmd]]. cbn in Hmd.
    unfold failure_handle. rewrite Hmd. cbn [expect mbind run_bind]. eexists. split; [reflexivity|].
    apply concluded_ok with (a := a) (m := m); [done|done| | |].
    + by repeat constructor.
    + eexists. split; [right; left|done].
    + by repeat constructor.
Qed.

Lemma events_keep es s : life_ok s → Forall good_event es → handed_in s ≡ₚ account s →
  ∃ s', steps s es = Ret s' ∧ life_ok s' ∧ handed_in s' ≡ₚ account s'.
Proof using mask_returns.
  revert s; induction es as [|e es IH]; intros s Hs Hes Ha; cbn [steps]; [by eexists|]. apply Forall_cons in Hes as [He Hes].
  destruct (event_keeps s e Hs He) as (s1 & H1 & Hs1). rewrite H1. cbn [mbind run_bind]. apply IH; [done|done|]. by apply (step_account s e).
Qed.

Lemma born_ok factories : good_factories factories → life_ok (born factories).
Proof using Type.
  intros Hf. split.
  - split; [done|done|done|done|]. cbn. by intros tx a m ?%not_elem_of_nil.
  - split; constructor.
  - done.
Qed.

End life.

(** ** The dispatcher *)

Section dispatcher.
Context {Chain : Type}.
(** [NodeDescriptor::to_string] with the node's key. *)
Context (descriptor_to_string : ConnectionStatus.NodeDescriptor (Chain := Chain) → list Z).

Record Dispatcher := MkDispatcher {
  d_bound : bool;
  d_crashable : bool;
  node_descriptor : ConnectionStatus.NodeDescriptor (Chain := Chain);
  to_stream : bool
}.

Inductive UiBody := UiDescriptorRequest | UiCrashRequest (actor : string) | UiOther.

Inductive DispatcherSent :=
| ToHopper (m : InboundClientData)
| ToProxyServer (m : InboundClientData)
| ToStreamHandlerPool (m : TransmitDataMsg)
| ShutdownToNeighborhood (m : ProxyServer.StreamShutdownMsg)
| ShutdownToProxyServer (m : ProxyServer.StreamShutdownMsg)
| UiDescriptorResponse (client_id context_id : Z) (node_descriptor_opt : option (list Z))
| ReportLocalDescriptor (d : ConnectionStatus.NodeDescriptor (Chain := Chain)).

Inductive DispatcherMsg :=
| Bind
| PoolBind
| Inbound (m : InboundClientData)
| Transmit (m : TransmitDataMsg)
| Shutdown (m : ProxyServer.StreamShutdownMsg)
| FromUi (client_id context_id : Z) (body : UiBody)
| NewPublicIp (new_ip : IpAddr).

Definition NULL_IP_ADDRESS : IpAddr := Stream.IpV4 0.
Definition CRASH_KEY : string := "DISPATCHER".

Definition dispatcher_new (node_descriptor : ConnectionStatus.NodeDescriptor) (crashable : bool) : Dispatcher :=
  MkDispatcher false crashable node_descriptor false.

Definition dispatch_inbound (self : Dispatcher) (msg : InboundClientData) : run (list DispatcherSent) :=
  panic_if (negb (d_bound self)) (Ret (if Hopper.is_clandestine msg then [ToHopper msg] else [ToProxyServer msg])).

Definition dispatch_shutdown (self : Dispatcher) (msg : ProxyServer.StreamShutdownMsg) : run (list DispatcherSent) :=
  panic_if (negb (d_bound self))
    (Ret match ProxyServer.stream_type msg with
         | NeighborhoodActor.Clandestine => [ShutdownToNeighborhood msg]
         | NeighborhoodActor.NonClandestine _ _ => [ShutdownToProxyServer msg]
         end).

Definition handle_descriptor_request (self : Dispatcher) (client_id context_id : Z) : run (list DispatcherSent) :=
  let node_desc_str_opt :=
    match ConnectionStatus.descriptor_addr_opt (node_descriptor self) with
    | Some node_addr =>
        if bool_decide (Neighborhood.ip_addr node_addr = NULL_IP_ADDRESS) then None else Some (descriptor_to_string (node_descriptor self))
    | None => None
    end in
  panic_if (negb (d_bound self)) (Ret [UiDescriptorResponse client_id context_id node_desc_str_opt]).

(** [handle_ui_crash_request]. *)
Definition handle_ui_crash_request (body : UiBody) (crashable : bool) (crash_key : string) : run (list DispatcherSent) :=
  match body with
  | UiCrashRequest actor => panic_if (crashable && String.eqb actor crash_key) (Ret [])
  | _ => Ret []
  end.

Definition handle_new_public_ip (self : Dispatcher) (new_ip : IpAddr) : Dispatcher * list DispatcherSent :=
  let d := node_descriptor self in
  match ConnectionStatus.descriptor_addr_opt d with
  | None => (self, [])
  | Some node_addr =>
      let d := ConnectionStatus.MkDescriptor (ConnectionStatus.blockchain d) (ConnectionStatus.encryption_public_key d)
                 (Some (Neighborhood.node_addr_new new_ip (Neighborhood.ports node_addr))) in
      (MkDispatcher (d_bound self) (d_crashable self) d (to_stream self), [ReportLocalDescriptor d])
  end.

Definition dispatcher_handle (self : Dispatcher) (msg : DispatcherMsg) : run (Dispatcher * list DispatcherSent) :=
  match msg with
  | Bind => Ret (MkDispatcher true (d_crashable self) (node_descriptor self) (to_stream self), [])
  | PoolBind => Ret (MkDispatcher (d_bound self) (d_crashable self) (node_descriptor self) true, [])
  | Inbound m => sent ← dispatch_inbound self m; Ret (self, sent)
  | Transmit m => panic_if (negb (to_stream self)) (Ret (self, [ToStreamHandlerPool m]))
  | Shutdown m => sent ← dispatch_shutdown self m; Ret (self, sent)
  | FromUi client_id context_id UiDescriptorRequest => sent ← handle_descriptor_request self client_id context_id; Ret (self, sent)
  | FromUi _ _ body => sent ← handle_ui_crash_request body (d_crashable self) CRASH_KEY; Ret (self, sent)
  | NewPublicIp new_ip => Ret (handle_new_public_ip self new_ip)
  end.
End dispatcher.
Arguments Dispatcher Chain : clear implicits.

(** ** Properties *)

(** C20: every message given to the stream handler pool is accounted for. Take any
    history of a pool that is bound: messages handed in for nodes and for
    addresses, streams that listeners open, readers and writers that end, answers
    of the neighborhood, timers, attempts to connect that succeed and fail, in any
    order; where listeners bring discriminators, masking returns, and each address
    that the neighborhood answers with has a port. Then the pool does not panic;
    and the answer without a port is one that always stops it. Each message handed
    in is, exactly once, waiting (in the mailbox, for a timer, for the
    neighborhood or for a connection), sent into the channel of a stream, or
    dropped with a line in the log. A channel holds the packets of exactly the
    messages sent into it, in that order, and it belongs to a stream whose peer
    has the key of the address the message is for: the one it names, or one the
    neighborhood gave for the node it names. And no stream stays half open: while
    its entry is empty, so that messages for it are put off, an attempt to connect
    is under way or the message that fills or removes the entry is in the mailbox. *)
Theorem transmissions_accounted {F : Type} `{!Framer F} (mask : list Z → run (result MasqueradeError (list Z)))
    (factories : list (run (Discriminator F))) (es : list Event) :
  (∀ d, mask d ≠ Panic) → good_factories factories → Forall good_event es →
  ∃ s, steps mask (born factories) es = Ret s ∧
    handed_in s ≡ₚ under_way s ++ (log s ≫= settled) ∧
    (∀ tx ch, channels (pool s) !! tx = Some ch →
       Forall2 (λ m k, make_packet mask m = Ret (Ok k)) (queued_on tx (log s)) (ch_packets ch)) ∧
    (∀ tx a m, Queued tx a m ∈ log s → resolved (answered s) m a ∧
       ∃ ch, channels (pool s) !! tx = Some ch ∧ stream_writer_key (ch_peer_addr ch) = stream_writer_key a) ∧
    (∀ key, stream_writers (pool s) !! key = Some None → tended s key) ∧
    (∀ r na, extract_node_addr r = Ok na → Neighborhood.ports na = [] → handle mask (pool s) (NodeQueryResponse r) = Panic).
Proof.
  intros Hmask Hf Hes. destruct (events_keep mask Hmask es (born factories)) as (s & Hs & [Hp Hq Ho] & Ha); [by apply born_ok|done|done|].
  exists s. split; [done|]. split; [done|]. split; [apply Hp|]. split; [|split; [done|]].
  - intros tx a m Hm. split; [|by apply (ok_places _ _ _ Hp _ _ m)].
    pose proof (ok_log _ Hq) as Hl. rewrite Forall_forall in Hl. exact (Hl _ Hm).
  - intros r na Hr Hna. cbn [handle]. unfold handle_dispatcher_node_query_response. by rewrite Hr, Hna.
Qed.

Section crossing.
Context (text_to_string : JsonMasqueraderStringStructure → option (list Z)).
Context (data_to_string : JsonMasqueraderDataStructure → option (list Z)).
Context (from_str : list Z → result JsonError JsonMasqueraderUnmaskStructure).
Context (base64_encode : list Z → list Z) (base64_decode : list Z → option (list Z)).
Context `{!SerdeOk text_to_string data_to_string from_str base64_encode base64_decode}.

Local Abbreviation mask := (json_mask text_to_string data_to_string base64_encode).

Lemma json_mask_returns d : mask d ≠ Panic.
Proof using SerdeOk0.
  unfold json_mask. destruct (valid_utf8 d) eqn:Hu.
  - destruct (text_written d Hu) as (e & Hw & _). unfold make_text_structure. by rewrite Hw.
  - destruct (data_written _ (base64_text d)) as (e & Hw & _). unfold make_binary_structure. by rewrite Hw.
Qed.

(** Whatever became of the writer, what it wrote is the beginning of what it got. *)
Lemma wire_arrived buf w r :
  match r with
  | Writers.TaskErr => Writers.wire w `prefix_of` Writers.arrival_order (Writers.received w)
  | Writers.TaskNotReady => Writers.conserved buf w
  | Writers.TaskReady => Writers.wire w = Writers.arrival_order (Writers.received w)
  end → Writers.wire w `prefix_of` Writers.arrival_order (Writers.received w).
Proof using Type. destruct r; [done| |by intros ->]. intros <-. by apply prefix_app_r. Qed.

Definition clandestine_data (m : TransmitDataMsg) : Prop := tx_sequence_number m = None ∧ Forall (λ b, 0 ≤ b < 256) (tx_data m).

Lemma packets_masked ms ks : Forall clandestine_data ms → Forall2 (λ m k, make_packet mask m = Ret (Ok k)) ms ks →
  Forall framed (SequenceBuffer.data <$> ks) ∧
  Forall2 (λ j d, json_try_unmask from_str base64_decode j = Ok (MkUnmasked d true false)) (SequenceBuffer.data <$> ks) (tx_data <$> ms).
Proof using SerdeOk0.
  intros Hms Hks. induction Hks as [|m k ms ks Hk Hks IH]; [by split|]. apply Forall_cons in Hms as [[Hn Hb] Hms]. destruct (IH Hms) as [H1 H2].
  unfold make_packet in Hk. rewrite Hn in Hk. destruct (json_mask_unmask _ _ _ _ _ _ Hb) as (j & Hj & Hf & Hu). rewrite Hj in Hk. injection Hk as <-.
  split; constructor; done.
Qed.

(** What the dispatcher does with what a reader sends it. *)
Definition delivered {Chain} (dispatcher : Dispatcher Chain) (sent : list ReaderSent) : run (list (list DispatcherSent)) :=
  mapM (dispatch_inbound dispatcher) (omap (λ x, match x with SendInbound m => Some m | SendRemove _ => None end) sent).

Lemma carried_to_hopper {Chain} (dispatcher : Dispatcher Chain) here there port ds ms e :
  d_bound dispatcher = true → Forall2 (carries there port) ds ms →
  delivered dispatcher ((SendInbound <$> ms) ++ farewell here there e) = Ret ((λ m, [ToHopper m]) <$> ms).
Proof using Type.
  intros Hb Hms. unfold delivered. rewrite omap_app. replace (omap _ (farewell here there e)) with (@nil InboundClientData) by by destruct e. rewrite app_nil_r.
  replace (omap _ (SendInbound <$> ms)) with ms by (clear; induction ms as [|m ms IH]; [done|]; cbn; by f_equal).
  induction Hms as [|d m ds ms (t & n & ->) _ IH]; [done|]. cbn [mapM]. rewrite IH. unfold dispatch_inbound. by rewrite Hb.
Qed.

(** C21: neighbors hear each other. Take any history of a node's stream handler
    pool, under the conditions of the pool, and any of its streams to a neighbor
    on which it sent clandestine data only, less than 2 GiB of packets. The writer
    of the stream takes the packets from its channel and writes them, over any
    polls and whatever the socket answers (partial writes, errors, a full buffer).
    The neighbor reads any part of what is on the wire so far, cut into reads in
    any way, with errors and empty-handed polls between them. Then the writer and
    the reader do not panic, and the neighbor's dispatcher gets for its hopper
    exactly the data of the first messages of the stream, each unmasked to the
    bytes that were handed in, in the order they were queued: all those whose last
    byte was read, and no others. When the stream ends the reader asks for its
    removal. *)
Theorem neighbors_hear_each_other {Chain : Type} (dispatcher : Dispatcher Chain) (method_is_connect : list Z → bool) (now : nat → Z)
    (factories : list (run (Discriminator Json.JsonFramer))) (es : list Event) (s : Life) (tx : nat) (ch : Channel)
    (scripts : list Writers.script) (here there : SocketAddr) (port : option Z) (fuel : nat) (polls : list (list ProxyClient.read_answer))
    (pieces : list (list Z)) (ended : bool) :
  good_factories factories → Forall good_event es → steps mask (born factories) es = Ret s →
  channels (pool s) !! tx = Some ch → ch_clandestine ch = true → Forall clandestine_data (queued_on tx (log s)) →
  Z.of_nat (length (ch_packets ch ≫= SequenceBuffer.data)) < 2 ^ 31 →
  forallb Writers.no_rx_error scripts = true → d_bound dispatcher = true →
  heard_all polls = (pieces, ended) → (length (concat pieces) < fuel)%nat →
  ∃ buf w r self, Writers.run_unsorted None (Writers.MkWorld [] []) scripts = Some (Ret (buf, w, r)) ∧
    reader_new port [json_discriminator from_str base64_decode] true there here = Ret self ∧
    (Writers.received w `prefix_of` ch_packets ch → concat pieces `prefix_of` Writers.wire w →
     ∃ k self' ms r', run_reader method_is_connect now fuel self polls [] = Some (Ret (self', (SendInbound <$> ms) ++ farewell here there ended, r')) ∧
       Hopper.data <$> ms = tx_data <$> take k (queued_on tx (log s)) ∧
       delivered dispatcher ((SendInbound <$> ms) ++ farewell here there ended) = Ret ((λ m, [ToHopper m]) <$> ms) ∧
       whole (SequenceBuffer.data <$> ch_packets ch) (length (concat pieces)) k).
Proof using SerdeOk0.
  intros Hf Hes Hs Hch _ Hcl Hsmall Hrx Hbound Hh Hfuel.
  destruct (events_keep mask json_mask_returns es (born factories)) as (s' & Hs' & [Hp _ _] & _); [by apply born_ok|done|done|].
  rewrite Hs in Hs'. injection Hs' as <-. destruct (packets_masked _ _ Hcl (ok_packets _ _ _ Hp _ _ Hch)) as [Hframed Hunmask].
  destruct (Writers.run_unsorted_ok scripts None (Writers.MkWorld [] [])) as (buf & w & r & Hrun & Hw); [done|done|].
  exists buf, w, r, (reading (json_try_unmask from_str base64_decode) here there port Json.json_new). split; [done|]. split; [done|].
  intros Hrec Hwire. set (js := SequenceBuffer.data <$> ch_packets ch) in *.
  assert (ch_packets ch ≫= SequenceBuffer.data = concat js) as Hjs by (unfold js; clear; induction (ch_packets ch) as [|k ks IH]; [done|]; cbn; by f_equal).
  destruct (masked_stream_heard method_is_connect now (json_try_unmask from_str base64_decode) here there port fuel js _ polls pieces ended Hframed
              ltac:(unfold Json.small; by rewrite <- Hjs) Hunmask Hh) as (k & f & ms & r' & Hk & Hms & Hread); [|done|].
  { etransitivity; [exact Hwire|]. etransitivity; [exact (wire_arrived _ _ _ Hw)|]. rewrite <- Hjs. destruct Hrec as [more ->].
    unfold Writers.arrival_order. rewrite bind_app. by apply prefix_app_r. }
  exists k, (reading (json_try_unmask from_str base64_decode) here there port f), ms, r'. split; [done|]. split; [|split; [|done]].
  - rewrite <- fmap_take in Hms. clear -Hms. induction Hms as [|d m ds ms (t & n & ->) _ IH]; [done|]. cbn. by rewrite IH.
  - by eapply carried_to_hopper.
Qed.
End crossing.

(** ** A pool at work *)

Module Demo.

(** Text of two letters for a byte, in the place of escapes and of Base64. *)
Definition letters (l : list Z) : list Z := l ≫= λ b, [97 + (b / 16) mod 16; 97 + b mod 16].

Fixpoint unletters (l : list Z) : list Z :=
  match l with h :: c :: l => (h - 97) * 16 + (c - 97) :: unletters l | _ => [] end.

Definition opening (name : string) : list Z := Json.bytes_of "{" ++ [Json.DQ] ++ Json.bytes_of name ++ [Json.DQ] ++ Json.bytes_of ":" ++ [Json.DQ].
Definition closing : list Z := [Json.DQ] ++ Json.bytes_of "}".

Definition write (name : string) (text : list Z) : list Z := opening name ++ letters text ++ closing.

Definition read (j : list Z) : result JsonError JsonMasqueraderUnmaskStructure :=
  let text := take (length j - 15) (drop 13 j) in
  if decide (j = opening "bodyText" ++ text ++ closing) then Ok (MkUnmaskStructure (Some (unletters text)) None)
  else if decide (j = opening "bodyData" ++ text ++ closing) then Ok (MkUnmaskStructure None (Some (unletters text)))
  else Err JsonSyntax.

Lemma letters_plain l : Forall (λ b, 97 ≤ b < 113) (letters l).
Proof.
  apply Forall_bind, Forall_forall. intros b _. pose proof (Z.mod_pos_bound (b / 16) 16). pose proof (Z.mod_pos_bound b 16).
  repeat constructor; lia.
Qed.

Lemma letters_quoted l : Json.quoted Json.DQ (letters l).
Proof.
  pose proof (letters_plain l) as H. induction H as [|b t Hb _ IH]; [constructor|].
  constructor; [unfold Json.DQ; lia|unfold Json.BS; lia|done].
Qed.

Lemma letters_read l : Forall (λ b, 0 ≤ b < 256) l → unletters (letters l) = l.
Proof.
  induction 1 as [|b l Hb _ IH]; [done|]. unfold letters in *. cbn [mbind list_bind app unletters]. rewrite IH. f_equal.
  Z.div_mod_to_equations. lia.
Qed.

Lemma write_utf8 name t : Forall (λ b, b < 128) (opening name) → valid_utf8 (write name t) = true.
Proof.
  intros Hn. apply ascii_utf8, Forall_app. split; [done|]. apply Forall_app. split; [|by repeat constructor].
  eapply Forall_impl; [apply letters_plain|]. intros b Hb. cbn in Hb |- *. lia.
Qed.

Lemma read_text (name : string) t : length (opening name) = 13%nat → take (length (write name t) - 15) (drop 13 (write name t)) = letters t.
Proof.
  intros Hl. unfold write. rewrite !length_app, Hl, drop_app_length' by done. cbn [length closing app Json.bytes_of fmap list_fmap String.list_ascii_of_string].
  rewrite take_app_length'; [done|lia].
Qed.

#[local] Instance demo_serde : SerdeOk (λ s, Some (write "bodyText" (s_bodyText s))) (λ s, Some (write "bodyData" (d_bodyData s))) read letters (λ l, Some (unletters l)).
Proof.
  split.
  - intros s _. exists (letters s). split; [|apply letters_quoted]. unfold write, opening, closing. by rewrite <- !app_assoc.
  - intros s _. exists (letters s). split; [|apply letters_quoted]. unfold write, opening, closing. by rewrite <- !app_assoc.
  - intros s j _ [= <-]. by apply write_utf8; repeat constructor.
  - intros s j _ [= <-]. by apply write_utf8; repeat constructor.
  - intros s j _ Hs [= <-]. cbn [s_bodyText]. unfold read. rewrite read_text by done. rewrite decide_True by done. by rewrite letters_read.
  - intros s j _ Hs [= <-]. cbn [d_bodyData]. unfold read. rewrite read_text by done. rewrite decide_False by done. rewrite decide_True by done. by rewrite letters_read.
  - intros d. apply ascii_utf8. eapply Forall_impl; [apply letters_plain|]. intros b Hb. cbn in Hb |- *. lia.
  - intros d. eapply Forall_impl; [apply letters_plain|]. intros b Hb. cbn in Hb |- *. lia.
  - intros d Hd. by rewrite letters_read.
Qed.

Definition demo_mask : list Z → run (result MasqueradeError (list Z)) :=
  json_mask (λ s, Some (write "bodyText" (s_bodyText s))) (λ s, Some (write "bodyData" (d_bodyData s))) letters.

Definition demo_factory : run (Discriminator Json.JsonFramer) := json_discriminator read (λ l, Some (unletters l)).
Definition neighbor : SocketAddr := (Stream.IpV4 0x01020304, 5000).
Definition home : SocketAddr := (Stream.IpV4 0x7F000001, 80).
Definition to_neighbor (d : list Z) : TransmitDataMsg := Hopper.MkTransmit (Key [7]) false d None.
Definition found : option NodeQueryResponseMetadata :=
  Some (MkMetadata [7] (Some (Neighborhood.node_addr_new neighbor.1 [neighbor.2])) Neighborhood.ZERO_RATE_PACK).

(** Two messages for a neighbor, the second put off while the stream is opened, and
    a third for a browser that is gone. *)
Definition demo_events : list (Event (F := Json.JsonFramer)) :=
  [HandIn (to_neighbor [1; 2]); Deliver; Answer 0 found; Deliver;
   HandIn (to_neighbor [200]); HandIn (Hopper.MkTransmit (Socket home) true [5] (Some 0)); Deliver; Deliver; Answer 0 found; Deliver; Deliver;
   Connected 0 (Stream.IpV4 9, 1234); Deliver; Deliver; Deliver; Ring 0].

Definition demo_life : Life (F := Json.JsonFramer) :=
  match steps demo_mask (born [demo_factory]) demo_events with Ret s => s | Panic => born [] end.

Example demo_outcome :
  (queued_on 0 (log demo_life), under_way demo_life, ch_packets <$> channels (pool demo_life)) =
    ([to_neighbor [1; 2]; to_neighbor [200]], [],
     [[SequenceBuffer.MkPacket (write "bodyText" [1; 2]) 0 false; SequenceBuffer.MkPacket (write "bodyData" (letters [200])) 0 false]]).
Proof. vm_compute. reflexivity. Qed.

Lemma demo_good : good_factories [demo_factory] ∧ Forall good_event demo_events.
Proof.
  split; [by eexists _, []|]. unfold demo_events. repeat (apply Forall_cons; split; [|]); try exact I; [..|constructor].
  all: intros na [= <-]; discriminate.
Qed.

Lemma demo_life_runs : steps demo_mask (born [demo_factory]) demo_events = Ret demo_life.
Proof. vm_compute. reflexivity. Qed.

Lemma ret_injective {A} (a b : A) : Ret a = Ret b → a = b.
Proof. by intros [= ->]. Qed.

Lemma transmissions_accounted_witness :
  handed_in demo_life ≡ₚ under_way demo_life ++ (log demo_life ≫= settled) ∧ length (handed_in demo_life) = 3%nat ∧
  stream_writers (pool demo_life) !! stream_writer_key neighbor = Some (Some 0%nat).
Proof.
  destruct (transmissions_accounted demo_mask [demo_factory] demo_events) as (s & Hs & Ha & _).
  - exact (json_mask_returns _ _ _ _ _).
  - apply demo_good.
  - apply demo_good.
  - rewrite demo_life_runs in Hs. apply ret_injective in Hs as <-. split; [exact Ha|]. split; vm_compute; reflexivity.
Defined.

(** The writer writes one byte and then the rest; the neighbor reads in pieces. *)
Definition demo_packets : list SequencedPacket :=
  [SequenceBuffer.MkPacket (write "bodyText" [1; 2]) 0 false; SequenceBuffer.MkPacket (write "bodyData" (letters [200])) 0 false].
Definition demo_wire : list Z := demo_packets ≫= SequenceBuffer.data.
Definition demo_scripts : list Writers.script :=
  [Writers.MkScript (Writers.RxPacket <$> take 1 demo_packets) [Writers.WrReady 1; Writers.WrNotReady] [];
   Writers.MkScript (Writers.RxPacket <$> drop 1 demo_packets) [Writers.WrReady 100; Writers.WrReady 5] []; Writers.MkScript [Writers.RxClosed] [Writers.WrReady 100] []].
Definition demo_polls : list (list ProxyClient.read_answer) :=
  [[ProxyClient.RdReady (take 3 demo_wire); ProxyClient.RdErr (Writers.OtherKind 0); ProxyClient.RdReady (take 20 (drop 3 demo_wire))];
   [ProxyClient.RdReady (drop 23 demo_wire); ProxyClient.RdReady []]].
Definition demo_dispatcher : Dispatcher nat := MkDispatcher true false (ConnectionStatus.MkDescriptor 0%nat [1] None) true.
Definition demo_connect (method : list Z) : bool := bool_decide (method = Json.bytes_of "CONNECT").

Lemma neighbors_hear_each_other_witness :
  ∃ self self' ms r, reader_new None [demo_factory] true home neighbor = Ret self ∧
    run_reader demo_connect Z.of_nat 1000 self demo_polls [] = Some (Ret (self', (SendInbound <$> ms) ++ farewell neighbor home true, r)) ∧
    Hopper.data <$> ms = [[1; 2]; [200]] ∧
    delivered demo_dispatcher ((SendInbound <$> ms) ++ farewell neighbor home true) = Ret ((λ m, [ToHopper m]) <$> ms).
Proof.
  destruct (neighbors_hear_each_other _ _ read _ (λ l, Some (unletters l)) demo_dispatcher demo_connect Z.of_nat [demo_factory] demo_events demo_life 0
    (MkChannel neighbor true true demo_packets) demo_scripts neighbor home None 1000 demo_polls
    [take 3 demo_wire; take 20 (drop 3 demo_wire); drop 23 demo_wire] true) as (buf & w & r & self & Hw & Hself & Hread).
  - apply demo_good.
  - apply demo_good.
  - exact demo_life_runs.
  - vm_compute. reflexivity.
  - reflexivity.
  - vm_compute. repeat constructor; discriminate.
  - vm_compute. reflexivity.
  - reflexivity.
  - reflexivity.
  - vm_compute. reflexivity.
  - vm_compute. lia.
  - assert (Writers.received w = demo_packets ∧ Writers.wire w = demo_wire) as [Hrec Hwire]
      by (revert Hw; vm_compute; intros [= _ <- _]; split; reflexivity).
    destruct Hread as (k & self' & ms & r' & Hrun & Hdata & Hdel & Hk & _ & Hmore).
    + by rewrite Hrec.
    + rewrite Hwire. by vm_compute; eexists (@nil Z).
    + exists self, self', ms, r'. split; [exact Hself|]. split; [exact Hrun|]. split; [|exact Hdel]. rewrite Hdata.
      destruct k as [|[|[|k]]]; [exfalso; specialize (Hmore ltac:(vm_compute; lia)); vm_compute in Hmore; lia
                                |exfalso; specialize (Hmore ltac:(vm_compute; lia)); vm_compute in Hmore; lia|vm_compute; reflexivity|vm_compute in Hk; lia].
Defined.

(** ** Unintended behaviours *)

Local Abbreviation run_events es := (steps demo_mask (born [demo_factory]) es).

(** When an attempt to connect fails, its entry is still empty, so the message that
    removes it takes the branch that calls this impossible, and asks to investigate. *)
Example failed_attempt_is_impossible :
  match run_events [HandIn (to_neighbor [1]); Deliver; Answer 0 found; Deliver; ConnectFailed 0; Deliver] with
  | Ret s => omap (λ x, match x with UnpopulatedEntry t key => Some (t, key) | _ => None end) (log s) =
      [(NeighborhoodActor.Clandestine, stream_writer_key neighbor)]
  | Panic => False
  end.
Proof. vm_compute. reflexivity. Qed.

Definition stream_from (port : Z) : AddStreamMsg :=
  MkAddStream home (neighbor.1, port) (Some 80) (MkPortConfiguration [demo_factory] true).

(** A neighbor opens a stream, then another.  When the first one ends, the writer of
    the second is removed, since both have one key, and the neighborhood is told
    that the neighbor is gone. *)
Example old_stream_takes_new_one :
  match run_events [Listen (stream_from 40000); Deliver; Listen (stream_from 40001); Deliver;
                    ReaderOver (MkRemove home (neighbor.1, 40000) NeighborhoodActor.Clandestine); Deliver] with
  | Ret s => stream_writers (pool s) = ∅ ∧ (ch_alive <$> channels (pool s)) = [true; true] ∧
      log s = [ToDispatcher (ProxyServer.MkShutdown (neighbor.1, 40000) NeighborhoodActor.Clandestine true)]
  | Panic => False
  end.
Proof. vm_compute. done. Qed.

Definition data_sent (r : option (run (StreamReaderReal Json.JsonFramer * list ReaderSent * Writers.task_poll))) : option (list (list Z)) :=
  match r with
  | Some (Ret (_, sent, _)) => Some (omap (λ x, match x with SendInbound m => Some (Hopper.data m) | SendRemove _ => None end) sent)
  | _ => None
  end.

(** A frame that cannot be unmasked ends the taking of chunks: a good message read
    with it waits until something else is read. *)
Example bad_frame_holds_up_good_one :
  match reader_new None [demo_factory] true home neighbor with
  | Ret self =>
      let read_together := [ProxyClient.RdReady (Json.bytes_of "{bad}" ++ write "bodyText" [1; 2])] in
      data_sent (run_reader demo_connect Z.of_nat 1000 self [read_together] []) = Some [] ∧
      data_sent (run_reader demo_connect Z.of_nat 1000 self [read_together; [ProxyClient.RdReady [0]]] []) = Some [[1; 2]]
  | Panic => False
  end.
Proof. vm_compute. done. Qed.

(** The framer of requests, as a browser's stream has it. *)
#[local] Instance demo_http : Framer Http.HttpFramerState := {|
  add_data := Http.http_add_data;
  take_frame := @Http.http_take_frame (λ _, None) (λ _, None) Http.request_finder
|}.

Definition request (path : string) : list Z := Json.bytes_of "GET " ++ Json.bytes_of path ++ Json.bytes_of " HTTP/1.1" ++ [13; 10].

(** The second request on a stream is read in two pieces, and the second piece, in
    the middle of a header, begins with the word CONNECT.  The request gets number 0,
    which the first one had, instead of 1. *)
Example header_taken_for_connect :
  match (d ← discriminator_new Http.http_new [null_try_unmask]; reader_new (Some 80) [Ret d] false neighbor home) with
  | Ret self =>
      match run_reader demo_connect Z.of_nat 1000 self
              [[ProxyClient.RdReady (request "/a" ++ [13; 10])]; [ProxyClient.RdReady (request "/b" ++ Json.bytes_of "Connection-Note: ")];
               [ProxyClient.RdReady (Json.bytes_of "CONNECT later" ++ [13; 10; 13; 10])]; [ProxyClient.RdReady []]] [] with
      | Some (Ret (_, sent, _)) =>
          ((λ x, match x with SendInbound m => Hopper.sequence_number m | SendRemove m => match rm_stream_type m with NeighborhoodActor.NonClandestine _ n => Some n | _ => None end end) <$> sent) =
          [Some 0; Some 0; Some 1]
      | _ => False
      end
  | Panic => False
  end.
Proof. vm_compute. reflexivity. Qed.
End Demo.

End StreamPool.
