(* ===== verification/BlockchainBridge.v ===== *)
(** * The blockchain bridge

    Models [node/src/blockchain/blockchain_bridge.rs], the actor that does for the
    accountant what happens on the blockchain, with the interface it uses,
    [blockchain_interface/blockchain_interface_web3] ([mod.rs], [utils.rs], the
    receipts of [lower_level_interface_web3.rs]), the agent that carries prices and
    balances ([agent_web3.rs]) and the chains of [masq_lib/src/blockchains].

    The server of the blockchain is outside the program: the answers it gives while
    one message is handled are a [Server].  Signing, the regular expression that
    finds a limit in an error message and the reading of a receipt from JSON are
    parameters.  The futures of a handler run to their end in one step; what they
    send is a list, in order, in which the submission of a batch to the server is an
    entry of its own.  Texts of errors are kept only where the code looks into them.
    Wallets are their addresses, hashes are numbers. *)
From Stdlib Require Import String.
From S2P Require Import Prelude.
From S2P Require Import BigInt Thresholds AccountingTables Scanners Accountant PaymentCycle ConfigParams.
From stdpp Require Import base list gmap strings.

Module BlockchainBridge.
Import Signed Daos Scanners Accountant.
Local Open Scope Z_scope.

(** ** Chains *)

Inductive Chain := EthMainnet | EthRopsten | PolyMainnet | PolyAmoy | BaseMainnet | BaseSepolia | Dev.

Record BlockchainRecord := MkRecord {
  num_chain_id : Z;
  contract : Z
}.

Definition rec (chain : Chain) : BlockchainRecord :=
  match chain with
  | PolyMainnet => MkRecord 137 0xEe9A352F6aAc4aF1A5B9f467F6a93E0ffBe9Dd35
  | EthMainnet => MkRecord 1 0x06F3C323f0238c72BF35011071f2b5B7F43A054c
  | BaseMainnet => MkRecord 8453 0x45D9C101a3870Ca5024582fd788F4E1e8F7971c3
  | BaseSepolia => MkRecord 84532 0x898e1ce720084A902bc37dd822ed6d6a5f027e10
  | PolyAmoy => MkRecord 80002 0xd98c3ebd6b7f9b7cda2449ecac00d1e5f47a8193
  | EthRopsten => MkRecord 3 0x384dec25e03f94931767ce4c3556168468ba24c3
  | Dev => MkRecord 2 0x59882e4a8f5d24643d4dda422922a870f1b3e664
  end.

Definition web3_gas_limit_const_part (chain : Chain) : Z :=
  match chain with
  | EthMainnet | EthRopsten | Dev => 55000
  | PolyMainnet | PolyAmoy | BaseMainnet | BaseSepolia => 70000
  end.

(** ** The agent *)

Record BlockchainAgentWeb3 := MkAgent {
  gas_price_wei : Z;
  gas_limit_const_part : Z;
  maximum_added_gas_margin : Z;
  consuming_wallet : Z;
  transaction_fee_balance : Z;
  masq_token_balance : Z;
  agent_chain : Chain
}.

Definition WEB3_MAXIMAL_GAS_LIMIT_MARGIN : Z := 3328.

Definition agent_new (gas_price_wei gas_limit_const_part consuming_wallet fee_balance token_balance : Z) (chain : Chain) : BlockchainAgentWeb3 :=
  MkAgent gas_price_wei gas_limit_const_part WEB3_MAXIMAL_GAS_LIMIT_MARGIN consuming_wallet fee_balance token_balance chain.

Definition estimated_transaction_fee_total (self : BlockchainAgentWeb3) (number_of_transactions : nat) : run Z :=
  max_gas_limit ← checked_u 128 (maximum_added_gas_margin self + gas_limit_const_part self);
  price ← checked_u 128 (Z.of_nat number_of_transactions * gas_price_wei self);
  checked_u 128 (price * max_gas_limit).

(** ** Errors and answers *)

Inductive BlockchainError :=
| InvalidUrl
| InvalidAddress
| InvalidResponse
| QueryFailed (msg : string)
| UninitializedInterface.

Inductive BlockScanRange := NoLimit | Range (n : Z).
Inductive BlockNumber := Latest | Number (n : Z).

Record Filter := MkFilter {
  f_address : Z;
  f_from : BlockNumber;
  f_to : BlockNumber;
  f_recipient : Z
}.

Record Log := MkLog {
  l_block_number : option Z;
  l_topics : list Z;
  l_data : list Z
}.

Record TransactionReceipt := MkTransactionReceipt {
  r_status : option Z;
  r_block_hash : option Z;
  r_block_number : option Z
}.

Record TransactionParameters := MkParameters {
  p_nonce : option Z;
  p_to : option Z;
  p_gas : Z;
  p_gas_price : option Z;
  p_value : Z;
  p_data : list Z;
  p_chain_id : option Z
}.

Record SignedTransaction := MkSigned {
  raw_transaction : list Z;
  transaction_hash : Z
}.

Section bridge.
(** What the server answers with inside a batch. *)
Context {Value : Type}.
Context (receipt_from_value : Value → result string TransactionReceipt).
(** The capture group of the limit in an error message; the outer option is the match. *)
Context (max_block_count_captures : string → option (option string)).
Context (secret_of : Z → option Z) (sign : TransactionParameters → Z → option SignedTransaction).

Record Server := MkServer {
  get_gas_price : result BlockchainError Z;
  get_transaction_fee_balance : Z → result BlockchainError Z;
  get_service_fee_balance : Z → result BlockchainError Z;
  get_transaction_id : Z → result BlockchainError Z;
  get_block_number : result BlockchainError Z;
  get_transaction_logs : Filter → result BlockchainError (list Log);
  get_transaction_receipt_in_batch : list Z → result BlockchainError (list (result string Value));
  submit_batch : list (list Z) → result string (list (result string Value))
}.

(** ** Payments to us *)

(** [U256::from] of bytes and [as_u128]. *)
Definition as_u128 (z : Z) : run Z := checked_u 128 z.

(** [Wallet::from] of a topic. *)
Definition wallet_from_topic (topic : Z) : Z := topic mod 2 ^ 160.

Fixpoint extract_transactions_from_logs (logs : list Log) : run (list BlockchainTransaction) :=
  match logs with
  | [] => Ret []
  | log :: logs =>
      match l_block_number log with
      | None => extract_transactions_from_logs logs
      | Some block_number =>
          wei_amount ← as_u128 (from_be_digits 8 (l_data log));
          topic ← get (l_topics log) 1;
          rest ← extract_transactions_from_logs logs;
          Ret (MkBlockchainTransaction block_number (wallet_from_topic topic) wei_amount :: rest)
      end
  end.

Definition find_highest_block_marker_from_txs (transactions : list BlockchainTransaction) : BlockMarker :=
  foldl (λ max tx, match max with
                   | BlockValue current_max => BlockValue (Z.max current_max (block_number tx))
                   | BlockUninitialized => BlockValue (block_number tx)
                   end) BlockUninitialized transactions.

(** The next block, in 64 bits. *)
Definition next_block (n : Z) : run BlockMarker := n ← checked_u 64 (n + 1); Ret (BlockValue n).

Definition find_new_start_block (transactions : list BlockchainTransaction) (start_block_marker end_block_marker : BlockMarker) : run BlockMarker :=
  match end_block_marker with
  | BlockValue end_block_number => next_block end_block_number
  | BlockUninitialized =>
      match find_highest_block_marker_from_txs transactions with
      | BlockValue block_number => next_block block_number
      | BlockUninitialized =>
          match start_block_marker with
          | BlockValue start_block => next_block start_block
          | BlockUninitialized => Ret BlockUninitialized
          end
      end
  end.

Definition calculate_end_block_marker (start_block_marker : BlockMarker) (scan_range : BlockScanRange)
    (rpc_block_number_result : result BlockchainError Z) : run BlockMarker :=
  locally_determined_end_block_marker ←
    match start_block_marker, scan_range with
    | BlockValue start_block, Range scan_range_number => n ← checked_u 64 (start_block + scan_range_number); Ret (BlockValue n)
    | _, _ => Ret BlockUninitialized
    end;
  Ret match rpc_block_number_result with
      | Ok response_block =>
          match locally_determined_end_block_marker with
          | BlockUninitialized => BlockValue response_block
          | BlockValue local_end_block_number => BlockValue (Z.min local_end_block_number response_block)
          end
      | Err _ => locally_determined_end_block_marker
      end.

Definition handle_transaction_logs (logs_result : result BlockchainError (list Log))
    : run (result BlockchainError (list BlockchainTransaction)) :=
  match logs_result with
  | Err e => Ret (Err e)
  | Ok logs =>
      if existsb (λ log, (length (l_topics log) <? 2)%nat || (32 <? length (l_data log))%nat) logs then Ret (Err InvalidResponse)
      else transactions ← extract_transactions_from_logs logs; Ret (Ok transactions)
  end.

Definition retrieve_transactions (server : Server) (chain : Chain) (start_block_marker : BlockMarker) (scan_range : BlockScanRange)
    (recipient : Z) : run (result BlockchainError (BlockMarker * list BlockchainTransaction)) :=
  let rpc_block_number_result := get_block_number server in
  let start_block_number :=
    match start_block_marker with
    | BlockUninitialized => match rpc_block_number_result with Ok latest_block => Number latest_block | Err _ => Latest end
    | BlockValue number => Number number
    end in
  end_block_marker ← calculate_end_block_marker start_block_marker scan_range rpc_block_number_result;
  let end_block_number := match end_block_marker with BlockUninitialized => Latest | BlockValue number => Number number end in
  let filter := MkFilter (contract (rec chain)) start_block_number end_block_number recipient in
  transactions ← handle_transaction_logs (get_transaction_logs server filter);
  match transactions with
  | Err e => Ret (Err e)
  | Ok transactions =>
      new_start_block ← find_new_start_block transactions start_block_marker end_block_marker;
      Ret (Ok (new_start_block, transactions))
  end.

Definition extract_max_block_count (error : BlockchainError) : option Z :=
  match error with
  | QueryFailed msg =>
      match max_block_count_captures msg with
      | Some (Some m) => match ConfigParams.parse_u64 m with Ok value => Some value | Err _ => None end
      | Some None => None
      | None => if String.eqb msg "Got invalid response: Expected batch, got single." then Some 1000 else None
      end
  | _ => None
  end.

(** ** Payments from us *)

Definition TRANSFER_METHOD_ID : list Z := [0xa9; 0x05; 0x9c; 0xbb].

Definition sign_transaction_data (amount recipient_wallet : Z) : list Z :=
  TRANSFER_METHOD_ID ++ replicate 12 0 ++ be_digits 8 20 recipient_wallet ++ be_digits 8 32 amount.

Definition gas_limit (data : list Z) (chain : Chain) : Z :=
  foldl (λ acc v, acc + if v =? 0 then 4 else 68) (web3_gas_limit_const_part chain) data.

Definition sign_transaction_locally (transaction_parameters : TransactionParameters) (key : Z) : run SignedTransaction :=
  match p_nonce transaction_parameters, p_chain_id transaction_parameters, p_gas_price transaction_parameters with
  | Some _, Some _, Some _ => expect (sign transaction_parameters key)
  | _, _, _ => Panic
  end.

Definition parameters (chain : Chain) (recipient_wallet amount nonce gas_price_in_wei : Z) : TransactionParameters :=
  let data := sign_transaction_data amount recipient_wallet in
  MkParameters (Some nonce) (Some (contract (rec chain))) (gas_limit data chain) (Some gas_price_in_wei) 0 data (Some (num_chain_id (rec chain))).

Definition sign_transaction (chain : Chain) (recipient_wallet consuming_wallet amount nonce gas_price_in_wei : Z) : run SignedTransaction :=
  key ← expect (secret_of consuming_wallet);
  sign_transaction_locally (parameters chain recipient_wallet amount nonce gas_price_in_wei) key.

Definition advance_used_nonce (current_nonce : Z) : run Z := checked_u 256 (current_nonce + 1).

(** The transaction that joins the batch, and what is told the accountant of it. *)
Definition sign_and_append_payment (chain : Chain) (recipient : PayableAccount) (consuming_wallet nonce gas_price_in_wei : Z)
    : run (list Z * HashAndAmount) :=
  signed_tx ← sign_transaction chain (pa_wallet recipient) consuming_wallet (pa_balance_wei recipient) nonce gas_price_in_wei;
  Ret (raw_transaction signed_tx, MkHashAndAmount (transaction_hash signed_tx) (pa_balance_wei recipient)).

Fixpoint sign_and_append_multiple_payments (chain : Chain) (consuming_wallet gas_price_in_wei pending_nonce : Z) (accounts : list PayableAccount)
    : run (list (list Z) * list HashAndAmount) :=
  match accounts with
  | [] => Ret ([], [])
  | payable :: accounts =>
      '(raw, hash_and_amount) ← sign_and_append_payment chain payable consuming_wallet pending_nonce gas_price_in_wei;
      pending_nonce ← advance_used_nonce pending_nonce;
      '(batch, hash_and_amount_list) ← sign_and_append_multiple_payments chain consuming_wallet gas_price_in_wei pending_nonce accounts;
      Ret (raw :: batch, hash_and_amount :: hash_and_amount_list)
  end.

Fixpoint merged_output_data (responses : list (result string Value)) (hashes_and_paid_amounts : list HashAndAmount) (accounts : list PayableAccount)
    : list ProcessedPayableFallible :=
  match responses, hashes_and_paid_amounts, accounts with
  | rpc_result :: responses, hash_and_amount :: hashes_and_paid_amounts, account :: accounts =>
      match rpc_result with
      | Ok _ => Correct (MkPendingPayable (pa_wallet account) (ha_hash hash_and_amount))
      | Err _ => Failed (pa_wallet account) (ha_hash hash_and_amount)
      end :: merged_output_data responses hashes_and_paid_amounts accounts
  | _, _, _ => []
  end.

Definition error_with_hashes (hashes_and_paid_amounts : list HashAndAmount) : PayableTransactionError :=
  Sending (ha_hash <$> hashes_and_paid_amounts).

(** What leaves the bridge, in the order in which it does: messages to the
    accountant, and batches of transactions given to the blockchain service. *)
Inductive Sent :=
| ToAccountant (m : Message)
| AgentReady (m : BlockchainAgentWithContextMessage) (agent : BlockchainAgentWeb3)
| BatchSubmitted (batch : list (list Z)).

(** The seeds of the fingerprints go to the accountant with [try_send], and only
    then is the batch submitted; the outcome is made of the server's answer. *)
Definition send_payables_within_batch (server : Server) (chain : Chain) (consuming_wallet gas_price_in_wei pending_nonce timestamp : Z)
    (accounts : list PayableAccount)
    : run (list Sent * result PayableTransactionError (list ProcessedPayableFallible)) :=
  '(batch, hashes_and_paid_amounts) ← sign_and_append_multiple_payments chain consuming_wallet gas_price_in_wei pending_nonce accounts;
  let announced := [ToAccountant (SeedsMsg (MkSeeds timestamp hashes_and_paid_amounts))] in
  Ret (announced ++ [BatchSubmitted batch],
       match submit_batch server batch with
       | Err _ => Err (error_with_hashes hashes_and_paid_amounts)
       | Ok batch_response => Ok (merged_output_data batch_response hashes_and_paid_amounts accounts)
       end).

Definition submit_payables_in_batch (server : Server) (agent : BlockchainAgentWeb3) (timestamp : Z) (affordable_accounts : list PayableAccount)
    : run (list Sent * result PayableTransactionError (list ProcessedPayableFallible)) :=
  match get_transaction_id server (consuming_wallet agent) with
  | Err _ => Ret ([], Err TransactionID)
  | Ok pending_nonce =>
      send_payables_within_batch server (agent_chain agent) (consuming_wallet agent) (gas_price_wei agent) pending_nonce
        timestamp affordable_accounts
  end.

(** ** Receipts *)

(** [TxReceipt::from], as far as the accountant looks at it. *)
Definition tx_status (receipt : TransactionReceipt) : TxStatus :=
  match r_status receipt, r_block_hash receipt, r_block_number receipt with
  | Some status, Some _, Some block_number =>
      if status =? 1 then TxSucceeded block_number else if status =? 0 then TxFailed else TxPending
  | Some status, _, _ => if status =? 0 then TxFailed else TxPending
  | None, _, _ => TxPending
  end.

Definition receipt_result (response : result string Value) : TransactionReceiptResult :=
  match response with
  | Ok value =>
      match receipt_from_value value with
      | Ok receipt => RpcResponse (tx_status receipt)
      | Err e => match String.index 0 "invalid type: null" e with Some _ => RpcResponse TxPending | None => LocalError end
      end
  | Err _ => LocalError
  end.

Definition process_transaction_receipts (server : Server) (transaction_hashes : list Z) : result BlockchainError (list TransactionReceiptResult) :=
  batch_response ← get_transaction_receipt_in_batch server transaction_hashes;
  Ok ((λ rh, receipt_result rh.1) <$> zip batch_response transaction_hashes).

(** ** The actor *)

Definition build_blockchain_agent (server : Server) (chain : Chain) (consuming_wallet : Z) : run (option BlockchainAgentWeb3) :=
  match get_gas_price server, get_transaction_fee_balance server consuming_wallet, get_service_fee_balance server consuming_wallet with
  | Ok gas_price_wei, Ok fee_balance, Ok token_balance =>
      gas_price_wei ← as_u128 gas_price_wei;
      Ret (Some (agent_new gas_price_wei (web3_gas_limit_const_part chain) consuming_wallet fee_balance token_balance chain))
  | _, _, _ => Ret None
  end.

Record BlockchainBridge := MkBridge {
  b_bound : bool;
  b_chain : Chain
}.

(** What the persistent configuration answers. *)
Record Config := MkConfig {
  start_block_result : result unit (option Z);
  max_block_count_result : result unit (option Z);
  set_max_block_count_result : result unit unit
}.

Inductive BridgeMessage :=
| Bind
| QualifiedPayables (msg : QualifiedPayablesMessage)
| PaymentInstructions (msg : OutboundPaymentsInstructions) (agent : BlockchainAgentWeb3)
| RequestReceipts (msg : RequestTransactionReceipts)
| Retrieve (msg : RetrieveTransactions).

(** [handle_scan_future]: what a handler sent, and a report if it failed. *)
Definition handle_scan_future (scan_type : ScanType) (skeleton_opt : option ResponseSkeleton) (sent : list Sent) (ok : bool) : list Sent :=
  if ok then sent else sent ++ [ToAccountant (ScanErrorMsg (MkScanError scan_type skeleton_opt))].

Definition handle_qualified_payable_msg (self : BlockchainBridge) (server : Server) (msg : QualifiedPayablesMessage) : run (list Sent) :=
  agent ← build_blockchain_agent server (b_chain self) (qp_consuming_wallet msg);
  match agent with
  | None => Ret (handle_scan_future Payables (qp_response_skeleton_opt msg) [] false)
  | Some agent =>
      Ret (handle_scan_future Payables (qp_response_skeleton_opt msg)
             [AgentReady (MkAgentMessage (qualified_payables msg) (qp_response_skeleton_opt msg)) agent] true)
  end.

Definition handle_outbound_payments_instructions (self : BlockchainBridge) (server : Server) (now : Z) (msg : OutboundPaymentsInstructions)
    (agent : BlockchainAgentWeb3) : run (list Sent) :=
  '(sent, outcome) ← submit_payables_in_batch server agent now (affordable_accounts msg);
  let sent := sent ++ [ToAccountant (SentPayablesMsg (MkSentPayables outcome (oi_response_skeleton_opt msg)))] in
  Ret (handle_scan_future Payables (oi_response_skeleton_opt msg) sent match outcome with Ok _ => true | Err _ => false end).

Definition handle_request_transaction_receipts (self : BlockchainBridge) (server : Server) (msg : RequestTransactionReceipts) : list Sent :=
  match process_transaction_receipts server (fp_hash <$> pending_payable msg) with
  | Err _ => handle_scan_future PendingPayables (rr_response_skeleton_opt msg) [] false
  | Ok results =>
      handle_scan_future PendingPayables (rr_response_skeleton_opt msg)
        [ToAccountant (ReportTransactionReceiptsMsg (MkReceipts (zip results (pending_payable msg)) (rr_response_skeleton_opt msg)))] true
  end.

(** Returns the new limit on blocks, when one was stored. *)
Definition handle_retrieve_transactions (self : BlockchainBridge) (server : Server) (config : Config) (now : Z) (msg : RetrieveTransactions)
    : run (option Z * list Sent) :=
  start_block ← match start_block_result config with
                | Ok (Some block) => Ret (BlockValue block)
                | Ok None => Ret BlockUninitialized
                | Err _ => Panic
                end;
  block_scan_range ← match max_block_count_result config with
                     | Ok (Some range) => Ret (Range range)
                     | Ok None => Ret NoLimit
                     | Err _ => Panic
                     end;
  retrieved ← retrieve_transactions server (b_chain self) start_block block_scan_range (rtx_recipient msg);
  match retrieved with
  | Err e =>
      stored ← match extract_max_block_count e with
               | Some max_block_count => match set_max_block_count_result config with Ok _ => Ret (Some max_block_count) | Err _ => Panic end
               | None => Ret None
               end;
      Ret (stored, handle_scan_future Receivables (rtx_response_skeleton_opt msg) [] false)
  | Ok (new_start_block, transactions) =>
      Ret (None, handle_scan_future Receivables (rtx_response_skeleton_opt msg)
                   [ToAccountant (ReceivedPaymentsMsg (MkReceivedPayments now new_start_block transactions (rtx_response_skeleton_opt msg)))] true)
  end.

(** The [Handler]s; every one but that of [BindMessage] needs the accountant. *)
Definition bridge_handle (self : BlockchainBridge) (server : Server) (config : Config) (now : Z) (msg : BridgeMessage)
    : run (BlockchainBridge * option Z * list Sent) :=
  match msg with
  | Bind => Ret (MkBridge true (b_chain self), None, [])
  | QualifiedPayables msg =>
      panic_if (negb (b_bound self)) (sent ← handle_qualified_payable_msg self server msg; Ret (self, None, sent))
  | PaymentInstructions msg agent =>
      panic_if (negb (b_bound self)) (sent ← handle_outbound_payments_instructions self server now msg agent; Ret (self, None, sent))
  | RequestReceipts msg => panic_if (negb (b_bound self)) (Ret (self, None, handle_request_transaction_receipts self server msg))
  | Retrieve msg =>
      panic_if (negb (b_bound self)) ('(stored, sent) ← handle_retrieve_transactions self server config now msg; Ret (self, stored, sent))
  end.
End bridge.

(** ** Scanning for payments *)

Section scanning.
Context {Value : Type} (max_block_count_captures : string → option (option string)).
(** The logs of payments to our wallet, block by block. *)
Context (logs_in : Z → list Log).

(** The logs of a block are numbered with it, and carry a sender and an amount of
    at most 128 bits. *)
Definition block_ok (n : Z) : Prop :=
  ∀ log, log ∈ logs_in n → l_block_number log = Some n ∧ (2 ≤ length (l_topics log))%nat ∧ (length (l_data log) ≤ 32)%nat ∧
    0 ≤ from_be_digits 8 (l_data log) < 2 ^ 128.

Definition payment (n : Z) (log : Log) : BlockchainTransaction :=
  MkBlockchainTransaction n (wallet_from_topic (nth 1 (l_topics log) 0)) (from_be_digits 8 (l_data log)).

(** The payments in the blocks from [a] to [b], in order. *)
Definition payments (a b : Z) : list BlockchainTransaction := seqZ a (b - a + 1) ≫= λ n, payment n <$> logs_in n.

(** A scan: what the server says is the latest block, which block is the latest,
    how many blocks may be asked for, and whether the query for logs fails. *)
Record Scan := MkScan {
  sc_says : result BlockchainError Z;
  sc_head : Z;
  sc_range : option Z;
  sc_error : option BlockchainError
}.

Definition logs_answered (sc : Scan) (filter : Filter) : result BlockchainError (list Log) :=
  match sc_error sc with
  | Some e => Err e
  | None =>
      let a := match f_from filter with Number a => a | Latest => sc_head sc end in
      let b := match f_to filter with Number b => Z.min b (sc_head sc) | Latest => sc_head sc end in
      Ok (seqZ a (b - a + 1) ≫= logs_in)
  end.

Definition server_of (sc : Scan) : Server (Value := Value) :=
  MkServer (Err InvalidResponse) (λ _, Err InvalidResponse) (λ _, Err InvalidResponse) (λ _, Err InvalidResponse)
    (sc_says sc) (logs_answered sc) (λ _, Err InvalidResponse) (λ _, Err EmptyString).

(** One scan from a start block: the start block that the accountant stores and the
    payments it is told of. *)
Definition scan (chain : Chain) (now recipient : Z) (sc : Scan) (start : Z) : run (Z * list BlockchainTransaction) :=
  '(_, sent) ← handle_retrieve_transactions max_block_count_captures (MkBridge true chain) (server_of sc)
                 (MkConfig (Ok (Some start)) (Ok (sc_range sc)) (Ok ())) now (MkRetrieveTransactions recipient None);
  Ret match sent with
      | [ToAccountant (ReceivedPaymentsMsg msg)] =>
          (match new_start_block msg with BlockValue n => n | BlockUninitialized => start end, transactions msg)
      | _ => (start, [])
      end.

(** The server tells the truth about logs, and its latest block, when it tells it,
    is not behind what was scanned; when it does not, the blocks to scan are there. *)
Definition sound (start : Z) (sc : Scan) : Prop :=
  sc_head sc < 2 ^ 64 - 1 ∧
  match sc_range sc with Some n => 0 ≤ n ∧ start + n < 2 ^ 64 - 1 | None => True end ∧
  match sc_says sc, sc_range sc with
  | Ok r, _ => start - 1 ≤ r ≤ sc_head sc
  | Err _, None => start ≤ sc_head sc
  | Err _, Some n => start + n ≤ sc_head sc
  end.

Lemma extract_block n logs : (∀ log, log ∈ logs → l_block_number log = Some n ∧ (2 ≤ length (l_topics log))%nat ∧ (length (l_data log) ≤ 32)%nat ∧
    0 ≤ from_be_digits 8 (l_data log) < 2 ^ 128) → ∀ rest,
  extract_transactions_from_logs (logs ++ rest) = (ts ← extract_transactions_from_logs rest; Ret ((payment n <$> logs) ++ ts)).
Proof using Type.
  intros Hlogs rest. induction logs as [|log logs IH]; cbn [app extract_transactions_from_logs]; [by destruct (extract_transactions_from_logs rest)|].
  destruct (Hlogs log) as (Hn & Ht & Hd & Ha); [left|]. rewrite Hn. unfold as_u128. rewrite checked_u_ok by done. cbn [mbind run_bind].
  destruct (l_topics log) as [|t0 [|t1 ts]] eqn:Et; [cbn in Ht; lia..|]. cbn [get expect lookup list_lookup mbind run_bind].
  rewrite IH by (intros l Hl; apply Hlogs; by right). destruct (extract_transactions_from_logs rest) as [r|]; [|done]. cbn. unfold payment. by rewrite Et.
Qed.

Lemma extract_blocks ns : (∀ n, n ∈ ns → block_ok n) →
  extract_transactions_from_logs (ns ≫= logs_in) = Ret (ns ≫= λ n, payment n <$> logs_in n).
Proof using Type.
  induction ns as [|n ns IH]; intros Hns; [done|]. cbn [mbind list_bind]. rewrite (extract_block n) by (apply Hns; left).
  cbn [mbind] in IH. rewrite IH by (intros m Hm; apply Hns; by right). done.
Qed.

Lemma logs_valid ns : (∀ n, n ∈ ns → block_ok n) →
  existsb (λ log, (length (l_topics log) <? 2)%nat || (32 <? length (l_data log))%nat) (ns ≫= logs_in) = false.
Proof using Type.
  intros Hns. apply not_true_iff_false. intros (log & Hin & Hbad)%existsb_exists. apply list_elem_of_In, list_elem_of_bind in Hin as (n & Hlog & Hn).
  destruct (Hns n Hn log Hlog) as (_ & Ht & Hd & _). apply orb_true_iff in Hbad as [H|H]; [apply Nat.ltb_lt in H|apply Nat.ltb_lt in H]; lia.
Qed.

Lemma payments_app a b c : a ≤ b + 1 → b ≤ c → payments a c = payments a b ++ payments (b + 1) c.
Proof using Type.
  intros H1 H2. unfold payments. replace (c - a + 1) with ((b - a + 1) + (c - (b + 1) + 1)) by lia.
  rewrite seqZ_app by lia. rewrite bind_app. by replace (a + (b - a + 1)) with (b + 1) by lia.
Qed.

Lemma payments_numbered a b tx : tx ∈ payments a b → a ≤ block_number tx ≤ b.
Proof using Type.
  intros (n & Hin & Hn)%list_elem_of_bind. apply list_elem_of_fmap in Hin as (log & -> & _). apply elem_of_seqZ in Hn. cbn. lia.
Qed.

Lemma highest_spec txs :
  match find_highest_block_marker_from_txs txs with
  | BlockUninitialized => txs = []
  | BlockValue h => (∃ tx, tx ∈ txs ∧ block_number tx = h) ∧ ∀ tx, tx ∈ txs → block_number tx ≤ h
  end.
Proof using Type.
  unfold find_highest_block_marker_from_txs. induction txs as [|tx txs IH] using rev_ind; [done|]. rewrite foldl_snoc.
  destruct (foldl _ _ txs) as [|h].
  - subst txs. split; [exists tx; split; [left|done]|]. intros t Ht. apply list_elem_of_singleton in Ht as ->. lia.
  - destruct IH as [(t0 & Hin & Ht0) Hall]. split.
    + destruct (Z.max_spec h (block_number tx)) as [[_ ->]|[_ ->]].
      * exists tx. split; [|done]. apply elem_of_app. right. left.
      * exists t0. split; [|done]. apply elem_of_app. by left.
    + intros t [Ht|Ht]%elem_of_app; [specialize (Hall t Ht); lia|]. apply list_elem_of_singleton in Ht as ->. lia.
Qed.

(** The payments up to the highest block that has one are all payments. *)
Lemma payments_highest a b h : a ≤ h ≤ b → (∀ tx, tx ∈ payments a b → block_number tx ≤ h) → payments a b = payments a h.
Proof using Type.
  intros Hh Hall. rewrite (payments_app a h b) in Hall |- * by lia. destruct (payments (h + 1) b) as [|tx txs] eqn:E; [by rewrite app_nil_r|].
  assert (tx ∈ payments (h + 1) b) as Htx by (rewrite E; left). pose proof (payments_numbered _ _ _ Htx).
  specialize (Hall tx). rewrite elem_of_app in Hall. assert (block_number tx ≤ h); [apply Hall; right; left|lia].
Qed.

(** What is found in the blocks from [start] to [b], when the scan ends there or,
    without an end, at the latest block. *)
Lemma retrieved_blocks (start b : Z) (marker : BlockMarker) : 0 ≤ start → start - 1 ≤ b < 2 ^ 64 - 1 → (∀ n, start ≤ n → block_ok n) →
  (marker = BlockValue b ∨ marker = BlockUninitialized ∧ start ≤ b) →
  ∃ start' , start ≤ start' ∧
    (txs ← extract_transactions_from_logs (seqZ start (b - start + 1) ≫= logs_in);
     m ← find_new_start_block txs (BlockValue start) marker; Ret (m, txs)) = Ret (BlockValue start', payments start (start' - 1)).
Proof using Type.
  intros H0 Hb Hok Hm. rewrite extract_blocks by (intros n Hn%elem_of_seqZ; apply Hok; lia). cbn [mbind run_bind].
  change (seqZ start (b - start + 1) ≫= λ n, payment n <$> logs_in n) with (payments start b). unfold find_new_start_block, next_block.
  destruct Hm as [->|[-> Hle]].
  - exists (b + 1). split; [lia|]. rewrite checked_u_ok by lia. cbn. by replace (b + 1 - 1) with b by lia.
  - pose proof (highest_spec (payments start b)) as Hh. destruct (find_highest_block_marker_from_txs (payments start b)) as [|h].
    + exists (start + 1). split; [lia|]. rewrite checked_u_ok by lia. cbn. replace (start + 1 - 1) with start by lia.
      rewrite <- (payments_highest start b start) by (lia || (rewrite Hh; by intros tx ?%not_elem_of_nil)). by rewrite Hh.
    + destruct Hh as [(tx & Hin & <-) Hall]. pose proof (payments_numbered _ _ _ Hin) as Hn. exists (block_number tx + 1). split; [lia|].
      rewrite checked_u_ok by lia. cbn. replace (block_number tx + 1 - 1) with (block_number tx) by lia. by rewrite <- (payments_highest start b (block_number tx)) by (done || lia).
Qed.

Context (chain : Chain) (now recipient : Z).

Lemma scan_sound start sc : 0 ≤ start → (∀ n, start ≤ n → block_ok n) → sound start sc →
  ∃ start', start ≤ start' ∧ scan chain now recipient sc start = Ret (start', payments start (start' - 1)).
Proof using Type.
  intros H0 Hok (Hhead & Hrange & Hsays). unfold scan, handle_retrieve_transactions. cbn [start_block_result max_block_count_result mbind run_bind].
  set (range := match sc_range sc with Some range => Range range | None => NoLimit end).
  assert (∃ b marker, calculate_end_block_marker (BlockValue start) range (sc_says sc) = Ret marker ∧ start - 1 ≤ b ≤ sc_head sc ∧
    (marker = BlockValue b ∨ marker = BlockUninitialized ∧ start ≤ b ∧ b = sc_head sc)) as (b & marker & Hend & Hb & Hm).
  { unfold calculate_end_block_marker, range. destruct (sc_range sc) as [n|]; cbn [mbind run_bind].
    - rewrite checked_u_ok by lia. cbn [mbind run_bind]. destruct (sc_says sc) as [r|e].
      + exists (Z.min (start + n) r), (BlockValue (Z.min (start + n) r)). split; [done|]. split; [lia|by left].
      + exists (start + n), (BlockValue (start + n)). split; [done|]. split; [lia|by left].
    - destruct (sc_says sc) as [r|e].
      + exists r, (BlockValue r). split; [done|]. split; [lia|by left].
      + exists (sc_head sc), BlockUninitialized. split; [done|]. split; [lia|]. right. done. }
  replace (match sc_range sc with Some range => Ret (Range range) | None => Ret NoLimit end) with (Ret range) by by destruct (sc_range sc).
  cbn [mbind run_bind]. unfold retrieve_transactions. cbn [server_of get_block_number get_transaction_logs]. rewrite Hend. cbn [mbind run_bind].
  unfold handle_transaction_logs, logs_answered. destruct (sc_error sc) as [e|].
  { exists start. split; [lia|]. assert (payments start (start - 1) = []) as -> by (unfold payments; by rewrite seqZ_nil by lia).
    cbn [mbind run_bind]. by destruct (extract_max_block_count max_block_count_captures e). }
  cbn [f_from f_to]. replace (match match marker with BlockUninitialized => Latest | BlockValue number => Number number end with
    Latest => sc_head sc | Number b0 => Z.min b0 (sc_head sc) end) with b by (destruct Hm as [->|[-> [_ ->]]]; lia).
  rewrite logs_valid by (intros n Hn%elem_of_seqZ; apply Hok; lia).
  destruct (retrieved_blocks start b marker) as (start' & Hle & Heq); [done|lia|done|destruct Hm as [->|[-> [? _]]]; [by left|by right]|].
  exists start'. split; [done|]. destruct (extract_transactions_from_logs _) as [txs|]; [|done]. cbn [mbind run_bind] in Heq |- *.
  destruct (find_new_start_block txs (BlockValue start) marker) as [m|]; [|done]. cbn in Heq. injection Heq as -> ->. done.
Qed.

(** Scans one after the other, with the start block each time where the last one
    left it, and the payments reported so far. *)
Inductive scanned (first : Z) : Z → list BlockchainTransaction → Prop :=
| scanned_none : scanned first first []
| scanned_more start txs sc start' txs' :
    scanned first start txs → sound start sc → scan chain now recipient sc start = Ret (start', txs') →
    scanned first start' (txs ++ txs').

(** C6: payments to us are counted once.  The scans for receivables ask the server
    for logs from a start block that moves on, within a limit on the number of
    blocks or to the latest block.  However many scans there are, with queries that
    fail, limits that change, blocks that come in and a server that sometimes does
    not tell its latest block: the payments reported to the accountant are exactly
    those in the blocks from the first start block up to the present one, each once
    and in order, the start block never goes back, and no scan panics.  This asks
    that the server, when it tells its latest block, is not behind what was scanned
    before, and that the blocks that are asked for exist when it does not. *)
Theorem payments_counted_once (first start : Z) (txs : list BlockchainTransaction) :
  0 ≤ first → (∀ n, first ≤ n → block_ok n) → scanned first start txs →
  first ≤ start ∧ txs = payments first (start - 1) ∧
  ∀ sc, sound start sc → ∃ start' txs', scan chain now recipient sc start = Ret (start', txs') ∧ start ≤ start'.
Proof using Type.
  intros H0 Hok Hs. assert (first ≤ start ∧ txs = payments first (start - 1)) as [Hle ->].
  { induction Hs as [|start txs sc start' txs' _ [Hle ->] Hsound Hscan].
    - split; [lia|]. unfold payments. by rewrite seqZ_nil by lia.
    - destruct (scan_sound start sc) as (start1 & Hle1 & Heq); [lia|intros n Hn; apply Hok; lia|done|].
      rewrite Hscan in Heq. injection Heq as -> ->. split; [lia|]. rewrite (payments_app first (start - 1) (start1 - 1)) by lia.
      by replace (start - 1 + 1) with start by lia. }
  split; [done|]. split; [done|]. intros sc Hsound. destruct (scan_sound start sc) as (start' & Hle' & Heq); [lia|intros n Hn; apply Hok; lia|done|].
  eauto.
Qed.
End scanning.

(** ** Paying *)

(** How the contract of the token reads the data of a call: who gets how much. *)
Definition read_transfer (data : list Z) : option (Z * Z) :=
  if (length data =? 68)%nat && bool_decide (take 4 data = TRANSFER_METHOD_ID)
  then Some (from_be_digits 8 (take 32 (drop 4 data)), from_be_digits 8 (drop 36 data)) else None.

Definition account_ok (a : PayableAccount) : Prop := 0 ≤ pa_wallet a < 2 ^ 160 ∧ 0 ≤ pa_balance_wei a < 2 ^ 128.

(** The transactions that pay accounts, with nonces from [n] on. *)
Fixpoint transfers (agent : BlockchainAgentWeb3) (n : Z) (accounts : list PayableAccount) : list TransactionParameters :=
  match accounts with
  | [] => []
  | a :: accounts => parameters (agent_chain agent) (pa_wallet a) (pa_balance_wei a) n (gas_price_wei agent) :: transfers agent (n + 1) accounts
  end.

(** What a batch of transactions may cost. *)
Definition fee_of (txs : list TransactionParameters) : Z := foldr (λ t acc, p_gas t * default 0 (p_gas_price t) + acc) 0 txs.

Lemma be_digits_pad k n z : 0 ≤ z < 2 ^ Z.of_nat (8 * n) → be_digits 8 (k + n) z = replicate k 0 ++ be_digits 8 n z.
Proof.
  intros Hz. induction k as [|k IH]; [done|]. cbn [Nat.add replicate app]. rewrite be_digits_S, IH. f_equal.
  rewrite Z.div_small; [done|]. split; [lia|]. eapply Z.lt_le_trans; [apply Hz|]. apply Z.pow_le_mono_r; lia.
Qed.

Lemma from_be_digits_pad k ds : from_be_digits 8 (replicate k 0 ++ ds) = from_be_digits 8 ds.
Proof. unfold from_be_digits. rewrite foldl_app. f_equal. by induction k. Qed.

Lemma read_transfer_data amount wallet : 0 ≤ wallet < 2 ^ 160 → 0 ≤ amount < 2 ^ 128 →
  read_transfer (sign_transaction_data amount wallet) = Some (wallet, amount).
Proof.
  intros Hw Ha. unfold read_transfer, sign_transaction_data.
  assert (length (replicate 12 0 ++ be_digits 8 20 wallet) = 32%nat) as Hlen by (rewrite length_app, length_replicate, length_be_digits; done).
  rewrite (app_assoc (replicate 12 0)). set (word := replicate 12 0 ++ be_digits 8 20 wallet) in *.
  assert (length (TRANSFER_METHOD_ID ++ word ++ be_digits 8 32 amount) = 68%nat) as ->
    by (rewrite !length_app, Hlen, length_be_digits; done).
  rewrite (take_app_length' TRANSFER_METHOD_ID), (drop_app_length' TRANSFER_METHOD_ID), bool_decide_true by done. cbn [Nat.eqb andb].
  rewrite (take_app_length' word) by done. rewrite (app_assoc TRANSFER_METHOD_ID), drop_app_length' by (rewrite length_app, Hlen; done).
  unfold word. rewrite from_be_digits_pad, !from_be_digits_be_digits; [done|change (2 ^ Z.of_nat (8 * 32)) with (2 ^ 256); lia|done].
Qed.

(** A byte costs at most 68, a zero byte 4. *)
Lemma gas_bytes acc ds : foldl (λ acc v, acc + if v =? 0 then 4 else 68) acc ds ≤ acc + 68 * Z.of_nat (length ds).
Proof. revert acc. induction ds as [|d ds IH]; intros acc; [cbn; lia|]. cbn [foldl length]. specialize (IH (acc + if d =? 0 then 4 else 68)). destruct (d =? 0); lia. Qed.

Lemma gas_zeros acc k : foldl (λ acc v, acc + if v =? 0 then 4 else 68) acc (replicate k 0) = acc + 4 * Z.of_nat k.
Proof. revert acc. induction k as [|k IH]; intros acc; [cbn; lia|]. cbn [replicate foldl]. rewrite IH. cbn [Z.eqb]. lia. Qed.

Lemma gas_limit_bound amount wallet chain : 0 ≤ amount < 2 ^ 128 →
  gas_limit (sign_transaction_data amount wallet) chain ≤ web3_gas_limit_const_part chain + WEB3_MAXIMAL_GAS_LIMIT_MARGIN.
Proof.
  intros Ha. unfold gas_limit, sign_transaction_data. rewrite (be_digits_pad 16 16) by done. rewrite !foldl_app, !gas_zeros.
  eapply Z.le_trans; [apply gas_bytes|]. rewrite length_be_digits. cbn [foldl TRANSFER_METHOD_ID Z.eqb Pos.eqb].
  pose proof (gas_bytes (web3_gas_limit_const_part chain + 68 + 68 + 68 + 68 + 4 * Z.of_nat 12) (be_digits 8 20 wallet)) as H.
  rewrite length_be_digits in H. unfold WEB3_MAXIMAL_GAS_LIMIT_MARGIN. lia.
Qed.

(** An agent that was built prices every transaction at its most. *)
Lemma built_agent {Value} (server : Server (Value := Value)) chain wallet agent : build_blockchain_agent server chain wallet = Ret (Some agent) →
  agent_chain agent = chain ∧ consuming_wallet agent = wallet ∧ 0 ≤ gas_price_wei agent ∧ gas_limit_const_part agent = web3_gas_limit_const_part chain ∧
  maximum_added_gas_margin agent = WEB3_MAXIMAL_GAS_LIMIT_MARGIN.
Proof.
  unfold build_blockchain_agent. destruct (get_gas_price server) as [price|], (get_transaction_fee_balance server wallet), (get_service_fee_balance server wallet);
    try done. unfold as_u128, checked_u. destruct (fits_u 128 price) eqn:E; [|done]. apply fits_u_spec in E. cbn. intros [= <-]. cbn. intuition lia.
Qed.

Lemma transfers_lookup agent n accounts i : transfers agent n accounts !! i =
  (λ a, parameters (agent_chain agent) (pa_wallet a) (pa_balance_wei a) (n + Z.of_nat i) (gas_price_wei agent)) <$> accounts !! i.
Proof.
  revert n i. induction accounts as [|a accounts IH]; intros n i; [done|]. destruct i as [|i]; cbn [transfers lookup list_lookup]; [by rewrite Z.add_0_r|].
  etransitivity; [apply IH|]. by replace (n + 1 + Z.of_nat i) with (n + Z.of_nat (S i)) by lia.
Qed.

Lemma length_transfers agent n accounts : length (transfers agent n accounts) = length accounts.
Proof. revert n. induction accounts as [|a accounts IH]; intros n; [done|]. cbn. by rewrite IH. Qed.

Lemma fee_bound agent n accounts total : Forall account_ok accounts → 0 ≤ gas_price_wei agent →
  gas_limit_const_part agent = web3_gas_limit_const_part (agent_chain agent) → maximum_added_gas_margin agent = WEB3_MAXIMAL_GAS_LIMIT_MARGIN →
  estimated_transaction_fee_total agent (length accounts) = Ret total → fee_of (transfers agent n accounts) ≤ total.
Proof.
  intros Hok Hp Hc Hm Heq.
  assert (total = Z.of_nat (length accounts) * gas_price_wei agent * (WEB3_MAXIMAL_GAS_LIMIT_MARGIN + web3_gas_limit_const_part (agent_chain agent))) as ->.
  { unfold estimated_transaction_fee_total, checked_u in Heq. rewrite Hm, Hc in Heq.
    destruct (fits_u 128 (WEB3_MAXIMAL_GAS_LIMIT_MARGIN + _)); [cbn [mbind run_bind] in Heq|done].
    destruct (fits_u 128 (Z.of_nat (length accounts) * _)); [cbn [mbind run_bind] in Heq|done]. destruct (fits_u _ _); [by injection Heq|done]. }
  clear Heq. revert n. induction Hok as [|a accounts [_ Hb] _ IH]; intros n; [cbn; lia|]. cbn [transfers fee_of foldr parameters p_gas p_gas_price default].
  specialize (IH (n + 1)). unfold fee_of in IH. pose proof (gas_limit_bound (pa_balance_wei a) (pa_wallet a) (agent_chain agent) Hb) as Hg.
  apply (Z.mul_le_mono_nonneg_r _ _ _ Hp) in Hg. cbn [length]. rewrite Nat2Z.inj_succ.
  etransitivity; [exact (Z.add_le_mono _ _ _ _ Hg IH)|]. apply Z.eq_le_incl. ring.
Qed.

(** Different keys can be given any values. *)
Lemma assign_values (ks vs : list Z) : NoDup ks → length ks = length vs → ∃ f : Z → Z, f <$> ks = vs.
Proof.
  revert vs. induction ks as [|k ks IH]; intros [|v vs] Hnd Hlen; try done; [by exists id|]. apply NoDup_cons in Hnd as [Hni Hnd].
  destruct (IH vs Hnd) as [f Hf]; [by injection Hlen|]. exists (λ x, if decide (x = k) then v else f x). cbn. rewrite decide_True by done. f_equal.
  rewrite <- Hf. apply list_fmap_ext. intros i x Hx. rewrite decide_False; [done|]. intros ->. apply Hni. by apply list_elem_of_lookup_2 in Hx.
Qed.

Section paying.
Context {Value : Type} (receipt_from_value : Value → result string TransactionReceipt).
Context (max_block_count_captures : string → option (option string)).
Context (secret_of : Z → option Z) (sign : TransactionParameters → Z → option SignedTransaction).
Context (key : Z) (signed : TransactionParameters → SignedTransaction).
(** The key signs transactions, and those with different nonces have different hashes. *)
Context (Hsign : ∀ p, sign p key = Some (signed p)).
Context (Hhash : ∀ p q, transaction_hash (signed p) = transaction_hash (signed q) → p_nonce p = p_nonce q).

Lemma sign_all agent n accounts : secret_of (consuming_wallet agent) = Some key → 0 ≤ n → n + Z.of_nat (length accounts) < 2 ^ 256 →
  sign_and_append_multiple_payments secret_of sign (agent_chain agent) (consuming_wallet agent) (gas_price_wei agent) n accounts =
    Ret (raw_transaction ∘ signed <$> transfers agent n accounts,
         zip_with (λ t a, MkHashAndAmount (transaction_hash (signed t)) (pa_balance_wei a)) (transfers agent n accounts) accounts).
Proof using Hsign.
  intros Hkey. revert n. induction accounts as [|a accounts IH]; intros n H0 Hn; [done|].
  cbn [sign_and_append_multiple_payments transfers zip_with length] in *. unfold sign_and_append_payment, sign_transaction, sign_transaction_locally.
  rewrite Hkey. cbn [expect mbind run_bind parameters p_nonce p_chain_id p_gas_price]. rewrite Hsign. cbn [expect mbind run_bind].
  unfold advance_used_nonce. rewrite checked_u_ok by lia. cbn [mbind run_bind]. rewrite IH by lia. done.
Qed.

Lemma hashes_distinct agent n accounts : NoDup (transaction_hash ∘ signed <$> transfers agent n accounts).
Proof using Hhash.
  apply NoDup_alt. intros i j h. rewrite !list_lookup_fmap, !transfers_lookup. intros Hi Hj.
  destruct (accounts !! i) as [a|]; [|done]. destruct (accounts !! j) as [b|]; [|done]. cbn [fmap option_fmap option_map] in Hi, Hj.
  assert (Heq := Hi). rewrite <- Hj in Heq. injection Heq as Heq. apply Hhash in Heq. cbn in Heq. injection Heq. lia.
Qed.

Lemma merged_zip (responses : list (result string Value)) (txs : list TransactionParameters) (hash : PayableAccount → Z) (accounts : list PayableAccount) :
  hash <$> accounts = transaction_hash ∘ signed <$> txs →
  merged_output_data responses (zip_with (λ t a, MkHashAndAmount (transaction_hash (signed t)) (pa_balance_wei a)) txs accounts) accounts =
    zip_with (λ r a, match r with Ok _ => Correct (MkPendingPayable (pa_wallet a) (hash a)) | Err _ => Failed (pa_wallet a) (hash a) end) responses accounts.
Proof using Type.
  revert txs accounts. induction responses as [|r responses IH]; intros [|t txs] [|a accounts] Heq; try done. cbn in Heq. injection Heq as Hh Heq.
  cbn [merged_output_data zip_with ha_hash]. rewrite IH by done. by rewrite Hh.
Qed.

Lemma announced_zip (txs : list TransactionParameters) (hash : PayableAccount → Z) (accounts : list PayableAccount) :
  hash <$> accounts = transaction_hash ∘ signed <$> txs →
  zip_with (λ t a, MkHashAndAmount (transaction_hash (signed t)) (pa_balance_wei a)) txs accounts = PaymentCycle.announced hash <$> accounts.
Proof using Type.
  revert accounts. induction txs as [|t txs IH]; intros [|a accounts] Heq; try done. cbn in Heq. injection Heq as Hh Heq.
  cbn [zip_with fmap list_fmap]. rewrite IH by done. unfold PaymentCycle.announced. by rewrite Hh.
Qed.

Lemma all_accepted (responses : list (result string Value)) (hash : PayableAccount → Z) (accounts : list PayableAccount) :
  length responses = length accounts → Forall (λ r, ∃ v, r = Ok v) responses →
  zip_with (λ r a, match r with Ok _ => Correct (MkPendingPayable (pa_wallet a) (hash a)) | Err _ => Failed (pa_wallet a) (hash a) end) responses accounts =
    (λ a, Correct (MkPendingPayable (pa_wallet a) (hash a))) <$> accounts.
Proof using Type.
  intros Hlen Hall. revert accounts Hlen. induction Hall as [|r rs [v ->] _ IH]; intros [|a l] Hlen; try done. cbn. f_equal. apply IH. by injection Hlen.
Qed.

(** What the bridge does with instructions, for hashes that are those of the transactions. *)
Lemma instructions_followed self server config now msg agent n hash : b_bound self = true →
  secret_of (consuming_wallet agent) = Some key → get_transaction_id server (consuming_wallet agent) = Ok n →
  0 ≤ n → n + Z.of_nat (length (affordable_accounts msg)) < 2 ^ 256 →
  hash <$> affordable_accounts msg = transaction_hash ∘ signed <$> transfers agent n (affordable_accounts msg) →
  bridge_handle receipt_from_value max_block_count_captures secret_of sign self server config now (PaymentInstructions msg agent) =
    Ret (self, None, ToAccountant (SeedsMsg (PaymentCycle.bridge_seeds hash now (affordable_accounts msg))) ::
      BatchSubmitted (raw_transaction ∘ signed <$> transfers agent n (affordable_accounts msg)) ::
      match submit_batch server (raw_transaction ∘ signed <$> transfers agent n (affordable_accounts msg)) with
      | Ok responses =>
          [ToAccountant (SentPayablesMsg (MkSentPayables
             (Ok (zip_with (λ r a, match r with Ok _ => Correct (MkPendingPayable (pa_wallet a) (hash a)) | Err _ => Failed (pa_wallet a) (hash a) end)
                    responses (affordable_accounts msg))) (oi_response_skeleton_opt msg)))]
      | Err _ =>
          [ToAccountant (SentPayablesMsg (MkSentPayables (Err (Sending (hash <$> affordable_accounts msg))) (oi_response_skeleton_opt msg)));
           ToAccountant (ScanErrorMsg (MkScanError Payables (oi_response_skeleton_opt msg)))]
      end).
Proof using Hsign.
  intros Hb Hkey Hid H0 Hn Hh. cbn [bridge_handle]. unfold panic_if. rewrite Hb. cbn [negb].
  unfold handle_outbound_payments_instructions, submit_payables_in_batch, send_payables_within_batch. rewrite Hid, sign_all by done. cbn [mbind run_bind].
  unfold PaymentCycle.bridge_seeds. rewrite <- (announced_zip _ _ _ Hh).
  destruct (submit_batch _ _) as [responses|e]; cbn [fmap list_fmap app handle_scan_future].
  - by rewrite (merged_zip _ _ _ _ Hh).
  - unfold error_with_hashes. rewrite (announced_zip _ _ _ Hh), <- list_fmap_compose. done.
Qed.

(** C5: the bridge pays what the accountant tells it to.  Take a bridge that is
    bound, an agent built for a chain and a wallet whose key can be had, and
    instructions to pay accounts with different wallets.  First the hashes of the
    transactions are announced to the accountant, then one batch with these
    transactions is given to the server, and then the outcome is reported; nothing
    else leaves the bridge.  The transactions are calls of the token's contract on
    the agent's chain that transfer to each account exactly its balance, numbered
    from the nonce that the server gave, with hashes that differ; the agent has
    estimated at least what they can cost.  In the report every account appears under
    the hash of its own transaction, as sent or failed as the server answered for it;
    when the batch as a whole fails all hashes are reported, and the scan as failed.
    When the server accepts every transaction the messages to the accountant are
    the conversation [bridge_seeds], [bridge_sent] of the cycle of payments. *)
Theorem debts_paid_through_bridge self (server server0 : Server (Value := Value)) config now chain wallet agent msg n :
  b_bound self = true → build_blockchain_agent server0 chain wallet = Ret (Some agent) → secret_of wallet = Some key →
  get_transaction_id server wallet = Ok n → 0 ≤ n → n + Z.of_nat (length (affordable_accounts msg)) < 2 ^ 256 →
  NoDup (pa_wallet <$> affordable_accounts msg) → Forall account_ok (affordable_accounts msg) →
  let accounts := affordable_accounts msg in
  let txs := transfers agent n accounts in
  let skeleton := oi_response_skeleton_opt msg in
  ∃ hash : PayableAccount → Z,
    hash <$> accounts = transaction_hash ∘ signed <$> txs ∧ NoDup (hash <$> accounts) ∧
    (∀ i a, accounts !! i = Some a → ∃ t, txs !! i = Some t ∧ p_nonce t = Some (n + Z.of_nat i) ∧ p_value t = 0 ∧
       p_to t = Some (contract (rec chain)) ∧ p_chain_id t = Some (num_chain_id (rec chain)) ∧
       read_transfer (p_data t) = Some (pa_wallet a, pa_balance_wei a)) ∧
    (∀ total, estimated_transaction_fee_total agent (length accounts) = Ret total → fee_of txs ≤ total) ∧
    ∃ sent, bridge_handle receipt_from_value max_block_count_captures secret_of sign self server config now (PaymentInstructions msg agent) =
        Ret (self, None, ToAccountant (SeedsMsg (PaymentCycle.bridge_seeds hash now accounts)) ::
                         BatchSubmitted (raw_transaction ∘ signed <$> txs) :: sent) ∧
      match submit_batch server (raw_transaction ∘ signed <$> txs) with
      | Err _ => sent = [ToAccountant (SentPayablesMsg (MkSentPayables (Err (Sending (hash <$> accounts))) skeleton));
                         ToAccountant (ScanErrorMsg (MkScanError Payables skeleton))]
      | Ok responses => ∃ reports, sent = [ToAccountant (SentPayablesMsg (MkSentPayables (Ok reports) skeleton))] ∧
          (∀ i r a, responses !! i = Some r → accounts !! i = Some a → reports !! i =
             Some match r with Ok _ => Correct (MkPendingPayable (pa_wallet a) (hash a)) | Err _ => Failed (pa_wallet a) (hash a) end) ∧
          (length responses = length accounts → Forall (λ r, ∃ v, r = Ok v) responses → skeleton = None →
             MkSentPayables (Ok reports) skeleton = PaymentCycle.bridge_sent hash accounts)
      end.
Proof using Hsign Hhash.
  intros Hb Hagent Hkey Hid H0 Hn Hnd Hok accounts txs skeleton. destruct (built_agent _ _ _ _ Hagent) as (Hchain & Hw & Hprice & Hconst & Hmargin).
  rewrite <- Hw in Hkey, Hid.
  destruct (assign_values (pa_wallet <$> accounts) (transaction_hash ∘ signed <$> txs)) as [f Hf]; [done|unfold txs; rewrite !length_fmap, length_transfers; done|].
  rewrite <- list_fmap_compose in Hf. exists (f ∘ pa_wallet). split; [done|]. split; [rewrite Hf; apply hashes_distinct|]. split; [|split].
  - intros i a Ha. unfold txs. rewrite transfers_lookup, Ha, Hchain. eexists. split; [done|]. do 4 (split; [done|]).
    apply read_transfer_data; eapply Forall_lookup_1 in Hok as [? ?]; done.
  - intros total Htotal. apply fee_bound; [done..|by rewrite Hchain|done|done].
  - eexists. split; [exact (instructions_followed self server config now msg agent n (f ∘ pa_wallet) Hb Hkey Hid H0 Hn Hf)|]. fold accounts txs skeleton.
    destruct (submit_batch _ _) as [responses|e]; [|done]. eexists. split; [done|]. split.
    + intros i r a Hr Ha. apply lookup_zip_with_Some. exists r, a. done.
    + intros Hlen Hall ->. unfold PaymentCycle.bridge_sent. by rewrite all_accepted.
Qed.
End paying.

(** ** Witnesses and behaviours on the side *)

Module Demo.
(** One payment of 7, in block 12. *)
Definition demo_log : Log := MkLog (Some 12) [0; 5; 6] (be_digits 8 32 7).
Definition demo_logs (n : Z) : list Log := if n =? 12 then [demo_log] else [].
Definition no_captures (_ : string) : option (option string) := None.

Definition demo_scan := scan (Value := unit) no_captures demo_logs Dev 0 5.

(** The server tells its latest block; the query fails; the server does not tell
    its latest block and two blocks more are asked for. *)
Definition scan1 := MkScan (Ok 14) 14 None None.
Definition scan2 := MkScan (Ok 17) 17 (Some 5) (Some InvalidResponse).
Definition scan3 := MkScan (Err InvalidResponse) 20 (Some 2) None.

Lemma demo_blocks n : block_ok demo_logs n.
Proof.
  intros log. unfold demo_logs. destruct (Z.eqb_spec n 12) as [->|]; [|by intros ?%not_elem_of_nil].
  intros ->%list_elem_of_singleton. split; [done|]. split; [cbn; lia|].
  split; [exact (eq_ind_r (λ k, (k ≤ 32)%nat) (le_n 32) (length_be_digits 8 32 7))|]. vm_compute. split; congruence.
Qed.

Definition demo_payment := MkBlockchainTransaction 12 5 7.

Lemma demo_scanned : scanned (Value := unit) no_captures demo_logs Dev 0 5 10 18 [demo_payment].
Proof.
  apply (scanned_more _ _ _ _ _ _ 15 [demo_payment] scan3 18 []); [|split; [done|split; [split; done|done]]|vm_compute; reflexivity].
  apply (scanned_more _ _ _ _ _ _ 15 [demo_payment] scan2 15 []); [|split; [done|split; [split; done|split; done]]|vm_compute; reflexivity].
  apply (scanned_more _ _ _ _ _ _ 10 [] scan1 15 [demo_payment]); [constructor|split; [done|split; [done|split; done]]|vm_compute; reflexivity].
Qed.

Lemma payments_counted_once_witness :
  10 ≤ 18 ∧ [demo_payment] = payments demo_logs 10 17 ∧
  ∀ sc, sound 18 sc → ∃ start' txs', demo_scan sc 18 = Ret (start', txs') ∧ 18 ≤ start'.
Proof.
  exact (payments_counted_once (Value := unit) no_captures demo_logs Dev 0 5 10 18 [demo_payment] (ltac:(lia)) (λ n _, demo_blocks n) demo_scanned).
Defined.

(** A server that is behind: when its latest block is 11 after blocks up to 14 were
    scanned, the start block goes back to 12, and the payment is counted again. *)
Example lagging_server_counts_twice :
  demo_scan scan1 10 = Ret (15, [demo_payment]) ∧
  demo_scan (MkScan (Ok 11) 14 None None) 15 = Ret (12, []) ∧
  demo_scan scan1 12 = Ret (15, [demo_payment]).
Proof. split; [|split]; vm_compute; reflexivity. Qed.

(** A server that does not tell its latest block: the start block moves on by the
    limit although the blocks are not there yet, and the payment in block 12 is
    never counted. *)
Example failed_block_number_skips_blocks :
  demo_scan (MkScan (Err InvalidResponse) 10 (Some 5) None) 10 = Ret (16, []) ∧
  demo_scan (MkScan (Ok 20) 20 (Some 5) None) 16 = Ret (21, []) ∧
  demo_scan (MkScan (Err InvalidResponse) 11 None None) 12 = Ret (13, []).
Proof. split; [|split]; vm_compute; reflexivity. Qed.

(** A server that answers for at most five blocks, and says so. *)
Definition five_blocks : Server (Value := unit) :=
  MkServer (Err InvalidResponse) (λ _, Err InvalidResponse) (λ _, Err InvalidResponse) (λ _, Err InvalidResponse) (Ok 1000)
    (λ filter, match f_from filter, f_to filter with
               | Number a, Number b => if b - a + 1 <=? 5 then Ok [] else Err (QueryFailed "block range is limited to 5")
               | _, _ => Ok []
               end) (λ _, Err InvalidResponse) (λ _, Err EmptyString).

(** The limit of five blocks that is learnt from an error still asks for six: every
    scan fails and stores the same limit. *)
Example limit_exceeded_by_one :
  let captures msg := if String.eqb msg "block range is limited to 5" then Some (Some "5"%string) else None in
  let scan_with limit := handle_retrieve_transactions captures (MkBridge true Dev) five_blocks
                           (MkConfig (Ok (Some 10)) (Ok limit) (Ok ())) 0 (MkRetrieveTransactions 5 None) in
  let failed := (Some 5, [ToAccountant (ScanErrorMsg (MkScanError Receivables None))]) in
  scan_with None = Ret failed ∧ scan_with (Some 5) = Ret failed.
Proof. split; vm_compute; reflexivity. Qed.

(** A signer whose hashes are made of the nonces. *)
Definition demo_signed (p : TransactionParameters) : SignedTransaction :=
  MkSigned (p_data p) match p_nonce p with Some n => 2 * n | None => 1 end.
Definition demo_sign (p : TransactionParameters) (_ : Z) : option SignedTransaction := Some (demo_signed p).

Lemma demo_hashes p q : transaction_hash (demo_signed p) = transaction_hash (demo_signed q) → p_nonce p = p_nonce q.
Proof. unfold demo_signed. cbn. destruct (p_nonce p), (p_nonce q); intros H; try done; [f_equal; lia|lia..]. Qed.

Definition demo_accounts : list PayableAccount := [MkPayableAccount 77 1000 0 None; MkPayableAccount 88 2000 0 None].
Definition demo_receipt (_ : unit) : result string TransactionReceipt := Ok (MkTransactionReceipt (Some 1) (Some 1) (Some 1)).

(** A server that accepts the first transaction of a batch and refuses the others. *)
Definition demo_server : Server (Value := unit) :=
  MkServer (Ok 30) (λ _, Ok 1000000) (λ _, Ok 5000) (λ _, Ok 4) (Ok 10) (λ _, Ok [])
    (λ _, Ok []) (λ batch, Ok match batch with [] => [] | _ :: b => Ok () :: (const (Err EmptyString) <$> b) end).

Definition demo_agent : BlockchainAgentWeb3 := agent_new 30 70000 9 1000000 5000 BaseSepolia.
Definition demo_instructions : OutboundPaymentsInstructions := MkInstructions demo_accounts None.
Definition demo_config : Config := MkConfig (Ok None) (Ok None) (Ok ()).
Definition demo_txs := transfers demo_agent 4 demo_accounts.

Lemma debts_paid_through_bridge_witness :
  ∃ hash : PayableAccount → Z,
    hash <$> demo_accounts = [8; 10] ∧
    (∀ total, estimated_transaction_fee_total demo_agent 2 = Ret total → fee_of demo_txs ≤ total) ∧
    ∃ sent, bridge_handle demo_receipt no_captures (λ _, Some 1) demo_sign (MkBridge true BaseSepolia) demo_server demo_config 0
        (PaymentInstructions demo_instructions demo_agent) =
      Ret (MkBridge true BaseSepolia, None, ToAccountant (SeedsMsg (PaymentCycle.bridge_seeds hash 0 demo_accounts)) ::
        BatchSubmitted (raw_transaction ∘ demo_signed <$> demo_txs) :: sent).
Proof.
  destruct (debts_paid_through_bridge demo_receipt no_captures (λ _, Some 1) demo_sign 1 demo_signed (λ _, eq_refl) demo_hashes
    (MkBridge true BaseSepolia) demo_server demo_server demo_config 0 BaseSepolia 9 demo_agent demo_instructions 4)
    as (hash & Hh & _ & _ & Hfee & sent & Heq & _).
  - reflexivity.
  - reflexivity.
  - reflexivity.
  - reflexivity.
  - lia.
  - cbn. lia.
  - by repeat (constructor; [set_solver|]); constructor.
  - repeat (constructor; [split; split; cbn; lia|]). constructor.
  - exists hash. split; [exact Hh|]. split; [exact Hfee|]. exists sent. exact Heq.
Defined.
End Demo.

End BlockchainBridge.
