(* ===== verification/Transactors.v ===== *)
(** * The protocols that open ports at a router

    Models the communication layer of the automap crate: [comm_layer/mod.rs],
    [comm_layer/pcp_pmp_common] (for Linux), [comm_layer/pcp.rs], [comm_layer/pmp.rs]
    and [comm_layer/igdp.rs], over the packets of [PortMapping.v].

    The machine that the code runs on is a type [W] with a [Network]: the clock,
    the answers to datagrams, what the operating system and the [igd] library say.
    A [Machine] adds the housekeeping threads, each with the commands that wait in its
    channel, and what the three transactors remember.  One turn of a thread's loop is
    one step ([pcp_iteration], [pmp_iteration], [igdp_iteration]); joining a thread
    runs it to its end.  Times and durations are nanoseconds; texts of errors are left
    out.  A thread that panics is [Crashed]; locks that it would poison are left out. *)
From Stdlib Require Import String Ascii.
From S2P Require Import Prelude.
From S2P Require Import CountryBlockStream IpCountryCsv PortMapping Thresholds ConfigParams.
From stdpp Require Import base list strings.

Module Transactors.
Import Stream Wire Time ConfigParams.
Local Open Scope Z_scope.
Local Open Scope rust_scope.

(** ** Data *)

Global Instance AutomapProtocol_eq_dec : EqDecision AutomapProtocol.
Proof. solve_decision. Defined.

Definition from_secs (s : Z) : Z := s * NANOS.
Definition from_millis (ms : Z) : Z := ms * 1000000.
Definition as_millis (d : Z) : Z := d / 1000000.

Record MappingConfig := MkConfig {
  hole_port : Z;
  next_lifetime : Z;
  remap_interval : Z
}.

Definition next_lifetime_secs (c : MappingConfig) : Z := as_secs (next_lifetime c) mod 2 ^ 32.

Inductive AutomapErrorCause :=
| UserError | NetworkConfiguration | ProtocolNotImplemented | ProtocolFailed | ProbeServerIssue | ProbeFailed
| SocketFailure | RouterFailure | UnknownCause.

Inductive AutomapError :=
| Unknown
| NoLocalIpAddress
| CantFindDefaultGateway
| IPv6Unsupported (ip : Z)
| FindRouterError
| GetPublicIpError
| SocketBindingError
| SocketSendError (c : AutomapErrorCause)
| SocketReceiveError (c : AutomapErrorCause)
| PacketParseError (e : ParseError)
| ProtocolError
| PermanentLeasesOnly
| TemporaryMappingError
| PermanentMappingError
| ProbeServerConnectError
| ProbeRequestError (c : AutomapErrorCause)
| ProbeReceiveError
| DeleteMappingError
| TransactionFailure
| AllProtocolsFailed (errors : list (AutomapProtocol * AutomapError))
| HousekeeperAlreadyRunning
| HousekeeperCrashed.

Definition cause (e : AutomapError) : AutomapErrorCause :=
  match e with
  | NoLocalIpAddress | IPv6Unsupported _ | FindRouterError | AllProtocolsFailed _ => NetworkConfiguration
  | CantFindDefaultGateway | GetPublicIpError | PacketParseError _ | ProtocolError => ProtocolNotImplemented
  | SocketBindingError => UserError
  | SocketSendError c | SocketReceiveError c | ProbeRequestError c => c
  | PermanentMappingError | DeleteMappingError | TransactionFailure => ProtocolFailed
  | TemporaryMappingError => RouterFailure
  | ProbeServerConnectError => ProbeServerIssue
  | ProbeReceiveError => ProbeFailed
  | Unknown | PermanentLeasesOnly | HousekeeperAlreadyRunning | HousekeeperCrashed => UnknownCause
  end.

Inductive AutomapChange := NewIp (ip : IpAddr) | ChangeError (e : AutomapError).

Inductive HousekeepingThreadCommand :=
| Stop
| SetRemapIntervalMs (ms : Z)
| InitializeMappingConfig (c : MappingConfig).

(** ** The machine around the code *)

(** How one exchange of datagrams over a new socket ends. *)
Inductive Exchange := BindFailed | SendFailed | TimedOut | ReceiveFailed | Datagram (bytes : list Z).

(** How the gateway of the [igd] library answers [add_port]. *)
Inductive AddPort := PortAdded | PermanentOnly | AddPortFailed.

Class Network (W : Type) := {
  now : W → Z;
  sleep : Z → W → W;
  ip_route : W → option string;
  local_ip : W → option IpAddr;
  mapping_nonce : W → list Z;
  udp : IpAddr → list Z → W → Exchange * W;
  search_gateway : W → option Z;
  get_external_ip : W → option Z * W;
  add_port : Z → Z → Z → W → AddPort * W;
  remove_port : Z → W → bool * W
}.

(** Computations that change a state and can panic. *)
Definition St (S A : Type) : Type := S → run (A * S).
Global Instance St_ret {S} : MRet (St S) := λ A a s, Ret (a, s).
Global Instance St_bind {S} : MBind (St S) := λ A B f m s, match m s with Ret (a, s) => f a s | Panic => Panic end.
Definition panic {S A} : St S A := λ _, Panic.
Definition eval {S A} (f : S → A) : St S A := λ s, Ret (f s, s).
Definition change {S A} (f : S → A * S) : St S A := λ s, Ret (f s).
Definition lift {S A} (m : run A) : St S A := λ s, match m with Ret a => Ret (a, s) | Panic => Panic end.
Definition set {S} (f : S → S) : St S unit := λ s, Ret (tt, f s).
(** The question mark. *)
Definition or_fail {S A B E} (m : St S (result E A)) (k : A → St S (result E B)) : St S (result E B) :=
  r ← m; match r with Ok a => k a | Err e => mret (Err e) end.

(** ** Routers of a Linux machine *)

Fixpoint split_lines (cs : list ascii) : list (list ascii) :=
  match cs with
  | [] => [[]]
  | c :: cs =>
      if bool_decide (c = "010"%char) then [] :: split_lines cs
      else match split_lines cs with [] => [[c]] | l :: ls => (c :: l) :: ls end
  end.

Definition is_whitespace (c : ascii) : bool := let n := nat_of_ascii c in (n =? 32)%nat || ((9 <=? n)%nat && (n <=? 13)%nat).
Definition is_numeric (c : ascii) : bool := let n := nat_of_ascii c in (48 <=? n)%nat && (n <=? 57)%nat.

Fixpoint skip_while (f : ascii → bool) (cs : list ascii) : list ascii :=
  match cs with [] => [] | c :: cs' => if f c then skip_while f cs' else cs end.
Fixpoint keep_while (f : ascii → bool) (cs : list ascii) : list ascii :=
  match cs with [] => [] | c :: cs' => if f c then c :: keep_while f cs' else [] end.

Definition is_default_line (line : list ascii) : bool :=
  String.prefix "default " (string_of_list_ascii (skip_while is_whitespace line)).

Definition router_of_line (line : list ascii) : option IpAddr :=
  NetParser.from_str (string_of_list_ascii (keep_while (λ c, negb (is_whitespace c)) (skip_while (λ c, negb (is_numeric c)) line))).

Fixpoint routers_of_lines (lines : list (list ascii)) : result AutomapError (list IpAddr) :=
  match lines with
  | [] => Ok []
  | line :: lines =>
      if is_default_line line then
        match router_of_line line with
        | None => Err FindRouterError
        | Some ip => match routers_of_lines lines with Ok ips => Ok (ip :: ips) | Err e => Err e end
        end
      else Ok []
  end.

Definition linux_find_routers (output : option string) : result AutomapError (list IpAddr) :=
  match output with None => Err ProtocolError | Some stdout => routers_of_lines (split_lines (list_ascii_of_string stdout)) end.

Section network.
Context {W : Type} `{!Network W}.

(** ** PCP *)

Definition buffer : list Z := replicate 1100 0.

Definition pcp_request (c : MappingConfig) (ip : IpAddr) (nonce : list Z) : Pcp.PcpPacket :=
  Pcp.MkPcp Request Pcp.Map None (next_lifetime_secs c) (Some ip) None
    (Pcp.MapData (Pcp.MkMap nonce Pcp.Tcp (hole_port c) (hole_port c) (IpV4 0))).

Definition compute_mapping_result (response : Pcp.PcpPacket) : run (result AutomapError (Z * Pcp.MapOpcodeData)) :=
  match Pcp.result_code_opt response with
  | None => Panic
  | Some Pcp.Success =>
      match Pcp.opcode_data response with
      | Pcp.MapData d => Ret (Ok (Pcp.lifetime response, d))
      | Pcp.UnrecognizedData => Panic
      end
  | Some rc => Ret (Err (if Pcp.is_permanent rc then PermanentMappingError else TemporaryMappingError))
  end.

(** What the answer to a request is worth; the configuration is updated when the router agrees. *)
Definition pcp_answer (x : Exchange) (c : MappingConfig) : run (result AutomapError (Z * Pcp.MapOpcodeData) * MappingConfig) :=
  match x with
  | BindFailed => Ret (Err SocketBindingError, c)
  | SendFailed => Ret (Err (SocketSendError UnknownCause), c)
  | TimedOut => Ret (Err ProtocolError, c)
  | ReceiveFailed => Ret (Err (SocketReceiveError UnknownCause), c)
  | Datagram bytes =>
      parsed ← Pcp.try_from (take 1100 bytes);
      match parsed with
      | Err e => Ret (Err (PacketParseError e), c)
      | Ok response =>
          match Pcp.direction response, Pcp.opcode response with
          | Request, _ => Ret (Err ProtocolError, c)
          | Response, Pcp.Map =>
              mapped ← compute_mapping_result response;
              match mapped with
              | Err e => Ret (Err e, c)
              | Ok (approved_lifetime, d) =>
                  Ret (Ok (approved_lifetime, d), MkConfig (hole_port c) (from_secs approved_lifetime) (from_secs (approved_lifetime / 2)))
              end
          | Response, _ => Ret (Err ProtocolError, c)
          end
      end
  end.

Definition expect_marshalled (m : run (result MarshalError (list Z * nat))) : run (list Z) :=
  r ← m; match r with Ok (buf, len) => Ret (take len buf) | Err _ => Panic end.

Definition pcp_transact (router : IpAddr) (c : MappingConfig) : St W (result AutomapError (Z * Pcp.MapOpcodeData) * MappingConfig) :=
  ip ← eval local_ip;
  nonce ← eval mapping_nonce;
  match ip with
  | None => mret (Err NoLocalIpAddress, c)
  | Some ip =>
      request ← lift (expect_marshalled (Pcp.marshal (pcp_request c ip nonce) buffer));
      x ← change (udp router request);
      lift (pcp_answer x c)
  end.

(** ** PMP *)

Definition pmp_transact (router : IpAddr) (request : Pmp.PmpPacket) : St W (result AutomapError Pmp.PmpPacket) :=
  bytes ← lift (expect_marshalled (Pmp.marshal request buffer));
  x ← change (udp router bytes);
  match x with
  | BindFailed => mret (Err SocketBindingError)
  | SendFailed => mret (Err (SocketSendError UnknownCause))
  | TimedOut => mret (Err ProtocolError)
  | ReceiveFailed => mret (Err (SocketReceiveError UnknownCause))
  | Datagram bytes =>
      parsed ← lift (Pmp.try_from (take 1100 bytes));
      mret match parsed with Ok response => Ok response | Err e => Err (PacketParseError e) end
  end.

Definition pmp_get_request : Pmp.PmpPacket := Pmp.MkPmp Request Pmp.Get None (Pmp.GetData (Pmp.MkGet None None)).

Definition pmp_get_public_ip (router : IpAddr) : St W (result AutomapError IpAddr) :=
  or_fail (pmp_transact router pmp_get_request) (λ response,
    match Pmp.result_code_opt response with
    | None => panic
    | Some Pmp.Success =>
        match Pmp.opcode_data response with
        | Pmp.GetData (Pmp.MkGet _ (Some ip)) => mret (Ok (IpV4 ip))
        | _ => panic
        end
    | Some _ => mret (Err TransactionFailure)
    end).

Definition pmp_request (c : MappingConfig) : Pmp.PmpPacket :=
  Pmp.MkPmp Request Pmp.MapTcp None (Pmp.MapData (Pmp.MkMap None (hole_port c) (hole_port c) (next_lifetime_secs c))).

(** [MappingAdderReal::add_mapping]. *)
Definition pmp_map (router : IpAddr) (c : MappingConfig) : St W (result AutomapError Z * MappingConfig) :=
  r ← pmp_transact router (pmp_request c);
  match r with
  | Err e => mret (Err e, c)
  | Ok response =>
      match Pmp.direction response, Pmp.opcode response with
      | Request, _ => mret (Err ProtocolError, c)
      | Response, Pmp.MapTcp =>
          match Pmp.opcode_data response, Pmp.result_code_opt response with
          | Pmp.MapData d, Some Pmp.Success =>
              mret (Ok (Pmp.lifetime d / 2), MkConfig (hole_port c) (from_secs (Pmp.lifetime d)) (from_secs (Pmp.lifetime d / 2)))
          | Pmp.MapData _, Some rc => mret (Err (if Pmp.is_permanent rc then PermanentMappingError else TemporaryMappingError), c)
          | _, _ => panic
          end
      | Response, _ => mret (Err ProtocolError, c)
      end
  end.

(** ** IGDP *)

(** [MappingAdderReal::add_mapping]. *)
Definition igdp_map (port lifetime : Z) : St W (result AutomapError Z) :=
  ip ← eval local_ip;
  match ip with
  | None => mret (Err NoLocalIpAddress)
  | Some (IpV6 ip) => mret (Err (IPv6Unsupported ip))
  | Some (IpV4 ip) =>
      r ← change (add_port port ip lifetime);
      mret match r with
           | PortAdded => Ok (lifetime / 2)
           | PermanentOnly => Err PermanentLeasesOnly
           | AddPortFailed => Err PermanentMappingError
           end
  end.

(** ** Turns of the housekeeping threads *)

Record Thread := MkThread {
  th_router : IpAddr;
  th_queue : list HousekeepingThreadCommand;
  th_config : option MappingConfig;
  th_last_remapped : Z;
  th_last_check : Z
}.

Definition set_queue (t : Thread) (q : list HousekeepingThreadCommand) : Thread :=
  MkThread (th_router t) q (th_config t) (th_last_remapped t) (th_last_check t).
Definition set_config (t : Thread) (c : option MappingConfig) : Thread :=
  MkThread (th_router t) (th_queue t) c (th_last_remapped t) (th_last_check t).
Definition set_last_remapped (t : Thread) (i : Z) : Thread :=
  MkThread (th_router t) (th_queue t) (th_config t) i (th_last_check t).
Definition set_last_check (t : Thread) (i : Z) : Thread :=
  MkThread (th_router t) (th_queue t) (th_config t) (th_last_remapped t) i.

Definition set_interval (c : MappingConfig) (ms : Z) : MappingConfig := MkConfig (hole_port c) (next_lifetime c) (from_millis ms).

(** A turn ends with what was told to the change handler, and with the thread unless it was stopped. *)
Definition Turn : Type := St W (list AutomapChange * option Thread).

Definition HOUSEKEEPING_THREAD_LOOP_DELAY_MILLIS : Z := 1000.

Definition pcp_remap_port (router : IpAddr) (c : MappingConfig) : St W (result AutomapError Z * MappingConfig) :=
  let secs := as_secs (next_lifetime c) mod 2 ^ 32 in
  let secs := if secs <? 1 then 1 else secs in
  '(r, c) ← pcp_transact router (MkConfig (hole_port c) (from_secs secs) (remap_interval c));
  mret (match r with Ok (l, _) => Ok l | Err e => Err e end, c).

(** After the command was looked at: sleep, and remap when it is time. *)
Definition pcp_rest_of_turn (t : Thread) : Turn :=
  _ ← set (sleep (from_millis HOUSEKEEPING_THREAD_LOOP_DELAY_MILLIS));
  time ← eval now;
  match th_config t with
  | None => mret ([], Some t)
  | Some c =>
      if remap_interval c <? time - th_last_remapped t then
        '(r, c) ← pcp_remap_port (th_router t) c;
        time ← eval now;
        mret (match r with Ok _ => [] | Err e => [ChangeError e] end, Some (set_last_remapped (set_config t (Some c)) time))
      else mret ([], Some t)
  end.

Definition pcp_iteration (t : Thread) : Turn :=
  match th_queue t with
  | Stop :: _ => mret ([], None)
  | SetRemapIntervalMs ms :: q => pcp_rest_of_turn (set_config (set_queue t q) ((λ c, set_interval c ms) <$> th_config t))
  | InitializeMappingConfig c :: q => pcp_rest_of_turn (set_config (set_queue t q) (Some c))
  | [] => pcp_rest_of_turn t
  end.

Definition pmp_remap_port (router : IpAddr) (c : MappingConfig) : St W (result AutomapError Z * MappingConfig) :=
  pmp_map router (if as_millis (next_lifetime c) <? 1000 then MkConfig (hole_port c) (from_millis 1000) (remap_interval c) else c).

Definition pmp_maybe_remap (t : Thread) : St W (list AutomapChange * Thread) :=
  match th_config t with
  | None => mret ([], t)
  | Some c =>
      time ← eval now;
      if remap_interval c <? time - th_last_remapped t then
        '(r, c) ← pmp_remap_port (th_router t) c;
        time ← eval now;
        mret (match r with Ok _ => [] | Err e => [ChangeError e] end, set_last_remapped (set_config t (Some c)) time)
      else mret ([], t)
  end.

(** The interval of a command is written into a copy of the configuration. *)
Definition pmp_iteration (t : Thread) : Turn :=
  '(changes, t) ← pmp_maybe_remap t;
  match th_queue t with
  | Stop :: _ => mret (changes, None)
  | command :: q =>
      _ ← set (sleep (from_millis HOUSEKEEPING_THREAD_LOOP_DELAY_MILLIS));
      mret (changes, Some (set_queue match command with InitializeMappingConfig c => set_config t (Some c) | _ => t end q))
  | [] => _ ← set (sleep (from_millis HOUSEKEEPING_THREAD_LOOP_DELAY_MILLIS)); mret (changes, Some t)
  end.

Definition HOUSEKEEPING_THREAD_LOOP_DELAY_MS : Z := 100.
Definition PUBLIC_IP_POLL_DELAY_SECONDS : Z := 60.

Definition igdp_remap_port (port requested_lifetime : Z) : St W (result AutomapError Z) :=
  let secs := as_secs requested_lifetime mod 2 ^ 32 in
  igdp_map port (if secs <? 1 then 1 else secs).

Definition remap_if_possible (gateway : option Z) (c : MappingConfig) : St W (list AutomapChange) :=
  if 0 <? as_secs (next_lifetime c) then
    match gateway with
    | None => panic
    | Some _ => r ← igdp_remap_port (hole_port c) (remap_interval c); mret match r with Ok _ => [] | Err e => [ChangeError e] end
    end
  else mret [].

Definition remap_if_necessary (gateway : option Z) (t : Thread) : St W (list AutomapChange * Thread) :=
  match th_config t with
  | None => mret ([], t)
  | Some c =>
      time ← eval now;
      if remap_interval c <? time - th_last_remapped t then
        changes ← remap_if_possible gateway c;
        time ← eval now;
        mret (changes, set_last_remapped t time)
      else mret ([], t)
  end.

Definition igdp_iteration (gateway : option Z) (t : Thread) : Turn :=
  _ ← set (sleep (from_millis HOUSEKEEPING_THREAD_LOOP_DELAY_MS));
  time ← eval now;
  '(changes, t) ←
    (if th_last_check t + from_secs PUBLIC_IP_POLL_DELAY_SECONDS <? time then remap_if_necessary gateway (set_last_check t time)
     else mret ([], t));
  match th_queue t with
  | InitializeMappingConfig c :: q => mret (changes, Some (set_config (set_queue t q) (Some c)))
  | SetRemapIntervalMs ms :: q =>
      match th_config t with
      | Some c => mret (changes, Some (set_config (set_queue t q) (Some (set_interval c ms))))
      | None => panic
      end
  | Stop :: _ => mret (changes, None)
  | [] => mret (changes, Some t)
  end.

(** ** The machine with its threads *)

Inductive ThreadState := Live (p : AutomapProtocol) (t : Thread) | Ended | Crashed.

(** The ends of a thread that a transactor holds: its channel and its handle. *)
Record Link := MkLink {
  housekeeper_commander_opt : option nat;
  join_handle_opt : option nat
}.

Record Machine := MkMachine {
  m_net : W;
  m_threads : list ThreadState;
  m_changes : list AutomapChange;
  m_pcp : Link;
  m_pmp : Link;
  m_igdp : Link;
  gateway_opt : option Z;
  public_ip_opt : option Z
}.

Definition set_net (m : Machine) (w : W) : Machine :=
  MkMachine w (m_threads m) (m_changes m) (m_pcp m) (m_pmp m) (m_igdp m) (gateway_opt m) (public_ip_opt m).
Definition set_threads (m : Machine) (ts : list ThreadState) : Machine :=
  MkMachine (m_net m) ts (m_changes m) (m_pcp m) (m_pmp m) (m_igdp m) (gateway_opt m) (public_ip_opt m).
Definition add_changes (m : Machine) (cs : list AutomapChange) : Machine :=
  MkMachine (m_net m) (m_threads m) (m_changes m ++ cs) (m_pcp m) (m_pmp m) (m_igdp m) (gateway_opt m) (public_ip_opt m).
Definition set_gateway (m : Machine) (g : option Z) : Machine :=
  MkMachine (m_net m) (m_threads m) (m_changes m) (m_pcp m) (m_pmp m) (m_igdp m) g (public_ip_opt m).
Definition set_public_ip (m : Machine) (ip : option Z) : Machine :=
  MkMachine (m_net m) (m_threads m) (m_changes m) (m_pcp m) (m_pmp m) (m_igdp m) (gateway_opt m) ip.

Definition link (p : AutomapProtocol) (m : Machine) : Link := match p with Pcp => m_pcp m | Pmp => m_pmp m | Igdp => m_igdp m end.
Definition set_link (p : AutomapProtocol) (l : Link) (m : Machine) : Machine :=
  MkMachine (m_net m) (m_threads m) (m_changes m) match p with Pcp => l | _ => m_pcp m end
    match p with Pmp => l | _ => m_pmp m end match p with Igdp => l | _ => m_igdp m end (gateway_opt m) (public_ip_opt m).

Definition on_net {A} (f : St W A) : St Machine A :=
  λ m, match f (m_net m) with Ret (a, w) => Ret (a, set_net m w) | Panic => Panic end.

(** Sending fails when the thread is gone. *)
Definition send (tid : nat) (command : HousekeepingThreadCommand) : St Machine bool :=
  change (λ m, match m_threads m !! tid with
               | Some (Live p t) => (true, set_threads m (<[tid := Live p (set_queue t (th_queue t ++ [command]))]> (m_threads m)))
               | _ => (false, m)
               end).

Definition turn (p : AutomapProtocol) (gateway : option Z) (t : Thread) : Turn :=
  match p with Pcp => pcp_iteration t | Pmp => pmp_iteration t | Igdp => igdp_iteration gateway t end.

(** One turn of a thread. *)
Definition tick (tid : nat) (m : Machine) : Machine :=
  match m_threads m !! tid with
  | Some (Live p t) =>
      match turn p (gateway_opt m) t (m_net m) with
      | Ret ((changes, t), w) =>
          set_threads (add_changes (set_net m w) changes) (<[tid := match t with Some t => Live p t | None => Ended end]> (m_threads m))
      | Panic => set_threads m (<[tid := Crashed]> (m_threads m))
      end
  | _ => m
  end.

(** Joining: turns until the thread ends, at most one for every command in its channel. *)
Fixpoint run_out (n : nat) (tid : nat) (m : Machine) : Machine :=
  match n with
  | O => m
  | S n => match m_threads m !! tid with Some (Live _ _) => run_out n tid (tick tid m) | _ => m end
  end.

Definition join (tid : nat) : St Machine bool := λ m,
  let n := match m_threads m !! tid with Some (Live _ t) => length (th_queue t) | _ => O end in
  let m := run_out n tid m in
  match m_threads m !! tid with
  | Some Ended => Ret (true, m)
  | Some Crashed => Ret (false, m)
  | _ => Panic
  end.

Definition start_housekeeping_thread (p : AutomapProtocol) (router : IpAddr) : St Machine (result AutomapError nat) := λ m,
  match housekeeper_commander_opt (link p m) with
  | Some _ => Ret (Err HousekeeperAlreadyRunning, m)
  | None =>
      let tid := length (m_threads m) in
      let time := now (m_net m) in
      Ret (Ok tid, set_link p (MkLink (Some tid) (Some tid)) (set_threads m (m_threads m ++ [Live p (MkThread router [] None time time)])))
  end.

(** The change handler comes back when the thread ended well.  IGDP keeps its commander. *)
Definition stop_housekeeping_thread (p : AutomapProtocol) : St Machine (result AutomapError unit) :=
  l ← eval (link p);
  match housekeeper_commander_opt l with
  | None => panic
  | Some tid =>
      let left := match p with Igdp => Some tid | _ => None end in
      _ ← set (set_link p (MkLink left (join_handle_opt l)));
      sent ← send tid Stop;
      if negb sent then mret (Err HousekeeperCrashed)
      else
        match join_handle_opt l with
        | None => panic
        | Some handle =>
            _ ← set (set_link p (MkLink left None));
            well ← join handle;
            mret (if (well : bool) then Ok () else Err HousekeeperCrashed)
        end
  end.

(** The first configuration of a mapping goes to the thread. *)
Definition initialize_mapping (p : AutomapProtocol) (c : MappingConfig) : St Machine unit :=
  l ← eval (link p);
  match housekeeper_commander_opt l with
  | None => panic
  | Some tid => sent ← send tid (InitializeMappingConfig c); if negb sent then panic else mret ()
  end.

Definition ensure_gateway : St Machine (result AutomapError unit) := λ m,
  match gateway_opt m with
  | Some _ => Ret (Ok (), m)
  | None =>
      match search_gateway (m_net m) with
      | None => Ret (Err CantFindDefaultGateway, m)
      | Some g => Ret (Ok (), set_gateway m (Some g))
      end
  end.

(** ** The transactors *)

Record Transactor (M : Type) := MkTransactor {
  protocol : AutomapProtocol;
  find_routers : St M (result AutomapError (list IpAddr));
  get_public_ip : IpAddr → St M (result AutomapError IpAddr);
  add_mapping : IpAddr → Z → Z → St M (result AutomapError Z);
  add_permanent_mapping : IpAddr → Z → St M (result AutomapError Z);
  delete_mapping : IpAddr → Z → St M (result AutomapError unit);
  start_housekeeper : IpAddr → St M (result AutomapError nat);
  stop_housekeeper : St M (result AutomapError unit)
}.

Definition system_routers : St Machine (result AutomapError (list IpAddr)) := eval (λ m, linux_find_routers (ip_route (m_net m))).

Definition pcp_get_public_ip (router : IpAddr) : St Machine (result AutomapError IpAddr) :=
  '(r, _) ← on_net (pcp_transact router (MkConfig 9 0 0));
  mret match r with Ok (_, d) => Ok (Pcp.external_ip_address d) | Err e => Err e end.

Definition pcp_add_mapping (router : IpAddr) (port lifetime : Z) : St Machine (result AutomapError Z) :=
  '(r, c) ← on_net (pcp_transact router (MkConfig port (from_secs lifetime) 0));
  match r with
  | Err e => mret (Err e)
  | Ok (approved_lifetime, _) => _ ← initialize_mapping Pcp c; mret (Ok (approved_lifetime / 2))
  end.

Definition pcp_delete_mapping (router : IpAddr) (port : Z) : St Machine (result AutomapError unit) :=
  '(r, _) ← on_net (pcp_transact router (MkConfig port 0 0));
  mret match r with Ok _ => Ok () | Err e => Err e end.

Definition PcpTransactor : Transactor Machine :=
  MkTransactor _ Pcp system_routers pcp_get_public_ip pcp_add_mapping (λ _ _, panic) pcp_delete_mapping
    (start_housekeeping_thread Pcp) (stop_housekeeping_thread Pcp).

Definition pmp_add_mapping (router : IpAddr) (port lifetime : Z) : St Machine (result AutomapError Z) :=
  '(r, c) ← on_net (pmp_map router (MkConfig port (from_secs lifetime) 0));
  match r with
  | Err e => mret (Err e)
  | Ok interval => _ ← initialize_mapping Pmp c; mret (Ok interval)
  end.

Definition pmp_delete_mapping (router : IpAddr) (port : Z) : St Machine (result AutomapError unit) :=
  or_fail (pmp_add_mapping router port 0) (λ _, mret (Ok ())).

Definition PmpTransactor : Transactor Machine :=
  MkTransactor _ Pmp system_routers (λ router, on_net (pmp_get_public_ip router)) pmp_add_mapping (λ _ _, panic) pmp_delete_mapping
    (start_housekeeping_thread Pmp) (stop_housekeeping_thread Pmp).

Definition igdp_find_routers : St Machine (result AutomapError (list IpAddr)) :=
  or_fail ensure_gateway (λ _, g ← eval gateway_opt; match g with None => panic | Some g => mret (Ok [IpV4 g]) end).

Definition igdp_get_public_ip (_ : IpAddr) : St Machine (result AutomapError IpAddr) :=
  or_fail ensure_gateway (λ _,
    r ← on_net (change get_external_ip);
    match r with
    | Some ip => _ ← set (λ m, set_public_ip m (Some ip)); mret (Ok (IpV4 ip))
    | None => mret (Err GetPublicIpError)
    end).

Definition igdp_add_mapping (_ : IpAddr) (port lifetime : Z) : St Machine (result AutomapError Z) :=
  or_fail ensure_gateway (λ _,
    or_fail (on_net (igdp_map port lifetime)) (λ interval,
      _ ← initialize_mapping Igdp (MkConfig port (from_secs lifetime) (from_secs interval)); mret (Ok interval))).

Definition igdp_add_permanent_mapping (router : IpAddr) (port : Z) : St Machine (result AutomapError Z) :=
  or_fail (igdp_add_mapping router port 0) (λ _, mret (Ok (2 ^ 32 - 1))).

Definition igdp_delete_mapping (_ : IpAddr) (port : Z) : St Machine (result AutomapError unit) :=
  or_fail ensure_gateway (λ _, removed ← on_net (change (remove_port port)); mret (if (removed : bool) then Ok () else Err DeleteMappingError)).

Definition IgdpTransactor : Transactor Machine :=
  MkTransactor _ Igdp igdp_find_routers igdp_get_public_ip igdp_add_mapping igdp_add_permanent_mapping igdp_delete_mapping
    (start_housekeeping_thread Igdp) (stop_housekeeping_thread Igdp).
End network.

Arguments protocol {M} _.
Arguments find_routers {M} _.
Arguments get_public_ip {M} _.
Arguments add_mapping {M} _.
Arguments add_permanent_mapping {M} _.
Arguments delete_mapping {M} _.
Arguments start_housekeeper {M} _.
Arguments stop_housekeeper {M} _.
End Transactors.
