(* ===== verification/AutomapControl.v ===== *)
(** * Control of the port mapping

    Models [automap/src/control_layer/automap_control.rs] over transactors that are
    only known by their interface ([Transactor] of [Transactors.v]): choosing the
    protocol that works, starting and stopping the housekeeping thread with the one
    change handler there is, adding and deleting mappings.

    [Housekept] states what the control asks of transactors; the theorems about the
    control are proved against it, and the machine of [Transactors.v] satisfies it
    for PCP, PMP and, until a first attempt with it fails, for IGDP.  Set of ports are
    finite sets, gone through in an order that is a parameter. *)
From Stdlib Require Import String.
From S2P Require Import Prelude.
From S2P Require Import CountryBlockStream PortMapping Thresholds ConfigParams Transactors.
From stdpp Require Import base list gmap strings.

Module AutomapControl.
Import Stream Wire Time ConfigParams Transactors.
Local Open Scope Z_scope.
Local Open Scope rust_scope.

Definition DEFAULT_MAPPING_LIFETIME_SECONDS : Z := 600.

Record AutomapControlRealInner := MkInner {
  router_ip : IpAddr;
  transactor_idx : nat
}.

Record AutomapControlReal := MkControl {
  change_handler_opt : option unit;
  housekeeping_thread_commander_opt : option nat;
  usual_protocol_opt : option AutomapProtocol;
  hole_ports : gset Z;
  inner_opt : option AutomapControlRealInner
}.

Definition control_new (usual : option AutomapProtocol) : AutomapControlReal := MkControl (Some ()) None usual ∅ None.

Definition set_handler (h : option unit) (c : AutomapControlReal) : AutomapControlReal :=
  MkControl h (housekeeping_thread_commander_opt c) (usual_protocol_opt c) (hole_ports c) (inner_opt c).
Definition set_commander (tid : option nat) (c : AutomapControlReal) : AutomapControlReal :=
  MkControl (change_handler_opt c) tid (usual_protocol_opt c) (hole_ports c) (inner_opt c).
Definition set_usual (p : option AutomapProtocol) (c : AutomapControlReal) : AutomapControlReal :=
  MkControl (change_handler_opt c) (housekeeping_thread_commander_opt c) p (hole_ports c) (inner_opt c).
Definition add_hole_port (port : Z) (c : AutomapControlReal) : AutomapControlReal :=
  MkControl (change_handler_opt c) (housekeeping_thread_commander_opt c) (usual_protocol_opt c) ({[port]} ∪ hole_ports c) (inner_opt c).
Definition set_inner (i : AutomapControlRealInner) (c : AutomapControlReal) : AutomapControlReal :=
  MkControl (change_handler_opt c) (housekeeping_thread_commander_opt c) (usual_protocol_opt c) (hole_ports c) (Some i).

Section control.
Context {M : Type} (transactors : list (Transactor M)) (send : nat → HousekeepingThreadCommand → St M bool).
Context (ports_of : gset Z → list Z).

Definition Auto : Type := AutomapControlReal * M.
Definition on_control (f : AutomapControlReal → AutomapControlReal) : St Auto unit := set (λ a, (f a.1, a.2)).
Definition on_machine {A} (f : St M A) : St Auto A :=
  λ a, match f a.2 with Ret (x, m) => Ret (x, (a.1, m)) | Panic => Panic end.

(** Stops the thread and takes the change handler back; a crashed thread is a [todo!]. *)
Definition put_change_handler_back (t : Transactor M) : St Auto unit :=
  r ← on_machine (stop_housekeeper t);
  match r with Ok _ => on_control (set_handler (Some ())) | Err _ => panic end.

Definition maybe_start_housekeeper (t : Transactor M) (router : IpAddr) : St Auto (result AutomapError unit) :=
  h ← eval (λ a : Auto, change_handler_opt a.1);
  match h with
  | None => mret (Ok ())
  | Some _ =>
      _ ← on_control (set_handler None);
      r ← on_machine (start_housekeeper t router);
      match r with
      | Err HousekeeperAlreadyRunning => _ ← put_change_handler_back t; mret (Ok ())
      | Err e => _ ← put_change_handler_back t; mret (Err e)
      | Ok commander => _ ← on_control (set_commander (Some commander)); mret (Ok ())
      end
  end.

Definition transactor_at (idx : nat) : St Auto (Transactor M) := λ a, match transactors !! idx with Some t => Ret (t, a) | None => Panic end.

Definition is_protocol (p : AutomapProtocol) (t : Transactor M) : bool := bool_decide (protocol t = p).

Definition find_transactor_index (p : AutomapProtocol) : St Auto nat :=
  λ a, match list_find (λ t, is_protocol p t = true) transactors with Some (idx, _) => Ret (idx, a) | None => Panic end.

Definition find_transactor (p : AutomapProtocol) : St Auto (Transactor M) :=
  λ a, match list_find (λ t, is_protocol p t = true) transactors with Some (_, t) => Ret (t, a) | None => Panic end.

Section experiments.
Context {T : Type} (experiment : Transactor M → IpAddr → St M (result AutomapError T)).

Definition prepare_and_perform_experiment (inner : AutomapControlRealInner) : St Auto (result AutomapError T) :=
  t ← transactor_at (transactor_idx inner);
  or_fail (maybe_start_housekeeper t (router_ip inner)) (λ _, on_machine (experiment t (router_ip inner))).

(** The routers one after the other until one works, with the error of the last. *)
Fixpoint try_routers (t : Transactor M) (ips : list IpAddr) (e : AutomapError) : St Auto (result AutomapError (IpAddr * T)) :=
  match ips with
  | [] => mret (Err e)
  | ip :: ips =>
      started ← maybe_start_housekeeper t ip;
      match started with
      | Err e => try_routers t ips e
      | Ok _ =>
          r ← on_machine (experiment t ip);
          match r with
          | Ok x => mret (Ok (ip, x))
          | Err e => _ ← put_change_handler_back t; try_routers t ips e
          end
      end
  end.

Definition try_protocol (t : Transactor M) : St Auto (result AutomapError (IpAddr * T)) :=
  or_fail (on_machine (find_routers t)) (λ ips,
    match ips with [] => mret (Err FindRouterError) | _ => try_routers t ips Unknown end).

(** The transactors but the usual one, in their order. *)
Fixpoint try_others (usual : option AutomapProtocol) (ts : list (Transactor M)) (errors : list (AutomapProtocol * AutomapError))
    : St Auto (result (list (AutomapProtocol * AutomapError)) (AutomapProtocol * (IpAddr * T))) :=
  match ts with
  | [] => mret (Err errors)
  | t :: ts =>
      if bool_decide (usual = Some (protocol t)) then try_others usual ts errors
      else
        r ← try_protocol t;
        match r with
        | Ok x => mret (Ok (protocol t, x))
        | Err e => try_others usual ts (errors ++ [(protocol t, e)])
        end
  end.

(** A protocol that worked is remembered with its router. *)
Definition remember (p : AutomapProtocol) (x : IpAddr * T) : St Auto (result AutomapError T) :=
  idx ← find_transactor_index p;
  _ ← on_control (set_inner (MkInner x.1 idx));
  mret (Ok x.2).

Definition try_all_others (usual : option AutomapProtocol) : St Auto (result AutomapError T) :=
  r ← try_others usual transactors [];
  match r with
  | Ok (p, x) => r ← remember p x; _ ← on_control (set_usual (Some p)); mret r
  | Err errors => mret (Err (AllProtocolsFailed errors))
  end.

Definition choose_working_protocol : St Auto (result AutomapError T) :=
  usual ← eval (λ a : Auto, usual_protocol_opt a.1);
  match usual with
  | Some p =>
      t ← find_transactor p;
      r ← try_protocol t;
      match r with Ok x => remember p x | Err _ => try_all_others usual end
  | None => try_all_others usual
  end.

Definition calculate_protocol_info : St Auto (result AutomapError T) :=
  inner ← eval (λ a : Auto, inner_opt a.1);
  match inner with Some inner => prepare_and_perform_experiment inner | None => choose_working_protocol end.
End experiments.

Definition control_get_public_ip : St Auto (result AutomapError IpAddr) := calculate_protocol_info (λ t router, get_public_ip t router).

Definition map_experiment (port : Z) (t : Transactor M) (router : IpAddr) : St M (result AutomapError Z) :=
  r ← add_mapping t router port DEFAULT_MAPPING_LIFETIME_SECONDS;
  match r with Err PermanentLeasesOnly => add_permanent_mapping t router port | r => mret r end.

Definition control_add_mapping (port : Z) : St Auto (result AutomapError unit) :=
  or_fail (calculate_protocol_info (map_experiment port)) (λ remap_after_sec,
    inner ← eval (λ a : Auto, inner_opt a.1);
    match inner with
    | None => panic
    | Some inner =>
        t ← transactor_at (transactor_idx inner);
        _ ← on_control (set_usual (Some (protocol t)));
        _ ← on_control (add_hole_port port);
        commander ← eval (λ a : Auto, housekeeping_thread_commander_opt a.1);
        match commander with
        | None => panic
        | Some tid =>
            sent ← on_machine (send tid (SetRemapIntervalMs (remap_after_sec * 1000)));
            if negb sent then panic else mret (Ok ())
        end
    end).

Fixpoint delete_ports (t : Transactor M) (router : IpAddr) (ports : list Z) : St Auto (list AutomapError) :=
  match ports with
  | [] => mret []
  | port :: ports =>
      r ← on_machine (delete_mapping t router port);
      errors ← delete_ports t router ports;
      mret match r with Ok _ => errors | Err e => e :: errors end
  end.

Definition control_delete_mappings : St Auto (result AutomapError unit) :=
  inner ← eval (λ a : Auto, inner_opt a.1);
  match inner with
  | None => mret (Err DeleteMappingError)
  | Some inner =>
      t ← transactor_at (transactor_idx inner);
      ports ← eval (λ a : Auto, ports_of (hole_ports a.1));
      errors ← delete_ports t (router_ip inner) ports;
      _ ← on_machine (stop_housekeeper t);
      mret match errors with [] => Ok () | e :: _ => Err e end
  end.
End control.

(** ** What is asked of the transactors *)

Lemma st_bind {S A B} (m : St S A) (f : A → St S B) s x s' : m s = Ret (x, s') → (m ≫= f) s = f x s'.
Proof. intros H. unfold mbind, St_bind. by rewrite H. Qed.

Lemma on_machine_ret {M A} (f : St M A) c m x m' : f m = Ret (x, m') → on_machine f (c, m) = Ret (x, (c, m')).
Proof. intros H. unfold on_machine. cbn. by rewrite H. Qed.

(** [runs p m] is the thread of a transactor; [spent p m] says that it cannot be
    started again; [mapped p m] that its thread has been told of a mapping. *)
Class Housekept {M : Type} (transactors : list (Transactor M)) (send : nat → HousekeepingThreadCommand → St M bool) := {
  good : M → Prop;
  runs : AutomapProtocol → M → option nat;
  spent : AutomapProtocol → M → bool;
  mapped : AutomapProtocol → M → Prop;
  restarts : AutomapProtocol → bool;
  keeps (m m' : M) : Prop := good m' ∧ (∀ p, runs p m' = runs p m) ∧ (∀ p, spent p m' = spent p m);
  protocols_differ : NoDup (protocol <$> transactors);
  every_protocol p : ∃ t, t ∈ transactors ∧ protocol t = p;
  law_find t m : t ∈ transactors → good m → ∃ r m', find_routers t m = Ret (r, m') ∧ keeps m m' ∧
    ∀ ips, r = Ok ips → restarts (protocol t) = true ∨ (length ips ≤ 1)%nat;
  law_ip t router m : t ∈ transactors → good m → ∃ r m', get_public_ip t router m = Ret (r, m') ∧ keeps m m';
  law_add t router port lifetime m : t ∈ transactors → good m → is_Some (runs (protocol t) m) →
    ∃ r m', add_mapping t router port lifetime m = Ret (r, m') ∧ keeps m m' ∧ (∀ x, r = Ok x → mapped (protocol t) m') ∧
      (r = Err PermanentLeasesOnly → ∃ r m'', add_permanent_mapping t router port m' = Ret (r, m'') ∧ keeps m' m'' ∧
         (∀ x, r = Ok x → mapped (protocol t) m''));
  law_delete t router port m : t ∈ transactors → good m → is_Some (runs (protocol t) m) →
    ∃ r m', delete_mapping t router port m = Ret (r, m') ∧ keeps m m';
  law_start t router m : t ∈ transactors → good m → runs (protocol t) m = None → spent (protocol t) m = false →
    ∃ tid m', start_housekeeper t router m = Ret (Ok tid, m') ∧ good m' ∧ runs (protocol t) m' = Some tid ∧
      (∀ q, q ≠ protocol t → runs q m' = runs q m) ∧ ∀ q, spent q m' = spent q m;
  law_stop t m : t ∈ transactors → good m → is_Some (runs (protocol t) m) →
    ∃ m', stop_housekeeper t m = Ret (Ok (), m') ∧ good m' ∧ runs (protocol t) m' = None ∧
      (∀ q, q ≠ protocol t → runs q m' = runs q m) ∧ (∀ q, q ≠ protocol t → spent q m' = spent q m) ∧
      (restarts (protocol t) = true → spent (protocol t) m' = spent (protocol t) m);
  law_send p tid ms m : good m → runs p m = Some tid → mapped p m → ∃ m', send tid (SetRemapIntervalMs ms) m = Ret (true, m') ∧ keeps m m'
}.

Section sound.
Context {M : Type} (transactors : list (Transactor M)) (send : nat → HousekeepingThreadCommand → St M bool).
Context (ports_of : gset Z → list Z).
Context `{!Housekept transactors send}.

Definition idle (a : Auto (M := M)) : Prop := good a.2 ∧ change_handler_opt a.1 = Some () ∧ ∀ p, runs p a.2 = None.

Definition busy (p : AutomapProtocol) (a : Auto (M := M)) : Prop :=
  good a.2 ∧ change_handler_opt a.1 = None ∧
  ∃ tid, runs p a.2 = Some tid ∧ housekeeping_thread_commander_opt a.1 = Some tid ∧ ∀ q, q ≠ p → runs q a.2 = None.

(** The one change handler is with the control as long as no protocol was chosen,
    and afterwards in the thread of the protocol that was chosen. *)
Definition auto_ok (a : Auto (M := M)) : Prop :=
  match inner_opt a.1 with
  | None => idle a ∧ hole_ports a.1 = ∅
  | Some inner => ∃ t, transactors !! transactor_idx inner = Some t ∧ busy (protocol t) a ∧ usual_protocol_opt a.1 = Some (protocol t)
  end.

(** Attempts change nothing of the control but where the handler is. *)
Definition settled (a a' : Auto (M := M)) : Prop :=
  usual_protocol_opt a'.1 = usual_protocol_opt a.1 ∧ hole_ports a'.1 = hole_ports a.1 ∧ inner_opt a'.1 = inner_opt a.1.

Lemma put_back_spec t a : t ∈ transactors → busy (protocol t) a → ∃ a', put_change_handler_back t a = Ret ((), a') ∧ idle a' ∧ settled a a' ∧
  (∀ q, q ≠ protocol t → spent q a'.2 = spent q a.2) ∧ (restarts (protocol t) = true → spent (protocol t) a'.2 = spent (protocol t) a.2).
Proof using Type.
  destruct a as [c m]. intros Ht (Hg & Hh & tid & Hr & Hc & Ho). cbn [fst snd] in *.
  destruct (law_stop t m Ht Hg) as (m' & Hs & Hg' & Hr' & Hq & Hsp & Hre); [by rewrite Hr|].
  exists (set_handler (Some ()) c, m'). unfold put_change_handler_back. rewrite (st_bind _ _ _ _ _ (on_machine_ret _ c m _ _ Hs)).
  split; [done|]. split; [|done]. split; [done|]. split; [done|]. intros q. cbn. destruct (decide (q = protocol t)) as [->|Hne]; [done|]. rewrite Hq, Ho; done.
Qed.

Lemma start_spec t router a : t ∈ transactors → idle a → spent (protocol t) a.2 = false →
  ∃ a', maybe_start_housekeeper t router a = Ret (Ok (), a') ∧ busy (protocol t) a' ∧ settled a a' ∧ ∀ q, spent q a'.2 = spent q a.2.
Proof using Type.
  destruct a as [c m]. intros Ht (Hg & Hh & Hr) Hsp. cbn [fst snd] in *.
  destruct (law_start t router m Ht Hg (Hr _) Hsp) as (tid & m' & Hs & Hg' & Hr' & Hq & Hsp').
  exists (set_commander (Some tid) (set_handler None c), m'). unfold maybe_start_housekeeper, eval.
  rewrite (st_bind _ _ (c, m) (Some ()) (c, m)) by (cbn; by rewrite Hh). rewrite (st_bind _ _ (c, m) () (set_handler None c, m)) by done.
  rewrite (st_bind _ _ _ _ _ (on_machine_ret _ (set_handler None c) m _ _ Hs)). split; [done|]. split; [|done]. split; [done|]. split; [done|].
  exists tid. split; [done|]. split; [done|]. intros q Hne. cbn. by rewrite Hq, Hr.
Qed.

Lemma already_started t router a : busy (protocol t) a → maybe_start_housekeeper t router a = Ret (Ok (), a).
Proof using Type. intros (_ & Hh & _). unfold maybe_start_housekeeper. by rewrite (st_bind _ _ a None a) by (unfold eval; by rewrite Hh). Qed.

Lemma busy_keeps p c m m' : busy p (c, m) → keeps m m' → busy p (c, m').
Proof using Type.
  intros (Hg & Hh & tid & Hr & Hc & Ho) (Hg' & Hr' & _). split; [done|]. split; [done|]. exists tid. cbn in *.
  split; [by rewrite Hr'|]. split; [done|]. intros q Hq. rewrite Hr'. by apply Ho.
Qed.

Lemma idle_keeps c m m' : idle (c, m) → keeps m m' → idle (c, m').
Proof using Type. intros (Hg & Hh & Hr) (Hg' & Hr' & _). split; [done|]. split; [done|]. intros p. cbn. by rewrite Hr'. Qed.

Lemma settled_trans (a b c : Auto (M := M)) : settled a b → settled b c → settled a c.
Proof using Type. intros (?&?&?) (?&?&?). repeat split; by etransitivity. Qed.

(** The protocols that are tried after the usual one. *)
Definition others (usual : option AutomapProtocol) (ps : list AutomapProtocol) : list AutomapProtocol := filter (λ p, usual ≠ Some p) ps.

Section experiments.
Context {T : Type} (experiment : Transactor M → IpAddr → St M (result AutomapError T)) (Q : AutomapProtocol → M → Prop).
(** With a thread running, the experiment returns and leaves the threads alone. *)
Context (Hexp : ∀ t router m, t ∈ transactors → good m → is_Some (runs (protocol t) m) →
  ∃ r m', experiment t router m = Ret (r, m') ∧ keeps m m' ∧ ∀ x, r = Ok x → Q (protocol t) m').

Lemma perform t router a : t ∈ transactors → busy (protocol t) a → ∃ r a', on_machine (experiment t router) a = Ret (r, a') ∧
  busy (protocol t) a' ∧ settled a a' ∧ (∀ q, spent q a'.2 = spent q a.2) ∧ ∀ x, r = Ok x → Q (protocol t) a'.2.
Proof using Hexp.
  destruct a as [c m]. intros Ht Hb. destruct (Hexp t router m Ht) as (r & m' & He & Hk & HQ).
  { apply Hb. } { destruct Hb as (_ & _ & tid & Hr & _). cbn in Hr. by rewrite Hr. }
  exists r, (c, m'). split; [by apply on_machine_ret|]. split; [by eapply busy_keeps|]. split; [done|]. split; [apply Hk|done].
Qed.

Lemma try_routers_spec t ips e a : t ∈ transactors → idle a → spent (protocol t) a.2 = false →
  restarts (protocol t) = true ∨ (length ips ≤ 1)%nat →
  ∃ r a', try_routers experiment t ips e a = Ret (r, a') ∧ settled a a' ∧ (∀ q, q ≠ protocol t → spent q a'.2 = spent q a.2) ∧
    match r with Ok _ => busy (protocol t) a' ∧ Q (protocol t) a'.2 | Err _ => idle a' end.
Proof using Hexp.
  intros Ht. revert e a. induction ips as [|ip ips IH]; intros e a Hi Hs Hre; [by exists (Err e), a|]. cbn [try_routers].
  destruct (start_spec t ip a Ht Hi Hs) as (a1 & E1 & Hb1 & Hset1 & Hsp1). rewrite (st_bind _ _ _ _ _ E1).
  destruct (perform t ip a1 Ht Hb1) as (r & a2 & E2 & Hb2 & Hset2 & Hsp2 & HQ). rewrite (st_bind _ _ _ _ _ E2).
  destruct r as [x|e2].
  { exists (Ok (ip, x)), a2. split; [done|]. split; [by eapply settled_trans|]. split; [intros q _; by rewrite Hsp2, Hsp1|]. split; [done|by eapply HQ]. }
  destruct (put_back_spec t a2 Ht Hb2) as (a3 & E3 & Hi3 & Hset3 & Hsp3 & Hre3). rewrite (st_bind _ _ _ _ _ E3).
  assert (settled a a3) by (eapply settled_trans; [eapply settled_trans|]; done).
  assert (∀ q, q ≠ protocol t → spent q a3.2 = spent q a.2) as Hsp by (intros q Hq; by rewrite Hsp3, Hsp2, Hsp1 by done).
  destruct (restarts (protocol t)) eqn:Er.
  - destruct (IH e2 a3 Hi3) as (r & a' & E & Hset & Hspq & Hr); [by rewrite Hre3, Hsp2, Hsp1|by left|].
    exists r, a'. split; [done|]. split; [by eapply settled_trans|]. split; [intros q Hq; by rewrite Hspq, Hsp|done].
  - destruct Hre as [?|Hlen]; [done|]. cbn in Hlen. destruct ips; [|cbn in Hlen; lia]. by exists (Err e2), a3.
Qed.

Lemma try_protocol_spec t a : t ∈ transactors → idle a → spent (protocol t) a.2 = false →
  ∃ r a', try_protocol experiment t a = Ret (r, a') ∧ settled a a' ∧ (∀ q, q ≠ protocol t → spent q a'.2 = spent q a.2) ∧
    match r with Ok _ => busy (protocol t) a' ∧ Q (protocol t) a'.2 | Err _ => idle a' end.
Proof using Hexp.
  destruct a as [c m]. intros Ht Hi Hs. destruct (law_find t m Ht) as (r & m1 & E1 & Hk & Hlen); [apply Hi|].
  unfold try_protocol, or_fail. rewrite (st_bind _ _ _ _ _ (on_machine_ret _ c m _ _ E1)). pose proof (idle_keeps _ _ _ Hi Hk) as Hi1.
  destruct Hk as (_ & _ & Hsp). destruct r as [ips|e]; [|exists (Err e), (c, m1); done].
  destruct ips as [|ip ips]; [exists (Err FindRouterError), (c, m1); done|].
  destruct (try_routers_spec t (ip :: ips) Unknown (c, m1) Ht Hi1) as (r & a' & E & Hset & Hspq & Hr); [cbn in *; by rewrite Hsp|by apply Hlen|].
  exists r, a'. split; [done|]. split; [done|]. split; [intros q Hq; cbn in *; by rewrite Hspq, Hsp|done].
Qed.

Lemma try_others_spec usual ts errors a : ts ⊆ transactors → NoDup (protocol <$> ts) → idle a →
  (∀ t, t ∈ ts → usual ≠ Some (protocol t) → spent (protocol t) a.2 = false) →
  ∃ r a', try_others experiment usual ts errors a = Ret (r, a') ∧ settled a a' ∧
    match r with
    | Ok (p, _) => busy p a' ∧ Q p a'.2
    | Err l => idle a' ∧ l.*1 = errors.*1 ++ others usual (protocol <$> ts)
    end.
Proof using Hexp.
  revert errors a. induction ts as [|t ts IH]; intros errors a Hsub Hnd Hi Hs.
  { exists (Err errors), a. split; [done|]. split; [done|]. split; [done|]. cbn. by rewrite app_nil_r. }
  cbn [try_others fmap list_fmap]. rewrite fmap_cons in Hnd. apply NoDup_cons in Hnd as [Hni Hnd]. unfold others. rewrite filter_cons.
  case_bool_decide as Hu.
  { rewrite decide_False by (intros H; by apply H). apply IH; [set_solver|done|done|]. intros t' Ht'. apply Hs. by right. }
  rewrite decide_True by done.
  destruct (try_protocol_spec t a) as (r & a1 & E & Hset & Hsp & Hr); [apply Hsub; left|done|apply Hs; [left|done]|]. rewrite (st_bind _ _ _ _ _ E).
  destruct r as [x|e]; [by exists (Ok (protocol t, x)), a1|].
  destruct (IH (errors ++ [(protocol t, e)]) a1) as (r & a' & E' & Hset' & Hr'); [set_solver|done|done| |].
  { intros t' Ht' Hu'. rewrite Hsp; [apply Hs; [by right|done]|]. intros Heq. apply Hni. rewrite <- Heq. by apply list_elem_of_fmap_2. }
  exists r, a'. split; [done|]. split; [by eapply settled_trans|]. destruct r as [[p x]|l]; [done|]. destruct Hr' as [Hi' Hl]. split; [done|].
  rewrite Hl, fmap_app, <- app_assoc. done.
Qed.

Lemma find_protocol p : ∃ idx t, list_find (λ t, is_protocol p t = true) transactors = Some (idx, t) ∧ transactors !! idx = Some t ∧ protocol t = p.
Proof using Housekept0.
  destruct (every_protocol p) as (t & Ht & Hp).
  destruct (list_find_elem_of (λ t, is_protocol p t = true) transactors t Ht) as [[idx t'] Hf]; [unfold is_protocol; by apply bool_decide_eq_true|].
  exists idx, t'. split; [done|]. apply list_find_Some in Hf as (? & Hp' & _). split; [done|]. unfold is_protocol in Hp'. by apply bool_decide_eq_true in Hp'.
Qed.

(** A protocol was chosen and is at work. *)
Definition chosen (a : Auto (M := M)) : Prop := auto_ok a ∧ ∃ inner t, inner_opt a.1 = Some inner ∧ transactors !! transactor_idx inner = Some t ∧ Q (protocol t) a.2.

Lemma remember_spec p x a : busy p a → Q p a.2 → ∃ a', remember transactors p x a = Ret (Ok x.2 : result AutomapError T, a') ∧
  chosen (set_usual (Some p) a'.1, a'.2) ∧ (usual_protocol_opt a.1 = Some p → chosen a') ∧ hole_ports a'.1 = hole_ports a.1 ∧
  usual_protocol_opt a'.1 = usual_protocol_opt a.1.
Proof using Housekept0.
  destruct a as [c m]. intros Hb HQ. destruct (find_protocol p) as (idx & t & Hf & Hidx & Hp).
  exists (set_inner (MkInner x.1 idx) c, m). unfold remember. rewrite (st_bind _ _ (c, m) idx (c, m)) by (unfold find_transactor_index; by rewrite Hf).
  split; [done|]. split; [|split; [|done]].
  - split; [exists t; rewrite Hp; done|]. exists (MkInner x.1 idx), t. by rewrite Hp.
  - intros Hu. split; [exists t; rewrite Hp; done|]. exists (MkInner x.1 idx), t. by rewrite Hp.
Qed.

(** What an attempt comes to when no protocol was chosen. *)
Definition first_outcome (a : Auto (M := M)) (r : result AutomapError T) (a' : Auto) : Prop :=
  match r with
  | Ok _ => chosen a' ∧ hole_ports a'.1 = hole_ports a.1
  | Err e => idle a' ∧ settled a a' ∧ ∃ l, e = AllProtocolsFailed l ∧ l.*1 = others (usual_protocol_opt a.1) (protocol <$> transactors)
  end.

Lemma try_all_others_spec usual a0 a : settled a0 a → usual = usual_protocol_opt a0.1 → idle a →
  (∀ t, t ∈ transactors → usual ≠ Some (protocol t) → spent (protocol t) a.2 = false) →
  ∃ r a', try_all_others transactors experiment usual a = Ret (r, a') ∧ first_outcome a0 r a'.
Proof using Hexp Housekept0.
  intros Hset -> Hi Hs. destruct (try_others_spec (usual_protocol_opt a0.1) transactors [] a) as (r & a1 & E & Hset1 & Hr); [done|apply protocols_differ|done|done|].
  unfold try_all_others. rewrite (st_bind _ _ _ _ _ E). destruct r as [[p x]|l].
  - destruct Hr as [Hb HQ]. destruct (remember_spec p x a1 Hb HQ) as (a2 & E2 & Hc & _ & Hp & _). rewrite (st_bind _ _ _ _ _ E2).
    eexists _, (set_usual (Some p) a2.1, a2.2). split; [done|]. split; [done|]. cbn. rewrite Hp. destruct Hset as (_ & <- & _), Hset1 as (_ & <- & _). done.
  - eexists _, a1. split; [done|]. destruct Hr as [Hi1 Hl]. split; [done|]. split; [by eapply settled_trans|]. by exists l.
Qed.

Lemma choose_spec a : idle a → (∀ p, spent p a.2 = false) →
  ∃ r a', choose_working_protocol transactors experiment a = Ret (r, a') ∧ first_outcome a r a'.
Proof using Hexp Housekept0.
  intros Hi Hs. unfold choose_working_protocol. rewrite (st_bind _ _ a (usual_protocol_opt a.1) a) by done.
  destruct (usual_protocol_opt a.1) as [p|] eqn:Eu; [|by apply try_all_others_spec].
  destruct (find_protocol p) as (idx & t & Hf & Hidx & Hp). rewrite (st_bind _ _ a t a) by (unfold find_transactor; by rewrite Hf).
  destruct (try_protocol_spec t a) as (r & a1 & E & Hset & Hsp & Hr); [by eapply list_elem_of_lookup_2|done|done|]. rewrite (st_bind _ _ _ _ _ E).
  rewrite Hp in Hr, Hsp. destruct r as [x|e].
  - destruct Hr as [Hb HQ]. destruct (remember_spec p x a1 Hb HQ) as (a2 & E2 & _ & Hc & Hports & _). eexists _, a2. split; [done|].
    destruct Hset as (Hu & Hh & _). split; [apply Hc; by rewrite Hu|]. by rewrite Hports.
  - apply try_all_others_spec; [done|done|done|]. intros t' Ht' Hu. rewrite Hsp; [done|]. congruence.
Qed.

Definition outcome (a : Auto (M := M)) (r : result AutomapError T) (a' : Auto) : Prop :=
  match inner_opt a.1 with
  | None => first_outcome a r a'
  | Some _ => a'.1 = a.1 ∧ auto_ok a' ∧ ∀ x, r = Ok x → chosen a'
  end.

Lemma protocol_info_spec a : auto_ok a → (∀ p, spent p a.2 = false) → ∃ r a', calculate_protocol_info transactors experiment a = Ret (r, a') ∧ outcome a r a'.
Proof using Hexp Housekept0.
  intros Hok Hs. unfold calculate_protocol_info, outcome, auto_ok in *. rewrite (st_bind _ _ a (inner_opt a.1) a) by done.
  destruct (inner_opt a.1) as [inner|] eqn:Ei; [|destruct Hok; by apply choose_spec]. destruct Hok as (t & Ht & Hb & Hu).
  unfold prepare_and_perform_experiment, or_fail. rewrite (st_bind _ _ a t a) by (unfold transactor_at; by rewrite Ht).
  rewrite (st_bind _ _ _ _ _ (already_started t (router_ip inner) a Hb)).
  destruct a as [c m]. destruct (Hexp t (router_ip inner) m) as (r & m' & E & Hk & HQ); [by eapply list_elem_of_lookup_2|apply Hb| |].
  { destruct Hb as (_ & _ & tid & Hr & _). cbn in Hr. by rewrite Hr. }
  exists r, (c, m'). split; [by apply on_machine_ret|]. split; [done|]. cbn [fst] in *. pose proof (busy_keeps _ _ _ _ Hb Hk) as Hb'.
  rewrite Ei. split; [by exists t|]. intros x Hx. unfold chosen, auto_ok. cbn [fst snd]. rewrite Ei. split; [by exists t|]. exists inner, t. split; [done|]. split; [done|]. by eapply HQ.
Qed.

Lemma outcome_ok a r a' : auto_ok a → outcome a r a' → auto_ok a' ∧ hole_ports a'.1 = hole_ports a.1.
Proof using Type.
  unfold outcome, first_outcome. intros Hok Ho. destruct (inner_opt a.1) as [inner|] eqn:Ei; [destruct Ho as (-> & ? & _); done|].
  destruct r as [x|e]; [by destruct Ho as [[? _] ?]|]. destruct Ho as (Hi & (_ & Hh & Hin) & _). split; [|done].
  unfold auto_ok in *. rewrite Hin, Ei in *. destruct Hok as [_ Hp]. split; [done|]. by rewrite Hh.
Qed.
End experiments.

(** ** The operations *)

(** A success settles the protocol; a failure says what each protocol tried came to. *)
Definition attempted {T} (a : Auto (M := M)) (r : result AutomapError T) (a' : Auto (M := M)) : Prop :=
  match r with
  | Ok _ => is_Some (inner_opt a'.1) ∧ ∀ inner, inner_opt a.1 = Some inner → inner_opt a'.1 = Some inner
  | Err e => inner_opt a'.1 = inner_opt a.1 ∧
      (inner_opt a.1 = None → ∃ l, e = AllProtocolsFailed l ∧ l.*1 = others (usual_protocol_opt a.1) (protocol <$> transactors))
  end.

Lemma outcome_attempted {T} (Q : AutomapProtocol → M → Prop) (a : Auto (M := M)) (r : result AutomapError T) a' : outcome Q a r a' → attempted a r a'.
Proof using Type.
  unfold outcome, first_outcome, attempted. destruct (inner_opt a.1) as [inner|] eqn:Ei.
  - intros (-> & _ & _). rewrite Ei. destruct r; by split; [|naive_solver].
  - destruct r as [x|e].
    + intros [(_ & inner & t & Hi & _) _]. by rewrite Hi.
    + intros (_ & (_ & _ & ->) & ?). done.
Qed.

Lemma get_spec a : auto_ok a → (∀ p, spent p a.2 = false) →
  ∃ r a', control_get_public_ip transactors a = Ret (r, a') ∧ auto_ok a' ∧ hole_ports a'.1 = hole_ports a.1 ∧ attempted a r a'.
Proof using Housekept0.
  intros Hok Hs. destruct (protocol_info_spec (λ t router, get_public_ip t router) (λ _ _, True)) with (a := a) as (r & a' & E & Ho); [|done|done|].
  - intros t router m Ht Hg _. destruct (law_ip t router m Ht Hg) as (r & m' & ? & ?). by exists r, m'.
  - exists r, a'. split; [done|]. destruct (outcome_ok _ _ _ _ Hok Ho). split; [done|]. split; [done|]. by eapply outcome_attempted.
Qed.

Lemma map_experiment_returns port t router m : t ∈ transactors → good m → is_Some (runs (protocol t) m) →
  ∃ r m', map_experiment port t router m = Ret (r, m') ∧ keeps m m' ∧ ∀ x, r = Ok x → mapped (protocol t) m'.
Proof using Type.
  intros Ht Hg Hr. unfold map_experiment. destruct (law_add t router port DEFAULT_MAPPING_LIFETIME_SECONDS m Ht Hg Hr) as (r & m1 & E & Hk & Hm & Hp).
  rewrite (st_bind _ _ _ _ _ E). destruct r as [x|e]; [by exists (Ok x), m1|].
  destruct e; try (eexists _, m1; split; [reflexivity|]; done). destruct (Hp eq_refl) as (r & m2 & E2 & (Hg2 & Hr2 & Hs2) & Hm2). exists r, m2. split; [done|].
  split; [|done]. destruct Hk as (_ & Hr1 & Hs1). split; [done|]. split; intros p; [by rewrite Hr2, Hr1|by rewrite Hs2, Hs1].
Qed.

Lemma add_spec port a : auto_ok a → (∀ p, spent p a.2 = false) →
  ∃ r a', control_add_mapping transactors send port a = Ret (r, a') ∧ auto_ok a' ∧ attempted a r a' ∧
    hole_ports a'.1 = match r with Ok _ => {[port]} ∪ hole_ports a.1 | Err _ => hole_ports a.1 end.
Proof using Housekept0.
  intros Hok Hs. destruct (protocol_info_spec (map_experiment port) mapped (map_experiment_returns port) a Hok Hs) as (r & a1 & E & Ho).
  destruct (outcome_ok _ _ _ _ Hok Ho) as [Hok1 Hh1]. pose proof (outcome_attempted _ _ _ _ Ho) as Hatt.
  unfold control_add_mapping, or_fail. rewrite (st_bind _ _ _ _ _ E). destruct r as [secs|e]; [|by exists (Err e), a1].
  assert (chosen mapped a1) as [_ (inner & t & Hi & Ht & Hm)].
  { unfold outcome, first_outcome in Ho. destruct (inner_opt a.1); [by eapply Ho|apply Ho]. }
  unfold auto_ok in Hok1. rewrite Hi in Hok1. destruct Hok1 as (t' & Ht' & Hb & Hu). assert (t' = t) as -> by congruence.
  destruct Hb as (Hg & Hh & tid & Hr & Hc & Hoth). destruct a1 as [c1 m1]. cbn [fst snd] in *.
  rewrite (st_bind _ _ _ (Some inner) (c1, m1)) by (unfold eval; cbn; by rewrite Hi). rewrite (st_bind _ _ _ t (c1, m1)) by (unfold transactor_at; by rewrite Ht).
  set (c2 := add_hole_port port (set_usual (Some (protocol t)) c1)).
  rewrite (st_bind _ _ _ () (set_usual (Some (protocol t)) c1, m1)) by done. rewrite (st_bind _ _ _ () (c2, m1)) by done.
  rewrite (st_bind _ _ _ (Some tid) (c2, m1)) by (unfold eval; cbn; by rewrite Hc).
  destruct (law_send (protocol t) tid (secs * 1000) m1 Hg Hr Hm) as (m2 & E2 & Hk). rewrite (st_bind _ _ _ _ _ (on_machine_ret _ c2 m1 _ _ E2)).
  exists (Ok ()), (c2, m2). split; [done|]. split; [|split].
  - unfold auto_ok. cbn [c2 fst inner_opt add_hole_port set_usual]. rewrite Hi. exists t. split; [done|]. split; [|done].
    eapply busy_keeps; [|exact Hk]. split; [done|]. split; [done|]. by exists tid.
  - exact Hatt.
  - cbn. by rewrite Hh1.
Qed.

Lemma delete_ports_spec t router ports a : t ∈ transactors → busy (protocol t) a →
  ∃ errors m', delete_ports t router ports a = Ret (errors, (a.1, m')) ∧ busy (protocol t) (a.1, m').
Proof using Type.
  destruct a as [c m]. intros Ht. cbn [fst]. revert m. induction ports as [|port ports IH]; intros m Hb; [by exists [], m|]. cbn [delete_ports].
  destruct (law_delete t router port m Ht) as (r & m1 & E & Hk); [apply Hb|destruct Hb as (_ & _ & tid & Hr & _); cbn in Hr; by rewrite Hr|].
  rewrite (st_bind _ _ _ _ _ (on_machine_ret _ c m _ _ E)). destruct (IH m1) as (errors & m2 & E2 & Hb2); [by eapply busy_keeps|].
  rewrite (st_bind _ _ _ _ _ E2). by eexists _, m2.
Qed.

Lemma delete_spec a : auto_ok a → ∃ r a', control_delete_mappings transactors ports_of a = Ret (r, a') ∧ a'.1 = a.1 ∧ ∀ p, runs p a'.2 = None.
Proof using Housekept0.
  intros Hok. unfold control_delete_mappings. rewrite (st_bind _ _ _ (inner_opt a.1) a) by done. unfold auto_ok in Hok.
  destruct (inner_opt a.1) as [inner|]; [|eexists _, a; split; [done|]; split; [done|]; apply Hok]. destruct Hok as (t & Ht & Hb & _).
  assert (t ∈ transactors) as Hin by (by eapply list_elem_of_lookup_2). rewrite (st_bind _ _ _ t a) by (unfold transactor_at; by rewrite Ht).
  rewrite (st_bind _ _ _ (ports_of (hole_ports a.1)) a) by done.
  destruct (delete_ports_spec t (router_ip inner) (ports_of (hole_ports a.1)) a Hin Hb) as (errors & m1 & E & Hb1). rewrite (st_bind _ _ _ _ _ E).
  destruct Hb1 as (Hg & _ & tid & Hr & _ & Hoth). destruct (law_stop t m1 Hin Hg) as (m2 & E2 & _ & Hr2 & Hq & _); [cbn in Hr; by rewrite Hr|].
  rewrite (st_bind _ _ _ _ _ (on_machine_ret _ a.1 m1 _ _ E2)). eexists _, _. split; [done|]. split; [done|]. intros p. cbn in *.
  destruct (decide (p = protocol t)) as [->|Hne]; [done|]. by rewrite Hq, Hoth.
Qed.
End sound.
End AutomapControl.
