(* ===== verification/Housekeeping.v ===== *)
(** * The housekeeping of port mappings

    The theorems about the communication layer of [Transactors.v] and about the
    control of [AutomapControl.v] with it: the three real transactors do what the
    control asks of transactors, and what the thread for PCP does for a mapping. *)
From Stdlib Require Import String.
From S2P Require Import Prelude.
From S2P Require Import CountryBlockStream PortMapping Thresholds ConfigParams Transactors AutomapControl.
From stdpp Require Import base list gmap strings.

Module Housekeeping.
Import Stream Wire Time ConfigParams Transactors AutomapControl.
Local Open Scope Z_scope.
Local Open Scope rust_scope.

(** ** Packets that were parsed *)

Lemma pcp_parsed bytes p : Pcp.try_from bytes = Ret (Ok p) →
  (Pcp.direction p = Response → is_Some (Pcp.result_code_opt p)) ∧ (Pcp.opcode p = Pcp.Map → ∃ d, Pcp.opcode_data p = Pcp.MapData d).
Proof.
  unfold Pcp.try_from. destruct (length bytes <? 24)%nat; [done|].
  destruct (get bytes 0) as [v|]; [|done]. cbn [mbind run_bind]. destruct (negb (v =? 2)); [done|].
  destruct (get bytes 1) as [b1|]; [|done]. cbn [mbind run_bind]. destruct (u32_at bytes 4) as [l|]; [|done]. cbn [mbind run_bind].
  destruct (direction_from b1).
  - destruct (ipv6_addr_at bytes 8) as [ip|]; [|done]. cbn [mbind run_bind]. destruct (slice_from bytes 24) as [rest|]; [|done]. cbn [mbind run_bind].
    destruct (Pcp.opcode_from b1); cbn [Pcp.parse_data]; try (cbn; by intros [= <-]).
    destruct (Pcp.map_try_from rest) as [[d|e]|]; cbn; try done. intros [= <-]. cbn. split; [done|]. by eexists.
  - destruct (get bytes 3) as [rc|]; [|done]. cbn [mbind run_bind]. destruct (u32_at bytes 8) as [ep|]; [|done]. cbn [mbind run_bind].
    destruct (slice_from bytes 24) as [rest|]; [|done]. cbn [mbind run_bind].
    destruct (Pcp.opcode_from b1); cbn [Pcp.parse_data]; try (cbn; intros [= <-]; done).
    destruct (Pcp.map_try_from rest) as [[d|e]|]; cbn; try done. intros [= <-]. cbn. split; [done|]. by eexists.
Qed.

Lemma pmp_get_total d rest : ∃ r, Pmp.get_try_from d rest = Ret r ∧ ∀ g, r = Ok g → d = Response → is_Some (Pmp.external_ip_address_opt g).
Proof.
  unfold Pmp.get_try_from. destruct d; [eexists; split; [done|]; by intros ? [= <-]|].
  destruct (Nat.ltb_spec (length rest) 8); [eexists; done|]. destruct (u32_at_total rest 0) as [v ->]; [lia|]. cbn [mbind run_bind].
  destruct (get_total rest 4) as (a & _ & ->); [lia|]. destruct (get_total rest 5) as (b & _ & ->); [lia|].
  destruct (get_total rest 6) as (c & _ & ->); [lia|]. destruct (get_total rest 7) as (e & _ & ->); [lia|]. cbn [mbind run_bind].
  eexists. split; [done|]. by intros ? [= <-].
Qed.

Lemma pmp_map_total d rest : ∃ r, Pmp.map_try_from d rest = Ret r.
Proof.
  unfold Pmp.map_try_from. destruct (Nat.ltb_spec (length rest) (Pmp.map_len d)) as [|Hl]; [by eexists|].
  destruct d; cbn [Pmp.map_len] in Hl; cbn [mbind run_bind].
  - destruct (u16_at_total rest 2) as [x ->]; [lia|]. destruct (u16_at_total rest (2 + 2)) as [y ->]; [lia|].
    destruct (u32_at_total rest (2 + 4)) as [z ->]; [lia|]. by eexists.
  - destruct (u32_at_total rest 0) as [v ->]; [lia|]. cbn [mbind run_bind].
    destruct (u16_at_total rest 4) as [x ->]; [lia|]. destruct (u16_at_total rest (4 + 2)) as [y ->]; [lia|].
    destruct (u32_at_total rest (4 + 4)) as [z ->]; [lia|]. by eexists.
Qed.

(** The parser of PMP packets returns, and what it accepts hangs together. *)
Lemma pmp_parsed bytes : ∃ r, Pmp.try_from bytes = Ret r ∧ ∀ p, r = Ok p →
  (Pmp.direction p = Response → is_Some (Pmp.result_code_opt p)) ∧
  (Pmp.opcode p = Pmp.MapTcp → ∃ d, Pmp.opcode_data p = Pmp.MapData d) ∧
  (Pmp.direction p = Response → Pmp.opcode p = Pmp.Get → ∃ e ip, Pmp.opcode_data p = Pmp.GetData (Pmp.MkGet e (Some ip))).
Proof.
  unfold Pmp.try_from. destruct (Nat.ltb_spec (length bytes) 2); [by eexists|].
  destruct (get_total bytes 0) as (v & _ & ->); [lia|]. cbn [mbind run_bind]. destruct (negb (v =? 0)); [by eexists|].
  destruct (get_total bytes 1) as (b1 & _ & ->); [lia|]. cbn [mbind run_bind].
  assert (∀ d rest rc, (d = Response → is_Some rc) → ∃ r, (x <-? Pmp.parse_data (Pmp.opcode_from b1) d rest; Ret (Ok (Pmp.MkPmp d (Pmp.opcode_from b1) rc x))) = Ret r ∧ ∀ p, r = Ok p →
    (Pmp.direction p = Response → is_Some (Pmp.result_code_opt p)) ∧
    (Pmp.opcode p = Pmp.MapTcp → ∃ d, Pmp.opcode_data p = Pmp.MapData d) ∧
    (Pmp.direction p = Response → Pmp.opcode p = Pmp.Get → ∃ e ip, Pmp.opcode_data p = Pmp.GetData (Pmp.MkGet e (Some ip)))) as Hparse.
  { intros d rest rc Hrc. destruct (Pmp.opcode_from b1) eqn:Eo; cbn [Pmp.parse_data].
    - destruct (pmp_get_total d rest) as (r & -> & Hr). destruct r as [[e o]|]; cbn; eexists; (split; [done|]); intros ? [= <-]; cbn.
      split; [done|]. split; [done|]. intros Hd _. destruct (Hr _ eq_refl Hd) as [ip Hip]. cbn in Hip. subst o. by eexists _, _.
    - destruct (pmp_map_total d rest) as ([x|] & ->); cbn; eexists; (split; [done|]); intros ? [= <-]; cbn. done.
    - destruct (pmp_map_total d rest) as ([x|] & ->); cbn; eexists; (split; [done|]); intros ? [= <-]; cbn. split; [done|]. split; [by eexists|done].
    - cbn. eexists. split; [done|]. by intros ? [= <-]. }
  destruct (direction_from b1); cbn [try_bind].
  - rewrite slice_from_ok by lia. cbn [mbind run_bind]. by apply Hparse.
  - destruct (Nat.ltb_spec (length bytes) 4); [by eexists|]. destruct (u16_at_total bytes 2) as [rc ->]; [lia|]. cbn [mbind run_bind try_bind].
    rewrite slice_from_ok by lia. cbn [mbind run_bind]. by apply Hparse.
Qed.

(** ** Exchanges return *)

Lemma length_pcp_bytes c ip nonce : length nonce = 12%nat → length (Pcp.packet_bytes (pcp_request c ip nonce)) = 60%nat.
Proof.
  intros Hn. unfold Pcp.packet_bytes. rewrite !length_app, Pcp.length_address_bytes. cbn [Pcp.opcode_data pcp_request Pcp.data_bytes].
  rewrite Pcp.length_map_bytes by done. rewrite ?length_be_digits. reflexivity.
Qed.

Lemma pcp_request_bytes c ip nonce : length nonce = 12%nat →
  expect_marshalled (Pcp.marshal (pcp_request c ip nonce) buffer) = Ret (Pcp.packet_bytes (pcp_request c ip nonce)).
Proof.
  intros Hn. unfold expect_marshalled. rewrite Pcp.pcp_marshal_spec by (cbn; by rewrite Hn). cbn [pcp_request Pcp.opcode_data Pcp.data_len].
  unfold buffer. rewrite length_replicate. cbn [Pcp.map_len]. change (1100 <? 24 + 36)%nat with false. cbn [mbind run_bind].
  f_equal. change (24 + 36)%nat with 60%nat. apply take_app_length'. by rewrite length_pcp_bytes.
Qed.

Lemma pmp_request_bytes p : (Pmp.header_len (Pmp.direction p) + Pmp.data_len (Pmp.opcode_data p) (Pmp.direction p) ≤ 1100)%nat →
  ∃ bytes, expect_marshalled (Pmp.marshal p buffer) = Ret bytes.
Proof.
  intros Hl. unfold expect_marshalled. rewrite Pmp.pmp_marshal_spec. cbv zeta. unfold buffer. rewrite length_replicate.
  destruct (Nat.ltb_spec 1100 (Pmp.header_len (Pmp.direction p) + Pmp.data_len (Pmp.opcode_data p) (Pmp.direction p))); [lia|]. cbn [mbind run_bind]. by eexists.
Qed.

Lemma compute_total p : Pcp.direction p = Response → Pcp.opcode p = Pcp.Map → (Pcp.direction p = Response → is_Some (Pcp.result_code_opt p)) →
  (Pcp.opcode p = Pcp.Map → ∃ d, Pcp.opcode_data p = Pcp.MapData d) → ∃ r, compute_mapping_result p = Ret r ∧ r ≠ Err PermanentLeasesOnly.
Proof.
  intros Hd Ho Hrc Hdata. destruct (Hrc Hd) as [rc Erc], (Hdata Ho) as [d Ed]. unfold compute_mapping_result. rewrite Erc, Ed. by destruct rc; eexists; (split; [reflexivity|]).
Qed.

Lemma pcp_answer_total x c : ∃ r c', pcp_answer x c = Ret (r, c') ∧ r ≠ Err PermanentLeasesOnly.
Proof.
  destruct x; cbn [pcp_answer]; try (by eexists _, _).
  destruct (Pcp.pcp_try_from_total (take 1100 bytes)) as (r & E & _). rewrite E. cbn [mbind run_bind].
  destruct r as [p|e]; [|by eexists _, _]. destruct (pcp_parsed _ _ E) as [Hrc Hd].
  destruct (Pcp.direction p) eqn:Ed; [by eexists _, _|]. destruct (Pcp.opcode p) eqn:Eo; try (by eexists _, _).
  destruct (compute_total p) as [[[l d]|e] [-> Hne]]; [done..|by rewrite Ed|by rewrite Eo| |]; eexists _, _; (split; [reflexivity|]); [done|congruence].
Qed.

Section exchanges.
Context {W : Type} `{!Network W}.
Context (Hnonce : ∀ w : W, length (mapping_nonce w) = 12%nat).

Lemma pcp_transact_total router c (w : W) : ∃ r c' w', pcp_transact router c w = Ret ((r, c'), w') ∧ r ≠ Err PermanentLeasesOnly.
Proof using Hnonce.
  unfold pcp_transact. rewrite (st_bind _ _ w (local_ip w) w) by done. rewrite (st_bind _ _ w (Transactors.mapping_nonce w) w) by done.
  destruct (local_ip w) as [ip|]; [|by eexists _, _, _].
  rewrite (st_bind _ _ w (Pcp.packet_bytes (pcp_request c ip (Transactors.mapping_nonce w))) w) by (unfold lift; by rewrite pcp_request_bytes).
  set (request := Pcp.packet_bytes _). destruct (udp router request w) as [x w'] eqn:Eu. rewrite (st_bind _ _ w x w') by (unfold change; by rewrite Eu).
  destruct (pcp_answer_total x c) as (r & c' & E & Hne). exists r, c', w'. unfold lift. by rewrite E.
Qed.

Lemma pmp_transact_total router p (w : W) : (Pmp.header_len (Pmp.direction p) + Pmp.data_len (Pmp.opcode_data p) (Pmp.direction p) ≤ 1100)%nat →
  ∃ r w', pmp_transact router p w = Ret (r, w') ∧ r ≠ Err PermanentLeasesOnly ∧ ∀ response, r = Ok response →
    (Pmp.direction response = Response → is_Some (Pmp.result_code_opt response)) ∧
    (Pmp.opcode response = Pmp.MapTcp → ∃ d, Pmp.opcode_data response = Pmp.MapData d) ∧
    (Pmp.direction response = Response → Pmp.opcode response = Pmp.Get → ∃ e ip, Pmp.opcode_data response = Pmp.GetData (Pmp.MkGet e (Some ip))).
Proof using Type.
  intros Hl. destruct (pmp_request_bytes p Hl) as [bytes Hb]. unfold pmp_transact. rewrite (st_bind _ _ w bytes w) by (unfold lift; by rewrite Hb).
  destruct (udp router bytes w) as [x w'] eqn:Eu. rewrite (st_bind _ _ w x w') by (unfold change; by rewrite Eu).
  destruct x as [| | | |answer]; try (by eexists _, _).
  destruct (pmp_parsed (take 1100 answer)) as (r & E & Hr). rewrite (st_bind _ _ w' r w') by (unfold lift; by rewrite E).
  eexists _, w'. split; [done|]. split; [by destruct r|]. destruct r as [q|]; [|done]. intros ? [= <-]. by apply Hr.
Qed.

Lemma pmp_map_returns router c (w : W) : ∃ r c' w', pmp_map router c w = Ret ((r, c'), w') ∧ r ≠ Err PermanentLeasesOnly.
Proof using Type.
  unfold pmp_map. destruct (pmp_transact_total router (pmp_request c) w) as (r & w' & E & Hne & Hr); [cbn; lia|]. rewrite (st_bind _ _ _ _ _ E).
  destruct r as [p|e]; [|eexists _, _, _; split; [done|congruence]]. destruct (Hr p eq_refl) as (Hrc & Hd & _).
  destruct (Pmp.direction p) eqn:Ed; [by eexists _, _, _|]. destruct (Pmp.opcode p) eqn:Eo; try (by eexists _, _, _).
  destruct (Hd eq_refl) as [d ->]. destruct (Hrc eq_refl) as [rc ->]. destruct rc; eexists _, _, _; (split; [reflexivity|done]).
Qed.

(** ** Turns return *)

(** Intervals are only set for a mapping the thread knows. *)
Fixpoint queue_safe (known : bool) (q : list HousekeepingThreadCommand) : Prop :=
  match q with
  | [] => True
  | Stop :: q => queue_safe known q
  | SetRemapIntervalMs _ :: q => known = true ∧ queue_safe known q
  | InitializeMappingConfig _ :: q => queue_safe true q
  end.

Definition told (t : Thread) : Prop := is_Some (th_config t) ∨ ∃ c, InitializeMappingConfig c ∈ th_queue t.

Definition thread_safe (p : AutomapProtocol) (gateway : option Z) (t : Thread) : Prop :=
  p = Igdp → queue_safe (bool_decide (is_Some (th_config t))) (th_queue t) ∧ (told t → is_Some gateway).

Lemma pcp_rest_returns t (w : W) : ∃ ch t' w', pcp_rest_of_turn t w = Ret ((ch, Some t'), w') ∧ th_queue t' = th_queue t ∧
  (is_Some (th_config t) → is_Some (th_config t')).
Proof using Hnonce.
  unfold pcp_rest_of_turn. set (w1 := sleep (from_millis HOUSEKEEPING_THREAD_LOOP_DELAY_MILLIS) w). rewrite (st_bind _ _ w () w1) by done.
  rewrite (st_bind _ _ w1 (now w1) w1) by done. destruct (th_config t) as [c|] eqn:Ec; [|by eexists _, _, _].
  destruct (remap_interval c <? now w1 - th_last_remapped t); [|eexists _, t, _; split; [done|]; by rewrite Ec].
  unfold pcp_remap_port. set (c1 := MkConfig _ _ _). destruct (pcp_transact_total (th_router t) c1 w1) as (r & c' & w2 & E & _).
  set (r' := match r with Ok (l, _) => Ok l | Err e => Err e end).
  rewrite (st_bind _ _ w1 (r', c') w2) by (rewrite (st_bind _ _ _ _ _ E); done). by eexists _, _, _.
Qed.

Lemma pmp_remap_returns t (w : W) : ∃ ch t' w', pmp_maybe_remap t w = Ret ((ch, t'), w') ∧ th_queue t' = th_queue t ∧
  (is_Some (th_config t) → is_Some (th_config t')).
Proof using Type.
  unfold pmp_maybe_remap. destruct (th_config t) as [c|] eqn:Ec; [|by eexists _, _, _]. rewrite (st_bind _ _ w (now w) w) by done.
  destruct (remap_interval c <? now w - th_last_remapped t); [|eexists _, t, _; split; [done|]; by rewrite Ec].
  unfold pmp_remap_port. match goal with |- context [pmp_map _ ?c1] => destruct (pmp_map_returns (th_router t) c1 w) as (r & c' & w2 & E & _) end.
  rewrite (st_bind _ _ _ _ _ E). by eexists _, _, _.
Qed.

Lemma igdp_map_returns port lifetime (w : W) : ∃ r w', igdp_map port lifetime w = Ret (r, w').
Proof using Type.
  unfold igdp_map. rewrite (st_bind _ _ w (local_ip w) w) by done. destruct (local_ip w) as [[ip|ip]|]; [|by eexists _, _..].
  destruct (add_port port ip lifetime w) as [x w'] eqn:E. rewrite (st_bind _ _ w x w') by (unfold change; by rewrite E). by eexists _, _.
Qed.

Lemma igdp_remap_returns gateway t (w : W) : (is_Some (th_config t) → is_Some gateway) →
  ∃ ch t' w', remap_if_necessary gateway t w = Ret ((ch, t'), w') ∧ th_queue t' = th_queue t ∧ th_config t' = th_config t.
Proof using Type.
  intros Hg. unfold remap_if_necessary. destruct (th_config t) as [c|] eqn:Ec; [|by eexists _, t, _]. rewrite (st_bind _ _ w (now w) w) by done.
  destruct (remap_interval c <? now w - th_last_remapped t); [|by eexists _, t, _].
  unfold remap_if_possible. destruct (0 <? as_secs (next_lifetime c)); [|by eexists _, _, _].
  destruct (Hg ltac:(done)) as [g ->]. unfold igdp_remap_port.
  match goal with |- context [igdp_map ?port ?l] => destruct (igdp_map_returns port l w) as (r & w1 & E) end.
  rewrite (st_bind _ _ w match r with Ok _ => [] | Err e => [ChangeError e] end w1) by (by rewrite (st_bind _ _ _ _ _ E)). by eexists _, _, _.
Qed.

(** What a thread was told it knows when the command was taken. *)
Lemma told_taken t q : th_queue t = q → told t → is_Some (th_config t) ∨
  match q with InitializeMappingConfig _ :: _ => True | _ => ∃ c, InitializeMappingConfig c ∈ tail q end.
Proof using Type.
  intros Hq [H|(c & Hc)]; [by left|]. rewrite Hq in Hc. right. destruct q as [|d q]; [by apply elem_of_nil in Hc|].
  apply elem_of_cons in Hc as [<-|Hc]; [done|]. destruct d; try done; by exists c.
Qed.

(** A turn takes one command, and ends the thread exactly when that is to stop. *)
Definition turns (p : AutomapProtocol) (gateway : option Z) (t : Thread) (w : W) : Prop :=
  match th_queue t with
  | Stop :: _ => ∃ ch w', turn p gateway t w = Ret ((ch, None), w')
  | q => ∃ ch t' w', turn p gateway t w = Ret ((ch, Some t'), w') ∧ th_queue t' = tail q ∧ thread_safe p gateway t' ∧ (told t → told t')
  end.

Lemma pcp_turns gateway t w : turns Pcp gateway t w.
Proof using Hnonce.
  unfold turns. destruct (th_queue t) as [|[|ms|c] q] eqn:Eq; cbn [turn]; unfold pcp_iteration; rewrite Eq.
  - destruct (pcp_rest_returns t w) as (ch & t' & w' & E & Hq & Hc). exists ch, t', w'. split; [done|]. split; [by rewrite Hq|]. split; [done|].
    intros [H|(c & Hin)]%(told_taken t _ Eq); [left; by apply Hc|by apply elem_of_nil in Hin].
  - by eexists _, _.
  - set (t0 := set_config _ _). destruct (pcp_rest_returns t0 w) as (ch & t' & w' & E & Hq & Hc). exists ch, t', w'. split; [done|]. split; [by rewrite Hq|].
    split; [done|]. intros [[c Hcfg]|(c & Hin)]%(told_taken t _ Eq); [left; apply Hc; cbn; by rewrite Hcfg|right; exists c; by rewrite Hq].
  - set (t0 := set_config _ _). destruct (pcp_rest_returns t0 w) as (ch & t' & w' & E & Hq & Hc). exists ch, t', w'. split; [done|]. split; [by rewrite Hq|].
    split; [done|]. intros _. left. by apply Hc.
Qed.

Lemma pmp_turns gateway t w : turns Pmp gateway t w.
Proof using Type.
  unfold turns. cbn [turn]. unfold pmp_iteration. destruct (pmp_remap_returns t w) as (ch & t1 & w1 & E & Hq & Hc).
  destruct (th_queue t) as [|[|ms|c] q] eqn:Eq; rewrite (st_bind _ _ _ _ _ E), Hq.
  - eexists ch, t1, _. split; [done|]. split; [done|]. split; [done|]. intros [H|(c & Hin)]%(told_taken t _ Eq); [left; by apply Hc|by apply elem_of_nil in Hin].
  - by eexists _, _.
  - eexists ch, _, _. split; [done|]. split; [done|]. split; [done|]. intros [H|(c & Hin)]%(told_taken t _ Eq); [left; by apply Hc|right; by exists c].
  - eexists ch, _, _. split; [done|]. split; [done|]. split; [done|]. intros _. by left.
Qed.

Lemma igdp_turns gateway t w : thread_safe Igdp gateway t → turns Igdp gateway t w.
Proof using Type.
  intros Hsafe. destruct (Hsafe eq_refl) as [Hq Hg]. unfold turns. cbn [turn]. unfold igdp_iteration.
  set (w1 := sleep (from_millis HOUSEKEEPING_THREAD_LOOP_DELAY_MS) w).
  assert (∃ ch t1 w2, (if th_last_check t + from_secs PUBLIC_IP_POLL_DELAY_SECONDS <? now w1 then remap_if_necessary gateway (set_last_check t (now w1))
    else mret ([], t)) w1 = Ret ((ch, t1), w2) ∧ th_queue t1 = th_queue t ∧ th_config t1 = th_config t) as (ch & t1 & w2 & E & Hq1 & Hc1).
  { destruct (_ <? _); [|by eexists _, t, _]. destruct (igdp_remap_returns gateway (set_last_check t (now w1)) w1) as (ch & t1 & w2 & E & ? & ?).
    - intros H. apply Hg. by left.
    - by exists ch, t1, w2. }
  destruct (th_queue t) as [|[|ms|c] q] eqn:Eq; rewrite (st_bind _ _ w () w1), (st_bind _ _ w1 (now w1) w1), (st_bind _ _ _ _ _ E), Hq1 by done; cbn [tail].
  - eexists ch, t1, w2. split; [done|]. split; [done|]. split.
    + intros _. unfold told. rewrite Hq1, Hc1. split; [done|]. intros [H|(c & Hin)]; [apply Hg; by left|by apply elem_of_nil in Hin].
    + intros [H|(c & Hin)]%(told_taken t _ Eq); [left; by rewrite Hc1|by apply elem_of_nil in Hin].
  - by eexists _, _.
  - destruct Hq as [Hk Hq]. apply bool_decide_eq_true in Hk as [c Hc]. rewrite Hc1, Hc. eexists ch, _, w2. split; [done|]. split; [done|]. split.
    + intros _. split; [by rewrite Hc in Hq|]. intros _. apply Hg. left. by rewrite Hc.
    + intros _. by left.
  - eexists ch, _, w2. split; [done|]. split; [done|]. split.
    + intros _. split; [done|]. intros _. apply Hg. right. exists c. rewrite Eq. left.
    + intros _. by left.
Qed.

Lemma turn_spec p gateway t (w : W) : thread_safe p gateway t → turns p gateway t w.
Proof using Hnonce. destruct p; [intros _; apply pmp_turns|intros _; apply pcp_turns|apply igdp_turns]. Qed.

(** ** The machine keeps its threads in order *)

(** A commander is that of the transactor's running thread, or, for IGDP, of one that ended. *)
Definition link_ok (p : AutomapProtocol) (m : Machine (W := W)) : Prop :=
  ∀ tid, housekeeper_commander_opt (link p m) = Some tid →
    (∃ t, m_threads m !! tid = Some (Live p t) ∧ join_handle_opt (link p m) = Some tid ∧ thread_safe p (gateway_opt m) t ∧ Stop ∉ th_queue t) ∨
    p = Igdp ∧ m_threads m !! tid = Some Ended.

Definition machine_good (m : Machine (W := W)) : Prop := ∀ p, link_ok p m.

Definition machine_runs (p : AutomapProtocol) (m : Machine (W := W)) : option nat :=
  tid ← housekeeper_commander_opt (link p m); match m_threads m !! tid with Some (Live _ _) => Some tid | _ => None end.

Definition machine_spent (p : AutomapProtocol) (m : Machine (W := W)) : bool :=
  match housekeeper_commander_opt (link p m) with
  | Some tid => match m_threads m !! tid with Some (Live _ _) => false | _ => true end
  | None => false
  end.

Definition machine_mapped (p : AutomapProtocol) (m : Machine (W := W)) : Prop :=
  ∃ tid t, housekeeper_commander_opt (link p m) = Some tid ∧ m_threads m !! tid = Some (Live p t) ∧ told t.

Definition machine_keeps (m m' : Machine (W := W)) : Prop :=
  machine_good m' ∧ (∀ p, machine_runs p m' = machine_runs p m) ∧ (∀ p, machine_spent p m' = machine_spent p m).

Definition similar (m m' : Machine (W := W)) : Prop := (∀ p, link p m' = link p m) ∧ (is_Some (gateway_opt m) → is_Some (gateway_opt m')).

Lemma thread_safe_similar p g g' t : (is_Some g → is_Some g') → thread_safe p g t → thread_safe p g' t.
Proof using Type. intros Hg H Hp. destruct (H Hp) as [? ?]. split; [done|]. intros ?. by apply Hg, H1. Qed.

Lemma running p m tid : machine_good m → machine_runs p m = Some tid → housekeeper_commander_opt (link p m) = Some tid ∧
  ∃ t, m_threads m !! tid = Some (Live p t) ∧ join_handle_opt (link p m) = Some tid ∧ thread_safe p (gateway_opt m) t ∧ Stop ∉ th_queue t.
Proof using Type.
  intros Hg Hr. unfold machine_runs in Hr. apply bind_Some in Hr as (tid' & Hc & Hr).
  destruct (Hg p tid' Hc) as [(t & Ht & Hrest)|[_ Ht]]; rewrite Ht in Hr; [injection Hr as <-|done]. split; [done|]. by exists t.
Qed.

(** No other transactor holds a thread of this one. *)
Lemma thread_owned p q m tid t : machine_good m → m_threads m !! tid = Some (Live p t) → housekeeper_commander_opt (link q m) = Some tid → q = p.
Proof using Type. intros Hg Ht Hq. destruct (Hg q tid Hq) as [(t' & Ht' & _)|[_ Ht']]; congruence. Qed.

(** Another state in the place of a thread that runs. *)
Lemma keeps_update p m m' tid t t' : machine_good m → m_threads m !! tid = Some (Live p t) → housekeeper_commander_opt (link p m) = Some tid →
  similar m m' → m_threads m' = <[tid := Live p t']> (m_threads m) → thread_safe p (gateway_opt m') t' → Stop ∉ th_queue t' → machine_keeps m m'.
Proof using Type.
  intros Hg Ht Hc [Hl Hgw] Hts Hsafe Hstop.
  assert (∀ q tid', housekeeper_commander_opt (link q m) = Some tid' → q ≠ p → tid' ≠ tid) as Hother.
  { intros q tid' Hq Hne ->. apply Hne. by eapply thread_owned. }
  assert (tid < length (m_threads m))%nat as Hlt by (by eapply lookup_lt_Some). split; [|split].
  - intros q tid' Hq. rewrite Hl in *. rewrite Hts. destruct (decide (q = p)) as [->|Hne].
    + assert (tid' = tid) as -> by congruence. left. exists t'. rewrite list_lookup_insert_eq by done. split; [done|]. split; [|done].
      destruct (Hg p tid Hc) as [(? & _ & ? & _)|[_ ?]]; congruence.
    + rewrite list_lookup_insert_ne by (symmetry; by eapply Hother). destruct (Hg q tid' Hq) as [(u & Hu & Hj & Hs & Hst)|?]; [left|by right].
      exists u. split; [done|]. split; [done|]. split; [by eapply thread_safe_similar|done].
  - intros q. unfold machine_runs. rewrite Hl, Hts. destruct (housekeeper_commander_opt (link q m)) as [tid'|] eqn:Eq; [|done]. cbn.
    destruct (decide (tid' = tid)) as [->|Hne]; [by rewrite list_lookup_insert_eq, Ht|by rewrite list_lookup_insert_ne].
  - intros q. unfold machine_spent. rewrite Hl, Hts. destruct (housekeeper_commander_opt (link q m)) as [tid'|] eqn:Eq; [|done].
    destruct (decide (tid' = tid)) as [->|Hne]; [by rewrite list_lookup_insert_eq, Ht|by rewrite list_lookup_insert_ne].
Qed.

Lemma keeps_same m m' : machine_good m → similar m m' → m_threads m' = m_threads m → machine_keeps m m'.
Proof using Type.
  intros Hg [Hl Hgw] Hts. split; [|split; intros q; unfold machine_runs, machine_spent; by rewrite Hl, Hts].
  intros q tid Hq. rewrite Hl in *. rewrite Hts. destruct (Hg q tid Hq) as [(u & Hu & Hj & Hs & Hst)|?]; [left|by right].
  exists u. split; [done|]. split; [done|]. split; [by eapply thread_safe_similar|done].
Qed.

(** A thread that nobody holds does not matter. *)
Lemma keeps_stray m m' tid s : machine_good m → (∀ p, housekeeper_commander_opt (link p m) ≠ Some tid) → similar m m' →
  m_threads m' = <[tid := s]> (m_threads m) → machine_keeps m m'.
Proof using Type.
  intros Hg Hno [Hl Hgw] Hts.
  assert (∀ q tid', housekeeper_commander_opt (link q m) = Some tid' → m_threads m' !! tid' = m_threads m !! tid') as Heq.
  { intros q tid' Hq. rewrite Hts. apply list_lookup_insert_ne. intros ->. by apply (Hno q). }
  split; [|split].
  - intros q tid' Hq. rewrite Hl in *. rewrite (Heq q) by done. destruct (Hg q tid' Hq) as [(u & Hu & Hj & Hs & Hst)|?]; [left|by right].
    exists u. split; [done|]. split; [done|]. split; [by eapply thread_safe_similar|done].
  - intros q. unfold machine_runs. rewrite Hl. destruct (housekeeper_commander_opt (link q m)) as [tid'|] eqn:Eq; [|done]. cbn. by rewrite (Heq q).
  - intros q. unfold machine_spent. rewrite Hl. destruct (housekeeper_commander_opt (link q m)) as [tid'|] eqn:Eq; [|done]. by rewrite (Heq q).
Qed.

(** The turns of threads, of any thread at any time. *)
Lemma tick_keeps m tid : machine_good m → machine_keeps m (tick tid m).
Proof using Hnonce.
  intros Hg. unfold tick. destruct (m_threads m !! tid) as [[p t| |]|] eqn:Et; [|by apply keeps_same..].
  destruct (decide (housekeeper_commander_opt (link p m) = Some tid)) as [Hc|Hc].
  - destruct (Hg p tid Hc) as [(t' & Ht' & _ & Hs & Hstop)|[_ ?]]; [|congruence]. assert (t' = t) as -> by congruence.
    pose proof (turn_spec p (gateway_opt m) t (m_net m) Hs) as Hturn. unfold turns in Hturn.
    assert (∃ ch t' w', turn p (gateway_opt m) t (m_net m) = Ret ((ch, Some t'), w') ∧ th_queue t' = tail (th_queue t) ∧ thread_safe p (gateway_opt m) t')
      as (ch & t' & w' & E & Hq & Hs').
    { destruct (th_queue t) as [|[|ms|c] q]; [| |naive_solver..]; [naive_solver|]. exfalso. apply Hstop. left. }
    rewrite E. eapply keeps_update; [done|exact Et|done|done|done|done|]. rewrite Hq. intros Hin. apply Hstop. destruct (th_queue t); [done|by right].
  - assert (∀ q, housekeeper_commander_opt (link q m) ≠ Some tid) as Hno.
    { intros q Hq. assert (q = p) as -> by (by eapply thread_owned). done. }
    destruct (turn p (gateway_opt m) t (m_net m)) as [[[ch t'] w']|]; by eapply keeps_stray.
Qed.

(** ** Commands *)

Lemma queue_safe_app b q d : queue_safe b q → match d with SetRemapIntervalMs _ => b = true ∨ (∃ c, InitializeMappingConfig c ∈ q) | _ => True end →
  queue_safe b (q ++ [d]).
Proof using Type.
  revert b. induction q as [|[|ms|c] q IH]; intros b Hq Hd; cbn [app queue_safe] in *.
  - destruct d; try done. destruct Hd as [->|(c & Hc)]; [done|by apply elem_of_nil in Hc].
  - apply IH; [done|]. destruct d; try done. destruct Hd as [?|(c & [?|?]%elem_of_cons)]; [by left|done|right; by exists c].
  - destruct Hq as [-> Hq]. split; [done|]. apply IH; [done|]. destruct d; try done. by left.
  - apply IH; [done|]. destruct d; try done. by left.
Qed.

Lemma send_runs p m tid d : machine_good m → machine_runs p m = Some tid → d ≠ Stop →
  (p = Igdp → match d with SetRemapIntervalMs _ => machine_mapped p m | InitializeMappingConfig _ => is_Some (gateway_opt m) | Stop => True end) →
  ∃ m', send tid d m = Ret (true, m') ∧ machine_keeps m m' ∧ (∀ c, d = InitializeMappingConfig c → machine_mapped p m').
Proof using Type.
  intros Hg Hr Hne Hd. destruct (running _ _ _ Hg Hr) as (Hc & t & Ht & Hj & Hs & Hstop). unfold send, change. rewrite Ht. eexists. split; [done|].
  assert (tid < length (m_threads m))%nat as Hlt by (by eapply lookup_lt_Some). split.
  - eapply keeps_update; [done|exact Ht|done|done|done| |].
    + intros Hp. destruct (Hs Hp) as [Hq Hgw]. cbn [th_queue th_config set_queue]. split.
      * apply queue_safe_app; [done|]. destruct d; try done. destruct (Hd Hp) as (tid' & t' & Hc' & Ht' & Htold).
        assert (tid' = tid) as -> by congruence. assert (t' = t) as -> by congruence. destruct Htold as [?|?]; [left; by apply bool_decide_eq_true|by right].
      * intros [H|(c & Hin)]; [apply Hgw; by left|]. cbn in Hin. apply elem_of_app in Hin as [Hin|Hin]; [apply Hgw; right; by exists c|].
        apply list_elem_of_singleton in Hin as <-. by apply Hd.
    + cbn. rewrite elem_of_app, list_elem_of_singleton. naive_solver.
  - intros c ->. exists tid, (set_queue t (th_queue t ++ [InitializeMappingConfig c])). split; [done|]. cbn. rewrite list_lookup_insert_eq by done. split; [done|].
    right. exists c. cbn. apply elem_of_app. right. left.
Qed.

Lemma initialize_runs p c m : machine_good m → is_Some (machine_runs p m) → (p = Igdp → is_Some (gateway_opt m)) →
  ∃ m', initialize_mapping p c m = Ret ((), m') ∧ machine_keeps m m' ∧ machine_mapped p m'.
Proof using Type.
  intros Hg [tid Hr] Hgw. destruct (running _ _ _ Hg Hr) as (Hc & _). destruct (send_runs p m tid (InitializeMappingConfig c)) as (m' & E & Hk & Hm); [done..|].
  exists m'. unfold initialize_mapping. rewrite (st_bind _ _ m (link p m) m) by done. rewrite Hc, (st_bind _ _ _ _ _ E). split; [done|]. split; [done|]. by eapply Hm.
Qed.

Lemma link_set p q l (m : Machine (W := W)) : link q (set_link p l m) = if decide (q = p) then l else link q m.
Proof using Type. by destruct p, q. Qed.

Lemma start_runs p router m : machine_good m → machine_runs p m = None → machine_spent p m = false →
  ∃ tid m', start_housekeeping_thread p router m = Ret (Ok tid, m') ∧ machine_good m' ∧ machine_runs p m' = Some tid ∧
    (∀ q, q ≠ p → machine_runs q m' = machine_runs q m) ∧ ∀ q, machine_spent q m' = machine_spent q m.
Proof using Type.
  intros Hg Hr Hs. unfold start_housekeeping_thread. unfold machine_runs, machine_spent in Hr, Hs.
  destruct (housekeeper_commander_opt (link p m)) as [tid|] eqn:Ec.
  { cbn in Hr. by destruct (m_threads m !! tid) as [[]|]. }
  eexists _, _. split; [done|]. set (m1 := set_threads m _). set (l := MkLink _ _).
  assert (∀ tid s, m_threads m !! tid = Some s → m_threads m1 !! tid = Some s) as Hold by (intros; by apply lookup_app_l_Some).
  assert (m_threads m1 !! length (m_threads m) = Some (Live p (MkThread router [] None (now (m_net m)) (now (m_net m))))) as Hnew.
  { cbn. rewrite lookup_app_r by lia. by rewrite Nat.sub_diag. }
  assert (∀ q tid, housekeeper_commander_opt (link q m) = Some tid → m_threads m1 !! tid = m_threads m !! tid) as Heq.
  { intros q tid Hq. destruct (Hg q tid Hq) as [(u & Hu & _)|[_ Hu]]; rewrite Hu; by apply Hold. }
  assert (∀ q, link q m1 = link q m) as Hl by (by intros []).
  split; [|split; [|split]].
  - intros q tid Hq. rewrite link_set, Hl in *. change (m_threads (set_link p l m1)) with (m_threads m1). change (gateway_opt (set_link p l m1)) with (gateway_opt m).
    destruct (decide (q = p)) as [->|Hne].
    + injection Hq as <-. left. eexists. split; [exact Hnew|]. split; [done|]. split; [|by apply not_elem_of_nil].
      intros _. split; [done|]. intros [[? ?]|(c & Hin)]; [done|by apply elem_of_nil in Hin].
    + rewrite (Heq q) by done. by apply Hg.
  - unfold machine_runs. rewrite link_set, decide_True by done. cbn [housekeeper_commander_opt l mbind option_bind].
    change (m_threads (set_link p l m1)) with (m_threads m1). by rewrite Hnew.
  - intros q Hne. unfold machine_runs. rewrite link_set, decide_False, Hl by done. change (m_threads (set_link p l m1)) with (m_threads m1).
    destruct (housekeeper_commander_opt (link q m)) as [tid|] eqn:Eq; [|done]. cbn. by rewrite (Heq q).
  - intros q. unfold machine_spent. rewrite link_set, Hl. change (m_threads (set_link p l m1)) with (m_threads m1).
    destruct (decide (q = p)) as [->|Hne]; [cbn [l housekeeper_commander_opt]; by rewrite Hnew, Ec|].
    destruct (housekeeper_commander_opt (link q m)) as [tid|] eqn:Eq; [|done]. by rewrite (Heq q).
Qed.

(** A thread told to stop goes through its commands and ends. *)
Lemma run_out_ends p q : Stop ∉ q → ∀ t tid (m : Machine (W := W)), m_threads m !! tid = Some (Live p t) → th_queue t = q ++ [Stop] →
  thread_safe p (gateway_opt m) t → let m' := run_out (length (q ++ [Stop])) tid m in
  m_threads m' = <[tid := Ended]> (m_threads m) ∧ (∀ r, link r m' = link r m) ∧ gateway_opt m' = gateway_opt m.
Proof using Hnonce.
  induction q as [|d q IH]; intros Hns t tid m Ht Hq Hs; cbn [app length run_out]; rewrite Ht.
  - pose proof (turn_spec p (gateway_opt m) t (m_net m) Hs) as Hturn. unfold turns in Hturn. rewrite Hq in Hturn. destruct Hturn as (ch & w' & E).
    unfold tick. rewrite Ht, E. split; [done|]. split; [by intros []|done].
  - pose proof (turn_spec p (gateway_opt m) t (m_net m) Hs) as Hturn. unfold turns in Hturn. rewrite Hq in Hturn.
    assert (∃ ch t' w', turn p (gateway_opt m) t (m_net m) = Ret ((ch, Some t'), w') ∧ th_queue t' = q ++ [Stop] ∧ thread_safe p (gateway_opt m) t')
      as (ch & t' & w' & E & Hq' & Hs').
    { destruct d; cbn [app] in Hturn; [|naive_solver..]. exfalso. apply Hns. left. }
    assert (tid < length (m_threads m))%nat as Hlt by (by eapply lookup_lt_Some).
    assert (m_threads (tick tid m) = <[tid := Live p t']> (m_threads m)) as Hts by (unfold tick; by rewrite Ht, E).
    assert ((∀ r, link r (tick tid m) = link r m) ∧ gateway_opt (tick tid m) = gateway_opt m) as [Hl Hgw] by (unfold tick; rewrite Ht, E; by split; [intros []|]).
    destruct (IH ltac:(set_solver) t' tid (tick tid m)) as (H1 & H2 & H3); [by rewrite Hts, list_lookup_insert_eq|done|by rewrite Hgw|].
    cbv zeta. rewrite H1, Hts, list_insert_insert_eq. split; [done|]. split; [intros r; by rewrite H2|by rewrite H3].
Qed.

Lemma stop_runs p m : machine_good m → is_Some (machine_runs p m) →
  ∃ m', stop_housekeeping_thread p m = Ret (Ok (), m') ∧ machine_good m' ∧ machine_runs p m' = None ∧
    (∀ q, q ≠ p → machine_runs q m' = machine_runs q m) ∧ (∀ q, q ≠ p → machine_spent q m' = machine_spent q m) ∧
    (p ≠ Igdp → machine_spent p m' = machine_spent p m).
Proof using Hnonce.
  intros Hg [tid Hr]. destruct (running _ _ _ Hg Hr) as (Hc & t & Ht & Hj & Hs & Hstop).
  unfold stop_housekeeping_thread. rewrite (st_bind _ _ m (link p m) m) by done. rewrite Hc, Hj.
  set (left := match p with Igdp => Some tid | _ => None end). set (m1 := set_link p (MkLink left (Some tid)) m). rewrite (st_bind _ _ m () m1) by done.
  set (t1 := set_queue t (th_queue t ++ [Stop])). set (m2 := set_threads m1 (<[tid := Live p t1]> (m_threads m))).
  rewrite (st_bind _ _ m1 true m2) by (unfold send, change; change (m_threads m1) with (m_threads m); by rewrite Ht). cbn [negb].
  set (m3 := set_link p (MkLink left None) m2). rewrite (st_bind _ _ m2 () m3) by done.
  assert (tid < length (m_threads m))%nat as Hlt by (by eapply lookup_lt_Some).
  assert (m_threads m3 !! tid = Some (Live p t1)) as Ht3 by (cbn; by rewrite list_lookup_insert_eq).
  destruct (run_out_ends p (th_queue t) Hstop t1 tid m3 Ht3 eq_refl) as (Hts & Hl & Hgw).
  { intros Hp. destruct (Hs Hp) as [Hq Hgw]. split; [by apply queue_safe_app|]. intros [H|(c & Hin)]; [apply Hgw; by left|]. cbn in Hin.
    apply elem_of_app in Hin as [Hin|Hin]; [apply Hgw; right; by exists c|]. by apply list_elem_of_singleton in Hin. }
  set (m4 := run_out _ tid m3) in *. assert (m_threads m4 = <[tid := Ended]> (m_threads m)) as Hts4.
  { rewrite Hts. change (m_threads m3) with (<[tid := Live p t1]> (m_threads m)). by rewrite list_insert_insert_eq. }
  assert (∀ q, link q m4 = if decide (q = p) then MkLink left None else link q m) as Hl4.
  { intros q. rewrite Hl. unfold m3. rewrite link_set. destruct (decide (q = p)); [done|]. destruct q, p; done. }
  exists m4. rewrite (st_bind _ _ m3 true m4).
  2:{ unfold join. rewrite Ht3. cbn [th_queue t1 set_queue]. fold m4. by rewrite Hts4, list_lookup_insert_eq. }
  split; [done|].
  assert (∀ q tid', q ≠ p → housekeeper_commander_opt (link q m) = Some tid' → m_threads m4 !! tid' = m_threads m !! tid') as Heq.
  { intros q tid' Hne Hq. rewrite Hts4. apply list_lookup_insert_ne. intros ->. apply Hne. by eapply thread_owned. }
  split; [|split; [|split; [|split]]].
  - intros q tid' Hq. rewrite Hl4 in *. assert (gateway_opt m4 = gateway_opt m) as -> by done. destruct (decide (q = p)) as [->|Hne].
    + cbn in Hq. right. unfold left in Hq. destruct p; try done. injection Hq as <-. split; [done|]. by rewrite Hts4, list_lookup_insert_eq.
    + rewrite (Heq q) by done. by apply Hg.
  - unfold machine_runs. rewrite Hl4, decide_True by done. cbn. unfold left. destruct p; try done. cbn. by rewrite Hts4, list_lookup_insert_eq.
  - intros q Hne. unfold machine_runs. rewrite Hl4, decide_False by done. destruct (housekeeper_commander_opt (link q m)) as [tid'|] eqn:Eq; [|done]. cbn. by rewrite (Heq q).
  - intros q Hne. unfold machine_spent. rewrite Hl4, decide_False by done. destruct (housekeeper_commander_opt (link q m)) as [tid'|] eqn:Eq; [|done]. by rewrite (Heq q).
  - intros Hne. unfold machine_spent. rewrite Hl4, decide_True by done. cbn. rewrite Hc, Ht. unfold left. by destruct p.
Qed.

(** ** The transactors of the program *)

Definition transactors : list (Transactor (Machine (W := W))) := [PcpTransactor; PmpTransactor; IgdpTransactor].

(** Routers answer a PMP request for the public address with a response to it, if
    with a packet at all. *)
Context (Hpmp : ∀ router (w : W) bytes w' p, udp router (Pmp.packet_bytes pmp_get_request) w = (Datagram bytes, w') →
  Pmp.try_from (take 1100 bytes) = Ret (Ok p) → Pmp.direction p = Response ∧ Pmp.opcode p = Pmp.Get).

Lemma keeps_net m w : machine_good m → machine_keeps m (set_net m w).
Proof using Type. intros Hg. apply keeps_same; [done| |done]. split; [by intros []|done]. Qed.

Lemma on_net_ret {A} (f : St W A) m x w' : f (m_net m) = Ret (x, w') → on_net f m = Ret (x, set_net m w').
Proof using Type. intros H. unfold on_net. by rewrite H. Qed.

Lemma keeps_trans a b c : machine_keeps a b → machine_keeps b c → machine_keeps a c.
Proof using Type. intros (_ & H1 & H2) (? & H3 & H4). split; [done|]. split; intros p; [by rewrite H3, H1|by rewrite H4, H2]. Qed.

Lemma keeps_refl m : machine_good m → machine_keeps m m.
Proof using Type. done. Qed.

Lemma keeps_runs p m m' : machine_keeps m m' → is_Some (machine_runs p m) → is_Some (machine_runs p m').
Proof using Type. intros (_ & Hr & _). by rewrite Hr. Qed.

Lemma gateway_returns m : machine_good m → ∃ r m', ensure_gateway m = Ret (r, m') ∧ machine_keeps m m' ∧ (r = Ok () → is_Some (gateway_opt m')).
Proof using Type.
  intros Hg. unfold ensure_gateway. destruct (gateway_opt m) as [g|] eqn:E; [by eexists _, m|].
  destruct (search_gateway (m_net m)) as [g|]; [|by eexists _, m]. eexists _, _. split; [done|]. split; [|done]. apply keeps_same; [done| |done].
  split; [by intros []|done].
Qed.

Lemma pmp_ip_returns router (w : W) : ∃ r w', pmp_get_public_ip router w = Ret (r, w').
Proof using Hpmp.
  unfold pmp_get_public_ip, or_fail. destruct (pmp_transact_total router pmp_get_request w) as (r & w' & E & _ & Hr); [cbn; lia|].
  rewrite (st_bind _ _ _ _ _ E). destruct r as [p|e]; [|by eexists _, _]. destruct (Hr p eq_refl) as (Hrc & _ & Hget).
  assert (Pmp.direction p = Response ∧ Pmp.opcode p = Pmp.Get) as [Hd Ho].
  { unfold pmp_transact in E. rewrite (st_bind _ _ w (Pmp.packet_bytes pmp_get_request) w) in E by (vm_compute; reflexivity).
    destruct (udp router (Pmp.packet_bytes pmp_get_request) w) as [x w1] eqn:Eu. rewrite (st_bind _ _ w x w1) in E by (unfold change; by rewrite Eu).
    destruct x as [| | | |bytes]; try done. destruct (pmp_parsed (take 1100 bytes)) as (r & Ep & _).
    rewrite (st_bind _ _ w1 r w1) in E by (unfold lift; by rewrite Ep). destruct r as [q|]; [|done]. injection E as -> _. by eapply Hpmp. }
  destruct (Hrc Hd) as [rc ->], (Hget Hd Ho) as (e & ip & ->). destruct rc; by eexists _, _.
Qed.

Lemma pcp_add_returns router port lifetime m : machine_good m → is_Some (machine_runs Pcp m) →
  ∃ r m', pcp_add_mapping router port lifetime m = Ret (r, m') ∧ machine_keeps m m' ∧ (∀ x, r = Ok x → machine_mapped Pcp m') ∧ r ≠ Err PermanentLeasesOnly.
Proof using Hnonce.
  intros Hg Hr. unfold pcp_add_mapping. set (c := MkConfig _ _ _). destruct (pcp_transact_total router c (m_net m)) as (r & c' & w' & E & Hne).
  rewrite (st_bind _ _ _ _ _ (on_net_ret _ m _ _ E)). pose proof (keeps_net m w' Hg) as Hk.
  destruct r as [[l d]|e]; [|eexists _, _; split; [done|]; split; [done|]; split; [done|congruence]].
  destruct (initialize_runs Pcp c' (set_net m w')) as (m' & E' & Hk' & Hm); [apply Hk|by eapply keeps_runs|done|]. rewrite (st_bind _ _ _ _ _ E').
  eexists _, m'. split; [done|]. split; [exact (keeps_trans _ _ _ Hk Hk')|done].
Qed.

Lemma pmp_add_returns router port lifetime m : machine_good m → is_Some (machine_runs Pmp m) →
  ∃ r m', pmp_add_mapping router port lifetime m = Ret (r, m') ∧ machine_keeps m m' ∧ (∀ x, r = Ok x → machine_mapped Pmp m') ∧ r ≠ Err PermanentLeasesOnly.
Proof using Type.
  intros Hg Hr. unfold pmp_add_mapping. set (c := MkConfig _ _ _). destruct (pmp_map_returns router c (m_net m)) as (r & c' & w' & E & Hne).
  rewrite (st_bind _ _ _ _ _ (on_net_ret _ m _ _ E)). pose proof (keeps_net m w' Hg) as Hk.
  destruct r as [l|e]; [|eexists _, _; split; [done|]; split; [done|]; split; [done|congruence]].
  destruct (initialize_runs Pmp c' (set_net m w')) as (m' & E' & Hk' & Hm); [apply Hk|by eapply keeps_runs|done|]. rewrite (st_bind _ _ _ _ _ E').
  eexists _, m'. split; [done|]. split; [exact (keeps_trans _ _ _ Hk Hk')|done].
Qed.

Lemma igdp_add_returns router port lifetime m : machine_good m → is_Some (machine_runs Igdp m) →
  ∃ r m', igdp_add_mapping router port lifetime m = Ret (r, m') ∧ machine_keeps m m' ∧ (∀ x, r = Ok x → machine_mapped Igdp m').
Proof using Type.
  intros Hg Hr. unfold igdp_add_mapping, or_fail. destruct (gateway_returns m Hg) as (r & m1 & E1 & Hk1 & Hgw). rewrite (st_bind _ _ _ _ _ E1).
  destruct r as [[]|e]; [|by eexists _, m1]. destruct (igdp_map_returns port lifetime (m_net m1)) as (r & w & E2).
  rewrite (st_bind _ _ _ _ _ (on_net_ret _ m1 _ _ E2)). pose proof (keeps_net m1 w (proj1 Hk1)) as Hk2. pose proof (keeps_trans _ _ _ Hk1 Hk2) as Hk.
  destruct r as [x|e]; [|by eexists _, _]. set (c := MkConfig _ _ _).
  destruct (initialize_runs Igdp c (set_net m1 w)) as (m' & E' & Hk' & Hm); [apply Hk|by eapply keeps_runs|intros _; by apply Hgw|].
  rewrite (st_bind _ _ _ _ _ E'). eexists _, m'. split; [done|]. split; [exact (keeps_trans _ _ _ Hk Hk')|done].
Qed.

Lemma transactor_cases t : t ∈ transactors → t = PcpTransactor ∨ t = PmpTransactor ∨ t = IgdpTransactor.
Proof using Type. clear. unfold transactors. rewrite !elem_of_cons, elem_of_nil. tauto. Qed.

Lemma find_returns t m : t ∈ transactors → machine_good m → ∃ r m', find_routers t m = Ret (r, m') ∧ machine_keeps m m' ∧
  ∀ ips, r = Ok ips → bool_decide (protocol t ≠ Igdp) = true ∨ (length ips ≤ 1)%nat.
Proof using Type.
  intros [->|[->| ->]]%transactor_cases Hg; [eexists _, m; split; [reflexivity|]; split; [done|]; intros ips _; left; by apply bool_decide_eq_true..|].
  cbn [find_routers IgdpTransactor]. unfold igdp_find_routers, or_fail. destruct (gateway_returns m Hg) as (r & m1 & E1 & Hk & Hgw).
  rewrite (st_bind _ _ _ _ _ E1). destruct r as [[]|e]; [|by eexists _, m1]. destruct (Hgw eq_refl) as [g Hg1].
  rewrite (st_bind _ _ m1 (Some g) m1) by (unfold eval; by rewrite Hg1). eexists _, m1. split; [done|]. split; [done|]. intros ips [= <-]. right. cbn. lia.
Qed.

Lemma ip_returns t router m : t ∈ transactors → machine_good m → ∃ r m', get_public_ip t router m = Ret (r, m') ∧ machine_keeps m m'.
Proof using Hnonce Hpmp.
  intros [->|[->| ->]]%transactor_cases Hg; cbn [get_public_ip PcpTransactor PmpTransactor IgdpTransactor].
  - unfold pcp_get_public_ip. destruct (pcp_transact_total router (MkConfig 9 0 0) (m_net m)) as (r & c' & w' & E & _).
    rewrite (st_bind _ _ _ _ _ (on_net_ret _ m _ _ E)). eexists _, _. split; [done|]. by apply keeps_net.
  - destruct (pmp_ip_returns router (m_net m)) as (r & w' & E). rewrite (on_net_ret _ m _ _ E). eexists _, _. split; [done|]. by apply keeps_net.
  - unfold igdp_get_public_ip, or_fail. destruct (gateway_returns m Hg) as (r & m1 & E1 & Hk & _). rewrite (st_bind _ _ _ _ _ E1).
    destruct r as [[]|e]; [|by eexists _, m1]. destruct (get_external_ip (m_net m1)) as [x w] eqn:Ex.
    rewrite (st_bind _ _ m1 x (set_net m1 w)) by (apply on_net_ret; unfold change; by rewrite Ex). pose proof (keeps_net m1 w (proj1 Hk)) as Hk2.
    destruct x as [ip|]; [|eexists _, _; split; [done|]; exact (keeps_trans _ _ _ Hk Hk2)].
    eexists _, (set_public_ip (set_net m1 w) (Some ip)). split; [done|]. eapply keeps_trans; [exact Hk|]. eapply keeps_trans; [exact Hk2|].
    apply keeps_same; [apply Hk2| |done]. split; [by intros []|done].
Qed.

Lemma add_returns t router port lifetime m : t ∈ transactors → machine_good m → is_Some (machine_runs (protocol t) m) →
  ∃ r m', add_mapping t router port lifetime m = Ret (r, m') ∧ machine_keeps m m' ∧ (∀ x, r = Ok x → machine_mapped (protocol t) m') ∧
    (r = Err PermanentLeasesOnly → ∃ r m'', add_permanent_mapping t router port m' = Ret (r, m'') ∧ machine_keeps m' m'' ∧
       (∀ x, r = Ok x → machine_mapped (protocol t) m'')).
Proof using Hnonce.
  intros [->|[->| ->]]%transactor_cases Hg Hr; cbn [add_mapping add_permanent_mapping protocol PcpTransactor PmpTransactor IgdpTransactor] in *.
  - destruct (pcp_add_returns router port lifetime m Hg Hr) as (r & m' & ? & ? & ? & ?). by exists r, m'.
  - destruct (pmp_add_returns router port lifetime m Hg Hr) as (r & m' & ? & ? & ? & ?). by exists r, m'.
  - destruct (igdp_add_returns router port lifetime m Hg Hr) as (r & m' & E & Hk & Hm). exists r, m'. split; [done|]. split; [done|]. split; [done|]. intros _.
    unfold igdp_add_permanent_mapping, or_fail. destruct (igdp_add_returns router port 0 m') as (r2 & m2 & E2 & Hk2 & Hm2); [apply Hk|by eapply keeps_runs|].
    rewrite (st_bind _ _ _ _ _ E2). destruct r2 as [x|e]; [|by eexists _, m2]. eexists _, m2. split; [done|]. split; [done|]. intros _ _. by eapply Hm2.
Qed.

Lemma delete_returns t router port m : t ∈ transactors → machine_good m → is_Some (machine_runs (protocol t) m) →
  ∃ r m', delete_mapping t router port m = Ret (r, m') ∧ machine_keeps m m'.
Proof using Hnonce.
  intros [->|[->| ->]]%transactor_cases Hg Hr; cbn [delete_mapping protocol PcpTransactor PmpTransactor IgdpTransactor] in *.
  - unfold pcp_delete_mapping. destruct (pcp_transact_total router (MkConfig port 0 0) (m_net m)) as (r & c' & w' & E & _).
    rewrite (st_bind _ _ _ _ _ (on_net_ret _ m _ _ E)). eexists _, _. split; [done|]. by apply keeps_net.
  - unfold pmp_delete_mapping, or_fail. destruct (pmp_add_returns router port 0 m Hg Hr) as (r & m' & E & Hk & _). rewrite (st_bind _ _ _ _ _ E).
    destruct r; by eexists _, m'.
  - unfold igdp_delete_mapping, or_fail. destruct (gateway_returns m Hg) as (r & m1 & E1 & Hk & _). rewrite (st_bind _ _ _ _ _ E1).
    destruct r as [[]|e]; [|by eexists _, m1]. destruct (remove_port port (m_net m1)) as [x w] eqn:Ex.
    rewrite (st_bind _ _ m1 x (set_net m1 w)) by (apply on_net_ret; unfold change; by rewrite Ex). eexists _, _. split; [done|].
    eapply keeps_trans; [exact Hk|]. apply keeps_net, Hk.
Qed.

(** The transactors of the program do what the control asks of transactors. *)
Global Instance machine_housekept : Housekept transactors send.
Proof using Hnonce Hpmp.
  refine {| good := machine_good; runs := machine_runs; spent := machine_spent; mapped := machine_mapped; restarts p := bool_decide (p ≠ Igdp);
            law_find := find_returns; law_ip := ip_returns; law_add := add_returns; law_delete := delete_returns |}.
  - cbn. repeat (constructor; [set_solver|]). constructor.
  - intros []; [exists PmpTransactor|exists PcpTransactor|exists IgdpTransactor]; (split; [|done]); unfold transactors; set_solver.
  - intros t router m [->|[->| ->]]%transactor_cases; apply start_runs.
  - intros t m [->|[->| ->]]%transactor_cases Hg Hr; destruct (stop_runs _ m Hg Hr) as (m' & E & ? & ? & ? & ? & Hsp); exists m';
      (do 5 (split; [done|])); intros Hre%bool_decide_eq_true; by apply Hsp.
  - intros p tid ms m Hg Hr Hm. destruct (send_runs p m tid (SetRemapIntervalMs ms)) as (m' & E & Hk & _); [done..|]. by exists m'.
Defined.

(** ** The life of the control *)

Definition fresh_machine (w : W) : Machine := MkMachine w [] [] (MkLink None None) (MkLink None None) (MkLink None None) None None.

Context (ports_of : gset Z → list Z).

(** Requests for the address and for mappings, with turns of the threads and other
    events of the machine in between, as long as no attempt with IGDP has failed. *)
Inductive life : Auto (M := Machine (W := W)) → Prop :=
| life_new usual w : life (control_new usual, fresh_machine w)
| life_ip a r a' : life a → control_get_public_ip transactors a = Ret (r, a') → machine_spent Igdp a'.2 = false → life a'
| life_add port a r a' : life a → control_add_mapping transactors send port a = Ret (r, a') → machine_spent Igdp a'.2 = false → life a'
| life_turn tid a : life a → life (a.1, tick tid a.2)
| life_wait w a : life a → life (a.1, set_net a.2 w).

Lemma only_igdp_spent m : machine_good m → machine_spent Igdp m = false → ∀ p, machine_spent p m = false.
Proof using Type.
  intros Hg Hs p. destruct (machine_spent p m) eqn:E; [|done]. unfold machine_spent in E. destruct (housekeeper_commander_opt (link p m)) as [tid|] eqn:Ec; [|done].
  destruct (Hg p tid Ec) as [(t & Ht & _)|[-> Ht]]; [by rewrite Ht in E|]. unfold machine_spent in Hs. by rewrite Ec, Ht in Hs.
Qed.

Lemma auto_ok_keeps a m' : auto_ok transactors send a → machine_keeps a.2 m' → auto_ok transactors send (a.1, m').
Proof using Type.
  destruct a as [c m]. unfold auto_ok. cbn [fst snd]. intros Hok Hk. destruct (inner_opt c) as [inner|].
  - destruct Hok as (t & Ht & Hb & Hu). exists t. split; [done|]. split; [by eapply busy_keeps|done].
  - destruct Hok as [Hi Hh]. split; [by eapply idle_keeps|done].
Qed.

Lemma auto_ok_good a : auto_ok transactors send a → machine_good a.2.
Proof using Type. unfold auto_ok. destruct (inner_opt a.1); [intros (t & _ & Hb & _); apply Hb|intros [Hi _]; apply Hi]. Qed.

Lemma life_ok a : life a → auto_ok transactors send a ∧ machine_spent Igdp a.2 = false.
Proof using Type.
  induction 1 as [usual w|a r a' _ [Hok Hs] E Hs'|port a r a' _ [Hok Hs] E Hs'|tid a _ [Hok Hs]|w a _ [Hok Hs]].
  - split; [|done]. split; [|done]. split; [by intros [] tid Hc|]. split; [done|]. by intros [].
  - split; [|done]. destruct (get_spec transactors send a Hok) as (r1 & a1 & E1 & Hok1 & _); [by apply only_igdp_spent; [apply auto_ok_good|]|]. congruence.
  - split; [|done]. destruct (add_spec transactors send port a Hok) as (r1 & a1 & E1 & Hok1 & _); [by apply only_igdp_spent; [apply auto_ok_good|]|]. congruence.
  - pose proof (tick_keeps a.2 tid (auto_ok_good _ Hok)) as Hk. split; [by apply auto_ok_keeps|]. destruct Hk as (_ & _ & Hsp). cbn. by rewrite Hsp.
  - pose proof (keeps_net a.2 w (auto_ok_good _ Hok)) as Hk. split; [by apply auto_ok_keeps|]. destruct Hk as (_ & _ & Hsp). cbn. by rewrite Hsp.
Qed.

End exchanges.

(** ** A mapping stays open *)

Section opened.
Context {W : Type} `{!Network W} (router : IpAddr) (port lease : Z) (open_until : W → Z) (slack : Z).
Context (Hport : 0 ≤ port < 2 ^ 16) (Hlease : 10 ≤ lease < 2 ^ 32) (Hslack : 0 ≤ slack ≤ NANOS).
Context (Hnonce : ∀ w : W, length (mapping_nonce w) = 12%nat).
Context (Hlocal : ∀ w : W, ∃ ip, local_ip w = Some ip ∧ ip_canonical ip = true).
(** Sleeping takes its time and little more, and mappings do not change meanwhile. *)
Context (Hsleep : ∀ d (w : W), 0 ≤ d → now w + d ≤ now (sleep d w) ≤ now w + d + slack ∧ open_until w ≤ open_until (sleep d w)).
(** The router answers a request to map the port for the lease with that lease. *)
Context (Hrouter : ∀ (w : W) bytes ip nonce, Pcp.try_from bytes = Ret (Ok (pcp_request (MkConfig port (from_secs lease) 0) ip nonce)) →
  ∃ epoch external w', udp router bytes w =
      (Datagram (Pcp.packet_bytes (Pcp.MkPcp Response Pcp.Map (Some Pcp.Success) lease None (Some epoch) (Pcp.MapData (Pcp.MkMap nonce Pcp.Tcp port port external)))), w') ∧
    0 ≤ epoch < 2 ^ 32 ∧ ip_canonical external = true ∧ now w ≤ now w' ≤ now w + slack ∧ now w + from_secs lease ≤ open_until w').

Definition mapping : MappingConfig := MkConfig port (from_secs lease) (from_secs (lease / 2)).

Lemma lease_seconds : as_secs (from_secs lease) mod 2 ^ 32 = lease.
Proof using Hlease. unfold as_secs, from_secs. rewrite Z.div_mul by done. apply Z.mod_small. lia. Qed.

Lemma request_canonical interval ip nonce : length nonce = 12%nat → ip_canonical ip = true →
  Pcp.canonical (pcp_request (MkConfig port (from_secs lease) interval) ip nonce) = true.
Proof using Hport Hlease.
  intros Hn Hip. unfold Pcp.canonical, pcp_request, next_lifetime_secs. cbn [Pcp.lifetime Pcp.opcode Pcp.opcode_data Pcp.direction Pcp.result_code_opt
    Pcp.client_ip_opt Pcp.epoch_time_opt next_lifetime hole_port]. rewrite lease_seconds, Hip.
  unfold Pcp.map_canonical, Pcp.u32_ok, Pcp.port_ok. cbn [Pcp.mapping_nonce Pcp.protocol Pcp.internal_port Pcp.external_port Pcp.external_ip_address].
  rewrite Hn. cbn [Nat.eqb Pcp.protocol_canonical ip_canonical andb].
  rewrite !(proj2 (Z.leb_le _ _)), !(proj2 (Z.ltb_lt _ _)) by lia. done.
Qed.

(** A request to map the port for the lease is granted. *)
Lemma lease_granted interval (w : W) : ∃ d w', pcp_transact router (MkConfig port (from_secs lease) interval) w = Ret ((Ok (lease, d), mapping), w') ∧
  now w ≤ now w' ≤ now w + slack ∧ now w + from_secs lease ≤ open_until w'.
Proof using Hport Hlease Hnonce Hlocal Hrouter.
  destruct (Hlocal w) as (ip & Hip & Hcan). set (c := MkConfig port (from_secs lease) interval). set (nonce := mapping_nonce w).
  unfold pcp_transact. rewrite (st_bind _ _ w (Some ip) w) by (unfold eval; by rewrite Hip). rewrite (st_bind _ _ w nonce w) by done.
  set (request := Pcp.packet_bytes (pcp_request c ip nonce)). rewrite (st_bind _ _ w request w) by (unfold lift; rewrite pcp_request_bytes by apply Hnonce; done).
  assert (Pcp.try_from request = Ret (Ok (pcp_request c ip nonce))) as Hparse.
  { rewrite <- (app_nil_r request). apply Pcp.pcp_try_from_roundtrip. apply request_canonical; [apply Hnonce|done]. }
  destruct (Hrouter w request ip nonce Hparse) as (epoch & external & w' & Hu & He & Hx & Hnow & Hopen).
  set (response := Pcp.MkPcp _ _ _ _ _ _ _) in Hu. rewrite (st_bind _ _ w (Datagram (Pcp.packet_bytes response)) w') by (unfold change; by rewrite Hu).
  exists (Pcp.MkMap nonce Pcp.Tcp port port external), w'. split; [|done]. unfold lift. cbn [pcp_answer].
  assert (Pcp.canonical response = true) as Hcr.
  { unfold Pcp.canonical, response. cbn [Pcp.lifetime Pcp.opcode Pcp.opcode_data Pcp.direction Pcp.result_code_opt Pcp.client_ip_opt Pcp.epoch_time_opt].
    unfold Pcp.map_canonical, Pcp.u32_ok, Pcp.port_ok. cbn [Pcp.mapping_nonce Pcp.protocol Pcp.internal_port Pcp.external_port Pcp.external_ip_address].
    unfold nonce. rewrite Hnonce, Hx. cbn [Nat.eqb Pcp.protocol_canonical andb]. rewrite !(proj2 (Z.leb_le _ _)), !(proj2 (Z.ltb_lt _ _)) by lia. done. }
  assert (length (Pcp.packet_bytes response) = 60%nat) as Hlen.
  { unfold Pcp.packet_bytes. rewrite !length_app, Pcp.length_address_bytes, length_be_digits. cbn [response Pcp.opcode_data Pcp.data_bytes].
    rewrite Pcp.length_map_bytes by (apply Hnonce). done. }
  rewrite take_ge by (rewrite Hlen; lia). rewrite <- (app_nil_r (Pcp.packet_bytes response)), (Pcp.pcp_try_from_roundtrip response [] Hcr). done.
Qed.

(** The lease was counted from the last remapping or later, and the thread is not overdue. *)
Definition in_time (t : Thread) (w : W) : Prop :=
  th_last_remapped t + from_secs lease - slack ≤ open_until w ∧
  (now w - th_last_remapped t ≤ from_secs (lease / 2) ∨ now w + from_secs lease - slack ≤ open_until w).

Definition settled_thread (t : Thread) (w : W) : Prop := th_router t = router ∧ th_config t = Some mapping ∧ in_time t w.

Lemma seconds_of_lease : 2 * from_secs (lease / 2) ≤ from_secs lease ∧ 10 * NANOS ≤ from_secs lease.
Proof using Hlease. unfold from_secs, NANOS. pose proof (Z.mul_div_le lease 2). lia. Qed.

Lemma rest_in_time t (w : W) : settled_thread t w → ∃ t' w', pcp_rest_of_turn t w = Ret (([], Some t'), w') ∧ settled_thread t' w' ∧
  th_queue t' = th_queue t ∧ now w < now w' < open_until w.
Proof using Hport Hlease Hslack Hnonce Hlocal Hsleep Hrouter.
  intros (Hr & Hc & HA & HB). unfold pcp_rest_of_turn. set (w1 := sleep (from_millis HOUSEKEEPING_THREAD_LOOP_DELAY_MILLIS) w).
  destruct (Hsleep (from_millis HOUSEKEEPING_THREAD_LOOP_DELAY_MILLIS) w) as [Ht1 Ho1]; [done|]. fold w1 in Ht1, Ho1.
  change (from_millis HOUSEKEEPING_THREAD_LOOP_DELAY_MILLIS) with NANOS in *. pose proof seconds_of_lease as [Hhalf Hten].
  rewrite (st_bind _ _ w () w1), (st_bind _ _ w1 (now w1) w1), Hc by done. change (remap_interval mapping) with (from_secs (lease / 2)).
  unfold NANOS in *. destruct (Z.ltb_spec (from_secs (lease / 2)) (now w1 - th_last_remapped t)) as [Hdue|Hdue].
  - unfold pcp_remap_port. rewrite Hr. change (next_lifetime mapping) with (from_secs lease). rewrite lease_seconds. cbv zeta.
    rewrite (proj2 (Z.ltb_ge lease 1)) by lia. destruct (lease_granted (remap_interval mapping) w1) as (d & w2 & E & Hn & Ho).
    rewrite (st_bind _ _ w1 (Ok lease, mapping) w2) by (by rewrite (st_bind _ _ _ _ _ E)). rewrite (st_bind _ _ w2 (now w2) w2) by done.
    eexists _, w2. split; [done|]. split; [|split; [done|lia]]. split; [done|]. split; [done|]. split; cbn [th_last_remapped set_last_remapped]; [lia|left].
    rewrite Z.sub_diag. unfold from_secs, NANOS. pose proof (Z.div_pos lease 2). lia.
  - exists t, w1. split; [done|]. split; [|split; [done|lia]]. split; [done|]. split; [done|]. split; [lia|by left].
Qed.

(** What the thread was left with by [add_mapping] and the control. *)
Definition first_commands : list HousekeepingThreadCommand := [InitializeMappingConfig mapping; SetRemapIntervalMs (lease / 2 * 1000)].

Definition kept (t : Thread) (w : W) : Prop :=
  th_router t = router ∧ in_time t w ∧
  (th_queue t = first_commands ∨ th_config t = Some mapping ∧ (th_queue t = tail first_commands ∨ th_queue t = [])).

Lemma turn_in_time t w : kept t w → ∃ t' w', pcp_iteration t w = Ret (([], Some t'), w') ∧ kept t' w' ∧ now w < now w' < open_until w.
Proof using Hport Hlease Hslack Hnonce Hlocal Hsleep Hrouter.
  intros (Hr & Hin & Hq). unfold pcp_iteration. destruct Hq as [Hq|[Hc [Hq|Hq]]]; rewrite Hq; cbn [first_commands tail].
  - set (t0 := set_config _ _). destruct (rest_in_time t0 w) as (t' & w' & E & (Hr' & Hc' & Hin') & Hq' & Hn); [done|].
    exists t', w'. split; [done|]. split; [|done]. split; [done|]. split; [done|]. right. split; [done|]. by left.
  - assert (set_interval mapping (lease / 2 * 1000) = mapping) as Hi.
    { unfold set_interval, mapping. cbn [hole_port next_lifetime]. f_equal. unfold from_millis, from_secs, NANOS. lia. }
    rewrite Hc. cbn [fmap option_fmap option_map]. rewrite Hi. set (t0 := set_config _ _).
    destruct (rest_in_time t0 w) as (t' & w' & E & (Hr' & Hc' & Hin') & Hq' & Hn); [done|].
    exists t', w'. split; [done|]. split; [|done]. split; [done|]. split; [done|]. right. split; [done|]. by right.
  - destruct (rest_in_time t w) as (t' & w' & E & (Hr' & Hc' & Hin') & Hq' & Hn); [done|].
    exists t', w'. split; [done|]. split; [|done]. split; [done|]. split; [done|]. right. split; [done|]. right. by rewrite Hq'.
Qed.

(** The thread and the world after some turns, unless the thread ends. *)
Fixpoint after_turns (n : nat) (t : Thread) (w : W) : option (Thread * W) :=
  match n with
  | O => Some (t, w)
  | S n => match pcp_iteration t w with Ret ((_, Some t), w) => after_turns n t w | _ => None end
  end.

(** C23: a port that was mapped with PCP stays open.  The thread that was told of the
    mapping asks for it again before the lease runs out: when the router grants the
    lease of at least ten seconds anew each time it is asked, and sleeping and asking
    take at most a second longer than they must, then through any number of turns the
    thread goes on, tells the change handler nothing, and at the end of each turn
    the mapping that was in force at its beginning has not run out yet. *)
Theorem pcp_mapping_stays_open (t : Thread) (w : W) (n : nat) :
  th_router t = router → th_queue t = first_commands → th_last_remapped t ≤ now w → now w + from_secs lease - slack ≤ open_until w →
  ∃ tn wn t' w', after_turns n t w = Some (tn, wn) ∧ pcp_iteration tn wn = Ret (([], Some t'), w') ∧ now wn < now w' < open_until wn.
Proof using Hport Hlease Hslack Hnonce Hlocal Hsleep Hrouter.
  intros Hr Hq Hlast Hopen. assert (kept t w) as Hk by (split; [done|]; split; [split; [lia|by right]|by left]).
  clear Hr Hq Hlast Hopen. revert t w Hk. induction n as [|n IH]; intros t w Hk; destruct (turn_in_time t w Hk) as (t' & w' & E & Hk' & Hn).
  - by exists t, w, t', w'.
  - cbn [after_turns]. rewrite E. by apply IH.
Qed.
End opened.

(** ** Witnesses and behaviours on the side *)

Module Demo.
Inductive Speaks := SpeaksPcp | SpeaksPmp | SpeaksOther.

(** A network with one router: the time, until when the port is open, what the
    router understands, and the gateway that can be found with its address. *)
Record Lan := MkLan {
  l_time : Z;
  l_open : Z;
  l_speaks : Speaks;
  l_gateway : option Z;
  l_external : option Z
}.

Definition set_open (l : Lan) (secs : Z) : Lan := MkLan (l_time l) (l_time l + from_secs secs) (l_speaks l) (l_gateway l) (l_external l).

Definition lan_pcp (bytes : list Z) (l : Lan) : Exchange * Lan :=
  match Pcp.try_from bytes with
  | Ret (Ok (Pcp.MkPcp Request Pcp.Map _ secs _ _ (Pcp.MapData d))) =>
      (Datagram (Pcp.packet_bytes (Pcp.MkPcp Response Pcp.Map (Some Pcp.Success) secs None (Some 0)
         (Pcp.MapData (Pcp.MkMap (Pcp.mapping_nonce d) (Pcp.protocol d) (Pcp.internal_port d) (Pcp.external_port d) (IpV4 77))))), set_open l secs)
  | _ => (TimedOut, l)
  end.

Definition lan_pmp (bytes : list Z) (l : Lan) : Exchange * Lan :=
  match Pmp.try_from bytes with
  | Ret (Ok (Pmp.MkPmp Request Pmp.Get _ _)) =>
      (Datagram (Pmp.packet_bytes (Pmp.MkPmp Response Pmp.Get (Some Pmp.Success) (Pmp.GetData (Pmp.MkGet (Some 0) (Some 77))))), l)
  | Ret (Ok (Pmp.MkPmp Request Pmp.MapTcp _ (Pmp.MapData d))) =>
      (Datagram (Pmp.packet_bytes (Pmp.MkPmp Response Pmp.MapTcp (Some Pmp.Success)
         (Pmp.MapData (Pmp.MkMap (Some 0) (Pmp.internal_port d) (Pmp.external_port d) (Pmp.lifetime d))))), set_open l (Pmp.lifetime d))
  | _ => (TimedOut, l)
  end.

Definition lan_udp (bytes : list Z) (l : Lan) : Exchange * Lan :=
  match l_speaks l with SpeaksPcp => lan_pcp bytes l | SpeaksPmp => lan_pmp bytes l | SpeaksOther => (TimedOut, l) end.

#[export] Instance lan_network : Network Lan := {|
  now := l_time;
  sleep d l := MkLan (l_time l + d) (l_open l) (l_speaks l) (l_gateway l) (l_external l);
  ip_route _ := Some "default via 192.168.0.1 dev eth0"%string;
  local_ip _ := Some (IpV4 10);
  mapping_nonce _ := replicate 12 0;
  udp _ := lan_udp;
  search_gateway := l_gateway;
  get_external_ip l := (l_external l, l);
  add_port _ _ secs l := (PortAdded, set_open l secs);
  remove_port _ l := (true, set_open l 0)
|}.

Lemma lan_nonce (w : Lan) : length (mapping_nonce w) = 12%nat.
Proof. reflexivity. Qed.

Lemma lan_answers (router : IpAddr) (w : Lan) bytes w' p : udp router (Pmp.packet_bytes pmp_get_request) w = (Datagram bytes, w') →
  Pmp.try_from (take 1100 bytes) = Ret (Ok p) → Pmp.direction p = Response ∧ Pmp.opcode p = Pmp.Get.
Proof.
  cbn. unfold lan_udp. destruct (l_speaks w); [|change (Pmp.packet_bytes pmp_get_request) with [0; 0]|done]; [by vm_compute|].
  intros Hb Hp. assert (bytes = Pmp.packet_bytes (Pmp.MkPmp Response Pmp.Get (Some Pmp.Success) (Pmp.GetData (Pmp.MkGet (Some 0) (Some 77))))) as ->.
  { vm_compute in Hb. by injection Hb as <- _. }
  vm_compute in Hp. injection Hp as <-. done.
Qed.

Definition fresh (l : Lan) : Auto := (control_new None, fresh_machine l).
Definition in_order : gset Z → list Z := elements.

(** A router that speaks PMP: port 5000 is mapped, and the second thread is the one that runs. *)
Definition pmp_lan : Lan := MkLan 0 0 SpeaksPmp None None.
Definition mapped_state : Auto := match control_add_mapping transactors send 5000 (fresh pmp_lan) with Ret (_, a) => a | Panic => fresh pmp_lan end.


(** A router that speaks PCP, with port 5000 just mapped for ten minutes. *)
Definition pcp_lan : Lan := MkLan 0 (from_secs 600) SpeaksPcp None None.
Definition the_router : IpAddr := IpV4 0xC0A80001.
Definition pcp_thread : Thread := MkThread the_router (first_commands 5000 600) None 0 0.

Definition pcp_network : Network Lan := {|
  now := l_time;
  sleep d l := MkLan (l_time l + d) (l_open l) (l_speaks l) (l_gateway l) (l_external l);
  ip_route _ := None; local_ip _ := Some (IpV4 0x0A000001); mapping_nonce _ := replicate 12 0;
  udp _ := lan_pcp; search_gateway _ := None; get_external_ip l := (None, l);
  add_port _ _ _ l := (AddPortFailed, l); remove_port _ l := (false, l)
|}.

Lemma pcp_mapping_stays_open_witness : ∃ tn wn t' w', after_turns (Network0 := pcp_network) 1000 pcp_thread pcp_lan = Some (tn, wn) ∧
  pcp_iteration (Network0 := pcp_network) tn wn = Ret (([], Some t'), w') ∧ l_time wn < l_time w' < l_open wn.
Proof.
  apply (pcp_mapping_stays_open (Network0 := pcp_network) the_router 5000 600 l_open 0).
  - lia.
  - lia.
  - vm_compute; split; discriminate.
  - intros w. reflexivity.
  - intros w. exists (IpV4 0x0A000001). split; reflexivity.
  - intros d w Hd. cbn. lia.
  - intros w bytes ip nonce Hb. exists 0, (IpV4 77), (set_open w 600). cbn [udp pcp_network]. unfold lan_pcp. rewrite Hb.
    split; [reflexivity|]. split; [lia|]. split; [reflexivity|]. cbn. lia.
  - reflexivity.
  - reflexivity.
  - vm_compute. discriminate.
  - vm_compute. discriminate.
Defined.

(** A turn after five minutes renews the lease. *)
Example renewed_in_time : match after_turns (Network0 := pcp_network) 301 pcp_thread pcp_lan with
                          | Some (t, w) => (l_time w, l_open w) = (from_secs 301, from_secs 901)
                          | None => False
                          end.
Proof. vm_compute. reflexivity. Qed.

(** IGDP: attempts that fail with it leave its commander behind, and the next ones panic. *)
Definition mute_lan : Lan := MkLan 0 0 SpeaksOther (Some 1) None.

Definition result_of {A} (r : run (result AutomapError A * Auto (M := Machine (W := Lan)))) : option (result AutomapError A) :=
  match r with Ret (x, _) => Some x | Panic => None end.
Definition state_of {A} (r : run (result AutomapError A * Auto (M := Machine (W := Lan)))) : Auto :=
  match r with Ret (_, a) => a | Panic => fresh mute_lan end.

Example second_failure_panics : let r := control_get_public_ip transactors (fresh mute_lan) in
  result_of r = Some (Err (AllProtocolsFailed [(Pcp, ProtocolError); (Pmp, ProtocolError); (Igdp, GetPublicIpError)])) ∧
  result_of (control_get_public_ip transactors (state_of r)) = None.
Proof. split; vm_compute; reflexivity. Qed.

(** Once the mappings were deleted nothing can be mapped again, nor deleted again. *)
Definition deleted_state : Auto := state_of (control_delete_mappings transactors in_order mapped_state).

Example nothing_after_deletion : result_of (control_delete_mappings transactors in_order mapped_state) = Some (Ok ()) ∧
  result_of (control_add_mapping transactors send 5000 deleted_state) = None ∧ result_of (control_delete_mappings transactors in_order deleted_state) = None.
Proof. split; [|split]; vm_compute; reflexivity. Qed.

(** PMP: the thread maps the port again between its deletion and the end of the thread. *)
Example deletion_undone : l_time (m_net deleted_state.2) < l_open (m_net deleted_state.2).
Proof. vm_compute. reflexivity. Qed.

(** The thread knows the last mapped port only. *)
Definition second_port : Auto := state_of (control_add_mapping transactors send 5001 mapped_state).

Example first_port_forgotten : elements (hole_ports second_port.1) = [5001; 5000] ∧
  match m_threads (Nat.iter 5 (tick 1) second_port.2) !! 1%nat with Some (Live _ t) => hole_port <$> th_config t = Some 5001 | _ => False end.
Proof. split; vm_compute; reflexivity. Qed.

(** PMP: the command that sets the interval changes nothing. *)
Example pmp_interval_ignored :
  pmp_iteration (MkThread the_router [SetRemapIntervalMs 5000] (Some (MkConfig 5000 (from_secs 600) (from_secs 300))) 0 0) pmp_lan =
  Ret (([], Some (MkThread the_router [] (Some (MkConfig 5000 (from_secs 600) (from_secs 300))) 0 0)), MkLan NANOS 0 SpeaksPmp None None).
Proof. vm_compute. reflexivity. Qed.

(** PMP: a datagram that is no response to the request for the public address is a panic. *)
Definition stray_network (bytes : list Z) : Network Lan := {|
  now := l_time; sleep _ l := l; ip_route _ := None; local_ip _ := None; mapping_nonce _ := replicate 12 0;
  udp _ _ l := (Datagram bytes, l); search_gateway _ := None; get_external_ip l := (None, l);
  add_port _ _ _ l := (AddPortFailed, l); remove_port _ l := (false, l)
|}.

Example stray_datagram_panics : pmp_get_public_ip (Network0 := stray_network [0; 0]) the_router pmp_lan = Panic.
Proof. vm_compute. reflexivity. Qed.

(** IGDP: a lease is renewed for the time between renewals, and has run out when the next one is due. *)
Definition igdp_lan : Lan := MkLan 0 0 SpeaksOther (Some 1) (Some 77).
Definition igdp_turns_after (n : nat) : option (Z * Z) :=
  match control_add_mapping transactors send 5000 (fresh igdp_lan) with
  | Ret (Ok _, a) => let m := Nat.iter n (tick 2) a.2 in Some (as_millis (l_time (m_net m)), as_millis (l_open (m_net m)))
  | _ => None
  end.

Example igdp_lease_lapses : igdp_turns_after 3010 = Some (301000, 600500) ∧ igdp_turns_after 6009 = Some (600900, 600500).
Proof. split; vm_compute; reflexivity. Qed.
End Demo.
End Housekeeping.
